(* ===== verification/_CoqProject ===== *)
-Q . S2P
Prelude.v
Tracker.v
Workflow.v
RetryPolicy.v
Payload.v
GoStd.v
Template.v
Types.v
State.v
Ops.v
Cleanup.v
Dispatch.v
Finalize.v
Retry.v
Reconcile.v
RuntimeEvents.v
Snapshot.v
Candidates.v
Poller.v
Runtime.v
Effects.v
System.v
Preserve.v
Invariants.v
Refinement.v
Safety.v
Logs.v
DispatchProps.v
RetryProps.v
RetryLive.v
AccountingProps.v
PollerProps.v
ReconcileProps.v
GraphQL.v
GraphQLUpdate.v
GraphQLProps.v
GraphQLGuard.v
GiteaLabels.v
GiteaClient.v
GiteaProps.v
GiteaTools.v
Paths.v
AgentErrors.v
Sys.v
SafeRemove.v
Hashes.v
WorkspaceKey.v
Redact.v
TemplateProps.v
GitCmd.v
Artifacts.v
Worktree.v
WorktreeProps.v
Profiles.v
EnvPolicy.v
Hooks.v
GoCache.v
WorkspaceRemoval.v
RunTask.v
RunTaskProps.v
Config.v
Loader.v
LoaderProps.v
TrackerErrors.v
Linear.v
LinearProps.v
Regex.v
Github.v
GithubProps.v
GithubRefresh.v
AppMessages.v
AppCommand.v
AppServer.v
AppServerProps.v
Sandbox.v
Tools.v
StateApi.v
Commands.v
Doctor.v
Tui.v
