(* ===== verification/Prelude.v ===== *)
(** * aiops-platform

    aiops-platform is a worker process that polls an issue tracker, gives every eligible
    issue a git workspace, runs a coding agent in it, and reconciles what it runs with
    what the tracker says.  This library models the worker from the workflow file it is
    configured by to the messages it exchanges with an agent:
    - the scheduling core, internal/orchestrator, with the tracker data it builds on;
    - the clients of the three trackers: internal/tracker (Linear, GitHub), internal/gitea;
    - the workspaces: internal/workspace, with what internal/worker removes and runs there;
    - the workflow file and its templates: internal/workflow, internal/trackerprofile;
    - the runner of an agent: internal/runner, its process, its sandbox, its session and
      the tools it offers;
    - the API an operator reads: cmd/worker (stateapi.go, statehttp_server.go, redact.go);
    - the commands (cmd/worker/main.go, internal/worker/print_config.go), the preflight
      checks (internal/doctor) and the dashboard of a terminal (cmd/tui).

    ** How the program works

    One goroutine, the actor (actor.go, [Orchestrator.Run]), owns the
    [OrchestratorState] and applies operations to it one at a time.  An operation may
    return a followup, which the actor starts on a fresh goroutine: spawn a worker, arm a
    retry, fetch the candidates for a fired retry, cancel runs, remove a workspace.
    Followups submit further operations.  Outside the actor, the poller runs a tick:
    reconcile the claimed issues, check the configuration, list and order candidates,
    re-read their state, request dispatches.  An issue is claimed while it has a worker, a
    queued retry or a block; workspace removal reserves an issue that nothing claims.

    What the poller reads comes from a tracker client: it lists the issues in given
    states, re-reads issues by reference, and says which open issues block a candidate.
    Its rule is to fail closed: an answer that may be incomplete is an error or Unknown,
    never an absence.

    A worker runs one task ([RunTaskWithResult]): it prepares a git worktree of a shared
    mirror and holds its ownership, runs the hooks, renders the prompt, starts the agent
    and reports the phases of the attempt.  The agent is a `codex app-server`: a process
    started below the workspace root, in a sandbox when one is configured, with an
    environment without tracker secrets.  The client speaks JSON-RPC with it over pipes:
    it starts a thread and turns, answers the requests of the agent by the approval
    policy, calls the tools the agent asks for, and after a turn asks the tracker if the
    issue is still active.  The Linear tool forwards a GraphQL document after a lexical
    gate has decided that it holds one operation, that its root field is allowed, and that
    an update of an issue is of the agent's own issue; the Gitea tool replaces one state
    label by another and reads the issue back; the workpad tool keeps one comment.  What
    the runner reports is folded into the state of the run.

    The workflow file is loaded, expanded, validated and hot-reloaded; a reload that fails
    keeps the last good configuration.  The state is served over HTTP to loopback peers,
    or to holders of a token; a dashboard in a terminal polls it and draws frames.  The
    worker starts its parts in a fixed order, and can print its configuration, or check
    its host, tracker and agent, instead.

    ** Files

    Definitions are named after the Go function or type they translate.  In the order of
    the project file:
    - Prelude (this file): record update, wrapping integers, times, strings, iteration
      over maps, stable sorting, tactics and generic lemmas;
    - Tracker, Workflow, RetryPolicy, Payload: issues and rows, limits by state, retry
      delays with the interface [Scheduler] the retry operations are proved against, and
      the dynamic values of events;
    - GoStd: what the code uses of Go's strconv, strings, net/url, html and time packages
      (RFC 3339), on bytes; Template: the prompt templates;
    - Types, State, Ops, Cleanup, Dispatch, Finalize, Retry, Reconcile, RuntimeEvents,
      Snapshot: the records and operations of the actor (state*.go, status.go, retry.go,
      actor_*.go, runtime_events.go, views.go);
    - Candidates, Poller, Runtime: selection, the tick and the reload (poller*.go,
      preflight.go, workflow_runtime.go, runtime_poller.go);
    - Effects: [slot] is the abstract view of one issue, and one lemma per operation says
      which abstract transition it is; System: the actor with its goroutines as an
      executable step [perform] on a [World], and the relation [step];
    - Preserve, Invariants, Refinement, Safety, Logs, RetryLive: what holds in every
      execution: one worker per issue, owned claims, no removal under a worker, the
      ownership automaton [own_step] that every operation refines, the concurrency bound,
      [Done] closed once, bounded logs, and retries that are driven;
    - DispatchProps, RetryProps, AccountingProps, PollerProps, ReconcileProps: what single
      operations and ticks compute, branch by branch;
    - GraphQL, GraphQLUpdate, GraphQLGuard: the scanners and the gate of linear_graphql;
      GraphQLProps: they read printed documents back, and end, and the scan finds what a
      document executes;
    - GiteaLabels, GiteaClient, GiteaProps, GiteaTools: states as labels, the Gitea client
      and the evidence its answers are, and the label tool against a server;
    - Paths, Sys, SafeRemove, Hashes, WorkspaceKey, Redact, GitCmd, Artifacts, Worktree,
      WorktreeProps, Hooks, WorkspaceRemoval: file paths, programs over the operating
      system and their logic, and the parts of internal/workspace and internal/worker that
      name, make, use and remove workspaces;
    - AgentErrors: the errors and results of a runner; RunTask, RunTaskProps: one task;
    - Profiles, EnvPolicy, GoCache: what a tracker's settings mean, what child processes
      inherit, the Go caches of workspaces;
    - Config, Loader, LoaderProps: the workflow file, what is admitted and what is not;
    - TrackerErrors: the errors of the adapters and the logic of programs that ask a
      server; Linear, LinearProps; Regex: leftmost-first matching; Github, GithubProps
      (with the blockers), GithubRefresh;
    - AppMessages, AppCommand, AppServer, AppServerProps: the messages of the agent, its
      command and the queue of its lines, the client's session, and what a session keeps
      whatever the agent sends; Sandbox: the set-up of the process;
    - Tools: the tools, the transport of linear_graphql, the workpad;
    - StateApi: the API, its redaction and its server; Commands: flags, the printed
      configuration, the start of the worker; Doctor: the preflight checks; Tui: the frames
      of the dashboard.

    ** What the theorems show

    - Of the executions of the actor: Safety, RetryLive, Logs.  Of one operation or tick:
      the files named Props above.
    - Of a client of a tracker or of the operating system, whatever it is answered: what
      it asks and in which order ([holds], [safe], [sat] are the three logics: a program,
      a log of exchanges, a predicate on what may be asked next), and that a result is
      supported by the answers in the log.
    - Of a session: a request of the agent is answered before the client waits again
      ([requests_answered]), turns are renewed by the tracker ([turns_are_renewed]), waits
      and sessions end ([waits_end], [session_ends]), approvals are the policy's
      ([approval_gate]) and errors decide the phase ([outcome_decides_phase]).
    - Of text: scanners against printed documents ([scan_roundtrip],
      [render_meets_reference], [direct_command_is_the_shells]), and secrets that are not
      in what is shown ([redaction_complete], [tool_bodies_hide_the_token],
      [failure_reveals_allowed], [no_credential_url_survives],
      [printed_config_hides_secrets]).
    - Of the start: [parts_start_in_order].  Of the doctor: what it may ask and touch
      ([doctor_stays_in_bounds]) and show ([report_hides_tokens]).  Of a frame: it fits the terminal and holds no
      control byte but colour codes ([frame_stays_on_screen]).
    - Of detailed code against an abstract one: [operations_refine_ownership],
      [transport_refines_gate] (the HTTP transport against the response classes the gate
      is proved with), [admission_exact] (the validators against [core_valid]).
    - Of the agent's own issue: of the documents of a grammar of mutations and fragments,
      an issueUpdate that a server executes is admitted only under the guard's conditions
      ([own_issue_guarded]); and what the agent gets for a call ([linear_tool_outcome]).

    ** Correspondence

    - Machine integers are [Z]; [+i], [-i] and [wrap64] are Go's wrapping [int]
      arithmetic, and times and durations are nanoseconds.  Seconds that the code keeps
      as a [float64] are kept as exact nanoseconds; floats are rounded only where the
      delay of a quota is computed.
    - Maps are [gmap]s, sets [gset]s, or association lists where a map is decoded JSON;
      where a Go map is ranged over and the order can show, the order is an argument.
    - Running entries are shared by pointer in the source, so they live in a store
      ([runs]) and are named by address; timers likewise.  A channel closed on exit is a
      counter of closes.
    - [time.Now] is an argument, or a call.  A tracker's answers, the operating system's,
      the agent's and the listener's are functions of the whole log of exchanges before,
      so nothing is assumed about two readings of the same thing.  An error is its kind,
      what [errors.Is] and [errors.As] find in it, and its text where the code shows it.
    - What the code takes from libraries outside the language is an argument: YAML
      decoding.  So is what of Go's library is not written out: JSON (decoding of a line,
      the text of a value), [http.ParseTime], [net.ParseCIDR], [net.SplitHostPort],
      [net.ParseIP], basic authentication, [url.Parse] where its result is used in full,
      [strconv.ParseFloat] and the texts of floats, times and [%v], [time.Date],
      [exec.LookPath], [os.CreateTemp]'s name, the environment and the working directory.
    - [strings.ToLower] and [strings.TrimSpace] are modelled on ASCII text; expressions
      are matched on bytes.  Paths are Unix paths.  A nil slice and an empty one are told
      apart where the code depends on it (the environment of a command).
    - For the worker one run of an agent is one call; AppServer models what happens inside
      it.  Marshalling and writing a message is one call.
    - The removals of one reconcile followup run one after the other in the source; here
      each is a goroutine of its own, which allows more interleavings.
    - The GraphQL scanners walk a document by byte offsets.  Here an offset is the rest
      of the document from it; offsets the code lets run past the end are the empty rest
      with the flag [past].  A slice expression that Go would panic on is [Panicked].

    Recursion is structural except where fuel is named, and each fuel is proved enough:
    the doubling loop of [NextDelay] (64, [NextDelay_capped_exponential]); the scanners
    and the template passes (linear in the text, [update_scan_terminates],
    [if_pass_ends]); the page loops of the trackers and of the workpad, which the code
    itself caps; the reads of a session (the lines delivered and one, [session_ends]).

    ** The hypothesis of the ownership theorems

    A deferred retry is rescheduled by a goroutine.  When the entry is dropped before
    that reschedule is applied, the code re-queues a retry for an issue that may be
    running again.  [calm] excludes exactly the steps that drop an entry under a pending
    reschedule; [stale_reschedule_double_worker] is a concrete execution with two workers
    of one issue where it fails.  The other guarantees (closed-once channels, bounded
    logs, driven retries, the tables of single operations) do not need it.

    ** What modelling showed

    - two workers of one issue after a stale reschedule ([stale_reschedule_double_worker]);
    - the mutation allow-list looks at the first root field only
      ([allow_list_first_name_only]); an argument that ends inside a string panics the
      gate ([argument_text_panics]); an inline fragment without a type condition, a
      comment in the wrong place and an escaped triple quote hide an issueUpdate from the
      guard ([untyped_fragment_unguarded], [commented_fragment_unguarded],
      [escaped_block_quote_unguarded], [commented_argument_misread]);
    - a partial label change can be reported as a handoff of an active issue
      ([partial_verdict_unsafe]);
    - a missing root written with a trailing slash refuses every path below it
      ([missing_root_trailing_slash]); an identifier can be spelled as the hashed key of
      another ([workspace_key_collisions_witness]);
    - an operator inside a quoted literal cuts a template's condition
      ([quoted_operator_is_cut]); there is no for tag although a comment relies on one
      ([for_is_unsupported]);
    - a file that mixes line endings in its fences loses its front matter
      ([mixed_fences_kept]);
    - of two GitHub blockers with one number in two repositories one is dropped
      ([same_number_blocker_dropped]), and one with the issue's own number stands for those
      not shown ([own_number_absorbs_placeholder]); a listing goes on after a rate limit in a nested
      read ([listing_ignores_rate_limit]);
    - a sandbox allow-list of which no name has a value passes on the whole environment
      of the worker ([unresolved_allowlist_inherits]); a netfilter file that could not be
      written stays ([unwritten_filter_stays]);
    - a page of comments without a cursor makes the workpad tool create a second workpad
      ([unread_pages_create]);
    - the API does not find a blocked issue it lists ([blocked_issue_not_found]), and
      shows the credential of a URL that follows the word bearer ([bearer_url_leaks]);
    - the printed configuration shows the user of a tracker's endpoint
      ([endpoint_user_shown]);
    - the dashboard prints a fetch error, the labels of a queued retry, the default agent
      and the workflow label without sanitising them ([fetch_error_unsanitised],
      [retry_kind_unsanitised]);
    - the doctor probes the app-server with the whole environment of the worker
      ([probe_has_the_workers_environment]).

    ** Not modelled

    - Shutdown: a cancelled run context, [WaitForWorkers], submission timeouts; recovery
      from panics; the sleeping loops around the poller and the reload.
    - The goroutines that start the agent's process, pump its pipes and kill its group,
      transcript files, the version probe and the mock runner: process plumbing whose
      events are the answers of the modelled session.
    - HTTP itself: the construction of clients and requests, connections, and reading
      responses apart from their limits.
    - The build information; what runs a command of the doctor; the poll loop of the
      dashboard, its screen and the queries of the tty; signals and the goroutines of [run].
    - Log lines. *)

From stdpp Require Export base gmap strings list numbers pretty sets fin_maps.
From Stdlib Require Export ZArith Lia Sorted Permutation.
From Stdlib Require Ascii String OrderedTypeEx.

#[global] Open Scope Z_scope.
#[export] Set Default Goal Selector "!".

(** * Functional record update

    Go methods mutate one field of a struct at a time.  [r <| f := v |>] and
    [r <| f ::= g |>] are the functional counterparts; the setter of a field is
    computed from the eta-expansion of the record declared with an [Eta]
    instance. *)

Class Eta (R : Type) := eta : R → R.

Class Setter {R E : Type} (proj : R → E) := set : (E → E) → R → R.
Arguments set {R E} proj {_} g r.

Ltac solve_setter :=
  lazymatch goal with
  | |- @Setter ?R ?E ?p =>
      let e := eval hnf in (@eta R _) in
      let g := fresh "g" in
      let r := fresh "r" in
      unfold Setter; intros g r;
      let body := eval cbv beta in (e r) in
      lazymatch eval pattern (p r) in body with
      | ?F _ => let t := eval cbv beta in (F (g (p r))) in exact t
      end
  end.

#[global] Hint Extern 1 (Setter _) => solve_setter : typeclass_instances.

Declare Scope go_scope.
Delimit Scope go_scope with go.
Notation "r <| f ::= g |>" := (set f g r)
  (at level 1, f at level 99, left associativity) : go_scope.
Notation "r <| f := v |>" := (set f (fun _ => v) r)
  (at level 1, f at level 99, left associativity) : go_scope.
#[global] Open Scope go_scope.


(** * Automation

    [orch] holds the facts the component proofs reuse; [go_simpl] reduces
    record updates and map lookups; [break] splits on the scrutinee of the next
    [match] or [if] of the goal or of a hypothesis. *)

Create HintDb orch.
Create Rewrite HintDb orch.

Ltac go_simpl := simpl in *; simplify_map_eq/=.
Ltac break := repeat case_match; simplify_eq/=.
Ltac break_goal :=
  match goal with |- context [match ?x with _ => _ end] => destruct x eqn:? end.

(** * Machine integers

    Go's [int], [int64] and [time.Duration] are 64-bit two's complement.  They
    are kept as [Z] and every arithmetic operation that can leave the range is
    written with [wrap64]. *)

Definition min64 : Z := - 2 ^ 63.
Definition max64 : Z := 2 ^ 63 - 1.
Definition wrap64 (z : Z) : Z := (z + 2 ^ 63) mod 2 ^ 64 - 2 ^ 63.
Definition in64 (z : Z) : Prop := min64 ≤ z ≤ max64.
Notation "x +i y" := (wrap64 (x + y)) (at level 50, left associativity) : go_scope.
Notation "x -i y" := (wrap64 (x - y)) (at level 50, left associativity) : go_scope.
Notation "x *i y" := (wrap64 (x * y)) (at level 40, left associativity) : go_scope.

Lemma wrap64_id z : in64 z → wrap64 z = z.
Proof. unfold in64, min64, max64, wrap64. intros. rewrite Z.mod_small; lia. Qed.

Lemma wrap64_in64 z : in64 (wrap64 z).
Proof.
  unfold in64, min64, max64, wrap64.
  pose proof (Z.mod_pos_bound (z + 2 ^ 63) (2 ^ 64) ltac:(lia)). lia.
Qed.
#[export] Hint Resolve wrap64_in64 : orch.

(** * Time

    [time.Time] is a number of nanoseconds since Go's zero time, so the zero
    value is [0] and [IsZero] tests for it; [time.Duration] is a 64-bit number
    of nanoseconds.  [time_Sub] saturates as [time.Time.Sub] does.  Wall and
    monotonic readings are not told apart, and durations read as seconds
    ([Duration.Seconds], a float64 in Go) are kept as exact nanoseconds. *)

Definition Time := Z.
Definition Duration := Z.
Definition time_zero : Time := 0.
Definition IsZero (t : Time) : bool := t =? 0.
Definition Millisecond : Duration := 1000000.
Definition Second : Duration := 1000000000.
Definition Minute : Duration := 60 * Second.
Definition time_Sub (t u : Time) : Duration := Z.max min64 (Z.min max64 (t - u)).
Definition time_Add (t : Time) (d : Duration) : Time := t + d.
Definition Before (t u : Time) : bool := t <? u.
Definition After (t u : Time) : bool := u <? t.

Lemma time_Sub_exact t u : in64 (t - u) → time_Sub t u = t - u.
Proof. unfold in64, time_Sub. lia. Qed.

(** * Strings

    Go strings are byte strings.  [TrimSpace], [ToLower] and [EqualFold] are
    written for the ASCII range; bytes above it are left alone. *)

Definition is_space (c : Ascii.ascii) : bool :=
  let n := Ascii.nat_of_ascii c in
  ((9 <=? n)%nat && (n <=? 13)%nat) || (n =? 32)%nat.

Definition lower_ascii (c : Ascii.ascii) : Ascii.ascii :=
  let n := Ascii.nat_of_ascii c in
  if ((65 <=? n)%nat && (n <=? 90)%nat) then Ascii.ascii_of_nat (n + 32) else c.

Fixpoint str_map (f : Ascii.ascii → Ascii.ascii) (s : string) : string :=
  match s with
  | EmptyString => EmptyString
  | String c t => String (f c) (str_map f t)
  end.

Definition ToLower (s : string) : string := str_map lower_ascii s.

Fixpoint trim_left (s : string) : string :=
  match s with
  | EmptyString => EmptyString
  | String c t => if is_space c then trim_left t else s
  end.

Fixpoint trim_right (s : string) : string :=
  match s with
  | EmptyString => EmptyString
  | String c t =>
      match trim_right t with
      | EmptyString => if is_space c then EmptyString else String c EmptyString
      | t' => String c t'
      end
  end.

Definition TrimSpace (s : string) : string := trim_right (trim_left s).

Definition EqualFold (s t : string) : bool := String.eqb (ToLower s) (ToLower t).

Fixpoint HasSuffix (s suf : string) : bool :=
  String.eqb s suf ||
  match s with
  | EmptyString => false
  | String _ t => HasSuffix t suf
  end.

(** [strings.ReplaceAll(s, " ", "_")]. *)
Definition spaces_to_underscores (s : string) : string :=
  str_map (fun c => if Ascii.eqb c (Ascii.ascii_of_nat 32) then Ascii.ascii_of_nat 95 else c) s.

(** [strings.ToLower(strings.TrimSpace(s))], the key form used everywhere a
    tracker state or label is compared. *)
Definition norm (s : string) : string := ToLower (TrimSpace s).

(** [strings.TrimSpace(s) == ""]. *)
Definition blank (s : string) : bool := String.eqb (TrimSpace s) EmptyString.

(** Sprintf "%d" of an integer. *)
Definition fmt_d (z : Z) : string := pretty z.
Definition newline : string := String (Ascii.ascii_of_nat 10) "".

(** Sprintf "%.0f" of a number of seconds given in nanoseconds: round half to
    even. *)
Definition fmt_seconds (ns : Duration) : string :=
  let q := ns / Second in
  let r := ns mod Second in
  fmt_d (if 2 * r <? Second then q
         else if Second <? 2 * r then q + 1
         else if Z.even q then q else q + 1).

Lemma lower_ascii_idem c : lower_ascii (lower_ascii c) = lower_ascii c.
Proof. destruct c as [[] [] [] [] [] [] [] []]; reflexivity. Qed.

Lemma lower_ascii_space c : is_space (lower_ascii c) = is_space c.
Proof. destruct c as [[] [] [] [] [] [] [] []]; reflexivity. Qed.

Lemma str_map_comp f g s : str_map f (str_map g s) = str_map (fun c => f (g c)) s.
Proof. induction s as [|c s IH]; simpl; congruence. Qed.

Lemma str_map_ext f g s : (∀ c, f c = g c) → str_map f s = str_map g s.
Proof. intros E. induction s as [|c s IH]; simpl; congruence. Qed.

Lemma ToLower_idem s : ToLower (ToLower s) = ToLower s.
Proof. unfold ToLower. rewrite str_map_comp. apply str_map_ext, lower_ascii_idem. Qed.

Lemma trim_left_lower s : trim_left (ToLower s) = ToLower (trim_left s).
Proof.
  unfold ToLower. induction s as [|c s IH]; simpl; [done|].
  rewrite lower_ascii_space, IH. by destruct (is_space c).
Qed.

Lemma trim_right_lower s : trim_right (ToLower s) = ToLower (trim_right s).
Proof.
  unfold ToLower. induction s as [|c s IH]; simpl; [done|].
  rewrite IH, lower_ascii_space.
  destruct (trim_right s); simpl; [by destruct (is_space c)|done].
Qed.

Lemma trim_left_idem s : trim_left (trim_left s) = trim_left s.
Proof.
  induction s as [|c s IH]; simpl; [done|].
  destruct (is_space c) eqn:E; [done|]. simpl. by rewrite E.
Qed.

Lemma trim_right_idem s : trim_right (trim_right s) = trim_right s.
Proof.
  induction s as [|c s IH]; simpl; [done|].
  destruct (trim_right s) eqn:E.
  - destruct (is_space c) eqn:F; simpl; [done|]. by rewrite F.
  - simpl in *. by rewrite IH.
Qed.

Lemma trim_left_right s : trim_left (trim_right s) = trim_right (trim_left s).
Proof.
  induction s as [|c s IH]; simpl; [done|].
  destruct (is_space c) eqn:F.
  - rewrite <- IH. destruct (trim_right s); simpl; by rewrite ?F.
  - simpl. destruct (trim_right s); simpl; by rewrite ?F.
Qed.

Lemma TrimSpace_idem s : TrimSpace (TrimSpace s) = TrimSpace s.
Proof.
  unfold TrimSpace.
  by rewrite trim_left_right, trim_left_idem, trim_right_idem.
Qed.

Lemma TrimSpace_ToLower s : TrimSpace (ToLower s) = ToLower (TrimSpace s).
Proof. unfold TrimSpace. by rewrite trim_left_lower, trim_right_lower. Qed.

Lemma norm_idem s : norm (norm s) = norm s.
Proof.
  unfold norm.
  by rewrite TrimSpace_ToLower, TrimSpace_idem, ToLower_idem.
Qed.

Lemma norm_TrimSpace s : norm (TrimSpace s) = norm s.
Proof. unfold norm. by rewrite TrimSpace_idem. Qed.

Lemma norm_empty s : norm s = EmptyString ↔ blank s = true.
Proof.
  unfold norm, blank, ToLower.
  destruct (TrimSpace s); simpl; split; intros; try done.
Qed.

Lemma norm_empty_false s : norm s ≠ EmptyString ↔ blank s = false.
Proof. rewrite norm_empty. by destruct (blank s). Qed.
#[export] Hint Rewrite norm_idem norm_TrimSpace TrimSpace_idem ToLower_idem : orch.

(** * Go slices and maps *)

(** [s = s[len(s)-n:]] once a slice exceeds the cap [n] (a non-positive cap
    disables the trim). *)
Definition keep_last {A} (n : nat) (l : list A) : list A :=
  drop (length l - n) l.

Lemma keep_last_length {A} n (l : list A) :
  length (keep_last n l) = Nat.min n (length l).
Proof. unfold keep_last. rewrite length_drop. lia. Qed.

Lemma keep_last_suffix {A} n (l : list A) : keep_last n l `suffix_of` l.
Proof. unfold keep_last. apply suffix_drop. Qed.

Definition slice_len {A} (l : list A) : Z := Z.of_nat (length l).

(** [for k := range m { body }] visits the keys in an order Go leaves open and
    skips a key deleted before it is reached.  The order is the list [ks], and
    [body] runs on the keys still present. *)
Definition range_map {S V} (get : S → gmap string V)
    (body : string → V → S → S) (ks : list string) (s : S) : S :=
  fold_left (fun s k => match get s !! k with Some v => body k v s | None => s end) ks s.

Lemma range_map_inv {S V} (get : S → gmap string V) body (P : S → Prop) ks s :
  P s → (∀ k v s, P s → get s !! k = Some v → P (body k v s)) →
  P (range_map get body ks s).
Proof.
  intros Hs Hb. unfold range_map. revert s Hs.
  induction ks as [|k ks IH]; intros s Hs; simpl; [done|].
  apply IH. destruct (get s !! k) eqn:E; eauto.
Qed.

(** A set built from a slice of keys. *)
Definition set_of (l : list string) : gset string := list_to_set l.

Lemma elem_of_set_of k l : k ∈ set_of l ↔ k ∈ l.
Proof. unfold set_of. apply elem_of_list_to_set. Qed.

(** * Stable sorting

    [sort.SliceStable] with the comparison [less].  The model is the stable
    insertion sort; [stable_sort_unique] shows that for a strict weak order every
    stable sort of a slice returns the same list, so the choice of algorithm is
    immaterial. *)

Section StableSort.
Context {A : Type} (less : A → A → bool).

Fixpoint stable_insert (x : A) (l : list A) : list A :=
  match l with
  | [] => [x]
  | y :: l' => if less y x then y :: stable_insert x l' else x :: l
  end.
Definition stable_sort (l : list A) : list A := fold_right stable_insert [] l.

(** Neither is less: the elements a stable sort must keep in order. *)
Definition tied (x y : A) : bool := negb (less x y) && negb (less y x).

(** No later element is less than an earlier one. *)
Definition ordered (l : list A) : Prop := StronglySorted (fun x y => less y x = false) l.

Lemma stable_insert_perm x l : Permutation (stable_insert x l) (x :: l).
Proof.
  induction l as [|y l IH]; simpl; [done|].
  destruct (less y x); [|done]. rewrite IH. apply Permutation_swap.
Qed.

Lemma stable_sort_perm l : Permutation (stable_sort l) l.
Proof.
  induction l as [|x l IH]; simpl; [done|]. rewrite stable_insert_perm. by apply Permutation_skip.
Qed.

(** A strict weak order: irreflexive, asymmetric, with a transitive complement. *)
Class StrictWeak := {
  less_asym x y : less x y = true → less y x = false;
  less_neg_trans x y z : less x y = false → less y z = false → less x z = false
}.
Context `{!StrictWeak}.

Lemma stable_insert_ordered x l : ordered l → ordered (stable_insert x l).
Proof.
  induction l as [|y l IH]; simpl; intros Hl; [repeat constructor|].
  apply StronglySorted_inv in Hl as [Hl Hy].
  destruct (less y x) eqn:E.
  - constructor; [by apply IH|]. rewrite stable_insert_perm. constructor; [by apply less_asym|done].
  - constructor; [by constructor|]. constructor; [done|].
    eapply Forall_impl; [exact Hy|]. intros z Hz. simpl in *. by eapply less_neg_trans.
Qed.

Lemma stable_sort_ordered l : ordered (stable_sort l).
Proof. induction l as [|x l IH]; simpl; [constructor|by apply stable_insert_ordered]. Qed.

Lemma tied_less_false x y z : tied z x = true → less y x = true → tied z y = false.
Proof.
  unfold tied. intros [Hzx Hxz]%andb_true_iff Hyx.
  apply negb_true_iff in Hzx, Hxz. destruct (less z y) eqn:E; [done|]. simpl.
  apply negb_false_iff. destruct (less y z) eqn:F; [done|].
  by rewrite (less_neg_trans y z x F Hzx) in Hyx.
Qed.

Lemma stable_insert_tied z x l :
  List.filter (tied z) (stable_insert x l) = List.filter (tied z) (x :: l).
Proof.
  induction l as [|y l IH]; [done|]. simpl stable_insert.
  destruct (less y x) eqn:E; [|done]. simpl in *. rewrite IH.
  destruct (tied z x) eqn:F; [|done]. by rewrite (tied_less_false x y z F E).
Qed.

Lemma stable_sort_tied z l : List.filter (tied z) (stable_sort l) = List.filter (tied z) l.
Proof.
  induction l as [|x l IH]; [done|]. simpl stable_sort. rewrite stable_insert_tied. simpl.
  by rewrite IH.
Qed.

Lemma less_irrefl x : less x x = false.
Proof. destruct (less x x) eqn:E; [|done]. by rewrite (less_asym x x E) in E. Qed.

Lemma tied_refl x : tied x x = true.
Proof. unfold tied. by rewrite less_irrefl. Qed.

(** The head of an ordered list is below every element with a tie in the list. *)
Lemma ordered_head_tied a b l l' :
  ordered (b :: l') → List.filter (tied a) (a :: l) = List.filter (tied a) (b :: l') →
  less a b = false.
Proof.
  intros Hb E. assert (a ∈ b :: l') as Hin.
  { rewrite list_elem_of_In. apply (filter_In (tied a)). rewrite <- E, filter_In.
    split; [by left|apply tied_refl]. }
  apply elem_of_cons in Hin as [->|Hin]; [apply less_irrefl|].
  apply StronglySorted_inv in Hb as [_ Hb]. rewrite Forall_forall in Hb. by apply Hb.
Qed.

Lemma stable_sort_unique l l' :
  ordered l' → (∀ z, List.filter (tied z) l' = List.filter (tied z) l) → l' = stable_sort l.
Proof.
  intros Hl' Ht. pose proof (stable_sort_ordered l) as Hs.
  assert (∀ z, List.filter (tied z) l' = List.filter (tied z) (stable_sort l)) as E.
  { intros z. by rewrite stable_sort_tied. }
  clear Ht. revert Hl' Hs E. generalize (stable_sort l). clear l.
  induction l' as [|a l' IH]; intros [|b l] Ha Hb E; [done| | |].
  - specialize (E b). simpl in E. by rewrite tied_refl in E.
  - specialize (E a). simpl in E. by rewrite tied_refl in E.
  - assert (a = b) as ->.
    { pose proof (ordered_head_tied a b l' l Hb (E a)) as Hab.
      pose proof (ordered_head_tied b a l l' Ha (eq_sym (E b))) as Hba.
      specialize (E a). simpl in E. rewrite tied_refl in E.
      unfold tied in E at 2. rewrite Hab, Hba in E. by injection E. }
    apply StronglySorted_inv in Ha as [Ha _], Hb as [Hb _]. f_equal. apply IH; [done|done|].
    intros z. specialize (E z). simpl in E. destruct (tied z b); congruence.
Qed.
End StableSort.
Arguments StrictWeak {A} less.

(** [<] on Go strings is bytewise lexicographic. *)
Lemma str_ltb_iff s t : String.ltb s t = true ↔ OrderedTypeEx.String_as_OT.lt s t.
Proof.
  rewrite <- OrderedTypeEx.String_as_OT.cmp_lt.
  unfold String.ltb, OrderedTypeEx.String_as_OT.cmp. by destruct (String.compare s t).
Qed.

Lemma str_ltb_trans s t u : String.ltb s t = true → String.ltb t u = true → String.ltb s u = true.
Proof. rewrite !str_ltb_iff. apply OrderedTypeEx.String_as_OT.lt_trans. Qed.

Lemma str_ltb_irrefl s : String.ltb s s = false.
Proof.
  apply not_true_is_false. rewrite str_ltb_iff. intros H.
  by apply OrderedTypeEx.String_as_OT.lt_not_eq in H.
Qed.

Lemma str_ltb_total s t : String.ltb s t = false → String.ltb t s = false → s = t.
Proof.
  unfold String.ltb. rewrite (String.compare_antisym t s).
  destruct (String.compare s t) eqn:E; simpl; try done. intros _ _. by apply String.compare_eq_iff.
Qed.

#[export] Instance str_ltb_weak : StrictWeak String.ltb.
Proof.
  split.
  - intros s t H. destruct (String.ltb t s) eqn:E; [|done].
    pose proof (str_ltb_trans s t s H E) as F. by rewrite str_ltb_irrefl in F.
  - intros s t u H1 H2. destruct (String.ltb s u) eqn:E; [|done].
    destruct (String.ltb t s) eqn:F.
    + by rewrite (str_ltb_trans t s u F E) in H2.
    + pose proof (str_ltb_total s t H1 F) as ->. congruence.
Qed.

(** A comparison through a key, and the lexicographic combination of two. *)
Lemma strict_weak_key {A B} (f : A → B) (less : B → B → bool) :
  StrictWeak less → StrictWeak (fun x y => less (f x) (f y)).
Proof.
  intros W. split; intros *; [apply (less_asym less)|apply (less_neg_trans less)].
Qed.

Definition lex_less {A} (l1 l2 : A → A → bool) (x y : A) : bool :=
  l1 x y || (negb (l1 y x) && l2 x y).

Lemma strict_weak_lex {A} (l1 l2 : A → A → bool) :
  StrictWeak l1 → StrictWeak l2 → StrictWeak (lex_less l1 l2).
Proof.
  intros W1 W2. unfold lex_less. split.
  - intros x y H. destruct (l1 x y) eqn:E.
    { by rewrite (less_asym l1 x y E). }
    simpl in *. destruct (l1 y x) eqn:F; [done|]. simpl in *. by apply (less_asym l2).
  - intros x y z H1 H2.
    apply orb_false_iff in H1 as [Hxy H1], H2 as [Hyz H2].
    rewrite (less_neg_trans l1 x y z Hxy Hyz). simpl.
    destruct (l1 z x) eqn:Hzx; [done|]. simpl.
    rewrite (less_neg_trans l1 y z x Hyz Hzx) in H1.
    rewrite (less_neg_trans l1 z x y Hzx Hxy) in H2.
    by apply (less_neg_trans l2 x y z).
Qed.

Lemma strict_weak_ext {A} (l1 l2 : A → A → bool) :
  (∀ x y, l1 x y = l2 x y) → StrictWeak l2 → StrictWeak l1.
Proof.
  intros E W. split; intros *; rewrite !E; [apply (less_asym l2)|apply (less_neg_trans l2)].
Qed.

#[export] Instance Zltb_weak : StrictWeak Z.ltb.
Proof. split; intros *; rewrite ?Z.ltb_lt, ?Z.ltb_ge; lia. Qed.

(** * Reachability *)

(** [reach R x y]: zero or more [R]-steps. *)
Inductive reach {A} (R : A → A → Prop) : A → A → Prop :=
| reach_refl x : reach R x x
| reach_step x y z : reach R x y → R y z → reach R x z.

Lemma reach_inv {A} (R : A → A → Prop) (I : A → Prop) x y :
  (∀ u v, I u → R u v → I v) → I x → reach R x y → I y.
Proof. intros Hs Hx. induction 1; eauto. Qed.
