(* ===== verification/Tracker.v ===== *)
(** * Tracker data model (internal/tracker/tracker.go)

    The issue, blocker and narrow-refresh records every tracker adapter
    produces, and the pure helpers the orchestrator builds on: the totalized
    "Unknown" rows of a refresh request and the open-blocker judgment. *)

From S2P Require Import Prelude.

Record BlockerRef := {
  br_ID : string;
  br_Identifier : string;
  br_State : string
}.

(** [BlockedBy] distinguishes a nil slice ("no blocker knowledge") from an
    empty one ("no blockers"); hence the [option]. *)
Record Issue := {
  iss_ID : string;
  iss_Identifier : string;
  iss_Title : string;
  iss_Description : string;
  iss_URL : string;
  iss_State : string;
  iss_Labels : list string;
  iss_BranchName : string;
  iss_Priority : Z;
  iss_CreatedAt : Time;
  iss_UpdatedAt : Time;
  iss_BlockedBy : option (list BlockerRef)
}.

#[export] Instance eta_Issue : Eta Issue := fun r =>
  Build_Issue (iss_ID r) (iss_Identifier r) (iss_Title r) (iss_Description r)
    (iss_URL r) (iss_State r) (iss_Labels r) (iss_BranchName r) (iss_Priority r)
    (iss_CreatedAt r) (iss_UpdatedAt r) (iss_BlockedBy r).

(** Go's zero value [tracker.Issue{}]. *)
Definition zero_Issue : Issue :=
  Build_Issue "" "" "" "" "" "" [] "" 0 time_zero time_zero None.

(** A [uint8] with three named values; [OutcomeOther] stands for the rest, which
    the consumers' [default] branches treat as Unknown. *)
Inductive IssueStateOutcome :=
| IssueStateOutcomeUnknown
| IssueStateOutcomeCurrent
| IssueStateOutcomeAbsent
| OutcomeOther (n : Z).

Record IssueState := {
  ist_Outcome : IssueStateOutcome;
  ist_State : string;
  ist_Labels : list string;
  ist_BlockedBy : option (list BlockerRef)
}.

Definition unknown_row : IssueState :=
  {| ist_Outcome := IssueStateOutcomeUnknown; ist_State := "";
     ist_Labels := []; ist_BlockedBy := None |}.

Record IssueRef := { ref_ID : string; ref_Identifier : string }.

#[export] Instance BlockerRef_eq_dec : EqDecision BlockerRef.
Proof. solve_decision. Defined.
#[export] Instance Issue_eq_dec : EqDecision Issue.
Proof. solve_decision. Defined.
#[export] Instance IssueStateOutcome_eq_dec : EqDecision IssueStateOutcome.
Proof. solve_decision. Defined.
#[export] Instance IssueRef_eq_dec : EqDecision IssueRef.
Proof. solve_decision. Defined.

(** One iteration of the loop of [UnknownIssueStatesByRefs]. *)
Definition unknown_step (acc : gmap string IssueState * list IssueRef) (ref : IssueRef)
    : gmap string IssueState * list IssueRef :=
  let '(states, refs) := acc in
  let id := TrimSpace (ref_ID ref) in
  if String.eqb id "" then acc
  else match states !! id with
       | Some _ => acc
       | None => (<[id := unknown_row]> states,
                  refs ++ [{| ref_ID := id; ref_Identifier := ref_Identifier ref |}])
       end.

Definition UnknownIssueStatesByRefs (issueRefs : list IssueRef)
    : gmap string IssueState * list IssueRef :=
  fold_left unknown_step issueRefs (∅, []).

Definition IssueRefsFromIDs (issueIDs : list string) : list IssueRef :=
  fold_left (fun refs id =>
    let id := TrimSpace id in
    if String.eqb id "" then refs
    else refs ++ [{| ref_ID := id; ref_Identifier := "" |}]) issueIDs [].

Definition unknownIssueStatesByIDs (issueIDs : list string)
    : gmap string IssueState * list string :=
  let '(states, refs) := UnknownIssueStatesByRefs (IssueRefsFromIDs issueIDs) in
  (states, map ref_ID refs).

Fixpoint BlockedByNonTerminal (blockedBy : list BlockerRef) (terminalStates : gset string)
    : bool :=
  match blockedBy with
  | [] => false
  | b :: rest =>
      let state := norm (br_State b) in
      if String.eqb state "" then true
      else if bool_decide (state ∈ terminalStates)
           then BlockedByNonTerminal rest terminalStates
           else true
  end.

(** ** Lemmas *)

(** The ids a refresh request really asks for. *)
Definition requested_ids (refs : list IssueRef) : list string :=
  filter (λ s, s ≠ "") (map (λ r, TrimSpace (ref_ID r)) refs).

Definition unknown_inv (done : list IssueRef) (acc : gmap string IssueState * list IssueRef) : Prop :=
  (∀ k v, acc.1 !! k = Some v → v = unknown_row) ∧
  (∀ k, is_Some (acc.1 !! k) ↔ k ∈ requested_ids done) ∧
  NoDup (map ref_ID acc.2) ∧
  (∀ k, k ∈ map ref_ID acc.2 ↔ k ∈ requested_ids done).

Lemma requested_ids_snoc done r :
  requested_ids (done ++ [r]) =
  requested_ids done ++ (if decide (TrimSpace (ref_ID r) = "") then [] else [TrimSpace (ref_ID r)]).
Proof.
  unfold requested_ids. rewrite map_app, filter_app. f_equal. simpl.
  rewrite filter_cons, filter_nil. repeat case_decide; naive_solver.
Qed.

Lemma unknown_step_inv done acc r :
  unknown_inv done acc → unknown_inv (done ++ [r]) (unknown_step acc r).
Proof.
  destruct acc as [states refs]. intros (Hv & Hs & Hnd & Hin). unfold unknown_inv, unknown_step.
  rewrite requested_ids_snoc. set (id := TrimSpace (ref_ID r)) in *. simpl in *.
  destruct (String.eqb_spec id "") as [->|Hne].
  { rewrite decide_True by done. by rewrite app_nil_r. }
  rewrite decide_False by done.
  destruct (states !! id) as [v|] eqn:E; simpl.
  - assert (id ∈ requested_ids done) as Hid by (apply Hs; eauto).
    split_and!; [done| |done|]; intros k; rewrite ?Hs, ?Hin; set_solver.
  - assert (id ∉ requested_ids done) as Hid by (rewrite <- Hs, E; intros [? [=]]).
    split_and!.
    + intros k v. rewrite lookup_insert_Some. naive_solver.
    + intros k. rewrite lookup_insert_is_Some', Hs. set_solver.
    + rewrite map_app. apply NoDup_app. split_and!; [done| |apply NoDup_singleton].
      intros k Hk. apply Hin in Hk. simpl. set_solver.
    + intros k. rewrite map_app. simpl. set_solver.
Qed.

Lemma UnknownIssueStatesByRefs_inv refs : unknown_inv refs (UnknownIssueStatesByRefs refs).
Proof.
  unfold UnknownIssueStatesByRefs.
  enough (∀ done acc, unknown_inv done acc →
    unknown_inv (done ++ refs) (fold_left unknown_step refs acc)) as H.
  { apply (H []). unfold unknown_inv. simpl. split_and!; [done| |constructor|done].
    intros k. rewrite lookup_empty. split; [intros [? [=]]|set_solver]. }
  induction refs as [|r refs IH]; intros done acc Hacc; simpl.
  - by rewrite app_nil_r.
  - rewrite cons_middle, app_assoc. apply IH, unknown_step_inv, Hacc.
Qed.

Lemma BlockedByNonTerminal_iff bs ts :
  BlockedByNonTerminal bs ts = true ↔
  ∃ b, b ∈ bs ∧ (norm (br_State b) = "" ∨ norm (br_State b) ∉ ts).
Proof.
  induction bs as [|b bs IH]; simpl; [set_solver|].
  destruct (String.eqb_spec (norm (br_State b)) ""); [set_solver|].
  case_bool_decide; set_solver.
Qed.
