(* ===== verification/Workflow.v ===== *)
(** * Per-state concurrency keys (internal/workflow/normalize.go)

    The canonical key of a tracker state in the per-state capacity map and the
    canonicalization of the whole map, shared by the workflow loader and the
    orchestrator's hot reload. *)

From S2P Require Import Prelude.

Definition NormalizeStateConcurrencyKey (state : string) : string :=
  spaces_to_underscores (ToLower (TrimSpace state)).

(** The entries of the Go map are visited in an order left open by the language:
    [limits] lists them in that order. *)
Definition NormalizeStateConcurrencyLimits (limits : list (string * Z)) : gmap string Z :=
  fold_left (fun out '(state, limit) =>
    let key := NormalizeStateConcurrencyKey state in
    if String.eqb key "" || (limit <=? 0) then out else <[key := limit]> out) limits ∅.

(** ** Lemmas *)

Lemma trim_left_underscores s :
  trim_left s = s → trim_left (spaces_to_underscores s) = spaces_to_underscores s.
Proof.
  unfold spaces_to_underscores. destruct s as [|c s]; simpl; [done|].
  destruct (is_space c) eqn:E; intros H.
  - exfalso. assert (String.length (trim_left s) ≤ String.length s)%nat as L.
    { clear. induction s as [|c s IH]; simpl; [lia|]. destruct (is_space c); simpl; lia. }
    rewrite H in L. simpl in L. lia.
  - destruct (Ascii.eqb_spec c (Ascii.ascii_of_nat 32)) as [->|_]; [done|by rewrite E].
Qed.

Lemma trim_right_underscores s :
  trim_right s = s → trim_right (spaces_to_underscores s) = spaces_to_underscores s.
Proof.
  unfold spaces_to_underscores. induction s as [|c s IH]; simpl; [done|].
  destruct (trim_right s) eqn:T; intros H.
  - destruct (is_space c) eqn:E; simplify_eq/=.
    destruct (Ascii.eqb_spec c (Ascii.ascii_of_nat 32)) as [->|_]; [done|by rewrite E].
  - injection H as <-. rewrite IH by done. done.
Qed.

Lemma TrimSpace_underscores s :
  TrimSpace (spaces_to_underscores (TrimSpace s)) = spaces_to_underscores (TrimSpace s).
Proof.
  unfold TrimSpace. rewrite trim_left_underscores.
  - apply trim_right_underscores, trim_right_idem.
  - by rewrite trim_left_right, trim_left_idem.
Qed.

Lemma ToLower_underscores s :
  ToLower (spaces_to_underscores s) = spaces_to_underscores (ToLower s).
Proof.
  unfold ToLower, spaces_to_underscores. rewrite !str_map_comp. apply str_map_ext.
  intros c. destruct c as [[] [] [] [] [] [] [] []]; reflexivity.
Qed.

Lemma spaces_to_underscores_idem s :
  spaces_to_underscores (spaces_to_underscores s) = spaces_to_underscores s.
Proof.
  unfold spaces_to_underscores. rewrite !str_map_comp. apply str_map_ext.
  intros c. destruct c as [[] [] [] [] [] [] [] []]; reflexivity.
Qed.

Lemma NormalizeStateConcurrencyKey_idem s :
  NormalizeStateConcurrencyKey (NormalizeStateConcurrencyKey s) = NormalizeStateConcurrencyKey s.
Proof.
  unfold NormalizeStateConcurrencyKey.
  rewrite <- (TrimSpace_ToLower s), TrimSpace_underscores, (TrimSpace_ToLower s).
  by rewrite ToLower_underscores, ToLower_idem, spaces_to_underscores_idem.
Qed.

Definition limit_ok (m : gmap string Z) : Prop :=
  ∀ k l, m !! k = Some l → 0 < l ∧ k ≠ "" ∧ NormalizeStateConcurrencyKey k = k.

Lemma NormalizeStateConcurrencyLimits_ok limits :
  limit_ok (NormalizeStateConcurrencyLimits limits).
Proof.
  unfold NormalizeStateConcurrencyLimits.
  assert (limit_ok ∅) as H0 by (intros k l; rewrite lookup_empty; done).
  revert H0. generalize (∅ : gmap string Z). induction limits as [|[s l] ls IH]; intros m Hm; simpl; [done|].
  apply IH. destruct (String.eqb_spec (NormalizeStateConcurrencyKey s) ""); simpl; [done|].
  destruct (Z.leb_spec l 0); [done|].
  intros k l'. rewrite lookup_insert_Some. intros [[<- <-]|[_ ?]]; [|by apply Hm].
  split_and!; [lia|done|apply NormalizeStateConcurrencyKey_idem].
Qed.

Lemma limits_fold_keep key limits (m0 : gmap string Z) :
  is_Some (m0 !! key) →
  is_Some (fold_left (fun out '(state, limit) =>
    let key := NormalizeStateConcurrencyKey state in
    if String.eqb key "" || (limit <=? 0) then out else <[key := limit]> out) limits m0 !! key).
Proof.
  revert m0. induction limits as [|[s l] ls IH]; intros m0 H; simpl; [done|]. apply IH.
  destruct (_ || _); [done|]. rewrite lookup_insert_is_Some'. by right.
Qed.

(** ** Theorems *)

(** Canonical per-state limits.  Normalization is idempotent on keys; the
    normalized map holds only positive limits under non-empty canonical keys, and
    every entry with a positive limit and a non-blank state is represented under its
    canonical key, so a lookup by any spelling of the state finds it. *)
Theorem state_limits_canonical limits :
  let m := NormalizeStateConcurrencyLimits limits in
  (∀ s, NormalizeStateConcurrencyKey (NormalizeStateConcurrencyKey s) = NormalizeStateConcurrencyKey s) ∧
  (∀ k l, m !! k = Some l → 0 < l ∧ k ≠ "" ∧ NormalizeStateConcurrencyKey k = k) ∧
  (∀ s l, (s, l) ∈ limits → 0 < l → NormalizeStateConcurrencyKey s ≠ "" →
     is_Some (m !! NormalizeStateConcurrencyKey s)).
Proof.
  cbv zeta. split_and!; [apply NormalizeStateConcurrencyKey_idem|apply NormalizeStateConcurrencyLimits_ok|].
  intros s l Hin Hl Hk. unfold NormalizeStateConcurrencyLimits. generalize (∅ : gmap string Z).
  induction limits as [|[s' l'] ls IH]; intros m0; [by apply elem_of_nil in Hin|].
  apply elem_of_cons in Hin as [[= <- <-]|Hin]; [|by apply IH]. simpl.
  destruct (String.eqb_spec (NormalizeStateConcurrencyKey s) ""); [done|].
  destruct (Z.leb_spec l 0); [lia|]. simpl. apply limits_fold_keep. by rewrite lookup_insert_eq.
Qed.
