(* ===== verification/RetryPolicy.v ===== *)
(** * Retry delays (internal/orchestrator/actor_retry.go, retry.go)

    The scheduler seam: a retry request is turned into a delay.  [Scheduler] is
    the interface the orchestrator's retry operations are proved against;
    [RetryScheduler] is the production implementation with its doubling loop. *)

From S2P Require Import Prelude.

Inductive RetryKind :=
| RetryKindFailure
| RetryKindContinuation
| RetryKindQuotaBackoff.

#[export] Instance RetryKind_eq_dec : EqDecision RetryKind.
Proof. solve_decision. Defined.

Record RetryRequest := {
  req_Kind : RetryKind;
  req_Attempt : Z;
  req_DelayOverride : Duration
}.

(** The interface [Scheduler] with the promise its clients use: a delay is a
    positive duration that an explicit override replaces. *)
Class Scheduler (S : Type) := next_delay : S → RetryRequest → Duration.

Class SchedulerLaws (S : Type) `{!Scheduler S} := {
  sched_ok : S → Prop;
  next_delay_pos (s : S) (r : RetryRequest) : sched_ok s → 0 < next_delay s r;
  next_delay_override (s : S) (r : RetryRequest) :
    0 < req_DelayOverride r → next_delay s r = req_DelayOverride r
}.

Record RetryScheduler := { MaxBackoff : Duration }.

Definition continuationRetryDelay : Duration := Second.

(** The loop [for i := 1; i < attempt; i++]: [inl d] is the early
    [return maxBackoff], [inr d] the delay when the loop ends; [None] only when
    the fuel runs out. *)
Fixpoint delay_loop (fuel : nat) (i attempt maxBackoff delay : Z) : option (Z + Z) :=
  if i <? attempt then
    if Z.quot maxBackoff 2 <=? delay then Some (inl maxBackoff)
    else match fuel with
         | O => None
         | S fuel => delay_loop fuel (i + 1) attempt maxBackoff (delay *i 2)
         end
  else Some (inr delay).

(** A 64-bit delay doubles at most 64 times before it reaches half of the cap. *)
Definition delay_fuel : nat := 64.

Definition NextDelay (s : RetryScheduler) (req : RetryRequest) : Duration :=
  if 0 <? req_DelayOverride req then req_DelayOverride req
  else if decide (req_Kind req = RetryKindContinuation) then continuationRetryDelay
  else
    let attempt := if req_Attempt req <? 1 then 1 else req_Attempt req in
    let maxBackoff := if MaxBackoff s <=? 0 then 5 * Minute else MaxBackoff s in
    match delay_loop delay_fuel 1 attempt maxBackoff (10 * Second) with
    | Some (inl d) => d
    | Some (inr delay) => if maxBackoff <? delay then maxBackoff else delay
    | None => maxBackoff
    end.

#[export] Instance RetryScheduler_Scheduler : Scheduler RetryScheduler := NextDelay.

(** ** The loop computes the capped exponential *)

Definition effective_max (s : RetryScheduler) : Duration :=
  if MaxBackoff s <=? 0 then 5 * Minute else MaxBackoff s.
Definition effective_attempt (req : RetryRequest) : Z :=
  if req_Attempt req <? 1 then 1 else req_Attempt req.

(** The documented delay, [min(10s * 2^(attempt-1), MaxBackoff)]. *)
Definition backoff_spec (maxBackoff attempt : Z) : Z :=
  Z.min (10 * Second * 2 ^ (attempt - 1)) maxBackoff.

(** What a finished loop has computed, from a delay [d] reached at iteration [i]. *)
Definition loop_result (r : Z + Z) (i attempt maxBackoff d : Z) : Prop :=
  match r with
  | inl m => m = maxBackoff ∧ maxBackoff - 1 ≤ d * 2 ^ (attempt - i)
  | inr d' => d' = d * 2 ^ (attempt - i)
  end.

Lemma delay_loop_spec fuel i attempt m d :
  0 < d → 0 < m ≤ max64 → i ≤ attempt →
  m ≤ d * 2 ^ Z.of_nat fuel * 2 →
  ∃ r, delay_loop fuel i attempt m d = Some r ∧ loop_result r i attempt m d.
Proof.
  intros Hd Hm. revert i d Hd. induction fuel as [|fuel IH]; intros i d Hd Hi Hf; simpl.
  all: destruct (Z.ltb_spec i attempt) as [Hlt|Hge].
  2, 4: exists (inr d); split; [done|]; simpl; replace (attempt - i) with 0 by lia; lia.
  all: destruct (Z.leb_spec (Z.quot m 2) d) as [Hq|Hq];
    rewrite Z.quot_div_nonneg in Hq by lia;
    pose proof (Z.div_mod m 2 ltac:(lia)); pose proof (Z.mod_pos_bound m 2 ltac:(lia)).
  1, 3: exists (inl m); split; [done|]; split; [done|];
    pose proof (Z.pow_le_mono_r 2 1 (attempt - i) ltac:(lia) ltac:(lia));
    assert (m - 1 ≤ d * 2) by lia; nia.
  - exfalso. simpl in Hf. lia.
  - rewrite wrap64_id by (unfold in64, min64, max64 in *; lia).
    rewrite Nat2Z.inj_succ, Z.pow_succ_r in Hf by lia.
    destruct (IH (i + 1) (d * 2)) as (r & Hr & Hs); [lia|lia|nia|].
    exists r. split; [done|].
    assert (2 ^ (attempt - i) = 2 * 2 ^ (attempt - (i + 1))) as E.
    { rewrite <- Z.pow_succ_r by lia. f_equal. lia. }
    destruct r; simpl in *; rewrite E; [destruct Hs; split; [done|]|]; nia.
Qed.

Lemma delay_loop_total attempt m :
  1 ≤ attempt → 0 < m ≤ max64 →
  ∃ r, delay_loop delay_fuel 1 attempt m (10 * Second) = Some r ∧
       loop_result r 1 attempt m (10 * Second).
Proof.
  intros. apply delay_loop_spec; [done|done|lia|].
  unfold delay_fuel, Second, max64 in *. lia.
Qed.

Lemma effective_max_range s : MaxBackoff s ≤ max64 → 0 < effective_max s ≤ max64.
Proof.
  unfold effective_max, max64, Minute, Second. intros.
  destruct (Z.leb_spec (MaxBackoff s) 0); lia.
Qed.

Lemma effective_attempt_pos r : 1 ≤ effective_attempt r.
Proof. unfold effective_attempt. destruct (Z.ltb_spec (req_Attempt r) 1); lia. Qed.

(** Every delay that is neither overridden nor a continuation. *)
Lemma NextDelay_backoff s req :
  MaxBackoff s ≤ max64 → req_DelayOverride req ≤ 0 → req_Kind req ≠ RetryKindContinuation →
  backoff_spec (effective_max s) (effective_attempt req) ≤ NextDelay s req ∧
  NextDelay s req ≤ effective_max s ∧
  NextDelay s req ≤ backoff_spec (effective_max s) (effective_attempt req) + 1 ∧
  (Z.even (effective_max s) = true →
   NextDelay s req = backoff_spec (effective_max s) (effective_attempt req)).
Proof.
  intros Hmax Hov Hk. unfold NextDelay.
  destruct (Z.ltb_spec 0 (req_DelayOverride req)); [lia|].
  rewrite decide_False by done. cbv zeta.
  change (if MaxBackoff s <=? 0 then _ else _) with (effective_max s).
  change (if req_Attempt req <? 1 then _ else _) with (effective_attempt req).
  pose proof (effective_attempt_pos req) as Ha.
  pose proof (effective_max_range s Hmax) as Hm.
  destruct (delay_loop_total (effective_attempt req) (effective_max s) Ha Hm) as (r & -> & Hr).
  unfold backoff_spec. generalize dependent (effective_max s). intros m Hm Hr.
  assert (0 ≤ 10 * Second * 2 ^ (effective_attempt req - 1)) as H0.
  { unfold Second. pose proof (Z.pow_nonneg 2 (effective_attempt req - 1) ltac:(lia)). lia. }
  destruct r as [d|d]; simpl in Hr.
  - destruct Hr as [-> Hr]. split_and!; [lia|lia|lia|]. intros Hev.
    apply Z.even_spec in Hev as [k ->].
    destruct (Z.le_gt_cases (2 * k) (10 * Second * 2 ^ (effective_attempt req - 1))); [lia|].
    exfalso. revert Hr H1. replace (10 * Second) with (2 * (5 * Second)) by (unfold Second; lia).
    rewrite <- Z.mul_assoc. lia.
  - subst d. destruct (Z.ltb_spec m (10 * Second * 2 ^ (effective_attempt req - 1))); lia.
Qed.

Lemma backoff_spec_pos m a : 0 < m → 1 ≤ a → 0 < backoff_spec m a.
Proof.
  intros. unfold backoff_spec, Second.
  pose proof (Z.pow_pos_nonneg 2 (a - 1) ltac:(lia) ltac:(lia)). lia.
Qed.

Lemma backoff_spec_mono m a b : 1 ≤ a ≤ b → backoff_spec m a ≤ backoff_spec m b.
Proof.
  intros. unfold backoff_spec, Second.
  pose proof (Z.pow_le_mono_r 2 (a - 1) (b - 1) ltac:(lia) ltac:(lia)). lia.
Qed.

#[export] Instance RetryScheduler_laws : SchedulerLaws RetryScheduler.
Proof.
  refine {| sched_ok := fun s => MaxBackoff s ≤ max64 |}; unfold next_delay, RetryScheduler_Scheduler.
  - intros s r Hs. destruct (Z.ltb_spec 0 (req_DelayOverride r)) as [H|H].
    { unfold NextDelay. apply Z.ltb_lt in H as H'. by rewrite H'. }
    destruct (decide (req_Kind r = RetryKindContinuation)) as [Hk|Hk].
    { unfold NextDelay. apply Z.ltb_ge in H. by rewrite H, decide_True. }
    pose proof (NextDelay_backoff s r Hs H Hk) as (Hle & _).
    pose proof (backoff_spec_pos (effective_max s) (effective_attempt r)
      (proj1 (effective_max_range s Hs)) (effective_attempt_pos r)). lia.
  - intros s r Hr. unfold NextDelay. apply Z.ltb_lt in Hr. by rewrite Hr.
Defined.

(** ** Theorems *)

(** The retry delay.  An explicit override wins; a continuation waits one second;
    every other retry waits the capped exponential min(10s * 2^(attempt-1), max),
    exactly when the cap is an even number of nanoseconds (every millisecond cap is)
    and within one nanosecond otherwise, never above the cap, and the doubling loop
    neither overflows nor runs forever. *)
Theorem NextDelay_capped_exponential s req :
  MaxBackoff s ≤ max64 →
  (0 < req_DelayOverride req → NextDelay s req = req_DelayOverride req) ∧
  (req_DelayOverride req ≤ 0 → req_Kind req = RetryKindContinuation → NextDelay s req = Second) ∧
  (req_DelayOverride req ≤ 0 → req_Kind req ≠ RetryKindContinuation →
     let spec := backoff_spec (effective_max s) (effective_attempt req) in
     spec ≤ NextDelay s req ≤ Z.min (spec + 1) (effective_max s) ∧
     (Z.even (effective_max s) = true → NextDelay s req = spec) ∧
     delay_loop delay_fuel 1 (effective_attempt req) (effective_max s) (10 * Second) ≠ None).
Proof.
  intros Hm. split_and!.
  - intros H. unfold NextDelay. apply Z.ltb_lt in H. by rewrite H.
  - intros H Hk. unfold NextDelay. apply Z.ltb_ge in H. by rewrite H, decide_True.
  - intros H Hk. cbv zeta.
    destruct (NextDelay_backoff s req Hm H Hk) as (H1 & H2 & H3 & H4).
    destruct (delay_loop_total (effective_attempt req) (effective_max s)
      (effective_attempt_pos req) (effective_max_range s Hm)) as (r & E & _).
    split_and!; [done|lia|done|]. by rewrite E.
Qed.

Lemma NextDelay_capped_exponential_witness :
  NextDelay {| MaxBackoff := 5 * Minute |} (Build_RetryRequest RetryKindFailure 4 0) = 80 * Second ∧
  NextDelay {| MaxBackoff := 5 * Minute |} (Build_RetryRequest RetryKindFailure 4 0) =
    backoff_spec (5 * Minute) 4.
Proof.
  split; [vm_compute; reflexivity|].
  apply (NextDelay_capped_exponential {| MaxBackoff := 5 * Minute |}
           (Build_RetryRequest RetryKindFailure 4 0)); vm_compute; done.
Defined.
