(* ===== verification/Payload.v ===== *)
(** * Event payload values (internal/orchestrator/runtime_events.go)

    Runtime events carry a payload of Go type [any]: a JSON-like value.  This
    file models the dynamic values the fold inspects, the type switches and the
    field accessors.  A Go map is an association list (first binding wins);
    [None] is a nil map. *)

From S2P Require Import Prelude.

(** A float64: a finite value is [m * 2^e]. *)
Inductive float64 :=
| FNaN
| FInf (negative : bool)
| FFin (m e : Z).

Definition float_nonneg (f : float64) : bool :=
  match f with
  | FNaN => false
  | FInf neg => negb neg
  | FFin m _ => 0 <=? m
  end.

(** Conversion [int64(f)]: truncation toward zero.  Out of range, and for NaN
    and infinities, Go leaves the result to the implementation; the amd64 result
    (the smallest int64) is used. *)
Definition float_to_int64 (f : float64) : Z :=
  match f with
  | FNaN | FInf _ => min64
  | FFin m e =>
      let v := if 0 <=? e then m * 2 ^ e else Z.quot m (2 ^ (- e)) in
      if (min64 <=? v) && (v <=? max64) then v else min64
  end.

(** [AOther] is any dynamic type the switches do not name. *)
Inductive any :=
| ANil
| AString (s : string)
| ABool (b : bool)
| AInt (z : Z)
| AInt64 (z : Z)
| AFloat64 (f : float64)
| AMap (m : option (list (string * any)))
| ASlice (l : list any)
| ARateLimitSnapshot (m : option (list (string * any)))
| ARateLimitSnapshotPtr (m : option (option (list (string * any))))
| AOther.

Notation any_map := (option (list (string * any))).

Fixpoint assoc {V} (m : list (string * V)) (key : string) : option V :=
  match m with
  | [] => None
  | (k, v) :: m => if String.eqb k key then Some v else assoc m key
  end.

(** [m[key]]: the zero value [nil] when the key or the map is missing. *)
Definition map_get (m : any_map) (key : string) : any :=
  match m with
  | None => ANil
  | Some m => default ANil (assoc m key)
  end.

(** [(map, ok)]: [None] when the value is no string map. *)
Definition asStringMap (v : any) : option any_map :=
  match v with
  | AMap m => Some m
  | ARateLimitSnapshot m => Some m
  | ARateLimitSnapshotPtr (Some m) => Some m
  | _ => None
  end.

Fixpoint walk_path (current : any) (path : list string) : option any :=
  match path with
  | [] => Some current
  | key :: rest =>
      match asStringMap current with
      | None => None
      | Some next => walk_path (map_get next key) rest
      end
  end.

(** [mapAtPath]: the map at the end of the path, nil when there is none. *)
Definition mapAtPath (m : any_map) (path : list string) : any_map :=
  match walk_path (AMap m) path with
  | None => None
  | Some current => default None (asStringMap current)
  end.

Definition stringField (m : any_map) (key : string) : option string :=
  match map_get m key with
  | AString s => if String.eqb s "" then None else Some s
  | _ => None
  end.

Definition boolField (m : any_map) (key : string) : option bool :=
  match map_get m key with ABool b => Some b | _ => None end.

(** [strconv.ParseInt(s, 10, 64)]: optional sign, decimal digits, range check. *)
Fixpoint parse_digits (s : string) (acc : Z) : option Z :=
  match s with
  | EmptyString => Some acc
  | String c t =>
      let n := Z.of_nat (Ascii.nat_of_ascii c) in
      if (48 <=? n) && (n <=? 57) then parse_digits t (10 * acc + (n - 48)) else None
  end.

Definition parse_unsigned (s : string) : option Z :=
  match s with EmptyString => None | _ => parse_digits s 0 end.

Definition ParseInt (s : string) : option Z :=
  let signed :=
    match s with
    | String c t =>
        if Ascii.eqb c (Ascii.ascii_of_nat 43) then parse_unsigned t
        else if Ascii.eqb c (Ascii.ascii_of_nat 45) then Z.opp <$> parse_unsigned t
        else parse_unsigned s
    | EmptyString => None
    end in
  match signed with
  | Some v => if (min64 <=? v) && (v <=? max64) then Some v else None
  | None => None
  end.

Definition integerLike (v : any) : option Z :=
  match v with
  | AInt n => if 0 <=? n then Some n else None
  | AInt64 n => if 0 <=? n then Some n else None
  | AFloat64 f => if float_nonneg f then Some (float_to_int64 f) else None
  | AString s =>
      match ParseInt (TrimSpace s) with
      | Some n => if 0 <=? n then Some n else None
      | None => None
      end
  | _ => None
  end.

Definition intField (m : any_map) (key : string) : option Z :=
  match integerLike (map_get m key) with
  | Some n => if n <=? 0 then None else Some n
  | None => None
  end.

Fixpoint numberField (m : any_map) (keys : list string) : option Z :=
  match keys with
  | [] => None
  | key :: rest =>
      match integerLike (map_get m key) with
      | Some n => Some n
      | None => numberField m rest
      end
  end.

(** The deep copy behind [RecordRateLimits]: nested maps and slices are rebuilt
    and a nested [RateLimitSnapshot] becomes a plain map. *)
Fixpoint copyAnyValue (value : any) : any :=
  match value with
  | AMap m => AMap (option_map (map (fun '(k, v) => (k, copyAnyValue v))) m)
  | ASlice l => ASlice (map copyAnyValue l)
  | ARateLimitSnapshot m => AMap (option_map (map (fun '(k, v) => (k, copyAnyValue v))) m)
  | v => v
  end.

Definition copyAnyMap (m : any_map) : any_map :=
  option_map (map (fun '(k, v) => (k, copyAnyValue v))) m.

(** ** Lemmas *)

Lemma assoc_map {V W} (f : V → W) m k :
  assoc (map (fun '(k, v) => (k, f v)) m) k = f <$> assoc m k.
Proof. induction m as [|[k' v] m IH]; simpl; [done|]. by destruct (String.eqb k' k). Qed.

Lemma map_get_copy m k : map_get (copyAnyMap m) k = copyAnyValue (map_get m k).
Proof.
  destruct m as [m|]; simpl; [|done]. rewrite assoc_map. by destruct (assoc m k).
Qed.

Lemma integerLike_copy v : integerLike (copyAnyValue v) = integerLike v.
Proof. by destruct v. Qed.

Lemma numberField_copy m keys : numberField (copyAnyMap m) keys = numberField m keys.
Proof.
  induction keys as [|k ks IH]; simpl; [done|]. by rewrite map_get_copy, integerLike_copy, IH.
Qed.

(** On every dynamic type but an out-of-range float, an accepted integer is
    non-negative and fits in 64 bits. *)
Lemma ParseInt_in64 s n : ParseInt s = Some n → in64 n.
Proof.
  unfold ParseInt, in64. destruct (match s with EmptyString => None | String c t => _ end); [|done].
  destruct ((min64 <=? z) && (z <=? max64)) eqn:E; [|done].
  intros [= ->]. apply andb_prop in E as [?%Z.leb_le ?%Z.leb_le]. lia.
Qed.
