(* ===== verification/GoStd.v ===== *)
(** * Fallible code and library functions

    [Outcome] is the result of a Go function that may return an error or panic, with
    the notation that threads it.  The functions of Go's standard library that the
    modelled code calls and that Prelude does not have: strconv.Unquote, strings.Join,
    sort.Strings, and time.Parse with the RFC 3339 layout. *)

From S2P Require Import Prelude Payload.

(** ** Returning, failing, panicking *)

Inductive Outcome (E A : Type) :=
| Returned (a : A)
| Failed (e : E)
| Panicked.
Arguments Returned {E A} a.
Arguments Failed {E A} e.
Arguments Panicked {E A}.

Definition out_bind {E A B} (m : Outcome E A) (k : A → Outcome E B) : Outcome E B :=
  match m with Returned a => k a | Failed e => Failed e | Panicked => Panicked end.
Notation "'let?' x := m 'in' k" := (out_bind m (fun x => k))
  (at level 200, x binder, m at level 100, k at level 200) : go_scope.

Lemma out_bind_Returned {E A B} (m : Outcome E A) (k : A → Outcome E B) b :
  out_bind m k = Returned b ↔ ∃ a, m = Returned a ∧ k a = Returned b.
Proof. destruct m; simpl; naive_solver. Qed.

(** A failure of the whole comes from one of the parts. *)
Lemma out_bind_Failed {E A B} (m : Outcome E A) (k : A → Outcome E B) e :
  out_bind m k = Failed e → m = Failed e ∨ ∃ a, m = Returned a ∧ k a = Failed e.
Proof. destruct m; simpl; naive_solver. Qed.

(** ** Text *)

Definition byte_is (n : nat) (c : Ascii.ascii) : bool := (Ascii.nat_of_ascii c =? n)%nat.
Definition in_range (lo hi : nat) (c : Ascii.ascii) : bool :=
  ((lo <=? Ascii.nat_of_ascii c) && (Ascii.nat_of_ascii c <=? hi))%nat.
Definition byte (n : Z) : string := String (Ascii.ascii_of_nat (Z.to_nat n)) "".

(** [strings.HasPrefix(s, pre)]: the rest after the prefix. *)
Fixpoint CutPrefix (s pre : string) : option string :=
  match pre, s with
  | EmptyString, _ => Some s
  | String a pre, String b s => if Ascii.eqb a b then CutPrefix s pre else None
  | String _ _, EmptyString => None
  end.
Definition HasPrefix (s pre : string) : bool :=
  match CutPrefix s pre with Some _ => true | None => false end.
(** [strings.Contains]. *)
Fixpoint Contains (s sub : string) : bool :=
  HasPrefix s sub || match s with String _ t => Contains t sub | EmptyString => false end.

Fixpoint str_join (sep : string) (l : list string) : string :=
  match l with
  | [] => ""
  | [s] => s
  | s :: l => s +:+ sep +:+ str_join sep l
  end.

Definition sort_strings (l : list string) : list string := stable_sort String.ltb l.

(** The text between two offsets of one string, given by the rests: the first
    [len from - len to] bytes of [from]. *)
Fixpoint str_take (n : nat) (s : string) : string :=
  match n, s with
  | S n, String c t => String c (str_take n t)
  | _, _ => EmptyString
  end.
Definition between (from to : string) : string :=
  str_take (String.length from - String.length to) from.

Lemma str_take_length n s : (n ≤ String.length s)%nat → String.length (str_take n s) = n.
Proof. revert s. induction n as [|n IH]; intros [|c s] H; simpl in *; try done; [lia|]. rewrite IH; lia. Qed.
Lemma str_take_short n s : (String.length (str_take n s) ≤ String.length s)%nat.
Proof. revert s. induction n as [|n IH]; intros [|c s]; simpl; try lia. specialize (IH s). lia. Qed.
Lemma str_app_cons c s t : String c s +:+ t = String c (s +:+ t).
Proof. reflexivity. Qed.
Lemma str_app_nil t : "" +:+ t = t.
Proof. reflexivity. Qed.
Lemma str_take_split n s t :
  str_take n (s +:+ t) = str_take n s +:+ str_take (n - String.length s) t.
Proof.
  revert n. induction s as [|c s IH]; intros [|n]; try done.
  rewrite str_app_cons. cbn [str_take String.length Nat.sub]. by rewrite IH, str_app_cons.
Qed.
Lemma str_take_all n s : (String.length s ≤ n)%nat → str_take n s = s.
Proof.
  revert s. induction n as [|n IH]; intros [|c s] H; simpl in *; try done; [lia|]. by rewrite IH by lia.
Qed.

Lemma CutPrefix_app s pre rest : CutPrefix s pre = Some rest ↔ s = pre +:+ rest.
Proof.
  revert s. induction pre as [|a pre IH]; intros [|b s]; cbn [CutPrefix].
  - rewrite str_app_nil. split; congruence.
  - rewrite str_app_nil. split; congruence.
  - split; discriminate.
  - rewrite str_app_cons. destruct (Ascii.eqb_spec a b) as [->|Hn].
    + rewrite IH. split; [by intros ->|by intros [= ->]].
    + split; [discriminate|]. intros [= -> _]. done.
Qed.
Lemma CutPrefix_of pre rest : CutPrefix (pre +:+ rest) pre = Some rest.
Proof. by apply CutPrefix_app. Qed.
Lemma HasPrefix_app pre rest : HasPrefix (pre +:+ rest) pre = true.
Proof. unfold HasPrefix. by rewrite CutPrefix_of. Qed.

Lemma trim_right_app s t : t ≠ "" → trim_right t = t → trim_right (s +:+ t) = s +:+ t.
Proof.
  intros Hn Ht. induction s as [|c s IH]; [done|]. rewrite str_app_cons. cbn [trim_right]. rewrite IH.
  destruct s; [by destruct t|]. by rewrite str_app_cons.
Qed.
Lemma str_app_assoc s t u : s +:+ (t +:+ u) = (s +:+ t) +:+ u.
Proof. induction s as [|c s IH]; [done|]. by rewrite !str_app_cons, IH. Qed.

Lemma str_length_app s t : String.length (s +:+ t) = (String.length s + String.length t)%nat.
Proof. induction s as [|c s IH]; [done|]. rewrite str_app_cons. simpl. by rewrite IH. Qed.

(** ** strconv.Unquote of a double-quoted literal

    Raw bytes above the ASCII range are kept, which is what Unquote does for valid
    UTF-8 text. *)

(** [utf8.AppendRune]. *)
Definition AppendRune (r : Z) : string :=
  if r <? 128 then byte r
  else if r <? 2048 then byte (192 + r / 64) +:+ byte (128 + r mod 64)
  else if r <? 65536
  then byte (224 + r / 4096) +:+ byte (128 + r / 64 mod 64) +:+ byte (128 + r mod 64)
  else byte (240 + r / 262144) +:+ byte (128 + r / 4096 mod 64) +:+
       byte (128 + r / 64 mod 64) +:+ byte (128 + r mod 64).
(** [utf8.ValidRune]. *)
Definition ValidRune (r : Z) : bool :=
  ((0 <=? r) && (r <? 55296)) || ((57344 <=? r) && (r <=? 1114111)).

Definition hex_value (c : Ascii.ascii) : option Z :=
  let n := Z.of_nat (Ascii.nat_of_ascii c) in
  if in_range 48 57 c then Some (n - 48)
  else if in_range 97 102 c then Some (n - 87)
  else if in_range 65 70 c then Some (n - 55) else None.

(** [n] digits in base [base]; each below [base]. *)
Fixpoint read_digits (base : Z) (n : nat) (s : string) (acc : Z) : option (Z * string) :=
  match n with
  | O => Some (acc, s)
  | S n =>
      match s with
      | EmptyString => None
      | String c t =>
          match hex_value c with
          | Some d => if d <? base then read_digits base n t (acc * base + d) else None
          | None => None
          end
      end
  end.

(** The character an escape stands for ([s] follows the backslash), and the rest. *)
Definition unquote_escape (s : string) : option (string * string) :=
  match s with
  | EmptyString => None
  | String c t =>
      let n := Z.of_nat (Ascii.nat_of_ascii c) in
      let rune digits :=
        match read_digits 16 digits t 0 with
        | Some (r, t) => if ValidRune r then Some (AppendRune r, t) else None
        | None => None
        end in
      match n with
      | 97 => Some (byte 7, t) | 98 => Some (byte 8, t) | 102 => Some (byte 12, t)
      | 110 => Some (byte 10, t) | 114 => Some (byte 13, t) | 116 => Some (byte 9, t)
      | 118 => Some (byte 11, t)
      | 120 => match read_digits 16 2%nat t 0 with Some (r, t) => Some (byte r, t) | None => None end
      | 117 => rune 4%nat
      | 85 => rune 8%nat
      | 92 | 34 => Some (String c "", t)
      | _ =>
          if in_range 48 55 c then
            match read_digits 8 3%nat s 0 with
            | Some (r, t) => if r <=? 255 then Some (byte r, t) else None
            | None => None
            end
          else None
      end
  end.

(** The body of the literal up to its closing quote, which must end the text. *)
Fixpoint unquote_body (fuel : nat) (s : string) : option string :=
  match fuel, s with
  | S fuel, String c t =>
      if byte_is 34 c then (if String.eqb t "" then Some "" else None)
      else if byte_is 10 c then None
      else if byte_is 92 c then
        match unquote_escape t with
        | Some (ch, t) => (fun u => ch +:+ u) <$> unquote_body fuel t
        | None => None
        end
      else String c <$> unquote_body fuel t
  | _, _ => None
  end.

(** The callers pass literals that start with a double quote. *)
Definition Unquote (s : string) : option string :=
  match s with
  | String c t => if byte_is 34 c then unquote_body (String.length t) t else None
  | EmptyString => None
  end.

Example Unquote_examples :
  let q := byte 34 in let bs := byte 92 in
  Unquote (q +:+ "a" +:+ bs +:+ "n" +:+ bs +:+ "u0041" +:+ bs +:+ "101" +:+ q) =
    Some ("a" +:+ byte 10 +:+ "AA") ∧
  Unquote (q +:+ bs +:+ "/" +:+ q) = None ∧ Unquote (q +:+ "a") = None.
Proof. vm_compute. done. Qed.

(** * time.Parse with the layout RFC3339Nano

    The general parser of Go's time package on that layout: fixed-width fields except the
    hour (one or two digits), an optional fraction after a period or a comma of which the
    first nine digits count, a zone Z or ±hh:mm, range checks on every field and on the
    day of the month, and no text after the zone. *)


Definition digit (c : Ascii.ascii) : option Z :=
  if in_range 48 57 c then Some (Z.of_nat (Ascii.nat_of_ascii c) - 48) else None.

(** Exactly [n] digits. *)
Fixpoint fixed_digits (n : nat) (s : string) (acc : Z) : option (Z * string) :=
  match n, s with
  | O, _ => Some (acc, s)
  | S n, String c t => match digit c with Some d => fixed_digits n t (10 * acc + d) | None => None end
  | S _, EmptyString => None
  end.

(** [getnum] with [fixed] false: one or two digits. *)
Definition getnum (s : string) : option (Z * string) :=
  match fixed_digits 2%nat s 0 with Some r => Some r | None => fixed_digits 1%nat s 0 end.

Definition expect (n : nat) (s : string) : option string :=
  match s with String c t => if byte_is n c then Some t else None | EmptyString => None end.

Definition field (fixed : bool) (lo hi : Z) (s : string) : option (Z * string) :=
  match (if fixed then fixed_digits 2%nat s 0 else getnum s) with
  | Some (v, t) => if (lo <=? v) && (v <=? hi) then Some (v, t) else None
  | None => None
  end.

(** The digits after the point: the first nine, scaled to nanoseconds. *)
Fixpoint fraction (s : string) (scale acc : Z) : Z * string :=
  match s with
  | String c t => match digit c with
                  | Some d => fraction t (scale / 10) (acc + d * scale)
                  | None => (acc, s)
                  end
  | EmptyString => (acc, s)
  end.
Definition frac_seconds (s : string) : Z * string :=
  match s with
  | String c (String d t) =>
      if (byte_is 46 c || byte_is 44 c) && (if digit d then true else false)
      then fraction (String d t) 100000000 0 else (0, s)
  | _ => (0, s)
  end.

(** Seconds east of UTC; the zone ends the text. *)
Definition zone (s : string) : option Z :=
  match s with
  | EmptyString => None
  | String c t =>
      if byte_is 90 c then (if String.eqb t "" then Some 0 else None)
      else if byte_is 43 c || byte_is 45 c then
        match field true 0 24 t with
        | Some (hh, t) =>
            match expect 58%nat t with
            | Some t =>
                match field true 0 60 t with
                | Some (mm, t) =>
                    let seconds := (hh * 60 + mm) * 60 in
                    if String.eqb t "" then Some (if byte_is 43 c then seconds else - seconds) else None
                | None => None
                end
            | None => None
            end
        | None => None
        end
      else None
  end.

Definition is_leap (year : Z) : bool :=
  (year mod 4 =? 0) && (negb (year mod 100 =? 0) || (year mod 400 =? 0)).
Definition days_in (month year : Z) : Z :=
  if month =? 2 then (if is_leap year then 29 else 28)
  else if existsb (Z.eqb month) [4; 6; 9; 11] then 30 else 31.
(** Days from January 1 of year 1. *)
Definition days_before_year (year : Z) : Z :=
  let y := year - 1 in 365 * y + y / 4 - y / 100 + y / 400.
Definition day_number (year month day : Z) : Z :=
  days_before_year year +
  fold_left (fun n m => n + days_in (Z.of_nat m) year) (seq 1 (Z.to_nat (month - 1))) 0 + (day - 1).

(** The instant, in nanoseconds since Go's zero time. *)
Definition instant (year month day hour minute second nanos offset : Z) : Time :=
  (day_number year month day * 86400 + hour * 3600 + minute * 60 + second - offset) * Second + nanos.

Definition ParseRFC3339Nano (s : string) : option Time :=
  year ← fixed_digits 4%nat s 0; s ← expect 45%nat year.2;
  month ← field true 1 12 s; s ← expect 45%nat month.2;
  day ← field true 0 99 s; s ← expect 84%nat day.2;
  hour ← field false 0 23 s; s ← expect 58%nat hour.2;
  minute ← field true 0 59 s; s ← expect 58%nat minute.2;
  second ← field true 0 59 s;
  let frac := frac_seconds second.2 in
  offset ← zone frac.2;
  if (1 <=? day.1) && (day.1 <=? days_in month.1 year.1)
  then Some (instant year.1 month.1 day.1 hour.1 minute.1 second.1 frac.1 offset) else None.

Example parse_examples :
  ParseRFC3339Nano "0001-01-01T00:00:00Z" = Some 0 ∧
  ParseRFC3339Nano "1970-01-01T00:00:01.5+00:00" = Some (62135596801500000000) ∧
  ParseRFC3339Nano "2024-02-29T12:00:00-01:30" = ParseRFC3339Nano "2024-02-29T13:30:00Z" ∧
  ParseRFC3339Nano "2023-02-29T12:00:00Z" = None ∧ ParseRFC3339Nano "2024-01-01 00:00:00Z" = None.
Proof. vm_compute. done. Qed.

(** * More of Go's text functions

    strings.Cut, strings.Split, html.EscapeString, and the search for delimited text
    that the two regular expressions of internal/workflow/template.go describe; with
    the arithmetic of [float64] that comparing two numbers needs. *)


(** ** Cutting *)

(** [strings.Cut(s, sep)]: [None] when [sep] is not found. *)
Fixpoint Cut (s sep : string) : option (string * string) :=
  match CutPrefix s sep with
  | Some rest => Some ("", rest)
  | None =>
      match s with
      | EmptyString => None
      | String c t => match Cut t sep with Some (b, a) => Some (String c b, a) | None => None end
      end
  end.
(** The three results of the call. *)
Definition Cut3 (s sep : string) : string * string * bool :=
  match Cut s sep with Some (b, a) => (b, a, true) | None => (s, "", false) end.

(** [strings.Split(s, sep)] for a separator of one byte. *)
Fixpoint Split (sep : Ascii.ascii) (s : string) : list string :=
  match s with
  | EmptyString => [""]
  | String c t =>
      if Ascii.eqb c sep then "" :: Split sep t
      else match Split sep t with
           | p :: ps => String c p :: ps
           | [] => [String c ""]
           end
  end.


Lemma Cut_app s sep b a : Cut s sep = Some (b, a) → s = b +:+ sep +:+ a.
Proof.
  revert b. induction s as [|c s IH]; intros b; cbn [Cut].
  - destruct (CutPrefix "" sep) eqn:H; [|done]. intros [= <- <-]. by apply CutPrefix_app in H.
  - destruct (CutPrefix (String c s) sep) eqn:H; [intros [= <- <-]; by apply CutPrefix_app in H|].
    destruct (Cut s sep) as [[b' a']|]; [|done]. intros [= <- <-].
    rewrite str_app_cons. by rewrite <- (IH b').
Qed.

Lemma Split_join sep s : str_join (String sep "") (Split sep s) = s.
Proof.
  induction s as [|c s IH]; [done|]. cbn [Split]. destruct (Ascii.eqb_spec c sep) as [->|Hn].
  - destruct (Split sep s) eqn:E; [destruct s as [|c' s]; cbn in E; repeat case_match; discriminate|].
    cbn [str_join]. rewrite str_app_nil, str_app_cons, str_app_nil. f_equal. exact IH.
  - destruct (Split sep s) as [|p [|q ps]] eqn:E; cbn [str_join] in *.
    + by rewrite <- IH.
    + by rewrite IH.
    + rewrite str_app_cons. by rewrite IH.
Qed.

(** ** [html.EscapeString] *)

Definition escape_byte (c : Ascii.ascii) : string :=
  if byte_is 38 c then "&amp;" else if byte_is 39 c then "&#39;"
  else if byte_is 60 c then "&lt;" else if byte_is 62 c then "&gt;"
  else if byte_is 34 c then "&#34;" else String c "".
Fixpoint EscapeString (s : string) : string :=
  match s with EmptyString => "" | String c t => escape_byte c +:+ EscapeString t end.

(** ** Delimited text

    The expression [open\s*([^...]+?)\s*close], where the characters of [\s] are among
    those the class allows and the closing delimiter begins with one it excludes: the
    opening delimiter, a maximal non-empty run of the class, the closing delimiter.  The
    group, trimmed, is the run, trimmed. *)
Fixpoint span (P : Ascii.ascii → bool) (s : string) : string * string :=
  match s with
  | EmptyString => ("", "")
  | String c t => if P c then let (r, rest) := span P t in (String c r, rest) else ("", s)
  end.

Record Delims := { d_open : string; d_close : string; d_class : Ascii.ascii → bool }.

(** A match that starts here: the run, and the length of the match. *)
Definition match_here (d : Delims) (s : string) : option (string * nat) :=
  match CutPrefix s (d_open d) with
  | None => None
  | Some t =>
      let (run, rest) := span (d_class d) t in
      if String.eqb run "" then None
      else if HasPrefix rest (d_close d)
           then Some (run, String.length (d_open d) + String.length run + String.length (d_close d))%nat
           else None
  end.

(** One match of [FindAllStringSubmatchIndex]: where it starts and ends, and the run. *)
Record Match := { m_start : nat; m_end : nat; m_run : string }.

(** The matches, leftmost first, none overlapping another.  [skip] counts the bytes of
    the last match still to pass, [pos] is the offset. *)
Fixpoint find_all (d : Delims) (skip pos : nat) (s : string) : list Match :=
  match s with
  | EmptyString => []
  | String _ t =>
      match skip with
      | S skip => find_all d skip (S pos) t
      | O =>
          match match_here d s with
          | Some (run, n) => {| m_start := pos; m_end := pos + n; m_run := run |} :: find_all d (n - 1) (S pos) t
          | None => find_all d 0 (S pos) t
          end
      end
  end.
Definition FindAll (d : Delims) (s : string) : list Match := find_all d 0 0 s.
(** [FindStringSubmatchIndex]: the first of them. *)
Definition Find (d : Delims) (s : string) : option Match := head (FindAll d s).

(** [s[lo:hi]], for offsets in range. *)
Definition slice (s : string) (lo hi : nat) : string := String.substring lo (hi - lo) s.
(** [s[lo:]]. *)
Definition slice_from (s : string) (lo : nat) : string := slice s lo (String.length s).

Lemma span_app P s : (span P s).1 +:+ (span P s).2 = s.
Proof.
  induction s as [|c s IH]; [done|]. cbn [span]. destruct (P c); [|done].
  destruct (span P s) as [r rest]. cbn [fst snd] in *. by rewrite str_app_cons, IH.
Qed.

(** What a match is. *)
Lemma match_here_app d s run n :
  match_here d s = Some (run, n) →
  run ≠ "" ∧ n = String.length (d_open d +:+ run +:+ d_close d)
  ∧ ∃ rest, s = d_open d +:+ run +:+ d_close d +:+ rest.
Proof.
  unfold match_here. destruct (CutPrefix s (d_open d)) as [t|] eqn:Ho; [|done].
  apply CutPrefix_app in Ho as ->. pose proof (span_app (d_class d) t) as Hs.
  destruct (span (d_class d) t) as [r rest]. cbn [fst snd] in Hs. subst t.
  destruct (String.eqb_spec r "") as [|Hr]; [done|].
  unfold HasPrefix. destruct (CutPrefix rest (d_close d)) as [u|] eqn:Hc; [|done].
  apply CutPrefix_app in Hc as ->. intros [= <- <-].
  rewrite !str_length_app. split; [done|]. split; [lia|]. by exists u.
Qed.
Lemma match_here_bounds d s run n :
  match_here d s = Some (run, n) → (0 < n ≤ String.length s)%nat.
Proof.
  intros H. destruct (match_here_app _ _ _ _ H) as (Hr & -> & rest & ->).
  rewrite !str_length_app. destruct run; [done|]. cbn [String.length]. lia.
Qed.

(** ** Numbers *)

(** [float64(v)] of an integer of 64 bits: 53 bits are kept, half to even. *)
Definition float_of_int (z : Z) : float64 :=
  let a := Z.abs z in
  if a <? 2 ^ 53 then FFin z 0
  else
    let e := Z.log2 a - 52 in
    let q := a / 2 ^ e in
    let r := a mod 2 ^ e in
    let half := 2 ^ (e - 1) in
    let q := if (half <? r) || ((r =? half) && Z.odd q) then q + 1 else q in
    FFin (Z.sgn z * q) e.

(** [None] when one of the two is a NaN. *)
Definition float_compare (f g : float64) : option comparison :=
  match f, g with
  | FNaN, _ | _, FNaN => None
  | FInf b, FInf c => Some (if Bool.eqb b c then Eq else if b then Lt else Gt)
  | FInf b, _ => Some (if b then Lt else Gt)
  | _, FInf c => Some (if c then Gt else Lt)
  | FFin m e, FFin n e' =>
      let low := Z.min e e' in Some (m * 2 ^ (e - low) ?= n * 2 ^ (e' - low))
  end.

(** [num / den], both positive, to the nearest float, half to even; [None] beyond the
    largest one. *)
Definition float_of_ratio (num den : Z) : option float64 :=
  let k := Z.log2 num - Z.log2 den in
  let below := if 0 <=? k then num <? den * 2 ^ k else num * 2 ^ (- k) <? den in
  let e := Z.max ((if below then k - 1 else k) - 52) (-1074) in
  let n := if 0 <=? e then num else num * 2 ^ (- e) in
  let d := if 0 <=? e then den * 2 ^ e else den in
  let q := n / d in
  let r := n mod d in
  let q := if (d <? 2 * r) || ((2 * r =? d) && Z.odd q) then q + 1 else q in
  if (0 <=? e) && (2 ^ 1024 <=? q * 2 ^ e) then None else Some (FFin q e).
(** The product with an integer of at most 53 bits, both positive. *)
Definition float_scale (f : float64) (unit : Z) : float64 :=
  match f with
  | FFin m e =>
      if m <=? 0 then FFin 0 0
      else default (FInf false)
             (if 0 <=? e then float_of_ratio (m * unit * 2 ^ e) 1 else float_of_ratio (m * unit) (2 ^ (- e)))
  | _ => f
  end.
(** [strconv.ParseFloat(s, 64)] of digits with an optional fraction: [None] is an error. *)
Definition ParseDecimal (s : string) : option float64 :=
  let '(whole, frac, _) := Cut3 s "." in
  match parse_digits (whole +:+ frac) 0 with
  | Some n => if n =? 0 then Some (FFin 0 0) else float_of_ratio n (10 ^ Z.of_nat (String.length frac))
  | None => None
  end.
Example decimal_tenth : ParseDecimal "0.1" = Some (FFin 7205759403792794 (-56)).
Proof. reflexivity. Qed.
