(* ===== verification/Template.v ===== *)
(** * Prompt templates (internal/workflow/template.go)

    [Render] turns the prompt template of a workflow into the text an agent is given: a
    first pass resolves the [if] tags, a second one replaces the interpolations.  The
    values of the variables are the dynamic types [IssueRenderVars] and [buildPrompt] put
    into the map (poller.go, runtask.go); [strconv.ParseFloat], the text of a float and
    the text of a time are arguments. *)

From S2P Require Import Prelude GoStd Payload Tracker.

(** ** Values *)

(** [any].  A nil map reads as an empty one; no two keys of a map are equal. *)
Inductive Value :=
| VNil
| VBool (b : bool)
| VInt (n : Z)
| VFloat (f : float64)
| VString (s : string)
| VTime (t : Time)
| VStrings (l : list string)
| VMap (m : list (string * Value))
| VMaps (l : list (list (string * Value))).
Notation Vars := (list (string * Value)).

Definition key_less {A} (x y : string * A) : bool := String.ltb x.1 y.1.
(** The text of a map: its keys in order. *)
Definition map_text (kvs : list (string * string)) : string :=
  "map[" +:+ str_join " " (map (fun kv => kv.1 +:+ ":" +:+ kv.2) (stable_sort key_less kvs)) +:+ "]".

(** ** Errors *)

Inductive ParseErr := UnexpectedEndif | UnsupportedTag (tag : string) | UnterminatedIf.
Inductive RenderErr :=
| MissingVariable (name : string)
| OrderedOperands
| UnsupportedOperator (op : string)
| FilterArgument (name : string)
| UnknownFilter (text : string).
(** [Plain] is an error not yet wrapped by [Render]; [NoFuel] is of the model. *)
Inductive TemplateErr :=
| TemplateParseError (e : ParseErr)
| Plain (e : RenderErr)
| TemplateRenderError (e : RenderErr)
| NoFuel.

(** ** Tags and interpolations *)

Definition brace (c : Ascii.ascii) : bool := byte_is 123 c || byte_is 125 c.
Definition liquidInterpolationRE : Delims :=
  {| d_open := "{{"; d_close := "}}"; d_class := fun c => negb (brace c) |}.
Definition liquidTagRE : Delims :=
  {| d_open := "{%"; d_close := "%}"; d_class := fun c => negb (brace c || byte_is 37 c) |}.

Definition isQuotedLiquidLiteral (raw : string) : bool :=
  match TrimSpace raw with
  | String q (String c t) =>
      (byte_is 39 q || byte_is 34 q) && HasSuffix (String c t) (String q "")
  | _ => false
  end.
Definition parseLiquidLiteral (raw : string) : string :=
  let trimmed := TrimSpace raw in
  if isQuotedLiquidLiteral raw then slice trimmed 1 (String.length trimmed - 1) else trimmed.

Definition isLiquidTruthy (value : Value) : bool :=
  match value with VNil => false | VBool b => b | _ => true end.
Definition isLiquidBlank (value : Value) : bool :=
  match value with
  | VNil => true
  | VString s => String.eqb s ""
  | VStrings [] | VMap [] | VMaps [] => true
  | _ => false
  end.

(** ** Variables *)

(** A time is a struct without exported fields, so its parts are not found. *)
Definition lookupTemplatePart (value : Value) (name : string) : option Value :=
  match value with VMap m => assoc m name | _ => None end.
Fixpoint lookup_parts (cur : Value) (parts : list string) : option Value :=
  match parts with
  | [] => Some cur
  | part :: parts =>
      if String.eqb part "" then None
      else match lookupTemplatePart cur part with
           | Some next => lookup_parts next parts
           | None => None
           end
  end.
Definition dot : Ascii.ascii := Ascii.ascii_of_nat 46.
Definition bar : Ascii.ascii := Ascii.ascii_of_nat 124.
Definition lookupTemplateVar (vars : Vars) (name : string) : option Value :=
  if String.eqb name "" then None
  else match assoc vars name with
       | Some value => Some value
       | None => lookup_parts (VMap vars) (Split dot name)
       end.

Section Template.
Variable ParseFloat : string → option float64.
Variable float_text : float64 → string.
Variable time_text : Time → string.

(** [fmt.Sprint]. *)
Fixpoint Sprint (v : Value) : string :=
  match v with
  | VNil => "<nil>"
  | VBool b => if b then "true" else "false"
  | VInt n => fmt_d n
  | VFloat f => float_text f
  | VString s => s
  | VTime t => time_text t
  | VStrings l => "[" +:+ str_join " " l +:+ "]"
  | VMap m => map_text (map (fun kv => (kv.1, Sprint kv.2)) m)
  | VMaps l => "[" +:+ str_join " " (map (fun m => map_text (map (fun kv => (kv.1, Sprint kv.2)) m)) l) +:+ "]"
  end.
Definition stringifyLiquidValue (value : Value) : string :=
  match value with VNil => "" | _ => Sprint value end.

(** ** Conditions *)

Definition liquidNumber (value : Value) : option float64 :=
  match value with
  | VInt v => Some (float_of_int v)
  | VFloat v => Some v
  | VString v => ParseFloat v
  | _ => None
  end.

Definition compareLiquidValues (left right : Value) (op : string) : RenderErr + bool :=
  if String.eqb op "==" then inr (String.eqb (Sprint left) (Sprint right))
  else if String.eqb op "!=" then inr (negb (String.eqb (Sprint left) (Sprint right)))
  else match liquidNumber left, liquidNumber right with
       | Some lf, Some rf =>
           let c := float_compare lf rf in
           if String.eqb op ">" then inr (bool_decide (c = Some Gt))
           else if String.eqb op "<" then inr (bool_decide (c = Some Lt))
           else if String.eqb op ">=" then inr (bool_decide (c = Some Gt ∨ c = Some Eq))
           else if String.eqb op "<=" then inr (bool_decide (c = Some Lt ∨ c = Some Eq))
           else inl (UnsupportedOperator op)
       | _, _ => inl OrderedOperands
       end.

Definition evalLiquidOperand (vars : Vars) (raw : string) : RenderErr + Value :=
  if String.eqb raw "nil" || String.eqb raw "null" then inr VNil
  else if String.eqb raw "true" then inr (VBool true)
  else if String.eqb raw "false" then inr (VBool false)
  else match ParseInt raw with
  | Some i => inr (VInt i)
  | None =>
      match ParseFloat raw with
      | Some f => inr (VFloat f)
      | None =>
          if isQuotedLiquidLiteral raw then inr (VString (parseLiquidLiteral raw))
          else match lookupTemplateVar vars raw with
               | Some value => inr value
               | None => inl (MissingVariable raw)
               end
      end
  end.

Definition operators : list string := ["=="; "!="; ">="; "<="; ">"; "<"].
Fixpoint eval_comparison (vars : Vars) (cond : string) (ops : list string) : option (RenderErr + bool) :=
  match ops with
  | [] => None
  | op :: ops =>
      match Cut cond op with
      | Some (lraw, rraw) =>
          Some (match evalLiquidOperand vars (TrimSpace lraw) with
                | inl e => inl e
                | inr lv =>
                    match evalLiquidOperand vars (TrimSpace rraw) with
                    | inl e => inl e
                    | inr rv => compareLiquidValues lv rv op
                    end
                end)
      | None => eval_comparison vars cond ops
      end
  end.
Definition evalLiquidCondition (vars : Vars) (cond : string) : RenderErr + bool :=
  match eval_comparison vars cond operators with
  | Some r => r
  | None =>
      match lookupTemplateVar vars cond with
      | Some value => inr (isLiquidTruthy value)
      | None => inl (MissingVariable cond)
      end
  end.

(** ** If tags *)

Record liquidBranch := { br_cond : string; br_body : string }.
Definition tag_of (m : Match) : string := TrimSpace (m_run m).
(** [strings.HasPrefix(tag, "if ")]. *)
Definition is_if (tag : string) : bool := HasPrefix tag "if ".
(** [strings.TrimSpace(strings.TrimPrefix(tag, pre))]. *)
Definition cond_of (tag pre : string) : string :=
  TrimSpace (match CutPrefix tag pre with Some rest => rest | None => tag end).

(** The loop of [splitLiquidBranches]: the closed branches, the condition and the start
    of the open one, and the depth. *)
Record split_state := { ss_done : list liquidBranch; ss_cond : string; ss_start : nat; ss_depth : nat }.
Definition split_step (body : string) (st : split_state) (m : Match) : split_state :=
  let tag := tag_of m in
  let close cond :=
    {| ss_done := ss_done st ++ [{| br_cond := ss_cond st; br_body := slice body (ss_start st) (m_start m) |}];
       ss_cond := cond; ss_start := m_end m; ss_depth := ss_depth st |} in
  let at_depth d := {| ss_done := ss_done st; ss_cond := ss_cond st; ss_start := ss_start st; ss_depth := d |} in
  if is_if tag then at_depth (S (ss_depth st))
  else if String.eqb tag "endif" && (0 <? ss_depth st)%nat then at_depth (ss_depth st - 1)%nat
  else if (ss_depth st =? 0)%nat && HasPrefix tag "elsif " then close (cond_of tag "elsif ")
  else if (ss_depth st =? 0)%nat && String.eqb tag "else" then close ""
  else st.
Definition splitLiquidBranches (openTag body : string) : list liquidBranch :=
  let st := fold_left (split_step body) (FindAll liquidTagRE body)
              {| ss_done := []; ss_cond := cond_of openTag "if "; ss_start := 0; ss_depth := 0 |} in
  ss_done st ++ [{| br_cond := ss_cond st; br_body := slice_from body (ss_start st) |}].

Fixpoint find_endif (depth : nat) (matches : list Match) : option (nat * nat) :=
  match matches with
  | [] => None
  | m :: matches =>
      let tag := tag_of m in
      if is_if tag then find_endif (S depth) matches
      else if String.eqb tag "endif"
           then if (depth - 1 =? 0)%nat then Some (m_start m, m_end m) else find_endif (depth - 1) matches
           else find_endif depth matches
  end.
Definition findLiquidEndif (template : string) : option (nat * nat) :=
  find_endif 1 (FindAll liquidTagRE template).

Fixpoint choose_branch (vars : Vars) (branches : list liquidBranch) : RenderErr + string :=
  match branches with
  | [] => inr ""
  | b :: branches =>
      if String.eqb (br_cond b) "" then inr (br_body b)
      else match evalLiquidCondition vars (br_cond b) with
           | inl e => inl e
           | inr true => inr (br_body b)
           | inr false => choose_branch vars branches
           end
  end.
Definition renderLiquidIfBody (vars : Vars) (openTag body : string) : RenderErr + string :=
  choose_branch vars (splitLiquidBranches openTag body).

(** One iteration of [renderLiquidIfTags]: the text is final, or there is a next one. *)
Definition render_if_step (vars : Vars) (template : string) : TemplateErr + (string + string) :=
  match Find liquidTagRE template with
  | None => inr (inl template)
  | Some m =>
      let tag := tag_of m in
      if String.eqb tag "endif" then inl (TemplateParseError UnexpectedEndif)
      else if negb (is_if tag) then inl (TemplateParseError (UnsupportedTag tag))
      else match findLiquidEndif (slice_from template (m_end m)) with
           | None => inl (TemplateParseError UnterminatedIf)
           | Some (closeStart, closeEnd) =>
               match renderLiquidIfBody vars tag (slice template (m_end m) (m_end m + closeStart)) with
               | inl e => inl (Plain e)
               | inr replacement =>
                   inr (inr (slice template 0 (m_start m) +:+ replacement
                             +:+ slice_from template (m_end m + closeEnd)))
               end
           end
  end.
Fixpoint render_if_tags (fuel : nat) (vars : Vars) (template : string) : TemplateErr + string :=
  match fuel with
  | O => inl NoFuel
  | S fuel =>
      match render_if_step vars template with
      | inl e => inl e
      | inr (inl out) => inr out
      | inr (inr next) => render_if_tags fuel vars next
      end
  end.
Definition renderLiquidIfTags (template : string) (vars : Vars) : TemplateErr + string :=
  render_if_tags (S (String.length template)) vars template.

(** ** Interpolation *)

Definition filter_name (rawFilter : string) : string * string * bool :=
  let '(name, arg, hasArg) := Cut3 (TrimSpace rawFilter) ":" in (TrimSpace name, arg, hasArg).
Definition hasDefaultFilter (filters : list string) : bool :=
  existsb (fun rawFilter => String.eqb (filter_name rawFilter).1.1 "default") filters.
Definition applyLiquidFilter (value : Value) (rawFilter : string) : RenderErr + Value :=
  let '(name, arg, hasArg) := filter_name rawFilter in
  if String.eqb name "escape" then inr (VString (EscapeString (stringifyLiquidValue value)))
  else if String.eqb name "default" then
    if negb hasArg then inl (FilterArgument name)
    else inr (if isLiquidBlank value then VString (parseLiquidLiteral arg) else value)
  else inl (UnknownFilter (TrimSpace rawFilter)).
Fixpoint apply_filters (value : Value) (filters : list string) : RenderErr + Value :=
  match filters with
  | [] => inr value
  | f :: filters =>
      match applyLiquidFilter value f with inl e => inl e | inr v => apply_filters v filters end
  end.

(** The callback for one interpolation. *)
Definition interpolation (vars : Vars) (run : string) : RenderErr + string :=
  match Split bar (TrimSpace run) with
  | [] => inr ""                     (* Split returns at least one part *)
  | part :: filters =>
      let name := TrimSpace part in
      match lookupTemplateVar vars name, hasDefaultFilter filters with
      | None, false => inl (MissingVariable name)
      | found, _ =>
          match apply_filters (default VNil found) filters with
          | inl e => inl e
          | inr v => inr (stringifyLiquidValue v)
          end
      end
  end.

(** [ReplaceAllStringFunc]: the text, and [firstErr], after which matches are kept. *)
Fixpoint replace_all (vars : Vars) (skip : nat) (s : string) (firstErr : option RenderErr)
    : string * option RenderErr :=
  match s with
  | EmptyString => ("", firstErr)
  | String c t =>
      match skip with
      | S skip => replace_all vars skip t firstErr
      | O =>
          match match_here liquidInterpolationRE s with
          | None => let (out, err) := replace_all vars 0 t firstErr in (String c out, err)
          | Some (run, n) =>
              let kept := slice s 0 n in
              let '(text, firstErr) :=
                match firstErr with
                | Some _ => (kept, firstErr)
                | None => match interpolation vars run with
                          | inl e => (kept, Some e)
                          | inr text => (text, None)
                          end
                end in
              let (out, err) := replace_all vars (n - 1) t firstErr in (text +:+ out, err)
          end
      end
  end.

Definition DefaultPrompt : string :=
"You are working on an AI coding task.

Read the task context, inspect the repository before editing, make the smallest safe change, run verification commands, and produce a clear summary.

Handoff:
- Push branches, open pull requests, and write tracker updates yourself using the tools available in the runtime environment.
- If a linear_graphql tool is available, use it for Linear state transitions, comments, and PR-link handoff updates; the orchestrator keeps the Linear token isolated from your process.
- The orchestrator is a scheduler/runner and tracker reader. Do not expect new workflow designs to rely on orchestrator-side ticket moves, comments, pushes, or pull-request handoffs after you exit.

Rules:
- Do not touch secrets, credentials, production deployment files, or database migrations unless explicitly requested.
- Prefer a coherent, issue-scoped change over a broad unrelated refactor.
- If blocked, explain the blocker and stop.".

Definition Render (template : string) (vars : Vars) : TemplateErr + string :=
  let template := if blank template then DefaultPrompt else template in
  match renderLiquidIfTags template vars with
  | inl (Plain e) => inl (TemplateRenderError e)
  | inl e => inl e
  | inr template =>
      match replace_all vars 0 template None with
      | (_, Some e) => inl (TemplateRenderError e)
      | (out, None) => inr out
      end
  end.
End Template.

(** ** The issue variable (internal/orchestrator/poller.go) *)

Definition blocker_vars (b : BlockerRef) : Vars :=
  [("id", VString (br_ID b)); ("identifier", VString (br_Identifier b)); ("state", VString (br_State b))].
Definition IssueRenderVars (issue : Issue) : Vars :=
  [("id", VString (iss_ID issue)); ("identifier", VString (iss_Identifier issue));
   ("title", VString (iss_Title issue)); ("description", VString (iss_Description issue));
   ("priority", VInt (iss_Priority issue)); ("state", VString (iss_State issue));
   ("branch_name", VString (iss_BranchName issue)); ("url", VString (iss_URL issue));
   ("labels", VStrings (iss_Labels issue));
   ("blocked_by", VMaps (map blocker_vars (default [] (iss_BlockedBy issue))));
   ("created_at", VTime (iss_CreatedAt issue)); ("updated_at", VTime (iss_UpdatedAt issue))].
