(* ===== verification/Types.v ===== *)
(** * Runtime state records (internal/orchestrator/state.go, retry.go, status.go,
      state_usage.go, state_operator_stop.go)

    The structs of the orchestrator's in-memory state.  Field names are the
    source's with a prefix per struct.  Three points of representation:

    - [Running] maps an issue to a [Ref], the address of its [RunningEntry]; the
      entries live in [runs], because the finalize operation, the cancel
      followups and the state share one mutable object.  A retry entry is held
      by value with its address [retry_ref], which the one pointer comparison of
      the source ([BlockRetryWithReason]) needs.
    - Go timers are addresses too: [timers] holds the armed ones with the
      operation their callback submits; [Stop] removes one.
    - the [Done] channel of a run is the counter [run_DoneCloses] of its closes:
      Go panics on a second close. *)

From S2P Require Import Prelude Tracker RetryPolicy Payload.

Notation IssueID := string (only parsing).
Definition Ref := positive.

Record Workspace := {
  ws_Path : string;
  ws_Root : string;
  ws_Key : string;
  ws_CreatedNow : bool
}.
Definition zero_Workspace : Workspace := Build_Workspace "" "" "" false.

Record LiveSession := {
  ls_SessionID : string;
  ls_ThreadID : string;
  ls_TurnID : string;
  ls_TurnCount : Z;
  ls_CodexAppServerPID : Z;
  ls_AgentProvider : string;
  ls_AgentModel : string;
  ls_WorkflowSource : string;
  ls_WorkflowPath : string
}.
Definition zero_LiveSession : LiveSession := Build_LiveSession "" "" "" 0 0 "" "" "" "".
#[export] Instance eta_LiveSession : Eta LiveSession := fun r =>
  Build_LiveSession (ls_SessionID r) (ls_ThreadID r) (ls_TurnID r) (ls_TurnCount r)
    (ls_CodexAppServerPID r) (ls_AgentProvider r) (ls_AgentModel r)
    (ls_WorkflowSource r) (ls_WorkflowPath r).

(** [SecondsRunning] is kept in exact nanoseconds. *)
Record CodexTotals := {
  ct_InputTokens : Z;
  ct_OutputTokens : Z;
  ct_TotalTokens : Z;
  ct_SecondsRunning : Duration
}.
Definition zero_CodexTotals : CodexTotals := Build_CodexTotals 0 0 0 0.
#[export] Instance eta_CodexTotals : Eta CodexTotals := fun r =>
  Build_CodexTotals (ct_InputTokens r) (ct_OutputTokens r) (ct_TotalTokens r)
    (ct_SecondsRunning r).

Record StartupFailure := { sf_Phase : string; sf_Error : string }.

Record RunningEntry := {
  run_Issue : Issue;
  run_Identifier : string;
  run_StartedAt : Time;
  run_RetryAttempt : option Z;
  run_ContinuationAttempt : Z;
  run_ContinuationTurnCount : Z;
  run_Workspace : Workspace;
  run_Session : LiveSession;
  run_LastEventAt : Time;
  run_LastCodexEvent : string;
  run_LastCodexMessage : string;
  run_LastStartupFailure : option StartupFailure;
  run_CodexInputTokens : Z;
  run_CodexOutputTokens : Z;
  run_CodexTotalTokens : Z;
  run_LastReportedInputTokens : Z;
  run_LastReportedOutputTokens : Z;
  run_LastReportedTotalTokens : Z;
  run_StallCanceled : bool;
  run_BudgetExceeded : bool;
  run_BudgetExceededAt : Time;
  run_BudgetExceededError : string;
  run_InputRequired : bool;
  run_InputRequiredAt : Time;
  run_InputRequiredMethod : string;
  run_AgentCurrentIssueHandoff : bool;
  run_AgentCurrentIssueTerminalHandoff : bool;
  run_AgentCurrentIssueTerminalHandoffState : string;
  run_DoneCloses : nat;
  run_ReconcileCancel : bool;
  run_ReconcileCleanupWorkspace : bool
}.
#[export] Instance eta_RunningEntry : Eta RunningEntry := fun r =>
  Build_RunningEntry (run_Issue r) (run_Identifier r) (run_StartedAt r)
    (run_RetryAttempt r) (run_ContinuationAttempt r) (run_ContinuationTurnCount r)
    (run_Workspace r) (run_Session r) (run_LastEventAt r) (run_LastCodexEvent r)
    (run_LastCodexMessage r) (run_LastStartupFailure r) (run_CodexInputTokens r)
    (run_CodexOutputTokens r) (run_CodexTotalTokens r) (run_LastReportedInputTokens r)
    (run_LastReportedOutputTokens r) (run_LastReportedTotalTokens r)
    (run_StallCanceled r) (run_BudgetExceeded r) (run_BudgetExceededAt r)
    (run_BudgetExceededError r) (run_InputRequired r) (run_InputRequiredAt r)
    (run_InputRequiredMethod r) (run_AgentCurrentIssueHandoff r)
    (run_AgentCurrentIssueTerminalHandoff r)
    (run_AgentCurrentIssueTerminalHandoffState r) (run_DoneCloses r)
    (run_ReconcileCancel r) (run_ReconcileCleanupWorkspace r).

(** The entry [spawn] allocates: every field it does not name is zero. *)
Definition new_RunningEntry (issue : Issue) (startedAt : Time) (attempt : option Z)
    (continuationAttempt continuationTurnCount : Z) (workspace : Workspace) : RunningEntry :=
  {| run_Issue := issue; run_Identifier := iss_Identifier issue;
     run_StartedAt := startedAt; run_RetryAttempt := attempt;
     run_ContinuationAttempt := continuationAttempt;
     run_ContinuationTurnCount := continuationTurnCount;
     run_Workspace := workspace; run_Session := zero_LiveSession;
     run_LastEventAt := time_zero; run_LastCodexEvent := ""; run_LastCodexMessage := "";
     run_LastStartupFailure := None;
     run_CodexInputTokens := 0; run_CodexOutputTokens := 0; run_CodexTotalTokens := 0;
     run_LastReportedInputTokens := 0; run_LastReportedOutputTokens := 0;
     run_LastReportedTotalTokens := 0;
     run_StallCanceled := false; run_BudgetExceeded := false;
     run_BudgetExceededAt := time_zero; run_BudgetExceededError := "";
     run_InputRequired := false; run_InputRequiredAt := time_zero;
     run_InputRequiredMethod := "";
     run_AgentCurrentIssueHandoff := false;
     run_AgentCurrentIssueTerminalHandoff := false;
     run_AgentCurrentIssueTerminalHandoffState := "";
     run_DoneCloses := 0; run_ReconcileCancel := false;
     run_ReconcileCleanupWorkspace := false |}.

Definition zero_RunningEntry : RunningEntry :=
  new_RunningEntry zero_Issue time_zero None 0 0 zero_Workspace.

Record BlockedEntry := {
  blk_Issue : Issue;
  blk_Identifier : string;
  blk_BlockedAt : Time;
  blk_Workspace : Workspace;
  blk_Session : LiveSession;
  blk_LastEventAt : Time;
  blk_CodexInputTokens : Z;
  blk_CodexOutputTokens : Z;
  blk_CodexTotalTokens : Z;
  blk_RuntimeSeconds : Duration;
  blk_Method : string;
  blk_Error : string
}.
#[export] Instance eta_BlockedEntry : Eta BlockedEntry := fun r =>
  Build_BlockedEntry (blk_Issue r) (blk_Identifier r) (blk_BlockedAt r)
    (blk_Workspace r) (blk_Session r) (blk_LastEventAt r) (blk_CodexInputTokens r)
    (blk_CodexOutputTokens r) (blk_CodexTotalTokens r) (blk_RuntimeSeconds r)
    (blk_Method r) (blk_Error r).

Record RetryEntry := {
  retry_ref : Ref;
  retry_Issue : Issue;
  retry_IssueID : IssueID;
  retry_Identifier : string;
  retry_Attempt : Z;
  retry_DueAt : Time;
  retry_Timer : option Ref;
  retry_Error : string;
  retry_Kind : RetryKind;
  retry_QuotaBackoffDueAt : Time;
  retry_StartupFailure : option StartupFailure;
  retry_ContinuationTurnCount : Z;
  retry_Workspace : Workspace
}.
#[export] Instance eta_RetryEntry : Eta RetryEntry := fun r =>
  Build_RetryEntry (retry_ref r) (retry_Issue r) (retry_IssueID r) (retry_Identifier r)
    (retry_Attempt r) (retry_DueAt r) (retry_Timer r) (retry_Error r) (retry_Kind r)
    (retry_QuotaBackoffDueAt r) (retry_StartupFailure r)
    (retry_ContinuationTurnCount r) (retry_Workspace r).

Record OperatorTerminalStopEntry := {
  ots_Issue : Issue;
  ots_Identifier : string;
  ots_State : string;
  ots_StoppedAt : Time;
  ots_SuppressedDispatches : Z;
  ots_FirstSuppressedAt : Time;
  ots_FirstSuppressedState : string;
  ots_FirstSuppressedReason : string
}.
#[export] Instance eta_OTS : Eta OperatorTerminalStopEntry := fun r =>
  Build_OperatorTerminalStopEntry (ots_Issue r) (ots_Identifier r) (ots_State r)
    (ots_StoppedAt r) (ots_SuppressedDispatches r) (ots_FirstSuppressedAt r)
    (ots_FirstSuppressedState r) (ots_FirstSuppressedReason r).

Record TokensView := {
  tv_InputTokens : Z;
  tv_OutputTokens : Z;
  tv_TotalTokens : Z
}.

Record SessionUsageEntry := {
  su_IssueID : IssueID;
  su_Identifier : string;
  su_IssueURL : string;
  su_State : string;
  su_Session : LiveSession;
  su_Tokens : TokensView;
  su_RuntimeSeconds : Duration;
  su_CompletedAt : Time;
  su_Outcome : string
}.

Record BudgetGuardrails := {
  bg_MaxTokensPerClaim : Z;
  bg_MaxRuntimeSecondsPerClaim : Z
}.

Inductive RuntimeEventKind :=
| RuntimeEventCandidate
| RuntimeEventRunning
| RuntimeEventCompleted
| RuntimeEventFailed
| RuntimeEventInputBlocked
| RuntimeEventContinuationBudgetBlocked
| RuntimeEventOperatorTerminalStop
| RuntimeEventOperatorTerminalStopDispatchSuppressed
| RuntimeEventReconcileStopped
| RuntimeEventAgentHandoffReconcileStopped
| RuntimeEventActiveSuccessNoHandoff
| RuntimeEventBudgetExceeded
| RuntimeEventDispatchPreflightFailed.

Record RuntimeEvent := {
  ev_Kind : RuntimeEventKind;
  ev_IssueID : IssueID;
  ev_Identifier : string;
  ev_Message : string;
  ev_Branch : string;
  ev_PRURL : string;
  ev_At : Time
}.
#[export] Instance eta_RuntimeEvent : Eta RuntimeEvent := fun r =>
  Build_RuntimeEvent (ev_Kind r) (ev_IssueID r) (ev_Identifier r) (ev_Message r)
    (ev_Branch r) (ev_PRURL r) (ev_At r).

(** The literal [RuntimeEvent{Kind, IssueID, Identifier, Message}]: the other
    fields are zero, and [RecordEvent] stamps the time. *)
Definition event (kind : RuntimeEventKind) (id : IssueID) (identifier message : string)
    : RuntimeEvent :=
  Build_RuntimeEvent kind id identifier message "" "" time_zero.

(** A recent-activity bucket: a set of ids, its FIFO order slice and the lifetime
    counter ([Completed], [completedOrder], [CumulativeCompletedTotal] and the
    three siblings of that shape). *)
Record RecentBucket := {
  bk_set : gset IssueID;
  bk_order : list IssueID;
  bk_total : Z
}.
Definition empty_bucket : RecentBucket := Build_RecentBucket ∅ [] 0.

(** The operation a retry timer's callback submits. *)
Record RetryFire := {
  rf_id : IssueID;
  rf_issue : Issue;
  rf_attempt : Z;
  rf_kind : RetryKind
}.

Record OrchestratorState := {
  PollIntervalMs : Z;
  MaxConcurrentAgents : Z;
  MaxConcurrentAgentsByState : gmap string Z;
  MaxContinuationTurns : Z;
  AgentDefault : string;
  Guardrails : BudgetGuardrails;
  Running : gmap IssueID Ref;
  Blocked : gmap IssueID BlockedEntry;
  Claimed : gset IssueID;
  ClaimedIssues : gmap IssueID Issue;
  RetryAttempts : gmap IssueID RetryEntry;
  Completed : RecentBucket;
  endedSessionUsage : list SessionUsageEntry;
  MaxRecentCompleted : Z;
  ReconcileStoppedWithProgress : RecentBucket;
  AgentHandoffReconcileStopped : RecentBucket;
  ActiveSuccessNoHandoff : RecentBucket;
  OperatorTerminalStops : gmap IssueID OperatorTerminalStopEntry;
  operatorTerminalStopOrder : list IssueID;
  MaxRecentOperatorTerminalStops : Z;
  CumulativeOperatorTerminalStopsTotal : Z;
  Totals : CodexTotals;
  CodexRateLimits : option any_map;
  cleaningWorkspaces : gset IssueID;
  RecentEvents : list RuntimeEvent;
  runs : gmap Ref RunningEntry;
  timers : gmap Ref RetryFire;
  next_ref : Ref
}.
#[export] Instance eta_OrchestratorState : Eta OrchestratorState := fun r =>
  Build_OrchestratorState (PollIntervalMs r) (MaxConcurrentAgents r)
    (MaxConcurrentAgentsByState r) (MaxContinuationTurns r) (AgentDefault r)
    (Guardrails r) (Running r) (Blocked r) (Claimed r) (ClaimedIssues r)
    (RetryAttempts r) (Completed r) (endedSessionUsage r) (MaxRecentCompleted r)
    (ReconcileStoppedWithProgress r) (AgentHandoffReconcileStopped r)
    (ActiveSuccessNoHandoff r) (OperatorTerminalStops r) (operatorTerminalStopOrder r)
    (MaxRecentOperatorTerminalStops r) (CumulativeOperatorTerminalStopsTotal r)
    (Totals r) (CodexRateLimits r) (cleaningWorkspaces r) (RecentEvents r)
    (runs r) (timers r) (next_ref r).

Definition DefaultMaxContinuationTurns : Z := 20.
Definition DefaultMaxRecentCompleted : Z := 1000.
Definition DefaultMaxRecentOperatorTerminalStops : Z := 1000.

Definition NewOrchestratorState (pollIntervalMs maxConcurrentAgents : Z) : OrchestratorState :=
  {| PollIntervalMs := pollIntervalMs;
     MaxConcurrentAgents := maxConcurrentAgents;
     MaxConcurrentAgentsByState := ∅;
     MaxContinuationTurns := DefaultMaxContinuationTurns;
     AgentDefault := "";
     Guardrails := Build_BudgetGuardrails 0 0;
     Running := ∅; Blocked := ∅; Claimed := ∅; ClaimedIssues := ∅; RetryAttempts := ∅;
     Completed := empty_bucket;
     endedSessionUsage := [];
     MaxRecentCompleted := DefaultMaxRecentCompleted;
     ReconcileStoppedWithProgress := empty_bucket;
     AgentHandoffReconcileStopped := empty_bucket;
     ActiveSuccessNoHandoff := empty_bucket;
     OperatorTerminalStops := ∅; operatorTerminalStopOrder := [];
     MaxRecentOperatorTerminalStops := DefaultMaxRecentOperatorTerminalStops;
     CumulativeOperatorTerminalStopsTotal := 0;
     Totals := zero_CodexTotals;
     CodexRateLimits := None;
     cleaningWorkspaces := ∅;
     RecentEvents := [];
     runs := ∅; timers := ∅; next_ref := 1%positive |}.

Definition CopyStartupFailure (f : option StartupFailure) : option StartupFailure :=
  match f with None => None | Some f => Some (Build_StartupFailure (sf_Phase f) (sf_Error f)) end.
