(* ===== verification/State.v ===== *)
(** * Pure state transitions (internal/orchestrator/state.go, status.go,
      state_usage.go, state_operator_stop.go)

    One definition per method of [OrchestratorState].  [time.Now()] is the
    argument [now].  Methods that report success return the new state and a
    bool. *)

From S2P Require Import Prelude Tracker Workflow RetryPolicy Payload Types.

(** ** The object store *)

(** Dereference of a [*RunningEntry]. *)
Definition deref (st : OrchestratorState) (r : Ref) : RunningEntry :=
  default zero_RunningEntry (runs st !! r).

(** Mutation through a [*RunningEntry]. *)
Definition upd_run (r : Ref) (f : RunningEntry → RunningEntry) (st : OrchestratorState)
    : OrchestratorState :=
  st <| runs ::= alter f r |>.

(** [timer.Stop()] on a possibly nil timer. *)
Definition stop_timer (t : option Ref) (st : OrchestratorState) : OrchestratorState :=
  match t with
  | None => st
  | Some r => st <| timers ::= delete r |>
  end.

(** ** Codex totals *)

Definition AddTokenDelta (input output total : Z) (c : CodexTotals) : CodexTotals :=
  {| ct_InputTokens := ct_InputTokens c +i input;
     ct_OutputTokens := ct_OutputTokens c +i output;
     ct_TotalTokens := ct_TotalTokens c +i total;
     ct_SecondsRunning := ct_SecondsRunning c |}.

Definition AddTokens (input output : Z) (c : CodexTotals) : CodexTotals :=
  AddTokenDelta input output (input +i output) c.

Definition AddSeconds (d : Duration) (c : CodexTotals) : CodexTotals :=
  if d <? 0 then c else c <| ct_SecondsRunning ::= fun s => s + d |>.

Definition RecordCodexTokens (input output : Z) (st : OrchestratorState) : OrchestratorState :=
  st <| Totals ::= AddTokens input output |>.

Definition RecordRateLimits (snap : option any_map) (st : OrchestratorState) : OrchestratorState :=
  st <| CodexRateLimits := option_map copyAnyMap snap |>.

(** ** Events *)

Definition maxRuntimeEvents : nat := 200.

Definition RecordEvent (now : Time) (ev : RuntimeEvent) (st : OrchestratorState) : OrchestratorState :=
  let ev := if IsZero (ev_At ev) then ev <| ev_At := now |> else ev in
  let evs := RecentEvents st ++ [ev] in
  st <| RecentEvents :=
    if (maxRuntimeEvents <? length evs)%nat then keep_last maxRuntimeEvents evs else evs |>.

(** ** Workspace-cleanup marks and claims *)

Definition IsCleaningWorkspace (id : IssueID) (st : OrchestratorState) : bool :=
  bool_decide (id ∈ cleaningWorkspaces st).
Definition MarkCleaningWorkspace (id : IssueID) (st : OrchestratorState) : OrchestratorState :=
  st <| cleaningWorkspaces ::= union {[id]} |>.
Definition UnmarkCleaningWorkspace (id : IssueID) (st : OrchestratorState) : OrchestratorState :=
  st <| cleaningWorkspaces ::= fun s => s ∖ {[id]} |>.

Definition is_present {V} (m : gmap IssueID V) (id : IssueID) : bool :=
  match m !! id with Some _ => true | None => false end.

Definition IsClaimed (id : IssueID) (st : OrchestratorState) : bool :=
  bool_decide (id ∈ Claimed st) || is_present (Running st) id ||
  is_present (Blocked st) id || is_present (RetryAttempts st) id.

(** ** Recent-activity buckets *)

(** The shared body of [recordCompleted], [recordReconcileStoppedWithProgress],
    [recordAgentHandoffReconcileStopped] and [recordActiveSuccessNoHandoff]. *)
Definition record_recent (maxRecent : Z) (id : IssueID) (b : RecentBucket) : RecentBucket :=
  let total := bk_total b +i 1 in
  if bool_decide (id ∈ bk_set b) then
    {| bk_set := bk_set b; bk_order := bk_order b; bk_total := total |}
  else
    let set' := {[id]} ∪ bk_set b in
    let order := bk_order b ++ [id] in
    match order with
    | oldest :: rest =>
        if (0 <? maxRecent) && (maxRecent <? slice_len order) then
          {| bk_set := set' ∖ {[oldest]}; bk_order := rest; bk_total := total |}
        else {| bk_set := set'; bk_order := order; bk_total := total |}
    | [] => {| bk_set := set'; bk_order := order; bk_total := total |}
    end.

Definition recordCompleted (id : IssueID) (st : OrchestratorState) : OrchestratorState :=
  st <| Completed ::= record_recent (MaxRecentCompleted st) id |>.
Definition recordReconcileStoppedWithProgress (id : IssueID) (st : OrchestratorState) :=
  st <| ReconcileStoppedWithProgress ::= record_recent (MaxRecentCompleted st) id |>.
Definition recordAgentHandoffReconcileStopped (id : IssueID) (st : OrchestratorState) :=
  st <| AgentHandoffReconcileStopped ::= record_recent (MaxRecentCompleted st) id |>.
Definition recordActiveSuccessNoHandoff (id : IssueID) (st : OrchestratorState) :=
  st <| ActiveSuccessNoHandoff ::= record_recent (MaxRecentCompleted st) id |>.

(** ** Capacity *)

Definition runningIssueIDs (st : OrchestratorState) : gset IssueID :=
  (dom (Running st) ∪ Claimed st) ∖ dom (RetryAttempts st) ∖ dom (Blocked st).

Definition RunningCount (st : OrchestratorState) : Z := Z.of_nat (size (runningIssueIDs st)).

(** The state whose slot an in-flight id occupies: its run's issue, or the issue
    snapshot of its claim. *)
Definition occupies_state (st : OrchestratorState) (stateKey : string) (id : IssueID) : bool :=
  match Running st !! id with
  | Some r => String.eqb (NormalizeStateConcurrencyKey (iss_State (run_Issue (deref st r)))) stateKey
  | None =>
      match ClaimedIssues st !! id with
      | Some i => String.eqb (NormalizeStateConcurrencyKey (iss_State i)) stateKey
      | None => false
      end
  end.

Definition RunningCountByStateExcluding (state : string) (excluded : IssueID) (st : OrchestratorState) : Z :=
  let stateKey := NormalizeStateConcurrencyKey state in
  if String.eqb stateKey "" then 0
  else
    let counted := runningIssueIDs st in
    let counted := if String.eqb excluded "" then counted else counted ∖ {[excluded]} in
    Z.of_nat (size (filter (λ id, occupies_state st stateKey id = true) counted)).

Definition RunningCountByState (state : string) (st : OrchestratorState) : Z :=
  RunningCountByStateExcluding state "" st.

Definition StateCapacityFullExcluding (state : string) (excluded : IssueID) (st : OrchestratorState) : bool :=
  match MaxConcurrentAgentsByState st !! NormalizeStateConcurrencyKey state with
  | None => false
  | Some limit =>
      if limit <=? 0 then false
      else limit <=? RunningCountByStateExcluding state excluded st
  end.

Definition StateCapacityFull (state : string) (st : OrchestratorState) : bool :=
  StateCapacityFullExcluding state "" st.

(** ** Ended-session usage *)

Definition elapsedSeconds (elapsed : Duration) : Duration := if elapsed <=? 0 then 0 else elapsed.

Definition tokensViewFromRunningEntry (run : RunningEntry) : TokensView :=
  {| tv_InputTokens := run_CodexInputTokens run;
     tv_OutputTokens := run_CodexOutputTokens run;
     tv_TotalTokens := run_CodexTotalTokens run |}.

Definition recordEndedSessionUsage (now : Time) (id : IssueID) (run : RunningEntry)
    (elapsed : Duration) (completedAt : Time) (outcome : string) (st : OrchestratorState)
    : OrchestratorState :=
  let completedAt := if IsZero completedAt then now else completedAt in
  let entry :=
    {| su_IssueID := id; su_Identifier := run_Identifier run;
       su_IssueURL := iss_URL (run_Issue run); su_State := iss_State (run_Issue run);
       su_Session := run_Session run; su_Tokens := tokensViewFromRunningEntry run;
       su_RuntimeSeconds := elapsedSeconds elapsed; su_CompletedAt := completedAt;
       su_Outcome := outcome |} in
  let usage := endedSessionUsage st ++ [entry] in
  st <| endedSessionUsage :=
    if (0 <? MaxRecentCompleted st) && (MaxRecentCompleted st <? slice_len usage)
    then keep_last (Z.to_nat (MaxRecentCompleted st)) usage else usage |>.

(** ** Dispatch, finish, block, retry, release *)

Definition BeginDispatch (id : IssueID) (r : Ref) (st : OrchestratorState) : OrchestratorState :=
  st <| Claimed ::= union {[id]} |>
     <| ClaimedIssues ::= insert id (run_Issue (deref st r)) |>
     <| Running ::= insert id r |>
     <| Blocked ::= delete id |>
     <| RetryAttempts ::= delete id |>.

(** The pointer guard [current, ok := s.Running[id]; ok && current == run]. *)
Definition is_current (st : OrchestratorState) (id : IssueID) (r : Ref) : bool :=
  bool_decide (Running st !! id = Some r).

(** [delete(s.Running, id); delete(s.Claimed, id); delete(s.ClaimedIssues, id)]. *)
Definition drop_run (id : IssueID) (st : OrchestratorState) : OrchestratorState :=
  st <| Running ::= delete id |>
     <| Claimed ::= fun s => s ∖ {[id]} |>
     <| ClaimedIssues ::= delete id |>.

Definition FinishRunSucceeded (now : Time) (id : IssueID) (r : Ref) (elapsed : Duration)
    (st : OrchestratorState) : OrchestratorState * bool :=
  if is_current st id r then
    let st := drop_run id st in
    let st := recordCompleted id st in
    let st := recordEndedSessionUsage now id (deref st r) elapsed now "completed" st in
    (st <| Totals ::= AddSeconds elapsed |>, true)
  else (st, false).

Definition FinishRunActiveSuccessNoHandoff (now : Time) (id : IssueID) (r : Ref)
    (elapsed : Duration) (st : OrchestratorState) : OrchestratorState * bool :=
  if is_current st id r then
    let st := drop_run id st in
    let st := recordCompleted id st in
    let st := recordActiveSuccessNoHandoff id st in
    let st := recordEndedSessionUsage now id (deref st r) elapsed now "active_success_no_handoff" st in
    (st <| Totals ::= AddSeconds elapsed |>, true)
  else (st, false).

Definition finishRunAborted (now : Time) (id : IssueID) (r : Ref) (elapsed : Duration)
    (outcome : string) (st : OrchestratorState) : OrchestratorState * bool :=
  if is_current st id r then
    let st := recordEndedSessionUsage now id (deref st r) elapsed now outcome st in
    let st := drop_run id st in
    (st <| Totals ::= AddSeconds elapsed |>, true)
  else (st, false).

Definition FinishRunFailed now id r elapsed (st : OrchestratorState) :=
  finishRunAborted now id r elapsed "failed" st.
Definition FinishRunReconciledCancelled now id r elapsed (st : OrchestratorState) :=
  finishRunAborted now id r elapsed "reconcile_ineligible" st.
Definition FinishRunTerminalSelfStop now id r elapsed (st : OrchestratorState) :=
  finishRunAborted now id r elapsed "terminal_self_stop" st.

Definition BlockRunWithReason (now : Time) (id : IssueID) (r : Ref) (blockedAt : Time)
    (method runErr : string) (elapsed : Duration) (st : OrchestratorState)
    : OrchestratorState * bool :=
  if is_current st id r then
    let run := deref st r in
    let blockedAt := if IsZero blockedAt then now else blockedAt in
    (st <| Running ::= delete id |>
        <| RetryAttempts ::= delete id |>
        <| Claimed ::= union {[id]} |>
        <| ClaimedIssues ::= insert id (run_Issue run) |>
        <| Blocked ::= insert id
             {| blk_Issue := run_Issue run; blk_Identifier := run_Identifier run;
                blk_BlockedAt := blockedAt; blk_Workspace := run_Workspace run;
                blk_Session := run_Session run; blk_LastEventAt := run_LastEventAt run;
                blk_CodexInputTokens := run_CodexInputTokens run;
                blk_CodexOutputTokens := run_CodexOutputTokens run;
                blk_CodexTotalTokens := run_CodexTotalTokens run;
                blk_RuntimeSeconds := elapsedSeconds elapsed;
                blk_Method := method; blk_Error := runErr |} |>
        <| Totals ::= AddSeconds elapsed |>, true)
  else (st, false).

Definition BlockRun (now : Time) (id : IssueID) (r : Ref) (blockedAt : Time) (runErr : string)
    (elapsed : Duration) (st : OrchestratorState) : OrchestratorState * bool :=
  BlockRunWithReason now id r blockedAt (run_InputRequiredMethod (deref st r)) runErr elapsed st.

Definition BlockRetryWithReason (now : Time) (id : IssueID) (retry : RetryEntry) (issue : Issue)
    (blockedAt : Time) (method runErr : string) (st : OrchestratorState)
    : OrchestratorState * bool :=
  match RetryAttempts st !! id with
  | Some current =>
      if Pos.eqb (retry_ref current) (retry_ref retry) then
        let blockedAt := if IsZero blockedAt then now else blockedAt in
        let st := stop_timer (retry_Timer retry) st in
        let issue := if String.eqb (iss_ID issue) "" then retry_Issue retry else issue in
        let identifier :=
          if String.eqb (iss_Identifier issue) "" then retry_Identifier retry
          else iss_Identifier issue in
        (st <| RetryAttempts ::= delete id |>
            <| Claimed ::= union {[id]} |>
            <| ClaimedIssues ::= insert id issue |>
            <| Blocked ::= insert id
                 {| blk_Issue := issue; blk_Identifier := identifier; blk_BlockedAt := blockedAt;
                    blk_Workspace := retry_Workspace retry; blk_Session := zero_LiveSession;
                    blk_LastEventAt := time_zero; blk_CodexInputTokens := 0;
                    blk_CodexOutputTokens := 0; blk_CodexTotalTokens := 0;
                    blk_RuntimeSeconds := 0; blk_Method := method; blk_Error := runErr |} |>,
         true)
      else (st, false)
  | None => (st, false)
  end.

Definition ScheduleRetry (entry : RetryEntry) (st : OrchestratorState) : OrchestratorState :=
  let id := retry_IssueID entry in
  let st := match RetryAttempts st !! id with
            | Some prev => stop_timer (retry_Timer prev) st
            | None => st
            end in
  st <| RetryAttempts ::= insert id entry |>
     <| Claimed ::= union {[id]} |>
     <| ClaimedIssues ::= insert id (retry_Issue entry) |>.

Definition ReleaseClaim (id : IssueID) (st : OrchestratorState) : OrchestratorState :=
  let st := st <| Claimed ::= fun s => s ∖ {[id]} |>
               <| ClaimedIssues ::= delete id |>
               <| Blocked ::= delete id |> in
  match RetryAttempts st !! id with
  | Some entry => stop_timer (retry_Timer entry) st <| RetryAttempts ::= delete id |>
  | None => st
  end.

(** ** Retry entries *)

Definition IsDue (now : Time) (r : RetryEntry) : bool := negb (Before now (retry_DueAt r)).

Definition quotaBackoffDelayOverride (now : Time) (r : RetryEntry) : Duration :=
  if decide (retry_Kind r ≠ RetryKindQuotaBackoff) then 0
  else if IsZero (retry_QuotaBackoffDueAt r) then 0
  else
    let remaining := time_Sub (retry_QuotaBackoffDueAt r) now in
    if remaining <=? 0 then 0 else remaining.

(** ** The operator-terminal-stop latch *)

Definition RecordOperatorTerminalStop (now : Time) (id : IssueID) (issue : Issue) (at_ : Time)
    (st : OrchestratorState) : OrchestratorState * (OperatorTerminalStopEntry * bool) :=
  let at_ := if IsZero at_ then now else at_ in
  let identifier := if String.eqb (iss_Identifier issue) "" then id else iss_Identifier issue in
  let state := iss_State issue in
  match OperatorTerminalStops st !! id with
  | Some existing =>
      let e := if blank (ots_Identifier existing)
               then existing <| ots_Identifier := identifier |> else existing in
      let e := if blank state then e
               else e <| ots_State := state |> <| ots_Issue := issue |> in
      (st <| OperatorTerminalStops ::= insert id e |>, (e, false))
  | None =>
      let e := {| ots_Issue := issue; ots_Identifier := identifier; ots_State := state;
                  ots_StoppedAt := at_; ots_SuppressedDispatches := 0;
                  ots_FirstSuppressedAt := time_zero; ots_FirstSuppressedState := "";
                  ots_FirstSuppressedReason := "" |} in
      let order := operatorTerminalStopOrder st ++ [id] in
      let cap := MaxRecentOperatorTerminalStops st in
      let st := st <| OperatorTerminalStops ::= insert id e |>
                   <| operatorTerminalStopOrder := order |>
                   <| CumulativeOperatorTerminalStopsTotal ::= fun n => n +i 1 |> in
      let st := match order with
                | oldest :: rest =>
                    if (0 <? cap) && (cap <? slice_len order) then
                      st <| operatorTerminalStopOrder := rest |>
                         <| OperatorTerminalStops ::= delete oldest |>
                    else st
                | [] => st
                end in
      (st, (e, true))
  end.

Definition IsOperatorTerminalStopped (id : IssueID) (st : OrchestratorState) : bool :=
  is_present (OperatorTerminalStops st) id.

Definition LookupOperatorTerminalStop (id : IssueID) (st : OrchestratorState)
    : option OperatorTerminalStopEntry := OperatorTerminalStops st !! id.

Definition RecordOperatorTerminalDispatchSuppressed (now : Time) (id : IssueID) (issue : Issue)
    (reason : string) (st : OrchestratorState)
    : OrchestratorState * option (OperatorTerminalStopEntry * bool) :=
  match OperatorTerminalStops st !! id with
  | None => (st, None)
  | Some entry =>
      let entry := entry <| ots_SuppressedDispatches ::= fun n => n +i 1 |> in
      let first := IsZero (ots_FirstSuppressedAt entry) in
      let entry :=
        if first then entry <| ots_FirstSuppressedAt := now |>
                            <| ots_FirstSuppressedState := iss_State issue |>
                            <| ots_FirstSuppressedReason := reason |>
        else entry in
      (st <| OperatorTerminalStops ::= insert id entry |>, Some (entry, first))
  end.

(** [recordOperatorTerminalStop] (actor_reconcile.go): the latch plus its event. *)
Definition recordOperatorTerminalStop (now : Time) (id : IssueID) (issue : Issue)
    (st : OrchestratorState) : OrchestratorState :=
  let '(st, (entry, first)) := RecordOperatorTerminalStop now id issue now st in
  if first then
    RecordEvent now (event RuntimeEventOperatorTerminalStop id (ots_Identifier entry)
      ("operator terminal state observed: " +:+ ots_State entry)) st
  else st.
