(* ===== verification/Ops.v ===== *)
(** * Operations, followups and the retry entry points
      (internal/orchestrator/actor.go, actor_retry.go, actor_cleanup.go)

    Every mutation of the state is an operation applied by the actor; it may
    return a followup, which the actor starts on a fresh goroutine.  Followups
    are closures in the source; here they are the constructors of [Followup],
    one per closure, carrying the captured values. *)

From S2P Require Import Prelude Tracker RetryPolicy Payload Types State.

(** ** Errors a worker exits with (internal/runner/runner.go)

    [WrappedError msg e] prints as [msg] and unwraps to [e]; [JoinedError] is one of
    errors.Join, with its text. *)
Inductive RunError :=
| InputRequiredError (Method : string)
| QuotaBackoffError (Message : string) (RetryAfter : Duration)
| OtherError (msg : string)
| WrappedError (msg : string) (inner : RunError)
| JoinedError (msg : string) (e1 e2 : RunError).

(** [time.Duration.String]. *)
Fixpoint frac_digits (prec : nat) (v : Z) (print : bool) (acc : string) : string * Z :=
  match prec with
  | O => (if print then "." +:+ acc else acc, v)
  | S p =>
      let digit := v mod 10 in
      let print := print || negb (digit =? 0) in
      frac_digits p (v / 10) print (if print then fmt_d digit +:+ acc else acc)
  end.

Definition Duration_String (d : Duration) : string :=
  let u := Z.abs d in
  let body :=
    if u =? 0 then "0s"
    else if u <? 1000 then fmt_d u +:+ "ns"
    else if u <? 1000000 then
      let '(f, v) := frac_digits 3 u false "" in fmt_d v +:+ f +:+ "µs"
    else if u <? Second then
      let '(f, v) := frac_digits 6 u false "" in fmt_d v +:+ f +:+ "ms"
    else
      let '(f, v) := frac_digits 9 u false "" in
      let secs := fmt_d (v mod 60) +:+ f +:+ "s" in
      let m := v / 60 in
      if m =? 0 then secs
      else
        let mins := fmt_d (m mod 60) +:+ "m" +:+ secs in
        let h := m / 60 in
        if h =? 0 then mins else fmt_d h +:+ "h" +:+ mins in
  if d <? 0 then "-" +:+ body else body.

(** [err.Error()]. *)
Definition Error (e : RunError) : string :=
  match e with
  | InputRequiredError m => if String.eqb m "" then "input required" else "input required: " +:+ m
  | QuotaBackoffError m after =>
      let msg := if String.eqb m "" then "coding-agent quota exceeded" else m in
      if 0 <? after then "quota backoff: " +:+ msg +:+ "; retry after " +:+ Duration_String after
      else "quota backoff: " +:+ msg
  | OtherError m => m
  | WrappedError m _ => m
  | JoinedError m _ _ => m
  end.

(** [errors.As(err, *InputRequiredError)]. *)
Fixpoint IsInputRequired (e : RunError) : bool :=
  match e with
  | InputRequiredError _ => true
  | WrappedError _ e => IsInputRequired e
  | JoinedError _ e1 e2 => IsInputRequired e1 || IsInputRequired e2
  | _ => false
  end.

(** [errors.As(err, *QuotaBackoffError)]: message and retry-after of the match. *)
Fixpoint as_quota (e : RunError) : option (string * Duration) :=
  match e with
  | QuotaBackoffError m after => Some (m, after)
  | WrappedError _ e => as_quota e
  | JoinedError _ e1 e2 => match as_quota e1 with Some q => Some q | None => as_quota e2 end
  | _ => None
  end.

Record IssueStateSnapshot := {
  snap_Found : bool;
  snap_State : string;
  snap_Active : bool;
  snap_Terminal : bool;
  snap_OperatorTerminalStop : bool
}.

Record WorkerResult := {
  wr_Err : option RunError;
  wr_InputRequired : bool;
  wr_IssueExitState : option IssueStateSnapshot;
  wr_Elapsed : Duration
}.

(** ** Captured values *)

Record continuationAfterSkippedCleanup := {
  cont_issue : Issue;
  cont_identifier : string;
  cont_attempt : Z;
  cont_continuationTurnCount : Z;
  cont_workspace : Workspace
}.

Record ReconciledWorkspace := {
  rw_IssueID : IssueID;
  rw_Identifier : string;
  rw_Path : string;
  rw_Root : string;
  rw_State : string;
  rw_Reason : string
}.
#[export] Instance eta_ReconciledWorkspace : Eta ReconciledWorkspace := fun r =>
  Build_ReconciledWorkspace (rw_IssueID r) (rw_Identifier r) (rw_Path r) (rw_Root r)
    (rw_State r) (rw_Reason r).

Record reconciledCleanup := {
  rc_workspace : ReconciledWorkspace;
  rc_continuation : option continuationAfterSkippedCleanup
}.

Record scheduleRetryOp := {
  sr_issue : Issue;
  sr_identifier : string;
  sr_attempt : Z;
  sr_runErr : string;
  sr_kind : RetryKind;
  sr_req : RetryRequest;
  sr_workspace : Workspace;
  sr_startupFailure : option StartupFailure;
  sr_continuationTurnCount : Z
}.

(** The cause handed to [CancelWorker]: [worker.ErrReconcileCancel] or nil. *)
Inductive CancelCause := ErrReconcileCancel | NilCause.

Inductive Followup :=
| FSpawn (id : IssueID) (issue : Issue) (attempt : option Z)
    (continuationAttempt continuationTurnCount cleanTurnBudget : Z) (workspace : Workspace)
| FSchedule (op : scheduleRetryOp)
| FWakePoll
| FCandidateFetch (id : IssueID) (attempt : Z) (kind : RetryKind) (identifier : string)
| FCleanup (w : ReconciledWorkspace) (continuation : option continuationAfterSkippedCleanup)
| FCancel (cause : CancelCause) (entries : list Ref) (cleanups : list reconciledCleanup).

(** The parts of the [Orchestrator] struct the operations consult. *)
Record Orchestrator (S : Type) := {
  o_scheduler : S;
  o_candidateLister : bool;
  o_workspaceCleaner : bool;
  o_runCtxErr : bool
}.
Arguments o_scheduler {S}.
Arguments o_candidateLister {S}.
Arguments o_workspaceCleaner {S}.
Arguments o_runCtxErr {S}.

(** ** Retry entry points: each builds the operation it submits *)

Definition scheduleRetryWithStartupFailure (issue : Issue) (identifier : string)
    (req : RetryRequest) (attempt : Z) (runErr : string) (workspace : Workspace)
    (startupFailure : option StartupFailure) (continuationTurnCount : Z) : scheduleRetryOp :=
  {| sr_issue := issue; sr_identifier := identifier; sr_attempt := attempt;
     sr_runErr := runErr; sr_kind := req_Kind req; sr_req := req;
     sr_workspace := workspace; sr_startupFailure := CopyStartupFailure startupFailure;
     sr_continuationTurnCount := continuationTurnCount |}.

Definition scheduleRetry (issue : Issue) (identifier : string) (req : RetryRequest) (attempt : Z)
    (runErr : string) (workspace : Workspace) (continuationTurnCount : Z) : scheduleRetryOp :=
  scheduleRetryWithStartupFailure issue identifier req attempt runErr workspace None
    continuationTurnCount.

Definition scheduleFailureRetry (issue : Issue) (identifier : string) (attempt : Z)
    (runErr : string) (workspace : Workspace) : scheduleRetryOp :=
  scheduleRetry issue identifier (Build_RetryRequest RetryKindFailure attempt 0) attempt runErr
    workspace 0.

Definition scheduleFailureRetryWithStartupFailure (issue : Issue) (identifier : string)
    (attempt : Z) (runErr : string) (workspace : Workspace)
    (startupFailure : option StartupFailure) : scheduleRetryOp :=
  scheduleRetryWithStartupFailure issue identifier
    (Build_RetryRequest RetryKindFailure attempt 0) attempt runErr workspace startupFailure 0.

Definition scheduleQuotaBackoffRetry (issue : Issue) (identifier : string) (attempt : Z)
    (runErr : string) (retryAfter : Duration) (workspace : Workspace) : scheduleRetryOp :=
  scheduleRetry issue identifier (Build_RetryRequest RetryKindQuotaBackoff attempt retryAfter)
    attempt runErr workspace 0.

Definition scheduleContinuationRetry (issue : Issue) (identifier : string)
    (attempt continuationTurnCount : Z) (workspace : Workspace) : scheduleRetryOp :=
  scheduleRetry issue identifier (Build_RetryRequest RetryKindContinuation attempt 0) attempt ""
    workspace continuationTurnCount.

(** The public [ScheduleRetry]. *)
Definition ScheduleRetry_request (issue : Issue) (identifier : string) (attempt : Z)
    (runErr : string) : scheduleRetryOp :=
  scheduleFailureRetry issue identifier attempt runErr zero_Workspace.

Definition continuationForRetry (retry : RetryEntry) : option continuationAfterSkippedCleanup :=
  if decide (retry_Kind retry = RetryKindContinuation) then
    Some {| cont_issue := retry_Issue retry; cont_identifier := retry_Identifier retry;
            cont_attempt := retry_Attempt retry;
            cont_continuationTurnCount := retry_ContinuationTurnCount retry;
            cont_workspace := retry_Workspace retry |}
  else None.

(** ** Applying [scheduleRetryOp]: store the entry, arm its timer *)

Definition scheduleRetryOp_apply {S} `{!Scheduler S} (o : Orchestrator S) (now : Time)
    (s : scheduleRetryOp) (st : OrchestratorState) : OrchestratorState :=
  let id := iss_ID (sr_issue s) in
  let delay := next_delay (o_scheduler o) (sr_req s) in
  let dueAt := time_Add now delay in
  let quotaBackoffDueAt :=
    if bool_decide (sr_kind s = RetryKindQuotaBackoff) && (0 <? req_DelayOverride (sr_req s))
    then dueAt else time_zero in
  let timer := next_ref st in
  let entry :=
    {| retry_ref := timer; retry_Issue := sr_issue s; retry_IssueID := id;
       retry_Identifier := sr_identifier s; retry_Attempt := sr_attempt s;
       retry_DueAt := dueAt; retry_Timer := Some timer; retry_Error := sr_runErr s;
       retry_Kind := sr_kind s; retry_QuotaBackoffDueAt := quotaBackoffDueAt;
       retry_StartupFailure := CopyStartupFailure (sr_startupFailure s);
       retry_ContinuationTurnCount := sr_continuationTurnCount s;
       retry_Workspace := sr_workspace s |} in
  let st := st <| next_ref ::= Pos.succ |>
               <| timers ::= insert timer
                    {| rf_id := id; rf_issue := sr_issue s; rf_attempt := sr_attempt s;
                       rf_kind := sr_kind s |} |> in
  ScheduleRetry entry st.

Example Duration_String_examples :
  Duration_String 0 = "0s" ∧ Duration_String (90 * Second) = "1m30s" ∧
  Duration_String (1500 * Millisecond) = "1.5s" ∧
  Duration_String (3600 * Second) = "1h0m0s" ∧ Duration_String 1500 = "1.5µs".
Proof. vm_compute. done. Qed.
