(* ===== verification/Cleanup.v ===== *)
(** * Reconciled-workspace cleanup (internal/orchestrator/actor_cleanup.go)

    The guard operations that reserve an issue for a workspace removal, the
    builders of cleanup followups, and the deletion-time recheck with its bounded
    retry.  The tracker's answer is an argument. *)

From S2P Require Import Prelude Tracker RetryPolicy Payload Types State Ops.

(** ** Predicates on runs (actor_reconcile.go) *)

Definition isActiveTrackerState (state : string) (activeStates : gset string) : bool :=
  bool_decide (norm state ∈ activeStates).
Definition isTerminalTrackerState (state : string) (terminalStates : gset string) : bool :=
  bool_decide (norm state ∈ terminalStates).

Definition runHasCompletedTurn (run : RunningEntry) : bool := 0 <? ls_TurnCount (run_Session run).
Definition runHasCurrentIssueHandoff (run : RunningEntry) : bool := run_AgentCurrentIssueHandoff run.

Definition agentOwnedTerminalStateMatches (run : RunningEntry) (state : string) : bool :=
  if negb (run_AgentCurrentIssueTerminalHandoff run) then false
  else
    let ownedState := TrimSpace (run_AgentCurrentIssueTerminalHandoffState run) in
    let state := TrimSpace state in
    if String.eqb ownedState "" || String.eqb state "" then false
    else EqualFold ownedState state.

Definition clearAgentCurrentIssueTerminalHandoff (run : RunningEntry) : RunningEntry :=
  run <| run_AgentCurrentIssueTerminalHandoff := false |>
      <| run_AgentCurrentIssueTerminalHandoffState := "" |>.

Definition continuationTurnDelta (run : RunningEntry) : Z :=
  if 0 <? ls_TurnCount (run_Session run) then ls_TurnCount (run_Session run) else 1.

(** ** Reservation *)

Definition beginWorkspaceCleanupOp_apply (id : IssueID) (st : OrchestratorState)
    : OrchestratorState * bool :=
  if IsClaimed id st || IsCleaningWorkspace id st then (st, false)
  else (MarkCleaningWorkspace id st, true).

Definition endWorkspaceCleanupOp_apply (id : IssueID) (st : OrchestratorState) : OrchestratorState :=
  UnmarkCleaningWorkspace id st.

(** ** Followup builders *)

Definition terminalWorkspaceForCleanup (id : IssueID) (identifier path root state : string)
    : option ReconciledWorkspace :=
  let path := TrimSpace path in
  if String.eqb path "" then None
  else Some {| rw_IssueID := id; rw_Identifier := identifier; rw_Path := path;
               rw_Root := TrimSpace root; rw_State := state; rw_Reason := "terminal" |}.

Definition reconciledWorkspaceCleanupFollowup {S} (o : Orchestrator S) (id : IssueID)
    (entry : RunningEntry) (continuation : option continuationAfterSkippedCleanup)
    : option Followup :=
  if negb (run_ReconcileCleanupWorkspace entry) then None
  else
    match terminalWorkspaceForCleanup id (run_Identifier entry) (ws_Path (run_Workspace entry))
            (ws_Root (run_Workspace entry)) (iss_State (run_Issue entry)) with
    | Some w => if o_workspaceCleaner o then Some (FCleanup w continuation) else None
    | None => None
    end.

Definition reconciledWorkspaceCleanup {S} (o : Orchestrator S) (id : IssueID)
    (entry : RunningEntry) : option Followup :=
  reconciledWorkspaceCleanupFollowup o id entry None.

Definition reconciledWorkspaceCleanupOrContinuation {S} (o : Orchestrator S) (id : IssueID)
    (entry : RunningEntry) (attempt : Z) : option Followup :=
  reconciledWorkspaceCleanupFollowup o id entry
    (Some {| cont_issue := run_Issue entry; cont_identifier := run_Identifier entry;
             cont_attempt := attempt;
             cont_continuationTurnCount :=
               run_ContinuationTurnCount entry +i continuationTurnDelta entry;
             cont_workspace := run_Workspace entry |}).

(** ** The deletion-time recheck *)

Inductive reconciledWorkspaceStateVerdict :=
| reconciledWorkspaceStateUnknown
| reconciledWorkspaceStateCurrentTerminal
| reconciledWorkspaceStateCurrentNonTerminal
| reconciledWorkspaceStateAbsent.

(** What the narrow refresh returned: an error, or the totalized rows. *)
Inductive RefreshAnswer :=
| RefreshError
| RefreshRows (rows : gmap string IssueState).

(** [resolver] is the wired state reader: [None] when there is none, otherwise
    the answer it gives for this one reference. *)
Definition verifyReconciledWorkspaceStillTerminal (resolver : option RefreshAnswer)
    (terminalStates : gset string) (w : ReconciledWorkspace)
    : string * reconciledWorkspaceStateVerdict :=
  match resolver with
  | None => (rw_State w, reconciledWorkspaceStateCurrentTerminal)
  | Some answer =>
      if bool_decide (terminalStates = ∅) then (rw_State w, reconciledWorkspaceStateCurrentTerminal)
      else
        match answer with
        | RefreshError => ("", reconciledWorkspaceStateUnknown)
        | RefreshRows rows =>
            match rows !! rw_IssueID w with
            | None => ("", reconciledWorkspaceStateUnknown)
            | Some st =>
                match ist_Outcome st with
                | IssueStateOutcomeUnknown => ("", reconciledWorkspaceStateUnknown)
                | IssueStateOutcomeAbsent => ("", reconciledWorkspaceStateAbsent)
                | IssueStateOutcomeCurrent =>
                    if blank (ist_State st) then ("", reconciledWorkspaceStateUnknown)
                    else if negb (isTerminalTrackerState (ist_State st) terminalStates)
                    then (ist_State st, reconciledWorkspaceStateCurrentNonTerminal)
                    else (ist_State st, reconciledWorkspaceStateCurrentTerminal)
                | OutcomeOther _ => ("", reconciledWorkspaceStateUnknown)
                end
            end
        end
  end.

Definition maxReconciledCleanupStateRetries : Z := 8.

(** What one attempt does after the reservation succeeded. *)
Inductive CleanupAction :=
| CleanupRetryAfter (delay : Duration) (attempt : Z)
| CleanupGiveUp
| CleanupSkip
| CleanupWakePoll
| CleanupResume (op : scheduleRetryOp)
| CleanupRemove (w : ReconciledWorkspace).

Definition retryReconciledWorkspaceCleanup {S} `{!Scheduler S} (o : Orchestrator S) (attempt : Z)
    : CleanupAction :=
  if maxReconciledCleanupStateRetries <? attempt then CleanupGiveUp
  else CleanupRetryAfter
         (next_delay (o_scheduler o) (Build_RetryRequest RetryKindFailure attempt 0)) attempt.

(** [None]: the actor did not answer, and the lookup fails closed. *)
Definition hasOperatorTerminalStop (answer : option (option OperatorTerminalStopEntry)) : bool :=
  match answer with
  | None => true
  | Some entry => match entry with Some _ => true | None => false end
  end.

Definition continueAfterSkippedTerminalCleanup
    (continuation : option continuationAfterSkippedCleanup) : CleanupAction :=
  match continuation with
  | None => CleanupWakePoll
  | Some c => CleanupResume (scheduleContinuationRetry (cont_issue c) (cont_identifier c)
                (cont_attempt c) (cont_continuationTurnCount c) (cont_workspace c))
  end.

(** The body of [runReconciledWorkspaceCleanupAttempt] between the reservation
    and its release. *)
Definition cleanup_attempt {S} `{!Scheduler S} (o : Orchestrator S)
    (resolver : option RefreshAnswer) (terminalStates : gset string)
    (stop : option (option OperatorTerminalStopEntry)) (w : ReconciledWorkspace)
    (continuation : option continuationAfterSkippedCleanup) (attempt : Z) : CleanupAction :=
  let '(currentState, verdict) := verifyReconciledWorkspaceStillTerminal resolver terminalStates w in
  match verdict with
  | reconciledWorkspaceStateUnknown => retryReconciledWorkspaceCleanup o (attempt +i 1)
  | reconciledWorkspaceStateAbsent => CleanupSkip
  | reconciledWorkspaceStateCurrentNonTerminal =>
      if hasOperatorTerminalStop stop then CleanupSkip
      else continueAfterSkippedTerminalCleanup continuation
  | reconciledWorkspaceStateCurrentTerminal =>
      CleanupRemove (if blank currentState then w else w <| rw_State := currentState |>)
  end.

(** The guard at the top of [runReconciledWorkspaceCleanupAttempt]. *)
Definition cleanup_enabled {S} (o : Orchestrator S) (w : ReconciledWorkspace) : bool :=
  o_workspaceCleaner o && negb (blank (rw_Path w)).
