(* ===== verification/Dispatch.v ===== *)
(** * Dispatch (internal/orchestrator/actor_dispatch.go)

    The dispatch operation with its claim, budget and capacity gates, the
    registration of a spawned run, and the recovery of a panicking spawn. *)

From S2P Require Import Prelude Tracker RetryPolicy Payload Types State Ops Cleanup.

Inductive DispatchError := ErrNotDispatched | ErrCapacityFull.

#[export] Instance DispatchError_eq_dec : EqDecision DispatchError.
Proof. solve_decision. Defined.

Definition continuationBudgetBlockMethod : string := "continuation_budget".
Definition budgetExceededBlockMethod : string := "budget_exceeded".

Definition continuationBudgetExceeded (maxContinuationTurns cumulativeTurns : Z) : bool :=
  (0 <? maxContinuationTurns) && (maxContinuationTurns <=? cumulativeTurns).

Definition continuationBudgetError (cumulativeTurns maxContinuationTurns : Z) : string :=
  "continuation budget exhausted: cumulative_turns=" +:+ fmt_d cumulativeTurns +:+
  " max_continuation_turns=" +:+ fmt_d maxContinuationTurns.

Definition cleanTurnBudgetForContinuationBudget (maxContinuationTurns continuationTurnCount : Z) : Z :=
  let remaining := maxContinuationTurns -i continuationTurnCount in
  if remaining <? 0 then 0 else remaining.

(** [(entry, allow)]. *)
Definition dispatchClaimGateAllows (now : Time) (id : IssueID) (st : OrchestratorState)
    : option RetryEntry * bool :=
  match RetryAttempts st !! id with
  | None => (None, negb (IsClaimed id st))
  | Some queued =>
      if bool_decide (retry_Kind queued ≠ RetryKindContinuation) || negb (IsDue now queued)
      then (None, false)
      else (Some queued, true)
  end.

(** [(consumed, continuationAttempt, continuationTurnCount, deny)]. *)
Definition resolveDispatchClaim (now : Time) (id : IssueID) (trackerRechecked : bool)
    (st : OrchestratorState) : option RetryEntry * Z * Z * bool :=
  if negb trackerRechecked then (None, 0, 0, IsClaimed id st)
  else
    let '(entry, allow) := dispatchClaimGateAllows now id st in
    if negb allow then (None, 0, 0, true)
    else match entry with
         | None => (None, 0, 0, false)
         | Some e => (Some e, retry_Attempt e, retry_ContinuationTurnCount e, false)
         end.

Definition continuationBudgetIdentifier (issue : Issue) (retry : option RetryEntry) : string :=
  if negb (String.eqb (iss_Identifier issue) "") then iss_Identifier issue
  else match retry with None => "" | Some r => retry_Identifier r end.

Definition blockConsumedContinuationIfBudgetExceeded (now : Time) (issue : Issue) (id : IssueID)
    (retry : option RetryEntry) (continuationTurnCount : Z) (st : OrchestratorState)
    : OrchestratorState * bool :=
  match retry with
  | None => (st, false)
  | Some r =>
      if negb (continuationBudgetExceeded (MaxContinuationTurns st) continuationTurnCount)
      then (st, false)
      else
        let runErr := continuationBudgetError continuationTurnCount (MaxContinuationTurns st) in
        let '(st, ok) := BlockRetryWithReason now id r issue now continuationBudgetBlockMethod
                           runErr st in
        if ok then
          (RecordEvent now (event RuntimeEventContinuationBudgetBlocked id
             (continuationBudgetIdentifier issue retry) runErr) st, true)
        else (st, true)
  end.

Definition consumeContinuationRetry (id : IssueID) (retry : option RetryEntry)
    (st : OrchestratorState) : OrchestratorState :=
  match retry with
  | None => st
  | Some r => stop_timer (retry_Timer r) st
                <| RetryAttempts ::= delete id |>
                <| Claimed ::= fun s => s ∖ {[id]} |>
  end.

(** [dispatchOp.apply]: the reply sent at once, or the spawn followup, which
    replies nil when it ends. *)
Definition dispatchOp_apply (now : Time) (issue : Issue) (attempt : option Z)
    (trackerRechecked : bool) (st : OrchestratorState)
    : OrchestratorState * (DispatchError + Followup) :=
  let id := iss_ID issue in
  if IsCleaningWorkspace id st then (st, inl ErrNotDispatched)
  else if IsOperatorTerminalStopped id st then
    let '(st, res) := RecordOperatorTerminalDispatchSuppressed now id issue
                        "active_candidate_after_operator_terminal_stop" st in
    let st := match res with
              | Some (entry, true) =>
                  RecordEvent now (event RuntimeEventOperatorTerminalStopDispatchSuppressed id
                    (ots_Identifier entry) "dispatch suppressed after Operator Terminal Stop") st
              | _ => st
              end in
    (st, inl ErrNotDispatched)
  else
    let '(consumed, continuationAttempt, continuationTurnCount, deny) :=
      resolveDispatchClaim now id trackerRechecked st in
    if deny then (st, inl ErrNotDispatched)
    else
      let '(st, blocked) := blockConsumedContinuationIfBudgetExceeded now issue id consumed
                              continuationTurnCount st in
      if blocked then (st, inl ErrNotDispatched)
      else
        let cleanTurnBudget :=
          cleanTurnBudgetForContinuationBudget (MaxContinuationTurns st) continuationTurnCount in
        if MaxConcurrentAgents st <=? RunningCount st then (st, inl ErrCapacityFull)
        else
          let capacityExcluded := match consumed with Some _ => id | None => "" end in
          if StateCapacityFullExcluding (iss_State issue) capacityExcluded st
          then (st, inl ErrCapacityFull)
          else
            let workspace := match consumed with
                             | Some r => retry_Workspace r
                             | None => zero_Workspace
                             end in
            let st := consumeContinuationRetry id consumed st in
            let st := RecordEvent now (event RuntimeEventCandidate id (iss_Identifier issue)
                        "candidate fetched from tracker") st in
            let st := st <| Claimed ::= union {[id]} |>
                         <| ClaimedIssues ::= insert id issue |> in
            (st, inr (FSpawn id issue attempt continuationAttempt continuationTurnCount
                        cleanTurnBudget workspace)).

(** [dispatchClaimableIssueIDsOp.apply]. *)
Definition dispatchClaimableIssueIDsOp_apply (now : Time) (ids : list IssueID)
    (st : OrchestratorState) : gset IssueID :=
  fold_left (fun claimable id =>
    if (dispatchClaimGateAllows now id st).2 then {[id]} ∪ claimable else claimable) ids ∅.

(** The operation [spawn] submits before it starts the worker: the new entry gets
    a fresh address and becomes the issue's [Running] entry. *)
Definition spawn_register (startedAt : Time) (id : IssueID) (issue : Issue) (attempt : option Z)
    (continuationAttempt continuationTurnCount : Z) (workspace : Workspace)
    (st : OrchestratorState) : OrchestratorState * Ref :=
  let r := next_ref st in
  let entry := new_RunningEntry issue startedAt attempt continuationAttempt
                 continuationTurnCount workspace in
  let st := st <| next_ref ::= Pos.succ |>
               <| runs ::= insert r entry |>
               <| Running ::= insert id r |> in
  let ev := event RuntimeEventRunning id (iss_Identifier issue) "dispatched to agent" in
  (RecordEvent startedAt (ev <| ev_At := startedAt |>) st, r).

(** [recoverSpawnPanic]: a spawn that panicked before its run was registered keeps
    the claim and queues a failure retry. *)
Definition recoverSpawnPanic (now : Time) (id : IssueID) (issue : Issue) (attempt : option Z)
    (runErr : string) (workspace : Workspace) (st : OrchestratorState)
    : OrchestratorState * Followup :=
  let identifier := if String.eqb (iss_Identifier issue) "" then iss_ID issue
                    else iss_Identifier issue in
  let st := RecordEvent now (event RuntimeEventFailed id identifier runErr) st in
  let nextAttempt := match attempt with None => 1 | Some a => a +i 1 end in
  (st, FSchedule (scheduleFailureRetry issue identifier nextAttempt runErr workspace)).

(** [awaitWorkerResult]: a result channel closed without a value is a
    cancellation. *)
Definition awaitWorkerResult (now startedAt : Time) (received : option WorkerResult)
    : WorkerResult :=
  match received with
  | Some r => r
  | None => {| wr_Err := Some (OtherError "context canceled"); wr_InputRequired := false;
               wr_IssueExitState := None; wr_Elapsed := time_Sub now startedAt |}
  end.
