(* ===== verification/Finalize.v ===== *)
(** * Worker exit (internal/orchestrator/actor_finalize.go)

    [finalizeRunOp] routes a worker's result: input-required block, budget block,
    clean exit (terminal self-stop, reconciled cleanup, continuation-budget
    block, continuation), reconciled cancel with cleanup, quota backoff,
    reconcile cancel, failure retry.  Every handler closes the run's [Done]
    channel once. *)

From S2P Require Import Prelude Tracker RetryPolicy Payload Types State Ops Cleanup Dispatch.

Record finalizeRunOp := {
  f_id : IssueID;
  f_issue : Issue;
  f_identifier : string;
  f_attempt : option Z;
  f_result : WorkerResult;
  f_started : Time;
  f_entry : Ref
}.

(** [close(f.done)]. *)
Definition close_done (f : finalizeRunOp) (st : OrchestratorState) : OrchestratorState :=
  upd_run (f_entry f) (fun run => run <| run_DoneCloses ::= S |>) st.

(** The re-claim after a finished run: [st.Claimed[id] = {}; st.ClaimedIssues[id] = issue]. *)
Definition hold_claim (id : IssueID) (issue : Issue) (st : OrchestratorState) : OrchestratorState :=
  st <| Claimed ::= union {[id]} |> <| ClaimedIssues ::= insert id issue |>.

Section Finalize.
Context {S : Type} (o : Orchestrator S) (now : Time) (f : finalizeRunOp).

Definition applyInputRequiredBlock (st : OrchestratorState) (elapsed : Duration)
    : option OrchestratorState :=
  let entry := deref st (f_entry f) in
  let err_requires := match wr_Err (f_result f) with
                      | Some e => IsInputRequired e
                      | None => false
                      end in
  if negb (run_InputRequired entry) && negb (wr_InputRequired (f_result f)) && negb err_requires
  then None
  else
    let runErr := match wr_Err (f_result f) with
                  | Some e => Error e
                  | None => "input required"
                  end in
    let '(st, ok) := BlockRun now (f_id f) (f_entry f) (run_InputRequiredAt entry) runErr elapsed st in
    let st := if ok then RecordEvent now (event RuntimeEventInputBlocked (f_id f)
                           (f_identifier f) runErr) st
              else st in
    Some (close_done f st).

(** The message used when an exceeded budget recorded no reason. *)
Definition missing_budget_reason (st : OrchestratorState) (elapsed : Duration) : string :=
  let entry := deref st (f_entry f) in
  let guard := Guardrails st in
  "worker-observed, runner-reported Codex claim budget exceeded: current_claim_total_tokens="
  +:+ fmt_d (run_CodexTotalTokens entry)
  +:+ " max_tokens_per_claim=" +:+ fmt_d (bg_MaxTokensPerClaim guard)
  +:+ " current_claim_runtime_seconds=" +:+ fmt_seconds (elapsedSeconds elapsed)
  +:+ " max_runtime_seconds_per_claim=" +:+ fmt_d (bg_MaxRuntimeSecondsPerClaim guard)
  +:+ "; recorded exceedance reason missing; external GitHub @codex review, other reviewers outside the worker session, and otherwise unreported nested or subagent usage are excluded from token totals".

Definition applyBudgetExceededBlock (st : OrchestratorState) (elapsed : Duration)
    : option OrchestratorState :=
  let entry := deref st (f_entry f) in
  if negb (run_BudgetExceeded entry) then None
  else
    let runErr := if blank (run_BudgetExceededError entry) then missing_budget_reason st elapsed
                  else run_BudgetExceededError entry in
    let '(st, _) := BlockRunWithReason now (f_id f) (f_entry f) (run_BudgetExceededAt entry)
                      budgetExceededBlockMethod runErr elapsed st in
    Some (close_done f st).

Definition shouldRecordActiveSuccessNoHandoff (st : OrchestratorState) : bool :=
  match wr_IssueExitState (f_result f) with
  | Some _ => false
  | None =>
      let entry := deref st (f_entry f) in
      negb (runHasCurrentIssueHandoff entry) && negb (blank (iss_State (run_Issue entry)))
  end.

Definition shouldBlockContinuationBudget (st : OrchestratorState) (turnCount : Z) : bool :=
  match wr_IssueExitState (f_result f) with
  | Some _ => false
  | None => continuationBudgetExceeded (MaxContinuationTurns st) turnCount
  end.

Definition finishCleanContinuation (st : OrchestratorState) (elapsed : Duration)
    : OrchestratorState * bool :=
  let completed := event RuntimeEventCompleted (f_id f) (f_identifier f) "worker exited cleanly" in
  if shouldRecordActiveSuccessNoHandoff st then
    let '(st, ok) := FinishRunActiveSuccessNoHandoff now (f_id f) (f_entry f) elapsed st in
    if ok then
      (RecordEvent now (event RuntimeEventActiveSuccessNoHandoff (f_id f) (f_identifier f)
         "worker exited cleanly while issue remained active with no agent handoff")
         (RecordEvent now completed st), true)
    else (st, false)
  else
    let '(st, ok) := FinishRunSucceeded now (f_id f) (f_entry f) elapsed st in
    if ok then (RecordEvent now completed st, true) else (st, false).

Definition applyContinuationBudgetBlock (st : OrchestratorState) (elapsed : Duration)
    (turnCount : Z) : OrchestratorState * option Followup :=
  let runErr := continuationBudgetError turnCount (MaxContinuationTurns st) in
  let '(st, ok) := BlockRunWithReason now (f_id f) (f_entry f) now continuationBudgetBlockMethod
                     runErr elapsed st in
  let st := if ok then RecordEvent now (event RuntimeEventContinuationBudgetBlocked (f_id f)
                         (f_identifier f) runErr) st
            else st in
  (close_done f st, None).

Definition applyTerminalSelfStop (st : OrchestratorState) (elapsed : Duration) (recordStop : bool)
    (snapshot : IssueStateSnapshot) : OrchestratorState * option Followup :=
  let issue := run_Issue (deref st (f_entry f)) in
  let newState := negb (blank (snap_State snapshot)) in
  let issue := if newState then issue <| iss_State := snap_State snapshot |> else issue in
  let st := if newState then upd_run (f_entry f) (fun run => run <| run_Issue := issue |>) st
            else st in
  let st := if recordStop then recordOperatorTerminalStop now (f_id f) issue st else st in
  let st := upd_run (f_entry f) (fun run => run <| run_ReconcileCleanupWorkspace := true |>) st in
  let cleanup := reconciledWorkspaceCleanup o (f_id f) (deref st (f_entry f)) in
  let '(st, ok) := FinishRunTerminalSelfStop now (f_id f) (f_entry f) elapsed st in
  (close_done f st, if ok then cleanup else None).

Definition applyCleanExit (st : OrchestratorState) (elapsed : Duration)
    : OrchestratorState * option Followup :=
  let entry := deref st (f_entry f) in
  let nextContinuationAttempt := run_ContinuationAttempt entry +i 1 in
  let nextContinuationTurnCount := run_ContinuationTurnCount entry +i continuationTurnDelta entry in
  let continue_ :=
    if run_ReconcileCleanupWorkspace entry && runHasCompletedTurn entry then
      let cleanup := reconciledWorkspaceCleanupOrContinuation o (f_id f) entry
                       nextContinuationAttempt in
      let '(st, ok) := FinishRunSucceeded now (f_id f) (f_entry f) elapsed st in
      if ok then
        (close_done f (RecordEvent now (event RuntimeEventCompleted (f_id f) (f_identifier f)
                         "worker exited cleanly") st), cleanup)
      else (close_done f st, None)
    else if shouldBlockContinuationBudget st nextContinuationTurnCount then
      applyContinuationBudgetBlock st elapsed nextContinuationTurnCount
    else
      let '(st, ok) := finishCleanContinuation st elapsed in
      if ok then
        let entry := deref st (f_entry f) in
        let issue := run_Issue entry in
        (close_done f (hold_claim (f_id f) issue st),
         Some (FSchedule (scheduleContinuationRetry issue (f_identifier f)
                 nextContinuationAttempt nextContinuationTurnCount (run_Workspace entry))))
      else (close_done f st, None) in
  match wr_IssueExitState (f_result f) with
  | Some snap =>
      if snap_Terminal snap then
        let recordStop := snap_OperatorTerminalStop snap ||
                          negb (agentOwnedTerminalStateMatches entry (snap_State snap)) in
        applyTerminalSelfStop st elapsed recordStop snap
      else continue_
  | None => continue_
  end.

(** [finalizeRunOp.recordAgentHandoffReconcileStopped]. *)
Definition recordAgentHandoffStop (st : OrchestratorState) : OrchestratorState :=
  RecordEvent now (event RuntimeEventAgentHandoffReconcileStopped (f_id f) (f_identifier f)
    "reconcile stopped run after agent-side current-issue state handoff")
    (recordAgentHandoffReconcileStopped (f_id f) st).

Definition recordProgressStop (st : OrchestratorState) : OrchestratorState :=
  RecordEvent now (event RuntimeEventReconcileStopped (f_id f) (f_identifier f)
    "reconcile stopped run after ≥1 completed turn")
    (recordReconcileStoppedWithProgress (f_id f) st).

Definition applyReconciledCancelCleanup (st : OrchestratorState) (elapsed : Duration)
    : option (OrchestratorState * option Followup) :=
  let entry := deref st (f_entry f) in
  if negb (run_ReconcileCleanupWorkspace entry) || negb (runHasCompletedTurn entry) then None
  else
    let cleanup := reconciledWorkspaceCleanup o (f_id f) entry in
    let '(st, ok) := FinishRunReconciledCancelled now (f_id f) (f_entry f) elapsed st in
    if ok then
      let st := recordProgressStop st in
      let st := if runHasCurrentIssueHandoff entry then recordAgentHandoffStop st else st in
      Some (close_done f st, cleanup)
    else Some (close_done f st, None).

Definition applyReconcileCancel (st : OrchestratorState) (elapsed : Duration)
    : option (OrchestratorState * option Followup) :=
  let entry := deref st (f_entry f) in
  if negb (run_ReconcileCancel entry) then None
  else
    let cleanup := reconciledWorkspaceCleanup o (f_id f) entry in
    let '(st, ok) := FinishRunReconciledCancelled now (f_id f) (f_entry f) elapsed st in
    if ok then
      let st :=
        if runHasCompletedTurn entry then
          let st := recordProgressStop st in
          if runHasCurrentIssueHandoff entry then recordAgentHandoffStop st else st
        else if runHasCurrentIssueHandoff entry then recordAgentHandoffStop st else st in
      Some (close_done f st, cleanup)
    else Some (close_done f st, None).

Definition applyFailureRetry (e : RunError) (st : OrchestratorState) (elapsed : Duration)
    : OrchestratorState * option Followup :=
  let nextAttempt := match f_attempt f with None => 1 | Some a => a +i 1 end in
  let runErr := Error e in
  let '(st, ok) := FinishRunFailed now (f_id f) (f_entry f) elapsed st in
  if ok then
    let st := RecordEvent now (event RuntimeEventFailed (f_id f) (f_identifier f) runErr) st in
    let entry := deref st (f_entry f) in
    let issue := run_Issue entry in
    (close_done f (hold_claim (f_id f) issue st),
     Some (FSchedule (scheduleFailureRetryWithStartupFailure issue (f_identifier f) nextAttempt
             runErr (run_Workspace entry) (CopyStartupFailure (run_LastStartupFailure entry)))))
  else (close_done f st, None).

Definition applyQuotaBackoff (e : RunError) (st : OrchestratorState) (elapsed : Duration)
    : option (OrchestratorState * option Followup) :=
  match as_quota e with
  | None => None
  | Some (message, retryAfter) =>
      let attempt := match f_attempt f with
                     | Some a => if 0 <? a then a else 0
                     | None => 0
                     end in
      let runErr := Error (QuotaBackoffError message retryAfter) in
      let '(st, ok) := FinishRunFailed now (f_id f) (f_entry f) elapsed st in
      if ok then
        let st := RecordEvent now (event RuntimeEventFailed (f_id f) (f_identifier f) runErr) st in
        let entry := deref st (f_entry f) in
        let issue := run_Issue entry in
        Some (close_done f (hold_claim (f_id f) issue st),
              Some (FSchedule (scheduleQuotaBackoffRetry issue (f_identifier f) attempt runErr
                      retryAfter (run_Workspace entry))))
      else Some (close_done f st, None)
  end.

(** [finalizeRunOp.apply]. *)
Definition finalizeRunOp_apply (st : OrchestratorState) : OrchestratorState * option Followup :=
  let elapsed := if wr_Elapsed (f_result f) =? 0 then time_Sub now (f_started f)
                 else wr_Elapsed (f_result f) in
  match applyInputRequiredBlock st elapsed with
  | Some st => (st, None)
  | None =>
      match applyBudgetExceededBlock st elapsed with
      | Some st => (st, None)
      | None =>
          match wr_Err (f_result f) with
          | None => applyCleanExit st elapsed
          | Some e =>
              match applyReconciledCancelCleanup st elapsed with
              | Some res => res
              | None =>
                  match applyQuotaBackoff e st elapsed with
                  | Some res => res
                  | None =>
                      match applyReconcileCancel st elapsed with
                      | Some res => res
                      | None => applyFailureRetry e st elapsed
                      end
                  end
              end
          end
      end
  end.
End Finalize.
