(* ===== verification/Retry.v ===== *)
(** * Fired retries (internal/orchestrator/actor_retry.go)

    The operations behind a fired retry timer: the wake-up of a continuation, the
    candidate fetch of a failure or quota retry, its two outcomes, the capacity
    deferral, and the re-dispatch. *)

From S2P Require Import Prelude Tracker RetryPolicy Payload Types State Ops Cleanup.

(** [matchingRetryEntry]: the queued entry, only while it is still the one this
    fire was armed for. *)
Definition matchingRetryEntry (st : OrchestratorState) (id : IssueID) (attempt : Z)
    (kind : RetryKind) : option RetryEntry :=
  match RetryAttempts st !! id with
  | None => None
  | Some entry =>
      if negb (retry_Attempt entry =? attempt) || bool_decide (retry_Kind entry ≠ kind)
      then None else Some entry
  end.

Definition suppressRetryFireAfterOperatorStop (now : Time) (entry : RetryEntry) (id : IssueID)
    (st : OrchestratorState) : OrchestratorState * bool :=
  if negb (IsOperatorTerminalStopped id st) then (st, false)
  else
    let '(st, res) := RecordOperatorTerminalDispatchSuppressed now id (retry_Issue entry)
                        "retry_fire_after_operator_terminal_stop" st in
    let st := match res with
              | Some (stop, true) =>
                  RecordEvent now (event RuntimeEventOperatorTerminalStopDispatchSuppressed id
                    (ots_Identifier stop) "retry dispatch suppressed after Operator Terminal Stop") st
              | _ => st
              end in
    (ReleaseClaim id st, true).

(** The reschedule both deferral paths build. *)
Definition deferred_reschedule (now : Time) (entry : RetryEntry) (kind : RetryKind) (attempt : Z)
    (runErr : string) : Followup :=
  let nextAttempt := if decide (kind = RetryKindQuotaBackoff) then attempt else attempt +i 1 in
  let startupFailure := CopyStartupFailure (retry_StartupFailure entry) in
  let quotaRetryAfter := quotaBackoffDelayOverride now entry in
  FSchedule
    (if decide (kind = RetryKindQuotaBackoff)
     then scheduleQuotaBackoffRetry (retry_Issue entry) (retry_Identifier entry) nextAttempt runErr
            quotaRetryAfter (retry_Workspace entry)
     else scheduleFailureRetryWithStartupFailure (retry_Issue entry) (retry_Identifier entry)
            nextAttempt runErr (retry_Workspace entry) startupFailure).

Section Retry.
Context {S : Type} (o : Orchestrator S) (now : Time).

Definition capacityDeferRetry (id : IssueID) (entry : RetryEntry) (attempt : Z)
    (st : OrchestratorState) : OrchestratorState * option Followup :=
  if o_runCtxErr o then (st, None)
  else
    let runErr := "no available orchestrator slots" in
    (RecordEvent now (event RuntimeEventFailed id (retry_Identifier entry) runErr) st,
     Some (deferred_reschedule now entry (retry_Kind entry) attempt runErr)).

Definition retryFireDispatchTail (entry : RetryEntry) (id : IssueID) (attempt : Z)
    (st : OrchestratorState) : OrchestratorState * option Followup :=
  let issue := retry_Issue entry in
  let '(st, suppressed) := suppressRetryFireAfterOperatorStop now entry id st in
  if suppressed then (st, None)
  else if MaxConcurrentAgents st <=? RunningCount st then capacityDeferRetry id entry attempt st
  else if StateCapacityFull (iss_State issue) st then capacityDeferRetry id entry attempt st
  else
    let retryAttempt :=
      if bool_decide (retry_Kind entry ≠ RetryKindQuotaBackoff) || (0 <? attempt)
      then Some attempt else None in
    (st <| RetryAttempts ::= delete id |>,
     Some (FSpawn id issue retryAttempt 0 0 0 (retry_Workspace entry))).

(** [entry.Timer = nil]. *)
Definition clear_timer (id : IssueID) (st : OrchestratorState) : OrchestratorState :=
  st <| RetryAttempts ::= alter (fun e => e <| retry_Timer := None |>) id |>.

Definition fireWakeSignal (id : IssueID) (st : OrchestratorState)
    : OrchestratorState * option Followup :=
  (clear_timer id st, Some FWakePoll).

Definition fireWithCandidateFetch (id : IssueID) (attempt : Z) (kind : RetryKind)
    (entry : RetryEntry) (st : OrchestratorState) : OrchestratorState * option Followup :=
  (clear_timer id st, Some (FCandidateFetch id attempt kind (retry_Identifier entry))).

(** [retryFireOp.apply]. *)
Definition retryFireOp_apply (r : RetryFire) (st : OrchestratorState)
    : OrchestratorState * option Followup :=
  match matchingRetryEntry st (rf_id r) (rf_attempt r) (rf_kind r) with
  | None => (st, None)
  | Some entry =>
      if decide (retry_Kind entry = RetryKindContinuation) then fireWakeSignal (rf_id r) st
      else if o_candidateLister o
           then fireWithCandidateFetch (rf_id r) (rf_attempt r) (rf_kind r) entry st
           else retryFireDispatchTail entry (rf_id r) (rf_attempt r) st
  end.

(** [retryPollFailedOp.apply]; [fetchErr] is the error's text, if any. *)
Definition retryPollFailedOp_apply (id : IssueID) (attempt : Z) (kind : RetryKind)
    (fetchErr : option string) (st : OrchestratorState) : OrchestratorState * option Followup :=
  match matchingRetryEntry st id attempt kind with
  | None => (st, None)
  | Some entry =>
      if o_runCtxErr o then (st, None)
      else
        let runErr := match fetchErr with
                      | None => "retry poll failed"
                      | Some e => "retry poll failed: " +:+ e
                      end in
        (RecordEvent now (event RuntimeEventFailed id (retry_Identifier entry) runErr) st,
         Some (deferred_reschedule now entry kind attempt runErr))
  end.

(** [retryFireAfterFetchOp.apply]; [terminal] carries the resolved terminal state
    when [found] is [None]. *)
Definition retryFireAfterFetchOp_apply (id : IssueID) (attempt : Z) (kind : RetryKind)
    (found : option Issue) (terminal : option string) (st : OrchestratorState)
    : OrchestratorState * option Followup :=
  match matchingRetryEntry st id attempt kind with
  | None => (st, None)
  | Some entry =>
      match found with
      | None =>
          let identifier := retry_Identifier entry in
          let release st message :=
            RecordEvent now (event RuntimeEventFailed id identifier message) (ReleaseClaim id st) in
          let absent := "retry released: issue absent from active candidates" in
          match terminal with
          | None => (release st absent, None)
          | Some terminalState =>
              let issue := (retry_Issue entry) <| iss_State := terminalState |> in
              let st := recordOperatorTerminalStop now id issue st in
              match terminalWorkspaceForCleanup id identifier (ws_Path (retry_Workspace entry))
                      (ws_Root (retry_Workspace entry)) terminalState with
              | Some w => (release st "retry released: issue terminal, removing workspace",
                           Some (FCleanup w None))
              | None => (release st absent, None)
              end
          end
      | Some issue =>
          let refreshed := TrimSpace (iss_Identifier issue) in
          let entry := entry <| retry_Issue := issue |> in
          let entry := if String.eqb refreshed "" then entry
                       else entry <| retry_Identifier := refreshed |> in
          let st := st <| RetryAttempts ::= insert id entry |>
                       <| ClaimedIssues ::= insert id issue |> in
          retryFireDispatchTail entry id attempt st
      end
  end.
End Retry.

(** [findIssueByID]. *)
Definition findIssueByID (issues : list Issue) (id : IssueID) : option Issue :=
  snd <$> list_find (λ i, iss_ID i = id) issues.

(** [resolveRetryTerminalState]: terminal only on an authoritative Current row. *)
Definition resolveRetryTerminalState (resolver : option RefreshAnswer)
    (terminalStates : gset string) (id : IssueID) : option string :=
  match resolver with
  | None | Some RefreshError => None
  | Some (RefreshRows rows) =>
      if bool_decide (terminalStates = ∅) then None
      else match rows !! id with
           | Some row =>
               match ist_Outcome row with
               | IssueStateOutcomeCurrent =>
                   let s := TrimSpace (ist_State row) in
                   if String.eqb s "" || negb (isTerminalTrackerState s terminalStates)
                   then None else Some s
               | _ => None
               end
           | None => None
           end
  end.

(** The candidate fetch of [fireWithCandidateFetch]: which operation it submits
    for the lister's answer (issues and an optional error). *)
Inductive FetchOutcome :=
| FetchPollFailed (fetchErr : option string)
| FetchDone (found : option Issue) (terminal : option string).

Definition candidate_fetch (issues : list Issue) (fetchErr : option string)
    (resolver : option RefreshAnswer) (terminalStates : gset string) (id : IssueID) : FetchOutcome :=
  let found := findIssueByID issues id in
  match fetchErr, found with
  | Some e, None => FetchPollFailed (Some e)
  | _, _ => FetchDone found (match found with
                             | None => resolveRetryTerminalState resolver terminalStates id
                             | Some _ => None
                             end)
  end.
