(* ===== verification/Reconcile.v ===== *)
(** * Tracker reconciliation (internal/orchestrator/actor_reconcile.go,
      actor_config.go)

    The operations that bring the actor's state in line with a tracker fetch:
    refreshing and patching claimed issues, cancelling stalled, over-budget,
    inactive and absent runs, and the configuration updates.  A Go map is ranged
    over in an order the language leaves open: each operation takes the orders
    as arguments. *)

From S2P Require Import Prelude Tracker Workflow RetryPolicy Payload Types State Ops Cleanup.

(** The orders in which one operation ranges over the three maps. *)
Record Orders := {
  ord_running : list IssueID;
  ord_retries : list IssueID;
  ord_blocked : list IssueID
}.

(** ** Patching and refreshing claimed issues *)

Definition patchTrackerIssueState (issue narrow : Issue) : Issue :=
  let issue := if String.eqb (iss_ID issue) "" then issue <| iss_ID := iss_ID narrow |> else issue in
  let issue := if String.eqb (iss_Identifier issue) ""
               then issue <| iss_Identifier := iss_Identifier narrow |> else issue in
  let issue := issue <| iss_State := iss_State narrow |> <| iss_Labels := iss_Labels narrow |> in
  match iss_BlockedBy narrow with
  | Some bs => issue <| iss_BlockedBy := Some bs |>
  | None => issue
  end.

Definition refreshRunningIssue (issue : Issue) (run : RunningEntry) : RunningEntry :=
  clearAgentCurrentIssueTerminalHandoff
    (run <| run_Issue := issue |>
         <| run_ReconcileCleanupWorkspace := false |>
         <| run_AgentCurrentIssueHandoff := false |>).

(** [activeNarrow] / the guard of [activeMatch]. *)
Definition activeNarrow (issuesByID : gmap string Issue) (activeStates : gset string)
    (id : IssueID) : option Issue :=
  match issuesByID !! id with
  | Some issue => if isActiveTrackerState (iss_State issue) activeStates then Some issue else None
  | None => None
  end.

Definition patchClaimedIssue (id : IssueID) (narrow fallback : Issue) (st : OrchestratorState)
    : OrchestratorState :=
  match ClaimedIssues st !! id with
  | Some claimed => st <| ClaimedIssues ::= insert id (patchTrackerIssueState claimed narrow) |>
  | None => st <| ClaimedIssues ::= insert id fallback |>
  end.

Section Patch.
Context (issuesByID : gmap string Issue) (activeStates : gset string).

Definition patchRunning (order : list IssueID) (st : OrchestratorState) : OrchestratorState :=
  range_map Running (fun id r st =>
    match activeNarrow issuesByID activeStates id with
    | Some narrow =>
        let st := upd_run r (fun run =>
                    refreshRunningIssue (patchTrackerIssueState (run_Issue run) narrow) run) st in
        patchClaimedIssue id narrow (run_Issue (deref st r)) st
    | None => st
    end) order st.

Definition patchRetries (order : list IssueID) (st : OrchestratorState) : OrchestratorState :=
  range_map RetryAttempts (fun id retry st =>
    match activeNarrow issuesByID activeStates id with
    | Some narrow =>
        let issue := patchTrackerIssueState (retry_Issue retry) narrow in
        patchClaimedIssue id narrow issue
          (st <| RetryAttempts ::= insert id (retry <| retry_Issue := issue |>) |>)
    | None => st
    end) order st.

Definition patchBlocked (order : list IssueID) (st : OrchestratorState) : OrchestratorState :=
  range_map Blocked (fun id blocked st =>
    match activeNarrow issuesByID activeStates id with
    | Some narrow =>
        let issue := patchTrackerIssueState (blk_Issue blocked) narrow in
        patchClaimedIssue id narrow issue
          (st <| Blocked ::= insert id (blocked <| blk_Issue := issue |>) |>)
    | None => st
    end) order st.

Definition patchActiveClaimedTrackerIssueStatesOp_apply (ord : Orders) (st : OrchestratorState)
    : OrchestratorState :=
  patchBlocked (ord_blocked ord) (patchRetries (ord_retries ord) (patchRunning (ord_running ord) st)).

(** [activeMatch] also refreshes the claim's issue snapshot. *)
Definition refreshActiveTrackerIssuesOp_apply (ord : Orders) (st : OrchestratorState)
    : OrchestratorState :=
  let st := range_map Running (fun id r st =>
    match activeNarrow issuesByID activeStates id with
    | Some issue => upd_run r (refreshRunningIssue issue) (st <| ClaimedIssues ::= insert id issue |>)
    | None => st
    end) (ord_running ord) st in
  let st := range_map RetryAttempts (fun id retry st =>
    match activeNarrow issuesByID activeStates id with
    | Some issue => st <| ClaimedIssues ::= insert id issue |>
                       <| RetryAttempts ::= insert id (retry <| retry_Issue := issue |>) |>
    | None => st
    end) (ord_retries ord) st in
  range_map Blocked (fun id blocked st =>
    match activeNarrow issuesByID activeStates id with
    | Some issue => st <| ClaimedIssues ::= insert id issue |>
                       <| Blocked ::= insert id (blocked <| blk_Issue := issue |>) |>
    | None => st
    end) (ord_blocked ord) st.
End Patch.

(** ** Stalled runs *)

Definition isStalled (now : Time) (timeout : Duration) (run : RunningEntry) : bool :=
  let ref := if IsZero (run_LastEventAt run) then run_StartedAt run else run_LastEventAt run in
  if IsZero ref then false else timeout <? time_Sub now ref.

Definition reconcileStalledRunsOp_apply (now opNow : Time) (timeout : Duration)
    (order : list IssueID) (st : OrchestratorState) : OrchestratorState * Followup :=
  let '(st, canceled) :=
    range_map (fun s => Running s.1) (fun id r '(st, canceled) =>
      let run := deref st r in
      if run_BudgetExceeded run || run_StallCanceled run then (st, canceled)
      else if negb (isStalled opNow timeout run) then (st, canceled)
      else
        let st := upd_run r (fun run => run <| run_StallCanceled := true |>) st in
        (RecordEvent now (event RuntimeEventFailed id (run_Identifier run) "stalled") st,
         canceled ++ [r])) order (st, []) in
  (st, FCancel NilCause canceled []).

(** [ReconcileStalledRuns]: a non-positive timeout skips the pass. *)
Definition ReconcileStalledRuns (now : Time) (stallTimeoutMs : Z) (order : list IssueID)
    (st : OrchestratorState) : OrchestratorState * option Followup :=
  if stallTimeoutMs <=? 0 then (st, None)
  else
    let '(st, f) := reconcileStalledRunsOp_apply now now (stallTimeoutMs *i Millisecond) order st in
    (st, Some f).

(** ** Absent and inactive issues *)

Definition reconcileAbsentTrackerIssuesOp_apply (absentIDs : gset string) (ord : Orders)
    (st : OrchestratorState) : OrchestratorState * Followup :=
  let '(st, canceled) :=
    range_map (fun s => Running s.1) (fun id r '(st, canceled) =>
      if bool_decide (id ∉ absentIDs) then (st, canceled)
      else
        let st := ReleaseClaim id st in
        let st := upd_run r (fun run =>
          clearAgentCurrentIssueTerminalHandoff
            (run <| run_ReconcileCancel := true |>
                 <| run_ReconcileCleanupWorkspace := false |>
                 <| run_AgentCurrentIssueHandoff := false |>)) st in
        (st, canceled ++ [r])) (ord_running ord) (st, []) in
  let st := range_map Blocked (fun id _ st =>
    if bool_decide (id ∈ absentIDs) then ReleaseClaim id st else st) (ord_blocked ord) st in
  let st := range_map RetryAttempts (fun id retry st =>
    if bool_decide (id ∈ absentIDs) && bool_decide (retry_Kind retry = RetryKindContinuation)
    then ReleaseClaim id st else st) (ord_retries ord) st in
  (st, FCancel ErrReconcileCancel canceled []).

Section Inactive.
Context (now : Time) (issuesByID : gmap string Issue) (terminalStates : gset string).

Definition reconcileInactiveRun (id : IssueID) (r : Ref) (st : OrchestratorState)
    : OrchestratorState * option Ref :=
  match issuesByID !! id with
  | None => (st, None)
  | Some issue =>
      let st := ReleaseClaim id st in
      let terminal := isTerminalTrackerState (iss_State issue) terminalStates in
      let st := upd_run r (fun run => run <| run_Issue := issue |>
                                          <| run_ReconcileCleanupWorkspace := terminal |>) st in
      let st :=
        if terminal then
          if negb (agentOwnedTerminalStateMatches (deref st r) (iss_State issue))
          then recordOperatorTerminalStop now id issue st else st
        else upd_run r clearAgentCurrentIssueTerminalHandoff st in
      (upd_run r (fun run => run <| run_ReconcileCancel := true |>) st, Some r)
  end.

Definition reconcileInactiveRetry (id : IssueID) (retry : RetryEntry) (st : OrchestratorState)
    : OrchestratorState * option reconciledCleanup :=
  match issuesByID !! id with
  | None => (st, None)
  | Some issue =>
      if negb (isTerminalTrackerState (iss_State issue) terminalStates)
      then (ReleaseClaim id st, None)
      else
        let st := recordOperatorTerminalStop now id issue st in
        (ReleaseClaim id st,
         match terminalWorkspaceForCleanup id (retry_Identifier retry)
                 (ws_Path (retry_Workspace retry)) (ws_Root (retry_Workspace retry))
                 (iss_State issue) with
         | Some w => Some {| rc_workspace := w; rc_continuation := continuationForRetry retry |}
         | None => None
         end)
  end.

Definition reconcileInactiveBlocked (id : IssueID) (blocked : BlockedEntry) (st : OrchestratorState)
    : OrchestratorState * option reconciledCleanup :=
  match issuesByID !! id with
  | None => (st, None)
  | Some issue =>
      if negb (isTerminalTrackerState (iss_State issue) terminalStates)
      then (ReleaseClaim id st, None)
      else
        let st := recordOperatorTerminalStop now id issue st in
        (ReleaseClaim id st,
         match terminalWorkspaceForCleanup id (blk_Identifier blocked)
                 (ws_Path (blk_Workspace blocked)) (ws_Root (blk_Workspace blocked))
                 (iss_State issue) with
         | Some w => Some {| rc_workspace := w; rc_continuation := None |}
         | None => None
         end)
  end.

(** One pass of [apply] over a map, collecting what the helper returns. *)
Definition collect {V A} (get : OrchestratorState → gmap IssueID V)
    (helper : IssueID → V → OrchestratorState → OrchestratorState * option A)
    (order : list IssueID) (st : OrchestratorState) (acc : list A) : OrchestratorState * list A :=
  range_map (fun s => get s.1) (fun id v '(st, acc) =>
    let '(st, res) := helper id v st in
    (st, match res with Some a => acc ++ [a] | None => acc end)) order (st, acc).

Definition reconcileInactiveTrackerIssuesOp_apply (ord : Orders) (st : OrchestratorState)
    : OrchestratorState * Followup :=
  let '(st, cancelEntries) := collect Running reconcileInactiveRun (ord_running ord) st [] in
  let '(st, cleanups) := collect RetryAttempts reconcileInactiveRetry (ord_retries ord) st [] in
  let '(st, cleanups) := collect Blocked reconcileInactiveBlocked (ord_blocked ord) st cleanups in
  (st, FCancel ErrReconcileCancel cancelEntries cleanups).
End Inactive.

(** ** Configuration updates and workspace recording (actor_config.go) *)

Definition RecordWorkspace (issueID : string) (workspace : Workspace) (st : OrchestratorState)
    : OrchestratorState :=
  if blank issueID || blank (ws_Path workspace) then st
  else match Running st !! issueID with
       | Some r => upd_run r (fun run => run <| run_Workspace := workspace |>) st
       | None => st
       end.

Definition UpdateMaxConcurrentAgents (n : Z) (st : OrchestratorState) : OrchestratorState :=
  if n <=? 0 then st else st <| MaxConcurrentAgents := n |>.
Definition UpdateMaxConcurrentAgentsByState (limits : list (string * Z)) (st : OrchestratorState)
    : OrchestratorState :=
  st <| MaxConcurrentAgentsByState := NormalizeStateConcurrencyLimits limits |>.
Definition UpdateMaxContinuationTurns (n : Z) (st : OrchestratorState) : OrchestratorState :=
  if n <=? 0 then st else st <| MaxContinuationTurns := n |>.
Definition UpdateBudgetGuardrails (g : BudgetGuardrails) (st : OrchestratorState)
    : OrchestratorState := st <| Guardrails := g |>.
Definition UpdateAgentDefault (agentDefault : string) (st : OrchestratorState) : OrchestratorState :=
  if blank agentDefault then st else st <| AgentDefault := agentDefault |>.
Definition UpdatePollIntervalMs (ms : Z) (st : OrchestratorState) : OrchestratorState :=
  if ms <=? 0 then st else st <| PollIntervalMs := ms |>.
