(* ===== verification/RuntimeEvents.v ===== *)
(** * Folding runtime events (internal/orchestrator/runtime_events.go)

    A runner's event stream is folded into the run it belongs to: session
    identity, turn count, token accounting, agent handoffs, input-required
    markers, rate limits and the local budget guardrails. *)

From S2P Require Import Prelude Tracker RetryPolicy Payload Types State Ops Cleanup.

(** Event names of internal/task/task.go that the fold inspects. *)
Definition EventSessionStarted : string := "session_started".
Definition EventStartupFailed : string := "startup_failed".
Definition EventTurnStarted : string := "turn_started".
Definition EventTurnCompleted : string := "turn_completed".
Definition EventTurnFailed : string := "turn_failed".
Definition EventTurnCancelled : string := "turn_cancelled".
Definition EventTurnEndedWithError : string := "turn_ended_with_error".
Definition EventTurnInputRequired : string := "turn_input_required".
Definition EventApprovalAutoApproved : string := "approval_auto_approved".
Definition EventUnsupportedToolCall : string := "unsupported_tool_call".
Definition EventToolCallMutation : string := "tool_call_mutation".
Definition EventToolCallMutationRejected : string := "tool_call_mutation_rejected".
Definition EventToolCallMutationPostOperatorTerminalStop : string :=
  "tool_call_mutation_post_operator_terminal_stop".
Definition EventNotification : string := "notification".
Definition EventOtherMessage : string := "other_message".
Definition EventMalformed : string := "malformed".
Definition EventWorkflowResolved : string := "workflow_resolved".

Definition RuntimeEvents : list string :=
  [EventSessionStarted; EventStartupFailed; EventTurnStarted; EventTurnCompleted;
   EventTurnFailed; EventTurnCancelled; EventTurnEndedWithError; EventTurnInputRequired;
   EventApprovalAutoApproved; EventUnsupportedToolCall; EventToolCallMutation;
   EventToolCallMutationRejected; EventToolCallMutationPostOperatorTerminalStop;
   EventNotification; EventOtherMessage; EventMalformed].

(** [task.RuntimeEvent]. *)
Record TaskEvent := { te_Event : string; te_Payload : any }.

(** [payload, _ := asStringMap(event.Payload)]: nil when it is no map. *)
Definition payload_of (e : TaskEvent) : any_map := default None (asStringMap (te_Payload e)).

(** ** Field folds *)

Definition recordStartupFailureFields (e : TaskEvent) (run : RunningEntry) : RunningEntry :=
  if negb (String.eqb (te_Event e) EventStartupFailed) then run
  else match stringField (payload_of e) "phase" with
       | None => run
       | Some phase =>
           run <| run_LastStartupFailure :=
             Some {| sf_Phase := phase;
                     sf_Error := default "" (stringField (payload_of e) "error") |} |>
       end.

Definition isAgentHandoffMutationTool (tool : string) : bool :=
  String.eqb tool "linear_graphql" || String.eqb tool "linear_ai_workpad" ||
  String.eqb tool "gitea_issue_labels".

Definition agentHandoffMutationPayload (payload : any_map) : bool :=
  match stringField payload "tool" with
  | Some tool => isAgentHandoffMutationTool tool
  | None => false
  end.

Definition handoffBool (payload : any_map) (key : string) : bool :=
  match boolField payload key with Some b => b | None => false end.

Definition recordCurrentIssueTerminalHandoffState (payload : any_map) (run : RunningEntry)
    : RunningEntry :=
  match stringField payload "current_issue_terminal_state" with
  | None => run
  | Some state =>
      run <| run_AgentCurrentIssueTerminalHandoffState := TrimSpace state |>
          <| run_AgentCurrentIssueTerminalHandoff := negb (String.eqb (TrimSpace state) "") |>
  end.

Definition recordAgentHandoffFields (e : TaskEvent) (run : RunningEntry) : RunningEntry :=
  if negb (String.eqb (te_Event e) EventToolCallMutation) then run
  else
    let payload := payload_of e in
    if negb (agentHandoffMutationPayload payload) then run
    else
      let run := if handoffBool payload "current_issue_non_active_state_update"
                 then run <| run_AgentCurrentIssueHandoff := true |> else run in
      if handoffBool payload "current_issue_terminal_state_update"
      then recordCurrentIssueTerminalHandoffState payload run else run.

Definition recordInputRequiredFields (now : Time) (e : TaskEvent) (run : RunningEntry)
    : RunningEntry :=
  if negb (String.eqb (te_Event e) EventTurnInputRequired) then run
  else
    let run := run <| run_InputRequired := true |> <| run_InputRequiredAt := now |> in
    match stringField (payload_of e) "method" with
    | Some m => run <| run_InputRequiredMethod := m |>
    | None => run
    end.

(** [if v, ok := ...; ok { session.Field = v }]. *)
Definition set_if {R A} (o : option A) (f : A → R → R) (r : R) : R :=
  match o with Some a => f a r | None => r end.

Definition recordWorkflowFields (e : TaskEvent) (run : RunningEntry) : RunningEntry :=
  match asStringMap (te_Payload e) with
  | None => run
  | Some payload =>
      run <| run_Session ::= fun s =>
        set_if (stringField payload "path") (fun v s => s <| ls_WorkflowPath := v |>)
        (set_if (stringField payload "source") (fun v s => s <| ls_WorkflowSource := v |>) s) |>
  end.

Definition recordSessionFields (e : TaskEvent) (run : RunningEntry) : RunningEntry :=
  let payload := payload_of e in
  run <| run_Session ::= fun s =>
    let s := set_if (stringField payload "session_id") (fun v s => s <| ls_SessionID := v |>) s in
    let s := set_if (stringField payload "thread_id") (fun v s => s <| ls_ThreadID := v |>) s in
    let s := set_if (stringField payload "turn_id") (fun v s => s <| ls_TurnID := v |>) s in
    let s := set_if (intField payload "codex_app_server_pid")
               (fun v s => if 0 <? v then s <| ls_CodexAppServerPID := v |> else s) s in
    let s := set_if (stringField payload "agent_provider")
               (fun v s => s <| ls_AgentProvider := v |>) s in
    let s := set_if (stringField payload "agent_model") (fun v s => s <| ls_AgentModel := v |>) s in
    if String.eqb (te_Event e) EventTurnCompleted then s <| ls_TurnCount ::= fun n => n +i 1 |>
    else s |>.

(** ** Token accounting *)

(** [hasX] and [x] of the source's struct are one option each. *)
Record tokenUsage := {
  tu_input : option Z;
  tu_output : option Z;
  tu_total : option Z
}.

Definition tokenUsageFromMap (m : any_map) : option tokenUsage :=
  let u := {| tu_input := numberField m ["input_tokens"; "prompt_tokens"; "input";
                                         "inputTokens"; "promptTokens"];
              tu_output := numberField m ["output_tokens"; "completion_tokens"; "output";
                                          "completion"; "outputTokens"; "completionTokens"];
              tu_total := numberField m ["total_tokens"; "total"; "totalTokens"] |} in
  match tu_input u, tu_output u, tu_total u with
  | None, None, None => None
  | _, _, _ => Some u
  end.

Fixpoint first_usage (payload : any_map) (paths : list (list string)) : option tokenUsage :=
  match paths with
  | [] => None
  | path :: rest =>
      match tokenUsageFromMap (mapAtPath payload path) with
      | Some u => Some u
      | None => first_usage payload rest
      end
  end.

Definition absolutePaths : list (list string) :=
  [["total_token_usage"]; ["token_usage"; "total"]; ["turn"; "token_usage"; "total"];
   ["msg"; "payload"; "info"; "total_token_usage"]; ["msg"; "info"; "total_token_usage"]].

Definition tokenUsageFromEvent (e : TaskEvent) : option tokenUsage :=
  match asStringMap (te_Payload e) with
  | None => None
  | Some payload =>
      match first_usage payload absolutePaths with
      | Some u => Some u
      | None =>
          if negb (String.eqb (te_Event e) EventTurnCompleted) then None
          else first_usage payload [["usage"]; ["turn"; "usage"]; []]
      end
  end.

Definition positiveDelta (next prev : Z) : Z := if next <=? prev then 0 else next -i prev.

(** The new entry and the three deltas. *)
Definition applyTokenUsage (u : tokenUsage) (run : RunningEntry) : RunningEntry * (Z * Z * Z) :=
  let '(run, dIn) :=
    match tu_input u with
    | Some v =>
        let m := Z.max (run_LastReportedInputTokens run) v in
        (run <| run_LastReportedInputTokens := m |> <| run_CodexInputTokens := m |>,
         positiveDelta v (run_LastReportedInputTokens run))
    | None => (run, 0)
    end in
  let '(run, dOut) :=
    match tu_output u with
    | Some v =>
        let m := Z.max (run_LastReportedOutputTokens run) v in
        (run <| run_LastReportedOutputTokens := m |> <| run_CodexOutputTokens := m |>,
         positiveDelta v (run_LastReportedOutputTokens run))
    | None => (run, 0)
    end in
  let '(run, dTotal) :=
    match tu_total u with
    | Some v =>
        let m := Z.max (run_LastReportedTotalTokens run) v in
        (run <| run_LastReportedTotalTokens := m |> <| run_CodexTotalTokens := m |>,
         positiveDelta v (run_LastReportedTotalTokens run))
    | None => (run, 0)
    end in
  (run, (dIn, dOut, dTotal)).

Fixpoint first_map (root : any_map) (paths : list (list string)) : option any_map :=
  match paths with
  | [] => None
  | path :: rest =>
      match mapAtPath root path with
      | Some m => Some (copyAnyMap (Some m))
      | None => first_map root rest
      end
  end.

Definition rateLimitsFromPayload (payload : any) : option any_map :=
  match asStringMap payload with
  | None => None
  | Some root => first_map root [["rate_limits"]; ["msg"; "payload"; "info"; "rate_limits"];
                                 ["msg"; "info"; "rate_limits"]]
  end.

(** ** Budget guardrails *)

Definition runtimeSecondsSince (now startedAt : Time) : Duration :=
  if IsZero startedAt then 0
  else let elapsed := time_Sub now startedAt in if elapsed <=? 0 then 0 else elapsed.

Definition budgetExceededMessage (now : Time) (guard : BudgetGuardrails) (run : RunningEntry)
    : option string :=
  if (0 <? bg_MaxTokensPerClaim guard) && (bg_MaxTokensPerClaim guard <? run_CodexTotalTokens run) then
    Some ("worker-observed, runner-reported Codex claim token budget exceeded: current_claim_total_tokens="
          +:+ fmt_d (run_CodexTotalTokens run) +:+ " max_tokens_per_claim="
          +:+ fmt_d (bg_MaxTokensPerClaim guard)
          +:+ "; external GitHub @codex review, other reviewers outside the worker session, and otherwise unreported nested or subagent usage are excluded")
  else if 0 <? bg_MaxRuntimeSecondsPerClaim guard then
    let runtimeSeconds := runtimeSecondsSince now (run_StartedAt run) in
    if bg_MaxRuntimeSecondsPerClaim guard * Second <? runtimeSeconds then
      Some ("claim runtime budget exceeded: runtime_seconds=" +:+ fmt_seconds runtimeSeconds
            +:+ " max_runtime_seconds_per_claim=" +:+ fmt_d (bg_MaxRuntimeSecondsPerClaim guard))
    else None
  else None.

Definition markBudgetExceededIfNeeded (clock now : Time) (r : Ref) (st : OrchestratorState)
    : OrchestratorState * bool :=
  let run := deref st r in
  if run_BudgetExceeded run then (st, false)
  else match budgetExceededMessage now (Guardrails st) run with
       | None => (st, false)
       | Some message =>
           let st := upd_run r (fun run =>
             run <| run_BudgetExceeded := true |> <| run_BudgetExceededAt := now |>
                 <| run_BudgetExceededError := message |> <| run_LastCodexMessage := message |>) st in
           let ev := event RuntimeEventBudgetExceeded (iss_ID (run_Issue run)) (run_Identifier run)
                       message in
           (RecordEvent clock (ev <| ev_At := now |>) st, true)
       end.

(** ** The fold *)

(** What happens to the entry itself before the accounting. *)
Definition fold_fields (now : Time) (e : TaskEvent) (run : RunningEntry) : RunningEntry :=
  let run := run <| run_LastEventAt := now |> <| run_LastCodexEvent := te_Event e |> in
  let run := match asStringMap (te_Payload e) with
             | Some payload => set_if (stringField payload "message")
                                 (fun m run => run <| run_LastCodexMessage := m |>) run
             | None => run
             end in
  recordInputRequiredFields now e
    (recordAgentHandoffFields e (recordStartupFailureFields e (recordSessionFields e run))).

Definition recordRuntimeEvent (clock now : Time) (r : Ref) (e : TaskEvent) (st : OrchestratorState)
    : OrchestratorState * bool :=
  if String.eqb (te_Event e) "" then (st, false)
  else if String.eqb (te_Event e) EventWorkflowResolved then
    (upd_run r (recordWorkflowFields e) st, false)
  else
    let now := if IsZero now then clock else now in
    let st := upd_run r (fold_fields now e) st in
    let st :=
      match tokenUsageFromEvent e with
      | Some usage =>
          let '(run, (dIn, dOut, dTotal)) := applyTokenUsage usage (deref st r) in
          upd_run r (fun _ => run) st <| Totals ::= AddTokenDelta dIn dOut dTotal |>
      | None => st
      end in
    let st := match rateLimitsFromPayload (te_Payload e) with
              | Some limits => RecordRateLimits (Some limits) st
              | None => st
              end in
    markBudgetExceededIfNeeded clock now r st.

(** [recordRuntimeEventOp.apply]: [Some r] asks the followup to cancel run [r]. *)
Definition recordRuntimeEventOp_apply (clock now : Time) (id : IssueID) (e : TaskEvent)
    (st : OrchestratorState) : OrchestratorState * option Followup :=
  match Running st !! id with
  | Some r =>
      let '(st, cancel) := recordRuntimeEvent clock now r e st in
      (st, if cancel then Some (FCancel NilCause [r] []) else None)
  | None => (st, None)
  end.

(** [reconcileBudgetExceededRunsOp.apply] (actor_reconcile.go). *)
Definition reconcileBudgetExceededRunsOp_apply (clock now : Time) (order : list IssueID)
    (st : OrchestratorState) : OrchestratorState * Followup :=
  let '(st, canceled) :=
    range_map (fun s => Running s.1) (fun _ r '(st, canceled) =>
      if run_BudgetExceeded (deref st r) then (st, canceled ++ [r])
      else
        let '(st, marked) := markBudgetExceededIfNeeded clock now r st in
        (st, if marked then canceled ++ [r] else canceled)) order (st, []) in
  (st, FCancel NilCause canceled []).

(** [runtimeEventForwardingEmitter.AddEventWithPayload]: whether the event reaches
    the orchestrator's fold, and whether it reaches the wrapped emitter. *)
Definition forwards_to_orchestrator (attached : bool) (issueID typ : string) : bool :=
  (bool_decide (typ ∈ RuntimeEvents) || String.eqb typ EventWorkflowResolved) && attached &&
  negb (String.eqb issueID "").
Definition forwards_to_emitter (has_emitter : bool) (typ : string) : bool :=
  negb (String.eqb typ EventNotification) && has_emitter.
