(* ===== verification/Snapshot.v ===== *)
(** * Snapshot projection (internal/orchestrator/state_snapshot.go, views.go,
      actor_config.go)

    [Snapshot] publishes the state as rows.  Rows built by ranging over a map come
    in the order of that range, an argument of type [Orders]. *)

From S2P Require Import Prelude Tracker RetryPolicy Payload Types State Ops Cleanup.
From S2P Require Import RuntimeEvents Reconcile.

Record RunningView := {
  rv_IssueID : IssueID;
  rv_Identifier : string;
  rv_IssueURL : string;
  rv_State : string;
  rv_SessionID : string;
  rv_TurnCount : Z;
  rv_LastEvent : string;
  rv_LastMessage : string;
  rv_StartedAt : Time;
  rv_RuntimeSeconds : Duration;
  rv_LastEventAt : Time;
  rv_RetryAttempt : option Z;
  rv_WorkspacePath : string;
  rv_Tokens : TokensView;
  rv_CodexAppServerPID : Z;
  rv_AgentProvider : string;
  rv_AgentModel : string;
  rv_WorkflowSource : string;
  rv_WorkflowPath : string
}.

Record BlockedView := {
  bv_IssueID : IssueID;
  bv_Identifier : string;
  bv_IssueURL : string;
  bv_State : string;
  bv_BlockedAt : Time;
  bv_WorkspacePath : string;
  bv_SessionID : string;
  bv_LastEventAt : Time;
  bv_RuntimeSeconds : Duration;
  bv_Tokens : TokensView;
  bv_Method : string;
  bv_Error : string;
  bv_CodexAppServerPID : Z
}.

Record SessionUsageView := {
  sv_IssueID : IssueID;
  sv_Identifier : string;
  sv_IssueURL : string;
  sv_State : string;
  sv_SessionID : string;
  sv_WorkflowSource : string;
  sv_WorkflowPath : string;
  sv_AgentProvider : string;
  sv_AgentModel : string;
  sv_Tokens : TokensView;
  sv_RuntimeSeconds : Duration;
  sv_CompletedAt : Time;
  sv_Outcome : string
}.

Record RetryView := {
  yv_IssueID : IssueID;
  yv_Identifier : string;
  yv_IssueURL : string;
  yv_Attempt : Z;
  yv_DueAt : Time;
  yv_Error : string;
  yv_Kind : RetryKind;
  yv_StartupFailure : option StartupFailure
}.

Record OperatorTerminalStopView := {
  ov_IssueID : IssueID;
  ov_Identifier : string;
  ov_State : string;
  ov_StoppedAt : Time;
  ov_SuppressedDispatches : Z;
  ov_FirstSuppressedAt : Time;
  ov_FirstSuppressedState : string;
  ov_FirstSuppressedReason : string
}.

Record StateView := {
  view_GeneratedAt : Time;
  view_PollIntervalMs : Z;
  view_MaxConcurrentAgents : Z;
  view_MaxConcurrentAgentsByState : gmap string Z;
  view_AgentDefault : string;
  view_Running : list RunningView;
  view_Blocked : list BlockedView;
  view_Retrying : list RetryView;
  view_Completed : list IssueID;
  view_ReconcileStoppedWithProgress : list IssueID;
  view_AgentHandoffReconcileStopped : list IssueID;
  view_ActiveSuccessNoHandoff : list IssueID;
  view_OperatorTerminalStops : list OperatorTerminalStopView;
  view_CompletedSessionUsage : list SessionUsageView;
  view_BudgetGuardrails : BudgetGuardrails;
  view_CumulativeCompletedTotal : Z;
  view_CumulativeReconcileStoppedWithProgressTotal : Z;
  view_CumulativeAgentHandoffReconcileStoppedTotal : Z;
  view_CumulativeActiveSuccessNoHandoffTotal : Z;
  view_CumulativeOperatorTerminalStopsTotal : Z;
  view_CodexTotals : CodexTotals;
  view_CodexRateLimits : option any_map;
  view_RecentEvents : list RuntimeEvent
}.

(** The rows of [for id, v := range m]. *)
Definition rows {V W} (order : list IssueID) (m : gmap IssueID V) (row : IssueID → V → W) : list W :=
  omap (λ id, row id <$> m !! id) order.

Definition snapshotRunningViews (now : Time) (order : list IssueID) (st : OrchestratorState)
    : list RunningView :=
  rows order (Running st) (fun id r =>
    let run := deref st r in
    let s := run_Session run in
    {| rv_IssueID := id; rv_Identifier := run_Identifier run;
       rv_IssueURL := iss_URL (run_Issue run); rv_State := iss_State (run_Issue run);
       rv_SessionID := ls_SessionID s; rv_TurnCount := ls_TurnCount s;
       rv_LastEvent := run_LastCodexEvent run; rv_LastMessage := run_LastCodexMessage run;
       rv_StartedAt := run_StartedAt run;
       rv_RuntimeSeconds := runtimeSecondsSince now (run_StartedAt run);
       rv_LastEventAt := run_LastEventAt run; rv_RetryAttempt := run_RetryAttempt run;
       rv_WorkspacePath := ws_Path (run_Workspace run);
       rv_Tokens := tokensViewFromRunningEntry run;
       rv_CodexAppServerPID := ls_CodexAppServerPID s;
       rv_AgentProvider := ls_AgentProvider s; rv_AgentModel := ls_AgentModel s;
       rv_WorkflowSource := ls_WorkflowSource s; rv_WorkflowPath := ls_WorkflowPath s |}).

Definition snapshotBlockedViews (order : list IssueID) (st : OrchestratorState) : list BlockedView :=
  rows order (Blocked st) (fun id b =>
    {| bv_IssueID := id; bv_Identifier := blk_Identifier b;
       bv_IssueURL := iss_URL (blk_Issue b); bv_State := iss_State (blk_Issue b);
       bv_BlockedAt := blk_BlockedAt b; bv_WorkspacePath := ws_Path (blk_Workspace b);
       bv_SessionID := ls_SessionID (blk_Session b); bv_LastEventAt := blk_LastEventAt b;
       bv_RuntimeSeconds := blk_RuntimeSeconds b;
       bv_Tokens := {| tv_InputTokens := blk_CodexInputTokens b;
                       tv_OutputTokens := blk_CodexOutputTokens b;
                       tv_TotalTokens := blk_CodexTotalTokens b |};
       bv_Method := blk_Method b; bv_Error := blk_Error b;
       bv_CodexAppServerPID := ls_CodexAppServerPID (blk_Session b) |}).

Definition snapshotEndedSessionUsage (st : OrchestratorState) : list SessionUsageView :=
  map (fun u =>
    {| sv_IssueID := su_IssueID u; sv_Identifier := su_Identifier u;
       sv_IssueURL := su_IssueURL u; sv_State := su_State u;
       sv_SessionID := ls_SessionID (su_Session u);
       sv_WorkflowSource := ls_WorkflowSource (su_Session u);
       sv_WorkflowPath := ls_WorkflowPath (su_Session u);
       sv_AgentProvider := ls_AgentProvider (su_Session u);
       sv_AgentModel := ls_AgentModel (su_Session u);
       sv_Tokens := su_Tokens u; sv_RuntimeSeconds := su_RuntimeSeconds u;
       sv_CompletedAt := su_CompletedAt u; sv_Outcome := su_Outcome u |}) (endedSessionUsage st).

Definition snapshotRetryViews (order : list IssueID) (st : OrchestratorState) : list RetryView :=
  rows order (RetryAttempts st) (fun id r =>
    {| yv_IssueID := id; yv_Identifier := retry_Identifier r;
       yv_IssueURL := iss_URL (retry_Issue r); yv_Attempt := retry_Attempt r;
       yv_DueAt := retry_DueAt r; yv_Error := retry_Error r; yv_Kind := retry_Kind r;
       yv_StartupFailure := CopyStartupFailure (retry_StartupFailure r) |}).

Definition snapshotOperatorTerminalStopViews (st : OrchestratorState) : list OperatorTerminalStopView :=
  rows (operatorTerminalStopOrder st) (OperatorTerminalStops st) (fun id e =>
    {| ov_IssueID := id; ov_Identifier := ots_Identifier e; ov_State := ots_State e;
       ov_StoppedAt := ots_StoppedAt e; ov_SuppressedDispatches := ots_SuppressedDispatches e;
       ov_FirstSuppressedAt := ots_FirstSuppressedAt e;
       ov_FirstSuppressedState := ots_FirstSuppressedState e;
       ov_FirstSuppressedReason := ots_FirstSuppressedReason e |}).

(** The live aggregate: elapsed time of each running entry on top of the ended
    sessions' total. *)
Definition live_totals (now : Time) (order : list IssueID) (st : OrchestratorState) : CodexTotals :=
  fold_left (fun totals id =>
    match Running st !! id with
    | None => totals
    | Some r =>
        let startedAt := run_StartedAt (deref st r) in
        if IsZero startedAt then totals
        else
          let elapsed := time_Sub now startedAt in
          if 0 <? elapsed then totals <| ct_SecondsRunning ::= fun s => s + elapsed |> else totals
    end) order (Totals st).

Definition Snapshot (now : Time) (ord : Orders) (st : OrchestratorState) : StateView :=
  {| view_GeneratedAt := now;
     view_PollIntervalMs := PollIntervalMs st;
     view_MaxConcurrentAgents := MaxConcurrentAgents st;
     view_MaxConcurrentAgentsByState := MaxConcurrentAgentsByState st;
     view_AgentDefault := AgentDefault st;
     view_Running := snapshotRunningViews now (ord_running ord) st;
     view_Blocked := snapshotBlockedViews (ord_blocked ord) st;
     view_Retrying := snapshotRetryViews (ord_retries ord) st;
     view_Completed := bk_order (Completed st);
     view_ReconcileStoppedWithProgress := bk_order (ReconcileStoppedWithProgress st);
     view_AgentHandoffReconcileStopped := bk_order (AgentHandoffReconcileStopped st);
     view_ActiveSuccessNoHandoff := bk_order (ActiveSuccessNoHandoff st);
     view_OperatorTerminalStops := snapshotOperatorTerminalStopViews st;
     view_CompletedSessionUsage := snapshotEndedSessionUsage st;
     view_BudgetGuardrails := Guardrails st;
     view_CumulativeCompletedTotal := bk_total (Completed st);
     view_CumulativeReconcileStoppedWithProgressTotal := bk_total (ReconcileStoppedWithProgress st);
     view_CumulativeAgentHandoffReconcileStoppedTotal := bk_total (AgentHandoffReconcileStopped st);
     view_CumulativeActiveSuccessNoHandoffTotal := bk_total (ActiveSuccessNoHandoff st);
     view_CumulativeOperatorTerminalStopsTotal := CumulativeOperatorTerminalStopsTotal st;
     view_CodexTotals := live_totals now (ord_running ord) st;
     view_CodexRateLimits := option_map copyAnyMap (CodexRateLimits st);
     view_RecentEvents := RecentEvents st |}.

(** ** Claimed references (actor_config.go) *)

Definition add_ref (acc : gset string * list IssueRef) (row : IssueID * string)
    : gset string * list IssueRef :=
  let '(seen, refs) := acc in
  let id := TrimSpace row.1 in
  if String.eqb id "" then acc
  else if bool_decide (id ∈ seen) then acc
  else ({[id]} ∪ seen, refs ++ [{| ref_ID := id; ref_Identifier := TrimSpace row.2 |}]).

(** [sort.Slice] by id: ids are distinct, so the sorted order is unique. *)
Definition sort_refs (l : list IssueRef) : list IssueRef :=
  stable_sort (fun x y => String.ltb (ref_ID x) (ref_ID y)) l.

Definition RunningRetryingAndBlockedIssueRefs (view : StateView) : list IssueRef :=
  let entries := map (λ r, (rv_IssueID r, rv_Identifier r)) (view_Running view) ++
                 map (λ r, (yv_IssueID r, yv_Identifier r)) (view_Retrying view) ++
                 map (λ r, (bv_IssueID r, bv_Identifier r)) (view_Blocked view) in
  sort_refs (fold_left add_ref entries (∅, [])).2.
