(* ===== verification/Candidates.v ===== *)
(** * Candidate selection (internal/orchestrator/poller_candidates.go)

    Eligibility filtering, dispatch order, overflow carry-over and the
    pre-dispatch revalidation of a poll tick's candidates.  The tracker's refresh
    rows and the claimable set are arguments. *)

From S2P Require Import Prelude Tracker RetryPolicy Payload Types State Ops Cleanup Dispatch.

(** [normalizedStates] / [normalizedStateSet] (poller.go, runtime_poller.go). *)
Definition normalizedStates (states : list string) : gset string :=
  fold_left (fun out state =>
    let state := norm state in
    if String.eqb state "" then out else {[state]} ∪ out) states ∅.

(** ** Eligibility *)

Definition label_keys (labels : list string) : gset string :=
  fold_left (fun have l => {[norm l]} ∪ have) labels ∅.

Definition labelsSatisfyRequired (labels required : list string) : bool :=
  match required with
  | [] => true
  | _ => forallb (fun l => bool_decide (norm l ∈ label_keys labels)) required
  end.

Definition issueHasRequiredLabels (issue : Issue) (required : list string) : bool :=
  labelsSatisfyRequired (iss_Labels issue) required.

Definition issueHasRequiredCandidateFields (issue : Issue) : bool :=
  negb (blank (iss_ID issue)) && negb (blank (iss_Identifier issue)) &&
  negb (blank (iss_Title issue)) && negb (blank (iss_State issue)).

Definition todoWorkflowState (state : string) : bool :=
  let state := norm state in
  String.eqb state "todo" || HasSuffix state ":todo" || HasSuffix state "/todo".

Definition todoIssueBlockedByOpenDependency (issue : Issue) (terminalStates : gset string) : bool :=
  if negb (todoWorkflowState (iss_State issue)) then false
  else BlockedByNonTerminal (default [] (iss_BlockedBy issue)) terminalStates.

Definition eligible (terminal : gset string) (requiredLabels : list string) (issue : Issue) : bool :=
  issueHasRequiredCandidateFields issue &&
  negb (todoIssueBlockedByOpenDependency issue terminal) &&
  issueHasRequiredLabels issue requiredLabels.

Definition filterEligibleCandidates (issues : list Issue) (terminalStates requiredLabels : list string)
    : list Issue :=
  List.filter (eligible (normalizedStates terminalStates) requiredLabels) issues.

Definition filterIssuesNotInMap (issues : list Issue) (excluded : gmap string Issue) : list Issue :=
  if bool_decide (excluded = ∅) then issues
  else List.filter (fun issue => negb (is_present excluded (iss_ID issue))) issues.

(** ** Dispatch order *)

Definition prioritySortKey (priority : Z) : Z :=
  if (1 <=? priority) && (priority <=? 4) then priority else 5.

Definition compareCreatedAt (left right : Time) : Z :=
  if IsZero left && IsZero right then 0
  else if IsZero left then 1
  else if IsZero right then -1
  else if Before left right then -1
  else if After left right then 1
  else 0.

(** The [less] of [sort.SliceStable]. *)
Definition candidate_less (left right : Issue) : bool :=
  let lp := prioritySortKey (iss_Priority left) in
  let rp := prioritySortKey (iss_Priority right) in
  if negb (lp =? rp) then lp <? rp
  else if compareCreatedAt (iss_CreatedAt left) (iss_CreatedAt right) <? 0 then true
  else if 0 <? compareCreatedAt (iss_CreatedAt left) (iss_CreatedAt right) then false
  else String.ltb (iss_Identifier left) (iss_Identifier right).

Definition sortCandidates (issues : list Issue) : list Issue := stable_sort candidate_less issues.

(** ** Overflow carry-over *)

(** [issueMap] (poller.go) and the [freshByID] index: later rows win. *)
Definition issueMap (issues : list Issue) : gmap string Issue :=
  fold_left (fun m issue =>
    if String.eqb (iss_ID issue) "" then m else <[iss_ID issue := issue]> m) issues ∅.

Definition mergeOverflowCandidates (overflow fresh : list Issue) : list Issue :=
  match overflow with
  | [] => fresh
  | _ =>
      let freshByID := issueMap fresh in
      let first := omap (fun issue => freshByID !! iss_ID issue) overflow in
      let seen : gset string :=
        list_to_set (List.filter (fun id => is_present freshByID id) (map iss_ID overflow)) in
      first ++ List.filter (fun issue => negb (bool_decide (iss_ID issue ∈ seen))) fresh
  end.

(** ** Pre-dispatch revalidation *)

Definition revalidatedCandidate (issue : Issue) (statesByID : gmap string IssueState)
    (activeStateKeys terminalStateKeys : gset string) (requiredLabels : list string)
    : option Issue :=
  match statesByID !! iss_ID issue with
  | None => None
  | Some refreshed =>
      match ist_Outcome refreshed with
      | IssueStateOutcomeCurrent =>
          if blank (ist_State refreshed) then None
          else
            let issue := issue <| iss_State := ist_State refreshed |>
                               <| iss_Labels := ist_Labels refreshed |> in
            let issue := match ist_BlockedBy refreshed with
                         | Some bs => issue <| iss_BlockedBy := Some bs |>
                         | None => issue
                         end in
            if negb (isActiveTrackerState (iss_State issue) activeStateKeys) then None
            else if negb (issueHasRequiredLabels issue requiredLabels) then None
            else if todoIssueBlockedByOpenDependency issue terminalStateKeys then None
            else Some issue
      | _ => None
      end
  end.

Definition filterRevalidatedCandidates (activeStates terminalStates requiredLabels : list string)
    (candidates : list Issue) (claimable : gset IssueID) (statesByID : gmap string IssueState)
    : list Issue :=
  omap (fun issue =>
    if bool_decide (iss_ID issue ∈ claimable)
    then revalidatedCandidate issue statesByID (normalizedStates activeStates)
           (normalizedStates terminalStates) requiredLabels
    else None) candidates.

Definition claimableDispatchRefs (now : Time) (candidates : list Issue) (st : OrchestratorState)
    : gset IssueID * list IssueRef :=
  let claimable := dispatchClaimableIssueIDsOp_apply now (map iss_ID candidates) st in
  (claimable,
   omap (fun issue =>
     if bool_decide (iss_ID issue ∈ claimable)
     then Some {| ref_ID := iss_ID issue; ref_Identifier := iss_Identifier issue |}
     else None) candidates).

(** ** Lemmas: state sets and labels *)

Lemma fold_norm_elem (keep : string → bool) l (s0 : gset string) k :
  k ∈ fold_left (fun out x => if keep (norm x) then {[norm x]} ∪ out else out) l s0 ↔
  k ∈ s0 ∨ ∃ x, x ∈ l ∧ k = norm x ∧ keep k = true.
Proof.
  revert s0. induction l as [|x l IH]; intros s0; simpl.
  { split; [by left|]. intros [?|(x & Hx & _)]; [done|]. by apply elem_of_nil in Hx. }
  rewrite IH. split.
  - intros [H|(y & Hy & E)]; [|right; exists y; by rewrite elem_of_cons; auto].
    destruct (keep (norm x)) eqn:E; [|by left].
    apply elem_of_union in H as [->%elem_of_singleton|H]; [|by left].
    right. exists x. rewrite elem_of_cons. auto.
  - intros [H|(y & [->|Hy]%elem_of_cons & -> & E)].
    + left. destruct (keep (norm x)); [apply elem_of_union_r|]; done.
    + left. rewrite E. apply elem_of_union_l, elem_of_singleton. done.
    + right. eauto.
Qed.

Lemma normalizedStates_fold l :
  normalizedStates l =
  fold_left (fun out x => if negb (String.eqb (norm x) "") then {[norm x]} ∪ out else out) l ∅.
Proof.
  unfold normalizedStates. generalize (∅ : gset string).
  induction l as [|x l IH]; intros; simpl; [done|].
  by destruct (String.eqb (norm x) ""); apply IH.
Qed.

Lemma elem_of_normalizedStates k l :
  k ∈ normalizedStates l ↔ k ≠ "" ∧ ∃ x, x ∈ l ∧ norm x = k.
Proof.
  rewrite normalizedStates_fold.
  rewrite (fold_norm_elem (fun s => negb (String.eqb s ""))).
  split.
  - intros [[]%elem_of_empty|(x & ? & ? & Hk)]. apply negb_true_iff, String.eqb_neq in Hk. eauto.
  - intros (Hk & x & ? & ?). right. exists x. split_and!; [done..|].
    by apply negb_true_iff, String.eqb_neq.
Qed.

Lemma elem_of_label_keys k l : k ∈ label_keys l ↔ ∃ x, x ∈ l ∧ norm x = k.
Proof.
  unfold label_keys. rewrite (fold_norm_elem (fun _ => true)). split.
  - intros [[]%elem_of_empty|(x & ? & ? & ?)]. eauto.
  - intros (x & ? & ?). right. eauto.
Qed.

Lemma labelsSatisfyRequired_iff labels required :
  labelsSatisfyRequired labels required = true ↔
  ∀ r, r ∈ required → ∃ l, l ∈ labels ∧ norm l = norm r.
Proof.
  assert (forallb (fun l => bool_decide (norm l ∈ label_keys labels)) required = true ↔
          ∀ r, r ∈ required → ∃ l, l ∈ labels ∧ norm l = norm r) as H.
  { rewrite forallb_forall. setoid_rewrite bool_decide_eq_true.
    setoid_rewrite elem_of_label_keys. by setoid_rewrite <- list_elem_of_In. }
  unfold labelsSatisfyRequired. destruct required; [|done].
  split; [|done]. by intros _ r Hr%elem_of_nil.
Qed.

(** ** Lemmas: the dispatch order *)

Definition created_less (x y : Time) : bool := compareCreatedAt x y <? 0.

Lemma compareCreatedAt_opp x y : compareCreatedAt y x = - compareCreatedAt x y.
Proof.
  unfold compareCreatedAt, Before, After.
  destruct (IsZero x), (IsZero y); simpl; try done.
  destruct (Z.ltb_spec x y), (Z.ltb_spec y x); lia.
Qed.

Lemma created_less_iff x y :
  created_less x y = true ↔ x ≠ 0 ∧ (y = 0 ∨ x < y).
Proof.
  unfold created_less, compareCreatedAt, IsZero, Before, After. rewrite Z.ltb_lt.
  destruct (Z.eqb_spec x 0), (Z.eqb_spec y 0), (Z.ltb_spec x y), (Z.ltb_spec y x); simpl; lia.
Qed.

#[export] Instance created_less_weak : StrictWeak created_less.
Proof.
  split; intros *; rewrite <- ?not_true_iff_false, ?created_less_iff; lia.
Qed.

Lemma candidate_less_lex x y :
  candidate_less x y =
  lex_less (fun x y => prioritySortKey (iss_Priority x) <? prioritySortKey (iss_Priority y))
    (lex_less (fun x y => created_less (iss_CreatedAt x) (iss_CreatedAt y))
       (fun x y => String.ltb (iss_Identifier x) (iss_Identifier y))) x y.
Proof.
  unfold candidate_less, lex_less, created_less.
  rewrite (compareCreatedAt_opp (iss_CreatedAt x) (iss_CreatedAt y)).
  set (p := prioritySortKey _). set (q := prioritySortKey _). set (c := compareCreatedAt _ _).
  destruct (Z.eqb_spec p q) as [->|Hne]; simpl.
  - rewrite Z.ltb_irrefl. simpl.
    destruct (Z.ltb_spec c 0), (Z.ltb_spec 0 c), (Z.ltb_spec (- c) 0); simpl; try lia; done.
  - destruct (Z.ltb_spec p q), (Z.ltb_spec q p); simpl; try lia; done.
Qed.

#[export] Instance candidate_less_weak : StrictWeak candidate_less.
Proof.
  eapply strict_weak_ext; [apply candidate_less_lex|].
  apply strict_weak_lex; [apply (strict_weak_key (λ i, prioritySortKey (iss_Priority i)) Z.ltb), _|].
  apply strict_weak_lex; [apply (strict_weak_key iss_CreatedAt created_less), _|].
  apply (strict_weak_key iss_Identifier String.ltb), _.
Qed.

(** ** Lemmas: overflow carry-over *)

Lemma issueMap_lookup_fold issues (m0 : gmap string Issue) id i :
  fold_left (fun m issue => if String.eqb (iss_ID issue) "" then m
                            else <[iss_ID issue := issue]> m) issues m0 !! id = Some i →
  m0 !! id = Some i ∨ (i ∈ issues ∧ iss_ID i = id ∧ id ≠ "").
Proof.
  revert m0. induction issues as [|x l IH]; intros m0; simpl; [by left|].
  intros [H|(? & ? & ?)]%IH; [|right; rewrite elem_of_cons; auto].
  destruct (String.eqb_spec (iss_ID x) "") as [E|E]; [by left|].
  apply lookup_insert_Some in H as [[<- <-]|[_ H]]; [|by left].
  right. rewrite elem_of_cons. auto.
Qed.

Lemma issueMap_lookup issues id i :
  issueMap issues !! id = Some i → i ∈ issues ∧ iss_ID i = id ∧ id ≠ "".
Proof. intros [H|H]%issueMap_lookup_fold; [by rewrite lookup_empty in H|done]. Qed.

Lemma issueMap_is_Some issues i :
  i ∈ issues → iss_ID i ≠ "" → is_Some (issueMap issues !! iss_ID i).
Proof.
  unfold issueMap. generalize (∅ : gmap string Issue).
  induction issues as [|x l IH]; intros m Hi Hne; [by apply elem_of_nil in Hi|].
  apply elem_of_cons in Hi as [->|Hi]; simpl; [|by apply IH].
  destruct (String.eqb_spec (iss_ID x) ""); [done|].
  assert (is_Some (<[iss_ID x := x]> m !! iss_ID x)) as H by (rewrite lookup_insert_eq; eauto).
  revert H. generalize (<[iss_ID x := x]> m). clear. intros m H.
  revert m H. induction l as [|y l IH]; intros m H; simpl; [done|]. apply IH.
  destruct (String.eqb (iss_ID y) ""); [done|]. rewrite lookup_insert_is_Some'. by right.
Qed.

(** Every survivor of the merge is a row of the fresh listing, and every fresh row
    with an id keeps a representative. *)
Lemma mergeOverflow_sound overflow fresh i :
  i ∈ mergeOverflowCandidates overflow fresh → i ∈ fresh.
Proof.
  destruct overflow as [|o os]; [done|].
  unfold mergeOverflowCandidates. rewrite elem_of_app. intros [H|H].
  - apply list_elem_of_omap in H as (x & _ & H). by apply issueMap_lookup in H as [? _].
  - rewrite list_elem_of_In, filter_In, <- list_elem_of_In in H. by destruct H.
Qed.

Lemma mergeOverflow_complete overflow fresh i :
  i ∈ fresh → iss_ID i ≠ "" →
  iss_ID i ∈ map iss_ID (mergeOverflowCandidates overflow fresh).
Proof.
  intros Hi Hne. destruct overflow as [|o os].
  { by apply list_elem_of_fmap_2. }
  unfold mergeOverflowCandidates. rewrite map_app, elem_of_app.
  set (seen := list_to_set _). destruct (decide (iss_ID i ∈ seen)) as [Hs|Hs].
  - left. apply elem_of_list_to_set in Hs.
    rewrite list_elem_of_In, filter_In, <- list_elem_of_In in Hs. destruct Hs as [Hs Hp].
    apply list_elem_of_fmap in Hs as (x & E & Hx).
    destruct (issueMap_is_Some fresh i Hi Hne) as [y Hy].
    apply list_elem_of_fmap. exists y. split.
    + by apply issueMap_lookup in Hy as (_ & ? & _).
    + apply list_elem_of_omap. exists x. by rewrite <- E.
  - right. apply list_elem_of_fmap_2. rewrite list_elem_of_In, filter_In, <- list_elem_of_In.
    split; [done|]. by rewrite bool_decide_eq_false_2.
Qed.

(** ** Lemmas: revalidation *)

(** The dispatch gates of a candidate that carries the refreshed row. *)
Definition dispatch_ready (active terminal : gset string) (required : list string) (i : Issue) : Prop :=
  norm (iss_State i) ∈ active ∧
  (∀ r, r ∈ required → ∃ l, l ∈ iss_Labels i ∧ norm l = norm r) ∧
  (todoWorkflowState (iss_State i) = true →
   ∀ b, b ∈ default [] (iss_BlockedBy i) → norm (br_State b) ≠ "" ∧ norm (br_State b) ∈ terminal).

Lemma todo_unblocked_iff i terminal :
  todoIssueBlockedByOpenDependency i terminal = false ↔
  (todoWorkflowState (iss_State i) = true →
   ∀ b, b ∈ default [] (iss_BlockedBy i) → norm (br_State b) ≠ "" ∧ norm (br_State b) ∈ terminal).
Proof.
  unfold todoIssueBlockedByOpenDependency. destruct (todoWorkflowState (iss_State i)); simpl; [|done].
  rewrite <- not_true_iff_false, BlockedByNonTerminal_iff. split.
  - intros H _ b Hb. split; [|apply dec_stable]; intros ?; apply H; eauto.
  - intros H (b & Hb & [?|?]); destruct (H eq_refl b Hb); done.
Qed.

Lemma revalidatedCandidate_spec issue states active terminal required i :
  revalidatedCandidate issue states active terminal required = Some i ↔
  ∃ row, states !! iss_ID issue = Some row ∧ ist_Outcome row = IssueStateOutcomeCurrent ∧
    blank (ist_State row) = false ∧
    i = issue <| iss_State := ist_State row |> <| iss_Labels := ist_Labels row |>
              <| iss_BlockedBy := match ist_BlockedBy row with
                                  | Some bs => Some bs | None => iss_BlockedBy issue end |> ∧
    dispatch_ready active terminal required i.
Proof.
  unfold revalidatedCandidate, dispatch_ready.
  setoid_rewrite <- labelsSatisfyRequired_iff. setoid_rewrite <- todo_unblocked_iff.
  destruct (states !! iss_ID issue) as [row|]; [|split; [done|intros (? & ? & _); done]].
  destruct (decide (ist_Outcome row = IssueStateOutcomeCurrent ∧ blank (ist_State row) = false))
    as [[EO EB]|HN].
  2: { split; [|intros (? & [= <-] & ? & ? & _); exfalso; tauto].
       destruct (ist_Outcome row), (blank (ist_State row)); (done || exfalso; tauto). }
  rewrite EO, EB.
  set (i1 := issue <| iss_State := ist_State row |> <| iss_Labels := ist_Labels row |>).
  set (i2 := i1 <| iss_BlockedBy := match ist_BlockedBy row with
                                    | Some bs => Some bs | None => iss_BlockedBy issue end |>).
  assert ((match ist_BlockedBy row with
           | Some bs => i1 <| iss_BlockedBy := Some bs |> | None => i1 end) = i2) as ->.
  { unfold i2. by destruct (ist_BlockedBy row). }
  transitivity (i = i2 ∧ norm (iss_State i) ∈ active ∧
    labelsSatisfyRequired (iss_Labels i) required = true ∧
    todoIssueBlockedByOpenDependency i terminal = false).
  - clearbody i2. unfold isActiveTrackerState, issueHasRequiredLabels.
    case_bool_decide as HA; simpl; [|split; [done|intros (-> & ? & _); done]].
    destruct (labelsSatisfyRequired (iss_Labels i2) required) eqn:HL; simpl;
      [|split; [done|intros (-> & _ & ? & _); congruence]].
    destruct (todoIssueBlockedByOpenDependency i2 terminal) eqn:HT;
      (split; [intros [= <-]|intros (-> & _ & _ & ?)]); (done || congruence).
  - split; [intros (-> & ?); by exists row|]. intros (? & [= <-] & _ & _ & -> & ?). done.
Qed.

(** ** Theorems *)

Lemma filterEligible_elem issues terminal required i :
  i ∈ filterEligibleCandidates issues terminal required ↔
  i ∈ issues ∧ eligible (normalizedStates terminal) required i = true.
Proof. unfold filterEligibleCandidates. by rewrite !list_elem_of_In, filter_In. Qed.

Lemma filterRevalidated_elem active terminal required candidates claimable states i' :
  i' ∈ filterRevalidatedCandidates active terminal required candidates claimable states ↔
  ∃ issue row, issue ∈ candidates ∧ iss_ID issue ∈ claimable ∧
    states !! iss_ID issue = Some row ∧ ist_Outcome row = IssueStateOutcomeCurrent ∧
    blank (ist_State row) = false ∧
    i' = issue <| iss_State := ist_State row |> <| iss_Labels := ist_Labels row |>
               <| iss_BlockedBy := match ist_BlockedBy row with
                                   | Some bs => Some bs | None => iss_BlockedBy issue end |> ∧
    dispatch_ready (normalizedStates active) (normalizedStates terminal) required i'.
Proof.
  unfold filterRevalidatedCandidates. rewrite list_elem_of_omap. split.
  - intros (issue & Hin & H). case_bool_decide as HC; [|done].
    apply revalidatedCandidate_spec in H as (row & ? & ? & ? & ? & ?). exists issue, row. auto 10.
  - intros (issue & row & Hin & HC & H). exists issue. split; [done|].
    rewrite bool_decide_eq_true_2 by done. apply revalidatedCandidate_spec. by exists row.
Qed.

(** Candidate eligibility.  A candidate survives the filter iff its id,
    identifier, title and state are non-blank, every required label is among its
    labels (trimmed, case-insensitive), and, in a Todo state, every blocker sits in a
    known terminal state; the filter keeps the listing's order. *)
Theorem eligible_candidates_spec issues terminal required :
  filterEligibleCandidates issues terminal required `sublist_of` issues ∧
  ∀ i, i ∈ filterEligibleCandidates issues terminal required ↔
    i ∈ issues ∧
    blank (iss_ID i) = false ∧ blank (iss_Identifier i) = false ∧ blank (iss_Title i) = false ∧
    blank (iss_State i) = false ∧
    (∀ r, r ∈ required → ∃ l, l ∈ iss_Labels i ∧ norm l = norm r) ∧
    (todoWorkflowState (iss_State i) = true → ∀ b, b ∈ default [] (iss_BlockedBy i) →
       norm (br_State b) ≠ "" ∧ norm (br_State b) ∈ normalizedStates terminal).
Proof.
  split.
  - unfold filterEligibleCandidates. induction issues as [|i l IH]; simpl; [constructor|].
    destruct (eligible _ _ i); by constructor.
  - intros i. rewrite filterEligible_elem, <- labelsSatisfyRequired_iff, <- todo_unblocked_iff.
    unfold eligible, issueHasRequiredCandidateFields, issueHasRequiredLabels.
    rewrite !andb_true_iff, !negb_true_iff. tauto.
Qed.

(** Dispatch order.  [sortCandidates] returns a permutation in which no later
    candidate precedes an earlier one in the order (priority 1-4 then the rest,
    oldest creation time first with unknown times last, identifier), candidates
    that tie keep their order, and any list with these properties is the result:
    the outcome does not depend on the sorting algorithm. *)
Theorem sortCandidates_stable_order issues :
  Permutation (sortCandidates issues) issues ∧
  ordered candidate_less (sortCandidates issues) ∧
  (∀ z, List.filter (tied candidate_less z) (sortCandidates issues) =
        List.filter (tied candidate_less z) issues) ∧
  (∀ l, ordered candidate_less l →
     (∀ z, List.filter (tied candidate_less z) l = List.filter (tied candidate_less z) issues) →
     l = sortCandidates issues).
Proof.
  split_and!; [apply stable_sort_perm|apply stable_sort_ordered; apply _|
               intros z; apply stable_sort_tied; apply _|].
  intros l H1 H2. by apply stable_sort_unique; [apply _|..].
Qed.

(** Overflow carry-over loses and invents nothing.  The merged list consists of
    rows of the fresh listing and represents every fresh id. *)
Theorem overflow_merge_faithful overflow fresh :
  (∀ i, i ∈ mergeOverflowCandidates overflow fresh → i ∈ fresh) ∧
  (∀ i, i ∈ fresh → iss_ID i ≠ "" → iss_ID i ∈ map iss_ID (mergeOverflowCandidates overflow fresh)).
Proof. split; [apply mergeOverflow_sound|apply mergeOverflow_complete]. Qed.

(** pre-dispatch revalidation.  A candidate survives iff it is claimable and the
    refresh returned an authoritative Current row with a state; the survivor carries
    the refreshed state, labels and (when known) blockers and passes the active-set,
    label and Todo-blocker gates on them. *)
Theorem revalidation_spec active terminal required candidates claimable states i' :
  i' ∈ filterRevalidatedCandidates active terminal required candidates claimable states ↔
  ∃ issue row, issue ∈ candidates ∧ iss_ID issue ∈ claimable ∧
    states !! iss_ID issue = Some row ∧ ist_Outcome row = IssueStateOutcomeCurrent ∧
    blank (ist_State row) = false ∧
    i' = issue <| iss_State := ist_State row |> <| iss_Labels := ist_Labels row |>
               <| iss_BlockedBy := match ist_BlockedBy row with
                                   | Some bs => Some bs | None => iss_BlockedBy issue end |> ∧
    dispatch_ready (normalizedStates active) (normalizedStates terminal) required i'.
Proof. apply filterRevalidated_elem. Qed.
