(* ===== verification/Poller.v ===== *)
(** * The poll tick (internal/orchestrator/poller.go, preflight.go,
      runtime_poller.go)

    One tick reconciles the claimed issues with the tracker, then selects and
    dispatches candidates.  The tick runs outside the actor: each submission is
    one atomic operation, and other operations may be applied between two of
    them ([env_between]).  The tracker client is code of its own; its answers,
    the waits on cancelled workers and the clock are arguments ([TickEnv]).  The
    context of the tick stays live. *)

From S2P Require Import Prelude Tracker RetryPolicy Payload Types State Ops Cleanup Dispatch.
From S2P Require Import Reconcile RuntimeEvents Snapshot Candidates.

Record ReconciliationConfig := {
  rcf_ActiveStates : list string;
  rcf_TerminalStates : list string;
  rcf_InactiveStates : list string;
  rcf_RequiredLabels : list string;
  rcf_StallTimeoutMs : Z
}.

(** ** The narrow refresh *)

(** [for id, state := range fetched]: each id is written at most once. *)
Definition mergeRequestedIssueStates (states fetched : gmap string IssueState)
    : gmap string IssueState :=
  map_imap (fun id state => Some (default state (fetched !! id))) states.

(** [fetch] is the adapter's answer for the normalized references: [None] when no
    refresher is wired. *)
Definition fetchIssueStates
    (fetch : option (list IssueRef → gmap string IssueState * option string))
    (refs : list IssueRef) : gmap string IssueState * option string :=
  let '(states, normalizedRefs) := UnknownIssueStatesByRefs refs in
  match fetch, normalizedRefs with
  | None, _ | _, [] => (states, None)
  | Some fetch, _ =>
      let '(fetched, err) := fetch normalizedRefs in
      (mergeRequestedIssueStates states fetched, err)
  end.

(** The accumulators [refreshed] and [absent] of [refreshRunningIssueStates]. *)
Record RefreshAcc := {
  acc_refreshed : gmap string Issue;
  acc_absent : gset string
}.

Definition collectClaimedRefreshOutcome (ref : IssueRef) (state : IssueState)
    (activeIssuesByID : gmap string Issue) (acc : RefreshAcc) : RefreshAcc :=
  let id := TrimSpace (ref_ID ref) in
  if String.eqb id "" then acc
  else match ist_Outcome state with
       | IssueStateOutcomeAbsent =>
           {| acc_refreshed := acc_refreshed acc; acc_absent := {[id]} ∪ acc_absent acc |}
       | IssueStateOutcomeCurrent =>
           if blank (ist_State state) then acc
           else
             let issue := default (zero_Issue <| iss_ID := id |>
                                              <| iss_Identifier := ref_Identifier ref |>)
                            (activeIssuesByID !! id) in
             let issue := issue <| iss_ID := id |> <| iss_State := ist_State state |>
                                <| iss_Labels := ist_Labels state |>
                                <| iss_BlockedBy := ist_BlockedBy state |> in
             {| acc_refreshed := <[id := issue]> (acc_refreshed acc);
                acc_absent := acc_absent acc |}
       | _ => acc
       end.

(** The zero [IssueState] of a missing map key. *)
Definition row_of (states : gmap string IssueState) (ref : IssueRef) : IssueState :=
  default unknown_row (states !! TrimSpace (ref_ID ref)).

Definition refreshRunningIssueStates
    (fetch : option (list IssueRef → gmap string IssueState * option string))
    (activeIssuesByID : gmap string Issue) (issueRefs : list IssueRef)
    : RefreshAcc * option string :=
  match fetch with
  | None => (Build_RefreshAcc ∅ ∅, None)
  | Some _ =>
      let '(statesByID, err) := fetchIssueStates fetch issueRefs in
      (fold_left (fun acc ref =>
         collectClaimedRefreshOutcome ref (row_of statesByID ref) activeIssuesByID acc)
         issueRefs (Build_RefreshAcc ∅ ∅), err)
  end.

(** ** Active and inactive evidence *)

Definition mergeRefreshedActiveStates (activeIssuesByID refreshedIssuesByID : gmap string Issue)
    (activeStateKeys : gset string) : gmap string Issue :=
  map_imap (fun id existing =>
    match refreshedIssuesByID !! id with
    | None => Some existing
    | Some issue =>
        if isActiveTrackerState (iss_State issue) activeStateKeys
        then Some (patchTrackerIssueState existing issue) else None
    end) activeIssuesByID.

Definition nonEmptyStateList (states : list string) : list string :=
  List.filter (fun s => negb (blank s)) states.

Definition reconcileInactiveStateGroups (cfg : ReconciliationConfig) : list (list string) :=
  List.filter (fun g => match g with [] => false | _ => true end)
    [nonEmptyStateList (rcf_TerminalStates cfg); nonEmptyStateList (rcf_InactiveStates cfg)].

Definition isConfiguredInactiveState (cfg : ReconciliationConfig) (state : string) : bool :=
  bool_decide (norm state ∈ normalizedStates (rcf_TerminalStates cfg ++ rcf_InactiveStates cfg)).

Definition refreshedIssueIsInactive (cfg : ReconciliationConfig) (activeStateKeys : gset string)
    (issue : Issue) : bool :=
  if isActiveTrackerState (iss_State issue) activeStateKeys
  then negb (issueHasRequiredLabels issue (rcf_RequiredLabels cfg))
  else isConfiguredInactiveState cfg (iss_State issue).

Definition issueMapIDSet (issues : gmap string Issue) : gset string := dom issues ∖ {[""]}.

Definition addInactiveListedIssues (inactiveByID : gmap string Issue) (activeByID : gset string)
    (issues : list Issue) : gmap string Issue :=
  fold_left (fun inactive issue =>
    if String.eqb (iss_ID issue) "" then inactive
    else if bool_decide (iss_ID issue ∈ activeByID) then inactive
    else <[iss_ID issue := issue]> inactive) issues inactiveByID.

(** [listed] holds the answers of the group listings, in loop order: an error
    skips the group. *)
Definition appendInactiveFromStateGroups (listed : list (list Issue * option string))
    (inactiveByID : gmap string Issue) (activeByID : gset string)
    : gmap string Issue * list string :=
  fold_left (fun '(inactive, errs) '(issues, err) =>
    match err with
    | Some e => (inactive, errs ++ [e])
    | None => (addInactiveListedIssues inactive activeByID issues, errs)
    end) listed (inactiveByID, []).

Definition deriveInactiveIssues (cfg : ReconciliationConfig)
    (listed : list (list Issue * option string))
    (activeIssuesByID refreshedIssuesByID : gmap string Issue) (activeStateKeys : gset string)
    : gmap string Issue * list string :=
  let inactiveByID :=
    filter (λ '(_, i), refreshedIssueIsInactive cfg activeStateKeys i = true) refreshedIssuesByID in
  let activeByID := issueMapIDSet activeIssuesByID ∖ dom inactiveByID in
  appendInactiveFromStateGroups listed inactiveByID activeByID.

(** The evidence of [reconcileClaimedInactivePhase]: a refreshed active row
    replaces the listed one. *)
Definition activeEvidence (activeIssues : list Issue) (refreshed : gmap string Issue)
    (activeStateKeys : gset string) : gmap string Issue :=
  filter (λ '(_, i), isActiveTrackerState (iss_State i) activeStateKeys = true) refreshed ∪
  issueMap activeIssues.

(** ** Preflight *)

Definition supportedTrackerKinds : list string := ["linear"; "gitea"; "github"].
Definition IsSupportedTrackerKind (kind : string) : bool :=
  bool_decide (kind ∈ supportedTrackerKinds).

Record PreflightConfig := { pf_TrackerKind : string; pf_CodexCommand : string }.

(** Sprintf "%q" of a string: double quotes, backslashes and control bytes are
    escaped; bytes above the ASCII range are kept. *)
Definition hex_digit (n : nat) : string :=
  String (Ascii.ascii_of_nat (if (n <? 10)%nat then 48 + n else 87 + n)) "".
Definition quote_byte (c : Ascii.ascii) : string :=
  let n := Ascii.nat_of_ascii c in
  let esc k := String (Ascii.ascii_of_nat 92) (String (Ascii.ascii_of_nat k) "") in
  match n with
  | 34 => esc 34 | 92 => esc 92
  | 7 => esc 97 | 8 => esc 98 | 12 => esc 102 | 10 => esc 110
  | 13 => esc 114 | 9 => esc 116 | 11 => esc 118
  | _ => if ((n <? 32) || (n =? 127))%nat
         then esc 120 +:+ hex_digit (n / 16) +:+ hex_digit (n mod 16)
         else String c ""
  end%nat.
Fixpoint quote_bytes (s : string) : string :=
  match s with EmptyString => "" | String c t => quote_byte c +:+ quote_bytes t end.
Definition quote (s : string) : string :=
  let q := String (Ascii.ascii_of_nat 34) "" in q +:+ quote_bytes s +:+ q.

(** The text of [errors.Join]: one line per error. *)
Fixpoint join_text (errs : list string) : string :=
  match errs with
  | [] => ""
  | [e] => e
  | e :: rest => e +:+ String (Ascii.ascii_of_nat 10) (join_text rest)
  end.

(** The failures joined by [errors.Join], in order; none is a nil error. *)
Definition validateDispatchPreflight (cfg : PreflightConfig) : list string :=
  let kind := TrimSpace (pf_TrackerKind cfg) in
  (if String.eqb kind "" then ["tracker.kind missing"]
   else if negb (IsSupportedTrackerKind kind)
   then ["tracker.kind unsupported: " +:+ quote kind] else []) ++
  (if blank (pf_CodexCommand cfg) then ["codex.command empty"] else []).

Definition recordPreflightFailed (now : Time) (reason : list string) (st : OrchestratorState)
    : OrchestratorState :=
  RecordEvent now (event RuntimeEventDispatchPreflightFailed "" "" (join_text reason)) st.

(** ** The tick as a sequence of submissions *)

(** What a tick meets outside the actor.  The index is the number of submissions
    the tick made before: [env_between n] is what other submitters did to the state
    before submission [n]. *)
Record TickEnv := {
  env_clock : nat → Time;
  env_orders : nat → Orders;
  env_between : nat → OrchestratorState → OrchestratorState;
  env_wait : nat → option string;
  env_refresher : bool;
  env_fetch : nat → list IssueRef → gmap string IssueState * option string;
  env_list : nat → list string → list Issue * option string
}.

Record TickState := {
  tk_state : OrchestratorState;
  tk_ops : nat;
  tk_followups : list Followup
}.

(** State passing with the tick's own bookkeeping. *)
Definition Tick (A : Type) : Type := TickState → TickState * A.
Definition tick_ret {A} (a : A) : Tick A := fun s => (s, a).
Definition tick_bind {A B} (m : Tick A) (f : A → Tick B) : Tick B := fun s =>
  let '(s, a) := m s in f a s.
Notation "'let!' x := m 'in' k" := (tick_bind m (fun x => k))
  (at level 200, x binder, m at level 100, k at level 200) : go_scope.

Section PollTick.
Context (env : TickEnv) (cfg : ReconciliationConfig).

(** [o.submit]: others' operations first, then this one; its followup starts. *)
Definition submit {A} (op : nat → OrchestratorState → OrchestratorState * option Followup * A)
    : Tick A := fun s =>
  let n := tk_ops s in
  let '(st, f, a) := op n (env_between env n (tk_state s)) in
  ({| tk_state := st; tk_ops := S n;
      tk_followups := tk_followups s ++ match f with Some f => [f] | None => [] end |}, a).

(** Reads made outside the actor, numbered by the submissions before them. *)
Definition ask {A} (f : nat → A) : Tick A := fun s => (s, f (tk_ops s)).

Definition fetcher (n : nat) : option (list IssueRef → gmap string IssueState * option string) :=
  if env_refresher env then Some (env_fetch env n) else None.

(** Submissions that reply with cancelled runs, then wait for them. *)
Definition submit_wait (op : nat → OrchestratorState → OrchestratorState * option Followup)
    : Tick (list string) :=
  submit (fun n st => (op n st, match env_wait env n with Some e => [e] | None => [] end)).

Definition submit_plain (op : nat → OrchestratorState → OrchestratorState) : Tick unit :=
  submit (fun n st => (op n st, None, tt)).

Definition budget_pass : Tick (list string) :=
  submit_wait (fun n st =>
    let '(st, f) := reconcileBudgetExceededRunsOp_apply (env_clock env n) (env_clock env n)
                      (ord_running (env_orders env n)) st in (st, Some f)).

Definition stalled_pass : Tick (list string) :=
  if rcf_StallTimeoutMs cfg <=? 0 then tick_ret []
  else submit_wait (fun n st =>
         ReconcileStalledRuns (env_clock env n) (rcf_StallTimeoutMs cfg)
           (ord_running (env_orders env n)) st).

Definition claimed_refs : Tick (list IssueRef) :=
  submit (fun n st => (st, None,
    RunningRetryingAndBlockedIssueRefs (Snapshot (env_clock env n) (env_orders env n) st))).

Definition applyClaimedNarrowPhase (activeIssues : list Issue) (acc : RefreshAcc) : Tick unit :=
  let activeStateKeys := normalizedStates (rcf_ActiveStates cfg) in
  let! _ := submit_plain (fun n => patchActiveClaimedTrackerIssueStatesOp_apply
              (acc_refreshed acc) activeStateKeys (env_orders env n)) in
  let activeIssuesByID :=
    filter (λ '(id, _), id ∉ acc_absent acc) (issueMap activeIssues) in
  let activeIssuesByID :=
    mergeRefreshedActiveStates activeIssuesByID (acc_refreshed acc) activeStateKeys in
  if bool_decide (activeIssuesByID = ∅) then tick_ret tt
  else submit_plain (fun n => refreshActiveTrackerIssuesOp_apply activeIssuesByID activeStateKeys
         (env_orders env n)).

(** Returns the inactive issues and the errors. *)
Definition reconcileClaimedInactivePhase (activeIssues : list Issue) (acc : RefreshAcc)
    : Tick (gmap string Issue * list string) :=
  let activeStateKeys := normalizedStates (rcf_ActiveStates cfg) in
  let! listed := ask (fun n => map (env_list env n) (reconcileInactiveStateGroups cfg)) in
  let '(inactive, deriveErr) :=
    deriveInactiveIssues cfg listed
      (activeEvidence activeIssues (acc_refreshed acc) activeStateKeys)
      (acc_refreshed acc) activeStateKeys in
  let inactive := filter (λ '(id, _), id ∉ acc_absent acc) inactive in
  let! e1 := submit_wait (fun n st =>
    let '(st, f) := reconcileInactiveTrackerIssuesOp_apply (env_clock env n) inactive
                      (normalizedStates (rcf_TerminalStates cfg)) (env_orders env n) st in
    (st, Some f)) in
  let! e2 := (if bool_decide (acc_absent acc = ∅) then tick_ret []
              else submit_wait (fun n st =>
                let '(st, f) := reconcileAbsentTrackerIssuesOp_apply (acc_absent acc)
                                  (env_orders env n) st in (st, Some f))) in
  tick_ret (inactive, e1 ++ e2 ++ deriveErr).

(** [tickReconciliation] with the errors of the pass. *)
Definition reconcileClaimedTick (activeIssues : list Issue)
    : Tick (gmap string Issue * gmap string Issue * list string) :=
  let! stallErr := stalled_pass in
  let! issueRefs := claimed_refs in
  match issueRefs with
  | [] => tick_ret (∅, ∅, stallErr)
  | _ =>
      let! narrow := ask (fun n =>
        refreshRunningIssueStates (fetcher n) (issueMap activeIssues) issueRefs) in
      let '(acc, narrowErr) := narrow in
      let! _ := applyClaimedNarrowPhase activeIssues acc in
      let! res := reconcileClaimedInactivePhase activeIssues acc in
      let '(inactive, errs) := res in
      tick_ret (inactive, acc_refreshed acc,
                errs ++ stallErr ++ match narrowErr with Some e => [e] | None => [] end)
  end.

Definition refreshListedActiveIssues (issues : list Issue) (refreshed : gmap string Issue) : Tick unit :=
  let activeStateKeys := normalizedStates (rcf_ActiveStates cfg) in
  submit_plain (fun n => refreshActiveTrackerIssuesOp_apply
    (mergeRefreshedActiveStates (issueMap issues) refreshed activeStateKeys) activeStateKeys
    (env_orders env n)).

Definition revalidateDispatchCandidates (candidates : list Issue)
    : Tick (list Issue * option string) :=
  if negb (env_refresher env) then tick_ret (candidates, None)
  else match candidates with
       | [] => tick_ret (candidates, None)
       | _ =>
           let! res := submit (fun n st =>
             (st, None, claimableDispatchRefs (env_clock env n) candidates st)) in
           let '(claimable, refs) := res in
           match refs with
           | [] => tick_ret ([], None)
           | _ =>
               let! fetched := ask (fun n => fetchIssueStates (fetcher n) refs) in
               tick_ret (filterRevalidatedCandidates (rcf_ActiveStates cfg) (rcf_TerminalStates cfg)
                           (rcf_RequiredLabels cfg) candidates claimable fetched.1,
                         (fun e => "revalidate dispatch candidates: " +:+ e) <$> fetched.2)
           end
       end.

(** [RequestDispatchAfterTrackerRecheck]: the reply of the dispatch operation. *)
Definition requestDispatch (issue : Issue) : Tick (option DispatchError) :=
  submit (fun n st =>
    let '(st, res) := dispatchOp_apply (env_clock env n) issue None true st in
    match res with
    | inl e => (st, None, Some e)
    | inr f => (st, Some f, None)
    end).

(** The dispatch loop; the result is the new overflow. *)
Fixpoint dispatch_loop (candidates : list Issue) (overflow : list Issue) : Tick (list Issue) :=
  match candidates with
  | [] => tick_ret overflow
  | issue :: rest =>
      if String.eqb (iss_ID issue) "" then dispatch_loop rest overflow
      else
        let! err := requestDispatch issue in
        dispatch_loop rest (match err with
                            | Some ErrCapacityFull => overflow ++ [issue]
                            | _ => overflow
                            end)
  end.

(** The candidates of a tick before revalidation. *)
Definition tick_candidates (overflow issues : list Issue) (inactive : gmap string Issue) : list Issue :=
  let candidates := filterEligibleCandidates (mergeOverflowCandidates overflow issues)
                      (rcf_TerminalStates cfg) (rcf_RequiredLabels cfg) in
  sortCandidates (filterIssuesNotInMap candidates inactive).

(** [PollOnce]: the poller's new overflow and the joined errors. *)
Definition PollOnce (preflight : option PreflightConfig) (overflow : list Issue)
    : Tick (list Issue * list string) :=
  let! budgetErr := budget_pass in
  let! reconciliation := reconcileClaimedTick [] in
  let '(inactive, refreshed, reconcileErr) := reconciliation in
  let pollErr := budgetErr ++ reconcileErr in
  let preflightErrs := match preflight with
                       | Some c => validateDispatchPreflight c
                       | None => []
                       end in
  match preflightErrs with
  | _ :: _ =>
      let! _ := submit_plain (fun n => recordPreflightFailed (env_clock env n) preflightErrs) in
      tick_ret (overflow, pollErr ++ ["dispatch preflight failed: " +:+ join_text preflightErrs])
  | [] =>
      let! listing := ask (fun n => env_list env n (rcf_ActiveStates cfg)) in
      let '(issues, activeErr) := listing in
      let pollErr := pollErr ++ match activeErr with Some e => [e] | None => [] end in
      let! _ := (match issues with
                 | [] => tick_ret tt
                 | _ => refreshListedActiveIssues issues refreshed
                 end) in
      match activeErr, issues with
      | Some _, [] => tick_ret (overflow, pollErr)
      | _, _ =>
          let! res := revalidateDispatchCandidates (tick_candidates overflow issues inactive) in
          let '(candidates, revalidateErr) := res in
          let! overflow := dispatch_loop candidates [] in
          tick_ret (overflow,
                    pollErr ++ match revalidateErr with Some e => [e] | None => [] end)
      end
  end.
End PollTick.
