(* ===== verification/Runtime.v ===== *)
(** * Workflow runtime and dispatcher hooks (internal/orchestrator/workflow_runtime.go,
      runtime_poller.go, poller.go; internal/task/task.go)

    Hot reload of WORKFLOW.md with its failure deduplication, the snapshot built
    from a loaded workflow, the configuration updates at the top of a runtime
    poll, the task built for a dispatched issue, and the per-turn continue check
    handed to the runner.  Reading, loading and validating the file are
    arguments. *)

From S2P Require Import Prelude Tracker Workflow RetryPolicy Payload Template Types State Ops Cleanup.
From S2P Require Import Reconcile Candidates Poller.

(** The fields of [workflow.Config] the orchestrator reads. *)
Record Config := {
  cfg_RepoCloneURL : string;
  cfg_RepoOwner : string;
  cfg_RepoName : string;
  cfg_RepoDefaultBranch : string;
  cfg_TrackerKind : string;
  cfg_ActiveStates : list string;
  cfg_TerminalStates : list string;
  cfg_InactiveStates : list string;
  cfg_RequiredLabels : list string;
  cfg_CodexCommand : string;
  cfg_StallTimeoutMs : Z;
  cfg_PollingIntervalMs : Z;
  cfg_MaxConcurrentAgents : Z;
  cfg_MaxConcurrentAgentsByState : list (string * Z);
  cfg_MaxContinuationTurns : Z;
  cfg_MaxTokensPerClaim : Z;
  cfg_MaxRuntimeSecondsPerClaim : Z;
  cfg_MaxRetryBackoffMs : Z;
  cfg_AgentDefault : string
}.

Inductive Source := SourceFile | SourcePromptOnly | SourceDefault.
#[export] Instance Source_eq_dec : EqDecision Source.
Proof. solve_decision. Defined.

Record LoadedWorkflow := {
  wf_Config : Config;
  wf_Path : string;
  wf_Source : Source
}.

Record WorkflowSnapshot := {
  snapshot_Workflow : LoadedWorkflow;
  snapshot_PollInterval : Duration;
  snapshot_MaxConcurrentAgents : Z;
  snapshot_MaxConcurrentAgentsByState : list (string * Z);
  snapshot_MaxContinuationTurns : Z;
  snapshot_BudgetGuardrails : BudgetGuardrails;
  snapshot_MaxRetryBackoff : Duration;
  snapshot_AgentDefault : string;
  snapshot_Reconciliation : ReconciliationConfig;
  snapshot_Fingerprint : string
}.

Definition ReconciliationConfigFromWorkflow (cfg : Config) : ReconciliationConfig :=
  {| rcf_ActiveStates := cfg_ActiveStates cfg;
     rcf_TerminalStates := cfg_TerminalStates cfg;
     rcf_InactiveStates := cfg_InactiveStates cfg;
     rcf_RequiredLabels := cfg_RequiredLabels cfg;
     rcf_StallTimeoutMs := cfg_StallTimeoutMs cfg |}.

(** [override] is the wired [reconciliationConfig] hook. *)
Definition snapshotFromWorkflow (override : option (Config → ReconciliationConfig))
    (wf : LoadedWorkflow) (fingerprint : string) : WorkflowSnapshot :=
  let cfg := wf_Config wf in
  {| snapshot_Workflow := wf;
     snapshot_PollInterval := cfg_PollingIntervalMs cfg *i Millisecond;
     snapshot_MaxConcurrentAgents := cfg_MaxConcurrentAgents cfg;
     snapshot_MaxConcurrentAgentsByState := cfg_MaxConcurrentAgentsByState cfg;
     snapshot_MaxContinuationTurns := cfg_MaxContinuationTurns cfg;
     snapshot_BudgetGuardrails :=
       {| bg_MaxTokensPerClaim := cfg_MaxTokensPerClaim cfg;
          bg_MaxRuntimeSecondsPerClaim := cfg_MaxRuntimeSecondsPerClaim cfg |};
     snapshot_MaxRetryBackoff := cfg_MaxRetryBackoffMs cfg *i Millisecond;
     snapshot_AgentDefault := cfg_AgentDefault cfg;
     snapshot_Reconciliation :=
       match override with
       | Some f => f cfg
       | None => ReconciliationConfigFromWorkflow cfg
       end;
     snapshot_Fingerprint := fingerprint |}.

(** ** Hot reload *)

Record WorkflowRuntime := {
  rt_path : string;
  rt_source : Source;
  rt_current : WorkflowSnapshot;
  rt_lastFailedFingerprint : string
}.
#[export] Instance eta_WorkflowRuntime : Eta WorkflowRuntime := fun r =>
  Build_WorkflowRuntime (rt_path r) (rt_source r) (rt_current r) (rt_lastFailedFingerprint r).

Definition workflowReloadReadErrorSentinel : string := "<workflow-read-error>".

Inductive ReloadEvent := EventWorkflowReloadFailed (err : string) | EventWorkflowReloaded.
Inductive ReloadResult := ReloadOK | ReloadErr (err : string) | ReloadDeduped.

(** What one check of the file gives: its fingerprint, and the outcome of loading
    and validating it. *)
Record ReloadInput := {
  ri_fingerprint : string + string;
  ri_load : string + LoadedWorkflow
}.

Definition ReloadOnce (override : option (Config → ReconciliationConfig)) (input : ReloadInput)
    (r : WorkflowRuntime) : WorkflowRuntime * ReloadResult * list ReloadEvent :=
  if String.eqb (rt_path r) "" || bool_decide (rt_source r = SourceDefault) then (r, ReloadOK, [])
  else
    match ri_fingerprint input with
    | inl err =>
        let suppress := String.eqb (rt_lastFailedFingerprint r) workflowReloadReadErrorSentinel in
        (r <| rt_lastFailedFingerprint := workflowReloadReadErrorSentinel |>, ReloadErr err,
         if suppress then [] else [EventWorkflowReloadFailed err])
    | inr fingerprint =>
        let current := snapshot_Fingerprint (rt_current r) in
        if negb (String.eqb current "") && String.eqb current fingerprint
        then (r <| rt_lastFailedFingerprint := "" |>, ReloadOK, [])
        else if String.eqb (rt_lastFailedFingerprint r) fingerprint then (r, ReloadDeduped, [])
        else match ri_load input with
             | inl err => (r <| rt_lastFailedFingerprint := fingerprint |>, ReloadErr err,
                           [EventWorkflowReloadFailed err])
             | inr wf => (r <| rt_lastFailedFingerprint := "" |>
                            <| rt_current := snapshotFromWorkflow override wf fingerprint |>,
                          ReloadOK, [EventWorkflowReloaded])
             end
    end.

(** [RunWorkflowReloadLoop] over the checks [inputs], with the events in order. *)
Fixpoint reload_loop (override : option (Config → ReconciliationConfig)) (inputs : list ReloadInput)
    (r : WorkflowRuntime) : WorkflowRuntime * list ReloadEvent :=
  match inputs with
  | [] => (r, [])
  | i :: rest =>
      let '(r, _, evs) := ReloadOnce override i r in
      let '(r, evs') := reload_loop override rest r in
      (r, evs ++ evs')
  end.

(** The interval [RunPollLoopWithRuntime] sleeps for. *)
Definition poll_interval (runtime : option WorkflowRuntime) : Duration :=
  match runtime with
  | Some r => if 0 <? snapshot_PollInterval (rt_current r)
              then snapshot_PollInterval (rt_current r) else 30 * Second
  | None => 30 * Second
  end.

(** ** Applying a snapshot: the updates at the top of [RuntimePoller.PollOnce] *)

(** [Duration.Milliseconds]. *)
Definition Milliseconds (d : Duration) : Z := Z.quot d Millisecond.

Definition apply_snapshot (snap : WorkflowSnapshot) (st : OrchestratorState) : OrchestratorState :=
  let st := UpdateMaxConcurrentAgents (snapshot_MaxConcurrentAgents snap) st in
  let st := UpdateMaxConcurrentAgentsByState (snapshot_MaxConcurrentAgentsByState snap) st in
  let st := UpdateMaxContinuationTurns (snapshot_MaxContinuationTurns snap) st in
  let st := UpdateBudgetGuardrails (snapshot_BudgetGuardrails snap) st in
  let st := UpdatePollIntervalMs (Milliseconds (snapshot_PollInterval snap)) st in
  UpdateAgentDefault (snapshot_AgentDefault snap) st.

Definition snapshotWorkflowKey (snap : WorkflowSnapshot) : string :=
  if negb (String.eqb (snapshot_Fingerprint snap) "") then snapshot_Fingerprint snap
  else wf_Path (snapshot_Workflow snap).

(** [eligibleActiveIssueLister.ListActiveIssues] over the inner listing. *)
Definition eligibleActiveIssueLister (terminalStates requiredLabels : list string)
    (listing : list Issue * option string) : list Issue * option string :=
  (filterEligibleCandidates listing.1 terminalStates requiredLabels, listing.2).

(** ** Tasks *)

Record Task := {
  task_ID : string;
  task_SourceType : string;
  task_SourceEventID : string;
  task_RepoOwner : string;
  task_RepoName : string;
  task_CloneURL : string;
  task_BaseBranch : string;
  task_WorkBranch : string;
  task_Title : string;
  task_Description : string;
  task_Actor : string;
  task_Model : string;
  task_Priority : Z;
  task_Attempts : Z;
  task_IssueRender : option Vars       (* nil: the task was built by hand *)
}.
#[export] Instance eta_Task : Eta Task := fun r =>
  Build_Task (task_ID r) (task_SourceType r) (task_SourceEventID r) (task_RepoOwner r)
    (task_RepoName r) (task_CloneURL r) (task_BaseBranch r) (task_WorkBranch r) (task_Title r)
    (task_Description r) (task_Actor r) (task_Model r) (task_Priority r) (task_Attempts r)
    (task_IssueRender r).


Definition TaskFromIssue (issue : Issue) (cfg : Config) : string + Task :=
  if String.eqb (cfg_RepoCloneURL cfg) "" then inl "repo.clone_url missing in WORKFLOW.md"
  else
    let sourceType := if String.eqb (cfg_TrackerKind cfg) "" then "tracker_issue"
                      else cfg_TrackerKind cfg +:+ "_issue" in
    if String.eqb (iss_ID issue) "" then inl "tracker issue id is required"
    else
      let sourceEventID := if String.eqb (iss_Identifier issue) "" then iss_ID issue
                           else iss_Identifier issue in
      inr {| task_ID := iss_ID issue; task_SourceType := sourceType;
             task_SourceEventID := sourceEventID;
             task_RepoOwner := cfg_RepoOwner cfg; task_RepoName := cfg_RepoName cfg;
             task_CloneURL := cfg_RepoCloneURL cfg;
             task_BaseBranch := cfg_RepoDefaultBranch cfg;
             task_WorkBranch := "ai/" +:+ iss_ID issue;
             task_Title := iss_Identifier issue +:+ " " +:+ iss_Title issue;
             task_Description := iss_Description issue +:+ newline +:+ newline +:+ "Tracker: "
                                 +:+ iss_URL issue;
             task_Actor := cfg_TrackerKind cfg; task_Model := cfg_AgentDefault cfg;
             task_Priority := 50; task_Attempts := 0; task_IssueRender := Some (IssueRenderVars issue) |}.

Definition buildTaskWithAttempt (issue : Issue) (cfg : Config) (attempt : option Z) : string + Task :=
  match TaskFromIssue issue cfg with
  | inl e => inl e
  | inr tk => inr match attempt with
                  | Some a => tk <| task_Attempts := a +i 1 |>
                  | None => tk
                  end
  end.

(** The result [WorkerTaskDispatcher.Spawn] delivers: [run] is what
    [worker.RunTaskWithResult] returned. *)
Definition spawn_result (elapsed : Duration) (built : option RunError)
    (run : RunError + option IssueStateSnapshot) : WorkerResult :=
  match built with
  | Some e => {| wr_Err := Some e; wr_InputRequired := false; wr_IssueExitState := None;
                 wr_Elapsed := elapsed |}
  | None =>
      match run with
      | inl e => {| wr_Err := Some e; wr_InputRequired := IsInputRequired e;
                    wr_IssueExitState := None; wr_Elapsed := elapsed |}
      | inr exit => {| wr_Err := None; wr_InputRequired := false; wr_IssueExitState := exit;
                       wr_Elapsed := elapsed |}
      end
  end.

Definition taskIssueIdentifier (t : Task) : string :=
  match assoc (default [] (task_IssueRender t)) "identifier" with
  | Some (VString identifier) =>
      if negb (blank identifier) then TrimSpace identifier else TrimSpace (task_SourceEventID t)
  | _ => TrimSpace (task_SourceEventID t)
  end.

(** ** The per-turn continue check *)

(** [lookup]: the latch entry, [None] when the actor failed to answer or no
    orchestrator is attached. *)
Definition operatorTerminalStopSnapshot (lookup : option (option OperatorTerminalStopEntry))
    : option IssueStateSnapshot :=
  match lookup with
  | Some (Some stop) =>
      Some {| snap_Found := true; snap_State := ots_State stop; snap_Active := false;
              snap_Terminal := true; snap_OperatorTerminalStop := true |}
  | _ => None
  end.

(** The closure built by [configForSnapshot]; [None]: no check is wired. *)
Definition perTurnRefresh (lookup : option (option OperatorTerminalStopEntry))
    (fetch : option (list IssueRef → gmap string IssueState * option string))
    (t : Task) (cfg : Config) : option (string + IssueStateSnapshot) :=
  let issueID := TrimSpace (task_ID t) in
  let activeStates := normalizedStates (cfg_ActiveStates cfg) in
  match fetch with
  | None => None
  | Some _ =>
      if String.eqb issueID "" || bool_decide (activeStates = ∅) then None
      else Some
        match operatorTerminalStopSnapshot lookup with
        | Some stopped => inr stopped
        | None =>
            let '(statesByID, err) := fetchIssueStates fetch
              [{| ref_ID := issueID; ref_Identifier := taskIssueIdentifier t |}] in
            match err with
            | Some e => inl e
            | None =>
                let unknown := {| snap_Found := false; snap_State := ""; snap_Active := true;
                                  snap_Terminal := false; snap_OperatorTerminalStop := false |} in
                match statesByID !! issueID with
                | None => inr unknown
                | Some state =>
                    match ist_Outcome state with
                    | IssueStateOutcomeCurrent =>
                        if blank (ist_State state) then inr unknown
                        else
                          let normalized := norm (ist_State state) in
                          inr {| snap_Found := true; snap_State := ist_State state;
                                 snap_Active := bool_decide (normalized ∈ activeStates) &&
                                   labelsSatisfyRequired (ist_Labels state) (cfg_RequiredLabels cfg);
                                 snap_Terminal :=
                                   bool_decide (normalized ∈ normalizedStates (cfg_TerminalStates cfg));
                                 snap_OperatorTerminalStop := false |}
                    | _ => inr unknown
                    end
                end
            end
        end
  end.
