(* ===== verification/Effects.v ===== *)
(** * Effects of the actor's operations on the claim slots

    One lemma per operation: the abstract transition of the issue's slot, the
    followup that comes with it, and the evolution of the object store.  These are
    the refinement lemmas between the detailed operations and the slot view. *)

From S2P Require Import Prelude Tracker Workflow RetryPolicy Payload Types State Ops Cleanup Dispatch Finalize Retry Reconcile RuntimeEvents.

(** * Claim slots: the abstract view of the runtime state

    The scheduling contract of the orchestrator speaks about one issue at a time:
    is it running, claimed, queued for a retry, blocked, reserved for a workspace
    removal?  [slot] projects the state to that view of one issue.  Every operation
    is proved to change the slots as one of a few abstract transitions ([release],
    [take], ...), which is all the system-level invariants use.

    [keyed] is the representation invariant of the object store: run and retry
    objects are filed under the id of their issue, and addresses are fresh. *)


Record Slot := {
  s_run : option Ref;
  s_claimed : bool;
  s_retry : bool;
  s_blocked : bool;
  s_clean : bool
}.
#[export] Instance eta_Slot : Eta Slot := fun s =>
  Build_Slot (s_run s) (s_claimed s) (s_retry s) (s_blocked s) (s_clean s).

Definition slot (st : OrchestratorState) (id : IssueID) : Slot :=
  {| s_run := Running st !! id;
     s_claimed := bool_decide (id ∈ Claimed st);
     s_retry := is_present (RetryAttempts st) id;
     s_blocked := is_present (Blocked st) id;
     s_clean := IsCleaningWorkspace id st |}.

Definition free_slot : Slot := Build_Slot None false false false false.

(** [IsClaimed] and the capacity count read off the slot. *)
Definition slot_claimed (s : Slot) : bool :=
  s_claimed s || bool_decide (is_Some (s_run s)) || s_blocked s || s_retry s.
Definition slot_counted (s : Slot) : bool :=
  (s_claimed s || bool_decide (is_Some (s_run s))) && negb (s_retry s) && negb (s_blocked s).

(** [ReleaseClaim]. *)
Definition release (s : Slot) : Slot :=
  Build_Slot (s_run s) false false false (s_clean s).
(** A run ended without keeping its claim. *)
Definition ended (s : Slot) : Slot :=
  Build_Slot None false (s_retry s) (s_blocked s) (s_clean s).
(** A run ended and its claim waits for the reschedule. *)
Definition held (s : Slot) : Slot :=
  Build_Slot None true (s_retry s) (s_blocked s) (s_clean s).
Definition parked (s : Slot) : Slot :=
  Build_Slot None true false true (s_clean s).
Definition parked_retry (s : Slot) : Slot :=
  Build_Slot (s_run s) true false true (s_clean s).
Definition queued (s : Slot) : Slot :=
  Build_Slot (s_run s) true true (s_blocked s) (s_clean s).
Definition taken (s : Slot) : Slot :=
  Build_Slot (s_run s) true false (s_blocked s) (s_clean s).
Definition unqueued (s : Slot) : Slot :=
  Build_Slot (s_run s) (s_claimed s) false (s_blocked s) (s_clean s).

(** [st'] differs from [st] at most at [id], where the slot became [f]. *)
Definition slot_upd (id : IssueID) (f : Slot → Slot) (st st' : OrchestratorState) : Prop :=
  ∀ id', slot st' id' = if decide (id' = id) then f (slot st id) else slot st id'.
Definition slot_same (st st' : OrchestratorState) : Prop := ∀ id, slot st' id = slot st id.

Definition well_keyed (m : gmap string Issue) : Prop := ∀ id i, m !! id = Some i → iss_ID i = id.

(** The representation invariant of the object store. *)
Record keyed (st : OrchestratorState) : Prop := {
  keyed_running id r : Running st !! id = Some r →
    ∃ run, runs st !! r = Some run ∧ iss_ID (run_Issue run) = id;
  keyed_retry id e : RetryAttempts st !! id = Some e → iss_ID (retry_Issue e) = id;
  keyed_fresh r : is_Some (runs st !! r) → (r < next_ref st)%positive
}.

(** ** Lemmas: slots *)

Lemma is_present_iff {V} (m : gmap IssueID V) id : is_present m id = true ↔ is_Some (m !! id).
Proof. unfold is_present. destruct (m !! id); split; done || (by intros [? [=]]). Qed.

Lemma is_present_insert {V} (m : gmap IssueID V) id id' v :
  is_present (<[id := v]> m) id' = bool_decide (id' = id) || is_present m id'.
Proof.
  unfold is_present. case_bool_decide as E; [subst; by rewrite lookup_insert_eq|].
  by rewrite lookup_insert_ne.
Qed.

Lemma is_present_delete {V} (m : gmap IssueID V) id id' :
  is_present (delete id m) id' = negb (bool_decide (id' = id)) && is_present m id'.
Proof.
  unfold is_present. case_bool_decide as E; [subst; by rewrite lookup_delete_eq|].
  by rewrite lookup_delete_ne.
Qed.

Lemma is_present_alter {V} f (m : gmap IssueID V) id id' :
  is_present (alter f id m) id' = is_present m id'.
Proof.
  unfold is_present. destruct (decide (id' = id)) as [->|E].
  - rewrite lookup_alter_eq. by destruct (m !! id).
  - by rewrite lookup_alter_ne.
Qed.

Lemma mem_insert (s : gset IssueID) id id' :
  bool_decide (id' ∈ {[id]} ∪ s) = bool_decide (id' = id) || bool_decide (id' ∈ s).
Proof. repeat case_bool_decide; set_solver. Qed.

Lemma mem_delete (s : gset IssueID) id id' :
  bool_decide (id' ∈ s ∖ {[id]}) = negb (bool_decide (id' = id)) && bool_decide (id' ∈ s).
Proof. repeat case_bool_decide; set_solver. Qed.

Lemma IsClaimed_slot id st : IsClaimed id st = slot_claimed (slot st id).
Proof.
  unfold IsClaimed, slot_claimed, slot. simpl. unfold is_present at 1.
  by destruct (Running st !! id).
Qed.

Lemma slot_counted_iff id st : id ∈ runningIssueIDs st ↔ slot_counted (slot st id) = true.
Proof.
  unfold runningIssueIDs, slot_counted, slot. simpl.
  replace (bool_decide (is_Some (Running st !! id))) with (is_present (Running st) id)
    by (unfold is_present; by destruct (Running st !! id)).
  rewrite !elem_of_difference, elem_of_union, !elem_of_dom, <- !is_present_iff.
  case_bool_decide; destruct (is_present (Running st) id),
    (is_present (RetryAttempts st) id), (is_present (Blocked st) id); simpl; intuition congruence.
Qed.

Lemma RunningCount_same st st' : slot_same st st' → RunningCount st' = RunningCount st.
Proof.
  intros H. unfold RunningCount. do 2 f_equal. apply set_eq. intros id.
  by rewrite !slot_counted_iff, H.
Qed.

(** A change at one issue moves the count by at most one, and not up unless the
    issue becomes counted. *)
Lemma RunningCount_upd id f st st' :
  slot_upd id f st st' →
  RunningCount st' ≤ RunningCount st + 1 ∧
  ((slot_counted (f (slot st id)) = true → slot_counted (slot st id) = true) →
   RunningCount st' ≤ RunningCount st).
Proof.
  intros H. unfold RunningCount. split.
  - assert (runningIssueIDs st' ⊆ {[id]} ∪ runningIssueIDs st) as HS.
    { intros id'. rewrite elem_of_union, elem_of_singleton, !slot_counted_iff, (H id').
      case_decide; auto. }
    apply subseteq_size in HS. pose proof (size_union_alt {[id]} (runningIssueIDs st)) as E.
    rewrite size_singleton in E.
    pose proof (subseteq_size (runningIssueIDs st ∖ {[id]}) (runningIssueIDs st) ltac:(set_solver)).
    lia.
  - intros Hc. apply inj_le, subseteq_size. intros id'. rewrite !slot_counted_iff, (H id').
    case_decide; [subst; auto|done].
Qed.

(** Solves an equality of slots after map and set updates. *)
Ltac slot_tac :=
  let id' := fresh "id'" in
  intros id'; unfold slot, IsCleaningWorkspace; simpl;
  rewrite ?is_present_insert, ?is_present_delete, ?is_present_alter, ?mem_insert, ?mem_delete;
  let E := fresh "E" in
  case_decide as E; [subst id'; rewrite ?(bool_decide_eq_true_2 (@eq string _ _)) by done
                    |rewrite ?(bool_decide_eq_false_2 (@eq string _ _)) by done];
  rewrite ?lookup_insert_eq, ?lookup_delete_eq, ?lookup_insert_ne, ?lookup_delete_ne by done;
  simpl; try done.

Lemma slot_upd_refl id f st : f (slot st id) = slot st id → slot_upd id f st st.
Proof. intros E id'. case_decide; subst; congruence. Qed.

Lemma slot_upd_trans id f g st1 st2 st3 :
  slot_upd id f st1 st2 → slot_upd id g st2 st3 → slot_upd id (g ∘ f) st1 st3.
Proof.
  intros H1 H2 id'. rewrite (H2 id'). case_decide; subst; rewrite (H1 _); [|by rewrite decide_False].
  by rewrite decide_True.
Qed.

Lemma slot_upd_same_l id f st1 st2 st3 :
  slot_same st1 st2 → slot_upd id f st2 st3 → slot_upd id f st1 st3.
Proof. intros H1 H2 id'. rewrite (H2 id'), !H1. done. Qed.

Lemma slot_upd_same_r id f st1 st2 st3 :
  slot_upd id f st1 st2 → slot_same st2 st3 → slot_upd id f st1 st3.
Proof. intros H1 H2 id'. by rewrite H2, H1. Qed.

Lemma slot_upd_eq id f g st st' :
  slot_upd id f st st' → f (slot st id) = g (slot st id) → slot_upd id g st st'.
Proof. intros H E id'. rewrite (H id'). case_decide; [done|done]. Qed.

Lemma slot_same_refl st : slot_same st st.
Proof. done. Qed.
Lemma slot_same_trans st1 st2 st3 : slot_same st1 st2 → slot_same st2 st3 → slot_same st1 st3.
Proof. intros H1 H2 id. by rewrite H2. Qed.

Lemma slot_same_timer t st : slot_same st (stop_timer t st).
Proof. by destruct t. Qed.

Lemma slot_drop_run id st : slot_upd id ended st (drop_run id st).
Proof. slot_tac. Qed.

Lemma slot_release id st : slot_upd id release st (ReleaseClaim id st).
Proof.
  unfold ReleaseClaim. simpl. destruct (RetryAttempts st !! id) as [e|] eqn:E.
  - destruct (retry_Timer e); slot_tac.
  - slot_tac. unfold release, is_present. simpl. by rewrite E.
Qed.

Lemma slot_schedule entry st : slot_upd (retry_IssueID entry) queued st (ScheduleRetry entry st).
Proof.
  unfold ScheduleRetry. destruct (RetryAttempts st !! retry_IssueID entry) as [e|];
    [destruct (retry_Timer e)|]; slot_tac.
Qed.

Lemma slot_same_stop now id issue at_ st :
  slot_same st (RecordOperatorTerminalStop now id issue at_ st).1.
Proof.
  intros id'. unfold RecordOperatorTerminalStop.
  destruct (OperatorTerminalStops st !! id); [done|].
  destruct (operatorTerminalStopOrder st ++ [id]) as [|o rest]; [done|].
  by destruct ((0 <? _) && _).
Qed.

Lemma slot_same_stop_event now id issue st :
  slot_same st (recordOperatorTerminalStop now id issue st).
Proof.
  unfold recordOperatorTerminalStop. pose proof (slot_same_stop now id issue now st) as H.
  destruct (RecordOperatorTerminalStop now id issue now st) as [st' [e []]]; [|done].
  intros id'. rewrite <- H. done.
Qed.

Lemma slot_same_suppressed now id issue reason st :
  slot_same st (RecordOperatorTerminalDispatchSuppressed now id issue reason st).1.
Proof.
  unfold RecordOperatorTerminalDispatchSuppressed. by destruct (OperatorTerminalStops st !! id).
Qed.

Lemma is_current_iff st id r : is_current st id r = true ↔ Running st !! id = Some r.
Proof. unfold is_current. apply bool_decide_eq_true. Qed.

(** ** Lemmas: the object store *)

Lemma keyed_sub st st' :
  keyed st →
  (∀ id r, Running st' !! id = Some r → Running st !! id = Some r) →
  (∀ id e, RetryAttempts st' !! id = Some e → RetryAttempts st !! id = Some e) →
  runs st' = runs st → next_ref st' = next_ref st → keyed st'.
Proof.
  intros [H1 H2 H3] HR HT Hr Hn. split; rewrite ?Hr, ?Hn; eauto. Qed.

(** Same maps, same store: only bookkeeping changed. *)
Lemma keyed_frame st st' :
  keyed st → Running st' = Running st → RetryAttempts st' = RetryAttempts st →
  runs st' = runs st → next_ref st' = next_ref st → keyed st'.
Proof. intros H H1 H2 H3 H4. apply (keyed_sub st); [done|rewrite H1|rewrite H2|..]; done. Qed.

Lemma keyed_upd_run r f st :
  keyed st →
  (∀ run, runs st !! r = Some run → iss_ID (run_Issue (f run)) = iss_ID (run_Issue run)) →
  keyed (upd_run r f st).
Proof.
  intros [H1 H2 H3] Hf. split; simpl.
  - intros id r' (run & Hr & E)%H1. destruct (decide (r = r')) as [<-|Hne].
    + exists (f run). rewrite lookup_alter_eq, Hr. split; [done|]. by rewrite Hf.
    + exists run. by rewrite lookup_alter_ne.
  - done.
  - intros r'. rewrite lookup_alter_is_Some. apply H3.
Qed.

Lemma keyed_upd_run_at id r f st :
  keyed st → Running st !! id = Some r → (∀ run, iss_ID (run_Issue (f run)) = id) →
  keyed (upd_run r f st).
Proof.
  intros HK HR Hf. apply keyed_upd_run; [done|]. intros run Hr. rewrite Hf.
  destruct (keyed_running st HK id r HR) as (run' & E & ?). by simplify_eq.
Qed.

Lemma keyed_deref st id r :
  keyed st → Running st !! id = Some r → iss_ID (run_Issue (deref st r)) = id.
Proof. intros HK H. apply (keyed_running st HK) in H as (run & E & ?). unfold deref. by rewrite E. Qed.

Lemma keyed_timer t st : keyed st → keyed (stop_timer t st).
Proof. intros H. destruct t; [|done]. by eapply keyed_frame. Qed.

Lemma keyed_event now ev st : keyed st → keyed (RecordEvent now ev st).
Proof. intros H. by eapply keyed_frame. Qed.

Lemma keyed_drop_run id st : keyed st → keyed (drop_run id st).
Proof. intros H. eapply keyed_sub; [exact H|..]; try done. intros id' r. simpl. by intros [_ ?]%lookup_delete_Some. Qed.

Lemma keyed_release id st : keyed st → keyed (ReleaseClaim id st).
Proof.
  intros H. unfold ReleaseClaim. simpl. destruct (RetryAttempts st !! id) as [e|]; [|by eapply keyed_frame].
  destruct (retry_Timer e); (eapply keyed_sub; [exact H|done| |done|done]);
    simpl; by intros id' e' [_ ?]%lookup_delete_Some.
Qed.

Lemma keyed_schedule entry st :
  keyed st → iss_ID (retry_Issue entry) = retry_IssueID entry → keyed (ScheduleRetry entry st).
Proof.
  intros H E. assert (keyed (st <| RetryAttempts ::= insert (retry_IssueID entry) entry |>)) as HK.
  { destruct H as [H1 H2 H3]. split; simpl; auto. intros id e.
    rewrite lookup_insert_Some. intros [[<- <-]|[_ ?]]; auto. }
  unfold ScheduleRetry. destruct (RetryAttempts st !! retry_IssueID entry) as [e|];
    [destruct (retry_Timer e)|]; by eapply keyed_frame.
Qed.

Lemma keyed_stop now id issue at_ st : keyed st → keyed (RecordOperatorTerminalStop now id issue at_ st).1.
Proof.
  intros H. unfold RecordOperatorTerminalStop. destruct (OperatorTerminalStops st !! id); [by eapply keyed_frame|].
  destruct (operatorTerminalStopOrder st ++ [id]); [by eapply keyed_frame|].
  destruct ((0 <? _) && _); by eapply keyed_frame.
Qed.

Lemma keyed_stop_event now id issue st : keyed st → keyed (recordOperatorTerminalStop now id issue st).
Proof.
  intros H. unfold recordOperatorTerminalStop. pose proof (keyed_stop now id issue now st H) as H'.
  destruct (RecordOperatorTerminalStop now id issue now st) as [st' [e []]]; [|done].
  by apply keyed_event.
Qed.

Lemma keyed_suppressed now id issue reason st :
  keyed st → keyed (RecordOperatorTerminalDispatchSuppressed now id issue reason st).1.
Proof.
  intros H. unfold RecordOperatorTerminalDispatchSuppressed.
  destruct (OperatorTerminalStops st !! id); [by eapply keyed_frame|done].
Qed.

Lemma stop_event_frame now id issue st :
  runs (recordOperatorTerminalStop now id issue st) = runs st ∧
  Running (recordOperatorTerminalStop now id issue st) = Running st.
Proof.
  unfold recordOperatorTerminalStop, RecordOperatorTerminalStop.
  destruct (OperatorTerminalStops st !! id); [done|].
  destruct (operatorTerminalStopOrder st ++ [id]); [done|].
  by destruct ((0 <? _) && _).
Qed.

Lemma keyed_init p m : keyed (NewOrchestratorState p m).
Proof.
  split; simpl; intros *; rewrite ?lookup_empty; done || by intros [? [=]].
Qed.

#[export] Hint Resolve keyed_timer keyed_event keyed_drop_run keyed_release keyed_stop_event
  keyed_suppressed slot_same_refl slot_same_timer slot_same_stop_event slot_same_suppressed : orch.

(** ** Evolution of the store

    What every operation except the registration of a run and its end respects. *)

Record evolves (st st' : OrchestratorState) : Prop := {
  evolves_keyed : keyed st → keyed st';
  evolves_closes r : run_DoneCloses <$> runs st' !! r = run_DoneCloses <$> runs st !! r;
  evolves_max : MaxConcurrentAgents st' = MaxConcurrentAgents st
}.

#[export] Instance evolves_preorder : PreOrder evolves.
Proof.
  split; [by split|]. intros x y z [A1 A2 A3] [B1 B2 B3].
  split; [auto|intros r; by rewrite B2|congruence].
Qed.

Lemma evolves_frame st st' :
  (keyed st → keyed st') → runs st' = runs st → MaxConcurrentAgents st' = MaxConcurrentAgents st →
  evolves st st'.
Proof. intros H1 H2 H3. split; [done|by rewrite H2|done]. Qed.

(** Only bookkeeping changed: maps, store and the capacity are the same. *)
Lemma evolves_log st st' :
  Running st' = Running st → RetryAttempts st' = RetryAttempts st → runs st' = runs st →
  next_ref st' = next_ref st → MaxConcurrentAgents st' = MaxConcurrentAgents st → evolves st st'.
Proof. intros. apply evolves_frame; [|done|done]. intros ?. by eapply keyed_frame. Qed.

Lemma closes_upd_run r f st r' :
  (∀ run, run_DoneCloses (f run) = run_DoneCloses run) →
  run_DoneCloses <$> runs (upd_run r f st) !! r' = run_DoneCloses <$> runs st !! r'.
Proof.
  intros Hf. simpl. destruct (decide (r = r')) as [<-|Hne]; [|by rewrite lookup_alter_ne].
  rewrite lookup_alter_eq. destruct (runs st !! r); simpl; [by rewrite Hf|done].
Qed.

Lemma evolves_upd_run r f st :
  (∀ run, runs st !! r = Some run → iss_ID (run_Issue (f run)) = iss_ID (run_Issue run)) →
  (∀ run, run_DoneCloses (f run) = run_DoneCloses run) →
  evolves st (upd_run r f st).
Proof.
  intros H1 H2. split; [intros; by apply keyed_upd_run|intros; by apply closes_upd_run|done].
Qed.

Lemma evolves_upd_run_at id r f st :
  Running st !! id = Some r → (∀ run, iss_ID (run_Issue (f run)) = id) →
  (∀ run, run_DoneCloses (f run) = run_DoneCloses run) → evolves st (upd_run r f st).
Proof.
  intros HR H1 H2.
  split; [intros; by eapply keyed_upd_run_at|intros; by apply closes_upd_run|done].
Qed.

Lemma evolves_event now ev st : evolves st (RecordEvent now ev st).
Proof. by apply evolves_log. Qed.
Lemma evolves_timer t st : evolves st (stop_timer t st).
Proof. destruct t; [by apply evolves_log|done]. Qed.
Lemma evolves_drop_run id st : evolves st (drop_run id st).
Proof. apply evolves_frame; auto with orch. Qed.
Lemma evolves_release id st : evolves st (ReleaseClaim id st).
Proof.
  apply evolves_frame; [auto with orch|..]; unfold ReleaseClaim; simpl;
    (destruct (RetryAttempts st !! id) as [e|]; [by destruct (retry_Timer e)|done]).
Qed.
Lemma evolves_stop_event now id issue st : evolves st (recordOperatorTerminalStop now id issue st).
Proof.
  apply evolves_frame; [auto with orch|apply stop_event_frame|].
  unfold recordOperatorTerminalStop, RecordOperatorTerminalStop.
  destruct (OperatorTerminalStops st !! id); [done|].
  destruct (operatorTerminalStopOrder st ++ [id]); [done|]. by destruct ((0 <? _) && _).
Qed.
Lemma evolves_suppressed now id issue reason st :
  evolves st (RecordOperatorTerminalDispatchSuppressed now id issue reason st).1.
Proof.
  apply evolves_frame; [auto with orch|..]; unfold RecordOperatorTerminalDispatchSuppressed;
    by destruct (OperatorTerminalStops st !! id).
Qed.
#[export] Hint Resolve evolves_event evolves_timer evolves_drop_run evolves_release
  evolves_stop_event evolves_suppressed : orch.

(** ** Run-ending transitions *)

Section Ending.
Context (now : Time) (id : IssueID) (r : Ref) (elapsed : Duration).

(** What the five finishing methods share. *)
Definition finish_spec (op : OrchestratorState → OrchestratorState * bool) : Prop := ∀ st,
  if is_current st id r then
    (op st).2 = true ∧ slot_upd id ended st (op st).1 ∧ runs (op st).1 = runs st ∧
    evolves st (op st).1
  else op st = (st, false).

Ltac finish :=
  intros st; unfold finishRunAborted;
  destruct (is_current st id r); [|done];
  split_and!; [done|exact (slot_drop_run id st)|done|];
  transitivity (drop_run id st); [apply evolves_drop_run|by apply evolves_log].

Lemma FinishRunSucceeded_spec : finish_spec (FinishRunSucceeded now id r elapsed).
Proof. unfold FinishRunSucceeded. finish. Qed.
Lemma FinishRunActiveSuccessNoHandoff_spec :
  finish_spec (FinishRunActiveSuccessNoHandoff now id r elapsed).
Proof. unfold FinishRunActiveSuccessNoHandoff. finish. Qed.
Lemma finishRunAborted_spec outcome : finish_spec (finishRunAborted now id r elapsed outcome).
Proof. finish. Qed.

Lemma BlockRunWithReason_spec at_ method err st :
  let res := BlockRunWithReason now id r at_ method err elapsed st in
  if is_current st id r then
    res.2 = true ∧ slot_upd id parked st res.1 ∧ runs res.1 = runs st ∧ evolves st res.1
  else res = (st, false).
Proof.
  unfold BlockRunWithReason. destruct (is_current st id r); [|done]. simpl.
  split_and!; [done|slot_tac|done|]. apply evolves_frame; [|done|done].
  intros HK. eapply keyed_sub; [exact HK|..]; try done; simpl; by intros ? ? [_ ?]%lookup_delete_Some.
Qed.
End Ending.

Lemma BlockRetryWithReason_spec now id retry issue at_ method err st :
  let res := BlockRetryWithReason now id retry issue at_ method err st in
  (res = (st, false)) ∨
  (res.2 = true ∧ slot_upd id parked_retry st res.1 ∧ runs res.1 = runs st ∧ evolves st res.1).
Proof.
  unfold BlockRetryWithReason. destruct (RetryAttempts st !! id) as [cur|]; [|by left].
  destruct (Pos.eqb _ _); [|by left]. right.
  destruct (retry_Timer retry); simpl;
  (split_and!; [done|slot_tac|done|]; apply evolves_frame; [|done|done]; intros HK; eapply keyed_sub; [exact HK|..]; try done; simpl;
   by intros ? ? [_ ?]%lookup_delete_Some).
Qed.


(** ** Dispatch *)

Lemma resolveDispatchClaim_cases now id rechecked st :
  let '(consumed, _, _, deny) := resolveDispatchClaim now id rechecked st in
  deny = true ∨
  (consumed = None ∧ slot_claimed (slot st id) = false) ∨
  (∃ e, consumed = Some e ∧ RetryAttempts st !! id = Some e ∧
        retry_Kind e = RetryKindContinuation ∧ IsDue now e = true).
Proof.
  unfold resolveDispatchClaim, dispatchClaimGateAllows. rewrite !IsClaimed_slot.
  destruct rechecked; simpl; [|by destruct (slot_claimed (slot st id)); eauto].
  destruct (RetryAttempts st !! id) as [e|]; [|destruct (slot_claimed (slot st id)); simpl; eauto].
  case_bool_decide as HK; simpl; [by left|].
  destruct (IsDue now e) eqn:HD; simpl; [|by left].
  right. right. exists e. auto.
Qed.

Lemma block_consumed_cases now issue id consumed n st :
  (∀ e, consumed = Some e → RetryAttempts st !! id = Some e) →
  let '(st', blocked) := blockConsumedContinuationIfBudgetExceeded now issue id consumed n st in
  (blocked = false ∧ st' = st) ∨
  (blocked = true ∧ s_retry (slot st id) = true ∧ slot_upd id parked_retry st st' ∧ evolves st st').
Proof.
  intros Hc. unfold blockConsumedContinuationIfBudgetExceeded.
  destruct consumed as [e|]; [|by left].
  destruct (continuationBudgetExceeded _ _); simpl; [|by left].
  specialize (Hc e eq_refl).
  pose proof (BlockRetryWithReason_spec now id e issue now continuationBudgetBlockMethod
    (continuationBudgetError n (MaxContinuationTurns st)) st) as [E|H].
  { exfalso. revert E. unfold BlockRetryWithReason. rewrite Hc, Pos.eqb_refl. done. }
  destruct (BlockRetryWithReason _ _ _ _ _ _ _ _) as [st' ok]. simpl in H.
  destruct H as (-> & HS & _ & HE). right. split_and!; [done| |exact HS|].
  - unfold slot, is_present. simpl. by rewrite Hc.
  - transitivity st'; [done|apply evolves_event].
Qed.

(** The slots of an accepted dispatch; [consumed] is the due continuation it took
    over. *)
Lemma dispatchOp_effect now issue attempt rechecked st :
  let id := iss_ID issue in
  let '(st', res) := dispatchOp_apply now issue attempt rechecked st in
  evolves st st' ∧
  match res with
  | inl _ => slot_same st st' ∨ (s_retry (slot st id) = true ∧ slot_upd id parked_retry st st')
  | inr f =>
      (∃ ca ct budget ws, f = FSpawn id issue attempt ca ct budget ws) ∧
      s_clean (slot st id) = false ∧
      (slot_claimed (slot st id) = false ∨ s_retry (slot st id) = true) ∧
      slot_upd id taken st st' ∧
      RunningCount st < MaxConcurrentAgents st
  end.
Proof.
  cbv zeta. unfold dispatchOp_apply. set (id := iss_ID issue).
  destruct (IsCleaningWorkspace id st) eqn:HC; [split; [done|by left]|].
  destruct (IsOperatorTerminalStopped id st).
  { pose proof (evolves_suppressed now id issue
      "active_candidate_after_operator_terminal_stop" st) as HE.
    pose proof (slot_same_suppressed now id issue
      "active_candidate_after_operator_terminal_stop" st) as HS.
    destruct (RecordOperatorTerminalDispatchSuppressed _ _ _ _ _) as [st' [[e []]|]]; simpl in *;
      (split; [try (transitivity st'; [done|apply evolves_event]); done|left; exact HS]). }
  pose proof (resolveDispatchClaim_cases now id rechecked st) as HR.
  destruct (resolveDispatchClaim now id rechecked st) as [[[consumed ca] ct] deny].
  destruct deny; [split; [done|by left]|].
  assert (∀ e, consumed = Some e → RetryAttempts st !! id = Some e) as Hc.
  { intros e ->. destruct HR as [|[[? _]|(e' & [= <-] & ? & _)]]; done. }
  pose proof (block_consumed_cases now issue id consumed ct st Hc) as HB.
  destruct (blockConsumedContinuationIfBudgetExceeded _ _ _ _ _ _) as [st1 blocked].
  destruct HB as [[-> ->]|(-> & Hr & HS & HE)]; [|split; [done|by right]].
  destruct (Z.leb_spec (MaxConcurrentAgents st) (RunningCount st)); [split; [done|by left]|].
  destruct (StateCapacityFullExcluding _ _ _); [split; [done|by left]|].
  assert (slot_claimed (slot st id) = false ∨ s_retry (slot st id) = true) as Hpre.
  { destruct HR as [|[[_ ?]|(e & _ & E & _)]]; [done|by left|right].
    unfold slot, is_present. simpl. by rewrite E. }
  destruct consumed as [e|]; simpl.
  - split.
    { apply evolves_frame; [|by destruct (retry_Timer e)..]. intros HK.
      eapply keyed_sub; [exact HK|..]; (destruct (retry_Timer e); simpl; try done);
        by intros ? ? [_ ?]%lookup_delete_Some. }
    split_and!; [by repeat eexists|done|done| |done]. destruct (retry_Timer e); slot_tac.
  - split; [by apply evolves_log|].
    split_and!; [by repeat eexists|done|done| |done].
    destruct Hpre as [Hf|Hf].
    + slot_tac. revert Hf. unfold slot_claimed, taken, slot. simpl.
      intros Hf. apply orb_false_iff in Hf as [_ ->]. done.
    + exfalso. destruct HR as [|[[_ Hf']|(e & [=] & _)]]; [done|].
      revert Hf'. unfold slot_claimed. rewrite Hf. by rewrite orb_true_r.
Qed.

Lemma spawn_register_effect now id issue attempt ca ct ws st :
  iss_ID issue = id →
  let '(st', r) := spawn_register now id issue attempt ca ct ws st in
  r = next_ref st ∧ MaxConcurrentAgents st' = MaxConcurrentAgents st ∧
  slot_upd id (fun s => s <| s_run := Some r |>) st st' ∧
  (keyed st → keyed st') ∧
  (∀ r', run_DoneCloses <$> runs st' !! r' =
         if decide (r' = r) then Some 0%nat else run_DoneCloses <$> runs st !! r').
Proof.
  intros Hid. simpl. split_and!; [done|done|slot_tac| |].
  - intros [H1 H2 H3]. split; simpl.
    + intros id' r. rewrite lookup_insert_Some. intros [[<- <-]|[Hne Hr]].
      { eexists. rewrite lookup_insert_eq. split; [done|]. done. }
      destruct (H1 _ _ Hr) as (run & E & ?). exists run.
      rewrite lookup_insert_ne; [done|]. intros <-.
      pose proof (H3 _ (mk_is_Some _ _ E)). lia.
    + done.
    + intros r. rewrite lookup_insert_is_Some'. intros [->|Hr]; [lia|]. apply H3 in Hr. lia.
  - intros r'. case_decide as E; [subst r'; by rewrite lookup_insert_eq|by rewrite lookup_insert_ne].
Qed.

(** ** Worker exit *)

Definition cleanup_keyed (id : IssueID) (f : option Followup) : Prop :=
  f = None ∨ ∃ w c, f = Some (FCleanup w c) ∧ rw_IssueID w = id ∧
    ∀ k, c = Some k → iss_ID (cont_issue k) = id.

(** The four ways a worker exit changes its issue's slot. *)
Inductive exit_outcome (id : IssueID) (st st' : OrchestratorState) : option Followup → Prop :=
| exit_stale : slot_same st st' → exit_outcome id st st' None
| exit_parked : slot_upd id parked st st' → exit_outcome id st st' None
| exit_ended f : slot_upd id ended st st' → cleanup_keyed id f → exit_outcome id st st' f
| exit_held op : slot_upd id held st st' → iss_ID (sr_issue op) = id →
    exit_outcome id st st' (Some (FSchedule op)).

(** What happens to the store: exactly one close of the worker's [Done]. *)
Record closes_once (r : Ref) (st st' : OrchestratorState) : Prop := {
  once_keyed : keyed st → keyed st';
  once_closes r' : run_DoneCloses <$> runs st' !! r' =
    if decide (r' = r) then S <$> (run_DoneCloses <$> runs st !! r) else run_DoneCloses <$> runs st !! r';
  once_max : MaxConcurrentAgents st' = MaxConcurrentAgents st
}.

Section FinalizeEffect.
Context {S0 : Type} (o : Orchestrator S0) (now : Time) (f : finalizeRunOp).
Let id := f_id f.
Let r := f_entry f.

Lemma close_done_once st st1 : evolves st st1 → closes_once r st (close_done f st1).
Proof.
  intros [H1 H2 H3]. split; [|intros r'; unfold close_done; simpl|done].
  - intros HK. apply keyed_upd_run; auto.
  - case_decide as E.
    + subst r'. fold r. rewrite lookup_alter_eq, <- H2. by destruct (runs st1 !! r).
    + rewrite lookup_alter_ne by done. apply H2.
Qed.

(** What a handler promises: the slot outcome when the worker is current or stale,
    and one close. *)
Definition handler_spec (st : OrchestratorState) (res : OrchestratorState * option Followup) : Prop :=
  closes_once r st res.1 ∧
  (keyed st → Running st !! id = Some r → exit_outcome id st res.1 res.2 ∧ ~ slot_same st res.1) ∧
  (Running st !! id ≠ Some r → slot_same st res.1 ∧ res.2 = None).

Lemma current_false st : Running st !! id ≠ Some r → is_current st id r = false.
Proof. intros H. unfold is_current. by rewrite bool_decide_eq_false_2. Qed.

(** A slot update that ends the run is visible. *)
Lemma ends_not_same g st st' :
  Running st !! id = Some r → slot_upd id g st st' → s_run (g (slot st id)) = None →
  ~ slot_same st st'.
Proof.
  intros HR HS Hg Hsame. specialize (HS id). rewrite decide_True in HS by done.
  rewrite Hsame in HS. rewrite <- HS in Hg. simpl in Hg. congruence.
Qed.

Lemma block_handler st st' ok :
  (if is_current st id r then ok = true ∧ slot_upd id parked st st' ∧ runs st' = runs st ∧ evolves st st'
   else (st', ok) = (st, false)) →
  ∀ st2, evolves st' st2 → slot_same st' st2 → handler_spec st (close_done f st2, None).
Proof.
  intros H st2 HE2 HS2. split; [|split]; simpl.
  - apply close_done_once. destruct (is_current st id r).
    + destruct H as (_ & _ & _ & ?). by transitivity st'.
    + by injection H as -> ->.
  - intros _ HR. apply is_current_iff in HR as HC. rewrite HC in H. destruct H as (_ & HS & _ & _).
    pose proof (slot_upd_same_r _ _ _ _ _ HS HS2) as HS'.
    split; [by apply exit_parked|by eapply ends_not_same].
  - intros HR%current_false. rewrite HR in H. injection H as -> ->. auto.
Qed.

Lemma input_required_handler st elapsed st' :
  applyInputRequiredBlock now f st elapsed = Some st' → handler_spec st (st', None).
Proof.
  unfold applyInputRequiredBlock. destruct (_ && _); [done|].
  unfold BlockRun. intros H.
  match type of H with context [BlockRunWithReason ?a ?b ?c ?d ?e ?g ?h ?k] =>
    pose proof (BlockRunWithReason_spec a b c h d e g k) as HB;
    destruct (BlockRunWithReason a b c d e g h k) as [st1 ok] end.
  injection H as <-. eapply block_handler; [exact HB|destruct ok; auto with orch; done..].
Qed.

Lemma budget_handler st elapsed st' :
  applyBudgetExceededBlock now f st elapsed = Some st' → handler_spec st (st', None).
Proof.
  unfold applyBudgetExceededBlock. destruct (negb _); [done|]. intros H.
  match type of H with context [BlockRunWithReason ?a ?b ?c ?d ?e ?g ?h ?k] =>
    pose proof (BlockRunWithReason_spec a b c h d e g k) as HB;
    destruct (BlockRunWithReason a b c d e g h k) as [st1 ok] end.
  injection H as <-. by eapply block_handler; [exact HB|..].
Qed.

(** A finished run that keeps no claim. *)
Lemma ended_handler (op : OrchestratorState → OrchestratorState * bool) st st0 st' fo :
  finish_spec id r op → evolves st st0 → slot_same st st0 → Running st0 = Running st →
  (keyed st → Running st !! id = Some r → cleanup_keyed id fo) →
  (let '(st1, ok) := op st0 in
   if ok then ∃ st2, evolves st1 st2 ∧ slot_same st1 st2 ∧ st' = (close_done f st2, fo)
   else st' = (close_done f st1, None)) →
  handler_spec st st'.
Proof.
  intros Hop HE0 HS0 HR0 Hfo H. specialize (Hop st0). destruct (op st0) as [st1 ok].
  destruct (decide (Running st !! id = Some r)) as [HR|HR].
  - assert (is_current st0 id r = true) as HC by (apply is_current_iff; by rewrite HR0).
    rewrite HC in Hop. simpl in Hop. destruct Hop as (-> & HS1 & _ & HE1).
    destruct H as (st2 & HE2 & HS2 & ->).
    assert (slot_upd id ended st (close_done f st2)) as HS.
    { eapply slot_upd_same_l; [exact HS0|]. by eapply slot_upd_same_r. }
    split; [|split]; simpl; [|intros HK _; split; [by apply exit_ended; auto|by eapply ends_not_same]|done].
    apply close_done_once. etransitivity; [exact HE0|]. by etransitivity.
  - rewrite <- HR0 in HR. apply current_false in HR as HC. rewrite HC in Hop.
    injection Hop as -> ->. subst st'. rewrite HR0 in HR.
    split; [by apply close_done_once|]. split; [done|]. done.
Qed.

(** A finished run whose claim is held for the reschedule. *)
Lemma held_handler (op : OrchestratorState → OrchestratorState * bool) st st' :
  finish_spec id r op →
  (let '(st1, ok) := op st in
   if ok then ∃ st2 i sop, evolves st1 st2 ∧ slot_same st1 st2 ∧ runs st2 = runs st1 ∧
     st' = (close_done f (hold_claim id i st2), Some (FSchedule sop)) ∧
     sr_issue sop = run_Issue (deref st2 r)
   else st' = (close_done f st1, None)) →
  handler_spec st st'.
Proof.
  intros Hop H. specialize (Hop st). destruct (op st) as [st1 ok].
  destruct (decide (Running st !! id = Some r)) as [HR|HR].
  - apply is_current_iff in HR as HC. rewrite HC in Hop. simpl in Hop.
    destruct Hop as (-> & HS1 & Hr1 & HE1).
    destruct H as (st2 & i & sop & HE2 & HS2 & Hr2 & -> & Hi).
    assert (slot_upd id held st (close_done f (hold_claim id i st2))) as HS.
    { eapply (slot_upd_eq id ((fun s => s <| s_claimed := true |>) ∘ ended)); [|done].
      apply (slot_upd_trans id ended _ st st2); [by eapply slot_upd_same_r|]. slot_tac. }
    split; [|split]; simpl; [| |done].
    + apply close_done_once. etransitivity; [exact HE1|]. etransitivity; [exact HE2|].
      by apply evolves_log.
    + intros HK _. split; [|by eapply ends_not_same]. apply exit_held; [exact HS|].
      rewrite Hi. unfold deref. rewrite Hr2, Hr1. by apply keyed_deref.
  - apply current_false in HR as HC. rewrite HC in Hop. injection Hop as -> ->. subst st'.
    split; [by apply close_done_once|]. done.
Qed.

Lemma cleanup_followup_keyed entry c :
  (∀ k, c = Some k → iss_ID (cont_issue k) = id) →
  cleanup_keyed id (reconciledWorkspaceCleanupFollowup o id entry c).
Proof.
  intros Hc. unfold reconciledWorkspaceCleanupFollowup, terminalWorkspaceForCleanup.
  destruct (negb _); [by left|]. destruct (String.eqb _ _); [by left|].
  destruct (o_workspaceCleaner o); [|by left]. right. do 2 eexists. by split_and!.
Qed.

Lemma progress_stop_evolves st : evolves st (recordProgressStop now f st).
Proof. by apply evolves_log. Qed.
Lemma handoff_stop_evolves st : evolves st (recordAgentHandoffStop now f st).
Proof. by apply evolves_log. Qed.

Lemma terminal_self_stop_handler st elapsed b snap :
  handler_spec st (applyTerminalSelfStop o now f st elapsed b snap).
Proof.
  unfold applyTerminalSelfStop.
  set (issue := if negb _ then _ else _).
  set (sta := if negb (blank (snap_State snap)) then _ else st).
  set (stb := if b then _ else sta).
  set (stc := upd_run _ _ stb).
  assert (evolves st sta ∧ Running sta = Running st ∧ slot_same st sta) as (HEa & HRa & HSa).
  { unfold sta. destruct (negb (blank (snap_State snap))) eqn:EN; [|done].
    split; [|done]. split; [|intros; by apply closes_upd_run|done].
    intros HK. apply keyed_upd_run; [done|]. intros run Hr. unfold issue. simpl.
    unfold deref. by rewrite Hr. }
  assert (evolves sta stb ∧ Running stb = Running sta ∧ slot_same sta stb) as (HEb & HRb & HSb).
  { unfold stb. destruct b; [|done].
    split_and!; [apply evolves_stop_event|apply stop_event_frame|apply slot_same_stop_event]. }
  assert (evolves stb stc) as HEc by (by apply evolves_upd_run).
  apply (ended_handler (finishRunAborted now id r elapsed "terminal_self_stop") st stc _
    (reconciledWorkspaceCleanup o id (deref stc r)));
    [apply finishRunAborted_spec| | | | |].
  - etransitivity; [exact HEa|]. by etransitivity.
  - eapply slot_same_trans; [exact HSa|exact HSb].
  - change (Running stc) with (Running stb). congruence.
  - intros _ _. by apply cleanup_followup_keyed.
  - unfold FinishRunTerminalSelfStop. fold id r.
    destruct (finishRunAborted now id r elapsed "terminal_self_stop" stc) as [st1 []]; [|done].
    by exists st1.
Qed.

Lemma failure_handler e st elapsed : handler_spec st (applyFailureRetry now f e st elapsed).
Proof.
  apply (held_handler (finishRunAborted now id r elapsed "failed")); [apply finishRunAborted_spec|].
  unfold applyFailureRetry, FinishRunFailed. fold id r.
  destruct (finishRunAborted now id r elapsed "failed" st) as [st1 []]; [|done].
  do 3 eexists. split_and!; [apply evolves_event|done|done|reflexivity|done].
Qed.

Lemma quota_handler e st elapsed res :
  applyQuotaBackoff now f e st elapsed = Some res → handler_spec st res.
Proof.
  unfold applyQuotaBackoff. destruct (as_quota e) as [[m after]|]; [|done]. intros H.
  apply (held_handler (finishRunAborted now id r elapsed "failed")); [apply finishRunAborted_spec|].
  unfold FinishRunFailed in H. fold id r in H.
  destruct (finishRunAborted now id r elapsed "failed" st) as [st1 []]; simplify_eq; [|done].
  do 3 eexists. split_and!; [apply evolves_event|done|done|reflexivity|done].
Qed.

Lemma cancel_cleanup_handler st elapsed res :
  applyReconciledCancelCleanup o now f st elapsed = Some res → handler_spec st res.
Proof.
  unfold applyReconciledCancelCleanup. destruct (_ || _); [done|]. intros H.
  apply (ended_handler (finishRunAborted now id r elapsed "reconcile_ineligible") st st _
    (reconciledWorkspaceCleanup o id (deref st r))); [apply finishRunAborted_spec|done|done|done| |].
  { intros _ _. by apply cleanup_followup_keyed. }
  unfold FinishRunReconciledCancelled in H. fold id r in H.
  destruct (finishRunAborted now id r elapsed "reconcile_ineligible" st) as [st1 []];
    simplify_eq; [|done].
  eexists. split_and!; [|  |reflexivity]; [|by destruct (runHasCurrentIssueHandoff _)].
  destruct (runHasCurrentIssueHandoff _); [|apply progress_stop_evolves].
  etransitivity; [apply progress_stop_evolves|apply handoff_stop_evolves].
Qed.

Lemma reconcile_cancel_handler st elapsed res :
  applyReconcileCancel o now f st elapsed = Some res → handler_spec st res.
Proof.
  unfold applyReconcileCancel. destruct (negb _); [done|]. intros H.
  apply (ended_handler (finishRunAborted now id r elapsed "reconcile_ineligible") st st _
    (reconciledWorkspaceCleanup o id (deref st r))); [apply finishRunAborted_spec|done|done|done| |].
  { intros _ _. by apply cleanup_followup_keyed. }
  unfold FinishRunReconciledCancelled in H. fold id r in H.
  destruct (finishRunAborted now id r elapsed "reconcile_ineligible" st) as [st1 []];
    simplify_eq; [|done].
  eexists. split_and!; [|  |reflexivity];
    destruct (runHasCompletedTurn _), (runHasCurrentIssueHandoff _); try done;
    try apply progress_stop_evolves; try apply handoff_stop_evolves.
  etransitivity; [apply progress_stop_evolves|apply handoff_stop_evolves].
Qed.

Lemma clean_continuation_handler st elapsed attempt turns :
  handler_spec st
    (let '(st1, ok) := finishCleanContinuation now f st elapsed in
     if ok then
       let entry := deref st1 (f_entry f) in
       let issue := run_Issue entry in
       (close_done f (hold_claim (f_id f) issue st1),
        Some (FSchedule (scheduleContinuationRetry issue (f_identifier f) attempt turns
                (run_Workspace entry))))
     else (close_done f st1, None)).
Proof.
  unfold finishCleanContinuation. destruct (shouldRecordActiveSuccessNoHandoff f st).
  - apply (held_handler (FinishRunActiveSuccessNoHandoff now id r elapsed));
      [apply FinishRunActiveSuccessNoHandoff_spec|]. fold id r.
    destruct (FinishRunActiveSuccessNoHandoff now id r elapsed st) as [st1 []]; [|done].
    do 3 eexists. split_and!; [|  | |reflexivity|]; done || by apply evolves_log.
  - apply (held_handler (FinishRunSucceeded now id r elapsed)); [apply FinishRunSucceeded_spec|].
    fold id r. destruct (FinishRunSucceeded now id r elapsed st) as [st1 []]; [|done].
    do 3 eexists. split_and!; [|  | |reflexivity|]; done || by apply evolves_log.
Qed.

Lemma clean_exit_handler st elapsed : handler_spec st (applyCleanExit o now f st elapsed).
Proof.
  unfold applyCleanExit. cbv zeta.
  match goal with |- handler_spec st (match _ with Some _ => if _ then _ else ?c | None => _ end) =>
    assert (handler_spec st c) as HC end.
  { destruct (_ && _).
    - apply (ended_handler (FinishRunSucceeded now id r elapsed) st st _
        (reconciledWorkspaceCleanupOrContinuation o id (deref st r)
           (run_ContinuationAttempt (deref st r) +i 1)));
        [apply FinishRunSucceeded_spec|done|done|done| |].
      + intros HK HR. apply cleanup_followup_keyed. intros k [= <-]. by apply keyed_deref.
      + fold id r. destruct (FinishRunSucceeded now id r elapsed st) as [st1 []]; [|done].
        eexists. split_and!; [apply evolves_event|done|reflexivity].
    - destruct (shouldBlockContinuationBudget _ _ _); [|apply clean_continuation_handler].
      unfold applyContinuationBudgetBlock.
      match goal with |- context [BlockRunWithReason ?a ?b ?c ?d ?e ?g ?h ?k] =>
        pose proof (BlockRunWithReason_spec a b c h d e g k) as HB;
        destruct (BlockRunWithReason a b c d e g h k) as [st1 ok] end.
      eapply block_handler; [exact HB|destruct ok; auto with orch; done..]. }
  destruct (wr_IssueExitState (f_result f)) as [snap|]; [|exact HC].
  destruct (snap_Terminal snap); [|exact HC]. apply terminal_self_stop_handler.
Qed.

(** [finalizeRunOp.apply]: whatever the worker's result. *)
Lemma finalizeRunOp_spec st : handler_spec st (finalizeRunOp_apply o now f st).
Proof.
  unfold finalizeRunOp_apply. cbv zeta.
  destruct (applyInputRequiredBlock _ _ _ _) eqn:E1; [by eapply input_required_handler|].
  destruct (applyBudgetExceededBlock _ _ _ _) eqn:E2; [by eapply budget_handler|].
  destruct (wr_Err (f_result f)); [|apply clean_exit_handler].
  destruct (applyReconciledCancelCleanup _ _ _ _ _) eqn:E3; [by eapply cancel_cleanup_handler|].
  destruct (applyQuotaBackoff _ _ _ _ _) eqn:E4; [by eapply quota_handler|].
  destruct (applyReconcileCancel _ _ _ _ _) eqn:E5; [by eapply reconcile_cancel_handler|].
  apply failure_handler.
Qed.
End FinalizeEffect.

(** ** Scheduling and fired retries *)

Lemma scheduleRetryOp_effect {S0} `{!Scheduler S0} (o : Orchestrator S0) now s st :
  let st' := scheduleRetryOp_apply o now s st in
  slot_upd (iss_ID (sr_issue s)) queued st st' ∧ evolves st st'.
Proof.
  cbv zeta. unfold scheduleRetryOp_apply.
  set (entry := Build_RetryEntry _ _ _ _ _ _ _ _ _ _ _ _ _).
  set (st1 := st <| next_ref ::= Pos.succ |> <| timers ::= _ |>).
  split; [exact (slot_schedule entry st1)|].
  apply evolves_frame.
  - intros [H1 H2 H3]. apply keyed_schedule; [|done]. split; simpl; auto.
    intros r Hr%H3. lia.
  - unfold ScheduleRetry. destruct (RetryAttempts st1 !! _) as [e|]; [by destruct (retry_Timer e)|done].
  - unfold ScheduleRetry. destruct (RetryAttempts st1 !! _) as [e|]; [by destruct (retry_Timer e)|done].
Qed.

(** What a fired retry can do to its issue's slot. *)
Inductive fire_outcome (id : IssueID) (st st' : OrchestratorState) : option Followup → Prop :=
| fire_none : slot_same st st' → fire_outcome id st st' None
| fire_wake : slot_same st st' → fire_outcome id st st' (Some FWakePoll)
| fire_fetch attempt kind identifier : slot_same st st' → s_retry (slot st id) = true →
    fire_outcome id st st' (Some (FCandidateFetch id attempt kind identifier))
| fire_defer op : slot_same st st' → s_retry (slot st id) = true → iss_ID (sr_issue op) = id →
    fire_outcome id st st' (Some (FSchedule op))
| fire_release f : slot_upd id release st st' → s_retry (slot st id) = true →
    cleanup_keyed id f → fire_outcome id st st' f
| fire_spawn issue attempt ca ct b ws : slot_upd id unqueued st st' →
    s_retry (slot st id) = true → iss_ID issue = id →
    RunningCount st < MaxConcurrentAgents st →
    fire_outcome id st st' (Some (FSpawn id issue attempt ca ct b ws)).

Lemma matchingRetryEntry_Some st id attempt kind e :
  matchingRetryEntry st id attempt kind = Some e →
  RetryAttempts st !! id = Some e ∧ retry_Attempt e = attempt ∧ retry_Kind e = kind.
Proof.
  unfold matchingRetryEntry. destruct (RetryAttempts st !! id) as [e'|]; [|done].
  destruct (Z.eqb_spec (retry_Attempt e') attempt); [|done]. simpl.
  case_bool_decide; [done|]. by intros [= <-].
Qed.

Lemma s_retry_Some st id e : RetryAttempts st !! id = Some e → s_retry (slot st id) = true.
Proof. intros E. simpl. unfold is_present. by rewrite E. Qed.

Section RetryEffect.
Context {S0 : Type} (o : Orchestrator S0) (now : Time).

Lemma deferred_reschedule_keyed entry kind attempt err :
  ∃ op, deferred_reschedule now entry kind attempt err = FSchedule op ∧
        sr_issue op = retry_Issue entry.
Proof. unfold deferred_reschedule. case_decide; by eexists. Qed.

Lemma suppress_effect entry id st :
  let '(st', b) := suppressRetryFireAfterOperatorStop now entry id st in
  evolves st st' ∧ if b then slot_upd id release st st' else st' = st.
Proof.
  unfold suppressRetryFireAfterOperatorStop.
  destruct (IsOperatorTerminalStopped id st); simpl; [|done].
  pose proof (evolves_suppressed now id (retry_Issue entry)
    "retry_fire_after_operator_terminal_stop" st) as HE.
  pose proof (slot_same_suppressed now id (retry_Issue entry)
    "retry_fire_after_operator_terminal_stop" st) as HS.
  destruct (RecordOperatorTerminalDispatchSuppressed _ _ _ _ _) as [st' res].
  set (st2 := match res with Some (_, true) => _ | _ => st' end).
  assert (evolves st' st2 ∧ slot_same st' st2) as [HE2 HS2].
  { unfold st2. destruct res as [[? []]|]; auto with orch; split; auto with orch; done. }
  split.
  - transitivity st'; [done|]. transitivity st2; [done|]. apply evolves_release.
  - eapply slot_upd_same_l; [|apply slot_release]. by eapply slot_same_trans.
Qed.

Lemma capacityDeferRetry_effect id entry attempt st st' fo :
  capacityDeferRetry o now id entry attempt st = (st', fo) →
  evolves st st' ∧ slot_same st st' ∧
  (fo = None ∨ ∃ op, fo = Some (FSchedule op) ∧ sr_issue op = retry_Issue entry).
Proof.
  unfold capacityDeferRetry. destruct (o_runCtxErr o); intros [= <- <-].
  - split_and!; [done|done|by left].
  - split_and!; [apply evolves_event|done|right].
    destruct (deferred_reschedule_keyed entry (retry_Kind entry) attempt
      "no available orchestrator slots") as (op & -> & ?). eauto.
Qed.

Lemma dispatch_tail_effect entry id attempt st st' fo :
  retryFireDispatchTail o now entry id attempt st = (st', fo) →
  iss_ID (retry_Issue entry) = id → s_retry (slot st id) = true →
  evolves st st' ∧ fire_outcome id st st' fo.
Proof.
  unfold retryFireDispatchTail. intros H Hid Hr.
  pose proof (suppress_effect entry id st) as HS.
  destruct (suppressRetryFireAfterOperatorStop now entry id st) as [st1 b].
  destruct HS as [HE HS]. destruct b; simplify_eq.
  { split; [done|]. apply fire_release; [done|done|by left]. }
  assert (∀ st' fo, capacityDeferRetry o now (iss_ID (retry_Issue entry)) entry attempt st = (st', fo) →
    evolves st st' ∧ fire_outcome (iss_ID (retry_Issue entry)) st st' fo) as HD.
  { intros st2 fo2 (HE2 & HS2 & [->|(op & -> & Hop)])%capacityDeferRetry_effect; (split; [done|]).
    - by apply fire_none.
    - apply fire_defer; [done|done|by rewrite Hop]. }
  destruct (Z.leb_spec (MaxConcurrentAgents st) (RunningCount st)); [by apply HD|].
  destruct (StateCapacityFull _ _); [by apply HD|].
  injection H as <- <-. split.
  - apply evolves_frame; [|done|done]. intros HK. eapply keyed_sub; [exact HK|..]; try done.
    simpl. by intros ? ? [_ ?]%lookup_delete_Some.
  - apply fire_spawn; [slot_tac|done|done|done].
Qed.

Lemma clear_timer_effect id st : evolves st (clear_timer id st) ∧ slot_same st (clear_timer id st).
Proof.
  split.
  - apply evolves_frame; [|done|done]. intros [H1 H2 H3]. split; simpl; auto. intros id' e.
    rewrite lookup_alter_Some. intros [(<- & e' & E & ->)|[_ E]]; [|eauto]. simpl. eauto.
  - intros id'. unfold slot. simpl. by rewrite is_present_alter.
Qed.

Lemma retryFireOp_effect fire st st' fo :
  retryFireOp_apply o now fire st = (st', fo) → keyed st →
  evolves st st' ∧ fire_outcome (rf_id fire) st st' fo.
Proof.
  unfold retryFireOp_apply. intros H HK.
  destruct (matchingRetryEntry _ _ _ _) as [e|] eqn:EM;
    [|injection H as <- <-; split; [done|by apply fire_none]].
  apply matchingRetryEntry_Some in EM as (EM & _ & _).
  pose proof (s_retry_Some _ _ _ EM) as Hr.
  destruct (clear_timer_effect (rf_id fire) st) as [HE HS].
  case_decide; [|destruct (o_candidateLister o)].
  - injection H as <- <-. split; [done|by apply fire_wake].
  - injection H as <- <-. split; [done|by apply fire_fetch].
  - eapply dispatch_tail_effect; [done|by eapply keyed_retry|done].
Qed.

Lemma retryPollFailedOp_effect id attempt kind err st st' fo :
  retryPollFailedOp_apply o now id attempt kind err st = (st', fo) → keyed st →
  evolves st st' ∧ fire_outcome id st st' fo.
Proof.
  unfold retryPollFailedOp_apply. intros H HK.
  destruct (matchingRetryEntry _ _ _ _) as [e|] eqn:EM;
    [|injection H as <- <-; split; [done|by apply fire_none]].
  apply matchingRetryEntry_Some in EM as (EM & _ & _).
  destruct (o_runCtxErr o); injection H as <- <-; [split; [done|by apply fire_none]|].
  split; [apply evolves_event|].
  edestruct (deferred_reschedule_keyed e kind attempt) as (op & -> & Hop).
  apply fire_defer; [done|by eapply s_retry_Some|]. rewrite Hop. by eapply keyed_retry.
Qed.

(** The refreshed entry keeps its slot, its key and its issue's id. *)
Lemma refreshed_entry id e e' i st :
  RetryAttempts st !! id = Some e → iss_ID (retry_Issue e') = id →
  let st' := st <| RetryAttempts ::= insert id e' |> <| ClaimedIssues ::= insert id i |> in
  slot_same st st' ∧ evolves st st'.
Proof.
  intros E Hi st'. pose proof (s_retry_Some _ _ _ E) as Hr. split.
  - intros id'. unfold st', slot. simpl. rewrite is_present_insert.
    destruct (decide (id' = id)) as [->|Hne]; [|by rewrite (bool_decide_eq_false_2 (@eq string _ _))].
    simpl in Hr. by rewrite Hr, orb_true_r.
  - apply evolves_frame; [|done|done]. intros [K1 K2 K3]. split; simpl; auto. intros id' x.
    rewrite lookup_insert_Some. intros [[<- <-]|[_ ?]]; [done|eauto].
Qed.

(** An outcome seen from a state with the same slots. *)
Lemma fire_outcome_same id st st1 st' fo :
  slot_same st st1 → MaxConcurrentAgents st1 = MaxConcurrentAgents st →
  fire_outcome id st1 st' fo → fire_outcome id st st' fo.
Proof.
  intros HS HM [H|H| | | |]; try rewrite (HS id) in *.
  - apply fire_none. by eapply slot_same_trans.
  - apply fire_wake. by eapply slot_same_trans.
  - apply fire_fetch; [by eapply slot_same_trans|done].
  - apply fire_defer; [by eapply slot_same_trans|done|done].
  - apply fire_release; [by eapply slot_upd_same_l|done|done].
  - apply fire_spawn; [by eapply slot_upd_same_l|done|done|]. by rewrite <- (RunningCount_same _ _ HS), <- HM.
Qed.

Lemma retry_released id e m st st0 :
  evolves st st0 → slot_same st st0 →
  let st1 := RecordEvent now (event RuntimeEventFailed id (retry_Identifier e) m) (ReleaseClaim id st0) in
  evolves st st1 ∧ slot_upd id release st st1.
Proof.
  intros HE HS. split.
  - transitivity st0; [done|]. etransitivity; [apply evolves_release|apply evolves_event].
  - eapply slot_upd_same_l; [exact HS|]. exact (slot_release id st0).
Qed.

Lemma retryFireAfterFetchOp_effect id attempt kind found terminal st st' fo :
  retryFireAfterFetchOp_apply o now id attempt kind found terminal st = (st', fo) →
  (∀ i, found = Some i → iss_ID i = id) → keyed st →
  evolves st st' ∧ fire_outcome id st st' fo.
Proof.
  unfold retryFireAfterFetchOp_apply. intros H Hf HK.
  destruct (matchingRetryEntry _ _ _ _) as [e|] eqn:EM;
    [|injection H as <- <-; split; [done|by apply fire_none]].
  apply matchingRetryEntry_Some in EM as (EM & _ & _). pose proof (s_retry_Some _ _ _ EM) as Hr.
  destruct found as [i|].
  - specialize (Hf i eq_refl). cbv zeta in H.
    set (e2 := if String.eqb (TrimSpace (iss_Identifier i)) "" then _ else _) in H.
    assert (retry_Issue e2 = i) as He2 by (unfold e2; by destruct (String.eqb _ _)).
    destruct (refreshed_entry id e e2 i st EM) as [HS1 HE1]; [by rewrite He2|].
    apply dispatch_tail_effect in H as [HE H]; [|by rewrite He2|by rewrite HS1].
    split; [by etransitivity|by eapply fire_outcome_same; [exact HS1| |exact H]].
  - destruct terminal as [s|].
    + set (st0 := recordOperatorTerminalStop _ _ _ _) in H.
      assert (evolves st st0) as HE0 by apply evolves_stop_event.
      assert (slot_same st st0) as HS0 by apply slot_same_stop_event.
      unfold terminalWorkspaceForCleanup in H.
      destruct (String.eqb _ _); injection H as <- <-;
        (edestruct (retry_released id e) as [HE2 HS2]; [exact HE0|exact HS0|]; split; [exact HE2|];
         apply fire_release; [exact HS2|done|]); [by left|].
      right. do 2 eexists. by split_and!.
    + injection H as <- <-. destruct (retry_released id e
        "retry released: issue absent from active candidates" st st) as [HE2 HS2]; [done|done|].
      split; [exact HE2|].
      apply fire_release; [exact HS2|done|by left].
Qed.
End RetryEffect.

(** ** Tracker reconciliation *)

(** A slot that some map of the state holds. *)
Definition slot_owned (s : Slot) : bool :=
  bool_decide (is_Some (s_run s)) || s_retry s || s_blocked s.

(** Every slot is untouched, or was owned and lost its claim. *)
Definition sheds (st st' : OrchestratorState) : Prop :=
  ∀ id, slot st' id = slot st id ∨
        (slot st' id = release (slot st id) ∧ slot_owned (slot st id) = true).

#[export] Instance sheds_preorder : PreOrder sheds.
Proof.
  split; [by left|]. intros x y z H1 H2 id.
  destruct (H1 id) as [E1|[E1 O1]], (H2 id) as [E2|[E2 O2]]; rewrite E2, E1.
  - by left.
  - right. by rewrite <- E1.
  - by right.
  - right. split; [done|done].
Qed.

Lemma sheds_same st st' : slot_same st st' → sheds st st'.
Proof. intros H id. by left. Qed.

Lemma sheds_release id st : slot_owned (slot st id) = true → sheds st (ReleaseClaim id st).
Proof. intros H id'. rewrite (slot_release id st id'). case_decide; [subst; by right|by left]. Qed.

Lemma owned_running st id r : Running st !! id = Some r → slot_owned (slot st id) = true.
Proof. intros H. unfold slot_owned. simpl. rewrite H. by rewrite bool_decide_eq_true_2. Qed.
Lemma owned_retry st id e : RetryAttempts st !! id = Some e → slot_owned (slot st id) = true.
Proof. intros H%s_retry_Some. unfold slot_owned. by rewrite H, orb_true_r. Qed.
Lemma owned_blocked st id b : Blocked st !! id = Some b → slot_owned (slot st id) = true.
Proof. intros H. unfold slot_owned, slot, is_present. simpl. by rewrite H, orb_true_r. Qed.

Lemma patchTrackerIssueState_ID id issue narrow :
  iss_ID issue = id → iss_ID narrow = id → iss_ID (patchTrackerIssueState issue narrow) = id.
Proof.
  intros H1 H2. unfold patchTrackerIssueState.
  destruct (String.eqb (iss_ID issue) ""), (iss_BlockedBy narrow); simpl;
    repeat (destruct (String.eqb _ ""); simpl); done.
Qed.

Lemma activeNarrow_Some issues active id i :
  activeNarrow issues active id = Some i → issues !! id = Some i.
Proof. unfold activeNarrow. destruct (issues !! id); [|done]. by destruct (isActiveTrackerState _ _). Qed.

(** A step that keeps every slot and respects the store. *)
Definition quiet (st st' : OrchestratorState) : Prop := slot_same st st' ∧ evolves st st'.

#[export] Instance quiet_preorder : PreOrder quiet.
Proof.
  split; [done|]. intros x y z [A1 A2] [B1 B2].
  split; [by eapply slot_same_trans|by transitivity y].
Qed.

Lemma quiet_event now ev st : quiet st (RecordEvent now ev st).
Proof. split; [done|apply evolves_event]. Qed.

Lemma quiet_claimed_issues f st : quiet st (st <| ClaimedIssues ::= f |>).
Proof. split; [done|by apply evolves_log]. Qed.

Lemma quiet_retry_issue id e issue st :
  RetryAttempts st !! id = Some e → iss_ID issue = id →
  quiet st (st <| RetryAttempts ::= insert id (e <| retry_Issue := issue |>) |>).
Proof.
  intros HE HI. split.
  - intros id'. unfold slot. simpl. rewrite is_present_insert.
    destruct (decide (id' = id)) as [->|Hne]; [|by rewrite (bool_decide_eq_false_2 (@eq string _ _))].
    pose proof (s_retry_Some _ _ _ HE) as Hr. simpl in Hr. by rewrite Hr, orb_true_r.
  - apply evolves_frame; [|done|done]. intros [K1 K2 K3]. split; simpl; auto. intros id' e'.
    rewrite lookup_insert_Some. intros [[<- <-]|[_ ?]]; [done|eauto].
Qed.

Lemma quiet_blocked id b st :
  is_Some (Blocked st !! id) → quiet st (st <| Blocked ::= insert id b |>).
Proof.
  intros HB. split; [|by apply evolves_log]. intros id'. unfold slot. simpl. rewrite is_present_insert.
  destruct (decide (id' = id)) as [->|Hne]; [|by rewrite (bool_decide_eq_false_2 (@eq string _ _))].
  apply is_present_iff in HB. by rewrite HB, orb_true_r.
Qed.

Lemma quiet_patch_claimed id narrow fallback st : quiet st (patchClaimedIssue id narrow fallback st).
Proof. unfold patchClaimedIssue. destruct (ClaimedIssues st !! id); apply quiet_claimed_issues. Qed.

(** [range_map] with a body that is quiet on the visited entries. *)
Lemma range_map_quiet {V} (get : OrchestratorState → gmap string V) body ks st :
  (∀ k v st, keyed st → get st !! k = Some v → quiet st (body k v st)) →
  keyed st → quiet st (range_map get body ks st).
Proof.
  intros Hb HK. apply (range_map_inv get body (λ s, quiet st s)); [done|].
  intros k v s Hs Hv. transitivity s; [done|]. apply Hb; [|done].
  by apply (evolves_keyed st s); [apply Hs|].
Qed.

Section PatchEffect.
Context (issuesByID : gmap string Issue) (activeStates : gset string).
Context (Hwk : well_keyed issuesByID).

Lemma patchActive_quiet ord st :
  keyed st → quiet st (patchActiveClaimedTrackerIssueStatesOp_apply issuesByID activeStates ord st).
Proof.
  intros HK. unfold patchActiveClaimedTrackerIssueStatesOp_apply.
  set (st1 := patchRunning _ _ _ st). set (st2 := patchRetries _ _ _ st1).
  assert (quiet st st1) as Q1.
  { apply range_map_quiet; [|done]. intros id r s HKs HR.
    destruct (activeNarrow issuesByID activeStates id) as [n|] eqn:E; [|done].
    apply activeNarrow_Some, Hwk in E. cbv zeta.
    set (s1 := upd_run _ _ s). transitivity s1; [|apply quiet_patch_claimed].
    split; [done|]. apply evolves_upd_run; [|done]. intros run Hr. simpl.
    destruct (keyed_running s HKs id r HR) as (run' & Hr' & Hid). simplify_eq.
    by apply patchTrackerIssueState_ID. }
  assert (keyed st1) as HK1 by (apply Q1, HK).
  assert (quiet st1 st2) as Q2.
  { apply range_map_quiet; [|done]. intros id e s HKs HR.
    destruct (activeNarrow issuesByID activeStates id) as [n|] eqn:E; [|done].
    apply activeNarrow_Some, Hwk in E. cbv zeta.
    etransitivity; [|apply quiet_patch_claimed]. apply quiet_retry_issue; [done|].
    apply patchTrackerIssueState_ID; [|done]. by apply (keyed_retry s HKs). }
  transitivity st1; [done|]. transitivity st2; [done|].
  apply range_map_quiet; [|by apply Q2]. intros id b s HKs HB.
  destruct (activeNarrow issuesByID activeStates id) as [n|] eqn:E; [|done]. cbv zeta.
  etransitivity; [|apply quiet_patch_claimed]. apply quiet_blocked. eauto.
Qed.

Lemma refreshActive_quiet ord st :
  keyed st → quiet st (refreshActiveTrackerIssuesOp_apply issuesByID activeStates ord st).
Proof.
  intros HK. unfold refreshActiveTrackerIssuesOp_apply. cbv zeta.
  set (st1 := range_map Running _ _ st). set (st2 := range_map RetryAttempts _ _ st1).
  assert (quiet st st1) as Q1.
  { apply range_map_quiet; [|done]. intros id r s HKs HR.
    destruct (activeNarrow issuesByID activeStates id) as [i|] eqn:E; [|done].
    apply activeNarrow_Some, Hwk in E.
    etransitivity; [apply (quiet_claimed_issues (insert id i))|].
    split; [done|]. by eapply evolves_upd_run_at. }
  assert (quiet st1 st2) as Q2.
  { apply range_map_quiet; [|by apply Q1]. intros id e s HKs HR.
    destruct (activeNarrow issuesByID activeStates id) as [i|] eqn:E; [|done].
    apply activeNarrow_Some, Hwk in E.
    etransitivity; [apply (quiet_claimed_issues (insert id i))|]. by apply quiet_retry_issue. }
  transitivity st1; [done|]. transitivity st2; [done|].
  apply range_map_quiet; [|by apply Q2, Q1]. intros id b s HKs HB.
  destruct (activeNarrow issuesByID activeStates id) as [i|] eqn:E; [|done].
  etransitivity; [apply (quiet_claimed_issues (insert id i))|]. apply quiet_blocked. eauto.
Qed.
End PatchEffect.

(** Passes that carry an accumulator next to the state. *)
Lemma range_map_pair {V A} (get : OrchestratorState → gmap string V)
    (body : string → V → OrchestratorState * A → OrchestratorState * A)
    (R : OrchestratorState → OrchestratorState → Prop) (Q : A → Prop) `{!PreOrder R} ks st a :
  (∀ st st', R st st' → evolves st st') →
  (∀ k v st a, keyed st → get st !! k = Some v → Q a →
     R st (body k v (st, a)).1 ∧ Q (body k v (st, a)).2) →
  keyed st → Q a →
  R st (range_map (fun s => get s.1) body ks (st, a)).1 ∧
  Q (range_map (fun s => get s.1) body ks (st, a)).2.
Proof.
  intros HE Hb HK Ha.
  apply (range_map_inv (fun s => get s.1) body (λ s, R st s.1 ∧ Q s.2)); [done|].
  intros k v [s b] [Hs HQ] Hv. simpl in *.
  destruct (Hb k v s b) as [H1 H2]; [|done|done|split; [by transitivity s|done]].
  by apply (HE st s Hs).
Qed.

Lemma quiet_upd_run r f st :
  (∀ run, run_Issue (f run) = run_Issue run ∧ run_DoneCloses (f run) = run_DoneCloses run) →
  quiet st (upd_run r f st).
Proof.
  intros H. split; [done|].
  apply evolves_upd_run; intros run; [intros _|]; destruct (H run) as [H1 H2]; by rewrite ?H1, ?H2.
Qed.

Lemma reconcileStalledRuns_quiet now opNow timeout ord st :
  keyed st → quiet st (reconcileStalledRunsOp_apply now opNow timeout ord st).1.
Proof.
  intros HK. unfold reconcileStalledRunsOp_apply.
  pose proof (range_map_pair Running (fun id r '(st, canceled) =>
      let run := deref st r in
      if run_BudgetExceeded run || run_StallCanceled run then (st, canceled)
      else if negb (isStalled opNow timeout run) then (st, canceled)
      else
        let st := upd_run r (fun run => run <| run_StallCanceled := true |>) st in
        (RecordEvent now (event RuntimeEventFailed id (run_Identifier run) "stalled") st,
         canceled ++ [r])) quiet (fun _ : list Ref => True) ord st []) as H.
  destruct (range_map _ _ _ _) as [st' c]. apply H; [by intros ? ? []| |done|done].
  intros id r s a HKs HR _. split; [|done]. cbv zeta.
  destruct (_ || _); [done|]. destruct (negb _); [done|].
  etransitivity; [|apply quiet_event]. by apply quiet_upd_run.
Qed.

Lemma markBudget_quiet clock now r st : quiet st (markBudgetExceededIfNeeded clock now r st).1.
Proof.
  unfold markBudgetExceededIfNeeded. destruct (run_BudgetExceeded _); [done|].
  destruct (budgetExceededMessage _ _ _); [|done]. simpl.
  etransitivity; [|apply quiet_event]. by apply quiet_upd_run.
Qed.

Lemma reconcileBudget_quiet clock now ord st :
  keyed st → quiet st (reconcileBudgetExceededRunsOp_apply clock now ord st).1.
Proof.
  intros HK. unfold reconcileBudgetExceededRunsOp_apply.
  pose proof (range_map_pair Running (fun _ r '(st, canceled) =>
      if run_BudgetExceeded (deref st r) then (st, canceled ++ [r])
      else
        let '(st, marked) := markBudgetExceededIfNeeded clock now r st in
        (st, if marked then canceled ++ [r] else canceled)) quiet (fun _ : list Ref => True) ord st [])
    as H.
  destruct (range_map _ _ _ _) as [st' c]. apply H; [by intros ? ? []| |done|done].
  intros id r s a HKs HR _. split; [|done].
  destruct (run_BudgetExceeded _); [done|]. pose proof (markBudget_quiet clock now r s) as Q.
  by destruct (markBudgetExceededIfNeeded clock now r s).
Qed.

(** A pass that may release claims. *)
Definition releasing (st st' : OrchestratorState) : Prop := sheds st st' ∧ evolves st st'.
#[export] Instance releasing_preorder : PreOrder releasing.
Proof.
  split; [done|]. intros x y z [A1 A2] [B1 B2]. split; by transitivity y.
Qed.
Lemma releasing_quiet st st' : quiet st st' → releasing st st'.
Proof. intros [H1 H2]. split; [by apply sheds_same|done]. Qed.
Lemma releasing_release id st : slot_owned (slot st id) = true → releasing st (ReleaseClaim id st).
Proof. intros H. split; [by apply sheds_release|apply evolves_release]. Qed.
Lemma quiet_stop_event now id issue st : quiet st (recordOperatorTerminalStop now id issue st).
Proof. split; [apply slot_same_stop_event|apply evolves_stop_event]. Qed.

Lemma ReleaseClaim_Running id st : Running (ReleaseClaim id st) = Running st.
Proof.
  unfold ReleaseClaim. simpl. destruct (RetryAttempts st !! id) as [e|]; [by destruct (retry_Timer e)|done].
Qed.

Lemma range_map_releasing {V} (get : OrchestratorState → gmap string V) body ks st :
  (∀ k v st, keyed st → get st !! k = Some v → releasing st (body k v st)) →
  keyed st → releasing st (range_map get body ks st).
Proof.
  intros Hb HK. apply (range_map_inv get body (λ s, releasing st s)); [done|].
  intros k v s Hs Hv. transitivity s; [done|]. apply Hb; [|done]. by apply Hs.
Qed.

Lemma reconcileAbsent_releasing absent ord st :
  keyed st → releasing st (reconcileAbsentTrackerIssuesOp_apply absent ord st).1.
Proof.
  intros HK. unfold reconcileAbsentTrackerIssuesOp_apply.
  pose proof (range_map_pair Running (fun id r '(st, canceled) =>
      if bool_decide (id ∉ absent) then (st, canceled)
      else
        let st := ReleaseClaim id st in
        let st := upd_run r (fun run =>
          clearAgentCurrentIssueTerminalHandoff
            (run <| run_ReconcileCancel := true |>
                 <| run_ReconcileCleanupWorkspace := false |>
                 <| run_AgentCurrentIssueHandoff := false |>)) st in
        (st, canceled ++ [r])) releasing (fun _ : list Ref => True) (ord_running ord) st []) as H.
  destruct (range_map (fun s => Running s.1) _ _ _) as [st1 c].
  destruct H as [H1 _]; [by intros ? ? []| |done|done|].
  { intros id r s a HKs HR _. split; [|done]. case_bool_decide; [done|]. cbv zeta.
    transitivity (ReleaseClaim id s); [apply releasing_release; by eapply owned_running|].
    apply releasing_quiet. by apply quiet_upd_run. }
  simpl in *. set (st2 := range_map Blocked _ _ st1).
  assert (releasing st1 st2) as H2.
  { apply range_map_releasing; [|by apply H1]. intros id b s HKs HB.
    case_bool_decide; [|done]. apply releasing_release. by eapply owned_blocked. }
  transitivity st1; [done|]. transitivity st2; [done|].
  apply range_map_releasing; [|by apply H2, H1]. intros id e s HKs HR.
  destruct (_ && _); [|done]. apply releasing_release. by eapply owned_retry.
Qed.

Definition cleanup_ok (c : reconciledCleanup) : Prop :=
  ∀ k, rc_continuation c = Some k → iss_ID (cont_issue k) = rw_IssueID (rc_workspace c).

Lemma collect_releasing {V A} (get : OrchestratorState → gmap IssueID V)
    (helper : IssueID → V → OrchestratorState → OrchestratorState * option A) (Q : A → Prop) ord st acc :
  (∀ id v st, keyed st → get st !! id = Some v →
     releasing st (helper id v st).1 ∧ ∀ a, (helper id v st).2 = Some a → Q a) →
  keyed st → Forall Q acc →
  releasing st (collect get helper ord st acc).1 ∧ Forall Q (collect get helper ord st acc).2.
Proof.
  intros Hh HK Ha. unfold collect.
  apply (range_map_pair get _ releasing (Forall Q) ord st acc); [by intros ? ? []| |done|done].
  intros id v s a HKs Hv HQ. destruct (Hh id v s HKs Hv) as [H1 H2].
  destruct (helper id v s) as [s' [x|]]; simpl in *; (split; [done|]); [|done].
  apply Forall_app. split; [done|]. constructor; [by apply H2|done].
Qed.

Section InactiveEffect.
Context (now : Time) (issuesByID : gmap string Issue) (terminalStates : gset string).
Context (Hwk : well_keyed issuesByID).

Lemma inactiveRun_releasing id r st :
  keyed st → Running st !! id = Some r →
  releasing st (reconcileInactiveRun now issuesByID terminalStates id r st).1.
Proof.
  intros HK HR. unfold reconcileInactiveRun.
  destruct (issuesByID !! id) as [i|] eqn:Ei; [|done]. apply Hwk in Ei. cbv zeta. simpl fst.
  transitivity (ReleaseClaim id st); [apply releasing_release; by eapply owned_running|].
  rewrite <- (ReleaseClaim_Running id st) in HR. revert HR. generalize (ReleaseClaim id st).
  clear st HK. intros st HR. apply releasing_quiet.
  set (st1 := upd_run r _ st).
  transitivity st1; [split; [done|]; by eapply evolves_upd_run_at|].
  match goal with |- quiet st1 (upd_run r _ ?s) => transitivity s end; [|by apply quiet_upd_run].
  destruct (isTerminalTrackerState _ _); [|by apply quiet_upd_run].
  destruct (negb _); [apply quiet_stop_event|done].
Qed.

Lemma inactiveRetry_releasing id e st :
  keyed st → RetryAttempts st !! id = Some e →
  releasing st (reconcileInactiveRetry now issuesByID terminalStates id e st).1 ∧
  ∀ c, (reconcileInactiveRetry now issuesByID terminalStates id e st).2 = Some c → cleanup_ok c.
Proof.
  intros HK HE. unfold reconcileInactiveRetry.
  destruct (issuesByID !! id) as [i|]; [|by split]. pose proof (owned_retry _ _ _ HE) as HO.
  destruct (negb _); simpl; [split; [by apply releasing_release|done]|]. split.
  - etransitivity; [apply releasing_quiet, quiet_stop_event|]. apply releasing_release.
    by rewrite slot_same_stop_event.
  - unfold terminalWorkspaceForCleanup, continuationForRetry. destruct (String.eqb _ _); [done|].
    intros c [= <-]. intros k. simpl. case_decide; [|done]. intros [= <-]. simpl.
    by apply (keyed_retry st HK).
Qed.

Lemma inactiveBlocked_releasing id b st :
  keyed st → Blocked st !! id = Some b →
  releasing st (reconcileInactiveBlocked now issuesByID terminalStates id b st).1 ∧
  ∀ c, (reconcileInactiveBlocked now issuesByID terminalStates id b st).2 = Some c → cleanup_ok c.
Proof.
  intros HK HB. unfold reconcileInactiveBlocked.
  destruct (issuesByID !! id) as [i|]; [|by split]. pose proof (owned_blocked _ _ _ HB) as HO.
  destruct (negb _); simpl; [split; [by apply releasing_release|done]|]. split.
  - etransitivity; [apply releasing_quiet, quiet_stop_event|]. apply releasing_release.
    by rewrite slot_same_stop_event.
  - destruct (terminalWorkspaceForCleanup _ _ _ _ _); [|done]. by intros c [= <-].
Qed.

Lemma reconcileInactive_releasing ord st :
  keyed st →
  let '(st', f) := reconcileInactiveTrackerIssuesOp_apply now issuesByID terminalStates ord st in
  releasing st st' ∧ ∃ entries cleanups, f = FCancel ErrReconcileCancel entries cleanups ∧
    Forall cleanup_ok cleanups.
Proof.
  intros HK. unfold reconcileInactiveTrackerIssuesOp_apply.
  pose proof (collect_releasing Running (reconcileInactiveRun now issuesByID terminalStates)
    (fun _ => True) (ord_running ord) st []) as H1.
  destruct (collect Running _ _ _ _) as [st1 entries]. simpl in H1.
  destruct H1 as [H1 _]; [|done|done|].
  { intros id r s HKs HR. split; [by apply inactiveRun_releasing|done]. }
  assert (keyed st1) as HK1 by (by apply H1).
  pose proof (collect_releasing RetryAttempts (reconcileInactiveRetry now issuesByID terminalStates)
    cleanup_ok (ord_retries ord) st1 []) as H2.
  destruct (collect RetryAttempts _ _ _ _) as [st2 cl2]. simpl in H2.
  destruct H2 as [H2 Hc2]; [|done|done|].
  { intros id e s HKs HR. by apply inactiveRetry_releasing. }
  assert (keyed st2) as HK2 by (by apply H2).
  pose proof (collect_releasing Blocked (reconcileInactiveBlocked now issuesByID terminalStates)
    cleanup_ok (ord_blocked ord) st2 cl2) as H3.
  destruct (collect Blocked _ _ _ _) as [st3 cl3]. simpl in H3.
  destruct H3 as [H3 Hc3]; [|done|done|].
  { intros id b s HKs HR. by apply inactiveBlocked_releasing. }
  split; [|by repeat eexists]. transitivity st1; [done|]. by transitivity st2.
Qed.
End InactiveEffect.

(** ** Runtime events, workspaces and configuration *)

Lemma quiet_totals g st : quiet st (st <| Totals ::= g |>).
Proof. split; [done|by apply evolves_log]. Qed.

Lemma session_fields_keep e run :
  run_Issue (recordSessionFields e run) = run_Issue run ∧
  run_DoneCloses (recordSessionFields e run) = run_DoneCloses run.
Proof. done. Qed.

Lemma fold_fields_keep now e run :
  run_Issue (fold_fields now e run) = run_Issue run ∧
  run_DoneCloses (fold_fields now e run) = run_DoneCloses run.
Proof.
  unfold fold_fields. set (r1 := match asStringMap _ with Some _ => _ | None => _ end).
  assert (run_Issue r1 = run_Issue run ∧ run_DoneCloses r1 = run_DoneCloses run) as [H1 H2].
  { unfold r1, set_if. destruct (asStringMap (te_Payload e)) as [p|]; [|done].
    by destruct (stringField p "message"). }
  unfold recordInputRequiredFields, recordAgentHandoffFields, recordStartupFailureFields,
    recordCurrentIssueTerminalHandoffState.
  rewrite <- H1, <- H2.
  repeat (case_match; simpl; try done).
Qed.

Lemma applyTokenUsage_keep u run :
  run_Issue (applyTokenUsage u run).1 = run_Issue run ∧
  run_DoneCloses (applyTokenUsage u run).1 = run_DoneCloses run.
Proof. unfold applyTokenUsage. by destruct (tu_input u), (tu_output u), (tu_total u). Qed.

(** Storing back what was derived from the entry itself. *)
Lemma quiet_store r run st :
  run_Issue run = run_Issue (deref st r) → run_DoneCloses run = run_DoneCloses (deref st r) →
  quiet st (upd_run r (fun _ => run) st).
Proof.
  intros H1 H2. split; [done|]. split; [| |done].
  - intros HK. apply keyed_upd_run; [done|]. intros run' E. rewrite H1. unfold deref. by rewrite E.
  - intros r'. simpl. destruct (decide (r = r')) as [<-|Hne]; [|by rewrite lookup_alter_ne].
    rewrite lookup_alter_eq. revert H2. unfold deref. destruct (runs st !! r); simpl; [|done].
    by intros ->.
Qed.

Lemma recordRuntimeEvent_quiet clock now r e st : quiet st (recordRuntimeEvent clock now r e st).1.
Proof.
  unfold recordRuntimeEvent. destruct (String.eqb (te_Event e) ""); [done|].
  destruct (String.eqb (te_Event e) EventWorkflowResolved).
  { apply quiet_upd_run. intros run. unfold recordWorkflowFields. by destruct (asStringMap _). }
  cbv zeta. set (now' := if IsZero now then clock else now).
  set (st1 := upd_run r (fold_fields now' e) st).
  transitivity st1; [apply quiet_upd_run; intros run; apply fold_fields_keep|].
  etransitivity; [|apply markBudget_quiet].
  set (st2 := match tokenUsageFromEvent e with Some _ => _ | None => st1 end).
  transitivity st2.
  - unfold st2. destruct (tokenUsageFromEvent e) as [u|]; [|done].
    destruct (applyTokenUsage_keep u (deref st1 r)) as [H1 H2].
    destruct (applyTokenUsage u (deref st1 r)) as [run [[dIn dOut] dTotal]]. simpl in *.
    etransitivity; [apply (quiet_totals (AddTokenDelta dIn dOut dTotal))|]. by apply quiet_store.
  - destruct (rateLimitsFromPayload _); [|done]. split; [done|by apply evolves_log].
Qed.

Lemma recordRuntimeEventOp_quiet clock now id e st :
  let '(st', f) := recordRuntimeEventOp_apply clock now id e st in
  quiet st st' ∧ (f = None ∨ ∃ r, f = Some (FCancel NilCause [r] [])).
Proof.
  unfold recordRuntimeEventOp_apply. destruct (Running st !! id) as [r|]; [|split; [done|by left]].
  pose proof (recordRuntimeEvent_quiet clock now r e st) as Q.
  destruct (recordRuntimeEvent clock now r e st) as [st' []]; (split; [exact Q|]); eauto.
Qed.

Lemma RecordWorkspace_quiet id ws st : quiet st (RecordWorkspace id ws st).
Proof.
  unfold RecordWorkspace. destruct (_ || _); [done|]. destruct (Running st !! id); [|done].
  by apply quiet_upd_run.
Qed.
