(* ===== verification/System.v ===== *)
(** * The actor and its goroutines (internal/orchestrator/actor.go and the files it
      drives)

    The actor applies one operation at a time; each may start a followup on a
    goroutine of its own, which later submits further operations.  A [World] is the
    actor's state with the pool of such goroutines ([Thread]); an [Action] is one
    operation reaching the head of the queue, with everything the outside world
    contributes (clock readings, tracker answers, worker results, map orders) as
    data.  [perform] is executable: [None] when the action does not apply.

    The followup of a reconcile pass removes its workspaces one after the other; as
    separate threads they may interleave more.  Shutdown (a cancelled run context
    and the operations it drops) ends the execution and is not an action. *)

From S2P Require Import Prelude Tracker Workflow RetryPolicy Payload Types State Ops Cleanup.
From S2P Require Import Dispatch Finalize Retry Reconcile RuntimeEvents Poller.

Inductive Thread :=
| ThSpawn (id : IssueID) (issue : Issue) (attempt : option Z)
    (continuationAttempt continuationTurnCount cleanTurnBudget : Z) (workspace : Workspace)
| ThWorker (id : IssueID) (entry : Ref) (issue : Issue) (attempt : option Z) (startedAt : Time)
| ThSchedule (op : scheduleRetryOp)
| ThFire (fire : RetryFire)
| ThFetch (id : IssueID) (attempt : Z) (kind : RetryKind)
| ThCleanup (w : ReconciledWorkspace) (c : option continuationAfterSkippedCleanup) (attempt : Z)
| ThCleaning (w : ReconciledWorkspace) (c : option continuationAfterSkippedCleanup) (attempt : Z)
| ThRemoving (w : ReconciledWorkspace)
| ThEnding (id : IssueID).

Definition threads_of (f : Followup) : list Thread :=
  match f with
  | FSpawn id issue attempt ca ct budget ws => [ThSpawn id issue attempt ca ct budget ws]
  | FSchedule op => [ThSchedule op]
  | FWakePoll => []
  | FCandidateFetch id attempt kind _ => [ThFetch id attempt kind]
  | FCleanup w c => [ThCleanup w c 0]
  | FCancel _ _ cleanups => map (fun c => ThCleanup (rc_workspace c) (rc_continuation c) 0) cleanups
  end.
Definition threads_opt (f : option Followup) : list Thread :=
  match f with Some f => threads_of f | None => [] end.

Record World := { w_st : OrchestratorState; w_pool : list Thread }.

(** Hot-reloaded settings. *)
Inductive ConfigUpdate :=
| CMaxConcurrentAgents (n : Z)
| CMaxConcurrentAgentsByState (limits : list (string * Z))
| CMaxContinuationTurns (n : Z)
| CBudgetGuardrails (g : BudgetGuardrails)
| CAgentDefault (agent : string)
| CPollIntervalMs (ms : Z).

Definition config_apply (c : ConfigUpdate) (st : OrchestratorState) : OrchestratorState :=
  match c with
  | CMaxConcurrentAgents n => UpdateMaxConcurrentAgents n st
  | CMaxConcurrentAgentsByState l => UpdateMaxConcurrentAgentsByState l st
  | CMaxContinuationTurns n => UpdateMaxContinuationTurns n st
  | CBudgetGuardrails g => UpdateBudgetGuardrails g st
  | CAgentDefault a => UpdateAgentDefault a st
  | CPollIntervalMs ms => UpdatePollIntervalMs ms st
  end.

(** [i] is the position of the acting thread in the pool. *)
Inductive Action :=
| ADispatch (now : Time) (issue : Issue) (attempt : option Z) (trackerRechecked : bool)
| ARegister (i : nat) (now : Time)
| ASpawnPanic (i : nat) (now : Time) (err : string)
| AFinalize (i : nat) (now : Time) (received : option WorkerResult)
| ASchedule (i : nat) (now : Time)
| ATimer (t : Ref)
| AFire (i : nat) (now : Time)
| AFetch (i : nat) (now : Time) (issues : list Issue) (fetchErr : option string)
    (resolver : option RefreshAnswer) (terminalStates : gset string)
| ACleanupBegin (i : nat)
| ACleanupVerify (i : nat) (now : Time) (resolver : option RefreshAnswer)
    (terminalStates : gset string) (answered : bool)
| ARemoved (i : nat)
| ACleanupEnd (i : nat)
| APatch (issuesByID : gmap string Issue) (activeStates : gset string) (ord : Orders)
| ARefresh (issuesByID : gmap string Issue) (activeStates : gset string) (ord : Orders)
| AStalled (now : Time) (timeout : Duration) (ord : list IssueID)
| ABudget (clock now : Time) (ord : list IssueID)
| AAbsent (absentIDs : gset string) (ord : Orders)
| AInactive (now : Time) (issuesByID : gmap string Issue) (terminalStates : gset string) (ord : Orders)
| ARuntimeEvent (clock now : Time) (id : IssueID) (e : TaskEvent)
| AWorkspace (id : string) (ws : Workspace)
| AConfig (c : ConfigUpdate)
| APreflightFailed (now : Time) (reason : list string).

(** The maps handed to the reconcile operations are keyed by issue id, as the
    poller builds them. *)
Definition action_ok (a : Action) : Prop :=
  match a with
  | APatch m _ _ | ARefresh m _ _ | AInactive _ m _ _ =>
      ∀ id i, m !! id = Some i → iss_ID i = id
  | _ => True
  end.

Section Perform.
Context {S : Type} `{!Scheduler S} (o : Orchestrator S).

(** The acting thread is replaced by the new ones. *)
Definition respond (w : World) (i : nat) (st : OrchestratorState) (new : list Thread) : World :=
  {| w_st := st; w_pool := delete i (w_pool w) ++ new |}.
(** An operation submitted from outside the pool. *)
Definition arrive (w : World) (res : OrchestratorState * option Followup) : World :=
  {| w_st := res.1; w_pool := w_pool w ++ threads_opt res.2 |}.

Definition perform_thread (a : Action) (w : World) : option World :=
  let st := w_st w in
  match a with
  | ARegister i now =>
      match w_pool w !! i with
      | Some (ThSpawn id issue attempt ca ct _ ws) =>
          let '(st, r) := spawn_register now id issue attempt ca ct ws st in
          Some (respond w i st [ThWorker id r issue attempt now])
      | _ => None
      end
  | ASpawnPanic i now err =>
      match w_pool w !! i with
      | Some (ThSpawn id issue attempt _ _ _ ws) =>
          let '(st, f) := recoverSpawnPanic now id issue attempt err ws st in
          Some (respond w i st (threads_of f))
      | _ => None
      end
  | AFinalize i now received =>
      match w_pool w !! i with
      | Some (ThWorker id r issue attempt startedAt) =>
          let '(st, f) := finalizeRunOp_apply o now
            {| f_id := id; f_issue := issue; f_identifier := iss_Identifier issue;
               f_attempt := attempt; f_result := awaitWorkerResult now startedAt received;
               f_started := startedAt; f_entry := r |} st in
          Some (respond w i st (threads_opt f))
      | _ => None
      end
  | ASchedule i now =>
      match w_pool w !! i with
      | Some (ThSchedule op) => Some (respond w i (scheduleRetryOp_apply o now op st) [])
      | _ => None
      end
  | ATimer t =>
      match timers st !! t with
      | Some fire => Some {| w_st := st <| timers ::= delete t |>;
                             w_pool := w_pool w ++ [ThFire fire] |}
      | None => None
      end
  | AFire i now =>
      match w_pool w !! i with
      | Some (ThFire fire) =>
          let '(st, f) := retryFireOp_apply o now fire st in
          Some (respond w i st (threads_opt f))
      | _ => None
      end
  | AFetch i now issues fetchErr resolver terminalStates =>
      match w_pool w !! i with
      | Some (ThFetch id attempt kind) =>
          let '(st, f) :=
            match candidate_fetch issues fetchErr resolver terminalStates id with
            | FetchPollFailed e => retryPollFailedOp_apply o now id attempt kind e st
            | FetchDone found terminal =>
                retryFireAfterFetchOp_apply o now id attempt kind found terminal st
            end in
          Some (respond w i st (threads_opt f))
      | _ => None
      end
  | ACleanupBegin i =>
      match w_pool w !! i with
      | Some (ThCleanup ws c n) =>
          if negb (cleanup_enabled o ws) then Some (respond w i st [])
          else
            let '(st, ok) := beginWorkspaceCleanupOp_apply (rw_IssueID ws) st in
            Some (respond w i st (if ok then [ThCleaning ws c n] else []))
      | _ => None
      end
  | ACleanupVerify i now resolver terminalStates answered =>
      match w_pool w !! i with
      | Some (ThCleaning ws c n) =>
          let stop := if answered then Some (LookupOperatorTerminalStop (rw_IssueID ws) st) else None in
          Some match cleanup_attempt o resolver terminalStates stop ws c n with
               | CleanupRetryAfter _ n' =>
                   respond w i st [ThEnding (rw_IssueID ws); ThCleanup ws c n']
               | CleanupGiveUp | CleanupSkip | CleanupWakePoll =>
                   respond w i st [ThEnding (rw_IssueID ws)]
               | CleanupResume op =>
                   respond w i (scheduleRetryOp_apply o now op st) [ThEnding (rw_IssueID ws)]
               | CleanupRemove ws' => respond w i st [ThRemoving ws']
               end
      | _ => None
      end
  | ARemoved i =>
      match w_pool w !! i with
      | Some (ThRemoving ws) => Some (respond w i st [ThEnding (rw_IssueID ws)])
      | _ => None
      end
  | ACleanupEnd i =>
      match w_pool w !! i with
      | Some (ThEnding id) => Some (respond w i (endWorkspaceCleanupOp_apply id st) [])
      | _ => None
      end
  | _ => None
  end.

Definition some_followup (res : OrchestratorState * Followup) : OrchestratorState * option Followup :=
  (res.1, Some res.2).

Definition perform (a : Action) (w : World) : option World :=
  let st := w_st w in
  match a with
  | ADispatch now issue attempt rechecked =>
      let '(st, res) := dispatchOp_apply now issue attempt rechecked st in
      Some (arrive w (st, match res with inr f => Some f | inl _ => None end))
  | APatch m active ord =>
      Some (arrive w (patchActiveClaimedTrackerIssueStatesOp_apply m active ord st, None))
  | ARefresh m active ord => Some (arrive w (refreshActiveTrackerIssuesOp_apply m active ord st, None))
  | AStalled now timeout ord =>
      Some (arrive w (some_followup (reconcileStalledRunsOp_apply now now timeout ord st)))
  | ABudget clock now ord =>
      Some (arrive w (some_followup (reconcileBudgetExceededRunsOp_apply clock now ord st)))
  | AAbsent absent ord =>
      Some (arrive w (some_followup (reconcileAbsentTrackerIssuesOp_apply absent ord st)))
  | AInactive now m terminal ord =>
      Some (arrive w (some_followup (reconcileInactiveTrackerIssuesOp_apply now m terminal ord st)))
  | ARuntimeEvent clock now id e => Some (arrive w (recordRuntimeEventOp_apply clock now id e st))
  | AWorkspace id ws => Some (arrive w (RecordWorkspace id ws st, None))
  | AConfig c => Some (arrive w (config_apply c st, None))
  | APreflightFailed now reason => Some (arrive w (recordPreflightFailed now reason st, None))
  | _ => perform_thread a w
  end.

(** Performing a list of actions, for concrete executions. *)
Fixpoint perform_all (l : list Action) (w : World) : option World :=
  match l with
  | [] => Some w
  | a :: l => match perform a w with Some w => perform_all l w | None => None end
  end.
End Perform.

Definition init (pollIntervalMs maxConcurrentAgents : Z) : World :=
  {| w_st := NewOrchestratorState pollIntervalMs maxConcurrentAgents; w_pool := [] |}.

(** One step of the system: the orchestrator's wiring (scheduler, candidate lister,
    cleaner) may be replaced between two operations. *)
Definition step {S} `{!Scheduler S} (w w' : World) : Prop :=
  ∃ (o : Orchestrator S) a, action_ok a ∧ perform o a w = Some w'.
