(* ===== verification/Preserve.v ===== *)
(** * Preservation by every operation

    Many invariants of the state are kept by each of the state's own methods.
    [Preserved P] lists what has to be shown of those methods once; this file lifts it
    to every operation of the actor and to every action of the system. *)

From S2P Require Import Prelude Tracker Workflow RetryPolicy Payload Types State Ops Cleanup.
From S2P Require Import Dispatch Finalize Retry Reconcile RuntimeEvents Poller Effects System.

(** [e'] is [e] with another issue or identifier, or with its timer forgotten. *)
Definition same_retry (e e' : RetryEntry) : Prop :=
  retry_Attempt e' = retry_Attempt e ∧ retry_Kind e' = retry_Kind e ∧
  (retry_Timer e' = retry_Timer e ∨ retry_Timer e' = None).

Lemma retries_ext g h st :
  g (RetryAttempts st) = h (RetryAttempts st) →
  st <| RetryAttempts ::= g |> = st <| RetryAttempts ::= h |>.
Proof. intros H. unfold set. simpl. by rewrite H. Qed.

(** What the methods of the state must keep. *)
(** [P] of a state; a head symbol for the hints below. *)
Definition holds (P : OrchestratorState → Prop) (st : OrchestratorState) : Prop := P st.

Class Preserved (P : OrchestratorState → Prop) := {
  keep_set_Running g st : holds P st → holds P (st <| Running ::= g |>);
  keep_set_Blocked g st : holds P st → holds P (st <| Blocked ::= g |>);
  keep_set_Claimed g st : holds P st → holds P (st <| Claimed ::= g |>);
  keep_set_ClaimedIssues g st : holds P st → holds P (st <| ClaimedIssues ::= g |>);
  keep_set_Totals g st : holds P st → holds P (st <| Totals ::= g |>);
  keep_set_runs g st : holds P st → holds P (st <| runs ::= g |>);
  keep_set_cleaningWorkspaces g st : holds P st → holds P (st <| cleaningWorkspaces ::= g |>);
  keep_set_CodexRateLimits g st : holds P st → holds P (st <| CodexRateLimits ::= g |>);
  keep_alloc st : holds P st → holds P (st <| next_ref ::= Pos.succ |>);
  keep_config c st : holds P st → holds P (config_apply c st);
  keep_event now ev st : holds P st → holds P (RecordEvent now ev st);
  keep_completed id st : holds P st → holds P (recordCompleted id st);
  keep_nohandoff id st : holds P st → holds P (recordActiveSuccessNoHandoff id st);
  keep_reconcile id st : holds P st → holds P (recordReconcileStoppedWithProgress id st);
  keep_handoff id st : holds P st → holds P (recordAgentHandoffReconcileStopped id st);
  keep_usage now id run elapsed at_ outcome st :
    holds P st → holds P (recordEndedSessionUsage now id run elapsed at_ outcome st);
  keep_stop now id issue at_ st : holds P st → holds P (RecordOperatorTerminalStop now id issue at_ st).1;
  keep_suppressed now id issue reason st :
    holds P st → holds P (RecordOperatorTerminalDispatchSuppressed now id issue reason st).1;
  keep_dequeue id st : holds P st → holds P (st <| RetryAttempts ::= delete id |>);
  keep_reissue id e e' st : RetryAttempts st !! id = Some e → same_retry e e' → holds P st →
    holds P (st <| RetryAttempts ::= insert id e' |>);
  keep_release id st : holds P st → holds P (ReleaseClaim id st);
  keep_block_retry now id e issue at_ m err st : RetryAttempts st !! id = Some e →
    holds P st → holds P (BlockRetryWithReason now id e issue at_ m err st).1;
  keep_consume id e st : RetryAttempts st !! id = Some e →
    holds P st → holds P (consumeContinuationRetry id (Some e) st)
}.
Create HintDb keep.
#[export] Hint Constants Opaque : keep.
#[export] Hint Resolve keep_set_Running keep_set_Blocked keep_set_Claimed keep_set_ClaimedIssues
  keep_set_Totals keep_set_runs keep_set_cleaningWorkspaces keep_set_CodexRateLimits keep_alloc
  keep_event keep_completed keep_nohandoff keep_reconcile keep_handoff keep_usage keep_stop
  keep_suppressed keep_dequeue keep_release keep_block_retry keep_consume : keep.

Section Keep.
Context (P : OrchestratorState → Prop) `{!Preserved P}.

Lemma keep_stop_event now id issue st : holds P st → holds P (recordOperatorTerminalStop now id issue st).
Proof.
  intros H. unfold recordOperatorTerminalStop. pose proof (keep_stop now id issue now st H) as H'.
  destruct (RecordOperatorTerminalStop _ _ _ _ _) as [st' [e []]]; [by apply keep_event|done].
Qed.
Lemma keep_upd_run r f st : holds P st → holds P (upd_run r f st).
Proof. apply keep_set_runs. Qed.
Lemma keep_drop_run id st : holds P st → holds P (drop_run id st).
Proof. intros H. unfold drop_run. eauto with keep. Qed.
Lemma keep_finish_ok now id r elapsed st :
  holds P st → holds P (FinishRunSucceeded now id r elapsed st).1.
Proof.
  intros H. unfold FinishRunSucceeded. destruct (is_current st id r); [|done].
  by apply keep_set_Totals, keep_usage, keep_completed, keep_drop_run.
Qed.
Lemma keep_finish_nohandoff now id r elapsed st :
  holds P st → holds P (FinishRunActiveSuccessNoHandoff now id r elapsed st).1.
Proof.
  intros H. unfold FinishRunActiveSuccessNoHandoff. destruct (is_current st id r); [|done].
  by apply keep_set_Totals, keep_usage, keep_nohandoff, keep_completed, keep_drop_run.
Qed.
Lemma keep_aborted now id r elapsed outcome st :
  holds P st → holds P (finishRunAborted now id r elapsed outcome st).1.
Proof.
  intros H. unfold finishRunAborted. destruct (is_current st id r); [|done].
  by apply keep_set_Totals, keep_drop_run, keep_usage.
Qed.
Lemma keep_block now id r at_ m e elapsed st :
  holds P st → holds P (BlockRunWithReason now id r at_ m e elapsed st).1.
Proof.
  intros H. unfold BlockRunWithReason. destruct (is_current st id r); [|done]. cbn [fst].
  eauto 8 with keep.
Qed.
Lemma keep_suppress now entry id st :
  holds P st → holds P (suppressRetryFireAfterOperatorStop now entry id st).1.
Proof.
  intros H. unfold suppressRetryFireAfterOperatorStop. destruct (negb _); [done|].
  pose proof (keep_suppressed now id (retry_Issue entry)
    "retry_fire_after_operator_terminal_stop" st H) as H'.
  destruct (RecordOperatorTerminalDispatchSuppressed _ _ _ _ _) as [st' [[e []]|]];
    apply keep_release; [by apply keep_event|done|done].
Qed.
Lemma keep_mark clock now r st : holds P st → holds P (markBudgetExceededIfNeeded clock now r st).1.
Proof.
  intros H. unfold markBudgetExceededIfNeeded. destruct (run_BudgetExceeded _); [done|].
  destruct (budgetExceededMessage _ _ _); [|done]. by apply keep_event, keep_upd_run.
Qed.
#[local] Hint Resolve keep_stop_event keep_upd_run keep_drop_run keep_finish_ok keep_finish_nohandoff
  keep_aborted keep_block keep_suppress keep_mark : keep.

(** Splits on the tests and pair-valued calls of an operation's body. *)
Ltac keep_tac :=
  repeat first
  [ progress (simpl fst)
  | match goal with
    | |- holds P (fst (let '(_, _) := ?x in _)) =>
        let H := fresh in assert (holds P (fst x)) as H by eauto 8 with keep;
        destruct x as [? ?]; simpl in H
    | |- holds P (fst (if ?b then _ else _)) => destruct b
    | |- holds P (fst (match ?x with _ => _ end)) => destruct x
    | |- holds P (if ?b then _ else _) => destruct b
    | |- holds P (match ?x with _ => _ end) => destruct x
    | |- holds P (_ (if ?b then _ else _)) => destruct b
    end ];
  eauto 12 with keep.

Lemma consumed_queued now id rechecked st consumed ca ct deny :
  resolveDispatchClaim now id rechecked st = (consumed, ca, ct, deny) →
  ∀ e, consumed = Some e → RetryAttempts st !! id = Some e.
Proof.
  unfold resolveDispatchClaim, dispatchClaimGateAllows. intros ER e ->.
  destruct (negb rechecked); [done|]. destruct (RetryAttempts st !! id) as [q|].
  - destruct (_ || _); simpl in ER; by simplify_eq.
  - destruct (negb _); simpl in ER; by simplify_eq.
Qed.

Lemma keep_dispatch now issue attempt rechecked st :
  holds P st → holds P (dispatchOp_apply now issue attempt rechecked st).1.
Proof.
  intros H. unfold dispatchOp_apply. set (id := iss_ID issue).
  destruct (IsCleaningWorkspace id st); [done|].
  destruct (IsOperatorTerminalStopped id st); [keep_tac|].
  destruct (resolveDispatchClaim now id rechecked st) as [[[consumed ca] ct] deny] eqn:ER.
  destruct deny; [done|].
  assert (∀ e, consumed = Some e → RetryAttempts st !! id = Some e) as HE by (by eapply consumed_queued).
  assert (let '(st1, b) := blockConsumedContinuationIfBudgetExceeded now issue id consumed ct st in
    if b then holds P st1 else st1 = st) as HB.
  { unfold blockConsumedContinuationIfBudgetExceeded. destruct consumed as [e|]; [|done].
    destruct (negb _); [done|].
    match goal with |- context [BlockRetryWithReason ?a ?b ?c ?d ?m ?g ?h ?k] =>
      pose proof (keep_block_retry a b c d m g h k (HE e eq_refl) H) as Hb;
      destruct (BlockRetryWithReason a b c d m g h k) as [s []] end; eauto with keep. }
  destruct (blockConsumedContinuationIfBudgetExceeded _ _ _ _ _ _) as [st1 []]; [done|]. subst st1.
  destruct (_ <=? _); [done|]. destruct (StateCapacityFullExcluding _ _ _); [done|].
  destruct consumed as [e|]; simpl fst; [|eauto 12 with keep].
  pose proof (keep_consume id e st (HE e eq_refl) H). eauto 12 with keep.
Qed.

Section Ops.
Context {S : Type} `{!Scheduler S} (o : Orchestrator S) (now : Time).

Section Exit.
Context (f : finalizeRunOp).

Lemma keep_close st : holds P st → holds P (close_done f st).
Proof. apply keep_upd_run. Qed.
Lemma keep_hold id i st : holds P st → holds P (hold_claim id i st).
Proof. unfold hold_claim. eauto with keep. Qed.
#[local] Hint Resolve keep_close keep_hold : keep.

(** A handler that does not apply answers [None]; one that does first finishes the run. *)
Ltac keep_finish :=
  match goal with |- (let '(_, _) := ?x in _) = _ → _ =>
    assert (holds P x.1) by eauto with keep; destruct x as [? []] end;
  intros [= <-]; simpl in *.

Lemma keep_input_required e st st' :
  holds P st → applyInputRequiredBlock now f st e = Some st' → holds P st'.
Proof.
  intros H. unfold applyInputRequiredBlock, BlockRun. destruct (_ && _); [done|].
  keep_finish; eauto with keep.
Qed.

Lemma keep_budget_block e st st' :
  holds P st → applyBudgetExceededBlock now f st e = Some st' → holds P st'.
Proof.
  intros H. unfold applyBudgetExceededBlock. destruct (negb _); [done|].
  keep_finish; eauto with keep.
Qed.

Lemma keep_reconciled_cancel e st res :
  holds P st → applyReconciledCancelCleanup o now f st e = Some res → holds P res.1.
Proof.
  intros H. unfold applyReconciledCancelCleanup, FinishRunReconciledCancelled, recordProgressStop,
    recordAgentHandoffStop. destruct (_ || _); [done|].
  keep_finish; [destruct (runHasCurrentIssueHandoff _)|]; eauto 8 with keep.
Qed.

Lemma keep_quota err e st res :
  holds P st → applyQuotaBackoff now f err st e = Some res → holds P res.1.
Proof.
  intros H. unfold applyQuotaBackoff, FinishRunFailed. destruct (as_quota err) as [[m after]|]; [|done].
  keep_finish; eauto 8 with keep.
Qed.

Lemma keep_reconcile_cancel e st res :
  holds P st → applyReconcileCancel o now f st e = Some res → holds P res.1.
Proof.
  intros H. unfold applyReconcileCancel, FinishRunReconciledCancelled, recordProgressStop,
    recordAgentHandoffStop. destruct (negb _); [done|].
  keep_finish; [destruct (runHasCompletedTurn _), (runHasCurrentIssueHandoff _)|]; eauto 8 with keep.
Qed.

Lemma keep_self_stop e record snap st :
  holds P st → holds P (applyTerminalSelfStop o now f st e record snap).1.
Proof.
  intros H. unfold applyTerminalSelfStop, FinishRunTerminalSelfStop.
  match goal with |- holds P (fst (let '(_, _) := ?x in _)) =>
    assert (holds P x.1) as Hx; [|destruct x as [s ok]; simpl in *; by apply keep_close] end.
  apply keep_aborted, keep_upd_run. destruct record; [apply keep_stop_event|];
    destruct (negb (blank _)); eauto with keep.
Qed.

Lemma keep_clean_continuation e st : holds P st → holds P (finishCleanContinuation now f st e).1.
Proof. intros H. unfold finishCleanContinuation. keep_tac. Qed.

Lemma keep_clean_exit e st : holds P st → holds P (applyCleanExit o now f st e).1.
Proof.
  intros H. unfold applyCleanExit. cbv zeta.
  match goal with |- holds P (fst (match _ with Some _ => if _ then _ else ?c | None => _ end)) =>
    assert (holds P c.1) as HC end.
  { destruct (_ && _); [keep_tac|].
    destruct (shouldBlockContinuationBudget _ _ _); [unfold applyContinuationBudgetBlock; keep_tac|].
    pose proof (keep_clean_continuation e st H) as HF.
    destruct (finishCleanContinuation _ _ _ _) as [s ok]. destruct ok; simpl in *; eauto with keep. }
  destruct (wr_IssueExitState (f_result f)) as [snap|]; [|exact HC].
  destruct (snap_Terminal snap); [by apply keep_self_stop|exact HC].
Qed.

Lemma keep_finalize st : holds P st → holds P (finalizeRunOp_apply o now f st).1.
Proof.
  intros H. unfold finalizeRunOp_apply. cbv zeta.
  destruct (applyInputRequiredBlock _ _ _ _) eqn:E1; [by eapply keep_input_required|].
  destruct (applyBudgetExceededBlock _ _ _ _) eqn:E2; [by eapply keep_budget_block|].
  destruct (wr_Err (f_result f)) as [e|]; [|by apply keep_clean_exit].
  destruct (applyReconciledCancelCleanup _ _ _ _ _) eqn:E3; [by eapply keep_reconciled_cancel|].
  destruct (applyQuotaBackoff _ _ _ _ _) eqn:E4; [by eapply keep_quota|].
  destruct (applyReconcileCancel _ _ _ _ _) eqn:E5; [by eapply keep_reconcile_cancel|].
  unfold applyFailureRetry, FinishRunFailed. keep_tac.
Qed.
End Exit.

Lemma keep_tail entry id attempt st :
  holds P st → holds P (retryFireDispatchTail o now entry id attempt st).1.
Proof. intros H. unfold retryFireDispatchTail, capacityDeferRetry. keep_tac. Qed.

Lemma keep_clear id st : holds P st → holds P (clear_timer id st).
Proof.
  intros H. unfold clear_timer. destruct (RetryAttempts st !! id) as [e|] eqn:E.
  - rewrite (retries_ext _ (insert id (e <| retry_Timer := None |>))).
    + eapply keep_reissue; [exact E| |done]. split_and!; [done|done|by right].
    + apply map_eq. intros k. destruct (decide (k = id)) as [->|?].
      * by rewrite lookup_alter_eq, lookup_insert_eq, E.
      * by rewrite lookup_alter_ne, lookup_insert_ne.
  - rewrite (retries_ext _ (delete id)); [by apply keep_dequeue|].
    apply map_eq. intros k. destruct (decide (k = id)) as [->|?].
    + by rewrite lookup_alter_eq, lookup_delete_eq, E.
    + by rewrite lookup_alter_ne, lookup_delete_ne.
Qed.

Lemma keep_fire fire st : holds P st → holds P (retryFireOp_apply o now fire st).1.
Proof.
  intros H. pose proof keep_tail. pose proof keep_clear.
  unfold retryFireOp_apply, fireWakeSignal, fireWithCandidateFetch. keep_tac.
Qed.

Lemma keep_poll_failed id attempt kind err st :
  holds P st → holds P (retryPollFailedOp_apply o now id attempt kind err st).1.
Proof. intros H. unfold retryPollFailedOp_apply. keep_tac. Qed.

Lemma keep_after_fetch id attempt kind found terminal st :
  holds P st → holds P (retryFireAfterFetchOp_apply o now id attempt kind found terminal st).1.
Proof.
  intros H. pose proof keep_tail. unfold retryFireAfterFetchOp_apply. cbv zeta.
  destruct (matchingRetryEntry st id attempt kind) as [e|] eqn:EM; [|done].
  destruct found as [i|]; [|keep_tac]. apply matchingRetryEntry_Some in EM as (EM & _ & _).
  apply keep_tail, keep_set_ClaimedIssues. eapply keep_reissue; [exact EM| |done].
  destruct (String.eqb _ _); split_and!; auto.
Qed.
End Ops.

Lemma range_map_keep {V} (get : OrchestratorState → gmap string V) body ks st :
  (∀ k v st, holds P st → get st !! k = Some v → holds P (body k v st)) → holds P st → holds P (range_map get body ks st).
Proof. intros Hb H. apply range_map_inv; auto. Qed.

Lemma range_map_keep_pair {V A} (get : OrchestratorState * A → gmap string V) body ks s :
  (∀ k v st a, holds P st → holds P (body k v (st, a)).1) → holds P s.1 →
  holds P (range_map get body ks s).1.
Proof.
  intros Hb H. apply (range_map_inv get body (λ s, holds P s.1)); [done|]. intros k v [st a] Hs _. auto.
Qed.

Lemma keep_patch_claimed id n fb st : holds P st → holds P (patchClaimedIssue id n fb st).
Proof. intros H. unfold patchClaimedIssue. destruct (ClaimedIssues st !! id); eauto with keep. Qed.
#[local] Hint Resolve keep_patch_claimed : keep.

Lemma keep_reissued id e i st :
  RetryAttempts st !! id = Some e → holds P st →
  holds P (st <| RetryAttempts ::= insert id (e <| retry_Issue := i |>) |>).
Proof. intros E. eapply keep_reissue; [exact E|]. split_and!; [done|done|by left]. Qed.

Lemma keep_patch m active ord st :
  holds P st → holds P (patchActiveClaimedTrackerIssueStatesOp_apply m active ord st).
Proof.
  intros H. unfold patchActiveClaimedTrackerIssueStatesOp_apply, patchBlocked, patchRetries, patchRunning.
  repeat (apply range_map_keep; [intros k v s Hs Hk; destruct (activeNarrow _ _ _); [|done]|]);
    try done; eauto 8 using keep_reissued with keep.
Qed.

Lemma keep_refresh m active ord st :
  holds P st → holds P (refreshActiveTrackerIssuesOp_apply m active ord st).
Proof.
  intros H. unfold refreshActiveTrackerIssuesOp_apply. cbv zeta.
  repeat (apply range_map_keep; [intros k v s Hs Hk; destruct (activeNarrow _ _ _); [|done]|]);
    try done; eauto 8 using keep_reissued with keep.
Qed.

Lemma keep_stalled now opNow timeout ord st :
  holds P st → holds P (reconcileStalledRunsOp_apply now opNow timeout ord st).1.
Proof.
  intros H. unfold reconcileStalledRunsOp_apply.
  match goal with |- holds P (fst (let '(_, _) := ?x in _)) =>
    assert (holds P x.1) as Hx; [|by destruct x] end.
  apply range_map_keep_pair; [|done]. intros. keep_tac.
Qed.

Lemma keep_budget clock now ord st :
  holds P st → holds P (reconcileBudgetExceededRunsOp_apply clock now ord st).1.
Proof.
  intros H. unfold reconcileBudgetExceededRunsOp_apply.
  match goal with |- holds P (fst (let '(_, _) := ?x in _)) =>
    assert (holds P x.1) as Hx; [|by destruct x] end.
  apply range_map_keep_pair; [|done]. intros. keep_tac.
Qed.

Lemma keep_absent absent ord st :
  holds P st → holds P (reconcileAbsentTrackerIssuesOp_apply absent ord st).1.
Proof.
  intros H. unfold reconcileAbsentTrackerIssuesOp_apply.
  match goal with |- holds P (fst (let '(_, _) := ?x in _)) =>
    assert (holds P x.1) as Hx; [|destruct x as [st1 c]] end.
  { apply range_map_keep_pair; [|done]. intros. keep_tac. }
  simpl in *. repeat (apply range_map_keep; [intros; keep_tac|]). done.
Qed.

Lemma keep_collect {V A} (get : OrchestratorState → gmap IssueID V)
    (helper : IssueID → V → OrchestratorState → OrchestratorState * option A) ord st acc :
  (∀ id v st, holds P st → holds P (helper id v st).1) → holds P st →
  holds P (collect get helper ord st acc).1.
Proof.
  intros Hh H. unfold collect. apply range_map_keep_pair; [|done]. intros k v s a Hs.
  specialize (Hh k v s Hs). by destruct (helper k v s).
Qed.

Lemma keep_inactive now m terminal ord st :
  holds P st → holds P (reconcileInactiveTrackerIssuesOp_apply now m terminal ord st).1.
Proof.
  intros H. unfold reconcileInactiveTrackerIssuesOp_apply.
  assert (∀ ord st acc, holds P st →
    holds P (collect Running (reconcileInactiveRun now m terminal) ord st acc).1) as H1.
  { intros. apply keep_collect; [|done]. intros. unfold reconcileInactiveRun. cbv zeta.
    destruct (m !! id); [|done]. simpl. apply keep_upd_run. keep_tac. }
  assert (∀ ord st acc, holds P st →
    holds P (collect RetryAttempts (reconcileInactiveRetry now m terminal) ord st acc).1) as H2.
  { intros. apply keep_collect; [|done]. intros. unfold reconcileInactiveRetry. keep_tac. }
  assert (∀ ord st acc, holds P st →
    holds P (collect Blocked (reconcileInactiveBlocked now m terminal) ord st acc).1) as H3.
  { intros. apply keep_collect; [|done]. intros. unfold reconcileInactiveBlocked. keep_tac. }
  specialize (H1 (ord_running ord) st [] H). destruct (collect Running _ _ _ _) as [st1 c1].
  specialize (H2 (ord_retries ord) st1 [] H1). destruct (collect RetryAttempts _ _ _ _) as [st2 c2].
  specialize (H3 (ord_blocked ord) st2 c2 H2). by destruct (collect Blocked _ _ _ _).
Qed.

Lemma keep_runtime_event clock now id e st :
  holds P st → holds P (recordRuntimeEventOp_apply clock now id e st).1.
Proof.
  intros H. unfold recordRuntimeEventOp_apply. destruct (Running st !! id) as [r|]; [|done].
  assert (holds P (recordRuntimeEvent clock now r e st).1) as HR;
    [|by destruct (recordRuntimeEvent clock now r e st) as [s []]].
  unfold recordRuntimeEvent. destruct (String.eqb _ _); [done|].
  destruct (String.eqb _ _); [simpl; eauto with keep|]. cbv zeta. apply keep_mark.
  unfold RecordRateLimits.
  destruct (rateLimitsFromPayload _), (tokenUsageFromEvent e) as [u|];
    try (destruct (applyTokenUsage u _) as [run [[dI dO] dT]]); eauto 8 with keep.
Qed.


(** With the reschedule and the removal of a timer, the whole system keeps [P]. *)
Lemma perform_keep {S} `{!Scheduler S} (o : Orchestrator S) a w w' :
  (∀ now op st, holds P st → holds P (scheduleRetryOp_apply o now op st)) →
  (∀ t st, holds P st → holds P (st <| timers ::= delete t |>)) →
  perform o a w = Some w' → holds P (w_st w) → holds P (w_st w').
Proof.
  intros Hsched Htimer HP H.
  destruct a; cbv beta iota zeta delta [perform perform_thread] in HP;
    try (destruct (w_pool w !! i) as [t|]; [|done]; destruct t; try done).
  - pose proof (keep_dispatch now issue attempt trackerRechecked (w_st w) H) as HL.
    destruct (dispatchOp_apply _ _ _ _ _) as [st res]. by simplify_eq.
  - unfold spawn_register in HP. injection HP as <-. unfold respond. cbn [w_st]. eauto 8 with keep.
  - unfold recoverSpawnPanic in HP. injection HP as <-. unfold respond. cbn [w_st]. eauto with keep.
  - match type of HP with context [finalizeRunOp_apply o now ?f (w_st w)] =>
      pose proof (keep_finalize o now f (w_st w) H) as HL;
      destruct (finalizeRunOp_apply o now f (w_st w)) as [st fo] end. by simplify_eq.
  - simplify_eq. by apply Hsched.
  - destruct (timers (w_st w) !! t); [|done]. injection HP as <-. by apply Htimer.
  - pose proof (keep_fire o now fire (w_st w) H) as HL.
    destruct (retryFireOp_apply o now fire (w_st w)) as [st f]. by simplify_eq.
  - destruct (candidate_fetch _ _ _ _ _) as [e|found term].
    + pose proof (keep_poll_failed o now id attempt kind e (w_st w) H) as HL.
      destruct (retryPollFailedOp_apply _ _ _ _ _ _ _). by simplify_eq.
    + pose proof (keep_after_fetch o now id attempt kind found term (w_st w) H) as HL.
      destruct (retryFireAfterFetchOp_apply _ _ _ _ _ _ _ _). by simplify_eq.
  - destruct (negb _); [by simplify_eq|]. unfold beginWorkspaceCleanupOp_apply in HP.
    destruct (_ || _); injection HP as <-; [done|]. unfold respond, MarkCleaningWorkspace. cbn [w_st].
    eauto with keep.
  - destruct (cleanup_attempt _ _ _ _ _ _ _); simplify_eq; simpl; try done. by apply Hsched.
  - by simplify_eq.
  - injection HP as <-. unfold respond, endWorkspaceCleanupOp_apply, UnmarkCleaningWorkspace. cbn [w_st].
    eauto with keep.
  - simplify_eq. by apply keep_patch.
  - simplify_eq. by apply keep_refresh.
  - simplify_eq. by apply keep_stalled.
  - simplify_eq. by apply keep_budget.
  - simplify_eq. by apply keep_absent.
  - simplify_eq. by apply keep_inactive.
  - simplify_eq. by apply keep_runtime_event.
  - simplify_eq. simpl. unfold RecordWorkspace. destruct (_ || _); [done|].
    destruct (Running (w_st w) !! id); eauto with keep.
  - simplify_eq. by apply (keep_config c).
  - simplify_eq. simpl. unfold recordPreflightFailed. eauto with keep.
Qed.
End Keep.
