(* ===== verification/Invariants.v ===== *)
(** * System invariants

    Two invariants over every interleaving of the actor's operations.  [store_inv]
    holds unconditionally: objects are filed under their issue and every [Done]
    channel is closed at most once.  [claim_inv] is the ownership discipline: an
    issue has at most one owner among a spawn in flight, a live worker, a workspace
    removal, a block and a retry; it is proved for executions in which no retry
    entry is dropped while its reschedule is in flight ([calm]). *)

From S2P Require Import Prelude Tracker Workflow RetryPolicy Payload Types State Ops Cleanup Dispatch Finalize Retry Reconcile RuntimeEvents Poller Effects System.

(** ** Counting threads *)

Definition cnt (p : Thread → bool) (l : list Thread) : nat := length (List.filter p l).

Definition is_spawn (id : IssueID) (t : Thread) : bool :=
  match t with ThSpawn id' _ _ _ _ _ _ => bool_decide (id' = id) | _ => false end.
Definition is_worker (id : IssueID) (t : Thread) : bool :=
  match t with ThWorker id' _ _ _ _ => bool_decide (id' = id) | _ => false end.
Definition is_cleaning (id : IssueID) (t : Thread) : bool :=
  match t with
  | ThCleaning w _ _ | ThRemoving w => bool_decide (rw_IssueID w = id)
  | _ => false
  end.
Definition is_ending (id : IssueID) (t : Thread) : bool :=
  match t with ThEnding id' => bool_decide (id' = id) | _ => false end.
Definition is_pending (id : IssueID) (t : Thread) : bool :=
  match t with ThSchedule op => bool_decide (iss_ID (sr_issue op) = id) | _ => false end.

(** The threads of the pool that concern one issue. *)
Record Census := { n_spawn : nat; n_work : nat; n_clean : nat; n_end : nat; n_pend : nat }.
Definition census (id : IssueID) (l : list Thread) : Census :=
  {| n_spawn := cnt (is_spawn id) l; n_work := cnt (is_worker id) l;
     n_clean := cnt (is_cleaning id) l; n_end := cnt (is_ending id) l;
     n_pend := cnt (is_pending id) l |}.
Definition census_add (a b : Census) : Census :=
  {| n_spawn := n_spawn a + n_spawn b; n_work := n_work a + n_work b;
     n_clean := n_clean a + n_clean b; n_end := n_end a + n_end b;
     n_pend := n_pend a + n_pend b |}.

(** ** The two invariants *)

(** Threads carry issues filed under their own id. *)
Definition thread_ok (t : Thread) : Prop :=
  match t with
  | ThSpawn id issue _ _ _ _ _ => iss_ID issue = id
  | ThCleanup w c _ | ThCleaning w c _ => ∀ k, c = Some k → iss_ID (cont_issue k) = rw_IssueID w
  | _ => True
  end.

Definition worker_ref (t : Thread) : option Ref :=
  match t with ThWorker _ r _ _ _ => Some r | _ => None end.

Record store_inv (w : World) : Prop := {
  si_keyed : keyed (w_st w);
  si_threads : Forall thread_ok (w_pool w);
  si_live r : r ∈ omap worker_ref (w_pool w) → run_DoneCloses <$> runs (w_st w) !! r = Some 0%nat;
  si_refs : NoDup (omap worker_ref (w_pool w));
  si_closed r n : run_DoneCloses <$> runs (w_st w) !! r = Some n → (n ≤ 1)%nat
}.

Definition b2n (b : bool) : nat := if b then 1%nat else 0%nat.

Definition waiting (s : Slot) (c : Census) : bool := s_retry s || (0 <? n_pend c)%nat.
(** How many owners an issue has. *)
Definition owners (s : Slot) (c : Census) : nat :=
  n_spawn c + n_work c + n_clean c + b2n (s_blocked s) + b2n (waiting s c).

Record claim_ok (s : Slot) (c : Census) : Prop := {
  co_excl : (owners s c ≤ 1)%nat;
  co_run : n_work c = b2n (bool_decide (is_Some (s_run s)));
  co_owner : s_claimed s = true →
    (1 ≤ n_spawn c + n_work c + b2n (s_blocked s) + b2n (waiting s c))%nat;
  co_claimed : (n_spawn c + b2n (s_blocked s) + b2n (waiting s c) ≤ b2n (s_claimed s))%nat;
  co_clean : (n_clean c + n_end c = b2n (s_clean s))%nat
}.

Record claim_inv (w : World) : Prop := {
  ci_ok id : claim_ok (slot (w_st w) id) (census id (w_pool w));
  ci_ref id r i a t : ThWorker id r i a t ∈ w_pool w → Running (w_st w) !! id = Some r
}.

(** No retry entry disappears while a reschedule of its issue is in flight. *)
Definition calm (w w' : World) : Prop := ∀ id,
  (0 < n_pend (census id (w_pool w)))%nat → s_retry (slot (w_st w) id) = true →
  s_retry (slot (w_st w') id) = true.

(** ** Lemmas: counting *)

Lemma cnt_app p l l' : cnt p (l ++ l') = (cnt p l + cnt p l')%nat.
Proof. unfold cnt. by rewrite List.filter_app, length_app. Qed.

Lemma cnt_delete p l i t :
  l !! i = Some t → cnt p l = (b2n (p t) + cnt p (delete i l))%nat.
Proof.
  revert i. induction l as [|x l IH]; intros [|i] H; simplify_eq/=.
  - unfold cnt. simpl. by destruct (p t).
  - specialize (IH i H). unfold cnt in *. simpl. destruct (p x); simpl; lia.
Qed.

Lemma cnt_zero p l t : cnt p l = 0%nat → t ∈ l → p t = false.
Proof.
  unfold cnt. intros H Ht. apply nil_length_inv in H. destruct (p t) eqn:E; [|done].
  assert (In t (List.filter p l)) as HI by (apply filter_In; by rewrite <- list_elem_of_In).
  by rewrite H in HI.
Qed.

Lemma census_app id l l' : census id (l ++ l') = census_add (census id l) (census id l').
Proof. unfold census, census_add. simpl. by rewrite !cnt_app. Qed.

Lemma census_delete id l i t :
  l !! i = Some t → census id l = census_add (census id [t]) (census id (delete i l)).
Proof.
  intros H. unfold census, census_add. simpl. rewrite !(cnt_delete _ l i t H).
  assert (∀ p, cnt p [t] = b2n (p t)) as E by (intros p; unfold cnt; simpl; by destruct (p t)).
  by rewrite !E.
Qed.

(** The issue a thread belongs to. *)
Definition thread_id (t : Thread) : option IssueID :=
  match t with
  | ThSpawn id _ _ _ _ _ _ | ThWorker id _ _ _ _ | ThEnding id => Some id
  | ThSchedule op => Some (iss_ID (sr_issue op))
  | ThCleaning w _ _ | ThRemoving w => Some (rw_IssueID w)
  | _ => None
  end.

Definition no_census : Census := Build_Census 0 0 0 0 0.

Lemma census_other id l :
  Forall (λ t, thread_id t ≠ Some id) l → census id l = no_census.
Proof.
  intros H. unfold census, cnt. induction H as [|t l Ht _ IH]; [done|].
  destruct t; simpl in *; rewrite ?bool_decide_eq_false_2 by congruence; done.
Qed.

Lemma elem_of_delete_pool (l : list Thread) i t : t ∈ delete i l → t ∈ l.
Proof. intros H. eapply (sublist_subseteq (delete i l) l); [apply sublist_delete|done]. Qed.

(** ** The store invariant *)

Lemma workers_delete l i t :
  l !! i = Some t →
  Permutation (omap worker_ref l) (match worker_ref t with Some r => [r] | None => [] end ++
                                   omap worker_ref (delete i l)).
Proof.
  intros H. rewrite (delete_Permutation l i t H) at 1. simpl. by destruct (worker_ref t).
Qed.

Lemma workers_delete_sublist (l : list Thread) i :
  omap worker_ref (delete i l) `sublist_of` omap worker_ref l.
Proof.
  revert i. induction l as [|t l IH]; intros [|i]; simpl; [done|done| |].
  - destruct (worker_ref t); [by apply sublist_cons|done].
  - destruct (worker_ref t); [by apply sublist_skip|done].
Qed.

Lemma store_evolves w st pool' :
  store_inv w → evolves (w_st w) st → Forall thread_ok pool' →
  omap worker_ref pool' `sublist_of` omap worker_ref (w_pool w) →
  store_inv {| w_st := st; w_pool := pool' |}.
Proof.
  intros [H1 H2 H3 H4 H5] [E1 E2 E3] HT HS. split; simpl; [by apply E1|done| | |].
  - intros r Hr. rewrite E2. apply H3. by eapply sublist_subseteq.
  - by eapply sublist_NoDup.
  - intros r n. rewrite E2. apply H5.
Qed.

Lemma Forall_delete_pool {A} (P : A → Prop) (l : list A) i : Forall P l → Forall P (delete i l).
Proof. intros H. revert i. induction H as [|x l Hx Hl IH]; intros [|i]; simpl; auto. Qed.

Lemma store_respond w i st new :
  store_inv w → evolves (w_st w) st → Forall thread_ok new → omap worker_ref new = [] →
  store_inv (respond w i st new).
Proof.
  intros HI HE HT HN. eapply store_evolves; [exact HI|done| |].
  - apply Forall_app. split; [|done]. apply Forall_delete_pool, HI.
  - rewrite omap_app, HN, app_nil_r. apply workers_delete_sublist.
Qed.

Lemma followup_no_worker f : omap worker_ref (threads_opt f) = [].
Proof. destruct f as [[]|]; try done. simpl. induction cleanups as [|c cs IH]; [done|exact IH]. Qed.

Lemma store_arrive w res :
  store_inv w → evolves (w_st w) res.1 → Forall thread_ok (threads_opt res.2) →
  store_inv (arrive w res).
Proof.
  intros HI HE HT. eapply store_evolves; [exact HI|done| |].
  - apply Forall_app. split; [apply HI|done].
  - by rewrite omap_app, followup_no_worker, app_nil_r.
Qed.

Lemma cleanup_keyed_ok id f : cleanup_keyed id f → Forall thread_ok (threads_opt f).
Proof.
  intros [->|(w & c & -> & <- & Hc)]; [constructor|]. repeat constructor. exact Hc.
Qed.

Lemma exit_outcome_ok id st st' f : exit_outcome id st st' f → Forall thread_ok (threads_opt f).
Proof. destruct 1; [constructor|constructor|by eapply cleanup_keyed_ok|repeat constructor]. Qed.

Lemma fire_outcome_ok id st st' f : fire_outcome id st st' f → Forall thread_ok (threads_opt f).
Proof. destruct 1; try (by eapply cleanup_keyed_ok); by repeat constructor. Qed.

Lemma store_register w i id issue attempt ca ct b ws now :
  store_inv w → w_pool w !! i = Some (ThSpawn id issue attempt ca ct b ws) →
  let '(st, r) := spawn_register now id issue attempt ca ct ws (w_st w) in
  store_inv (respond w i st [ThWorker id r issue attempt now]).
Proof.
  intros [H1 H2 H3 H4 H5] Hi.
  assert (iss_ID issue = id) as Hid.
  { rewrite Forall_lookup in H2. exact (H2 i _ Hi). }
  pose proof (spawn_register_effect now id issue attempt ca ct ws (w_st w) Hid) as HE.
  destruct (spawn_register _ _ _ _ _ _ _ _) as [st r]. destruct HE as (-> & _ & _ & HK & HC).
  assert (∀ r, is_Some (run_DoneCloses <$> runs (w_st w) !! r) → r ≠ next_ref (w_st w)) as Hfresh.
  { intros r Hr ->. apply fmap_is_Some, (keyed_fresh _ H1) in Hr. lia. }
  assert (omap worker_ref (delete i (w_pool w) ++ [ThWorker id (next_ref (w_st w)) issue attempt now]) =
          omap worker_ref (delete i (w_pool w)) ++ [next_ref (w_st w)]) as EW by (by rewrite omap_app).
  assert (∀ r, r ∈ omap worker_ref (delete i (w_pool w)) →
    run_DoneCloses <$> runs (w_st w) !! r = Some 0%nat) as Hlive.
  { intros r Hr. apply H3. by eapply sublist_subseteq; [apply workers_delete_sublist|]. }
  split; simpl; [by apply HK| | | |].
  - apply Forall_app. split; [by apply Forall_delete_pool|by repeat constructor].
  - intros r. rewrite EW, elem_of_app, list_elem_of_singleton, HC. intros [Hr| ->]; [|by rewrite decide_True].
    rewrite decide_False; [by apply Hlive|]. apply Hfresh. rewrite Hlive by done. by eexists.
  - rewrite EW. apply NoDup_app. split_and!; [| |apply NoDup_singleton].
    + by eapply sublist_NoDup; [|apply workers_delete_sublist].
    + intros r Hr%Hlive Hr2%list_elem_of_singleton. apply (Hfresh r); [rewrite Hr; by eexists|done].
  - intros r n. rewrite HC. case_decide; [|apply H5]. intros [= <-]. lia.
Qed.

Lemma store_finalize {S} (o : Orchestrator S) w i id r issue attempt started now f :
  store_inv w → w_pool w !! i = Some (ThWorker id r issue attempt started) →
  f_id f = id → f_entry f = r →
  let '(st, fo) := finalizeRunOp_apply o now f (w_st w) in
  store_inv (respond w i st (threads_opt fo)).
Proof.
  intros [H1 H2 H3 H4 H5] Hi <- <-.
  pose proof (finalizeRunOp_spec o now f (w_st w)) as HF.
  destruct (finalizeRunOp_apply o now f (w_st w)) as [st fo].
  destruct HF as ([HK HC _] & Hcur & Hstale). simpl in *.
  pose proof (workers_delete _ _ _ Hi) as HP. simpl in HP.
  rewrite HP in H4. apply NoDup_cons in H4 as [Hnin Hnd].
  assert (run_DoneCloses <$> runs (w_st w) !! f_entry f = Some 0%nat) as H0.
  { apply H3. rewrite HP. by left. }
  split; simpl; rewrite ?omap_app, ?followup_no_worker, ?app_nil_r; [by apply HK| | |done|].
  - apply Forall_app. split; [by apply Forall_delete_pool|].
    destruct (decide (Running (w_st w) !! f_id f = Some (f_entry f))) as [HR|HR].
    + destruct (Hcur H1 HR) as [HO _]. by eapply exit_outcome_ok.
    + destruct (Hstale HR) as [_ ->]. constructor.
  - intros r Hr. rewrite HC, decide_False by (intros ->; done). apply H3. rewrite HP. by right.
  - intros r n. rewrite HC. case_decide as E; [|apply H5]. subst r. rewrite H0. intros [= <-]. lia.
Qed.

(** * The ownership automaton

    What the orchestrator promises about one issue, as a small automaton over its
    slot and the threads that concern it: [own_step].  The exclusivity invariant
    and the capacity argument are proved here, on the automaton; Refinement.v shows
    that every operation of the system is one of its moves. *)


Definition one_spawn : Census := Build_Census 1 0 0 0 0.
Definition one_work : Census := Build_Census 0 1 0 0 0.
Definition one_clean : Census := Build_Census 0 0 1 0 0.
Definition one_end : Census := Build_Census 0 0 0 1 0.
Definition one_pend : Census := Build_Census 0 0 0 0 1.

Notation "a ⊕ b" := (census_add a b) (at level 50, left associativity) : go_scope.

(** [full]: the capacity gate in force; a move that takes a slot needs it open. *)
Inductive own_step (full : bool) : Slot * Census → Slot * Census → Prop :=
| own_idle x : own_step full x x
| own_claim s c : full = false → s_clean s = false →
    slot_claimed s = false ∨ s_retry s = true →
    own_step full (s, c) (taken s, one_spawn ⊕ c)
| own_start s c r : own_step full (s, one_spawn ⊕ c) (s <| s_run := Some r |>, one_work ⊕ c)
| own_panic s c : own_step full (s, one_spawn ⊕ c) (s, one_pend ⊕ c)
| own_park s c : own_step full (s, one_work ⊕ c) (parked s, c)
| own_finish s c : own_step full (s, one_work ⊕ c) (ended s, c)
| own_hold s c : own_step full (s, one_work ⊕ c) (held s, one_pend ⊕ c)
| own_queue s c : own_step full (s, one_pend ⊕ c) (queued s, c)
| own_defer s c : s_retry s = true → own_step full (s, c) (s, one_pend ⊕ c)
| own_fire s c : full = false → s_retry s = true →
    own_step full (s, c) (unqueued s, one_spawn ⊕ c)
| own_release s c : slot_owned s = true → own_step full (s, c) (release s, c)
| own_block s c : s_retry s = true → own_step full (s, c) (parked_retry s, c)
| own_reserve s c : slot_claimed s = false → s_clean s = false →
    own_step full (s, c) (s <| s_clean := true |>, one_clean ⊕ c)
| own_removing s c : own_step full (s, one_clean ⊕ c) (s, one_clean ⊕ c)
| own_cleaned s c : own_step full (s, one_clean ⊕ c) (s, one_end ⊕ c)
| own_resume s c : own_step full (s, one_clean ⊕ c) (queued s, one_end ⊕ c)
| own_end s c : own_step full (s, one_end ⊕ c) (s <| s_clean := false |>, c).

(** ** The automaton keeps the invariant *)

(** [claim_ok] as one proposition. *)
Definition claim_facts (s : Slot) (c : Census) : Prop :=
  (owners s c ≤ 1)%nat ∧
  n_work c = b2n (bool_decide (is_Some (s_run s))) ∧
  (s_claimed s = true → (1 ≤ n_spawn c + n_work c + b2n (s_blocked s) + b2n (waiting s c))%nat) ∧
  (n_spawn c + b2n (s_blocked s) + b2n (waiting s c) ≤ b2n (s_claimed s))%nat ∧
  (n_clean c + n_end c = b2n (s_clean s))%nat.

(** Evaluates the booleans of a slot and leaves arithmetic on the census. *)
Ltac own_case :=
  unfold claim_facts, owners, waiting, slot_claimed, slot_owned, slot_counted in *;
  repeat match goal with s : Slot |- _ => destruct s as [[?|] [] [] [] []] end;
  repeat match goal with c : Census |- _ => destruct c end;
  simpl in *;
  repeat match goal with
  | H : context [Nat.ltb 0 ?n] |- _ => destruct (Nat.ltb_spec 0 n); simpl in *
  | |- context [Nat.ltb 0 ?n] => destruct (Nat.ltb_spec 0 n); simpl in *
  end;
  intuition (try discriminate; try lia).

Lemma claim_ok_facts s c : claim_ok s c ↔ claim_facts s c.
Proof. split; [intros []; by repeat split|intros (? & ? & ? & ? & ?); by split]. Qed.

Lemma own_step_ok full s c s' c' :
  own_step full (s, c) (s', c') → claim_ok s c →
  ((0 < n_pend c)%nat → s_retry s = true → s_retry s' = true) →
  claim_ok s' c'.
Proof.
  rewrite !claim_ok_facts. intros H HI HC.
  inversion H; subst; clear H; try done; own_case.
Qed.

(** A worker that stays in the pool keeps its run; a fresh run starts only where
    there was no worker. *)
Lemma own_step_run full s c s' c' :
  own_step full (s, c) (s', c') → claim_ok s c → (1 ≤ n_work c')%nat →
  s_run s' = s_run s ∨ n_work c = 0%nat.
Proof.
  rewrite !claim_ok_facts. intros H HI HC.
  inversion H; subst; clear H; try (by left); own_case.
Qed.

(** Only a move through the open capacity gate makes an issue count. *)
Lemma own_step_counted full s c s' c' :
  own_step full (s, c) (s', c') → claim_ok s c → slot_counted s' = true →
  slot_counted s = true ∨ full = false.
Proof.
  rewrite !claim_ok_facts. intros H HI HC.
  inversion H; subst; clear H; try (by auto); own_case.
Qed.
