(* ===== verification/Refinement.v ===== *)
(** * Refinement: the system follows the ownership automaton

    [step_refines]: seen from any issue, every operation of the actor, in any
    interleaving with the goroutines it starts, is one move of [own_step].  The
    invariants of Invariants.v follow for all executions. *)

From S2P Require Import Prelude Tracker Workflow RetryPolicy Payload Types State Ops Cleanup.
From S2P Require Import Dispatch Finalize Retry Reconcile RuntimeEvents Poller Effects.
From S2P Require Import System Invariants.

(** ** Every operation is a move of the automaton *)

Definition view (w : World) (id : IssueID) : Slot * Census :=
  (slot (w_st w) id, census id (w_pool w)).
Definition at_capacity (w : World) : bool :=
  MaxConcurrentAgents (w_st w) <=? RunningCount (w_st w).

(** [w'] follows [w] by one move at every issue; the capacity gate can be open for
    one of them only. *)
Definition moves (w w' : World) : Prop := ∃ id, ∀ id',
  own_step (if decide (id' = id) then at_capacity w else true) (view w id') (view w' id').

Lemma census_add_none_l c : no_census ⊕ c = c.
Proof. by destruct c. Qed.
Lemma census_add_comm a b : a ⊕ b = b ⊕ a.
Proof. unfold census_add. f_equal; lia. Qed.

Definition about (id : IssueID) (t : Thread) : Prop := thread_id t = None ∨ thread_id t = Some id.

Lemma about_one id t : thread_id t = Some id → Forall (about id) [t].
Proof. intros H. constructor; [by right|constructor]. Qed.

Lemma about_other id id' l : id' ≠ id → Forall (about id) l → census id' l = no_census.
Proof.
  intros Hne H. apply census_other. eapply Forall_impl; [exact H|].
  intros t [E|E]; rewrite E; congruence.
Qed.

Lemma moves_respond w i t id f st new :
  w_pool w !! i = Some t → about id t → Forall (about id) new → slot_upd id f (w_st w) st →
  (∀ c, own_step (at_capacity w) (slot (w_st w) id, census id [t] ⊕ c)
          (f (slot (w_st w) id), census id new ⊕ c)) →
  moves w (respond w i st new).
Proof.
  intros Hi Ht Hn HS HO. exists id. intros id'. unfold view. simpl.
  rewrite (census_delete id' _ _ _ Hi), census_app, (HS id').
  rewrite (census_add_comm (census id' (delete i _))).
  case_decide as E; [subst id'; apply HO|].
  rewrite (about_other id id' new), (about_other id id' [t]) by (done || by constructor).
  apply own_idle.
Qed.

Lemma moves_arrive w id f res :
  Forall (about id) (threads_opt res.2) → slot_upd id f (w_st w) res.1 →
  (∀ c, own_step (at_capacity w) (slot (w_st w) id, c)
          (f (slot (w_st w) id), census id (threads_opt res.2) ⊕ c)) →
  moves w (arrive w res).
Proof.
  intros Hn HS HO. exists id. intros id'. unfold view. simpl. rewrite census_app, (HS id').
  rewrite (census_add_comm (census id' (w_pool w))).
  case_decide as E; [subst id'; apply HO|].
  rewrite (about_other id id' (threads_opt res.2)), census_add_none_l by done. apply own_idle.
Qed.

(** Threads no issue's census counts. *)
Definition uncounted (t : Thread) : Prop := thread_id t = None.

Lemma uncounted_census id l : Forall uncounted l → census id l = no_census.
Proof. intros H. apply census_other. eapply Forall_impl; [exact H|]. by intros t ->. Qed.

Lemma cancel_uncounted cause entries cleanups :
  Forall uncounted (threads_of (FCancel cause entries cleanups)).
Proof. simpl. by induction cleanups; constructor. Qed.

Lemma moves_sheds w res :
  Forall uncounted (threads_opt res.2) → sheds (w_st w) res.1 → moves w (arrive w res).
Proof.
  intros Hn HS. exists EmptyString. intros id. unfold view. simpl.
  rewrite census_app, (uncounted_census id _ Hn), census_add_comm, census_add_none_l.
  destruct (HS id) as [->|[-> HO]]; [apply own_idle|by apply own_release].
Qed.

Lemma moves_quiet w res :
  Forall uncounted (threads_opt res.2) → slot_same (w_st w) res.1 → moves w (arrive w res).
Proof. intros Hn HS. apply moves_sheds; [done|by apply sheds_same]. Qed.

(** A thread outside every census is replaced by others, slots unchanged. *)
Lemma moves_idle w i t st new :
  w_pool w !! i = Some t → uncounted t → Forall uncounted new → slot_same (w_st w) st →
  moves w (respond w i st new).
Proof.
  intros Hi Ht Hn HS. exists EmptyString. intros id. unfold view. simpl.
  rewrite (census_delete id _ _ _ Hi), census_app, HS.
  rewrite (uncounted_census id new), (uncounted_census id [t]) by (done || by constructor).
  rewrite (census_add_comm _ no_census). apply own_idle.
Qed.

(** Censuses of single threads. *)
Ltac census_one := unfold census, cnt; simpl; rewrite ?bool_decide_eq_true_2 by done; done.
Lemma census_spawn id i a x y z ws : census id [ThSpawn id i a x y z ws] = one_spawn.
Proof. census_one. Qed.
Lemma census_worker id r i a t : census id [ThWorker id r i a t] = one_work.
Proof. census_one. Qed.
Lemma census_schedule op : census (iss_ID (sr_issue op)) [ThSchedule op] = one_pend.
Proof. census_one. Qed.
Lemma census_cleaning w c n : census (rw_IssueID w) [ThCleaning w c n] = one_clean.
Proof. census_one. Qed.
Lemma census_removing w : census (rw_IssueID w) [ThRemoving w] = one_clean.
Proof. census_one. Qed.
Lemma census_ending id : census id [ThEnding id] = one_end.
Proof. census_one. Qed.
Lemma census_ending_cleanup id w c n : census id [ThEnding id; ThCleanup w c n] = one_end.
Proof. census_one. Qed.

Lemma cleanup_keyed_uncounted id f : cleanup_keyed id f → Forall uncounted (threads_opt f).
Proof. intros [->|(w & c & -> & _ & _)]; repeat constructor. Qed.

Lemma slot_upd_same id st st' : slot_same st st' → slot_upd id (fun s => s) st st'.
Proof. intros H id'. rewrite H. by case_decide; subst. Qed.

(** A fired retry, whatever its outcome. *)
Lemma moves_fire w i t id st f :
  w_pool w !! i = Some t → uncounted t → fire_outcome id (w_st w) st f →
  moves w (respond w i st (threads_opt f)).
Proof.
  intros Hi Ht H. destruct H as [HS|HS|a k x HS _|op HS Hr <-|f HS Hr HF|i' a x y z ws HS Hr <- HC];
    simpl threads_opt.
  - by eapply moves_idle.
  - by eapply moves_idle.
  - eapply moves_idle; by repeat constructor.
  - eapply moves_respond; [done|by left|by apply about_one|by apply slot_upd_same|].
    intros c. rewrite census_schedule, uncounted_census, census_add_none_l by (by constructor).
    by apply own_defer.
  - eapply moves_respond; [done|by left| |exact HS|].
    { eapply Forall_impl; [by eapply cleanup_keyed_uncounted|]. intros ?; by left. }
    intros c. rewrite (uncounted_census _ (threads_opt f)) by (by eapply cleanup_keyed_uncounted).
    rewrite uncounted_census, census_add_none_l by (by constructor).
    apply own_release. unfold slot_owned. by rewrite Hr, orb_true_r.
  - eapply moves_respond; [done|by left|by apply about_one|exact HS|].
    intros c. rewrite census_spawn, uncounted_census, census_add_none_l by (by constructor).
    apply own_fire; [|done]. unfold at_capacity. by apply Z.leb_gt.
Qed.

Section Steps.
Context {S : Type} `{!Scheduler S} (o : Orchestrator S).

Lemma finalize_moves w i id r issue attempt started now f :
  w_pool w !! i = Some (ThWorker id r issue attempt started) → f_id f = id → f_entry f = r →
  keyed (w_st w) → Running (w_st w) !! id = Some r →
  let '(st, fo) := finalizeRunOp_apply o now f (w_st w) in
  moves w (respond w i st (threads_opt fo)).
Proof.
  intros Hi <- <- HK HR. pose proof (finalizeRunOp_spec o now f (w_st w)) as (_ & HF & _).
  destruct (finalizeRunOp_apply o now f (w_st w)) as [st fo]. simpl in HF.
  destruct (HF HK HR) as [HO HN]. destruct HO as [HS|HS|fo HS HF'|op HS Hid].
  - done.
  - eapply moves_respond; [done|by right|constructor|exact HS|].
    intros c. rewrite census_worker, uncounted_census, census_add_none_l by constructor. apply own_park.
  - eapply moves_respond; [done|by right| |exact HS|].
    { eapply Forall_impl; [by eapply cleanup_keyed_uncounted|]. intros ?; by left. }
    intros c. rewrite census_worker, uncounted_census, census_add_none_l
      by (by eapply cleanup_keyed_uncounted). apply own_finish.
  - eapply moves_respond; [done|by right| |exact HS|].
    { apply about_one. simpl. by rewrite Hid. }
    intros c. rewrite census_worker. simpl threads_opt. rewrite <- Hid, census_schedule.
    apply own_hold.
Qed.

(** The cleanup reservation. *)
Lemma begin_cleanup_moves w i ws c n :
  w_pool w !! i = Some (ThCleanup ws c n) →
  let '(st, ok) := beginWorkspaceCleanupOp_apply (rw_IssueID ws) (w_st w) in
  evolves (w_st w) st ∧ moves w (respond w i st (if ok then [ThCleaning ws c n] else [])).
Proof.
  intros Hi. unfold beginWorkspaceCleanupOp_apply.
  destruct (_ || _) eqn:E; [split; [done|by eapply moves_idle]|].
  apply orb_false_iff in E as [E1 E2]. rewrite IsClaimed_slot in E1. split; [by apply evolves_log|].
  eapply (moves_respond _ _ _ (rw_IssueID ws) (fun s => s <| s_clean := true |>));
    [done|by left|by apply about_one| |].
  - intros id'. unfold slot, IsCleaningWorkspace. simpl. rewrite mem_insert.
    case_decide as D; [subst; by rewrite (bool_decide_eq_true_2 (@eq string _ _))|].
    by rewrite (bool_decide_eq_false_2 (@eq string _ _)).
  - intros c'. rewrite census_cleaning, uncounted_census, census_add_none_l by (by constructor).
    by apply own_reserve.
Qed.

Lemma end_cleanup_moves w i id :
  w_pool w !! i = Some (ThEnding id) →
  moves w (respond w i (endWorkspaceCleanupOp_apply id (w_st w)) []).
Proof.
  intros Hi. eapply (moves_respond _ _ _ id (fun s => s <| s_clean := false |>));
    [done|by right|constructor| |].
  - intros id'. unfold slot, IsCleaningWorkspace. simpl. rewrite mem_delete.
    case_decide as D; [subst; by rewrite (bool_decide_eq_true_2 (@eq string _ _))|].
    by rewrite (bool_decide_eq_false_2 (@eq string _ _)).
  - intros c. rewrite census_ending, uncounted_census, census_add_none_l by constructor. apply own_end.
Qed.

Lemma cleanup_attempt_resume resolver terminal stop ws c n op :
  cleanup_attempt o resolver terminal stop ws c n = CleanupResume op →
  ∃ k, c = Some k ∧ sr_issue op = cont_issue k.
Proof.
  unfold cleanup_attempt, continueAfterSkippedTerminalCleanup, retryReconciledWorkspaceCleanup.
  destruct (verifyReconciledWorkspaceStillTerminal _ _ _) as [cur []].
  - by destruct (_ <? _).
  - done.
  - destruct (hasOperatorTerminalStop stop); [done|]. destruct c as [k|]; [|done].
    intros [= <-]. by exists k.
  - done.
Qed.

Lemma cleanup_attempt_remove resolver terminal stop ws c n ws' :
  cleanup_attempt o resolver terminal stop ws c n = CleanupRemove ws' → rw_IssueID ws' = rw_IssueID ws.
Proof.
  unfold cleanup_attempt, continueAfterSkippedTerminalCleanup, retryReconciledWorkspaceCleanup.
  destruct (verifyReconciledWorkspaceStillTerminal _ _ _) as [cur []].
  - by destruct (_ <? _).
  - intros [= <-]. by destruct (blank cur).
  - destruct (hasOperatorTerminalStop stop); [done|]. by destruct c as [k|].
  - done.
Qed.

(** What one attempt's verdict does to the reservation. *)
Lemma verify_moves w i ws c n now resolver terminal stop :
  w_pool w !! i = Some (ThCleaning ws c n) →
  (∀ k, c = Some k → iss_ID (cont_issue k) = rw_IssueID ws) → store_inv w →
  let w' := match cleanup_attempt o resolver terminal stop ws c n with
            | CleanupRetryAfter _ n' =>
                respond w i (w_st w) [ThEnding (rw_IssueID ws); ThCleanup ws c n']
            | CleanupGiveUp | CleanupSkip | CleanupWakePoll =>
                respond w i (w_st w) [ThEnding (rw_IssueID ws)]
            | CleanupResume op =>
                respond w i (scheduleRetryOp_apply o now op (w_st w)) [ThEnding (rw_IssueID ws)]
            | CleanupRemove ws' => respond w i (w_st w) [ThRemoving ws']
            end in
  store_inv w' ∧ moves w w'.
Proof.
  intros Hi Hc HI.
  assert (∀ new f st, evolves (w_st w) st → slot_upd (rw_IssueID ws) f (w_st w) st →
    Forall thread_ok new → omap worker_ref new = [] → Forall (about (rw_IssueID ws)) new →
    (∀ c', own_step (at_capacity w) (slot (w_st w) (rw_IssueID ws), one_clean ⊕ c')
       (f (slot (w_st w) (rw_IssueID ws)), census (rw_IssueID ws) new ⊕ c')) →
    store_inv (respond w i st new) ∧ moves w (respond w i st new)) as H.
  { intros new f st HE HS HT HW HA HO. split; [by apply store_respond|].
    eapply moves_respond; [done|by right|done|exact HS|]. intros c'. rewrite census_cleaning. apply HO. }
  assert (slot_upd (rw_IssueID ws) (fun s => s) (w_st w) (w_st w)) as Hid by (by apply slot_upd_same).
  destruct (cleanup_attempt o resolver terminal stop ws c n) as [d n'| | | |op|ws'] eqn:E; cbv zeta.
  - apply (H _ (fun s => s)); [done|done|by repeat constructor|done|constructor; [by right|constructor; [by left|constructor]]|].
    intros c'. rewrite census_ending_cleanup. apply own_cleaned.
  - apply (H _ (fun s => s)); [done|done|by repeat constructor|done|by apply about_one|].
    intros c'. rewrite census_ending. apply own_cleaned.
  - apply (H _ (fun s => s)); [done|done|by repeat constructor|done|by apply about_one|].
    intros c'. rewrite census_ending. apply own_cleaned.
  - apply (H _ (fun s => s)); [done|done|by repeat constructor|done|by apply about_one|].
    intros c'. rewrite census_ending. apply own_cleaned.
  - apply cleanup_attempt_resume in E as (k & -> & Hop).
    destruct (scheduleRetryOp_effect o now op (w_st w)) as [HS HE].
    rewrite Hop, (Hc k eq_refl) in HS.
    apply (H _ queued); [done|done|by repeat constructor|done|by apply about_one|].
    intros c'. rewrite census_ending. apply own_resume.
  - apply cleanup_attempt_remove in E.
    apply (H _ (fun s => s)); [done|done|by repeat constructor|done| |].
    { apply about_one. simpl. by rewrite E. }
    intros c'. rewrite <- E, census_removing. apply own_removing.
Qed.

Lemma findIssueByID_ID issues id i : findIssueByID issues id = Some i → iss_ID i = id.
Proof.
  unfold findIssueByID. intros ([j x] & H & ->)%fmap_Some. by apply list_find_Some in H as (_ & ? & _).
Qed.

Lemma pool_thread_ok w i t : store_inv w → w_pool w !! i = Some t → thread_ok t.
Proof. intros HI Hi. pose proof (si_threads w HI) as H. rewrite Forall_lookup in H. by eapply H. Qed.

(** An action keeps the store invariant and, from an owned world, is a move. *)
Definition step_ok (w w' : World) : Prop := store_inv w' ∧ (claim_inv w → moves w w').

Lemma register_step w i id issue attempt ca ct b ws now :
  store_inv w → w_pool w !! i = Some (ThSpawn id issue attempt ca ct b ws) →
  let '(st, r) := spawn_register now id issue attempt ca ct ws (w_st w) in
  step_ok w (respond w i st [ThWorker id r issue attempt now]).
Proof.
  intros HI Hi. pose proof (pool_thread_ok _ _ _ HI Hi) as Ht.
  pose proof (store_register w i _ _ _ _ _ _ _ now HI Hi) as HS.
  pose proof (spawn_register_effect now id issue attempt ca ct ws (w_st w) Ht) as HE.
  destruct (spawn_register _ _ _ _ _ _ _ _) as [st r]. split; [done|].
  intros _. destruct HE as (_ & _ & HU & _).
  eapply moves_respond; [done|by right|by apply about_one|exact HU|].
  intros c. rewrite census_spawn, census_worker. apply own_start.
Qed.

Lemma panic_step w i id issue attempt ca ct b ws now err :
  store_inv w → w_pool w !! i = Some (ThSpawn id issue attempt ca ct b ws) →
  let '(st, f) := recoverSpawnPanic now id issue attempt err ws (w_st w) in
  step_ok w (respond w i st (threads_of f)).
Proof.
  intros HI Hi. pose proof (pool_thread_ok _ _ _ HI Hi) as Ht. simpl in Ht |- *. subst id. split.
  - apply store_respond; [done|apply evolves_event|by repeat constructor|done].
  - intros _. eapply (moves_respond _ _ _ (iss_ID issue) (fun s => s));
      [done|by right|by apply about_one|by apply slot_upd_same|].
    intros c. rewrite census_spawn. simpl threads_of.
    match goal with |- context [[ThSchedule ?op]] => change (iss_ID issue) with (iss_ID (sr_issue op)) end.
    rewrite census_schedule. apply own_panic.
Qed.

Lemma schedule_step w i op now :
  store_inv w → w_pool w !! i = Some (ThSchedule op) →
  step_ok w (respond w i (scheduleRetryOp_apply o now op (w_st w)) []).
Proof.
  intros HI Hi. destruct (scheduleRetryOp_effect o now op (w_st w)) as [HS HE].
  split; [by apply store_respond|]. intros _.
  eapply moves_respond; [done|by right|constructor|exact HS|].
  intros c. rewrite census_schedule, uncounted_census, census_add_none_l by constructor.
  apply own_queue.
Qed.

Lemma timer_step w t fire :
  store_inv w →
  step_ok w {| w_st := (w_st w) <| timers ::= delete t |>; w_pool := w_pool w ++ [ThFire fire] |}.
Proof.
  intros HI. split.
  - eapply store_evolves; [done|by apply evolves_log| |by rewrite omap_app, app_nil_r].
    apply Forall_app. split; [apply HI|by repeat constructor].
  - intros _. exists EmptyString. intros id. unfold view. simpl.
    rewrite census_app, (uncounted_census id [ThFire fire]) by (by repeat constructor).
    rewrite census_add_comm, census_add_none_l. apply own_idle.
Qed.

Lemma fetch_step w id attempt kind issues fetchErr resolver terminalStates now st f :
  store_inv w →
  match candidate_fetch issues fetchErr resolver terminalStates id with
  | FetchPollFailed e => retryPollFailedOp_apply o now id attempt kind e (w_st w)
  | FetchDone found terminal => retryFireAfterFetchOp_apply o now id attempt kind found terminal (w_st w)
  end = (st, f) →
  evolves (w_st w) st ∧ fire_outcome id (w_st w) st f.
Proof.
  intros HI. unfold candidate_fetch.
  assert (∀ i, findIssueByID issues id = Some i → iss_ID i = id) as Hf
    by (intros i0; apply findIssueByID_ID).
  destruct (findIssueByID issues id) as [i0|], fetchErr as [e|]; intros E.
  all: try (by eapply retryFireAfterFetchOp_effect in E; [|done|apply HI]).
  by eapply retryPollFailedOp_effect in E; [|apply HI].
Qed.

Lemma thread_step a w w' : store_inv w → perform_thread o a w = Some w' → step_ok w w'.
Proof.
  intros HI H. destruct a; cbv beta iota zeta delta [perform_thread] in H; try done;
    try (destruct (w_pool w !! i) as [t|] eqn:Hi; [|done]; pose proof (pool_thread_ok _ _ _ HI Hi) as Ht;
         destruct t; try done).
  - (* ARegister *)
    pose proof (register_step w i _ _ _ _ _ _ _ now HI Hi) as HR.
    destruct (spawn_register _ _ _ _ _ _ _ _) as [st r]. by injection H as <-.
  - (* ASpawnPanic *) injection H as <-. exact (panic_step w i _ _ _ _ _ _ _ now err HI Hi).
  - (* AFinalize *)
    match type of H with context [finalizeRunOp_apply o now ?f (w_st w)] =>
      pose proof (store_finalize o w i _ _ _ _ _ now f HI Hi eq_refl eq_refl) as HS;
      pose proof (finalize_moves w i _ _ _ _ _ now f Hi eq_refl eq_refl (si_keyed w HI)) as HM;
      destruct (finalizeRunOp_apply o now f (w_st w)) as [st fo] end.
    simplify_eq. split; [done|]. intros HC. apply HM. eapply (ci_ref w HC). by eapply list_elem_of_lookup_2.
  - (* ASchedule *) simplify_eq. by apply schedule_step.
  - (* ATimer *) destruct (timers (w_st w) !! t); [|done]. simplify_eq. by apply timer_step.
  - (* AFire *)
    destruct (retryFireOp_apply o now fire (w_st w)) as [st f] eqn:E. simplify_eq.
    apply retryFireOp_effect in E as [HE HO]; [|apply HI].
    split; [|intros _; by eapply moves_fire].
    apply store_respond; [done|done|by eapply fire_outcome_ok|apply followup_no_worker].
  - (* AFetch *)
    match type of H with context [match ?x with _ => _ end] => destruct x as [st f] eqn:E end.
    simplify_eq. apply fetch_step in E as [HE HO]; [|done].
    split; [|intros _; by eapply moves_fire].
    apply store_respond; [done|done|by eapply fire_outcome_ok|apply followup_no_worker].
  - (* ACleanupBegin *)
    destruct (negb (cleanup_enabled o w0)).
    { simplify_eq. split; [by apply store_respond|intros _; by eapply moves_idle]. }
    pose proof (begin_cleanup_moves w i _ _ _ Hi) as HB.
    destruct (beginWorkspaceCleanupOp_apply _ _) as [st ok]. destruct HB as [HE HM]. simplify_eq.
    split; [|done]. apply store_respond; [done|done| |]; destruct ok; try done. by constructor.
  - (* ACleanupVerify *)
    injection H as <-.
    destruct (verify_moves w i _ _ _ now resolver terminalStates
      (if answered then Some (LookupOperatorTerminalStop (rw_IssueID w0) (w_st w)) else None)
      Hi Ht HI) as [H1 H2]. by split.
  - (* ARemoved *)
    simplify_eq. split; [apply store_respond; [done|done|by repeat constructor|done]|]. intros _.
    eapply (moves_respond _ _ _ (rw_IssueID w0) (fun s => s));
      [done|by right|by apply about_one|by apply slot_upd_same|].
    intros c. rewrite census_removing, census_ending. apply own_cleaned.
  - (* ACleanupEnd *)
    simplify_eq. split; [|intros _; by apply end_cleanup_moves].
    apply store_respond; [done|by apply evolves_log|done|done].
Qed.

Lemma config_quiet c st : slot_same st (config_apply c st) ∧ runs (config_apply c st) = runs st ∧
  (keyed st → keyed (config_apply c st)).
Proof.
  destruct c; simpl; unfold UpdateMaxConcurrentAgents, UpdateMaxContinuationTurns, UpdateAgentDefault,
    UpdatePollIntervalMs; repeat case_match; split_and!; try done; intros HK; by eapply keyed_frame.
Qed.

(** A configuration update is the one operation that may change the capacity. *)
Lemma config_store c w : store_inv w → store_inv (arrive w (config_apply c (w_st w), None)).
Proof.
  destruct (config_quiet c (w_st w)) as (_ & Hr & HK). intros [H1 H2 H3 H4 H5].
  split; simpl; rewrite ?app_nil_r, ?Hr; auto.
Qed.

Lemma quiet_step w res :
  store_inv w → quiet (w_st w) res.1 → Forall uncounted (threads_opt res.2) →
  Forall thread_ok (threads_opt res.2) → step_ok w (arrive w res).
Proof.
  intros HI [HS HE] HU HT. split; [by apply store_arrive|intros _; by apply moves_quiet].
Qed.

Lemma dispatch_step w now issue attempt rechecked :
  store_inv w →
  let '(st, res) := dispatchOp_apply now issue attempt rechecked (w_st w) in
  step_ok w (arrive w (st, match res with inr f => Some f | inl _ => None end)).
Proof.
  intros HI. pose proof (dispatchOp_effect now issue attempt rechecked (w_st w)) as HD.
  destruct (dispatchOp_apply _ _ _ _ _) as [st [e|f]]; destruct HD as [HE HD].
  - split; [by apply store_arrive|]. intros _.
    destruct HD as [HS|[Hr HS]]; [by apply moves_quiet|].
    eapply moves_arrive; [constructor|exact HS|]. intros c. simpl threads_opt.
    rewrite uncounted_census, census_add_none_l by constructor. by apply own_block.
  - destruct HD as ((ca & ct & b & ws & ->) & Hcl & Hpre & HS & Hcap).
    split; [apply store_arrive; [done|done|by repeat constructor]|]. intros _.
    eapply moves_arrive; [by apply about_one|exact HS|]. intros c. simpl threads_opt.
    rewrite census_spawn. apply own_claim; [|done|done]. by apply Z.leb_gt.
Qed.

Lemma perform_step a w w' :
  action_ok a → store_inv w → perform o a w = Some w' → step_ok w w'.
Proof.
  intros Ha HI H. pose proof (si_keyed w HI) as HK. pose proof (λ res, quiet_step w res HI) as HQ.
  destruct a; cbv beta iota zeta delta [perform] in H; try (by eapply thread_step).
  - (* ADispatch *)
    pose proof (dispatch_step w now issue attempt trackerRechecked HI) as HD.
    destruct (dispatchOp_apply _ _ _ _ _) as [st res]. by injection H as <-.
  - simplify_eq. apply HQ; [by apply patchActive_quiet|done|done].
  - simplify_eq. apply HQ; [by apply refreshActive_quiet|done|done].
  - simplify_eq. pose proof (reconcileStalledRuns_quiet now now timeout ord (w_st w) HK) as Q.
    unfold reconcileStalledRunsOp_apply in *. destruct (range_map _ _ _ _) as [st c]. by apply HQ.
  - simplify_eq. pose proof (reconcileBudget_quiet clock now ord (w_st w) HK) as Q.
    unfold reconcileBudgetExceededRunsOp_apply in *. destruct (range_map _ _ _ _) as [st c]. by apply HQ.
  - simplify_eq. pose proof (reconcileAbsent_releasing absentIDs ord (w_st w) HK) as [HS HE].
    unfold reconcileAbsentTrackerIssuesOp_apply in *. destruct (range_map _ _ _ _) as [st c].
    split; [by apply store_arrive|intros _; by apply moves_sheds].
  - simplify_eq.
    pose proof (reconcileInactive_releasing now issuesByID terminalStates Ha ord (w_st w) HK) as HR.
    destruct (reconcileInactiveTrackerIssuesOp_apply _ _ _ _ _) as [st f].
    destruct HR as ([HS HE] & entries & cl & -> & Hcl). split.
    + apply store_arrive; [done|done|]. simpl. induction Hcl; simpl; constructor; auto.
    + intros _. apply moves_sheds; [apply cancel_uncounted|done].
  - simplify_eq. pose proof (recordRuntimeEventOp_quiet clock now id e (w_st w)) as HR.
    destruct (recordRuntimeEventOp_apply _ _ _ _ _) as [st f].
    destruct HR as [Q [->|[r ->]]]; by apply HQ.
  - simplify_eq. apply HQ; [apply RecordWorkspace_quiet|done|done].
  - simplify_eq. split; [by apply config_store|]. intros _.
    apply moves_quiet; [done|apply config_quiet].
  - simplify_eq. apply HQ; [apply quiet_event|done|done].
Qed.
End Steps.

(** ** Workers of the next pool *)

Definition not_worker (t : Thread) : Prop := worker_ref t = None.

Lemma threads_opt_not_worker f : Forall not_worker (threads_opt f).
Proof.
  destruct f as [[]|]; try (by repeat constructor). simpl. by induction cleanups; constructor.
Qed.

Section Workers.
Context {S : Type} `{!Scheduler S} (o : Orchestrator S).

Lemma respond_workers w i st new t r :
  Forall not_worker new → t ∈ w_pool (respond w i st new) → worker_ref t = Some r → t ∈ w_pool w.
Proof.
  simpl. intros HN [H|H]%elem_of_app Hr; [by eapply elem_of_delete_pool|].
  rewrite Forall_forall in HN. specialize (HN t H). unfold not_worker in HN. congruence.
Qed.

Lemma arrive_workers w res t r :
  t ∈ w_pool (arrive w res) → worker_ref t = Some r → t ∈ w_pool w.
Proof.
  simpl. intros [H|H]%elem_of_app Hr; [done|].
  pose proof (threads_opt_not_worker res.2) as HN. rewrite Forall_forall in HN.
  specialize (HN t H). unfold not_worker in HN. congruence.
Qed.

(** A worker appears only when its run is registered. *)
Lemma perform_workers a w w' id r i at_ t0 :
  perform o a w = Some w' → ThWorker id r i at_ t0 ∈ w_pool w' →
  ThWorker id r i at_ t0 ∈ w_pool w ∨ Running (w_st w') !! id = Some r.
Proof.
  intros H Hin.
  destruct a; cbv beta iota zeta delta [perform perform_thread] in H;
    try (destruct (w_pool w !! i0) as [[]|]; try done);
    repeat match type of H with
    | (let '(_, _) := ?x in _) = _ => destruct x as [? ?] eqn:?
    | (match timers _ !! _ with _ => _ end) = _ => destruct (timers (w_st w) !! _)
    | (if ?b then _ else _) = _ => destruct b
    | Some (match ?x with _ => _ end) = _ => destruct x
    end; simplify_eq; try done;
    try (left; eapply (respond_workers w); [|exact Hin|reflexivity];
         first [apply threads_opt_not_worker | by repeat constructor
               | match goal with |- Forall not_worker (if ?b then _ else _) => destruct b; by repeat constructor end]);
    try (left; eapply (arrive_workers w); [exact Hin|reflexivity]).
  - (* ARegister *)
    simpl in Hin. apply elem_of_app in Hin as [Hin|Hin]; [left; by eapply elem_of_delete_pool|].
    apply list_elem_of_singleton in Hin. simplify_eq. right.
    unfold spawn_register in Heqp. simplify_eq. simpl. by rewrite lookup_insert_eq.
  - left. eapply (respond_workers w); [|exact Hin|reflexivity].
    unfold recoverSpawnPanic in Heqp. simplify_eq. by repeat constructor.
  - simpl in Hin. apply elem_of_app in Hin as [Hin|Hin]; [by left|].
    by apply list_elem_of_singleton in Hin.
Qed.
End Workers.
