(* ===== verification/Safety.v ===== *)
(** * System-level guarantees

    What every execution of the orchestrator satisfies: one worker per issue, no
    leaked claim, no workspace removal under a live worker, the concurrency bound,
    and exactly-once completion signals.  The ownership results are for executions
    in which no retry entry is dropped while its reschedule is in flight
    ([calm_step]); [stale_reschedule_double_worker] shows that the hypothesis is
    needed: without it the code can run two workers for one issue. *)

From S2P Require Import Prelude Tracker Workflow RetryPolicy Payload Types State Ops Cleanup.
From S2P Require Import Dispatch Finalize Retry Reconcile RuntimeEvents Poller Effects.
From S2P Require Import System Invariants Refinement.

Section Safety.
Context {S : Type} `{!Scheduler S}.

(** A step that drops no retry entry whose reschedule is pending. *)
Definition calm_step (w w' : World) : Prop := step (S:=S) w w' ∧ calm w w'.
(** The same at a fixed capacity. *)
Definition calm_step_at (n : Z) (w w' : World) : Prop :=
  calm_step w w' ∧ MaxConcurrentAgents (w_st w') = n.

(** ** Invariants along executions *)

Lemma store_inv_init p m : store_inv (init p m).
Proof.
  split; simpl; [apply keyed_init|constructor|by intros r ?%elem_of_nil|constructor|].
  intros r n. by rewrite lookup_empty.
Qed.

Lemma claim_inv_init p m : claim_inv (init p m).
Proof.
  split; [|by intros ? ? ? ? ? ?%elem_of_nil]. intros id.
  assert (slot (w_st (init p m)) id = free_slot) as ->.
  { unfold slot, init, IsCleaningWorkspace. simpl.
    rewrite lookup_empty, !bool_decide_eq_false_2 by set_solver. done. }
  split; cbn; try done; lia.
Qed.

Lemma step_store w w' : step (S:=S) w w' → store_inv w → store_inv w'.
Proof. intros (o & a & Ha & H) HI. by apply (perform_step o a w w'). Qed.

Lemma step_moves w w' : step (S:=S) w w' → store_inv w → claim_inv w → moves w w'.
Proof. intros (o & a & Ha & H) HI HC. by apply (perform_step o a w w'). Qed.

Lemma step_claim w w' :
  calm_step w w' → store_inv w → claim_inv w → claim_inv w'.
Proof.
  intros [Hs Hcalm] HI HC. pose proof (step_moves w w' Hs HI HC) as [k HM].
  assert (∀ id, claim_ok (slot (w_st w') id) (census id (w_pool w'))) as Hok.
  { intros id. eapply own_step_ok; [apply (HM id)|apply HC|apply (Hcalm id)]. }
  split; [exact Hok|]. intros id r i a t Hin.
  destruct Hs as (o & act & _ & HP).
  destruct (perform_workers o act w w' id r i a t HP Hin) as [Hold|Hnew]; [|done].
  assert (∀ l, ThWorker id r i a t ∈ l → cnt (is_worker id) l ≠ 0%nat) as Hpos.
  { intros l Hl Hz. pose proof (cnt_zero _ _ _ Hz Hl) as E. simpl in E.
    by rewrite bool_decide_eq_true_2 in E. }
  pose proof (Hpos _ Hold) as H1. pose proof (Hpos _ Hin) as H2.
  destruct (own_step_run _ _ _ _ _ (HM id) (ci_ok w HC id)) as [E|E];
    [simpl; lia| |simpl in E; lia].
  change (s_run (slot (w_st w') id) = Some r). simpl in E |- *. rewrite E. by eapply (ci_ref w HC).
Qed.

Lemma reach_store p m w : reach (step (S:=S)) (init p m) w → store_inv w.
Proof. apply reach_inv; [intros u v Hu Hs; by eapply step_store|apply store_inv_init]. Qed.

Lemma reach_claim p m w :
  reach calm_step (init p m) w → store_inv w ∧ claim_inv w.
Proof.
  apply (reach_inv calm_step (λ w, store_inv w ∧ claim_inv w));
    [|split; [apply store_inv_init|apply claim_inv_init]].
  intros u v [H1 H2] Hs. split; [by apply (step_store u v); [apply Hs|]|by apply (step_claim u v)].
Qed.

Lemma calm_at_calm n x y : reach (calm_step_at n) x y → reach calm_step x y.
Proof. induction 1 as [|x y z _ IH [H _]]; [apply reach_refl|by eapply reach_step]. Qed.

(** ** Reading the invariant *)

(** Two positions of the pool counted by the same predicate. *)
Lemma cnt_two p l i j t u :
  l !! i = Some t → l !! j = Some u → p t = true → p u = true → i ≠ j → (2 ≤ cnt p l)%nat.
Proof.
  intros Hi Hj Ht Hu Hne. rewrite (cnt_delete p l i t Hi), Ht.
  assert (u ∈ delete i l) as Hin.
  { destruct (decide (i < j)%nat).
    - apply list_elem_of_lookup_2 with (pred j). rewrite list_lookup_delete_ge by lia.
      by replace (Datatypes.S (pred j)) with j by lia.
    - apply list_elem_of_lookup_2 with j. by rewrite list_lookup_delete_lt by lia. }
  destruct (cnt p (delete i l)) eqn:E; [|simpl; lia].
  by rewrite (cnt_zero p _ u E Hin) in Hu.
Qed.

Lemma cnt_pos p l t : t ∈ l → p t = true → (1 ≤ cnt p l)%nat.
Proof.
  intros Hin Ht. destruct (cnt p l) eqn:E; [|lia]. by rewrite (cnt_zero p l t E Hin) in Ht.
Qed.

Lemma cnt_pos_inv p l : (1 ≤ cnt p l)%nat → ∃ t, t ∈ l ∧ p t = true.
Proof.
  unfold cnt. destruct (List.filter p l) as [|t l'] eqn:E; simpl; [lia|]. intros _.
  exists t. rewrite list_elem_of_In, <- filter_In, E. by left.
Qed.

(** ** Capacity *)

Lemma moves_count w w' :
  claim_inv w → moves w w' →
  RunningCount (w_st w') ≤ RunningCount (w_st w) ∨
  RunningCount (w_st w') ≤ RunningCount (w_st w) + 1 ≤ MaxConcurrentAgents (w_st w).
Proof.
  intros HC [k HM]. unfold at_capacity in HM.
  assert (∀ id, id ∈ runningIssueIDs (w_st w') → id ∈ runningIssueIDs (w_st w) ∨
    (id = k ∧ RunningCount (w_st w) < MaxConcurrentAgents (w_st w))) as Hin.
  { intros id. rewrite !slot_counted_iff. intros Hc.
    destruct (own_step_counted _ _ _ _ _ (HM id) (ci_ok w HC id) Hc) as [?|E]; [by left|].
    case_decide; [|done]. apply Z.leb_gt in E. by right. }
  destruct (decide (RunningCount (w_st w) < MaxConcurrentAgents (w_st w))) as [Hlt|Hge].
  - right. split; [|lia]. unfold RunningCount.
    assert (runningIssueIDs (w_st w') ⊆ {[k]} ∪ runningIssueIDs (w_st w)) as HS.
    { intros id [?|[-> _]]%Hin; set_solver. }
    apply subseteq_size in HS.
    pose proof (size_union_alt {[k]} (runningIssueIDs (w_st w))) as E. rewrite size_singleton in E.
    pose proof (subseteq_size (runningIssueIDs (w_st w) ∖ {[k]}) (runningIssueIDs (w_st w))
      ltac:(set_solver)). lia.
  - left. unfold RunningCount. apply inj_le, subseteq_size. by intros id [?|[_ ?]]%Hin.
Qed.

(** The issues with a spawn in flight or a live worker. *)
Definition live_id (t : Thread) : option IssueID :=
  match t with
  | ThSpawn id _ _ _ _ _ _ | ThWorker id _ _ _ _ => Some id
  | _ => None
  end.
Definition live_ids (w : World) : list IssueID := omap live_id (w_pool w).

Lemma live_ids_census id l :
  length (List.filter (String.eqb id) (omap live_id l)) = (cnt (is_spawn id) l + cnt (is_worker id) l)%nat.
Proof.
  unfold cnt, omap. induction l as [|t l IH]; [done|]. destruct t; simpl; try exact IH.
  all: case_bool_decide as E; [subst; rewrite String.eqb_refl
                              |destruct (String.eqb_spec id id0); [congruence|]]; simpl; lia.
Qed.

Lemma NoDup_count (l : list string) :
  (∀ id, (length (List.filter (String.eqb id) l) ≤ 1)%nat) → NoDup l.
Proof.
  induction l as [|x l IH]; intros H; constructor.
  - intros Hx. specialize (H x). simpl in H. rewrite String.eqb_refl in H. simpl in H.
    assert (In x (List.filter (String.eqb x) l)) as HI.
    { apply filter_In. split; [by apply list_elem_of_In|apply String.eqb_refl]. }
    destruct (List.filter (String.eqb x) l); [done|simpl in H; lia].
  - apply IH. intros id. specialize (H id). simpl in H. destruct (String.eqb id x); simpl in H; lia.
Qed.

Lemma live_ids_bound w :
  claim_inv w → NoDup (live_ids w) ∧ ∀ id, id ∈ live_ids w → id ∈ runningIssueIDs (w_st w).
Proof.
  intros HC.
  assert (∀ id, (length (List.filter (String.eqb id) (live_ids w)) =
                 n_spawn (census id (w_pool w)) + n_work (census id (w_pool w)))%nat) as Hc.
  { intros id. apply live_ids_census. }
  split.
  - apply NoDup_count. intros id. rewrite Hc. pose proof (co_excl _ _ (ci_ok w HC id)) as H.
    unfold owners in H. lia.
  - intros id Hin. rewrite slot_counted_iff.
    assert (1 ≤ n_spawn (census id (w_pool w)) + n_work (census id (w_pool w)))%nat as H1.
    { rewrite <- Hc. assert (In id (List.filter (String.eqb id) (live_ids w))) as HI.
      { apply filter_In. split; [by apply list_elem_of_In|apply String.eqb_refl]. }
      destruct (List.filter (String.eqb id) (live_ids w)); [done|simpl; lia]. }
    pose proof (proj1 (claim_ok_facts _ _) (ci_ok w HC id)) as HF. revert HF H1.
    generalize (slot (w_st w) id) (census id (w_pool w)). intros s c HF H1. own_case.
Qed.

Lemma live_ids_count w : claim_inv w → Z.of_nat (length (live_ids w)) ≤ RunningCount (w_st w).
Proof.
  intros [HN HI]%live_ids_bound. unfold RunningCount. apply inj_le.
  rewrite <- (size_list_to_set (C:=gset string) (live_ids w) HN).
  apply subseteq_size. intros id. rewrite elem_of_list_to_set. apply HI.
Qed.

Lemma live_ids_mem w id :
  (1 ≤ n_spawn (census id (w_pool w)) + n_work (census id (w_pool w)))%nat → id ∈ live_ids w.
Proof.
  intros H. assert (∃ t, t ∈ w_pool w ∧ live_id t = Some id) as (t & Ht & E).
  { assert (1 ≤ n_spawn (census id (w_pool w)) ∨ 1 ≤ n_work (census id (w_pool w)))%nat as [H1|H1]
      by lia; apply cnt_pos_inv in H1 as (t & Ht & E); exists t; (split; [done|]);
      destruct t; try done; simpl in *; apply bool_decide_eq_true in E; by subst. }
  apply list_elem_of_omap. by exists t.
Qed.

Lemma pending_mem w id :
  (0 < n_pend (census id (w_pool w)))%nat →
  ∃ op, ThSchedule op ∈ w_pool w ∧ iss_ID (sr_issue op) = id.
Proof.
  intros H. apply cnt_pos_inv in H as (t & Ht & E). destruct t; try done.
  simpl in E. apply bool_decide_eq_true in E. eauto.
Qed.

Lemma slot_run_present st id : bool_decide (is_Some (s_run (slot st id))) = is_present (Running st) id.
Proof. simpl. unfold is_present. by destruct (Running st !! id). Qed.

(** An issue whose workspace is being checked or removed. *)
Definition removal_in_progress (w : World) (id : IssueID) : Prop :=
  ∃ ws, rw_IssueID ws = id ∧
    (ThRemoving ws ∈ w_pool w ∨ ∃ c n, ThCleaning ws c n ∈ w_pool w).

Lemma removal_census w id :
  removal_in_progress w id → (1 ≤ n_clean (census id (w_pool w)))%nat.
Proof.
  intros (ws & <- & [H|(c & n & H)]); (eapply cnt_pos; [exact H|]); simpl; by rewrite bool_decide_eq_true_2.
Qed.

(** ** Theorems *)

(** C1: at most one live worker per issue, and the [Running] entry is its run: in
    every execution that drops no retry entry with a pending reschedule, two worker
    goroutines of the same issue are the same one (SPEC 7.4, "at most one Running
    entry"). *)
Theorem one_worker_per_issue p m w i j id r r' x x' a a' t t' :
  reach calm_step (init p m) w →
  w_pool w !! i = Some (ThWorker id r x a t) → w_pool w !! j = Some (ThWorker id r' x' a' t') →
  i = j ∧ Running (w_st w) !! id = Some r.
Proof.
  intros [_ HC]%reach_claim Hi Hj. split.
  - destruct (decide (i = j)) as [|Hne]; [done|exfalso].
    assert (2 ≤ cnt (is_worker id) (w_pool w))%nat as H2.
    { eapply cnt_two; [exact Hi|exact Hj|..|exact Hne]; simpl; by rewrite bool_decide_eq_true_2. }
    pose proof (co_excl _ _ (ci_ok w HC id)) as HE. unfold owners in HE. simpl in HE. lia.
  - eapply (ci_ref w HC). by eapply list_elem_of_lookup_2.
Qed.

(** C2: ownership is exclusive and complete.  An issue is never in two of Running,
    RetryAttempts and Blocked, and a claim never leaks: a claimed issue has a live or
    starting worker, a queued or pending retry, or a block. *)
Theorem claims_are_owned p m w id :
  reach calm_step (init p m) w →
  (is_Some (Running (w_st w) !! id) → RetryAttempts (w_st w) !! id = None ∧ Blocked (w_st w) !! id = None) ∧
  (is_Some (RetryAttempts (w_st w) !! id) → Blocked (w_st w) !! id = None) ∧
  (id ∈ Claimed (w_st w) →
     id ∈ live_ids w ∨ (∃ op, ThSchedule op ∈ w_pool w ∧ iss_ID (sr_issue op) = id) ∨
     is_Some (RetryAttempts (w_st w) !! id) ∨ is_Some (Blocked (w_st w) !! id)).
Proof.
  intros [_ HC]%reach_claim. pose proof (proj1 (claim_ok_facts _ _) (ci_ok w HC id)) as HF.
  pose proof (live_ids_mem w id) as HL. pose proof (pending_mem w id) as HP.
  assert (∀ V (M : gmap IssueID V), M !! id = None ↔ is_present M id = false) as Hn.
  { intros V M. unfold is_present. by destruct (M !! id). }
  rewrite !Hn, <- !is_present_iff, <- (slot_run_present (w_st w) id).
  change (is_present (RetryAttempts (w_st w)) id) with (s_retry (slot (w_st w) id)).
  change (is_present (Blocked (w_st w)) id) with (s_blocked (slot (w_st w) id)).
  assert (id ∈ Claimed (w_st w) → s_claimed (slot (w_st w) id) = true) as Hcl
    by (intros; by apply bool_decide_eq_true).
  revert HF HL HP Hcl. generalize (slot (w_st w) id) (census id (w_pool w)).
  intros s c HF HL HP Hcl. split_and!; [intros H; revert H HF; clear; intros H HF; own_case..|].
  intros Hin%Hcl. clear Hcl.
  assert (1 ≤ n_spawn c + n_work c ∨ 0 < n_pend c ∨ s_retry s = true ∨ s_blocked s = true)%nat as HD.
  { revert Hin HF. clear. intros Hin HF. own_case. }
  destruct HD as [H|[H|[H|H]]]; auto.
Qed.

(** C6: a workspace is never removed under a worker.  While an issue's workspace is
    being re-verified or deleted, the issue is unclaimed, no worker of it is live or
    starting, and dispatch is barred by the cleaning mark (SPEC 18.1). *)
Theorem removal_excludes_workers p m w id :
  reach calm_step (init p m) w → removal_in_progress w id →
  id ∉ live_ids w ∧ IsClaimed id (w_st w) = false ∧ IsCleaningWorkspace id (w_st w) = true.
Proof.
  intros [_ HC]%reach_claim HR%removal_census.
  pose proof (proj1 (claim_ok_facts _ _) (ci_ok w HC id)) as HF.
  assert (id ∈ live_ids w → slot_counted (slot (w_st w) id) = true) as HL.
  { intros H. apply slot_counted_iff. by apply live_ids_bound. }
  rewrite IsClaimed_slot. change (IsCleaningWorkspace id (w_st w)) with (s_clean (slot (w_st w) id)).
  revert HF HL HR. generalize (slot (w_st w) id) (census id (w_pool w)). intros s c HF HL HR.
  assert (slot_counted s = false ∧ slot_claimed s = false ∧ s_clean s = true) as (H1 & H2 & H3).
  { revert HF HR. clear. intros HF HR. own_case. }
  split_and!; [|done|done]. intros Hin%HL. congruence.
Qed.

(** Every run's [Done] channel is closed at most once (a second close would
    panic the actor), and it is still open while the run's worker is live.  This
    holds in every execution. *)
Theorem done_closed_once p m w :
  reach (step (S:=S)) (init p m) w →
  (∀ r run, runs (w_st w) !! r = Some run → (run_DoneCloses run ≤ 1)%nat) ∧
  (∀ id r x a t, ThWorker id r x a t ∈ w_pool w →
     ∃ run, runs (w_st w) !! r = Some run ∧ run_DoneCloses run = 0%nat).
Proof.
  intros HI%reach_store. split.
  - intros r run E. apply (si_closed w HI r). by rewrite E.
  - intros id r x a t Hin. assert (r ∈ omap worker_ref (w_pool w)) as Hr.
    { apply list_elem_of_omap. by exists (ThWorker id r x a t). }
    apply (si_live w HI) in Hr. apply fmap_Some in Hr as (run & E & ?). eauto.
Qed.

(** C38: the concurrency bound.  At a fixed MaxConcurrentAgents the capacity count and
    the number of live or starting workers never exceed it. *)
Theorem capacity_respected p n w :
  0 ≤ n → reach (calm_step_at n) (init p n) w →
  RunningCount (w_st w) ≤ n ∧ Z.of_nat (length (live_ids w)) ≤ n.
Proof.
  intros Hn HR.
  assert (RunningCount (w_st w) ≤ n ∧ MaxConcurrentAgents (w_st w) = n ∧ store_inv w ∧ claim_inv w)
    as (H1 & _ & _ & HC).
  { revert HR. apply (reach_inv (calm_step_at n) (λ w, RunningCount (w_st w) ≤ n ∧
      MaxConcurrentAgents (w_st w) = n ∧ store_inv w ∧ claim_inv w)).
    - intros u v (Hc & Hm & HI & HC) [Hs Hv].
      pose proof (moves_count u v HC (step_moves u v (proj1 Hs) HI HC)).
      split_and!; [lia|done|by apply (step_store u v); [apply Hs|]|by apply (step_claim u v)].
    - split_and!; [|done|apply store_inv_init|apply claim_inv_init].
      unfold RunningCount, runningIssueIDs, init. simpl. rewrite dom_empty_L.
      replace (size _) with 0%nat; [lia|]. symmetry. apply size_empty_iff. set_solver. }
  split; [done|]. pose proof (live_ids_count w HC). lia.
Qed.

(** C7: refinement.  From any world reached without dropping a pending retry, every
    operation of the actor is, seen from each issue, a move of the ownership
    automaton, and the capacity gate admits at most one issue. *)
Theorem operations_refine_ownership p m w w' :
  reach calm_step (init p m) w → step (S:=S) w w' → moves w w'.
Proof. intros [HI HC]%reach_claim Hs. by apply step_moves. Qed.
End Safety.

(** ** Concrete executions *)

Definition calm_b (w w' : World) : bool :=
  forallb (fun t => match t with
                    | ThSchedule op =>
                        let id := iss_ID (sr_issue op) in
                        implb (s_retry (slot (w_st w) id)) (s_retry (slot (w_st w') id))
                    | _ => true
                    end) (w_pool w).

Lemma calm_b_sound w w' : calm_b w w' = true → calm w w'.
Proof.
  intros H id Hp Hr. apply pending_mem in Hp as (op & Hin & <-).
  unfold calm_b in H. rewrite forallb_forall in H. apply list_elem_of_In, H in Hin.
  rewrite Hr in Hin. exact Hin.
Qed.

(** Runs the actions, checking that each step is calm and keeps the capacity [n]. *)
Fixpoint run_calm {S} `{!Scheduler S} (o : Orchestrator S) (n : Z) (l : list Action) (w : World)
    : option World :=
  match l with
  | [] => Some w
  | a :: l =>
      match perform o a w with
      | Some w' => if calm_b w w' && (MaxConcurrentAgents (w_st w') =? n)
                   then run_calm o n l w' else None
      | None => None
      end
  end.

Lemma reach_trans {A} (R : A → A → Prop) x y z : reach R x y → reach R y z → reach R x z.
Proof. intros H. induction 1; [done|]. by eapply reach_step; [apply IHreach|]. Qed.

Lemma run_calm_reach {S} `{!Scheduler S} (o : Orchestrator S) n l w w' :
  Forall action_ok l → run_calm o n l w = Some w' → reach (calm_step_at (S:=S) n) w w'.
Proof.
  intros HF. revert w. induction HF as [|a l Ha _ IH]; intros w H; simpl in H.
  { injection H as <-. apply reach_refl. }
  destruct (perform o a w) as [u|] eqn:E; [|done].
  destruct (calm_b w u && _) eqn:EB; [|done]. apply andb_true_iff in EB as [EB EM].
  eapply reach_trans; [|by apply IH]. eapply reach_step; [apply reach_refl|].
  split; [split; [by exists o, a|by apply calm_b_sound]|by apply Z.eqb_eq].
Qed.

Lemma perform_all_reach {S} `{!Scheduler S} (o : Orchestrator S) l w w' :
  Forall action_ok l → perform_all o l w = Some w' → reach (step (S:=S)) w w'.
Proof.
  intros HF. revert w. induction HF as [|a l Ha _ IH]; intros w H; simpl in H.
  { injection H as <-. apply reach_refl. }
  destruct (perform o a w) as [u|] eqn:E; [|done].
  eapply reach_trans; [|by apply IH]. eapply reach_step; [apply reach_refl|]. by exists o, a.
Qed.

Lemma calm_at_step {S} `{!Scheduler S} n x y : reach (calm_step_at (S:=S) n) x y → reach (step (S:=S)) x y.
Proof. induction 1 as [|x y z _ IH [[H _] _]]; [apply reach_refl|by eapply reach_step]. Qed.

(** Two issues on one orchestrator. *)
Definition demo_issue (id : string) : Issue :=
  zero_Issue <| iss_ID := id |> <| iss_Identifier := id |> <| iss_Title := "t" |>
             <| iss_State := "Todo" |>.
Definition demo_orch : Orchestrator RetryScheduler :=
  {| o_scheduler := {| MaxBackoff := 5 * Minute |}; o_candidateLister := true;
     o_workspaceCleaner := true; o_runCtxErr := false |}.
Definition demo_failed : option WorkerResult :=
  Some {| wr_Err := Some (OtherError "boom"); wr_InputRequired := false;
          wr_IssueExitState := None; wr_Elapsed := Second |}.
Definition demo_self_stop : option WorkerResult :=
  Some {| wr_Err := None; wr_InputRequired := false;
          wr_IssueExitState := Some {| snap_Found := true; snap_State := "Done"; snap_Active := false;
                                       snap_Terminal := true; snap_OperatorTerminalStop := false |};
          wr_Elapsed := Second |}.
Definition demo_ws : Workspace := Build_Workspace "/w/B" "/w" "B" true.

(** A runs; B runs, self-stops on a terminal state, and its workspace is being
    removed after the re-check. *)
Definition demo_trace : list Action :=
  [ADispatch 10 (demo_issue "A") None true; ARegister 0 11;
   ADispatch 12 (demo_issue "B") None true; ARegister 1 13;
   AWorkspace "B" demo_ws; AFinalize 1 20 demo_self_stop;
   ACleanupBegin 1; ACleanupVerify 1 30 None ∅ true].
Definition demo_world : World := default (init 1000 2) (run_calm demo_orch 2 demo_trace (init 1000 2)).

Lemma demo_reach : reach (calm_step_at (S:=RetryScheduler) 2) (init 1000 2) demo_world.
Proof.
  apply (run_calm_reach demo_orch 2 demo_trace); [by repeat constructor|]. vm_compute. reflexivity.
Qed.

Lemma one_worker_per_issue_witness :
  ∃ r x t, w_pool demo_world !! 0%nat = Some (ThWorker "A" r x None t) ∧
           Running (w_st demo_world) !! "A" = Some r.
Proof.
  do 3 eexists. split; [vm_compute; reflexivity|].
  eapply (one_worker_per_issue (S:=RetryScheduler) 1000 2 demo_world 0 0 "A");
    [exact (calm_at_calm 2 _ _ demo_reach)|vm_compute; reflexivity|vm_compute; reflexivity].
Defined.

Lemma claims_are_owned_witness :
  "A" ∈ Claimed (w_st demo_world) ∧
  ("A" ∈ live_ids demo_world ∨
   (∃ op, ThSchedule op ∈ w_pool demo_world ∧ iss_ID (sr_issue op) = "A") ∨
   is_Some (RetryAttempts (w_st demo_world) !! "A") ∨ is_Some (Blocked (w_st demo_world) !! "A")).
Proof.
  assert ("A" ∈ Claimed (w_st demo_world)) as H 
    by (refine (bool_decide_eq_true_1 ("A" ∈ Claimed (w_st demo_world)) _); vm_compute; reflexivity).
  split; [exact H|].
  apply (claims_are_owned (S:=RetryScheduler) 1000 2 demo_world "A"); [|exact H].
  exact (calm_at_calm 2 _ _ demo_reach).
Defined.

Lemma removal_excludes_workers_witness :
  removal_in_progress demo_world "B" ∧ IsClaimed "B" (w_st demo_world) = false.
Proof.
  assert (removal_in_progress demo_world "B") as H.
  { eexists. split; [|left; apply (list_elem_of_lookup_2 _ 1); vm_compute; reflexivity]. reflexivity. }
  split; [exact H|].
  apply (removal_excludes_workers (S:=RetryScheduler) 1000 2 demo_world "B"); [|exact H].
  exact (calm_at_calm 2 _ _ demo_reach).
Defined.

Lemma done_closed_once_witness :
  ∃ run, runs (w_st demo_world) !! 2%positive = Some run ∧ run_DoneCloses run = 1%nat ∧
         (run_DoneCloses run ≤ 1)%nat.
Proof.
  eexists. split; [vm_compute; reflexivity|]. split; [reflexivity|].
  refine (proj1 (done_closed_once (S:=RetryScheduler) 1000 2 demo_world
    (calm_at_step 2 _ _ demo_reach)) 2%positive _ _). vm_compute. reflexivity.
Defined.

Lemma capacity_respected_witness :
  RunningCount (w_st demo_world) = 1 ∧ RunningCount (w_st demo_world) ≤ 2.
Proof.
  split; [vm_compute; reflexivity|].
  apply (capacity_respected (S:=RetryScheduler) 1000 2 demo_world); [lia|exact demo_reach].
Defined.

Lemma operations_refine_ownership_witness :
  ∃ w', step (S:=RetryScheduler) demo_world w' ∧ moves demo_world w'.
Proof.
  eexists (default demo_world (perform demo_orch (ARemoved 1) demo_world)).
  assert (step (S:=RetryScheduler) demo_world
            (default demo_world (perform demo_orch (ARemoved 1) demo_world))) as H.
  { exists demo_orch, (ARemoved 1). split; [exact I|]. vm_compute. reflexivity. }
  split; [exact H|].
  apply (operations_refine_ownership (S:=RetryScheduler) 1000 2 demo_world); [|exact H].
  exact (calm_at_calm 2 _ _ demo_reach).
Defined.

(** The execution behind the next theorem, with one agent slot.  A fails and queues
    a retry; B takes the slot; A's retry fires, finds no slot and is deferred, its
    reschedule not yet applied; reconciliation sees A inactive and releases it; B
    ends; A is active again and dispatched; the stale reschedule is applied, its
    timer fires, and the retry path, which does not look at [Running], spawns a
    second worker. *)
Definition race_trace : list Action :=
  [ADispatch 10 (demo_issue "A") None true; ARegister 0 11; AFinalize 0 20 demo_failed;
   ASchedule 0 21;
   ADispatch 22 (demo_issue "B") None true; ARegister 0 23;
   ATimer 2%positive; AFire 1 40; AFetch 1 41 [demo_issue "A"; demo_issue "B"] None None ∅;
   AInactive 42 {["A" := demo_issue "A"]} ∅ (Build_Orders [] ["A"] []);
   AFinalize 0 50 demo_self_stop;
   ADispatch 60 (demo_issue "A") None true; ARegister 1 61;
   ASchedule 0 62; ATimer 5%positive; AFire 1 90;
   AFetch 1 91 [demo_issue "A"] None None ∅; ARegister 1 92].
Definition race_world : World := default (init 1000 1) (perform_all demo_orch race_trace (init 1000 1)).

(** The hypothesis of C1 is needed.  [capacityDeferRetry] and
    [retryPollFailedOp] leave the retry entry queued and reschedule it from a
    followup; [scheduleRetryOp.apply] stores the entry unconditionally and
    [retryFireDispatchTail] does not test [Running].  If the entry is released before
    the followup's operation is applied and the issue is dispatched again, two
    workers of one issue are live at the same time. *)
Theorem stale_reschedule_double_worker :
  ∃ w i j r r' x x' a a' t t',
    reach (step (S:=RetryScheduler)) (init 1000 1) w ∧ i ≠ j ∧ r ≠ r' ∧
    w_pool w !! i = Some (ThWorker "A" r x a t) ∧ w_pool w !! j = Some (ThWorker "A" r' x' a' t').
Proof.
  exists race_world, 0%nat, 1%nat. do 8 eexists.
  split; [|split; [|split; [|split; [vm_compute; reflexivity|vm_compute; reflexivity]]]]; [|done|done].
  apply (perform_all_reach demo_orch race_trace).
  - repeat constructor. intros id i. rewrite lookup_singleton_Some. intros [<- <-]. reflexivity.
  - vm_compute. reflexivity.
Qed.
