(* ===== verification/Logs.v ===== *)
(** * Bounded logs and the operator-terminal-stop latch

    The recent-activity buckets, the event log, the ended-session usage and the
    latch are bounded FIFO structures.  [logs_inv] is their joint invariant; every
    operation keeps it, so it holds in every execution. *)

From S2P Require Import Prelude Tracker Workflow RetryPolicy Payload Types State Ops Cleanup Dispatch Finalize Retry Reconcile RuntimeEvents Poller System Preserve Safety.

(** ** Invariants *)

Definition bucket_inv (cap : Z) (b : RecentBucket) : Prop :=
  NoDup (bk_order b) ∧ (∀ id, id ∈ bk_set b ↔ id ∈ bk_order b) ∧
  (0 < cap → slice_len (bk_order b) ≤ cap).

(** The map, its order slice and the cap of the latch. *)
Definition latch_inv (st : OrchestratorState) : Prop :=
  NoDup (operatorTerminalStopOrder st) ∧
  (∀ id, is_Some (OperatorTerminalStops st !! id) ↔ id ∈ operatorTerminalStopOrder st) ∧
  (0 < MaxRecentOperatorTerminalStops st →
   slice_len (operatorTerminalStopOrder st) ≤ MaxRecentOperatorTerminalStops st).

Record logs_inv (st : OrchestratorState) : Prop := {
  li_completed : bucket_inv (MaxRecentCompleted st) (Completed st);
  li_reconcile : bucket_inv (MaxRecentCompleted st) (ReconcileStoppedWithProgress st);
  li_handoff : bucket_inv (MaxRecentCompleted st) (AgentHandoffReconcileStopped st);
  li_nohandoff : bucket_inv (MaxRecentCompleted st) (ActiveSuccessNoHandoff st);
  li_events : (length (RecentEvents st) ≤ maxRuntimeEvents)%nat;
  li_usage : 0 < MaxRecentCompleted st → slice_len (endedSessionUsage st) ≤ MaxRecentCompleted st;
  li_latch : latch_inv st
}.

(** ** One insertion *)

(** The FIFO step shared by the buckets and the latch. *)
Lemma fifo_push (cap : Z) (order : list string) id :
  NoDup order → id ∉ order → (0 < cap → slice_len order ≤ cap) →
  match order ++ [id] with
  | oldest :: rest =>
      if (0 <? cap) && (cap <? slice_len (order ++ [id])) then
        NoDup rest ∧ slice_len rest ≤ cap ∧ id ∈ rest ∧
        ∀ k, k ∈ rest ↔ (k = id ∨ k ∈ order) ∧ k ≠ oldest
      else NoDup (order ++ [id]) ∧ (0 < cap → slice_len (order ++ [id]) ≤ cap)
  | [] => False
  end.
Proof.
  intros HN Hid Hc.
  assert (NoDup (order ++ [id])) as HN'.
  { apply NoDup_app. split_and!; [done|set_solver|apply NoDup_singleton]. }
  assert (slice_len (order ++ [id]) = slice_len order + 1) as HL.
  { unfold slice_len. rewrite length_app. simpl. lia. }
  destruct (order ++ [id]) as [|oldest rest] eqn:E; [by destruct order|].
  apply NoDup_cons in HN' as [Ho Hr].
  assert (∀ k, k ∈ oldest :: rest ↔ k = id ∨ k ∈ order) as Hk by (intros k; rewrite <- E; set_solver).
  destruct (Z.ltb_spec 0 cap); simpl; [|split; [by constructor|lia]].
  destruct (Z.ltb_spec cap (slice_len (oldest :: rest))); [|split; [by constructor|lia]].
  assert (slice_len rest ≤ cap) as Hcap by (unfold slice_len in *; simpl in *; lia).
  assert (∀ k, k ∈ rest ↔ (k = id ∨ k ∈ order) ∧ k ≠ oldest) as Hrest.
  { intros k. rewrite <- Hk, elem_of_cons. split; [intros; split; [by right|by intros ->]|tauto]. }
  split_and!; [done|done| |done]. apply Hrest. split; [by left|]. intros <-.
  destruct order as [|x order]; simpl in E; simplify_eq; [|set_solver].
  unfold slice_len in *. simpl in *. lia.
Qed.

Lemma record_recent_inv cap id b :
  bucket_inv cap b → bucket_inv cap (record_recent cap id b).
Proof.
  intros (HN & HI & HC). unfold record_recent. case_bool_decide as Hin; [done|].
  assert (id ∉ bk_order b) as Hid by (by rewrite <- HI).
  pose proof (fifo_push cap (bk_order b) id HN Hid HC) as HF.
  assert (∀ k, k ∈ bk_order b ++ [id] ↔ k ∈ {[id]} ∪ bk_set b) as Hk
    by (intros k; specialize (HI k); set_solver).
  destruct (bk_order b ++ [id]) as [|oldest rest]; [done|].
  destruct (_ && _); unfold bucket_inv; simpl in *.
  - destruct HF as (H1 & H2 & _ & H3). split_and!; [done| |done].
    intros k. rewrite H3. specialize (HI k). set_solver.
  - destruct HF as (H1 & H2). split_and!; [done| |done]. intros k. by rewrite Hk.
Qed.

Lemma RecordEvent_bound now ev st :
  (length (RecentEvents (RecordEvent now ev st)) ≤ maxRuntimeEvents)%nat.
Proof.
  unfold RecordEvent. simpl. set (evs := RecentEvents st ++ _).
  destruct (Nat.ltb_spec maxRuntimeEvents (length evs)); [|done].
  rewrite keep_last_length. lia.
Qed.

(** ** Frames *)

(** The fields [logs_inv] reads. *)
Definition same_logs (st st' : OrchestratorState) : Prop :=
  MaxRecentCompleted st' = MaxRecentCompleted st ∧ Completed st' = Completed st ∧
  ReconcileStoppedWithProgress st' = ReconcileStoppedWithProgress st ∧
  AgentHandoffReconcileStopped st' = AgentHandoffReconcileStopped st ∧
  ActiveSuccessNoHandoff st' = ActiveSuccessNoHandoff st ∧ RecentEvents st' = RecentEvents st ∧
  endedSessionUsage st' = endedSessionUsage st ∧
  OperatorTerminalStops st' = OperatorTerminalStops st ∧
  operatorTerminalStopOrder st' = operatorTerminalStopOrder st ∧
  MaxRecentOperatorTerminalStops st' = MaxRecentOperatorTerminalStops st.

Lemma logs_frame st st' : same_logs st st' → logs_inv st → logs_inv st'.
Proof.
  intros (E1 & E2 & E3 & E4 & E5 & E6 & E7 & E8 & E9 & E10) [].
  split; unfold latch_inv; rewrite ?E1, ?E2, ?E3, ?E4, ?E5, ?E6, ?E7, ?E8, ?E9, ?E10; done.
Qed.

Lemma logs_event now ev st : logs_inv st → logs_inv (RecordEvent now ev st).
Proof. intros []. split; try done. apply RecordEvent_bound. Qed.

Lemma logs_completed id st : logs_inv st → logs_inv (recordCompleted id st).
Proof. intros []. split; try done. by apply record_recent_inv. Qed.
Lemma logs_nohandoff id st : logs_inv st → logs_inv (recordActiveSuccessNoHandoff id st).
Proof. intros []. split; try done. by apply record_recent_inv. Qed.
Lemma logs_reconcile id st : logs_inv st → logs_inv (recordReconcileStoppedWithProgress id st).
Proof. intros []. split; try done. by apply record_recent_inv. Qed.
Lemma logs_handoff id st : logs_inv st → logs_inv (recordAgentHandoffReconcileStopped id st).
Proof. intros []. split; try done. by apply record_recent_inv. Qed.

Lemma logs_usage now id run elapsed at_ outcome st :
  logs_inv st → logs_inv (recordEndedSessionUsage now id run elapsed at_ outcome st).
Proof.
  intros []. split; try done. simpl. intros Hc. set (usage := endedSessionUsage st ++ _).
  destruct (Z.ltb_spec 0 (MaxRecentCompleted st)); simpl; [|lia].
  destruct (Z.ltb_spec (MaxRecentCompleted st) (slice_len usage)); [|lia].
  unfold slice_len. rewrite keep_last_length. lia.
Qed.

Lemma logs_stop now id issue at_ st :
  logs_inv st → logs_inv (RecordOperatorTerminalStop now id issue at_ st).1.
Proof.
  intros []. unfold RecordOperatorTerminalStop.
  destruct li_latch0 as (HN & HI & HC).
  destruct (OperatorTerminalStops st !! id) as [e|] eqn:E.
  - split; try done. split_and!; [done| |done]. intros k. simpl.
    rewrite lookup_insert_is_Some', HI. split; [|by right]. intros [<-|?]; [|done].
    apply HI. by rewrite E.
  - assert (id ∉ operatorTerminalStopOrder st) as Hid by (rewrite <- HI, E; by intros [? [=]]).
    pose proof (fifo_push (MaxRecentOperatorTerminalStops st) _ id HN Hid HC) as HF.
    assert (∀ k, k ∈ operatorTerminalStopOrder st ++ [id] ↔ k = id ∨ k ∈ operatorTerminalStopOrder st)
      as Hk by set_solver.
    destruct (operatorTerminalStopOrder st ++ [id]) as [|oldest rest]; [done|]. simpl.
    destruct (_ && _); (split; try done); unfold latch_inv; simpl.
    + destruct HF as (H1 & H2 & _ & H3). split_and!; [done| |done]. intros k.
      rewrite H3, <- HI, lookup_delete_is_Some, lookup_insert_is_Some'. naive_solver.
    + destruct HF as (H1 & H2). split_and!; [done| |done]. intros k.
      rewrite Hk, <- HI, lookup_insert_is_Some'. naive_solver.
Qed.

Lemma logs_suppressed now id issue reason st :
  logs_inv st → logs_inv (RecordOperatorTerminalDispatchSuppressed now id issue reason st).1.
Proof.
  intros []. unfold RecordOperatorTerminalDispatchSuppressed.
  destruct (OperatorTerminalStops st !! id) as [e|] eqn:E; [|by split].
  destruct li_latch0 as (HN & HI & HC). split; try done. split_and!; [done| |done].
  intros k. simpl. rewrite lookup_insert_is_Some', HI. split; [|by right]. intros [<-|?]; [|done].
  apply HI. by rewrite E.
Qed.

(** ** Every operation keeps the invariant *)

Lemma logs_timer t st : logs_inv st → logs_inv (stop_timer t st).
Proof. destruct t; [|done]. by apply logs_frame. Qed.

#[export] Instance logs_preserved : Preserved logs_inv.
Proof.
  split; unfold holds; intros *;
    try exact (logs_event _ _ _); try exact (logs_completed _ _); try exact (logs_nohandoff _ _);
    try exact (logs_reconcile _ _); try exact (logs_handoff _ _); try exact (logs_usage _ _ _ _ _ _ _);
    try exact (logs_stop _ _ _ _ _); try exact (logs_suppressed _ _ _ _ _);
    try (by apply logs_frame).
  - destruct c; simpl; unfold UpdateMaxConcurrentAgents, UpdateMaxContinuationTurns, UpdateAgentDefault,
      UpdatePollIntervalMs; repeat case_match; try done; by apply logs_frame.
  - intros _ _. by apply logs_frame.
  - intros H. unfold ReleaseClaim. destruct (RetryAttempts _ !! id) as [e|];
      [apply logs_timer|]; by apply (logs_frame st).
  - intros _ H. unfold BlockRetryWithReason. destruct (RetryAttempts st !! id); [|done].
    destruct (Pos.eqb _ _); [|done]. apply (logs_timer (retry_Timer e)) in H. revert H. by apply logs_frame.
  - intros _ H. unfold consumeContinuationRetry. apply logs_timer. by apply (logs_frame st).
Qed.

Lemma logs_schedule {S} `{!Scheduler S} (o : Orchestrator S) now op st :
  logs_inv st → logs_inv (scheduleRetryOp_apply o now op st).
Proof.
  intros H. unfold scheduleRetryOp_apply, ScheduleRetry. cbv zeta. simpl retry_IssueID.
  set (st1 := st <| next_ref ::= _ |> <| timers ::= _ |>).
  assert (logs_inv st1) as H1 by (revert H; by apply logs_frame). clearbody st1. clear H.
  destruct (RetryAttempts st1 !! _) as [prev|]; [apply (logs_timer (retry_Timer prev)) in H1|];
    revert H1; by apply logs_frame.
Qed.

(** * Logs stay bounded in every execution

    The per-operation lemmas of Logs.v combined over the step relation, and the
    first-in first-out behaviour of one bucket. *)


Lemma logs_init p m : logs_inv (w_st (init p m)).
Proof.
  assert (∀ c, 0 < c → bucket_inv c empty_bucket) as Hb.
  { intros c Hc. split_and!; simpl; [constructor|set_solver|unfold slice_len; simpl; lia]. }
  split; simpl; try (by apply Hb); try lia.
  split_and!; simpl; [constructor| |unfold slice_len; simpl; lia].
  intros id. rewrite lookup_empty. split; [by intros [? [=]]|by intros ?%elem_of_nil].
Qed.

(** Bounded memory.  In every execution the event log holds at most 200 events,
    the four recent-activity buckets and the ended-session usage respect their cap,
    and the operator-terminal-stop latch is a duplicate-free FIFO of at most its cap
    whose map and order slice agree. *)
Theorem logs_stay_bounded {S} `{!Scheduler S} p m w :
  reach (step (S:=S)) (init p m) w → logs_inv (w_st w).
Proof.
  apply (reach_inv (step (S:=S)) (λ w, logs_inv (w_st w))); [|apply logs_init].
  intros u v Hu (o & a & _ & HP). eapply (perform_keep logs_inv o a u v); [..|exact HP|exact Hu].
  - intros. by apply logs_schedule.
  - intros t st. unfold holds. by apply logs_frame.
Qed.

Lemma logs_stay_bounded_witness :
  logs_inv (w_st demo_world) ∧ length (RecentEvents (w_st demo_world)) = 5%nat.
Proof.
  split; [|vm_compute; reflexivity].
  apply (logs_stay_bounded (S:=RetryScheduler) 1000 2 demo_world).
  exact (calm_at_step 2 _ _ demo_reach).
Defined.

(** a recorded id is kept and the oldest is evicted.  After recording, the id is
    in the bucket, the order slice is the old one with the id appended, less its
    first element when the cap is exceeded, and the lifetime counter grew by one. *)
Theorem record_recent_fifo cap id b :
  bucket_inv cap b →
  let b' := record_recent cap id b in
  id ∈ bk_set b' ∧ bk_total b' = bk_total b +i 1 ∧
  (id ∈ bk_set b → bk_order b' = bk_order b) ∧
  (id ∉ bk_set b →
   bk_order b' = (if (0 <? cap) && (cap <? slice_len (bk_order b) + 1)
                  then drop 1 (bk_order b ++ [id]) else bk_order b ++ [id])).
Proof.
  intros HB. pose proof (record_recent_inv cap id b HB) as (_ & HI' & _).
  destruct HB as (HN & HI & HC). cbv zeta. revert HI'. unfold record_recent.
  case_bool_decide as Hin; simpl; [done|]. intros HI'.
  assert (id ∉ bk_order b) as Hid by (by rewrite <- HI).
  pose proof (fifo_push cap (bk_order b) id HN Hid HC) as HF.
  assert (slice_len (bk_order b ++ [id]) = slice_len (bk_order b) + 1) as EL.
  { unfold slice_len. rewrite length_app. simpl. lia. }
  rewrite <- EL. destruct (bk_order b ++ [id]) as [|oldest rest] eqn:EO; [done|]. simpl in *.
  destruct (_ && _); simpl in *; (split_and!; [|done|done|by rewrite ?drop_0]).
  - apply HI'. by destruct HF as (_ & _ & ? & _).
  - apply HI'. rewrite <- EO. set_solver.
Qed.

Lemma record_recent_fifo_witness :
  bk_order (record_recent 2 "c" (record_recent 2 "b" (record_recent 2 "a" empty_bucket))) = ["b"; "c"] ∧
  "c" ∈ bk_set (record_recent 2 "c" (record_recent 2 "b" (record_recent 2 "a" empty_bucket))).
Proof.
  split; [vm_compute; reflexivity|].
  apply (record_recent_fifo 2 "c" (record_recent 2 "b" (record_recent 2 "a" empty_bucket))).
  apply record_recent_inv, record_recent_inv.
  split; [constructor|split; [set_solver|unfold slice_len; simpl; lia]].
Defined.
