(* ===== verification/DispatchProps.v ===== *)
(** * Correctness of dispatch and worker exit

    The decision table of [dispatchOp.apply], the operator-terminal-stop latch, and
    the routing table of [finalizeRunOp.apply]. *)

From S2P Require Import Prelude Tracker Workflow RetryPolicy Payload Types State Ops Cleanup.
From S2P Require Import Dispatch Finalize Retry Effects.

(** ** Dispatch *)

(** The due continuation that a rechecked dispatch takes over. *)
Definition consumable (now : Time) (id : IssueID) (st : OrchestratorState) (e : RetryEntry) : Prop :=
  RetryAttempts st !! id = Some e ∧ retry_Kind e = RetryKindContinuation ∧ retry_DueAt e ≤ now.

(** The per-state slot test as a specification: a configured limit is not reached by
    the in-flight issues of that state, the re-dispatched one not counted. *)
Definition state_slot_free (state : string) (excluded : IssueID) (st : OrchestratorState) : Prop :=
  ∀ limit, MaxConcurrentAgentsByState st !! NormalizeStateConcurrencyKey state = Some limit →
    0 < limit → RunningCountByStateExcluding state excluded st < limit.

Lemma state_slot_free_iff state excluded st :
  StateCapacityFullExcluding state excluded st = false ↔ state_slot_free state excluded st.
Proof.
  unfold StateCapacityFullExcluding, state_slot_free.
  destruct (MaxConcurrentAgentsByState st !! _) as [limit|]; [|naive_solver].
  destruct (Z.leb_spec limit 0); [|rewrite Z.leb_gt]; split; try done.
  - intros _ l [= <-]. lia.
  - intros H' l [= <-]. done.
  - intros H'. apply (H' limit); [done|lia].
Qed.

Lemma gate_consumable now id st e :
  dispatchClaimGateAllows now id st = (Some e, true) ↔ consumable now id st e.
Proof.
  unfold dispatchClaimGateAllows, consumable, IsDue, Before.
  destruct (RetryAttempts st !! id) as [q|]; [|naive_solver].
  case_bool_decide as HK; simpl; [naive_solver|]. rewrite negb_involutive.
  destruct (Z.ltb_spec now (retry_DueAt q)); split; intros H1; simplify_eq; try done;
    destruct H1 as ([= ->] & ? & ?); (lia || done).
Qed.

Lemma gate_fresh now id st :
  dispatchClaimGateAllows now id st = (None, true) ↔ IsClaimed id st = false.
Proof.
  unfold dispatchClaimGateAllows. destruct (RetryAttempts st !! id) as [q|] eqn:E.
  - assert (IsClaimed id st = true) as ->.
    { unfold IsClaimed, is_present. rewrite E. by rewrite orb_true_r. }
    by destruct (_ || _).
  - destruct (IsClaimed id st); naive_solver.
Qed.

Lemma gate_allows now id st :
  (dispatchClaimGateAllows now id st).2 = true ↔
  IsClaimed id st = false ∨ ∃ e, consumable now id st e.
Proof.
  rewrite <- (gate_fresh now). setoid_rewrite <- gate_consumable.
  destruct (dispatchClaimGateAllows now id st) as [[e|] []]; simpl; split; try done;
    try (by left); try (right; by exists e); intros [H|[e' H]]; by inversion H.
Qed.

(** When a rechecked candidate is dispatched.  The actor starts a worker iff the
    issue is not reserved for a workspace removal, not latched by an operator
    terminal stop, is either unclaimed or holds a due continuation within its turn
    budget, and both the global and the per-state capacity leave a slot. *)
Theorem dispatch_accepted_iff now issue attempt st :
  let id := iss_ID issue in
  (∃ f, (dispatchOp_apply now issue attempt true st).2 = inr f) ↔
  id ∉ cleaningWorkspaces st ∧ OperatorTerminalStops st !! id = None ∧
  RunningCount st < MaxConcurrentAgents st ∧
  ((IsClaimed id st = false ∧ state_slot_free (iss_State issue) "" st) ∨
   ∃ e, consumable now id st e ∧
        continuationBudgetExceeded (MaxContinuationTurns st) (retry_ContinuationTurnCount e) = false ∧
        state_slot_free (iss_State issue) id st).
Proof.
  cbv zeta. unfold dispatchOp_apply, IsCleaningWorkspace. set (id := iss_ID issue).
  case_bool_decide as HC; [split; [by intros [? ?]|tauto]|].
  unfold IsOperatorTerminalStopped, is_present.
  destruct (OperatorTerminalStops st !! id) as [o|] eqn:EO.
  { split; [|naive_solver].
    destruct (RecordOperatorTerminalDispatchSuppressed _ _ _ _ _) as [s res]. by intros [? ?]. }
  unfold resolveDispatchClaim. simpl negb. cbv iota.
  pose proof (gate_consumable now id st) as HGc. pose proof (gate_fresh now id st) as HGf.
  destruct (dispatchClaimGateAllows now id st) as [[e|] []]; simpl.
  - assert (consumable now id st e) as He by (by apply HGc).
    assert (∀ e', consumable now id st e' → e' = e) as Huniq.
    { intros e' (E & _). destruct He as (E' & _). congruence. }
    assert (IsClaimed id st = true) as Hcl.
    { destruct He as (E & _). unfold IsClaimed, is_present. rewrite E. by rewrite orb_true_r. }
    destruct (continuationBudgetExceeded _ (retry_ContinuationTurnCount e)) eqn:EB; simpl.
    + split.
      * destruct (BlockRetryWithReason _ _ _ _ _ _ _ _) as [s []]; by intros [? ?].
      * intros (_ & _ & _ & [[? _]|(e' & H1 & H2 & _)]); [congruence|].
        rewrite (Huniq e' H1) in H2. congruence.
    + destruct (Z.leb_spec (MaxConcurrentAgents st) (RunningCount st)) as [Hle|Hlt];
        [split; [by intros [? ?]|intros (_ & _ & ? & _); lia]|].
      destruct (StateCapacityFullExcluding _ _ _) eqn:ES; simpl.
      * split; [by intros [? ?]|]. intros (_ & _ & _ & [[? _]|(e' & _ & _ & H3)]); [congruence|].
        apply state_slot_free_iff in H3. congruence.
      * apply state_slot_free_iff in ES. split; [|by eauto].
        intros _. split_and!; try done. right. eauto.
  - split; [by intros [? ?]|]. intros (_ & _ & _ & [[H _]|(e' & H & _)]).
    + by apply HGf in H.
    + by apply HGc in H.
  - assert (IsClaimed id st = false) as Hcl by (by apply HGf).
    destruct (Z.leb_spec (MaxConcurrentAgents st) (RunningCount st)) as [Hle|Hlt];
      [split; [by intros [? ?]|intros (_ & _ & ? & _); lia]|].
    destruct (StateCapacityFullExcluding _ _ _) eqn:ES; simpl.
    + split; [by intros [? ?]|]. intros (_ & _ & _ & [[_ H]|(e' & H & _)]).
      * apply state_slot_free_iff in H. congruence.
      * by apply HGc in H.
    + apply state_slot_free_iff in ES. split; [|by eauto]. intros _. split_and!; try done. by left.
  - split; [by intros [? ?]|]. intros (_ & _ & _ & [[H _]|(e' & H & _)]).
    + by apply HGf in H.
    + by apply HGc in H.
Qed.

(** An operator terminal stop is final.  While an issue is latched, neither a
    candidate dispatch nor a fired retry, with or without the candidate fetch,
    starts a worker for it; the suppressed dispatch is counted. *)
Theorem latched_issue_never_spawns {S} (o : Orchestrator S) now id stop st :
  OperatorTerminalStops st !! id = Some stop →
  (∀ issue attempt rechecked, iss_ID issue = id →
     (dispatchOp_apply now issue attempt rechecked st).2 = inl ErrNotDispatched ∧
     (id ∉ cleaningWorkspaces st →
      ots_SuppressedDispatches <$> OperatorTerminalStops
        (dispatchOp_apply now issue attempt rechecked st).1 !! id =
      Some (ots_SuppressedDispatches stop +i 1))) ∧
  (∀ fire, rf_id fire = id → ∀ issue a x y z ws,
     (retryFireOp_apply o now fire st).2 ≠ Some (FSpawn id issue a x y z ws)) ∧
  (∀ attempt kind found terminal issue a x y z ws,
     (retryFireAfterFetchOp_apply o now id attempt kind found terminal st).2 ≠
       Some (FSpawn id issue a x y z ws)).
Proof.
  intros Hstop.
  assert (IsOperatorTerminalStopped id st = true) as HL.
  { unfold IsOperatorTerminalStopped, is_present. by rewrite Hstop. }
  assert (∀ e attempt st', OperatorTerminalStops st' = OperatorTerminalStops st →
    ∀ issue a x y z ws, (retryFireDispatchTail o now e id attempt st').2 ≠
      Some (FSpawn id issue a x y z ws)) as Htail.
  { intros e attempt st' E issue a x y z ws. unfold retryFireDispatchTail,
      suppressRetryFireAfterOperatorStop, IsOperatorTerminalStopped, is_present.
    rewrite E, Hstop. simpl.
    by destruct (RecordOperatorTerminalDispatchSuppressed _ _ _ _ _). }
  split_and!.
  - intros issue attempt rechecked <-. unfold dispatchOp_apply, IsCleaningWorkspace.
    case_bool_decide as HC; [by split|]. rewrite HL.
    unfold RecordOperatorTerminalDispatchSuppressed. rewrite Hstop.
    set (e1 := stop <| ots_SuppressedDispatches ::= _ |>).
    destruct (IsZero (ots_FirstSuppressedAt e1)); simpl; (split; [done|]); intros _;
      by rewrite lookup_insert_eq.
  - intros fire <- issue a x y z ws. unfold retryFireOp_apply.
    destruct (matchingRetryEntry _ _ _ _) as [e|]; [|done].
    case_decide; [done|]. destruct (o_candidateLister o); [done|]. by apply Htail.
  - intros attempt kind found terminal issue a x y z ws. unfold retryFireAfterFetchOp_apply.
    destruct (matchingRetryEntry _ _ _ _) as [e|]; [|done].
    destruct found as [i|]; [by apply Htail|].
    destruct terminal as [t|]; [|done]. by destruct (terminalWorkspaceForCleanup _ _ _ _ _).
Qed.

Lemma latched_issue_never_spawns_witness :
  let stop := Build_OperatorTerminalStopEntry zero_Issue "A" "Done" 5 0 0 "" "" in
  let st := (NewOrchestratorState 1000 1) <| OperatorTerminalStops := {["A" := stop]} |> in
  (dispatchOp_apply 10 (zero_Issue <| iss_ID := "A" |>) None true st).2 = inl ErrNotDispatched.
Proof.
  intros stop st.
  apply (latched_issue_never_spawns
    (Build_Orchestrator RetryScheduler {| MaxBackoff := 0 |} true true false) 10 "A" stop st);
    vm_compute; reflexivity.
Defined.

(** ** Worker exit *)

(** The kinds of exit, in the priority order of the state machine (SPEC 7.3). *)
Inductive ExitClass :=
| ExitInputRequired
| ExitBudget
| ExitSelfStop
| ExitCleanupDone
| ExitContinuationBudget
| ExitContinue
| ExitReconciled
| ExitQuota (message : string) (retryAfter : Duration)
| ExitFailure (e : RunError).

Definition exit_class (st : OrchestratorState) (f : finalizeRunOp) : ExitClass :=
  let run := deref st (f_entry f) in
  let res := f_result f in
  let cleanup := run_ReconcileCleanupWorkspace run && runHasCompletedTurn run in
  if run_InputRequired run || wr_InputRequired res ||
     match wr_Err res with Some e => IsInputRequired e | None => false end then ExitInputRequired
  else if run_BudgetExceeded run then ExitBudget
  else match wr_Err res with
       | Some e =>
           if cleanup then ExitReconciled
           else match as_quota e with
                | Some (m, a) => ExitQuota m a
                | None => if run_ReconcileCancel run then ExitReconciled else ExitFailure e
                end
       | None =>
           if match wr_IssueExitState res with Some s => snap_Terminal s | None => false end
           then ExitSelfStop
           else if cleanup then ExitCleanupDone
           else if match wr_IssueExitState res with
                   | Some _ => false
                   | None => continuationBudgetExceeded (MaxContinuationTurns st)
                       (run_ContinuationTurnCount run +i continuationTurnDelta run)
                   end then ExitContinuationBudget
           else ExitContinue
       end.

(** The reschedule an exit asks for: kind, attempt, delay override and turn count. *)
Definition reschedules (fo : option Followup) (issue : Issue) (ws : Workspace) (kind : RetryKind)
    (attempt override turns : Z) (err : string) : Prop :=
  ∃ op, fo = Some (FSchedule op) ∧ sr_issue op = issue ∧ sr_workspace op = ws ∧
    sr_kind op = kind ∧ sr_attempt op = attempt ∧ sr_req op = Build_RetryRequest kind attempt override ∧
    sr_continuationTurnCount op = turns ∧ sr_runErr op = err.

(** The issue is parked with the given method. *)
Definition blocked_with (st : OrchestratorState) (id : IssueID) (method : string) : Prop :=
  ∃ b, Blocked st !! id = Some b ∧ blk_Method b = method.

(** Only a block or a reschedule keeps the claim. *)
Definition no_reschedule (fo : option Followup) : Prop := ∀ op, fo ≠ Some (FSchedule op).

(** What the exit leaves of the issue: its run is gone; a block keeps the claim and drops
    any retry, a stop drops the claim, and whatever is rescheduled keeps it. *)
Definition exit_slot (c : ExitClass) (s : Slot) : Slot :=
  match c with
  | ExitInputRequired | ExitBudget | ExitContinuationBudget =>
      {| s_run := None; s_claimed := true; s_retry := false; s_blocked := true; s_clean := s_clean s |}
  | ExitSelfStop | ExitCleanupDone | ExitReconciled =>
      {| s_run := None; s_claimed := false; s_retry := s_retry s; s_blocked := s_blocked s; s_clean := s_clean s |}
  | ExitContinue | ExitQuota _ _ | ExitFailure _ =>
      {| s_run := None; s_claimed := true; s_retry := s_retry s; s_blocked := s_blocked s; s_clean := s_clean s |}
  end.

Lemma block_run_method now id r at_ m e elapsed st :
  Running st !! id = Some r →
  let st' := (BlockRunWithReason now id r at_ m e elapsed st).1 in
  blocked_with st' id m ∧ slot_upd id parked st st'.
Proof.
  intros HR%is_current_iff. cbv zeta. split.
  - unfold BlockRunWithReason. rewrite HR. eexists. simpl. by rewrite lookup_insert_eq.
  - pose proof (BlockRunWithReason_spec now id r elapsed at_ m e st) as H. cbv zeta in H. rewrite HR in H. apply H.
Qed.

Lemma finish_current {id r op} st :
  finish_spec id r op → Running st !! id = Some r →
  ∃ st1, op st = (st1, true) ∧ runs st1 = runs st ∧ slot_upd id ended st st1.
Proof.
  intros H HR%is_current_iff. specialize (H st). rewrite HR in H. destruct (op st) as [st1 ok].
  simpl in H. destruct H as (-> & HS & Hr & _). by exists st1.
Qed.
(** The claim held for the reschedule. *)
Lemma held_slot id i st st1 st2 :
  slot_upd id ended st st1 → slot_same st1 st2 → slot_upd id held st (hold_claim id i st2).
Proof.
  intros HS HS2. eapply (slot_upd_eq id ((fun s => s <| s_claimed := true |>) ∘ ended)); [|done].
  apply (slot_upd_trans id ended _ st st2); [by eapply slot_upd_same_r|]. slot_tac.
Qed.

Lemma cleanup_no_reschedule {S} (o : Orchestrator S) id entry c :
  no_reschedule (reconciledWorkspaceCleanupFollowup o id entry c).
Proof.
  intros op. unfold reconciledWorkspaceCleanupFollowup. destruct (negb _); [done|].
  destruct (terminalWorkspaceForCleanup _ _ _ _ _); [|done]. by destruct (o_workspaceCleaner o).
Qed.

Section Routing.
Context {S : Type} (o : Orchestrator S) (now : Time) (f : finalizeRunOp) (st : OrchestratorState).
Context (HR : Running st !! f_id f = Some (f_entry f)).

Lemma input_required_route elapsed :
  match exit_class st f with
  | ExitInputRequired => ∃ st', applyInputRequiredBlock now f st elapsed = Some st' ∧
      blocked_with st' (f_id f) (run_InputRequiredMethod (deref st (f_entry f))) ∧ slot_upd (f_id f) parked st st'
  | _ => applyInputRequiredBlock now f st elapsed = None
  end.
Proof.
  unfold exit_class, applyInputRequiredBlock. cbv zeta.
  set (er := match wr_Err (f_result f) with Some e => IsInputRequired e | None => false end).
  destruct (run_InputRequired _ || wr_InputRequired _ || er) eqn:E.
  - assert (negb (run_InputRequired (deref st (f_entry f))) && negb (wr_InputRequired (f_result f)) &&
            negb er = false) as ->.
    { rewrite <- !negb_orb, E. done. }
    unfold BlockRun.
    match goal with |- context [BlockRunWithReason ?a ?b ?c ?d ?m ?g ?h ?k] =>
      pose proof (block_run_method a b c d m g h k HR) as HB;
      destruct (BlockRunWithReason a b c d m g h k) as [st1 ok] end.
    eexists. split; [done|]. destruct HB as [HB HS]. by destruct ok.
  - assert (negb (run_InputRequired (deref st (f_entry f))) && negb (wr_InputRequired (f_result f)) &&
            negb er = true) as ->.
    { rewrite <- !negb_orb, E. done. }
    destruct (run_BudgetExceeded _); [done|]. repeat case_match; done.
Qed.

Lemma budget_route elapsed :
  run_BudgetExceeded (deref st (f_entry f)) = true →
  ∃ st', applyBudgetExceededBlock now f st elapsed = Some st' ∧
    blocked_with st' (f_id f) budgetExceededBlockMethod ∧ slot_upd (f_id f) parked st st'.
Proof.
  intros HB. unfold applyBudgetExceededBlock. rewrite HB. simpl.
  match goal with |- context [BlockRunWithReason ?a ?b ?c ?d ?m ?g ?h ?k] =>
    pose proof (block_run_method a b c d m g h k HR) as HM;
    destruct (BlockRunWithReason a b c d m g h k) as [st1 ok] end.
  by eexists.
Qed.

Lemma continuation_budget_route elapsed turns :
  let res := applyContinuationBudgetBlock now f st elapsed turns in
  slot_upd (f_id f) parked st res.1 ∧ blocked_with res.1 (f_id f) continuationBudgetBlockMethod ∧ res.2 = None.
Proof.
  unfold applyContinuationBudgetBlock.
  match goal with |- context [BlockRunWithReason ?a ?b ?c ?d ?m ?g ?h ?k] =>
    pose proof (block_run_method a b c d m g h k HR) as HM;
    destruct (BlockRunWithReason a b c d m g h k) as [st1 ok] end.
  destruct HM as [HM HS]. by destruct ok.
Qed.

Lemma continue_route elapsed :
  ∃ st1, finishCleanContinuation now f st elapsed = (st1, true) ∧ runs st1 = runs st ∧ slot_upd (f_id f) ended st st1.
Proof.
  unfold finishCleanContinuation. destruct (shouldRecordActiveSuccessNoHandoff _ _).
  - destruct (finish_current st (FinishRunActiveSuccessNoHandoff_spec now (f_id f) (f_entry f) elapsed)
      HR) as (st1 & -> & Hr & HS). by eexists.
  - destruct (finish_current st (FinishRunSucceeded_spec now (f_id f) (f_entry f) elapsed) HR)
      as (st1 & -> & Hr & HS). by eexists.
Qed.

Lemma failed_route elapsed :
  ∃ st1, FinishRunFailed now (f_id f) (f_entry f) elapsed st = (st1, true) ∧ runs st1 = runs st ∧
    slot_upd (f_id f) ended st st1.
Proof. exact (finish_current st (finishRunAborted_spec _ _ _ _ _) HR). Qed.

Lemma cancelled_route elapsed :
  ∃ st1, FinishRunReconciledCancelled now (f_id f) (f_entry f) elapsed st = (st1, true) ∧
    runs st1 = runs st ∧ slot_upd (f_id f) ended st st1.
Proof. exact (finish_current st (finishRunAborted_spec _ _ _ _ _) HR). Qed.
End Routing.

(** What the state machine asks for each class of exit of a run [run] of issue [id]. *)
Definition exit_route (st : OrchestratorState) (f : finalizeRunOp) (st' : OrchestratorState)
    (fo : option Followup) : Prop :=
  let run := deref st (f_entry f) in
  let requeue := reschedules fo (run_Issue run) (run_Workspace run) in
  slot_upd (f_id f) (exit_slot (exit_class st f)) st st' ∧
  match exit_class st f with
  | ExitInputRequired => blocked_with st' (f_id f) (run_InputRequiredMethod run) ∧ fo = None
  | ExitBudget => blocked_with st' (f_id f) "budget_exceeded" ∧ fo = None
  | ExitContinuationBudget => blocked_with st' (f_id f) "continuation_budget" ∧ fo = None
  | ExitSelfStop | ExitCleanupDone | ExitReconciled => no_reschedule fo
  | ExitContinue =>
      requeue RetryKindContinuation (run_ContinuationAttempt run +i 1) 0
        (run_ContinuationTurnCount run +i continuationTurnDelta run) ""
  | ExitQuota message retryAfter =>
      requeue RetryKindQuotaBackoff (Z.max 0 (default 0 (f_attempt f))) retryAfter 0
        (Error (QuotaBackoffError message retryAfter))
  | ExitFailure e =>
      requeue RetryKindFailure (match f_attempt f with None => 1 | Some a => a +i 1 end) 0 0 (Error e)
  end.

Lemma quota_attempt a :
  match a with Some a => if 0 <? a then a else 0 | None => 0 end = Z.max 0 (default 0 a).
Proof. destruct a as [a|]; simpl; [|done]. destruct (Z.ltb_spec 0 a); lia. Qed.

Section CleanExit.
Context {S : Type} (o : Orchestrator S) (now : Time) (f : finalizeRunOp) (st : OrchestratorState).
Context (HR : Running st !! f_id f = Some (f_entry f)).

Lemma self_stop_route elapsed record snap :
  let res := applyTerminalSelfStop o now f st elapsed record snap in
  slot_upd (f_id f) ended st res.1 ∧ no_reschedule res.2.
Proof.
  unfold applyTerminalSelfStop. cbv zeta.
  set (issue := if negb _ then _ else _). set (sta := if negb (blank (snap_State snap)) then _ else st).
  set (stb := if record then _ else sta). set (stc := upd_run _ _ stb).
  assert (slot_same st stc ∧ Running stc = Running st) as [HS HR'].
  { assert (slot_same st sta ∧ Running sta = Running st) as [Ha Ra] by (unfold sta; by destruct (negb _)).
    assert (slot_same sta stb ∧ Running stb = Running sta) as [Hb Rb].
    { unfold stb. destruct record; [|done]. split; [apply slot_same_stop_event|apply stop_event_frame]. }
    split; [by eapply slot_same_trans|]. change (Running stc) with (Running stb). congruence. }
  rewrite <- HR' in HR.
  destruct (finish_current stc (finishRunAborted_spec now (f_id f) (f_entry f) elapsed "terminal_self_stop") HR)
    as (st1 & E & _ & HS1).
  unfold FinishRunTerminalSelfStop. rewrite E. split; [|apply cleanup_no_reschedule].
  by eapply slot_upd_same_l.
Qed.

Lemma clean_exit_route elapsed :
  wr_Err (f_result f) = None → run_BudgetExceeded (deref st (f_entry f)) = false →
  run_InputRequired (deref st (f_entry f)) || wr_InputRequired (f_result f) = false →
  exit_route st f (applyCleanExit o now f st elapsed).1 (applyCleanExit o now f st elapsed).2.
Proof.
  intros He Hb Hi. unfold exit_route, exit_class. cbv zeta. rewrite Hi, He, Hb. simpl.
  unfold applyCleanExit, shouldBlockContinuationBudget. cbv zeta.
  destruct (wr_IssueExitState (f_result f)) as [snap|];
    [destruct (snap_Terminal snap); [apply self_stop_route|]|];
    (destruct (run_ReconcileCleanupWorkspace _ && runHasCompletedTurn _);
     [destruct (finish_current st (FinishRunSucceeded_spec now (f_id f) (f_entry f) elapsed) HR) as (st1 & -> & _ & HS);
      split; [exact HS|apply cleanup_no_reschedule]|]);
    [|destruct (continuationBudgetExceeded _ _); [by apply continuation_budget_route|]];
    destruct (continue_route now f st HR elapsed) as (st1 & -> & Hr & HS);
    (split; [by apply (held_slot _ _ _ st1)|]); unfold deref; rewrite Hr; by eexists.
Qed.
End CleanExit.

(** C39: The worker-exit routing table.  The exit handler of the current run of an issue
    drops that run and touches no other issue's run, claim, retry or block. It blocks the
    issue with the right method, keeping its claim, and queues nothing when input is
    required or a budget is exhausted (runner input before token or runtime budget). When
    the agent or the reconciler stopped the run, or it ended for a clean-up, the issue is
    released: its claim is dropped with the run and nothing is queued. It queues a
    continuation with the next continuation attempt and the accumulated turn count after a
    clean exit, re-queues at the same attempt with the provider's delay on quota
    exhaustion, and queues a failure retry at the next attempt otherwise, each time keeping
    the claim. *)
Theorem finalize_routing {S} (o : Orchestrator S) (now : Time) (f : finalizeRunOp)
    (st : OrchestratorState) :
  Running st !! f_id f = Some (f_entry f) →
  let res := finalizeRunOp_apply o now f st in
  exit_route st f res.1 res.2.
Proof.
  intros HR. unfold finalizeRunOp_apply. cbv zeta.
  set (el := if _ =? 0 then _ else _). clearbody el.
  pose proof (input_required_route now f st HR el) as HI.
  destruct (applyInputRequiredBlock now f st el) as [st1|] eqn:EI.
  { unfold exit_route. destruct (exit_class st f); try done.
    destruct HI as (? & [= ->] & ? & ?). done. }
  assert (run_InputRequired (deref st (f_entry f)) || wr_InputRequired (f_result f) ||
     match wr_Err (f_result f) with Some e => IsInputRequired e | None => false end = false) as Hi.
  { destruct (_ || _ || _) eqn:E; [|done]. exfalso. revert HI. unfold exit_class. cbv zeta.
    rewrite E. by intros (? & ? & ? & ?). }
  destruct (run_BudgetExceeded (deref st (f_entry f))) eqn:EB.
  { destruct (budget_route now f st HR el EB) as (st2 & -> & ? & ?).
    unfold exit_route, exit_class. cbv zeta. by rewrite Hi, EB. }
  unfold applyBudgetExceededBlock. rewrite EB. simpl.
  destruct (wr_Err (f_result f)) as [e|] eqn:Ee.
  2:{ apply clean_exit_route; try done. by apply orb_false_iff in Hi as [? _]. }
  unfold exit_route, exit_class. cbv zeta. rewrite Ee, Hi, EB.
  unfold applyReconciledCancelCleanup. cbv zeta. rewrite <- negb_andb.
  destruct (cancelled_route now f st HR el) as (st1 & Hc & Hr1 & HS1).
  destruct (failed_route now f st HR el) as (st2 & Hf & Hr2 & HS2).
  destruct (run_ReconcileCleanupWorkspace _ && runHasCompletedTurn _); simpl.
  { rewrite Hc. split; [|apply cleanup_no_reschedule].
    eapply slot_upd_same_r; [exact HS1|]. by destruct (runHasCurrentIssueHandoff _). }
  unfold applyQuotaBackoff. destruct (as_quota e) as [[m a]|].
  { rewrite Hf. split; [by apply (held_slot _ _ _ st2)|]. simpl. unfold deref. simpl. rewrite Hr2, quota_attempt. by eexists. }
  unfold applyReconcileCancel. cbv zeta.
  destruct (run_ReconcileCancel _); simpl.
  { rewrite Hc. split; [|apply cleanup_no_reschedule].
    eapply slot_upd_same_r; [exact HS1|]. by destruct (runHasCompletedTurn _), (runHasCurrentIssueHandoff _). }
  unfold applyFailureRetry. rewrite Hf. split; [by apply (held_slot _ _ _ st2)|]. simpl. unfold deref. simpl. rewrite Hr2. by eexists.
Qed.

Lemma finalize_routing_witness :
  let issue := zero_Issue <| iss_ID := "A" |> <| iss_State := "Todo" |> in
  let run := new_RunningEntry issue 5 (Some 3) 0 0 zero_Workspace in
  let st := (NewOrchestratorState 1000 1) <| Running := {["A" := 1%positive]} |>
              <| runs := {[1%positive := run]} |> in
  let f := {| f_id := "A"; f_issue := issue; f_identifier := "A-1"; f_attempt := Some 3;
              f_result := Build_WorkerResult (Some (QuotaBackoffError "limit" 60)) false None 0;
              f_started := 5; f_entry := 1%positive |} in
  let o := Build_Orchestrator RetryScheduler {| MaxBackoff := 0 |} true true false in
  exit_class st f = ExitQuota "limit" 60 ∧
  exit_route st f (finalizeRunOp_apply o 10 f st).1 (finalizeRunOp_apply o 10 f st).2.
Proof.
  intros issue run st f o. split; [vm_compute; reflexivity|].
  apply (finalize_routing o 10 f st). vm_compute. reflexivity.
Defined.
