(* ===== verification/RetryProps.v ===== *)
(** * Correctness of retries and cleanup

    What a scheduled retry stores and arms, what a deferral keeps, which tracker
    evidence a fired retry and a workspace removal need. *)

From S2P Require Import Prelude Tracker Workflow RetryPolicy Payload Types State Ops Cleanup.
From S2P Require Import Dispatch Finalize Retry Effects.

(** ** Scheduling *)

Section Schedule.
Context {S : Type} `{!Scheduler S} (o : Orchestrator S).

Definition scheduled_entry (st' : OrchestratorState) (s : scheduleRetryOp) (now : Time) (timer : Ref)
    (e : RetryEntry) : Prop :=
  RetryAttempts st' !! iss_ID (sr_issue s) = Some e ∧
  retry_Issue e = sr_issue s ∧ retry_IssueID e = iss_ID (sr_issue s) ∧
  retry_Attempt e = sr_attempt s ∧ retry_Kind e = sr_kind s ∧
  retry_Workspace e = sr_workspace s ∧ retry_Error e = sr_runErr s ∧
  retry_ContinuationTurnCount e = sr_continuationTurnCount s ∧
  retry_DueAt e = now + next_delay (o_scheduler o) (sr_req s) ∧
  retry_Timer e = Some timer.

(** The timers a state refers to are older than the next address. *)
Definition timers_old (id : IssueID) (st : OrchestratorState) : Prop :=
  ∀ e t, RetryAttempts st !! id = Some e → retry_Timer e = Some t → (t < next_ref st)%positive.

Lemma stop_timer_other t st t' : t ≠ Some t' → timers (stop_timer t st) !! t' = timers st !! t'.
Proof. intros H. destruct t as [u|]; [|done]. simpl. apply lookup_delete_ne. congruence. Qed.

Lemma schedule_stores now s st :
  ∃ e, scheduled_entry (scheduleRetryOp_apply o now s st) s now (next_ref st) e.
Proof.
  unfold scheduleRetryOp_apply, ScheduleRetry. cbv zeta. simpl.
  eexists. unfold scheduled_entry. simpl.
  split; [apply lookup_insert_eq|]. done.
Qed.

Lemma schedule_timers now s st :
  let id := iss_ID (sr_issue s) in
  timers_old id st →
  timers (scheduleRetryOp_apply o now s st) !! next_ref st =
    Some {| rf_id := id; rf_issue := sr_issue s; rf_attempt := sr_attempt s; rf_kind := sr_kind s |} ∧
  ∀ e t, RetryAttempts st !! id = Some e → retry_Timer e = Some t →
    timers (scheduleRetryOp_apply o now s st) !! t = None.
Proof.
  intros id Hold. unfold scheduleRetryOp_apply, ScheduleRetry. cbv zeta. simpl. fold id.
  destruct (RetryAttempts st !! id) as [prev|] eqn:E; simpl; split.
  - rewrite stop_timer_other; simpl; [apply lookup_insert_eq|]. intros Ht.
    pose proof (Hold prev (next_ref st) E Ht). lia.
  - intros e t [= <-] Ht. rewrite Ht. simpl. apply lookup_delete_eq.
  - apply lookup_insert_eq.
  - done.
Qed.
End Schedule.

(** Scheduling a retry.  The entry is stored under its issue with the requested
    attempt, kind, workspace, error text and turn count; it becomes due after a positive
    delay of the scheduler and is not due before; a fresh timer is armed whose fire
    selects exactly this entry, and the timer of the entry it replaces is stopped. *)
Theorem schedule_retry_arms {S} `{!Scheduler S, !SchedulerLaws S} (o : Orchestrator S) (now : Time)
    (s : scheduleRetryOp) (st : OrchestratorState) :
  sched_ok (o_scheduler o) → timers_old (iss_ID (sr_issue s)) st →
  let id := iss_ID (sr_issue s) in
  let st' := scheduleRetryOp_apply o now s st in
  ∃ e, scheduled_entry o st' s now (next_ref st) e ∧
    (∀ t, IsDue t e = true ↔ now + next_delay (o_scheduler o) (sr_req s) ≤ t) ∧
    now < retry_DueAt e ∧
    (∃ fire, timers st' !! next_ref st = Some fire ∧ rf_id fire = id ∧
       matchingRetryEntry st' (rf_id fire) (rf_attempt fire) (rf_kind fire) = Some e) ∧
    (∀ p t, RetryAttempts st !! id = Some p → retry_Timer p = Some t → timers st' !! t = None).
Proof.
  intros Hok Hold id st'. destruct (schedule_stores o now s st) as [e He].
  destruct (schedule_timers o now s st Hold) as [Ht Hp]. exists e.
  destruct He as (HR & Hi & Hid & Ha & Hk & Hw & Her & Htc & Hd & Hti).
  split_and!; try done.
  - intros t. unfold IsDue, Before. rewrite Hd, negb_true_iff, Z.ltb_ge. done.
  - rewrite Hd. pose proof (next_delay_pos (o_scheduler o) (sr_req s) Hok). lia.
  - eexists. split; [exact Ht|]. split; [done|]. simpl. unfold matchingRetryEntry, st'.
    rewrite HR, Ha, Hk, Z.eqb_refl. simpl. by rewrite bool_decide_eq_false_2 by (intros H; by apply H).
Qed.

Lemma schedule_retry_arms_witness :
  let o := Build_Orchestrator RetryScheduler {| MaxBackoff := 5 * Minute |} true true false in
  let s := scheduleFailureRetry (zero_Issue <| iss_ID := "A" |>) "A-1" 2 "boom" zero_Workspace in
  let st' := scheduleRetryOp_apply o 100 s (NewOrchestratorState 1000 1) in
  ∃ e, RetryAttempts st' !! "A" = Some e ∧ 100 < retry_DueAt e ∧ retry_DueAt e = 100 + 20 * Second.
Proof.
  intros o s st'.
  destruct (schedule_retry_arms o 100 s (NewOrchestratorState 1000 1)) as (e & He & _ & Hlt & _).
  - vm_compute. discriminate.
  - intros e t He. discriminate He.
  - exists e. destruct He as (HR & _ & _ & _ & _ & _ & _ & _ & Hd & _).
    split; [exact HR|]. split; [exact Hlt|]. rewrite Hd. vm_compute. reflexivity.
Defined.

(** ** Deferral *)

(** The reschedule [op] of a deferred entry [e]: same issue, identifier and workspace;
    a quota retry keeps its attempt, any other becomes a failure retry with the next
    attempt and the recorded startup failure. *)
Record keeps (now : Time) (e : RetryEntry) (op : scheduleRetryOp) : Prop := {
  keeps_issue : sr_issue op = retry_Issue e;
  keeps_identifier : sr_identifier op = retry_Identifier e;
  keeps_workspace : sr_workspace op = retry_Workspace e;
  keeps_quota : retry_Kind e = RetryKindQuotaBackoff →
    sr_kind op = RetryKindQuotaBackoff ∧ sr_attempt op = retry_Attempt e ∧
    sr_req op = Build_RetryRequest RetryKindQuotaBackoff (retry_Attempt e)
                  (quotaBackoffDelayOverride now e);
  keeps_failure : retry_Kind e ≠ RetryKindQuotaBackoff →
    sr_kind op = RetryKindFailure ∧ sr_attempt op = retry_Attempt e +i 1 ∧
    sr_startupFailure op = retry_StartupFailure e
}.

Lemma CopyStartupFailure_id s : CopyStartupFailure s = s.
Proof. by destruct s as [[]|]. Qed.

Lemma deferred_keeps now e err :
  ∃ op, deferred_reschedule now e (retry_Kind e) (retry_Attempt e) err = FSchedule op ∧ keeps now e op.
Proof.
  unfold deferred_reschedule. eexists. split; [reflexivity|].
  destruct (decide (retry_Kind e = RetryKindQuotaBackoff)) as [Hq|Hq]; split; try done;
    intros Hq'; try done; simpl; by rewrite !CopyStartupFailure_id.
Qed.

Lemma override_window now e :
  retry_Kind e = RetryKindQuotaBackoff → 0 ≤ now < retry_QuotaBackoffDueAt e →
  retry_QuotaBackoffDueAt e - now ≤ max64 →
  quotaBackoffDelayOverride now e = retry_QuotaBackoffDueAt e - now.
Proof.
  intros HK Hn Hm. unfold quotaBackoffDelayOverride. rewrite decide_False by naive_solver.
  unfold IsZero. destruct (Z.eqb_spec (retry_QuotaBackoffDueAt e) 0); [lia|]. cbv zeta.
  rewrite time_Sub_exact by (unfold in64, min64; lia).
  destruct (Z.leb_spec (retry_QuotaBackoffDueAt e - now) 0); lia.
Qed.

(** The reschedule of a quota retry inside its window is due at the window's end or
    later, and records the window again. *)
Lemma quota_window_kept {S} `{!Scheduler S, !SchedulerLaws S} (o : Orchestrator S) now now' e op st :
  keeps now e op → retry_Kind e = RetryKindQuotaBackoff →
  0 ≤ now < retry_QuotaBackoffDueAt e → now ≤ now' → retry_QuotaBackoffDueAt e - now ≤ max64 →
  ∃ e', RetryAttempts (scheduleRetryOp_apply o now' op st) !! iss_ID (retry_Issue e) = Some e' ∧
    retry_QuotaBackoffDueAt e ≤ retry_DueAt e' ∧ retry_QuotaBackoffDueAt e' = retry_DueAt e'.
Proof.
  intros HK Hq Hw Hn Hm. destruct (keeps_quota _ _ _ HK Hq) as (Hk & Ha & Hreq).
  unfold scheduleRetryOp_apply, ScheduleRetry. cbv zeta. rewrite Hreq, Hk, (keeps_issue _ _ _ HK). simpl.
  rewrite (override_window now e Hq Hw Hm). eexists. split; [apply lookup_insert_eq|]. simpl.
  rewrite next_delay_override by (simpl; lia). simpl.
  destruct (Z.ltb_spec 0 (retry_QuotaBackoffDueAt e - now)); [|lia].
  unfold time_Add. split; lia.
Qed.

(** A deferred retry loses nothing.  When a fired retry finds no free slot, or its
    candidate fetch fails, the entry and the claim stay in place and a reschedule is
    issued that keeps the issue, identifier and workspace; a failure retry advances its
    attempt and keeps the startup failure, a quota retry keeps its attempt, and while
    its provider window is open the rescheduled entry is not due before the window
    closes and records the window again. *)
Theorem deferral_keeps_retry {S} `{!Scheduler S, !SchedulerLaws S} (o : Orchestrator S) (now : Time)
    (id : IssueID) (e : RetryEntry) (err : option string) (st : OrchestratorState) :
  o_runCtxErr o = false → RetryAttempts st !! id = Some e →
  let defers (res : OrchestratorState * option Followup) := ∃ st' op,
    res = (st', Some (FSchedule op)) ∧ RetryAttempts st' = RetryAttempts st ∧
    Claimed st' = Claimed st ∧ keeps now e op ∧
    (retry_Kind e = RetryKindQuotaBackoff → 0 ≤ now < retry_QuotaBackoffDueAt e →
     retry_QuotaBackoffDueAt e - now ≤ max64 → ∀ now' st1, now ≤ now' →
     ∃ e', RetryAttempts (scheduleRetryOp_apply o now' op st1) !! iss_ID (retry_Issue e) = Some e' ∧
       retry_QuotaBackoffDueAt e ≤ retry_DueAt e' ∧ retry_QuotaBackoffDueAt e' = retry_DueAt e') in
  defers (capacityDeferRetry o now id e (retry_Attempt e) st) ∧
  defers (retryPollFailedOp_apply o now id (retry_Attempt e) (retry_Kind e) err st).
Proof.
  intros Hc HR defers.
  assert (∀ st' e1, RetryAttempts st' = RetryAttempts st → Claimed st' = Claimed st →
    defers (st', Some (deferred_reschedule now e (retry_Kind e) (retry_Attempt e) e1))) as HD.
  { intros st' e1 H1 H2. destruct (deferred_keeps now e e1) as (op & -> & HK).
    exists st', op. split_and!; try done. intros. by apply (quota_window_kept o now). }
  unfold capacityDeferRetry, retryPollFailedOp_apply, matchingRetryEntry.
  rewrite Hc, HR, Z.eqb_refl, (bool_decide_eq_false_2 (retry_Kind e ≠ _)) by naive_solver.
  simpl. split; by apply HD.
Qed.

Lemma deferral_keeps_retry_witness :
  let o := Build_Orchestrator RetryScheduler {| MaxBackoff := 5 * Minute |} true true false in
  let s := scheduleQuotaBackoffRetry (zero_Issue <| iss_ID := "A" |>) "A-1" 2 "limit" 600
             zero_Workspace in
  let st := scheduleRetryOp_apply o 100 s (NewOrchestratorState 1000 1) in
  ∃ st' op, retryPollFailedOp_apply o 200 "A" 2 RetryKindQuotaBackoff None st = (st', Some (FSchedule op)) ∧
    sr_attempt op = 2.
Proof.
  intros o s st.
  destruct (RetryAttempts st !! "A") as [e|] eqn:E; [|exfalso; revert E; vm_compute; discriminate].
  assert (retry_Attempt e = 2 ∧ retry_Kind e = RetryKindQuotaBackoff) as [Ha Hk].
  { assert (Some (retry_Attempt e, retry_Kind e) =
      (fun e => (retry_Attempt e, retry_Kind e)) <$> RetryAttempts st !! "A") as H by (rewrite E; reflexivity).
    vm_compute in H. by inversion H. }
  destruct (deferral_keeps_retry o 200 "A" e None st eq_refl E) as [_ (st' & op & H & _ & _ & HK & _)].
  exists st', op. rewrite Ha, Hk in H. split; [exact H|].
  destruct (keeps_quota _ _ _ HK Hk) as (_ & -> & _). exact Ha.
Defined.

(** ** The evidence a fired retry acts on *)

(** The goroutine of [fireWithCandidateFetch]: one fetch, then the operation its answer
    selects. *)
Definition fetch_and_apply {S} (o : Orchestrator S) (now : Time) (id : IssueID) (attempt : Z)
    (kind : RetryKind) (issues : list Issue) (fetchErr : option string)
    (resolver : option RefreshAnswer) (terminalStates : gset string) (st : OrchestratorState)
    : OrchestratorState * option Followup :=
  match candidate_fetch issues fetchErr resolver terminalStates id with
  | FetchPollFailed e => retryPollFailedOp_apply o now id attempt kind e st
  | FetchDone found terminal => retryFireAfterFetchOp_apply o now id attempt kind found terminal st
  end.

(** The tracker confirmed, with a current row, that the issue is in a terminal state. *)
Definition confirmed_terminal (resolver : option RefreshAnswer) (terminalStates : gset string)
    (id : IssueID) (state : string) : Prop :=
  ∃ rows row, resolver = Some (RefreshRows rows) ∧ rows !! id = Some row ∧
    ist_Outcome row = IssueStateOutcomeCurrent ∧ TrimSpace (ist_State row) = state ∧
    state ≠ "" ∧ norm state ∈ terminalStates.

Lemma findIssueByID_Some issues id i : findIssueByID issues id = Some i → i ∈ issues ∧ iss_ID i = id.
Proof.
  unfold findIssueByID. destruct (list_find _ issues) as [[k j]|] eqn:E; [|done].
  intros [= <-]. apply list_find_Some in E as (E & Hid & _). split; [|done].
  by eapply list_elem_of_lookup_2.
Qed.

Lemma findIssueByID_None issues id : findIssueByID issues id = None ↔ id ∉ map iss_ID issues.
Proof.
  unfold findIssueByID. destruct (list_find _ issues) as [[k j]|] eqn:E.
  - apply list_find_Some in E as (E & Hid & _). simpl. split; [done|]. intros H. exfalso. apply H.
    rewrite <- Hid. apply list_elem_of_fmap. exists j. split; [done|]. by eapply list_elem_of_lookup_2.
  - apply list_find_None in E. rewrite Forall_forall in E. split; [|done]. intros _ H.
    apply list_elem_of_fmap in H as (j & -> & Hj). by apply (E j).
Qed.

Lemma resolve_terminal_spec resolver terms id s :
  resolveRetryTerminalState resolver terms id = Some s → confirmed_terminal resolver terms id s.
Proof.
  unfold resolveRetryTerminalState. destruct resolver as [[|rows]|]; try done.
  case_bool_decide; [done|]. destruct (rows !! id) as [row|] eqn:ER; [|done].
  destruct (ist_Outcome row) eqn:EO; try done. cbv zeta.
  destruct (String.eqb_spec (TrimSpace (ist_State row)) ""); [done|]. simpl.
  destruct (isTerminalTrackerState _ _) eqn:ET; [|done]. intros [= <-].
  exists rows, row. split_and!; try done. by apply bool_decide_eq_true_1 in ET.
Qed.

Lemma stopped_iff id st :
  IsOperatorTerminalStopped id st = true ↔ is_Some (OperatorTerminalStops st !! id).
Proof.
  unfold IsOperatorTerminalStopped, is_present. destruct (OperatorTerminalStops st !! id); split;
    try done; by intros [? ?].
Qed.

Lemma retries_event now ev st : RetryAttempts (RecordEvent now ev st) = RetryAttempts st.
Proof. done. Qed.

Lemma release_dequeues id st : RetryAttempts (ReleaseClaim id st) !! id = None.
Proof.
  unfold ReleaseClaim. simpl. destruct (RetryAttempts st !! id) eqn:E; simpl; [|done].
  destruct (retry_Timer _); apply lookup_delete_eq.
Qed.

(** The contract of one fired retry of [id], queued as [e]. *)
Record evidence_based {S} (o : Orchestrator S) (id : IssueID) (e : RetryEntry)
    (issues : list Issue) (fetchErr : option string) (resolver : option RefreshAnswer)
    (terms : gset string) (st : OrchestratorState) (res : OrchestratorState * option Followup)
    : Prop := {
  ev_keeps err : fetchErr = Some err → id ∉ map iss_ID issues → o_runCtxErr o = false →
    RetryAttempts res.1 = RetryAttempts st ∧ Claimed res.1 = Claimed st ∧
    ∃ op, res.2 = Some (FSchedule op) ∧ sr_issue op = retry_Issue e;
  ev_spawn id' issue a ca ct b ws : res.2 = Some (FSpawn id' issue a ca ct b ws) →
    id' = id ∧ issue ∈ issues ∧ iss_ID issue = id ∧ ws = retry_Workspace e ∧
    RunningCount st < MaxConcurrentAgents st ∧ OperatorTerminalStops st !! id = None;
  ev_cleanup w c : res.2 = Some (FCleanup w c) →
    fetchErr = None ∧ id ∉ map iss_ID issues ∧ rw_IssueID w = id ∧ c = None ∧
    confirmed_terminal resolver terms id (rw_State w) ∧ RetryAttempts res.1 !! id = None;
  ev_dequeue : RetryAttempts res.1 !! id = None →
    (∃ issue a ca ct b ws, res.2 = Some (FSpawn id issue a ca ct b ws)) ∨
    (fetchErr = None ∧ id ∉ map iss_ID issues) ∨ is_Some (OperatorTerminalStops st !! id)
}.

Section Evidence.
Context {S : Type} (o : Orchestrator S) (now : Time).

(** The four ways a dispatch tail ends. *)
Inductive tail_outcome (entry : RetryEntry) (id : IssueID) (st : OrchestratorState)
    : OrchestratorState * option Followup → Prop :=
| tail_stopped st' : is_Some (OperatorTerminalStops st !! id) → RetryAttempts st' !! id = None →
    tail_outcome entry id st (st', None)
| tail_shutdown st' : o_runCtxErr o = true → RetryAttempts st' = RetryAttempts st →
    tail_outcome entry id st (st', None)
| tail_defer st' op : sr_issue op = retry_Issue entry → RetryAttempts st' = RetryAttempts st →
    tail_outcome entry id st (st', Some (FSchedule op))
| tail_spawn st' a : RunningCount st < MaxConcurrentAgents st → OperatorTerminalStops st !! id = None →
    RetryAttempts st' !! id = None →
    tail_outcome entry id st
      (st', Some (FSpawn id (retry_Issue entry) a 0 0 0 (retry_Workspace entry))).

Lemma tail_cases entry id attempt st :
  tail_outcome entry id st (retryFireDispatchTail o now entry id attempt st).
Proof.
  unfold retryFireDispatchTail, suppressRetryFireAfterOperatorStop. cbv zeta.
  destruct (IsOperatorTerminalStopped id st) eqn:ES; simpl.
  { apply stopped_iff in ES.
    destruct (RecordOperatorTerminalDispatchSuppressed _ _ _ _ _) as [? [[? []]|]];
      (apply tail_stopped; [done|apply release_dequeues]). }
  assert (OperatorTerminalStops st !! id = None) as HN.
  { destruct (OperatorTerminalStops st !! id) eqn:E; [|done].
    assert (IsOperatorTerminalStopped id st = true) by (apply stopped_iff; eauto). congruence. }
  assert (tail_outcome entry id st (capacityDeferRetry o now id entry attempt st)) as HD.
  { unfold capacityDeferRetry. destruct (o_runCtxErr o) eqn:EC; [by apply tail_shutdown|].
    unfold deferred_reschedule. apply tail_defer; [|done]. by case_decide. }
  destruct (Z.leb_spec (MaxConcurrentAgents st) (RunningCount st)); [done|].
  destruct (StateCapacityFull _ st); [done|]. apply tail_spawn; [done|done|].
  simpl. apply lookup_delete_eq.
Qed.

Lemma matching_self st id e :
  RetryAttempts st !! id = Some e → matchingRetryEntry st id (retry_Attempt e) (retry_Kind e) = Some e.
Proof.
  intros HR. unfold matchingRetryEntry.
  by rewrite HR, Z.eqb_refl, (bool_decide_eq_false_2 (retry_Kind e ≠ _)) by naive_solver.
Qed.

Lemma evidence_found id e i issues err resolver terms st :
  RetryAttempts st !! id = Some e → findIssueByID issues id = Some i →
  evidence_based o id e issues err resolver terms st
    (retryFireAfterFetchOp_apply o now id (retry_Attempt e) (retry_Kind e) (Some i) None st).
Proof.
  intros HR HF. apply findIssueByID_Some in HF as [Hin Hid].
  assert (id ∈ map iss_ID issues) as Hl by (rewrite <- Hid; by apply list_elem_of_fmap_2).
  unfold retryFireAfterFetchOp_apply. rewrite (matching_self _ _ _ HR). cbv zeta.
  set (e2 := if String.eqb _ "" then _ else _).
  assert (retry_Issue e2 = i ∧ retry_Workspace e2 = retry_Workspace e) as [Hi Hw]
    by (unfold e2; by destruct (String.eqb _ "")).
  match goal with |- context [retryFireDispatchTail o now e2 id ?a ?s] =>
    set (st1 := s); pose proof (tail_cases e2 id a st1) as HT; revert HT;
    generalize (retryFireDispatchTail o now e2 id a st1) end.
  assert (RunningCount st1 = RunningCount st ∧ MaxConcurrentAgents st1 = MaxConcurrentAgents st ∧
    OperatorTerminalStops st1 = OperatorTerminalStops st) as (Hrc & Hmx & Hos).
  { split; [|done]. apply RunningCount_same. intros id'. unfold slot. simpl.
    unfold is_present. destruct (decide (id' = id)) as [->|?].
    - by rewrite lookup_insert_eq, HR.
    - by rewrite lookup_insert_ne. }
  assert (RetryAttempts st1 !! id ≠ None) as Hq by (simpl; by rewrite lookup_insert_eq).
  clearbody st1 e2.
  intros res [st' Hs _|st' Hc Hra|st' op Hi' Hra|st' a Hlt Hn _]; split; simpl;
    rewrite <- ?Hrc, <- ?Hmx, <- ?Hos; try (by intros ? _ []); try discriminate.
  - intros _. by right; right.
  - intros Hn. by rewrite Hra in Hn.
  - intros Hn. by rewrite Hra in Hn.
  - intros id' issue a' ca ct b ws [= <- <- _ _ _ _ <-]. rewrite Hi, Hw.
    split_and!; [done|exact Hin|exact Hid|done|exact Hlt|exact Hn].
  - intros _. left. by repeat eexists.
Qed.

Lemma evidence_missing id e issues resolver terms st :
  RetryAttempts st !! id = Some e → id ∉ map iss_ID issues →
  evidence_based o id e issues None resolver terms st
    (retryFireAfterFetchOp_apply o now id (retry_Attempt e) (retry_Kind e) None
       (resolveRetryTerminalState resolver terms id) st).
Proof.
  intros HR HF. unfold retryFireAfterFetchOp_apply. rewrite (matching_self _ _ _ HR). cbv zeta.
  destruct (resolveRetryTerminalState resolver terms id) as [s|] eqn:ET;
    [destruct (terminalWorkspaceForCleanup _ _ _ _ _) as [w|] eqn:EW|]; split;
    cbn [fst snd]; try discriminate; auto.
  intros w' c [= <- <-]. apply resolve_terminal_spec in ET.
  unfold terminalWorkspaceForCleanup in EW. cbv zeta in EW. destruct (String.eqb _ ""); [done|].
  injection EW as <-. split_and!; [done|done|done|done|done|].
  rewrite retries_event. apply release_dequeues.
Qed.

Lemma evidence_poll_failed id e issues err resolver terms st :
  RetryAttempts st !! id = Some e →
  evidence_based o id e issues (Some err) resolver terms st
    (retryPollFailedOp_apply o now id (retry_Attempt e) (retry_Kind e) (Some err) st).
Proof.
  intros HR. unfold retryPollFailedOp_apply. rewrite (matching_self _ _ _ HR).
  unfold deferred_reschedule. destruct (o_runCtxErr o) eqn:EC; split; simpl; try done; try congruence.
  intros _ _ _ _. split_and!; try done. eexists. split; [reflexivity|]. by case_decide.
Qed.
End Evidence.

(** A fired retry acts only on evidence.  When the fetch failed and did not list the
    issue, nothing is released: the claim and the entry stay and a reschedule is issued.
    A worker is spawned, in the workspace the retry kept, only for an issue the tracker
    listed and under free capacity.  A workspace is handed to removal only when the
    fetch succeeded without listing the issue and a current tracker row put it in a
    configured terminal state; and the entry leaves the queue only by such a spawn, by a
    successful fetch that no longer lists the issue, or by an operator's terminal stop. *)
Theorem fired_retry_evidence {S} (o : Orchestrator S) (now : Time) (id : IssueID) (e : RetryEntry)
    (issues : list Issue) (fetchErr : option string) (resolver : option RefreshAnswer)
    (terms : gset string) (st : OrchestratorState) :
  RetryAttempts st !! id = Some e →
  evidence_based o id e issues fetchErr resolver terms st
    (fetch_and_apply o now id (retry_Attempt e) (retry_Kind e) issues fetchErr resolver terms st).
Proof.
  intros HR. unfold fetch_and_apply, candidate_fetch.
  destruct (findIssueByID issues id) as [i|] eqn:EF.
  - destruct fetchErr; by apply evidence_found.
  - apply findIssueByID_None in EF as Hl. destruct fetchErr as [err|].
    + by apply evidence_poll_failed.
    + by apply evidence_missing.
Qed.

Lemma fired_retry_evidence_witness :
  let o := Build_Orchestrator RetryScheduler {| MaxBackoff := 5 * Minute |} true true false in
  let s := scheduleFailureRetry (zero_Issue <| iss_ID := "A" |>) "A-1" 2 "boom" zero_Workspace in
  let st := scheduleRetryOp_apply o 100 s (NewOrchestratorState 1000 1) in
  let res := fetch_and_apply o 200 "A" 2 RetryKindFailure [] (Some "timeout") None ∅ st in
  RetryAttempts res.1 = RetryAttempts st ∧ Claimed res.1 = Claimed st.
Proof.
  intros o s st res.
  destruct (RetryAttempts st !! "A") as [e|] eqn:E; [|exfalso; revert E; vm_compute; discriminate].
  assert (retry_Attempt e = 2 ∧ retry_Kind e = RetryKindFailure) as [Ha Hk].
  { assert (Some (retry_Attempt e, retry_Kind e) =
      (fun e => (retry_Attempt e, retry_Kind e)) <$> RetryAttempts st !! "A") as H by (rewrite E; reflexivity).
    vm_compute in H. by inversion H. }
  pose proof (fired_retry_evidence o 200 "A" e [] (Some "timeout") None ∅ st E) as H.
  rewrite Ha, Hk in H. destruct (ev_keeps _ _ _ _ _ _ _ _ _ H "timeout" eq_refl) as (H1 & H2 & _).
  - apply not_elem_of_nil.
  - reflexivity.
  - split; [exact H1|exact H2].
Defined.

(** ** Workspace removal *)

(** What the deletion-time recheck learned about the issue. *)
Inductive recheck (resolver : option RefreshAnswer) (terms : gset string) (id : string)
    : reconciledWorkspaceStateVerdict → Prop :=
| recheck_unwired : resolver = None ∨ terms = ∅ →
    recheck resolver terms id reconciledWorkspaceStateCurrentTerminal
| recheck_terminal rows row : resolver = Some (RefreshRows rows) → rows !! id = Some row →
    ist_Outcome row = IssueStateOutcomeCurrent → blank (ist_State row) = false →
    norm (ist_State row) ∈ terms →
    recheck resolver terms id reconciledWorkspaceStateCurrentTerminal
| recheck_reopened rows row : resolver = Some (RefreshRows rows) → rows !! id = Some row →
    ist_Outcome row = IssueStateOutcomeCurrent → norm (ist_State row) ∉ terms →
    recheck resolver terms id reconciledWorkspaceStateCurrentNonTerminal
| recheck_absent rows row : resolver = Some (RefreshRows rows) → rows !! id = Some row →
    ist_Outcome row = IssueStateOutcomeAbsent →
    recheck resolver terms id reconciledWorkspaceStateAbsent
| recheck_inconclusive : resolver ≠ None → terms ≠ ∅ →
    (∀ rows row, resolver = Some (RefreshRows rows) → rows !! id = Some row →
       ist_Outcome row ≠ IssueStateOutcomeAbsent ∧
       (ist_Outcome row = IssueStateOutcomeCurrent → blank (ist_State row) = true)) →
    recheck resolver terms id reconciledWorkspaceStateUnknown.

Lemma verify_recheck resolver terms w :
  recheck resolver terms (rw_IssueID w) (verifyReconciledWorkspaceStillTerminal resolver terms w).2.
Proof.
  unfold verifyReconciledWorkspaceStillTerminal.
  destruct resolver as [answer|]; [|apply recheck_unwired; by left].
  destruct (bool_decide (terms = ∅)) eqn:ET;
    [apply bool_decide_eq_true_1 in ET; apply recheck_unwired; by right|].
  apply bool_decide_eq_false_1 in ET.
  destruct answer as [|rows]; [by apply recheck_inconclusive|].
  destruct (rows !! rw_IssueID w) as [row|] eqn:ER;
    [|apply recheck_inconclusive; [done|done|by intros ? ? [= <-]; rewrite ER]].
  assert (ist_Outcome row ≠ IssueStateOutcomeAbsent →
    (ist_Outcome row = IssueStateOutcomeCurrent → blank (ist_State row) = true) →
    recheck (Some (RefreshRows rows)) terms (rw_IssueID w) reconciledWorkspaceStateUnknown) as HU.
  { intros H1 H2. apply recheck_inconclusive; [done|done|]. intros ? ? [= <-]. rewrite ER.
    by intros [= <-]. }
  destruct (ist_Outcome row) eqn:EO; [by apply HU| |by eapply recheck_absent|by apply HU].
  destruct (blank (ist_State row)) eqn:EB; [by apply HU|].
  unfold isTerminalTrackerState.
  destruct (bool_decide (norm (ist_State row) ∈ terms)) eqn:HN; simpl.
  - apply bool_decide_eq_true_1 in HN. by eapply recheck_terminal.
  - apply bool_decide_eq_false_1 in HN. by eapply recheck_reopened.
Qed.

(** A workspace is removed only when it is safe.  One cleanup attempt removes the
    workspace it was asked to remove, and only when a current tracker row has the issue
    in a configured terminal state (or no state reader or terminal state is configured);
    a reopened issue resumes its continuation unless an operator stopped it; an
    inconclusive answer is retried after a positive delay, at most eight times. *)
Theorem cleanup_attempt_safe {S} `{!Scheduler S, !SchedulerLaws S} (o : Orchestrator S)
    (resolver : option RefreshAnswer) (terms : gset string)
    (stop : option (option OperatorTerminalStopEntry)) (w : ReconciledWorkspace)
    (c : option continuationAfterSkippedCleanup) (n : Z) :
  sched_ok (o_scheduler o) →
  let found := recheck resolver terms (rw_IssueID w) in
  match cleanup_attempt o resolver terms stop w c n with
  | CleanupRemove w' => found reconciledWorkspaceStateCurrentTerminal ∧
      rw_IssueID w' = rw_IssueID w ∧ rw_Path w' = rw_Path w ∧ rw_Root w' = rw_Root w
  | CleanupRetryAfter delay n' => found reconciledWorkspaceStateUnknown ∧
      n' = n +i 1 ∧ n' ≤ 8 ∧ 0 < delay
  | CleanupGiveUp => found reconciledWorkspaceStateUnknown ∧ 8 < n +i 1
  | CleanupResume op => found reconciledWorkspaceStateCurrentNonTerminal ∧ stop = Some None ∧
      ∃ k, c = Some k ∧ sr_issue op = cont_issue k ∧ sr_attempt op = cont_attempt k ∧
        sr_workspace op = cont_workspace k ∧ sr_kind op = RetryKindContinuation
  | CleanupWakePoll => found reconciledWorkspaceStateCurrentNonTerminal ∧ stop = Some None ∧ c = None
  | CleanupSkip => found reconciledWorkspaceStateAbsent ∨
      found reconciledWorkspaceStateCurrentNonTerminal ∧ stop ≠ Some None
  end.
Proof.
  intros Hok found. pose proof (verify_recheck resolver terms w) as HV. unfold cleanup_attempt.
  destruct (verifyReconciledWorkspaceStillTerminal resolver terms w) as [s v]. simpl in HV.
  destruct v.
  - unfold retryReconciledWorkspaceCleanup, maxReconciledCleanupStateRetries.
    destruct (Z.ltb_spec 8 (n +i 1)); [done|]. split_and!; [done|done|done|].
    by apply next_delay_pos.
  - by destruct (blank s).
  - destruct stop as [[?|]|]; simpl; [right; by split| |right; by split].
    destruct c as [k|]; simpl; split_and!; try done. by exists k.
  - by left.
Qed.

Lemma cleanup_attempt_safe_witness :
  let o := Build_Orchestrator RetryScheduler {| MaxBackoff := 5 * Minute |} true true false in
  let w := Build_ReconciledWorkspace "A" "A-1" "/w/A" "/w" "Done" "terminal" in
  ∃ d, cleanup_attempt o (Some RefreshError) {["done"]} (Some None) w None 0 = CleanupRetryAfter d 1 ∧
    0 < d.
Proof.
  intros o w. exists (10 * Second). split; [vm_compute; reflexivity|].
  assert (sched_ok (o_scheduler o)) as Hok by (vm_compute; discriminate).
  exact (proj2 (proj2 (proj2 (cleanup_attempt_safe o (Some RefreshError) {["done"]} (Some None) w None 0 Hok)))).
Defined.
