(* ===== verification/RetryLive.v ===== *)
(** * Queued retries are driven

    A queued failure or quota retry never sits idle: in every execution that is not
    shutting down, something is on its way to fire, fetch for, or replace it.  [rq] is
    what an operation other than a reschedule may do to the retry queue and the armed
    timers; [live_inv] is the inductive invariant. *)

From S2P Require Import Prelude Tracker Workflow RetryPolicy Payload Types State Ops Cleanup.
From S2P Require Import Dispatch Finalize Retry Reconcile RuntimeEvents Poller Effects System.
From S2P Require Import Invariants Refinement Safety Preserve RetryProps.

(** ** The retry queue only shrinks *)

Record rq (st st' : OrchestratorState) : Prop := {
  rq_entry id e' : RetryAttempts st' !! id = Some e' →
    ∃ e, RetryAttempts st !! id = Some e ∧ same_retry e e';
  rq_stopped t f : timers st !! t = Some f →
    timers st' !! t = Some f ∨
    ∃ id e, RetryAttempts st !! id = Some e ∧ retry_Timer e = Some t ∧ RetryAttempts st' !! id = None;
  rq_timers t f : timers st' !! t = Some f → timers st !! t = Some f;
  rq_next : (next_ref st ≤ next_ref st')%positive
}.

Lemma same_retry_refl e : same_retry e e.
Proof. split_and!; auto. Qed.
Lemma same_retry_trans e1 e2 e3 : same_retry e1 e2 → same_retry e2 e3 → same_retry e1 e3.
Proof.
  intros (A1 & A2 & A3) (B1 & B2 & B3). split_and!; [congruence|congruence|].
  destruct B3 as [->| ->]; auto.
Qed.

#[export] Instance rq_preorder : PreOrder rq.
Proof.
  split.
  - intros st. split; [|by auto|done|done]. intros id e E. exists e. split; [done|apply same_retry_refl].
  - intros x y z [A1 A2 A3 A4] [B1 B2 B3 B4]. split.
    + intros id e'' (e' & E' & S')%B1. destruct (A1 id e' E') as (e & E & S1). exists e.
      split; [done|]. by eapply same_retry_trans.
    + intros t f Ht. destruct (A2 t f Ht) as [Hy|(id & e & E & Et & Hn)].
      * destruct (B2 t f Hy) as [Hz|(id & e' & E' & Et & Hn)]; [by left|]. right.
        destruct (A1 id e' E') as (e & E & (_ & _ & [Hs|Hs])); [|congruence].
        exists id, e. split_and!; [done|congruence|done].
      * right. exists id, e. split_and!; [done|done|].
        destruct (RetryAttempts z !! id) as [e'|] eqn:Ez; [|done].
        destruct (B1 id e' Ez) as (e1 & E1 & _). congruence.
    + auto.
    + lia.
Qed.

(** Operations that leave the queue and the timers alone. *)
Lemma rq_frame st st' :
  RetryAttempts st' = RetryAttempts st → timers st' = timers st →
  (next_ref st ≤ next_ref st')%positive → rq st st'.
Proof.
  intros E1 E2 E3. split; rewrite ?E1, ?E2; [|by auto|done|done].
  intros id e E. exists e. split; [done|apply same_retry_refl].
Qed.

(** Dropping an entry, with or without stopping its timer. *)
Lemma rq_drop id st st' :
  RetryAttempts st' = delete id (RetryAttempts st) → next_ref st' = next_ref st →
  (timers st' = timers st ∨
   ∃ e t, RetryAttempts st !! id = Some e ∧ retry_Timer e = Some t ∧ timers st' = delete t (timers st)) →
  rq st st'.
Proof.
  intros E1 E2 E3. split.
  - intros k e. rewrite E1. intros [_ E]%lookup_delete_Some. exists e. split; [done|apply same_retry_refl].
  - intros t f Ht. destruct E3 as [E3|(e & t' & E & Et & E3)]; rewrite E3; [by left|].
    destruct (decide (t = t')) as [->|Hne]; [|left; by rewrite lookup_delete_ne].
    right. exists id, e. split_and!; [done|done|]. by rewrite E1, lookup_delete_eq.
  - intros t f. destruct E3 as [->|(e & t' & _ & _ & ->)]; [done|]. by intros [_ ?]%lookup_delete_Some.
  - rewrite E2. done.
Qed.

Lemma rq_reissue id e e' st :
  RetryAttempts st !! id = Some e → same_retry e e' →
  rq st (st <| RetryAttempts ::= insert id e' |>).
Proof.
  intros E Hs. split; simpl; [|by auto|done|done]. intros k x.
  rewrite lookup_insert_Some. intros [[<- <-]|[_ Ex]]; [by exists e|].
  exists x. split; [done|apply same_retry_refl].
Qed.

Lemma rq_release id st : rq st (ReleaseClaim id st).
Proof.
  unfold ReleaseClaim. simpl. destruct (RetryAttempts st !! id) as [e|] eqn:E; [|by apply rq_frame].
  apply (rq_drop id); [by destruct (retry_Timer e)|by destruct (retry_Timer e)|].
  destruct (retry_Timer e) as [t|] eqn:Et; [right|by left]. by exists e, t.
Qed.

Lemma rq_stop now id issue at_ st : rq st (RecordOperatorTerminalStop now id issue at_ st).1.
Proof.
  unfold RecordOperatorTerminalStop. destruct (OperatorTerminalStops st !! id); [by apply rq_frame|].
  destruct (operatorTerminalStopOrder st ++ [id]); [by apply rq_frame|].
  destruct (_ && _); by apply rq_frame.
Qed.

Lemma rq_block_retry now id e issue at_ m err st :
  RetryAttempts st !! id = Some e → rq st (BlockRetryWithReason now id e issue at_ m err st).1.
Proof.
  intros E. unfold BlockRetryWithReason. rewrite E, Pos.eqb_refl. cbv zeta. cbn [fst].
  apply (rq_drop id); simpl; [by destruct (retry_Timer e)|by destruct (retry_Timer e)|].
  destruct (retry_Timer e) as [t|] eqn:Et; [right|by left]. by exists e, t.
Qed.

Lemma rq_consume id e st :
  RetryAttempts st !! id = Some e → rq st (consumeContinuationRetry id (Some e) st).
Proof.
  intros E. unfold consumeContinuationRetry.
  apply (rq_drop id); [by destruct (retry_Timer e)|by destruct (retry_Timer e)|].
  destruct (retry_Timer e) as [t|] eqn:Et; [right|by left]. by exists e, t.
Qed.

#[export] Instance rq_preserved st0 : Preserved (rq st0).
Proof.
  split; unfold holds; intros *; try (intros H; etransitivity; [exact H|by apply rq_frame]).
  - intros H. etransitivity; [exact H|]. apply rq_frame; simpl; [done|done|lia].
  - intros H. etransitivity; [exact H|]. destruct c; simpl; unfold UpdateMaxConcurrentAgents,
      UpdateMaxContinuationTurns, UpdateAgentDefault, UpdatePollIntervalMs; repeat case_match;
      by apply rq_frame.
  - intros H. etransitivity; [exact H|apply rq_stop].
  - intros H. etransitivity; [exact H|]. unfold RecordOperatorTerminalDispatchSuppressed.
    destruct (OperatorTerminalStops st !! id); by apply rq_frame.
  - intros H. etransitivity; [exact H|]. apply (rq_drop id); [done|done|by left].
  - intros E Hs H. etransitivity; [exact H|]. by eapply rq_reissue.
  - intros H. etransitivity; [exact H|apply rq_release].
  - intros E H. etransitivity; [exact H|by apply rq_block_retry].
  - intros E H. etransitivity; [exact H|by apply rq_consume].
Qed.

Lemma holds_refl st : holds (rq st) st.
Proof. unfold holds. reflexivity. Qed.

(** ** The invariant *)

(** Thread [t] will act on the retry [(id, attempt, kind)]. *)
Definition drives (id : IssueID) (attempt : Z) (kind : RetryKind) (t : Thread) : Prop :=
  match t with
  | ThFire f => rf_id f = id ∧ rf_attempt f = attempt ∧ rf_kind f = kind
  | ThFetch id' attempt' kind' => id' = id ∧ attempt' = attempt ∧ kind' = kind
  | ThSchedule op => iss_ID (sr_issue op) = id
  | _ => False
  end.

(** A timer armed for this very entry, its fire in the queue, its candidate fetch in
    flight, or a reschedule of its issue on the way. *)
Definition driven (w : World) (id : IssueID) (e : RetryEntry) : Prop :=
  (∃ t f, timers (w_st w) !! t = Some f ∧ drives id (retry_Attempt e) (retry_Kind e) (ThFire f)) ∨
  (∃ t, t ∈ w_pool w ∧ drives id (retry_Attempt e) (retry_Kind e) t).

Record live_inv (w : World) : Prop := {
  lv_driven id e : RetryAttempts (w_st w) !! id = Some e → retry_Kind e ≠ RetryKindContinuation →
    driven w id e;
  lv_own id e t f : RetryAttempts (w_st w) !! id = Some e → retry_Timer e = Some t →
    timers (w_st w) !! t = Some f → rf_id f = id;
  lv_old id : timers_old id (w_st w);
  lv_armed t f : timers (w_st w) !! t = Some f → (t < next_ref (w_st w))%positive
}.

Lemma pool_split (l : list Thread) i t t' : l !! i = Some t → t' ∈ l → t' = t ∨ t' ∈ delete i l.
Proof.
  intros Hi Hin. rewrite <- (take_drop_middle l i t Hi) in Hin. rewrite delete_take_drop.
  apply elem_of_app in Hin as [?|[?|?]%elem_of_cons]; [right|by left|right]; apply elem_of_app; auto.
Qed.

(** A shrinking operation keeps the invariant if the threads it consumes are replaced. *)
Lemma live_rq w st' pool' :
  live_inv w → rq (w_st w) st' →
  (∀ id e t, RetryAttempts st' !! id = Some e → retry_Kind e ≠ RetryKindContinuation →
     t ∈ w_pool w → drives id (retry_Attempt e) (retry_Kind e) t →
     driven {| w_st := st'; w_pool := pool' |} id e) →
  live_inv {| w_st := st'; w_pool := pool' |}.
Proof.
  intros [L1 L2 L3 L4] [R1 R2 R3 R4] Hp. split; simpl.
  - intros id e' E' Hk. destruct (R1 id e' E') as (e & E & Ha & Hkk & Ht).
    rewrite Hkk in Hk. destruct (L1 id e E Hk) as [(t & f & Hf & Hd)|(t & Hin & Hd)].
    + left. destruct (R2 t f Hf) as [Hf'|(id0 & e0 & E0 & Et & Hn)].
      { exists t, f. simpl. by rewrite Ha, Hkk. }
      pose proof (L2 id0 e0 t f E0 Et Hf) as Hid. destruct Hd as [Hd _]. congruence.
    + rewrite <- Ha, <- Hkk in Hd. apply (Hp id e' t); try done. by rewrite Hkk.
  - intros id e' t f E' Et Hf. destruct (R1 id e' E') as (e & E & _ & _ & [Ht|Ht]); [|congruence].
    apply (L2 id e t f E); [congruence|auto].
  - intros id e' t E' Et. destruct (R1 id e' E') as (e & E & _ & _ & [Ht|Ht]); [|congruence].
    assert (t < next_ref (w_st w))%positive by (apply (L3 id e t E); congruence). lia.
  - intros t f Hf. assert (t < next_ref (w_st w))%positive by exact (L4 t f (R3 t f Hf)). lia.
Qed.

Lemma live_arrive w st' f :
  live_inv w → rq (w_st w) st' → live_inv (arrive w (st', f)).
Proof.
  intros HL HR. unfold arrive. simpl. apply (live_rq w); [done|done|]. intros id e t _ _ Hin Hd.
  right. exists t. split; [|done]. simpl. apply elem_of_app. by left.
Qed.

Lemma live_respond w i t st' new :
  w_pool w !! i = Some t → live_inv w → rq (w_st w) st' →
  (∀ id e, RetryAttempts st' !! id = Some e → retry_Kind e ≠ RetryKindContinuation →
     drives id (retry_Attempt e) (retry_Kind e) t →
     ∃ t', t' ∈ new ∧ drives id (retry_Attempt e) (retry_Kind e) t') →
  live_inv (respond w i st' new).
Proof.
  intros Hi HL HR Hn. unfold respond. apply (live_rq w); [done|done|]. intros id e t' E Hk Hin Hd. right.
  apply (pool_split _ _ _ _ Hi) in Hin as [->|Hin].
  - destruct (Hn id e E Hk Hd) as (t2 & Ht2 & Hd2). exists t2. split; [|done]. simpl.
    apply elem_of_app. by right.
  - exists t'. split; [|done]. simpl. apply elem_of_app. by left.
Qed.

(** ** Reschedules and timers *)

(** What a reschedule leaves of the queue and of the timers. *)
Section Reschedule.
Context {S : Type} `{!Scheduler S} (o : Orchestrator S) (now : Time) (op : scheduleRetryOp)
  (st : OrchestratorState).
Let id0 := iss_ID (sr_issue op).
Let st' := scheduleRetryOp_apply o now op st.

Ltac unfold_schedule p :=
  unfold st', scheduleRetryOp_apply, ScheduleRetry; simpl;
  destruct (RetryAttempts st !! iss_ID (sr_issue op)) as [p|] eqn:?; simpl;
  [destruct (retry_Timer p) eqn:?; simpl|].

Lemma schedule_other id : id ≠ id0 → RetryAttempts st' !! id = RetryAttempts st !! id.
Proof. intros Hne. unfold_schedule p; by rewrite lookup_insert_ne. Qed.

Lemma schedule_next : next_ref st' = Pos.succ (next_ref st).
Proof. by unfold_schedule p. Qed.

Lemma schedule_old_timer k f :
  k ≠ next_ref st → timers st' !! k = Some f → timers st !! k = Some f.
Proof. intros Hne. unfold_schedule p; rewrite ?lookup_delete_Some, lookup_insert_ne by done; tauto. Qed.

Lemma schedule_keeps_timer k f :
  timers st !! k = Some f → (k < next_ref st)%positive →
  (∀ p, RetryAttempts st !! id0 = Some p → retry_Timer p ≠ Some k) → timers st' !! k = Some f.
Proof.
  intros Hf Hk Hp. unfold_schedule p; [|by rewrite lookup_insert_ne by lia..].
  rewrite lookup_delete_ne; [by rewrite lookup_insert_ne by lia|]. intros ->. by eapply Hp.
Qed.
End Reschedule.

(** A reschedule replaces the entry of its issue with one whose timer is armed. *)
Lemma live_schedule {S} `{!Scheduler S} (o : Orchestrator S) w i t now op new :
  let id0 := iss_ID (sr_issue op) in
  w_pool w !! i = Some t → (∀ id a k, drives id a k t → id = id0) → live_inv w →
  live_inv (respond w i (scheduleRetryOp_apply o now op (w_st w)) new).
Proof.
  intros id0 Hi Ht [L1 L2 L3 L4]. set (st := w_st w) in *.
  destruct (schedule_stores o now op st) as (e0 & E0 & _ & _ & Ha0 & Hk0 & _ & _ & _ & _ & Ht0).
  destruct (schedule_timers o now op st (L3 id0)) as [Hnew _].
  pose proof (schedule_other o now op st) as Hother. pose proof (schedule_next o now op st) as Hnext.
  pose proof (schedule_old_timer o now op st) as Hold. fold id0 in E0, Hother.
  set (st' := scheduleRetryOp_apply o now op st) in *.
  unfold respond. split; cbn [w_st w_pool].
  - intros id e E Hk. destruct (decide (id = id0)) as [->|Hne].
    { left. exists (next_ref st). eexists. split; [exact Hnew|]. simpl.
      rewrite E0 in E. injection E as <-. by rewrite Ha0, Hk0. }
    rewrite Hother in E by done. destruct (L1 id e E Hk) as [(k & f & Hf & Hd)|(t' & Hin & Hd)].
    + left. exists k, f. split; [|done]. apply schedule_keeps_timer; [done|by eapply L4|].
      intros p Ep Et. apply Hne. destruct Hd as [<- _]. by apply (L2 id0 p k f).
    + right. exists t'. split; [|done]. simpl. apply elem_of_app. left.
      apply (pool_split _ _ _ _ Hi) in Hin as [->|Hin]; [|done]. by apply Ht in Hd.
  - intros id e k f E Et Hf. destruct (decide (id = id0)) as [->|Hne].
    { rewrite E0 in E. injection E as <-. rewrite Ht0 in Et. injection Et as <-.
      rewrite Hnew in Hf. by injection Hf as <-. }
    rewrite Hother in E by done. pose proof (L3 id e k E Et).
    apply (L2 id e k); [done|done|]. apply Hold; [lia|done].
  - intros id e k E Et. rewrite Hnext. destruct (decide (id = id0)) as [->|Hne].
    { rewrite E0 in E. injection E as <-. rewrite Ht0 in Et. injection Et as <-. lia. }
    rewrite Hother in E by done. pose proof (L3 id e k E Et). lia.
  - intros k f Hf. rewrite Hnext. destruct (decide (k = next_ref st)) as [->|Hne]; [lia|].
    pose proof (L4 k f (Hold k f Hne Hf)). lia.
Qed.

(** A timer that goes off becomes a fire in the queue. *)
Lemma live_timer w t f :
  timers (w_st w) !! t = Some f → live_inv w →
  live_inv {| w_st := (w_st w) <| timers ::= delete t |>; w_pool := w_pool w ++ [ThFire f] |}.
Proof.
  intros Hf [L1 L2 L3 L4]. split; simpl.
  - intros id e E Hk. destruct (L1 id e E Hk) as [(k & g & Hg & Hd)|(t' & Hin & Hd)].
    + destruct (decide (k = t)) as [->|Hne].
      * right. exists (ThFire g). split; [|done]. rewrite Hf in Hg. injection Hg as <-. simpl.
        apply elem_of_app. right. by left.
      * left. exists k, g. split; [|done]. simpl. by rewrite lookup_delete_ne.
    + right. exists t'. split; [|done]. simpl. apply elem_of_app. by left.
  - intros id e k g E Et [_ Hg]%lookup_delete_Some. by eapply L2.
  - intros id e k E Et. by eapply L3.
  - intros k g [_ Hg]%lookup_delete_Some. by eapply L4.
Qed.

Lemma live_init p m : live_inv (init p m).
Proof.
  split; simpl; intros *; rewrite ?lookup_empty; done.
Qed.

(** ** Fires and fetches *)

Section Fires.
Context {S : Type} `{!Scheduler S} (o : Orchestrator S) (Hrun : o_runCtxErr o = false) (now : Time).

(** A dispatch tail dequeues the entry or issues a reschedule of it. *)
Lemma tail_replaced entry id attempt st e :
  iss_ID (retry_Issue entry) = id →
  let res := retryFireDispatchTail o now entry id attempt st in
  RetryAttempts res.1 !! id = Some e →
  ∃ t, t ∈ threads_opt res.2 ∧ drives id attempt (retry_Kind entry) t.
Proof.
  intros Hid res. unfold res.
  destruct (tail_cases o now entry id attempt st) as [st' _ Hn|st' Hc _|st' op Hi _|st' a _ _ Hn];
    simpl; intros E; try congruence.
  exists (ThSchedule op). split; [by left|]. simpl. by rewrite Hi.
Qed.

Lemma fire_replaced fire st id e :
  keyed st → let res := retryFireOp_apply o now fire st in
  RetryAttempts res.1 !! id = Some e → retry_Kind e ≠ RetryKindContinuation →
  drives id (retry_Attempt e) (retry_Kind e) (ThFire fire) →
  ∃ t, t ∈ threads_opt res.2 ∧ drives id (retry_Attempt e) (retry_Kind e) t.
Proof.
  intros HK res E Hk (Hid & Ha & Hkk).
  assert (rq st res.1) as HR by (apply (keep_fire (rq st) o now fire st), holds_refl).
  destruct (rq_entry _ _ HR id e E) as (e0 & E0 & Ha0 & Hk0 & _).
  revert E. unfold res, retryFireOp_apply. rewrite Hid, Ha, Hkk, Ha0, Hk0, (matching_self st id e0 E0).
  rewrite decide_False by congruence. destruct (o_candidateLister o).
  - intros _. exists (ThFetch id (retry_Attempt e0) (retry_Kind e0)). split; [by left|]. done.
  - intros E. destruct (tail_replaced e0 id (retry_Attempt e0) st e) as (t & Ht & Hd);
      [by apply (keyed_retry st HK)|exact E|]. by exists t.
Qed.

Lemma poll_failed_replaced st id a k err e :
  keyed st → let res := retryPollFailedOp_apply o now id a k err st in
  RetryAttempts res.1 !! id = Some e → drives id (retry_Attempt e) (retry_Kind e) (ThFetch id a k) →
  ∃ t, t ∈ threads_opt res.2 ∧ drives id (retry_Attempt e) (retry_Kind e) t.
Proof.
  intros HK res E (_ & -> & ->).
  assert (rq st res.1) as HR by (apply (keep_poll_failed (rq st) o now), holds_refl).
  destruct (rq_entry _ _ HR id e E) as (e0 & E0 & Ha0 & Hk0 & _).
  unfold res, retryPollFailedOp_apply. rewrite Ha0, Hk0, (matching_self st id e0 E0), Hrun.
  destruct (deferred_keeps now e0 (match err with None => "retry poll failed"
    | Some e => "retry poll failed: " +:+ e end)) as (op & -> & HKP). simpl.
  exists (ThSchedule op). split; [by left|]. simpl. rewrite (keeps_issue _ _ _ HKP).
  by apply (keyed_retry st HK).
Qed.

Lemma after_fetch_replaced st id a k found term e :
  (∀ i, found = Some i → iss_ID i = id) →
  let res := retryFireAfterFetchOp_apply o now id a k found term st in
  RetryAttempts res.1 !! id = Some e → drives id (retry_Attempt e) (retry_Kind e) (ThFetch id a k) →
  ∃ t, t ∈ threads_opt res.2 ∧ drives id (retry_Attempt e) (retry_Kind e) t.
Proof.
  intros Hf res E (_ & -> & ->).
  assert (rq st res.1) as HR by (apply (keep_after_fetch (rq st) o now), holds_refl).
  destruct (rq_entry _ _ HR id e E) as (e0 & E0 & Ha0 & Hk0 & _).
  revert E. unfold res, retryFireAfterFetchOp_apply. rewrite Ha0, Hk0, (matching_self st id e0 E0). cbv zeta.
  destruct found as [i|].
  - set (e2 := if String.eqb _ "" then _ else _).
    assert (retry_Issue e2 = i ∧ retry_Kind e2 = retry_Kind e0) as [Hi Hk2]
      by (unfold e2; by destruct (String.eqb _ "")).
    intros E. edestruct (tail_replaced e2 id (retry_Attempt e0)) as (t & Ht & Hd);
      [rewrite Hi; by apply Hf|exact E|]. exists t. by rewrite Hk2 in Hd.
  - destruct term as [s|]; [destruct (terminalWorkspaceForCleanup _ _ _ _ _)|]; simpl fst;
      rewrite retries_event, release_dequeues; done.
Qed.
End Fires.

Lemma live_fetch {S} `{!Scheduler S} (o : Orchestrator S) w i id attempt kind now issues fetchErr
    resolver terminalStates :
  o_runCtxErr o = false → keyed (w_st w) → w_pool w !! i = Some (ThFetch id attempt kind) → live_inv w →
  let '(st, f) :=
    match candidate_fetch issues fetchErr resolver terminalStates id with
    | FetchPollFailed e => retryPollFailedOp_apply o now id attempt kind e (w_st w)
    | FetchDone found terminal => retryFireAfterFetchOp_apply o now id attempt kind found terminal (w_st w)
    end in
  live_inv (respond w i st (threads_opt f)).
Proof.
  intros Hrun HK Ei HL. pose proof (holds_refl (w_st w)) as HR.
  destruct (candidate_fetch issues fetchErr resolver terminalStates id) as [e|found term] eqn:EC.
  - pose proof (keep_poll_failed _ o now id attempt kind e _ HR) as HQ.
    pose proof (λ e', poll_failed_replaced o Hrun now (w_st w) id attempt kind e e' HK) as HF.
    destruct (retryPollFailedOp_apply _ _ _ _ _ _ _) as [st f].
    eapply live_respond; [exact Ei|done|exact HQ|]. intros id' e' E Hk Hd.
    destruct (proj1 Hd). by apply HF.
  - assert (∀ i, found = Some i → iss_ID i = id) as Hfound.
    { intros x ->. revert EC. unfold candidate_fetch.
      destruct fetchErr, (findIssueByID issues id) as [y|] eqn:EF; intros [= ->];
        by eapply findIssueByID_ID. }
    pose proof (keep_after_fetch _ o now id attempt kind found term _ HR) as HQ.
    pose proof (λ e', after_fetch_replaced o Hrun now (w_st w) id attempt kind found term e' Hfound) as HF.
    destruct (retryFireAfterFetchOp_apply _ _ _ _ _ _ _ _) as [st f].
    eapply live_respond; [exact Ei|done|exact HQ|]. intros id' e' E Hk Hd.
    destruct (proj1 Hd). by apply HF.
Qed.

(** ** Every step *)

Lemma live_perform {S} `{!Scheduler S} (o : Orchestrator S) a w w' :
  o_runCtxErr o = false → store_inv w → perform o a w = Some w' → live_inv w → live_inv w'.
Proof.
  intros Hrun HS HP HL. pose proof (si_keyed w HS) as HK. pose proof (holds_refl (w_st w)) as HR.
  destruct a; cbv beta iota zeta delta [perform perform_thread] in HP;
    try (destruct (w_pool w !! i) as [t|] eqn:Ei; [|done]; destruct t; try done).
  - pose proof (keep_dispatch _ now issue attempt trackerRechecked _ HR) as HQ.
    destruct (dispatchOp_apply _ _ _ _ _) as [st res]. simplify_eq. by apply live_arrive.
  - assert (rq (w_st w) (spawn_register now id issue attempt continuationAttempt continuationTurnCount
      workspace (w_st w)).1) as HQ.
    { apply rq_frame; simpl; [done|done|lia]. }
    destruct (spawn_register _ _ _ _ _ _ _ _) as [st r]. simplify_eq.
    by eapply live_respond; [exact Ei|done|exact HQ|].
  - unfold recoverSpawnPanic in HP. simplify_eq.
    eapply live_respond; [exact Ei|done|by apply rq_frame|done].
  - match type of HP with context [finalizeRunOp_apply o now ?f (w_st w)] =>
      pose proof (keep_finalize _ o now f _ HR) as HQ;
      destruct (finalizeRunOp_apply o now f (w_st w)) as [st fo] end. simplify_eq.
    by eapply live_respond; [exact Ei|done|exact HQ|].
  - simplify_eq. eapply live_schedule; [exact Ei| |done]. by intros id a k <-.
  - destruct (timers (w_st w) !! t) as [f|] eqn:Et; [|done]. simplify_eq. by apply live_timer.
  - pose proof (keep_fire _ o now fire _ HR) as HQ.
    pose proof (fire_replaced o Hrun now fire (w_st w)) as HF.
    destruct (retryFireOp_apply o now fire (w_st w)) as [st f]. simplify_eq.
    eapply live_respond; [exact Ei|done|exact HQ|]. intros id e E Hk Hd. by apply HF.
  - pose proof (live_fetch o w i id attempt kind now issues fetchErr resolver terminalStates
      Hrun HK Ei HL) as HF.
    match type of HP with context [let '(_, _) := ?x in _] => destruct x as [st f] end.
    by injection HP as <-.
  - destruct (negb _); [simplify_eq; by eapply live_respond|].
    unfold beginWorkspaceCleanupOp_apply in HP.
    destruct (_ || _); simplify_eq; [by eapply live_respond|].
    eapply live_respond; [exact Ei|done|by apply rq_frame|done].
  - destruct (cleanup_attempt _ _ _ _ _ _ _); simplify_eq; try (by eapply live_respond).
    by eapply live_schedule; [exact Ei| |done].
  - simplify_eq. by eapply live_respond.
  - simplify_eq. eapply live_respond; [exact Ei|done|by apply rq_frame|done].
  - simplify_eq. apply live_arrive; [done|]. by apply (keep_patch (rq (w_st w))).
  - simplify_eq. apply live_arrive; [done|]. by apply (keep_refresh (rq (w_st w))).
  - simplify_eq. apply live_arrive; [done|]. by apply (keep_stalled (rq (w_st w))).
  - simplify_eq. apply live_arrive; [done|]. by apply (keep_budget (rq (w_st w))).
  - simplify_eq. apply live_arrive; [done|]. by apply (keep_absent (rq (w_st w))).
  - simplify_eq. apply live_arrive; [done|]. by apply (keep_inactive (rq (w_st w))).
  - pose proof (keep_runtime_event (rq (w_st w)) clock now id e _ HR) as HQ.
    destruct (recordRuntimeEventOp_apply _ _ _ _ _) as [st f]. simplify_eq. by apply live_arrive.
  - simplify_eq. apply live_arrive; [done|]. unfold RecordWorkspace. destruct (_ || _); [done|].
    destruct (Running (w_st w) !! id); [by apply rq_frame|done].
  - simplify_eq. apply live_arrive; [done|]. by apply (keep_config (P:=rq (w_st w))).
  - simplify_eq. apply live_arrive; [done|]. by apply rq_frame.
Qed.

(** A step while the orchestrator is not shutting down. *)
Definition running_step {S} `{!Scheduler S} (w w' : World) : Prop :=
  ∃ (o : Orchestrator S) a, o_runCtxErr o = false ∧ action_ok a ∧ perform o a w = Some w'.

Lemma reach_live {S} `{!Scheduler S} p m w :
  reach (running_step (S:=S)) (init p m) w → store_inv w ∧ live_inv w.
Proof.
  apply (reach_inv (running_step (S:=S)) (λ w, store_inv w ∧ live_inv w)).
  - intros u v [HS HL] (o & a & Hrun & Hok & HP). split.
    + apply (step_store (S:=S) u v); [by exists o, a|exact HS].
    + by eapply live_perform.
  - split; [apply store_inv_init|apply live_init].
Qed.

(** C3: No retry is forgotten.  In every execution of a running orchestrator, under every
    interleaving (including the ones the ownership theorems exclude), each queued failure
    or quota retry has something on the way that will act on exactly it: a timer armed
    for its issue, attempt and kind, that timer's fire in the queue, its candidate fetch
    in flight, or a reschedule of the issue about to be applied; and an armed timer
    recorded by an entry belongs to that entry's issue. *)
Theorem queued_retries_are_driven {S} `{!Scheduler S} p m w id e :
  reach (running_step (S:=S)) (init p m) w → RetryAttempts (w_st w) !! id = Some e →
  (retry_Kind e ≠ RetryKindContinuation → driven w id e) ∧
  (∀ t f, retry_Timer e = Some t → timers (w_st w) !! t = Some f → rf_id f = id).
Proof.
  intros [_ HL]%reach_live E. split; [by apply (lv_driven w HL)|].
  intros t f. by apply (lv_own w HL id e).
Qed.

Lemma perform_all_running {S} `{!Scheduler S} (o : Orchestrator S) l w w' :
  o_runCtxErr o = false → Forall action_ok l → perform_all o l w = Some w' →
  reach (running_step (S:=S)) w w'.
Proof.
  intros Hrun HF. revert w. induction HF as [|a l Ha _ IH]; intros w H; simpl in H.
  { injection H as <-. apply reach_refl. }
  destruct (perform o a w) as [u|] eqn:E; [|done].
  eapply reach_trans; [|by apply IH]. eapply reach_step; [apply reach_refl|]. by exists o, a.
Qed.

(** A fails and its retry is queued; its timer goes off, B having taken the only
    slot, and the candidate fetch is in flight. *)
Definition live_trace : list Action :=
  [ADispatch 10 (demo_issue "A") None true; ARegister 0 11; AFinalize 0 20 demo_failed;
   ASchedule 0 21; ADispatch 22 (demo_issue "B") None true; ATimer 2%positive; AFire 1 40].
Definition live_world : World := default (init 1000 1) (perform_all demo_orch live_trace (init 1000 1)).

Lemma queued_retries_are_driven_witness :
  ∃ e, RetryAttempts (w_st live_world) !! "A" = Some e ∧ retry_Kind e ≠ RetryKindContinuation ∧
       driven live_world "A" e.
Proof.
  eexists. split; [vm_compute; reflexivity|]. split; [done|].
  refine (proj1 (queued_retries_are_driven (S:=RetryScheduler) 1000 1 live_world "A" _ _ _) _);
    [|vm_compute; reflexivity|done].
  apply (perform_all_running demo_orch live_trace); [done|by repeat constructor|].
  vm_compute. reflexivity.
Defined.
