(* ===== verification/AccountingProps.v ===== *)
(** * Correctness of token accounting and budgets

    Runners report absolute counters, possibly several times and out of order.  The
    orchestrator keeps the highest value it has seen and adds only the growth to the
    aggregate totals. *)

From S2P Require Import Prelude Tracker Workflow RetryPolicy Payload Types State Ops Cleanup.
From S2P Require Import Dispatch Finalize Retry Reconcile RuntimeEvents Snapshot Effects.

(** ** The three counters *)

Inductive Counter := CInput | COutput | CTotal.

Definition counter (c : Counter) (run : RunningEntry) : Z :=
  match c with
  | CInput => run_CodexInputTokens run
  | COutput => run_CodexOutputTokens run
  | CTotal => run_CodexTotalTokens run
  end.
Definition last_reported (c : Counter) (run : RunningEntry) : Z :=
  match c with
  | CInput => run_LastReportedInputTokens run
  | COutput => run_LastReportedOutputTokens run
  | CTotal => run_LastReportedTotalTokens run
  end.
Definition aggregate (c : Counter) (st : OrchestratorState) : Z :=
  match c with
  | CInput => ct_InputTokens (Totals st)
  | COutput => ct_OutputTokens (Totals st)
  | CTotal => ct_TotalTokens (Totals st)
  end.
Definition reported (c : Counter) (u : tokenUsage) : option Z :=
  match c with CInput => tu_input u | COutput => tu_output u | CTotal => tu_total u end.

(** The usage an event contributes: none for the events the fold drops. *)
Definition usage_of (e : TaskEvent) : option tokenUsage :=
  if String.eqb (te_Event e) "" || String.eqb (te_Event e) EventWorkflowResolved then None
  else tokenUsageFromEvent e.
Definition report (c : Counter) (e : TaskEvent) : option Z := usage_of e ≫= reported c.

(** Both copies of a counter agree and hold a non-negative 64-bit value. *)
Definition coherent (run : RunningEntry) : Prop :=
  ∀ c, last_reported c run = counter c run ∧ 0 ≤ counter c run ≤ max64.

(** ** One report *)

Lemma wrap64_add_l a b : wrap64 (wrap64 a + b) = wrap64 (a + b).
Proof.
  unfold wrap64. f_equal.
  replace ((a + 2 ^ 63) mod 2 ^ 64 - 2 ^ 63 + b + 2 ^ 63) with ((a + 2 ^ 63) mod 2 ^ 64 + b) by lia.
  rewrite Zplus_mod_idemp_l. f_equal. lia.
Qed.

Lemma positiveDelta_max v m : 0 ≤ m → v ≤ max64 → positiveDelta v m = Z.max m v - m.
Proof.
  intros. unfold positiveDelta. destruct (Z.leb_spec v m); [lia|].
  rewrite wrap64_id; unfold in64, min64, max64 in *; lia.
Qed.

Definition max_report (m : Z) (v : option Z) : Z := match v with Some v => Z.max m v | None => m end.

Definition delta_of (c : Counter) (d : Z * Z * Z) : Z :=
  match c with CInput => d.1.1 | COutput => d.1.2 | CTotal => d.2 end.

Lemma applyTokenUsage_spec u run c :
  coherent run → (∀ c v, reported c u = Some v → v ≤ max64) →
  let '(run', d) := applyTokenUsage u run in
  counter c run' = max_report (counter c run) (reported c u) ∧
  last_reported c run' = counter c run' ∧
  delta_of c d = counter c run' - counter c run.
Proof.
  intros Hc Hv. destruct (Hc c) as [Hl Hr]. pose proof (Hv c) as Hvc. unfold applyTokenUsage.
  assert (∀ v, reported c u = Some v → positiveDelta v (last_reported c run) =
    max_report (counter c run) (reported c u) - counter c run) as HD.
  { intros v E. rewrite E, Hl. simpl. apply positiveDelta_max; [lia|by apply Hvc]. }
  destruct c; simpl in *.
  all: destruct (tu_input u), (tu_output u), (tu_total u); simpl in *; rewrite ?Hl in *;
    split_and!; try done; try (by apply HD); lia.
Qed.

Lemma fold_fields_counters now e run c :
  counter c (fold_fields now e run) = counter c run ∧
  last_reported c (fold_fields now e run) = last_reported c run.
Proof.
  unfold fold_fields. set (r1 := match asStringMap _ with Some _ => _ | None => _ end).
  assert (counter c r1 = counter c run ∧ last_reported c r1 = last_reported c run) as [<- <-].
  { unfold r1, set_if. destruct (asStringMap (te_Payload e)) as [p|]; [|by destruct c].
    by destruct (stringField p "message"), c. }
  unfold recordInputRequiredFields, recordAgentHandoffFields, recordStartupFailureFields,
    recordCurrentIssueTerminalHandoffState.
  repeat (case_match; simpl; try (by destruct c)).
Qed.

Lemma mark_counters clock now r st c r' :
  let st' := (markBudgetExceededIfNeeded clock now r st).1 in
  counter c <$> runs st' !! r' = counter c <$> runs st !! r' ∧
  last_reported c <$> runs st' !! r' = last_reported c <$> runs st !! r' ∧
  aggregate c st' = aggregate c st.
Proof.
  unfold markBudgetExceededIfNeeded. destruct (run_BudgetExceeded _); [done|].
  destruct (budgetExceededMessage _ _ _); [|done]. simpl.
  split_and!; [| |by destruct c]; destruct (decide (r' = r)) as [->|?];
    rewrite ?lookup_alter_eq, ?lookup_alter_ne by done; try done;
    destruct (runs st !! r); try done; simpl; by destruct c.
Qed.

(** ** One event *)

(** The run behind [r] counts [n], coherently, and the aggregate is [a]. *)
Definition accounts (r : Ref) (st : OrchestratorState) (n a : Counter → Z) : Prop :=
  ∃ run, runs st !! r = Some run ∧ coherent run ∧
    ∀ c, counter c run = n c ∧ aggregate c st = a c.

Lemma accounts_same r st st' n a :
  (∀ c, counter c <$> runs st' !! r = counter c <$> runs st !! r ∧
        last_reported c <$> runs st' !! r = last_reported c <$> runs st !! r ∧
        aggregate c st' = aggregate c st) →
  accounts r st n a → accounts r st' n a.
Proof.
  intros H (run & E & Hc & Hn). destruct (runs st' !! r) as [run'|] eqn:E'.
  2:{ destruct (H CInput) as (HC & _). by rewrite E in HC. }
  exists run'. split; [done|].
  assert (∀ c, counter c run' = counter c run ∧ last_reported c run' = last_reported c run ∧
    aggregate c st' = aggregate c st) as H'.
  { intros c. destruct (H c) as (H1 & H2 & H3). rewrite E in H1, H2. by simplify_eq/=. }
  split; intros c; destruct (H' c) as (-> & ? & ?); [rewrite H0; apply Hc|].
  rewrite H1. apply Hn.
Qed.

Lemma aggregate_usage c r f st dIn dOut dTotal :
  aggregate c (upd_run r f st <| Totals ::= AddTokenDelta dIn dOut dTotal |>) =
    aggregate c st +i delta_of c (dIn, dOut, dTotal).
Proof. by destruct c. Qed.

Lemma accounts_usage r st n a u :
  accounts r st n a → (∀ c v, reported c u = Some v → v ≤ max64) →
  let '(run, (dIn, dOut, dTotal)) := applyTokenUsage u (deref st r) in
  accounts r (upd_run r (fun _ => run) st <| Totals ::= AddTokenDelta dIn dOut dTotal |>)
    (λ c, max_report (n c) (reported c u))
    (λ c, a c +i (max_report (n c) (reported c u) - n c)).
Proof.
  intros (run & E & Hc & Hn) Hv.
  assert (deref st r = run) as -> by (unfold deref; by rewrite E).
  pose proof (λ c, applyTokenUsage_spec u run c Hc Hv) as HS.
  destruct (applyTokenUsage u run) as [run' [[dIn dOut] dTotal]].
  exists run'. split; [simpl; by rewrite lookup_alter_eq, E|]. split.
  - intros c. destruct (HS c) as (H1 & H2 & _). split; [done|]. rewrite H1.
    destruct (Hc c) as [_ ?]. pose proof (Hv c). destruct (reported c u); simpl; [|done].
    pose proof (H0 _ eq_refl). lia.
  - intros c. destruct (HS c) as (H1 & _ & H3), (Hn c) as [Hn1 Hn2]. rewrite H1, Hn1. split; [done|].
    rewrite <- Hn2. by rewrite aggregate_usage, H3, H1, Hn1.
Qed.

Lemma accounts_event clock now r e st n a :
  accounts r st n a → (∀ c v, report c e = Some v → v ≤ max64) → (∀ c, in64 (a c)) →
  accounts r (recordRuntimeEvent clock now r e st).1
    (λ c, max_report (n c) (report c e)) (λ c, a c +i (max_report (n c) (report c e) - n c)).
Proof.
  intros HA Hv Ha. unfold recordRuntimeEvent, report, usage_of in *.
  assert (∀ st', accounts r st' n a → accounts r st' (λ c, n c) (λ c, a c +i (n c - n c))) as Hid.
  { intros st' (run & E & Hc & Hn). exists run. split_and!; [done|done|]. intros c.
    rewrite Z.sub_diag, Z.add_0_r, wrap64_id by apply Ha. apply Hn. }
  destruct (String.eqb_spec (te_Event e) ""); [by apply Hid|].
  destruct (String.eqb_spec (te_Event e) EventWorkflowResolved); simpl.
  { apply Hid. eapply accounts_same; [|exact HA]. intros c. simpl. rewrite lookup_alter_eq.
    unfold recordWorkflowFields. destruct (runs st !! r); [|by destruct c].
    destruct (asStringMap _); by destruct c. }
  set (now' := if IsZero now then clock else now). set (st1 := upd_run r (fold_fields now' e) st).
  assert (accounts r st1 n a) as HA1.
  { eapply accounts_same; [|exact HA]. intros c. unfold st1. simpl. rewrite lookup_alter_eq.
    destruct (runs st !! r) as [run|]; [|by destruct c]. simpl.
    destruct (fold_fields_counters now' e run c) as [-> ->]. by destruct c. }
  eapply accounts_same; [intros c; apply mark_counters|].
  destruct (tokenUsageFromEvent e) as [u|]; simpl in Hv.
  - pose proof (accounts_usage r st1 n a u HA1 Hv) as HU.
    destruct (applyTokenUsage u (deref st1 r)) as [run [[dIn dOut] dTotal]].
    destruct (rateLimitsFromPayload _); [|exact HU].
    eapply accounts_same; [|exact HU]. intros c. by destruct c.
  - apply Hid. destruct (rateLimitsFromPayload _); [|exact HA1].
    eapply accounts_same; [|exact HA1]. intros c. by destruct c.
Qed.

(** ** A stream of events *)

(** The events of one run, as the actor applies them. *)
Fixpoint record_events (clock : Time) (id : IssueID) (es : list (Time * TaskEvent))
    (st : OrchestratorState) : OrchestratorState :=
  match es with
  | [] => st
  | (now, e) :: es => record_events clock id es (recordRuntimeEventOp_apply clock now id e st).1
  end.

(** The highest of an initial value and all reports. *)
Definition highest (c : Counter) (n : Z) (es : list (Time * TaskEvent)) : Z :=
  fold_left (λ m p, max_report m (report c p.2)) es n.

Lemma highest_ge c n es : n ≤ highest c n es.
Proof.
  revert n. induction es as [|q es IH]; intros n; simpl; [lia|]. etransitivity; [|apply IH].
  destruct (report c q.2); simpl; lia.
Qed.

Lemma highest_report c n es p v : p ∈ es → report c p.2 = Some v → v ≤ highest c n es.
Proof.
  intros Hp Hr. revert n. induction Hp as [es|p q es Hp IH]; intros n; simpl; [|by apply IH].
  rewrite Hr. simpl. etransitivity; [|apply highest_ge]. lia.
Qed.

Lemma record_event_running clock now id id' e st :
  Running (recordRuntimeEventOp_apply clock now id e st).1 !! id' = Running st !! id'.
Proof.
  pose proof (recordRuntimeEventOp_quiet clock now id e st) as H.
  destruct (recordRuntimeEventOp_apply clock now id e st) as [st' f]. destruct H as [[HS _] _].
  pose proof (HS id') as H'. by inversion H'.
Qed.

Lemma accounts_stream clock id r es : ∀ st n a,
  Running st !! id = Some r → accounts r st n a → (∀ c, in64 (a c)) →
  (∀ p c v, p ∈ es → report c p.2 = Some v → v ≤ max64) →
  accounts r (record_events clock id es st) (λ c, highest c (n c) es)
    (λ c, a c +i (highest c (n c) es - n c)).
Proof.
  induction es as [|[now e] es IH]; intros st n a HR HA Ha Hv.
  { destruct HA as (run & E & Hc & Hn). exists run. split_and!; [done|done|]. intros c. simpl.
    rewrite Z.sub_diag, Z.add_0_r, wrap64_id by apply Ha. apply Hn. }
  simpl. assert (accounts r (recordRuntimeEventOp_apply clock now id e st).1
    (λ c, max_report (n c) (report c e)) (λ c, a c +i (max_report (n c) (report c e) - n c))) as H1.
  { unfold recordRuntimeEventOp_apply. rewrite HR.
    pose proof (accounts_event clock now r e st n a HA) as H1.
    destruct (recordRuntimeEvent clock now r e st) as [st' cancel]. apply H1; [|done].
    intros c v. apply (Hv (now, e)). by left. }
  apply IH in H1; [|by rewrite record_event_running|intros; apply wrap64_in64|
    intros p c v Hp; apply Hv; by right].
  destruct H1 as (run & E & Hc & Hn). exists run. split_and!; [done|done|]. intros c.
  destruct (Hn c) as [-> ->]. split; [done|]. rewrite wrap64_add_l. f_equal. simpl. lia.
Qed.

(** Token accounting.  Over any stream of runtime events of one run, in any order
    and with any repetitions, each of the run's counters ends at the highest value ever
    reported, and each aggregate total grows by exactly that counter's growth: nothing
    is counted twice and nothing is lost. *)
Theorem token_accounting clock id r run es st :
  Running st !! id = Some r → runs st !! r = Some run → coherent run →
  (∀ c, in64 (aggregate c st)) →
  (∀ p c v, p ∈ es → report c p.2 = Some v → v ≤ max64) →
  let st' := record_events clock id es st in
  ∃ run', runs st' !! r = Some run' ∧ coherent run' ∧ ∀ c,
    counter c run' = highest c (counter c run) es ∧
    (∀ p v, p ∈ es → report c p.2 = Some v → v ≤ counter c run') ∧
    aggregate c st' = aggregate c st +i (counter c run' - counter c run).
Proof.
  intros HR E Hc Ha Hv st'.
  destruct (accounts_stream clock id r es st (λ c, counter c run) (λ c, aggregate c st) HR)
    as (run' & E' & Hc' & Hn); [by exists run|done|done|].
  exists run'. split_and!; [done|done|]. intros c. destruct (Hn c) as [H1 H2].
  split_and!; [done| |by rewrite H1].
  intros p v Hp Hr. rewrite H1. by apply (highest_report c (counter c run) es p).
Qed.

Lemma token_accounting_witness :
  let e n := Build_TaskEvent EventTurnCompleted (AMap (Some [("total_token_usage",
               AMap (Some [("total_tokens", AInt64 n); ("input_tokens", AInt64 n)]))])) in
  let run := new_RunningEntry (zero_Issue <| iss_ID := "A" |>) 5 None 0 0 zero_Workspace in
  let st := (NewOrchestratorState 1000 1) <| Running := {["A" := 1%positive]} |>
              <| runs := {[1%positive := run]} |> in
  aggregate CTotal (record_events 7 "A" [(8, e 100); (9, e 100); (9, e 40); (10, e 250)] st) = 250.
Proof.
  intros e run st.
  destruct (token_accounting 7 "A" 1%positive run
    [(8, e 100); (9, e 100); (9, e 40); (10, e 250)] st) as (run' & _ & _ & H).
  - reflexivity.
  - reflexivity.
  - intros []; vm_compute; done.
  - intros []; vm_compute; done.
  - intros p c v Hp Hr. repeat (apply elem_of_cons in Hp as [->|Hp];
      [destruct c; vm_compute in Hr; simplify_eq; vm_compute; done|]).
    by apply not_elem_of_nil in Hp.
  - destruct (H CTotal) as (H1 & _ & H3). rewrite H3, H1. vm_compute. reflexivity.
Defined.
