(* ===== verification/PollerProps.v ===== *)
(** * Correctness of the poll tick

    What one tick may conclude from the tracker's answers, and what it may start. *)

From S2P Require Import Prelude Tracker Workflow RetryPolicy Payload Types State Ops Cleanup Dispatch Reconcile RuntimeEvents Snapshot Candidates Poller Runtime Effects.

(** ** The narrow refresh *)

Lemma fetchIssueStates_dom fetch refs id :
  is_Some ((fetchIssueStates fetch refs).1 !! id) ↔ id ∈ requested_ids refs.
Proof.
  unfold fetchIssueStates. pose proof (UnknownIssueStatesByRefs_inv refs) as (_ & Hs & _).
  destruct (UnknownIssueStatesByRefs refs) as [states nrefs]. simpl in *. rewrite <- Hs.
  destruct fetch as [f|]; [|done]. destruct nrefs as [|r nrefs]; [done|].
  destruct (f (r :: nrefs)) as [fetched err]. simpl. unfold mergeRequestedIssueStates.
  rewrite map_lookup_imap. destruct (states !! id); simpl; split; intros [? ?]; eauto.
Qed.

Lemma fetchIssueStates_row fetch refs id row :
  (fetchIssueStates fetch refs).1 !! id = Some row →
  row = unknown_row ∨
  ∃ f asked, fetch = Some f ∧ NoDup (map ref_ID asked) ∧
    (∀ k, k ∈ map ref_ID asked ↔ k ∈ requested_ids refs) ∧ (f asked).1 !! id = Some row.
Proof.
  pose proof (UnknownIssueStatesByRefs_inv refs) as (Hv & Hs & Hnd & Hin). unfold fetchIssueStates.
  destruct (UnknownIssueStatesByRefs refs) as [states nrefs]. simpl in *.
  destruct fetch as [f|]; [|left; by eapply Hv].
  destruct nrefs as [|r nrefs]; [left; by eapply Hv|].
  destruct (f (r :: nrefs)) as [fetched err] eqn:Ef. simpl. unfold mergeRequestedIssueStates.
  rewrite map_lookup_imap. destruct (states !! id) as [u|] eqn:Eu; [|done]. simpl.
  intros [= <-]. destruct (fetched !! id) as [row|] eqn:ER; simpl; [|left; by eapply Hv].
  right. exists f, (r :: nrefs). by rewrite Ef.
Qed.

Lemma fetchIssueStates_error f refs e :
  (fetchIssueStates (Some f) refs).2 = Some e → ∃ asked, (f asked).2 = Some e.
Proof.
  unfold fetchIssueStates. destruct (UnknownIssueStatesByRefs refs) as [states nrefs].
  destruct nrefs as [|r nrefs]; [done|]. destruct (f (r :: nrefs)) as [fetched err] eqn:Ef. simpl.
  intros ->. exists (r :: nrefs). by rewrite Ef.
Qed.

(** The narrow refresh is total and closed.  For any adapter, the answer has a row
    for exactly the requested, non-blank issue ids; a row is the adapter's own answer for
    that id or Unknown, whatever else the adapter returned; and the adapter is asked at
    most once per issue, with trimmed ids. *)
Theorem narrow_refresh_total fetch refs :
  (∀ id, is_Some ((fetchIssueStates fetch refs).1 !! id) ↔ id ∈ requested_ids refs) ∧
  (∀ id row, (fetchIssueStates fetch refs).1 !! id = Some row →
     row = unknown_row ∨
     ∃ f asked, fetch = Some f ∧ NoDup (map ref_ID asked) ∧
       (∀ k, k ∈ map ref_ID asked ↔ k ∈ requested_ids refs) ∧ (f asked).1 !! id = Some row) ∧
  (∀ id row f, fetch = Some f → (fetchIssueStates fetch refs).1 !! id = Some row →
     ∀ row', (f (UnknownIssueStatesByRefs refs).2).1 !! id = Some row' → row = row').
Proof.
  split; [intros id; apply fetchIssueStates_dom|]. split; [intros id row; apply fetchIssueStates_row|].
  pose proof (UnknownIssueStatesByRefs_inv refs) as (Hv & Hs & Hnd & Hin). unfold fetchIssueStates.
  destruct (UnknownIssueStatesByRefs refs) as [states nrefs]. simpl in *.
  intros id row f -> Hrow row' Hrow'. destruct nrefs as [|r nrefs].
  - exfalso. assert (id ∈ requested_ids refs) as Hr by (apply Hs; eauto).
      apply Hin in Hr. by apply not_elem_of_nil in Hr.
  - destruct (f (r :: nrefs)) as [fetched err]. simpl in *. unfold mergeRequestedIssueStates in Hrow.
      rewrite map_lookup_imap in Hrow. destruct (states !! id); [|done]. simpl in Hrow.
      rewrite Hrow' in Hrow. by simplify_eq/=.
Qed.

(** ** Evidence about claimed issues *)

Section Refresh.
Context (rows : gmap string IssueState) (active : gmap string Issue).

Definition row_current (id : string) : Prop :=
  ∃ row, rows !! id = Some row ∧ ist_Outcome row = IssueStateOutcomeCurrent ∧
         blank (ist_State row) = false.
Definition row_absent (id : string) : Prop :=
  ∃ row, rows !! id = Some row ∧ ist_Outcome row = IssueStateOutcomeAbsent.

Definition collect_inv (done : list IssueRef) (acc : RefreshAcc) : Prop := ∀ id,
  (id ∈ acc_absent acc ↔ id ∈ requested_ids done ∧ row_absent id) ∧
  (is_Some (acc_refreshed acc !! id) ↔ id ∈ requested_ids done ∧ row_current id) ∧
  (∀ i, acc_refreshed acc !! id = Some i → iss_ID i = id ∧
     ∃ row, rows !! id = Some row ∧ iss_State i = ist_State row ∧ iss_Labels i = ist_Labels row).

Lemma collect_skip done ref acc :
  (∀ id, id = TrimSpace (ref_ID ref) → id ≠ "" → ¬ row_absent id ∧ ¬ row_current id) →
  collect_inv done acc → collect_inv (done ++ [ref]) acc.
Proof.
  intros Hn H id. destruct (H id) as (H1 & H2 & H3). rewrite requested_ids_snoc, H1, H2.
  split_and!; [| |done]; (case_decide; [by rewrite app_nil_r|]); rewrite elem_of_app,
    list_elem_of_singleton; naive_solver.
Qed.

Lemma collect_step done ref acc :
  collect_inv done acc →
  collect_inv (done ++ [ref]) (collectClaimedRefreshOutcome ref (row_of rows ref) active acc).
Proof.
  intros H. unfold collectClaimedRefreshOutcome, row_of. cbv zeta.
  set (id := TrimSpace (ref_ID ref)).
  destruct (String.eqb_spec id "") as [E|Hne]; [by apply collect_skip; [naive_solver|]|].
  assert (requested_ids (done ++ [ref]) = requested_ids done ++ [id]) as Hreq
    by (rewrite requested_ids_snoc, decide_False by done; done).
  destruct (rows !! id) as [row|] eqn:ER; simpl.
  2:{ apply collect_skip; [|done]. intros id' -> _. unfold row_absent, row_current. fold id.
      rewrite ER. split; by intros (? & ? & _). }
  assert (ist_Outcome row ≠ IssueStateOutcomeAbsent →
    ¬ (ist_Outcome row = IssueStateOutcomeCurrent ∧ blank (ist_State row) = false) →
    collect_inv (done ++ [ref]) acc) as Hskip.
  { intros Ha Hc. apply collect_skip; [|done]. intros id' -> _. unfold row_absent, row_current. fold id.
    rewrite ER. split; intros (? & [= <-] & ?); tauto. }
  destruct (ist_Outcome row) eqn:EO; try (by apply Hskip; [done|intros [? ?]]).
  - destruct (blank (ist_State row)) eqn:EB; [by apply Hskip; [done|intros [? ?]]|].
    intros k. destruct (H k) as (H1 & H2 & H3). rewrite Hreq. setoid_rewrite elem_of_app.
    setoid_rewrite list_elem_of_singleton. simpl.
    assert (row_current id ∧ ¬ row_absent id) as [Hcur Habs].
    { unfold row_absent, row_current. rewrite ER. split; [by exists row|].
      intros (? & [= <-] & ?). congruence. }
    split_and!.
    + rewrite H1. split; [tauto|]. intros [[?| ->] ?]; tauto.
    + rewrite lookup_insert_is_Some', H2. split; [intros [<-|?]; tauto|]. intros [[?| ->] ?]; tauto.
    + intros i. rewrite lookup_insert_Some. intros [[<- <-]|[_ Hi]]; [|by apply H3].
      simpl. eauto.
  - intros k. destruct (H k) as (H1 & H2 & H3). rewrite Hreq. setoid_rewrite elem_of_app.
    setoid_rewrite list_elem_of_singleton. simpl.
    assert (¬ row_current id ∧ row_absent id) as [Hcur Habs].
    { unfold row_absent, row_current. rewrite ER. split; [|by exists row].
      intros (? & [= <-] & ? & ?). congruence. }
    split_and!; [|rewrite H2; split; [tauto|]; intros [[?| ->] ?]; tauto|done].
    rewrite elem_of_union, elem_of_singleton, H1. split; [intros [->|?]; tauto|].
    intros [[?| ->] ?]; tauto.
Qed.

Lemma collect_all refs : ∀ done acc, collect_inv done acc →
  collect_inv (done ++ refs) (fold_left (fun acc ref =>
    collectClaimedRefreshOutcome ref (row_of rows ref) active acc) refs acc).
Proof.
  induction refs as [|r refs IH]; intros done acc H; simpl; [by rewrite app_nil_r|].
  rewrite cons_middle, app_assoc. by apply IH, collect_step.
Qed.
End Refresh.

(** What a refresh of claimed issues proves.  An issue is recorded absent exactly
    when it was asked about and its row says Absent, and refreshed exactly when its row
    is Current with a state; a refreshed issue carries the row's state and labels under
    its own id, and no issue is both.  Unknown, missing and stateless rows conclude
    nothing. *)
Theorem claimed_refresh_evidence f activeIssuesByID refs :
  let rows := (fetchIssueStates (Some f) refs).1 in
  let acc := (refreshRunningIssueStates (Some f) activeIssuesByID refs).1 in
  (∀ id, id ∈ acc_absent acc ↔ ∃ row, rows !! id = Some row ∧ ist_Outcome row = IssueStateOutcomeAbsent) ∧
  (∀ id, is_Some (acc_refreshed acc !! id) ↔ ∃ row, rows !! id = Some row ∧
     ist_Outcome row = IssueStateOutcomeCurrent ∧ blank (ist_State row) = false) ∧
  (∀ id i, acc_refreshed acc !! id = Some i → iss_ID i = id ∧
     ∃ row, rows !! id = Some row ∧ iss_State i = ist_State row ∧ iss_Labels i = ist_Labels row) ∧
  (∀ id, id ∈ acc_absent acc → acc_refreshed acc !! id = None).
Proof.
  intros rows acc. assert (∀ id row, rows !! id = Some row → id ∈ requested_ids refs) as Hr.
  { intros id row Hrow. apply (fetchIssueStates_dom (Some f)). unfold rows in Hrow. eauto. }
  assert (collect_inv rows refs acc) as HC.
  { unfold acc, refreshRunningIssueStates. fold rows. unfold rows.
    destruct (fetchIssueStates (Some f) refs) as [rows' err]. simpl.
    apply (collect_all rows' activeIssuesByID refs [] (Build_RefreshAcc ∅ ∅)).
    intros id. simpl. rewrite lookup_empty. unfold requested_ids. simpl. split_and!; [set_solver| |done].
    split; [by intros [? ?]|]. intros [?%not_elem_of_nil _]. done. }
  split_and!.
  - intros id. rewrite (proj1 (HC id)). split; [by intros [_ ?]|]. intros (row & E & ?).
    split; [by eapply Hr|by exists row].
  - intros id. rewrite (proj1 (proj2 (HC id))). split; [by intros [_ ?]|]. intros (row & E & ?).
    split; [by eapply Hr|by exists row].
  - intros id i. apply HC.
  - intros id (_ & row & E & HA)%(proj1 (HC id)). destruct (acc_refreshed acc !! id) eqn:EI; [|done].
    assert (is_Some (acc_refreshed acc !! id)) as (_ & row' & E' & HC' & _)%(proj1 (proj2 (HC id)))
      by eauto. congruence.
Qed.

(** ** Deriving inactivity *)

(** An inactive verdict from a refreshed row. *)
Definition shown_inactive (cfg : ReconciliationConfig) (activeKeys : gset string) (i : Issue) : Prop :=
  (norm (iss_State i) ∈ activeKeys ∧
   ¬ (∀ r, r ∈ rcf_RequiredLabels cfg → ∃ l, l ∈ iss_Labels i ∧ norm l = norm r)) ∨
  (norm (iss_State i) ∉ activeKeys ∧
   norm (iss_State i) ∈ normalizedStates (rcf_TerminalStates cfg ++ rcf_InactiveStates cfg)).

Lemma refreshedIssueIsInactive_iff cfg keys i :
  refreshedIssueIsInactive cfg keys i = true ↔ shown_inactive cfg keys i.
Proof.
  unfold refreshedIssueIsInactive, shown_inactive, isActiveTrackerState, isConfiguredInactiveState,
    issueHasRequiredLabels.
  rewrite <- labelsSatisfyRequired_iff, not_true_iff_false, <- negb_true_iff.
  destruct (bool_decide (norm (iss_State i) ∈ keys)) eqn:E;
    [apply bool_decide_eq_true_1 in E|apply bool_decide_eq_false_1 in E];
    rewrite ?bool_decide_eq_true; tauto.
Qed.

(** Listed in one of the inactive groups, whose listing succeeded. *)
Definition listed_inactive (listed : list (list Issue * option string)) (i : Issue) : Prop :=
  ∃ issues, (issues, None) ∈ listed ∧ i ∈ issues.

Lemma addInactive_spec activeByID issues : ∀ m id i,
  addInactiveListedIssues m activeByID issues !! id = Some i →
  m !! id = Some i ∨ (i ∈ issues ∧ iss_ID i = id ∧ id ≠ "" ∧ id ∉ activeByID).
Proof.
  unfold addInactiveListedIssues. induction issues as [|x issues IH]; intros m id i; simpl; [by left|].
  intros H. apply IH in H as [H|(? & ? & ? & ?)]; [|right; split_and!; try done; by right].
  destruct (String.eqb_spec (iss_ID x) ""); [by left|]. case_bool_decide; [by left|].
  apply lookup_insert_Some in H as [[<- <-]|[_ H]]; [|by left]. right. split_and!; try done. by left.
Qed.

Lemma addInactive_keep activeByID issues : ∀ m id,
  is_Some (m !! id) → is_Some (addInactiveListedIssues m activeByID issues !! id).
Proof.
  unfold addInactiveListedIssues. induction issues as [|x issues IH]; intros m id H; simpl; [done|].
  apply IH. destruct (String.eqb _ _); [done|]. case_bool_decide; [done|].
  apply lookup_insert_is_Some'. by right.
Qed.

Lemma appendInactive_spec activeByID listed : ∀ m errs id,
  let res := fold_left (fun '(inactive, errs) '(issues, err) =>
    match err with
    | Some e => (inactive, errs ++ [e])
    | None => (addInactiveListedIssues inactive activeByID issues, errs)
    end) listed (m, errs) in
  (is_Some (m !! id) → is_Some (res.1 !! id)) ∧
  ∀ i, res.1 !! id = Some i →
    m !! id = Some i ∨ (listed_inactive listed i ∧ iss_ID i = id ∧ id ≠ "" ∧ id ∉ activeByID).
Proof.
  induction listed as [|[issues [e|]] listed IH]; intros m errs id; simpl.
  - split; [done|]. by left.
  - destruct (IH m (errs ++ [e]) id) as [H1 H2]. split; [done|]. intros i [?|H]%H2; [by left|right].
    destruct H as ((l & ? & ?) & ?). split; [|done]. exists l. split; [by right|done].
  - destruct (IH (addInactiveListedIssues m activeByID issues) errs id) as [H1 H2].
    split; [intros; by apply H1, addInactive_keep|]. intros i [H|H]%H2.
    + apply addInactive_spec in H as [?|(? & ? & ? & ?)]; [by left|]. right. split_and!; try done.
      exists issues. split; [by left|done].
    + right. destruct H as ((l & ? & ?) & ?). split; [|done]. exists l. split; [by right|done].
Qed.

(** Inactivity needs evidence.  Every refreshed issue whose row shows it inactive
    (a configured terminal or inactive state, or an active state without the required
    labels) is reported; and an issue is reported only for such a row, or because a
    successful listing of an inactive group contains it while nothing shows it active.
    A failed listing reports nothing, and every reported issue is filed under its id. *)
Theorem inactive_needs_evidence cfg listed activeIssues refreshed keys :
  well_keyed refreshed →
  let inactive := (deriveInactiveIssues cfg listed activeIssues refreshed keys).1 in
  well_keyed inactive ∧
  (∀ id i, refreshed !! id = Some i → shown_inactive cfg keys i → is_Some (inactive !! id)) ∧
  (∀ id i, inactive !! id = Some i →
     (refreshed !! id = Some i ∧ shown_inactive cfg keys i) ∨
     (listed_inactive listed i ∧ id ≠ "" ∧
      (activeIssues !! id = None ∨
       ∃ j, refreshed !! id = Some j ∧ shown_inactive cfg keys j))).
Proof.
  intros Hwk inactive. unfold inactive, deriveInactiveIssues, appendInactiveFromStateGroups. cbv zeta.
  set (base := filter _ refreshed). set (act := _ ∖ _).
  pose proof (appendInactive_spec act listed base []) as H.
  assert (∀ id i, base !! id = Some i ↔ refreshed !! id = Some i ∧ shown_inactive cfg keys i) as Hb.
  { intros id i. unfold base. by rewrite map_lookup_filter_Some, refreshedIssueIsInactive_iff. }
  split_and!.
  - intros id i Hi. destruct (H id) as [_ H2]. apply H2 in Hi as [[? _]%Hb|(_ & ? & _)]; [by apply Hwk|done].
  - intros id i Hi Hs. apply H. exists i. by apply Hb.
  - intros id i Hi. destruct (H id) as [_ H2]. apply H2 in Hi as [Hi%Hb|(Hl & Hid & Hne & Hact)];
      [by left|]. right. split_and!; [done|done|].
    destruct (activeIssues !! id) as [a|] eqn:Ea; [|by left]. right.
    assert (id ∈ dom base) as [j Hj]%elem_of_dom.
    { apply dec_stable. intros Hn. apply Hact. unfold act, issueMapIDSet.
      apply elem_of_difference. split; [|done]. apply elem_of_difference. split; [|set_solver].
      apply elem_of_dom. eauto. }
    exists j. by apply Hb.
Qed.

Lemma inactive_needs_evidence_witness :
  let cfg := Build_ReconciliationConfig ["Todo"] ["Done"] [] [] 0 in
  let i := zero_Issue <| iss_ID := "A" |> <| iss_State := "Done" |> in
  is_Some ((deriveInactiveIssues cfg [([], Some "timeout")] ∅ {["A" := i]} {["todo"]}).1 !! "A").
Proof.
  intros cfg i. assert (well_keyed {["A" := i]}) as Hwk.
  { intros id j Hj. apply lookup_singleton_Some in Hj as [<- <-]. reflexivity. }
  destruct (inactive_needs_evidence cfg [([], Some "timeout")] ∅ {["A" := i]} {["todo"]} Hwk)
    as (_ & H & _). apply (H "A" i).
  - reflexivity.
  - apply refreshedIssueIsInactive_iff. vm_compute. reflexivity.
Defined.

(** ** A program logic for ticks *)

(** [m] starts only followups satisfying [P] and returns a value satisfying [Q]. *)
Definition tick_spec (P : Followup → Prop) {A} (m : Tick A) (Q : A → Prop) : Prop :=
  ∀ s, Forall P (tk_followups s) → Forall P (tk_followups (m s).1) ∧ Q (m s).2.

Section TickLogic.
Context (env : TickEnv) (P : Followup → Prop).

Lemma spec_ret {A} (a : A) (Q : A → Prop) : Q a → tick_spec P (tick_ret a) Q.
Proof. by intros H s Hs. Qed.

Lemma spec_bind {A B} (m : Tick A) (f : A → Tick B) (R : A → Prop) (Q : B → Prop) :
  tick_spec P m R → (∀ a, R a → tick_spec P (f a) Q) → tick_spec P (tick_bind m f) Q.
Proof.
  intros Hm Hf s Hs. unfold tick_bind. destruct (Hm s Hs) as [H1 H2].
  destruct (m s) as [s1 a]. by apply Hf.
Qed.

Lemma spec_submit {A} (op : nat → OrchestratorState → OrchestratorState * option Followup * A)
    (Q : A → Prop) :
  (∀ n st, (∀ f, (op n st).1.2 = Some f → P f) ∧ Q (op n st).2) → tick_spec P (submit env op) Q.
Proof.
  intros H s Hs. unfold submit.
  destruct (H (tk_ops s) (env_between env (tk_ops s) (tk_state s))) as [H1 H2].
  destruct (op _ _) as [[st f] a]. simpl in *. split; [|done]. apply Forall_app. split; [done|].
  destruct f as [f|]; [|constructor]. constructor; [by apply H1|constructor].
Qed.

Lemma spec_ask {A} (f : nat → A) (Q : A → Prop) : (∀ n, Q (f n)) → tick_spec P (ask f) Q.
Proof. intros H s Hs. by split; [|apply H]. Qed.

Lemma spec_weaken {A} (m : Tick A) (Q Q' : A → Prop) :
  (∀ a, Q a → Q' a) → tick_spec P m Q → tick_spec P m Q'.
Proof. intros H Hm s Hs. destruct (Hm s Hs) as [H1 H2]. auto. Qed.
End TickLogic.

(** ** What a tick may start *)

Definition is_spawn_followup (f : Followup) : bool :=
  match f with FSpawn _ _ _ _ _ _ _ => true | _ => false end.

(** Every spawn is of an issue satisfying [good]. *)
Definition spawns_only (good : Issue → Prop) (f : Followup) : Prop :=
  match f with
  | FSpawn id issue _ _ _ _ _ => id = iss_ID issue ∧ id ≠ "" ∧ good issue
  | _ => True
  end.

Lemma dispatch_spawns now issue attempt rechecked st f :
  (dispatchOp_apply now issue attempt rechecked st).2 = inr f →
  ∃ a ca ct b ws, f = FSpawn (iss_ID issue) issue a ca ct b ws.
Proof.
  unfold dispatchOp_apply. cbv zeta. destruct (IsCleaningWorkspace _ _); [done|].
  destruct (IsOperatorTerminalStopped _ _).
  { by destruct (RecordOperatorTerminalDispatchSuppressed _ _ _ _ _). }
  destruct (resolveDispatchClaim _ _ _ _) as [[[consumed ca] ct] []]; [done|].
  destruct (blockConsumedContinuationIfBudgetExceeded _ _ _ _ _ _) as [st1 []]; [done|].
  destruct (_ <=? _); [done|]. destruct (StateCapacityFullExcluding _ _ _); [done|].
  intros [= <-]. by repeat eexists.
Qed.

Section TickSafety.
Context (env : TickEnv) (cfg : ReconciliationConfig) (good : Issue → Prop).
Notation safe := (tick_spec (spawns_only good)).

Lemma safe_plain op : safe (submit_plain env op) (λ _, True).
Proof. unfold submit_plain. apply spec_submit. by intros n st. Qed.

Lemma safe_wait op :
  (∀ n st f, (op n st).2 = Some f → is_spawn_followup f = false) → safe (submit_wait env op) (λ _, True).
Proof.
  intros H. unfold submit_wait. apply spec_submit. intros n st. simpl. split; [|done].
  intros f Hf. apply H in Hf. by destruct f.
Qed.

Lemma safe_budget : safe (budget_pass env) (λ _, True).
Proof.
  apply safe_wait. intros n st f. unfold reconcileBudgetExceededRunsOp_apply.
  destruct (range_map _ _ _ _). by intros [= <-].
Qed.

Lemma safe_stalled : safe (stalled_pass env cfg) (λ _, True).
Proof.
  unfold stalled_pass. destruct (_ <=? 0); [by apply spec_ret|]. apply safe_wait. intros n st f.
  unfold ReconcileStalledRuns, reconcileStalledRunsOp_apply. destruct (_ <=? 0); [done|].
  destruct (range_map _ _ _ _). by intros [= <-].
Qed.

Lemma safe_narrow issues acc : safe (applyClaimedNarrowPhase env cfg issues acc) (λ _, True).
Proof.
  unfold applyClaimedNarrowPhase. eapply spec_bind; [apply safe_plain|]. intros _ _. cbv zeta.
  case_bool_decide; [by apply spec_ret|apply safe_plain].
Qed.

Lemma safe_inactive issues acc : safe (reconcileClaimedInactivePhase env cfg issues acc) (λ _, True).
Proof.
  unfold reconcileClaimedInactivePhase. eapply spec_bind; [by apply (spec_ask _ _ (λ _, True))|].
  intros listed _. destruct (deriveInactiveIssues _ _ _ _ _) as [inactive derr].
  eapply spec_bind.
  { apply safe_wait. intros n st f. unfold reconcileInactiveTrackerIssuesOp_apply.
    destruct (collect Running _ _ _ _). destruct (collect RetryAttempts _ _ _ _).
    destruct (collect Blocked _ _ _ _). by intros [= <-]. }
  intros e1 _. eapply spec_bind.
  { case_bool_decide; [by apply (spec_ret _ _ (λ _, True))|]. apply safe_wait. intros n st f.
    unfold reconcileAbsentTrackerIssuesOp_apply. destruct (range_map (λ s, Running s.1) _ _ _).
    by intros [= <-]. }
  intros e2 _. by apply spec_ret.
Qed.

Lemma safe_reconcile issues : safe (reconcileClaimedTick env cfg issues) (λ _, True).
Proof.
  unfold reconcileClaimedTick. eapply spec_bind; [apply safe_stalled|]. intros e _.
  eapply spec_bind; [apply (spec_submit _ _ _ (λ _, True)); by intros|]. intros refs _.
  destruct refs as [|r refs]; [by apply spec_ret|].
  eapply spec_bind; [by apply (spec_ask _ _ (λ _, True))|]. intros [acc nerr] _.
  eapply spec_bind; [apply safe_narrow|]. intros _ _.
  eapply spec_bind; [apply safe_inactive|]. intros [inactive errs] _. by apply spec_ret.
Qed.

(** The dispatch loop spawns only its candidates and overflows only its candidates. *)
Lemma safe_dispatch candidates : ∀ overflow,
  (∀ i, i ∈ candidates → good i) →
  safe (dispatch_loop env candidates overflow) (λ out, ∀ i, i ∈ out → i ∈ overflow ∨ i ∈ candidates).
Proof.
  induction candidates as [|issue rest IH]; intros overflow Hg; simpl; [apply spec_ret; auto|].
  assert (∀ i, i ∈ rest → good i) as Hg' by (intros; apply Hg; by right).
  destruct (String.eqb_spec (iss_ID issue) "") as [Hid|Hid].
  { eapply spec_weaken; [|by apply IH]. intros out Ho i [?|?]%Ho; [by left|right; by right]. }
  apply (spec_bind _ _ _ (λ _, True)).
  - unfold requestDispatch. apply spec_submit. intros n st.
    pose proof (dispatch_spawns (env_clock env n) issue None true st) as HD.
    destruct (dispatchOp_apply _ _ _ _ _) as [st' [e|f]]; simpl in *; [done|]. split; [|done].
    intros f' [= <-]. destruct (HD f eq_refl) as (? & ? & ? & ? & ? & ->). simpl.
    split_and!; [done|done|]. apply Hg. by left.
  - intros err _. eapply spec_weaken; [|by apply IH]. intros out Ho i [H|?]%Ho; [|right; by right].
    destruct err as [[]|]; [by left| |by left].
    apply elem_of_app in H as [?|?%list_elem_of_singleton]; [by left|subst; right; by left].
Qed.
End TickSafety.

(** No blocker of a Todo issue is open: each is in a known terminal state. *)
Definition unblocked (cfg : ReconciliationConfig) (state : string) (blockers : option (list BlockerRef)) : Prop :=
  todoWorkflowState state = true → ∀ b, b ∈ default [] blockers →
  norm (br_State b) ≠ "" ∧ norm (br_State b) ∈ normalizedStates (rcf_TerminalStates cfg).
Definition labelled (cfg : ReconciliationConfig) (labels : list string) : Prop :=
  ∀ r, r ∈ rcf_RequiredLabels cfg → ∃ l, l ∈ labels ∧ norm l = norm r.

(** What the tick must know about an issue before it dispatches it: the tracker listed
    it among the active states, with its fields, its labels and no open blocker; and when
    the tracker can be asked, the issue carries the state, the labels and the blockers of
    a current row (the listed blockers when the row tells none), and that state is active,
    those labels suffice and those blockers are not open. *)
Definition dispatchable (env : TickEnv) (cfg : ReconciliationConfig) (issue : Issue) : Prop :=
  ∃ n listed, listed ∈ (env_list env n (rcf_ActiveStates cfg)).1 ∧ iss_ID issue = iss_ID listed ∧
  (blank (iss_ID listed) = false ∧ blank (iss_Identifier listed) = false ∧ blank (iss_Title listed) = false ∧
   blank (iss_State listed) = false ∧ labelled cfg (iss_Labels listed) ∧
   unblocked cfg (iss_State listed) (iss_BlockedBy listed)) ∧
  if env_refresher env
  then ∃ m asked row, (env_fetch env m asked).1 !! iss_ID issue = Some row ∧
       ist_Outcome row = IssueStateOutcomeCurrent ∧
       iss_State issue = ist_State row ∧ iss_Labels issue = ist_Labels row ∧
       iss_BlockedBy issue = match ist_BlockedBy row with Some bs => Some bs | None => iss_BlockedBy listed end ∧
       norm (ist_State row) ∈ normalizedStates (rcf_ActiveStates cfg) ∧ labelled cfg (ist_Labels row) ∧
       unblocked cfg (ist_State row) (iss_BlockedBy issue)
  else issue = listed.

Definition listed_eligible (env : TickEnv) (cfg : ReconciliationConfig) (listed : Issue) : Prop :=
  (∃ n, listed ∈ (env_list env n (rcf_ActiveStates cfg)).1) ∧
  eligible (normalizedStates (rcf_TerminalStates cfg)) (rcf_RequiredLabels cfg) listed = true.

Lemma listed_eligible_fields env cfg listed :
  listed_eligible env cfg listed →
  (∃ n, listed ∈ (env_list env n (rcf_ActiveStates cfg)).1) ∧
  blank (iss_ID listed) = false ∧ blank (iss_Identifier listed) = false ∧ blank (iss_Title listed) = false ∧
  blank (iss_State listed) = false ∧ labelled cfg (iss_Labels listed) ∧
  unblocked cfg (iss_State listed) (iss_BlockedBy listed).
Proof.
  intros [Hn He]. split; [done|].
  destruct (eligible_candidates_spec [listed] (rcf_TerminalStates cfg) (rcf_RequiredLabels cfg)) as [_ H].
  assert (listed ∈ filterEligibleCandidates [listed] (rcf_TerminalStates cfg) (rcf_RequiredLabels cfg)) as Hin.
  { apply filterEligible_elem. split; [by apply list_elem_of_singleton|done]. }
  by apply H in Hin as [_ Hin].
Qed.

Lemma tick_candidates_elem env cfg overflow n inactive i :
  i ∈ tick_candidates cfg overflow (env_list env n (rcf_ActiveStates cfg)).1 inactive →
  listed_eligible env cfg i.
Proof.
  unfold tick_candidates. cbv zeta. unfold sortCandidates.
  rewrite (stable_sort_perm candidate_less _). unfold filterIssuesNotInMap.
  intros H. assert (i ∈ filterEligibleCandidates (mergeOverflowCandidates overflow
    (env_list env n (rcf_ActiveStates cfg)).1) (rcf_TerminalStates cfg) (rcf_RequiredLabels cfg)) as Hi.
  { revert H. destruct (bool_decide (inactive = ∅)); [done|]. rewrite !list_elem_of_In. intros H.
    by apply filter_In in H as [? _]. }
  apply filterEligible_elem in Hi as [Hi He]. split; [|done]. exists n. by eapply mergeOverflow_sound.
Qed.

Lemma revalidated_dispatchable env cfg P candidates :
  (∀ i, i ∈ candidates → listed_eligible env cfg i) →
  tick_spec P (revalidateDispatchCandidates env cfg candidates)
    (λ res, ∀ i, i ∈ res.1 → dispatchable env cfg i).
Proof.
  intros Hc. unfold revalidateDispatchCandidates. destruct (env_refresher env) eqn:ER; simpl.
  2:{ apply spec_ret. intros i Hi. destruct (listed_eligible_fields _ _ _ (Hc i Hi)) as [[n Hn] Hf].
      exists n, i. by rewrite ER. }
  destruct candidates as [|c0 cs] eqn:EC; [apply spec_ret; by intros i ?%not_elem_of_nil|].
  rewrite <- EC in *. clear EC.
  apply (spec_bind _ _ _ (λ _, True)); [apply spec_submit; by intros|]. intros [claimable refs] _.
  destruct refs as [|r refs]; [apply spec_ret; by intros i ?%not_elem_of_nil|].
  apply (spec_bind _ _ _ (λ res, ∃ n, res = fetchIssueStates (fetcher env n) (r :: refs)));
    [apply spec_ask; eauto|].
  intros fetched [n ->]. apply spec_ret. simpl. intros i Hi.
  apply filterRevalidated_elem in Hi as (issue & row & Hin & _ & Hrow & Ho & Hb & -> & Hready).
  destruct (listed_eligible_fields _ _ _ (Hc issue Hin)) as [[k Hk] Hf]. exists k, issue. rewrite ER.
  split_and!; [done|done|apply Hf..|]. destruct Hready as (R1 & R2 & R3).
  unfold fetcher in Hrow. rewrite ER in Hrow.
  apply fetchIssueStates_row in Hrow as [->|(f & asked & [= <-] & _ & _ & Hrow)]; [done|].
  by exists n, asked, row.
Qed.

Lemma poll_once_safe env cfg preflight overflow :
  tick_spec (spawns_only (dispatchable env cfg)) (PollOnce env cfg preflight overflow)
    (λ res, ∀ i, i ∈ res.1 → i ∈ overflow ∨ dispatchable env cfg i).
Proof.
  unfold PollOnce. eapply spec_bind; [apply safe_budget|]. intros berr _.
  eapply spec_bind; [apply safe_reconcile|]. intros [[inactive refreshed] rerr] _.
  destruct (match preflight with Some c => validateDispatchPreflight c | None => [] end).
  2:{ eapply spec_bind; [apply safe_plain|]. intros _ _. apply spec_ret. by left. }
  apply (spec_bind _ _ _ (λ l, ∃ n, l = env_list env n (rcf_ActiveStates cfg))); [apply spec_ask; eauto|].
  intros [issues aerr] [n Hl]. apply (spec_bind _ _ _ (λ _, True)).
  { destruct issues; [by apply spec_ret|]. apply safe_plain. }
  intros _ _.
  assert (tick_spec (spawns_only (dispatchable env cfg))
    (tick_bind (revalidateDispatchCandidates env cfg (tick_candidates cfg overflow issues inactive))
       (λ res, let '(candidates, revalidateErr) := res in
          tick_bind (dispatch_loop env candidates []) (λ overflow, tick_ret (overflow,
            ((berr ++ rerr) ++ match aerr with Some e => [e] | None => [] end) ++
            match revalidateErr with Some e => [e] | None => [] end))))
    (λ res, ∀ i, i ∈ res.1 → i ∈ overflow ∨ dispatchable env cfg i)) as Hgo.
  { eapply spec_bind.
    { apply revalidated_dispatchable. intros i Hi. apply (tick_candidates_elem env cfg overflow n inactive).
      by rewrite <- Hl. }
    intros [candidates reverr] Hc. simpl in Hc.
    eapply spec_bind; [by apply safe_dispatch|]. intros out Ho. apply spec_ret. simpl.
    intros i [?%not_elem_of_nil|?]%Ho; [done|right; auto]. }
  destruct aerr; [destruct issues|]; [apply spec_ret; by left|exact Hgo|exact Hgo].
Qed.

Lemma preflight_stops env cfg c overflow s :
  validateDispatchPreflight c ≠ [] → Forall (λ f, is_spawn_followup f = false) (tk_followups s) →
  let res := PollOnce env cfg (Some c) overflow s in
  Forall (λ f, is_spawn_followup f = false) (tk_followups res.1) ∧
  res.2.1 = overflow ∧ res.2.2 ≠ [].
Proof.
  intros Hp Hs. assert (∀ f, spawns_only (λ _, False) f ↔ is_spawn_followup f = false) as Hiff.
  { intros [] ; simpl; naive_solver. }
  assert (tick_spec (spawns_only (λ _, False)) (PollOnce env cfg (Some c) overflow)
    (λ res, res.1 = overflow ∧ res.2 ≠ [])) as H.
  { unfold PollOnce. eapply spec_bind; [apply safe_budget|]. intros berr _.
    eapply spec_bind; [apply safe_reconcile|]. intros [[inactive refreshed] rerr] _.
    destruct (validateDispatchPreflight c) as [|e es]; [done|].
    eapply spec_bind; [apply safe_plain|]. intros _ _. apply spec_ret. split; [done|].
    simpl. by intros [_ [=]]%app_eq_nil. }
  destruct (H s) as [H1 H2]; [|split; [|exact H2]].
  - eapply Forall_impl; [exact Hs|]. intros f. apply Hiff.
  - eapply Forall_impl; [exact H1|]. intros f. apply Hiff.
Qed.

(** C18: A poll tick starts only confirmed work.  Whatever operations interleave with it
    and whatever the tracker answers, every worker a tick starts is for an issue with an
    id that the tracker listed with its fields, its labels and no open blocker. When a
    state reader is wired, the issue the worker gets carries the state, the labels and the
    blockers of a current row of the tracker (the listed blockers when that row tells
    none), and by that row it is active, labelled and, in a Todo state, unblocked; without
    a reader it is the listed issue. Every issue carried over to the next tick is one of
    these or was already carried over; and a tick whose preflight fails starts no worker,
    keeps the carry-over and reports the failure. *)
Theorem poll_starts_confirmed_work env cfg preflight overflow st n :
  let res := PollOnce env cfg preflight overflow
               {| tk_state := st; tk_ops := n; tk_followups := [] |} in
  (∀ id issue a ca ct b ws, FSpawn id issue a ca ct b ws ∈ tk_followups res.1 →
     id = iss_ID issue ∧ id ≠ "" ∧ dispatchable env cfg issue) ∧
  (∀ i, i ∈ res.2.1 → i ∈ overflow ∨ dispatchable env cfg i) ∧
  (∀ c, preflight = Some c → validateDispatchPreflight c ≠ [] →
     Forall (λ f, is_spawn_followup f = false) (tk_followups res.1) ∧
     res.2.1 = overflow ∧ res.2.2 ≠ []).
Proof.
  intros res. destruct (poll_once_safe env cfg preflight overflow
    {| tk_state := st; tk_ops := n; tk_followups := [] |}) as [H1 H2]; [constructor|].
  split_and!; [|done|].
  - intros id issue a ca ct b ws Hin. by apply (Forall_forall _ _) with (x := FSpawn id issue a ca ct b ws) in H1.
  - intros c -> Hp. by apply preflight_stops.
Qed.

(** * Correctness of hot reload and of the per-turn check *)


(** ** Hot reload *)

Section Reload.
Context (override : option (Config → ReconciliationConfig)).

(** The runtime watches a file. *)
Definition watching (r : WorkflowRuntime) : Prop := rt_path r ≠ "" ∧ rt_source r ≠ SourceDefault.

Lemma watching_guard r :
  watching r → String.eqb (rt_path r) "" || bool_decide (rt_source r = SourceDefault) = false.
Proof.
  intros [Hp Hs]. destruct (String.eqb_spec (rt_path r) ""); [done|].
  by rewrite bool_decide_eq_false_2.
Qed.

(** One check either keeps the snapshot or installs the workflow it loaded. *)
Lemma reload_step input r :
  let '(r', res, evs) := ReloadOnce override input r in
  rt_path r' = rt_path r ∧ rt_source r' = rt_source r ∧
  ((rt_current r' = rt_current r ∧ EventWorkflowReloaded ∉ evs) ∨
   (∃ fp wf, ri_fingerprint input = inr fp ∧ ri_load input = inr wf ∧ res = ReloadOK ∧
      rt_current r' = snapshotFromWorkflow override wf fp ∧ evs = [EventWorkflowReloaded])).
Proof.
  assert (EventWorkflowReloaded ∉ ([] : list ReloadEvent)) as H0 by apply not_elem_of_nil.
  assert (∀ e, EventWorkflowReloaded ∉ [EventWorkflowReloadFailed e]) as H1
    by (intros e ?%list_elem_of_singleton; done).
  unfold ReloadOnce. destruct (_ || _); [by auto|].
  destruct (ri_fingerprint input) as [err|fp]; [by destruct (String.eqb _ _); auto|].
  destruct (_ && _); [by auto|]. destruct (String.eqb _ _); [by auto|].
  destruct (ri_load input) as [err|wf]; simpl; [by auto|].
  split_and!; [done|done|]. right. by exists fp, wf.
Qed.

(** A check that cannot read the file. *)
Definition unreadable (input : ReloadInput) : Prop := ∃ err, ri_fingerprint input = inl err.
(** A check that finds the invalid contents with fingerprint [fp]. *)
Definition invalid (fp : string) (input : ReloadInput) : Prop :=
  ri_fingerprint input = inr fp ∧ ∃ err, ri_load input = inl err.

Lemma unreadable_again inputs r :
  watching r → rt_lastFailedFingerprint r = workflowReloadReadErrorSentinel → Forall unreadable inputs →
  reload_loop override inputs r = (r, []).
Proof.
  intros HW HL H. induction H as [|i inputs [err Hi] _ IH]; [done|]. simpl. unfold ReloadOnce.
  rewrite (watching_guard r HW), Hi, HL. simpl.
  assert (r <| rt_lastFailedFingerprint := workflowReloadReadErrorSentinel |> = r) as ->.
  { destruct r. simpl in *. by rewrite HL. }
  by rewrite IH.
Qed.

Lemma invalid_again fp inputs r :
  watching r → rt_lastFailedFingerprint r = fp → snapshot_Fingerprint (rt_current r) ≠ fp →
  Forall (invalid fp) inputs → reload_loop override inputs r = (r, []).
Proof.
  intros HW HL HC H. induction H as [|i inputs [Hi _] _ IH]; [done|]. simpl. unfold ReloadOnce.
  rewrite (watching_guard r HW), Hi, HL. destruct (String.eqb_spec (snapshot_Fingerprint (rt_current r)) fp);
    [done|]. rewrite andb_false_r, String.eqb_refl. by rewrite IH.
Qed.

Lemma reload_loop_current inputs : ∀ r,
  let '(r', evs) := reload_loop override inputs r in
  (rt_current r' = rt_current r ∧ EventWorkflowReloaded ∉ evs) ∨
  (∃ input fp wf, input ∈ inputs ∧ ri_fingerprint input = inr fp ∧ ri_load input = inr wf ∧
     rt_current r' = snapshotFromWorkflow override wf fp ∧ EventWorkflowReloaded ∈ evs).
Proof.
  induction inputs as [|i inputs IH]; intros r; simpl; [left; split; [done|apply not_elem_of_nil]|].
  pose proof (reload_step i r) as HS. destruct (ReloadOnce override i r) as [[r1 res] evs].
  destruct HS as (_ & _ & HS). specialize (IH r1).
  destruct (reload_loop override inputs r1) as [r2 evs'].
  destruct IH as [[IHc IHe]|(j & fp & wf & Hj & Hf & Hl & Hc & He)].
  - rewrite IHc. destruct HS as [[Hc He]|(fp & wf & Hf & Hl & _ & Hc & ->)].
    + left. split; [done|]. rewrite elem_of_app. tauto.
    + right. exists i, fp, wf. split_and!; try done; [by left|]. by left.
  - right. exists j, fp, wf. split_and!; try done; [by right|]. apply elem_of_app. by right.
Qed.
End Reload.

(** Hot reload keeps the last good workflow.  Over any sequence of checks of the
    file, the current snapshot changes only to one built from a workflow that loaded and
    validated, and a reload is announced exactly then; repeated checks of an unreadable
    file, or of the same invalid contents, report one failure and no more. *)
Theorem reload_keeps_last_good override r :
  watching r →
  (∀ inputs, let '(r', evs) := reload_loop override inputs r in
     (rt_current r' = rt_current r ∧ EventWorkflowReloaded ∉ evs) ∨
     (∃ input fp wf, input ∈ inputs ∧ ri_fingerprint input = inr fp ∧ ri_load input = inr wf ∧
        rt_current r' = snapshotFromWorkflow override wf fp ∧ EventWorkflowReloaded ∈ evs)) ∧
  (∀ input inputs err, ri_fingerprint input = inl err → Forall unreadable inputs →
     rt_lastFailedFingerprint r ≠ workflowReloadReadErrorSentinel →
     (reload_loop override (input :: inputs) r).2 = [EventWorkflowReloadFailed err]) ∧
  (∀ fp input inputs err, ri_fingerprint input = inr fp → ri_load input = inl err →
     Forall (invalid fp) inputs → snapshot_Fingerprint (rt_current r) ≠ fp →
     rt_lastFailedFingerprint r ≠ fp →
     (reload_loop override (input :: inputs) r).2 = [EventWorkflowReloadFailed err]).
Proof.
  intros HW. split_and!.
  - intros inputs. apply reload_loop_current.
  - intros input inputs err Hi HF HL. simpl. unfold ReloadOnce. rewrite (watching_guard r HW), Hi.
    destruct (String.eqb_spec (rt_lastFailedFingerprint r) workflowReloadReadErrorSentinel); [done|].
    by rewrite unreadable_again.
  - intros fp input inputs err Hi Hl HF HC HL. simpl. unfold ReloadOnce.
    rewrite (watching_guard r HW), Hi, Hl.
    destruct (String.eqb_spec (snapshot_Fingerprint (rt_current r)) fp); [done|].
    destruct (String.eqb_spec (rt_lastFailedFingerprint r) fp); [done|]. rewrite andb_false_r.
    by rewrite (invalid_again override fp).
Qed.

Lemma reload_keeps_last_good_witness :
  let cfg := Build_Config "git" "o" "r" "main" "linear" ["Todo"] ["Done"] [] [] "codex" 0 1000 2 []
               20 0 0 0 "mock" in
  let wf := Build_LoadedWorkflow cfg "WORKFLOW.md" SourceFile in
  let r := Build_WorkflowRuntime "WORKFLOW.md" SourceFile (snapshotFromWorkflow None wf "f0") "" in
  let broken := Build_ReloadInput (inr "f1") (inl "bad yaml") in
  (reload_loop None [broken; broken; broken] r).2 = [EventWorkflowReloadFailed "bad yaml"].
Proof.
  intros cfg wf r broken.
  assert (watching r) as HW by (split; discriminate).
  destruct (reload_keeps_last_good None r HW) as (_ & _ & H).
  apply (H "f1"); try reflexivity; try discriminate.
  assert (invalid "f1" broken) by (split; [reflexivity|by eexists]).
  constructor; [assumption|]. constructor; [assumption|constructor].
Defined.

(** ** The per-turn check *)

(** A run is told to stop only on evidence.  The per-turn check handed to the runner
    reports an inactive or terminal issue only when an operator stopped it or the
    tracker's current row shows it: outside the active states or without the required
    labels for inactive, in a terminal state for terminal.  An unknown, absent,
    stateless or missing row keeps the run going, and an error is returned only when the
    tracker failed. *)
Theorem per_turn_stop_needs_evidence lookup f t cfg result :
  perTurnRefresh lookup (Some f) t cfg = Some result →
  let id := TrimSpace (task_ID t) in
  match result with
  | inl e => operatorTerminalStopSnapshot lookup = None ∧ ∃ asked, (f asked).2 = Some e
  | inr snap =>
      (∃ stop, lookup = Some (Some stop) ∧ snap_Active snap = false ∧ snap_Terminal snap = true ∧
         snap_OperatorTerminalStop snap = true) ∨
      (snap_OperatorTerminalStop snap = false ∧
       (snap_Active snap = false ∨ snap_Terminal snap = true →
        ∃ asked row, (f asked).1 !! id = Some row ∧ ist_Outcome row = IssueStateOutcomeCurrent ∧
          snap_State snap = ist_State row ∧
          (snap_Active snap = false →
             norm (ist_State row) ∉ normalizedStates (cfg_ActiveStates cfg) ∨
             ¬ (∀ r, r ∈ cfg_RequiredLabels cfg → ∃ l, l ∈ ist_Labels row ∧ norm l = norm r)) ∧
          (snap_Terminal snap = true →
             norm (ist_State row) ∈ normalizedStates (cfg_TerminalStates cfg))))
  end.
Proof.
  unfold perTurnRefresh. cbv zeta. set (id := TrimSpace (task_ID t)).
  destruct (_ || _); [done|]. intros [= <-].
  destruct (operatorTerminalStopSnapshot lookup) as [stopped|] eqn:EL.
  { left. destruct lookup as [[stop|]|]; [|done|done]. injection EL as <-. by exists stop. }
  set (refs := [_]). pose proof (fetchIssueStates_row (Some f) refs id) as HR.
  pose proof (fetchIssueStates_error f refs) as HE.
  destruct (fetchIssueStates (Some f) refs) as [rows err]. simpl in HR, HE.
  destruct err as [e|]; [split; [done|by apply HE]|].
  destruct (rows !! id) as [row|]; [|by right; split; [|intros [?|?]]].
  destruct (ist_Outcome row) eqn:EO; try (by right; split; [|intros [?|?]]).
  destruct (blank (ist_State row)); [by right; split; [|intros [?|?]]|]. right. simpl. split; [done|].
  destruct (HR row eq_refl) as [->|(f' & asked & [= <-] & _ & _ & Hrow)]; [done|]. intros _.
  exists asked, row. split_and!; try done.
  - rewrite <- labelsSatisfyRequired_iff. intros [H|H]%andb_false_iff.
    + left. by apply bool_decide_eq_false_1 in H.
    + right. by rewrite H.
  - by intros H%bool_decide_eq_true_1.
Qed.

Lemma per_turn_stop_needs_evidence_witness :
  let cfg := Build_Config "git" "o" "r" "main" "linear" ["Todo"] ["Done"] [] [] "codex" 0 1000 2 []
               20 0 0 0 "mock" in
  let t := match TaskFromIssue (zero_Issue <| iss_ID := "A" |>) cfg with
           | inr t => t
           | inl _ => Build_Task "A" "" "" "" "" "" "" "" "" "" "" "" 0 0 None
           end in
  let row := Build_IssueState IssueStateOutcomeCurrent "Done" [] None in
  let f (_ : list IssueRef) : gmap string IssueState * option string := ({["A" := row]}, None) in
  ∃ asked row, (f asked).1 !! "A" = Some row ∧ norm (ist_State row) ∈ normalizedStates ["Done"].
Proof.
  intros cfg t row f.
  pose proof (per_turn_stop_needs_evidence (Some None) f t cfg
    (inr (Build_IssueStateSnapshot true "Done" false true false)) ltac:(vm_compute; reflexivity)) as H.
  destruct H as [(stop & H & _)|[_ H]]; [discriminate H|].
  destruct H as (asked & row' & Hrow & _ & _ & _ & Ht); [by left|].
  exists asked, row'. split; [exact Hrow|]. apply Ht. reflexivity.
Defined.
