(* ===== verification/ReconcileProps.v ===== *)
(** * Correctness of the reconcile operations

    Which runs the budget and stall passes cancel, what an absent or inactive issue
    loses, and what the passes leave alone. *)

From S2P Require Import Prelude Tracker Workflow RetryPolicy Payload Types State Ops Cleanup Dispatch Finalize Retry Reconcile RuntimeEvents Snapshot Effects.

(** ** Cancel passes *)

(** [for id, r := range st.Running] visits every running issue. *)
Definition covers {V} (order : list IssueID) (m : gmap IssueID V) : Prop :=
  ∀ id, is_Some (m !! id) → id ∈ order.

Section CancelPass.
Context (body : IssueID → Ref → OrchestratorState * list Ref → OrchestratorState * list Ref).
Context (bad : RunningEntry → bool) (inv : OrchestratorState → Prop).
(** One visit appends the run exactly when it is bad, and touches no other run. *)
Context (visit : ∀ id r st cs, inv st →
  let '(st', cs') := body id r (st, cs) in
  inv st' ∧ Running st' = Running st ∧ (∀ r', r' ≠ r → deref st' r' = deref st r') ∧
  (cs' = cs ++ [r] ∨ cs' = cs ∧ deref st' r = deref st r) ∧
  (r ∉ cs → r ∈ cs' ↔ bad (deref st r) = true)).

Lemma cancel_pass_prefix order st0 :
  inv st0 →
  let s := range_map (fun s => Running s.1) body order (st0, []) in
  inv s.1 ∧ Running s.1 = Running st0 ∧
  (∀ r, r ∉ s.2 → deref s.1 r = deref st0 r) ∧
  (∀ r, r ∈ s.2 ↔ ∃ id, id ∈ order ∧ Running st0 !! id = Some r ∧ bad (deref st0 r) = true).
Proof.
  intros Hinv. unfold range_map. induction order as [|id order IH] using rev_ind; simpl.
  { split_and!; try done. intros r. split; [by intros ?%not_elem_of_nil|].
    by intros (id & ?%not_elem_of_nil & _). }
  rewrite fold_left_app. simpl in *.
  destruct (fold_left _ order (st0, [])) as [st cs]. simpl in *.
  destruct IH as (HI & HR & Hd & Hc). rewrite HR.
  assert (∀ r, (∃ id', id' ∈ order ++ [id] ∧ Running st0 !! id' = Some r ∧ bad (deref st0 r) = true) ↔
    r ∈ cs ∨ Running st0 !! id = Some r ∧ bad (deref st0 r) = true) as Hsplit.
  { intros r. rewrite Hc. setoid_rewrite elem_of_app. setoid_rewrite list_elem_of_singleton. naive_solver. }
  destruct (Running st0 !! id) as [r|] eqn:E.
  2:{ split_and!; try done. intros r'. rewrite Hsplit. naive_solver. }
  pose proof (visit id r st cs HI) as HV. destruct (body id r (st, cs)) as [st' cs'].
  destruct HV as (HI' & HR' & Ho & Hcs & Hb). simpl. split_and!; [done|congruence| |].
  - intros r' Hr'. destruct (decide (r' = r)) as [->|Hne].
    + destruct Hcs as [->|[-> Hk]]; [set_solver|]. rewrite Hk. by apply Hd.
    + rewrite Ho by done. apply Hd. destruct Hcs as [->|[-> _]]; set_solver.
  - intros r'. rewrite Hsplit. destruct (decide (r' = r)) as [->|Hne].
    + destruct (decide (r ∈ cs)) as [Hin|Hin].
      * split; [by left|]. intros _. destruct Hcs as [->|[-> _]]; set_solver.
      * rewrite (Hb Hin), Hd by done. naive_solver.
    + destruct Hcs as [->|[-> _]]; [|naive_solver].
      rewrite elem_of_app, list_elem_of_singleton. naive_solver.
Qed.

Lemma cancel_pass order st0 :
  inv st0 → covers order (Running st0) →
  let s := range_map (fun s => Running s.1) body order (st0, []) in
  inv s.1 ∧ Running s.1 = Running st0 ∧
  (∀ r, r ∉ s.2 → deref s.1 r = deref st0 r) ∧
  (∀ r, r ∈ s.2 ↔ ∃ id, Running st0 !! id = Some r ∧ bad (deref st0 r) = true).
Proof.
  intros Hinv Hcov s. destruct (cancel_pass_prefix order st0 Hinv) as (H1 & H2 & H3 & H4).
  split_and!; [done|done|done|]. intros r. unfold s. rewrite H4. split; [naive_solver|].
  intros (id & E & Hb). exists id. split_and!; [|done|done]. apply Hcov. eauto.
Qed.
End CancelPass.

Lemma deref_upd_other r r' f st : r' ≠ r → deref (upd_run r f st) r' = deref st r'.
Proof. intros. unfold deref. simpl. by rewrite lookup_alter_ne. Qed.

Lemma deref_upd_self r f st run : runs st !! r = Some run → deref (upd_run r f st) r = f run.
Proof. intros E. unfold deref. simpl. by rewrite lookup_alter_eq, E. Qed.

Lemma appended (r : Ref) (cs : list Ref) b :
  b = true → (r ∉ cs → r ∈ cs ++ [r] ↔ b = true).
Proof. intros -> _. split; [done|]. intros _. apply elem_of_app. right. by left. Qed.

(** *** Budgets *)

(** The run exceeds a configured budget, or was found to. *)
Definition over_budget (now : Time) (g : BudgetGuardrails) (run : RunningEntry) : bool :=
  run_BudgetExceeded run ||
  match budgetExceededMessage now g run with Some _ => true | None => false end.

Lemma over_budget_iff now g run :
  over_budget now g run = true ↔
  run_BudgetExceeded run = true ∨
  0 < bg_MaxTokensPerClaim g < run_CodexTotalTokens run ∨
  0 < bg_MaxRuntimeSecondsPerClaim g ∧
    bg_MaxRuntimeSecondsPerClaim g * Second < runtimeSecondsSince now (run_StartedAt run).
Proof.
  unfold over_budget, budgetExceededMessage.
  destruct (run_BudgetExceeded run); simpl; [naive_solver|].
  destruct (Z.ltb_spec 0 (bg_MaxTokensPerClaim g)), (Z.ltb_spec (bg_MaxTokensPerClaim g)
    (run_CodexTotalTokens run)), (Z.ltb_spec 0 (bg_MaxRuntimeSecondsPerClaim g)),
    (Z.ltb_spec (bg_MaxRuntimeSecondsPerClaim g * Second)
      (runtimeSecondsSince now (run_StartedAt run))); simpl;
    (split; [intros; try discriminate; naive_solver lia|]); intros [?|[?|[? ?]]]; (done || lia).
Qed.

Lemma budget_visit clock now g r st cs :
  Guardrails st = g →
  let '(st', cs') :=
    if run_BudgetExceeded (deref st r) then (st, cs ++ [r])
    else let '(st, marked) := markBudgetExceededIfNeeded clock now r st in
         (st, if marked then cs ++ [r] else cs) in
  Guardrails st' = g ∧ Running st' = Running st ∧ (∀ r', r' ≠ r → deref st' r' = deref st r') ∧
  (cs' = cs ++ [r] ∨ cs' = cs ∧ deref st' r = deref st r) ∧
  (r ∉ cs → r ∈ cs' ↔ over_budget now g (deref st r) = true).
Proof.
  intros <-. unfold over_budget. destruct (run_BudgetExceeded (deref st r)) eqn:EB; simpl.
  { split_and!; try done; [by left|]. by apply (appended r cs true). }
  unfold markBudgetExceededIfNeeded. rewrite EB.
  destruct (budgetExceededMessage now (Guardrails st) (deref st r)).
  - split_and!; try done; [intros; by apply deref_upd_other|by left|by apply (appended r cs true)].
  - split_and!; try done. by right.
Qed.

(** The budget pass cancels exactly the offending runs.  A running issue's run is
    cancelled if and only if it was already marked, has used more tokens than the
    configured budget, or has run longer than the configured time; a zero or negative
    setting disables its budget, and a run that is not cancelled is left as it was. *)
Theorem budget_pass_exact clock now order st :
  covers order (Running st) →
  let '(st', f) := reconcileBudgetExceededRunsOp_apply clock now order st in
  Running st' = Running st ∧ ∃ cs, f = FCancel NilCause cs [] ∧
    (∀ r, r ∉ cs → deref st' r = deref st r) ∧
    ∀ r, r ∈ cs ↔ ∃ id, Running st !! id = Some r ∧
      (run_BudgetExceeded (deref st r) = true ∨
       0 < bg_MaxTokensPerClaim (Guardrails st) < run_CodexTotalTokens (deref st r) ∨
       0 < bg_MaxRuntimeSecondsPerClaim (Guardrails st) ∧
         bg_MaxRuntimeSecondsPerClaim (Guardrails st) * Second <
           runtimeSecondsSince now (run_StartedAt (deref st r))).
Proof.
  intros Hcov. unfold reconcileBudgetExceededRunsOp_apply.
  pose proof (cancel_pass (fun _ r '(st, canceled) =>
      if run_BudgetExceeded (deref st r) then (st, canceled ++ [r])
      else
        let '(st, marked) := markBudgetExceededIfNeeded clock now r st in
        (st, if marked then canceled ++ [r] else canceled)) (over_budget now (Guardrails st))
    (λ s, Guardrails s = Guardrails st) (λ _ r s cs H, budget_visit clock now _ r s cs H)
    order st eq_refl Hcov) as H.
  destruct (range_map _ _ order (st, [])) as [st' cs]. simpl in H.
  destruct H as (_ & HR & Hd & Hc). split; [done|]. exists cs. split_and!; [done|done|].
  intros r. rewrite Hc. by setoid_rewrite over_budget_iff.
Qed.

Lemma budget_pass_exact_witness :
  let run := (new_RunningEntry (zero_Issue <| iss_ID := "A" |>) 5 None 0 0 zero_Workspace)
               <| run_CodexTotalTokens := 101 |> in
  let st := (NewOrchestratorState 1000 1) <| Running := {["A" := 1%positive]} |>
              <| runs := {[1%positive := run]} |>
              <| Guardrails := Build_BudgetGuardrails 100 0 |> in
  ∃ cs, (reconcileBudgetExceededRunsOp_apply 9 9 ["A"] st).2 = FCancel NilCause cs [] ∧
    1%positive ∈ cs.
Proof.
  intros run st.
  assert (covers ["A"] (Running st)) as Hcov.
  { intros id [r Hr]. simpl in Hr. apply lookup_singleton_Some in Hr as [<- _]. by left. }
  pose proof (budget_pass_exact 9 9 ["A"] st Hcov) as H.
  destruct (reconcileBudgetExceededRunsOp_apply 9 9 ["A"] st) as [st' f].
  destruct H as (_ & cs & -> & _ & Hc). exists cs. split; [reflexivity|]. apply Hc. exists "A".
  split; [reflexivity|]. right. left. vm_compute. done.
Defined.

(** *** Stalls *)

Definition stall_victim (opNow : Time) (timeout : Duration) (run : RunningEntry) : bool :=
  negb (run_BudgetExceeded run || run_StallCanceled run) && isStalled opNow timeout run.

Lemma stall_victim_iff opNow timeout run :
  stall_victim opNow timeout run = true ↔
  run_BudgetExceeded run = false ∧ run_StallCanceled run = false ∧
  let ref := if IsZero (run_LastEventAt run) then run_StartedAt run else run_LastEventAt run in
  ref ≠ time_zero ∧ timeout < time_Sub opNow ref.
Proof.
  unfold stall_victim, isStalled, time_zero. cbv zeta.
  destruct (run_BudgetExceeded run), (run_StallCanceled run); simpl; try naive_solver.
  generalize (if IsZero (run_LastEventAt run) then run_StartedAt run else run_LastEventAt run).
  intros ref. unfold IsZero. destruct (Z.eqb_spec ref 0); [naive_solver|]. rewrite Z.ltb_lt.
  naive_solver.
Qed.

Lemma stall_visit now opNow timeout id r st cs :
  let '(st', cs') :=
    let run := deref st r in
    if run_BudgetExceeded run || run_StallCanceled run then (st, cs)
    else if negb (isStalled opNow timeout run) then (st, cs)
    else
      let st := upd_run r (fun run => run <| run_StallCanceled := true |>) st in
      (RecordEvent now (event RuntimeEventFailed id (run_Identifier run) "stalled") st, cs ++ [r]) in
  True ∧ Running st' = Running st ∧ (∀ r', r' ≠ r → deref st' r' = deref st r') ∧
  (cs' = cs ++ [r] ∨ cs' = cs ∧ deref st' r = deref st r) ∧
  (r ∉ cs → r ∈ cs' ↔ stall_victim opNow timeout (deref st r) = true).
Proof.
  unfold stall_victim. cbv zeta.
  destruct (run_BudgetExceeded (deref st r) || run_StallCanceled (deref st r)); simpl;
    [split_and!; try done; by right|].
  destruct (isStalled opNow timeout (deref st r)); simpl; [|split_and!; try done; by right].
  split_and!; try done; [intros; by apply deref_upd_other|by left|by apply (appended r cs true)].
Qed.

(** The stall pass cancels exactly the stalled runs, once.  A running issue's run is
    cancelled if and only if its last event (or, before any event, its start) is older
    than the timeout and it is not already cancelled for its budget or for stalling; a
    run that is not cancelled is left as it was. *)
Theorem stall_pass_exact now opNow timeout order st :
  covers order (Running st) →
  let '(st', f) := reconcileStalledRunsOp_apply now opNow timeout order st in
  Running st' = Running st ∧ ∃ cs, f = FCancel NilCause cs [] ∧
    (∀ r, r ∉ cs → deref st' r = deref st r) ∧
    ∀ r, r ∈ cs ↔ ∃ id, Running st !! id = Some r ∧
      let run := deref st r in
      run_BudgetExceeded run = false ∧ run_StallCanceled run = false ∧
      let ref := if IsZero (run_LastEventAt run) then run_StartedAt run else run_LastEventAt run in
      ref ≠ time_zero ∧ timeout < time_Sub opNow ref.
Proof.
  intros Hcov. unfold reconcileStalledRunsOp_apply.
  pose proof (cancel_pass (fun id r '(st, canceled) =>
      let run := deref st r in
      if run_BudgetExceeded run || run_StallCanceled run then (st, canceled)
      else if negb (isStalled opNow timeout run) then (st, canceled)
      else
        let st := upd_run r (fun run => run <| run_StallCanceled := true |>) st in
        (RecordEvent now (event RuntimeEventFailed id (run_Identifier run) "stalled") st,
         canceled ++ [r])) (stall_victim opNow timeout)
    (λ _, True) (λ id r s cs _, stall_visit now opNow timeout id r s cs) order st I Hcov) as H.
  destruct (range_map _ _ order (st, [])) as [st' cs]. simpl in H.
  destruct H as (_ & HR & Hd & Hc). split; [done|]. exists cs. split_and!; [done|done|].
  intros r. rewrite Hc. by setoid_rewrite stall_victim_iff.
Qed.

Lemma stall_pass_exact_witness :
  let run := new_RunningEntry (zero_Issue <| iss_ID := "A" |>) 5 None 0 0 zero_Workspace in
  let st := (NewOrchestratorState 1000 1) <| Running := {["A" := 1%positive]} |>
              <| runs := {[1%positive := run]} |> in
  ∃ cs, (reconcileStalledRunsOp_apply 500 500 100 ["A"] st).2 = FCancel NilCause cs [] ∧
    1%positive ∈ cs.
Proof.
  intros run st.
  assert (covers ["A"] (Running st)) as Hcov.
  { intros id [r Hr]. simpl in Hr. apply lookup_singleton_Some in Hr as [<- _]. by left. }
  pose proof (stall_pass_exact 500 500 100 ["A"] st Hcov) as H.
  destruct (reconcileStalledRunsOp_apply 500 500 100 ["A"] st) as [st' f].
  destruct H as (_ & cs & -> & _ & Hc). exists cs. split; [reflexivity|]. apply Hc. exists "A".
  split; [reflexivity|]. vm_compute. split; [reflexivity|]. split; [reflexivity|].
  split; [discriminate|reflexivity].
Defined.

(** ** Releasing passes *)

(** What the claim maps hold about one issue. *)
Definition holding (st : OrchestratorState) (id : IssueID)
    : Slot * option RetryEntry * option BlockedEntry :=
  (slot st id, RetryAttempts st !! id, Blocked st !! id).
Definition released (h : Slot * option RetryEntry * option BlockedEntry)
    : Slot * option RetryEntry * option BlockedEntry := (release h.1.1, None, None).

Lemma released_idem h : released (released h) = released h.
Proof. done. Qed.

Lemma holding_release id st id' :
  holding (ReleaseClaim id st) id' = if decide (id' = id) then released (holding st id) else holding st id'.
Proof.
  unfold holding, released. rewrite (slot_release id st id').
  assert (RetryAttempts (ReleaseClaim id st) = delete id (RetryAttempts st)) as ->.
  { unfold ReleaseClaim. simpl. destruct (RetryAttempts st !! id) as [e|] eqn:E.
    - by destruct (retry_Timer e).
    - simpl. by rewrite delete_id. }
  assert (Blocked (ReleaseClaim id st) = delete id (Blocked st)) as ->.
  { unfold ReleaseClaim. simpl. destruct (RetryAttempts st !! id) as [e|]; [|done].
    by destruct (retry_Timer e). }
  case_decide as Hd; [by rewrite Hd, !lookup_delete_eq|]. by rewrite !lookup_delete_ne by done.
Qed.

Section ReleasePass.
Context {T V : Type} (π : T → OrchestratorState) (get : OrchestratorState → gmap IssueID V).
Context (body : IssueID → V → T → T) (hit : IssueID → V → bool).
(** A visit of a hit releases that issue, any other visit changes no holding, and the
    visited map keeps the entries of other issues. *)
Context (visit : ∀ id v s, get (π s) !! id = Some v →
  (∀ id', holding (π (body id v s)) id' =
     if decide (id' = id) then (if hit id v then released (holding (π s) id) else holding (π s) id)
     else holding (π s) id') ∧
  (∀ id', id' ≠ id → get (π (body id v s)) !! id' = get (π s) !! id') ∧
  (∀ v', get (π (body id v s)) !! id = Some v' → v' = v)).

(** The state after visiting the issues of [order]. *)
Lemma release_pass_prefix order s :
  let s' := range_map (λ s, get (π s)) body order s in
  ∀ id, holding (π s') id =
      (if bool_decide (id ∈ order) && match get (π s) !! id with Some v => hit id v | None => false end
       then released (holding (π s) id) else holding (π s) id) ∧
    (get (π s') !! id = get (π s) !! id ∨ get (π s') !! id = None ∧ id ∈ order).
Proof.
  unfold range_map. induction order as [|k order IH] using rev_ind; simpl; [by auto|]. intros id.
  rewrite fold_left_app. simpl in *. revert IH. generalize (fold_left
    (λ s k, match get (π s) !! k with Some v => body k v s | None => s end) order s).
  intros s1 IH. destruct (IH id) as [IHh IHg].
  assert (bool_decide (id ∈ order ++ [k]) = bool_decide (id ∈ order) || bool_decide (id = k)) as ->.
  { rewrite <- bool_decide_or. apply bool_decide_ext. by rewrite elem_of_app, list_elem_of_singleton. }
  destruct (decide (id = k)) as [<-|Hne].
  2:{ rewrite (bool_decide_eq_false_2 (id = k)), orb_false_r by done.
      assert (∀ s2, (∀ id', id' ≠ k → holding (π s2) id' = holding (π s1) id' ∧
        get (π s2) !! id' = get (π s1) !! id') → holding (π s2) id = holding (π s1) id ∧
        (get (π s2) !! id = get (π s) !! id ∨ get (π s2) !! id = None ∧ id ∈ order ++ [k])) as HF.
      { intros s2 H. destruct (H id Hne) as [-> ->]. split; [done|].
        destruct IHg as [?|[? ?]]; [by left|]. right. split; [done|]. apply elem_of_app. by left. }
      rewrite <- IHh. apply HF. intros id' Hid'. destruct (get (π s1) !! k) as [v|] eqn:E; [|done].
      destruct (visit k v s1 E) as (H1 & H2 & _). rewrite H1, decide_False by done. by rewrite H2. }
  rewrite (bool_decide_eq_true_2 (id = id)), orb_true_r by done. simpl.
  assert (id ∈ order ++ [id]) as Hin by (apply elem_of_app; right; by left).
  destruct (get (π s1) !! id) as [v|] eqn:E.
  - destruct IHg as [IHg|[? _]]; [|congruence]. rewrite <- IHg in IHh |- *.
    destruct (visit id v s1 E) as (H1 & _ & H3). rewrite H1, decide_True by done. rewrite IHh. split.
    + destruct (hit id v); [|by rewrite andb_false_r]. by destruct (bool_decide _ && _).
    + destruct (get (π (body id v s1)) !! id) as [v'|] eqn:E'; [left; f_equal; by apply H3|by right].
  - destruct IHg as [IHg|[_ Hin']].
    + rewrite <- IHg in IHh |- *. rewrite IHh, andb_false_r. by auto.
    + rewrite (bool_decide_eq_true_2 (id ∈ order)) in IHh by done. by auto.
Qed.

Lemma release_pass order s :
  covers order (get (π s)) →
  let s' := range_map (λ s, get (π s)) body order s in
  ∀ id, holding (π s') id =
    match get (π s) !! id with
    | Some v => if hit id v then released (holding (π s) id) else holding (π s) id
    | None => holding (π s) id
    end.
Proof.
  intros Hcov s' id. unfold s'. destruct (release_pass_prefix order s id) as [-> _].
  destruct (get (π s) !! id) as [v|] eqn:E; [|by rewrite andb_false_r].
  by rewrite bool_decide_eq_true_2 by (apply Hcov; eauto).
Qed.
End ReleasePass.

(** ** Absent issues *)

Lemma holding_run id st : s_run (holding st id).1.1 = Running st !! id.
Proof. done. Qed.

Lemma visit_frame (st st' : OrchestratorState) (id : IssueID) (b : bool) :
  st' = (if b then ReleaseClaim id st else st) → ∀ id', holding st' id' =
    if decide (id' = id) then (if b then released (holding st id) else holding st id)
    else holding st id'.
Proof.
  intros -> id'. destruct b; [apply holding_release|]. by case_decide as H; [rewrite H|].
Qed.

Lemma released_lookups id st id' :
  Running (ReleaseClaim id st) !! id' = Running st !! id' ∧
  RetryAttempts (ReleaseClaim id st) !! id' = (if decide (id' = id) then None else RetryAttempts st !! id') ∧
  Blocked (ReleaseClaim id st) !! id' = (if decide (id' = id) then None else Blocked st !! id').
Proof.
  pose proof (holding_release id st id') as H. unfold holding, released in H. rewrite ReleaseClaim_Running.
  case_decide; by inversion H.
Qed.

Section Absent.
Context (absentIDs : gset string).

Lemma absent_running_pass order st cs :
  covers order (Running st) → ∀ id,
  holding (range_map (fun s => Running s.1) (fun id r '(st, canceled) =>
      if bool_decide (id ∉ absentIDs) then (st, canceled)
      else
        let st := ReleaseClaim id st in
        let st := upd_run r (fun run =>
          clearAgentCurrentIssueTerminalHandoff
            (run <| run_ReconcileCancel := true |>
                 <| run_ReconcileCleanupWorkspace := false |>
                 <| run_AgentCurrentIssueHandoff := false |>)) st in
        (st, canceled ++ [r])) order (st, cs)).1 id =
  match Running st !! id with
  | Some _ => if bool_decide (id ∈ absentIDs) then released (holding st id) else holding st id
  | None => holding st id
  end.
Proof.
  intros Hcov id. refine (release_pass (T:=OrchestratorState * list Ref) fst Running _
    (λ id _, bool_decide (id ∈ absentIDs)) _ order (st, cs) Hcov id).
  intros k r [s c] Hk. simpl in Hk. simpl.
  destruct (decide (k ∈ absentIDs)) as [Hin|Hin].
  - rewrite (bool_decide_eq_false_2 (k ∉ _)), (bool_decide_eq_true_2 (k ∈ _)) by naive_solver.
    split_and!; [exact (holding_release k s)| |]; simpl; rewrite ReleaseClaim_Running; [done|].
    rewrite Hk. by intros v' [= <-].
  - rewrite (bool_decide_eq_true_2 (k ∉ _)), (bool_decide_eq_false_2 (k ∈ _)) by naive_solver.
    split_and!; [intros id'; by case_decide as H; [rewrite H|]|done|]. simpl. rewrite Hk.
    by intros v' [= <-].
Qed.

Lemma absent_blocked_pass order st :
  covers order (Blocked st) → ∀ id,
  holding (range_map Blocked (fun id _ st =>
    if bool_decide (id ∈ absentIDs) then ReleaseClaim id st else st) order st) id =
  match Blocked st !! id with
  | Some _ => if bool_decide (id ∈ absentIDs) then released (holding st id) else holding st id
  | None => holding st id
  end.
Proof.
  intros Hcov id. refine (release_pass (λ s, s) Blocked _ (λ id _, bool_decide (id ∈ absentIDs))
    _ order st Hcov id).
  intros k b s Hk. split; [by apply visit_frame|]. case_bool_decide; [|rewrite Hk; naive_solver].
  split; intros; [|rewrite (proj2 (proj2 (released_lookups k s k))), decide_True in * by done; done].
  by rewrite (proj2 (proj2 (released_lookups k s id'))), decide_False by done.
Qed.

Definition continuation_queued (e : RetryEntry) : bool :=
  bool_decide (retry_Kind e = RetryKindContinuation).

Lemma absent_retry_pass order st :
  covers order (RetryAttempts st) → ∀ id,
  holding (range_map RetryAttempts (fun id retry st =>
    if bool_decide (id ∈ absentIDs) && bool_decide (retry_Kind retry = RetryKindContinuation)
    then ReleaseClaim id st else st) order st) id =
  match RetryAttempts st !! id with
  | Some e => if bool_decide (id ∈ absentIDs) && continuation_queued e
              then released (holding st id) else holding st id
  | None => holding st id
  end.
Proof.
  intros Hcov id. refine (release_pass (λ s, s) RetryAttempts _
    (λ id e, bool_decide (id ∈ absentIDs) && continuation_queued e) _ order st Hcov id).
  intros k e s Hk. split; [by apply visit_frame|]. unfold continuation_queued.
  destruct (_ && _); [|rewrite Hk; naive_solver].
  split; intros; [|rewrite (proj1 (proj2 (released_lookups k s k))), decide_True in * by done; done].
  by rewrite (proj1 (proj2 (released_lookups k s id'))), decide_False by done.
Qed.
End Absent.

(** The orders visit all three maps. *)
Definition orders_cover (ord : Orders) (st : OrchestratorState) : Prop :=
  covers (ord_running ord) (Running st) ∧ covers (ord_retries ord) (RetryAttempts st) ∧
  covers (ord_blocked ord) (Blocked st).

Lemma covers_shrunk {V} order (m m' : gmap IssueID V) :
  covers order m → (∀ id, m' !! id = m !! id ∨ m' !! id = None) → covers order m'.
Proof. intros Hc Hm id [v Hv]. apply Hc. destruct (Hm id); [exists v|]; congruence. Qed.

(** Confirmed absence, exactly.  When the tracker confirms that issues are gone, an
    absent issue that is running, blocked or waiting for a continuation loses its claim,
    its block and its queued retry (its run entry stays until the cancelled worker
    exits); an absent issue with a queued failure or quota retry keeps it, and every
    other issue is untouched. *)
Theorem absent_reconcile_exact absentIDs ord st :
  orders_cover ord st →
  let st' := (reconcileAbsentTrackerIssuesOp_apply absentIDs ord st).1 in
  ∀ id,
    let lost := bool_decide (id ∈ absentIDs) &&
      (is_present (Running st) id || is_present (Blocked st) id ||
       match RetryAttempts st !! id with Some e => continuation_queued e | None => false end) in
    holding st' id = if lost then released (holding st id) else holding st id.
Proof.
  intros (Hc1 & Hc2 & Hc3) st' id. unfold st', reconcileAbsentTrackerIssuesOp_apply.
  pose proof (absent_running_pass absentIDs (ord_running ord) st [] Hc1) as H1.
  destruct (range_map (fun s => Running s.1) _ _ (st, [])) as [st1 cs]. simpl in H1. simpl fst.
  assert (∀ k, (RetryAttempts st1 !! k = RetryAttempts st !! k ∨ RetryAttempts st1 !! k = None) ∧
    (Blocked st1 !! k = Blocked st !! k ∨ Blocked st1 !! k = None)) as S1.
  { intros k. pose proof (H1 k) as H. unfold holding, released in H.
    destruct (Running st !! k); [case_bool_decide|]; inversion H; by auto. }
  pose proof (absent_blocked_pass absentIDs (ord_blocked ord) st1
    (covers_shrunk _ _ _ Hc3 (λ k, proj2 (S1 k)))) as H2.
  set (st2 := range_map Blocked _ _ st1) in *.
  assert (∀ k, RetryAttempts st2 !! k = RetryAttempts st !! k ∨ RetryAttempts st2 !! k = None) as S2.
  { intros k. pose proof (H2 k) as H. unfold holding, released in H. destruct (S1 k) as [[<-|HN] _];
      destruct (Blocked st1 !! k); [case_bool_decide| |case_bool_decide|]; inversion H; auto;
      right; congruence. }
  rewrite (absent_retry_pass absentIDs (ord_retries ord) st2 (covers_shrunk _ _ _ Hc2 S2) id).
  specialize (H1 id). specialize (H2 id).
  change (RetryAttempts st2 !! id) with ((holding st2 id).1.2). rewrite H2.
  change (Blocked st1 !! id) with ((holding st1 id).2). rewrite H1. unfold is_present.
  destruct (bool_decide (id ∈ absentIDs)); simpl.
  - destruct (Running st !! id); simpl; [done|].
    destruct (Blocked st !! id); simpl; [done|]. by destruct (RetryAttempts st !! id).
  - by destruct (Running st !! id), (holding st id) as [[? [?|]] [?|]].
Qed.

Lemma absent_reconcile_exact_witness :
  let issue := zero_Issue <| iss_ID := "A" |> in
  let o := Build_Orchestrator RetryScheduler {| MaxBackoff := 0 |} true true false in
  let st := scheduleRetryOp_apply o 100 (scheduleFailureRetry issue "A-1" 2 "boom" zero_Workspace)
              (NewOrchestratorState 1000 1) in
  let ord := {| ord_running := []; ord_retries := ["A"]; ord_blocked := [] |} in
  holding (reconcileAbsentTrackerIssuesOp_apply {["A"]} ord st).1 "A" = holding st "A".
Proof.
  intros issue o st ord.
  assert (orders_cover ord st) as Hc.
  { split; [|split]; intros id [v Hv]; simpl in Hv.
    - by rewrite lookup_empty in Hv.
    - rewrite lookup_insert in Hv. case_decide; [subst; by left|by rewrite lookup_empty in Hv].
    - by rewrite lookup_empty in Hv. }
  exact (absent_reconcile_exact {["A"]} ord st Hc "A").
Defined.

(** ** Inactive issues *)

Lemma holding_stop_event now id issue st id' :
  holding (recordOperatorTerminalStop now id issue st) id' = holding st id'.
Proof.
  unfold holding. rewrite (slot_same_stop_event now id issue st id').
  unfold recordOperatorTerminalStop, RecordOperatorTerminalStop.
  destruct (OperatorTerminalStops st !! id); [done|].
  destruct (operatorTerminalStopOrder st ++ [id]); [done|]. by destruct ((0 <? _) && _).
Qed.

Lemma holding_stop_release now id issue st id' :
  holding (ReleaseClaim id (recordOperatorTerminalStop now id issue st)) id' =
  holding (ReleaseClaim id st) id'.
Proof. rewrite !holding_release, !holding_stop_event. done. Qed.

Section CollectRelease.
Context {V A : Type} (get : OrchestratorState → gmap IssueID V) (read : Slot * option RetryEntry *
  option BlockedEntry → option V) (get_read : ∀ st id, get st !! id = read (holding st id)).
Context (helper : IssueID → V → OrchestratorState → OrchestratorState * option A).
Context (hit : IssueID → bool) (Q : A → Prop).
Context (keep : ∀ h v, read (released h) = Some v → read h = Some v).
Context (helper_holding : ∀ id v st id', holding (helper id v st).1 id' =
  if hit id then holding (ReleaseClaim id st) id' else holding st id').
Context (helper_res : ∀ id v st a, (helper id v st).2 = Some a → Q a).

Lemma collect_release order st acc :
  covers order (get st) → Forall Q acc →
  let res := collect get helper order st acc in
  (∀ id, holding res.1 id =
     if bool_decide (is_Some (get st !! id)) && hit id then released (holding st id) else holding st id) ∧
  Forall Q res.2.
Proof.
  intros Hcov Ha res. split.
  - intros id. unfold res, collect.
    etransitivity; [refine (release_pass (T:=OrchestratorState * list A) fst get _ (λ id _, hit id) _
      order (st, acc) Hcov id)|].
    2:{ simpl. destruct (get st !! id); simpl; [|done]. by destruct (hit id). }
    + intros k v [s l] Hk. simpl in *. pose proof (helper_holding k v s) as HH.
      destruct (helper k v s) as [s' r]. simpl in *.
      assert (∀ id', holding s' id' = if decide (id' = k) then
        (if hit k then released (holding s k) else holding s k) else holding s id') as H1.
      { intros id'. rewrite HH. destruct (hit k); [apply holding_release|].
        by case_decide as H; [rewrite H|]. }
      split_and!; [done| |].
      * intros id' Hne. by rewrite !get_read, H1, decide_False.
      * intros v'. rewrite get_read, H1, decide_True by done. rewrite get_read in Hk.
        destruct (hit k); [|naive_solver]. intros Hv'. apply keep in Hv'. naive_solver.
  - unfold res, collect. apply (range_map_inv (λ s, get s.1) _ (λ s, Forall Q s.2)); [done|].
    intros k v [s l] HQ _. simpl in *. pose proof (helper_res k v s) as HR.
    destruct (helper k v s) as [s' [a|]]; simpl in *; [|done].
    apply Forall_app. split; [done|]. constructor; [by apply HR|done].
Qed.
End CollectRelease.

Section Inactive.
Context (now : Time) (issuesByID : gmap string Issue) (terminalStates : gset string).

(** The workspaces handed to cleanup belong to listed issues in a terminal state. *)
Definition terminal_cleanup (c : reconciledCleanup) : Prop :=
  ∃ issue, issuesByID !! rw_IssueID (rc_workspace c) = Some issue ∧
    norm (iss_State issue) ∈ terminalStates ∧ rw_State (rc_workspace c) = iss_State issue ∧
    blank (rw_Path (rc_workspace c)) = false.

Lemma terminal_cleanup_intro id identifier path root issue w k :
  issuesByID !! id = Some issue → isTerminalTrackerState (iss_State issue) terminalStates = true →
  terminalWorkspaceForCleanup id identifier path root (iss_State issue) = Some w →
  terminal_cleanup {| rc_workspace := w; rc_continuation := k |}.
Proof.
  intros Hi HT. unfold terminalWorkspaceForCleanup. cbv zeta.
  destruct (String.eqb_spec (TrimSpace path) ""); [done|]. intros [= <-].
  exists issue. simpl. split_and!; [done|by apply bool_decide_eq_true_1 in HT|done|].
  unfold blank. rewrite TrimSpace_idem. by destruct (String.eqb_spec (TrimSpace path) "").
Qed.

Lemma inactive_run_holding id r st id' :
  holding (reconcileInactiveRun now issuesByID terminalStates id r st).1 id' =
  if is_present issuesByID id then holding (ReleaseClaim id st) id' else holding st id'.
Proof.
  unfold reconcileInactiveRun, is_present. destruct (issuesByID !! id) as [i|]; [|done]. cbv zeta.
  set (st1 := upd_run r _ (ReleaseClaim id st)).
  change (holding (ReleaseClaim id st) id') with (holding st1 id'). clearbody st1. simpl fst.
  destruct (isTerminalTrackerState _ _); [|done].
  destruct (negb _); [|done]. exact (holding_stop_event now id i st1 id').
Qed.

Lemma inactive_retry_spec id e st :
  (∀ id', holding (reconcileInactiveRetry now issuesByID terminalStates id e st).1 id' =
     if is_present issuesByID id then holding (ReleaseClaim id st) id' else holding st id') ∧
  ∀ c, (reconcileInactiveRetry now issuesByID terminalStates id e st).2 = Some c → terminal_cleanup c.
Proof.
  unfold reconcileInactiveRetry, is_present. destruct (issuesByID !! id) as [i|] eqn:Ei; [|done].
  destruct (isTerminalTrackerState _ _) eqn:ET; [|done]. simpl. split.
  - intros id'. apply holding_stop_release.
  - intros c. destruct (terminalWorkspaceForCleanup _ _ _ _ _) eqn:EW; [|done]. intros [= <-].
    by eapply terminal_cleanup_intro.
Qed.

Lemma inactive_blocked_spec id b st :
  (∀ id', holding (reconcileInactiveBlocked now issuesByID terminalStates id b st).1 id' =
     if is_present issuesByID id then holding (ReleaseClaim id st) id' else holding st id') ∧
  ∀ c, (reconcileInactiveBlocked now issuesByID terminalStates id b st).2 = Some c → terminal_cleanup c.
Proof.
  unfold reconcileInactiveBlocked, is_present. destruct (issuesByID !! id) as [i|] eqn:Ei; [|done].
  destruct (isTerminalTrackerState _ _) eqn:ET; [|done]. simpl. split.
  - intros id'. apply holding_stop_release.
  - intros c. destruct (terminalWorkspaceForCleanup _ _ _ _ _) eqn:EW; [|done]. intros [= <-].
    by eapply terminal_cleanup_intro.
Qed.
End Inactive.

(** The run pass cancels exactly the running issues of the map. *)
Lemma inactive_cancel_list now issuesByID terminalStates order st :
  covers order (Running st) →
  ∀ r, r ∈ (collect Running (reconcileInactiveRun now issuesByID terminalStates) order st []).2 ↔
    ∃ id, Running st !! id = Some r ∧ is_Some (issuesByID !! id).
Proof.
  intros Hcov r. unfold collect, range_map.
  assert (∀ l, let s := fold_left (λ s k, match Running s.1 !! k with
      | Some v => (λ '(st, acc), let '(st, res) := reconcileInactiveRun now issuesByID terminalStates k v st in
          (st, match res with Some a => acc ++ [a] | None => acc end)) s
      | None => s end) l (st, []) in
    Running s.1 = Running st ∧
    (r ∈ s.2 ↔ ∃ id, id ∈ l ∧ Running st !! id = Some r ∧ is_Some (issuesByID !! id))) as H.
  { induction l as [|k l IH] using rev_ind; simpl.
    { split; [done|]. split; [by intros ?%not_elem_of_nil|]. by intros (? & ?%not_elem_of_nil & _). }
    rewrite fold_left_app. simpl in *. destruct (fold_left _ l (st, [])) as [s cs]. simpl in *.
    destruct IH as [HR Hc]. rewrite HR. setoid_rewrite elem_of_app. setoid_rewrite list_elem_of_singleton.
    destruct (Running st !! k) as [r'|] eqn:E; [|split; [done|]; rewrite Hc; naive_solver].
    pose proof (inactive_run_holding now issuesByID terminalStates k r' s) as HH.
    assert (Running (reconcileInactiveRun now issuesByID terminalStates k r' s).1 = Running s) as HR'.
    { apply map_eq. intros id. rewrite <- !holding_run, HH. unfold is_present.
      destruct (issuesByID !! k); [|done]. rewrite !holding_run. by rewrite ReleaseClaim_Running. }
    unfold reconcileInactiveRun in *. destruct (issuesByID !! k) as [i|] eqn:Ei; simpl in *.
    - split; [congruence|]. rewrite elem_of_app, list_elem_of_singleton, Hc. naive_solver.
    - split; [done|]. rewrite Hc. split; [naive_solver|]. intros (id & [Hi| ->] & HRi & Hs);
        [naive_solver|]. rewrite Ei in Hs. by destruct Hs. }
  destruct (H order) as [_ ->]. split; [naive_solver|]. intros (id & E & Hi). exists id.
  split_and!; [apply Hcov; eauto|done|done].
Qed.

(** Three conditional releases in a row release what any of them would. *)
Lemma three_passes (b : bool) h :
  let rel (p : bool) h := if p && b then released h else h in
  let h1 := rel (bool_decide (is_Some (s_run h.1.1))) h in
  let h2 := rel (bool_decide (is_Some h1.1.2)) h1 in
  let h3 := rel (bool_decide (is_Some h2.2)) h2 in
  h3 = if b && (bool_decide (is_Some (s_run h.1.1)) || bool_decide (is_Some h.1.2) ||
                bool_decide (is_Some h.2)) then released h else h.
Proof.
  destruct h as [[[[r|] c q k x] [e|]] [bl|]], b; done.
Qed.

Lemma slot_owned_holding st id :
  slot_owned (slot st id) = bool_decide (is_Some (s_run (holding st id).1.1)) ||
    bool_decide (is_Some (holding st id).1.2) || bool_decide (is_Some (holding st id).2).
Proof.
  unfold slot_owned, holding. simpl. unfold is_present.
  by destruct (RetryAttempts st !! id), (Blocked st !! id).
Qed.

(** Inactive issues, exactly.  Reconciling the issues that the tracker shows as no
    longer active releases the claim, block and queued retry of those among them that
    are running, waiting or blocked, and touches no other issue; it cancels exactly
    their runs; and it hands to cleanup only workspaces of listed issues whose state is
    a configured terminal one. *)
Theorem inactive_reconcile_exact now issuesByID terminalStates ord st :
  orders_cover ord st →
  let '(st', f) := reconcileInactiveTrackerIssuesOp_apply now issuesByID terminalStates ord st in
  (∀ id, holding st' id =
     if is_present issuesByID id && slot_owned (slot st id)
     then released (holding st id) else holding st id) ∧
  ∃ cancels cleanups, f = FCancel ErrReconcileCancel cancels cleanups ∧
    (∀ r, r ∈ cancels ↔ ∃ id, Running st !! id = Some r ∧ is_Some (issuesByID !! id)) ∧
    Forall (terminal_cleanup issuesByID terminalStates) cleanups.
Proof.
  intros (Hc1 & Hc2 & Hc3). unfold reconcileInactiveTrackerIssuesOp_apply.
  set (hit := is_present issuesByID).
  pose proof (collect_release Running (λ h, s_run h.1.1) (λ _ _, eq_refl)
    (reconcileInactiveRun now issuesByID terminalStates) hit (λ _, True) (λ _ _ H, H)
    (inactive_run_holding now issuesByID terminalStates) (λ _ _ _ _ _, I)
    (ord_running ord) st [] Hc1 (Forall_nil_2 _)) as [H1 _].
  pose proof (inactive_cancel_list now issuesByID terminalStates (ord_running ord) st Hc1) as HC.
  destruct (collect Running _ _ _ _) as [st1 cancels]. simpl in H1, HC.
  assert (∀ k, (RetryAttempts st1 !! k = RetryAttempts st !! k ∨ RetryAttempts st1 !! k = None) ∧
    (Blocked st1 !! k = Blocked st !! k ∨ Blocked st1 !! k = None)) as S1.
  { intros k. pose proof (H1 k) as H. unfold holding, released in H.
    destruct (_ && _); inversion H; by auto. }
  pose proof (collect_release RetryAttempts (λ h, h.1.2) (λ _ _, eq_refl)
    (reconcileInactiveRetry now issuesByID terminalStates) hit
    (terminal_cleanup issuesByID terminalStates) (λ h v (H : None = Some v), ltac:(discriminate H))
    (λ id e s, proj1 (inactive_retry_spec now issuesByID terminalStates id e s))
    (λ id e s, proj2 (inactive_retry_spec now issuesByID terminalStates id e s))
    (ord_retries ord) st1 [] (covers_shrunk _ _ _ Hc2 (λ k, proj1 (S1 k))) (Forall_nil_2 _)) as [H2 Q2].
  destruct (collect RetryAttempts _ _ _ _) as [st2 cl2]. simpl in H2, Q2.
  assert (∀ k, Blocked st2 !! k = Blocked st !! k ∨ Blocked st2 !! k = None) as S2.
  { intros k. pose proof (H2 k) as H. unfold holding, released in H. destruct (S1 k) as [_ [<-|HN]];
      destruct (_ && _); inversion H; auto; right; congruence. }
  pose proof (collect_release Blocked (λ h, h.2) (λ _ _, eq_refl)
    (reconcileInactiveBlocked now issuesByID terminalStates) hit
    (terminal_cleanup issuesByID terminalStates) (λ h v (H : None = Some v), ltac:(discriminate H))
    (λ id e s, proj1 (inactive_blocked_spec now issuesByID terminalStates id e s))
    (λ id e s, proj2 (inactive_blocked_spec now issuesByID terminalStates id e s))
    (ord_blocked ord) st2 cl2 (covers_shrunk _ _ _ Hc3 S2) Q2) as [H3 Q3].
  destruct (collect Blocked _ _ _ _) as [st3 cl3]. simpl in H3, Q3.
  split; [|by exists cancels, cl3]. intros id.
  pose proof (three_passes (hit id) (holding st id)) as H. cbv zeta in H.
  rewrite slot_owned_holding. fold (hit id). rewrite <- H. clear H.
  specialize (H1 id). specialize (H2 id).
  change (Running st !! id) with (s_run (holding st id).1.1) in H1.
  change (RetryAttempts st1 !! id) with (holding st1 id).1.2 in H2.
  rewrite <- H1, <- H2. exact (H3 id).
Qed.

Lemma inactive_reconcile_exact_witness :
  let issue := zero_Issue <| iss_ID := "A" |> in
  let closed := issue <| iss_State := "Done" |> in
  let o := Build_Orchestrator RetryScheduler {| MaxBackoff := 0 |} true true false in
  let st := scheduleRetryOp_apply o 100 (scheduleFailureRetry issue "A-1" 2 "boom" zero_Workspace)
              (NewOrchestratorState 1000 1) in
  let ord := {| ord_running := []; ord_retries := ["A"]; ord_blocked := [] |} in
  holding (reconcileInactiveTrackerIssuesOp_apply 200 {["A" := closed]} {["done"]} ord st).1 "A" =
    (free_slot, None, None).
Proof.
  intros issue closed o st ord.
  assert (orders_cover ord st) as Hc.
  { split; [|split]; intros id [v Hv]; simpl in Hv.
    - by rewrite lookup_empty in Hv.
    - rewrite lookup_insert in Hv. case_decide; [subst; by left|by rewrite lookup_empty in Hv].
    - by rewrite lookup_empty in Hv. }
  pose proof (inactive_reconcile_exact 200 {["A" := closed]} {["done"]} ord st Hc) as H.
  destruct (reconcileInactiveTrackerIssuesOp_apply 200 {["A" := closed]} {["done"]} ord st) as [st' f].
  destruct H as [H _]. etransitivity; [exact (H "A")|]. vm_compute. reflexivity.
Defined.

(** * Correctness of the state snapshot *)


(** ** Claimed references *)

Definition add_inv (done : list (IssueID * string)) (acc : gset string * list IssueRef) : Prop :=
  NoDup (map ref_ID acc.2) ∧
  (∀ k, k ∈ acc.1 ↔ k ∈ map ref_ID acc.2) ∧
  (∀ k, k ∈ map ref_ID acc.2 ↔ k ≠ "" ∧ k ∈ map (λ p, TrimSpace p.1) done).

Lemma add_ref_inv done acc row : add_inv done acc → add_inv (done ++ [row]) (add_ref acc row).
Proof.
  destruct acc as [seen refs]. intros (Hnd & Hs & Hk). unfold add_inv, add_ref in *. simpl in *.
  set (id := TrimSpace row.1).
  assert (∀ k, k ∈ map (λ p, TrimSpace p.1) (done ++ [row]) ↔
    k ∈ map (λ p, TrimSpace p.1) done ∨ k = id) as Hsnoc.
  { intros k. rewrite map_app, elem_of_app. simpl. by rewrite list_elem_of_singleton. }
  setoid_rewrite Hsnoc.
  destruct (String.eqb_spec id "") as [E|Hne]; [split_and!; [done|done|]; intros k; rewrite Hk; naive_solver|].
  case_bool_decide as Hin; simpl.
  { split_and!; [done|done|]. intros k. rewrite Hk. split; [naive_solver|].
    intros [? [?| ->]]; [done|]. by apply Hk, Hs. }
  rewrite map_app. simpl. split_and!.
  - apply NoDup_app. split_and!; [done| |apply NoDup_singleton]. intros k Hk' ->%list_elem_of_singleton.
    by apply Hin, Hs.
  - intros k. rewrite elem_of_union, elem_of_singleton, Hs, elem_of_app, list_elem_of_singleton. tauto.
  - intros k. rewrite elem_of_app, list_elem_of_singleton, Hk. naive_solver.
Qed.

Lemma add_refs_inv entries : add_inv entries (fold_left add_ref entries (∅, [])).
Proof.
  induction entries as [|row entries IH] using rev_ind; [|rewrite fold_left_app; by apply add_ref_inv].
  split_and!; simpl; [constructor|set_solver|]. intros k. split; [by intros ?%not_elem_of_nil|].
  by intros [_ ?%not_elem_of_nil].
Qed.

(** The rows of a covering order are the map's entries. *)
Lemma rows_ids {V W} order (m : gmap IssueID V) (row : IssueID → V → W) (key : W → IssueID) k :
  covers order m → (∀ id v, key (row id v) = id) →
  k ∈ map key (rows order m row) ↔ is_Some (m !! k).
Proof.
  intros Hcov Hkey. unfold rows. rewrite list_elem_of_fmap. setoid_rewrite list_elem_of_omap. split.
  - intros (w & -> & id & _ & Hw). destruct (m !! id) eqn:E; [|done]. injection Hw as <-.
    rewrite Hkey, E. eauto.
  - intros [v Hv]. exists (row k v). split; [by rewrite Hkey|]. exists k.
    split; [apply Hcov; eauto|by rewrite Hv].
Qed.

Lemma rows_trimmed {V W} order (m : gmap IssueID V) (row : IssueID → V → W) (key : W → IssueID)
    (name : W → string) k :
  covers order m → (∀ id v, key (row id v) = id) →
  k ∈ map (λ p, TrimSpace p.1) (map (λ w, (key w, name w)) (rows order m row)) ↔
  ∃ id, TrimSpace id = k ∧ is_Some (m !! id).
Proof.
  intros Hcov Hkey. rewrite map_map. simpl.
  setoid_rewrite <- (rows_ids order m row key _ Hcov Hkey). split.
  - intros (w & -> & Hw)%list_elem_of_fmap. exists (key w). split; [done|]. by apply list_elem_of_fmap_2.
  - intros (id & <- & (w & -> & Hw)%list_elem_of_fmap). apply list_elem_of_fmap. by exists w.
Qed.

(** The reconciler asks about every claimed issue once.  The references built from a
    snapshot are sorted by id and distinct, and name exactly the trimmed, non-empty ids
    of the issues that are running, waiting for a retry or blocked. *)
Theorem claimed_refs_complete now ord st :
  orders_cover ord st →
  let refs := RunningRetryingAndBlockedIssueRefs (Snapshot now ord st) in
  NoDup (map ref_ID refs) ∧
  ordered (fun x y => String.ltb (ref_ID x) (ref_ID y)) refs ∧
  ∀ k, k ∈ map ref_ID refs ↔ k ≠ "" ∧ ∃ id, TrimSpace id = k ∧
    (is_Some (Running st !! id) ∨ is_Some (RetryAttempts st !! id) ∨ is_Some (Blocked st !! id)).
Proof.
  intros (Hc1 & Hc2 & Hc3) refs. unfold refs, RunningRetryingAndBlockedIssueRefs. cbv zeta.
  set (entries := _ ++ _). destruct (add_refs_inv entries) as (Hnd & _ & Hk). unfold sort_refs.
  set (less := fun x y => String.ltb (ref_ID x) (ref_ID y)).
  set (l := (fold_left add_ref entries (∅, [])).2) in *.
  assert (Permutation (stable_sort less l) l) as HP by apply stable_sort_perm.
  split_and!.
  - by rewrite HP.
  - assert (StrictWeak less) as HW by exact (strict_weak_key ref_ID String.ltb str_ltb_weak).
    apply (stable_sort_ordered less).
  - intros k. rewrite HP, Hk. unfold entries. simpl. rewrite !map_app, !elem_of_app.
    unfold snapshotRunningViews, snapshotRetryViews, snapshotBlockedViews.
    rewrite !rows_trimmed by done. naive_solver.
Qed.

Lemma claimed_refs_complete_witness :
  let issue := zero_Issue <| iss_ID := "A" |> in
  let o := Build_Orchestrator RetryScheduler {| MaxBackoff := 0 |} true true false in
  let st := scheduleRetryOp_apply o 100 (scheduleFailureRetry issue "A-1" 2 "boom" zero_Workspace)
              (NewOrchestratorState 1000 1) in
  let ord := {| ord_running := []; ord_retries := ["A"]; ord_blocked := [] |} in
  "A" ∈ map ref_ID (RunningRetryingAndBlockedIssueRefs (Snapshot 200 ord st)).
Proof.
  intros issue o st ord.
  assert (orders_cover ord st) as Hc.
  { split; [|split]; intros id [v Hv]; simpl in Hv.
    - by rewrite lookup_empty in Hv.
    - rewrite lookup_insert in Hv. case_decide; [subst; by left|by rewrite lookup_empty in Hv].
    - by rewrite lookup_empty in Hv. }
  destruct (claimed_refs_complete 200 ord st Hc) as (_ & _ & H). apply H.
  split; [discriminate|]. exists "A". split; [reflexivity|]. right. left. by eexists.
Defined.

(** ** Live totals *)

(** The time a run has been going, as the snapshot counts it. *)
Definition live_time (now : Time) (run : RunningEntry) : Duration :=
  if IsZero (run_StartedAt run) then 0 else Z.max 0 (time_Sub now (run_StartedAt run)).

Definition sum_over {A} (f : A → Z) (l : list A) : Z := foldr (λ a z, f a + z) 0 l.

#[export] Instance sum_over_perm {A} (f : A → Z) : Proper (Permutation ==> eq) (sum_over f).
Proof. intros l l' H. induction H; simpl; lia. Qed.

Lemma live_totals_sum now order st :
  live_totals now order st =
  (Totals st) <| ct_SecondsRunning ::= λ s,
    s + sum_over (λ r, live_time now (deref st r)) (omap (λ id, Running st !! id) order) |>.
Proof.
  unfold live_totals. generalize (Totals st). induction order as [|id order IH]; intros t; simpl.
  { destruct t. unfold set, sum_over. simpl. by rewrite Z.add_0_r. }
  rewrite IH. destruct (Running st !! id) as [r|]; [|done].
  change (sum_over ?f (r :: ?l)) with (f r + sum_over f l).
  change (list_omap string Ref (λ id, Running st !! id) order)
    with (omap (λ id, Running st !! id) order).
  unfold live_time at 2. generalize (sum_over (λ r, live_time now (deref st r))
    (omap (λ id, Running st !! id) order)). intros z.
  destruct (IsZero (run_StartedAt (deref st r))); [|destruct (Z.ltb_spec 0
    (time_Sub now (run_StartedAt (deref st r))))]; destruct t; unfold set; simpl; f_equal; lia.
Qed.

(** Visiting every key once visits every entry once. *)
Lemma visits_perm {V} order (m : gmap IssueID V) :
  NoDup order → covers order m →
  Permutation (omap (λ id, m !! id) order) (map snd (map_to_list m)).
Proof.
  intros Hnd Hcov. set (visits := omap (λ id, (λ v, (id, v)) <$> m !! id) order).
  assert (∀ p, p ∈ visits ↔ p.1 ∈ order ∧ m !! p.1 = Some p.2) as Hv.
  { intros [id v]. unfold visits. rewrite list_elem_of_omap. simpl. split.
    - intros (k & Hk & E). destruct (m !! k) eqn:Em; [|done]. by injection E as <- <-.
    - intros [Hid E]. exists id. by rewrite E. }
  assert (omap (λ id, m !! id) order = map snd visits) as ->.
  { unfold visits. clear. induction order as [|id l IH]; [done|]. simpl.
    destruct (m !! id); simpl; [f_equal|]; exact IH. }
  apply Permutation_map, NoDup_Permutation;
    [apply NoDup_ListNoDup|apply NoDup_ListNoDup, NoDup_map_to_list|].
  - unfold visits. clear Hcov Hv visits. induction Hnd as [|id l Hid _ IH]; simpl in *; [constructor|].
    destruct (m !! id) as [v|]; simpl; [|done]. constructor; [|done].
    intros (k & Hk & E)%list_elem_of_omap. destruct (m !! k); [|done]. by injection E as -> _.
  - intros [id v]. rewrite <- !list_elem_of_In, Hv, elem_of_map_to_list. simpl. split; [by intros [_ ?]|].
    intros E. split; [apply Hcov; eauto|done].
Qed.

(** The snapshot's totals are exact and do not depend on the map's iteration order:
    token totals are the stored ones, and the running time is the ended sessions' time
    plus the elapsed time of each running entry, counted once. *)
Theorem snapshot_totals_exact now ord st :
  NoDup (ord_running ord) → covers (ord_running ord) (Running st) →
  let totals := view_CodexTotals (Snapshot now ord st) in
  ct_InputTokens totals = ct_InputTokens (Totals st) ∧
  ct_OutputTokens totals = ct_OutputTokens (Totals st) ∧
  ct_TotalTokens totals = ct_TotalTokens (Totals st) ∧
  ct_SecondsRunning totals = ct_SecondsRunning (Totals st) +
    sum_over (λ p, live_time now (deref st p.2)) (map_to_list (Running st)).
Proof.
  intros Hnd Hcov totals. unfold totals. simpl. rewrite live_totals_sum. simpl.
  split_and!; [done|done|done|]. f_equal. rewrite (visits_perm _ _ Hnd Hcov).
  induction (map_to_list (Running st)) as [|p l IH]; simpl; [done|]. by rewrite IH.
Qed.

Lemma snapshot_totals_exact_witness :
  let run := new_RunningEntry (zero_Issue <| iss_ID := "A" |>) 5 None 0 0 zero_Workspace in
  let st := (NewOrchestratorState 1000 1) <| Running := {["A" := 1%positive]} |>
              <| runs := {[1%positive := run]} |> in
  let ord := {| ord_running := ["A"]; ord_retries := []; ord_blocked := [] |} in
  ct_SecondsRunning (view_CodexTotals (Snapshot 25 ord st)) = 20.
Proof.
  intros run st ord.
  destruct (snapshot_totals_exact 25 ord st) as (_ & _ & _ & H).
  - apply NoDup_singleton.
  - intros id [r Hr]. simpl in Hr. apply lookup_singleton_Some in Hr as [<- _]. by left.
  - etransitivity; [exact H|]. vm_compute. reflexivity.
Defined.
