(* ===== verification/GraphQL.v ===== *)
(** * GraphQL operation scanner (internal/runner/linear_graphql_parse.go)

    The lexer and the two scanners behind the mutation gate of the linear_graphql
    tool: which operation a document holds, and how many.  A byte offset into the
    query is represented by the rest of the query from that offset.  One primitive can
    return an offset one past the end (a backslash as last byte of a string); its flag
    [past] says so, which matters to the callers that slice with it. *)

From S2P Require Import Prelude GoStd.

(** ** Bytes *)

Definition is_quote : Ascii.ascii → bool := byte_is 34.
Definition is_hash : Ascii.ascii → bool := byte_is 35.
Definition is_dollar : Ascii.ascii → bool := byte_is 36.
Definition is_lparen : Ascii.ascii → bool := byte_is 40.
Definition is_rparen : Ascii.ascii → bool := byte_is 41.
Definition is_backslash : Ascii.ascii → bool := byte_is 92.
Definition is_lbrace : Ascii.ascii → bool := byte_is 123.
Definition is_rbrace : Ascii.ascii → bool := byte_is 125.
Definition is_newline (c : Ascii.ascii) : bool := byte_is 10 c || byte_is 13 c.
(** The bytes both scanners skip: newline, return, space, tab, comma. *)
Definition is_blank (c : Ascii.ascii) : bool :=
  is_newline c || byte_is 32 c || byte_is 9 c || byte_is 44 c.

Definition isGraphQLNameStart (ch : Ascii.ascii) : bool :=
  byte_is 95 ch || in_range 65 90 ch || in_range 97 122 ch.
Definition isGraphQLNameContinue (ch : Ascii.ascii) : bool :=
  isGraphQLNameStart ch || in_range 48 57 ch.

(** ** Scanner primitives *)

Fixpoint skipGraphQLLineComment (query : string) : string :=
  match query with
  | EmptyString => EmptyString
  | String c t => if is_newline c then query else skipGraphQLLineComment t
  end.

(** [strings.HasPrefix(query, three quotes)], with the rest after them. *)
Definition after_triple (query : string) : option string :=
  match query with
  | String a (String b (String c t)) =>
      if is_quote a && is_quote b && is_quote c then Some t else None
  | _ => None
  end.

(** The body of a block string, up to and past its closing quotes. *)
Fixpoint skip_block (query : string) : string :=
  match query with
  | EmptyString => EmptyString
  | String _ t => match after_triple query with Some rest => rest | None => skip_block t end
  end.

(** The body of an ordinary string; [past] when the skipped escape is beyond the end. *)
Fixpoint skip_quoted (query : string) : string * bool :=
  match query with
  | EmptyString => (EmptyString, false)
  | String c t =>
      if is_backslash c
      then match t with EmptyString => (EmptyString, true) | String _ t => skip_quoted t end
      else if is_quote c then (t, false) else skip_quoted t
  end.

Definition skipGraphQLString (query : string) : string * bool :=
  match after_triple query with
  | Some rest => (skip_block rest, false)
  | None => match query with
            | EmptyString => (EmptyString, false)
            | String _ t => skip_quoted t
            end
  end.

(** The name bytes at the front, and the rest. *)
Fixpoint name_bytes (query : string) : string * string :=
  match query with
  | EmptyString => (EmptyString, EmptyString)
  | String c t =>
      if isGraphQLNameContinue c then let '(n, rest) := name_bytes t in (String c n, rest)
      else (EmptyString, query)
  end.

Definition skipGraphQLVariable (query : string) : string :=
  match query with EmptyString => EmptyString | String _ t => (name_bytes t).2 end.

Definition scanGraphQLName (query : string) : string * string :=
  match query with
  | EmptyString => (EmptyString, EmptyString)
  | String c t => let '(n, rest) := name_bytes t in (String c n, rest)
  end.

(** ** The operation parser *)

Inductive linearGraphQLOperationKind :=
| linearGraphQLOperationQuery
| linearGraphQLOperationMutation
| linearGraphQLOperationSubscription.
#[export] Instance kind_eq_dec : EqDecision linearGraphQLOperationKind.
Proof. solve_decision. Defined.

Record linearGraphQLOperation := {
  op_Kind : linearGraphQLOperationKind;
  op_FieldName : string
}.
#[export] Instance eta_linearGraphQLOperation : Eta linearGraphQLOperation := fun r =>
  Build_linearGraphQLOperation (op_Kind r) (op_FieldName r).

Record linearGraphQLParser := {
  p_op : linearGraphQLOperation;
  p_depth : Z;
  p_parenDepth : Z;
  p_expecting : string;
  p_headerSelectionRoot : bool
}.
#[export] Instance eta_linearGraphQLParser : Eta linearGraphQLParser := fun r =>
  Build_linearGraphQLParser (p_op r) (p_depth r) (p_parenDepth r) (p_expecting r)
    (p_headerSelectionRoot r).

Definition at_root (p : linearGraphQLParser) : bool := (p_depth p =? 0) && (p_parenDepth p =? 0).

Definition openBrace (p : linearGraphQLParser) : linearGraphQLParser :=
  let p :=
    if at_root p then
      let p :=
        if String.eqb (p_expecting p) "operation" then p <| p_headerSelectionRoot := true |>
        else if String.eqb (p_expecting p) "fragment" then p <| p_headerSelectionRoot := false |>
        else if String.eqb (op_FieldName (p_op p)) "" then p <| p_headerSelectionRoot := true |>
        else p in
      p <| p_expecting := "" |>
    else p in
  p <| p_depth ::= Z.succ |>.

Definition closeBrace (p : linearGraphQLParser) : linearGraphQLParser :=
  let p := if 0 <? p_depth p then p <| p_depth ::= Z.pred |> else p in
  if p_depth p =? 0 then p <| p_headerSelectionRoot := false |> else p.

(** The header of an operation: the kind is set while no field is captured. *)
Definition operation_header (kind : linearGraphQLOperationKind) (p : linearGraphQLParser)
    : linearGraphQLParser :=
  let p := if String.eqb (op_FieldName (p_op p)) ""
           then p <| p_op ::= fun op => op <| op_Kind := kind |> |> else p in
  p <| p_expecting := "operation" |>.

Definition consumeName (name : string) (p : linearGraphQLParser) : linearGraphQLParser :=
  if at_root p && String.eqb (p_expecting p) "" then
    if String.eqb name "query" then operation_header linearGraphQLOperationQuery p
    else if String.eqb name "mutation" then operation_header linearGraphQLOperationMutation p
    else if String.eqb name "subscription" then operation_header linearGraphQLOperationSubscription p
    else if String.eqb name "fragment" then p <| p_expecting := "fragment" |>
    else p
  else if p_headerSelectionRoot p && (p_depth p =? 1) && (p_parenDepth p =? 0) then
    if String.eqb (op_FieldName (p_op p)) ""
    then p <| p_op ::= fun op => op <| op_FieldName := name |> |> else p
  else p.

Definition openParen (p : linearGraphQLParser) : linearGraphQLParser := p <| p_parenDepth ::= Z.succ |>.
Definition closeParen (p : linearGraphQLParser) : linearGraphQLParser :=
  if 0 <? p_parenDepth p then p <| p_parenDepth ::= Z.pred |> else p.

(** The driver loop; [fuel] bounds the iterations, each of which consumes a byte. *)
Fixpoint parse_loop (fuel : nat) (query : string) (p : linearGraphQLParser) : linearGraphQLParser :=
  match fuel, query with
  | S fuel, String ch rest =>
      if is_hash ch then parse_loop fuel (skipGraphQLLineComment query) p
      else if is_quote ch then parse_loop fuel (skipGraphQLString query).1 p
      else if is_lbrace ch then parse_loop fuel rest (openBrace p)
      else if is_rbrace ch then parse_loop fuel rest (closeBrace p)
      else if is_lparen ch then parse_loop fuel rest (openParen p)
      else if is_rparen ch then parse_loop fuel rest (closeParen p)
      else if is_blank ch then parse_loop fuel rest p
      else if is_dollar ch then parse_loop fuel (skipGraphQLVariable query) p
      else if isGraphQLNameStart ch then
        let '(name, rest) := scanGraphQLName query in parse_loop fuel rest (consumeName name p)
      else parse_loop fuel rest p
  | _, _ => p
  end.

Definition initial_parser : linearGraphQLParser :=
  {| p_op := {| op_Kind := linearGraphQLOperationQuery; op_FieldName := "" |};
     p_depth := 0; p_parenDepth := 0; p_expecting := ""; p_headerSelectionRoot := false |}.

Definition parseLinearGraphQLOperation (query : string) : linearGraphQLOperation :=
  p_op (parse_loop (String.length query) query initial_parser).

(** ** The operation count *)

Record counter := { c_count : Z; c_depth : Z; c_parenDepth : Z; c_operationHeader : bool }.
#[export] Instance eta_counter : Eta counter := fun r =>
  Build_counter (c_count r) (c_depth r) (c_parenDepth r) (c_operationHeader r).

Definition counter_root (c : counter) : bool := (c_depth c =? 0) && (c_parenDepth c =? 0).

Definition count_open (c : counter) : counter :=
  let c :=
    if counter_root c then
      let c := if c_operationHeader c then c else c <| c_count ::= Z.succ |> in
      c <| c_operationHeader := false |>
    else c in
  c <| c_depth ::= Z.succ |>.
Definition count_close (c : counter) : counter :=
  if 0 <? c_depth c then c <| c_depth ::= Z.pred |> else c.
Definition count_lparen (c : counter) : counter := c <| c_parenDepth ::= Z.succ |>.
Definition count_rparen (c : counter) : counter :=
  if 0 <? c_parenDepth c then c <| c_parenDepth ::= Z.pred |> else c.
Definition count_name (name : string) (c : counter) : counter :=
  if c_operationHeader c then c
  else if String.eqb name "query" || String.eqb name "mutation" || String.eqb name "subscription"
  then c <| c_count ::= Z.succ |> <| c_operationHeader := true |>
  else if String.eqb name "fragment" then c <| c_operationHeader := true |> else c.

Fixpoint count_loop (fuel : nat) (query : string) (c : counter) : counter :=
  match fuel, query with
  | S fuel, String ch rest =>
      if is_hash ch then count_loop fuel (skipGraphQLLineComment query) c
      else if is_quote ch then count_loop fuel (skipGraphQLString query).1 c
      else if is_lbrace ch then count_loop fuel rest (count_open c)
      else if is_rbrace ch then count_loop fuel rest (count_close c)
      else if is_lparen ch then count_loop fuel rest (count_lparen c)
      else if is_rparen ch then count_loop fuel rest (count_rparen c)
      else if is_blank ch then count_loop fuel rest c
      else if is_dollar ch then count_loop fuel (skipGraphQLVariable query) c
      else if counter_root c && isGraphQLNameStart ch then
        let '(name, rest) := scanGraphQLName query in count_loop fuel rest (count_name name c)
      else count_loop fuel rest c
  | _, _ => c
  end.

Definition countGraphQLOperations (query : string) : Z :=
  c_count (count_loop (String.length query) query
             {| c_count := 0; c_depth := 0; c_parenDepth := 0; c_operationHeader := false |}).

Example parse_mutation :
  parseLinearGraphQLOperation "query Q($a: T = {b: 1}) { viewer { id } }" =
    {| op_Kind := linearGraphQLOperationQuery; op_FieldName := "viewer" |} ∧
  parseLinearGraphQLOperation "fragment F on T { id } mutation M { issueDelete(id: 1) { ...F } }" =
    {| op_Kind := linearGraphQLOperationMutation; op_FieldName := "issueDelete" |} ∧
  countGraphQLOperations "fragment F on T { id } mutation M { issueDelete(id: 1) { ...F } }" = 1.
Proof. vm_compute. done. Qed.
