(* ===== verification/GraphQLUpdate.v ===== *)
(** * Finding issueUpdate in a mutation (internal/runner/linear_graphql_issue_update.go)

    The guard of the linear_graphql tool looks for every issueUpdate a document can
    execute: in the selection sets of its mutations, through inline and named
    fragments.  It then reads the issue id and the target state from the arguments.
    Offsets are rests of the text, as in GraphQL.v.  Loops are written with fuel; the
    error [OutOfFuel] is the model's only addition. *)

From S2P Require Import Prelude GoStd GraphQL Payload.

(** One constructor per error the functions build; [errIssueUpdateNotFound] is the one
    the callers tell apart. *)
Inductive UpdateError :=
| errIssueUpdateNotFound
| UnterminatedValue
| ArgumentsRequired
| ArgumentNameExpected
| ColonExpected (name : string)
| MissingValue
| FieldRequired (field : string)
| UnsupportedValue (field : string)
| BlockStringUnsupported
| LiteralUndecodable
| OutOfFuel.

Notation Result A := (Outcome UpdateError A).

(** ** Scanner primitives *)

Definition is_colon : Ascii.ascii → bool := byte_is 58.
Definition is_comma : Ascii.ascii → bool := byte_is 44.
Definition is_lbracket : Ascii.ascii → bool := byte_is 91.
Definition is_rbracket : Ascii.ascii → bool := byte_is 93.

Fixpoint skipGraphQLWhitespace (input : string) : string :=
  match input with
  | EmptyString => EmptyString
  | String c t => if is_blank c then skipGraphQLWhitespace t else input
  end.

(** [skipIssueUpdateScanToken]: the rest after a comment or a string. *)
Definition skipIssueUpdateScanToken (query : string) : option string :=
  match query with
  | EmptyString => None
  | String c _ =>
      if is_hash c then Some (skipGraphQLLineComment query)
      else if is_quote c then Some (skipGraphQLString query).1 else None
  end.

(** [scanGraphQLEnclosedValue]: the rest just past the matching close byte.  A comment
    or a string is skipped whole. *)
Fixpoint enclosed_loop (open close : Ascii.ascii → bool) (fuel : nat) (input : string) (depth : Z)
    : Result string :=
  match fuel, input with
  | _, EmptyString => Failed UnterminatedValue
  | O, _ => Failed OutOfFuel
  | S fuel, String c t =>
      match skipIssueUpdateScanToken input with
      | Some rest => enclosed_loop open close fuel rest depth
      | None =>
          if open c then enclosed_loop open close fuel t (depth + 1)
          else if close c then
            if depth - 1 =? 0 then Returned t else enclosed_loop open close fuel t (depth - 1)
          else enclosed_loop open close fuel t depth
      end
  end.
Definition scanGraphQLEnclosedValue (open close : Ascii.ascii → bool) (input : string) : Result string :=
  enclosed_loop open close (String.length input) input 0.

(** The text between the brackets: [input[i+1 : end-1]]. *)
Definition inner_text (input rest : string) : string :=
  match input with
  | EmptyString => EmptyString
  | String _ t => str_take (String.length t - String.length rest - 1) t
  end.

(** ** The document: mutation bodies and fragments *)

(** [findNextGraphQLSelectionOpen]: the rest from the next open brace. *)
Fixpoint selection_open_loop (fuel : nat) (query : string) : Result (option string) :=
  match fuel, query with
  | _, EmptyString => Returned None
  | O, _ => Failed OutOfFuel
  | S fuel, String c t =>
      match skipIssueUpdateScanToken query with
      | Some rest => selection_open_loop fuel rest
      | None =>
          if is_lparen c then
            let? next := scanGraphQLEnclosedValue is_lparen is_rparen query in
            selection_open_loop fuel next
          else if is_lbrace c then Returned (Some query)
          else selection_open_loop fuel t
      end
  end.
Definition findNextGraphQLSelectionOpen (query : string) : Result (option string) :=
  selection_open_loop (String.length query) query.

(** The body of the selection set and the rest after it. *)
Definition scanIssueUpdateBodyAfterHeader (query : string) : Result (option (string * string)) :=
  let? found := findNextGraphQLSelectionOpen query in
  match found with
  | None => Returned None
  | Some open =>
      let? rest := scanGraphQLEnclosedValue is_lbrace is_rbrace open in
      Returned (Some (inner_text open rest, rest))
  end.

Record issueUpdateFragmentDefinition := { fd_name : string; fd_body : string; fd_next : string }.

Definition starts_name (s : string) : bool :=
  match s with EmptyString => false | String c _ => isGraphQLNameStart c end.

Definition scanIssueUpdateFragmentDefinition (query : string)
    : Result (option issueUpdateFragmentDefinition) :=
  let query := skipGraphQLWhitespace query in
  if negb (starts_name query) then Returned None
  else
    let '(name, next) := scanGraphQLName query in
    let? found := scanIssueUpdateBodyAfterHeader next in
    Returned ((λ '(body, rest), {| fd_name := name; fd_body := body; fd_next := rest |}) <$> found).

Record issueUpdateDocument := {
  mutationBodies : list string;
  fragments : gmap string string
}.
#[export] Instance eta_issueUpdateDocument : Eta issueUpdateDocument := fun r =>
  Build_issueUpdateDocument (mutationBodies r) (fragments r).

Definition scanMutationHeader (next : string) (doc : issueUpdateDocument)
    : Result (string * issueUpdateDocument) :=
  let? found := scanIssueUpdateBodyAfterHeader next in
  Returned match found with
           | Some (body, rest) => (rest, doc <| mutationBodies ::= fun l => l ++ [body] |>)
           | None => (next, doc)
           end.

Definition scanFragmentHeader (next : string) (doc : issueUpdateDocument)
    : Result (string * issueUpdateDocument) :=
  let? found := scanIssueUpdateFragmentDefinition next in
  Returned match found with
           | Some f => (fd_next f, doc <| fragments ::= insert (fd_name f) (fd_body f) |>)
           | None => (next, doc)
           end.

(** [step] of the document scanner, on a non-empty rest. *)
Definition document_step (query : string) (doc : issueUpdateDocument)
    : Result (string * issueUpdateDocument) :=
  match query with
  | EmptyString => Returned (query, doc)
  | String c t =>
      match skipIssueUpdateScanToken query with
      | Some rest => Returned (rest, doc)
      | None =>
          if is_lbrace c then
            let? next := scanGraphQLEnclosedValue is_lbrace is_rbrace query in Returned (next, doc)
          else if negb (isGraphQLNameStart c) then Returned (t, doc)
          else
            let '(name, next) := scanGraphQLName query in
            if String.eqb name "mutation" then scanMutationHeader next doc
            else if String.eqb name "fragment" then scanFragmentHeader next doc
            else Returned (next, doc)
      end
  end.

Fixpoint document_loop (fuel : nat) (query : string) (doc : issueUpdateDocument)
    : Result issueUpdateDocument :=
  match fuel, query with
  | _, EmptyString => Returned doc
  | O, _ => Failed OutOfFuel
  | S fuel, _ =>
      let? next := document_step query doc in document_loop fuel next.1 next.2
  end.

Definition parseIssueUpdateDocument (query : string) : Result issueUpdateDocument :=
  document_loop (String.length query) query (Build_issueUpdateDocument [] ∅).

(** ** The arguments of every issueUpdate in a selection set *)

Definition argumentTextAfterName (query : string) : Result string :=
  let query := skipGraphQLWhitespace query in
  match query with
  | String c _ =>
      if is_lparen c then
        let? rest := scanGraphQLEnclosedValue is_lparen is_rparen query in
        Returned (inner_text query rest)
      else Failed ArgumentsRequired
  | EmptyString => Failed ArgumentsRequired
  end.

(** [updateIssueUpdateSelectionDepth]: the depths after a bracket byte. *)
Definition updateIssueUpdateSelectionDepth (ch : Ascii.ascii) (depth parenDepth : Z) : option (Z * Z) :=
  if is_lbrace ch then Some (depth + 1, parenDepth)
  else if is_rbrace ch then Some (if 0 <? depth then depth - 1 else depth, parenDepth)
  else if is_lparen ch then Some (depth, parenDepth + 1)
  else if is_rparen ch then Some (depth, if 0 <? parenDepth then parenDepth - 1 else parenDepth)
  else None.

(** [issueUpdateSelectionSetScanner.run] on the rest [body]; the [visited] map is
    shared along the recursion and restored on the way back, so it is passed down. *)
Fixpoint selection_loop (frags : gmap string string) (fuel : nat) (visited : gset string)
    (body : string) (depth parenDepth : Z) (args : list string) : Result (list string) :=
  match fuel, body with
  | _, EmptyString => Returned args
  | O, _ => Failed OutOfFuel
  | S fuel, String c t =>
      match skipIssueUpdateScanToken body with
      | Some rest => selection_loop frags fuel visited rest depth parenDepth args
      | None =>
          let at_root := (depth =? 0) && (parenDepth =? 0) in
          match (if at_root then CutPrefix body "..." else None) with
          | Some after =>
              (* scanSpread *)
              let next := skipGraphQLWhitespace after in
              if negb (starts_name next) then selection_loop frags fuel visited after depth parenDepth args
              else
                let '(name, afterName) := scanGraphQLName next in
                if String.eqb name "on" then
                  (* scanInlineFragment *)
                  let? found := scanIssueUpdateBodyAfterHeader afterName in
                  match found with
                  | None => selection_loop frags fuel visited afterName depth parenDepth args
                  | Some (inner, rest) =>
                      let? more := selection_loop frags fuel visited inner 0 0 [] in
                      selection_loop frags fuel visited rest depth parenDepth (args ++ more)
                  end
                else
                  (* scanNamedFragment *)
                  let? more :=
                    match frags !! name with
                    | Some inner =>
                        if bool_decide (name ∈ visited) then Returned []
                        else selection_loop frags fuel ({[name]} ∪ visited) inner 0 0 []
                    | None => Returned []
                    end in
                  selection_loop frags fuel visited afterName depth parenDepth (args ++ more)
          | None =>
              match updateIssueUpdateSelectionDepth c depth parenDepth with
              | Some (depth, parenDepth) => selection_loop frags fuel visited t depth parenDepth args
              | None =>
                  if at_root && isGraphQLNameStart c then
                    (* scanRootName *)
                    let '(name, next) := scanGraphQLName body in
                    let? more := (if String.eqb name "issueUpdate"
                                  then let? a := argumentTextAfterName next in Returned [a]
                                  else Returned []) in
                    selection_loop frags fuel visited next depth parenDepth (args ++ more)
                  else selection_loop frags fuel visited t depth parenDepth args
              end
          end
      end
  end.

(** A chain of expansions enters each fragment at most once, and every body is a part
    of the query. *)
Definition selection_fuel (doc : issueUpdateDocument) (query : string) : nat :=
  (S (size (fragments doc)) * (String.length query + 2))%nat.

Definition scanIssueUpdateSelectionSet (doc : issueUpdateDocument) (query body : string)
    : Result (list string) :=
  selection_loop (fragments doc) (selection_fuel doc query) ∅ body 0 0 [].

Fixpoint scan_bodies (doc : issueUpdateDocument) (query : string) (bodies : list string)
    : Result (list string) :=
  match bodies with
  | [] => Returned []
  | body :: rest =>
      let? args := scanIssueUpdateSelectionSet doc query body in
      let? more := scan_bodies doc query rest in
      Returned (args ++ more)
  end.

Definition issueUpdateArgumentTexts (query : string) : Result (list string) :=
  let? doc := parseIssueUpdateDocument query in
  let? found := scan_bodies doc query (mutationBodies doc) in
  match found with [] => Failed errIssueUpdateNotFound | _ => Returned found end.

(** ** Argument values *)

(** [scanGraphQLBareValueEnd]. *)
Fixpoint scanGraphQLBareValueEnd (input : string) : string :=
  match input with
  | EmptyString => EmptyString
  | String c t =>
      if is_blank c || is_rbrace c || is_rbracket c || is_rparen c then input
      else scanGraphQLBareValueEnd t
  end.

(** [scanGraphQLInputValueEnd]: the rest after the value; [true] when the offset is one
    past the end. *)
Definition scanGraphQLInputValueEnd (input : string) : Result (string * bool) :=
  let input := skipGraphQLWhitespace input in
  match input with
  | EmptyString => Failed MissingValue
  | String c _ =>
      if is_quote c then Returned (skipGraphQLString input)
      else if is_dollar c then Returned (skipGraphQLVariable input, false)
      else if is_lbrace c then
        let? rest := scanGraphQLEnclosedValue is_lbrace is_rbrace input in Returned (rest, false)
      else if is_lbracket c then
        let? rest := scanGraphQLEnclosedValue is_lbracket is_rbracket input in Returned (rest, false)
      else Returned (scanGraphQLBareValueEnd input, false)
  end.

Definition nextGraphQLObjectLikeField (input : string) : string :=
  let input := skipGraphQLWhitespace input in
  match input with
  | String c t => if is_comma c then t else input
  | EmptyString => input
  end.

Record graphQLObjectLikeField := { f_name : string; f_rawValue : string; f_next : string }.

(** Slicing the value out of the text panics when its end is past the text. *)
Definition scanGraphQLObjectLikeField (input : string) : Result (option graphQLObjectLikeField) :=
  let input := skipGraphQLWhitespace input in
  match input with
  | EmptyString => Returned None
  | String c _ =>
      if negb (isGraphQLNameStart c) then Failed ArgumentNameExpected
      else
        let '(name, next) := scanGraphQLName input in
        match skipGraphQLWhitespace next with
        | String c t =>
            if is_colon c then
              let value := skipGraphQLWhitespace t in
              let? end_ := scanGraphQLInputValueEnd value in
              let '(rest, past) := end_ in
              if past then Panicked
              else Returned (Some {| f_name := name; f_rawValue := between value rest;
                                     f_next := nextGraphQLObjectLikeField rest |})
            else Failed (ColonExpected name)
        | EmptyString => Failed (ColonExpected name)
        end
  end.

Fixpoint field_loop (target : string) (fuel : nat) (input : string) : Result (option string) :=
  match fuel, input with
  | _, EmptyString => Returned None
  | O, _ => Failed OutOfFuel
  | S fuel, _ =>
      let? field := scanGraphQLObjectLikeField input in
      match field with
      | None => Returned None
      | Some f => if String.eqb (f_name f) target then Returned (Some (f_rawValue f))
                  else field_loop target fuel (f_next f)
      end
  end.
Definition graphQLObjectLikeFieldValueText (input target : string) : Result (option string) :=
  field_loop target (String.length input) input.

(** [scanGraphQLVariableName] of a text starting with a dollar sign. *)
Definition scanGraphQLVariableName (input : string) : string * string :=
  match input with EmptyString => (EmptyString, EmptyString) | String _ t => name_bytes t end.

Definition requiredGraphQLString (value : any) (field : string) : Result string :=
  let text := match value with AString s => s | _ => "" end in
  if blank text then Failed (FieldRequired field) else Returned (TrimSpace text).

Definition parseGraphQLStringLiteral (raw field : string) : Result string :=
  let '(rest, past) := skipGraphQLString raw in
  if negb (String.eqb rest "") || past then Failed (UnsupportedValue field)
  else match Unquote raw with
       | Some value => requiredGraphQLString (AString value) field
       | None => Failed LiteralUndecodable
       end.

Definition parseGraphQLStringVariable (raw : string) (variables : any_map) (field : string)
    : Result string :=
  let '(name, rest) := scanGraphQLVariableName raw in
  if negb (String.eqb rest "") then Failed (UnsupportedValue field)
  else requiredGraphQLString (map_get variables name) field.

Definition parseGraphQLStringLikeValue (raw : string) (variables : any_map) (field : string)
    : Result string :=
  let raw := TrimSpace raw in
  match after_triple raw, raw with
  | Some _, _ => Failed BlockStringUnsupported
  | None, String c _ =>
      if is_quote c then parseGraphQLStringLiteral raw field
      else if is_dollar c then parseGraphQLStringVariable raw variables field
      else Failed (UnsupportedValue field)
  | None, EmptyString => Failed (UnsupportedValue field)
  end.

Definition parseIssueUpdateIssueID (args : string) (variables : any_map) : Result string :=
  let? raw := graphQLObjectLikeFieldValueText args "id" in
  match raw with
  | None => Failed (FieldRequired "issueUpdate id")
  | Some raw => parseGraphQLStringLikeValue raw variables "issueUpdate id"
  end.

Definition parseIssueUpdateVariableStateID (raw : string) (variables : any_map) : Result string :=
  let '(name, rest) := scanGraphQLVariableName raw in
  if negb (String.eqb rest "") then Failed (UnsupportedValue "issueUpdate input")
  else match map_get variables name with
       | AMap input => requiredGraphQLString (map_get input "stateId") "issueUpdate input.stateId"
       | _ => Failed (FieldRequired "issueUpdate input.stateId")
       end.

(** [raw[1:len(raw)-1]]: slicing a text of one byte panics. *)
Definition parseIssueUpdateLiteralStateID (raw : string) (variables : any_map) : Result string :=
  match raw with
  | String c t =>
      if is_lbrace c then
        if String.eqb t "" then Panicked
        else
          let inner := TrimSpace (str_take (String.length t - 1) t) in
          let? state := graphQLObjectLikeFieldValueText inner "stateId" in
          match state with
          | None => Failed (FieldRequired "issueUpdate input.stateId")
          | Some state => parseGraphQLStringLikeValue state variables "issueUpdate input.stateId"
          end
      else Failed (FieldRequired "issueUpdate input.stateId")
  | EmptyString => Failed (FieldRequired "issueUpdate input.stateId")
  end.

Definition parseIssueUpdateStateID (args : string) (variables : any_map) : Result string :=
  let? raw := graphQLObjectLikeFieldValueText args "input" in
  match raw with
  | None => Failed (FieldRequired "issueUpdate input.stateId")
  | Some raw =>
      let raw := TrimSpace raw in
      match raw with
      | String c _ => if is_dollar c then parseIssueUpdateVariableStateID raw variables
                      else parseIssueUpdateLiteralStateID raw variables
      | EmptyString => parseIssueUpdateLiteralStateID raw variables
      end
  end.

Record issueUpdateStateChange := { ch_IssueID : string; ch_StateID : string }.

Definition parseIssueUpdateArguments (args : string) (variables : any_map)
    : Result issueUpdateStateChange :=
  let? issueID := parseIssueUpdateIssueID args variables in
  let? stateID := parseIssueUpdateStateID args variables in
  Returned {| ch_IssueID := issueID; ch_StateID := stateID |}.

Definition with_quotes (s : string) : string :=
  str_map (fun c => if byte_is 39 c then Ascii.ascii_of_nat 34 else c) s.

Example update_texts :
  issueUpdateArgumentTexts
    "mutation M { ...F x: issueUpdate(id: $id) { ok } } fragment F on M { ... on M { issueUpdate(a: 1) } ...F }" =
    Returned ["a: 1"; "id: $id"] ∧
  issueUpdateArgumentTexts "query { issueUpdate(id: 1) }" = Failed errIssueUpdateNotFound ∧
  parseIssueUpdateArguments (with_quotes "id: 'A', input: {title: 'x', stateId: 's'}") None =
    Returned {| ch_IssueID := "A"; ch_StateID := "s" |}.
Proof. vm_compute. done. Qed.
