(* ===== verification/GraphQLProps.v ===== *)
(** * Correctness of the GraphQL operation scanner

    Both scanners are folds over one token stream ([lex]); on the tokens of a
    well-bracketed document they compute the number of operations and the kind and
    first field of the operation.  The scan for issueUpdate ends, and on the documents of
    a grammar it finds the updates that a server executes. *)

From S2P Require Import Prelude Payload GoStd GraphQL GraphQLUpdate.

(** ** Tokens *)

Inductive Tok := TOpen | TClose | TLParen | TRParen | TName (name : string).

Fixpoint lex_fuel (fuel : nat) (query : string) : list Tok :=
  match fuel, query with
  | S fuel, String ch rest =>
      if is_hash ch then lex_fuel fuel (skipGraphQLLineComment query)
      else if is_quote ch then lex_fuel fuel (skipGraphQLString query).1
      else if is_lbrace ch then TOpen :: lex_fuel fuel rest
      else if is_rbrace ch then TClose :: lex_fuel fuel rest
      else if is_lparen ch then TLParen :: lex_fuel fuel rest
      else if is_rparen ch then TRParen :: lex_fuel fuel rest
      else if is_blank ch then lex_fuel fuel rest
      else if is_dollar ch then lex_fuel fuel (skipGraphQLVariable query)
      else if isGraphQLNameStart ch then
        let '(name, rest) := scanGraphQLName query in TName name :: lex_fuel fuel rest
      else lex_fuel fuel rest
  | _, _ => []
  end.
Definition lex (query : string) : list Tok := lex_fuel (String.length query) query.

Definition parse_token (p : linearGraphQLParser) (t : Tok) : linearGraphQLParser :=
  match t with
  | TOpen => openBrace p | TClose => closeBrace p
  | TLParen => openParen p | TRParen => closeParen p
  | TName name => consumeName name p
  end.
Definition count_token (c : counter) (t : Tok) : counter :=
  match t with
  | TOpen => count_open c | TClose => count_close c
  | TLParen => count_lparen c | TRParen => count_rparen c
  | TName name => if counter_root c then count_name name c else c
  end.

(** ** Every step consumes a byte *)

Lemma comment_shorter q : (String.length (skipGraphQLLineComment q) ≤ String.length q)%nat.
Proof. induction q as [|c q IH]; simpl; [done|]. destruct (is_newline c); simpl; lia. Qed.

(** A comment starts with a hash, which is no newline. *)
Lemma comment_consumes c q :
  is_hash c = true →
  (String.length (skipGraphQLLineComment (String c q)) ≤ String.length q)%nat.
Proof.
  intros H. simpl. assert (is_newline c = false) as ->.
  { revert H. unfold is_hash, is_newline, byte_is. by destruct (Nat.eqb_spec (Ascii.nat_of_ascii c) 35) as [->|]. }
  apply comment_shorter.
Qed.

Lemma after_triple_shorter q t : after_triple q = Some t → String.length q = (3 + String.length t)%nat.
Proof.
  unfold after_triple. destruct q as [|a [|b [|c q]]]; try done.
  destruct (_ && _); [|done]. by intros [= ->].
Qed.

Lemma block_shorter q : (String.length (skip_block q) ≤ String.length q)%nat.
Proof.
  induction q as [|c q IH]; [done|]. cbn [skip_block].
  destruct (after_triple (String c q)) as [t|] eqn:E; [|simpl; lia].
  apply after_triple_shorter in E. lia.
Qed.

Lemma quoted_shorter q : (String.length (skip_quoted q).1 ≤ String.length q)%nat.
Proof.
  remember (String.length q) as n eqn:Hn. revert q Hn.
  induction (lt_wf n) as [n _ IH]. intros q ->. destruct q as [|c q]; [done|]. simpl.
  destruct (is_backslash c).
  - destruct q as [|d q]; simpl; [lia|]. pose proof (IH (String.length q) ltac:(simpl; lia) q eq_refl). lia.
  - destruct (is_quote c); [simpl; lia|]. pose proof (IH (String.length q) ltac:(simpl; lia) q eq_refl). lia.
Qed.

Lemma string_consumes c q :
  (String.length (skipGraphQLString (String c q)).1 ≤ String.length q)%nat.
Proof.
  unfold skipGraphQLString. destruct (after_triple (String c q)) as [t|] eqn:E; [|apply quoted_shorter].
  apply after_triple_shorter in E. simpl in E. pose proof (block_shorter t). simpl. lia.
Qed.

Lemma name_shorter q : (String.length (name_bytes q).2 ≤ String.length q)%nat.
Proof.
  induction q as [|c q IH]; simpl; [done|]. destruct (isGraphQLNameContinue c); [|done].
  destruct (name_bytes q). simpl in *. lia.
Qed.

Lemma scan_name_eq c q :
  scanGraphQLName (String c q) = (String c (name_bytes q).1, (name_bytes q).2).
Proof. simpl. by destruct (name_bytes q). Qed.

(** What one iteration leaves is shorter than the query. *)
Ltac consumed c q :=
  pose proof (string_consumes c q); pose proof (name_shorter q); pose proof (comment_consumes c q).

(** The branches of an iteration, in the order of the code. *)
Ltac scan_cases c :=
  destruct (is_hash c); [|destruct (is_quote c); [|destruct (is_lbrace c); [|destruct (is_rbrace c);
  [|destruct (is_lparen c); [|destruct (is_rparen c); [|destruct (is_blank c); [|
  destruct (is_dollar c); [|destruct (isGraphQLNameStart c)]]]]]]]].

(** The fuel bounds the number of bytes left. *)
Lemma lex_fuel_enough n m q :
  (String.length q ≤ n)%nat → (String.length q ≤ m)%nat → lex_fuel n q = lex_fuel m q.
Proof.
  revert m q. induction n as [|n IH]; intros m [|c q]; try (by destruct m).
  { simpl. lia. }
  destruct m as [|m]; simpl String.length; [lia|]. intros Hn Hm.
  cbn [lex_fuel]. rewrite (scan_name_eq c q). unfold skipGraphQLVariable. consumed c q.
  scan_cases c; first [apply IH; lia|f_equal; apply IH; lia].
Qed.

Lemma lex_cons c q :
  lex (String c q) =
    (if is_hash c then lex (skipGraphQLLineComment (String c q))
     else if is_quote c then lex (skipGraphQLString (String c q)).1
     else if is_lbrace c then TOpen :: lex q
     else if is_rbrace c then TClose :: lex q
     else if is_lparen c then TLParen :: lex q
     else if is_rparen c then TRParen :: lex q
     else if is_blank c then lex q
     else if is_dollar c then lex (name_bytes q).2
     else if isGraphQLNameStart c then TName (String c (name_bytes q).1) :: lex (name_bytes q).2
     else lex q).
Proof.
  unfold lex. cbn [String.length lex_fuel]. rewrite (scan_name_eq c q). unfold skipGraphQLVariable.
  consumed c q. scan_cases c; first [apply lex_fuel_enough; lia|f_equal; apply lex_fuel_enough; lia].
Qed.

(** ** The scanners are folds over the tokens *)

Lemma parse_tokens n q p : parse_loop n q p = fold_left parse_token (lex_fuel n q) p.
Proof.
  revert q p. induction n as [|n IH]; intros [|c q] p; try done.
  cbn [parse_loop lex_fuel]. rewrite (scan_name_eq c q). scan_cases c; apply IH.
Qed.

Lemma count_fuel_enough n m q c :
  (String.length q ≤ n)%nat → (String.length q ≤ m)%nat → count_loop n q c = count_loop m q c.
Proof.
  revert m q c. induction n as [|n IH]; intros m [|ch q] c; try (by destruct m).
  { simpl. lia. }
  destruct m as [|m]; simpl String.length; [lia|]. intros Hn Hm.
  cbn [count_loop]. rewrite (scan_name_eq ch q). unfold skipGraphQLVariable. consumed ch q.
  destruct (counter_root c); simpl andb; scan_cases ch; apply IH; lia.
Qed.

(** A byte of a name is none of the bytes the loop looks for. *)
Lemma name_byte_plain ch :
  isGraphQLNameContinue ch = true →
  is_hash ch = false ∧ is_quote ch = false ∧ is_lbrace ch = false ∧ is_rbrace ch = false ∧
  is_lparen ch = false ∧ is_rparen ch = false ∧ is_blank ch = false ∧ is_dollar ch = false.
Proof. destruct ch as [[] [] [] [] [] [] [] []]; vm_compute; by auto 8. Qed.

(** Inside a selection set or an argument list the count walks over a name byte by byte. *)
Lemma count_walk n m q c :
  counter_root c = false → (String.length q ≤ n)%nat → (String.length (name_bytes q).2 ≤ m)%nat →
  count_loop n q c = count_loop m (name_bytes q).2 c.
Proof.
  intros HC. revert n. induction q as [|ch q IH]; intros n Hn Hm; [by destruct n, m|].
  simpl name_bytes in *. destruct (isGraphQLNameContinue ch) eqn:E; [|by apply count_fuel_enough].
  simpl String.length in Hn. destruct n as [|n]; [lia|]. destruct (name_byte_plain ch E) as (H1 & H2 & H3 & H4 & H5 & H6 & H7 & H8).
  destruct (name_bytes q) as [nm rest]. cbn [snd] in *. rewrite <- (IH n) by (done || lia).
  cbn [count_loop]. by rewrite H1, H2, H3, H4, H5, H6, H7, H8, HC.
Qed.

Lemma count_tokens n q c :
  (String.length q ≤ n)%nat → count_loop n q c = fold_left count_token (lex q) c.
Proof.
  revert q c. induction n as [|n IH]; intros [|ch q] c; try done.
  { simpl. lia. }
  simpl String.length. intros Hn. cbn [count_loop]. rewrite lex_cons, (scan_name_eq ch q).
  unfold skipGraphQLVariable. consumed ch q.
  destruct (is_hash ch); [apply IH; lia|]. destruct (is_quote ch); [apply IH; lia|].
  destruct (is_lbrace ch); [apply IH; lia|]. destruct (is_rbrace ch); [apply IH; lia|].
  destruct (is_lparen ch); [apply IH; lia|]. destruct (is_rparen ch); [apply IH; lia|].
  destruct (is_blank ch); [apply IH; lia|]. destruct (is_dollar ch); [apply IH; lia|].
  destruct (isGraphQLNameStart ch); [|rewrite andb_false_r; apply IH; lia].
  rewrite andb_true_r. cbn [fold_left count_token]. destruct (counter_root c) eqn:EC.
  - apply IH. lia.
  - rewrite (count_walk n n) by (done || lia). apply IH. lia.
Qed.

(** ** Documents *)

(** Bracketed token lists, as trees. *)
Inductive item := IName (name : string) | IParens (l : list item) | IBraces (l : list item).

Fixpoint flat (i : item) : list Tok :=
  match i with
  | IName name => [TName name]
  | IParens l => TLParen :: flat_map flat l ++ [TRParen]
  | IBraces l => TOpen :: flat_map flat l ++ [TClose]
  end.

Section ItemInd.
Context (P : item → Prop) (HN : ∀ n, P (IName n)) (HP : ∀ l, Forall P l → P (IParens l))
  (HB : ∀ l, Forall P l → P (IBraces l)).
Fixpoint item_ind' (i : item) : P i :=
  let all := fix all (l : list item) : Forall P l :=
    match l with [] => Forall_nil_2 _ | i :: l => Forall_cons_2 _ _ _ (item_ind' i) (all l) end in
  match i with IName n => HN n | IParens l => HP l (all l) | IBraces l => HB l (all l) end.
End ItemInd.

(** A header is what stands between the keyword and the selection set: names and
    argument lists, no selection set. *)
Definition header_item (i : item) : Prop := match i with IBraces _ => False | _ => True end.

Inductive definition :=
| DOperation (kind : linearGraphQLOperationKind) (header body : list item)
| DShorthand (body : list item)
| DFragment (header body : list item).

Definition keyword (kind : linearGraphQLOperationKind) : string :=
  match kind with
  | linearGraphQLOperationQuery => "query"
  | linearGraphQLOperationMutation => "mutation"
  | linearGraphQLOperationSubscription => "subscription"
  end.

Definition definition_tokens (d : definition) : list Tok :=
  match d with
  | DOperation kind header body =>
      TName (keyword kind) :: flat_map flat header ++ flat (IBraces body)
  | DShorthand body => flat (IBraces body)
  | DFragment header body => TName "fragment" :: flat_map flat header ++ flat (IBraces body)
  end.
Definition document_tokens (d : list definition) : list Tok := flat_map definition_tokens d.

Definition definition_ok (d : definition) : Prop :=
  match d with
  | DOperation _ header _ | DFragment header _ => Forall header_item header
  | DShorthand _ => True
  end.

Definition is_operation (d : definition) : bool :=
  match d with DFragment _ _ => false | _ => true end.
Definition operations (d : list definition) : list definition := List.filter is_operation d.

(** The first name of a selection set. *)
Fixpoint first_name (body : list item) : string :=
  match body with
  | [] => ""
  | IName n :: rest => if String.eqb n "" then first_name rest else n
  | _ :: rest => first_name rest
  end.

(** What an operation is: its kind and the first name it selects. *)
Definition describe (d : definition) : linearGraphQLOperation :=
  match d with
  | DOperation kind _ body => {| op_Kind := kind; op_FieldName := first_name body |}
  | DShorthand body | DFragment _ body =>
      {| op_Kind := linearGraphQLOperationQuery; op_FieldName := first_name body |}
  end.

(** ** Counting *)

Definition counting (n : Z) (header : bool) : counter :=
  {| c_count := n; c_depth := 0; c_parenDepth := 0; c_operationHeader := header |}.

Definition counter_inside (c : counter) : Prop :=
  counter_root c = false ∧ 0 ≤ c_depth c ∧ 0 ≤ c_parenDepth c.

Lemma counter_root_iff c : counter_root c = true ↔ c_depth c = 0 ∧ c_parenDepth c = 0.
Proof. unfold counter_root. rewrite andb_true_iff, !Z.eqb_eq. done. Qed.

Lemma not_root_inside c :
  0 ≤ c_depth c → 0 ≤ c_parenDepth c → 0 < c_depth c ∨ 0 < c_parenDepth c → counter_inside c.
Proof.
  intros. split; [|done]. apply not_true_is_false. rewrite counter_root_iff. lia.
Qed.

(** A fold of a step that leaves the state alone. *)
Lemma fold_quiet {A B} (f : A → B → A) (l : list B) a :
  Forall (λ b, f a b = a) l → fold_left f l a = a.
Proof. induction 1 as [|b l Hb _ IH]; simpl; [done|]. by rewrite Hb. Qed.

Lemma fold_flat_map {A B C} (f : A → B → A) (g : C → list B) l a :
  fold_left f (flat_map g l) a = fold_left (λ a c, fold_left f (g c) a) l a.
Proof. revert a. induction l as [|c l IH]; intros a; simpl; [done|]. by rewrite fold_left_app, IH. Qed.

Lemma count_items l c :
  Forall (λ i, ∀ c, counter_inside c → fold_left count_token (flat i) c = c) l →
  counter_inside c → fold_left count_token (flat_map flat l) c = c.
Proof.
  intros Hl Hc. rewrite fold_flat_map. apply fold_quiet. eapply Forall_impl; [exact Hl|]. auto.
Qed.

Lemma count_item i : ∀ c, counter_inside c → fold_left count_token (flat i) c = c.
Proof.
  induction i as [n|l IH|l IH] using item_ind'; intros [n0 d q h] (HR & Hd & Hp); simpl in Hd, Hp.
  - simpl. by rewrite HR.
  - simpl. rewrite fold_left_app, count_items; [|exact IH|apply not_root_inside; simpl; lia].
    unfold count_lparen. simpl. unfold count_rparen. simpl.
    destruct (Z.ltb_spec 0 (Z.succ q)); [|lia]. unfold set. simpl. f_equal. lia.
  - simpl. rewrite fold_left_app. unfold count_open at 1. rewrite HR.
    rewrite count_items; [|exact IH|apply not_root_inside; simpl; lia].
    simpl. unfold count_close. simpl. destruct (Z.ltb_spec 0 (Z.succ d)); [|lia].
    unfold set. simpl. f_equal. lia.
Qed.

Lemma count_inside l c : counter_inside c → fold_left count_token (flat_map flat l) c = c.
Proof. apply count_items. apply Forall_true. intros i. apply count_item. Qed.

Lemma count_braces n header body :
  fold_left count_token (flat (IBraces body)) (counting n header) =
    counting (if header then n else Z.succ n) false.
Proof.
  simpl flat. cbn [fold_left count_token]. rewrite fold_left_app. unfold count_open, counter_root. simpl.
  rewrite count_inside by (destruct header; apply not_root_inside; simpl; lia).
  by destruct header.
Qed.

Lemma count_header n l :
  Forall header_item l → fold_left count_token (flat_map flat l) (counting n true) = counting n true.
Proof.
  intros Hl. rewrite fold_flat_map. apply fold_quiet. eapply Forall_impl; [exact Hl|].
  intros [m|l'|l'] Hi; simpl in Hi |- *; [done| |done].
  rewrite fold_left_app, count_inside by (apply not_root_inside; simpl; lia). done.
Qed.

Lemma count_definition n d :
  definition_ok d →
  fold_left count_token (definition_tokens d) (counting n false) =
    counting (if is_operation d then Z.succ n else n) false.
Proof.
  destruct d as [kind header body|body|header body]; intros Hok; unfold definition_tokens.
  - cbn [fold_left]. assert (count_token (counting n false) (TName (keyword kind)) = counting (Z.succ n) true)
      as -> by (by destruct kind).
    by rewrite fold_left_app, count_header, count_braces.
  - apply count_braces.
  - cbn [fold_left]. change (count_token (counting n false) (TName "fragment")) with (counting n true).
    by rewrite fold_left_app, count_header, count_braces.
Qed.

Lemma count_document n d :
  Forall definition_ok d →
  fold_left count_token (document_tokens d) (counting n false) =
    counting (n + Z.of_nat (length (operations d))) false.
Proof.
  intros Hd. unfold document_tokens, operations. revert n.
  induction Hd as [|x d Hx _ IH]; intros n; simpl; [f_equal; lia|].
  rewrite fold_left_app, (count_definition n x Hx), IH. f_equal. destruct (is_operation x); simpl; lia.
Qed.

(** ** Parsing *)

(** Between two definitions. *)
Definition parsing (op : linearGraphQLOperation) : linearGraphQLParser :=
  {| p_op := op; p_depth := 0; p_parenDepth := 0; p_expecting := ""; p_headerSelectionRoot := false |}.

(** After a keyword, up to the selection set. *)
Definition announced (op : linearGraphQLOperation) (expecting : string) : linearGraphQLParser :=
  {| p_op := op; p_depth := 0; p_parenDepth := 0; p_expecting := expecting;
     p_headerSelectionRoot := false |}.

(** Nothing below is captured: inside brackets, with no field left to capture. *)
Record parser_inside (p : linearGraphQLParser) : Prop := {
  pi_depth : 0 ≤ p_depth p;
  pi_parens : 0 ≤ p_parenDepth p;
  pi_root : p_depth p = 0 → p_headerSelectionRoot p = false ∧ 0 < p_parenDepth p;
  pi_done : p_depth p = 1 → p_parenDepth p = 0 →
            p_headerSelectionRoot p = false ∨ op_FieldName (p_op p) ≠ ""
}.

Lemma at_root_iff p : at_root p = true ↔ p_depth p = 0 ∧ p_parenDepth p = 0.
Proof. unfold at_root. rewrite andb_true_iff, !Z.eqb_eq. done. Qed.

Lemma inside_not_root p : parser_inside p → at_root p = false.
Proof.
  intros [H1 H2 H3 _]. apply not_true_is_false. rewrite at_root_iff. intros [E1 E2].
  apply H3 in E1 as [_ ?]. lia.
Qed.

Lemma inside_name n p : parser_inside p → consumeName n p = p.
Proof.
  intros HI. unfold consumeName. rewrite (inside_not_root p HI). simpl.
  destruct (p_headerSelectionRoot p) eqn:EH; [|done].
  destruct (Z.eqb_spec (p_depth p) 1) as [E1|]; [|done].
  destruct (Z.eqb_spec (p_parenDepth p) 0) as [E2|]; [|done]. simpl.
  destruct (pi_done p HI E1 E2) as [?|Hn]; [congruence|].
  by apply String.eqb_neq in Hn as ->.
Qed.

Lemma inside_paren p :
  0 ≤ p_depth p → 0 ≤ p_parenDepth p → (p_depth p = 0 → p_headerSelectionRoot p = false) →
  parser_inside (openParen p).
Proof. intros H1 H2 H3. split; simpl; [lia|lia| |lia]. intros E. split; [by apply H3|lia]. Qed.

Lemma paren_back p : 0 ≤ p_parenDepth p → closeParen (openParen p) = p.
Proof.
  intros H. unfold closeParen, openParen. simpl. destruct (Z.ltb_spec 0 (Z.succ (p_parenDepth p))); [|lia].
  destruct p. unfold set. simpl in *. f_equal. lia.
Qed.

Lemma brace_inside p : parser_inside p → parser_inside (openBrace p) ∧ closeBrace (openBrace p) = p.
Proof.
  intros HI. unfold openBrace. rewrite (inside_not_root p HI). destruct HI as [H1 H2 H3 H4]. split.
  - split; simpl; [lia|lia|lia|]. intros E1 E2. destruct H3; lia.
  - unfold closeBrace. simpl. destruct (Z.ltb_spec 0 (Z.succ (p_depth p))); [|lia]. simpl.
    rewrite Z.pred_succ. destruct (Z.eqb_spec (p_depth p) 0) as [E|].
    + destruct p. unfold set. simpl in *. rewrite Z.pred_succ. by destruct (H3 E) as [-> _].
    + destruct p. unfold set. simpl. by rewrite Z.pred_succ.
Qed.

Lemma parse_items l p :
  Forall (λ i, ∀ p, parser_inside p → fold_left parse_token (flat i) p = p) l →
  parser_inside p → fold_left parse_token (flat_map flat l) p = p.
Proof.
  intros Hl Hp. rewrite fold_flat_map. apply fold_quiet. eapply Forall_impl; [exact Hl|]. auto.
Qed.

Lemma parse_item i : ∀ p, parser_inside p → fold_left parse_token (flat i) p = p.
Proof.
  induction i as [n|l IH|l IH] using item_ind'; intros p HI.
  - by apply inside_name.
  - simpl. rewrite fold_left_app, parse_items; [|exact IH|].
    + simpl. apply paren_back, HI.
    + apply inside_paren; [apply HI|apply HI|]. intros E. by apply (pi_root p HI).
  - destruct (brace_inside p HI) as [HI' HB]. simpl. by rewrite fold_left_app, parse_items.
Qed.

Lemma parse_inside l p : parser_inside p → fold_left parse_token (flat_map flat l) p = p.
Proof. apply parse_items. apply Forall_true. intros i. apply parse_item. Qed.

(** An argument list is transparent wherever it stands outside a fragment of names. *)
Lemma parse_parens l p :
  0 ≤ p_depth p → 0 ≤ p_parenDepth p → (p_depth p = 0 → p_headerSelectionRoot p = false) →
  fold_left parse_token (flat (IParens l)) p = p.
Proof.
  intros. simpl. rewrite fold_left_app, parse_inside by (by apply inside_paren). by apply paren_back.
Qed.

(** At the first level of the operation's selection set. *)
Definition selecting (kind : linearGraphQLOperationKind) (field : string) : linearGraphQLParser :=
  {| p_op := {| op_Kind := kind; op_FieldName := field |}; p_depth := 1; p_parenDepth := 0;
     p_expecting := ""; p_headerSelectionRoot := true |}.

Lemma selecting_done kind field : field ≠ "" → parser_inside (selecting kind field).
Proof. intros. split; simpl; auto; lia. Qed.

Lemma selecting_braces kind field l :
  fold_left parse_token (flat (IBraces l)) (selecting kind field) = selecting kind field.
Proof.
  simpl flat. cbn [fold_left]. rewrite fold_left_app.
  rewrite (parse_inside l (parse_token (selecting kind field) TOpen)); [done|].
  split; simpl; intros; lia.
Qed.

Lemma parse_selection kind body :
  fold_left parse_token (flat_map flat body) (selecting kind "") = selecting kind (first_name body).
Proof.
  induction body as [|[n|l|l] body IH]; [done|..]; cbn [flat_map first_name]; rewrite fold_left_app.
  - simpl fold_left at 2. unfold consumeName. simpl. unfold set. simpl.
    destruct (String.eqb_spec n "") as [->|Hn]; [exact IH|].
    by apply parse_inside, selecting_done.
  - rewrite parse_parens by (simpl; intros; lia). exact IH.
  - by rewrite selecting_braces.
Qed.

Lemma parse_braces op kind body :
  (op_FieldName op = "" → kind = op_Kind op) →
  fold_left parse_token (flat_map flat body)
    {| p_op := op; p_depth := 1; p_parenDepth := 0; p_expecting := ""; p_headerSelectionRoot := true |} =
  {| p_op := if String.eqb (op_FieldName op) "" then {| op_Kind := kind; op_FieldName := first_name body |}
             else op;
     p_depth := 1; p_parenDepth := 0; p_expecting := ""; p_headerSelectionRoot := true |}.
Proof.
  intros Hk. destruct op as [k f]. simpl in *. destruct (String.eqb_spec f "") as [->|Hf].
  - rewrite Hk by done. apply (parse_selection k body).
  - apply parse_inside. by apply (selecting_done k f).
Qed.

(** In a header no name is looked at. *)
Lemma parse_header op expecting l :
  expecting ≠ "" → Forall header_item l →
  fold_left parse_token (flat_map flat l) (announced op expecting) = announced op expecting.
Proof.
  intros He Hl. rewrite fold_flat_map. apply fold_quiet. eapply Forall_impl; [exact Hl|].
  intros [n|l'|l'] Hi; [|by apply parse_parens|done].
  simpl. unfold consumeName. simpl. by apply String.eqb_neq in He as ->.
Qed.

(** The effect of one definition: the first operation with a field is recorded. *)
Definition record_definition (op : linearGraphQLOperation) (d : definition) : linearGraphQLOperation :=
  if is_operation d && String.eqb (op_FieldName op) "" then
    match d with
    | DShorthand body => op <| op_FieldName := first_name body |>
    | _ => describe d
    end
  else op.

Lemma fold_braces body p :
  fold_left parse_token (flat (IBraces body)) p =
    closeBrace (fold_left parse_token (flat_map flat body) (openBrace p)).
Proof. simpl. by rewrite fold_left_app. Qed.

(** A selection set at the root, by what was announced. *)
Lemma braces_operation op kind body :
  (op_FieldName op = "" → kind = op_Kind op) →
  fold_left parse_token (flat (IBraces body)) (announced op "operation") =
  parsing (if String.eqb (op_FieldName op) "" then {| op_Kind := kind; op_FieldName := first_name body |}
           else op).
Proof.
  intros Hk. rewrite fold_braces. unfold openBrace. simpl.
  match goal with |- context [fold_left _ _ ?p] => change p with
    {| p_op := op; p_depth := 1; p_parenDepth := 0; p_expecting := ""; p_headerSelectionRoot := true |} end.
  by rewrite (parse_braces op kind body Hk).
Qed.

Lemma braces_fragment op body :
  fold_left parse_token (flat (IBraces body)) (announced op "fragment") = parsing op.
Proof.
  rewrite fold_braces. rewrite parse_inside; [done|]. split; simpl; intros; auto; lia.
Qed.

Lemma braces_shorthand op body :
  fold_left parse_token (flat (IBraces body)) (parsing op) =
  parsing (if String.eqb (op_FieldName op) "" then op <| op_FieldName := first_name body |> else op).
Proof.
  rewrite fold_braces. destruct op as [k f]. unfold openBrace. simpl.
  destruct (String.eqb_spec f "") as [->|Hf].
  - match goal with |- context [fold_left _ _ ?p] => change p with (selecting k "") end.
    by rewrite (parse_selection k body).
  - rewrite parse_inside; [done|]. split; simpl; intros; auto; lia.
Qed.

Lemma parse_definition op d :
  definition_ok d →
  fold_left parse_token (definition_tokens d) (parsing op) = parsing (record_definition op d).
Proof.
  destruct d as [kind header body|body|header body]; intros Hok; unfold definition_tokens, record_definition.
  - cbn [fold_left]. rewrite fold_left_app. simpl is_operation. cbn [andb].
    set (op' := if String.eqb (op_FieldName op) "" then op <| op_Kind := kind |> else op).
    assert (parse_token (parsing op) (TName (keyword kind)) = announced op' "operation") as ->.
    { unfold op'. destruct op as [k f], kind; cbn; unfold operation_header; cbn; by destruct (String.eqb f ""). }
    rewrite (parse_header op' "operation" header), (braces_operation op' kind) by
      (done || unfold op'; destruct op as [k f]; simpl; by destruct (String.eqb_spec f "")).
    unfold op'. destruct op as [k f]. simpl. destruct (String.eqb f "") eqn:Ef; simpl; by rewrite ?Ef.
  - rewrite braces_shorthand. done.
  - cbn [fold_left]. rewrite fold_left_app.
    change (parse_token (parsing op) (TName "fragment")) with (announced op "fragment").
    by rewrite (parse_header op "fragment" header), braces_fragment.
Qed.

Lemma parse_document op d :
  Forall definition_ok d →
  fold_left parse_token (document_tokens d) (parsing op) = parsing (fold_left record_definition d op).
Proof.
  intros Hd. unfold document_tokens. revert op.
  induction Hd as [|x d Hx _ IH]; intros op; simpl; [done|].
  by rewrite fold_left_app, parse_definition, IH.
Qed.

(** * The issueUpdate scanner terminates

    Every loop of GraphQLUpdate.v consumes text, and the expansion of fragments enters
    each fragment at most once per chain, so cyclic fragments end.  [terminates] says
    that the fuel was enough. *)


Definition terminates {A} (r : Result A) : Prop := r ≠ Failed OutOfFuel.

(** A returned rest is shorter than the text. *)
Definition shrinks (query : string) (r : Result string) : Prop :=
  terminates r ∧ ∀ rest, r = Returned rest → (String.length rest < String.length query)%nat.

Lemma terminates_bind {A B} (m : Result A) (k : A → Result B) :
  terminates m → (∀ a, m = Returned a → terminates (k a)) → terminates (let? x := m in k x).
Proof. unfold terminates. destruct m; simpl; intros H1 H2; [by apply H2|congruence|done]. Qed.

Lemma terminates_Returned {A} (a : A) : terminates (Returned a).
Proof. done. Qed.
Lemma terminates_Failed {A} e : e ≠ OutOfFuel → @terminates A (Failed e).
Proof. unfold terminates. congruence. Qed.
Create HintDb total.
#[export] Hint Resolve terminates_Returned : total.
#[export] Hint Extern 1 (terminates (Failed _)) => (apply terminates_Failed; discriminate) : total.
#[export] Hint Extern 1 (terminates Panicked) => discriminate : total.

(** ** Lengths *)

Lemma skip_token_shorter query rest :
  skipIssueUpdateScanToken query = Some rest → (String.length rest < String.length query)%nat.
Proof.
  destruct query as [|c t]; [done|]. unfold skipIssueUpdateScanToken.
  destruct (is_hash c) eqn:EH; [intros [= <-]; pose proof (comment_consumes c t EH); simpl in *; lia|].
  destruct (is_quote c); [|done]. intros [= <-]. pose proof (string_consumes c t). simpl String.length. lia.
Qed.

Lemma whitespace_shorter s : (String.length (skipGraphQLWhitespace s) ≤ String.length s)%nat.
Proof. induction s as [|c s IH]; simpl; [done|]. destruct (is_blank c); simpl; lia. Qed.

Lemma scan_name_shorter s :
  s ≠ "" → (String.length (scanGraphQLName s).2 < String.length s)%nat.
Proof. destruct s as [|c s]; [done|]. rewrite scan_name_eq. simpl. pose proof (name_shorter s). lia. Qed.

Lemma inner_text_shorter s rest : s ≠ "" → (String.length (inner_text s rest) < String.length s)%nat.
Proof.
  destruct s as [|c s]; [done|]. intros _. unfold inner_text.
  pose proof (str_take_short (String.length s - String.length rest - 1) s). simpl. lia.
Qed.

Lemma CutPrefix_shorter s pre rest :
  CutPrefix s pre = Some rest → String.length s = (String.length pre + String.length rest)%nat.
Proof.
  revert s. induction pre as [|a pre IH]; intros [|b s] H; simpl in *; try done;
    try (by injection H as <-).
  destruct (Ascii.eqb a b); [|done]. by rewrite (IH s H).
Qed.

(** ** Enclosed values *)

Lemma enclosed_shrinks open close fuel input depth :
  (String.length input ≤ fuel)%nat → shrinks input (enclosed_loop open close fuel input depth).
Proof.
  revert input depth. induction fuel as [|fuel IH]; intros [|c t] depth Hf; simpl in Hf; try lia;
    try (by split; [auto with total|done]).
  assert (∀ q d, (String.length q < String.length (String c t))%nat →
    shrinks (String c t) (enclosed_loop open close fuel q d)) as Hstep.
  { intros q d Hq. simpl in Hq. destruct (IH q d) as [H1 H2]; [lia|].
    split; [done|]. intros rest Hr. specialize (H2 rest Hr). simpl. lia. }
  cbn [enclosed_loop]. destruct (skipIssueUpdateScanToken (String c t)) as [q|] eqn:E.
  { by apply Hstep, skip_token_shorter. }
  destruct (open c); [apply Hstep; simpl; lia|].
  destruct (close c); [|apply Hstep; simpl; lia].
  destruct (_ =? _); [|apply Hstep; simpl; lia].
  split; [done|]. intros rest [= <-]. simpl. lia.
Qed.

Lemma scan_enclosed_shrinks open close input :
  shrinks input (scanGraphQLEnclosedValue open close input).
Proof. by apply enclosed_shrinks. Qed.

(** ** The document *)

(** An optional rest, shorter when there is one. *)
Definition shrinks_opt {A} (query : string) (len : A → nat) (r : Result (option A)) : Prop :=
  terminates r ∧ ∀ a, r = Returned (Some a) → (len a < String.length query)%nat.

Lemma selection_open_total fuel query :
  (String.length query ≤ fuel)%nat →
  terminates (selection_open_loop fuel query) ∧
  ∀ open, selection_open_loop fuel query = Returned (Some open) →
    open ≠ "" ∧ (String.length open ≤ String.length query)%nat.
Proof.
  revert query. induction fuel as [|fuel IH]; intros [|c t] Hf; simpl in Hf; try lia;
    try (by split; [auto with total|done]).
  assert (∀ q, (String.length q < S (String.length t))%nat →
    terminates (selection_open_loop fuel q) ∧
    ∀ open, selection_open_loop fuel q = Returned (Some open) →
      open ≠ "" ∧ (String.length open ≤ String.length (String c t))%nat) as Hstep.
  { intros q Hq. destruct (IH q) as [H1 H2]; [lia|]. split; [done|].
    intros open Ho. destruct (H2 open Ho). split; [done|]. simpl. lia. }
  cbn [selection_open_loop]. destruct (skipIssueUpdateScanToken (String c t)) as [q|] eqn:E.
  { apply Hstep. apply skip_token_shorter in E. simpl in E. lia. }
  destruct (is_lparen c).
  - destruct (scan_enclosed_shrinks is_lparen is_rparen (String c t)) as [H1 H2].
    destruct (scanGraphQLEnclosedValue _ _ _) as [rest|e|]; simpl.
    + apply Hstep. specialize (H2 rest eq_refl). simpl in H2. lia.
    + split; [|done]. unfold terminates in *. congruence.
    + done.
  - destruct (is_lbrace c); [|apply Hstep; lia]. split; [done|]. intros open [= <-]. done.
Qed.

Lemma body_total query :
  terminates (scanIssueUpdateBodyAfterHeader query) ∧
  ∀ body rest, scanIssueUpdateBodyAfterHeader query = Returned (Some (body, rest)) →
    (String.length body < String.length query)%nat ∧ (String.length rest < String.length query)%nat.
Proof.
  unfold scanIssueUpdateBodyAfterHeader, findNextGraphQLSelectionOpen.
  destruct (selection_open_total (String.length query) query) as [H1 H2]; [done|].
  destruct (selection_open_loop _ _) as [[open|]|e|]; simpl; try done.
  2: { split; [|done]. unfold terminates in *. congruence. }
  destruct (H2 open eq_refl) as [Hne Hlen].
  destruct (scan_enclosed_shrinks is_lbrace is_rbrace open) as [H3 H4].
  destruct (scanGraphQLEnclosedValue _ _ open) as [rest|e|]; simpl; try done.
  - split; [done|]. intros body rest' [= <- <-]. specialize (H4 rest eq_refl).
    pose proof (inner_text_shorter open rest Hne). lia.
  - split; [|done]. unfold terminates in *. congruence.
Qed.

(** Every text of the document is shorter than [n] and the fragments are [m] at most. *)
Definition within (n : nat) (doc : issueUpdateDocument) : Prop :=
  Forall (λ b, String.length b ≤ n)%nat (mutationBodies doc) ∧
  map_Forall (λ _ b, String.length b ≤ n)%nat (fragments doc).

Definition step_total (n : nat) (query : string) (r : Result (string * issueUpdateDocument)) : Prop :=
  terminates r ∧ ∀ next doc, r = Returned (next, doc) →
    (String.length next < String.length query)%nat ∧ within n doc.

Lemma mutation_header_total n query next doc :
  (String.length next < String.length query)%nat → (String.length query ≤ n)%nat → within n doc →
  step_total n query (scanMutationHeader next doc).
Proof.
  intros Hn Hq [HW1 HW2]. unfold scanMutationHeader. destruct (body_total next) as [H1 H2]. split.
  { apply terminates_bind; [done|]. auto with total. }
  intros next' doc'. destruct (scanIssueUpdateBodyAfterHeader next) as [[[body rest]|]|e|]; simpl;
    intros [= <- <-]; [|by split].
  destruct (H2 body rest eq_refl). split; [lia|]. split; simpl; [|done].
  apply Forall_app. split; [done|]. constructor; [lia|done].
Qed.

Lemma fragment_header_total n query next doc :
  (String.length next < String.length query)%nat → (String.length query ≤ n)%nat → within n doc →
  step_total n query (scanFragmentHeader next doc).
Proof.
  intros Hn Hq [HW1 HW2]. unfold scanFragmentHeader, scanIssueUpdateFragmentDefinition.
  pose proof (whitespace_shorter next). set (q := skipGraphQLWhitespace next) in *.
  destruct (starts_name q) eqn:ES; simpl.
  2: { split; [auto with total|]. intros ? ? [= <- <-]. by split. }
  assert (q ≠ "") as Hne by (by intros E; rewrite E in ES).
  pose proof (scan_name_shorter q Hne). destruct (scanGraphQLName q) as [name after]. cbn [snd] in *.
  destruct (body_total after) as [H1 H2].
  destruct (scanIssueUpdateBodyAfterHeader after) as [[[body rest]|]|e|]; simpl.
  - split; [done|]. intros ? ? [= <- <-]. destruct (H2 body rest eq_refl). split; [simpl; lia|].
    split; simpl; [done|]. apply map_Forall_insert_2; [lia|done].
  - split; [done|]. intros ? ? [= <- <-]. by split.
  - split; [|done]. unfold terminates in *. congruence.
  - done.
Qed.

Lemma document_step_total n query doc :
  query ≠ "" → (String.length query ≤ n)%nat → within n doc → step_total n query (document_step query doc).
Proof.
  intros Hne Hq HW. destruct query as [|c t]; [done|]. unfold document_step.
  destruct (skipIssueUpdateScanToken (String c t)) as [rest|] eqn:E.
  { split; [done|]. intros ? ? [= <- <-]. split; [by apply skip_token_shorter|done]. }
  destruct (is_lbrace c).
  { destruct (scan_enclosed_shrinks is_lbrace is_rbrace (String c t)) as [H1 H2]. split.
    - apply terminates_bind; auto with total.
    - intros next doc'. destruct (scanGraphQLEnclosedValue _ _ _) as [rest| |]; simpl; intros [= <- <-].
      split; [by apply H2|done]. }
  destruct (isGraphQLNameStart c); simpl negb; cbv iota.
  2: { split; [done|]. intros ? ? [= <- <-]. split; [simpl; lia|done]. }
  pose proof (scan_name_shorter (String c t) ltac:(done)) as HN.
  destruct (scanGraphQLName (String c t)) as [name next]. cbn [snd] in HN.
  destruct (String.eqb name "mutation"); [by apply mutation_header_total|].
  destruct (String.eqb name "fragment"); [by apply fragment_header_total|].
  split; [done|]. intros ? ? [= <- <-]. by split.
Qed.

Lemma document_total n fuel query doc :
  (String.length query ≤ fuel)%nat → (String.length query ≤ n)%nat → within n doc →
  terminates (document_loop fuel query doc) ∧
  ∀ doc', document_loop fuel query doc = Returned doc' → within n doc'.
Proof.
  revert query doc. induction fuel as [|fuel IH]; intros [|c t] doc Hf Hq HW; simpl in Hf; try lia;
    try (by split; [auto with total|intros ? [= <-]]).
  cbn [document_loop]. destruct (document_step_total n (String c t) doc) as [H1 H2]; [done..|].
  destruct (document_step (String c t) doc) as [[next doc1]|e|]; simpl; [|by split; [unfold terminates in *; congruence|]|done].
  destruct (H2 next doc1 eq_refl) as [Hlen HW1]. simpl in Hlen, Hq. apply IH; [lia|lia|done].
Qed.

(** ** The expansion of fragments *)

Section Selection.
Context (frags : gmap string string) (n : nat)
  (Hfrags : map_Forall (λ _ b, String.length b ≤ n)%nat frags).

(** The fragments a chain can still enter. *)
Definition unvisited (visited : gset string) : nat := size (dom frags ∖ visited).

Lemma unvisited_enter visited name inner :
  frags !! name = Some inner → name ∉ visited →
  unvisited visited = S (unvisited ({[name]} ∪ visited)).
Proof.
  intros Hn Hv. unfold unvisited.
  assert (dom frags ∖ visited = {[name]} ∪ dom frags ∖ ({[name]} ∪ visited)) as ->.
  { apply elem_of_dom_2 in Hn. apply set_eq. intros k. destruct (decide (k = name)); set_solver. }
  rewrite size_union by set_solver. by rewrite size_singleton.
Qed.

Definition selection_need (visited : gset string) (body : string) : nat :=
  (unvisited visited * (n + 2) + String.length body + 1)%nat.

Lemma selection_total fuel visited body depth parenDepth args :
  (String.length body ≤ n)%nat → (selection_need visited body ≤ fuel)%nat →
  terminates (selection_loop frags fuel visited body depth parenDepth args).
Proof.
  unfold selection_need. revert visited body depth parenDepth args.
  induction fuel as [|fuel IH]; intros visited [|c t] depth parenDepth args Hn Hf; [lia..|done|].
  assert (∀ q d pd a, (String.length q < String.length (String c t))%nat →
    terminates (selection_loop frags fuel visited q d pd a)) as Hstep
    by (intros q d pd a Hq; apply IH; simpl in *; lia).
  cbn [selection_loop]. destruct (skipIssueUpdateScanToken (String c t)) as [q|] eqn:ET.
  { by apply Hstep, skip_token_shorter. }
  set (at_root := (depth =? 0) && (parenDepth =? 0)).
  destruct (if at_root then CutPrefix (String c t) "..." else None) as [after|] eqn:EP.
  - assert (String.length after < String.length (String c t))%nat as Hafter.
    { destruct at_root; [|done]. apply CutPrefix_shorter in EP. rewrite EP. simpl. lia. }
    pose proof (whitespace_shorter after). set (next := skipGraphQLWhitespace after) in *.
    destruct (starts_name next) eqn:ES; simpl negb; cbv iota; [|by apply Hstep].
    assert (next ≠ "") as Hne by (by intros E; rewrite E in ES).
    pose proof (scan_name_shorter next Hne) as HN.
    destruct (scanGraphQLName next) as [name afterName]. cbn [snd] in HN.
    destruct (String.eqb name "on").
    + destruct (body_total afterName) as [H1 H2]. apply terminates_bind; [done|].
      intros [[inner rest]|] EB; [|apply Hstep; lia]. destruct (H2 inner rest EB).
      apply terminates_bind; [apply IH; simpl in *; lia|]. intros more _. apply Hstep. lia.
    + apply terminates_bind; [|intros more _; apply Hstep; lia].
      destruct (frags !! name) as [inner|] eqn:EF; [|done]. case_bool_decide as HV; [done|].
      apply IH; [by eapply Hfrags|]. pose proof (Hfrags name inner EF). simpl in *.
      rewrite (unvisited_enter visited name inner EF HV) in Hf. lia.
  - destruct (updateIssueUpdateSelectionDepth c depth parenDepth) as [[d pd]|]; [apply Hstep; simpl; lia|].
    destruct (at_root && isGraphQLNameStart c); [|apply Hstep; simpl; lia].
    pose proof (scan_name_shorter (String c t) ltac:(done)) as HN.
    destruct (scanGraphQLName (String c t)) as [name next]. cbn [snd] in HN.
    apply terminates_bind; [|intros more _; by apply Hstep].
    destruct (String.eqb name "issueUpdate"); [|done]. apply terminates_bind; [|auto with total].
    unfold argumentTextAfterName. destruct (skipGraphQLWhitespace next) as [|c' t']; [auto with total|].
    destruct (is_lparen c'); [|auto with total].
    apply terminates_bind; [apply scan_enclosed_shrinks|auto with total].
Qed.
End Selection.

Lemma scan_bodies_total doc query bodies :
  within (String.length query) doc → Forall (λ b, String.length b ≤ String.length query)%nat bodies →
  terminates (scan_bodies doc query bodies).
Proof.
  intros [_ HF]. induction 1 as [|body bodies Hb _ IH]; simpl; [done|].
  apply terminates_bind; [|intros args _; apply terminates_bind; auto with total].
  apply (selection_total _ (String.length query) HF); [done|].
  unfold selection_need, selection_fuel, unvisited.
  assert (size (dom (fragments doc) ∖ ∅) ≤ size (fragments doc))%nat.
  { rewrite <- size_dom. apply subseteq_size. set_solver. }
  set (u := size (dom (fragments doc) ∖ ∅)) in *. nia.
Qed.

Lemma argument_texts_total query : terminates (issueUpdateArgumentTexts query).
Proof.
  unfold issueUpdateArgumentTexts, parseIssueUpdateDocument.
  destruct (document_total (String.length query) (String.length query) query
    (Build_issueUpdateDocument [] ∅)) as [H1 H2]; [done|done|split; [constructor|apply map_Forall_empty]|].
  apply terminates_bind; [done|]. intros doc Hdoc. pose proof (H2 doc Hdoc) as HW.
  apply terminates_bind; [by apply scan_bodies_total; [|apply HW]|].
  intros [|a l] _; auto with total.
Qed.

(** ** Argument values *)

Lemma bare_shorter s : (String.length (scanGraphQLBareValueEnd s) ≤ String.length s)%nat.
Proof. induction s as [|c s IH]; simpl; [done|]. destruct (_ || _); simpl; lia. Qed.

Lemma value_end_total s :
  terminates (scanGraphQLInputValueEnd s) ∧
  ∀ r, scanGraphQLInputValueEnd s = Returned r → (String.length r.1 ≤ String.length s)%nat.
Proof.
  unfold scanGraphQLInputValueEnd. pose proof (whitespace_shorter s) as HW.
  destruct (skipGraphQLWhitespace s) as [|c t] eqn:E; [split; [auto with total|done]|].
  assert (∀ open close, terminates (let? rest := scanGraphQLEnclosedValue open close (String c t) in
      Returned (rest, false)) ∧
    ∀ r, (let? rest := scanGraphQLEnclosedValue open close (String c t) in Returned (rest, false)) =
      Returned r → (String.length r.1 ≤ String.length s)%nat) as HE.
  { intros open close. destruct (scan_enclosed_shrinks open close (String c t)) as [H1 H2].
    split; [apply terminates_bind; auto with total|].
    intros r (rest & Hr & [= <-])%out_bind_Returned. specialize (H2 rest Hr). simpl in *. lia. }
  destruct (is_quote c).
  { split; [done|]. intros r [= <-]. pose proof (string_consumes c t). simpl in *. lia. }
  destruct (is_dollar c).
  { split; [done|]. intros r [= <-]. pose proof (name_shorter t). simpl in *. lia. }
  destruct (is_lbrace c); [apply HE|]. destruct (is_lbracket c); [apply HE|].
  split; [done|]. intros r [= <-]. pose proof (bare_shorter (String c t)). simpl in *. lia.
Qed.

Lemma next_field_shorter s : (String.length (nextGraphQLObjectLikeField s) ≤ String.length s)%nat.
Proof.
  unfold nextGraphQLObjectLikeField. pose proof (whitespace_shorter s).
  destruct (skipGraphQLWhitespace s) as [|c t]; [simpl; lia|]. destruct (is_comma c); simpl in *; lia.
Qed.

Lemma field_total s :
  terminates (scanGraphQLObjectLikeField s) ∧
  ∀ f, scanGraphQLObjectLikeField s = Returned (Some f) → (String.length (f_next f) < String.length s)%nat.
Proof.
  unfold scanGraphQLObjectLikeField. pose proof (whitespace_shorter s) as HW.
  destruct (skipGraphQLWhitespace s) as [|c t]; [by split|].
  destruct (isGraphQLNameStart c); simpl negb; cbv iota; [|split; [auto with total|done]].
  pose proof (scan_name_shorter (String c t) ltac:(done)) as HN.
  destruct (scanGraphQLName (String c t)) as [name next]. cbn [snd] in HN.
  pose proof (whitespace_shorter next). destruct (skipGraphQLWhitespace next) as [|c' t'];
    [split; [auto with total|done]|].
  destruct (is_colon c'); [|split; [auto with total|done]].
  pose proof (whitespace_shorter t'). destruct (value_end_total (skipGraphQLWhitespace t')) as [H1 H2].
  destruct (scanGraphQLInputValueEnd _) as [[rest past]|e|]; simpl.
  - destruct past; [done|]. split; [done|]. intros f [= <-]. simpl.
    specialize (H2 _ eq_refl). pose proof (next_field_shorter rest). simpl in *. lia.
  - split; [|done]. unfold terminates in *. congruence.
  - done.
Qed.

Lemma field_text_total target fuel s :
  (String.length s ≤ fuel)%nat → terminates (field_loop target fuel s).
Proof.
  revert s. induction fuel as [|fuel IH]; intros [|c t] Hf; simpl in Hf; try lia; try done.
  cbn [field_loop]. destruct (field_total (String c t)) as [H1 H2].
  apply terminates_bind; [done|]. intros [f|] Hr; [|done].
  destruct (String.eqb _ _); [done|]. apply IH. specialize (H2 f Hr). simpl in H2. lia.
Qed.

Lemma string_value_total raw variables field :
  terminates (parseGraphQLStringLikeValue raw variables field).
Proof.
  assert (∀ v, terminates (requiredGraphQLString v field)) as HR.
  { intros v. unfold requiredGraphQLString. destruct (blank _); auto with total. }
  unfold parseGraphQLStringLikeValue. destruct (after_triple _); [auto with total|].
  destruct (TrimSpace raw) as [|c t]; [auto with total|].
  destruct (is_quote c).
  { unfold parseGraphQLStringLiteral. destruct (skipGraphQLString _) as [rest past].
    destruct (_ || _); [auto with total|]. destruct (Unquote _); auto with total. }
  destruct (is_dollar c); [|auto with total].
  unfold parseGraphQLStringVariable. destruct (scanGraphQLVariableName _). destruct (negb _); auto with total.
Qed.

Lemma issue_id_total args variables : terminates (parseIssueUpdateIssueID args variables).
Proof.
  apply terminates_bind; [by apply field_text_total|]. intros [raw|] _; [apply string_value_total|auto with total].
Qed.

Lemma state_id_total args variables : terminates (parseIssueUpdateStateID args variables).
Proof.
  assert (∀ raw, terminates (parseIssueUpdateLiteralStateID raw variables)) as HL.
  { intros [|c t]; [simpl; auto with total|]. unfold parseIssueUpdateLiteralStateID.
    destruct (is_lbrace c); [|auto with total]. destruct (String.eqb _ _); [auto with total|].
    apply terminates_bind; [by apply field_text_total|].
    intros [state|] _; [apply string_value_total|auto with total]. }
  apply terminates_bind; [by apply field_text_total|]. intros [raw|] _; [|auto with total].
  cbv zeta. destruct (TrimSpace raw) as [|c t]; [apply HL|]. destruct (is_dollar c); [|apply HL].
  unfold parseIssueUpdateVariableStateID. destruct (scanGraphQLVariableName _) as [name rest].
  destruct (negb _); [auto with total|]. destruct (map_get variables name); auto with total.
  unfold requiredGraphQLString. destruct (blank _); auto with total.
Qed.

(** * What a document executes, and that the scan finds it

    A grammar of the documents of mutations and fragments, on the text itself, with blanks
    and comments between any two tokens: what a selection set contains ([selections]),
    what a document defines ([document]), what the arguments of a field say ([arguments],
    [names_issue], [sets_state]), and which issueUpdate a server executes for it, directly
    or through inline and named fragments ([executes]).  Left out is what the code reads
    differently: an inline fragment without a type condition, a comment between three dots
    or "fragment" and what follows, a comment among the arguments, an escaped triple quote
    in a block string.  The texts the scan returns are those of the updates executed
    ([document_texts]), and the id and the state read from one are those it says
    ([id_read], [state_read]). *)

Module Grammar.

(** ** Texts *)

Definition is_dot : Ascii.ascii → bool := byte_is 46.
Definition starts (p : Ascii.ascii → bool) (s : string) : bool := match s with String c _ => p c | EmptyString => false end.
Fixpoint every (p : Ascii.ascii → bool) (s : string) : bool :=
  match s with String c t => p c && every p t | EmptyString => true end.
Definition name_text (s : string) : bool := starts isGraphQLNameStart s && every isGraphQLNameContinue s.
Definition blanks (s : string) : bool := every is_blank s.
Definition comment (s : string) : bool := starts is_hash s && every (λ c, negb (is_newline c)) s.
Definition dquote : string := byte 34.
(** Bytes that neither open nor close anything, nor start a string or a comment. *)
Definition plain (c : Ascii.ascii) : bool :=
  negb (is_lparen c || is_rparen c || is_lbrace c || is_rbrace c || is_lbracket c || is_rbracket c || is_quote c || is_hash c).

(** What stands between the quotes of a string, and between the triple quotes of a block
    string without an escaped triple quote. *)
Inductive quoted : string → Prop :=
| q_end : quoted ""
| q_byte c s : is_quote c = false → is_backslash c = false → quoted s → quoted (String c s)
| q_escape b c s : is_backslash b = true → quoted s → quoted (String b (String c s)).
Inductive block : string → Prop :=
| b_end : block ""
| b_byte c s : is_quote c = false → (is_backslash c = true → s ≠ "") → block s → block (String c s)
| b_quote c s : is_quote c = true → s ≠ "" → starts is_quote s = false → block s → block (String c s)
| b_quotes c d s : is_quote c = true → is_quote d = true → s ≠ "" → starts is_quote s = false → block s → block (String c (String d s)).
Inductive literal : string → Prop :=
| lit_string body : quoted body → literal (dquote +:+ body +:+ dquote)
| lit_block body : block body → literal (dquote +:+ dquote +:+ dquote +:+ body +:+ dquote +:+ dquote +:+ dquote).

(** What stands between two brackets. *)
Inductive inside : string → Prop :=
| in_end : inside ""
| in_byte c s : plain c = true → inside s → inside (String c s)
| in_comment text s : comment text = true → starts is_newline s = true → inside s → inside (text +:+ s)
| in_literal lit s : literal lit → starts is_quote s = false → inside s → inside (lit +:+ s)
| in_parens a s : inside a → inside s → inside ("(" +:+ a +:+ ")" +:+ s)
| in_braces a s : inside a → inside s → inside ("{" +:+ a +:+ "}" +:+ s)
| in_brackets a s : inside a → inside s → inside ("[" +:+ a +:+ "]" +:+ s).

(** Blanks and comments between two tokens; what stands before a selection set. *)
Inductive gap : string → Prop :=
| g_end : gap ""
| g_blank c s : is_blank c = true → gap s → gap (String c s)
| g_comment text s : comment text = true → starts is_newline s = true → gap s → gap (text +:+ s).
Inductive header : string → Prop :=
| h_end : header ""
| h_byte c s : plain c = true → header s → header (String c s)
| h_comment text s : comment text = true → starts is_newline s = true → header s → header (text +:+ s)
| h_parens a s : inside a → header s → header ("(" +:+ a +:+ ")" +:+ s).

(** The arguments of a field, or the fields of an object: names and values. *)
Inductive val := VText (raw : string) | VVariable (name : string) | VObject (fields : list (string * val)) | VOther.
Definition word_byte (c : Ascii.ascii) : bool := isGraphQLNameContinue c || byte_is 45 c || byte_is 46 c || byte_is 43 c.
Definition separated (s : string) : Prop := s = "" ∨ starts is_blank s = true.
Inductive arguments : string → list (string * val) → Prop :=
| a_end : arguments "" []
| a_blank c s fs : is_blank c = true → arguments s fs → arguments (String c s) fs
| a_field name b b' raw v s fs :
    name_text name = true → blanks b = true → blanks b' = true → value raw v → separated s → arguments s fs →
    arguments (name +:+ b +:+ ":" +:+ b' +:+ raw +:+ s) ((name, v) :: fs)
with value : string → val → Prop :=
| v_literal lit : literal lit → value lit (VText lit)
| v_variable name : name_text name = true → value ("$" +:+ name) (VVariable name)
| v_object a fs : arguments a fs → value ("{" +:+ a +:+ "}") (VObject fs)
| v_list a : inside a → value ("[" +:+ a +:+ "]") VOther
| v_word w : starts word_byte w = true → every word_byte w = true → value w VOther.
(** ** Documents *)

(** What a selection set contains: an issueUpdate with its arguments, and the named
    fragments it spreads; what inline fragments contain is among it. *)
Inductive event := Updates (args : string) (fields : list (string * val)) | Spreads (name : string).

Inductive selections : string → list event → Prop :=
| s_end : selections "" []
| s_blank c s l : is_blank c = true → selections s l → selections (String c s) l
| s_comment text s l : comment text = true → starts is_newline s = true → selections s l → selections (text +:+ s) l
| s_alias name g s l : name_text name = true → gap g → selections s l → selections (name +:+ g +:+ ":" +:+ s) l
| s_update g a fs s l :
    gap g → arguments a fs → selections s l → selections ("issueUpdate" +:+ g +:+ "(" +:+ a +:+ ")" +:+ s) (Updates a fs :: l)
| s_field name s l :
    name_text name = true → name ≠ "issueUpdate" → starts isGraphQLNameContinue s = false → selections s l →
    selections (name +:+ s) l
| s_arguments a s l : inside a → selections s l → selections ("(" +:+ a +:+ ")" +:+ s) l
| s_directive name s l :
    name_text name = true → name ≠ "issueUpdate" → starts isGraphQLNameContinue s = false → selections s l →
    selections ("@" +:+ name +:+ s) l
| s_selections a s l : inside a → selections s l → selections ("{" +:+ a +:+ "}" +:+ s) l
| s_inline b h body s l l' :
    blanks b = true → header h → starts isGraphQLNameContinue h = false → selections body l → selections s l' →
    selections ("..." +:+ b +:+ "on" +:+ h +:+ "{" +:+ body +:+ "}" +:+ s) (l ++ l')
| s_spread b name s l :
    blanks b = true → name_text name = true → name ≠ "on" → starts isGraphQLNameContinue s = false → selections s l →
    selections ("..." +:+ b +:+ name +:+ s) (Spreads name :: l).

Inductive document : string → list (list event) → gmap string (list event) → Prop :=
| d_end : document "" [] ∅
| d_blank c s ms fs : is_blank c = true → document s ms fs → document (String c s) ms fs
| d_comment text s ms fs :
    comment text = true → s = "" ∨ starts is_newline s = true → document s ms fs → document (text +:+ s) ms fs
| d_mutation h body s l ms fs :
    header h → starts isGraphQLNameContinue h = false → selections body l → document s ms fs →
    document ("mutation" +:+ h +:+ "{" +:+ body +:+ "}" +:+ s) (l :: ms) fs
| d_fragment b name h body s l ms fs :
    blanks b = true → b ≠ "" → name_text name = true → header h → starts isGraphQLNameContinue h = false →
    selections body l → document s ms fs → fs !! name = None →
    document ("fragment" +:+ b +:+ name +:+ h +:+ "{" +:+ body +:+ "}" +:+ s) ms (<[name := l]> fs).

(** What the server runs for a selection set of mutation fields. *)
Inductive executes (fs : gmap string (list event)) : list event → string → list (string * val) → Prop :=
| ex_update l a f : Updates a f ∈ l → executes fs l a f
| ex_spread l n l' a f : Spreads n ∈ l → fs !! n = Some l' → executes fs l' a f → executes fs l a f.

(** ** Bytes and texts *)

#[local] Ltac by_bytes c := destruct c as [[] [] [] [] [] [] [] []]; vm_compute; try done; intuition congruence.
Lemma blank_plain c : is_blank c = true → plain c = true.
Proof. by_bytes c. Qed.
Lemma continue_plain c : isGraphQLNameContinue c = true → plain c = true.
Proof. by_bytes c. Qed.
Lemma plain_skip c t : plain c = true → skipIssueUpdateScanToken (String c t) = None.
Proof.
  unfold plain, skipIssueUpdateScanToken. destruct (is_hash c); [by rewrite !orb_true_r|].
  destruct (is_quote c); [by rewrite !orb_true_r|done].
Qed.
Lemma plain_byte c :
  plain c = true → is_lparen c = false ∧ is_rparen c = false ∧ is_lbrace c = false ∧ is_rbrace c = false ∧
                   is_lbracket c = false ∧ is_rbracket c = false ∧ is_quote c = false ∧ is_hash c = false.
Proof. unfold plain. rewrite negb_true_iff, !orb_false_iff. tauto. Qed.
Lemma blank_byte c :
  is_blank c = true → is_dot c = false ∧ isGraphQLNameContinue c = false ∧ isGraphQLNameStart c = false ∧ is_hash c = false ∧ is_quote c = false.
Proof. by_bytes c. Qed.
Lemma start_byte c :
  isGraphQLNameStart c = true → isGraphQLNameContinue c = true ∧ is_dot c = false ∧ is_blank c = false ∧ is_space c = false.
Proof. by_bytes c. Qed.
Lemma hash_byte c : is_hash c = true → is_newline c = false ∧ isGraphQLNameContinue c = false ∧ is_blank c = false ∧ is_quote c = false ∧ is_colon c = false ∧ is_lparen c = false.
Proof. by_bytes c. Qed.
Lemma newline_byte c : is_newline c = true → is_blank c = true.
Proof. unfold is_blank. by intros ->. Qed.

Lemma starts_app p s t : s ≠ "" → starts p (s +:+ t) = starts p s.
Proof. by destruct s. Qed.
Lemma starts_ne p s : starts p s = true → s ≠ "".
Proof. by destruct s. Qed.
Lemma starts_weaken p q s : (∀ c, p c = true → q c = false) → starts p s = true → starts q s = false.
Proof. destruct s as [|c s]; [done|]. simpl. auto. Qed.
Lemma str_app_empty s : s +:+ "" = s.
Proof. induction s as [|c s IH]; [done|]. by rewrite str_app_cons, IH. Qed.

Lemma name_ends n s : every isGraphQLNameContinue n = true → starts isGraphQLNameContinue s = false → name_bytes (n +:+ s) = (n, s).
Proof.
  intros Hn Hs. induction n as [|c n IH]; rewrite ?str_app_nil, ?str_app_cons.
  - destruct s as [|c s]; [done|]. simpl in *. by rewrite Hs.
  - simpl in Hn. apply andb_true_iff in Hn as [Hc Hn]. simpl. by rewrite Hc, IH.
Qed.
Lemma name_text_inv n : name_text n = true → ∃ c t, n = String c t ∧ isGraphQLNameStart c = true ∧ every isGraphQLNameContinue t = true.
Proof.
  destruct n as [|c t]; [done|]. unfold name_text. simpl. rewrite !andb_true_iff. intros (H1 & _ & H2). by exists c, t.
Qed.
Lemma name_scanned n s : name_text n = true → starts isGraphQLNameContinue s = false → scanGraphQLName (n +:+ s) = (n, s).
Proof. intros (c & t & -> & _ & Ht)%name_text_inv Hs. rewrite str_app_cons, scan_name_eq, name_ends by done. done. Qed.

Lemma comment_inv text : comment text = true → ∃ c t, text = String c t ∧ is_hash c = true ∧ every (λ c, negb (is_newline c)) t = true.
Proof. destruct text as [|c t]; [done|]. unfold comment. simpl. rewrite !andb_true_iff. intros (H1 & _ & H2). by exists c, t. Qed.
Lemma line_skipped t s : every (λ c, negb (is_newline c)) t = true → s = "" ∨ starts is_newline s = true → skipGraphQLLineComment (t +:+ s) = s.
Proof.
  intros Ht Hs. induction t as [|c t IH]; rewrite ?str_app_nil, ?str_app_cons.
  - destruct s as [|c s]; [done|]. destruct Hs as [?|Hs]; [done|]. simpl in *. by rewrite Hs.
  - simpl in Ht. apply andb_true_iff in Ht as [Hc%negb_true_iff Ht]. simpl. rewrite Hc. by apply IH.
Qed.
Lemma comment_skipped text s :
  comment text = true → s = "" ∨ starts is_newline s = true → skipIssueUpdateScanToken (text +:+ s) = Some s.
Proof.
  intros (c & t & -> & Hc & Ht)%comment_inv Hs. rewrite str_app_cons. unfold skipIssueUpdateScanToken. rewrite Hc.
  cbn [skipGraphQLLineComment]. destruct (hash_byte c Hc) as [-> _]. by rewrite line_skipped.
Qed.

Lemma quoted_skipped body s : quoted body → skip_quoted (body +:+ dquote +:+ s) = (s, false).
Proof.
  induction 1 as [|c t Hq Hb _ IH|b c t Hb _ IH]; [done|..]; rewrite !str_app_cons.
  - cbn [skip_quoted]. by rewrite Hb, Hq.
  - cbn [skip_quoted]. by rewrite Hb.
Qed.
Lemma not_triple c t : is_quote c = false → after_triple (String c t) = None.
Proof. intros H. unfold after_triple. destruct t as [|d [|e t]]; [done..|]. by rewrite H. Qed.
Lemma not_triple2 c d t : is_quote d = false → after_triple (String c (String d t)) = None.
Proof. intros H. unfold after_triple. destruct t as [|e t]; [done|]. by rewrite H, andb_false_r. Qed.
Lemma not_triple3 c d e t : is_quote e = false → after_triple (String c (String d (String e t))) = None.
Proof. intros H. unfold after_triple. by rewrite H, andb_false_r. Qed.
Lemma block_skipped body s : block body → skip_block (body +:+ dquote +:+ dquote +:+ dquote +:+ s) = s.
Proof.
  induction 1 as [|c t Hq _ _ IH|c t Hq Hne Hs _ IH|c d t Hc Hd Hne Hs _ IH]; [done|..]; rewrite !str_app_cons; cbn [skip_block].
  - by rewrite not_triple.
  - destruct t as [|d t]; [done|]. rewrite str_app_cons in *. by rewrite not_triple2.
  - destruct t as [|e t]; [done|]. rewrite str_app_cons in *. rewrite not_triple3, not_triple2 by done. done.
Qed.
Lemma literal_starts lit : literal lit → ∃ t, lit = String (Ascii.ascii_of_nat 34) t.
Proof. destruct 1; by eexists. Qed.
Lemma literal_string_skipped lit s : literal lit → starts is_quote s = false → skipGraphQLString (lit +:+ s) = (s, false).
Proof.
  intros H Hs. destruct H as [body Hb|body Hb].
  - rewrite <- !str_app_assoc. unfold skipGraphQLString.
    assert (after_triple (dquote +:+ body +:+ dquote +:+ s) = None) as ->.
    { change (dquote +:+ body +:+ dquote +:+ s) with (String (Ascii.ascii_of_nat 34) (body +:+ dquote +:+ s)).
      destruct Hb as [|c t Hq Hb _|b c t Hb _].
      - change ("" +:+ dquote +:+ s) with (String (Ascii.ascii_of_nat 34) s). destruct s as [|c s]; [done|]. by apply not_triple3.
      - rewrite str_app_cons. by apply not_triple2.
      - rewrite !str_app_cons. apply not_triple2. revert Hb. by_bytes b. }
    change (dquote +:+ body +:+ dquote +:+ s) with (String (Ascii.ascii_of_nat 34) (body +:+ dquote +:+ s)).
    by apply quoted_skipped.
  - rewrite <- !str_app_assoc. unfold skipGraphQLString.
    change (after_triple (dquote +:+ dquote +:+ dquote +:+ ?x)) with (Some x). cbv iota. by rewrite block_skipped.
Qed.
Lemma literal_skipped lit s : literal lit → starts is_quote s = false → skipIssueUpdateScanToken (lit +:+ s) = Some s.
Proof.
  intros H Hs. pose proof (literal_string_skipped lit s H Hs) as E. destruct (literal_starts lit H) as [t ->].
  rewrite str_app_cons in *. unfold skipIssueUpdateScanToken. by rewrite E.
Qed.

(** ** Brackets *)

Definition bracket_pair (o c : Ascii.ascii → bool) : Prop :=
  (o = is_lparen ∧ c = is_rparen) ∨ (o = is_lbrace ∧ c = is_rbrace) ∨ (o = is_lbracket ∧ c = is_rbracket).

Lemma inside_app a b : inside a → starts is_quote b = false → inside b → inside (a +:+ b).
Proof.
  intros Ha Hq Hb. induction Ha as [|c s Hc _ IH|t s Ht Hs _ IH|lit s Hl Hs _ IH|x s Hx _ _ IH|x s Hx _ _ IH|x s Hx _ _ IH].
  - done.
  - rewrite str_app_cons. by constructor.
  - rewrite <- str_app_assoc. constructor; [done| |done]. rewrite starts_app; [done|]. by eapply starts_ne.
  - rewrite <- str_app_assoc. constructor; [done| |done]. destruct s; [done|]. done.
  - rewrite <- !str_app_assoc. by apply in_parens.
  - rewrite <- !str_app_assoc. by apply in_braces.
  - rewrite <- !str_app_assoc. by apply in_brackets.
Qed.
Lemma inside_every p a s : (∀ c, p c = true → plain c = true) → every p a = true → inside s → inside (a +:+ s).
Proof.
  intros Hp. induction a as [|c a IH]; [done|]. simpl. rewrite andb_true_iff. intros [Hc Ha] Hs. rewrite str_app_cons.
  constructor; [by apply Hp|by apply IH].
Qed.
Lemma inside_blanks b s : blanks b = true → inside s → inside (b +:+ s).
Proof. apply inside_every, blank_plain. Qed.
Lemma inside_name_text n s : name_text n = true → inside s → inside (n +:+ s).
Proof. unfold name_text. rewrite andb_true_iff. intros [_ H]. revert H. apply inside_every, continue_plain. Qed.
Lemma inside_gap g s : gap g → inside s → inside (g +:+ s).
Proof.
  intros Hg Hs. induction Hg as [|c t Hc _ IH|t u Ht Hu _ IH]; [done|rewrite str_app_cons; constructor; [by apply blank_plain|done]|].
  rewrite <- str_app_assoc. constructor; [done| |done]. rewrite starts_app; [done|]. by eapply starts_ne.
Qed.
Lemma inside_header h s : header h → inside s → inside (h +:+ s).
Proof.
  intros Hh Hs. induction Hh as [|c t Hc _ IH|t u Ht Hu _ IH|a t Ha _ IH]; [done|rewrite str_app_cons; by constructor| |].
  - rewrite <- str_app_assoc. constructor; [done| |done]. rewrite starts_app; [done|]. by eapply starts_ne.
  - rewrite <- !str_app_assoc. by apply in_parens.
Qed.
Lemma separated_no_quote s : separated s → starts is_quote s = false.
Proof. intros [->|H]; [done|]. revert H. apply starts_weaken. intros c Hc. by destruct (blank_byte c Hc) as (_ & _ & _ & _ & ?). Qed.

Lemma arguments_inside s fs : arguments s fs → inside s
with value_inside raw v s : value raw v → separated s → inside s → inside (raw +:+ s).
Proof.
  - intros H. destruct H as [|c s fs Hc H|name b b' raw v s fs Hn Hb Hb' Hv Hs H].
    + constructor.
    + constructor; [by apply blank_plain|]. by eapply arguments_inside.
    + apply inside_name_text; [done|]. apply inside_blanks; [done|]. constructor; [done|]. apply inside_blanks; [done|].
      eapply value_inside; [exact Hv|done|]. by eapply arguments_inside.
  - intros H Hsep Hs. destruct H as [lit Hl|name Hn|a fs Ha|a Ha|w _ Hw].
    + apply in_literal; [done| |done]. by apply separated_no_quote.
    + rewrite str_app_cons, str_app_nil. constructor; [done|]. by apply inside_name_text.
    + rewrite <- !str_app_assoc. apply in_braces; [|done]. by eapply arguments_inside.
    + rewrite <- !str_app_assoc. by apply in_brackets.
    + apply (inside_every word_byte); [|done..]. intros c. by_bytes c.
Qed.

Lemma selections_inside s l : selections s l → inside s.
Proof.
  induction 1 as [|c s l Hc _ IH|t s l Ht Hs _ IH|name g s l Hn Hg _ IH|g a fs s l Hg Ha _ IH|name s l Hn _ _ _ IH|a s l Ha _ IH
    |name s l Hn _ _ _ IH|a s l Ha _ IH|b h body s l l' Hb Hh _ _ IHb _ IH|b name s l Hb Hn _ _ _ IH].
  - constructor.
  - constructor; [by apply blank_plain|done].
  - by constructor.
  - apply inside_name_text; [done|]. apply inside_gap; [done|]. by constructor.
  - apply (inside_name_text "issueUpdate"); [done|]. apply inside_gap; [done|]. apply in_parens; [by eapply arguments_inside|done].
  - by apply inside_name_text.
  - by apply in_parens.
  - constructor; [done|]. by apply inside_name_text.
  - by apply in_braces.
  - do 3 (constructor; [done|]). apply inside_blanks; [done|]. do 2 (constructor; [done|]).
    apply inside_header; [done|]. by apply in_braces.
  - do 3 (constructor; [done|]). apply inside_blanks; [done|]. by apply inside_name_text.
Qed.

(** A step of the bracket scanner. *)
Lemma enclosed_token o c fuel x y d r :
  skipIssueUpdateScanToken x = Some y → enclosed_loop o c fuel x d = Returned r →
  ∃ f, enclosed_loop o c f y d = Returned r.
Proof.
  intros E. destruct fuel as [|f], x as [|ch x]; try done. cbn [enclosed_loop]. rewrite E. by exists f.
Qed.
Lemma enclosed_byte o c fuel ch x d r :
  skipIssueUpdateScanToken (String ch x) = None → enclosed_loop o c fuel (String ch x) d = Returned r →
  ∃ f, (if o ch then enclosed_loop o c f x (d + 1)
        else if c ch then if d - 1 =? 0 then Returned x else enclosed_loop o c f x (d - 1)
        else enclosed_loop o c f x d) = Returned r.
Proof. intros E. destruct fuel as [|f]; [done|]. cbn [enclosed_loop]. rewrite E. by exists f. Qed.

Lemma enclosed_inside o c a : bracket_pair o c → inside a → ∀ fuel t d r,
  1 ≤ d → starts is_quote t = false → enclosed_loop o c fuel (a +:+ t) d = Returned r →
  ∃ f, enclosed_loop o c f t d = Returned r.
Proof.
  intros HP. assert (∀ ob cb x s fuel t d r, 
    (∀ fuel t d r, 1 ≤ d → starts is_quote t = false → enclosed_loop o c fuel (x +:+ t) d = Returned r →
       ∃ f, enclosed_loop o c f t d = Returned r) →
    (∀ fuel t d r, 1 ≤ d → starts is_quote t = false → enclosed_loop o c fuel (s +:+ t) d = Returned r →
       ∃ f, enclosed_loop o c f t d = Returned r) →
    (∀ t, skipIssueUpdateScanToken (String ob t) = None) → (∀ t, skipIssueUpdateScanToken (String cb t) = None) → is_quote cb = false →
    (o ob = true ∧ o cb = false ∧ c cb = true) ∨ (o ob = false ∧ o cb = false ∧ c ob = false ∧ c cb = false) →
    1 ≤ d → starts is_quote t = false → enclosed_loop o c fuel (String ob (x +:+ String cb (s +:+ t))) d = Returned r →
    ∃ f, enclosed_loop o c f t d = Returned r) as Hpair.
  { intros ob cb x s fuel t d r IHx IHs E1 E2 Hq HB Hd Ht H. apply enclosed_byte in H as [f H]; [|done].
    destruct HB as [(H1 & H2 & H3)|(H1 & H2 & H3 & H4)]; rewrite H1, ?H3 in H.
    - apply IHx in H as [f1 H]; [|lia|done]. apply enclosed_byte in H as [f2 H]; [|done]. rewrite H2, H3 in H.
      destruct (Z.eqb_spec (d + 1 - 1) 0) as [?|_]; [lia|]. replace (d + 1 - 1) with d in H by lia. by eapply IHs.
    - apply IHx in H as [f1 H]; [|lia|done]. apply enclosed_byte in H as [f2 H]; [|done]. rewrite H2, H4 in H. by eapply IHs. }
  induction 1 as [|ch s Hc _ IH|x s Hx Hs _ IH|lit s Hl Hs _ IH|x s _ IHx _ IH|x s _ IHx _ IH|x s _ IHx _ IH]; intros fuel t d r Hd Ht H.
  - by exists fuel.
  - rewrite str_app_cons in H. apply enclosed_byte in H as [f H]; [|by apply plain_skip].
    destruct (plain_byte ch Hc) as (H1 & H2 & H3 & H4 & H5 & H6 & _).
    destruct HP as [[-> ->]|[[-> ->]|[-> ->]]]; rewrite ?H1, ?H2, ?H3, ?H4, ?H5, ?H6 in H; by eapply IH.
  - rewrite <- str_app_assoc in H. apply (enclosed_token _ _ _ _ (s +:+ t)) in H as [f H]; [by eapply IH|].
    apply comment_skipped; [done|]. right. rewrite starts_app; [done|]. by eapply starts_ne.
  - rewrite <- str_app_assoc in H. apply (enclosed_token _ _ _ _ (s +:+ t)) in H as [f H]; [by eapply IH|].
    apply literal_skipped; [done|]. by destruct s.
  - rewrite <- !str_app_assoc in H. rewrite !str_app_cons, !str_app_nil in H. apply (Hpair (Ascii.ascii_of_nat 40) (Ascii.ascii_of_nat 41) x s fuel t d r); [done..| |done|done|exact H].
    destruct HP as [[-> ->]|[[-> ->]|[-> ->]]]; by auto.
  - rewrite <- !str_app_assoc in H. rewrite !str_app_cons, !str_app_nil in H. apply (Hpair (Ascii.ascii_of_nat 123) (Ascii.ascii_of_nat 125) x s fuel t d r); [done..| |done|done|exact H].
    destruct HP as [[-> ->]|[[-> ->]|[-> ->]]]; by auto.
  - rewrite <- !str_app_assoc in H. rewrite !str_app_cons, !str_app_nil in H. apply (Hpair (Ascii.ascii_of_nat 91) (Ascii.ascii_of_nat 93) x s fuel t d r); [done..| |done|done|exact H].
    destruct HP as [[-> ->]|[[-> ->]|[-> ->]]]; by auto.
Qed.

Lemma enclosed_scanned o c ob cb a t r :
  bracket_pair o c → o ob = true → o cb = false → c cb = true → is_quote cb = false →
  (∀ t, skipIssueUpdateScanToken (String ob t) = None) → (∀ t, skipIssueUpdateScanToken (String cb t) = None) → inside a →
  scanGraphQLEnclosedValue o c (String ob (a +:+ String cb t)) = Returned r → r = t.
Proof.
  intros HP H1 H2 H3 Hq E1 E2 Ha H. unfold scanGraphQLEnclosedValue in H. apply enclosed_byte in H as [f H]; [|done].
  rewrite H1 in H. apply (enclosed_inside o c a HP Ha) in H as [f1 H]; [|lia|exact Hq].
  apply enclosed_byte in H as [f2 H]; [|done]. rewrite H2, H3 in H. by injection H as ->.
Qed.
Lemma parens_scanned a t r : inside a → scanGraphQLEnclosedValue is_lparen is_rparen ("(" +:+ a +:+ ")" +:+ t) = Returned r → r = t.
Proof. intros Ha. rewrite !str_app_cons, !str_app_nil. apply (enclosed_scanned _ _ (Ascii.ascii_of_nat 40) (Ascii.ascii_of_nat 41)); try done. by left. Qed.
Lemma braces_scanned a t r : inside a → scanGraphQLEnclosedValue is_lbrace is_rbrace ("{" +:+ a +:+ "}" +:+ t) = Returned r → r = t.
Proof. intros Ha. rewrite !str_app_cons, !str_app_nil. apply (enclosed_scanned _ _ (Ascii.ascii_of_nat 123) (Ascii.ascii_of_nat 125)); try done. by right; left. Qed.
Lemma brackets_scanned a t r : inside a → scanGraphQLEnclosedValue is_lbracket is_rbracket ("[" +:+ a +:+ "]" +:+ t) = Returned r → r = t.
Proof. intros Ha. rewrite !str_app_cons, !str_app_nil. apply (enclosed_scanned _ _ (Ascii.ascii_of_nat 91) (Ascii.ascii_of_nat 93)); try done. by right; right. Qed.
Lemma inner_text_of ob a cb t : inner_text (String ob (a +:+ String cb t)) t = a.
Proof.
  unfold inner_text. rewrite str_length_app. cbn [String.length].
  replace (String.length a + S (String.length t) - String.length t - 1)%nat with (String.length a) by lia.
  rewrite str_take_split, str_take_all, Nat.sub_diag by done. cbn [str_take]. apply str_app_empty.
Qed.

(** ** Headers and gaps *)

Lemma open_token fuel x y r :
  skipIssueUpdateScanToken x = Some y → selection_open_loop fuel x = Returned r → x ≠ "" → ∃ f, selection_open_loop f y = Returned r.
Proof. intros E H Hx. destruct fuel as [|f], x as [|c x]; try done. cbn [selection_open_loop] in H. rewrite E in H. by exists f. Qed.
Lemma open_byte fuel c x r :
  plain c = true → selection_open_loop fuel (String c x) = Returned r → ∃ f, selection_open_loop f x = Returned r.
Proof.
  intros Hc H. destruct fuel as [|f]; [done|]. cbn [selection_open_loop] in H. rewrite plain_skip in H by done.
  destruct (plain_byte c Hc) as (H1 & _ & H2 & _). rewrite H1, H2 in H. by exists f.
Qed.
Lemma header_opens h : header h → ∀ fuel x r,
  selection_open_loop fuel (h +:+ "{" +:+ x) = Returned r → r = Some ("{" +:+ x).
Proof.
  induction 1 as [|c t Hc _ IH|t u Ht Hu _ IH|a t Ha _ IH]; intros fuel x r H.
  - destruct fuel as [|f]; [done|]. by injection H as <-.
  - rewrite str_app_cons in H. apply open_byte in H as [f H]; [|done]. by eapply IH.
  - rewrite <- str_app_assoc in H. eapply open_token in H as [f H]; [by eapply IH| |].
    + apply comment_skipped; [done|]. right. rewrite starts_app; [done|]. by eapply starts_ne.
    + by destruct (comment_inv t Ht) as (c & t' & -> & _).
  - rewrite <- !str_app_assoc in H. destruct fuel as [|f]; [done|].
    change ("(" +:+ ?y) with (String (Ascii.ascii_of_nat 40) y) in H. cbn [selection_open_loop] in H.
    apply out_bind_Returned in H as (next & E & H). apply parens_scanned in E as ->; [|done]. by eapply IH.
Qed.
Lemma body_scanned h body t r :
  header h → inside body → scanIssueUpdateBodyAfterHeader (h +:+ "{" +:+ body +:+ "}" +:+ t) = Returned r → r = Some (body, t).
Proof.
  intros Hh Hb H. unfold scanIssueUpdateBodyAfterHeader in H. apply out_bind_Returned in H as (found & E & H).
  apply header_opens in E as ->; [|done]. cbv iota in H. apply out_bind_Returned in H as (rest & E & H).
  apply braces_scanned in E as ->; [|done]. injection H as <-. do 2 f_equal.
  apply (inner_text_of (Ascii.ascii_of_nat 123) body (Ascii.ascii_of_nat 125) t).
Qed.

Lemma blanks_skipped b s : blanks b = true → skipGraphQLWhitespace (b +:+ s) = skipGraphQLWhitespace s.
Proof.
  induction b as [|c b IH]; [done|]. unfold blanks. cbn [every]. rewrite andb_true_iff. intros [Hc Hb]. rewrite str_app_cons.
  cbn [skipGraphQLWhitespace]. rewrite Hc. by apply IH.
Qed.
Lemma not_blank_kept s : starts is_blank s = false → skipGraphQLWhitespace s = s.
Proof. destruct s as [|c s]; [done|]. simpl. by intros ->. Qed.
(** Past a gap is what follows it, or a comment of it. *)
Lemma gap_skipped g s :
  gap g → starts is_blank s = false → skipGraphQLWhitespace (g +:+ s) = s ∨ starts is_hash (skipGraphQLWhitespace (g +:+ s)) = true.
Proof.
  intros Hg Hs. induction Hg as [|c t Hc _ IH|t u Ht Hu _ IH].
  - left. by apply not_blank_kept.
  - rewrite str_app_cons. simpl. by rewrite Hc.
  - right. destruct (comment_inv t Ht) as (c & t' & -> & Hc & _). rewrite <- str_app_assoc, str_app_cons. simpl.
    destruct (hash_byte c Hc) as (_ & _ & -> & _). done.
Qed.
Lemma update_arguments g a t x :
  gap g → inside a → argumentTextAfterName (g +:+ "(" +:+ a +:+ ")" +:+ t) = Returned x → x = a.
Proof.
  intros Hg Ha H. unfold argumentTextAfterName in H.
  destruct (gap_skipped g ("(" +:+ a +:+ ")" +:+ t) Hg eq_refl) as [E|E]; [rewrite E in H; clear E|].
  - apply out_bind_Returned in H as (rest & E & H). apply parens_scanned in E as ->; [|done]. injection H as <-.
    apply (inner_text_of (Ascii.ascii_of_nat 40) a (Ascii.ascii_of_nat 41) t).
  - destruct (skipGraphQLWhitespace _) as [|c u]; [done|]. simpl in E. destruct (hash_byte c E) as (_ & _ & _ & _ & _ & El). by rewrite El in H.
Qed.
Lemma alias_refused g s x : gap g → argumentTextAfterName (g +:+ ":" +:+ s) ≠ Returned x.
Proof.
  intros Hg. unfold argumentTextAfterName. destruct (gap_skipped g (":" +:+ s) Hg eq_refl) as [->|E]; [done|].
  destruct (skipGraphQLWhitespace _) as [|c u]; [done|]. simpl in E. destruct (hash_byte c E) as (_ & _ & _ & _ & _ & ->). done.
Qed.

(** ** The selection scanner *)

Section Scan.
Context (frags : gmap string string).
Notation scan := (selection_loop frags).

Lemma scan_token fuel v x y d p args out :
  skipIssueUpdateScanToken x = Some y → scan fuel v x d p args = Returned out → x ≠ "" →
  ∃ f, (f < fuel)%nat ∧ scan f v y d p args = Returned out.
Proof.
  intros E H Hx. destruct fuel as [|f], x as [|c x]; try done. cbn [selection_loop] in H. rewrite E in H. exists f. split; [lia|done].
Qed.
Lemma not_spread c x : is_dot c = false → CutPrefix (String c x) "..." = None.
Proof. by_bytes c. Qed.

(** A byte that neither opens nor closes a scanned bracket. *)
Lemma scan_byte fuel v c x d p args out :
  skipIssueUpdateScanToken (String c x) = None → updateIssueUpdateSelectionDepth c d p = None →
  (d =? 0) && (p =? 0) = true → is_dot c = false → isGraphQLNameStart c = false →
  scan fuel v (String c x) d p args = Returned out → ∃ f, (f < fuel)%nat ∧ scan f v x d p args = Returned out.
Proof.
  intros E1 E2 Hr Hd Hn H. destruct fuel as [|f]; [done|]. cbn [selection_loop] in H. rewrite E1, Hr, not_spread, E2, Hn in H by done.
  exists f. split; [lia|done].
Qed.
Lemma scan_inner_byte fuel v c x d p args out :
  skipIssueUpdateScanToken (String c x) = None → updateIssueUpdateSelectionDepth c d p = None → (d =? 0) && (p =? 0) = false →
  scan fuel v (String c x) d p args = Returned out → ∃ f, (f < fuel)%nat ∧ scan f v x d p args = Returned out.
Proof.
  intros E1 E2 Hr H. destruct fuel as [|f]; [done|]. cbn [selection_loop] in H. rewrite E1, Hr, E2 in H. exists f. split; [lia|done].
Qed.
Lemma scan_bracket fuel v c x d p d' p' args out :
  skipIssueUpdateScanToken (String c x) = None → is_dot c = false → updateIssueUpdateSelectionDepth c d p = Some (d', p') →
  scan fuel v (String c x) d p args = Returned out → ∃ f, (f < fuel)%nat ∧ scan f v x d' p' args = Returned out.
Proof.
  intros E1 Hd E2 H. destruct fuel as [|f]; [done|]. cbn [selection_loop] in H. rewrite E1, not_spread, E2 in H by done.
  exists f. split; [lia|]. by destruct (_ && _) in H.
Qed.

Lemma plain_depth c d p : plain c = true → updateIssueUpdateSelectionDepth c d p = None.
Proof.
  intros H. destruct (plain_byte c H) as (H1 & H2 & H3 & H4 & _). unfold updateIssueUpdateSelectionDepth. by rewrite H1, H2, H3, H4.
Qed.
Lemma scan_inside a : inside a → ∀ fuel v t d p args out,
  0 ≤ d → 0 ≤ p → 0 < d ∨ 0 < p → starts is_quote t = false → scan fuel v (a +:+ t) d p args = Returned out →
  ∃ f, (f ≤ fuel)%nat ∧ scan f v t d p args = Returned out.
Proof.
  assert (∀ d p, 0 ≤ d → 0 ≤ p → 0 < d ∨ 0 < p → (d =? 0) && (p =? 0) = false) as Hroot.
  { intros d p Hd Hp H. apply andb_false_iff. rewrite !Z.eqb_neq. lia. }
  induction 1 as [|c s Hc _ IH|x s Hx Hs _ IH|lit s Hl Hs _ IH|x s _ IHx _ IH|x s _ IHx _ IH|x s _ IHx _ IH];
    intros fuel v t d p args out Hd Hp Hdp Ht H.
  - by exists fuel.
  - rewrite str_app_cons in H. apply scan_inner_byte in H as (f & Hf & H); [|by apply plain_skip|by apply plain_depth|by apply Hroot].
    apply IH in H as (f' & Hf' & H); [|done..]. exists f'. split; [lia|done].
  - rewrite <- str_app_assoc in H. apply (scan_token _ _ _ (s +:+ t)) in H as (f & Hf & H).
    + apply IH in H as (f' & Hf' & H); [|done..]. exists f'. split; [lia|done].
    + apply comment_skipped; [done|]. right. rewrite starts_app; [done|]. by eapply starts_ne.
    + by destruct (comment_inv x Hx) as (c & t' & -> & _).
  - rewrite <- str_app_assoc in H. apply (scan_token _ _ _ (s +:+ t)) in H as (f & Hf & H).
    + apply IH in H as (f' & Hf' & H); [|done..]. exists f'. split; [lia|done].
    + apply literal_skipped; [done|]. by destruct s.
    + by destruct (literal_starts lit Hl) as (t' & ->).
  - rewrite <- !str_app_assoc, !str_app_cons, !str_app_nil in H. apply (scan_bracket _ _ _ _ _ _ d (p + 1)) in H as (f & Hf & H); [|done..].
    apply IHx in H as (f1 & Hf1 & H); [|lia..|done]. apply (scan_bracket _ _ _ _ _ _ d p) in H as (f2 & Hf2 & H); [|done..|].
    + apply IH in H as (f3 & Hf3 & H); [|done..]. exists f3. split; [lia|done].
    + unfold updateIssueUpdateSelectionDepth. simpl. destruct (Z.ltb_spec 0 (p + 1)); [|lia]. by replace (p + 1 - 1) with p by lia.
  - rewrite <- !str_app_assoc, !str_app_cons, !str_app_nil in H. apply (scan_bracket _ _ _ _ _ _ (d + 1) p) in H as (f & Hf & H); [|done..].
    apply IHx in H as (f1 & Hf1 & H); [|lia..|done]. apply (scan_bracket _ _ _ _ _ _ d p) in H as (f2 & Hf2 & H); [|done..|].
    + apply IH in H as (f3 & Hf3 & H); [|done..]. exists f3. split; [lia|done].
    + unfold updateIssueUpdateSelectionDepth. simpl. destruct (Z.ltb_spec 0 (d + 1)); [|lia]. by replace (d + 1 - 1) with d by lia.
  - rewrite <- !str_app_assoc, !str_app_cons, !str_app_nil in H.
    apply scan_inner_byte in H as (f & Hf & H); [|done..|by apply Hroot].
    apply IHx in H as (f1 & Hf1 & H); [|done..]. apply scan_inner_byte in H as (f2 & Hf2 & H); [|done..|by apply Hroot].
    apply IH in H as (f3 & Hf3 & H); [|done..]. exists f3. split; [lia|done].
Qed.

Lemma scan_blank fuel v c x args out :
  is_blank c = true → scan fuel v (String c x) 0 0 args = Returned out → ∃ f, (f < fuel)%nat ∧ scan f v x 0 0 args = Returned out.
Proof.
  intros Hc. destruct (blank_byte c Hc) as (H1 & _ & H2 & _). pose proof (blank_plain c Hc).
  apply scan_byte; [by apply plain_skip|by apply plain_depth|done..].
Qed.
Lemma scan_comment fuel v text x args out :
  comment text = true → starts is_newline x = true → scan fuel v (text +:+ x) 0 0 args = Returned out →
  ∃ f, (f < fuel)%nat ∧ scan f v x 0 0 args = Returned out.
Proof.
  intros Hc Hx H. eapply scan_token in H; [exact H|apply comment_skipped; [done|by right]|].
  by destruct (comment_inv text Hc) as (c & t' & -> & _).
Qed.
Lemma scan_gap g : gap g → ∀ fuel v x args out,
  scan fuel v (g +:+ x) 0 0 args = Returned out → ∃ f, (f ≤ fuel)%nat ∧ scan f v x 0 0 args = Returned out.
Proof.
  induction 1 as [|c t Hc _ IH|t u Ht Hu _ IH]; intros fuel v x args out H.
  - by exists fuel.
  - rewrite str_app_cons in H. apply scan_blank in H as (f & Hf & H); [|done]. apply IH in H as (f' & ? & H). exists f'. split; [lia|done].
  - rewrite <- str_app_assoc in H. apply scan_comment in H as (f & Hf & H); [|done|].
    + apply IH in H as (f' & ? & H). exists f'. split; [lia|done].
    + rewrite starts_app; [done|]. by eapply starts_ne.
Qed.
Lemma scan_parens fuel v a x args out :
  inside a → scan fuel v ("(" +:+ a +:+ ")" +:+ x) 0 0 args = Returned out →
  ∃ f, (f < fuel)%nat ∧ scan f v x 0 0 args = Returned out.
Proof.
  intros Ha H. rewrite !str_app_cons, !str_app_nil in H. apply (scan_bracket _ _ _ _ _ _ 0 1) in H as (f & Hf & H); [|done..].
  apply scan_inside in H as (f1 & Hf1 & H); [|done..|lia|done]. apply (scan_bracket _ _ _ _ _ _ 0 0) in H as (f2 & Hf2 & H); [|done..].
  exists f2. split; [lia|done].
Qed.
Lemma scan_braces fuel v a x args out :
  inside a → scan fuel v ("{" +:+ a +:+ "}" +:+ x) 0 0 args = Returned out →
  ∃ f, (f < fuel)%nat ∧ scan f v x 0 0 args = Returned out.
Proof.
  intros Ha H. rewrite !str_app_cons, !str_app_nil in H. apply (scan_bracket _ _ _ _ _ _ 1 0) in H as (f & Hf & H); [|done..].
  apply scan_inside in H as (f1 & Hf1 & H); [|done..|lia|done]. apply (scan_bracket _ _ _ _ _ _ 0 0) in H as (f2 & Hf2 & H); [|done..].
  exists f2. split; [lia|done].
Qed.
Lemma scan_name fuel v name x args out :
  name_text name = true → starts isGraphQLNameContinue x = false → scan fuel v (name +:+ x) 0 0 args = Returned out →
  ∃ f more, (f < fuel)%nat ∧ scan f v x 0 0 (args ++ more) = Returned out ∧
    if String.eqb name "issueUpdate" then ∃ a, argumentTextAfterName x = Returned a ∧ more = [a] else more = [].
Proof.
  intros Hn Hx H. pose proof (name_scanned name x Hn Hx) as E. destruct (name_text_inv name Hn) as (c & t & -> & Hc & _).
  rewrite str_app_cons in *. destruct fuel as [|f]; [done|]. cbn [selection_loop] in H.
  destruct (start_byte c Hc) as (Hcc & Hd & _). pose proof (continue_plain c Hcc) as Hp.
  rewrite plain_skip, not_spread, plain_depth, Hc, E in H by done. cbn [Z.eqb andb] in H.
  apply out_bind_Returned in H as (more & Em & H). exists f, more. split_and!; [lia|done|].
  destruct (String.eqb _ _); [|by injection Em as <-]. apply out_bind_Returned in Em as (a & Ea & [= <-]). by exists a.
Qed.

Lemma scan_spread fuel v b name x args out :
  blanks b = true → name_text name = true → starts isGraphQLNameContinue x = false →
  scan fuel v ("..." +:+ b +:+ name +:+ x) 0 0 args = Returned out →
  ∃ f, fuel = S f ∧
    if String.eqb name "on"
    then (let? found := scanIssueUpdateBodyAfterHeader x in
          match found with
          | None => scan f v x 0 0 args
          | Some (inner, rest) => let? more := scan f v inner 0 0 [] in scan f v rest 0 0 (args ++ more)
          end) = Returned out
    else ∃ more,
      match frags !! name with
      | Some inner => if bool_decide (name ∈ v) then Returned [] else scan f ({[name]} ∪ v) inner 0 0 []
      | None => Returned []
      end = Returned more ∧ scan f v x 0 0 (args ++ more) = Returned out.
Proof.
  intros Hb Hn Hx H. pose proof (name_scanned name x Hn Hx) as E.
  assert (skipGraphQLWhitespace (b +:+ name +:+ x) = name +:+ x) as Ew.
  { rewrite blanks_skipped by done. destruct (name_text_inv name Hn) as (c & t & -> & Hc & _). rewrite str_app_cons.
    apply not_blank_kept. simpl. by destruct (start_byte c Hc) as (_ & _ & -> & _). }
  assert (starts_name (name +:+ x) = true) as Es.
  { destruct (name_text_inv name Hn) as (c & t & -> & Hc & _). by rewrite str_app_cons. }
  destruct fuel as [|f]; [done|]. exists f. split; [done|].
  remember (b +:+ name +:+ x) as y eqn:Ey. clear Ey.
  change ("..." +:+ y) with (String (Ascii.ascii_of_nat 46) (".." +:+ y)) in H. cbn [selection_loop] in H.
  change (skipIssueUpdateScanToken _) with (@None string) in H.
  change (CutPrefix _ _) with (CutPrefix ("..." +:+ y) "...") in H.
  rewrite CutPrefix_of in H. cbn [Z.eqb andb] in H. rewrite Ew, Es, E in H. cbn [negb] in H.
  destruct (String.eqb name "on"); [done|]. apply out_bind_Returned in H as (more & Em & H). by exists more.
Qed.

(** ** What the scan of a selection set returns *)

(** The texts one event of a selection set contributes. *)
Definition part (fuel : nat) (v : gset string) (e : event) (xs : list string) : Prop :=
  match e with
  | Updates a _ => xs = [a]
  | Spreads n =>
      match frags !! n with
      | Some inner =>
          if bool_decide (n ∈ v) then xs = []
          else ∃ f, (f < fuel)%nat ∧ scan f ({[n]} ∪ v) inner 0 0 [] = Returned xs
      | None => xs = []
      end
  end.
Lemma part_mono f fuel v e xs : (f ≤ fuel)%nat → part f v e xs → part fuel v e xs.
Proof.
  intros Hf. destruct e as [a fs|n]; [done|]. simpl. destruct (frags !! n); [|done]. case_bool_decide; [done|].
  intros (g & Hg & E). exists g. split; [lia|done].
Qed.
Definition scanned (fuel : nat) (v : gset string) (l : list event) (args out : list string) : Prop :=
  ∃ parts, Forall2 (part fuel v) l parts ∧ out = args ++ concat parts.
Lemma scanned_mono f fuel v l args out : (f ≤ fuel)%nat → scanned f v l args out → scanned fuel v l args out.
Proof. intros Hf (parts & HP & E). exists parts. split; [|done]. eapply Forall2_impl; [exact HP|]. intros. by eapply part_mono. Qed.

Lemma selections_scanned s l : selections s l → ∀ fuel v args out,
  scan fuel v s 0 0 args = Returned out → scanned fuel v l args out.
Proof.
  induction 1 as [|c s l Hc _ IH|t s l Ht Hs _ IH|name g s l Hn Hg _ IH|g a fs s l Hg Ha _ IH|name s l Hn Hu Hs _ IH|a s l Ha _ IH
    |name s l Hn Hu Hs _ IH|a s l Ha _ IH|b h body s l l' Hb Hh Hh' Hbody IHb _ IH|b name s l Hb Hn Hon Hs _ IH]; intros fuel v args out H.
  - exists []. split; [constructor|]. rewrite app_nil_r. by destruct fuel; injection H as ->.
  - apply scan_blank in H as (f & Hf & H); [|done]. eapply scanned_mono; [|by apply IH]. lia.
  - apply scan_comment in H as (f & Hf & H); [|done..]. eapply scanned_mono; [|by apply IH]. lia.
  - apply scan_name in H as (f & more & Hf & H & Hm); [|done|].
    2: { destruct Hg as [|c t Hc _|t u Ht _ _]; [done|simpl; by destruct (blank_byte c Hc) as (_ & -> & _)|].
         destruct (comment_inv t Ht) as (c & t' & -> & Hc & _). simpl. by destruct (hash_byte c Hc) as (_ & -> & _). }
    destruct (String.eqb name "issueUpdate").
    { destruct Hm as (a & Ea & _). by apply alias_refused in Ea. }
    rewrite Hm, app_nil_r in H. apply scan_gap in H as (f1 & Hf1 & H); [|done]. rewrite str_app_cons, str_app_nil in H.
    apply scan_byte in H as (f2 & Hf2 & H); [|done..]. eapply scanned_mono; [|by apply IH]. lia.
  - apply (scan_name _ _ "issueUpdate") in H as (f & more & Hf & H & Hm); [|done|].
    2: { destruct Hg as [|c t Hc _|t u Ht _ _]; [done|simpl; by destruct (blank_byte c Hc) as (_ & -> & _)|].
         destruct (comment_inv t Ht) as (c & t' & -> & Hc & _). simpl. by destruct (hash_byte c Hc) as (_ & -> & _). }
    pose proof (arguments_inside _ _ Ha) as Hi. destruct Hm as (x & Ex & ->). apply update_arguments in Ex as ->; [|done..].
    apply scan_gap in H as (f1 & Hf1 & H); [|done]. apply scan_parens in H as (f2 & Hf2 & H); [|done].
    apply IH in H. eapply scanned_mono in H as (parts & HP & ->); [|instantiate (1 := fuel); lia].
    exists ([a] :: parts). split; [by constructor|]. cbn [concat]. by rewrite <- !app_assoc.
  - apply scan_name in H as (f & more & Hf & H & Hm); [|done..]. rewrite (proj2 (String.eqb_neq _ _) Hu) in Hm.
    rewrite Hm, app_nil_r in H. eapply scanned_mono; [|by apply IH]. lia.
  - apply scan_parens in H as (f & Hf & H); [|done]. eapply scanned_mono; [|by apply IH]. lia.
  - rewrite str_app_cons, str_app_nil in H. apply scan_byte in H as (f0 & Hf0 & H); [|done..].
    apply scan_name in H as (f & more & Hf & H & Hm); [|done..]. rewrite (proj2 (String.eqb_neq _ _) Hu) in Hm.
    rewrite Hm, app_nil_r in H. eapply scanned_mono; [|by apply IH]. lia.
  - apply scan_braces in H as (f & Hf & H); [|done]. eapply scanned_mono; [|by apply IH]. lia.
  - apply (scan_spread _ _ b "on") in H as (f & -> & H); [|done..|].
    2: { destruct h as [|c h]; [done|]. by rewrite str_app_cons. }
    cbn [String.eqb Ascii.eqb Bool.eqb] in H. apply out_bind_Returned in H as (found & E & H).
    apply body_scanned in E as ->; [|done|by eapply selections_inside]. cbv iota in H.
    apply out_bind_Returned in H as (more & E & H). apply IHb in E. apply IH in H.
    apply (scanned_mono f (S f)) in E as (p1 & HP1 & E1); [|lia]. apply (scanned_mono f (S f)) in H as (p2 & HP2 & ->); [|lia].
    exists (p1 ++ p2). split; [by apply Forall2_app|]. rewrite concat_app, E1. cbn [app]. by rewrite app_assoc.
  - apply scan_spread in H as (f & -> & H); [|done..]. rewrite (proj2 (String.eqb_neq _ _) Hon) in H.
    destruct H as (more & E & H). apply IH in H. apply (scanned_mono f (S f)) in H as (parts & HP & ->); [|lia].
    exists (more :: parts). split; [|cbn [concat]; by rewrite app_assoc]. constructor; [|done]. simpl.
    destruct (frags !! name) as [inner|]; [|by injection E as <-]. case_bool_decide; [by injection E as <-|]. exists f. split; [lia|done].
Qed.

(** ** Fragments *)

(** The fragments that a document's texts stand for. *)
Definition stand_for (fs : gmap string (list event)) : Prop :=
  ∀ n l, fs !! n = Some l → ∃ t, frags !! n = Some t ∧ selections t l.
Definition all_named (fs : gmap string (list event)) : Prop := ∀ n, is_Some (frags !! n) → is_Some (fs !! n).

(** An update reached by spreading the fragments [ns]. *)
Fixpoint path (fs : gmap string (list event)) (l : list event) (ns : list string) (a : string) (f : list (string * val)) : Prop :=
  match ns with
  | [] => Updates a f ∈ l
  | n :: ns => Spreads n ∈ l ∧ ∃ l', fs !! n = Some l' ∧ path fs l' ns a f
  end.
Lemma path_suffix fs l p n r a f : path fs l (p ++ n :: r) a f → ∃ l', fs !! n = Some l' ∧ path fs l' r a f.
Proof. revert l. induction p as [|m p IH]; intros l; cbn [app path]; [by intros [_ H]|]. intros (_ & l' & _ & H). by eapply IH. Qed.
Lemma path_shortest fs l ns a f : path fs l ns a f → ∃ ns', NoDup ns' ∧ path fs l ns' a f.
Proof.
  revert l. induction ns as [|n ns IH]; intros l; cbn [path]; [exists []; split; [constructor|done]|].
  intros (Hn & l' & El & H). destruct (IH _ H) as (ns' & HND & H'). destruct (decide (n ∈ ns')) as [Hin|Hnin].
  - apply list_elem_of_split in Hin as (p & r & ->). apply path_suffix in H' as (l2 & E2 & H'). exists (n :: r). split.
    + apply NoDup_app in HND. tauto.
    + split; [done|]. by exists l2.
  - exists (n :: ns'). split; [by constructor|]. split; [done|]. by exists l'.
Qed.
Lemma executes_path fs l a f : executes fs l a f ↔ ∃ ns, NoDup ns ∧ path fs l ns a f.
Proof.
  split.
  - intros H. assert (∃ ns, path fs l ns a f) as [ns Hp]; [|exact (path_shortest fs l ns a f Hp)].
    induction H as [l a f H|l n l' a f Hn El _ [ns IH]]; [by exists []|]. exists (n :: ns). split; [done|]. by exists l'.
  - intros (ns & _ & H). revert l H. induction ns as [|n ns IH]; intros l; cbn [path]; [apply ex_update|].
    intros (Hn & l' & El & H). eapply ex_spread; [done..|]. by apply IH.
Qed.

Lemma concat_elem {A} (l : list (list A)) x : x ∈ concat l ↔ ∃ xs, xs ∈ l ∧ x ∈ xs.
Proof.
  induction l as [|y l IH]; cbn [concat]; [set_solver|]. rewrite elem_of_app, IH. set_solver.
Qed.
Lemma scan_paths fs : stand_for fs → all_named fs → ∀ fuel v s l out,
  selections s l → scan fuel v s 0 0 [] = Returned out →
  ∀ a, a ∈ out ↔ ∃ f ns, NoDup ns ∧ (∀ n, n ∈ ns → n ∉ v) ∧ path fs l ns a f.
Proof.
  intros HF HA fuel. induction (lt_wf fuel) as [fuel _ IH]. intros v s l out Hs Hscan a.
  apply selections_scanned with (1 := Hs) in Hscan as (parts & HP & ->). cbn [app]. rewrite concat_elem. split.
  - intros (xs & Hxs & Ha). apply list_elem_of_lookup_1 in Hxs as (i & Hi).
    destruct (Forall2_lookup_r _ _ _ _ _ HP Hi) as (e & He & Hpart). apply list_elem_of_lookup_2 in He.
    destruct e as [b f|n]; simpl in Hpart.
    + subst xs. apply list_elem_of_singleton in Ha as ->. exists f, []. split_and!; [constructor|by intros n ?%elem_of_nil|done].
    + destruct (frags !! n) as [inner|] eqn:En; [|rewrite Hpart in Ha; by apply elem_of_nil in Ha].
      case_bool_decide as Hv; [rewrite Hpart in Ha; by apply elem_of_nil in Ha|]. destruct Hpart as (f0 & Hf0 & E).
      destruct (HA n) as [l' El']; [by rewrite En|]. destruct (HF n l' El') as (t & Et & Hl'). assert (t = inner) as -> by congruence.
      destruct (proj1 (IH f0 Hf0 _ _ _ _ Hl' E a) Ha) as (f & ns & HND & Hdis & Hpath). exists f, (n :: ns). split_and!.
      * constructor; [|done]. intros Hin. apply Hdis in Hin. set_solver.
      * intros m [->|Hm]%elem_of_cons; [done|]. apply Hdis in Hm. set_solver.
      * split; [done|]. by exists l'.
  - intros (f & ns & HND & Hdis & Hpath). destruct ns as [|n ns]; cbn [path] in Hpath.
    + apply list_elem_of_lookup_1 in Hpath as (i & Hi). destruct (Forall2_lookup_l _ _ _ _ _ HP Hi) as (xs & Hxs & Hpart).
      simpl in Hpart. exists xs. split; [by eapply list_elem_of_lookup_2|]. subst xs. by apply list_elem_of_singleton.
    + destruct Hpath as (Hn & l' & El' & Hpath). destruct (HF n l' El') as (inner & En & Hl').
      apply list_elem_of_lookup_1 in Hn as (i & Hi). destruct (Forall2_lookup_l _ _ _ _ _ HP Hi) as (xs & Hxs & Hpart).
      simpl in Hpart. rewrite En in Hpart. rewrite bool_decide_eq_false_2 in Hpart by (apply Hdis; by left).
      destruct Hpart as (f0 & Hf0 & E). exists xs. split; [by eapply list_elem_of_lookup_2|].
      apply (proj2 (IH f0 Hf0 _ _ _ _ Hl' E a)). apply NoDup_cons in HND as [Hnin HND]. exists f, ns. split_and!; [done| |done].
      intros m Hm. assert (m ∉ v) by (apply Hdis; by right). set_solver.
Qed.
End Scan.

(** ** Documents *)

Lemma header_not_name h t : starts isGraphQLNameContinue h = false → starts isGraphQLNameContinue (h +:+ "{" +:+ t) = false.
Proof. destruct h as [|c h]; [done|]. by rewrite str_app_cons. Qed.
Lemma document_token fuel x y doc0 doc :
  skipIssueUpdateScanToken x = Some y → x ≠ "" → document_loop fuel x doc0 = Returned doc → ∃ f, document_loop f y doc0 = Returned doc.
Proof.
  intros E Hx H. destruct fuel as [|f], x as [|c x]; try done. cbn [document_loop document_step] in H. rewrite E in H. by exists f.
Qed.
(** A keyword of a document and its handler. *)
Lemma document_keyword fuel k x doc0 doc :
  name_text k = true → starts isGraphQLNameContinue x = false → document_loop fuel (k +:+ x) doc0 = Returned doc →
  ∃ f next, (if String.eqb k "mutation" then scanMutationHeader x doc0
             else if String.eqb k "fragment" then scanFragmentHeader x doc0 else Returned (x, doc0)) = Returned next ∧
            document_loop f next.1 next.2 = Returned doc.
Proof.
  intros Hk Hx H. pose proof (name_scanned k x Hk Hx) as E. destruct (name_text_inv k Hk) as (c & t & -> & Hc & _).
  rewrite str_app_cons in *. destruct fuel as [|f]; [done|]. cbn [document_loop] in H. apply out_bind_Returned in H as (next & En & H).
  exists f, next. split; [|done]. unfold document_step in En. destruct (start_byte c Hc) as (Hcc & _ & _).
  pose proof (continue_plain c Hcc) as Hp. rewrite plain_skip in En by done. destruct (plain_byte c Hp) as (_ & _ & H3 & _).
  rewrite H3, Hc, E in En. done.
Qed.

Definition read_as (doc0 doc : issueUpdateDocument) (ms : list (list event)) (fs : gmap string (list event)) : Prop :=
  (∃ bodies, mutationBodies doc = mutationBodies doc0 ++ bodies ∧ Forall2 selections bodies ms) ∧
  (∀ n, fs !! n = None → fragments doc !! n = fragments doc0 !! n) ∧ stand_for (fragments doc) fs.

Lemma document_read s ms fs : document s ms fs → ∀ fuel doc0 doc,
  document_loop fuel s doc0 = Returned doc → read_as doc0 doc ms fs.
Proof.
  induction 1 as [|c s ms fs Hc _ IH|t s ms fs Ht Hs _ IH|h body s l ms fs Hh Hh' Hb _ IH|b name h body s l ms fs Hb Hb' Hn Hh Hh' Hl _ IH Hfs];
    intros fuel doc0 doc H.
  - assert (doc = doc0) as -> by (destruct fuel; simpl in H; congruence). split_and!; [|done|by intros n l; rewrite lookup_empty].
    exists []. split; [by rewrite app_nil_r|constructor].
  - destruct fuel as [|f]; [done|]. cbn [document_loop document_step] in H. pose proof (blank_plain c Hc) as Hp.
    rewrite plain_skip in H by done. destruct (plain_byte c Hp) as (_ & _ & H3 & _), (blank_byte c Hc) as (_ & _ & H4 & _).
    rewrite H3, H4 in H. simpl in H. eapply IH. exact H.
  - eapply document_token in H as [f H]; [by eapply IH|by apply comment_skipped|].
    by destruct (comment_inv t Ht) as (c & t' & -> & _).
  - apply (document_keyword _ "mutation") in H as (f & next & En & H); [|done|by apply header_not_name].
    cbn [String.eqb Ascii.eqb Bool.eqb] in En. unfold scanMutationHeader in En. apply out_bind_Returned in En as (found & E & En).
    apply body_scanned in E as ->; [|done|by eapply selections_inside]. injection En as <-.
    destruct (IH _ _ _ H) as ((bodies & Eb & HB) & HN & HS). split_and!; [|done|done].
    exists (body :: bodies). split; [|by constructor]. rewrite Eb. cbn. by rewrite <- app_assoc.
  - apply (document_keyword _ "fragment") in H as (f & next & En & H); [|done|].
    2: { destruct b as [|c b]; [done|]. unfold blanks in Hb. cbn [every] in Hb. apply andb_true_iff in Hb as [Hc _]. simpl.
         by destruct (blank_byte c Hc) as (_ & -> & _). }
    cbn [String.eqb Ascii.eqb Bool.eqb] in En. unfold scanFragmentHeader in En. apply out_bind_Returned in En as (found & E & En).
    unfold scanIssueUpdateFragmentDefinition in E. rewrite blanks_skipped in E by done.
    pose proof (name_scanned name _ Hn (header_not_name h (body +:+ "}" +:+ s) Hh')) as Es.
    destruct (name_text_inv name Hn) as (c & t & -> & Hc & _). rewrite str_app_cons in *.
    rewrite not_blank_kept in E by (simpl; by destruct (start_byte c Hc) as (_ & _ & -> & _)).
    cbn [starts_name] in E. rewrite Hc, Es in E. cbn [negb] in E. apply out_bind_Returned in E as (found' & E & Ef).
    apply body_scanned in E as ->; [|done|by eapply selections_inside]. injection Ef as <-. injection En as <-.
    destruct (IH _ _ _ H) as (HB & HN & HS). cbn [fst snd fd_name fd_body] in *. split_and!; [done| |].
    + intros n Hfn. apply lookup_insert_None in Hfn as [Hfn Hne]. rewrite HN by done. cbn. by rewrite lookup_insert_ne.
    + intros n l' [[<- <-]|[Hne Hl']]%lookup_insert_Some; [|by apply HS]. exists body. split; [|done]. rewrite HN by done. cbn.
      by rewrite lookup_insert, decide_True.
Qed.

(** ** The error for "no issueUpdate" means that there is none *)

Definition finds {A} (r : Result A) : Prop := r ≠ Failed errIssueUpdateNotFound.
Lemma finds_bind {A B} (m : Result A) (k : A → Result B) : finds m → (∀ a, finds (k a)) → finds (let? x := m in k x).
Proof. unfold finds. destruct m; simpl; congruence. Qed.
Lemma enclosed_finds o c fuel x d : finds (enclosed_loop o c fuel x d).
Proof.
  revert x d. induction fuel as [|f IH]; intros [|ch x] d; try done. cbn [enclosed_loop].
  destruct (skipIssueUpdateScanToken _); [done|]. destruct (o ch); [done|]. destruct (c ch); [|done]. by destruct (_ =? _).
Qed.
Lemma open_finds fuel x : finds (selection_open_loop fuel x).
Proof.
  revert x. induction fuel as [|f IH]; intros [|c x]; try done. cbn [selection_open_loop].
  destruct (skipIssueUpdateScanToken _); [done|]. destruct (is_lparen c); [|by destruct (is_lbrace c)].
  apply finds_bind; [apply enclosed_finds|done].
Qed.
Lemma body_finds x : finds (scanIssueUpdateBodyAfterHeader x).
Proof.
  apply finds_bind; [apply open_finds|]. intros [open|]; [|done]. apply finds_bind; [apply enclosed_finds|done].
Qed.
Lemma document_finds fuel x doc : finds (document_loop fuel x doc).
Proof.
  revert x doc. induction fuel as [|f IH]; intros [|c x] doc; try done. cbn [document_loop]. apply finds_bind; [|intros []; apply IH].
  unfold document_step. destruct (skipIssueUpdateScanToken _); [done|]. destruct (is_lbrace c); [apply finds_bind; [apply enclosed_finds|done]|].
  destruct (isGraphQLNameStart c); [|done]. cbn [negb]. destruct (scanGraphQLName _) as [name next].
  destruct (String.eqb name "mutation"); [apply finds_bind; [apply body_finds|done]|].
  destruct (String.eqb name "fragment"); [|done]. unfold scanFragmentHeader, scanIssueUpdateFragmentDefinition.
  apply finds_bind; [|done]. destruct (negb _); [done|]. destruct (scanGraphQLName _). apply finds_bind; [apply body_finds|done].
Qed.
Lemma selections_find frags fuel v x d p args : finds (selection_loop frags fuel v x d p args).
Proof.
  revert v x d p args. induction fuel as [|f IH]; intros v [|c x] d p args; try done. cbn [selection_loop].
  destruct (skipIssueUpdateScanToken _); [apply IH|]. destruct (if _ : bool then _ else _).
  - destruct (negb _); [apply IH|]. destruct (scanGraphQLName _) as [name after]. destruct (String.eqb name "on").
    + apply finds_bind; [apply body_finds|]. intros [[inner rest]|]; [|apply IH]. apply finds_bind; [apply IH|intros; apply IH].
    + apply finds_bind; [|intros; apply IH]. destruct (frags !! name); [|done]. case_bool_decide; [done|apply IH].
  - destruct (updateIssueUpdateSelectionDepth c d p) as [[d' p']|]; [apply IH|]. destruct (_ && _); [|apply IH].
    destruct (scanGraphQLName _) as [name next]. apply finds_bind; [|intros; apply IH]. destruct (String.eqb _ _); [|done].
    apply finds_bind; [|done]. unfold argumentTextAfterName. destruct (skipGraphQLWhitespace next) as [|c' t]; [done|].
    destruct (is_lparen c'); [|done]. apply finds_bind; [apply enclosed_finds|done].
Qed.
Lemma bodies_find doc q bodies : finds (scan_bodies doc q bodies).
Proof. induction bodies as [|b bodies IH]; [done|]. apply finds_bind; [apply selections_find|]. intros. by apply finds_bind. Qed.

(** ** Every issueUpdate that is executed, and no other *)

(** The texts of the scan; no issueUpdate at all is an error of the code's. *)
Definition found_texts (query : string) (texts : list string) : Prop :=
  issueUpdateArgumentTexts query = Returned texts ∨ issueUpdateArgumentTexts query = Failed errIssueUpdateNotFound ∧ texts = [].

Lemma bodies_texts fs doc q bodies ms texts :
  stand_for (fragments doc) fs → all_named (fragments doc) fs → Forall2 selections bodies ms →
  scan_bodies doc q bodies = Returned texts → ∀ a, a ∈ texts ↔ ∃ l f, l ∈ ms ∧ executes fs l a f.
Proof.
  intros HF HA HB. revert texts. induction HB as [|b l bodies ms Hb _ IH]; intros texts H a; cbn [scan_bodies] in H.
  { injection H as <-. split; [by intros ?%elem_of_nil|]. by intros (l & f & ?%elem_of_nil & _). }
  apply out_bind_Returned in H as (xs & Ex & H). apply out_bind_Returned in H as (more & Em & [= <-]).
  rewrite elem_of_app, (IH more Em a), (scan_paths _ fs HF HA _ _ _ _ _ Hb Ex a). split.
  - intros [(f & ns & HND & _ & HP)|(l' & f & Hl' & H)]; [|exists l', f; split; [by right|done]].
    exists l, f. split; [by left|]. apply executes_path. by exists ns.
  - intros (l' & f & [->|Hl']%elem_of_cons & H); [left|right; by exists l', f].
    apply executes_path in H as (ns & HND & HP). exists f, ns. split_and!; [done|set_solver|done].
Qed.
Lemma document_texts q ms fs texts :
  document q ms fs → found_texts q texts → ∀ a, a ∈ texts ↔ ∃ l f, l ∈ ms ∧ executes fs l a f.
Proof.
  intros HD H. assert (∃ doc, parseIssueUpdateDocument q = Returned doc ∧ scan_bodies doc q (mutationBodies doc) = Returned texts) as (doc & Ed & Es).
  { unfold found_texts, issueUpdateArgumentTexts in H. pose proof (document_finds (String.length q) q (Build_issueUpdateDocument [] ∅)) as Hf.
    fold (parseIssueUpdateDocument q) in Hf. unfold finds in Hf. destruct (parseIssueUpdateDocument q) as [doc|e|]; simpl in H.
    - pose proof (bodies_find doc q (mutationBodies doc)) as Hb. unfold finds in Hb. exists doc. split; [done|].
      destruct (scan_bodies doc q (mutationBodies doc)) as [[|x l]|e|]; simpl in H;
        destruct H as [H|[H1 H2]]; try congruence; by subst.
    - destruct H as [H|[H1 H2]]; congruence.
    - destruct H as [H|[H1 H2]]; congruence. }
  apply document_read with (1 := HD) in Ed as ((bodies & Eb & HB) & HN & HS). cbn in Eb. rewrite Eb in Es.
  apply (bodies_texts fs doc q bodies); [done| |done..]. intros n [t Ht]. destruct (fs !! n) eqn:E; [done|].
  rewrite HN in Ht by done. cbn in Ht. by rewrite lookup_empty in Ht.
Qed.

(** What is executed has arguments of the grammar. *)
Lemma selections_arguments s l a f : selections s l → Updates a f ∈ l → arguments a f.
Proof.
  induction 1 as [|c s l Hc _ IH|t s l Ht Hs _ IH|name g s l Hn Hg _ IH|g b fs s l Hg Ha _ IH|name s l Hn Hu Hs _ IH|x s l Ha _ IH
    |name s l Hn Hu Hs _ IH|x s l Ha _ IH|b h body s l l' Hb Hh Hh' Hbody IHb _ IH|b name s l Hb Hn Hon Hs _ IH]; intros H; auto.
  - by apply elem_of_nil in H.
  - apply elem_of_cons in H as [[= -> ->]|H]; auto.
  - apply elem_of_app in H as [H|H]; auto.
  - apply elem_of_cons in H as [[=]|H]; auto.
Qed.
Lemma document_selections q ms fs l : document q ms fs → l ∈ ms ∨ (∃ n, fs !! n = Some l) → ∃ t, selections t l.
Proof.
  induction 1 as [|c s ms fs Hc _ IH|t s ms fs Ht Hs _ IH|h body s l' ms fs Hh Hh' Hb _ IH|b name h body s l' ms fs Hb Hb' Hn Hh Hh' Hl _ IH Hfs];
    intros H; auto.
  - destruct H as [?%elem_of_nil|[n Hn]]; [done|]. by rewrite lookup_empty in Hn.
  - destruct H as [[->|H]%elem_of_cons|H]; [by exists body|auto|auto].
  - destruct H as [H|[n H]]; [auto|]. apply lookup_insert_Some in H as [[_ <-]|[_ H]]; [by exists body|]. apply IH. right. by exists n.
Qed.
Lemma executed_arguments q ms fs l a f : document q ms fs → l ∈ ms → executes fs l a f → arguments a f.
Proof.
  intros HD Hl H. assert (∃ t, selections t l) as Ht by (eapply document_selections; [done|by left]). clear Hl.
  induction H as [l a f H|l n l' a f Hn El _ IH]; [destruct Ht as [t Ht]; by eapply selections_arguments|].
  apply IH. eapply document_selections; [done|]. right. by exists n.
Qed.

(** ** What the arguments say *)

(** The first field of a name. *)
Fixpoint field (target : string) (fs : list (string * val)) : option val :=
  match fs with
  | [] => None
  | (name, v) :: fs => if String.eqb name target then Some v else field target fs
  end.
(** A text given as a literal, as Go reads it, or by a variable. *)
Definition text_of (variables : any_map) (v : val) (text : string) : Prop :=
  match v with
  | VText raw => Unquote raw = Some text
  | VVariable name => map_get variables name = AString text
  | _ => False
  end.
(** The id of the issue that an update names, and the state that it sets. *)
Definition names_issue (variables : any_map) (fs : list (string * val)) (id : string) : Prop :=
  ∃ v, field "id" fs = Some v ∧ text_of variables v id.
Definition sets_state (variables : any_map) (fs : list (string * val)) (state : string) : Prop :=
  match field "input" fs with
  | Some (VVariable name) => ∃ m, map_get variables name = AMap m ∧ map_get m "stateId" = AString state
  | Some (VObject input) => ∃ v, field "stateId" input = Some v ∧ text_of variables v state
  | _ => False
  end.

(** ** The argument scanner *)

Lemma separated_not p s : (∀ c, is_blank c = true → p c = false) → separated s → starts p s = false.
Proof. intros Hp [->|H]; [done|]. revert H. by apply starts_weaken. Qed.
Lemma word_bare w s : every word_byte w = true → separated s → scanGraphQLBareValueEnd (w +:+ s) = s.
Proof.
  intros Hw Hs. induction w as [|c w IH].
  - rewrite str_app_nil. destruct s as [|c s]; [done|]. destruct Hs as [?|Hs]; [done|]. simpl in *. by rewrite Hs.
  - cbn [every] in Hw. apply andb_true_iff in Hw as [Hc Hw]. rewrite str_app_cons. cbn [scanGraphQLBareValueEnd].
    assert (is_blank c || is_rbrace c || is_rbracket c || is_rparen c = false) as -> by (revert Hc; by_bytes c). by apply IH.
Qed.
Lemma value_starts raw v : value raw v → ∃ c t, raw = String c t ∧ is_blank c = false ∧ is_space c = false.
Proof.
  destruct 1 as [lit Hl|name Hn|a fs Ha|a Ha|w Hw _].
  - destruct (literal_starts lit Hl) as [t ->]. by exists (Ascii.ascii_of_nat 34), t.
  - rewrite str_app_cons. by eexists _, _.
  - rewrite str_app_cons. by eexists _, _.
  - rewrite str_app_cons. by eexists _, _.
  - destruct w as [|c w]; [done|]. simpl in Hw. exists c, w. split; [done|]. revert Hw. by_bytes c.
Qed.
Lemma value_scanned raw v s r :
  value raw v → separated s → scanGraphQLInputValueEnd (raw +:+ s) = Returned r → r = (s, false).
Proof.
  intros Hv Hs H. unfold scanGraphQLInputValueEnd in H. rewrite not_blank_kept in H.
  2: { destruct (value_starts raw v Hv) as (c & t & -> & Hc & _). rewrite str_app_cons. done. }
  destruct Hv as [lit Hl|name Hn|a fs Ha|a Ha|w Hw Hw'].
  - pose proof (literal_string_skipped lit s Hl (separated_no_quote s Hs)) as E. destruct (literal_starts lit Hl) as [t ->].
    rewrite str_app_cons in *. cbn [is_quote] in H. injection H as <-. exact E.
  - rewrite <- str_app_assoc in H. change ("$" +:+ (name +:+ s)) with (String (Ascii.ascii_of_nat 36) (name +:+ s)) in H.
    simpl in H. rewrite name_ends in H; [by injection H as <-| |].
    + unfold name_text in Hn. by apply andb_true_iff in Hn as [_ ?].
    + apply separated_not; [|done]. intros c Hc. by destruct (blank_byte c Hc) as (_ & -> & _).
  - rewrite <- !str_app_assoc in H. change ("{" +:+ ?y) with (String (Ascii.ascii_of_nat 123) y) in H. simpl in H.
    apply out_bind_Returned in H as (rest & E & [= <-]). apply braces_scanned in E as ->; [done|by eapply arguments_inside].
  - rewrite <- !str_app_assoc in H. change ("[" +:+ ?y) with (String (Ascii.ascii_of_nat 91) y) in H. simpl in H.
    apply out_bind_Returned in H as (rest & E & [= <-]). by apply brackets_scanned in E as ->.
  - pose proof (word_bare w s Hw' Hs) as E. destruct w as [|c w]; [done|]. rewrite str_app_cons in *. simpl in Hw.
    assert (is_quote c = false ∧ is_dollar c = false ∧ is_lbrace c = false ∧ is_lbracket c = false) as (H1 & H2 & H3 & H4)
      by (revert Hw; by_bytes c).
    rewrite H1, H2, H3, H4, E in H. by injection H as <-.
Qed.
Lemma arguments_skip s fs : arguments s fs → arguments (skipGraphQLWhitespace s) fs.
Proof.
  induction 1 as [|c s fs Hc _ IH|name b b' raw v s fs Hn Hb Hb' Hv Hs H _].
  - constructor.
  - cbn [skipGraphQLWhitespace]. by rewrite Hc.
  - rewrite not_blank_kept; [by econstructor|]. destruct (name_text_inv name Hn) as (c & t & -> & Hc & _). rewrite str_app_cons.
    simpl. by destruct (start_byte c Hc) as (_ & _ & -> & _).
Qed.
Lemma skip_not_blank s : starts is_blank (skipGraphQLWhitespace s) = false.
Proof. induction s as [|c s IH]; [done|]. simpl. by destruct (is_blank c) eqn:E. Qed.
Lemma next_field_arguments s fs : arguments s fs → arguments (nextGraphQLObjectLikeField s) fs.
Proof.
  intros H%arguments_skip. unfold nextGraphQLObjectLikeField. pose proof (skip_not_blank s) as Hb.
  destruct (skipGraphQLWhitespace s) as [|c t]; [done|]. simpl in Hb.
  assert (is_comma c = false) as -> by (revert Hb; by_bytes c). done.
Qed.
Lemma field_scanned s fs r : arguments s fs → scanGraphQLObjectLikeField s = Returned r →
  match r with
  | None => fs = []
  | Some f => ∃ v fs', fs = (f_name f, v) :: fs' ∧ value (f_rawValue f) v ∧ arguments (f_next f) fs'
  end.
Proof.
  induction 1 as [|c s fs Hc _ IH|name b b' raw v s fs Hn Hb Hb' Hv Hs Ha _]; intros H.
  - by injection H as <-.
  - apply IH. unfold scanGraphQLObjectLikeField in *. cbn [skipGraphQLWhitespace] in H. by rewrite Hc in H.
  - assert (starts isGraphQLNameContinue (b +:+ ":" +:+ b' +:+ raw +:+ s) = false) as Hstop.
    { destruct b as [|c b]; [done|]. unfold blanks in Hb. cbn [every] in Hb. apply andb_true_iff in Hb as [Hc _]. simpl.
      by destruct (blank_byte c Hc) as (_ & -> & _). }
    pose proof (name_scanned name _ Hn Hstop) as En. destruct (name_text_inv name Hn) as (c & t & -> & Hc & _).
    rewrite str_app_cons in *. destruct (start_byte c Hc) as (_ & _ & Hbc & _).
    unfold scanGraphQLObjectLikeField in H. rewrite not_blank_kept in H by done. rewrite Hc, En in H. cbn [negb] in H.
    rewrite (blanks_skipped b) in H by done. rewrite not_blank_kept in H by done. rewrite (str_app_cons _ "" _), str_app_nil in H.
    change (is_colon _) with true in H. cbv iota in H. rewrite (blanks_skipped b') in H by done.
    rewrite not_blank_kept in H; [|destruct (value_starts raw v Hv) as (d & u & -> & Hd & _); by rewrite str_app_cons].
    cbv zeta in H. apply out_bind_Returned in H as (e & E & H). apply value_scanned with (1 := Hv) in E as ->; [|done].
    injection H as <-. simpl. exists v, fs. split_and!; [done| |by apply next_field_arguments].
    unfold between. rewrite str_length_app, Nat.add_sub, str_take_split, str_take_all, Nat.sub_diag by done.
    cbn [str_take]. by rewrite str_app_empty.
Qed.
Lemma arguments_nil fs : arguments "" fs → fs = [].
Proof.
  remember "" as s eqn:E. destruct 1 as [| |name b b' raw v s fs Hn _ _ _ _ _]; [done..|].
  by destruct (name_text_inv name Hn) as (c & t & -> & _).
Qed.
Lemma field_found target s fs r : arguments s fs → graphQLObjectLikeFieldValueText s target = Returned r →
  match r with
  | Some raw => ∃ v, field target fs = Some v ∧ value raw v
  | None => field target fs = None
  end.
Proof.
  unfold graphQLObjectLikeFieldValueText. generalize (String.length s) as fuel. intros fuel. revert s fs.
  induction fuel as [|f IH]; intros s fs Ha H.
  - destruct s; [|done]. injection H as <-. by rewrite (arguments_nil _ Ha).
  - destruct s as [|c s]; [injection H as <-; by rewrite (arguments_nil _ Ha)|].
    cbn [field_loop] in H. apply out_bind_Returned in H as ([g|] & E & H); apply field_scanned with (1 := Ha) in E; [|by injection H as <-; subst].
    destruct E as (v & fs' & -> & Hv & Ha'). cbn [field]. destruct (String.eqb (f_name g) target); [|by apply (IH _ _ Ha' H)].
    injection H as <-. by exists v.
Qed.

(** ** Trimming *)

Lemma trim_right_keep p x : trim_right x ≠ "" → trim_right (p +:+ x) = p +:+ trim_right x.
Proof.
  intros Hx. induction p as [|c p IH]; [done|]. rewrite !str_app_cons. cbn [trim_right]. rewrite IH.
  destruct (p +:+ trim_right x) eqn:E; [|done]. destruct p; [|done]. by rewrite str_app_nil in E.
Qed.
Lemma trim_right_fixed x s : x ≠ "" → trim_right x = x → trim_right (x +:+ s) = x +:+ trim_right s.
Proof.
  induction x as [|c x IH]; [done|]. intros _ H. rewrite !str_app_cons. cbn [trim_right] in *. destruct x as [|d x].
  - cbn [trim_right] in H. rewrite !str_app_nil. destruct (is_space c) eqn:E; [done|]. by destruct (trim_right s).
  - assert (trim_right (String d x) = String d x) as Hx.
    { destruct (trim_right (String d x)); [by destruct (is_space c)|]. congruence. }
    rewrite IH by done. by rewrite str_app_cons.
Qed.
Lemma every_fixed p w : (∀ c, p c = true → is_space c = false) → every p w = true → trim_right w = w.
Proof.
  intros Hp. induction w as [|c w IH]; [done|]. cbn [every]. rewrite andb_true_iff. intros [Hc Hw]. cbn [trim_right]. rewrite IH by done.
  destruct w; [|done]. by rewrite Hp.
Qed.
Lemma value_fixed raw v : value raw v → trim_right raw = raw.
Proof.
  intros Hv. assert (∀ x e, trim_right e = e → e ≠ "" → trim_right (x +:+ e) = x +:+ e) as HA.
  { intros x e He Hne. rewrite trim_right_keep; by rewrite He. }
  destruct Hv as [lit Hl|name Hn|a fs Ha|a Ha|w Hw Hw'].
  - destruct Hl as [body _|body _]; [rewrite str_app_assoc; by apply HA|]. rewrite !str_app_assoc. by apply HA.
  - apply HA; [|by destruct name]. unfold name_text in Hn. apply andb_true_iff in Hn as [_ Hn].
    apply (every_fixed isGraphQLNameContinue); [|done]. intros c. by_bytes c.
  - rewrite str_app_assoc. by apply HA.
  - rewrite str_app_assoc. by apply HA.
  - apply (every_fixed word_byte); [|done]. intros c. by_bytes c.
Qed.
Lemma value_trimmed raw v : value raw v → TrimSpace raw = raw.
Proof.
  intros Hv. unfold TrimSpace. destruct (value_starts raw v Hv) as (c & t & -> & _ & Hc). cbn [trim_left]. rewrite Hc. by eapply value_fixed.
Qed.
Lemma arguments_trim_left s fs : arguments s fs → arguments (trim_left s) fs.
Proof.
  induction 1 as [|c s fs Hc H IH|name b b' raw v s fs Hn Hb Hb' Hv Hs H _].
  - constructor.
  - cbn [trim_left]. destruct (is_space c); [done|by constructor].
  - assert (∃ c t, name +:+ b +:+ ":" +:+ b' +:+ raw +:+ s = String c t ∧ is_space c = false) as (c & t & E & Hc).
    { destruct (name_text_inv name Hn) as (c & t & -> & Hc & _). rewrite str_app_cons. exists c. eexists. split; [done|]. by destruct (start_byte c Hc) as (_ & _ & _ & ?). }
    rewrite E. cbn [trim_left]. rewrite Hc, <- E. by econstructor.
Qed.
Lemma arguments_trim_right s fs : arguments s fs → arguments (trim_right s) fs.
Proof.
  induction 1 as [|c s fs Hc H IH|name b b' raw v s fs Hn Hb Hb' Hv Hs H IH].
  - constructor.
  - cbn [trim_right]. destruct (trim_right s) as [|d t]; [|by constructor]. destruct (is_space c); [done|by constructor].
  - assert (trim_right (raw +:+ s) = raw +:+ trim_right s) as E.
    { apply trim_right_fixed; [|by eapply value_fixed]. by destruct (value_starts raw v Hv) as (c & t & -> & _). }
    assert (raw +:+ trim_right s ≠ "") as Hne by (by destruct (value_starts raw v Hv) as (c & t & -> & _)).
    assert (∀ p x y, trim_right x = y → y ≠ "" → trim_right (p +:+ x) = p +:+ y ∧ p +:+ y ≠ "") as Hk.
    { intros p x y <- Hy. split; [by apply trim_right_keep|]. by destruct p. }
    destruct (Hk b' _ _ E Hne) as [E1 H1], (Hk ":" _ _ E1 H1) as [E2 H2], (Hk b _ _ E2 H2) as [E3 H3].
    destruct (Hk name _ _ E3 H3) as [-> _].
    econstructor; [done..| |done]. destruct s as [|c s]; [by left|]. destruct Hs as [?|Hs]; [done|].
    cbn [trim_right]. destruct (trim_right s); [|by right]. destruct (is_space c); [by left|by right].
Qed.
Lemma arguments_trim s fs : arguments s fs → arguments (TrimSpace s) fs.
Proof. intros H. by apply arguments_trim_right, arguments_trim_left. Qed.

(** ** The id and the state *)

Lemma required_text v what x : requiredGraphQLString v what = Returned x → ∃ text, v = AString text ∧ x = TrimSpace text ∧ x ≠ "".
Proof.
  unfold requiredGraphQLString, blank. destruct v as [|text|?|?|?|?|?|?|?|?|?]; try done.
  destruct (String.eqb_spec (TrimSpace text) "") as [E|E]; [done|]. intros [= <-]. by exists text.
Qed.
Lemma variable_name name : name_text name = true → scanGraphQLVariableName ("$" +:+ name) = (name, "").
Proof.
  unfold name_text. rewrite andb_true_iff. intros [_ Hn]. pose proof (name_ends name "" Hn eq_refl) as E.
  by rewrite str_app_empty in E.
Qed.
Lemma text_read raw v variables what x : value raw v → parseGraphQLStringLikeValue raw variables what = Returned x →
  ∃ text, text_of variables v text ∧ x = TrimSpace text ∧ x ≠ "".
Proof.
  intros Hv H. unfold parseGraphQLStringLikeValue in H. rewrite (value_trimmed raw v Hv) in H.
  destruct (after_triple raw) eqn:E3; [done|]. destruct Hv as [lit Hl|name Hn|a fs Ha|a Ha|w Hw Hw'].
  - destruct (literal_starts lit Hl) as [t Et]. rewrite Et in H at 1. change (is_quote _) with true in H. cbv iota in H.
    unfold parseGraphQLStringLiteral in H. destruct (skipGraphQLString _) as [rest past]. destruct (_ || _); [done|].
    destruct (Unquote lit) as [text|] eqn:Eu; [|done]. apply required_text in H as (y & [= <-] & H). by exists text.
  - rewrite str_app_cons, str_app_nil in H. cbv iota beta in H. change (is_quote _) with false in H. change (is_dollar _) with true in H.
    rewrite <- (str_app_nil name), <- str_app_cons in H. cbv iota in H. unfold parseGraphQLStringVariable in H. rewrite variable_name in H by done.
    cbn [negb String.eqb] in H. apply required_text in H as (text & Et & H). by exists text.
  - done.
  - done.
  - destruct w as [|c w]; [done|]. simpl in Hw. assert (is_quote c = false ∧ is_dollar c = false) as [H1 H2] by (revert Hw; by_bytes c).
    by rewrite H1, H2 in H.
Qed.
Lemma id_read a fs variables x : arguments a fs → parseIssueUpdateIssueID a variables = Returned x →
  ∃ id, names_issue variables fs id ∧ x = TrimSpace id ∧ x ≠ "".
Proof.
  intros Ha H. unfold parseIssueUpdateIssueID in H. apply out_bind_Returned in H as ([raw|] & E & H); [|done].
  apply field_found with (1 := Ha) in E as (v & Ef & Hv). destruct (text_read _ _ _ _ _ Hv H) as (id & Ht & Hx). exists id. split; [by exists v|done].
Qed.
Lemma state_read a fs variables x : arguments a fs → parseIssueUpdateStateID a variables = Returned x →
  ∃ state, sets_state variables fs state ∧ x = TrimSpace state ∧ x ≠ "".
Proof.
  intros Ha H. unfold parseIssueUpdateStateID in H. apply out_bind_Returned in H as ([raw|] & E & H); [|done].
  apply field_found with (1 := Ha) in E as (v & Ef & Hv). cbv zeta in H. rewrite (value_trimmed raw v Hv) in H.
  unfold sets_state. rewrite Ef. destruct Hv as [lit Hl|name Hn|inner fs' Hi|inner Hi|w Hw Hw'].
  - by destruct (literal_starts lit Hl) as [t ->].
  - rewrite str_app_cons, str_app_nil in H. cbv iota beta in H. change (is_dollar _) with true in H.
    rewrite <- (str_app_nil name), <- str_app_cons in H. cbv iota in H.
    unfold parseIssueUpdateVariableStateID in H. rewrite variable_name in H by done. cbn [negb String.eqb] in H.
    destruct (map_get variables name) as [|?|?|?|?|?|m|?|?|?|?] eqn:Em; try done. apply required_text in H as (st & Es & H). exists st. split; [by exists m|done].
  - rewrite str_app_cons, str_app_nil in H. cbv iota beta in H. change (is_dollar _) with false in H. cbv iota in H.
    unfold parseIssueUpdateLiteralStateID in H. change (is_lbrace _) with true in H. cbv iota in H.
    assert (inner +:+ "}" ≠ "") as Hne by (by destruct inner). rewrite (proj2 (String.eqb_neq _ _) Hne) in H.
    assert (str_take (String.length (inner +:+ "}") - 1) (inner +:+ "}") = inner) as Et.
    { rewrite str_length_app. cbn [String.length]. rewrite Nat.add_sub, str_take_split, str_take_all, Nat.sub_diag by done.
      cbn [str_take]. apply str_app_empty. }
    rewrite Et in H. cbv zeta in H. apply out_bind_Returned in H as ([raw|] & E & H); [|done].
    apply field_found with (1 := arguments_trim _ _ Hi) in E as (v & Ev & Hv).
    destruct (text_read _ _ _ _ _ Hv H) as (st & Ht & Hx). exists st. split; [by exists v|done].
  - done.
  - destruct w as [|c w]; [done|]. simpl in Hw. assert (is_dollar c = false ∧ is_lbrace c = false) as [H1 H2] by (revert Hw; by_bytes c).
    unfold parseIssueUpdateLiteralStateID in H. by rewrite H1, H2 in H.
Qed.
End Grammar.
