(* ===== verification/GraphQLGuard.v ===== *)
(** * The linear_graphql gate (internal/runner/linear_graphql_proxy.go,
      linear_graphql_current_issue_guard.go)

    What the agent's GraphQL calls must pass before they reach Linear: the operation
    count, the mutation opt-in and allow-list, and the guard that keeps the agent from
    moving its own issue back into an active state.  Then the dispatch, with the audit
    event of a successful mutation.  Linear's answers, the tracker refresh and the stop
    latch are arguments ([GuardEnv]), indexed by the number of external calls made
    before; JSON encoding and HTTP are part of them. *)

From S2P Require Import Prelude Tracker RetryPolicy Payload GoStd Types State Ops GraphQL GraphQLUpdate GraphQLProps.

(** ** Answers *)

(** The answer to a workflowStates lookup: no usable response, a status outside 2xx, or
    a decoded body with its node ids and whether it carries GraphQL errors. *)
Inductive LookupResponse :=
| LookupUnavailable
| LookupStatus (status : Z)
| LookupBody (nodes : list string) (errors : bool).

Inductive LookupError := errWorkflowStateNotFound | LookupFailed.
#[export] Instance LookupError_eq_dec : EqDecision LookupError.
Proof. solve_decision. Defined.

(** The answer to the agent's own request. *)
Inductive LinearResponse :=
| VariablesNotEncodable
| RequestNotBuilt
| TransportFailed
| ResponseTooLarge
| ResponseUnreadable
| ResponseStatus (status : Z)
| ResponseBody (decoded : option bool).

(** [g_refresh] and [g_stopLookup] are nil when not wired; [g_lookup] is the request of
    [lookupWorkflowStateIDs]. *)
Record GuardEnv := {
  g_refresh : option (nat → option IssueStateSnapshot);
  g_stopLookup : option (nat → option IssueStateSnapshot);
  g_lookup : nat → string → string → LookupResponse;
  g_dispatch : nat → LinearResponse
}.

(** ** State: calls made so far and the two caches *)

Record workflowStateIDCache := { ca_loaded : bool; ca_ids : gmap string string }.

(** [None] is a nil cache pointer. *)
Record GuardState := {
  gs_calls : nat;
  gs_activeCache : option workflowStateIDCache;
  gs_terminalCache : option workflowStateIDCache
}.
#[export] Instance eta_GuardState : Eta GuardState := fun r =>
  Build_GuardState (gs_calls r) (gs_activeCache r) (gs_terminalCache r).

Record currentIssueMutationGuard := {
  issueID : string;
  issueIdentifier : string;
  activeStates : list string;
  terminalStates : list string;
  teamKey : string
}.

Record linearGraphQLProxy := {
  allowMutations : bool;
  allowedMutations : gset string;
  currentIssueGuard : currentIssueMutationGuard
}.

Record linearGraphQLMutationRejected := {
  rej_OperationField : string;
  rej_Reason : string;
  rej_Found : bool;
  rej_State : string;
  rej_Terminal : bool
}.

Record currentIssueHandoffClassification := { nonActive : bool; terminalState : string }.
Definition no_handoff : currentIssueHandoffClassification :=
  {| nonActive := false; terminalState := "" |}.

Definition currentIssueRejectActiveStateUpdate := "current_issue_active_state_update".
Definition currentIssueRejectUnsupportedShape := "unsupported_issue_update_shape".
Definition currentIssueRejectRefreshFailed := "current_issue_state_refresh_failed".
Definition currentIssueRejectMissing := "current_issue_state_missing".
Definition currentIssueRejectTerminal := "current_issue_terminal".
Definition currentIssueRejectNotActive := "current_issue_not_active".
Definition currentIssueRejectOperatorStop := "operator_terminal_stop".
Definition currentIssueRejectStateLookupFailed := "active_state_lookup_failed".

Definition reject_bare (reason : string) : linearGraphQLMutationRejected :=
  {| rej_OperationField := "issueUpdate"; rej_Reason := reason; rej_Found := false;
     rej_State := ""; rej_Terminal := false |}.
Definition reject_snapshot (reason : string) (s : IssueStateSnapshot) : linearGraphQLMutationRejected :=
  {| rej_OperationField := "issueUpdate"; rej_Reason := reason; rej_Found := snap_Found s;
     rej_State := snap_State s; rej_Terminal := snap_Terminal s |}.

Definition currentIssueUnsupportedUpdateRejection := reject_bare currentIssueRejectUnsupportedShape.
Definition currentIssueStateLookupRejection := reject_snapshot currentIssueRejectStateLookupFailed.
Definition currentIssueActiveStateRejection := reject_snapshot currentIssueRejectActiveStateUpdate.

(** [currentIssueSnapshotRejection]: an empty reason is no rejection. *)
Definition currentIssueSnapshotRejection (s : IssueStateSnapshot) : linearGraphQLMutationRejected :=
  reject_snapshot
    (if snap_OperatorTerminalStop s then currentIssueRejectOperatorStop
     else if negb (snap_Found s) then currentIssueRejectMissing
     else if snap_Terminal s then currentIssueRejectTerminal
     else if negb (snap_Active s) then currentIssueRejectNotActive else "") s.

(** [linearGraphQLAllowSet]: nil and empty both mean no restriction. *)
Definition linearGraphQLAllowSet (names : list string) : gset string :=
  set_of (List.filter (fun n => negb (String.eqb n "")) (map TrimSpace names)).

(** ** Workflow state ids *)

(** [decodeWorkflowStateIDs]. *)
Definition decodeWorkflowStateIDs (nodes : list string) (errors : bool) : list string + LookupError :=
  if errors then inr LookupFailed
  else match List.filter (fun id => negb (String.eqb id "")) (map TrimSpace nodes) with
       | [] => inr errWorkflowStateNotFound
       | ids => inl ids
       end.

Section Guard.
Context (env : GuardEnv) (g : currentIssueMutationGuard).

(** [lookupWorkflowStateIDs] of the proxy: one request. *)
Definition lookup_state (stateName : string) (s : GuardState)
    : GuardState * (list string + LookupError) :=
  (s <| gs_calls ::= S |>,
   match g_lookup env (gs_calls s) stateName (teamKey g) with
   | LookupUnavailable => inr LookupFailed
   | LookupStatus _ => inr LookupFailed
   | LookupBody nodes errors => decodeWorkflowStateIDs nodes errors
   end).

(** [lookupWorkflowStateIDs] and [lookupOptionalWorkflowStateIDs] of the guard: the
    optional one skips a state that Linear does not know. *)
Fixpoint lookup_states (optional : bool) (states : list string) (ids : gmap string string)
    (s : GuardState) : GuardState * (gmap string string + LookupError) :=
  match states with
  | [] => (s, inl ids)
  | state :: rest =>
      let state := TrimSpace state in
      if String.eqb state "" then lookup_states optional rest ids s
      else
        let '(s, res) := lookup_state state s in
        match res with
        | inl stateIDs =>
            lookup_states optional rest (fold_left (fun m id => <[id := state]> m) stateIDs ids) s
        | inr e => if optional && bool_decide (e = errWorkflowStateNotFound)
                   then lookup_states optional rest ids s else (s, inr e)
        end
  end.

(** [copyLoaded] then [store]: a failed lookup is not cached, and with a nil cache
    nothing is. *)
Definition resolve (optional : bool) (states : list string) (cache : option workflowStateIDCache)
    (s : GuardState) : GuardState * option workflowStateIDCache * (gmap string string + LookupError) :=
  match cache with
  | Some c =>
      if ca_loaded c then (s, cache, inl (ca_ids c))
      else
        let '(s, res) := lookup_states optional states ∅ s in
        (s, match res with inl ids => Some {| ca_loaded := true; ca_ids := ids |} | inr _ => cache end, res)
  | None => let '(s, res) := lookup_states optional states ∅ s in (s, None, res)
  end.

Definition resolveActiveStateIDs (s : GuardState) : GuardState * (gset string + LookupError) :=
  let '(s, cache, res) := resolve false (activeStates g) (gs_activeCache s) s in
  (s <| gs_activeCache := cache |>, match res with inl ids => inl (dom ids) | inr e => inr e end).

Definition resolveTerminalStateIDs (s : GuardState) : GuardState * (gmap string string + LookupError) :=
  let '(s, cache, res) := resolve true (terminalStates g) (gs_terminalCache s) s in
  (s <| gs_terminalCache := cache |>, res).

(** ** The current-issue guard *)

(** [Failed]: rejected; [Returned]: allowed, with the handoff it classifies. *)
Definition Checked := Outcome linearGraphQLMutationRejected currentIssueHandoffClassification.

Definition guard_enabled : bool :=
  negb (blank (issueID g)) && match g_refresh env with Some _ => true | None => false end.

Definition matchesCurrentIssue (id : string) : bool :=
  let id := TrimSpace id in
  negb (String.eqb id "") &&
  existsb (fun candidate => let candidate := TrimSpace candidate in
     negb (String.eqb candidate "") && EqualFold id candidate) [issueID g; issueIdentifier g].

Definition checkCurrentIssueStateChange (change : issueUpdateStateChange) (s : GuardState)
    : GuardState * Checked :=
  let n := gs_calls s in
  let s := s <| gs_calls ::= S |> in
  match (match g_refresh env with Some refresh => refresh n | None => None end) with
  | None => (s, Failed (reject_bare currentIssueRejectRefreshFailed))
  | Some snapshot =>
      let rejection := currentIssueSnapshotRejection snapshot in
      if negb (String.eqb (rej_Reason rejection) "") then (s, Failed rejection)
      else
        let '(s, active) := resolveActiveStateIDs s in
        match active with
        | inr _ => (s, Failed (currentIssueStateLookupRejection snapshot))
        | inl activeIDs =>
            if bool_decide (ch_StateID change ∈ activeIDs)
            then (s, Failed (currentIssueActiveStateRejection snapshot))
            else
              let '(s, terminal) := resolveTerminalStateIDs s in
              (s, Returned {| nonActive := true;
                    terminalState := match terminal with
                                     | inl ids => default "" (ids !! ch_StateID change)
                                     | inr _ => ""
                                     end |})
        end
  end.

Definition checkCurrentIssueUpdateArgs (args : string) (variables : any_map) (s : GuardState)
    : GuardState * Checked :=
  match parseIssueUpdateIssueID args variables with
  | Panicked => (s, Panicked)
  | Failed _ => (s, Failed currentIssueUnsupportedUpdateRejection)
  | Returned id =>
      if negb (matchesCurrentIssue id) then (s, Returned no_handoff)
      else match parseIssueUpdateArguments args variables with
           | Panicked => (s, Panicked)
           | Failed _ => (s, Failed currentIssueUnsupportedUpdateRejection)
           | Returned change => checkCurrentIssueStateChange change s
           end
  end.

Fixpoint check_updates (texts : list string) (variables : any_map)
    (handoff : currentIssueHandoffClassification) (s : GuardState) : GuardState * Checked :=
  match texts with
  | [] => (s, Returned handoff)
  | args :: rest =>
      let '(s, res) := checkCurrentIssueUpdateArgs args variables s in
      match res with
      | Returned h =>
          check_updates rest variables
            {| nonActive := nonActive handoff || nonActive h;
               terminalState := if String.eqb (terminalState h) "" then terminalState handoff
                                else terminalState h |} s
      | refused => (s, refused)
      end
  end.

Definition checkCurrentIssueUpdate (query : string) (variables : any_map) (s : GuardState)
    : GuardState * Checked :=
  if negb guard_enabled then (s, Returned no_handoff)
  else match issueUpdateArgumentTexts query with
       | Failed errIssueUpdateNotFound => (s, Returned no_handoff)
       | Failed _ => (s, Failed (reject_bare currentIssueRejectUnsupportedShape))
       | Panicked => (s, Panicked)
       | Returned texts => check_updates texts variables no_handoff s
       end.

(** [postOperatorTerminalStop], with the state the lookup is made in. *)
Definition postOperatorTerminalStop (s : GuardState) : GuardState * bool :=
  if blank (issueID g) then (s, false)
  else match g_stopLookup env with
       | None => (s, false)
       | Some lookup =>
           (s <| gs_calls ::= S |>,
            match lookup (gs_calls s) with Some snap => snap_OperatorTerminalStop snap | None => false end)
       end.
End Guard.

(** ** The gate *)

Inductive Refusal :=
| QueryRequired
| SeveralOperations
| SubscriptionRefused
| MutationsDisabled (field : string)
| FieldUnidentified
| MutationNotAllowed (field : string)
| CurrentIssueRefused (rejection : linearGraphQLMutationRejected).

Definition Authorized := Outcome Refusal currentIssueHandoffClassification.

Section Gate.
Context (env : GuardEnv) (p : linearGraphQLProxy).

Definition authorizeCurrentIssueMutation (query : string) (variables : any_map) (s : GuardState)
    : GuardState * Authorized :=
  let '(s, res) := checkCurrentIssueUpdate env (currentIssueGuard p) query variables s in
  (s, match res with
      | Returned h => Returned h
      | Failed r => Failed (CurrentIssueRefused r)
      | Panicked => Panicked
      end).

Definition authorizeMutationOperation (query : string) (op : linearGraphQLOperation)
    (variables : any_map) (s : GuardState) : GuardState * Authorized :=
  if negb (allowMutations p) then (s, Failed (MutationsDisabled (op_FieldName op)))
  else if negb (bool_decide (allowedMutations p = ∅)) then
    if String.eqb (op_FieldName op) "" then (s, Failed FieldUnidentified)
    else if bool_decide (op_FieldName op ∈ allowedMutations p)
    then authorizeCurrentIssueMutation query variables s
    else (s, Failed (MutationNotAllowed (op_FieldName op)))
  else authorizeCurrentIssueMutation query variables s.

Definition authorizeMutation (query : string) (op : linearGraphQLOperation) (variables : any_map)
    (s : GuardState) : GuardState * Authorized :=
  match op_Kind op with
  | linearGraphQLOperationSubscription => (s, Failed SubscriptionRefused)
  | linearGraphQLOperationMutation => authorizeMutationOperation query op variables s
  | linearGraphQLOperationQuery => (s, Returned no_handoff)
  end.

(** ** Dispatch and audit *)

Record ToolMutationAudit := {
  OperationField : string;
  CurrentIssueNonActiveStateUpdate : bool;
  CurrentIssueTerminalStateUpdate : bool;
  CurrentIssueTerminalState : string
}.

Inductive AuditEvent :=
| MutationEvent (audit : ToolMutationAudit)
| PostStopEvent (field : string).

(** Whether the tool call succeeded: a 2xx response with a JSON body and no errors. *)
Definition response_ok (r : LinearResponse) : bool :=
  match r with
  | ResponseBody (Some errors) => negb errors
  | _ => false
  end.

(** [dispatch]; the handoff is what [call] put in the context.  The sinks are wired. *)
Definition dispatch (op : linearGraphQLOperation) (handoff : currentIssueHandoffClassification)
    (s : GuardState) : GuardState * (bool * option AuditEvent) :=
  let ok := response_ok (g_dispatch env (gs_calls s)) in
  let s := s <| gs_calls ::= S |> in
  if ok && bool_decide (op_Kind op = linearGraphQLOperationMutation) then
    let '(s, stopped) := postOperatorTerminalStop env (currentIssueGuard p) s in
    let terminal := if nonActive handoff then TrimSpace (terminalState handoff) else "" in
    (s, (true, Some (if stopped then PostStopEvent (op_FieldName op)
                     else MutationEvent
                       {| OperationField := op_FieldName op;
                          CurrentIssueNonActiveStateUpdate := nonActive handoff;
                          CurrentIssueTerminalStateUpdate := negb (String.eqb terminal "");
                          CurrentIssueTerminalState := terminal |})))
  else (s, (ok, None)).

Inductive CallResult :=
| CallRefused (r : Refusal)
| CallPanicked
| CallDispatched (op : linearGraphQLOperation) (success : bool) (event : option AuditEvent).

(** [call]: the agent's entry point. *)
Definition call (rawQuery : string) (variables : any_map) (s : GuardState) : GuardState * CallResult :=
  let query := TrimSpace rawQuery in
  if String.eqb query "" then (s, CallRefused QueryRequired)
  else if 1 <? countGraphQLOperations query then (s, CallRefused SeveralOperations)
  else
    let op := parseLinearGraphQLOperation query in
    let '(s, auth) := authorizeMutation query op variables s in
    match auth with
    | Failed r => (s, CallRefused r)
    | Panicked => (s, CallPanicked)
    | Returned handoff =>
        let '(s, (ok, event)) := dispatch op handoff s in (s, CallDispatched op ok event)
    end.

(** [callRaw]: the harness's entry point, without the gate. *)
Definition callRaw (rawQuery : string) (s : GuardState) : GuardState * CallResult :=
  let query := TrimSpace rawQuery in
  if String.eqb query "" then (s, CallRefused QueryRequired)
  else if 1 <? countGraphQLOperations query then (s, CallRefused SeveralOperations)
  else
    let op := parseLinearGraphQLOperation query in
    let '(s, (ok, event)) := dispatch op no_handoff s in (s, CallDispatched op ok event).
End Gate.

(** * Correctness of the linear_graphql gate

    What an agent's document must be for its operation to reach Linear, and what an
    issueUpdate of the agent's own issue must be. *)


(** ** The document seen by the gate *)

Lemma scan_count query d :
  lex query = document_tokens d → Forall definition_ok d →
  countGraphQLOperations query = Z.of_nat (length (operations d)).
Proof.
  intros HL Hd. unfold countGraphQLOperations. rewrite count_tokens, HL by done.
  change {| c_count := 0; c_depth := 0; c_parenDepth := 0; c_operationHeader := false |}
    with (counting 0 false). by rewrite count_document.
Qed.

Lemma scan_parse query d :
  lex query = document_tokens d → Forall definition_ok d →
  parseLinearGraphQLOperation query = fold_left record_definition d (p_op initial_parser).
Proof.
  intros HL Hd. unfold parseLinearGraphQLOperation. rewrite parse_tokens.
  change (lex_fuel (String.length query) query) with (lex query). rewrite HL.
  change initial_parser with (parsing (p_op initial_parser)). by rewrite parse_document.
Qed.

(** Fragments leave the operation alone. *)
Lemma record_fragments d op :
  operations d = [] → fold_left record_definition d op = op.
Proof.
  unfold operations. revert op. induction d as [|x d IH]; intros op H; simpl in *; [done|].
  unfold record_definition at 2. destruct (is_operation x); [done|]. simpl. by apply IH.
Qed.

Lemma record_single d x :
  operations d = [x] → fold_left record_definition d (p_op initial_parser) = describe x.
Proof.
  unfold operations. induction d as [|y d IH]; intros H; simpl in *; [done|].
  unfold record_definition at 2. destruct (is_operation y) eqn:Ey; [|by apply IH].
  injection H as -> H. rewrite record_fragments by done. by destruct x.
Qed.

Lemma scan_document query d :
  lex query = document_tokens d → Forall definition_ok d →
  countGraphQLOperations query = Z.of_nat (length (operations d)) ∧
  parseLinearGraphQLOperation query = fold_left record_definition d (p_op initial_parser).
Proof. intros HL Hd. by rewrite (scan_parse query d HL Hd), (scan_count query d HL Hd). Qed.

(** C37: The scanners read the document.  Whatever comments, strings, variables and
    layout surround it, a query whose tokens spell a sequence of definitions (operations
    with names, variables and directives, shorthand queries, fragments, with nested
    selections and arguments) is counted as its number of operations; and when it has
    one, the parse is that operation's kind and the first name it selects, wherever it
    stands among the fragments; when it has none, a query with no field. *)
Theorem scan_roundtrip query d :
  lex query = document_tokens d → Forall definition_ok d →
  countGraphQLOperations query = Z.of_nat (length (operations d)) ∧
  (∀ x, operations d = [x] → parseLinearGraphQLOperation query = describe x) ∧
  (operations d = [] → parseLinearGraphQLOperation query =
     {| op_Kind := linearGraphQLOperationQuery; op_FieldName := "" |}).
Proof.
  intros HL Hd. destruct (scan_document query d HL Hd) as [-> ->]. split_and!; [done| |].
  - intros x. apply record_single.
  - apply record_fragments.
Qed.

Definition demo_query : string :=
  with_quotes "# mutation { x } in a comment
fragment F on Issue { id title(s: '} mutation { evil }') }
mutation Move($id: String!, $input: T = {a: 1}) @d(if: true) { issueUpdate(id: $id, input: {stateId: 's'}) { ...F } commentCreate { ok } }".
Definition demo_document : list definition :=
  [DFragment [IName "F"; IName "on"; IName "Issue"] [IName "id"; IName "title"; IParens [IName "s"]];
   DOperation linearGraphQLOperationMutation
     [IName "Move"; IParens [IName "String"; IName "T"; IBraces [IName "a"]]; IName "d"; IParens [IName "if"; IName "true"]]
     [IName "issueUpdate"; IParens [IName "id"; IName "input"; IBraces [IName "stateId"]];
      IBraces [IName "F"]; IName "commentCreate"; IBraces [IName "ok"]]].

Lemma scan_roundtrip_witness :
  countGraphQLOperations demo_query = 1 ∧
  parseLinearGraphQLOperation demo_query =
    {| op_Kind := linearGraphQLOperationMutation; op_FieldName := "issueUpdate" |}.
Proof.
  destruct (scan_roundtrip demo_query demo_document) as (HC & HP & _).
  - vm_compute. reflexivity.
  - repeat constructor.
  - split; [exact HC|]. exact (HP _ eq_refl).
Defined.

(** The issueUpdate scanner always ends.  For any text, whatever its brackets and
    however its fragments refer to each other (cycles included), the scan of the document,
    the expansion of its fragments and the reading of an argument text return a result,
    one of the code's errors, or panic: the bounds on the iterations are never what stops
    them. *)
Theorem update_scan_terminates query args variables :
  issueUpdateArgumentTexts query ≠ Failed OutOfFuel ∧
  parseIssueUpdateIssueID args variables ≠ Failed OutOfFuel ∧
  parseIssueUpdateArguments args variables ≠ Failed OutOfFuel.
Proof.
  split_and!; [apply argument_texts_total|apply issue_id_total|].
  apply terminates_bind; [apply issue_id_total|]. intros id _.
  apply terminates_bind; [apply state_id_total|]. auto with total.
Qed.

(** ** What reaches Linear *)

Section Gate.
Context (env : GuardEnv) (p : linearGraphQLProxy).

(** The operation conditions of the gate. *)
Definition permitted (op : linearGraphQLOperation) : Prop :=
  match op_Kind op with
  | linearGraphQLOperationQuery => True
  | linearGraphQLOperationSubscription => False
  | linearGraphQLOperationMutation =>
      allowMutations p = true ∧
      (allowedMutations p = ∅ ∨ op_FieldName op ≠ "" ∧ op_FieldName op ∈ allowedMutations p)
  end.

Lemma authorize_permitted query op variables s s' h :
  authorizeMutation env p query op variables s = (s', Returned h) → permitted op.
Proof.
  unfold authorizeMutation, authorizeMutationOperation, permitted.
  destruct (op_Kind op); [done| |done]. destruct (allowMutations p); simpl; [|done].
  case_bool_decide as HE; simpl; [by auto|].
  destruct (String.eqb_spec (op_FieldName op) ""); [done|].
  case_bool_decide; [by auto|done].
Qed.

Lemma call_dispatched raw variables s s' op ok ev :
  call env p raw variables s = (s', CallDispatched op ok ev) →
  let query := TrimSpace raw in
  query ≠ "" ∧ countGraphQLOperations query ≤ 1 ∧ op = parseLinearGraphQLOperation query ∧
  ∃ s1 h, authorizeMutation env p query op variables s = (s1, Returned h) ∧
          dispatch env p op h s1 = (s', (ok, ev)).
Proof.
  intros H query. revert H. unfold call. fold query.
  destruct (String.eqb_spec query ""); [done|].
  destruct (Z.ltb_spec 1 (countGraphQLOperations query)); [done|].
  destruct (authorizeMutation _ _ _ _ _ _) as [s1 [h| |]] eqn:EA; [|done|done].
  destruct (dispatch _ _ _ _ _) as [s2 [ok' ev']] eqn:ED. intros [= -> <- <- <-].
  split_and!; [done|done|done|]. by exists s1, h.
Qed.
End Gate.

(** The gate holds for documents.  When an agent's call is dispatched, its document
    has at most one operation and no subscription; and if it contains a mutation anywhere,
    mutations are enabled for the workflow and the first name the mutation selects is on
    the allow-list, unless there is no allow-list. *)
Theorem gate_admits env p raw variables s s' op ok ev d :
  call env p raw variables s = (s', CallDispatched op ok ev) →
  lex (TrimSpace raw) = document_tokens d → Forall definition_ok d →
  (length (operations d) ≤ 1)%nat ∧
  (∀ h b, DOperation linearGraphQLOperationSubscription h b ∉ d) ∧
  (∀ h b, DOperation linearGraphQLOperationMutation h b ∈ d →
     op = {| op_Kind := linearGraphQLOperationMutation; op_FieldName := first_name b |} ∧
     allowMutations p = true ∧ (allowedMutations p = ∅ ∨ first_name b ∈ allowedMutations p)).
Proof.
  intros HC HL Hd. apply call_dispatched in HC as (_ & Hn & -> & s1 & h & HA & _).
  apply authorize_permitted in HA.
  destruct (scan_document _ d HL Hd) as [HN HP]. rewrite HN in Hn.
  assert (∀ k hd b, DOperation k hd b ∈ d →
    parseLinearGraphQLOperation (TrimSpace raw) = {| op_Kind := k; op_FieldName := first_name b |}) as Hop.
  { intros k hd b Hin. rewrite HP, (record_single d (DOperation k hd b)); [done|]. assert (DOperation k hd b ∈ operations d) as Hin'.
    { unfold operations. apply list_elem_of_In, filter_In. split; [by apply list_elem_of_In|done]. }
    destruct (operations d) as [|x [|y l]]; simpl in Hn; [set_solver| |lia].
    by apply list_elem_of_singleton in Hin' as <-. }
  split_and!; [lia| |].
  - intros hd b Hin. rewrite (Hop _ _ _ Hin) in HA. done.
  - intros hd b Hin. rewrite (Hop _ _ _ Hin) in HA |- *. destruct HA as [H1 [H2|[_ H2]]]; auto.
Qed.

Definition demo_env : GuardEnv :=
  {| g_refresh := Some (λ _, Some (Build_IssueStateSnapshot true "In Progress" true false false));
     g_stopLookup := None;
     g_lookup := λ _ state _, if String.eqb state "Todo" then LookupBody ["t"] false else LookupBody ["d"] false;
     g_dispatch := λ _, ResponseBody (Some false) |}.
Definition demo_guard : currentIssueMutationGuard :=
  {| issueID := "A"; issueIdentifier := "AI-1"; activeStates := ["Todo"]; terminalStates := ["Done"];
     teamKey := "" |}.
Definition demo_proxy : linearGraphQLProxy :=
  {| allowMutations := true; allowedMutations := {["issueUpdate"]}; currentIssueGuard := demo_guard |}.
Definition demo_guard_state : GuardState :=
  {| gs_calls := 0; gs_activeCache := Some {| ca_loaded := false; ca_ids := ∅ |};
     gs_terminalCache := Some {| ca_loaded := false; ca_ids := ∅ |} |}.
Definition demo_variables : any_map := Some [("id", AString "B")].

Lemma gate_admits_witness :
  ∃ s' ok ev, call demo_env demo_proxy demo_query demo_variables demo_guard_state =
    (s', CallDispatched {| op_Kind := linearGraphQLOperationMutation; op_FieldName := "issueUpdate" |} ok ev) ∧
  (length (operations demo_document) ≤ 1)%nat.
Proof.
  do 3 eexists. split; [vm_compute; reflexivity|].
  eapply (gate_admits demo_env demo_proxy demo_query demo_variables demo_guard_state).
  - vm_compute. reflexivity.
  - vm_compute. reflexivity.
  - repeat constructor.
Defined.

(** ** The agent's own issue *)

Section OwnIssue.
Context (env : GuardEnv) (g : currentIssueMutationGuard).

(** The tracker answered for each active state of the configuration, and the ids of its
    answers are among [ids]. *)
Definition covers_active (ids : gmap string string) : Prop :=
  ∀ name, name ∈ activeStates g → blank name = false →
    ∃ n nodes, g_lookup env n (TrimSpace name) (teamKey g) = LookupBody nodes false ∧
      ∀ id, id ∈ map TrimSpace nodes → id ≠ "" → is_Some (ids !! id).
Definition active_cache_ok (s : GuardState) : Prop :=
  ∀ c, gs_activeCache s = Some c → ca_loaded c = true → covers_active (ca_ids c).

(** The issue is one to work on: a refresh among the calls from [lo] to [hi] shows it
    found, active, not terminal and not stopped by an operator. *)
Definition workable (lo hi : nat) : Prop :=
  ∃ refresh n snap, g_refresh env = Some refresh ∧ (lo ≤ n < hi)%nat ∧ refresh n = Some snap ∧
    snap_Found snap = true ∧ snap_Active snap = true ∧ snap_Terminal snap = false ∧ snap_OperatorTerminalStop snap = false.
(** For each active state of the configuration the tracker gave ids, not this one. *)
Definition not_active (state : string) : Prop :=
  ∀ name, name ∈ activeStates g → blank name = false →
    ∃ n nodes, g_lookup env n (TrimSpace name) (teamKey g) = LookupBody nodes false ∧ state ∉ map TrimSpace nodes.
Definition own_issue (id : string) : Prop :=
  ∃ candidate, candidate ∈ [issueID g; issueIdentifier g] ∧ blank candidate = false ∧
    EqualFold (TrimSpace id) (TrimSpace candidate) = true.

(** An update says which issue it is for, and one for the agent's own issue sets a state
    that is not an active one, while the issue is one to work on. *)
Definition update_allowed (lo hi : nat) (variables : any_map) (fs : list (string * Grammar.val)) : Prop :=
  ∃ id, Grammar.names_issue variables fs id ∧
    (own_issue id → workable lo hi ∧
       ∃ state, Grammar.sets_state variables fs state ∧ blank state = false ∧ not_active (TrimSpace state)).

(** The same of an argument text, as the code parses it. *)
Definition text_allowed (lo hi : nat) (variables : any_map) (args : string) : Prop :=
  ∃ id, parseIssueUpdateIssueID args variables = Returned id ∧
    (matchesCurrentIssue g id = true →
     ∃ change, parseIssueUpdateArguments args variables = Returned change ∧ workable lo hi ∧
       ∃ ids, covers_active ids ∧ ids !! ch_StateID change = None).

Lemma matches_own id : matchesCurrentIssue g (TrimSpace id) = true ↔ own_issue id.
Proof.
  unfold matchesCurrentIssue, own_issue. rewrite TrimSpace_idem, andb_true_iff, existsb_exists. split.
  - intros (_ & x & Hx & [Hb HE]%andb_true_iff). exists x. split; [by apply list_elem_of_In|]. split; [by apply negb_true_iff|done].
  - intros (x & Hx & Hb & HE). split.
    + apply negb_true_iff, String.eqb_neq. intros E. rewrite E in HE. unfold blank in Hb. apply String.eqb_neq in Hb.
      apply Hb. unfold EqualFold in HE. apply String.eqb_eq in HE. by destruct (TrimSpace x).
    + exists x. split; [by apply list_elem_of_In|]. apply andb_true_iff. split; [by apply negb_true_iff|done].
Qed.
Lemma names_issue_fun variables fs id id' : Grammar.names_issue variables fs id → Grammar.names_issue variables fs id' → id = id'.
Proof. intros (v & Hv & Ht) (v' & Hv' & Ht'). assert (v' = v) as -> by congruence. destruct v; simpl in *; congruence || done. Qed.

(** What the code admits of a text is admitted of what the text says. *)
Lemma text_update lo hi variables args fs :
  Grammar.arguments args fs → text_allowed lo hi variables args → update_allowed lo hi variables fs.
Proof.
  intros Ha (x & Hx & H). pose proof (Grammar.id_read _ _ _ _ Ha Hx) as (id & Hid & -> & _). exists id. split; [done|].
  intros Hown. destruct (H (proj2 (matches_own id) Hown)) as (change & Hc & Hw & ids & Hids & Hn). split; [done|].
  unfold parseIssueUpdateArguments in Hc. apply out_bind_Returned in Hc as (y & _ & Hc). apply out_bind_Returned in Hc as (z & Hz & [= <-]).
  destruct (Grammar.state_read _ _ _ _ Ha Hz) as (state & Hs & -> & Hne). exists state. split_and!; [done|by apply String.eqb_neq|].
  intros name Hin Hb. destruct (Hids name Hin Hb) as (n & nodes & El & Hall). exists n, nodes. split; [done|]. intros Hm.
  destruct (Hall _ Hm Hne) as [w Hw']. cbn in Hn. congruence.
Qed.

Lemma fold_ids_keep (state : string) stateIDs (m : gmap string string) id :
  is_Some (m !! id) ∨ id ∈ stateIDs → is_Some (fold_left (fun m id => <[id := state]> m) stateIDs m !! id).
Proof.
  revert m. induction stateIDs as [|x l IH]; intros m H; simpl; [destruct H as [?|?%elem_of_nil]; done|]. apply IH.
  destruct (decide (id = x)) as [->|Hne]; [left; rewrite lookup_insert, decide_True by done; by eexists|].
  rewrite lookup_insert_ne by done. destruct H as [?|[?|?]%elem_of_cons]; auto. congruence.
Qed.
Lemma lookup_states_covers states ids s s' ids' :
  lookup_states env g false states ids s = (s', inl ids') →
  (∀ id, is_Some (ids !! id) → is_Some (ids' !! id)) ∧
  ∀ name, name ∈ states → blank name = false →
    ∃ n nodes, g_lookup env n (TrimSpace name) (teamKey g) = LookupBody nodes false ∧
      ∀ id, id ∈ map TrimSpace nodes → id ≠ "" → is_Some (ids' !! id).
Proof.
  revert ids s. induction states as [|state rest IH]; intros ids s; cbn [lookup_states].
  { intros [= <- <-]. split; [done|]. by intros name ?%elem_of_nil. }
  destruct (String.eqb (TrimSpace state) "") eqn:Eb.
  { intros H. destruct (IH _ _ H) as [H1 H2]. split; [done|]. intros name [->|Hn]%elem_of_cons Hnb; [|by apply H2].
    unfold blank in Hnb. congruence. }
  unfold lookup_state. destruct (g_lookup env (gs_calls s) (TrimSpace state) (teamKey g)) as [|code|nodes errors] eqn:EL; [done..|].
  unfold decodeWorkflowStateIDs. destruct errors; [done|].
  destruct (List.filter _ (map TrimSpace nodes)) as [|x l] eqn:EF; [done|]. intros H.
  destruct (IH _ _ H) as [H1 H2]. split.
  - intros id Hid. apply H1, fold_ids_keep. by left.
  - intros name [->|Hn]%elem_of_cons Hnb; [|by apply H2]. exists (gs_calls s), nodes. split; [done|]. intros id Hin Hne.
    apply H1, fold_ids_keep. right. rewrite <- EF. apply list_elem_of_In, filter_In. split; [by apply list_elem_of_In|].
    by apply negb_true_iff, String.eqb_neq.
Qed.

(** A lookup makes calls and leaves the caches alone. *)
Lemma lookup_states_caches optional states ids s s' res :
  lookup_states env g optional states ids s = (s', res) →
  gs_activeCache s' = gs_activeCache s ∧ (gs_calls s ≤ gs_calls s')%nat.
Proof.
  revert ids s. induction states as [|state rest IH]; intros ids s; cbn [lookup_states]; [by intros [= <- _]|].
  destruct (String.eqb _ _); [by apply IH|].
  destruct (lookup_state env g (TrimSpace state) s) as [s1 r] eqn:EL.
  assert (gs_activeCache s1 = gs_activeCache s ∧ (gs_calls s ≤ gs_calls s1)%nat) as [<- Hle].
  { unfold lookup_state in EL. injection EL as <- _. split; [done|]. simpl. lia. }
  destruct r as [stateIDs|e]; [intros H; destruct (IH _ _ H); split; [done|lia]|].
  destruct (optional && _); [intros H; destruct (IH _ _ H); split; [done|lia]|]. by intros [= <- _].
Qed.

Lemma resolve_active s s' res :
  active_cache_ok s → resolveActiveStateIDs env g s = (s', res) →
  active_cache_ok s' ∧ (gs_calls s ≤ gs_calls s')%nat ∧ ∀ ids, res = inl ids → ∃ m, covers_active m ∧ ids = dom m.
Proof.
  intros HC. unfold resolveActiveStateIDs, resolve.
  destruct (gs_activeCache s) as [c|] eqn:Ec.
  - destruct (ca_loaded c) eqn:EL.
    + intros [= <- <-]. split_and!; [by intros c' [= <-]; apply HC|done|].
      intros ids [= <-]. exists (ca_ids c). split; [by apply HC|done].
    + destruct (lookup_states _ _ _ _ _ _) as [s1 [ids|e]] eqn:EQ; intros [= <- <-]; simpl;
        pose proof (lookup_states_caches _ _ _ _ _ _ EQ) as [_ Hle].
      * apply lookup_states_covers in EQ as [_ HF]. split_and!; [by intros c' [= <-] _|done|]. intros ids' [= <-]. by exists ids.
      * split_and!; [|done|done]. intros c' [= <-]. congruence.
  - destruct (lookup_states _ _ _ _ _ _) as [s1 [ids|e]] eqn:EQ; intros [= <- <-]; simpl;
      pose proof (lookup_states_caches _ _ _ _ _ _ EQ) as [_ Hle]; (split_and!; [done|done|]); [|done].
    apply lookup_states_covers in EQ as [_ HF]. intros ids' [= <-]. by exists ids.
Qed.

Lemma resolve_terminal s s' res :
  resolveTerminalStateIDs env g s = (s', res) → gs_activeCache s' = gs_activeCache s ∧ (gs_calls s ≤ gs_calls s')%nat.
Proof.
  unfold resolveTerminalStateIDs, resolve. destruct (gs_terminalCache s) as [c|].
  - destruct (ca_loaded c); [by intros [= <- _]|].
    destruct (lookup_states _ _ _ _ _ _) as [s1 r] eqn:E. apply lookup_states_caches in E.
    by intros [= <- _].
  - destruct (lookup_states _ _ _ _ _ _) as [s1 r] eqn:E. apply lookup_states_caches in E.
    by intros [= <- _].
Qed.

Lemma snapshot_accepted snap :
  rej_Reason (currentIssueSnapshotRejection snap) = "" →
  snap_Found snap = true ∧ snap_Active snap = true ∧ snap_Terminal snap = false ∧
  snap_OperatorTerminalStop snap = false.
Proof.
  unfold currentIssueSnapshotRejection. simpl.
  by destruct (snap_OperatorTerminalStop snap), (snap_Found snap), (snap_Terminal snap), (snap_Active snap).
Qed.

(** A check that began in [s]: its calls and its cache; what it admits, between the calls
    it made, and whether it was an update of the own issue. *)
Definition checked_ok (s s' : GuardState) (allowed : nat → nat → Prop) (own : bool) (res : Checked) : Prop :=
  active_cache_ok s' ∧ (gs_calls s ≤ gs_calls s')%nat ∧
  ∀ h, res = Returned h → allowed (gs_calls s) (gs_calls s') ∧ nonActive h = own.

Lemma workable_mono lo hi lo' hi' : (lo' ≤ lo)%nat → (hi ≤ hi')%nat → workable lo hi → workable lo' hi'.
Proof. intros H1 H2 (refresh & n & snap & HR & Hn & HS). exists refresh, n, snap. split; [done|]. split; [lia|done]. Qed.
Lemma text_allowed_mono lo hi lo' hi' variables args :
  (lo' ≤ lo)%nat → (hi ≤ hi')%nat → text_allowed lo hi variables args → text_allowed lo' hi' variables args.
Proof.
  intros H1 H2 (id & Hid & H). exists id. split; [done|]. intros Hm. destruct (H Hm) as (change & Hc & Hw & HR).
  exists change. split_and!; [done| |done]. by eapply workable_mono.
Qed.

Lemma change_checked change s s' res :
  active_cache_ok s → checkCurrentIssueStateChange env g change s = (s', res) →
  checked_ok s s' (λ lo hi, workable lo hi ∧ ∃ ids, covers_active ids ∧ ids !! ch_StateID change = None) true res.
Proof.
  intros HC. unfold checkCurrentIssueStateChange, checked_ok.
  destruct (g_refresh env) as [refresh|] eqn:ER; [|by intros [= <- <-]; split_and!; [|simpl; lia|]].
  destruct (refresh (gs_calls s)) as [snap|] eqn:ES; [|by intros [= <- <-]; split_and!; [|simpl; lia|]].
  destruct (String.eqb_spec (rej_Reason (currentIssueSnapshotRejection snap)) "") as [EJ|];
    simpl negb; cbv iota; [|by intros [= <- <-]; split_and!; [|simpl; lia|]].
  destruct (resolveActiveStateIDs _ _ _) as [s1 active] eqn:EA. apply resolve_active in EA as (HC1 & Hle1 & HA); [|done].
  simpl in Hle1. destruct active as [ids|e]; [|by intros [= <- <-]; split_and!; [|simpl; lia|]].
  case_bool_decide as HM; [by intros [= <- <-]; split_and!; [|simpl; lia|]|].
  destruct (resolveTerminalStateIDs _ _ _) as [s2 term] eqn:ET. apply resolve_terminal in ET as [ET Hle2].
  intros [= <- <-]. split_and!; [intros c; rewrite ET; apply HC1|lia|]. intros h [= <-]. split; [|done].
  destruct (HA ids eq_refl) as (m & Hm & ->). split.
  - exists refresh, (gs_calls s), snap. split; [done|]. split; [lia|]. split; [done|]. by apply snapshot_accepted.
  - exists m. split; [done|]. by apply not_elem_of_dom.
Qed.

(** Whether a text targets the agent's own issue. *)
Definition targets_own (variables : any_map) (args : string) : bool :=
  match parseIssueUpdateIssueID args variables with
  | Returned id => matchesCurrentIssue g id
  | _ => false
  end.

Lemma args_checked args variables s s' res :
  active_cache_ok s → checkCurrentIssueUpdateArgs env g args variables s = (s', res) →
  checked_ok s s' (λ lo hi, text_allowed lo hi variables args) (targets_own variables args) res.
Proof.
  intros HC. unfold checkCurrentIssueUpdateArgs, text_allowed, targets_own.
  destruct (parseIssueUpdateIssueID args variables) as [id|e|]; [|by intros [= <- <-]..].
  destruct (matchesCurrentIssue g id) eqn:EM; simpl negb; cbv iota.
  - destruct (parseIssueUpdateArguments args variables) as [change|e|]; [|by intros [= <- <-]..].
    intros H. apply change_checked in H as (H1 & Hle & H2); [|done]. split_and!; [done..|].
    intros h Hh. destruct (H2 h Hh). split; [|done]. exists id. split; [done|]. by exists change.
  - intros [= <- <-]. split_and!; [done..|]. intros h [= <-]. split; [|done]. exists id.
    split; [done|]. congruence.
Qed.

Lemma updates_checked texts variables handoff s s' res :
  active_cache_ok s → check_updates env g texts variables handoff s = (s', res) →
  checked_ok s s' (λ lo hi, Forall (text_allowed lo hi variables) texts)
    (nonActive handoff || existsb (targets_own variables) texts) res.
Proof.
  revert handoff s. induction texts as [|args rest IH]; intros handoff s HC; simpl.
  { intros [= <- <-]. split_and!; [done..|]. intros h [= <-]. by rewrite orb_false_r. }
  destruct (checkCurrentIssueUpdateArgs _ _ _ _ _) as [s1 r] eqn:EA.
  apply args_checked in EA as (HC1 & Hle1 & HA); [|done].
  destruct r as [h|e|]; [|by intros [= <- <-]..].
  destruct (HA h eq_refl) as [HU HN]. intros H. apply IH in H as (H1 & Hle2 & H2); [|done].
  split_and!; [done|lia|]. intros h' Hh'. destruct (H2 h' Hh') as [H3 H4]. simpl in H4.
  split; [|by rewrite H4, HN, orb_assoc]. constructor; [by eapply text_allowed_mono; [..|exact HU]; lia|].
  eapply Forall_impl; [exact H3|]. intros x. by apply text_allowed_mono; lia.
Qed.
End OwnIssue.

(** The gate makes calls and takes none back. *)
Lemma resolve_calls env g optional states cache s s' cache' res :
  resolve env g optional states cache s = (s', cache', res) → (gs_calls s ≤ gs_calls s')%nat.
Proof.
  unfold resolve. destruct cache as [c|]; [destruct (ca_loaded c); [by intros [= <- _ _]|]|];
    destruct (lookup_states _ _ _ _ _ _) as [s1 r] eqn:E; apply lookup_states_caches in E as [_ E]; by intros [= <- _ _].
Qed.
Lemma change_calls env g change s s' res : checkCurrentIssueStateChange env g change s = (s', res) → (gs_calls s ≤ gs_calls s')%nat.
Proof.
  unfold checkCurrentIssueStateChange. destruct (g_refresh env) as [refresh|]; [|intros [= <- _]; simpl; lia].
  destruct (refresh (gs_calls s)) as [snap|]; [|intros [= <- _]; simpl; lia]. destruct (negb _); [intros [= <- _]; simpl; lia|]. unfold resolveActiveStateIDs, resolveTerminalStateIDs.
  destruct (resolve _ _ false _ _ _) as [[s1 c1] a] eqn:E1. apply resolve_calls in E1. simpl in E1.
  destruct a as [ids|e]; [|intros [= <- _]; simpl; lia]. case_bool_decide; [intros [= <- _]; simpl; lia|].
  destruct (resolve _ _ true _ _ _) as [[s2 c2] t] eqn:E2. apply resolve_calls in E2. simpl in E2. intros [= <- _]. simpl. lia.
Qed.
Lemma updates_calls env g texts variables handoff s s' res :
  check_updates env g texts variables handoff s = (s', res) → (gs_calls s ≤ gs_calls s')%nat.
Proof.
  revert handoff s. induction texts as [|args rest IH]; intros handoff s; simpl; [by intros [= <- _]|].
  destruct (checkCurrentIssueUpdateArgs env g args variables s) as [s1 r] eqn:E.
  assert (gs_calls s ≤ gs_calls s1)%nat as Hle.
  { revert E. unfold checkCurrentIssueUpdateArgs. destruct (parseIssueUpdateIssueID args variables); [|by intros [= <- _]..].
    destruct (negb _); [by intros [= <- _]|]. destruct (parseIssueUpdateArguments args variables); [apply change_calls|by intros [= <- _]..]. }
  destruct r; [|by intros [= <- _]..]. intros H. apply IH in H. lia.
Qed.
Lemma authorize_calls env p query op variables s s' res :
  authorizeMutation env p query op variables s = (s', res) → (gs_calls s ≤ gs_calls s')%nat.
Proof.
  unfold authorizeMutation, authorizeMutationOperation.
  assert (∀ s2 r, authorizeCurrentIssueMutation env p query variables s = (s2, r) → (gs_calls s ≤ gs_calls s2)%nat) as H.
  { intros s2 r. unfold authorizeCurrentIssueMutation, checkCurrentIssueUpdate. destruct (negb _); [by intros [= <- _]|].
    destruct (issueUpdateArgumentTexts query) as [texts|[]|]; [|by intros [= <- _]..].
    destruct (check_updates _ _ _ _ _ s) as [s3 c] eqn:E. apply updates_calls in E. by intros [= <- _]. }
  destruct (op_Kind op); [by intros [= <- _]| |by intros [= <- _]]. destruct (negb _); [by intros [= <- _]|].
  destruct (negb _); [|apply H]. destruct (String.eqb _ _); [by intros [= <- _]|]. case_bool_decide; [apply H|by intros [= <- _]].
Qed.

(** What the gate checked of a dispatched mutation. *)
Lemma dispatched_checked env p raw variables s s' op ok ev :
  call env p raw variables s = (s', CallDispatched op ok ev) →
  op_Kind op = linearGraphQLOperationMutation →
  let g := currentIssueGuard p in
  guard_enabled env g = true → active_cache_ok env g s →
  ∃ texts, Grammar.found_texts (TrimSpace raw) texts ∧ active_cache_ok env g s' ∧
    Forall (text_allowed env g (gs_calls s) (gs_calls s') variables) texts ∧
    ∀ a, ev = Some (MutationEvent a) → CurrentIssueNonActiveStateUpdate a = existsb (targets_own g variables) texts.
Proof.
  intros HC Hk g Hg Hs. apply call_dispatched in HC as (_ & _ & Hop & s1 & h & HA & HD).
  assert (∃ texts, Grammar.found_texts (TrimSpace raw) texts ∧
    checked_ok env g s s1 (λ lo hi, Forall (text_allowed env g lo hi variables) texts)
      (existsb (targets_own g variables) texts) (Returned h)) as (texts & HT & HC1 & Hle & HF).
  { revert HA. unfold authorizeMutation, authorizeMutationOperation. rewrite Hk.
    assert (∀ s2 r, authorizeCurrentIssueMutation env p (TrimSpace raw) variables s = (s2, r) →
      r = Returned h → s2 = s1 → ∃ texts, Grammar.found_texts (TrimSpace raw) texts ∧
      checked_ok env g s s1 (λ lo hi, Forall (text_allowed env g lo hi variables) texts)
        (existsb (targets_own g variables) texts) (Returned h)) as H.
    { intros s2 r. unfold authorizeCurrentIssueMutation, checkCurrentIssueUpdate. fold g. rewrite Hg. simpl negb.
      cbv iota. destruct (issueUpdateArgumentTexts (TrimSpace raw)) as [texts|e|] eqn:ET.
      - destruct (check_updates env g texts variables no_handoff s) as [s3 c] eqn:EC.
        apply updates_checked in EC; [|done]. intros [= <- <-] Hr <-. exists texts. split; [by left|].
        destruct c; [|done..]. by injection Hr as ->.
      - destruct e; intros [= <- <-] [= <-] <-. exists []. split; [by right|].
        split_and!; [done..|]. by intros h' [= <-].
      - by intros [= <- <-]. }
    destruct (allowMutations p); simpl; [|done]. destruct (bool_decide _); simpl.
    - intros HA. by eapply H.
    - destruct (String.eqb _ _); [done|]. destruct (bool_decide _); [|done]. intros HA. by eapply H. }
  destruct (HF h eq_refl) as [HF1 HF2]. exists texts. split; [done|].
  assert (∀ s2, (gs_calls s1 ≤ gs_calls s2)%nat → Forall (text_allowed env g (gs_calls s) (gs_calls s2) variables) texts) as HF3.
  { intros s2 H2. eapply Forall_impl; [exact HF1|]. intros x. by apply text_allowed_mono. }
  revert HD. unfold dispatch. rewrite Hk.
  destruct (response_ok _ && _); [|intros [= <- <- <-]; split_and!; [done|apply HF3; simpl; lia|done]].
  unfold postOperatorTerminalStop. fold g.
  destruct (blank (issueID g)); [|destruct (g_stopLookup env)]; intros [= <- <- <-]; (split_and!; [done|apply HF3; simpl; lia|]);
    intros a; try (destruct (match _ with Some _ => _ | None => _ end)); intros [= <-]; done.
Qed.

(** C20: The agent cannot restart its own issue.  With the guard wired, take a dispatched
    mutation whose document is of the grammar [Grammar.document].  (The grammar leaves out
    what the scan misreads, as [untyped_fragment_unguarded], [commented_fragment_unguarded],
    [escaped_block_quote_unguarded] and [commented_argument_misread] show, and what GraphQL
    or Linear's schema refuses: two fragments of one name, an issueUpdate without arguments
    or a directive of that name.)  Every
    issueUpdate that a server executes for it, in a mutation's selection set, in its inline
    fragments or in the fragments it spreads, directly or in turn, names its issue; and one
    for the agent's own issue sets a state that is none of the ids the tracker gave for the
    active states, while a refresh made during this call shows the issue found, active, not
    terminal and not stopped by an operator.  The audit event says a non-active handoff
    happened exactly when such an update is executed. *)
Theorem own_issue_guarded env p raw variables s s' op ok ev ms fs :
  call env p raw variables s = (s', CallDispatched op ok ev) →
  op_Kind op = linearGraphQLOperationMutation →
  let g := currentIssueGuard p in
  guard_enabled env g = true → active_cache_ok env g s → Grammar.document (TrimSpace raw) ms fs →
  let executed f := ∃ l args, l ∈ ms ∧ Grammar.executes fs l args f in
  (∀ f, executed f → update_allowed env g (gs_calls s) (gs_calls s') variables f) ∧ active_cache_ok env g s' ∧
  ∀ a, ev = Some (MutationEvent a) →
    (CurrentIssueNonActiveStateUpdate a = true ↔
     ∃ f id, executed f ∧ Grammar.names_issue variables f id ∧ own_issue g id).
Proof.
  intros HC Hk g Hg Hs HD executed. destruct (dispatched_checked env p raw variables s s' op ok ev) as (texts & HT & HC1 & HF & HE); [done..|].
  pose proof (Grammar.document_texts _ _ _ _ HD HT) as Hx.
  assert (∀ l args f, l ∈ ms → Grammar.executes fs l args f →
    args ∈ texts ∧ Grammar.arguments args f ∧ text_allowed env g (gs_calls s) (gs_calls s') variables args) as Hex.
  { intros l args f Hl He. assert (args ∈ texts) as Hin by (apply Hx; by exists l, f). split_and!; [done|by eapply Grammar.executed_arguments|].
    by eapply Forall_forall in HF. }
  split_and!; [|done|].
  - intros f (l & args & Hl & He). destruct (Hex l args f Hl He) as (_ & Ha & HA). by eapply text_update.
  - intros a Hev. rewrite (HE a Hev), existsb_exists. split.
    + intros (args & Hin%list_elem_of_In & Ht). apply Hx in Hin as (l & f & Hl & He). destruct (Hex l args f Hl He) as (_ & Ha & _).
      unfold targets_own in Ht. destruct (parseIssueUpdateIssueID args variables) as [x|e|] eqn:Ep; [|done..].
      destruct (Grammar.id_read _ _ _ _ Ha Ep) as (id & Hid & -> & _). exists f, id. split; [by exists l, args|]. split; [done|].
      by apply matches_own.
    + intros (f & id & (l & args & Hl & He) & Hid & Hown). destruct (Hex l args f Hl He) as (Hin & Ha & (x & Ep & _)).
      exists args. split; [by apply list_elem_of_In|]. unfold targets_own. rewrite Ep.
      destruct (Grammar.id_read _ _ _ _ Ha Ep) as (id' & Hid' & -> & _). apply matches_own. by rewrite (names_issue_fun _ _ _ _ Hid' Hid).
Qed.

(** B's update goes through; A, the agent's own issue, is handed off to a done state by a
    fragment. *)
Definition update_b : string := with_quotes "id: $id, input: {stateId: 'x'}".
Definition update_a : string := with_quotes "id: 'ai-1', input: {stateId: 'd'}".
Definition handoff_query : string :=
  "mutation { issueUpdate(" +:+ update_b +:+ ") { ok } ...F } fragment F on Mutation { own: issueUpdate(" +:+ update_a +:+ ") { ok } }".
Definition input_of (state : string) : string * Grammar.val := ("input", Grammar.VObject [("stateId", Grammar.VText (with_quotes state))]).
Definition says_b : list (string * Grammar.val) := [("id", Grammar.VVariable "id"); input_of "'x'"].
Definition says_a : list (string * Grammar.val) := [("id", Grammar.VText (with_quotes "'ai-1'")); input_of "'d'"].

Lemma short_literal c : is_quote c = false → is_backslash c = false → Grammar.literal (Grammar.dquote +:+ String c "" +:+ Grammar.dquote).
Proof. intros H1 H2. apply Grammar.lit_string, Grammar.q_byte; [done..|apply Grammar.q_end]. Qed.
Lemma input_arguments c :
  is_quote c = false → is_backslash c = false →
  Grammar.arguments ("input: {stateId: " +:+ Grammar.dquote +:+ String c "" +:+ Grammar.dquote +:+ "}")
    [("input", Grammar.VObject [("stateId", Grammar.VText (Grammar.dquote +:+ String c "" +:+ Grammar.dquote))])].
Proof.
  intros H1 H2. apply (Grammar.a_field "input" "" " " ("{stateId: " +:+ Grammar.dquote +:+ String c "" +:+ Grammar.dquote +:+ "}") _ "");
    [done..| |by left|apply Grammar.a_end].
  apply (Grammar.v_object ("stateId: " +:+ Grammar.dquote +:+ String c "" +:+ Grammar.dquote)).
  apply (Grammar.a_field "stateId" "" " " (Grammar.dquote +:+ String c "" +:+ Grammar.dquote) _ ""); [done..| |by left|apply Grammar.a_end].
  by apply Grammar.v_literal, short_literal.
Qed.
Lemma update_b_arguments : Grammar.arguments update_b says_b.
Proof.
  apply (Grammar.a_field "id" "" " " "$id" _ (with_quotes ", input: {stateId: 'x'}")); [done..| |by right|].
  - by apply (Grammar.v_variable "id").
  - do 2 (apply Grammar.a_blank; [done|]). by apply (input_arguments (Ascii.ascii_of_nat 120)).
Qed.
Lemma update_a_arguments : Grammar.arguments update_a says_a.
Proof.
  apply (Grammar.a_field "id" "" " " (with_quotes "'ai-1'") _ (with_quotes ", input: {stateId: 'd'}")); [done..| |by right|].
  - apply Grammar.v_literal, (Grammar.lit_string "ai-1"). repeat (apply Grammar.q_byte; [done..|]). apply Grammar.q_end.
  - do 2 (apply Grammar.a_blank; [done|]). by apply (input_arguments (Ascii.ascii_of_nat 100)).
Qed.
Lemma handoff_document :
  Grammar.document handoff_query [[Grammar.Updates update_b says_b; Grammar.Spreads "F"]] {["F" := [Grammar.Updates update_a says_a]]}.
Proof.
  assert (Grammar.inside " ok ") as Hok by (repeat (apply Grammar.in_byte; [done|]); apply Grammar.in_end).
  apply (Grammar.d_mutation " " (" issueUpdate(" +:+ update_b +:+ ") { ok } ...F ")
           (" fragment F on Mutation { own: issueUpdate(" +:+ update_a +:+ ") { ok } }")); [|done|..].
  - apply Grammar.h_byte; [done|apply Grammar.h_end].
  - apply Grammar.s_blank; [done|]. apply (Grammar.s_update "" update_b _ " { ok } ...F "); [apply Grammar.g_end|apply update_b_arguments|].
    apply Grammar.s_blank; [done|]. apply (Grammar.s_selections " ok " " ...F "); [done|]. apply Grammar.s_blank; [done|].
    apply (Grammar.s_spread "" "F" " "); [done..|]. apply Grammar.s_blank; [done|apply Grammar.s_end].
  - apply Grammar.d_blank; [done|].
    apply (Grammar.d_fragment " " "F" " on Mutation " (" own: issueUpdate(" +:+ update_a +:+ ") { ok } ") "" _ [] ∅); [done..| |done| |apply Grammar.d_end|done].
    + repeat (apply Grammar.h_byte; [done|]). apply Grammar.h_end.
    + apply Grammar.s_blank; [done|]. apply (Grammar.s_alias "own" "" (" issueUpdate(" +:+ update_a +:+ ") { ok } ")); [done|apply Grammar.g_end|].
      apply Grammar.s_blank; [done|]. apply (Grammar.s_update "" update_a _ " { ok } "); [apply Grammar.g_end|apply update_a_arguments|].
      apply Grammar.s_blank; [done|]. apply (Grammar.s_selections " ok " " "); [done|]. apply Grammar.s_blank; [done|apply Grammar.s_end].
Qed.

Lemma own_issue_guarded_witness :
  let fs := {["F" := [Grammar.Updates update_a says_a]]} in
  let s' := (call demo_env demo_proxy handoff_query demo_variables demo_guard_state).1 in
  Grammar.executes fs [Grammar.Updates update_b says_b; Grammar.Spreads "F"] update_a says_a ∧
  update_allowed demo_env demo_guard (gs_calls demo_guard_state) (gs_calls s') demo_variables says_a ∧
  own_issue demo_guard "ai-1".
Proof.
  intros fs s'. assert (Grammar.executes fs [Grammar.Updates update_b says_b; Grammar.Spreads "F"] update_a says_a) as He.
  { eapply Grammar.ex_spread; [right; left|reflexivity|apply Grammar.ex_update; left]. }
  destruct (own_issue_guarded demo_env demo_proxy handoff_query demo_variables demo_guard_state s'
    {| op_Kind := linearGraphQLOperationMutation; op_FieldName := "issueUpdate" |} true
    (Some (MutationEvent {| OperationField := "issueUpdate"; CurrentIssueNonActiveStateUpdate := true;
             CurrentIssueTerminalStateUpdate := true; CurrentIssueTerminalState := "Done" |}))
    [[Grammar.Updates update_b says_b; Grammar.Spreads "F"]] fs) as (HF & _ & HE).
  - vm_compute. reflexivity.
  - reflexivity.
  - reflexivity.
  - intros c [= <-]. discriminate.
  - exact handoff_document.
  - split; [exact He|]. split.
    + apply HF. exists [Grammar.Updates update_b says_b; Grammar.Spreads "F"], update_a. split; [left|exact He].
    + exists "AI-1". split; [right; left|]. split; vm_compute; reflexivity.
Defined.

(** The allow-list compares the first name of the selection set: an alias of an allowed
    name, or a second field, brings in any mutation. *)
Theorem allow_list_first_name_only :
  let p := {| allowMutations := true; allowedMutations := {["commentCreate"]};
              currentIssueGuard := Build_currentIssueMutationGuard "" "" [] [] "" |} in
  let comment := {| op_Kind := linearGraphQLOperationMutation; op_FieldName := "commentCreate" |} in
  (∃ s ev, call demo_env p "mutation { commentCreate: issueDelete(id: $id) { success } }" None
     demo_guard_state = (s, CallDispatched comment true ev)) ∧
  (∃ s ev, call demo_env p "mutation { commentCreate(input: $c) { success } issueDelete(id: $id) { success } }"
     None demo_guard_state = (s, CallDispatched comment true ev)).
Proof. split; do 2 eexists; vm_compute; reflexivity. Qed.

(** An argument text that ends in a backslash inside a string makes the guard slice past
    the end of the text, which panics. *)
Theorem argument_text_panics :
  (call demo_env demo_proxy
     (with_quotes ("mutation { issueUpdate(y: a'b, x: '" +:+ byte 92 +:+ ") { ok } }"))
     None demo_guard_state).2 = CallPanicked.
Proof. vm_compute. reflexivity. Qed.

(** ** What the scan does not see

    Documents that move the agent's own issue back to the active state [t] and are
    dispatched, as if they held no update of it. *)
Definition moves_own : string := with_quotes "issueUpdate(id: 'AI-1', input: {stateId: 't'}) { ok }".
Definition dispatched_unguarded (query : string) : Prop :=
  let p := {| allowMutations := true; allowedMutations := ∅; currentIssueGuard := demo_guard |} in
  guard_enabled demo_env demo_guard = true ∧
  match (call demo_env p query None demo_guard_state).2 with
  | CallDispatched op true (Some (MutationEvent a)) =>
      op_Kind op = linearGraphQLOperationMutation ∧ CurrentIssueNonActiveStateUpdate a = false
  | _ => False
  end.
(** The same update in a plain selection set is refused. *)
Example plain_update_refused :
  (call demo_env {| allowMutations := true; allowedMutations := ∅; currentIssueGuard := demo_guard |}
     ("mutation { " +:+ moves_own +:+ " }") None demo_guard_state).2 =
  CallRefused (CurrentIssueRefused (currentIssueActiveStateRejection (Build_IssueStateSnapshot true "In Progress" true false false))).
Proof. vm_compute. reflexivity. Qed.

(** An inline fragment without a type condition is skipped. *)
Theorem untyped_fragment_unguarded :
  dispatched_unguarded ("mutation { ... { " +:+ moves_own +:+ " } }") ∧
  dispatched_unguarded ("mutation { ... @include(if: true) { " +:+ moves_own +:+ " } }").
Proof. split; split; vm_compute; auto. Qed.
(** So is one with a comment after the dots, and a fragment with a comment before its name. *)
Theorem commented_fragment_unguarded :
  dispatched_unguarded ("mutation { ... #" +:+ newline +:+ "on Mutation { " +:+ moves_own +:+ " } }") ∧
  dispatched_unguarded ("mutation { ...F } fragment #" +:+ newline +:+ "F on Mutation { " +:+ moves_own +:+ " }").
Proof. split; split; vm_compute; auto. Qed.
(** An escaped triple quote ends a block string for the scanner, so the real end opens
    another one, which hides what follows. *)
Theorem escaped_block_quote_unguarded :
  let quotes := with_quotes "'''" in
  let text := quotes +:+ byte 92 +:+ quotes +:+ quotes in
  dispatched_unguarded ("mutation { c(body: " +:+ text +:+ ") { id } " +:+ moves_own +:+ " d(body: " +:+ text +:+ ") { id } }").
Proof. split; vm_compute; auto. Qed.
(** A comment where a value is expected is read as one: the id is read from the comment. *)
Theorem commented_argument_misread :
  dispatched_unguarded (with_quotes "mutation { issueUpdate(input: # id: 'B'" +:+ newline +:+
                        with_quotes "{stateId: 't'}, id: 'AI-1') { ok } }").
Proof. split; vm_compute; auto. Qed.
