(* ===== verification/GiteaLabels.v ===== *)
(** * Workflow state in Gitea labels (internal/gitea/label_state.go)

    Gitea has no workflow states; the state of an issue is an aiops/* label.  Reading it
    back from a label set, with the diagnostics for unknown, missing and conflicting
    labels, and the labels to query for a set of states. *)

From stdpp Require Import sorting.
From S2P Require Import Prelude GoStd.

Record Label := { lb_Name : string }.
Record StateLabelMapping := { map_Label : string; map_State : string }.
Record StateDiagnostic := { dg_Code : string; dg_Message : string; dg_Labels : list string }.

Definition stateLabelPrefix := "aiops/".

Definition DefaultStateLabelMappings : list StateLabelMapping :=
  [{| map_Label := "aiops/rework"; map_State := "Rework" |};
   {| map_Label := "aiops/in-progress"; map_State := "In Progress" |};
   {| map_Label := "aiops/merging"; map_State := "Merging" |};
   {| map_Label := "aiops/human-review"; map_State := "Human Review" |};
   {| map_Label := "aiops/todo"; map_State := "Todo" |};
   {| map_Label := "aiops/done"; map_State := "Done" |};
   {| map_Label := "aiops/canceled"; map_State := "Canceled" |}].

Definition or_default (mappings : list StateLabelMapping) : list StateLabelMapping :=
  match mappings with [] => DefaultStateLabelMappings | _ => mappings end.

(** [slices.Contains] before an append. *)
Definition add_new (name : string) (l : list string) : list string :=
  if bool_decide (name ∈ l) then l else l ++ [name].

(** The maps [known] and [priority]; a later mapping of the same label wins. *)
Definition table_step (acc : gmap string string * gmap string nat) (entry : nat * StateLabelMapping)
    : gmap string string * gmap string nat :=
  let '(i, mapping) := entry in
  let label := norm (map_Label mapping) in
  if String.eqb label "" || String.eqb (map_State mapping) "" then acc
  else (<[label := map_State mapping]> acc.1, <[label := i]> acc.2).
Definition label_tables (mappings : list StateLabelMapping) : gmap string string * gmap string nat :=
  fold_left table_step (imap pair mappings) (∅, ∅).

(** The state labels found on the issue, known and unknown, each name once. *)
Definition sort_label (known : gmap string string) (acc : list string * list string) (label : Label)
    : list string * list string :=
  let name := norm (lb_Name label) in
  if String.eqb name "" || negb (HasPrefix name stateLabelPrefix) then acc
  else match known !! name with
       | Some _ => (add_new name acc.1, acc.2)
       | None => (acc.1, add_new name acc.2)
       end.

Definition priority_less (priority : gmap string nat) (a b : string) : bool :=
  (default O (priority !! a) <? default O (priority !! b))%nat.

Definition unknown_diagnostic (unknown : list string) : list StateDiagnostic :=
  match unknown with
  | [] => []
  | _ => let unknown := sort_strings unknown in
         [{| dg_Code := "unknown_aiops_label";
             dg_Message := "unknown aiops state label(s): " +:+ str_join ", " unknown;
             dg_Labels := unknown |}]
  end.

Definition IssueStateFromLabels (labels : list Label) (mappings : list StateLabelMapping)
    : string * list StateDiagnostic :=
  let '(known, priority) := label_tables (or_default mappings) in
  let '(matches, unknown) := fold_left (sort_label known) labels ([], []) in
  let diagnostics := unknown_diagnostic unknown in
  match stable_sort (priority_less priority) matches with
  | [] => ("", diagnostics ++
             [{| dg_Code := "missing_aiops_state_label";
                 dg_Message := "issue has no configured aiops/* state label"; dg_Labels := [] |}])
  | m :: rest =>
      (default "" (known !! m),
       diagnostics ++
       match rest with
       | [] => []
       | _ => [{| dg_Code := "conflicting_aiops_state_labels";
                  dg_Message := "multiple aiops state labels present; using " +:+ m +:+
                    " by deterministic priority: " +:+ str_join ", " (m :: rest);
                  dg_Labels := m :: rest |}]
       end)
  end.

(** [byState] of [StateLabelNamesForStates]. *)
Definition state_step (byState : gmap string string) (mapping : StateLabelMapping) : gmap string string :=
  let state := norm (map_State mapping) in
  let label := norm (map_Label mapping) in
  if negb (String.eqb state "") && negb (String.eqb label "") then <[state := label]> byState
  else byState.
Definition state_table (mappings : list StateLabelMapping) : gmap string string :=
  fold_left state_step mappings ∅.

Definition StateLabelNamesForStates (states : list string) (mappings : list StateLabelMapping)
    : list string :=
  let byState := state_table (or_default mappings) in
  fold_left (fun labels state =>
    match byState !! norm state with
    | Some label => add_new label labels
    | None => labels
    end) states [].

(** ** The two tables *)

(** A mapping list that names each label and each state once, and only state labels. *)
Definition mappings_ok (ms : list StateLabelMapping) : Prop :=
  NoDup (map (λ m, norm (map_Label m)) ms) ∧ NoDup (map (λ m, norm (map_State m)) ms) ∧
  Forall (λ m, HasPrefix (norm (map_Label m)) stateLabelPrefix = true ∧ norm (map_State m) ≠ "") ms.
#[export] Instance mappings_ok_dec ms : Decision (mappings_ok ms).
Proof. unfold mappings_ok. apply _. Defined.

Lemma default_mappings_ok : mappings_ok DefaultStateLabelMappings.
Proof. apply (bool_decide_unpack _). vm_compute. exact I. Qed.

Lemma ok_state_nonempty m : norm (map_State m) ≠ "" → map_State m ≠ "".
Proof. intros H E. apply H. by rewrite E. Qed.

Lemma HasPrefix_nonempty s c p : HasPrefix s (String c p) = true → s ≠ "".
Proof. by destruct s. Qed.

Section Tables.
Context (ms : list StateLabelMapping) (Hms : mappings_ok ms).

Lemma ok_mapping i m :
  ms !! i = Some m →
  norm (map_Label m) ≠ "" ∧ map_State m ≠ "" ∧ norm (map_State m) ≠ "" ∧
  HasPrefix (norm (map_Label m)) stateLabelPrefix = true.
Proof.
  destruct Hms as (_ & _ & HF). rewrite Forall_lookup in HF. intros Hi.
  destruct (HF i m Hi) as [HP HS]. split_and!; [|by apply ok_state_nonempty|done|done].
  by eapply HasPrefix_nonempty.
Qed.

Lemma label_inj i j m m' :
  ms !! i = Some m → ms !! j = Some m' → norm (map_Label m) = norm (map_Label m') → i = j.
Proof.
  intros Hi Hj E. destruct Hms as (HN & _). eapply (NoDup_lookup _ i j (norm (map_Label m)) HN).
  - by rewrite list_lookup_fmap, Hi.
  - by rewrite list_lookup_fmap, Hj, E.
Qed.

Lemma state_inj i j m m' :
  ms !! i = Some m → ms !! j = Some m' → norm (map_State m) = norm (map_State m') → i = j.
Proof.
  intros Hi Hj E. destruct Hms as (_ & HN & _). eapply (NoDup_lookup _ i j (norm (map_State m)) HN).
  - by rewrite list_lookup_fmap, Hi.
  - by rewrite list_lookup_fmap, Hj, E.
Qed.

(** What the tables hold after the mappings before index [n]. *)
Definition tables_upto (n : nat) (t : gmap string string * gmap string nat) : Prop :=
  (∀ l s, t.1 !! l = Some s ↔ ∃ i m, (i < n)%nat ∧ ms !! i = Some m ∧ norm (map_Label m) = l ∧ map_State m = s) ∧
  (∀ l p, t.2 !! l = Some p ↔ ∃ m, (p < n)%nat ∧ ms !! p = Some m ∧ norm (map_Label m) = l).

Lemma table_step_upto n m t :
  ms !! n = Some m → tables_upto n t → tables_upto (S n) (table_step t (n, m)).
Proof.
  intros Hm [H1 H2]. destruct (ok_mapping n m Hm) as (HL & HS & _).
  unfold table_step. apply String.eqb_neq in HL, HS. rewrite HL, HS. simpl.
  split; intros l v; simpl; rewrite lookup_insert_Some.
  - rewrite H1. split.
    + intros [[<- <-]|[Hl (i & m' & Hi & Hx)]]; [exists n, m; split_and!; [lia|done..]|].
      exists i, m'. split; [lia|done].
    + intros (i & m' & Hi & Hx & <- & <-). destruct (decide (i = n)) as [->|Hne].
      * left. assert (m' = m) as -> by congruence. done.
      * right. split; [|exists i, m'; split_and!; [lia|done..]].
        intros E. apply Hne. by apply (label_inj i n m' m).
  - rewrite H2. split.
    + intros [[<- <-]|[Hl (m' & Hi & Hx)]]; [exists m; split_and!; [lia|done..]|].
      exists m'. split; [lia|done].
    + intros (m' & Hi & Hx & <-). destruct (decide (v = n)) as [->|Hne].
      * left. assert (m' = m) as -> by congruence. done.
      * right. split; [|exists m'; split_and!; [lia|done..]].
        intros E. apply Hne. by apply (label_inj v n m' m).
Qed.

Lemma label_tables_upto : tables_upto (length ms) (label_tables ms).
Proof.
  unfold label_tables.
  assert (∀ done rest t, ms = done ++ rest → tables_upto (length done) t →
    tables_upto (length ms) (fold_left table_step (imap (λ i, pair (length done + i)%nat) rest) t)) as H.
  { intros done rest. revert done. induction rest as [|m rest IH]; intros done t E Ht; simpl.
    - by rewrite E, app_nil_r.
    - rewrite Nat.add_0_r. replace (imap _ rest) with (imap (λ i, pair (length (done ++ [m]) + i)%nat) rest).
      2:{ apply imap_ext. intros i x _. rewrite length_app. simpl. f_equal. lia. }
      apply IH; [by rewrite E, <- app_assoc|]. rewrite length_app, Nat.add_comm. simpl.
      apply table_step_upto; [|done]. by rewrite E, list_lookup_middle. }
  apply (H []); [done|]. split; intros l v; simpl; rewrite lookup_empty; split; try done.
  - intros (i & m & Hi & _). simpl in Hi. lia.
  - intros (m & Hi & _). simpl in Hi. lia.
Qed.

Lemma known_iff l s :
  (label_tables ms).1 !! l = Some s ↔ ∃ i m, ms !! i = Some m ∧ norm (map_Label m) = l ∧ map_State m = s.
Proof.
  destruct label_tables_upto as [-> _]. split; [naive_solver|].
  intros (i & m & Hi & Hx). exists i, m. split_and!; [by eapply lookup_lt_Some|naive_solver..].
Qed.

Lemma priority_of i m :
  ms !! i = Some m → (label_tables ms).2 !! norm (map_Label m) = Some i.
Proof.
  intros Hi. destruct label_tables_upto as [_ ->]. exists m. split_and!; [by eapply lookup_lt_Some|done..].
Qed.

Lemma state_table_iff st l :
  state_table ms !! st = Some l ↔ ∃ i m, ms !! i = Some m ∧ norm (map_State m) = st ∧ norm (map_Label m) = l.
Proof.
  unfold state_table.
  assert (∀ done rest (t : gmap string string), ms = done ++ rest →
    (∀ st l, t !! st = Some l ↔ ∃ i m, done !! i = Some m ∧ norm (map_State m) = st ∧ norm (map_Label m) = l) →
    ∀ st l, fold_left state_step rest t !! st = Some l ↔ ∃ i m, ms !! i = Some m ∧ norm (map_State m) = st ∧ norm (map_Label m) = l) as H.
  { intros done rest. revert done. induction rest as [|m rest IH]; intros done t E Ht st' l'.
    { simpl. by rewrite Ht, E, app_nil_r. }
    assert (ms !! length done = Some m) as Hm by (by rewrite E, list_lookup_middle).
    destruct (ok_mapping _ m Hm) as (HL & _ & HS & _). apply String.eqb_neq in HL, HS.
    simpl. unfold state_step at 2. rewrite HS, HL. simpl. apply (IH (done ++ [m])); [by rewrite E, <- app_assoc|].
    intros st2 l2. rewrite lookup_insert_Some, Ht. split.
    - intros [[<- <-]|[Hne (i & m' & Hi & Hx)]].
      + exists (length done), m. by rewrite list_lookup_middle.
      + exists i, m'. split; [|done]. by apply lookup_app_l_Some.
    - intros (i & m' & Hi & <- & <-). assert (ms !! i = Some m') as Hi'.
      { rewrite E, cons_middle, app_assoc. by apply lookup_app_l_Some. }
      apply lookup_app_Some in Hi as [Hi|[Hlt Hi]].
      + right. split; [|by exists i, m']. intros Heq.
        apply lookup_lt_Some in Hi. pose proof (state_inj _ _ m m' Hm Hi' Heq). lia.
      + apply list_lookup_singleton_Some in Hi as [Hz <-]. by left. }
  apply (H []); [done|]. intros st' l'. rewrite lookup_empty. split; [done|].
  by intros (i & m & Hi & _).
Qed.
End Tables.

(** ** Reading a label set *)

Definition label_names (labels : list Label) : list string := map (λ l, norm (lb_Name l)) labels.

(** The mapping's label is on the issue. *)
Definition present (labels : list Label) (m : StateLabelMapping) : bool :=
  bool_decide (norm (map_Label m) ∈ label_names labels).

(** A state label that no mapping names. *)
Definition unknown_label (ms : list StateLabelMapping) (name : string) : Prop :=
  HasPrefix name stateLabelPrefix = true ∧ name ∉ map (λ m, norm (map_Label m)) ms.

Lemma elem_of_add_new x name l : x ∈ add_new name l ↔ x = name ∨ x ∈ l.
Proof. unfold add_new. case_bool_decide; set_solver. Qed.
Lemma add_new_NoDup name l : NoDup l → NoDup (add_new name l).
Proof.
  intros H. unfold add_new. case_bool_decide; [done|].
  apply NoDup_app. split_and!; [done|set_solver|apply NoDup_singleton].
Qed.

Definition known_name (known : gmap string string) (x : string) : Prop :=
  x ≠ "" ∧ HasPrefix x stateLabelPrefix = true ∧ is_Some (known !! x).
Definition unknown_name (known : gmap string string) (x : string) : Prop :=
  x ≠ "" ∧ HasPrefix x stateLabelPrefix = true ∧ known !! x = None.

Lemma sort_label_spec known acc l :
  let r := sort_label known acc l in
  (∀ x, x ∈ r.1 ↔ x ∈ acc.1 ∨ x = norm (lb_Name l) ∧ known_name known x) ∧
  (∀ x, x ∈ r.2 ↔ x ∈ acc.2 ∨ x = norm (lb_Name l) ∧ unknown_name known x) ∧
  (NoDup acc.1 → NoDup r.1).
Proof.
  unfold sort_label, known_name, unknown_name. set (name := norm (lb_Name l)).
  destruct (String.eqb_spec name "") as [E|E]; simpl; [split_and!; [intuition congruence..|done]|].
  destruct (HasPrefix name stateLabelPrefix) eqn:EP; simpl; [|split_and!; [intuition congruence..|done]].
  destruct (known !! name) as [v|] eqn:EK; simpl; setoid_rewrite elem_of_add_new.
  - split_and!; [|intuition congruence|by apply add_new_NoDup].
    intros x. split; [|tauto]. intros [->|?]; [|by left]. right. by rewrite EK.
  - split_and!; [|intros x; split; [|tauto]; intros [->|?]; tauto|done].
    intros x. split; [by left|]. intros [?|(-> & _ & _ & [? ?])]; [done|congruence].
Qed.

Lemma sort_labels_spec known labels acc :
  let r := fold_left (sort_label known) labels acc in
  (∀ x, x ∈ r.1 ↔ x ∈ acc.1 ∨ x ∈ label_names labels ∧ known_name known x) ∧
  (∀ x, x ∈ r.2 ↔ x ∈ acc.2 ∨ x ∈ label_names labels ∧ unknown_name known x) ∧
  (NoDup acc.1 → NoDup r.1).
Proof.
  revert acc. induction labels as [|l labels IH]; intros acc; simpl.
  { split_and!; [..|done]; intros x; rewrite elem_of_nil; tauto. }
  destruct (IH (sort_label known acc l)) as (H1 & H2 & H3).
  destruct (sort_label_spec known acc l) as (G1 & G2 & G3). setoid_rewrite elem_of_cons.
  split_and!; [intros x; rewrite H1, G1; tauto|intros x; rewrite H2, G2; tauto|auto].
Qed.

Lemma priority_weak priority : StrictWeak (priority_less priority).
Proof.
  apply (strict_weak_key (λ a, default O (priority !! a)) Nat.ltb). split.
  - intros x y. rewrite Nat.ltb_lt, Nat.ltb_ge. lia.
  - intros x y z. rewrite !Nat.ltb_ge. lia.
Qed.

Section Reading.
Context (ms : list StateLabelMapping) (Hms : mappings_ok ms) (labels : list Label).
Let known := (label_tables ms).1.
Let priority := (label_tables ms).2.

Definition found_labels : list string := map (λ m, norm (map_Label m)) (List.filter (present labels) ms).

Lemma elem_of_found x :
  x ∈ found_labels ↔ ∃ m, m ∈ ms ∧ norm (map_Label m) = x ∧ x ∈ label_names labels.
Proof.
  unfold found_labels. rewrite list_elem_of_fmap. setoid_rewrite list_elem_of_In.
  setoid_rewrite filter_In. unfold present. setoid_rewrite bool_decide_eq_true.
  setoid_rewrite <- list_elem_of_In. naive_solver.
Qed.

Lemma found_ordered : StronglySorted (λ x y, priority_less priority y x = false) found_labels.
Proof.
  assert (∀ done rest, ms = done ++ rest →
    StronglySorted (λ x y, priority_less priority y x = false)
      (map (λ m, norm (map_Label m)) (List.filter (present labels) rest))) as H.
  2:{ by apply (H []). }
  intros done rest. revert done. induction rest as [|m rest IH]; intros done E; simpl; [constructor|].
  assert (ms = (done ++ [m]) ++ rest) as E' by (by rewrite <- app_assoc).
  destruct (present labels m); [|by apply (IH _ E')].
  simpl. constructor; [by apply (IH _ E')|]. apply Forall_forall. intros x Hx.
  apply list_elem_of_fmap in Hx as (m' & -> & Hm'%list_elem_of_In). apply filter_In in Hm' as [Hm' _].
  apply list_elem_of_In, list_elem_of_lookup in Hm' as [j Hj].
  assert (ms !! length done = Some m) as Hm by (by rewrite E, list_lookup_middle).
  assert (ms !! (length (done ++ [m]) + j)%nat = Some m') as Hm'.
  { rewrite E', lookup_app_r by lia. rewrite <- Hj. f_equal. lia. }
  unfold priority_less, priority. rewrite (priority_of ms Hms _ m Hm), (priority_of ms Hms _ m' Hm').
  simpl. apply Nat.ltb_ge. rewrite length_app. lia.
Qed.

Lemma known_some x : is_Some (known !! x) ↔ x ∈ map (λ m, norm (map_Label m)) ms.
Proof.
  unfold known, is_Some. setoid_rewrite (known_iff ms Hms). rewrite list_elem_of_fmap.
  setoid_rewrite list_elem_of_lookup. naive_solver.
Qed.

Lemma mapping_label_ok m :
  m ∈ ms → norm (map_Label m) ≠ "" ∧ HasPrefix (norm (map_Label m)) stateLabelPrefix = true.
Proof. intros [i Hi]%list_elem_of_lookup. by destruct (ok_mapping ms Hms i m Hi) as (? & _ & _ & ?). Qed.

(** The matches in priority order are the present labels in the order of the mappings. *)
Lemma sorted_matches :
  stable_sort (priority_less priority) (fold_left (sort_label known) labels ([], [])).1 = found_labels.
Proof.
  destruct (sort_labels_spec known labels ([], [])) as (H1 & _ & H3). simpl in *.
  specialize (H3 (NoDup_nil_2)). pose proof (priority_weak priority) as HW.
  apply (sorting.StronglySorted_unique_strong (λ x y, priority_less priority y x = false)).
  - intros x y Hx Hy. rewrite stable_sort_perm in Hx. apply H1 in Hx as [Hx|(_ & _ & _ & Hx)]; [set_solver|].
    apply known_some, list_elem_of_fmap in Hx as (m & -> & [i Hi]%list_elem_of_lookup).
    apply elem_of_found in Hy as (m' & [j Hj]%list_elem_of_lookup & <- & _).
    unfold priority_less, priority. rewrite (priority_of ms Hms _ _ Hi), (priority_of ms Hms _ _ Hj).
    simpl. rewrite !Nat.ltb_ge. intros. assert (i = j) as -> by lia. by simplify_eq.
  - by apply stable_sort_ordered.
  - apply found_ordered.
  - rewrite stable_sort_perm. apply NoDup_Permutation; rewrite <- ?NoDup_ListNoDup; [exact H3| |].
    + unfold found_labels. destruct Hms as (HN & _).
      clear -HN. induction ms as [|m l IH]; simpl in *; [constructor|].
      apply NoDup_cons in HN as [Hm HN]. destruct (present labels m); [|by apply IH].
      simpl. constructor; [|by apply IH]. intros Hx. apply Hm. revert Hx. rewrite !list_elem_of_fmap.
      setoid_rewrite list_elem_of_In. setoid_rewrite filter_In. naive_solver.
    + intros x. rewrite <- !list_elem_of_In, H1, elem_of_found. split.
      * intros [?|(? & _ & _ & Hx)]; [set_solver|].
        apply known_some, list_elem_of_fmap in Hx as (m & -> & ?). by exists m.
      * intros (m & Hm & <- & Hx). right. destruct (mapping_label_ok m Hm).
        split; [done|]. unfold known_name. rewrite known_some. split_and!; [done..|].
        apply list_elem_of_fmap. by exists m.
Qed.

Lemma elem_of_unknown x :
  x ∈ (fold_left (sort_label known) labels ([], [])).2 ↔ x ∈ label_names labels ∧ unknown_label ms x.
Proof.
  destruct (sort_labels_spec known labels ([], [])) as (_ & H2 & _). rewrite H2.
  unfold unknown_label, unknown_name. rewrite <- known_some, <- eq_None_not_Some. simpl. split.
  - intros [Hx|(? & _ & ? & ?)]; [by apply not_elem_of_nil in Hx|done].
  - intros (? & ? & ?). right. split_and!; [done| |done..]. by eapply HasPrefix_nonempty.
Qed.

Lemma known_label m : m ∈ ms → known !! norm (map_Label m) = Some (map_State m).
Proof.
  intros [i Hi]%list_elem_of_lookup. apply (known_iff ms Hms). by exists i, m.
Qed.
End Reading.

(** ** The derived state *)

(** [stateDiagnosticsContain]. *)
Definition stateDiagnosticsContain (diagnostics : list StateDiagnostic) (code : string) : bool :=
  existsb (fun d => String.eqb (dg_Code d) code) diagnostics.

Lemma stateDiagnosticsContain_app l l' code :
  stateDiagnosticsContain (l ++ l') code =
  stateDiagnosticsContain l code || stateDiagnosticsContain l' code.
Proof. apply existsb_app. Qed.

Lemma unknown_diagnostic_codes unknown :
  stateDiagnosticsContain (unknown_diagnostic unknown) "missing_aiops_state_label" = false ∧
  stateDiagnosticsContain (unknown_diagnostic unknown) "conflicting_aiops_state_labels" = false ∧
  (stateDiagnosticsContain (unknown_diagnostic unknown) "unknown_aiops_label" = true ↔ unknown ≠ []).
Proof. by destruct unknown. Qed.

Lemma IssueStateFromLabels_found labels mappings :
  mappings_ok (or_default mappings) →
  let ms := or_default mappings in
  let unknown := (fold_left (sort_label (label_tables ms).1) labels ([], [])).2 in
  IssueStateFromLabels labels mappings =
  (match List.filter (present labels) ms with m :: _ => map_State m | [] => "" end,
   unknown_diagnostic unknown ++
   match found_labels ms labels with
   | [] => [{| dg_Code := "missing_aiops_state_label";
               dg_Message := "issue has no configured aiops/* state label"; dg_Labels := [] |}]
   | [_] => []
   | (m :: _) as all =>
       [{| dg_Code := "conflicting_aiops_state_labels";
           dg_Message := "multiple aiops state labels present; using " +:+ m +:+
             " by deterministic priority: " +:+ str_join ", " all;
           dg_Labels := all |}]
   end).
Proof.
  intros Hms ms unknown. unfold IssueStateFromLabels. fold ms.
  pose proof (sorted_matches ms Hms labels) as HS. unfold unknown. revert HS.
  pose proof (known_label ms Hms) as HK.
  destruct (label_tables ms) as [known priority]. simpl in *.
  destruct (fold_left _ _ _) as [matches unk]. simpl. intros ->. unfold found_labels.
  destruct (List.filter (present labels) ms) as [|m rest] eqn:EF; simpl; [done|].
  assert (m ∈ ms) as Hm.
  { assert (In m (List.filter (present labels) ms)) as Hin by (rewrite EF; by left).
    apply filter_In in Hin as [Hin _]. by apply list_elem_of_In. }
  rewrite (HK m Hm). simpl. by destruct rest.
Qed.

(** The state of a Gitea issue.  For any mapping that names every label and state
    once (the default one does), the derived state is that of the first mapping, in the
    order of the mapping list, whose label is on the issue up to case and blanks, and
    empty only when no configured label is.  So neither the order nor the repetition of
    labels matters.  The diagnostics are exact: a conflict is reported when two configured
    labels are present, a missing label when none is, an unknown label when an aiops/*
    label is not configured. *)
Theorem label_state_spec labels mappings state diagnostics :
  mappings_ok (or_default mappings) →
  IssueStateFromLabels labels mappings = (state, diagnostics) →
  let ms := or_default mappings in
  let found := List.filter (present labels) ms in
  state = match found with m :: _ => map_State m | [] => "" end ∧
  (state = "" ↔ found = []) ∧
  (stateDiagnosticsContain diagnostics "conflicting_aiops_state_labels" = true ↔ (2 ≤ length found)%nat) ∧
  (stateDiagnosticsContain diagnostics "missing_aiops_state_label" = true ↔ found = []) ∧
  (stateDiagnosticsContain diagnostics "unknown_aiops_label" = true ↔
   ∃ name, name ∈ label_names labels ∧ unknown_label ms name).
Proof.
  intros Hms HI ms found. rewrite (IssueStateFromLabels_found labels mappings Hms) in HI.
  fold ms found in HI. injection HI as <- <-. rewrite !stateDiagnosticsContain_app.
  destruct (unknown_diagnostic_codes (fold_left (sort_label (label_tables ms).1) labels ([], [])).2)
    as (-> & -> & HU).
  assert (∀ b, b = false →
    (stateDiagnosticsContain (unknown_diagnostic (fold_left (sort_label (label_tables ms).1) labels ([], [])).2)
       "unknown_aiops_label" || b = true ↔ ∃ name, name ∈ label_names labels ∧ unknown_label ms name)) as HU'.
  { intros b ->. rewrite orb_false_r, HU. setoid_rewrite <- (elem_of_unknown ms Hms).
    destruct (fold_left _ _ _).2 as [|x l]; split; [done|set_solver|exists x; set_solver|done]. }
  split; [done|]. unfold found_labels. fold found.
  destruct found as [|m [|m' l]] eqn:EF; simpl; split_and!; try done; try by apply HU'.
  all: try (split; [done|lia]). all: try (split; [lia|done]).
  all: split; [|done]; intros HE; exfalso.
  all: assert (In m found) as Hin by (rewrite EF; by left).
  all: apply filter_In in Hin as [[i Hi]%list_elem_of_In%list_elem_of_lookup _].
  all: by destruct (ok_mapping ms Hms i m Hi) as (_ & ? & _).
Qed.

Lemma label_state_spec_witness :
  let labels := [{| lb_Name := "bug" |}; {| lb_Name := "AIOPS/Done " |}; {| lb_Name := "aiops/x" |};
                 {| lb_Name := "aiops/todo" |}] in
  (IssueStateFromLabels labels []).1 = "Todo" ∧
  stateDiagnosticsContain (IssueStateFromLabels labels []).2 "conflicting_aiops_state_labels" = true ∧
  stateDiagnosticsContain (IssueStateFromLabels labels []).2 "unknown_aiops_label" = true.
Proof.
  intros labels.
  destruct (label_state_spec labels [] (IssueStateFromLabels labels []).1 (IssueStateFromLabels labels []).2)
    as (H1 & _ & H2 & _ & H3).
  - exact default_mappings_ok.
  - by destruct (IssueStateFromLabels labels []).
  - split_and!; [by rewrite H1|apply H2; vm_compute; lia|].
    apply H3. exists "aiops/x". split; [|split; [reflexivity|]];
      apply (bool_decide_unpack _); vm_compute; exact I.
Defined.

Lemma NoDup_only {A} (l : list A) x : NoDup l → (∀ y, y ∈ l ↔ y = x) → l = [x].
Proof.
  intros HN H. destruct l as [|a [|b l]].
  - by destruct (not_elem_of_nil x (proj2 (H x) eq_refl)).
  - f_equal. apply H. set_solver.
  - apply NoDup_cons in HN as [Ha _]. assert (a = x) as -> by (apply H; set_solver).
    assert (b = x) as -> by (apply H; set_solver). set_solver.
Qed.

(** A label set whose state labels are all the label of one mapping. *)
Lemma single_label_state labels mappings m :
  mappings_ok (or_default mappings) → m ∈ or_default mappings →
  norm (map_Label m) ∈ label_names labels →
  (∀ x, x ∈ label_names labels → HasPrefix x stateLabelPrefix = true → x = norm (map_Label m)) →
  IssueStateFromLabels labels mappings = (map_State m, []).
Proof.
  intros Hms Hm Hin Honly. set (ms := or_default mappings) in *.
  rewrite (IssueStateFromLabels_found _ _ Hms). fold ms. unfold found_labels.
  assert (List.filter (present labels) ms = [m]) as ->.
  { apply NoDup_only.
    - apply NoDup_ListNoDup, List.NoDup_filter, NoDup_ListNoDup, (NoDup_fmap_1 (λ m, norm (map_Label m))).
      by destruct Hms.
    - intros x. rewrite list_elem_of_In, filter_In, <- list_elem_of_In. unfold present.
      rewrite bool_decide_eq_true. split; [|by intros ->].
      intros [Hx Hpx]. destruct (mapping_label_ok ms Hms x Hx) as [_ HP].
      pose proof (Honly _ Hpx HP) as E.
      apply list_elem_of_lookup in Hx as [j Hj]. apply list_elem_of_lookup in Hm as [i Hi].
      pose proof (label_inj ms Hms j i x m Hj Hi E) as ->. congruence. }
  assert ((fold_left (sort_label (label_tables ms).1) labels ([], [])).2 = []) as ->; [|done].
  apply elem_of_nil_inv. intros x Hx. apply (elem_of_unknown ms Hms) in Hx as [Hx [HP Hx']].
  apply Hx'. rewrite (Honly x Hx HP). apply list_elem_of_fmap. by exists m.
Qed.

Lemma StateLabelNames_fold (byState : gmap string string) states acc :
  let r := fold_left (λ labels state, match byState !! norm state with
                                      | Some label => add_new label labels | None => labels end) states acc in
  (∀ l, l ∈ r ↔ l ∈ acc ∨ ∃ s, s ∈ states ∧ byState !! norm s = Some l) ∧ (NoDup acc → NoDup r).
Proof.
  revert acc. induction states as [|s states IH]; intros acc; simpl.
  { split; [|done]. intros l. setoid_rewrite elem_of_nil. naive_solver. }
  setoid_rewrite elem_of_cons. destruct (byState !! norm s) as [label|] eqn:E.
  - destruct (IH (add_new label acc)) as [H1 H2]. split; [|by intros; apply H2, add_new_NoDup].
    intros l. rewrite H1, elem_of_add_new. naive_solver congruence.
  - destruct (IH acc) as [H1 H2]. split; [|done]. intros l. rewrite H1. naive_solver congruence.
Qed.

(** Querying by label and reading back agree.  The labels to query for a set of
    states are distinct, include the label of every configured state among them, and an
    issue that carries just one of them reads back, without any diagnostic, as one of
    the requested states. *)
Theorem label_query_roundtrip states mappings :
  mappings_ok (or_default mappings) →
  let names := StateLabelNamesForStates states mappings in
  NoDup names ∧
  (∀ s m, s ∈ states → m ∈ or_default mappings → norm (map_State m) = norm s →
     norm (map_Label m) ∈ names) ∧
  (∀ l, l ∈ names →
     let '(state, diagnostics) := IssueStateFromLabels [{| lb_Name := l |}] mappings in
     norm state ∈ map norm states ∧ diagnostics = []).
Proof.
  intros Hms names. set (ms := or_default mappings) in *.
  destruct (StateLabelNames_fold (state_table ms) states []) as [H1 H2]. fold names in H1, H2.
  split_and!; [apply H2, NoDup_nil_2| |].
  { intros s m Hs [i Hi]%list_elem_of_lookup E. apply H1. right. exists s. split; [done|].
    apply (state_table_iff ms Hms). by exists i, m. }
  intros l [Hl|(s & Hs & Hl)]%H1; [set_solver|].
  apply (state_table_iff ms Hms) in Hl as (i & m & Hi & Hst & Hlab).
  assert (label_names [{| lb_Name := l |}] = [l]) as EN.
  { unfold label_names. simpl. by rewrite <- Hlab, norm_idem. }
  rewrite (single_label_state [{| lb_Name := l |}] mappings m Hms).
  - split; [|done]. rewrite Hst. apply list_elem_of_fmap. by exists s.
  - apply list_elem_of_lookup. by exists i.
  - rewrite EN, Hlab. set_solver.
  - rewrite EN, Hlab. set_solver.
Qed.

Lemma label_query_roundtrip_witness :
  IssueStateFromLabels [{| lb_Name := "aiops/in-progress" |}] [] = ("In Progress", []).
Proof.
  destruct (label_query_roundtrip ["in progress"; "Done"] [] default_mappings_ok) as (_ & _ & H).
  specialize (H "aiops/in-progress"). vm_compute in H |- *. reflexivity.
Defined.
