(* ===== verification/GiteaClient.v ===== *)
(** * The Gitea tracker client (internal/gitea/tracker_client*.go)

    Listing the issues of a set of workflow states (pages with a cap and a probe beyond
    it, duplicates dropped across pages and labels), the blockers named in an issue's
    body, and the narrow refresh of claimed issues.  Gitea's answers are arguments
    ([GiteaEnv]), indexed by the number of requests and context readings made before; an
    error is the list of the sentinel errors it wraps.  Log lines are not modelled. *)

From S2P Require Import Prelude GoStd Tracker Payload GiteaLabels.

(** ** Answers and errors *)

Inductive ErrorKind :=
| ErrRateLimited
| ErrJSONResponseTooLarge
| ContextCanceled
| ContextDeadlineExceeded
| ErrIssueStateRefreshIncomplete
| ErrIssueListingCapped
| ErrConfiguration
| ErrTransport
| ErrStatus (status : Z)
| ErrDecode
| ErrIssueTime.
#[export] Instance ErrorKind_eq_dec : EqDecision ErrorKind.
Proof. solve_decision. Defined.

(** What [errors.Is] finds in it. *)
Definition Err := list ErrorKind.
Definition errors_Is (e : Err) (k : ErrorKind) : bool := bool_decide (k ∈ e).

(** [client.Do] failed, or a status with a body that decodes to [A] or does not. *)
Inductive HttpAnswer (A : Type) :=
| HttpFailed (e : ErrorKind)
| HttpResponse (status : Z) (body : A + ErrorKind).
Arguments HttpFailed {A} e.
Arguments HttpResponse {A} status body.

(** [gitea.Issue]. *)
Record GiteaIssue := {
  gi_ID : Z;
  gi_Number : Z;
  gi_Title : string;
  gi_Body : string;
  gi_HTMLURL : string;
  gi_CreatedAt : string;
  gi_UpdatedAt : string;
  gi_Labels : list Label
}.

(** The JSON object of one issue, with the presence of the fields the code checks;
    [raw_decodes] is whether the second decoding, into an [Issue], succeeds. *)
Record RawIssue := {
  raw_ID : option Z;
  raw_Number : option Z;
  raw_Body : option string;
  raw_Labels : option (list (option string));
  raw_Title : string;
  raw_HTMLURL : string;
  raw_CreatedAt : string;
  raw_UpdatedAt : string;
  raw_decodes : bool
}.

Record GiteaEnv := {
  e_issue : nat → Z → HttpAnswer RawIssue;
  e_page : nat → string → string → Z → HttpAnswer (list GiteaIssue * list string);
  e_ctx : nat → option ErrorKind
}.

(** ** State *)

Record blockerCacheEntry := { bc_issue : GiteaIssue; bc_found : bool }.

Record TrackerClient := {
  BaseURL : string;
  Token : string;
  Owner : string;
  Repo : string;
  PaginationMaxPages : Z;
  ActiveStates : list string;
  TerminalStates : list string
}.

(** The requests and context readings so far, the client's cache of issue numbers and its
    cap counter, and the blocker cache of the current tick's context. *)
Record ClientState := {
  cs_calls : nat;
  issueNumbers : gmap string Z;
  paginationCapHits : Z;
  blockerCache : option (gmap Z blockerCacheEntry)
}.
#[export] Instance eta_ClientState : Eta ClientState := fun r =>
  Build_ClientState (cs_calls r) (issueNumbers r) (paginationCapHits r) (blockerCache r).

Definition Client (A : Type) := ClientState → ClientState * (A + Err).
Definition ret {A} (a : A) : Client A := fun s => (s, inl a).
Definition fail {A} (e : Err) : Client A := fun s => (s, inr e).
Definition client_bind {A B} (m : Client A) (k : A → Client B) : Client B :=
  fun s => let '(s, r) := m s in match r with inl a => k a s | inr e => (s, inr e) end.
Notation "'do!' x := m 'in' k" := (client_bind m (fun x => k))
  (at level 200, x binder, m at level 100, k at level 200) : go_scope.
(** The result with its error, for the callers that go on after one. *)
Definition try {A} (m : Client A) : Client (A + Err) := fun s => let '(s, r) := m s in (s, inl r).
Definition modify (f : ClientState → ClientState) : Client unit := fun s => (f s, inl tt).

(** ** Identifiers *)

Definition giteaIssueID (issue : GiteaIssue) : string :=
  if negb (gi_ID issue =? 0) then fmt_d (gi_ID issue)
  else if negb (gi_Number issue =? 0) then fmt_d (gi_Number issue) else "".

(** [fmt.Sprintf("#%d", n)]. *)
Definition hash_number (n : Z) : string := "#" +:+ fmt_d n.

Definition giteaIssueNumberFromIdentifier (identifier : string) : option Z :=
  match CutPrefix (TrimSpace identifier) "#" with
  | None => None
  | Some digits => match ParseInt digits with
                   | Some n => if n <=? 0 then None else Some n
                   | None => None
                   end
  end.

Definition IssueNumberFromRef (id identifier : string) : option Z :=
  match giteaIssueNumberFromIdentifier identifier with
  | Some n => Some n
  | None => if HasPrefix (TrimSpace id) "#" then giteaIssueNumberFromIdentifier id else None
  end.

Definition giteaIssueNumberID (n : Z) : string := if n <=? 0 then "" else fmt_d n.

Definition giteaIdentifierMatchesIssueNumber (identifier : string) (n : Z) : bool :=
  match giteaIssueNumberFromIdentifier identifier with Some m => m =? n | None => true end.

Definition giteaIssueRefMatchesNumber (ref : IssueRef) (n : Z) : bool :=
  let identifier := TrimSpace (ref_Identifier ref) in
  let number_is text := match giteaIssueNumberFromIdentifier text with Some m => m =? n | None => false end in
  if negb (String.eqb identifier "") && negb (number_is identifier) then false
  else
    let id := TrimSpace (ref_ID ref) in
    if negb (HasPrefix id "#") then true else number_is id.

Definition giteaIssueMatchesRef (issueID identifier : string) (issue : GiteaIssue) : bool :=
  let issueID := TrimSpace issueID in
  if negb (giteaIdentifierMatchesIssueNumber identifier (gi_Number issue)) then false
  else if String.eqb issueID (giteaIssueID issue) then true
  else if HasPrefix issueID "#" then String.eqb issueID (hash_number (gi_Number issue))
  else String.eqb issueID (giteaIssueNumberID (gi_Number issue)).

(** ** Mapping *)

Definition parseGiteaIssueTime (value : string) : Time + Err :=
  let value := TrimSpace value in
  if String.eqb value "" then inl time_zero
  else match ParseRFC3339Nano value with Some t => inl t | None => inr [ErrIssueTime] end.

Definition extractGiteaLabels (labels : list Label) : list string :=
  List.filter (fun n => negb (String.eqb n "")) (map (fun l => norm (lb_Name l)) labels).

Definition normalizedStateSet (states : list string) : gset string :=
  set_of (List.filter (fun s => negb (String.eqb s "")) (map norm states)).

(** [workflow.DefaultConfig().Tracker.TerminalStates]. *)
Definition defaultTerminalStates : list string := ["Closed"; "Cancelled"; "Canceled"; "Duplicate"; "Done"].

Definition giteaAPIStateForWorkflowStates (states terminalStateNames : list string) : string :=
  let terminalStates := normalizedStateSet terminalStateNames in
  let terminalStates := if bool_decide (terminalStates = ∅) then normalizedStateSet defaultTerminalStates
                        else terminalStates in
  if existsb (fun s => bool_decide (norm s ∈ terminalStates)) states then "all" else "open".

Definition giteaTodoWorkflowState (state : string) : bool := EqualFold (TrimSpace state) "Todo".

(** A link part that contains rel=next, quoted. *)
Fixpoint split_comma (s acc : string) : list string :=
  match s with
  | EmptyString => [acc]
  | String c t => if byte_is 44 c then acc :: split_comma t "" else split_comma t (acc +:+ String c "")
  end.
Definition hasNextPage (linkHeaders : list string) : bool :=
  existsb (fun header => existsb (fun part => Contains part ("rel=" +:+ byte 34 +:+ "next" +:+ byte 34))
                           (split_comma header "")) linkHeaders.

(** The text after a match of "(?i)depends on #(\d+)" at the start, with the digits.  Case
    folding also takes U+017F for s. *)
Fixpoint match_fold (pat s : string) : option string :=
  match pat, s with
  | EmptyString, _ => Some s
  | String p pat, String c t =>
      if Ascii.eqb (lower_ascii c) p then match_fold pat t
      else if byte_is 115 p && byte_is 197 c then
        match t with
        | String d t => if byte_is 191 d then match_fold pat t else None
        | EmptyString => None
        end
      else None
  | String _ _, EmptyString => None
  end.
Fixpoint digits_prefix (s : string) : string * string :=
  match s with
  | String c t => if in_range 48 57 c then let '(ds, rest) := digits_prefix t in (String c ds, rest)
                  else (EmptyString, s)
  | EmptyString => (EmptyString, s)
  end.
Definition depends_on (s : string) : option (string * string) :=
  match match_fold "depends on #" s with
  | Some t => let '(ds, rest) := digits_prefix t in if String.eqb ds "" then None else Some (ds, rest)
  | None => None
  end.
(** [FindAllStringSubmatch]: the digits of every match, left to right without overlap. *)
Fixpoint depends_all (fuel : nat) (s : string) : list string :=
  match fuel, s with
  | S fuel, String _ t =>
      match depends_on s with
      | Some (ds, rest) => ds :: depends_all fuel rest
      | None => depends_all fuel t
      end
  | _, _ => []
  end.
Definition dependsOnReferences (body : string) : list string := depends_all (String.length body) body.

(** [parseUnseenBlockerNumber]. *)
Definition parseUnseenBlockerNumber (raw : string) (seen : gset Z) : option Z :=
  match ParseInt raw with
  | Some n => if (n <=? 0) || bool_decide (n ∈ seen) then None else Some n
  | None => None
  end.

(** [decodeGiteaIssueStateResponse] on a body that is JSON; with the presence of a body. *)
Definition decodeGiteaIssueStateResponse (raw : RawIssue) : (GiteaIssue * bool) + Err :=
  match raw_ID raw, raw_Number raw, raw_Labels raw with
  | Some id, Some number, Some labels =>
      if (id <=? 0) || (number <=? 0) then inr [ErrIssueStateRefreshIncomplete]
      else if existsb (fun name => match name with Some n => blank n | None => true end) labels
      then inr [ErrIssueStateRefreshIncomplete]
      else if negb (raw_decodes raw) then inr [ErrDecode]
      else inl ({| gi_ID := id; gi_Number := number; gi_Title := raw_Title raw;
                   gi_Body := default "" (raw_Body raw); gi_HTMLURL := raw_HTMLURL raw;
                   gi_CreatedAt := raw_CreatedAt raw; gi_UpdatedAt := raw_UpdatedAt raw;
                   gi_Labels := map (fun n => {| lb_Name := default "" n |}) labels |},
                match raw_Body raw with Some _ => true | None => false end)
  | _, _, _ => inr [ErrIssueStateRefreshIncomplete]
  end.

(** ** Requests *)

Section Client.
Context (env : GiteaEnv) (c : TrackerClient).

(** The answer to the [n]-th external call, by its number. *)
Definition external {A} (answer : nat → A) : Client A :=
  fun s => (s <| cs_calls ::= S |>, inl (answer (cs_calls s))).

Definition status_ok (status : Z) : bool := (200 <=? status) && (status <? 300).

(** [getIssueByNumberWithMetadata]: [None] for a 404. *)
Definition getIssueByNumberWithMetadata (n : Z) : Client (option (GiteaIssue * bool)) :=
  do! answer := external (fun i => e_issue env i n) in
  match answer with
  | HttpFailed e => fail [e]
  | HttpResponse status body =>
      if status =? 404 then ret None
      else if status =? 429 then fail [ErrRateLimited]
      else if negb (status_ok status) then fail [ErrStatus status]
      else match body with
           | inr e => fail [e]
           | inl raw => match decodeGiteaIssueStateResponse raw with
                        | inl issue => ret (Some issue)
                        | inr e => fail e
                        end
           end
  end.
Definition getIssueStateByNumber := getIssueByNumberWithMetadata.
Definition getIssueByNumber (n : Z) : Client (option GiteaIssue) :=
  do! found := getIssueByNumberWithMetadata n in ret (fst <$> found).

Definition listIssuesPage (labelName issueState : string) (page : Z) : Client (list GiteaIssue * bool) :=
  do! answer := external (fun i => e_page env i labelName issueState page) in
  match answer with
  | HttpFailed e => fail [e]
  | HttpResponse status body =>
      if status =? 429 then fail [ErrRateLimited]
      else if negb (status_ok status) then fail [ErrStatus status]
      else match body with
           | inr e => fail [e]
           | inl (issues, links) => ret (issues, hasNextPage links)
           end
  end.

(** [tracker.ShouldStopIssueStateRefresh]. *)
Definition stop_kind (k : ErrorKind) : bool :=
  match k with
  | ErrRateLimited | ErrJSONResponseTooLarge | ContextCanceled | ContextDeadlineExceeded => true
  | _ => false
  end.
Definition ctx_Err : Client (option ErrorKind) := external (e_ctx env).
Definition ShouldStopIssueStateRefresh (err : Err) : Client bool :=
  if existsb stop_kind err then ret true
  else do! ctx := ctx_Err in
       ret match ctx with Some ContextCanceled | Some ContextDeadlineExceeded => true | _ => false end.

(** ** Caches *)

Definition withBlockerCache : Client unit := modify (fun s => s <| blockerCache := Some ∅ |>).

Definition cacheIssueNumber (issue : GiteaIssue) : Client unit :=
  let issueID := giteaIssueID issue in
  modify (fun s => if String.eqb issueID "" || (gi_Number issue <=? 0) then s
                   else s <| issueNumbers ::= insert issueID (gi_Number issue) |>).

Definition cachedIssueNumber (s : ClientState) (issueID : string) : option Z :=
  match issueNumbers s !! issueID with
  | Some n => if 0 <? n then Some n else None
  | None => None
  end.

(** [issueNumberForStateRefresh]: the number, and whether it was cached. *)
Definition issueNumberForStateRefresh (ref : IssueRef) : Client (option (Z * bool)) :=
  fun s => (s, inl match cachedIssueNumber s (ref_ID ref) with
                   | Some n => Some (n, true)
                   | None => (fun n => (n, false)) <$> IssueNumberFromRef (ref_ID ref) (ref_Identifier ref)
                   end).

(** [cachedIssueByNumber]; an unresolved lookup is an error. *)
Definition fetch_and_cache (n : Z) : Client blockerCacheEntry :=
  do! fetched := getIssueByNumber n in
  match fetched with
  | Some issue =>
      if negb (gi_Number issue =? n) then fail [ErrIssueStateRefreshIncomplete]
      else let entry := {| bc_issue := issue; bc_found := true |} in
           do! _ := modify (fun s => s <| blockerCache ::= fmap (insert n entry) |>) in ret entry
  | None =>
      let entry := {| bc_issue := Build_GiteaIssue 0 0 "" "" "" "" "" []; bc_found := false |} in
      do! _ := modify (fun s => s <| blockerCache ::= fmap (insert n entry) |>) in ret entry
  end.
Definition cachedIssueByNumber (n : Z) : Client blockerCacheEntry :=
  fun s => match blockerCache s ≫= lookup n with
           | Some entry => (s, inl entry)
           | None => fetch_and_cache n s
           end.

(** ** Blockers *)

Inductive blockerLookupPolicy := blockerLookupBestEffort | blockerLookupHaltRefresh.

(** The joined error of an interrupted lookup. *)
Definition join_ctx (lookupErr : Err) : Client Err :=
  do! ctx := ctx_Err in
  ret match ctx with
      | Some k => if errors_Is lookupErr k then lookupErr else lookupErr ++ [k]
      | None => lookupErr
      end.

(** [blockerRefForNumber]; [None] drops the reference. *)
Definition blockerRefForNumber (n : Z) (policy : blockerLookupPolicy) : Client (option BlockerRef) :=
  do! looked := try (cachedIssueByNumber n) in
  match looked with
  | inr lookupErr =>
      do! stop := (match policy with
                   | blockerLookupHaltRefresh => ShouldStopIssueStateRefresh lookupErr
                   | blockerLookupBestEffort => ret false
                   end) in
      if (stop : bool) then (do! e := join_ctx lookupErr in fail e)
      else ret (Some {| br_ID := ""; br_Identifier := hash_number n; br_State := "" |})
  | inl entry =>
      ret (if bc_found entry
           then Some {| br_ID := giteaIssueID (bc_issue entry);
                        br_Identifier := hash_number (gi_Number (bc_issue entry));
                        br_State := (IssueStateFromLabels (gi_Labels (bc_issue entry)) DefaultStateLabelMappings).1 |}
           else None)
  end.

Fixpoint blocker_loop (policy : blockerLookupPolicy) (matches : list string) (seen : gset Z)
    (refs : list BlockerRef) : Client (list BlockerRef) :=
  match matches with
  | [] => ret refs
  | m :: rest =>
      match parseUnseenBlockerNumber m seen with
      | None => blocker_loop policy rest seen refs
      | Some n =>
          do! ref := blockerRefForNumber n policy in
          blocker_loop policy rest ({[n]} ∪ seen) (refs ++ match ref with Some r => [r] | None => [] end)
      end
  end.

(** A nil slice when nothing is appended. *)
Definition nil_if_empty {A} (l : list A) : option (list A) :=
  match l with [] => None | _ => Some l end.

Definition buildBlockedBy (body : string) (policy : blockerLookupPolicy) : Client (option (list BlockerRef)) :=
  do! refs := blocker_loop policy (dependsOnReferences body) ∅ [] in ret (nil_if_empty refs).

(** ** Listing *)

(** [scopeIssue]; [None] when filtered out. *)
Definition scopeIssue (issue : GiteaIssue) (wantedStates : gset string) : Client (option Issue) :=
  let state := (IssueStateFromLabels (gi_Labels issue) DefaultStateLabelMappings).1 in
  if String.eqb state "" then ret None
  else if negb (bool_decide (wantedStates = ∅)) && negb (bool_decide (ToLower state ∈ wantedStates))
  then ret None
  else match parseGiteaIssueTime (gi_CreatedAt issue), parseGiteaIssueTime (gi_UpdatedAt issue) with
       | inr e, _ => fail e
       | inl _, inr e => fail e
       | inl createdAt, inl updatedAt =>
           do! blockedBy := buildBlockedBy (gi_Body issue) blockerLookupBestEffort in
           ret (Some {| iss_ID := giteaIssueID issue; iss_Identifier := hash_number (gi_Number issue);
                        iss_Title := gi_Title issue; iss_Description := gi_Body issue;
                        iss_URL := gi_HTMLURL issue; iss_State := state;
                        iss_Labels := extractGiteaLabels (gi_Labels issue); iss_BranchName := "";
                        iss_Priority := 0; iss_CreatedAt := createdAt; iss_UpdatedAt := updatedAt;
                        iss_BlockedBy := blockedBy |})
       end.

(** [collectScopePage]: [collectionSeen] is shared along the collection, so it is returned. *)
Fixpoint collectScopePage (batch : list GiteaIssue) (wantedStates collectionSeen : gset string)
    (out : list Issue) : Client (list Issue * gset string) :=
  match batch with
  | [] => ret (out, collectionSeen)
  | issue :: rest =>
      let issueKey := giteaIssueID issue in
      if bool_decide (issueKey ∈ collectionSeen) then collectScopePage rest wantedStates collectionSeen out
      else
        do! _ := cacheIssueNumber issue in
        do! converted := scopeIssue issue wantedStates in
        match converted with
        | None => collectScopePage rest wantedStates collectionSeen out
        | Some i => collectScopePage rest wantedStates ({[issueKey]} ∪ collectionSeen) (out ++ [i])
        end
  end.

Definition listIssuesPageSize : Z := 50.
Definition listIssuesMaxPages : Z := 20.
Definition IssueMaxPages : Z :=
  if 0 <? PaginationMaxPages c then PaginationMaxPages c else listIssuesMaxPages.

Definition finishCapProbe (out : list Issue) (batch : list GiteaIssue) (hasNext : bool)
    : Client (list Issue * bool) :=
  match hasNext, batch with
  | false, [] => ret (out, false)
  | _, _ => do! _ := modify (fun s => s <| paginationCapHits ::= Z.succ |>) in ret ([], true)
  end.

Inductive PageStep :=
| PageDone (out : list Issue) (capped : bool)
| PageMore (out : list Issue) (collectionSeen : gset string).

Definition scopePageStep (labelName issueState : string) (page maxPages : Z)
    (wantedStates collectionSeen : gset string) (out : list Issue) : Client PageStep :=
  do! fetched := listIssuesPage labelName issueState page in
  let '(batch, hasNext) := fetched in
  if maxPages <? page then
    do! finished := finishCapProbe out batch hasNext in ret (PageDone finished.1 finished.2)
  else
    do! grown := collectScopePage batch wantedStates collectionSeen out in
    if negb hasNext && (slice_len batch <? listIssuesPageSize) then ret (PageDone grown.1 false)
    else ret (PageMore grown.1 grown.2).

(** The pages from [page] on, [n] of them at most. *)
Fixpoint page_loop (labelName issueState : string) (maxPages : Z) (wantedStates : gset string)
    (n : nat) (page : Z) (collectionSeen : gset string) (out : list Issue) : Client (list Issue * bool) :=
  match n with
  | O => ret ([], true)
  | S n =>
      do! step := scopePageStep labelName issueState page maxPages wantedStates collectionSeen out in
      match step with
      | PageDone out capped => ret (out, capped)
      | PageMore out seen => page_loop labelName issueState maxPages wantedStates n (page +i 1) seen out
      end
  end.

Definition listIssuesByStateLabel (labelName issueState : string) (wantedStates seenIssues : gset string)
    : Client (list Issue * bool) :=
  let maxPages := IssueMaxPages in
  page_loop labelName issueState maxPages wantedStates (Z.to_nat (maxPages +i 1)) 1 seenIssues [].

(** The loop over the labels: the issues, those seen, and whether a label was capped. *)
Fixpoint label_loop (issueState : string) (wantedStates : gset string) (labelNames : list string)
    (seenIssues : gset string) (out : list Issue) (capped : list string)
    : Client (list Issue * list string) :=
  match labelNames with
  | [] => ret (out, capped)
  | labelName :: rest =>
      do! listed := listIssuesByStateLabel labelName issueState wantedStates seenIssues in
      let '(issues, hit) := listed in
      if (hit : bool) then label_loop issueState wantedStates rest seenIssues out (capped ++ [labelName])
      else label_loop issueState wantedStates rest (set_of (map iss_ID issues) ∪ seenIssues)
             (out ++ issues) capped
  end.

Definition configured : bool :=
  negb (String.eqb (BaseURL c) "" || String.eqb (Token c) "") &&
  negb (String.eqb (Owner c) "" || String.eqb (Repo c) "").

Definition ListIssuesByStates (states : list string) : Client (list Issue) :=
  if negb configured then fail [ErrConfiguration]
  else
    let wantedStates := normalizedStateSet states in
    if bool_decide (wantedStates = ∅) then ret []
    else
      do! _ := withBlockerCache in
      let labelNames := StateLabelNamesForStates states DefaultStateLabelMappings in
      let issueState := giteaAPIStateForWorkflowStates states (TerminalStates c) in
      match labelNames with
      | [] =>
          do! listed := listIssuesByStateLabel "" issueState wantedStates ∅ in
          if listed.2 then fail [ErrIssueListingCapped] else ret listed.1
      | _ =>
          do! listed := label_loop issueState wantedStates labelNames ∅ [] [] in
          match listed.2 with [] => ret listed.1 | _ => fail [ErrIssueListingCapped] end
      end.
Definition ListActiveIssues : Client (list Issue) := ListIssuesByStates (ActiveStates c).

(** ** Narrow refresh *)

Definition buildRefreshedIssueState (issue : GiteaIssue) (state : string) : Client IssueState :=
  let labels := extractGiteaLabels (gi_Labels issue) in
  if negb (giteaTodoWorkflowState state)
  then ret {| ist_Outcome := IssueStateOutcomeCurrent; ist_State := state; ist_Labels := labels;
              ist_BlockedBy := None |}
  else
    do! blockedBy := buildBlockedBy (gi_Body issue) blockerLookupHaltRefresh in
    ret {| ist_Outcome := IssueStateOutcomeCurrent; ist_State := state; ist_Labels := labels;
           ist_BlockedBy := Some (default [] blockedBy) |}.

Definition absent_row : IssueState :=
  {| ist_Outcome := IssueStateOutcomeAbsent; ist_State := ""; ist_Labels := []; ist_BlockedBy := None |}.

(** What one reference leads to: nothing ([continue]), a row, or an error. *)
Inductive RefResult := Skip | Row (row : IssueState) | RefError (e : Err) (checkStop : bool).

(** The row of an issue that was found, with whether its body was present. *)
Definition refresh_found (issueRef : IssueRef) (issueNumber : Z) (issue : GiteaIssue) (bodyPresent : bool)
    : Client RefResult :=
  if negb (gi_Number issue =? issueNumber) then ret Skip
  else if negb (giteaIssueMatchesRef (ref_ID issueRef) (ref_Identifier issueRef) issue) then ret Skip
  else
    do! _ := cacheIssueNumber issue in
    let '(state, diagnostics) := IssueStateFromLabels (gi_Labels issue) DefaultStateLabelMappings in
    if giteaTodoWorkflowState state && negb bodyPresent
    then ret (RefError [ErrIssueStateRefreshIncomplete] false)
    else if String.eqb state "" then
      ret (if stateDiagnosticsContain diagnostics "unknown_aiops_label" then Skip else Row absent_row)
    else
      do! built := try (buildRefreshedIssueState issue state) in
      ret match built with inl row => Row row | inr e => RefError e true end.

Definition refresh_ref (issueRef : IssueRef) : Client RefResult :=
  do! number := issueNumberForStateRefresh issueRef in
  match number with
  | None => ret Skip
  | Some (issueNumber, cached) =>
      if negb (giteaIssueRefMatchesNumber issueRef issueNumber) then ret Skip
      else
        do! got := try (getIssueStateByNumber issueNumber) in
        match got with
        | inr e => ret (RefError e true)
        | inl None => ret (if (cached : bool) then Row absent_row else Skip)
        | inl (Some (issue, bodyPresent)) => refresh_found issueRef issueNumber issue bodyPresent
        end
  end.

(** The loop of [FetchIssueStatesByRefs]; the errors are joined. *)
Fixpoint refresh_loop (refs : list IssueRef) (states : gmap string IssueState) (errs : Err)
    : Client (gmap string IssueState * Err) :=
  match refs with
  | [] => ret (states, errs)
  | issueRef :: rest =>
      do! result := refresh_ref issueRef in
      match result with
      | Skip => refresh_loop rest states errs
      | Row row => refresh_loop rest (<[ref_ID issueRef := row]> states) errs
      | RefError e checkStop =>
          do! stop := (if checkStop then ShouldStopIssueStateRefresh e else ret false) in
          if (stop : bool) then ret (states, errs ++ e) else refresh_loop rest states (errs ++ e)
      end
  end.

(** The rows and the error of the refresh, which may both be present. *)
Definition FetchIssueStatesByRefs (issueRefs : list IssueRef) : Client (gmap string IssueState * Err) :=
  let '(states, refs) := UnknownIssueStatesByRefs issueRefs in
  if negb configured then ret (states, [ErrConfiguration])
  else match refs with
       | [] => ret (states, [])
       | _ => do! _ := withBlockerCache in refresh_loop refs states []
       end.
Definition FetchIssueStatesByIDs (issueIDs : list string) : Client (gmap string IssueState * Err) :=
  FetchIssueStatesByRefs (IssueRefsFromIDs issueIDs).
End Client.
