(* ===== verification/GiteaProps.v ===== *)
(** * What the Gitea client promises

    Weakest preconditions for the client's state-and-error monad, the invariant of its
    caches (everything cached was answered), and the guarantees of the narrow refresh,
    the blockers and the listing. *)

From S2P Require Import Prelude Tracker Payload GoStd GiteaLabels GiteaClient.

(** * Mentions of a blocker

    The scanner of "Depends on #N" ([dependsOnReferences]) finds every mention in a body,
    in any case and wherever it stands. *)


Definition all_digits (s : string) : Prop := digits_prefix s = (s, "").
Definition starts_digit (s : string) : bool :=
  match s with String c _ => in_range 48 57 c | EmptyString => false end.

(** [body] mentions "Depends on #ds", in any case, [ds] being the whole number. *)
Definition mentions (body ds : string) : Prop :=
  ∃ before phrase after, body = before +:+ phrase +:+ ds +:+ after ∧
    ToLower phrase = "depends on #" ∧ ds ≠ "" ∧ all_digits ds ∧ starts_digit after = false.

Lemma match_fold_self p pat r : ToLower p = pat → match_fold pat (p +:+ r) = Some r.
Proof.
  revert pat. induction p as [|c p IH]; intros pat <-; simpl; [by destruct r|].
  rewrite Ascii.eqb_refl. by apply IH.
Qed.

Lemma digits_prefix_app ds after :
  all_digits ds → starts_digit after = false → digits_prefix (ds +:+ after) = (ds, after).
Proof.
  unfold all_digits. induction ds as [|c ds IH]; simpl.
  - intros _ HA. destruct after as [|c after]; [done|]. simpl in *. by rewrite HA.
  - destruct (in_range 48 57 c); [|done]. destruct (digits_prefix ds) as [d r].
    intros [= -> ->] HA. by rewrite IH.
Qed.

(** A match that starts before a phrase either ends before it or enters it at a proper
    suffix of the pattern. *)
Lemma match_fold_into pat a x r t :
  match_fold pat (a +:+ String x r) = Some t → byte_is 191 x = false →
  (∃ a', t = a' +:+ String x r) ∨
  ∃ pat1 pat2, pat = pat1 +:+ pat2 ∧ pat2 ≠ "" ∧ (a = "" ∨ pat1 ≠ "") ∧ match_fold pat2 (String x r) = Some t.
Proof.
  intros HM Hx. revert a HM. induction pat as [|p pat IH]; intros a HM.
  { left. exists a. destruct a; simpl in HM; congruence. }
  destruct a as [|c a]; [right; exists "", (String p pat); by auto|].
  assert (∀ a', match_fold pat (a' +:+ String x r) = Some t →
    (∃ a', t = a' +:+ String x r) ∨
    ∃ pat1 pat2, String p pat = pat1 +:+ pat2 ∧ pat2 ≠ "" ∧ (String c a = "" ∨ pat1 ≠ "") ∧
      match_fold pat2 (String x r) = Some t) as Hrec.
  { intros a' H. apply IH in H as [H|(p1 & p2 & -> & H2 & _ & H3)]; [by left|right].
    exists (String p p1), p2. split_and!; [done..|by right|done]. }
  simpl in HM. destruct (Ascii.eqb (lower_ascii c) p); [by eapply Hrec|].
  destruct (byte_is 115 p && byte_is 197 c); [|done].
  destruct a as [|c' a]; simpl in HM; [by rewrite Hx in HM|].
  destruct (byte_is 191 c'); [|done]. by eapply Hrec.
Qed.

Definition ascii_d := Ascii.Ascii false false true false false true true false.
Definition ascii_e := Ascii.Ascii true false true false false true true false.

(** Where a phrase starts, its first two letters. *)
Lemma phrase_head phrase :
  ToLower phrase = "depends on #" →
  ∃ c1 c2 rest, phrase = String c1 (String c2 rest) ∧ lower_ascii c1 = ascii_d ∧ lower_ascii c2 = ascii_e.
Proof.
  destruct phrase as [|c1 [|c2 rest]]; [done..|]. intros H. injection H as H1 H2 _. eauto 10.
Qed.

Lemma suffix_no_match pat1 pat2 c1 c2 r t :
  "depends on #" = pat1 +:+ pat2 → pat1 ≠ "" → pat2 ≠ "" →
  lower_ascii c1 = ascii_d → lower_ascii c2 = ascii_e →
  match_fold pat2 (String c1 (String c2 r)) = Some t → False.
Proof.
  intros HE H1 H2 Hc1 Hc2.
  assert (byte_is 197 c1 = false) as N1.
  { unfold byte_is. apply Nat.eqb_neq. intros E. revert Hc1.
    rewrite <- (Ascii.ascii_nat_embedding c1), E. vm_compute. done. }
  assert (byte_is 197 c2 = false) as N2.
  { unfold byte_is. apply Nat.eqb_neq. intros E. revert Hc2.
    rewrite <- (Ascii.ascii_nat_embedding c2), E. vm_compute. done. }
  do 12 (destruct pat1 as [|?p pat1];
    [rewrite str_app_nil in HE; subst pat2; try done; intros HM; simpl in HM; rewrite Hc1, ?N1 in HM; simpl in HM;
     try done; simpl in HM; rewrite Hc2, ?N2 in HM; simpl in HM; done
    |rewrite str_app_cons in HE; injection HE as _ HE]).
  destruct pat1; [rewrite str_app_nil in HE; by subst|done].
Qed.

Lemma depends_on_mention p ds after :
  ToLower p = "depends on #" → ds ≠ "" → all_digits ds → starts_digit after = false →
  depends_on (p +:+ ds +:+ after) = Some (ds, after).
Proof.
  intros Hp Hne Hd Ha. unfold depends_on. rewrite (match_fold_self p _ (ds +:+ after) Hp).
  rewrite (digits_prefix_app ds after Hd Ha). by apply String.eqb_neq in Hne as ->.
Qed.

(** A match of the expression that starts before a mention ends before it. *)
Lemma digits_prefix_before a x r ds rest :
  digits_prefix (a +:+ String x r) = (ds, rest) → in_range 48 57 x = false →
  ∃ a', rest = a' +:+ String x r ∧ (String.length a' ≤ String.length a)%nat.
Proof.
  revert ds. induction a as [|c a IH]; intros ds.
  - rewrite str_app_nil. simpl. intros H Hx. rewrite Hx in H. injection H as _ <-. by exists "".
  - rewrite str_app_cons. simpl. destruct (in_range 48 57 c).
    + destruct (digits_prefix (a +:+ String x r)) as [d r'] eqn:E. intros [= _ <-] Hx.
      destruct (IH d eq_refl Hx) as (a' & -> & Hl). exists a'. split; [done|lia].
    + intros [= _ <-] _. exists (String c a). by rewrite str_app_cons.
Qed.

Lemma depends_on_before c a p r ds rest :
  ToLower p = "depends on #" → depends_on (String c a +:+ p +:+ r) = Some (ds, rest) →
  ∃ a', rest = a' +:+ p +:+ r.
Proof.
  intros Hp. destruct (phrase_head p Hp) as (c1 & c2 & q & -> & H1 & H2).
  assert (byte_is 191 c1 = false ∧ in_range 48 57 c1 = false) as [N1 N2].
  { destruct c1 as [[] [] [] [] [] [] [] []]; vm_compute in H1; try discriminate H1; split; reflexivity. }
  rewrite !str_app_cons. unfold depends_on.
  destruct (match_fold _ _) as [t|] eqn:EM; [|done].
  destruct (digits_prefix t) as [d r'] eqn:ED. destruct (String.eqb d ""); [done|]. intros [= <- <-].
  rewrite <- str_app_cons in EM.
  apply match_fold_into in EM as [[a' ->]|(p1 & p2 & HE & Hp2 & [?|Hp1] & HM)]; [|done| |done].
  - apply digits_prefix_before in ED as (a'' & -> & _); [|done]. by exists a''.
  - by destruct (suffix_no_match p1 p2 c1 c2 _ _ HE Hp1 Hp2 H1 H2 HM).
Qed.

Lemma depends_on_shorter s ds rest :
  depends_on s = Some (ds, rest) → (String.length rest < String.length s)%nat.
Proof.
  unfold depends_on. destruct (match_fold _ s) as [t|] eqn:EM; [|done].
  destruct (digits_prefix t) as [d r] eqn:ED. destruct (String.eqb d "") eqn:E; [done|]. intros [= <- <-].
  assert (∀ pat s t, match_fold pat s = Some t → (String.length t ≤ String.length s)%nat) as Hm.
  { clear. induction pat as [|p pat IH]; intros s t; simpl; [by destruct s; intros [= <-]|].
    destruct s as [|c s]; [done|]. simpl. destruct (Ascii.eqb _ _); [intros H; apply IH in H; lia|].
    destruct (_ && _); [|done]. destruct s as [|c' s]; [done|]. simpl.
    destruct (byte_is 191 c'); [intros H; apply IH in H; lia|done]. }
  apply Hm in EM. assert (String.length d + String.length r = String.length t)%nat as HL.
  { clear -ED. revert d r ED. induction t as [|c t IH]; intros d r; simpl; [by intros [= <- <-]|].
    destruct (in_range 48 57 c); [|by intros [= <- <-]].
    destruct (digits_prefix t) as [d' r'] eqn:ED. intros [= <- <-]. simpl. by rewrite (IH _ _ eq_refl). }
  destruct d as [|? ?]; [done|]. simpl in HL. lia.
Qed.

(** Every mention is found, wherever it stands. *)
Lemma mention_found body ds : mentions body ds → ds ∈ dependsOnReferences body.
Proof.
  intros (before & p & after & -> & Hp & Hne & Hd & Ha). unfold dependsOnReferences.
  assert (∀ fuel before, (String.length (before +:+ p +:+ ds +:+ after) ≤ fuel)%nat →
    ds ∈ depends_all fuel (before +:+ p +:+ ds +:+ after)) as H; [|by apply H].
  clear before. induction fuel as [|fuel IH]; intros before HL.
  { rewrite !str_length_app in HL. destruct ds; [done|simpl in HL; lia]. }
  destruct before as [|c before].
  - rewrite str_app_nil in *. destruct (phrase_head p Hp) as (c1 & c2 & q & E & _).
    pose proof (depends_on_mention p ds after Hp Hne Hd Ha) as HD. rewrite E in HD |- *.
    rewrite !str_app_cons in *. cbn [depends_all]. rewrite HD. by left.
  - pose proof (depends_on_before c before p (ds +:+ after)) as HB.
    pose proof (depends_on_shorter (String c before +:+ p +:+ ds +:+ after)) as HS.
    rewrite !(str_app_cons c) in *. cbn [depends_all].
    destruct (depends_on _) as [[d rest]|] eqn:ED.
    + destruct (HB d rest Hp eq_refl) as [a' ->]. right. apply IH. specialize (HS _ _ eq_refl). lia.
    + apply IH. simpl in HL. lia.
Qed.


(** ** Calls only accumulate *)

Class Mono {A} (m : Client A) := mono s : (cs_calls s ≤ cs_calls (m s).1)%nat.

#[export] Instance mono_ret {A} (a : A) : Mono (ret a).
Proof. by intros s. Qed.
#[export] Instance mono_fail {A} e : Mono (@fail A e).
Proof. by intros s. Qed.
#[export] Instance mono_bind {A B} (m : Client A) (k : A → Client B) :
  Mono m → (∀ a, Mono (k a)) → Mono (client_bind m k).
Proof.
  intros Hm Hk s. unfold client_bind. pose proof (mono (m := m) s) as H.
  destruct (m s) as [s' [a|e]]; simpl in *; [|done]. pose proof (mono (m := k a) s'). lia.
Qed.
#[export] Instance mono_try {A} (m : Client A) : Mono m → Mono (try m).
Proof. intros Hm s. unfold try. pose proof (mono (m := m) s). by destruct (m s). Qed.
#[export] Instance mono_external {A} (answer : nat → A) : Mono (external answer).
Proof. intros s. simpl. lia. Qed.
Lemma mono_modify f : (∀ s, cs_calls (f s) = cs_calls s) → Mono (modify f).
Proof. intros H s. simpl. by rewrite H. Qed.
#[export] Hint Extern 2 (Mono (modify _)) => (apply mono_modify; intros ?; by repeat case_match) : typeclass_instances.
#[export] Hint Extern 3 (Mono _) =>
  (match goal with |- Mono (match ?x with _ => _ end) => destruct x end) : typeclass_instances.
Ltac mono := intros; cbn beta zeta; repeat match goal with
  | |- Mono (match ?x with _ => _ end) => destruct x
  end; apply _.

Section MonoInstances.
Context (env : GiteaEnv) (c : TrackerClient).
#[export] Instance mono_getIssue n : Mono (getIssueByNumberWithMetadata env n).
Proof. unfold getIssueByNumberWithMetadata. apply mono_bind; mono. Qed.
#[export] Instance mono_listPage label st page : Mono (listIssuesPage env label st page).
Proof. unfold listIssuesPage. apply mono_bind; mono. Qed.
#[export] Instance mono_should_stop e : Mono (ShouldStopIssueStateRefresh env e).
Proof. unfold ShouldStopIssueStateRefresh, ctx_Err. mono. Qed.
#[export] Instance mono_cacheIssueNumber issue : Mono (cacheIssueNumber issue).
Proof. unfold cacheIssueNumber. apply mono_modify. intros s. by destruct (_ || _). Qed.
#[export] Instance mono_cachedIssue n : Mono (cachedIssueByNumber env n).
Proof.
  assert (Mono (fetch_and_cache env n)) as H.
  { unfold fetch_and_cache, getIssueByNumber. apply mono_bind; [apply _|].
    intros [issue|]; [destruct (negb _); [apply _|]|]; (apply mono_bind; [by apply mono_modify|apply _]). }
  intros s. unfold cachedIssueByNumber. destruct (_ ≫= _); [done|apply H].
Qed.
#[export] Instance mono_blockerRef n policy : Mono (blockerRefForNumber env n policy).
Proof.
  unfold blockerRefForNumber, join_ctx, ctx_Err. apply mono_bind; [apply _|]. intros [e|e]; [apply _|].
  apply mono_bind; [mono|]. intros []; apply _.
Qed.
#[export] Instance mono_blocker_loop policy matches seen refs : Mono (blocker_loop env policy matches seen refs).
Proof.
  revert seen refs. induction matches as [|m rest IH]; intros seen refs; simpl; [apply _|].
  destruct (parseUnseenBlockerNumber m seen); apply _.
Qed.
#[export] Instance mono_buildBlockedBy body policy : Mono (buildBlockedBy env body policy).
Proof. unfold buildBlockedBy. apply _. Qed.
#[export] Instance mono_scopeIssue issue wanted : Mono (scopeIssue env issue wanted).
Proof. unfold scopeIssue. mono. Qed.
#[export] Instance mono_collect batch wanted seen out : Mono (collectScopePage env batch wanted seen out).
Proof.
  revert seen out. induction batch as [|issue rest IH]; intros seen out; simpl; [apply _|].
  destruct (bool_decide _); [apply _|]. apply mono_bind; [apply _|]. intros _.
  apply mono_bind; [apply _|]. intros []; apply _.
Qed.
#[export] Instance mono_finishCapProbe out batch h : Mono (finishCapProbe out batch h).
Proof. unfold finishCapProbe. destruct h, batch; try apply _; (apply mono_bind; [by apply mono_modify|apply _]). Qed.
#[export] Instance mono_pageStep label st page maxPages wanted seen out :
  Mono (scopePageStep env label st page maxPages wanted seen out).
Proof. unfold scopePageStep. apply _. Qed.
#[export] Instance mono_page_loop label st maxPages wanted n page seen out :
  Mono (page_loop env label st maxPages wanted n page seen out).
Proof.
  revert page seen out. induction n as [|n IH]; intros; simpl; [apply _|].
  apply mono_bind; [apply _|]. intros []; apply _.
Qed.
#[export] Instance mono_listLabel label st wanted seen :
  Mono (listIssuesByStateLabel env c label st wanted seen).
Proof. unfold listIssuesByStateLabel. apply _. Qed.
#[export] Instance mono_label_loop st wanted labels seen out capped :
  Mono (label_loop env c st wanted labels seen out capped).
Proof. revert seen out capped. induction labels as [|l labels IH]; intros; simpl; apply _. Qed.
#[export] Instance mono_buildRefreshed issue state : Mono (buildRefreshedIssueState env issue state).
Proof. unfold buildRefreshedIssueState. apply _. Qed.
#[export] Instance mono_refresh_found ref n issue b : Mono (refresh_found env ref n issue b).
Proof. unfold refresh_found. apply _. Qed.
#[export] Instance mono_refresh_ref ref : Mono (refresh_ref env ref).
Proof.
  unfold refresh_ref. apply mono_bind; [by intros s|apply _].
Qed.
#[export] Instance mono_refresh_loop refs states errs : Mono (refresh_loop env refs states errs).
Proof.
  revert states errs. induction refs as [|ref rest IH]; intros; simpl; [apply _|].
  apply mono_bind; [apply _|]. intros [| |e checkStop]; [apply _..|].
  apply mono_bind; [destruct checkStop; apply _|]. intros []; apply _.
Qed.
End MonoInstances.

(** ** Weakest preconditions

    What holds after [m] when it made no call beyond the [calls]-th. *)

Section Wp.
Context (calls : nat).

Definition wp {A} (m : Client A) (Q : ClientState → A + Err → Prop) (s : ClientState) : Prop :=
  (cs_calls (m s).1 ≤ calls)%nat → Q (m s).1 (m s).2.

Lemma wp_intro {A} (m : Client A) (Q : ClientState → A + Err → Prop) s : Q (m s).1 (m s).2 → wp m Q s.
Proof. by intros H _. Qed.

Lemma wp_mono {A} (m : Client A) (Q Q' : ClientState → A + Err → Prop) s :
  wp m Q s → (∀ s r, Q s r → Q' s r) → wp m Q' s.
Proof. unfold wp. auto. Qed.

Lemma wp_bind {A B} (m : Client A) (k : A → Client B) `{!∀ a, Mono (k a)} Q s :
  wp m (λ s r, match r with inl a => wp (k a) Q s | inr e => Q s (inr e) end) s →
  wp (client_bind m k) Q s.
Proof.
  unfold wp, client_bind. destruct (m s) as [s' [a|e]]; simpl; [|done].
  intros HQ Hc. apply HQ; [|done]. pose proof (mono (m := k a) s'). lia.
Qed.

Lemma wp_try {A} (m : Client A) (Q : ClientState → (A + Err) + Err → Prop) s :
  wp m (λ s r, Q s (inl r)) s → wp (try m) Q s.
Proof. unfold wp, try. by destruct (m s). Qed.

(** The rule for a part whose specification [Q] is known. *)
Lemma wp_seq {A B} (m : Client A) (k : A → Client B) `{!∀ a, Mono (k a)}
    (Q : ClientState → A + Err → Prop) (R : ClientState → B + Err → Prop) s :
  wp m Q s → (∀ s' a, Q s' (inl a) → wp (k a) R s') → (∀ s' e, Q s' (inr e) → R s' (inr e)) →
  wp (client_bind m k) R s.
Proof.
  intros Hm Hk He. apply wp_bind; [apply _|]. eapply wp_mono; [exact Hm|]. intros s' [a|e]; auto.
Qed.
End Wp.

Section Evidence.
Context (env : GiteaEnv) (known : gmap string Z) (first calls : nat).
Notation wp := (wp calls).

(** ** Evidence *)

Definition issue_result (answer : HttpAnswer RawIssue) : option (GiteaIssue * bool) + Err :=
  match answer with
  | HttpFailed e => inr [e]
  | HttpResponse status body =>
      if status =? 404 then inl None
      else if status =? 429 then inr [ErrRateLimited]
      else if negb (status_ok status) then inr [ErrStatus status]
      else match body with
           | inr e => inr [e]
           | inl raw => match decodeGiteaIssueStateResponse raw with
                        | inl issue => inl (Some issue)
                        | inr e => inr e
                        end
           end
  end.
Definition page_result (answer : HttpAnswer (list GiteaIssue * list string)) : list GiteaIssue * bool + Err :=
  match answer with
  | HttpFailed e => inr [e]
  | HttpResponse status body =>
      if status =? 429 then inr [ErrRateLimited]
      else if negb (status_ok status) then inr [ErrStatus status]
      else match body with
           | inr e => inr [e]
           | inl (issues, links) => inl (issues, hasNextPage links)
           end
  end.

(** Among the calls from [first] up to [calls], Gitea answered a request for issue [n] with
    this issue; with a 404. *)
Definition answered (n : Z) (issue : GiteaIssue) (bodyPresent : bool) : Prop :=
  ∃ i, (first ≤ i < calls)%nat ∧ issue_result (e_issue env i n) = inl (Some (issue, bodyPresent)).
Definition answered_404 (n : Z) : Prop :=
  ∃ i, (first ≤ i < calls)%nat ∧ issue_result (e_issue env i n) = inl None.
Definition answered_page (label state : string) (page : Z) (batch : list GiteaIssue) (hasNext : bool) : Prop :=
  ∃ i, (first ≤ i < calls)%nat ∧ page_result (e_page env i label state page) = inl (batch, hasNext).

Definition seen_issue (issue : GiteaIssue) : Prop :=
  (∃ n b, answered n issue b) ∨ (∃ l st p batch h, answered_page l st p batch h ∧ issue ∈ batch).

(** Where a cached number comes from. *)
Definition number_known (id : string) (n : Z) : Prop :=
  known !! id = Some n ∨ ∃ issue, seen_issue issue ∧ giteaIssueID issue = id ∧ gi_Number issue = n.

Definition entry_ok (n : Z) (e : blockerCacheEntry) : Prop :=
  if bc_found e then (∃ b, answered n (bc_issue e) b) ∧ gi_Number (bc_issue e) = n else answered_404 n.

Record caches_ok (s : ClientState) : Prop := {
  calls_ok : (first ≤ cs_calls s)%nat;
  numbers_ok id n : issueNumbers s !! id = Some n → number_known id n;
  entries_ok m n e : blockerCache s = Some m → m !! n = Some e → entry_ok n e
}.

(** ** Requests *)

Lemma getIssue_eq n s :
  getIssueByNumberWithMetadata env n s =
  (s <| cs_calls ::= S |>, issue_result (e_issue env (cs_calls s) n)).
Proof.
  unfold getIssueByNumberWithMetadata, client_bind, external, issue_result, ret, fail.
  destruct (e_issue _ _ _) as [e|status [raw|e]]; [done| |];
    destruct (status =? 404), (status =? 429), (status_ok status); try done.
  simpl. by destruct (decodeGiteaIssueStateResponse raw).
Qed.

Lemma listPage_eq label st page s :
  listIssuesPage env label st page s =
  (s <| cs_calls ::= S |>, page_result (e_page env (cs_calls s) label st page)).
Proof.
  unfold listIssuesPage, client_bind, external, page_result, ret, fail.
  destruct (e_page _ _ _ _ _) as [e|status [[l1 l2]|e]]; [done| |];
    destruct (status =? 429), (status_ok status); done.
Qed.

(** A step that makes calls but leaves the caches. *)
Lemma caches_ok_calls s : caches_ok s → caches_ok (s <| cs_calls ::= S |>).
Proof. intros [H0 H1 H2]. constructor; [simpl; lia|done..]. Qed.

Lemma wp_getIssue n s :
  caches_ok s →
  wp (getIssueByNumberWithMetadata env n) (λ s' r, caches_ok s' ∧
    match r with
    | inl (Some (issue, b)) => answered n issue b
    | inl None => answered_404 n
    | inr _ => True
    end) s.
Proof.
  intros HC. unfold GiteaProps.wp. rewrite getIssue_eq. cbn [fst snd]. intros HN.
  split; [by apply caches_ok_calls|]. pose proof (calls_ok s HC). cbn in HN.
  destruct (issue_result _) as [[[issue b]|]|e] eqn:E; [exists (cs_calls s); split; [lia|done]..|done].
Qed.

Lemma wp_should_stop e s :
  caches_ok s → wp (ShouldStopIssueStateRefresh env e) (λ s' r, caches_ok s' ∧ ∃ b, r = inl b) s.
Proof.
  intros HC. apply wp_intro. unfold ShouldStopIssueStateRefresh. destruct (existsb _ _); [eauto|].
  simpl. split; [by apply caches_ok_calls|eauto].
Qed.

Lemma wp_cacheIssueNumber issue s :
  caches_ok s → seen_issue issue →
  wp (cacheIssueNumber issue) (λ s' r, caches_ok s' ∧ r = inl tt ∧ blockerCache s' = blockerCache s) s.
Proof.
  intros HC HS. apply wp_intro. unfold cacheIssueNumber, modify. simpl.
  destruct (_ || _); [done|]. split; [|done]. destruct HC as [H0 H1 H2]. constructor; [done| |done].
  intros id n. simpl. rewrite lookup_insert_Some. intros [[<- <-]|[_ H]]; [|by apply H1].
  right. by exists issue.
Qed.

(** ** Blockers *)

Lemma caches_ok_entry s n e :
  caches_ok s → entry_ok n e → caches_ok (s <| blockerCache ::= fmap (insert n e) |>).
Proof.
  intros [H0 H1 H2] He. constructor; [done|done|]. simpl. intros m k e' Hm Hk.
  destruct (blockerCache s) as [m0|] eqn:E; simplify_eq/=.
  apply lookup_insert_Some in Hk as [[<- <-]|[_ Hk]]; [done|by eapply H2].
Qed.

Lemma wp_cachedIssue n s :
  caches_ok s →
  wp (cachedIssueByNumber env n) (λ s' r, caches_ok s' ∧
    match r with inl e => entry_ok n e | inr _ => True end) s.
Proof.
  intros HC. unfold GiteaProps.wp, cachedIssueByNumber. destruct (_ ≫= _) as [e|] eqn:E.
  { intros _. apply bind_Some in E as (m & Hm & He). split; [done|]. by eapply (entries_ok s HC). }
  fold (wp (fetch_and_cache env n) (λ s' r, caches_ok s' ∧
    match r with inl e => entry_ok n e | inr _ => True end) s). unfold fetch_and_cache.
  unfold getIssueByNumber. apply wp_bind; [apply _|]. eapply wp_seq; [apply _|by apply wp_getIssue| |naive_solver].
  intros s1 [[issue b]|] [HC1 HR].
  - apply wp_intro; simpl. destruct (Z.eqb_spec (gi_Number issue) n); simpl; [|done].
    assert (entry_ok n {| bc_issue := issue; bc_found := true |}) as He by (split; [by exists b|done]).
    split; [|done]. by apply caches_ok_entry.
  - apply wp_intro; simpl. split; [|done]. by apply caches_ok_entry.
Qed.

(** What is known of the reference to blocker [n]. *)
Definition blocker_outcome (n : Z) (r : option BlockerRef) : Prop :=
  match r with
  | None => answered_404 n
  | Some b =>
      br_Identifier b = hash_number n ∧
      (br_State b = "" ∨
       ∃ issue p, answered n issue p ∧ br_ID b = giteaIssueID issue ∧
         br_State b = (IssueStateFromLabels (gi_Labels issue) DefaultStateLabelMappings).1)
  end.

Lemma wp_blockerRef n policy s :
  caches_ok s →
  wp (blockerRefForNumber env n policy) (λ s' r, caches_ok s' ∧
    match r with inl b => blocker_outcome n b | inr _ => policy = blockerLookupHaltRefresh end) s.
Proof.
  intros HC. unfold blockerRefForNumber. apply wp_bind; [apply _|]. apply wp_try.
  eapply wp_mono; [by apply wp_cachedIssue|]. intros s1 [e|err] [HC1 He].
  - apply wp_intro; simpl. split; [done|]. unfold entry_ok in He.
    destruct (bc_found e); [|done]. destruct He as [[b Hb] Hn]. simpl. rewrite Hn.
    split; [done|]. right. by exists (bc_issue e), b.
  - set (placeholder := Some {| br_ID := ""; br_Identifier := hash_number n; br_State := "" |}).
    assert (blocker_outcome n placeholder) as HP by (split; [done|by left]).
    destruct policy; [by apply wp_intro|].
    eapply wp_seq; [apply _|by apply wp_should_stop|..]; [|naive_solver].
    intros s2 stop [HC2 _]. destruct stop; [|by apply wp_intro].
    apply wp_intro; simpl. split; [by apply caches_ok_calls|done].
Qed.

(** The distinct positive numbers among the matches, in order, not seen before. *)
Fixpoint blocker_numbers (matches : list string) (seen : gset Z) : list Z :=
  match matches with
  | [] => []
  | m :: rest => match parseUnseenBlockerNumber m seen with
                 | None => blocker_numbers rest seen
                 | Some n => n :: blocker_numbers rest ({[n]} ∪ seen)
                 end
  end.

Lemma elem_of_blocker_numbers matches seen n :
  n ∈ blocker_numbers matches seen ↔ n ∉ seen ∧ 0 < n ∧ ∃ m, m ∈ matches ∧ ParseInt m = Some n.
Proof.
  revert seen. induction matches as [|m rest IH]; intros seen; simpl.
  { split; [set_solver|]. intros (_ & _ & m & Hm & _). set_solver. }
  setoid_rewrite elem_of_cons. unfold parseUnseenBlockerNumber.
  destruct (ParseInt m) as [k|] eqn:EK; [|rewrite IH; naive_solver congruence].
  destruct (Z.leb_spec k 0); simpl; [rewrite IH; naive_solver lia|].
  case_bool_decide as HS; [rewrite IH; naive_solver congruence|].
  rewrite elem_of_cons, IH. split.
  - intros [->|(Hn & ? & m' & ? & ?)]; [by eauto 10|]. split; [set_solver|]. eauto.
  - intros (Hn & ? & m' & [->|?] & ?); [left; congruence|].
    destruct (decide (n = k)) as [->|?]; [by left|right]. split; [set_solver|]. eauto.
Qed.

Lemma wp_blocker_loop policy matches seen refs s :
  caches_ok s →
  wp (blocker_loop env policy matches seen refs) (λ s' r, caches_ok s' ∧
    match r with
    | inl l => ∃ outcomes, Forall2 blocker_outcome (blocker_numbers matches seen) outcomes ∧
                 l = refs ++ omap id outcomes
    | inr _ => policy = blockerLookupHaltRefresh
    end) s.
Proof.
  revert seen refs s. induction matches as [|m rest IH]; intros seen refs s HC; simpl.
  { apply wp_intro; simpl. split; [done|]. exists []. by rewrite app_nil_r. }
  destruct (parseUnseenBlockerNumber m seen) as [n|]; [|by apply IH].
  eapply wp_seq; [apply _|by apply wp_blockerRef| |naive_solver].
  intros s1 r [HC1 Hr]. eapply wp_mono; [by apply IH|]. intros s2 [l|e] [HC2 HR]; [|done].
  split; [done|]. destruct HR as (outs & HF & ->). exists (r :: outs). split; [by constructor|].
  destruct r; simpl; by rewrite <- app_assoc || rewrite app_nil_r.
Qed.

(** What a list of blockers says about the references of a body. *)
Definition blockers_of (body : string) (bs : list BlockerRef) : Prop :=
  ∃ outcomes, Forall2 blocker_outcome (blocker_numbers (dependsOnReferences body) ∅) outcomes ∧
    bs = omap id outcomes.

Lemma wp_buildBlockedBy body policy s :
  caches_ok s →
  wp (buildBlockedBy env body policy) (λ s' r, caches_ok s' ∧
    match r with
    | inl l => blockers_of body (default [] l)
    | inr _ => policy = blockerLookupHaltRefresh
    end) s.
Proof.
  intros HC. unfold buildBlockedBy. eapply wp_seq; [apply _|by apply wp_blocker_loop| |naive_solver].
  intros s1 l [HC1 (outs & HF & ->)]. apply wp_intro; simpl. split; [done|].
  exists outs. split; [done|]. simpl. by destruct (omap id outs).
Qed.

(** A gate that lets the blockers pass has seen every reference deleted or terminal. *)
Lemma blockers_of_open body bs terminal :
  blockers_of body bs → BlockedByNonTerminal bs terminal = false →
  ∀ m n, m ∈ dependsOnReferences body → ParseInt m = Some n → 0 < n →
  answered_404 n ∨
  ∃ issue p, answered n issue p ∧
    norm (IssueStateFromLabels (gi_Labels issue) DefaultStateLabelMappings).1 ∈ terminal ∧
    norm (IssueStateFromLabels (gi_Labels issue) DefaultStateLabelMappings).1 ≠ "".
Proof.
  intros (outs & HF & ->) HB m n Hm Hn Hpos.
  assert (n ∈ blocker_numbers (dependsOnReferences body) ∅) as Hin.
  { apply elem_of_blocker_numbers. split; [set_solver|eauto]. }
  apply list_elem_of_lookup in Hin as [j Hj].
  destruct (Forall2_lookup_l _ _ _ _ _ HF Hj) as (r & Hr & Ho).
  destruct r as [b|]; [|by left]. destruct Ho as [_ Ho].
  assert (b ∈ omap id outs) as Hb.
  { apply list_elem_of_omap. exists (Some b). split; [|done]. by apply list_elem_of_lookup_2 in Hr. }
  assert (¬ (norm (br_State b) = "" ∨ norm (br_State b) ∉ terminal)) as Hopen.
  { intros Hx. assert (BlockedByNonTerminal (omap id outs) terminal = true) as HT.
    { apply BlockedByNonTerminal_iff. by exists b. } congruence. }
  destruct Ho as [E|(issue & p & Ha & _ & E)]; [rewrite E in Hopen; destruct Hopen; by left|].
  right. exists issue, p. rewrite E in Hopen. split; [done|]. split; [|tauto].
  destruct (decide (norm (IssueStateFromLabels (gi_Labels issue) DefaultStateLabelMappings).1 ∈ terminal)); tauto.
Qed.

(** ** The narrow refresh *)

(** No aiops/* label at all, configured or not. *)
Definition no_state_label (issue : GiteaIssue) : Prop :=
  let '(state, diagnostics) := IssueStateFromLabels (gi_Labels issue) DefaultStateLabelMappings in
  state = "" ∧ stateDiagnosticsContain diagnostics "unknown_aiops_label" = false.

(** Evidence for the row of reference [ref]. *)
Definition row_evidence (ref : IssueRef) (row : IssueState) : Prop :=
  ∃ n, giteaIssueRefMatchesNumber ref n = true ∧
  ((answered_404 n ∧ number_known (ref_ID ref) n ∧ row = absent_row) ∨
   ∃ issue b, answered n issue b ∧ gi_Number issue = n ∧
     giteaIssueMatchesRef (ref_ID ref) (ref_Identifier ref) issue = true ∧
     ((no_state_label issue ∧ row = absent_row) ∨
      ist_Outcome row = IssueStateOutcomeCurrent ∧
      ist_State row = (IssueStateFromLabels (gi_Labels issue) DefaultStateLabelMappings).1 ∧
      ist_State row ≠ "" ∧
      ist_Labels row = extractGiteaLabels (gi_Labels issue) ∧
      if giteaTodoWorkflowState (ist_State row)
      then b = true ∧ ∃ bs, ist_BlockedBy row = Some bs ∧ blockers_of (gi_Body issue) bs
      else ist_BlockedBy row = None)).

Lemma wp_buildRefreshed issue state s :
  caches_ok s →
  wp (buildRefreshedIssueState env issue state) (λ s' r, caches_ok s' ∧
    match r with
    | inl row => ist_Outcome row = IssueStateOutcomeCurrent ∧ ist_State row = state ∧
        ist_Labels row = extractGiteaLabels (gi_Labels issue) ∧
        if giteaTodoWorkflowState state
        then ∃ bs, ist_BlockedBy row = Some bs ∧ blockers_of (gi_Body issue) bs
        else ist_BlockedBy row = None
    | inr _ => True
    end) s.
Proof.
  intros HC. unfold buildRefreshedIssueState. destruct (giteaTodoWorkflowState state); simpl; [|by apply wp_intro].
  eapply wp_seq; [apply _|by apply wp_buildBlockedBy| |naive_solver].
  intros s1 bs [HC1 HB]. apply wp_intro; simpl. eauto 10.
Qed.

Lemma wp_refresh_found ref n issue b s :
  caches_ok s → answered n issue b → giteaIssueRefMatchesNumber ref n = true →
  wp (refresh_found env ref n issue b) (λ s' r, caches_ok s' ∧
    match r with inl (Row row) => row_evidence ref row | inl _ => True | inr _ => False end) s.
Proof.
  intros HC HA HM. unfold refresh_found.
  destruct (Z.eqb_spec (gi_Number issue) n) as [Hn|]; simpl; [|by apply wp_intro].
  destruct (giteaIssueMatchesRef _ _ _) eqn:ER; simpl; [|by apply wp_intro].
  eapply wp_seq; [apply _|apply wp_cacheIssueNumber; [done|left; by exists n, b]| |naive_solver].
  intros s1 _ [HC1 _].
  destruct (IssueStateFromLabels _ _) as [state ds] eqn:EL.
  destruct (giteaTodoWorkflowState state && negb b) eqn:ET; [by apply wp_intro|].
  destruct (String.eqb_spec state "") as [Es|Es].
  - destruct (stateDiagnosticsContain ds "unknown_aiops_label") eqn:EU; [by apply wp_intro|].
    apply wp_intro; simpl. split; [done|]. exists n. split; [done|]. right. exists issue, b.
    split_and!; [done..|]. left. unfold no_state_label. by rewrite EL.
  - apply wp_bind; [apply _|]. apply wp_try. eapply wp_mono; [by apply wp_buildRefreshed|].
    intros s2 [row|e] [HC2 HR]; apply wp_intro; simpl; [|done]. split; [done|].
    destruct HR as (H1 & H2 & H3 & H4). exists n. split; [done|]. right. exists issue, b.
    split_and!; [done..|]. right. rewrite EL. simpl. split_and!; [done..| |done|]; [by rewrite H2|].
    rewrite H2. destruct (giteaTodoWorkflowState state); [|done].
    simpl in ET. split; [by destruct b|done].
Qed.

Lemma wp_refresh_ref ref s :
  caches_ok s →
  wp (refresh_ref env ref) (λ s' r, caches_ok s' ∧
    match r with inl (Row row) => row_evidence ref row | inl _ => True | inr _ => False end) s.
Proof.
  intros HC. unfold refresh_ref. apply wp_bind; [apply _|]. apply wp_intro.
  unfold issueNumberForStateRefresh. cbn [fst snd].
  destruct (cachedIssueNumber s (ref_ID ref)) as [n|] eqn:EC; cbn [fst snd].
  - assert (number_known (ref_ID ref) n) as HK.
    { unfold cachedIssueNumber in EC. destruct (issueNumbers s !! _) as [m|] eqn:EI; [|done].
      destruct (0 <? m); [|done]. injection EC as ->. by apply (numbers_ok s HC). }
    destruct (giteaIssueRefMatchesNumber ref n) eqn:EM; simpl; [|by apply wp_intro].
    apply wp_bind; [apply _|]. apply wp_try. eapply wp_mono; [by apply wp_getIssue|].
    intros s1 [[[issue b]|]|e] [HC1 HA]; [by apply wp_refresh_found| |by apply wp_intro].
    apply wp_intro; simpl. split; [done|]. exists n. split; [done|]. by left.
  - destruct (IssueNumberFromRef _ _) as [n|]; cbn [fmap option_fmap option_map]; [|by apply wp_intro].
    destruct (giteaIssueRefMatchesNumber ref n) eqn:EM; simpl; [|by apply wp_intro].
    apply wp_bind; [apply _|]. apply wp_try. eapply wp_mono; [by apply wp_getIssue|].
    intros s1 [[[issue b]|]|e] [HC1 HA]; [by apply wp_refresh_found|by apply wp_intro..].
Qed.

Definition rows_ok (all : list IssueRef) (states : gmap string IssueState) : Prop :=
  ∀ k row, states !! k = Some row →
    row = unknown_row ∨ ∃ ref, ref ∈ all ∧ ref_ID ref = k ∧ row_evidence ref row.

Lemma wp_refresh_loop all refs states errs s :
  caches_ok s → refs ⊆ all → rows_ok all states → (∀ r, r ∈ all → is_Some (states !! ref_ID r)) →
  wp (refresh_loop env refs states errs) (λ s' r, caches_ok s' ∧
    match r with
    | inl (states', _) => rows_ok all states' ∧ dom states' = dom states
    | inr _ => False
    end) s.
Proof.
  revert states errs s. induction refs as [|ref rest IH]; intros states errs s HC Hsub HR Hall; simpl.
  { by apply wp_intro. }
  eapply wp_seq; [apply _|by apply wp_refresh_ref| |naive_solver].
  intros s1 res [HC1 HE]. assert (rest ⊆ all) as Hsub' by set_solver.
  destruct res as [|row|e checkStop]; [by apply IH| |].
  - assert (ref ∈ all) as Hin by set_solver.
    eapply wp_mono; [apply IH; [done|done| |]|].
    + intros k row' Hk. apply lookup_insert_Some in Hk as [[<- <-]|[_ Hk]]; [|by apply HR].
      right. by exists ref.
    + intros r Hr. rewrite lookup_insert_is_Some'. right. by apply Hall.
    + intros s2 [[states' ?]|?] [HC2 H]; [|done]. destruct H as [H1 H2]. split_and!; [done..|].
      rewrite H2, dom_insert_L. apply subseteq_union_1_L, singleton_subseteq_l, elem_of_dom. by apply Hall.
  - assert (wp (if checkStop then ShouldStopIssueStateRefresh env e else ret false)
      (λ s' r, caches_ok s' ∧ ∃ b, r = inl b) s1) as HS.
    { destruct checkStop; [by apply wp_should_stop|]. apply wp_intro. simpl. eauto. }
    eapply wp_seq; [apply _|exact HS| |naive_solver].
    intros s2 [] [HC2 _]; [by apply wp_intro|by apply IH].
Qed.
End Evidence.

(** The caches of a call start from what the client knew, with an empty blocker cache. *)
Lemma caches_ok_fresh env calls s :
  caches_ok env (issueNumbers s) (cs_calls s) calls (s <| blockerCache := Some ∅ |>).
Proof.
  constructor; simpl; [done|by left|]. intros m n e [= <-]. by rewrite lookup_empty.
Qed.

(** The narrow refresh of claimed Gitea issues is total and reports only what Gitea
    said.  It always returns, with one row for exactly the requested ids, whatever the
    errors.  Every row other than Unknown has evidence: Absent needs a 404 for a number
    the client had cached for that id, or the issue itself, matching the reference,
    without any aiops/* label; Current carries the state and labels of an answered issue
    that matches the reference, and for a Todo issue the blockers its body names. *)
Theorem gitea_refresh_evidence env c refs s :
  ∃ s' states errs,
    FetchIssueStatesByRefs env c refs s = (s', inl (states, errs)) ∧
    (∀ k, is_Some (states !! k) ↔ k ∈ requested_ids refs) ∧
    rows_ok env (issueNumbers s) (cs_calls s) (cs_calls s') (UnknownIssueStatesByRefs refs).2 states.
Proof.
  destruct (UnknownIssueStatesByRefs_inv refs) as (Hv & Hs & _ & Hin).
  unfold FetchIssueStatesByRefs. destruct (UnknownIssueStatesByRefs refs) as [states0 rs] eqn:EU. simpl in *.
  assert (∀ calls, rows_ok env (issueNumbers s) (cs_calls s) calls rs states0) as HR.
  { intros calls k row Hk. left. by eapply Hv. }
  destruct (configured c); simpl; [|eauto 10].
  destruct rs as [|r rs']; [eauto 10|]. set (all := r :: rs') in *.
  unfold withBlockerCache, modify, client_bind. cbn beta iota zeta.
  set (s0 := s <| blockerCache := Some ∅ |>). set (run := refresh_loop env all states0 [] s0).
  pose proof (wp_refresh_loop env (issueNumbers s) (cs_calls s) (cs_calls run.1) all all states0 [] s0
    (caches_ok_fresh env _ s)) as H.
  unfold wp in H. fold run in H. destruct run as [s' [[states errs]|e]]; simpl in H.
  - destruct H as (_ & H1 & H2); [done|by apply HR| |done|].
    { intros x Hx. apply Hs, Hin, list_elem_of_fmap. by exists x. }
    exists s', states, errs. split_and!; [done| |done]. intros k. by rewrite <- elem_of_dom, H2, elem_of_dom.
  - destruct H as [_ []]; [done|by apply HR| |done]. intros x Hx. apply Hs, Hin, list_elem_of_fmap. by exists x.
Qed.

(** Evidence stays as more calls are made. *)
Lemma caches_ok_later env known first calls calls' s :
  (calls ≤ calls')%nat → caches_ok env known first calls s → caches_ok env known first calls' s.
Proof.
  intros Hc. assert (∀ n issue b, answered env first calls n issue b → answered env first calls' n issue b) as HA.
  { intros n issue b (i & Hi & H). exists i. split; [lia|done]. }
  intros [H0 H1 H2]. constructor; [done| |].
  - intros id n Hn. destruct (H1 id n Hn) as [H|(issue & HS & H)]; [by left|right].
    exists issue. split; [|done]. destruct HS as [(m & b & H')|(l & st & p & batch & h & (i & Hi & H') & Hin)].
    + left. eauto.
    + right. exists l, st, p, batch, h. split; [|done]. exists i. split; [lia|done].
  - intros m n e Hm Hn. specialize (H2 m n e Hm Hn). unfold entry_ok in *. destruct (bc_found e).
    + destruct H2 as [[b Hb] ?]. eauto.
    + destruct H2 as (i & Hi & H). exists i. split; [lia|done].
Qed.

(** A blocked Gitea issue fails closed.  Reading the blockers of a body never fails in
    the listing; and when the dispatch gate lets the list pass, every issue number that the
    body mentions as "Depends on #N", in any case and anywhere in the text, was answered,
    either with a 404 or with an issue whose derived state is terminal.  A lookup that failed leaves a
    placeholder that blocks. *)
Theorem gitea_blockers_fail_closed env known first body s terminal :
  caches_ok env known first (cs_calls s) s →
  ∃ s' blockedBy,
    buildBlockedBy env body blockerLookupBestEffort s = (s', inl blockedBy) ∧
    (BlockedByNonTerminal (default [] blockedBy) terminal = false →
     ∀ ds n, mentions body ds → ParseInt ds = Some n → 0 < n →
     answered_404 env first (cs_calls s') n ∨
     ∃ issue p, answered env first (cs_calls s') n issue p ∧
       norm (IssueStateFromLabels (gi_Labels issue) DefaultStateLabelMappings).1 ∈ terminal ∧
       norm (IssueStateFromLabels (gi_Labels issue) DefaultStateLabelMappings).1 ≠ "").
Proof.
  intros HC. set (run := buildBlockedBy env body blockerLookupBestEffort s).
  pose proof (wp_buildBlockedBy env known first (cs_calls run.1) body blockerLookupBestEffort s) as H.
  pose proof (mono (m := buildBlockedBy env body blockerLookupBestEffort) s) as HM.
  apply (caches_ok_later _ _ _ _ _ _ HM) in HC. specialize (H HC). unfold wp in H. fold run in H.
  destruct run as [s' [bs|e]]; destruct H as [_ H]; [done| |done..].
  exists s', bs. split; [done|]. intros HB m n Hm Hn Hpos.
  exact (blockers_of_open env first _ body _ terminal H HB m n (mention_found _ _ Hm) Hn Hpos).
Qed.

Definition demo_issue (n : Z) (label body : string) : HttpAnswer RawIssue :=
  HttpResponse 200 (inl {| raw_ID := Some (100 + n); raw_Number := Some n; raw_Body := Some body;
    raw_Labels := Some [Some label]; raw_Title := "t"; raw_HTMLURL := "u"; raw_CreatedAt := "";
    raw_UpdatedAt := ""; raw_decodes := true |}).
Definition demo_env : GiteaEnv :=
  {| e_issue := λ _ n, if n =? 1 then demo_issue 1 "aiops/todo" "Depends on #2, DEPENDS ON #3 and depends on #4"
                       else if n =? 2 then demo_issue 2 "aiops/done" ""
                       else if n =? 3 then HttpResponse 404 (inr ErrDecode)
                       else HttpResponse 503 (inr ErrDecode);
     e_page := λ _ _ _ p, HttpResponse 200 (inl ([{| gi_ID := 100 + p; gi_Number := p; gi_Title := "t";
         gi_Body := ""; gi_HTMLURL := "u"; gi_CreatedAt := ""; gi_UpdatedAt := "";
         gi_Labels := [{| lb_Name := "aiops/todo" |}] |}], []));
     e_ctx := λ _, None |}.
Definition demo_client : TrackerClient :=
  {| BaseURL := "https://gitea"; Token := "t"; Owner := "o"; Repo := "r"; PaginationMaxPages := 0;
     ActiveStates := ["Todo"; "In Progress"]; TerminalStates := [] |}.
Definition demo_state : ClientState :=
  {| cs_calls := 0; issueNumbers := {["104" := 4]}; paginationCapHits := 0; blockerCache := None |}.

Definition row_of (states : gmap string IssueState) (id : string) : IssueState :=
  default unknown_row (states !! id).

Example refresh_demo :
  let '(_, r) := FetchIssueStatesByRefs demo_env demo_client
    [{| ref_ID := "101"; ref_Identifier := "#1" |}; {| ref_ID := "3"; ref_Identifier := "#3" |}] demo_state in
  match r with
  | inl (states, errs) =>
      ist_State (row_of states "101") = "Todo" ∧
      ist_BlockedBy (row_of states "101") =
        Some [{| br_ID := "102"; br_Identifier := "#2"; br_State := "Done" |};
              {| br_ID := ""; br_Identifier := "#4"; br_State := "" |}] ∧
      ist_Outcome (row_of states "3") = IssueStateOutcomeUnknown ∧ errs = []
  | inr _ => False
  end.
Proof. vm_compute. done. Qed.

Lemma gitea_blockers_fail_closed_witness :
  ∃ s' blockedBy,
    buildBlockedBy demo_env "Depends on #2, depends on #3" blockerLookupBestEffort demo_state = (s', inl blockedBy) ∧
    BlockedByNonTerminal (default [] blockedBy) {["done"]} = false ∧
    answered_404 demo_env 0%nat (cs_calls s') 3.
Proof.
  destruct (gitea_blockers_fail_closed demo_env {["104" := 4]} 0%nat "Depends on #2, depends on #3" demo_state {["done"]})
    as (s' & bs & E & H).
  - constructor; [done|by left|done].
  - assert (s' = (buildBlockedBy demo_env "Depends on #2, depends on #3" blockerLookupBestEffort demo_state).1 ∧
      BlockedByNonTerminal (default [] bs) {["done"]} = false) as [_ HB].
    { split; [by rewrite E|]. vm_compute in E. injection E as <- <-. vm_compute. reflexivity. }
    exists s', bs. split_and!; [exact E|exact HB|].
    destruct (H HB "3" 3) as [H3|(i & p & (n & _ & Hn) & _)]; [|reflexivity|lia|exact H3|].
    { exists "Depends on #2, ", "depends on #", "". done. }
    vm_compute in Hn. discriminate Hn.
Defined.

(** * The Gitea listing is complete or an error

    Pages, labels and duplicates: a listing that returns read every label's pages to the
    end, and returns every wanted issue on them once. *)


Definition derived (issue : GiteaIssue) : string :=
  (IssueStateFromLabels (gi_Labels issue) DefaultStateLabelMappings).1.

Section Listing.
Context (env : GiteaEnv) (c : TrackerClient) (known : gmap string Z) (wantedStates : gset string).
Context (from calls : nat).
Notation wp := (wp calls).
Notation caches_ok := (caches_ok env known from calls).
Notation answered_page := (answered_page env from calls).
Notation blockers_of := (blockers_of env from calls).
Context (Hwanted : wantedStates ≠ ∅).

Definition wanted (issue : GiteaIssue) : Prop := derived issue ≠ "" ∧ ToLower (derived issue) ∈ wantedStates.

(** The listed issue is the projection of an issue on an answered page. *)
Definition listed_from (i : Issue) : Prop :=
  ∃ label st page batch hasNext issue,
    answered_page label st page batch hasNext ∧ issue ∈ batch ∧ wanted issue ∧
    iss_ID i = giteaIssueID issue ∧ iss_Identifier i = hash_number (gi_Number issue) ∧
    iss_State i = derived issue ∧ iss_Labels i = extractGiteaLabels (gi_Labels issue) ∧
    blockers_of (gi_Body issue) (default [] (iss_BlockedBy i)).

(** Page [page] was answered, and what it lists is among [ids]. *)
Definition page_covered (label st : string) (ids : gset string) (page : Z) (batch : list GiteaIssue)
    (hasNext : bool) : Prop :=
  answered_page label st page batch hasNext ∧
  ∀ issue, issue ∈ batch → wanted issue → giteaIssueID issue ∈ ids.

(** The pages from [first] were read up to one that has no successor and is not full. *)
Definition pages_read (label st : string) (ids : gset string) (first : Z) : Prop :=
  ∃ last, first ≤ last ≤ IssueMaxPages c + 1 ∧
    (∀ p, first ≤ p ≤ last → ∃ batch h, page_covered label st ids p batch h) ∧
    ∃ batch, page_covered label st ids last batch false ∧ slice_len batch < listIssuesPageSize.

Lemma pages_read_mono label st ids ids' first :
  ids ⊆ ids' → pages_read label st ids first → pages_read label st ids' first.
Proof.
  intros Hs (last & Hl & HP & batch & [HA HC] & HB). exists last. split; [done|]. split.
  - intros p Hp. destruct (HP p Hp) as (b & h & [? ?]). exists b, h. split; [done|]. set_solver.
  - exists batch. split; [|done]. split; [done|]. set_solver.
Qed.

(** ** One issue, one page *)

Lemma wp_scopeIssue issue s :
  caches_ok s →
  wp (scopeIssue env issue wantedStates) (λ s' r, caches_ok s' ∧
    match r with
    | inl None => ¬ wanted issue
    | inl (Some i) => wanted issue ∧ iss_ID i = giteaIssueID issue ∧
        iss_Identifier i = hash_number (gi_Number issue) ∧ iss_State i = derived issue ∧
        iss_Labels i = extractGiteaLabels (gi_Labels issue) ∧
        blockers_of (gi_Body issue) (default [] (iss_BlockedBy i))
    | inr _ => True
    end) s.
Proof.
  intros HC. unfold scopeIssue, wanted. fold (derived issue).
  destruct (String.eqb_spec (derived issue) "") as [E|E]; [apply wp_intro; simpl; naive_solver|].
  rewrite (bool_decide_eq_false_2 _ Hwanted). simpl.
  destruct (bool_decide (ToLower (derived issue) ∈ wantedStates)) eqn:EW; simpl.
  2:{ apply bool_decide_eq_false in EW. apply wp_intro; simpl. naive_solver. }
  apply bool_decide_eq_true in EW.
  destruct (parseGiteaIssueTime (gi_CreatedAt issue)); [|by apply wp_intro].
  destruct (parseGiteaIssueTime (gi_UpdatedAt issue)); [|by apply wp_intro].
  eapply wp_seq; [apply _|by apply wp_buildBlockedBy| |naive_solver].
  intros s1 bs [HC1 HB]. apply wp_intro; simpl. naive_solver.
Qed.

(** What has been collected, on top of the ids [base]. *)
Record collected (base seen : gset string) (out : list Issue) : Prop := {
  col_seen : seen = base ∪ set_of (map iss_ID out);
  col_nodup : NoDup (map iss_ID out);
  col_fresh : ∀ i, i ∈ out → iss_ID i ∉ base;
  col_from : ∀ i, i ∈ out → listed_from i
}.

Lemma collected_nil base : collected base base [].
Proof. constructor; simpl; [set_solver|constructor|set_solver..]. Qed.

Lemma collected_snoc base seen out i :
  collected base seen out → iss_ID i ∉ seen → listed_from i →
  collected base ({[iss_ID i]} ∪ seen) (out ++ [i]).
Proof.
  intros [-> HN HF HL] Hi Hfrom. apply not_elem_of_union in Hi as [Hb Hi].
  rewrite elem_of_set_of in Hi. constructor.
  - unfold set_of. rewrite map_app, list_to_set_app_L. simpl. set_solver.
  - rewrite map_app. apply NoDup_app. simpl. split_and!; [done|set_solver|apply NoDup_singleton].
  - intros i' [H| ->%list_elem_of_singleton]%elem_of_app; [by apply HF|done].
  - intros i' [H| ->%list_elem_of_singleton]%elem_of_app; [by apply HL|done].
Qed.

Lemma wp_collect label st page full h batch base seen out s :
  caches_ok s → answered_page label st page full h → batch ⊆ full →
  collected base seen out →
  wp (collectScopePage env batch wantedStates seen out) (λ s' r, caches_ok s' ∧
    match r with
    | inl (out', seen') => collected base seen' out' ∧ seen ⊆ seen' ∧
        ∀ issue, issue ∈ batch → wanted issue → giteaIssueID issue ∈ seen'
    | inr _ => True
    end) s.
Proof.
  intros HC HA. revert seen out s HC.
  induction batch as [|issue rest IH]; intros seen out s HC Hsub HO; simpl.
  { apply wp_intro; simpl. split_and!; [done..|set_solver]. }
  assert (rest ⊆ full) as Hrest by set_solver. assert (issue ∈ full) as Hin by set_solver.
  case_bool_decide as Hseen.
  { eapply wp_mono; [by apply IH|]. intros s1 [[out' seen']|e] [HC1 HR]; [|done].
    destruct HR as (H1 & H2 & H3). split_and!; [done..|].
    intros i [->|Hi]%elem_of_cons Hw; [by apply H2|by apply H3]. }
  eapply wp_seq; [apply _|apply wp_cacheIssueNumber; [done|]|intros s1 _ [HC1 _]|naive_solver].
  { right. by exists label, st, page, full, h. }
  eapply wp_seq; [apply _|by apply wp_scopeIssue| |naive_solver].
  intros s2 [i|] [HC2 HS].
  - destruct HS as (Hw & Hid & Hident & Hst & Hlab & Hbl).
    eapply wp_mono; [apply IH; [done|done|rewrite <- Hid; apply collected_snoc; [done|by rewrite Hid|]]|].
    { by exists label, st, page, full, h, issue. }
    intros s3 [[out' seen']|e] [HC3 HR]; [|done]. destruct HR as (H1 & H2 & H3).
    split_and!; [done|done|set_solver|].
    intros i' [->|Hi]%elem_of_cons Hw'; [set_solver|by apply H3].
  - eapply wp_mono; [by apply IH|]. intros s3 [[out' seen']|e] [HC3 HR]; [|done].
    destruct HR as (H1 & H2 & H3). split_and!; [done..|].
    intros i' [->|Hi]%elem_of_cons Hw'; [done|by apply H3].
Qed.

(** ** The pages of a label *)

Lemma wp_listPage label st page s :
  caches_ok s →
  wp (listIssuesPage env label st page) (λ s' r, caches_ok s' ∧
    match r with inl (batch, h) => answered_page label st page batch h | inr _ => True end) s.
Proof.
  intros HC. unfold GiteaProps.wp. rewrite listPage_eq. cbn [fst snd]. intros HN.
  split; [by apply caches_ok_calls|]. pose proof (calls_ok _ _ _ _ s HC). cbn in HN.
  destruct (page_result _) as [[batch h]|e] eqn:E; [exists (cs_calls s); split; [lia|done]|done].
Qed.

Lemma wp_pageStep label st page base seen out s :
  caches_ok s → collected base seen out →
  wp (scopePageStep env label st page (IssueMaxPages c) wantedStates seen out)
    (λ s' r, caches_ok s' ∧
      match r with
      | inl (PageDone out' true) => True
      | inl (PageDone out' false) => ∃ seen' batch, collected base seen' out' ∧ seen ⊆ seen' ∧
          page_covered label st seen' page batch false ∧ slice_len batch < listIssuesPageSize
      | inl (PageMore out' seen') => page ≤ IssueMaxPages c ∧ collected base seen' out' ∧ seen ⊆ seen' ∧
          ∃ batch h, page_covered label st seen' page batch h
      | inr _ => True
      end) s.
Proof.
  intros HC HO. unfold scopePageStep.
  eapply wp_seq; [apply _|by apply wp_listPage| |naive_solver]. intros s1 [batch h] [HC1 HA].
  destruct (Z.ltb_spec (IssueMaxPages c) page) as [Hp|Hp].
  - apply wp_intro. unfold finishCapProbe. destruct h, batch as [|x batch]; simpl; try (split; [by destruct HC1|done]).
    split; [done|]. exists seen, []. split_and!; [done|done| |done]. split; [done|set_solver].
  - eapply wp_seq; [apply _|by apply (wp_collect label st page batch h)| |naive_solver].
    intros s2 [out' seen'] [HC2 (H1 & H2 & H3)].
    destruct (negb h && (slice_len batch <? listIssuesPageSize)) eqn:E; apply wp_intro; simpl.
    + apply andb_prop in E as [Hh Hl%Z.ltb_lt]. apply negb_true_iff in Hh as ->.
      split; [done|]. exists seen', batch. done.
    + split_and!; [done..|]. by exists batch, h.
Qed.

Lemma wp_page_loop label st n page base seen out s :
  in64 (IssueMaxPages c + 1) → 1 ≤ page → page + Z.of_nat n = IssueMaxPages c + 2 →
  caches_ok s → collected base seen out →
  wp (page_loop env label st (IssueMaxPages c) wantedStates n page seen out)
    (λ s' r, caches_ok s' ∧
      match r with
      | inl (out', true) => True
      | inl (out', false) => ∃ seen', collected base seen' out' ∧ seen ⊆ seen' ∧ pages_read label st seen' page
      | inr _ => True
      end) s.
Proof.
  intros H64. revert page seen out s. induction n as [|n IH]; intros page seen out s Hp Hn HC HO; simpl.
  { by apply wp_intro. }
  eapply wp_seq; [apply _|by apply wp_pageStep| |naive_solver]. intros s1 [out' capped|out' seen'] [HC1 HS].
  - apply wp_intro; simpl. split; [done|]. destruct capped; [done|].
    destruct HS as (seen' & batch & H1 & H2 & H3 & H4). exists seen'. split_and!; [done..|].
    exists page. split; [lia|]. split; [|by exists batch].
    intros p Hpp. assert (p = page) as -> by lia. by exists batch, false.
  - destruct HS as (Hle & H1 & H2 & batch & h & H3).
    assert (page +i 1 = page + 1) as -> by (apply wrap64_id; unfold in64, min64, max64 in *; lia).
    eapply wp_mono; [apply IH; [lia|lia|done|done]|].
    intros s2 [[out'' [|]]|e] [HC2 HR]; [done| |done]. split; [done|].
    destruct HR as (seen'' & G1 & G2 & last & Hl & HP & HB). exists seen''. split_and!; [done|set_solver|].
    exists last. split; [lia|]. split; [|done]. intros p Hpp.
    destruct (decide (p = page)) as [->|]; [|apply HP; lia].
    exists batch, h. destruct H3 as [HA Hcov]. split; [done|]. set_solver.
Qed.

Lemma wp_listLabel label st base s :
  in64 (PaginationMaxPages c) → caches_ok s →
  wp (listIssuesByStateLabel env c label st wantedStates base)
    (λ s' r, caches_ok s' ∧
      match r with
      | inl (out', true) => True
      | inl (out', false) => ∃ seen', collected base seen' out' ∧ pages_read label st seen' 1
      | inr _ => True
      end) s.
Proof.
  intros H64 HC. unfold listIssuesByStateLabel.
  assert (1 ≤ IssueMaxPages c ≤ max64) as HM.
  { unfold IssueMaxPages, listIssuesMaxPages, in64, min64, max64 in *.
    destruct (Z.ltb_spec 0 (PaginationMaxPages c)); lia. }
  destruct (decide (IssueMaxPages c = max64)) as [E|E].
  { rewrite E. change (Z.to_nat (max64 +i 1)) with O. by apply wp_intro. }
  assert (IssueMaxPages c +i 1 = IssueMaxPages c + 1) as ->
    by (apply wrap64_id; unfold in64, min64, max64 in *; lia).
  eapply wp_mono; [apply (wp_page_loop label st _ 1 base); [|lia|lia|done|apply collected_nil]|].
  { unfold in64, min64, max64 in *; lia. }
  intros s1 [[out' [|]]|e] [HC1 HR]; [done| |done]. split; [done|].
  destruct HR as (seen' & ? & _ & ?). by exists seen'.
Qed.

(** ** All labels *)

Lemma collected_app base out seen out' :
  collected ∅ base out → collected base seen out' → collected ∅ seen (out ++ out').
Proof.
  intros [-> HN _ HL] [-> HN' HF' HL']. constructor.
  - unfold set_of. rewrite map_app, list_to_set_app_L. set_solver.
  - rewrite map_app. apply NoDup_app. split_and!; [done| |done].
    intros x Hx Hx'. apply list_elem_of_fmap in Hx' as (i & -> & Hi). apply (HF' i Hi).
    apply elem_of_union_r, elem_of_set_of, Hx.
  - set_solver.
  - intros i [H|H]%elem_of_app; [by apply HL|by apply HL'].
Qed.

Lemma wp_label_loop st labels seen out capped s :
  in64 (PaginationMaxPages c) → caches_ok s → collected ∅ seen out →
  wp (label_loop env c st wantedStates labels seen out capped)
    (λ s' r, caches_ok s' ∧
      match r with
      | inl (out', []) => capped = [] ∧ ∃ seen', collected ∅ seen' out' ∧ seen ⊆ seen' ∧
          ∀ l, l ∈ labels → pages_read l st seen' 1
      | _ => True
      end) s.
Proof.
  intros H64. revert seen out capped s.
  induction labels as [|l labels IH]; intros seen out capped s HC HO; simpl.
  { apply wp_intro; simpl. split; [done|]. destruct capped; [|done]. split; [done|].
    exists seen. split_and!; [done..|set_solver]. }
  eapply wp_seq; [apply _|by apply wp_listLabel| |naive_solver]. intros s1 [issues [|]] [HC1 HS].
  - eapply wp_mono; [by apply IH|]. intros s2 [[out' [|]]|e] [HC2 HR]; [|done..].
    split; [done|]. destruct HR as [HR _]. by apply app_nil in HR as [_ ?].
  - destruct HS as (seen' & H1 & H2).
    assert (set_of (map iss_ID issues) ∪ seen = seen') as ->.
    { rewrite (col_seen _ _ _ H1). apply union_comm_L. }
    eapply wp_mono; [apply IH; [done|by eapply collected_app]|].
    intros s2 [[out' [|]]|e] [HC2 HR]; [|done..]. split; [done|].
    destruct HR as (-> & seen2 & G1 & G2 & G3). split; [done|]. exists seen2.
    assert (seen ⊆ seen') by (rewrite (col_seen _ _ _ H1); set_solver).
    split_and!; [done|set_solver|].
    intros l' [->|Hl]%elem_of_cons; [by eapply pages_read_mono|by apply G3].
Qed.
End Listing.

(** The queries of a listing: one per state label, or a single one without a label. *)
Definition queried (states : list string) : list string :=
  match StateLabelNamesForStates states DefaultStateLabelMappings with [] => [""] | l => l end.

(** A Gitea listing is complete or an error.  When it returns, every query (one per
    state label) was read page by page from the first to a page that is not full and has
    no successor, within the page cap and its probe; every issue on those pages whose
    labels derive a requested state is in the result; the result has no duplicate ids and
    holds only such issues, with the state, labels and blockers Gitea answered.  A page
    that fails or a query beyond the cap fails the whole listing. *)
Theorem gitea_listing_complete env c states s s' issues :
  in64 (PaginationMaxPages c) → normalizedStateSet states ≠ ∅ →
  ListIssuesByStates env c states s = (s', inl issues) →
  let wantedStates := normalizedStateSet states in
  let st := giteaAPIStateForWorkflowStates states (TerminalStates c) in
  NoDup (map iss_ID issues) ∧ (∀ i, i ∈ issues → listed_from env wantedStates (cs_calls s) (cs_calls s') i) ∧
  ∀ label, label ∈ queried states →
    pages_read env c wantedStates (cs_calls s) (cs_calls s') label st (set_of (map iss_ID issues)) 1.
Proof.
  intros H64 HW HL wantedStates st. revert HL. unfold ListIssuesByStates, queried.
  destruct (configured c); simpl; [|done]. rewrite (bool_decide_eq_false_2 _ HW).
  fold wantedStates st. unfold withBlockerCache, modify. unfold client_bind at 1. cbn beta iota zeta.
  set (s0 := s <| blockerCache := Some ∅ |>).
  assert (∀ calls, caches_ok env (issueNumbers s) (cs_calls s) calls s0) as HC.
  { intros calls. apply caches_ok_fresh. }
  assert (∀ calls seen, collected env wantedStates (cs_calls s) calls ∅ seen issues →
    seen = set_of (map iss_ID issues)) as HE.
  { intros calls seen Hc. rewrite (col_seen _ _ _ _ _ _ _ Hc). set_solver. }
  destruct (StateLabelNamesForStates _ _) as [|l ls] eqn:ES; unfold client_bind.
  - set (run := listIssuesByStateLabel env c "" st wantedStates ∅ s0).
    pose proof (wp_listLabel env c (issueNumbers s) wantedStates (cs_calls s) (cs_calls run.1) HW "" st ∅ s0
      H64 (HC _)) as H. unfold wp in H. fold run in H. specialize (H (le_n _)).
    destruct run as [s1 [[out [|]]|e]]; [done| |done]. simpl in H.
    destruct H as [_ (seen & H1 & H2)]. intros [= <- ->]. apply HE in H1 as E.
    destruct H1 as [_ HN _ HF]. split_and!; [done..|]. intros label ->%list_elem_of_singleton. by rewrite <- E.
  - set (run := label_loop env c st wantedStates (l :: ls) ∅ [] [] s0).
    pose proof (wp_label_loop env c (issueNumbers s) wantedStates (cs_calls s) (cs_calls run.1) HW st (l :: ls)
      ∅ [] [] s0 H64 (HC _) (collected_nil _ _ _ _ HW _)) as H. unfold wp in H. fold run in H. specialize (H (le_n _)).
    destruct run as [s1 [[out [|]]|e]]; [|done..]. simpl in H.
    destruct H as [_ (_ & seen & H1 & _ & H2)]. intros [= <- ->]. apply HE in H1 as E.
    destruct H1 as [_ HN _ HF]. split_and!; [done..|]. intros label Hl. rewrite <- E. by apply H2.
Qed.

Lemma gitea_listing_complete_witness :
  ∃ s' issues, ListActiveIssues demo_env demo_client demo_state = (s', inl issues) ∧
    map iss_ID issues = ["101"] ∧ NoDup (map iss_ID issues).
Proof.
  eexists _, _. split; [vm_compute; reflexivity|]. split; [reflexivity|].
  refine (proj1 (gitea_listing_complete demo_env demo_client ["Todo"; "In Progress"] demo_state _ _ _ _ _)).
  - unfold in64. vm_compute. split; discriminate.
  - apply (bool_decide_unpack _). vm_compute. exact I.
  - vm_compute. reflexivity.
Defined.
