(* ===== verification/GiteaTools.v ===== *)
(** * The gitea_issue_labels tool (internal/runner/gitea_tools.go)

    The agent replaces the aiops/* state label of an issue: validation, reading the
    labels, adding and confirming the desired one, deleting the stale ones, closing the
    issue with a restore when that fails, and the audit event that tells the orchestrator
    about a handoff.  Gitea is a server [serve] on an arbitrary state; the rendering of
    results and messages is not modelled, and the audit sink is wired. *)

From S2P Require Import Prelude Tracker Payload GoStd GraphQLGuard GiteaLabels GiteaClient.

Record giteaIssueLabel := { il_ID : Z; il_Name : string }.
#[export] Instance giteaIssueLabel_eq_dec : EqDecision giteaIssueLabel.
Proof. solve_decision. Defined.

Inductive GiteaRequest :=
| GetLabels (issue : Z)
| AddLabels (issue : Z) (labels : list string)
| DeleteLabel (issue : Z) (id : Z)
| CloseIssueRequest (issue : Z).

(** A response body: a JSON array of labels, an object with a labels field, or neither. *)
Inductive LabelsBody :=
| JsonArray (labels : list giteaIssueLabel)
| JsonObject (labels : list giteaIssueLabel)
| JsonOther.

(** No response; a response whose body could not be read within the limit; a response. *)
Inductive GiteaReply :=
| NoReply
| UnreadReply (status : Z)
| FullReply (status : Z) (body : LabelsBody).

Record giteaIssueLabelsProxy := {
  currentIssueNumber : Z;
  activeStates : list string;
  terminalStates : list string
}.

Record ToolCall := { IssueNumber : Z; Labels : list string; CloseIssue : bool }.

(** [withCurrentIssueClassification]. *)
Definition withCurrentIssueClassification (p : giteaIssueLabelsProxy) (active terminal : list string)
    (currentIssueID currentIssueIdentifier : string) : giteaIssueLabelsProxy :=
  match IssueNumberFromRef currentIssueID currentIssueIdentifier with
  | Some n => {| currentIssueNumber := n; activeStates := active; terminalStates := terminal |}
  | None => p
  end.

(** ** Labels *)

Definition containsLabelFold (labels : list string) (label : string) : bool :=
  existsb (fun candidate => String.eqb (norm candidate) (norm label)) labels.
Definition containsIssueLabelFold (labels : list giteaIssueLabel) (label : string) : bool :=
  existsb (fun candidate => String.eqb (norm (il_Name candidate)) (norm label)) labels.
Definition containsLabelFoldGitea (labels : list Label) (label : string) : bool :=
  existsb (fun candidate => String.eqb (norm (lb_Name candidate)) (norm label)) labels.

Definition missingLabels (currentLabels : list giteaIssueLabel) (desiredLabels : list string) : list string :=
  map TrimSpace (List.filter (fun d => negb (containsIssueLabelFold currentLabels d)) desiredLabels).

Definition computeStaleStateLabels (currentLabels : list giteaIssueLabel) (desired : list string)
    : list giteaIssueLabel :=
  List.filter (fun l => HasPrefix (norm (il_Name l)) "aiops/" && negb (containsLabelFold desired (il_Name l)))
    currentLabels.

Definition validGiteaStateLabelNames : list string :=
  sort_strings (fold_left (fun labels m =>
    let label := norm (map_Label m) in
    if negb (String.eqb label "") && negb (containsLabelFold labels label) then labels ++ [label] else labels)
    DefaultStateLabelMappings []).
Definition validGiteaStateLabels : gset string := set_of validGiteaStateLabelNames.

Definition stateLabelsForClassification (labels : list giteaIssueLabel) : list Label :=
  map (fun l => {| lb_Name := il_Name l |}) labels.

Fixpoint matchStateFold_loop (states : list string) (state : string) : string :=
  match states with
  | [] => ""
  | candidate :: rest => if EqualFold (TrimSpace candidate) state then TrimSpace candidate
                         else matchStateFold_loop rest state
  end.
Definition matchStateFold (states : list string) (state : string) : string :=
  let state := TrimSpace state in
  if String.eqb state "" then "" else matchStateFold_loop states state.

(** [validateDesiredStateLabels]. *)
Inductive ToolRefusal :=
| IssueNumberRequired
| ExactlyOneLabel
| OnlyStateLabels
| LabelNotConfigured
| CloseOnlyCurrentIssue
| CloseNeedsTerminalLabel.

Definition validateDesiredStateLabels (call : ToolCall) : list string + ToolRefusal :=
  if IssueNumber call <=? 0 then inr IssueNumberRequired
  else match Labels call with
       | [label] =>
           let label := TrimSpace label in
           if String.eqb label "" || negb (HasPrefix (ToLower label) "aiops/") then inr OnlyStateLabels
           else if negb (bool_decide (ToLower label ∈ validGiteaStateLabels)) then inr LabelNotConfigured
           else inl [label]
       | _ => inr ExactlyOneLabel
       end.

Definition validateCloseIssue (p : giteaIssueLabelsProxy) (call : ToolCall) (desiredLabel : string)
    : option ToolRefusal :=
  if negb (CloseIssue call) then None
  else if (currentIssueNumber p <=? 0) || negb (IssueNumber call =? currentIssueNumber p)
  then Some CloseOnlyCurrentIssue
  else
    let desiredState := (IssueStateFromLabels [{| lb_Name := desiredLabel |}] []).1 in
    if String.eqb desiredState "" || String.eqb (matchStateFold (terminalStates p) desiredState) ""
    then Some CloseNeedsTerminalLabel else None.

(** ** Audit *)

Record mutationAuditFacts := {
  fa_issueNumber : Z;
  fa_desiredLabel : string;
  fa_currentLabels : list giteaIssueLabel;
  fa_deletedLabels : list giteaIssueLabel;
  fa_wroteAdd : bool;
  fa_labelReplaceSucceeded : bool
}.

Definition postWriteStateLabels (facts : mutationAuditFacts) : list Label :=
  let out := stateLabelsForClassification
    (List.filter (fun l => negb (containsIssueLabelFold (fa_deletedLabels facts) (il_Name l)))
       (fa_currentLabels facts)) in
  if containsLabelFoldGitea out (fa_desiredLabel facts) then out
  else out ++ [{| lb_Name := fa_desiredLabel facts |}].

Definition empty_audit : ToolMutationAudit :=
  {| OperationField := ""; CurrentIssueNonActiveStateUpdate := false;
     CurrentIssueTerminalStateUpdate := false; CurrentIssueTerminalState := "" |}.

Definition classifyLabelMutation (p : giteaIssueLabelsProxy) (facts : mutationAuditFacts) : ToolMutationAudit :=
  if (currentIssueNumber p <=? 0) || negb (fa_issueNumber facts =? currentIssueNumber p) then empty_audit
  else
    let preState := (IssueStateFromLabels (stateLabelsForClassification (fa_currentLabels facts)) []).1 in
    if String.eqb preState "" || String.eqb (matchStateFold (activeStates p) preState) "" then empty_audit
    else
      let postState := (IssueStateFromLabels (postWriteStateLabels facts) []).1 in
      if String.eqb postState "" || negb (String.eqb (matchStateFold (activeStates p) postState) "")
      then empty_audit
      else
        let terminal := matchStateFold (terminalStates p) postState in
        {| OperationField := ""; CurrentIssueNonActiveStateUpdate := true;
           CurrentIssueTerminalStateUpdate := negb (String.eqb terminal "");
           CurrentIssueTerminalState := terminal |}.

Definition fireMutationAudit (p : giteaIssueLabelsProxy) (facts : mutationAuditFacts) : option ToolMutationAudit :=
  if negb (fa_wroteAdd facts) && match fa_deletedLabels facts with [] => true | _ => false end then None
  else
    let audit := classifyLabelMutation p facts in
    if fa_labelReplaceSucceeded facts || CurrentIssueNonActiveStateUpdate audit then Some audit else None.

(** ** Requests *)

Inductive ToolFailure :=
| RequestFailed
| BodyNotDecoded
| DesiredLabelMissing (label : string)
| LabelIDMissing (label : string).

Inductive CallOutcome :=
| ToolRefused (why : ToolRefusal)
| ToolFailed (why : ToolFailure)
| ToolDone (closed : bool).

Section Tool.
Context {Srv : Type} (serve : Srv → GiteaRequest → Srv * GiteaReply).

(** The status (0 when there is no response) and the body of a 2xx response. *)
Definition doGiteaRequest (request : GiteaRequest) (s : Srv) : Srv * (Z * option LabelsBody) :=
  let '(s, reply) := serve s request in
  (s, match reply with
      | NoReply => (0, None)
      | UnreadReply status => (status, None)
      | FullReply status body => (status, if (status <? 200) || (300 <=? status) then None else Some body)
      end).

Definition nonblank (labels : list giteaIssueLabel) : list giteaIssueLabel :=
  List.filter (fun l => negb (blank (il_Name l))) labels.

Definition currentIssueLabels (issue : Z) (s : Srv) : Srv * (list giteaIssueLabel + ToolFailure) :=
  let '(s, (_, body)) := doGiteaRequest (GetLabels issue) s in
  (s, match body with
      | None => inr RequestFailed
      | Some (JsonArray labels) => inl (nonblank labels)
      | Some _ => inr BodyNotDecoded
      end).

(** [addIssueLabels] and [decodeIssueLabelsFromToolResult]: the labels of the response. *)
Definition addIssueLabels (issue : Z) (labels : list string) (s : Srv)
    : Srv * (list giteaIssueLabel + ToolFailure) :=
  let '(s, (_, body)) := doGiteaRequest (AddLabels issue labels) s in
  (s, match body with
      | None => inr RequestFailed
      | Some (JsonArray labels) => inl (nonblank labels)
      | Some (JsonObject labels) => inl (nonblank labels)
      | Some JsonOther => inr BodyNotDecoded
      end).

Definition first_missing (confirmed : list giteaIssueLabel) (desired : list string) : option string :=
  List.find (fun d => negb (containsIssueLabelFold confirmed d)) desired.

Definition addAndConfirmDesiredLabels (issue : Z) (labelsToAdd desired : list string) (s : Srv)
    : Srv * option ToolFailure :=
  match labelsToAdd with
  | [] => (s, None)
  | _ =>
      let '(s, added) := addIssueLabels issue labelsToAdd s in
      (s, match added with
          | inr failure => Some failure
          | inl confirmed => DesiredLabelMissing <$> first_missing confirmed desired
          end)
  end.

Definition deleteIssueLabel (issue id : Z) (s : Srv) : Srv * option ToolFailure :=
  let '(s, (status, body)) := doGiteaRequest (DeleteLabel issue id) s in
  (s, if status =? 404 then None
      else match body with Some _ => None | None => Some RequestFailed end).

Fixpoint deleteStaleStateLabels (issue : Z) (stale : list giteaIssueLabel) (deleted : list giteaIssueLabel)
    (s : Srv) : Srv * (list giteaIssueLabel * option ToolFailure) :=
  match stale with
  | [] => (s, (deleted, None))
  | label :: rest =>
      if il_ID label =? 0 then (s, (deleted, Some (LabelIDMissing (il_Name label))))
      else
        let '(s, failure) := deleteIssueLabel issue (il_ID label) s in
        match failure with
        | Some f => (s, (deleted, Some f))
        | None => deleteStaleStateLabels issue rest (deleted ++ [label]) s
        end
  end.

Definition closeIssue (issue : Z) (s : Srv) : Srv * option ToolFailure :=
  let '(s, (_, body)) := doGiteaRequest (CloseIssueRequest issue) s in
  (s, match body with Some _ => None | None => Some RequestFailed end).

Definition restoreDeletedStateLabels (issue : Z) (deleted : list giteaIssueLabel) (s : Srv)
    : Srv * option ToolFailure :=
  let labels := map il_Name deleted in
  match labels with [] => (s, None) | _ => addAndConfirmDesiredLabels issue labels labels s end.

(** The labels still deleted, whether the label replace stands, the failure. *)
Definition closeIssueAfterLabelReplace (issue : Z) (deleted : list giteaIssueLabel) (s : Srv)
    : Srv * (list giteaIssueLabel * bool * option ToolFailure) :=
  let '(s, failure) := closeIssue issue s in
  match failure with
  | None => (s, (deleted, true, None))
  | Some f =>
      let '(s, restored) := restoreDeletedStateLabels issue deleted s in
      match restored with
      | None => (s, ([], false, Some f))
      | Some _ => (s, (deleted, true, Some f))
      end
  end.

(** [call]. *)
Definition call_labels (p : giteaIssueLabelsProxy) (call : ToolCall) (s : Srv)
    : Srv * (CallOutcome * option ToolMutationAudit) :=
  match validateDesiredStateLabels call with
  | inr why => (s, (ToolRefused why, None))
  | inl desired =>
      let desiredLabel := default "" (head desired) in
      match validateCloseIssue p call desiredLabel with
      | Some why => (s, (ToolRefused why, None))
      | None =>
          let issue := IssueNumber call in
          let '(s, read) := currentIssueLabels issue s in
          match read with
          | inr f => (s, (ToolFailed f, None))
          | inl current =>
              let stale := computeStaleStateLabels current desired in
              let toAdd := missingLabels current desired in
              let '(s, failure) := addAndConfirmDesiredLabels issue toAdd desired s in
              match failure with
              | Some f => (s, (ToolFailed f, None))
              | None =>
                  let '(s, (deleted, failure)) := deleteStaleStateLabels issue stale [] s in
                  let '(s, (deleted, succeeded, failure)) :=
                    match failure with
                    | None => if CloseIssue call then closeIssueAfterLabelReplace issue deleted s
                              else (s, (deleted, true, None))
                    | Some f => (s, (deleted, false, Some f))
                    end in
                  let event := fireMutationAudit p
                    {| fa_issueNumber := issue; fa_desiredLabel := desiredLabel;
                       fa_currentLabels := current; fa_deletedLabels := deleted;
                       fa_wroteAdd := match toAdd with [] => false | _ => true end;
                       fa_labelReplaceSucceeded := succeeded |} in
                  (s, (match failure with Some f => ToolFailed f | None => ToolDone (CloseIssue call) end, event))
              end
          end
      end
  end.
End Tool.

(** * What the label tool leaves behind

    Proved against what Gitea documents of its label endpoints ([LabelServer]): on
    success the issue has exactly the desired state label, and the audit event reports a
    handoff exactly when the issue moved from an active to a non-active state. *)


(** ** Gitea's label endpoints *)

Definition ok_reply (status : Z) : Prop := 200 ≤ status < 300.

(** The labels of the issue before and after each request.  Nothing is assumed of a
    request that fails, except that reading and closing never touch labels. *)
Class LabelServer {Srv} (serve : Srv → GiteaRequest → Srv * GiteaReply)
    (labels_of : Srv → list giteaIssueLabel) (issue : Z) : Prop := {
  ids_unique s : NoDup (map il_ID (labels_of s));
  read_keeps s : labels_of (serve s (GetLabels issue)).1 = labels_of s;
  read_answers s status ls :
    (serve s (GetLabels issue)).2 = FullReply status (JsonArray ls) → ok_reply status → ls = labels_of s;
  close_keeps s : labels_of (serve s (CloseIssueRequest issue)).1 = labels_of s;
  add_appends s names status body :
    (serve s (AddLabels issue names)).2 = FullReply status body → ok_reply status →
    (∀ l, l ∈ labels_of s → l ∈ labels_of (serve s (AddLabels issue names)).1) ∧
    (∀ l, l ∈ labels_of (serve s (AddLabels issue names)).1 →
       l ∈ labels_of s ∨ ∃ name, name ∈ names ∧ norm (il_Name l) = norm name) ∧
    ∀ ls, body = JsonArray ls ∨ body = JsonObject ls → ls = labels_of (serve s (AddLabels issue names)).1;
  delete_removes s id status :
    (∃ body, (serve s (DeleteLabel issue id)).2 = FullReply status body ∧ ok_reply status) ∨
    ((serve s (DeleteLabel issue id)).2 = UnreadReply 404 ∨
     ∃ body, (serve s (DeleteLabel issue id)).2 = FullReply 404 body) →
    ∀ l, l ∈ labels_of (serve s (DeleteLabel issue id)).1 ↔ l ∈ labels_of s ∧ il_ID l ≠ id
}.

Definition state_of (labels : list giteaIssueLabel) : string :=
  (IssueStateFromLabels (stateLabelsForClassification labels) []).1.

(** A configured state that is, or is not, in a list of states. *)
Definition state_in (states : list string) (state : string) : bool :=
  negb (String.eqb (matchStateFold states state) "").

Section Tool.
Context {Srv : Type} (serve : Srv → GiteaRequest → Srv * GiteaReply)
        (labels_of : Srv → list giteaIssueLabel) (issue : Z) `{!LabelServer serve labels_of issue}.

Lemma body_ok status : (status <? 200) || (300 <=? status) = false ↔ ok_reply status.
Proof. unfold ok_reply. rewrite orb_false_iff, Z.ltb_ge, Z.leb_gt. lia. Qed.

Lemma read_spec s s' ls :
  currentIssueLabels serve issue s = (s', inl ls) → labels_of s' = labels_of s ∧ ls = nonblank (labels_of s).
Proof.
  unfold currentIssueLabels, doGiteaRequest. pose proof (read_keeps s) as HK. pose proof (read_answers s) as HA.
  destruct (serve s (GetLabels issue)) as [s1 [|st|st body]]; simpl in *; [done..|].
  destruct ((st <? 200) || (300 <=? st)) eqn:E; [done|]. apply body_ok in E.
  destruct body as [l|l|]; [|done..]. intros [= -> <-]. by rewrite (HA st l eq_refl E).
Qed.

(** After the desired labels were added or found. *)
Lemma add_spec toAdd desired s s' :
  addAndConfirmDesiredLabels serve issue toAdd desired s = (s', None) →
  (∀ l, l ∈ labels_of s → l ∈ labels_of s') ∧
  (∀ l, l ∈ labels_of s' → l ∈ labels_of s ∨ ∃ name, name ∈ toAdd ∧ norm (il_Name l) = norm name) ∧
  (toAdd = [] → labels_of s' = labels_of s) ∧
  (toAdd ≠ [] → ∀ d, d ∈ desired → containsIssueLabelFold (labels_of s') d = true).
Proof.
  unfold addAndConfirmDesiredLabels. destruct toAdd as [|t toAdd].
  { intros [= <-]. split_and!; by auto. }
  set (names := t :: toAdd). unfold addIssueLabels, doGiteaRequest. pose proof (add_appends s names) as HA.
  destruct (serve s (AddLabels issue names)) as [s1 [|st|st body]]; simpl in *; [done..|].
  destruct ((st <? 200) || (300 <=? st)) eqn:E; [done|]. apply body_ok in E.
  destruct (HA st body eq_refl E) as (Hkeep & Hnew & Hls).
  assert (∀ ls, ls = labels_of s1 → (s1, DesiredLabelMissing <$> first_missing (nonblank ls) desired) = (s', None) →
    (∀ l, l ∈ labels_of s → l ∈ labels_of s') ∧
    (∀ l, l ∈ labels_of s' → l ∈ labels_of s ∨ ∃ name, name ∈ names ∧ norm (il_Name l) = norm name) ∧
    (names = [] → labels_of s' = labels_of s) ∧
    (names ≠ [] → ∀ d, d ∈ desired → containsIssueLabelFold (labels_of s') d = true)) as HD.
  { intros ls -> H. injection H as <- H. split_and!; [done..|]. intros _ d Hd.
    destruct (first_missing (nonblank (labels_of s1)) desired) as [d'|] eqn:EF; [done|].
    pose proof (List.find_none _ _ EF d (proj1 (list_elem_of_In _ _) Hd)) as Hc.
    apply negb_false_iff in Hc. unfold containsIssueLabelFold in *.
    apply existsb_exists in Hc as (l & Hl & Hc). apply existsb_exists. exists l. split; [|done].
    unfold nonblank in Hl. by apply filter_In in Hl as [Hl _]. }
  destruct body as [l|l|]; [apply HD, Hls; by left|apply HD, Hls; by right|done].
Qed.

Lemma delete_spec id s s' :
  deleteIssueLabel serve issue id s = (s', None) →
  ∀ l, l ∈ labels_of s' ↔ l ∈ labels_of s ∧ il_ID l ≠ id.
Proof.
  unfold deleteIssueLabel, doGiteaRequest. pose proof (delete_removes s id) as HD.
  destruct (serve s (DeleteLabel issue id)) as [s1 [|st|st body]]; simpl in *; [done| |].
  - destruct (Z.eqb_spec st 404) as [->|]; [|done]. intros [= <-]. apply (HD 404). right. by left.
  - destruct (Z.eqb_spec st 404) as [->|]; [intros [= <-]; apply (HD 404); right; right; by exists body|].
    destruct ((st <? 200) || (300 <=? st)) eqn:E; [done|]. apply body_ok in E.
    intros [= <-]. apply (HD st). left. by exists body.
Qed.

(** Every stale label confirmed deleted. *)
Lemma delete_all_spec stale deleted s s' out :
  deleteStaleStateLabels serve issue stale deleted s = (s', (out, None)) →
  out = deleted ++ stale ∧
  (∀ l, l ∈ labels_of s' ↔ l ∈ labels_of s ∧ il_ID l ∉ map il_ID stale) ∧
  (stale = [] → labels_of s' = labels_of s).
Proof.
  revert deleted s. induction stale as [|l stale IH]; intros deleted s; simpl.
  { intros [= <- <-]. rewrite app_nil_r. split_and!; [done| |done]. intros l. set_solver. }
  destruct (il_ID l =? 0); [done|]. destruct (deleteIssueLabel serve issue (il_ID l) s) as [s1 [f|]] eqn:E; [done|].
  pose proof (delete_spec _ _ _ E) as HD. intros H. apply IH in H as (-> & HL & _).
  split_and!; [by rewrite <- app_assoc| |done]. intros x. rewrite HL, HD. set_solver.
Qed.

(** ** A successful call *)

Lemma nonblank_state_names ls x :
  x ∈ label_names (stateLabelsForClassification (nonblank ls)) ↔
  x ≠ "" ∧ x ∈ label_names (stateLabelsForClassification ls).
Proof.
  unfold label_names, stateLabelsForClassification, nonblank. rewrite !map_map.
  rewrite !list_elem_of_fmap. setoid_rewrite list_elem_of_In. setoid_rewrite filter_In. simpl.
  split.
  - intros (l & -> & Hl & Hb). split; [|by exists l]. apply norm_empty_false. by apply negb_true_iff in Hb.
  - intros (Hne & l & -> & Hl). exists l. split_and!; [done..|]. apply negb_true_iff. by apply norm_empty_false.
Qed.

(** Blank names do not matter. *)
Lemma state_of_nonblank ls : state_of (nonblank ls) = state_of ls.
Proof.
  unfold state_of. rewrite !(IssueStateFromLabels_found _ []) by apply default_mappings_ok.
  cbn [fst]. change (or_default []) with DefaultStateLabelMappings.
  assert (∀ ms, Forall (λ m, norm (map_Label m) ≠ "") ms →
    List.filter (present (stateLabelsForClassification (nonblank ls))) ms =
    List.filter (present (stateLabelsForClassification ls)) ms) as H.
  { induction 1 as [|m ms Hm _ IH]; simpl; [done|]. rewrite IH.
    assert (present (stateLabelsForClassification (nonblank ls)) m = present (stateLabelsForClassification ls) m) as ->; [|done].
    unfold present. apply bool_decide_ext. rewrite nonblank_state_names. tauto. }
  rewrite H; [done|]. apply Forall_forall. intros m Hm. by apply (mapping_label_ok _ default_mappings_ok).
Qed.

Lemma validate_spec call desired :
  validateDesiredStateLabels call = inl desired →
  ∃ d m, desired = [d] ∧ m ∈ DefaultStateLabelMappings ∧ norm d = norm (map_Label m) ∧ 0 < IssueNumber call ∧ TrimSpace d = d.
Proof.
  unfold validateDesiredStateLabels. destruct (Z.leb_spec (IssueNumber call) 0); [done|].
  destruct (Labels call) as [|l [|]]; [done| |done].
  destruct (_ || _); [done|]. case_bool_decide as HV; [|done]. simpl. intros [= <-].
  assert (∀ x, x ∈ validGiteaStateLabels → ∃ m, m ∈ DefaultStateLabelMappings ∧ x = norm (map_Label m)) as HS.
  { intros x Hx. unfold validGiteaStateLabels in Hx. apply elem_of_set_of in Hx.
    assert (Forall (λ x, ∃ m, m ∈ DefaultStateLabelMappings ∧ x = norm (map_Label m)) validGiteaStateLabelNames) as HF.
    { replace validGiteaStateLabelNames with
        ["aiops/canceled"; "aiops/done"; "aiops/human-review"; "aiops/in-progress"; "aiops/merging";
         "aiops/rework"; "aiops/todo"] by (vm_compute; reflexivity).
      repeat constructor; unfold DefaultStateLabelMappings; setoid_rewrite list_elem_of_In; simpl; eauto 20. }
    rewrite Forall_forall in HF. by apply HF. }
  destruct (HS _ HV) as (m & Hm & E). exists (TrimSpace l), m. split_and!; [done..| |done|by rewrite TrimSpace_idem].
  unfold norm at 1. by rewrite TrimSpace_idem.
Qed.

Lemma validate_label call desired :
  validateDesiredStateLabels call = inl desired → ∃ label, Labels call = [label] ∧ desired = [TrimSpace label].
Proof.
  unfold validateDesiredStateLabels. destruct (IssueNumber call <=? 0); [done|].
  destruct (Labels call) as [|l [|]]; [done| |done]. destruct (_ || _); [done|].
  destruct (negb _); [done|]. intros [= <-]. by exists l.
Qed.

Lemma close_validated p call d m :
  m ∈ DefaultStateLabelMappings → norm d = norm (map_Label m) → CloseIssue call = true →
  validateCloseIssue p call d = None →
  IssueNumber call = currentIssueNumber p ∧ state_in (terminalStates p) (map_State m) = true.
Proof.
  intros Hm Hd Hc. unfold validateCloseIssue. rewrite Hc. cbn [negb].
  destruct (_ || _) eqn:E; [done|]. apply orb_false_iff in E as [_ E%negb_false_iff%Z.eqb_eq].
  rewrite (single_label_state _ [] m) by
    (try done; try apply default_mappings_ok; unfold label_names; simpl; rewrite Hd; set_solver).
  cbn [fst]. destruct (_ || _) eqn:E2; [done|]. intros _. split; [done|].
  apply orb_false_iff in E2 as [_ E2]. unfold state_in. by rewrite E2.
Qed.

(** The state labels a successful replace leaves. *)
Lemma replaced_labels d m (s0 s1 s2 : Srv) deleted0 deleted :
  m ∈ DefaultStateLabelMappings → norm d = norm (map_Label m) →
  let current := nonblank (labels_of s0) in
  addAndConfirmDesiredLabels serve issue (missingLabels current [d]) [d] s0 = (s1, None) →
  deleteStaleStateLabels serve issue (computeStaleStateLabels current [d]) deleted0 s1 = (s2, (deleted, None)) →
  IssueStateFromLabels (stateLabelsForClassification (labels_of s2)) [] = (map_State m, []).
Proof.
  intros Hm Hd current HA HD.
  apply add_spec in HA as (Hkeep & Hnew & _ & Hconf). apply delete_all_spec in HD as (_ & HL & _).
  assert (∀ l, l ∈ computeStaleStateLabels current [d] ↔
    l ∈ labels_of s0 ∧ blank (il_Name l) = false ∧ HasPrefix (norm (il_Name l)) stateLabelPrefix = true ∧
    norm (il_Name l) ≠ norm d) as Hst.
  { intros l. unfold computeStaleStateLabels, current, nonblank, containsLabelFold. rewrite list_elem_of_In, !filter_In.
    rewrite <- list_elem_of_In. simpl. rewrite orb_false_r, !andb_true_iff, !negb_true_iff, String.eqb_neq.
    unfold stateLabelPrefix.
    split; [intros ((? & ?) & ? & ?)|intros (? & ? & ? & ?)]; split_and!; try done; by apply not_eq_sym. }
  assert (∀ l, l ∈ labels_of s1 → norm (il_Name l) = norm d → il_ID l ∉ map il_ID (computeStaleStateLabels current [d])) as Hsafe.
  { intros l Hl Hn (l' & Hid & (Hl' & _ & _ & Hne)%Hst)%list_elem_of_fmap. apply Hne.
    apply Hkeep in Hl'. pose proof (ids_unique s1) as HU.
    apply list_elem_of_lookup in Hl as [i Hi]. apply list_elem_of_lookup in Hl' as [j Hj].
    assert (i = j) as ->; [|congruence]. apply (NoDup_lookup _ i j (il_ID l) HU).
    - by rewrite list_lookup_fmap, Hi.
    - rewrite list_lookup_fmap, Hj. simpl. by f_equal. }
  apply single_label_state; [apply default_mappings_ok|done|..];
    unfold label_names, stateLabelsForClassification; rewrite map_map; simpl.
  - assert (containsIssueLabelFold (labels_of s1) d = true) as HC.
    { destruct (missingLabels current [d]) eqn:EM; [|apply Hconf; [done|set_solver]].
      unfold missingLabels in EM. simpl in EM.
      destruct (containsIssueLabelFold current d) eqn:EC; [|done]. unfold containsIssueLabelFold in *.
      apply existsb_exists in EC as (l & Hl & HE). apply existsb_exists. exists l. split; [|done].
      apply list_elem_of_In, Hkeep. unfold current, nonblank in Hl. apply filter_In in Hl as [Hl _].
      by apply list_elem_of_In. }
    unfold containsIssueLabelFold in HC. apply existsb_exists in HC as (l & Hl%list_elem_of_In & HE%String.eqb_eq).
    apply list_elem_of_fmap. exists l. split; [congruence|]. apply HL. split; [done|]. by apply Hsafe.
  - intros x (l & -> & (Hl & Hns)%HL)%list_elem_of_fmap HP. rewrite <- Hd.
    destruct (decide (norm (il_Name l) = norm d)) as [|Hne]; [done|]. exfalso.
    destruct (Hnew l Hl) as [Hl0|(name & Hname & E)].
    + apply Hns, list_elem_of_fmap. exists l. split; [done|]. apply Hst. split_and!; [done| |done|done].
      apply norm_empty_false. by eapply HasPrefix_nonempty.
    + unfold missingLabels in Hname. simpl in Hname. destruct (negb _); [|set_solver].
      apply list_elem_of_singleton in Hname as ->. apply Hne. by rewrite E, norm_TrimSpace.
Qed.

(** The label set the audit derives the state from, on success. *)
Lemma post_write_state d m current wrote succeeded :
  m ∈ DefaultStateLabelMappings → norm d = norm (map_Label m) →
  (IssueStateFromLabels (postWriteStateLabels
     {| fa_issueNumber := issue; fa_desiredLabel := d; fa_currentLabels := current;
        fa_deletedLabels := computeStaleStateLabels current [d]; fa_wroteAdd := wrote;
        fa_labelReplaceSucceeded := succeeded |}) []).1 = map_State m.
Proof.
  intros Hm Hd. unfold postWriteStateLabels. cbn [fa_deletedLabels fa_currentLabels fa_desiredLabel].
  set (left := List.filter _ current).
  assert (∀ l, l ∈ left → HasPrefix (norm (il_Name l)) stateLabelPrefix = true → norm (il_Name l) = norm d) as Hleft.
  { intros l Hl HP. unfold left in Hl. apply list_elem_of_In, filter_In in Hl as [Hl Hc].
    destruct (decide (norm (il_Name l) = norm d)) as [|Hne]; [done|]. exfalso.
    apply negb_true_iff in Hc. apply not_true_iff_false in Hc. apply Hc.
    apply existsb_exists. exists l. split; [|by apply String.eqb_eq].
    unfold computeStaleStateLabels. apply filter_In. split; [done|].
    unfold stateLabelPrefix in HP. rewrite HP. simpl. rewrite orb_false_r. apply negb_true_iff, String.eqb_neq. congruence. }
  assert (∀ out, (∀ x, x ∈ label_names out → HasPrefix x stateLabelPrefix = true → x = norm d) →
    norm d ∈ label_names out → (IssueStateFromLabels out []).1 = map_State m) as HS.
  { intros out H1 H2. rewrite (single_label_state out [] m); [done|apply default_mappings_ok|done|..].
    - by rewrite <- Hd.
    - intros x. rewrite <- Hd. apply H1. }
  assert (∀ x, x ∈ label_names (stateLabelsForClassification left) → HasPrefix x stateLabelPrefix = true → x = norm d) as HN.
  { intros x Hx. unfold label_names, stateLabelsForClassification in Hx. rewrite map_map in Hx.
    apply list_elem_of_fmap in Hx as (l & -> & Hl). simpl. by apply Hleft. }
  destruct (containsLabelFoldGitea _ d) eqn:EC; apply HS.
  - apply HN.
  - apply existsb_exists in EC as (l & Hl & HE%String.eqb_eq). apply list_elem_of_fmap. exists l.
    split; [done|]. by apply list_elem_of_In.
  - unfold label_names. rewrite map_app. intros x [Hx|Hx]%elem_of_app HP; [by apply HN|].
    simpl in Hx. set_solver.
  - unfold label_names. rewrite map_app. apply elem_of_app. right. simpl. set_solver.
Qed.
End Tool.

(** The label tool leaves exactly the state it was asked for.  Against a server that
    keeps Gitea's documented behaviour, a call that succeeds had one configured aiops/*
    label, and leaves the issue in that label's state with no other state label.  It
    closes the issue only when it is the agent's own and the state is terminal.  Its
    audit event reports a handoff exactly when the issue is the agent's own, was in an
    active state before the call and the new state is not active, with the terminal
    state the workflow configures; without an event nothing on the issue changed. *)
Theorem label_tool_exact {Srv} (serve : Srv → GiteaRequest → Srv * GiteaReply) labels_of
    p call (s s' : Srv) closed ev :
  LabelServer serve labels_of (IssueNumber call) →
  call_labels serve p call s = (s', (ToolDone closed, ev)) →
  ∃ label m, Labels call = [label] ∧ m ∈ DefaultStateLabelMappings ∧ norm label = norm (map_Label m) ∧
    IssueStateFromLabels (stateLabelsForClassification (labels_of s')) [] = (map_State m, []) ∧
    (closed = true → IssueNumber call = currentIssueNumber p ∧ state_in (terminalStates p) (map_State m) = true) ∧
    let own := (0 <? currentIssueNumber p) && (IssueNumber call =? currentIssueNumber p) in
    let handoff := own && state_in (activeStates p) (state_of (labels_of s)) &&
                   negb (state_in (activeStates p) (map_State m)) in
    match ev with
    | Some a => CurrentIssueNonActiveStateUpdate a = handoff ∧
                CurrentIssueTerminalState a =
                  if handoff then matchStateFold (terminalStates p) (map_State m) else ""
    | None => labels_of s' = labels_of s
    end.
Proof.
  intros HS. unfold call_labels. destruct (validateDesiredStateLabels call) as [desired|] eqn:EV; [|done].
  pose proof (validate_label call desired EV) as (label & HL & HD).
  apply validate_spec in EV as (d & m & -> & Hm & Hd & _). simpl in HD. injection HD as HD.
  change (default "" (head [d])) with d. cbv zeta. destruct (validateCloseIssue p call d) eqn:EC; [done|].
  destruct (currentIssueLabels serve (IssueNumber call) s) as [s0 [current|]] eqn:ER; [|done].
  apply (read_spec serve labels_of (IssueNumber call)) in ER as [E0 ->]. rewrite <- E0.
  destruct (addAndConfirmDesiredLabels _ _ _ _ s0) as [s1 [|]] eqn:EA; [done|].
  destruct (deleteStaleStateLabels _ _ _ _ s1) as [s2 [deleted [f|]]] eqn:ED; [done|].
  pose proof (replaced_labels serve labels_of (IssueNumber call) d m s0 s1 s2 [] deleted Hm Hd EA ED) as HR.
  apply (delete_all_spec serve labels_of (IssueNumber call)) in ED as (-> & _ & Hdel0). apply (add_spec serve labels_of (IssueNumber call)) in EA as (_ & _ & Hadd0 & _).
  simpl app. set (wrote := match missingLabels _ _ with [] => _ | _ => _ end).
  intros HT. assert (closed = CloseIssue call ∧ labels_of s' = labels_of s2 ∧
    ev = fireMutationAudit p {| fa_issueNumber := IssueNumber call; fa_desiredLabel := d;
      fa_currentLabels := nonblank (labels_of s0);
      fa_deletedLabels := computeStaleStateLabels (nonblank (labels_of s0)) [d];
      fa_wroteAdd := wrote; fa_labelReplaceSucceeded := true |}) as (-> & Es & ->).
  { revert HT. destruct (CloseIssue call); [|by intros [= <- <- <-]].
    unfold closeIssueAfterLabelReplace, closeIssue, doGiteaRequest.
    pose proof (close_keeps (serve := serve) s2) as HK. destruct (serve s2 _) as [s3 reply]. simpl in HK.
    destruct (match reply with NoReply => _ | _ => _ end) as [st [body|]].
    - intros [= <- <- <-]. done.
    - destruct (restoreDeletedStateLabels _ _ _ _) as [s4 [|]]; done. }
  exists label, m. rewrite Es. split_and!; [done|done|by rewrite <- Hd, HD, norm_TrimSpace|exact HR| |].
  { intros Hcl. by eapply close_validated. }
  unfold fireMutationAudit. cbn [fa_wroteAdd fa_deletedLabels fa_labelReplaceSucceeded].
  destruct (negb wrote && _) eqn:EW.
  { apply andb_prop in EW as [Hw Hde]. rewrite Hdel0, Hadd0; [done| |].
    - unfold wrote in Hw. by destruct (missingLabels _ _).
    - by destruct (computeStaleStateLabels _ _). }
  simpl. unfold classifyLabelMutation. cbn [fa_issueNumber fa_currentLabels].
  fold (state_of (nonblank (labels_of s0))). rewrite state_of_nonblank. erewrite post_write_state by eassumption.
  assert (map_State m ≠ "") as Hne.
  { apply list_elem_of_lookup in Hm as [i Hi]. by destruct (ok_mapping _ default_mappings_ok i m Hi) as (_ & ? & _). }
  apply String.eqb_neq in Hne. rewrite Hne. unfold state_in.
  rewrite Z.leb_antisym. destruct (0 <? currentIssueNumber p); simpl; [|done].
  destruct (IssueNumber call =? currentIssueNumber p); cbn [negb andb]; [|done].
  generalize (state_of (labels_of s0)). intros pre.
  destruct (String.eqb_spec pre "") as [->|_]; cbn [orb]; [done|].
  destruct (String.eqb (matchStateFold (activeStates p) pre) ""); cbn [negb andb]; [done|].
  by destruct (String.eqb (matchStateFold (activeStates p) (map_State m)) "").
Qed.

(** ** A server *)

Definition demo_labels (s : gmap Z string) : list giteaIssueLabel :=
  map (λ '(id, name), {| il_ID := id; il_Name := name |}) (map_to_list s).
Definition next_id (s : gmap Z string) : Z := 1 + fold_right Z.max 0 (map fst (map_to_list s)).
Definition add_label (s : gmap Z string) (name : string) : gmap Z string :=
  if containsIssueLabelFold (demo_labels s) name then s else <[next_id s := name]> s.
(** Deletions of the labels in [lost] are applied, but their reply is lost. *)
Definition demo_serve (lost : list Z) (s : gmap Z string) (r : GiteaRequest) : gmap Z string * GiteaReply :=
  match r with
  | GetLabels _ => (s, FullReply 200 (JsonArray (demo_labels s)))
  | AddLabels _ names => let s := fold_left add_label names s in (s, FullReply 200 (JsonArray (demo_labels s)))
  | DeleteLabel _ id => (delete id s, if bool_decide (id ∈ lost) then NoReply else FullReply 204 JsonOther)
  | CloseIssueRequest _ => (s, FullReply 201 JsonOther)
  end.

Lemma next_id_fresh s i name : s !! i = Some name → i < next_id s.
Proof.
  intros H. apply elem_of_map_to_list in H. unfold next_id.
  induction (map_to_list s) as [|[j n] l IH]; [set_solver|]. simpl in *.
  apply elem_of_cons in H as [[= <- <-]|H]; [|specialize (IH H)]; lia.
Qed.

Lemma elem_of_demo_labels s l : l ∈ demo_labels s ↔ s !! il_ID l = Some (il_Name l).
Proof.
  unfold demo_labels. rewrite list_elem_of_fmap. setoid_rewrite <- elem_of_map_to_list. split.
  - by intros ([id name] & -> & H).
  - intros H. exists (il_ID l, il_Name l). by destruct l.
Qed.

Lemma add_labels_spec names s :
  (∀ i name, s !! i = Some name → fold_left add_label names s !! i = Some name) ∧
  (∀ i name, fold_left add_label names s !! i = Some name → s !! i = Some name ∨ name ∈ names).
Proof.
  revert s. induction names as [|n names IH]; intros s; simpl; [auto|].
  destruct (IH (add_label s n)) as [H1 H2]. unfold add_label in *.
  destruct (containsIssueLabelFold (demo_labels s) n).
  { split; [done|]. intros i name [?|?]%H2; [by left|right; set_solver]. }
  split.
  - intros i name Hi. apply H1. rewrite lookup_insert_ne; [done|]. apply next_id_fresh in Hi. lia.
  - intros i name [Hi|?]%H2; [|right; set_solver].
    apply lookup_insert_Some in Hi as [[_ <-]|[_ ?]]; [right; set_solver|by left].
Qed.

#[export] Instance demo_label_server lost issue : LabelServer (demo_serve lost) demo_labels issue.
Proof.
  constructor.
  - intros s. unfold demo_labels. rewrite map_map.
    replace (map _ (map_to_list s)) with (map_to_list s).*1; [apply NoDup_fst_map_to_list|].
    apply list_fmap_ext. by intros ? [].
  - done.
  - by intros s status ls [= _ <-].
  - done.
  - intros s names status body [= _ <-] _. simpl. destruct (add_labels_spec names s) as [H1 H2].
    split_and!.
    + intros l. rewrite !elem_of_demo_labels. apply H1.
    + intros l. rewrite !elem_of_demo_labels. intros [?|?]%H2; [by left|right; eauto].
    + by intros ls [[= <-]|?].
  - intros s id status _ l. simpl. rewrite !elem_of_demo_labels, lookup_delete_Some. naive_solver.
Qed.

Definition demo_proxy : giteaIssueLabelsProxy :=
  {| currentIssueNumber := 7; activeStates := ["Todo"; "In Progress"]; terminalStates := ["done"] |}.
Definition demo_board : gmap Z string := 
  {[3 := "aiops/in-progress"; 2 := "aiops/human-review"; 1 := "aiops/todo"; 4 := "bug"]}.

Lemma label_tool_exact_witness :
  ∃ s' a, call_labels (demo_serve []) demo_proxy {| IssueNumber := 7; Labels := ["Aiops/Done"]; CloseIssue := true |}
      demo_board = (s', (ToolDone true, Some a)) ∧
    CurrentIssueNonActiveStateUpdate a = true ∧ CurrentIssueTerminalState a = "done".
Proof.
  eexists _, _. split; [vm_compute; reflexivity|].
  edestruct (label_tool_exact (demo_serve []) demo_labels demo_proxy
    {| IssueNumber := 7; Labels := ["Aiops/Done"]; CloseIssue := true |} demo_board) as (l & m & HL & Hm & Hn & _ & _ & H).
  - apply demo_label_server.
  - vm_compute. reflexivity.
  - injection HL as <-. assert (m = {| map_Label := "aiops/done"; map_State := "Done" |}) as ->.
    { unfold DefaultStateLabelMappings in Hm. rewrite !elem_of_cons, elem_of_nil in Hm.
      destruct Hm as [->|[->|[->|[->|[->|[->|[->|[]]]]]]]]; vm_compute in Hn; try discriminate Hn; reflexivity. }
    destruct H as [H1 H2]. split; [exact H1|]. exact H2.
Defined.

(** When a deletion is applied but its reply is lost, the labels the audit assumes are
    not the most active that may remain: the tool reports a handoff of an issue that
    Gitea holds in an active state. *)
Theorem partial_verdict_unsafe :
  let call := {| IssueNumber := 7; Labels := ["aiops/done"]; CloseIssue := false |} in
  let '(s', (outcome, ev)) := call_labels (demo_serve [2]) demo_proxy call demo_board in
  outcome = ToolFailed RequestFailed ∧ CurrentIssueNonActiveStateUpdate <$> ev = Some true ∧
  state_of (demo_labels s') = "Todo" ∧ state_in (activeStates demo_proxy) (state_of (demo_labels s')) = true.
Proof. vm_compute. auto. Qed.
