(* ===== verification/Paths.v ===== *)
(** * File paths

    The functions of Go's package path/filepath that internal/workspace calls, as they
    are on Unix: the separator is "/", there are no volume names, and [ToSlash] is the
    identity.  A path is a byte string; [elements] is its normal form as a list of names,
    and the lemmas relate every function to it. *)

From S2P Require Import Prelude GoStd.

Definition slash : string := "/".
Definition is_slash (c : Ascii.ascii) : bool := byte_is 47 c.

(** [strings.Split(s, "/")]: never empty. *)
Fixpoint split_slash (s : string) : list string :=
  match s with
  | EmptyString => [""]
  | String c t =>
      if is_slash c then "" :: split_slash t
      else match split_slash t with
           | [] => [String c ""]
           | w :: ws => String c w :: ws
           end
  end.

Definition IsAbs (path : string) : bool :=
  match path with String c _ => is_slash c | EmptyString => false end.

(** ** Clean

    The names of a path, innermost first: empty names and "." vanish, ".." removes the
    name before it, and is kept only at the start of a relative path. *)
Definition push_element (rooted : bool) (stack : list string) (name : string) : list string :=
  if String.eqb name "" || String.eqb name "." then stack
  else if String.eqb name ".."
  then match stack with
       | [] => if rooted then [] else [".."]
       | top :: below => if String.eqb top ".." then ".." :: stack else below
       end
  else name :: stack.
Definition clean_elements (rooted : bool) (names : list string) : list string :=
  rev (fold_left (push_element rooted) names []).
Definition elements (path : string) : list string := clean_elements (IsAbs path) (split_slash path).

(** The text of a normal form. *)
Definition render (rooted : bool) (names : list string) : string :=
  if rooted then slash +:+ str_join slash names
  else match names with [] => "." | _ => str_join slash names end.

Definition Clean (path : string) : string := render (IsAbs path) (elements path).

(** [filepath.Join]: the elements from the first that is not empty. *)
Fixpoint Join (elem : list string) : string :=
  match elem with
  | [] => ""
  | e :: rest => if String.eqb e "" then Join rest else Clean (str_join slash elem)
  end.

(** The path up to and with its last slash, and what follows it. *)
Fixpoint split_last (path : string) : string * string :=
  match path with
  | EmptyString => ("", "")
  | String c t =>
      match split_last t with
      | (EmptyString, base) =>
          if is_slash c then (String c "", base) else ("", String c base)
      | (dir, base) => (String c dir, base)
      end
  end.

Definition Dir (path : string) : string := Clean (split_last path).1.

Fixpoint strip_trailing_slashes (path : string) : string :=
  match path with
  | EmptyString => ""
  | String c t =>
      match strip_trailing_slashes t with
      | EmptyString => if is_slash c then "" else String c ""
      | t' => String c t'
      end
  end.
Definition Base (path : string) : string :=
  if String.eqb path "" then "."
  else let base := (split_last (strip_trailing_slashes path)).2 in
       if String.eqb base "" then slash else base.

(** ** Rel

    The loop over both cleaned paths stops at the first names that differ; it fails when
    the base goes up at that point. *)
Fixpoint drop_common (base targ : list string) : option (list string * list string) :=
  match base, targ with
  | b :: base', t :: targ' =>
      if String.eqb t b then drop_common base' targ'
      else if String.eqb b ".." then None else Some (base, targ)
  | _, _ => Some (base, targ)
  end.

Definition Rel (basepath targpath : string) : option string :=
  let base := Clean basepath in let targ := Clean targpath in
  if String.eqb targ base then Some "."
  else if negb (Bool.eqb (IsAbs base) (IsAbs targ)) then None
  else
    let targ_names := if String.eqb targ "." then ["."] else elements targpath in
    match drop_common (elements basepath) targ_names with
    | None => None
    | Some (up, down) => Some (str_join slash (replicate (length up) ".." ++ down))
    end.

(** [filepath.Abs], with the answer of [os.Getwd]. *)
Definition Abs (getwd : option string) (path : string) : option string :=
  if IsAbs path then Some (Clean path)
  else match getwd with Some wd => Some (Join [wd; path]) | None => None end.

(** ** Names *)

Fixpoint has_slash (s : string) : bool :=
  match s with EmptyString => false | String c t => is_slash c || has_slash t end.

(** A name a cleaned absolute path may hold. *)
Definition real_name (s : string) : bool :=
  negb (has_slash s || String.eqb s "" || String.eqb s "." || String.eqb s "..").
Definition real_names (l : list string) : Prop := Forall (λ s, real_name s = true) l.

Lemma real_name_spec s :
  real_name s = true ↔ has_slash s = false ∧ s ≠ "" ∧ s ≠ "." ∧ s ≠ "..".
Proof.
  unfold real_name. rewrite negb_true_iff, !orb_false_iff, !String.eqb_neq. tauto.
Qed.

Lemma split_slash_nonempty s : split_slash s ≠ [].
Proof. destruct s as [|c s]; simpl; [done|]. destruct (is_slash c); [done|]. by destruct (split_slash s). Qed.

Lemma split_slash_plain s : has_slash s = false → split_slash s = [s].
Proof.
  induction s as [|c s IH]; simpl; [done|]. intros [Hc Hs]%orb_false_iff.
  by rewrite Hc, (IH Hs).
Qed.

Lemma split_slash_names s : Forall (λ w, has_slash w = false) (split_slash s).
Proof.
  induction s as [|c s IH]; simpl; [by repeat constructor|].
  destruct (is_slash c) eqn:Hc; [by constructor|].
  destruct (split_slash s) as [|w ws]; inversion IH; subst; constructor; simpl; rewrite ?Hc; done.
Qed.

Lemma split_slash_app s t : has_slash s = false → split_slash (s +:+ slash +:+ t) = s :: split_slash t.
Proof.
  induction s as [|c s IH]; [done|]. rewrite str_app_cons. intros [Hc Hs]%orb_false_iff.
  cbn [split_slash]. by rewrite Hc, (IH Hs).
Qed.

Lemma split_slash_join l :
  l ≠ [] → Forall (λ w, has_slash w = false) l → split_slash (str_join slash l) = l.
Proof.
  induction l as [|w l IH]; [done|]. intros _ H. inversion H as [|?? Hw Hl]; subst.
  destruct l as [|w' l]; [by apply split_slash_plain|].
  change (str_join slash (w :: w' :: l)) with (w +:+ slash +:+ str_join slash (w' :: l)).
  by rewrite (split_slash_app w _ Hw), IH.
Qed.

(** ** The normal form *)

Lemma push_real rooted stack name :
  real_name name = true → push_element rooted stack name = name :: stack.
Proof.
  intros (_ & H1 & H2 & H3)%real_name_spec. unfold push_element.
  by rewrite !(proj2 (String.eqb_neq _ _)) by done.
Qed.

Lemma push_names rooted stack l :
  real_names l → fold_left (push_element rooted) l stack = rev l ++ stack.
Proof.
  revert stack. induction l as [|n l IH]; intros stack; [done|]. inversion 1; subst; simpl.
  rewrite push_real, IH by done. by rewrite <- app_assoc.
Qed.

Lemma clean_elements_names rooted l : real_names l → clean_elements rooted l = l.
Proof. intros H. unfold clean_elements. by rewrite push_names, app_nil_r, rev_involutive. Qed.

Lemma push_element_real stack name :
  has_slash name = false → real_names stack → real_names (push_element true stack name).
Proof.
  unfold real_names, push_element. intros Hn Hs.
  destruct (String.eqb name "" || String.eqb name ".") eqn:E1; [done|].
  apply orb_false_iff in E1 as [H1%String.eqb_neq H2%String.eqb_neq].
  destruct (String.eqb_spec name "..") as [E2|E2].
  - destruct Hs as [|top below Ht Hb]; [done|].
    apply real_name_spec in Ht as Ht'. by rewrite (proj2 (String.eqb_neq _ _)) by naive_solver.
  - constructor; [|done]. by apply real_name_spec.
Qed.

Lemma clean_elements_real names :
  Forall (λ w, has_slash w = false) names → real_names (clean_elements true names).
Proof.
  intros H. unfold clean_elements. apply Forall_rev.
  assert (∀ stack, real_names stack → real_names (fold_left (push_element true) names stack)) as G.
  { induction H; simpl; [done|]. intros. by apply IHForall, push_element_real. }
  apply G. constructor.
Qed.

Lemma elements_real path : IsAbs path = true → real_names (elements path).
Proof. intros H. unfold elements. rewrite H. apply clean_elements_real, split_slash_names. Qed.

Lemma IsAbs_render names : IsAbs (render true names) = true.
Proof. reflexivity. Qed.

Lemma elements_render names : real_names names → elements (render true names) = names.
Proof.
  intros H. unfold elements. rewrite IsAbs_render. unfold render.
  change (slash +:+ ?t) with ("" +:+ slash +:+ t). rewrite split_slash_app by done.
  unfold clean_elements. cbn [fold_left]. change (push_element true [] "") with (@nil string).
  destruct (decide (names = [])) as [->|Hne]; [reflexivity|].
  rewrite split_slash_join; [exact (clean_elements_names true names H)|done|].
  eapply Forall_impl; [exact H|]. by intros n (? & _)%real_name_spec.
Qed.

Lemma IsAbs_Clean path : IsAbs path = true → IsAbs (Clean path) = true.
Proof. intros H. unfold Clean. by rewrite H. Qed.

Lemma Clean_abs path : IsAbs path = true → Clean path = render true (elements path).
Proof. intros H. unfold Clean. by rewrite H. Qed.

Lemma elements_Clean path : IsAbs path = true → elements (Clean path) = elements path.
Proof. intros H. rewrite Clean_abs by done. by apply elements_render, elements_real. Qed.

Lemma Clean_idem path : IsAbs path = true → Clean (Clean path) = Clean path.
Proof. intros H. rewrite (Clean_abs (Clean path)) by by apply IsAbs_Clean. by rewrite elements_Clean, <- Clean_abs. Qed.

(** Absolute clean paths are equal when their names are. *)
Lemma Clean_eq p q :
  IsAbs p = true → IsAbs q = true → (Clean p = Clean q ↔ elements p = elements q).
Proof.
  intros Hp Hq. split; intros E.
  - by rewrite <- (elements_Clean p), <- (elements_Clean q), E.
  - by rewrite !Clean_abs, E.
Qed.

(** ** What Rel says of absolute paths *)

Lemma drop_common_real base targ :
  real_names base →
  ∃ common up down, drop_common base targ = Some (up, down) ∧
    base = common ++ up ∧ targ = common ++ down ∧
    (up = [] ∨ ¬ ∃ d, targ = base ++ d).
Proof.
  revert targ. induction base as [|b base IH]; intros targ H; [by exists [], [], targ; naive_solver|].
  inversion H as [|?? Hb Hbase]; subst. destruct targ as [|t targ]; cbn [drop_common].
  { exists [], (b :: base), []. split_and!; [done..|]. right. by intros (d & ?). }
  destruct (String.eqb_spec t b) as [->|Hne].
  - destruct (IH targ Hbase) as (common & up & down & -> & -> & -> & Hd).
    exists (b :: common), up, down. split_and!; [done..|].
    destruct Hd as [Hd|Hd]; [by left|right]. intros (d & [=E]). apply Hd. by exists d.
  - apply real_name_spec in Hb as (_ & _ & _ & Hb). rewrite (proj2 (String.eqb_neq _ _) Hb).
    exists [], (b :: base), (t :: targ). split_and!; [done..|]. right. by intros (d & [=]).
Qed.

(** Where a cleaned path lies relative to a base: it is the base, strictly below it, or
    reached by going up. *)
Lemma Rel_abs base targ :
  IsAbs base = true → IsAbs targ = true →
  (elements targ = elements base ∧ Rel base targ = Some ".") ∨
  (∃ d, d ≠ [] ∧ real_names d ∧ elements targ = elements base ++ d ∧ Rel base targ = Some (str_join slash d)) ∨
  ((¬ ∃ d, elements targ = elements base ++ d) ∧
   ∃ down, Rel base targ = Some (str_join slash (".." :: down))).
Proof.
  intros Hb Ht. unfold Rel. cbn zeta. rewrite !IsAbs_Clean by done. cbn [Bool.eqb negb].
  destruct (String.eqb_spec (Clean targ) (Clean base)) as [E|E]; rewrite Clean_eq in E by done; [by left|].
  right. rewrite (proj2 (String.eqb_neq (Clean targ) ".")); last by rewrite Clean_abs by done.
  destruct (drop_common_real (elements base) (elements targ)) as (common & up & down & -> & Eb & Et & Hd);
    [by apply elements_real|].
  destruct up as [|u up].
  - left. exists down. rewrite app_nil_r in Eb. subst common. split_and!; [|..|done|done].
    + intros ->. apply E. by rewrite Et, app_nil_r.
    + pose proof (elements_real targ Ht) as H. rewrite Et in H. by apply Forall_app in H as [_ H].
  - right. destruct Hd as [|Hd]; [done|]. split; [done|]. by eexists.
Qed.

Lemma CutPrefix_spec s pre r : CutPrefix s pre = Some r → s = pre +:+ r.
Proof.
  revert s. induction pre as [|a pre IH]; intros s; [by destruct s; intros [= <-]|].
  destruct s as [|b s]; [done|]. cbn [CutPrefix]. destruct (Ascii.eqb_spec a b) as [->|]; [|done].
  intros ->%IH. by rewrite str_app_cons.
Qed.
Lemma HasPrefix_spec s pre : HasPrefix s pre = true → ∃ r, s = pre +:+ r.
Proof. unfold HasPrefix. destruct (CutPrefix s pre) as [r|] eqn:E; [|done]. eauto using CutPrefix_spec. Qed.


(** [rel == ".." || strings.HasPrefix(rel, "../")]. *)
Definition goes_up (rel : string) : bool := String.eqb rel ".." || HasPrefix rel "../".

Lemma goes_up_first_name rel : goes_up rel = true → head (split_slash rel) = Some "..".
Proof.
  unfold goes_up. intros [->%String.eqb_eq|(r & ->)%HasPrefix_spec]%orb_true_iff; [done|].
  change ("../" +:+ r) with (".." +:+ slash +:+ r). by rewrite split_slash_app.
Qed.

Lemma goes_up_dotdot down : goes_up (str_join slash (".." :: down)) = true.
Proof.
  destruct down as [|d down]; [done|]. unfold goes_up. apply orb_true_iff. right.
  exact (HasPrefix_app "../" (str_join slash (d :: down))).
Qed.

Lemma join_real d :
  d ≠ [] → real_names d →
  goes_up (str_join slash d) = false ∧ str_join slash d ≠ "" ∧ str_join slash d ≠ "." ∧
  IsAbs (str_join slash d) = false.
Proof.
  intros Hne H. assert (split_slash (str_join slash d) = d) as E.
  { apply split_slash_join; [done|]. eapply Forall_impl; [exact H|]. by intros n (? & _)%real_name_spec. }
  destruct H as [|n d Hn Hd]; [done|]. apply real_name_spec in Hn as (N1 & N2 & N3 & N4).
  split_and!.
  - apply not_true_iff_false. intros G%goes_up_first_name. rewrite E in G. naive_solver.
  - intros G. rewrite G in E. naive_solver.
  - intros G. rewrite G in E. naive_solver.
  - destruct n as [|c n]; [done|]. cbn in N1. apply orb_false_iff in N1 as [N1 _].
    destruct d; cbn; done.
Qed.

(** ** Join, Dir and Base *)

Lemma split_slash_app' s t : split_slash (s +:+ slash +:+ t) = split_slash s ++ split_slash t.
Proof.
  induction s as [|c s IH]; [done|]. rewrite str_app_cons. cbn [split_slash]. rewrite IH.
  destruct (is_slash c); [done|]. pose proof (split_slash_nonempty s).
  by destruct (split_slash s) as [|w ws].
Qed.

Lemma IsAbs_app s t : IsAbs s = true → IsAbs (s +:+ t) = true.
Proof. by destruct s. Qed.

Lemma clean_elements_app rooted l l' :
  clean_elements rooted (l ++ l') = rev (fold_left (push_element rooted) l' (rev (clean_elements rooted l))).
Proof. unfold clean_elements. by rewrite fold_left_app, rev_involutive. Qed.

(** Joining names below an absolute path appends them. *)
Lemma elements_Join path names :
  IsAbs path = true → real_names names →
  elements (Join (path :: names)) = elements path ++ names ∧ IsAbs (Join (path :: names)) = true.
Proof.
  intros Ha Hn. cbn [Join]. destruct path as [|c path]; [done|].
  change (String.eqb (String c path) "") with false. cbn [negb].
  set (text := str_join slash (String c path :: names)).
  assert (IsAbs text = true) as Htext by (unfold text; destruct names; [done|by apply IsAbs_app]).
  split; [|by apply IsAbs_Clean]. rewrite elements_Clean by done.
  unfold elements. rewrite Htext, Ha. unfold text.
  destruct names as [|n names]; [by rewrite app_nil_r|].
  change (str_join slash (?a :: ?b :: ?l)) with (a +:+ slash +:+ str_join slash (b :: l)).
  rewrite split_slash_app', (split_slash_join (n :: names)); [|done|].
  - rewrite clean_elements_app, push_names by done. by rewrite rev_app_distr, !rev_involutive.
  - eapply Forall_impl; [exact Hn|]. by intros m (? & _)%real_name_spec.
Qed.

Lemma split_last_spec path :
  has_slash path = true →
  ∃ front base, path = front +:+ slash +:+ base ∧ split_last path = (front +:+ slash, base) ∧
    has_slash base = false.
Proof.
  induction path as [|c path IH]; [done|]. cbn [has_slash split_last].
  destruct (has_slash path) eqn:Hp; intros H.
  - destruct (IH eq_refl) as (front & base & E1 & E2 & E3). exists (String c front), base.
    rewrite E2. split_and!; [by rewrite E1, str_app_cons| |done]. by destruct front.
  - rewrite orb_false_r in H. exists "", path. clear IH.
    assert (split_last path = ("", path)) as ->.
    { induction path as [|d path IH]; [done|]. cbn [has_slash split_last] in *.
      apply orb_false_iff in Hp as [Hd Hp]. by rewrite (IH Hp), Hd. }
    assert (c = Ascii.ascii_of_nat 47) as ->; [|done].
    unfold is_slash, byte_is in H. apply Nat.eqb_eq in H. by rewrite <- H, Ascii.ascii_nat_embedding.
Qed.

Lemma push_length rooted l stack :
  (length (fold_left (push_element rooted) l stack) ≤ length stack + length l)%nat.
Proof.
  revert stack. induction l as [|n l IH]; intros stack; simpl; [lia|].
  etrans; [apply IH|]. assert (length (push_element rooted stack n) ≤ S (length stack))%nat; [|lia].
  unfold push_element. repeat case_match; simpl; lia.
Qed.

Lemma elements_length path : (length (elements path) ≤ length (split_slash path))%nat.
Proof.
  unfold elements, clean_elements. rewrite length_rev.
  pose proof (push_length (IsAbs path) (split_slash path) []). simpl in *. lia.
Qed.

(** The parent of an absolute path: the names before its last slash. *)
Lemma Dir_abs path :
  IsAbs path = true →
  ∃ front base, split_slash path = split_slash front ++ [base] ∧ has_slash base = false ∧
    IsAbs (Dir path) = true ∧ elements (Dir path) = clean_elements true (split_slash front) ∧
    Dir path = render true (elements (Dir path)) ∧ (split_last path).2 = base.
Proof.
  intros H. assert (has_slash path = true) as Hs.
  { destruct path as [|c path]; [done|]. simpl in *. by rewrite H. }
  destruct (split_last_spec path Hs) as (front & base & -> & E & Hb). exists front, base.
  unfold Dir. rewrite E. cbn [fst snd].
  assert (IsAbs (front +:+ slash) = true) as Ha by by destruct front.
  split_and!; [by rewrite split_slash_app', (split_slash_plain base)|done|by apply IsAbs_Clean| | |done].
  2: by rewrite elements_Clean, <- Clean_abs by done.
  rewrite elements_Clean by done. unfold elements. rewrite Ha.
  assert (split_slash (front +:+ slash) = split_slash front ++ [""]) as ->.
  { exact (split_slash_app' front ""). }
  rewrite clean_elements_app. unfold clean_elements. by rewrite !rev_involutive.
Qed.

Lemma split_slash_render names :
  real_names names →
  split_slash (render true names) = "" :: match names with [] => [""] | _ => names end.
Proof.
  intros H. unfold render. change (slash +:+ ?t) with ("" +:+ slash +:+ t).
  rewrite split_slash_app by done. f_equal. destruct names as [|n ns]; [done|].
  apply split_slash_join; [done|]. eapply Forall_impl; [exact H|]. by intros m (? & _)%real_name_spec.
Qed.

Lemma Dir_clean path :
  IsAbs path = true → Clean path = path →
  elements (Dir path) = removelast (elements path) ∧ (elements path = [] → Dir path = path).
Proof.
  intros H Hc. destruct (Dir_abs path H) as (front & base & Es & Hb & Ha & Ed & Er & _).
  pose proof (elements_real path H) as Hreal.
  rewrite <- Hc in Es. rewrite Clean_abs, split_slash_render in Es by done.
  enough (elements (Dir path) = removelast (elements path)) as E.
  { split; [done|]. intros E0. rewrite Er, E, E0. rewrite <- Hc. by rewrite Clean_abs, E0. }
  rewrite Ed. destruct (elements path) as [|n ns _] eqn:E using rev_ind.
  - change ["";  ""] with ([""] ++ [""]) in Es. by apply app_inj_tail in Es as [<- _].
  - rewrite removelast_last. assert (split_slash front = "" :: ns) as ->.
    { destruct (ns ++ [n]) eqn:Ens; [by destruct ns|]. rewrite <- Ens in Es.
      change ("" :: ns ++ [n]) with (("" :: ns) ++ [n]) in Es. by apply app_inj_tail in Es as [<- _]. }
    apply Forall_app in Hreal as [Hreal _]. exact (clean_elements_names true ns Hreal).
Qed.

(** ** Clean absolute paths *)

Definition clean_abs (path : string) : Prop := IsAbs path = true ∧ Clean path = path.

Lemma clean_abs_render path : clean_abs path ↔ ∃ names, real_names names ∧ path = render true names.
Proof.
  split.
  - intros [H Hc]. exists (elements path). split; [by apply elements_real|]. by rewrite <- Clean_abs.
  - intros (names & H & ->). split; [done|]. by rewrite Clean_abs, elements_render.
Qed.

Lemma Dir_clean_abs path : IsAbs path = true → clean_abs (Dir path).
Proof.
  intros H. destruct (Dir_abs path H) as (_ & _ & _ & _ & Ha & _ & Er & _).
  split; [done|]. by rewrite Clean_abs, <- Er.
Qed.

Lemma Join_clean_abs path names : IsAbs path = true → clean_abs (Join (path :: names)).
Proof.
  intros H. cbn [Join]. destruct path as [|c path]; [done|].
  change (String.eqb (String c path) "") with false.
  assert (IsAbs (str_join slash (String c path :: names)) = true) as Ha by (destruct names; [done|by apply IsAbs_app]).
  split; [by apply IsAbs_Clean|by apply Clean_idem].
Qed.

Lemma split_last_plain base : has_slash base = false → split_last base = ("", base).
Proof.
  induction base as [|c b IH]; [done|]. cbn [has_slash split_last].
  intros [Hc Hb]%orb_false_iff. by rewrite (IH Hb), Hc.
Qed.

Lemma split_last_app front base :
  has_slash base = false → split_last (front +:+ slash +:+ base) = (front +:+ slash, base).
Proof.
  intros H. induction front as [|c front IH].
  - rewrite str_app_nil. unfold slash. rewrite str_app_cons, str_app_nil. cbn [split_last].
    by rewrite split_last_plain by done.
  - rewrite !str_app_cons. cbn [split_last]. rewrite IH. by destruct front.
Qed.

Lemma strip_no_slash s : has_slash s = false → strip_trailing_slashes s = s.
Proof.
  induction s as [|c s IH]; [done|]. cbn [has_slash strip_trailing_slashes].
  intros [Hc Hs]%orb_false_iff. rewrite (IH Hs). destruct s; [by rewrite Hc|done].
Qed.

Lemma strip_app front base :
  has_slash base = false → base ≠ "" →
  strip_trailing_slashes (front +:+ base) = front +:+ base.
Proof.
  intros H Hne. induction front as [|c front IH]; [by apply strip_no_slash|].
  rewrite str_app_cons. cbn [strip_trailing_slashes]. rewrite IH.
  destruct (front +:+ base) eqn:E; [|done].
  exfalso. apply (f_equal String.length) in E. rewrite str_length_app in E. destruct base; simpl in *; [done|lia].
Qed.

Lemma render_snoc names n : ∃ front, render true (names ++ [n]) = front +:+ slash +:+ n.
Proof.
  unfold render. destruct names as [|m names]; [by exists ""|]. exists (slash +:+ str_join slash (m :: names)).
  rewrite <- !str_app_assoc. f_equal.
  revert m. induction names as [|m' names IH]; intros m; [done|].
  change (str_join slash ((m :: m' :: names) ++ [n])) with (m +:+ slash +:+ str_join slash ((m' :: names) ++ [n])).
  change (str_join slash (m :: m' :: names)) with (m +:+ slash +:+ str_join slash (m' :: names)).
  rewrite IH. by rewrite <- !str_app_assoc.
Qed.

(** A clean path is its parent joined with its last name. *)
Lemma Join_Dir_Base path :
  clean_abs path → elements path ≠ [] → Join [Dir path; Base path] = path.
Proof.
  intros [Ha Hc] Hne. pose proof (elements_real path Ha) as Hreal.
  destruct (Dir_clean path Ha Hc) as [Ed _]. destruct (Dir_clean_abs path Ha) as [Hda Hdc].
  destruct (elements path) as [|n ns _] eqn:E using rev_ind; [done|].
  apply Forall_app in Hreal as [Hns Hn]. inversion Hn as [|?? Hn' _]; subst.
  assert (Base path = n) as ->.
  { unfold Base. rewrite (Clean_abs path Ha), E in Hc. rewrite <- Hc.
    destruct (render_snoc ns n) as [front ->]. apply real_name_spec in Hn' as (Hs & H0 & _).
    rewrite (str_app_assoc front), strip_app, <- str_app_assoc, split_last_app by done.
    cbn [snd]. rewrite (proj2 (String.eqb_neq n "")) by done.
    destruct (String.eqb_spec (front +:+ slash +:+ n) "") as [E0|]; [|done]. by destruct front. }
  destruct (elements_Join (Dir path) [n] Hda Hn) as [Ej Ha'].
  rewrite removelast_last in Ed. rewrite Ed in Ej.
  destruct (Join_clean_abs (Dir path) [n] Hda) as [_ <-].
  rewrite (Clean_abs _ Ha'), Ej. by rewrite <- E, <- Clean_abs.
Qed.
