(* ===== verification/AgentErrors.v ===== *)
(** * Errors and results of a runner (internal/runner/runner.go)

    The error types a runner returns, with their texts and their chains of wrapped
    errors, and what [Runner.Run] returns.  [%v] of a nil error is [<nil>]; a nil pointer
    to an error type does not occur. *)

From S2P Require Import Prelude GoStd Payload Ops RuntimeEvents Poller.

Inductive RunnerErrorCategory :=
| CategoryCodexNotFound | CategoryInvalidWorkspaceCWD | CategoryResponseTimeout | CategoryTurnTimeout
| CategoryPortExit | CategoryResponseError | CategoryTurnFailed | CategoryTurnCancelled
| CategoryTurnInputRequired.
Definition category_string (c : RunnerErrorCategory) : string :=
  match c with
  | CategoryCodexNotFound => "codex_not_found"
  | CategoryInvalidWorkspaceCWD => "invalid_workspace_cwd"
  | CategoryResponseTimeout => "response_timeout"
  | CategoryTurnTimeout => "turn_timeout"
  | CategoryPortExit => "port_exit"
  | CategoryResponseError => "response_error"
  | CategoryTurnFailed => "turn_failed"
  | CategoryTurnCancelled => "turn_cancelled"
  | CategoryTurnInputRequired => "turn_input_required"
  end.
#[export] Instance RunnerErrorCategory_eq_dec : EqDecision RunnerErrorCategory.
Proof. solve_decision. Defined.

(** [DeadlineErr] and [CanceledErr] are the errors of the context package; [PlainErr] any
    error that wraps none, [WrapErr] one of fmt.Errorf with its whole text, [JoinErr] one
    of errors.Join of two. *)
Inductive AgentErr :=
| AgentInputRequired (Method : string)
| AgentQuotaBackoff (Message : string) (RetryAfter : Duration)
| SandboxStartupError (Detail : string)
| CategoryError (Category : RunnerErrorCategory) (Message : string) (Err : option AgentErr)
| TimeoutError (Timeout Elapsed : Duration) (Cause : option AgentErr)
| StallError (Timeout Elapsed : Duration) (LastEvent : string) (Cause : option AgentErr)
| TurnTimeoutError (Timeout Elapsed : Duration) (Cause : option AgentErr)
| ReadTimeoutError (Timeout : Duration) (Cause : option AgentErr)
| DeadlineErr
| CanceledErr
| PlainErr (text : string)
| WrapErr (text : string) (inner : AgentErr)
| AppServerReadTimeout (afterMs : Z)
| StdoutBacklogOverflow (capBytes : Z)
| JoinErr (e1 e2 : AgentErr).

(** [errors.Unwrap]. *)
Definition Unwrap (e : AgentErr) : option AgentErr :=
  match e with
  | CategoryError _ _ c | TimeoutError _ _ c | StallError _ _ _ c | TurnTimeoutError _ _ c | ReadTimeoutError _ c => c
  | WrapErr _ inner => Some inner
  | _ => None
  end.

Fixpoint agent_error_text (e : AgentErr) : string :=
  let cause c := match c with Some e => agent_error_text e | None => "<nil>" end in
  match e with
  | AgentInputRequired m => Error (InputRequiredError m)
  | AgentQuotaBackoff m after => Error (QuotaBackoffError m after)
  | SandboxStartupError d =>
      if blank d then "agent sandbox failed to start" else "agent sandbox failed to start: " +:+ d
  | CategoryError c m err =>
      let msg := if String.eqb m "" then category_string c else m in
      match err with Some e => msg +:+ ": " +:+ agent_error_text e | None => msg end
  | TimeoutError timeout elapsed c =>
      "runner timed out after " +:+ Duration_String elapsed +:+ " (budget " +:+ Duration_String timeout +:+ "): " +:+ cause c
  | StallError timeout elapsed last c =>
      let last := if blank last then "" else " after last event " +:+ quote last in
      let head := "runner stall timeout after " +:+ Duration_String elapsed +:+ " without events" +:+ last
                  +:+ " (budget " +:+ Duration_String timeout +:+ ")" in
      match c with Some e => head +:+ ": " +:+ agent_error_text e | None => head end
  | TurnTimeoutError timeout elapsed c =>
      let head := "runner turn timeout after " +:+ Duration_String elapsed +:+ " (budget " +:+ Duration_String timeout +:+ ")" in
      match c with Some e => head +:+ ": " +:+ agent_error_text e | None => head end
  | ReadTimeoutError timeout c =>
      let head := "runner read timeout after " +:+ Duration_String timeout in
      match c with Some e => head +:+ ": " +:+ agent_error_text e | None => head end
  | DeadlineErr => "context deadline exceeded"
  | CanceledErr => "context canceled"
  | PlainErr text => text
  | WrapErr text _ => text
  | AppServerReadTimeout ms => "codex app-server read timeout after " +:+ fmt_d ms +:+ "ms"
  | StdoutBacklogOverflow cap =>
      "codex app-server stdout backlog exceeded " +:+ fmt_d cap +:+ " bytes with the consumer busy"
  | JoinErr e1 e2 => agent_error_text e1 +:+ newline +:+ agent_error_text e2
  end.

(** [errors.As] for a type the errors of which are those [f] accepts: the first of the
    chain. *)
Fixpoint errors_As {A} (f : AgentErr → option A) (e : AgentErr) : option A :=
  match f e with
  | Some a => Some a
  | None =>
      match e with
      | CategoryError _ _ (Some c) | TimeoutError _ _ (Some c) | StallError _ _ _ (Some c)
      | TurnTimeoutError _ _ (Some c) | ReadTimeoutError _ (Some c) | WrapErr _ c => errors_As f c
      | JoinErr e1 e2 => match errors_As f e1 with Some a => Some a | None => errors_As f e2 end
      | _ => None
      end
  end.
(** The error found, with its timeout and elapsed. *)
Definition as_stall (e : AgentErr) : option (AgentErr * Duration * Duration) :=
  errors_As (fun e => match e with StallError t el _ _ => Some (e, t, el) | _ => None end) e.
Definition as_turn_timeout (e : AgentErr) : option (AgentErr * Duration * Duration) :=
  errors_As (fun e => match e with TurnTimeoutError t el _ => Some (e, t, el) | _ => None end) e.
Definition as_read_timeout (e : AgentErr) : option (AgentErr * Duration) :=
  errors_As (fun e => match e with ReadTimeoutError t _ => Some (e, t) | _ => None end) e.
Definition as_timeout (e : AgentErr) : option (AgentErr * Duration * Duration) :=
  errors_As (fun e => match e with TimeoutError t el _ => Some (e, t, el) | _ => None end) e.
Definition IsStall (e : AgentErr) : bool := match as_stall e with Some _ => true | None => false end.
Definition IsTurnTimeout (e : AgentErr) : bool := match as_turn_timeout e with Some _ => true | None => false end.
Definition IsReadTimeout (e : AgentErr) : bool := match as_read_timeout e with Some _ => true | None => false end.
Definition IsTimeout (e : AgentErr) : bool := match as_timeout e with Some _ => true | None => false end.
(** [errors.Is(e, context.DeadlineExceeded)]. *)
Definition is_deadline (e : AgentErr) : bool :=
  match errors_As (fun e => match e with DeadlineErr => Some tt | _ => None end) e with Some _ => true | None => false end.
(** [runner.IsInputRequired], [IsQuotaBackoff] and [IsSandboxStartup]. *)
Definition agent_IsInputRequired (e : AgentErr) : bool :=
  match errors_As (fun e => match e with AgentInputRequired _ => Some tt | _ => None end) e with Some _ => true | None => false end.
Definition IsQuotaBackoff (e : AgentErr) : bool :=
  match errors_As (fun e => match e with AgentQuotaBackoff _ _ => Some tt | _ => None end) e with Some _ => true | None => false end.
Definition IsSandboxStartup (e : AgentErr) : bool :=
  match errors_As (fun e => match e with SandboxStartupError _ => Some tt | _ => None end) e with Some _ => true | None => false end.
(** [ErrorCategory]: the first error of the chain with a category method. *)
Definition ErrorCategory (e : AgentErr) : option RunnerErrorCategory :=
  errors_As (fun e => match e with
                      | CategoryError c _ _ => Some c
                      | TurnTimeoutError _ _ _ => Some CategoryTurnTimeout
                      | ReadTimeoutError _ _ => Some CategoryResponseTimeout
                      | StdoutBacklogOverflow _ => Some CategoryResponseError
                      | _ => None
                      end) e.

(** The error as the orchestrator reads it: the texts, and the two types it asks for. *)
Fixpoint run_error (e : AgentErr) : RunError :=
  match e with
  | AgentInputRequired m => InputRequiredError m
  | AgentQuotaBackoff m after => QuotaBackoffError m after
  | CategoryError _ _ (Some c) | TimeoutError _ _ (Some c) | StallError _ _ _ (Some c)
  | TurnTimeoutError _ _ (Some c) | ReadTimeoutError _ (Some c) | WrapErr _ c =>
      WrappedError (agent_error_text e) (run_error c)
  | JoinErr e1 e2 => JoinedError (agent_error_text e) (run_error e1) (run_error e2)
  | _ => OtherError (agent_error_text e)
  end.

(** ** What a runner returns *)

Record RunnerResult := {
  res_Summary : string;
  res_RuntimeEvents : list TaskEvent;
  res_IssueExitState : option IssueStateSnapshot;
  res_OutputBytes : Z;
  res_OutputDropped : Z;
  res_OutputHead : string;
  res_OutputTail : string
}.
(** A call of one of the input's sinks while the runner runs. *)
Inductive Callback :=
| OnPhase (from to : string)
| OnEvent (event : TaskEvent).
(** One run: the callbacks in order, the two results, whether the context of the run was
    past its deadline and why the outer context ended, and the time it took. *)
Inductive CancelCause := NotCanceled | ReconcileCancel | OtherCause.
Record AgentRun := {
  ar_Callbacks : list Callback;
  ar_Result : RunnerResult;
  ar_Err : option AgentErr;
  ar_DeadlineExceeded : bool;
  ar_Cause : CancelCause;
  ar_Elapsed : Duration
}.
Definition zero_Result : RunnerResult :=
  {| res_Summary := ""; res_RuntimeEvents := []; res_IssueExitState := None; res_OutputBytes := 0;
     res_OutputDropped := 0; res_OutputHead := ""; res_OutputTail := "" |}.
Definition clean_run : AgentRun :=
  {| ar_Callbacks := []; ar_Result := zero_Result; ar_Err := None; ar_DeadlineExceeded := false;
     ar_Cause := NotCanceled; ar_Elapsed := 0 |}.

(** ** Classifying through a chain *)

Lemma errors_As_here {A} (f : AgentErr → option A) e a : f e = Some a → errors_As f e = Some a.
Proof. intros H. destruct e; cbn [errors_As]; by rewrite H. Qed.
(** The orchestrator sees the same chain. *)
Lemma run_error_input e : IsInputRequired (run_error e) = agent_IsInputRequired e.
Proof.
  unfold agent_IsInputRequired. revert e.
  fix IH 1. intros [| | |? ? [c|]|? ? [c|]|? ? ? [c|]|? ? [c|]|? [c|]| | | |? c| | |e1 e2];
    cbn [run_error IsInputRequired errors_As]; try reflexivity; try apply IH.
  rewrite (IH e1), (IH e2). by destruct (errors_As _ e1).
Qed.
Lemma run_error_quota e : (match as_quota (run_error e) with Some _ => true | None => false end) = IsQuotaBackoff e.
Proof.
  unfold IsQuotaBackoff. revert e.
  fix IH 1. intros [| | |? ? [c|]|? ? [c|]|? ? ? [c|]|? ? [c|]|? [c|]| | | |? c| | |e1 e2];
    cbn [run_error as_quota errors_As]; try reflexivity; try apply IH.
  pose proof (IH e1) as IH1. pose proof (IH e2) as IH2. destruct (as_quota (run_error e1)), (errors_As _ e1); try done.
Qed.
Lemma run_error_text e : Error (run_error e) = agent_error_text e.
Proof. by destruct e as [| | |? ? []|? ? []|? ? ? []|? ? []|? []| | | | | | |]. Qed.
