(* ===== verification/Sys.v ===== *)
(** * Programs that call the operating system

    The functions of internal/workspace are sequences of system calls, git commands and
    shell commands.  [Sys] lists those calls with the type of their answers; [Prog] is a
    program over them.  The answer to a call is chosen by an operating system [OS], which
    sees every call made before and its answer: [exec] runs a program against one and
    returns the log of what happened.

    [safe] is the logic: [safe G past p Q] says that every call [p] makes is allowed by
    [G], which sees the log, and that [Q] holds of the log and the result, whatever the
    answers are.  [safe_exec] takes it to runs. *)

From S2P Require Import Prelude GoStd Payload AgentErrors.

(** ** Errors

    [errors.Is] looks through [Wrapped] and both parts of [Both]; texts of messages are
    the ones of the code, without the arguments formatted into them. *)
Inductive OsErr := ENotExist | EOther (text : string).
Definition os_IsNotExist (e : OsErr) : bool := match e with ENotExist => true | _ => false end.

(** How a command ended: [exec.ExitError], [exec.ErrWaitDelay], or it did not start. *)
Inductive RunErr := ExitError (code : Z) | ErrWaitDelay | StartFailed (e : OsErr).
(** [context.Cause] of a context that is done. *)
Inductive Cause := DeadlineExceeded | CanceledBy (text : string).

Inductive Err :=
| ErrSafeRemoveInvalidPath
| ErrSafeRemoveEscapesRoot
| ErrWorktreeOwnershipLockHeld
| OutOfFuel                   (* of the model; never returned *)
| FromOs (e : OsErr)
| FromRun (e : RunErr)
| FromContext (c : Cause)
| Message (text : string)
| Wrapped (text : string) (e : Err)
| Both (text : string) (e1 e2 : Err).

(** [errors.Is(e, target)] for a sentinel. *)
Fixpoint errors_Is (target : Err → bool) (e : Err) : bool :=
  target e || match e with
              | Wrapped _ e => errors_Is target e
              | Both _ e1 e2 => errors_Is target e1 || errors_Is target e2
              | _ => false
              end.

(** ** Calls *)

Record FileInfo := {
  fi_IsDir : bool;
  fi_IsSymlink : bool;
  fi_Nlink : option Z;       (* None when Sys() is no Stat_t *)
  fi_ModTime : Time
}.
Record DirEntry := { de_Name : string; de_IsDir : bool; de_Info : OsErr + FileInfo }.

(** What [cmd.Run] or [cmd.Output] returns with its context's deadline of its own. *)
Record GitRun := {
  gr_Err : option RunErr;
  gr_Ctx : option Cause;     (* the cause, when the context is done *)
  gr_Stdout : string;
  gr_Stderr : string
}.
(** Where git's output goes: [Inherit] to the worker's own streams, [Capture] with
    stderr in a temporary file, [Discard] to nowhere, [Redact] through the redacting
    writers, [Output] to the caller. *)
Inductive Streams := Inherit | Capture | Discard | Redact | Output.

(** A hook command: the chunks it wrote until it ended, or was killed, how it ended, and
    whether the context of the command was done. *)
Record CommandRun := {
  cr_Started : option OsErr;
  cr_Chunks : list string;
  cr_Err : option RunErr;
  cr_Ctx : option Cause;
  cr_WaitedOut : bool;       (* the grace after the kill ran out *)
  cr_Duration : Duration
}.

Definition Fd := Z.

(** The values of a task event's payload; an error is put there as a summary. *)
Inductive Payload := JStr (s : string) | JInt (n : Z) | JBool (b : bool) | JStrs (l : list string) | JErr (e : option Err).

Inductive Sys : Type → Type :=
| EvalSymlinks (path : string) : Sys (OsErr + string)
| Lstat (path : string) : Sys (OsErr + FileInfo)
| Stat (path : string) : Sys (OsErr + FileInfo)
| MkdirAll (path : string) : Sys (option OsErr)
| RemoveAll (path : string) : Sys (option OsErr)
| Remove (path : string) : Sys (option OsErr)
| Rename (from to : string) : Sys (option OsErr)
| ReadDir (path : string) : Sys (OsErr + list DirEntry)
| ReadFile (path : string) : Sys (OsErr + string)
| WriteFile (path text : string) : Sys (option OsErr)
| Chmod (path : string) (mode : Z) : Sys (option OsErr)
| OpenFile (path : string) (flags : list string) (mode : Z) : Sys (OsErr + Fd)
| Fstat (fd : Fd) : Sys (OsErr + FileInfo)
| FdWrite (fd : Fd) (text : string) : Sys (option OsErr)
| Fchmod (fd : Fd) (mode : Z) : Sys (option OsErr)
| Close (fd : Fd) : Sys (option OsErr)
| Flock (fd : Fd) (nonblock : bool) : Sys (option OsErr)
| Funlock (fd : Fd) : Sys (option OsErr)
| MutexLock (key : string) : Sys unit
| MutexUnlock (key : string) : Sys unit
| CreateTemp : Sys bool
| Git (streams : Streams) (dir : string) (args : list string) : Sys GitRun
| Command (dir command : string) (timeoutMs : Z) (env : list string) : Sys CommandRun
| Getwd : Sys (option string)
| UserCacheDir : Sys (option string)
| TempDir : Sys string
| Now : Sys Time
| Emit (taskID kind message : string) (payload : list (string * Payload)) : Sys unit
(* the same method of the emitter, with a runtime event's payload handed through *)
| EmitRuntime (taskID kind message : string) (payload : any) : Sys unit
(* Runner.Run, with the model, the working directory, the workspace root, the prompt, the
   clean turn budget and the timeout of its context *)
| RunAgent (model workdir root prompt : string) (budget : Z) (timeout : Duration) : Sys AgentRun.

(** ** Programs *)

Inductive Prog (A : Type) : Type :=
| Done (a : A)
| Do {B : Type} (c : Sys B) (k : B → Prog A).
Arguments Done {A} a.
Arguments Do {A B} c k.

Fixpoint prog_bind {A B} (p : Prog A) (f : A → Prog B) : Prog B :=
  match p with
  | Done a => f a
  | Do c k => Do c (fun b => prog_bind (k b) f)
  end.
Definition call {B} (c : Sys B) : Prog B := Do c Done.

(** A program that may return an error; [let! x := p in q] returns the error of [p]. *)
Definition Fallible (A : Type) := Prog (Err + A).
Definition fail {A} (e : Err) : Fallible A := Done (inl e).
Definition ok {A} (a : A) : Fallible A := Done (inr a).
Definition or_fail {A B} (p : Fallible A) (f : A → Fallible B) : Fallible B :=
  prog_bind p (fun r => match r with inl e => fail e | inr a => f a end).
(** [fmt.Errorf("text: %w", err)]. *)
Definition wrap_error {A} (text : string) (p : Fallible A) : Fallible A :=
  prog_bind p (fun r => Done (match r with inl e => inl (Wrapped text e) | inr a => inr a end)).
(** A call that returns an [error] or a value, or only an [error]. *)
Definition os_value {A} (c : Sys (OsErr + A)) : Fallible A :=
  Do c (fun r => Done (match r with inl e => inl (FromOs e) | inr a => inr a end)).
Definition os_done (c : Sys (option OsErr)) : Fallible unit :=
  Do c (fun r => Done (match r with Some e => inl (FromOs e) | None => inr tt end)).

Notation "'let*' x := p 'in' q" := (prog_bind p (fun x => q))
  (at level 200, x binder, p at level 100, q at level 200) : go_scope.
Notation "'let!' x := p 'in' q" := (or_fail p (fun x => q))
  (at level 200, x binder, p at level 100, q at level 200) : go_scope.

(** ** Running a program *)

Inductive Event :=
| Ev {B : Type} (c : Sys B) (answer : B).
Definition OS := ∀ B, list Event → Sys B → B.

Fixpoint exec {A} (os : OS) (past : list Event) (p : Prog A) : list Event * A :=
  match p with
  | Done a => (past, a)
  | Do c k => let b := os _ past c in exec os (past ++ [Ev c b]) (k b)
  end.

(** [happened log past c b]: [log] has the call [c], answered with [b], after [past]. *)
Definition happened {B} (log past : list Event) (c : Sys B) (b : B) : Prop :=
  ∃ after, log = past ++ Ev c b :: after.

Lemma exec_bind {A B} os past (p : Prog A) (f : A → Prog B) :
  exec os past (prog_bind p f) = let '(past', a) := exec os past p in exec os past' (f a).
Proof. revert past. induction p as [a|B' c k IH]; intros past; simpl; [done|]. apply IH. Qed.

Lemma exec_or_fail {A B} os past (p : Fallible A) (f : A → Fallible B) :
  exec os past (or_fail p f) =
  let '(past', r) := exec os past p in
  match r with inl e => (past', inl e) | inr a => exec os past' (f a) end.
Proof. unfold or_fail. rewrite exec_bind. by destruct (exec os past p) as [past' [e|a]]. Qed.

(** An operating system on which every call succeeds and every file is an empty
    directory; concrete systems override some of its answers. *)
Definition a_directory : FileInfo :=
  {| fi_IsDir := true; fi_IsSymlink := false; fi_Nlink := Some 1; fi_ModTime := time_zero |}.
Definition git_ok (out : string) : GitRun :=
  {| gr_Err := None; gr_Ctx := None; gr_Stdout := out; gr_Stderr := "" |}.
Definition quiet_os : OS := fun B _ c =>
  match c in Sys B return B with
  | EvalSymlinks p => inr p
  | Lstat _ | Stat _ | Fstat _ => inr a_directory
  | MkdirAll _ | RemoveAll _ | Remove _ | Rename _ _ | WriteFile _ _ | Chmod _ _ => None
  | FdWrite _ _ | Fchmod _ _ | Close _ | Flock _ _ | Funlock _ => None
  | ReadDir _ => inr []
  | ReadFile _ => inr ""
  | OpenFile _ _ _ => inr 3
  | MutexLock _ | MutexUnlock _ | Emit _ _ _ _ | EmitRuntime _ _ _ _ => tt
  | RunAgent _ _ _ _ _ _ => clean_run
  | CreateTemp => true
  | Git _ _ _ => git_ok ""
  | Command _ _ _ _ =>
      {| cr_Started := None; cr_Chunks := []; cr_Err := None; cr_Ctx := None;
         cr_WaitedOut := false; cr_Duration := 0 |}
  | Getwd | UserCacheDir => Some "/"
  | TempDir => "/tmp"
  | Now => 0
  end.

(** ** The logic *)

Definition Guard := list Event → ∀ B, Sys B → Prop.

Fixpoint safe {A} (G : Guard) (os : OS) (past : list Event) (p : Prog A)
    (Q : list Event → A → Prop) : Prop :=
  match p with
  | Done a => Q past a
  | Do c k => G past _ c ∧ safe G os (past ++ [Ev c (os _ past c)]) (k (os _ past c)) Q
  end.

Section Logic.
Context (G : Guard) (os : OS).

Lemma safe_bind {A B} past (p : Prog A) (f : A → Prog B) Q :
  safe G os past p (λ past' a, safe G os past' (f a) Q) → safe G os past (prog_bind p f) Q.
Proof. revert past. induction p as [a|B' c k IH]; intros past; simpl; [done|]. intros [? ?]. eauto. Qed.

Lemma safe_mono {A} past (p : Prog A) (Q Q' : list Event → A → Prop) :
  safe G os past p Q → (∀ past' a, Q past' a → Q' past' a) → safe G os past p Q'.
Proof. revert past. induction p as [a|B' c k IH]; intros past; simpl; [auto|]. intros [? ?] ?. eauto. Qed.

Lemma safe_or_fail {A B} past (p : Fallible A) (f : A → Fallible B) Q :
  safe G os past p (λ past' r, match r with inl e => Q past' (inl e) | inr a => safe G os past' (f a) Q end) →
  safe G os past (or_fail p f) Q.
Proof. intros H. apply safe_bind. eapply safe_mono; [exact H|]. by intros past' [e|a]. Qed.

Lemma safe_wrap_error {A} text past (p : Fallible A) Q :
  safe G os past p (λ past' r, Q past' (match r with inl e => inl (Wrapped text e) | inr a => inr a end)) →
  safe G os past (wrap_error text p) Q.
Proof. intros H. by apply safe_bind. Qed.

(** The log only grows. *)
Lemma safe_extends {A} past (p : Prog A) Q :
  safe G os past p Q → safe G os past p (λ past' a, Q past' a ∧ past `prefix_of` past').
Proof.
  revert past. induction p as [a|B' c k IH]; intros past; simpl; [done|]. intros [? H]. split; [done|].
  eapply safe_mono; [by apply IH|]. intros past' a [? Hp]. split; [done|].
  etrans; [|exact Hp]. by eexists.
Qed.

Lemma exec_extends {A} past (p : Prog A) : past `prefix_of` (exec os past p).1.
Proof.
  revert past. induction p as [a|B c k IH]; intros past; simpl; [done|].
  etrans; [|apply IH]. by eexists.
Qed.

(** Every call of a run was allowed, with the log it had then, and the result satisfies
    the postcondition. *)
Lemma safe_exec {A} past (p : Prog A) Q :
  safe G os past p Q →
  let '(log, a) := exec os past p in
  Q log a ∧ ∀ before B (c : Sys B) b, happened log before c b → (length past ≤ length before)%nat → G before B c.
Proof.
  revert past. induction p as [a|B' c k IH]; intros past; simpl.
  - intros HQ. split; [done|]. intros before B c b [after E] Hl. apply (f_equal length) in E.
    rewrite length_app in E. simpl in E. lia.
  - intros [HG H]. specialize (IH (os B' past c) (past ++ [Ev c (os B' past c)]) H).
    set (run := exec _ _ _) in *. assert (∃ rest, run.1 = (past ++ [Ev c (os B' past c)]) ++ rest) as [rest Erest].
    { apply exec_extends. }
    destruct run as [log a]. destruct IH as [HQ IH]. split; [done|].
    intros before B c' b Hh Hl. destruct (decide (length before = length past)) as [El|El].
    + destruct Hh as [after E]. simpl in Erest. rewrite Erest, <- app_assoc in E.
      apply app_inj_1 in E as [<- E]; [|done]. simpl in E.
      apply (f_equal (λ l, match l with Ev c _ :: _ => G past _ c | [] => False end)) in E.
      simpl in E. by rewrite <- E.
    + apply (IH before B c' b Hh). rewrite length_app. simpl. lia.
Qed.

Lemma safe_call {B} past (c : Sys B) Q :
  G past B c → (∀ b, b = os B past c → Q (past ++ [Ev c b]) b) → safe G os past (call c) Q.
Proof. intros HG HQ. simpl. auto. Qed.
End Logic.

Section Steps.
Context (G : Guard) (os : OS).

Lemma safe_do {A B} past (c : Sys B) (k : B → Prog A) Q :
  G past B c → (∀ b, safe G os (past ++ [Ev c b]) (k b) Q) → safe G os past (prog_bind (call c) k) Q.
Proof. intros Hc Hk. simpl. auto. Qed.

Lemma safe_os_done past c Q :
  G past _ c → (∀ e, Q (past ++ [Ev c (Some e)]) (inl (FromOs e))) → Q (past ++ [Ev c None]) (inr tt) →
  safe G os past (os_done c) Q.
Proof. intros Hc H1 H2. simpl. split; [done|]. by destruct (os _ _ _). Qed.

Lemma safe_os_value {A} past (c : Sys (OsErr + A)) Q :
  G past _ c → (∀ e, Q (past ++ [Ev c (inl e)]) (inl (FromOs e))) → (∀ a, Q (past ++ [Ev c (inr a)]) (inr a)) →
  safe G os past (os_value c) Q.
Proof. intros Hc H1 H2. simpl. split; [done|]. by destruct (os _ _ _). Qed.
End Steps.

(** ** The calls a program may make

    [only P p]: whatever the answers, every call of [p] satisfies [P].  The instances and
    the hint let class search go through a program's text. *)

Definition Calls := ∀ B, Sys B → bool.

Fixpoint only_calls {A} (P : Calls) (p : Prog A) : Prop :=
  match p with
  | Done _ => True
  | Do c k => P _ c = true ∧ ∀ b, only_calls P (k b)
  end.
Class Only {A} (P : Calls) (p : Prog A) := only : only_calls P p.
#[export] Hint Mode Only ! ! ! : typeclass_instances.

#[export] Instance only_Done {A} P (a : A) : Only P (Done a).
Proof. exact I. Qed.
#[export] Instance only_bind {A B} P (p : Prog A) (f : A → Prog B) :
  Only P p → (∀ a, Only P (f a)) → Only P (prog_bind p f).
Proof.
  unfold Only. intros Hp Hf. revert Hp. induction p as [a|B' c k IH]; simpl; [intros _; apply Hf|].
  intros [Hc Hk]. split; [done|]. intros b. by apply IH.
Qed.
Lemma only_call {B} (P : Calls) (c : Sys B) : P _ c = true → Only P (call c).
Proof. intros H. by split. Qed.
Lemma only_os_done (P : Calls) c : P _ c = true → Only P (os_done c).
Proof. intros H. by split. Qed.
Lemma only_os_value {A} (P : Calls) (c : Sys (OsErr + A)) : P _ c = true → Only P (os_value c).
Proof. intros H. by split. Qed.
#[export] Hint Extern 1 (Only _ (call _)) => apply only_call; reflexivity : typeclass_instances.
#[export] Hint Extern 1 (Only _ (os_done _)) => apply only_os_done; reflexivity : typeclass_instances.
#[export] Hint Extern 1 (Only _ (os_value _)) => apply only_os_value; reflexivity : typeclass_instances.
#[export] Instance only_or_fail {A B} P (p : Fallible A) (f : A → Fallible B) :
  Only P p → (∀ a, Only P (f a)) → Only P (or_fail p f).
Proof. intros Hp Hf. apply only_bind; [done|]. intros [e|a]; [exact I|apply Hf]. Qed.
#[export] Instance only_wrap_error {A} P text (p : Fallible A) : Only P p → Only P (wrap_error text p).
Proof. intros Hp. apply only_bind; [done|]. intros r. exact I. Qed.
#[export] Hint Extern 3 (Only _ (match ?x with _ => _ end)) => destruct x : typeclass_instances.
#[export] Hint Extern 3 (Only _ (let _ := _ in _)) => cbv zeta : typeclass_instances.

(** For a program given by its name. *)
Ltac only_tac := intros; repeat (cbv zeta; match goal with
  | |- Only _ (match ?x with _ => _ end) => destruct x
  | |- Only _ (or_fail _ _) => apply only_or_fail; [|intros ?]
  | |- Only _ (prog_bind _ _) => apply only_bind; [|intros ?]
  | |- Only _ (wrap_error _ _) => apply only_wrap_error
  end); try exact I; apply _.

Definition all_calls (P : Calls) (log : list Event) : Prop := Forall (λ '(Ev c _), P _ c = true) log.

Lemma only_frame {A} P G os past (p : Prog A) Q :
  Only P p → safe G os past p Q →
  safe G os past p (λ past' a, Q past' a ∧ ∃ new, past' = past ++ new ∧ all_calls P new).
Proof.
  unfold Only. revert past. induction p as [a|B c k IH]; intros past; simpl.
  - intros _ H. split; [done|]. exists []. by rewrite app_nil_r; split; [|constructor].
  - intros [Hc Hk] [HG H]. split; [done|]. eapply safe_mono; [by apply IH|].
    intros past' a [HQ (new & -> & Hnew)]. split; [done|]. rewrite <- app_assoc.
    eexists. split; [done|]. by constructor.
Qed.

(** A program of allowed calls is safe. *)
Lemma only_safe {A} P G os past (p : Prog A) :
  Only P p → (∀ new B (c : Sys B), all_calls P new → P _ c = true → G (past ++ new) _ c) →
  safe G os past p (λ past' _, ∃ new, past' = past ++ new ∧ all_calls P new).
Proof.
  intros Hp HG. eapply safe_mono; [apply (only_frame P _ _ _ _ (λ _ _, True)); [done|]|by intros past' a [_ H]].
  revert past HG. unfold Only in Hp. induction p as [a|B c k IH]; intros past HG; simpl; [done|].
  destruct Hp as [Hc Hk]. split.
  - rewrite <- (app_nil_r past). by apply HG; [constructor|].
  - apply IH; [apply Hk|]. intros new B' c' Hnew Hc'. rewrite <- app_assoc. apply HG; [by constructor|done].
Qed.

(** A postcondition proved without minding the calls. *)
Definition anything : Guard := λ _ _ _, True.
Lemma safe_top {A} os past (p : Prog A) : safe anything os past p (λ _ _, True).
Proof. revert past. induction p as [a|B c k IH]; intros past; simpl; [done|]. split; [exact I|apply IH]. Qed.

Lemma safe_combine {A} G os past (p : Prog A) Q Q' :
  safe G os past p Q → safe anything os past p Q' → safe G os past p (λ past' a, Q past' a ∧ Q' past' a).
Proof. revert past. induction p as [a|B c k IH]; intros past; simpl; [tauto|]. intros [? ?] [? ?]. auto. Qed.

(** A guard may be weakened by what the log already holds. *)
Lemma safe_guard_mono {A} (G G' : Guard) os past (p : Prog A) Q :
  (∀ before B (c : Sys B), past `prefix_of` before → G before B c → G' before B c) →
  safe G os past p Q → safe G' os past p Q.
Proof.
  revert past. induction p as [a|B c k IH]; intros past HG; simpl; [done|]. intros [Hc H].
  split; [by apply HG|]. apply IH; [|done]. intros before B' c' Hp. apply HG. etrans; [|exact Hp]. by eexists.
Qed.

(** A guard may count on the calls the program makes itself. *)
Lemma only_guard {A} P (G : Guard) os past (p : Prog A) Q :
  Only P p →
  safe (λ before B c, (∃ new, before = past ++ new ∧ all_calls P new) → G before B c) os past p Q →
  safe G os past p Q.
Proof.
  unfold Only. intros Hp H.
  enough (∀ new, all_calls P new →
    safe (λ before B c, (∃ new, before = past ++ new ∧ all_calls P new) → G before B c) os (past ++ new) p Q →
    safe G os (past ++ new) p Q) as Hall.
  { rewrite <- (app_nil_r past). apply Hall; [constructor|]. by rewrite app_nil_r. }
  clear H. induction p as [a|B c k IH]; intros new Hnew; simpl; [done|].
  intros [HG H]. destruct Hp as [Hc Hk]. split; [apply HG; eauto|].
  rewrite <- app_assoc in H |- *. apply IH; [apply Hk| |done]. apply Forall_app. by repeat constructor.
Qed.
