(* ===== verification/SafeRemove.v ===== *)
(** * Removing a workspace directory

    internal/workspace/safe_remove.go: a removal is validated on the text of the root and
    the path, then on what both resolve to; [Remove] validates again and compares the
    root with the one found first.  [resolved] is what a log shows about where a path
    leads. *)

From S2P Require Import Prelude GoStd Paths Sys.

(** ** The code *)

Record ValidatedRemoval := { vr_root : string; vr_path : string; vr_canonicalRoot : string }.

Definition hasParentTraversal (path : string) : bool := existsb (String.eqb "..") (split_slash path).

(** [nil] is [None]. *)
Definition assertContained (absRoot absPath : string) : option Err :=
  if String.eqb absRoot absPath
  then Some (Wrapped "refuses to delete the workspace root itself" ErrSafeRemoveEscapesRoot)
  else match Rel absRoot absPath with
       | None => Some (Message "safe remove: relpath")
       | Some rel =>
           if String.eqb rel "." || String.eqb rel ""
           then Some (Wrapped "refuses to delete the workspace root itself" ErrSafeRemoveEscapesRoot)
           else if goes_up rel then Some (Wrapped "not under" ErrSafeRemoveEscapesRoot)
           else None
       end.

(** The recursion goes to the parent; [resolve_fuel] is enough for any path. *)
Fixpoint resolve_from (fuel : nat) (path : string) : Fallible string :=
  match fuel with
  | O => fail OutOfFuel
  | S fuel =>
      let* resolved := call (EvalSymlinks path) in
      match resolved with
      | inr resolved => ok (Clean resolved)
      | inl err =>
          if negb (os_IsNotExist err)
          then fail (Wrapped "safe remove: resolve symlinks" (FromOs err))
          else
            let* info := call (Lstat path) in
            match info with
            | inr info =>
                if fi_IsSymlink info
                then fail (Wrapped "dangling symlink" ErrSafeRemoveEscapesRoot)
                else fail (Wrapped "safe remove: path changed while resolving" (FromOs err))
            | inl lstatErr =>
                if negb (os_IsNotExist lstatErr)
                then fail (Wrapped "safe remove: lstat" (FromOs lstatErr))
                else
                  let parent := Dir path in
                  if String.eqb parent path then ok (Clean path)
                  else
                    let! resolvedParent := resolve_from fuel parent in
                    ok (Join [resolvedParent; Base path])
            end
      end
  end.
Definition resolve_fuel (path : string) : nat := S (S (length (split_slash path))).
Definition resolveRemovePath (path : string) : Fallible string := resolve_from (resolve_fuel path) path.

Definition from_error (e : option Err) : Fallible unit :=
  match e with Some e => fail e | None => ok tt end.

Definition validateRemoval (root path : string) : Fallible ValidatedRemoval :=
  let root := TrimSpace root in
  let path := TrimSpace path in
  if String.eqb root "" || String.eqb path "" then fail ErrSafeRemoveInvalidPath
  else if negb (IsAbs root) || negb (IsAbs path)
  then fail (Wrapped "root and path must be absolute" ErrSafeRemoveInvalidPath)
  else if hasParentTraversal root || hasParentTraversal path
  then fail (Wrapped "parent traversal is not allowed" ErrSafeRemoveEscapesRoot)
  else
    let lexicalRoot := Clean root in
    let lexicalPath := Clean path in
    let! _ := from_error (assertContained lexicalRoot lexicalPath) in
    let! canonicalRoot := resolveRemovePath root in
    let! canonicalPath := resolveRemovePath path in
    let! _ := from_error (assertContained canonicalRoot canonicalPath) in
    ok {| vr_root := root; vr_path := path; vr_canonicalRoot := canonicalRoot |}.

Definition ValidateRemove (root path : string) : Fallible ValidatedRemoval := validateRemoval root path.

Definition ValidatedRemoval_Remove (v : ValidatedRemoval) : Fallible unit :=
  let! current := validateRemoval (vr_root v) (vr_path v) in
  if negb (String.eqb (vr_canonicalRoot current) (vr_canonicalRoot v))
  then fail (Wrapped "workspace root changed" ErrSafeRemoveEscapesRoot)
  else os_done (RemoveAll (vr_path v)).

Definition SafeRemove (root path : string) : Fallible unit :=
  let! removal := ValidateRemove root path in
  ValidatedRemoval_Remove removal.

(** ** Containment *)

(** [path] lies strictly below [root]. *)
Definition below (root path : string) : Prop := ∃ d, d ≠ [] ∧ elements path = elements root ++ d.

Lemma assertContained_spec root path :
  IsAbs root = true → IsAbs path = true → (assertContained root path = None ↔ below root path).
Proof.
  intros Hr Hp. unfold assertContained, below.
  destruct (String.eqb_spec root path) as [->|Hne].
  { split; [done|]. intros (d & Hd & E). rewrite <- (app_nil_r (elements path)) in E at 1. by apply app_inv_head in E. }
  destruct (Rel_abs root path Hr Hp) as [(E & ->)|[(d & Hd & Hreal & E & ->)|(Hno & down & ->)]].
  - simpl. split; [done|]. intros (d & Hd & E'). rewrite E' in E. rewrite <- (app_nil_r (elements root)) in E at 2.
    by apply app_inv_head in E.
  - destruct (join_real d Hd Hreal) as (-> & H1%String.eqb_neq & H2%String.eqb_neq & _).
    rewrite H1, H2. simpl. naive_solver.
  - rewrite (proj2 (String.eqb_neq _ ".")), (proj2 (String.eqb_neq _ "")), goes_up_dotdot; simpl.
    + naive_solver.
    + by destruct down.
    + by destruct down.
Qed.

(** * What a removal needs

    The evidence a log holds when [RemoveAll] is called, whatever the operating system
    answers, and the exact behaviour on a file system without symbolic links. *)


(** ** Evidence *)

(** The file system was asked for [path] and did not have it. *)
Definition absent (log : list Event) (path : string) : Prop :=
  Ev (EvalSymlinks path) (inl ENotExist) ∈ log ∧ Ev (Lstat path) (inl ENotExist) ∈ log.

(** The log shows that [path] leads to the second path: the deepest directory on the way
    that exists resolves, and the names below it follow. *)
Inductive resolved (log : list Event) : string → string → Prop :=
| resolved_exists path target :
    Ev (EvalSymlinks path) (inr target) ∈ log → resolved log path (Clean target)
| resolved_top path : absent log path → Dir path = path → resolved log path (Clean path)
| resolved_below path parent :
    absent log path → Dir path ≠ path → resolved log (Dir path) parent →
    resolved log path (Join [parent; Base path]).

Lemma resolved_mono log log' path r : log ⊆ log' → resolved log path r → resolved log' path r.
Proof.
  intros Hs. induction 1 as [p t H|p [H1 H2] H|p q [H1 H2] H3 _ IH].
  - by apply resolved_exists, Hs.
  - apply resolved_top; [split; by apply Hs|done].
  - apply resolved_below; [split; by apply Hs|done|done].
Qed.

(** [EvalSymlinks] of an absolute path is absolute. *)
Class AbsoluteOS (os : OS) :=
  eval_abs past path target :
    IsAbs path = true → os _ past (EvalSymlinks path) = inr target → IsAbs target = true.

(** The calls that only look. *)
Definition looks {B} (c : Sys B) : bool :=
  match c with EvalSymlinks _ | Lstat _ => true | _ => false end.
Class LooksAllowed (G : Guard) := looks_allowed past B (c : Sys B) : looks c = true → G past B c.

Definition is_fuel (e : Err) : bool := match e with OutOfFuel => true | _ => false end.

Section Resolve.
Context (G : Guard) `{!LooksAllowed G} (os : OS) `{!AbsoluteOS os}.

(** What a resolution leaves behind: new events that show where the path leads. *)
Definition resolution (past : list Event) (path : string) (past' : list Event) (r : Err + string) : Prop :=
  ∃ new, past' = past ++ new ∧
  match r with
  | inr q => resolved new path q ∧ IsAbs q = true
  | inl e => errors_Is is_fuel e = false
  end.

Lemma safe_look {B} past (c : Sys B) (k : B → Fallible string) Q :
  looks c = true →
  (∀ b, b = os B past c → safe G os (past ++ [Ev c b]) (k b) Q) →
  safe G os past (prog_bind (call c) k) Q.
Proof. intros Hc Hk. simpl. split; [by apply looks_allowed|by apply Hk]. Qed.

Lemma resolution_step path (n : nat) past :
  IsAbs path = true →
  (Dir path ≠ path → ∀ past', safe G os past' (resolve_from n (Dir path)) (resolution past' (Dir path))) →
  safe G os past (resolve_from (S n) path) (resolution past path).
Proof.
  intros Ha IH. cbn [resolve_from]. apply safe_look; [done|]. intros [e|t] Eb.
  2: { exists [Ev (EvalSymlinks path) (inr t)]. split; [done|]. split; [apply resolved_exists; set_solver|].
       eapply IsAbs_Clean, eval_abs; [exact Ha|by symmetry]. }
  destruct e as [|m]; cbn [os_IsNotExist negb]; [|by eexists [_]].
  apply safe_look; [done|]. intros [le|i] El.
  2: { rewrite <- app_assoc. destruct (fi_IsSymlink i); by eexists [_; _]. }
  destruct le as [|m]; cbn [os_IsNotExist negb]; [|rewrite <- app_assoc; by eexists [_; _]].
  rewrite <- app_assoc. set (two := [_] ++ [_]).
  assert (absent two path) as Habs by (split; set_solver).
  destruct (String.eqb_spec (Dir path) path) as [E|E]; cbn zeta.
  { exists two. split; [done|]. split; [by apply resolved_top|by apply IsAbs_Clean]. }
  apply safe_or_fail. eapply safe_mono; [by apply IH|]. intros past' r (new & -> & Hr).
  rewrite <- app_assoc. destruct r as [e|q]; [by eexists|]. destruct Hr as [Hr Hq].
  exists (two ++ new). split; [done|]. split; [|by apply Join_clean_abs].
  apply resolved_below; [split; set_solver|done|]. eapply resolved_mono; [|exact Hr]. set_solver.
Qed.

(** Enough fuel for a clean path: its names. *)
Lemma resolve_clean n path past :
  IsAbs path = true → Clean path = path → (length (elements path) < n)%nat →
  safe G os past (resolve_from n path) (resolution past path).
Proof.
  revert path past. induction n as [|n IH]; intros path past Ha Hc Hn; [lia|].
  apply resolution_step; [done|]. intros Hd past'.
  destruct (Dir_abs path Ha) as (_ & _ & _ & _ & Ha' & _ & Er & _).
  destruct (Dir_clean path Ha Hc) as [Ed E0].
  assert (elements path ≠ []) as Hne by tauto.
  apply IH; [done|by rewrite (Clean_abs _ Ha'), <- Er|].
  rewrite Ed. destruct (elements path) as [|x l] using rev_ind; [done|].
  rewrite removelast_last. rewrite length_app in Hn. simpl in Hn. lia.
Qed.

Lemma resolve_safe path past :
  IsAbs path = true → safe G os past (resolveRemovePath path) (resolution past path).
Proof.
  intros Ha. unfold resolveRemovePath, resolve_fuel. apply resolution_step; [done|]. intros _ past'.
  destruct (Dir_abs path Ha) as (front & base & Es & _ & Ha' & Ed & Er & _).
  apply resolve_clean; [done|by rewrite (Clean_abs _ Ha'), <- Er|].
  rewrite Ed, Es, length_app. unfold clean_elements. rewrite length_rev.
  pose proof (push_length true (split_slash front) []). simpl in *. lia.
Qed.

(** *** Validation *)

(** A log that shows that [path] may be removed under [root], which leads to
    [canonical]. *)
Definition validated (log : list Event) (root path canonical : string) : Prop :=
  IsAbs root = true ∧ IsAbs path = true ∧
  hasParentTraversal root = false ∧ hasParentTraversal path = false ∧ below root path ∧
  resolved log root canonical ∧ ∃ target, resolved log path target ∧ below canonical target.

Lemma below_Clean root path : IsAbs root = true → IsAbs path = true →
  below (Clean root) (Clean path) ↔ below root path.
Proof. intros Hr Hp. unfold below. by rewrite !elements_Clean. Qed.

Lemma from_error_safe {A} past (e : option Err) (k : unit → Fallible A) Q :
  (∀ x, e = Some x → Q past (inl x)) → (e = None → safe G os past (k tt) Q) →
  safe G os past (or_fail (from_error e) k) Q.
Proof. destruct e; simpl; auto. Qed.

Definition validation (root path : string) (past past' : list Event) (r : Err + ValidatedRemoval) : Prop :=
  ∃ new, past' = past ++ new ∧
  match r with
  | inr v => vr_root v = TrimSpace root ∧ vr_path v = TrimSpace path ∧
      validated new (TrimSpace root) (TrimSpace path) (vr_canonicalRoot v)
  | inl e => errors_Is is_fuel e = false
  end.

Lemma assertContained_not_fuel root path e : assertContained root path = Some e → errors_Is is_fuel e = false.
Proof. unfold assertContained. intros H. by repeat case_match; simplify_eq. Qed.

Lemma validate_safe root path past :
  safe G os past (validateRemoval root path) (validation root path past).
Proof.
  unfold validateRemoval. cbn zeta.
  set (r := TrimSpace root). set (p := TrimSpace path).
  assert (∀ e, errors_Is is_fuel e = false → validation root path past past (inl e)) as Hfail.
  { intros e He. exists []. by rewrite app_nil_r. }
  destruct (_ || _); [by apply Hfail|].
  destruct (negb (IsAbs r) || negb (IsAbs p)) eqn:Ha; [by apply Hfail|].
  apply orb_false_iff in Ha as [Hr%negb_false_iff Hp%negb_false_iff].
  destruct (hasParentTraversal r || hasParentTraversal p) eqn:Ht; [by apply Hfail|].
  apply orb_false_iff in Ht as [Htr Htp].
  apply from_error_safe; [intros e He; apply Hfail; by eapply assertContained_not_fuel|].
  intros Hlex. apply assertContained_spec in Hlex; [|by apply IsAbs_Clean..].
  rewrite below_Clean in Hlex by done.
  apply safe_or_fail. eapply safe_mono; [by apply resolve_safe|]. intros past1 [e|cr] (new1 & -> & H1); [by eexists|].
  destruct H1 as [H1 Hcr].
  apply safe_or_fail. eapply safe_mono; [by apply resolve_safe|]. intros past2 [e|cp] (new2 & -> & H2).
  { rewrite <- app_assoc. by eexists. }
  destruct H2 as [H2 Hcp].
  apply from_error_safe.
  - intros e He. rewrite <- app_assoc. eexists. split; [done|]. by eapply assertContained_not_fuel.
  - intros Hcan. apply assertContained_spec in Hcan; [|done..]. simpl. rewrite <- app_assoc.
    exists (new1 ++ new2). split; [done|]. cbn. split_and!; [done..|].
    split_and!; [done..| |].
    + eapply resolved_mono; [|exact H1]. set_solver.
    + exists cp. split; [|done]. eapply resolved_mono; [|exact H2]. set_solver.
Qed.

(** *** Removal *)

Lemma Remove_safe v past :
  vr_root v = TrimSpace (vr_root v) → vr_path v = TrimSpace (vr_path v) →
  (∀ new, validated new (vr_root v) (vr_path v) (vr_canonicalRoot v) →
    G (past ++ new) _ (RemoveAll (vr_path v))) →
  safe G os past (ValidatedRemoval_Remove v) (λ _ r, match r with inl e => errors_Is is_fuel e = false | inr _ => True end).
Proof.
  intros Er Ep HG. unfold ValidatedRemoval_Remove.
  apply safe_or_fail. eapply safe_mono; [apply validate_safe|].
  intros past1 [e|cur] (new & -> & H); [done|]. rewrite <- Er, <- Ep in H. destruct H as (_ & _ & H).
  destruct (String.eqb_spec (vr_canonicalRoot cur) (vr_canonicalRoot v)) as [E|E]; simpl; [|done].
  rewrite E in H. split; [by apply HG|]. by destruct (os _ _ _).
Qed.

(** A removal with something run between the two validations. *)
Lemma remove_across_safe {A} root path (between : Prog A) past :
  (∀ past', safe G os past' between (λ _ _, True)) →
  (∀ first middle second canonical,
    validated first (TrimSpace root) (TrimSpace path) canonical →
    validated second (TrimSpace root) (TrimSpace path) canonical →
    G (past ++ first ++ middle ++ second) _ (RemoveAll (TrimSpace path))) →
  safe G os past (or_fail (ValidateRemove root path) (λ v, prog_bind between (λ _, ValidatedRemoval_Remove v)))
    (λ _ r, match r with inl e => errors_Is is_fuel e = false | inr _ => True end).
Proof.
  intros Hb HG. apply safe_or_fail. eapply safe_mono; [apply validate_safe|].
  intros past1 [e|v] (first & -> & H); [done|]. destruct H as (Er & Ep & Hv).
  apply safe_bind. eapply safe_mono; [apply safe_extends, Hb|].
  intros past2 _ [_ [middle ->]]. apply Remove_safe; [by rewrite Er, TrimSpace_idem|by rewrite Ep, TrimSpace_idem|].
  intros second Hs. rewrite Er, Ep in Hs. rewrite Ep, <- !app_assoc. by eapply HG.
Qed.

End Resolve.

(** ** A file system without symbolic links *)

Section PlainFileSystem.
Context (present : list string → bool).

Definition plain_os : OS := fun B past c =>
  match c in Sys B return B with
  | EvalSymlinks p => if present (elements p) then inr (Clean p) else inl ENotExist
  | Lstat p => if present (elements p) then inr a_directory else inl ENotExist
  | c => quiet_os _ past c
  end.

Lemma plain_resolve n path past :
  clean_abs path → (length (elements path) < n)%nat →
  ∃ new, exec plain_os past (resolve_from n path) = (past ++ new, inr path) ∧ Forall (λ '(Ev c _), looks c = true) new.
Proof.
  revert path past. induction n as [|n IH]; intros path past Hc Hn; [lia|]. cbn [resolve_from].
  cbn -[Join]. destruct (present (elements path)) eqn:Hp.
  { destruct Hc as [_ Hc]. rewrite !Hc. exists [Ev (EvalSymlinks path) (inr path)].
    split; [done|]. by repeat constructor. }
  cbn -[Join]. rewrite Hp. cbn -[Join]. rewrite <- app_assoc. cbn [app]. set (two := [_; _]).
  assert (Forall (λ '(Ev c _), looks c = true) two) as Htwo by by repeat constructor.
  destruct Hc as [Ha Hc]. destruct (Dir_clean path Ha Hc) as [Ed E0].
  destruct (String.eqb_spec (Dir path) path) as [E|E].
  { exists two. by rewrite Hc. }
  assert (elements path ≠ []) as Hne by tauto.
  rewrite exec_or_fail. destruct (IH (Dir path) (past ++ two)) as (new & -> & Hnew).
  - by apply Dir_clean_abs.
  - rewrite Ed. destruct (elements path) as [|x l _] using rev_ind; [done|].
    rewrite removelast_last. rewrite length_app in Hn. simpl in Hn. lia.
  - cbn -[Join]. rewrite Join_Dir_Base by done. exists (two ++ new). rewrite app_assoc. split; [done|].
    by apply Forall_app.
Qed.

Lemma plain_resolve' path past :
  clean_abs path →
  ∃ new, exec plain_os past (resolveRemovePath path) = (past ++ new, inr path) ∧ Forall (λ '(Ev c _), looks c = true) new.
Proof.
  intros H. apply plain_resolve; [done|]. unfold resolve_fuel.
  pose proof (elements_length path). lia.
Qed.
End PlainFileSystem.

Lemma clean_no_traversal path : clean_abs path → hasParentTraversal path = false.
Proof.
  intros (names & H & ->)%clean_abs_render. unfold hasParentTraversal.
  rewrite split_slash_render by done. apply not_true_iff_false. intros (n & Hin & E)%existsb_exists.
  apply String.eqb_eq in E. subst n. destruct Hin as [|Hin]; [done|].
  destruct names as [|n names]; [by destruct Hin|].
  unfold real_names in H. rewrite Forall_forall in H. apply list_elem_of_In, H in Hin. apply real_name_spec in Hin. naive_solver.
Qed.

Definition is_escape (e : Err) : bool := match e with ErrSafeRemoveEscapesRoot => true | _ => false end.

Lemma assertContained_escape root path e :
  IsAbs root = true → IsAbs path = true → assertContained root path = Some e → errors_Is is_escape e = true.
Proof.
  intros Hr Hp. unfold assertContained.
  destruct (String.eqb root path); [by intros [= <-]|].
  destruct (Rel_abs root path Hr Hp) as [(E & ->)|[(d & Hd & Hreal & E & ->)|(Hno & down & ->)]].
  - by intros [= <-].
  - destruct (join_real d Hd Hreal) as (-> & H1%String.eqb_neq & H2%String.eqb_neq & _). by rewrite H1, H2.
  - rewrite goes_up_dotdot. intros H. by repeat case_match; simplify_eq.
Qed.

(** Only calls that look are in the log. *)
Definition looked (log : list Event) : Prop := Forall (λ '(Ev c _), looks c = true) log.

Section PlainRemoval.
Context (present : list string → bool) (root path : string).
Hypotheses (Hroot : clean_abs root) (Hpath : clean_abs path).
Hypotheses (Hr : TrimSpace root = root) (Hp : TrimSpace path = path).

Lemma abs_nonempty p : IsAbs p = true → String.eqb p "" = false.
Proof. by destruct p. Qed.

Lemma plain_validate_below past :
  below root path →
  ∃ new, looked new ∧
  exec (plain_os present) past (validateRemoval root path) =
  (past ++ new, inr {| vr_root := root; vr_path := path; vr_canonicalRoot := root |}).
Proof.
  intros Hb. destruct Hroot as [Ra Rc], Hpath as [Pa Pc]. unfold validateRemoval. cbn zeta.
  rewrite Hr, Hp, !abs_nonempty, Ra, Pa, !clean_no_traversal, Rc, Pc by done. cbn [orb negb].
  rewrite (proj2 (assertContained_spec root path Ra Pa)) by done.
  cbn [from_error]. rewrite exec_or_fail. cbn [exec ok].
  rewrite exec_or_fail. destruct (plain_resolve' present root past Hroot) as (n1 & -> & H1).
  rewrite exec_or_fail. destruct (plain_resolve' present path (past ++ n1) Hpath) as (n2 & -> & H2).
  rewrite exec_or_fail, (proj2 (assertContained_spec root path Ra Pa)) by done.
  exists (n1 ++ n2). split; [by apply Forall_app|]. by rewrite app_assoc.
Qed.

Lemma plain_validate_outside past :
  ¬ below root path →
  ∃ e, errors_Is is_escape e = true ∧ exec (plain_os present) past (validateRemoval root path) = (past, inl e).
Proof.
  intros Hb. destruct Hroot as [Ra Rc], Hpath as [Pa Pc]. unfold validateRemoval. cbn zeta.
  rewrite Hr, Hp, !abs_nonempty, Ra, Pa, !clean_no_traversal, Rc, Pc by done. cbn [orb negb].
  destruct (assertContained root path) as [e|] eqn:E.
  - exists e. split; [by apply (assertContained_escape root path)|]. done.
  - by apply assertContained_spec in E.
Qed.
End PlainRemoval.

(** On a file system without symbolic links, whatever directories it has, SafeRemove
    removes a clean absolute path exactly when it lies strictly below the root: it then
    succeeds with one RemoveAll of that path, its last call, and otherwise it fails as an
    escape from the root without any call. *)
Theorem safe_remove_exact (present : list string → bool) (root path : string)
    (Hroot : clean_abs root) (Hpath : clean_abs path)
    (Hr : TrimSpace root = root) (Hp : TrimSpace path = path) :
  let '(log, r) := exec (plain_os present) [] (SafeRemove root path) in
  (below root path →
    r = inr tt ∧ ∃ look, looked look ∧ log = look ++ [Ev (RemoveAll path) None]) ∧
  (¬ below root path →
    log = [] ∧ ∃ e, r = inl e ∧ errors_Is is_escape e = true).
Proof.
  unfold SafeRemove, ValidateRemove, ValidatedRemoval_Remove. rewrite exec_or_fail.
  destruct (assertContained root path) eqn:E.
  - assert (¬ below root path) as Hb.
    { destruct Hroot, Hpath. rewrite <- assertContained_spec, E; done. }
    destruct (plain_validate_outside present root path Hroot Hpath Hr Hp [] Hb) as (x & Hx & ->).
    split; [done|]. eauto.
  - apply assertContained_spec in E as Hb; [|apply Hroot|apply Hpath].
    destruct (plain_validate_below present root path Hroot Hpath Hr Hp [] Hb) as (n1 & H1 & ->).
    rewrite exec_or_fail. cbn [vr_root vr_path].
    destruct (plain_validate_below present root path Hroot Hpath Hr Hp ([] ++ n1) Hb) as (n2 & H2 & ->).
    cbn [vr_canonicalRoot]. rewrite String.eqb_refl. split; [|done]. intros _. split; [done|].
    exists (n1 ++ n2). split; [by apply Forall_app|]. simpl. done.
Qed.

Lemma safe_remove_exact_witness :
  let '(log, r) := exec (plain_os (λ names, (length names <=? 2)%nat)) [] (SafeRemove "/srv/ws" "/srv/ws/o/r/ENG-1") in
  r = inr tt ∧ ∃ look, log = look ++ [Ev (RemoveAll "/srv/ws/o/r/ENG-1") None].
Proof.
  pose proof (safe_remove_exact (λ names, (length names <=? 2)%nat) "/srv/ws" "/srv/ws/o/r/ENG-1"
    ltac:(split; reflexivity) ltac:(split; reflexivity) ltac:(reflexivity) ltac:(reflexivity)) as H.
  destruct (exec _ _ _) as [log r]. destruct H as [H _].
  destruct H as (Hr & look & _ & Hlog); [|eauto]. by exists ["o"; "r"; "ENG-1"].
Defined.

(** With a trailing slash, the text of a root that is not there is resolved to a
    directory below itself, and nothing lies below that: the removal of a path that does
    not exist is refused, where SafeRemove documents success. *)
Theorem missing_root_trailing_slash :
  let nothing := plain_os (λ names, (length names =? 0)%nat) in
  (exec nothing [] (resolveRemovePath "/ws/")).2 = inr "/ws/ws" ∧
  (exec nothing [] (SafeRemove "/ws/" "/ws/o/r/k")).2 = inl (Wrapped "not under" ErrSafeRemoveEscapesRoot) ∧
  (exec nothing [] (SafeRemove "/ws" "/ws/o/r/k")).2 = inr tt.
Proof. vm_compute. done. Qed.
