(* ===== verification/Hashes.v ===== *)
(** * Hashes and text encodings

    What internal/workspace and internal/runner use of crypto/sha256, hash/fnv, the "%x"
    verb and the range over a string's runes. *)

From S2P Require Import Prelude GoStd.

(** ** Bytes *)

Definition byte_value (c : Ascii.ascii) : Z := Z.of_nat (Ascii.nat_of_ascii c).
Fixpoint bytes_of (s : string) : list Z :=
  match s with EmptyString => [] | String c t => byte_value c :: bytes_of t end.

(** ** SHA-256 (FIPS 180-4)

    Words are 32-bit, written as their residues. *)

Definition word (z : Z) : Z := z mod 2 ^ 32.
Definition rotr (n x : Z) : Z := Z.lor (Z.shiftr x n) (word (Z.shiftl x (32 - n))).
Definition Ch (x y z : Z) : Z := Z.lxor (Z.land x y) (Z.land (Z.lxor x (2 ^ 32 - 1)) z).
Definition Maj (x y z : Z) : Z := Z.lxor (Z.lxor (Z.land x y) (Z.land x z)) (Z.land y z).
Definition Sigma0 (x : Z) : Z := Z.lxor (Z.lxor (rotr 2 x) (rotr 13 x)) (rotr 22 x).
Definition Sigma1 (x : Z) : Z := Z.lxor (Z.lxor (rotr 6 x) (rotr 11 x)) (rotr 25 x).
Definition sigma0 (x : Z) : Z := Z.lxor (Z.lxor (rotr 7 x) (rotr 18 x)) (Z.shiftr x 3).
Definition sigma1 (x : Z) : Z := Z.lxor (Z.lxor (rotr 17 x) (rotr 19 x)) (Z.shiftr x 10).

Definition round_constants : list Z := [
  1116352408; 1899447441; 3049323471; 3921009573; 961987163; 1508970993; 2453635748;
   2870763221; 3624381080; 310598401; 607225278; 1426881987; 1925078388; 2162078206;
   2614888103; 3248222580; 3835390401; 4022224774; 264347078; 604807628; 770255983;
   1249150122; 1555081692; 1996064986; 2554220882; 2821834349; 2952996808; 3210313671;
   3336571891; 3584528711; 113926993; 338241895; 666307205; 773529912; 1294757372;
   1396182291; 1695183700; 1986661051; 2177026350; 2456956037; 2730485921; 2820302411;
   3259730800; 3345764771; 3516065817; 3600352804; 4094571909; 275423344; 430227734;
   506948616; 659060556; 883997877; 958139571; 1322822218; 1537002063; 1747873779;
   1955562222; 2024104815; 2227730452; 2361852424; 2428436474; 2756734187; 3204031479;
   3329325298].
Definition initial_words : list Z := [
  1779033703; 3144134277; 1013904242; 2773480762; 1359893119; 2600822924; 528734635;
   1541459225].

Record Sha := { sa : Z; sb : Z; sc : Z; sd : Z; se : Z; sf : Z; sg : Z; sh : Z }.
Definition sha_words (s : Sha) : list Z := [sa s; sb s; sc s; sd s; se s; sf s; sg s; sh s].
Definition sha_initial : Sha :=
  let w i := nth i initial_words 0 in
  {| sa := w 0%nat; sb := w 1%nat; sc := w 2%nat; sd := w 3%nat;
     se := w 4%nat; sf := w 5%nat; sg := w 6%nat; sh := w 7%nat |}.

(** The message schedule, last word first: [n] further words. *)
Fixpoint schedule (n : nat) (ws : list Z) : list Z :=
  match n with
  | O => ws
  | S n =>
      let w i := nth i ws 0 in
      schedule n (word (sigma1 (w 1%nat) + w 6%nat + sigma0 (w 14%nat) + w 15%nat) :: ws)
  end.
Definition sha_round (s : Sha) (kw : Z * Z) : Sha :=
  let t1 := sh s + Sigma1 (se s) + Ch (se s) (sf s) (sg s) + kw.1 + kw.2 in
  let t2 := Sigma0 (sa s) + Maj (sa s) (sb s) (sc s) in
  {| sa := word (t1 + t2); sb := sa s; sc := sb s; sd := sc s;
     se := word (sd s + t1); sf := se s; sg := sf s; sh := sg s |}.
Definition compress (s : Sha) (block : list Z) : Sha :=
  let r := fold_left sha_round (combine round_constants (rev (schedule 48 (rev block)))) s in
  {| sa := word (sa s + sa r); sb := word (sb s + sb r); sc := word (sc s + sc r);
     sd := word (sd s + sd r); se := word (se s + se r); sf := word (sf s + sf r);
     sg := word (sg s + sg r); sh := word (sh s + sh r) |}.

(** Big-endian words, and blocks of sixteen. *)
Fixpoint words_of (bytes : list Z) : list Z :=
  match bytes with
  | a :: b :: c :: d :: rest => (((a * 256 + b) * 256 + c) * 256 + d) :: words_of rest
  | _ => []
  end.
Fixpoint hash_blocks (n : nat) (s : Sha) (ws : list Z) : Sha :=
  match n with
  | O => s
  | S n => hash_blocks n (compress s (take 16 ws)) (drop 16 ws)
  end.
Definition be_bytes (n : nat) (z : Z) : list Z :=
  map (fun i => z / 256 ^ Z.of_nat i mod 256) (rev (seq 0 n)).
Definition padded (bytes : list Z) : list Z :=
  let len := Z.of_nat (length bytes) in
  bytes ++ 128 :: replicate (Z.to_nat ((55 - len) mod 64)) 0 ++ be_bytes 8 (8 * len).
Definition Sum256 (bytes : list Z) : list Z :=
  let ws := words_of (padded bytes) in
  flat_map (be_bytes 4) (sha_words (hash_blocks (length ws / 16) sha_initial ws)).

Lemma Sum256_length bytes : length (Sum256 bytes) = 32%nat.
Proof. reflexivity. Qed.

(** ** FNV-1a, 64 bits *)

Definition fnv64a (bytes : list Z) : Z :=
  fold_left (fun h b => (Z.lxor h b * 1099511628211) mod 2 ^ 64) bytes 14695981039346656037.

(** ** Hexadecimal *)

Definition hex_digit (z : Z) : Ascii.ascii :=
  Ascii.ascii_of_nat (Z.to_nat (if z <? 10 then 48 + z else 87 + z)).
Fixpoint hex (bytes : list Z) : string :=
  match bytes with
  | [] => ""
  | b :: bytes => String (hex_digit (b / 16 mod 16)) (String (hex_digit (b mod 16)) (hex bytes))
  end.

Lemma hex_length bytes : String.length (hex bytes) = (2 * length bytes)%nat.
Proof. induction bytes as [|b l IH]; simpl; [done|]. rewrite IH. lia. Qed.

Definition lower_hex (c : Ascii.ascii) : bool := in_range 48 57 c || in_range 97 102 c.
Fixpoint str_forall (P : Ascii.ascii → bool) (s : string) : bool :=
  match s with EmptyString => true | String c t => P c && str_forall P t end.

Lemma str_forall_impl P Q s : (∀ c, P c = true → Q c = true) → str_forall P s = true → str_forall Q s = true.
Proof. intros H. induction s as [|c s IH]; simpl; [done|]. intros [? ?]%andb_true_iff. rewrite H, IH; done. Qed.
Lemma str_forall_app P s t : str_forall P (s +:+ t) = str_forall P s && str_forall P t.
Proof. induction s as [|c s IH]; [done|]. rewrite str_app_cons. cbn [str_forall]. by rewrite IH, andb_assoc. Qed.
Lemma str_forall_take P n s : str_forall P s = true → str_forall P (str_take n s) = true.
Proof.
  revert s. induction n as [|n IH]; intros [|c s]; simpl; try done.
  intros [-> H]%andb_true_iff. by apply IH.
Qed.

Lemma str_app_nil_r s : s +:+ "" = s.
Proof. induction s as [|c s IH]; [done|]. by rewrite str_app_cons, IH. Qed.

Lemma str_app_split a b c d :
  a +:+ b = c +:+ d → (∃ e, a = c +:+ e ∧ d = e +:+ b) ∨ (∃ e, c = a +:+ e ∧ b = e +:+ d).
Proof.
  revert c. induction a as [|x a IH]; intros c E.
  - right. by exists c.
  - destruct c as [|y c]; [left; by exists (String x a)|].
    rewrite !str_app_cons in E. injection E as -> E.
    destruct (IH c E) as [(e & -> & ->)|(e & -> & ->)]; [left|right]; by exists e.
Qed.

Lemma hex_digit_lower z : lower_hex (hex_digit (z mod 16)) = true.
Proof.
  pose proof (Z.mod_pos_bound z 16 ltac:(lia)) as H. revert H. generalize (z mod 16). clear z. intros z H.
  assert (z ∈ [0; 1; 2; 3; 4; 5; 6; 7; 8; 9; 10; 11; 12; 13; 14; 15]) as Hz.
  { rewrite !elem_of_cons. lia. }
  repeat (apply elem_of_cons in Hz as [->|Hz]; [reflexivity|]). by apply not_elem_of_nil in Hz.
Qed.

Lemma hex_lower bytes : str_forall lower_hex (hex bytes) = true.
Proof. induction bytes as [|b l IH]; [done|]. cbn [hex str_forall]. by rewrite !hex_digit_lower, IH. Qed.

(** ** Runes

    The width of the first rune of a string, as [utf8.DecodeRune] reads it: an invalid
    byte is a rune of its own. *)

Definition continuation (lo hi : nat) (s : string) : bool :=
  match s with String c _ => in_range lo hi c | EmptyString => false end.
Definition str_tail (s : string) : string := match s with String _ t => t | EmptyString => "" end.

Definition rune_width (c : Ascii.ascii) (t : string) : nat :=
  let second lo hi := continuation lo hi t in
  let third := continuation 128 191 (str_tail t) in
  let fourth := continuation 128 191 (str_tail (str_tail t)) in
  if in_range 194 223 c then if second 128%nat 191%nat then 2 else 1
  else if byte_is 224 c then if second 160%nat 191%nat && third then 3 else 1
  else if in_range 225 236 c || in_range 238 239 c then if second 128%nat 191%nat && third then 3 else 1
  else if byte_is 237 c then if second 128%nat 159%nat && third then 3 else 1
  else if byte_is 240 c then if second 144%nat 191%nat && third && fourth then 4 else 1
  else if in_range 241 243 c then if second 128%nat 191%nat && third && fourth then 4 else 1
  else if byte_is 244 c then if second 128%nat 143%nat && third && fourth then 4 else 1
  else 1.

Example sha256_abc :
  hex (Sum256 (bytes_of "abc")) = "ba7816bf8f01cfea414140de5dae2223b00361a396177a9cb410ff61f20015ad".
Proof. vm_compute. reflexivity. Qed.
Example fnv_a : fnv64a (bytes_of "a") = 12638187200555641996.
Proof. vm_compute. reflexivity. Qed.
