(* ===== verification/WorkspaceKey.v ===== *)
(** * Workspace directory names

    internal/workspace/manager.go: the sanitizer of path components, the directory of an
    issue and the path of a task's workspace.  The theorems: every name is one directory
    entry that is no traversal, safe identifiers keep their name, two identifiers share
    one only if 64 bits of SHA-256 collide or one is spelled as the other's name, and a
    workspace path is strictly below its root. *)

From S2P Require Import Prelude Tracker GoStd Types Runtime Paths Sys SafeRemove Hashes.

(** ** The code *)

Definition maxSanitizedLength : nat := 120.
Definition issueWorkspaceHashLength : nat := 16.
Definition issueWorkspaceSuffixLength : nat := String.length "--" + issueWorkspaceHashLength.
Definition maxIssueWorkspacePrefixLength : nat := maxSanitizedLength - issueWorkspaceSuffixLength.

Definition safe_char (c : Ascii.ascii) : bool :=
  in_range 65 90 c || in_range 97 122 c || in_range 48 57 c ||
  byte_is 46 c || byte_is 45 c || byte_is 95 c.

(** The loop over the runes; [skip] bytes of the current rune are left. *)
Fixpoint sanitize_runes (skip : nat) (s : string) : string :=
  match s with
  | EmptyString => ""
  | String c t =>
      match skip with
      | S skip => sanitize_runes skip t
      | O => String (if safe_char c then c else Ascii.ascii_of_nat 95)
                    (sanitize_runes (rune_width c t - 1) t)
      end
  end.

Definition sanitizeComponent (s : string) : string :=
  let out := sanitize_runes 0 s in
  let out := if (maxSanitizedLength <? String.length out)%nat then str_take maxSanitizedLength out else out in
  if String.eqb out "" || String.eqb out "." || String.eqb out ".." then "unknown" else out.

Definition SanitizeComponent (s : string) : string := sanitizeComponent s.

Definition key_hash (identifier : string) : list Z :=
  take (issueWorkspaceHashLength / 2) (Sum256 (bytes_of identifier)).

Definition IssueWorkspaceKey (identifier : string) : string :=
  let sanitized := sanitizeComponent identifier in
  if String.eqb sanitized identifier then sanitized
  else
    let prefix :=
      if (maxIssueWorkspacePrefixLength <? String.length sanitized)%nat
      then str_take maxIssueWorkspacePrefixLength sanitized else sanitized in
    prefix +:+ "--" +:+ hex (key_hash identifier).

Definition issueWorkspaceKey (t : Task) : string :=
  let sourceType := TrimSpace (task_SourceType t) in
  let sourceEventID := task_SourceEventID t in
  if negb (String.eqb sourceType "") && negb (String.eqb sourceEventID "")
  then Join [SanitizeComponent sourceType; IssueWorkspaceKey sourceEventID]
  else IssueWorkspaceKey (task_ID t).

(** [Manager.PathFor], with the manager's Root. *)
Definition PathFor (Root : string) (t : Task) : string :=
  Join [Root; SanitizeComponent (task_RepoOwner t); SanitizeComponent (task_RepoName t);
        issueWorkspaceKey t].

Example key_plain : IssueWorkspaceKey "ENG-12" = "ENG-12".
Proof. reflexivity. Qed.
Example key_slash : IssueWorkspaceKey "team/a-1" = "team_a-1--7c03d5a56ca4204b".
Proof. vm_compute. reflexivity. Qed.
Example key_spaced : IssueWorkspaceKey " team/a-1 " = "_team_a-1_--84f3056afc8b3688".
Proof. vm_compute. reflexivity. Qed.
Example key_dots : sanitizeComponent ".." = "unknown".
Proof. reflexivity. Qed.

(** ** Well-formed names *)

(** One directory entry of the portable alphabet that is no traversal. *)
Definition component_ok (s : string) : bool :=
  str_forall safe_char s && (String.length s <=? maxSanitizedLength)%nat &&
  negb (String.eqb s "" || String.eqb s "." || String.eqb s "..").

Lemma component_ok_spec s :
  component_ok s = true ↔
  str_forall safe_char s = true ∧ (String.length s ≤ maxSanitizedLength)%nat ∧ s ≠ "" ∧ s ≠ "." ∧ s ≠ "..".
Proof.
  unfold component_ok. rewrite !andb_true_iff, negb_true_iff, !orb_false_iff, !String.eqb_neq, Nat.leb_le. tauto.
Qed.

Lemma sanitize_safe k s : str_forall safe_char (sanitize_runes k s) = true.
Proof.
  revert k. induction s as [|c s IH]; intros k; [done|]. destruct k as [|k]; cbn [sanitize_runes str_forall]; [|apply IH].
  rewrite IH, andb_true_r. destruct (safe_char c) eqn:E; [exact E|reflexivity].
Qed.

Lemma in_range_below lo hi c : (Ascii.nat_of_ascii c < lo)%nat → in_range lo hi c = false.
Proof. intros H. unfold in_range. by rewrite (proj2 (Nat.leb_gt _ _)). Qed.
Lemma byte_is_below n c : (Ascii.nat_of_ascii c < n)%nat → byte_is n c = false.
Proof. intros H. unfold byte_is. apply Nat.eqb_neq. lia. Qed.

Lemma safe_width c t : safe_char c = true → rune_width c t = 1%nat.
Proof.
  intros H. assert (Ascii.nat_of_ascii c < 128)%nat as Hc.
  { revert H. unfold safe_char, in_range, byte_is.
    rewrite !orb_true_iff, !andb_true_iff, !Nat.leb_le, !Nat.eqb_eq. lia. }
  unfold rune_width. by rewrite !in_range_below, !byte_is_below by lia.
Qed.

Lemma sanitize_fixed s : str_forall safe_char s = true → sanitize_runes 0 s = s.
Proof.
  induction s as [|c s IH]; cbn [sanitize_runes str_forall]; [done|]. intros [Hc Hs]%andb_true_iff.
  rewrite Hc, safe_width by done. change (1 - 1)%nat with 0%nat. by rewrite IH.
Qed.

Lemma sanitizeComponent_ok s : component_ok (sanitizeComponent s) = true.
Proof.
  unfold sanitizeComponent. pose proof (sanitize_safe 0 s) as H. revert H. generalize (sanitize_runes 0 s).
  intros out Hs. cbn zeta. set (out' := if _ : bool then str_take _ _ else _).
  destruct (String.eqb out' "" || String.eqb out' "." || String.eqb out' "..") eqn:E; [reflexivity|].
  unfold component_ok. rewrite E, andb_true_r. apply andb_true_iff. unfold out'.
  destruct (Nat.ltb_spec maxSanitizedLength (String.length out)).
  - split; [by apply str_forall_take|]. apply Nat.leb_le. rewrite str_take_length; lia.
  - split; [done|]. by apply Nat.leb_le.
Qed.

Lemma sanitizeComponent_fixed s : sanitizeComponent s = s ↔ component_ok s = true.
Proof.
  split; [intros <-; apply sanitizeComponent_ok|]. intros (Hs & Hl & H1 & H2 & H3)%component_ok_spec.
  unfold sanitizeComponent. rewrite sanitize_fixed by done. cbn zeta.
  rewrite (proj2 (Nat.ltb_ge _ _)) by done. by rewrite !(proj2 (String.eqb_neq _ _)) by done.
Qed.

(** A key that is not the identifier: at most 102 bytes, two dashes and the hash. *)
Lemma key_shape s :
  component_ok s = false →
  ∃ prefix, IssueWorkspaceKey s = prefix +:+ "--" +:+ hex (key_hash s) ∧
    str_forall safe_char prefix = true ∧ (String.length prefix ≤ 102)%nat.
Proof.
  intros H. unfold IssueWorkspaceKey. cbn zeta. destruct (String.eqb_spec (sanitizeComponent s) s) as [E|E].
  { apply sanitizeComponent_fixed in E. congruence. }
  pose proof (sanitizeComponent_ok s) as (Hs & Hl & _)%component_ok_spec. eexists. split; [done|].
  change maxIssueWorkspacePrefixLength with 102%nat.
  destruct (Nat.ltb_spec 102 (String.length (sanitizeComponent s))) as [Hlt|Hge].
  - split; [by apply str_forall_take|]. rewrite str_take_length; lia.
  - split; [done|lia].
Qed.

Lemma key_hash_length s : String.length (hex (key_hash s)) = 16%nat.
Proof. rewrite hex_length. unfold key_hash. by rewrite length_take, Sum256_length. Qed.

Lemma IssueWorkspaceKey_ok s : component_ok (IssueWorkspaceKey s) = true.
Proof.
  destruct (component_ok s) eqn:E.
  - unfold IssueWorkspaceKey. cbn zeta. rewrite (proj2 (sanitizeComponent_fixed s) E), String.eqb_refl. done.
  - destruct (key_shape s E) as (p & -> & Hp & Hl). apply component_ok_spec.
    assert (String.length (p +:+ "--" +:+ hex (key_hash s)) = String.length p + 18)%nat as El.
    { rewrite !str_length_app, key_hash_length. change (String.length "--") with 2%nat. lia. }
    split_and!.
    + rewrite !str_forall_app, Hp. cbn [andb]. eapply str_forall_impl; [|apply hex_lower].
      intros c. unfold lower_hex, safe_char, in_range, byte_is.
      rewrite !orb_true_iff, !andb_true_iff, !Nat.leb_le, !Nat.eqb_eq. lia.
    + rewrite El. unfold maxSanitizedLength. lia.
    + intros G. rewrite G in El. simpl in El. lia.
    + intros G. rewrite G in El. simpl in El. lia.
    + intros G. rewrite G in El. simpl in El. lia.
Qed.

(** C40: Every identifier has a workspace directory name that is one directory entry of
    the portable alphabet, of 1 to 120 bytes, and neither "." nor ".."; and the name is
    the identifier itself exactly when the identifier is already such an entry. *)
Theorem workspace_key_wellformed (identifier : string) :
  component_ok (IssueWorkspaceKey identifier) = true ∧
  (IssueWorkspaceKey identifier = identifier ↔ component_ok identifier = true).
Proof.
  pose proof (IssueWorkspaceKey_ok identifier) as H. split; [done|]. split; [by intros <-|].
  intros Hok. unfold IssueWorkspaceKey. cbn zeta.
  by rewrite (proj2 (sanitizeComponent_fixed identifier) Hok), String.eqb_refl.
Qed.

(** ** Distinct names *)

Lemma str_app_inj_r s1 s2 t1 t2 :
  s1 +:+ t1 = s2 +:+ t2 → String.length t1 = String.length t2 → s1 = s2 ∧ t1 = t2.
Proof.
  revert s2. induction s1 as [|c s1 IH]; intros [|d s2] E Hl; rewrite ?str_app_cons, ?str_app_nil in E.
  - done.
  - subst t1. rewrite <- str_app_cons, str_length_app in Hl. simpl in Hl. lia.
  - subst t2. rewrite <- str_app_cons, str_length_app in Hl. simpl in Hl. lia.
  - injection E as -> E. by destruct (IH _ E Hl) as [-> ->].
Qed.

Lemma hex_digit_inj a b : 0 ≤ a < 16 → 0 ≤ b < 16 → hex_digit a = hex_digit b → a = b.
Proof.
  intros Ha Hb E. apply (f_equal Ascii.nat_of_ascii) in E. unfold hex_digit in E.
  destruct (Z.ltb_spec a 10), (Z.ltb_spec b 10); rewrite !Ascii.nat_ascii_embedding in E by lia; lia.
Qed.

Definition is_byte (b : Z) : Prop := 0 ≤ b < 256.

Lemma hex_inj l l' : Forall is_byte l → Forall is_byte l' → hex l = hex l' → l = l'.
Proof.
  intros H. revert l'. induction H as [|a l Ha _ IH]; intros l'; destruct 1 as [|b l' Hb Hl']; try done.
  cbn [hex]. intros [= E1 E2 E3]. unfold is_byte in *. f_equal; [|by apply IH].
  apply hex_digit_inj in E1; [|apply Z.mod_pos_bound; lia..].
  apply hex_digit_inj in E2; [|apply Z.mod_pos_bound; lia..].
  rewrite !(Z.mod_small (_ / 16)) in E1 by (split; [apply Z.div_pos|apply Z.div_lt_upper_bound]; lia).
  rewrite (Z.div_mod a 16), (Z.div_mod b 16) by lia. lia.
Qed.

Lemma key_hash_bytes s : Forall is_byte (key_hash s).
Proof.
  unfold key_hash. apply Forall_take. unfold Sum256. cbn zeta.
  generalize (sha_words (hash_blocks (length (words_of (padded (bytes_of s))) / 16) sha_initial
    (words_of (padded (bytes_of s))))). intros ws.
  apply Forall_flat_map. rewrite Forall_forall. intros w _. unfold be_bytes.
  rewrite Forall_map, Forall_forall. intros i _. simpl. unfold is_byte. apply Z.mod_pos_bound. lia.
Qed.

(** Two identifiers with one workspace directory name are the same, or the first 64
    bits of their SHA-256 hashes are, or one of them is a plain identifier spelled as the
    name the other one is given. *)
Theorem workspace_key_collisions (a b : string)
    (Hkey : IssueWorkspaceKey a = IssueWorkspaceKey b) :
  a = b ∨
  (component_ok a = false ∧ component_ok b = false ∧ key_hash a = key_hash b) ∨
  (component_ok a = true ∧ component_ok b = false ∧ a = IssueWorkspaceKey b) ∨
  (component_ok b = true ∧ component_ok a = false ∧ b = IssueWorkspaceKey a).
Proof.
  assert (∀ s, component_ok s = true → IssueWorkspaceKey s = s) as Hplain.
  { intros s Hs. unfold IssueWorkspaceKey. cbn zeta.
    by rewrite (proj2 (sanitizeComponent_fixed s) Hs), String.eqb_refl. }
  destruct (component_ok a) eqn:Ea, (component_ok b) eqn:Eb.
  - left. by rewrite <- (Hplain a), <- (Hplain b).
  - right. right. left. split_and!; [done..|]. by rewrite <- Hkey, Hplain.
  - right. right. right. split_and!; [done..|]. by rewrite Hkey, Hplain.
  - right. left. split_and!; [done..|].
    destruct (key_shape a Ea) as (p & Ka & _), (key_shape b Eb) as (q & Kb & _).
    rewrite Ka, Kb, !str_app_assoc in Hkey.
    apply str_app_inj_r in Hkey as [_ Hkey]; [|by rewrite !key_hash_length].
    by apply hex_inj in Hkey; [|apply key_hash_bytes..].
Qed.

Lemma workspace_key_collisions_witness :
  IssueWorkspaceKey "team_a-1--7c03d5a56ca4204b" = IssueWorkspaceKey "team/a-1" ∧
  (component_ok "team_a-1--7c03d5a56ca4204b" = true ∧ component_ok "team/a-1" = false).
Proof.
  assert (IssueWorkspaceKey "team_a-1--7c03d5a56ca4204b" = IssueWorkspaceKey "team/a-1") as H.
  { vm_compute. reflexivity. }
  split; [exact H|].
  destruct (workspace_key_collisions _ _ H) as [E|[(E & _)|[(E1 & E2 & _)|(_ & E & _)]]].
  - discriminate E.
  - vm_compute in E. discriminate E.
  - split; [exact E1|exact E2].
  - vm_compute in E. discriminate E.
Defined.

(** ** Where workspaces lie *)

(** The names of a task's workspace below the root. *)
Definition task_names (t : Task) : list string :=
  let sourceType := TrimSpace (task_SourceType t) in
  [SanitizeComponent (task_RepoOwner t); SanitizeComponent (task_RepoName t)] ++
  (if negb (String.eqb sourceType "") && negb (String.eqb (task_SourceEventID t) "")
   then [SanitizeComponent sourceType; IssueWorkspaceKey (task_SourceEventID t)]
   else [IssueWorkspaceKey (task_ID t)]).

Lemma component_real s : component_ok s = true → real_name s = true.
Proof.
  intros (Hs & _ & H1 & H2 & H3)%component_ok_spec. apply real_name_spec. split_and!; try done.
  clear H1 H2 H3. induction s as [|c s IH]; [done|]. cbn [str_forall has_slash] in *.
  apply andb_true_iff in Hs as [Hc Hs]. rewrite (IH Hs), orb_false_r. apply not_true_iff_false.
  unfold is_slash, safe_char, byte_is, in_range in *. rewrite Nat.eqb_eq. intros E. by rewrite E in Hc.
Qed.

Lemma task_names_real t : Forall (λ s, component_ok s = true) (task_names t).
Proof.
  unfold task_names, SanitizeComponent. cbn zeta.
  destruct (_ && _); repeat constructor; auto using sanitizeComponent_ok, IssueWorkspaceKey_ok.
Qed.

Lemma Join_relative l : l ≠ [] → real_names l → Join l = str_join slash l.
Proof.
  intros Hne H. destruct H as [|n l Hn Hl]; [done|]. apply real_name_spec in Hn as Hn'. destruct Hn' as (_ & H0 & _).
  cbn [Join]. rewrite (proj2 (String.eqb_neq n "")) by done. unfold Clean.
  destruct (join_real (n :: l)) as (_ & _ & _ & Ha); [done|by constructor|]. rewrite Ha.
  unfold elements. rewrite Ha, split_slash_join; [|done|].
  - rewrite clean_elements_names; [done|by constructor].
  - apply (Forall_impl (λ s, real_name s = true)); [by constructor|]. by intros m (? & _)%real_name_spec.
Qed.

Lemma PathFor_Join Root t : IsAbs Root = true → PathFor Root t = Join (Root :: task_names t).
Proof.
  intros Ha. unfold PathFor, issueWorkspaceKey, task_names. cbn zeta.
  destruct (_ && _); [|done]. cbn [app].
  rewrite (Join_relative [_; _]); [|done|].
  - by destruct Root as [|c Root].
  - unfold SanitizeComponent.
    repeat constructor; apply component_real; auto using sanitizeComponent_ok, IssueWorkspaceKey_ok.
Qed.


Lemma trim_right_safe s : str_forall safe_char s = true → trim_right s = s.
Proof.
  induction s as [|c s IH]; [done|]. cbn [str_forall trim_right]. intros [Hc Hs]%andb_true_iff.
  rewrite (IH Hs). destruct s; [|done]. assert (is_space c = false) as ->; [|done].
  apply not_true_iff_false. revert Hc. unfold safe_char, is_space, in_range, byte_is.
  rewrite !orb_true_iff, !andb_true_iff, !Nat.leb_le, !Nat.eqb_eq. lia.
Qed.

(** The workspace of a task is a clean path strictly below an absolute root, without
    spaces at its ends, so that a removal of it passes the textual checks; its names
    below the root are the task's, and two tasks have one workspace exactly when those
    names are equal. *)
Theorem workspace_path_below_root (Root : string) (t : Task) (Hroot : IsAbs Root = true) :
  let p := PathFor Root t in
  clean_abs p ∧ TrimSpace p = p ∧ elements p = elements Root ++ task_names t ∧
  assertContained (Clean Root) p = None ∧
  ∀ t', PathFor Root t' = p ↔ task_names t' = task_names t.
Proof.
  cbn zeta. assert (∀ t, real_names (task_names t)) as Hreal.
  { intros t0. eapply Forall_impl; [apply task_names_real|]. apply component_real. }
  rewrite PathFor_Join by done. destruct (elements_Join Root (task_names t) Hroot (Hreal t)) as [Ee Ea].
  pose proof (Join_clean_abs Root (task_names t) Hroot) as Hc. split_and!; [done| |done| |].
  - destruct Hc as [_ Hc]. rewrite <- Hc, Clean_abs, Ee by done.
    destruct (task_names t) as [|n ns _] eqn:En using rev_ind; [by unfold task_names in En|].
    rewrite app_assoc. destruct (render_snoc (elements Root ++ ns) n) as [front Ef].
    assert (str_forall safe_char n = true ∧ n ≠ "") as [Hn H0].
    { pose proof (task_names_real t) as H. rewrite En in H. apply Forall_app in H as [_ H].
      inversion H as [|?? (? & _ & ? & _)%component_ok_spec]; subst. done. }
    unfold TrimSpace. assert (∀ s, IsAbs s = true → trim_left s = s) as Hl.
    { intros [|c s] Hs; [done|]. cbn in Hs |- *. assert (is_space c = false) as ->; [|done].
      unfold is_slash, byte_is in Hs. apply Nat.eqb_eq in Hs. unfold is_space. by rewrite Hs. }
    rewrite Hl by done. rewrite Ef, str_app_assoc. apply trim_right_app; [done|by apply trim_right_safe].
  - apply assertContained_spec; [by apply IsAbs_Clean|done|]. exists (task_names t).
    rewrite elements_Clean, Ee by done. split; [|done]. unfold task_names. done.
  - intros t'. rewrite PathFor_Join by done. split.
    + intros E. apply (f_equal elements) in E. rewrite Ee in E.
      rewrite (proj1 (elements_Join Root (task_names t') Hroot (Hreal t'))) in E. by apply app_inv_head in E.
    + by intros ->.
Qed.

Lemma workspace_path_below_root_witness :
  let t := {| task_ID := "tsk-1"; task_SourceType := "linear"; task_SourceEventID := "ENG/12";
              task_RepoOwner := "acme"; task_RepoName := ".."; task_CloneURL := ""; task_BaseBranch := "main";
              task_WorkBranch := "ai/1"; task_Title := ""; task_Description := ""; task_Actor := "";
              task_Model := ""; task_Priority := 0; task_Attempts := 0; task_IssueRender := None |} in
  PathFor "/srv/ws/" t = "/srv/ws/acme/unknown/linear/ENG_12--"  +:+ hex (key_hash "ENG/12") ∧
  clean_abs (PathFor "/srv/ws/" t).
Proof.
  cbn zeta. split; [vm_compute; reflexivity|].
  refine (proj1 (workspace_path_below_root "/srv/ws/" _ _)). reflexivity.
Defined.
