(* ===== verification/Redact.v ===== *)
(** * Credentials in text

    internal/workspace/redact.go, and the splitting rule of internal/workflow/config.go
    it must agree with.  The two regular expressions are deterministic (a scheme holds no
    colon, and of the authority only the last "@" counts), so they are written as
    scanners; [re_space] is RE2's class.  The theorems: nothing the first expression
    matches is left, whatever way the text is cut into writes, and nothing the second
    matches is left at the end of incomplete text. *)

From S2P Require Import Prelude GoStd Paths Hashes.

(** ** The expressions *)

Definition letter (c : Ascii.ascii) : bool := in_range 65 90 c || in_range 97 122 c.
Definition scheme_char (c : Ascii.ascii) : bool :=
  letter c || in_range 48 57 c || byte_is 43 c || byte_is 46 c || byte_is 45 c.
Definition re_space (c : Ascii.ascii) : bool :=
  byte_is 9 c || byte_is 10 c || byte_is 12 c || byte_is 13 c || byte_is 32 c.
(** [[^/?#\s]] *)
Definition authority_char (c : Ascii.ascii) : bool :=
  negb (byte_is 47 c || byte_is 63 c || byte_is 35 c || re_space c).
Definition is_at (c : Ascii.ascii) : bool := byte_is 64 c.

(** After a first letter: the rest after "://". *)
Fixpoint after_scheme (s : string) : option string :=
  match s with
  | EmptyString => None
  | String c t => if scheme_char c then after_scheme t else CutPrefix s "://"
  end.
Definition scheme_match (s : string) : option string :=
  match s with
  | String c t => if letter c then after_scheme t else None
  | EmptyString => None
  end.

(** The rest after the last "@" of the authority. *)
Fixpoint after_last_at (s : string) : option string :=
  match s with
  | EmptyString => None
  | String c t =>
      if authority_char c
      then match after_last_at t with
           | Some rest => Some rest
           | None => if is_at c then Some t else None
           end
      else None
  end.

(** [credentialURLRe] at the start of [s]: the lengths of "$1" and of the userinfo. *)
Definition credential_match (s : string) : option (nat * nat) :=
  match scheme_match s with
  | Some r =>
      match after_last_at r with
      | Some rest => Some (String.length s - String.length r, String.length r - String.length rest)%nat
      | None => None
      end
  | None => None
  end.

(** [ReplaceAllString(s, "$1")]: [copy] bytes of the current match are still to be
    copied, then [omit] bytes are to be left out. *)
Fixpoint redact_from (copy omit : nat) (s : string) : string :=
  match s with
  | EmptyString => ""
  | String c t =>
      match copy, omit with
      | S copy, _ => String c (redact_from copy omit t)
      | O, S omit => redact_from 0 omit t
      | O, O =>
          match credential_match s with
          | Some (scheme, userinfo) => String c (redact_from (scheme - 1) userinfo t)
          | None => String c (redact_from 0 0 t)
          end
      end
  end.
Definition redactCredentials (s : string) : string := redact_from 0 0 s.

Fixpoint all_authority (s : string) : bool :=
  match s with EmptyString => true | String c t => authority_char c && all_authority t end.

(** [truncatedCredentialURLTailRe.ReplaceAllString(s, "$1")]. *)
Fixpoint strip_tail (s : string) : string :=
  match s with
  | EmptyString => ""
  | String c t =>
      match scheme_match s with
      | Some r =>
          if all_authority r then str_take (String.length s - String.length r) s
          else String c (strip_tail t)
      | None => String c (strip_tail t)
      end
  end.

Definition redactHookOutput (s : string) (incomplete : bool) : string :=
  let s := redactCredentials s in
  if incomplete then strip_tail s else s.

(** ** The redacting writer

    Its buffer, and what the underlying writer got: [sink] says which writes fail. *)

Record credentialRedactingWriter := { crw_buf : string; crw_out : list string }.
#[export] Instance eta_crw : Eta credentialRedactingWriter := fun r =>
  Build_credentialRedactingWriter (crw_buf r) (crw_out r).

(** [bytes.IndexAny(buf, "\n\r")]: the segment up to and with the byte found. *)
Definition line_end (c : Ascii.ascii) : bool := byte_is 10 c || byte_is 13 c.
Fixpoint cut_segment (s : string) : option (string * string) :=
  match s with
  | EmptyString => None
  | String c t =>
      if line_end c then Some (String c "", t)
      else match cut_segment t with Some (seg, rest) => Some (String c seg, rest) | None => None end
  end.

Section Writer.
Context (sink : list string → string → bool).

(** A failed write leaves the segment in the buffer. *)
Fixpoint flush_segments (fuel : nat) (c : credentialRedactingWriter) : credentialRedactingWriter * bool :=
  match fuel with
  | O => (c, true)
  | S fuel =>
      match cut_segment (crw_buf c) with
      | None => (c, true)
      | Some (segment, rest) =>
          let text := redactCredentials segment in
          if sink (crw_out c) text
          then flush_segments fuel (c <| crw_out ::= (λ o, o ++ [text]) |> <| crw_buf := rest |>)
          else (c, false)
      end
  end.

Definition credentialRedactingWriter_Write (c : credentialRedactingWriter) (p : string)
    : credentialRedactingWriter * bool :=
  let c := c <| crw_buf ::= (λ b, b +:+ p) |> in
  flush_segments (String.length (crw_buf c)) c.

Definition credentialRedactingWriter_Flush (c : credentialRedactingWriter)
    : credentialRedactingWriter * bool :=
  if String.eqb (crw_buf c) "" then (c, true)
  else
    let text := redactCredentials (crw_buf c) in
    let good := sink (crw_out c) text in
    (c <| crw_out ::= (λ o, if good then o ++ [text] else o) |> <| crw_buf := "" |>, good).
End Writer.

(** ** The splitting rule of MaskCloneURL *)

(** [strings.Index(s, sub)], as the text before and the text from there. *)
Fixpoint cut_index (sub s : string) : option (string * string) :=
  if HasPrefix s sub then Some ("", s)
  else match s with
       | EmptyString => None
       | String c t =>
           match cut_index sub t with Some (b, r) => Some (String c b, r) | None => None end
       end.
(** [strings.IndexAny(s, "/?#")]; the tail is empty when there is none. *)
Definition url_delimiter (c : Ascii.ascii) : bool := byte_is 47 c || byte_is 63 c || byte_is 35 c.
Fixpoint cut_any (s : string) : string * string :=
  match s with
  | EmptyString => ("", "")
  | String c t =>
      if url_delimiter c then ("", s) else let (b, r) := cut_any t in (String c b, r)
  end.
(** The rest after [strings.LastIndex(s, "@")]. *)
Fixpoint after_at (s : string) : option string :=
  match s with
  | EmptyString => None
  | String c t =>
      match after_at t with Some r => Some r | None => if is_at c then Some t else None end
  end.

Definition stripCloneURLUserinfo (raw : string) : string :=
  match cut_index "://" raw with
  | None => raw
  | Some (scheme, from) =>
      match CutPrefix from "://" with
      | None => raw
      | Some rest =>
          let (authority, tail) := cut_any rest in
          match after_at authority with
          | None => raw
          | Some host => scheme +:+ "://" +:+ host +:+ tail
          end
      end
  end.

Example redact_git :
  redactCredentials "fatal: unable to access 'https://bot:p@ss@host/o/r.git/': 403"
  = "fatal: unable to access 'https://host/o/r.git/': 403".
Proof. reflexivity. Qed.
Example redact_path_at : redactCredentials "https://host/a@b" = "https://host/a@b".
Proof. reflexivity. Qed.
Example redact_nested : redactCredentials "x://u@y://v@h" = "x://y://h".
Proof. reflexivity. Qed.
Example redact_tail : redactHookOutput "push https://bot:sec" true = "push https://".
Proof. reflexivity. Qed.

(** * Redaction leaves no credential

    What the scanners of Redact.v find, the text they leave, and that the redacting
    writer's output does not depend on how its input was cut. *)


(** ** What a match is *)

Lemma after_scheme_spec s r :
  after_scheme s = Some r → ∃ run, s = run +:+ "://" +:+ r ∧ str_forall scheme_char run = true.
Proof.
  induction s as [|c s IH]; [done|]. cbn [after_scheme]. destruct (scheme_char c) eqn:Hc.
  - intros H. destruct (IH H) as (run & -> & Hrun). exists (String c run). cbn [str_forall].
    by rewrite Hc, Hrun.
  - intros H%CutPrefix_spec. by exists "".
Qed.

Lemma after_scheme_run run r :
  str_forall scheme_char run = true → after_scheme (run +:+ "://" +:+ r) = Some r.
Proof.
  induction run as [|c run IH]; [by destruct r|]. cbn [str_forall]. intros [Hc Hrun]%andb_true_iff.
  rewrite str_app_cons. cbn [after_scheme]. rewrite Hc. by apply IH.
Qed.

Lemma after_last_at_spec s rest :
  after_last_at s = Some rest →
  ∃ user, s = user +:+ "@" +:+ rest ∧ all_authority user = true ∧ after_last_at rest = None.
Proof.
  revert rest. induction s as [|c s IH]; intros rest; [done|]. cbn [after_last_at].
  destruct (authority_char c) eqn:Hc; [|done]. destruct (after_last_at s) as [r|] eqn:E.
  - intros [= <-]. destruct (IH r eq_refl) as (user & -> & Hu & Hr). exists (String c user).
    cbn [all_authority]. by rewrite Hc, Hu.
  - destruct (is_at c) eqn:Ha; [|done]. intros [= <-]. exists "". split_and!; [|done|done].
    unfold is_at, byte_is in Ha. apply Nat.eqb_eq in Ha.
    by rewrite <- (Ascii.ascii_nat_embedding c), Ha.
Qed.

Lemma after_last_at_found user rest :
  all_authority user = true → after_last_at (user +:+ "@" +:+ rest) ≠ None.
Proof.
  induction user as [|c user IH]; cbn [all_authority].
  - intros _. change ("" +:+ "@" +:+ rest) with (String (Ascii.ascii_of_nat 64) rest). cbn [after_last_at].
    change (authority_char (Ascii.ascii_of_nat 64)) with true. change (is_at (Ascii.ascii_of_nat 64)) with true.
    by destruct (after_last_at rest).
  - intros [Hc Hu]%andb_true_iff. rewrite str_app_cons. cbn [after_last_at]. rewrite Hc.
    specialize (IH Hu). by destruct (after_last_at (user +:+ "@" +:+ rest)).
Qed.

(** The names of a scheme: a letter, then letters, digits, "+", "." and "-". *)
Definition is_scheme (s : string) : bool :=
  match s with String c t => letter c && str_forall scheme_char t | EmptyString => false end.

Lemma letter_scheme c : letter c = true → scheme_char c = true.
Proof. unfold scheme_char. by intros ->. Qed.

Lemma scheme_match_spec s r :
  scheme_match s = Some r ↔ ∃ scheme, is_scheme scheme = true ∧ s = scheme +:+ "://" +:+ r.
Proof.
  split.
  - destruct s as [|c s]; [done|]. cbn [scheme_match]. destruct (letter c) eqn:Hl; [|done].
    intros (run & -> & Hrun)%after_scheme_spec. exists (String c run). cbn [is_scheme]. by rewrite Hl, Hrun.
  - intros (scheme & Hs & ->). destruct scheme as [|c run]; [done|]. cbn [is_scheme] in Hs.
    apply andb_true_iff in Hs as [Hl Hrun]. rewrite str_app_cons. cbn [scheme_match]. rewrite Hl.
    by apply after_scheme_run.
Qed.

(** [s] begins with a URL that carries userinfo. *)
Definition credential_url (s : string) : Prop :=
  ∃ scheme user rest, is_scheme scheme = true ∧ all_authority user = true ∧
    s = scheme +:+ "://" +:+ user +:+ "@" +:+ rest.

Lemma credential_match_None s : credential_match s = None ↔ ¬ credential_url s.
Proof.
  unfold credential_match, credential_url. destruct (scheme_match s) as [r|] eqn:E.
  - apply scheme_match_spec in E as (scheme & Hs & ->). destruct (after_last_at r) as [rest|] eqn:Ea.
    + split; [done|]. intros []. apply after_last_at_spec in Ea as (user & -> & Hu & _). eauto 10.
    + split; [|done]. intros _ (scheme' & user & rest & Hs' & Hu & E).
      assert (scheme_match (scheme' +:+ "://" +:+ user +:+ "@" +:+ rest) = Some (user +:+ "@" +:+ rest)) as H
        by (apply scheme_match_spec; eauto).
      rewrite <- E in H. rewrite (proj2 (scheme_match_spec _ r)) in H by eauto. injection H as ->.
      by apply (after_last_at_found user rest).
  - split; [|done]. intros _ (scheme & user & rest & Hs & _ & ->).
    rewrite (proj2 (scheme_match_spec _ (user +:+ "@" +:+ rest))) in E; [done|eauto].
Qed.

Lemma credential_match_Some s n m :
  credential_match s = Some (n, m) →
  ∃ scheme user rest, is_scheme scheme = true ∧ all_authority user = true ∧ after_last_at rest = None ∧
    s = (scheme +:+ "://") +:+ (user +:+ "@") +:+ rest ∧
    n = String.length (scheme +:+ "://") ∧ m = String.length (user +:+ "@").
Proof.
  unfold credential_match. destruct (scheme_match s) as [r|] eqn:E; [|done].
  apply scheme_match_spec in E as (scheme & Hs & ->). destruct (after_last_at r) as [rest|] eqn:Ea; [|done].
  apply after_last_at_spec in Ea as (user & -> & Hu & Hr). intros [= <- <-].
  exists scheme, user, rest. split_and!; [done..| | |].
  - by rewrite <- !str_app_assoc.
  - rewrite !str_length_app. lia.
  - rewrite !str_length_app. lia.
Qed.

Lemma after_last_at_exact user rest :
  all_authority user = true → after_last_at rest = None →
  after_last_at (user +:+ "@" +:+ rest) = Some rest.
Proof.
  intros Hu Hr. induction user as [|c user IH].
  - change ("" +:+ "@" +:+ rest) with (String (Ascii.ascii_of_nat 64) rest). cbn [after_last_at]. by rewrite Hr.
  - cbn [all_authority] in Hu. apply andb_true_iff in Hu as [Hc Hu]. rewrite str_app_cons. cbn [after_last_at].
    by rewrite Hc, IH.
Qed.

Lemma credential_match_exact scheme user rest :
  is_scheme scheme = true → all_authority user = true → after_last_at rest = None →
  credential_match ((scheme +:+ "://") +:+ (user +:+ "@") +:+ rest) =
    Some (String.length (scheme +:+ "://"), String.length (user +:+ "@")).
Proof.
  intros Hs Hu Hr. unfold credential_match. rewrite <- !str_app_assoc.
  rewrite (proj2 (scheme_match_spec _ (user +:+ "@" +:+ rest))) by eauto.
  rewrite after_last_at_exact by done. do 2 f_equal; rewrite !str_length_app; lia.
Qed.

(** ** What redaction does *)

Lemma redact_copy a b r :
  redact_from (String.length a) (String.length b) (a +:+ b +:+ r) = a +:+ redactCredentials r.
Proof.
  induction a as [|c a IH].
  - rewrite !str_app_nil. induction b as [|d b IH]; [by destruct r|]. rewrite str_app_cons. exact IH.
  - rewrite !str_app_cons. cbn [String.length redact_from]. by rewrite IH.
Qed.

Lemma redact_match scheme user rest :
  is_scheme scheme = true →
  credential_match ((scheme +:+ "://") +:+ (user +:+ "@") +:+ rest) =
    Some (String.length (scheme +:+ "://"), String.length (user +:+ "@")) →
  redactCredentials ((scheme +:+ "://") +:+ (user +:+ "@") +:+ rest) = scheme +:+ "://" +:+ redactCredentials rest.
Proof.
  intros Hs Hm. destruct scheme as [|c run]; [done|]. unfold redactCredentials.
  rewrite !str_app_cons in *. cbn [redact_from]. rewrite Hm. cbn [String.length]. rewrite Nat.sub_succ, Nat.sub_0_r.
  rewrite redact_copy. by rewrite <- !str_app_assoc.
Qed.

Lemma redact_keep c t :
  credential_match (String c t) = None → redactCredentials (String c t) = String c (redactCredentials t).
Proof. intros H. unfold redactCredentials. cbn [redact_from]. by rewrite H. Qed.

(** Induction along the matches. *)
Lemma redact_ind (P : string → Prop) :
  P "" →
  (∀ c t, credential_match (String c t) = None →
    redactCredentials (String c t) = String c (redactCredentials t) → P t → P (String c t)) →
  (∀ scheme user rest, is_scheme scheme = true → all_authority user = true → after_last_at rest = None →
    let s := (scheme +:+ "://") +:+ (user +:+ "@") +:+ rest in
    credential_match s ≠ None →
    redactCredentials s = scheme +:+ "://" +:+ redactCredentials rest → P rest → P s) →
  ∀ s, P s.
Proof.
  intros H0 H1 H2 s. remember (String.length s) as n eqn:En. revert s En.
  induction n as [n IH] using lt_wf_ind. intros s ->. destruct s as [|c t]; [done|].
  destruct (credential_match (String c t)) as [[a b]|] eqn:E.
  - pose proof E as E'. apply credential_match_Some in E' as (scheme & user & rest & Hs & Hu & Hr & Es & -> & ->).
    rewrite Es in *. apply H2; [done..|by rewrite E|by apply redact_match|].
    eapply IH; [|done]. rewrite !str_length_app. simpl. lia.
  - apply H1; [done|by apply redact_keep|]. eapply IH; [|done]. simpl. lia.
Qed.

(** ** Nothing is left *)

Lemma scheme_char_authority c : scheme_char c = true → authority_char c = true ∧ is_at c = false.
Proof.
  unfold scheme_char, authority_char, letter, re_space, is_at, in_range, byte_is.
  rewrite !orb_true_iff, !andb_true_iff, !Nat.leb_le, !Nat.eqb_eq, negb_true_iff, !orb_false_iff, !Nat.eqb_neq. lia.
Qed.

Lemma no_at_before_slash run y :
  str_forall scheme_char run = true → after_last_at (run +:+ "://" +:+ y) = None.
Proof.
  induction run as [|c run IH]; [done|]. cbn [str_forall]. intros [Hc Hrun]%andb_true_iff.
  rewrite str_app_cons. cbn [after_last_at]. destruct (scheme_char_authority c Hc) as [-> ->].
  by rewrite IH.
Qed.

Lemma is_scheme_chars s : is_scheme s = true → str_forall scheme_char s = true.
Proof.
  destruct s as [|c s]; [done|]. cbn [is_scheme str_forall]. intros [Hl Hs]%andb_true_iff.
  by rewrite (letter_scheme c Hl), Hs.
Qed.

(** Redaction brings no "@" into the authority a text begins with. *)
Lemma redact_no_at s : after_last_at s = None → after_last_at (redactCredentials s) = None.
Proof.
  revert s. apply (redact_ind (λ s, after_last_at s = None → after_last_at (redactCredentials s) = None)).
  - done.
  - intros c t _ -> IH. cbn [after_last_at]. destruct (authority_char c); [|done].
    destruct (after_last_at t); [done|]. rewrite (IH eq_refl). by destruct (is_at c).
  - intros scheme user rest Hs _ _ s _ E _ _. rewrite E. by apply no_at_before_slash, is_scheme_chars.
Qed.

Lemma redact_head s c t :
  redactCredentials s = String c t → letter c = false →
  ∃ s', s = String c s' ∧ redactCredentials s' = t.
Proof.
  revert s. apply (redact_ind (λ s, redactCredentials s = String c t → letter c = false → _)).
  - done.
  - intros d s _ -> _ [= -> <-] _. eauto.
  - intros scheme user rest Hs _ _ s _ E _. rewrite E. destruct scheme as [|d scheme]; [done|].
    rewrite str_app_cons. intros [= -> _]. cbn [is_scheme] in Hs. apply andb_true_iff in Hs as [Hl _].
    congruence.
Qed.

(** A scheme of the redacted text was a scheme of the text, or its characters belong to
    the scheme of a credential. *)
Lemma redact_scheme run s y :
  str_forall scheme_char run = true → redactCredentials s = run +:+ "://" +:+ y →
  (∃ y', s = run +:+ "://" +:+ y' ∧ y = redactCredentials y') ∨
  (∃ run' user rest, str_forall scheme_char run' = true ∧ all_authority user = true ∧
    s = run' +:+ "://" +:+ user +:+ "@" +:+ rest).
Proof.
  revert s. induction run as [|c run IH]; intros s Hrun E.
  - left. change ("" +:+ "://" +:+ y) with
      (String (Ascii.ascii_of_nat 58) (String (Ascii.ascii_of_nat 47) (String (Ascii.ascii_of_nat 47) y))) in E.
    apply redact_head in E as (s1 & -> & E); [|done]. apply redact_head in E as (s2 & -> & E); [|done].
    apply redact_head in E as (s3 & -> & E); [|done]. by exists s3.
  - cbn [str_forall] in Hrun. apply andb_true_iff in Hrun as [Hc Hrun]. revert E.
    rewrite str_app_cons. destruct s as [|d s]; [done|].
    destruct (credential_match (String d s)) as [[n m]|] eqn:Em.
    + intros _. right. apply credential_match_Some in Em as (scheme & user & rest & Hs & Hu & _ & -> & _).
      exists scheme, user, rest. split_and!; [by apply is_scheme_chars|done|]. by rewrite <- !str_app_assoc.
    + rewrite redact_keep by done. intros [= -> E].
      destruct (IH s Hrun E) as [(y' & -> & ->)|(run' & user & rest & Hr & Hu & ->)].
      * left. by exists y'.
      * right. exists (String c run'), user, rest. cbn [str_forall]. by rewrite Hc, Hr.
Qed.

Lemma credential_url_intro scheme r :
  is_scheme scheme = true → after_last_at r ≠ None → credential_url (scheme +:+ "://" +:+ r).
Proof.
  intros Hs. destruct (after_last_at r) as [rest|] eqn:E; [|done]. intros _.
  apply after_last_at_spec in E as (user & -> & Hu & _). by exists scheme, user, rest.
Qed.

Lemma redact_cons c s :
  ¬ credential_url (String c s) → ¬ credential_url (String c (redactCredentials s)).
Proof.
  intros Hno (scheme & user & rest & Hs & Hu & E). destruct scheme as [|d run]; [done|].
  rewrite str_app_cons in E. injection E as <- E. apply Hno. pose proof Hs as Hs'.
  cbn [is_scheme] in Hs'. apply andb_true_iff in Hs' as [Hl Hrun].
  destruct (redact_scheme run s _ Hrun E) as [(y' & -> & Ey)|(run' & user' & rest' & Hr & Hu' & ->)].
  - rewrite <- str_app_cons. apply credential_url_intro; [done|]. intros H%redact_no_at.
    rewrite <- Ey in H. by apply after_last_at_found in H.
  - exists (String c run'), user', rest'. cbn [is_scheme]. by rewrite Hl, Hr, str_app_cons.
Qed.

(** A text no suffix of which begins with a credential URL. *)
Definition no_credential (s : string) : Prop := ∀ before t, s = before +:+ t → ¬ credential_url t.

Lemma no_credential_cons c s : ¬ credential_url (String c s) → no_credential s → no_credential (String c s).
Proof.
  intros Hc Hs [|d before] t E; [by change ("" +:+ t) with t in E; subst t|]. rewrite str_app_cons in E. injection E as <- E. by eapply Hs.
Qed.

Lemma no_credential_scheme run y :
  str_forall scheme_char run = true → after_last_at y = None → no_credential y → no_credential (run +:+ "://" +:+ y).
Proof.
  intros Hrun Ha Hy. induction run as [|c run IH].
  - change ("" +:+ "://" +:+ y) with
      (String (Ascii.ascii_of_nat 58) (String (Ascii.ascii_of_nat 47) (String (Ascii.ascii_of_nat 47) y))).
    repeat (apply no_credential_cons; [intros ([|d scheme] & ? & ? & Hs & _ & E); [done|];
      rewrite str_app_cons in E; by injection E as <- _|]). done.
  - pose proof Hrun as Hrun0. cbn [str_forall] in Hrun. apply andb_true_iff in Hrun as [Hc Hrun].
    rewrite str_app_cons. apply no_credential_cons; [|by apply IH].
    rewrite <- str_app_cons, <- credential_match_None. unfold credential_match.
    destruct (scheme_match _) as [r|] eqn:E; [|done]. rewrite str_app_cons in E. cbn [scheme_match] in E.
    destruct (letter c); [|done]. rewrite after_scheme_run in E by done. injection E as <-. by rewrite Ha.
Qed.

Lemma redact_clean s : no_credential (redactCredentials s).
Proof.
  revert s. apply redact_ind.
  - intros before t E ([|c scheme] & ? & ? & Hs & _ & ->); [done|]. by destruct before.
  - intros c t Hm -> IH. apply no_credential_cons; [|done]. by apply redact_cons, credential_match_None.
  - intros scheme user rest Hs _ Hr s _ E IH. rewrite E. apply no_credential_scheme; [by apply is_scheme_chars| |done].
    by apply redact_no_at.
Qed.

Lemma no_credential_app a b : no_credential (a +:+ b) → no_credential a ∧ no_credential b.
Proof.
  intros H. split; intros before t ->.
  - intros (scheme & user & rest & Hs & Hu & ->).
    apply (H before (scheme +:+ "://" +:+ user +:+ "@" +:+ rest +:+ b)); [by rewrite <- !str_app_assoc|].
    by exists scheme, user, (rest +:+ b).
  - apply (H (a +:+ before)). by rewrite str_app_assoc.
Qed.

(** Text without credentials is left alone. *)
Lemma redact_id s : no_credential s → redactCredentials s = s.
Proof.
  induction s as [|c s IH]; [done|]. intros H. rewrite redact_keep.
  - f_equal. apply IH. exact (proj2 (no_credential_app (String c "") s H)).
  - apply credential_match_None. by apply (H "").
Qed.

(** ** Incomplete output *)

Definition tail_url (s : string) : Prop :=
  ∃ scheme r, is_scheme scheme = true ∧ all_authority r = true ∧ r ≠ "" ∧ s = scheme +:+ "://" +:+ r.
Definition no_tail (s : string) : Prop := ∀ before t, s = before +:+ t → ¬ tail_url t.

Lemma str_take_app a b : str_take (String.length (a +:+ b) - String.length b) (a +:+ b) = a.
Proof.
  rewrite str_length_app. replace (String.length a + String.length b - String.length b)%nat with (String.length a) by lia.
  induction a as [|c a IH]; [by destruct b|]. rewrite str_app_cons. simpl. by rewrite IH.
Qed.

Lemma strip_tail_shape s :
  strip_tail s = s ∨ ∃ before scheme r, is_scheme scheme = true ∧
    s = before +:+ (scheme +:+ "://") +:+ r ∧ strip_tail s = before +:+ scheme +:+ "://".
Proof.
  induction s as [|c s IH]; [by left|]. cbn [strip_tail].
  destruct (scheme_match (String c s)) as [r|] eqn:E; [destruct (all_authority r)|].
  { apply scheme_match_spec in E as (scheme & Hs & E). rewrite E, str_app_assoc, str_take_app.
    right. by exists "", scheme, r. }
  all: destruct IH as [->|(before & scheme & r' & Hs & -> & ->)]; [by left|right].
  all: by exists (String c before), scheme, r'.
Qed.

Lemma all_authority_app a b : all_authority (a +:+ b) = all_authority a && all_authority b.
Proof. induction a as [|c a IH]; [done|]. rewrite str_app_cons. cbn [all_authority]. by rewrite IH, andb_assoc. Qed.

Lemma no_tail_cons c s : ¬ tail_url (String c s) → no_tail s → no_tail (String c s).
Proof.
  intros Hc Hs [|d before] t E; [by change ("" +:+ t) with t in E; subst t|].
  rewrite str_app_cons in E. injection E as <- E. by eapply Hs.
Qed.

Lemma no_tail_scheme run : str_forall scheme_char run = true → no_tail (run +:+ "://").
Proof.
  induction run as [|c run IH].
  - intros _ before t E (scheme & r & Hs & _ & Hr & ->).
    apply (f_equal String.length) in E. rewrite !str_length_app in E. destruct scheme, r; simpl in *; try done; lia.
  - intros Hrun. pose proof Hrun as Hrun0. cbn [str_forall] in Hrun. apply andb_true_iff in Hrun as [Hc Hrun].
    apply no_tail_cons; [|by apply IH]. change (String c (run +:+ "://")) with (String c run +:+ "://").
    intros (scheme & r & Hs & _ & Hr & E).
    pose proof (after_scheme_run scheme r (is_scheme_chars _ Hs)) as H1.
    pose proof (after_scheme_run (String c run) "" Hrun0) as H2.
    enough (Some r = Some "") by congruence.
    etrans; [symmetry; exact H1|]. etrans; [|exact H2]. f_equal. symmetry. exact E.
Qed.

(** What ends in a slash does not end in part of an authority. *)
Lemma slash_end_authority x y r :
  x +:+ "/" = y +:+ r → all_authority r = true → r ≠ "" → False.
Proof.
  intros E Ha Hne. destruct (str_app_split _ _ _ _ E) as [(e & _ & ->)|(e & _ & E2)].
  - rewrite all_authority_app in Ha. by destruct (all_authority e).
  - destruct e as [|d e]; [by change ("" +:+ r) with r in E2; subst r|].
    destruct e as [|d' e]; [|done]. destruct r; [done|]. discriminate E2.
Qed.

Lemma slash_end c before scheme' scheme r :
  String c (before +:+ scheme' +:+ "://") = scheme +:+ "://" +:+ r → all_authority r = true → r ≠ "" → False.
Proof.
  intros E. apply (slash_end_authority (String c (before +:+ scheme' +:+ ":/")) (scheme +:+ "://")).
  rewrite <- (str_app_assoc scheme), <- E. by rewrite str_app_cons, <- !str_app_assoc.
Qed.

Lemma strip_tail_clean s : no_tail (strip_tail s).
Proof.
  induction s as [|c s IH].
  { intros before t E (scheme & r & Hs & _ & _ & ->). destruct scheme as [|c scheme]; [done|]. by destruct before. }
  cbn [strip_tail].
  destruct (scheme_match (String c s)) as [r|] eqn:E; [destruct (all_authority r) eqn:Ha|].
  { apply scheme_match_spec in E as (scheme & Hs & E). rewrite E, str_app_assoc, str_take_app.
    by apply no_tail_scheme, is_scheme_chars. }
  all: apply no_tail_cons; [|done]; intros (scheme & r' & Hs & Hr' & Hne & E').
  all: destruct (strip_tail_shape s) as [Es|(before & scheme' & r2 & _ & _ & Es)]; rewrite Es in E'.
  - rewrite (proj2 (scheme_match_spec _ r')) in E by eauto. injection E as ->. congruence.
  - exfalso. revert E' Hr' Hne. apply slash_end.
  - by rewrite (proj2 (scheme_match_spec _ r')) in E by eauto.
  - exfalso. revert E' Hr' Hne. apply slash_end.
Qed.

(** ** Cutting the text into writes *)

Lemma line_end_outside c : line_end c = true →
  letter c = false ∧ scheme_char c = false ∧ authority_char c = false ∧ (∀ t, CutPrefix (String c t) "://" = None).
Proof.
  intros H. assert (Ascii.nat_of_ascii c = 10 ∨ Ascii.nat_of_ascii c = 13)%nat as Hc.
  { revert H. unfold line_end, byte_is. rewrite orb_true_iff, !Nat.eqb_eq. tauto. }
  destruct Hc as [Hc|Hc]; apply (f_equal Ascii.ascii_of_nat) in Hc;
    rewrite Ascii.ascii_nat_embedding in Hc; subst c; done.
Qed.

Section LineEnd.
Context (nl : Ascii.ascii) (Hnl : line_end nl = true).

Lemma after_last_at_line s b :
  after_last_at s = None → after_last_at (s +:+ String nl b) = None.
Proof using Hnl.
  destruct (line_end_outside nl Hnl) as (_ & _ & Ha & _).
  induction s as [|c s IH].
  - intros _. change ("" +:+ String nl b) with (String nl b). cbn [after_last_at]. by rewrite Ha.
  - rewrite str_app_cons. cbn [after_last_at]. destruct (authority_char c); [|done].
    destruct (after_last_at s); [done|]. destruct (is_at c); [done|]. intros _. by rewrite IH.
Qed.

Definition plain_char (c : Ascii.ascii) : bool := negb (line_end c).

Lemma url_plain scheme user :
  is_scheme scheme = true → all_authority user = true →
  str_forall plain_char (scheme +:+ "://" +:+ user +:+ "@") = true.
Proof.
  intros Hs Hu. rewrite !str_forall_app. change (str_forall plain_char "://") with true.
  change (str_forall plain_char "@") with true. rewrite andb_true_r. apply andb_true_iff. split.
  - eapply str_forall_impl; [|by apply is_scheme_chars]. intros c Hc. unfold plain_char.
    apply negb_true_iff, not_true_iff_false. intros H. apply line_end_outside in H as (? & ? & ? & _). congruence.
  - simpl. induction user as [|c user IH]; [done|]. cbn [all_authority str_forall] in *.
    apply andb_true_iff in Hu as [Hc Hu]. rewrite (IH Hu), andb_true_r.
    unfold plain_char. apply negb_true_iff, not_true_iff_false. intros H. apply line_end_outside in H as (? & ? & ? & _). congruence.
Qed.

Lemma credential_url_line s b : credential_url (s +:+ String nl b) → credential_url s.
Proof using Hnl.
  intros (scheme & user & rest & Hs & Hu & E).
  pose proof (url_plain scheme user Hs Hu) as Hp.
  assert (s +:+ String nl b = (scheme +:+ "://" +:+ user +:+ "@") +:+ rest) as E' by by rewrite <- !str_app_assoc.
  destruct (str_app_split _ _ _ _ E') as [(e & -> & _)|(e & E1 & E2)].
  - exists scheme, user, e. by rewrite <- !str_app_assoc.
  - destruct e as [|c e].
    + exists scheme, user, "". split_and!; [done..|].
      by rewrite str_app_nil_r in E1.
    + rewrite str_app_cons in E2. injection E2 as -> _. rewrite E1, str_forall_app in Hp.
      cbn [str_forall] in Hp. apply andb_true_iff in Hp as [_ Hp]. unfold plain_char in Hp. by rewrite Hnl in Hp.
Qed.

Lemma redact_line s b :
  redactCredentials (s +:+ String nl b) = redactCredentials s +:+ String nl (redactCredentials b).
Proof using Hnl.
  destruct (line_end_outside nl Hnl) as (Hl & _). revert s. apply redact_ind.
  - change (redactCredentials "") with "". rewrite !str_app_nil. apply redact_keep.
    unfold credential_match. cbn [scheme_match]. by rewrite Hl.
  - intros c t Hm -> IH. rewrite !str_app_cons, redact_keep; [by rewrite IH|].
    apply credential_match_None. rewrite <- str_app_cons. intros H%credential_url_line.
    by apply credential_match_None in Hm.
  - intros scheme user rest Hs Hu Hr s _ E IH. rewrite E. unfold s.
    rewrite <- !str_app_assoc, (str_app_assoc scheme), (str_app_assoc user), redact_match; [by rewrite IH|done|].
    apply credential_match_exact; [done..|]. by apply after_last_at_line.
Qed.
End LineEnd.

Fixpoint str_cat (l : list string) : string :=
  match l with [] => "" | s :: l => s +:+ str_cat l end.

Lemma str_cat_app l l' : str_cat (l ++ l') = str_cat l +:+ str_cat l'.
Proof. induction l as [|s l IH]; [done|]. cbn [str_cat app]. by rewrite IH, str_app_assoc. Qed.

Lemma cut_segment_spec s seg rest :
  cut_segment s = Some (seg, rest) →
  ∃ front nl, line_end nl = true ∧ seg = front +:+ String nl "" ∧ s = front +:+ String nl rest.
Proof.
  revert seg. induction s as [|c s IH]; intros seg; [done|]. cbn [cut_segment].
  destruct (line_end c) eqn:Hc; [intros [= <- <-]; by exists "", c|].
  destruct (cut_segment s) as [[seg' rest']|]; [|done]. intros [= <- ->].
  destruct (IH seg' eq_refl) as (front & nl & Hnl & -> & ->). by exists (String c front), nl.
Qed.

(** Text whose redaction is independent of what follows. *)
Definition ends_line (s : string) : Prop := s = "" ∨ ∃ front nl, line_end nl = true ∧ s = front +:+ String nl "".

Lemma redact_ends_line s t :
  ends_line s → redactCredentials (s +:+ t) = redactCredentials s +:+ redactCredentials t.
Proof.
  intros [->|(front & nl & Hnl & ->)]; [done|].
  rewrite <- str_app_assoc, str_app_cons, !redact_line by done. by rewrite <- str_app_assoc, str_app_cons.
Qed.

(** What was written is the redaction of what was given, up to what the buffer holds. *)
Definition follows (given : string) (c : credentialRedactingWriter) : Prop :=
  ∃ front, ends_line front ∧ given = front +:+ crw_buf c ∧ str_cat (crw_out c) = redactCredentials front.

(** A writer after some writes. *)
Definition new_writer : credentialRedactingWriter := {| crw_buf := ""; crw_out := [] |}.
Definition write_all sink (chunks : list string) : credentialRedactingWriter :=
  fold_left (λ c p, (credentialRedactingWriter_Write sink c p).1) chunks new_writer.
Definition all_good : list string → string → bool := λ _ _, true.

Lemma flush_segments_follows fuel given c :
  follows given c → (String.length (crw_buf c) ≤ fuel)%nat →
  let '(c', good) := flush_segments all_good fuel c in
  good = true ∧ cut_segment (crw_buf c') = None ∧ follows given c'.
Proof.
  revert c. induction fuel as [|fuel IH]; intros c Hc Hf; cbn [flush_segments].
  - split_and!; [done| |done]. destruct (crw_buf c); simpl in *; [done|lia].
  - destruct (cut_segment (crw_buf c)) as [[seg rest]|] eqn:E; [|done]. cbn zeta. cbn [all_good].
    apply cut_segment_spec in E as (front & nl & Hnl & Es & Eb). apply IH.
    + destruct Hc as (d & Hd & -> & Eo). exists (d +:+ seg). rewrite Eb, Es. simpl. split_and!.
      * right. exists (d +:+ front), nl. by rewrite <- str_app_assoc.
      * by rewrite <- !str_app_assoc, str_app_cons.
      * rewrite str_cat_app, Eo. simpl. by rewrite str_app_nil_r, (redact_ends_line d).
    + rewrite Eb, str_length_app in Hf. simpl in *. lia.
Qed.

Lemma write_all_follows chunks :
  follows (str_cat chunks) (write_all all_good chunks) ∧ cut_segment (crw_buf (write_all all_good chunks)) = None.
Proof.
  unfold write_all. induction chunks as [|p chunks IH] using rev_ind.
  { split; [|done]. exists "". split_and!; [by left|done..]. }
  rewrite fold_left_app, str_cat_app. cbn [fold_left str_cat]. rewrite str_app_nil_r.
  set (w := fold_left _ chunks new_writer) in *. destruct IH as [(d & Hd & E & Eo) _].
  unfold credentialRedactingWriter_Write. cbn zeta. set (w1 := w <| crw_buf ::= _ |>).
  assert (follows (str_cat chunks +:+ p) w1) as H1.
  { exists d. split_and!; [done| |done]. rewrite E. subst w1. simpl. by rewrite str_app_assoc. }
  pose proof (flush_segments_follows _ _ w1 H1 (le_n _)) as H.
  destruct (flush_segments _ _ w1) as [c' good]. tauto.
Qed.

Lemma flush_segments_redacted sink fuel c :
  Forall no_credential (crw_out c) → Forall no_credential (crw_out (flush_segments sink fuel c).1).
Proof.
  revert c. induction fuel as [|fuel IH]; intros c H; [done|]. cbn [flush_segments].
  destruct (cut_segment (crw_buf c)) as [[seg rest]|]; [|done]. cbn zeta.
  destruct (sink _ _); [|done]. apply IH. simpl.
  apply Forall_app. split; [done|]. repeat constructor. apply redact_clean.
Qed.

Lemma write_all_redacted sink chunks : Forall no_credential (crw_out (write_all sink chunks)).
Proof.
  unfold write_all. induction chunks as [|p chunks IH] using rev_ind; [constructor|].
  rewrite fold_left_app. cbn [fold_left]. apply flush_segments_redacted. exact IH.
Qed.

(** However the output of a command is cut into writes, what the redacting writer has
    passed on after the final flush is, in all, the redaction of the whole output, and
    the buffer never holds a finished line; and whatever writes fail, no piece it passes
    on holds a URL with userinfo. *)
Theorem redacting_writer_streams (sink : list string → string → bool) (chunks : list string) :
  (let w := write_all all_good chunks in
   str_cat (crw_out (credentialRedactingWriter_Flush all_good w).1) = redactCredentials (str_cat chunks) ∧
   cut_segment (crw_buf w) = None) ∧
  Forall no_credential (crw_out (credentialRedactingWriter_Flush sink (write_all sink chunks)).1).
Proof.
  split.
  - destruct (write_all_follows chunks) as [(d & Hd & -> & Eo) Hc]. cbn zeta. split; [|done].
    set (w := write_all _ _) in *. unfold credentialRedactingWriter_Flush.
    rewrite (redact_ends_line d) by done.
    destruct (String.eqb_spec (crw_buf w) "") as [E|E]; cbn zeta; cbn [fst].
    + rewrite Eo, E. change (redactCredentials "") with "". by rewrite str_app_nil_r.
    + simpl. rewrite str_cat_app, Eo. simpl. by rewrite str_app_nil_r.
  - pose proof (write_all_redacted sink chunks) as H. unfold credentialRedactingWriter_Flush.
    destruct (String.eqb _ _); [done|]. cbn zeta. simpl. destruct (sink _ _); [|done].
    apply Forall_app. split; [done|]. repeat constructor. apply redact_clean.
Qed.

(** C17: Redacted text holds no URL with userinfo anywhere, whatever the text was, and the
    redaction of incomplete output also does not end inside the authority of a URL;
    text without userinfo is kept as it is. *)
Theorem redaction_complete (s : string) (incomplete : bool) :
  no_credential (redactHookOutput s incomplete) ∧
  (incomplete = true → no_tail (redactHookOutput s incomplete)) ∧
  (no_credential s → redactCredentials s = s).
Proof.
  unfold redactHookOutput. cbn zeta. split_and!; [|intros ->; apply strip_tail_clean|apply redact_id].
  pose proof (redact_clean s) as H. destruct incomplete; [|done]. revert H. generalize (redactCredentials s).
  intros t H. destruct (strip_tail_shape t) as [->|(before & scheme & r & _ & E & ->)]; [done|].
  rewrite E, str_app_assoc in H. by apply no_credential_app in H as [H _].
Qed.

(** ** Agreement with MaskCloneURL's splitting rule *)

Definition not_space (c : Ascii.ascii) : bool := negb (re_space c).

Lemma cut_index_scheme run r :
  str_forall scheme_char run = true → cut_index "://" (run +:+ "://" +:+ r) = Some (run, "://" +:+ r).
Proof.
  induction run as [|c run IH]; [by destruct r|]. cbn [str_forall]. intros [Hc Hrun]%andb_true_iff.
  rewrite str_app_cons. cbn [cut_index].
  assert (HasPrefix (String c (run +:+ "://" +:+ r)) "://" = false) as ->; [|by rewrite IH].
  apply not_true_iff_false. intros (x & E)%HasPrefix_spec.
  change ("://" +:+ x) with (String (Ascii.ascii_of_nat 58) ("//" +:+ x)) in E. injection E as -> _. done.
Qed.

(** The authority and the tail of what follows the scheme. *)
Lemma cut_any_authority s :
  str_forall not_space s = true →
  let (authority, tail) := cut_any s in
  s = authority +:+ tail ∧
  after_last_at s = match after_at authority with Some host => Some (host +:+ tail) | None => None end.
Proof.
  induction s as [|c s IH]; [done|]. cbn [str_forall cut_any]. intros [Hc Hs]%andb_true_iff.
  destruct (url_delimiter c) eqn:Hd.
  - split; [done|]. cbn [after_at after_last_at]. unfold authority_char. unfold url_delimiter in Hd. by rewrite Hd.
  - specialize (IH Hs). destruct (cut_any s) as [authority tail]. destruct IH as [E1 E2].
    rewrite str_app_cons, <- E1. split; [done|]. cbn [after_at after_last_at].
    assert (authority_char c = true) as ->.
    { unfold authority_char. unfold url_delimiter in Hd. unfold not_space in Hc. apply negb_true_iff in Hc.
      by rewrite Hd, Hc. }
    rewrite E2. destruct (after_at authority); [done|]. rewrite E1. by destruct (is_at c).
Qed.

(** On a URL without white space, the redaction of text removes what the splitting
    rule of MaskCloneURL removes, the userinfo up to the last "@" of the authority,
    unless more URLs with userinfo follow in it. *)
Theorem redaction_agrees_with_mask (scheme rest : string)
    (Hscheme : is_scheme scheme = true) (Hspace : str_forall not_space rest = true)
    (Hrest : no_credential (stripCloneURLUserinfo (scheme +:+ "://" +:+ rest))) :
  redactCredentials (scheme +:+ "://" +:+ rest) = stripCloneURLUserinfo (scheme +:+ "://" +:+ rest).
Proof.
  revert Hrest. unfold stripCloneURLUserinfo. rewrite cut_index_scheme by by apply is_scheme_chars.
  assert (CutPrefix ("://" +:+ rest) "://" = Some rest) as -> by by destruct rest.
  pose proof (cut_any_authority rest Hspace) as H. destruct (cut_any rest) as [authority tail].
  destruct H as [E Ha]. destruct (after_at authority) as [host|]; [|by apply redact_id].
  intros Hclean. pose proof Ha as Ha'. apply after_last_at_spec in Ha' as (user & -> & Hu & Hr).
  rewrite (str_app_assoc scheme), (str_app_assoc user), redact_match; [|done|by apply credential_match_exact].
  rewrite redact_id; [done|]. apply (no_credential_app (scheme +:+ "://")). by rewrite <- str_app_assoc.
Qed.

Lemma no_credential_redacted s : redactCredentials s = s → no_credential s.
Proof. intros <-. apply redact_clean. Qed.

Lemma redaction_agrees_with_mask_witness :
  redactCredentials "https://bot:p@ss@host/a@b" = "https://host/a@b".
Proof.
  refine (redaction_agrees_with_mask "https" "bot:p@ss@host/a@b" _ _ _); [reflexivity..|].
  apply no_credential_redacted. reflexivity.
Defined.
