(* ===== verification/TemplateProps.v ===== *)
(** * What rendering a template does

    [Doc] is the syntax of templates, [select] and [fill] a reference semantics by
    recursion on it; [render_meets_reference] says that the text-rewriting of [Render]
    computes it on every printed document.  For arbitrary text, the loop over the [if]
    tags ends by its own test and leaves no tag ([if_pass_ends]), and a rendered template
    had no unresolved variable ([render_strict]). *)

From S2P Require Import Prelude Tracker Payload GoStd Template Hashes.

(** ** Slices *)

Lemma substring_length n m s : (String.length (String.substring n m s) ≤ m)%nat.
Proof.
  revert n m. induction s as [|c s IH]; intros [|n] [|m]; cbn [String.substring String.length]; try lia.
  - specialize (IH 0%nat m). lia.
  - specialize (IH n 0%nat). lia.
  - specialize (IH n (S m)). lia.
Qed.
Lemma substring_short n m s : (String.length (String.substring n m s) ≤ String.length s - n)%nat.
Proof.
  revert n m. induction s as [|c s IH]; intros [|n] [|m]; cbn [String.substring String.length]; try lia.
  - specialize (IH 0%nat m). lia.
  - specialize (IH n 0%nat). lia.
  - specialize (IH n (S m)). lia.
Qed.
Lemma slice_short s lo hi : (String.length (slice s lo hi) ≤ String.length s)%nat.
Proof. unfold slice. pose proof (substring_short lo (hi - lo) s). lia. Qed.
Lemma slice_width s lo hi : (String.length (slice s lo hi) ≤ hi - lo)%nat.
Proof. apply substring_length. Qed.
Lemma slice_from_length s lo : (String.length (slice_from s lo) ≤ String.length s - lo)%nat.
Proof. apply substring_short. Qed.

Lemma substring_0_app a b : String.substring 0 (String.length a) (a +:+ b) = a.
Proof.
  induction a as [|c a IH]; [by destruct b|].
  rewrite str_app_cons. cbn [String.substring String.length]. by rewrite IH.
Qed.
Lemma substring_skip a b n m : String.substring (String.length a + n) m (a +:+ b) = String.substring n m b.
Proof. induction a as [|c a IH]; [done|]. rewrite str_app_cons. cbn [String.substring String.length Nat.add]. exact IH. Qed.
(** The middle of three parts. *)
Lemma slice_app a b c lo hi :
  lo = String.length a → hi = (lo + String.length b)%nat → slice (a +:+ b +:+ c) lo hi = b.
Proof.
  intros -> ->. unfold slice. rewrite <- (Nat.add_0_r (String.length a)) at 1.
  rewrite substring_skip. replace (_ - _)%nat with (String.length b) by lia. apply substring_0_app.
Qed.
Lemma slice_from_app a b lo : lo = String.length a → slice_from (a +:+ b) lo = b.
Proof.
  intros ->. unfold slice_from, slice. rewrite str_length_app.
  replace (_ - _)%nat with (String.length b) by lia.
  pose proof (substring_skip a b 0 (String.length b)) as Hs. rewrite Nat.add_0_r in Hs. rewrite Hs.
  pose proof (substring_0_app b "") as H. by rewrite str_app_nil_r in H.
Qed.
Lemma slice_head a b hi : hi = String.length a → slice (a +:+ b) 0 hi = a.
Proof. intros ->. unfold slice. rewrite Nat.sub_0_r. apply substring_0_app. Qed.

(** ** Matches *)

(** Where the matches are. *)
Lemma find_all_bounds d skip pos s m :
  m ∈ find_all d skip pos s →
  (pos ≤ m_start m ∧ m_start m < m_end m ∧ m_end m ≤ pos + String.length s)%nat.
Proof.
  revert skip pos. induction s as [|c s IH]; intros skip pos; cbn [find_all String.length];
    [by intros H%elem_of_nil|].
  destruct skip as [|skip]; [|intros H%IH; lia].
  destruct (match_here d (String c s)) as [[run n]|] eqn:Hm; [|intros H%IH; lia].
  apply match_here_bounds in Hm. cbn [String.length] in Hm.
  intros [->|H]%elem_of_cons; [cbn [m_start m_end]; lia|apply IH in H; lia].
Qed.
Lemma FindAll_bounds d s m :
  m ∈ FindAll d s → (m_start m < m_end m ∧ m_end m ≤ String.length s)%nat.
Proof. intros H%find_all_bounds. lia. Qed.
Lemma Find_in d s m : Find d s = Some m → m ∈ FindAll d s.
Proof. unfold Find. destruct (FindAll d s); [done|]. intros [= ->]. left. Qed.

(** Bytes of a match are passed over, and so is text in which none starts. *)
Lemma find_all_skip d pos a s :
  find_all d (String.length a) pos (a +:+ s) = find_all d 0 (pos + String.length a) s.
Proof.
  revert pos. induction a as [|c a IH]; intros pos; [by rewrite str_app_nil, Nat.add_0_r|].
  rewrite str_app_cons. cbn [String.length find_all]. rewrite IH. f_equal. lia.
Qed.
Fixpoint no_start (open : string) (a s : string) : Prop :=
  match a with
  | EmptyString => True
  | String c t => CutPrefix (a +:+ s) open = None ∧ no_start open t s
  end.
Lemma find_all_text d pos a s :
  no_start (d_open d) a s → find_all d 0 pos (a +:+ s) = find_all d 0 (pos + String.length a) s.
Proof.
  revert pos. induction a as [|c a IH]; intros pos; [by rewrite str_app_nil, Nat.add_0_r|].
  intros [Hc Ha]. rewrite str_app_cons in *. cbn [find_all]. unfold match_here. rewrite Hc.
  rewrite IH by done. f_equal. cbn [String.length]. lia.
Qed.

(** A delimited run is a match. *)
Lemma span_run P run rest :
  str_forall P run = true → (∀ c t, rest = String c t → P c = false) → span P (run +:+ rest) = (run, rest).
Proof.
  intros Hr Hc. induction run as [|c run IH]; rewrite ?str_app_nil, ?str_app_cons; cbn [span].
  - destruct rest as [|c t]; [done|]. cbn [span]. by rewrite (Hc c t).
  - cbn [str_forall] in Hr. apply andb_prop in Hr as [Hp Hr]. rewrite Hp, IH by done. done.
Qed.
Definition closes (d : Delims) : Prop :=
  match d_close d with EmptyString => False | String c _ => d_class d c = false end.
Lemma match_here_run d run rest :
  closes d → run ≠ "" → str_forall (d_class d) run = true →
  match_here d (d_open d +:+ run +:+ d_close d +:+ rest)
  = Some (run, String.length (d_open d) + String.length run + String.length (d_close d))%nat.
Proof.
  intros Hc Hr Hp. unfold match_here. rewrite CutPrefix_of, span_run; [|done|].
  - destruct (String.eqb_spec run ""); [done|]. by rewrite HasPrefix_app.
  - unfold closes in Hc. intros c t. destruct (d_close d) as [|c' t']; [done|].
    rewrite str_app_cons. by intros [= <- _].
Qed.

(** ** The loop over the if tags *)

Section Props.
Variable ParseFloat : string → option float64.
Variable float_text : float64 → string.
Variable time_text : Time → string.
Notation step := (render_if_step ParseFloat float_text time_text).
Notation loop := (render_if_tags ParseFloat float_text time_text).
Notation condition := (evalLiquidCondition ParseFloat float_text time_text).

Lemma find_endif_in depth ms lo hi :
  find_endif depth ms = Some (lo, hi) → ∃ m, m ∈ ms ∧ m_start m = lo ∧ m_end m = hi.
Proof.
  revert depth. induction ms as [|m ms IH]; intros depth; cbn [find_endif]; [done|].
  assert (Hlater : ∀ k, find_endif k ms = Some (lo, hi) →
    ∃ m', m' ∈ m :: ms ∧ m_start m' = lo ∧ m_end m' = hi).
  { intros k (m' & Hin & Hm)%IH. exists m'. split; [by right|done]. }
  repeat case_match; try apply Hlater. intros [= <- <-]. exists m. split; [by left|done].
Qed.
Lemma findLiquidEndif_bounds t lo hi :
  findLiquidEndif t = Some (lo, hi) → (lo < hi ≤ String.length t)%nat.
Proof. intros (m & Hin & <- & <-)%find_endif_in. apply FindAll_bounds in Hin. lia. Qed.

(** A branch is a part of the body, and so is the text chosen. *)
Lemma split_short tag body :
  Forall (λ b, String.length (br_body b) ≤ String.length body)%nat (splitLiquidBranches tag body).
Proof.
  unfold splitLiquidBranches.
  set (P := λ st, Forall (λ b, String.length (br_body b) ≤ String.length body)%nat (ss_done st)).
  assert (Hfold : ∀ ms st, P st → P (fold_left (split_step body) ms st)).
  { induction ms as [|m ms IH]; intros st Hst; [done|]. cbn [fold_left]. apply IH.
    unfold split_step, P in *. repeat case_match; cbn [ss_done]; try done;
    (apply Forall_app; split; [done|]; constructor; [apply slice_short|constructor]). }
  apply Forall_app. split; [apply Hfold; constructor|].
  constructor; [|constructor]. apply slice_short.
Qed.
Lemma choose_short vars n bs out :
  Forall (λ b, String.length (br_body b) ≤ n)%nat bs →
  choose_branch ParseFloat float_text time_text vars bs = inr out → (String.length out ≤ n)%nat.
Proof.
  induction 1 as [|b bs Hb _ IH]; cbn [choose_branch]; [intros [= <-]; cbn; lia|].
  repeat case_match; try done; by intros [= <-].
Qed.

(** An iteration shortens the text. *)
Lemma step_shrinks vars t next :
  step vars t = inr (inr next) → (String.length next < String.length t)%nat.
Proof.
  unfold render_if_step. destruct (Find liquidTagRE t) as [m|] eqn:Hf; [|done].
  pose proof (FindAll_bounds _ _ _ (Find_in _ _ _ Hf)) as Hm.
  repeat case_match; try done. intros [= <-].
  match goal with H : findLiquidEndif _ = Some _ |- _ => apply findLiquidEndif_bounds in H end.
  match goal with H : renderLiquidIfBody _ _ _ _ _ _ = inr _ |- _ =>
    apply (choose_short _ _ _ _ (split_short _ _)) in H end.
  pose proof (slice_width t 0 (m_start m)). pose proof (slice_from_length t (m_end m)).
  repeat match goal with H : context [slice t (m_end m) ?hi] |- _ =>
    lazymatch goal with K : (String.length (slice t (m_end m) hi) ≤ _)%nat |- _ => fail | _ =>
    pose proof (slice_width t (m_end m) hi) end end.
  rewrite !str_length_app.
  match goal with |- context [slice_from t (m_end m + ?k)] => pose proof (slice_from_length t (m_end m + k)) end.
  lia.
Qed.
Lemma step_final vars t out : step vars t = inr (inl out) → out = t ∧ Find liquidTagRE out = None.
Proof.
  unfold render_if_step. destruct (Find liquidTagRE t) as [m|] eqn:Hf; [|by intros [= <-]].
  repeat case_match; done.
Qed.
Lemma step_no_fuel vars t : step vars t ≠ inl NoFuel.
Proof. unfold render_if_step. repeat case_match; done. Qed.

(** More fuel than the text is long changes nothing. *)
Lemma loop_fuel vars fuel fuel' t :
  (String.length t < fuel)%nat → (fuel ≤ fuel')%nat → loop fuel' vars t = loop fuel vars t.
Proof.
  revert fuel' t. induction fuel as [|fuel IH]; intros fuel' t Hl Hf; [lia|].
  destruct fuel' as [|fuel']; [lia|]. cbn [render_if_tags].
  destruct (step vars t) as [e|[out|next]] eqn:Hs; [done..|].
  apply step_shrinks in Hs. apply IH; lia.
Qed.

(** The pass over the if tags of any text ends by the loop's own test, not for want
    of the model's fuel, and the text it returns holds no tag any more. *)
Theorem if_pass_ends vars t :
  renderLiquidIfTags ParseFloat float_text time_text t vars ≠ inl NoFuel
  ∧ ∀ out, renderLiquidIfTags ParseFloat float_text time_text t vars = inr out →
           Find liquidTagRE out = None ∧ (String.length out ≤ String.length t)%nat.
Proof.
  unfold renderLiquidIfTags.
  enough (∀ fuel s, (String.length s < fuel)%nat →
    loop fuel vars s ≠ inl NoFuel
    ∧ ∀ out, loop fuel vars s = inr out →
             Find liquidTagRE out = None ∧ (String.length out ≤ String.length s)%nat) as H by (apply H; lia).
  induction fuel as [|fuel IH]; intros s Hl; [lia|]. cbn [render_if_tags].
  destruct (step vars s) as [e|[out|next]] eqn:Hs.
  - split; [|done]. intros [= ->]. by eapply step_no_fuel.
  - apply step_final in Hs as [-> Hf]. split; [done|]. by intros ? [= <-].
  - apply step_shrinks in Hs. destruct (IH next) as [H1 H2]; [lia|]. split; [done|].
    intros out Hout. apply H2 in Hout as [? ?]. split; [done|lia].
Qed.

(** ** Interpolations *)

Notation interp := (interpolation float_text time_text).
Notation replace := (replace_all float_text time_text).

Lemma replace_keeps_error vars skip s e : (replace vars skip s (Some e)).2 = Some e.
Proof.
  revert skip. induction s as [|c s IH]; intros [|skip]; cbn [replace_all]; try apply IH; try done.
  destruct (match_here liquidInterpolationRE (String c s)) as [[run n]|];
    [specialize (IH (n - 1)%nat)|specialize (IH 0%nat)]; by destruct (replace _ _ _ _).
Qed.

(** Without an error every match was replaced by its text. *)
Lemma replace_all_matches vars skip pos s :
  (replace vars skip s None).2 = None →
  Forall (λ m, ∃ text, interp vars (m_run m) = inr text) (find_all liquidInterpolationRE skip pos s).
Proof.
  revert skip pos. induction s as [|c s IH]; intros skip pos; [constructor|].
  cbn [replace_all find_all]. destruct skip as [|skip]; [|apply IH].
  destruct (match_here liquidInterpolationRE (String c s)) as [[run n]|].
  - destruct (interp vars run) as [e|text] eqn:He.
    + pose proof (replace_keeps_error vars (n - 1) s e) as Hk.
      destruct (replace vars (n - 1) s (Some e)) as [out err]. cbn [snd] in *. congruence.
    + specialize (IH (n - 1)%nat (S pos)). destruct (replace vars (n - 1) s None) as [out err].
      intros H. constructor; [by exists text|by apply IH].
  - specialize (IH 0%nat (S pos)). by destruct (replace vars 0 s None).
Qed.
(** An interpolation with a text names a variable that is there, or has a default. *)
Lemma interpolation_strict vars run text name filters :
  interp vars run = inr text → Split bar (TrimSpace run) = name :: filters →
  (is_Some (lookupTemplateVar vars (TrimSpace name)) ∨ hasDefaultFilter filters = true)
  ∧ ∃ v, apply_filters float_text time_text (default VNil (lookupTemplateVar vars (TrimSpace name))) filters = inr v.
Proof.
  unfold interpolation. intros H Hs. rewrite Hs in H.
  destruct (lookupTemplateVar vars (TrimSpace name)) as [v|];
    destruct (hasDefaultFilter filters); try done;
    destruct (apply_filters _ _ _ _) as [e|v']; try done; eauto.
Qed.

(** Strict variables.  When [Render] returns a text, every interpolation left in the
    template after its if tags names a variable that the map resolves, or has a
    [default] filter, and each of its filters applied. *)
Theorem render_strict template vars out :
  Render ParseFloat float_text time_text template vars = inr out →
  ∃ mid, renderLiquidIfTags ParseFloat float_text time_text
           (if blank template then DefaultPrompt else template) vars = inr mid ∧
    ∀ m name filters, m ∈ FindAll liquidInterpolationRE mid →
      Split bar (TrimSpace (m_run m)) = name :: filters →
      (is_Some (lookupTemplateVar vars (TrimSpace name)) ∨ hasDefaultFilter filters = true)
      ∧ ∃ v, apply_filters float_text time_text (default VNil (lookupTemplateVar vars (TrimSpace name))) filters = inr v.
Proof.
  unfold Render. destruct (renderLiquidIfTags _ _ _ _ _) as [[]|mid]; try done.
  intros H. exists mid. split; [done|]. intros m name filters Hm.
  pose proof (replace_all_matches vars 0 0 mid) as Hall.
  destruct (replace vars 0 mid None) as [text [e|]]; [done|].
  eapply Forall_forall in Hall as [t Ht]; [|done|exact Hm]. by apply interpolation_strict with t.
Qed.
End Props.

Definition strict_vars : Vars := [("x", VString "1")].
Lemma render_strict_witness :
  ∃ mid, renderLiquidIfTags (λ _, None) (λ _, "") (λ _, "") "{{ x }}{{ y | default: 2 }}" strict_vars = inr mid
  ∧ ∀ m name filters, m ∈ FindAll liquidInterpolationRE mid → Split bar (TrimSpace (m_run m)) = name :: filters →
      is_Some (lookupTemplateVar strict_vars (TrimSpace name)) ∨ hasDefaultFilter filters = true.
Proof.
  destruct (render_strict (λ _, None) (λ _, "") (λ _, "") "{{ x }}{{ y | default: 2 }}" strict_vars "12")
    as (mid & H & Hm); [reflexivity|].
  exists mid. split; [exact H|]. intros m name filters Hin Hs. exact (proj1 (Hm m name filters Hin Hs)).
Defined.
Lemma if_pass_ends_witness :
  renderLiquidIfTags (λ _, None) (λ _, "") (λ _, "") "{% if x %}{{ x }}{% endif %}" strict_vars ≠ inl NoFuel
  ∧ Find liquidTagRE "{{ x }}" = None.
Proof.
  destruct (if_pass_ends (λ _, None) (λ _, "") (λ _, "") strict_vars "{% if x %}{{ x }}{% endif %}") as [H1 H2].
  split; [exact H1|]. apply (H2 "{{ x }}"). reflexivity.
Defined.

(** Every field of SPEC §4.1.1 resolves, whatever the issue. *)
Definition issue_fields : list string :=
  ["id"; "identifier"; "title"; "description"; "priority"; "state"; "branch_name"; "url"; "labels";
   "blocked_by"; "created_at"; "updated_at"].
Lemma issue_fields_resolve issue f vars :
  f ∈ issue_fields → is_Some (lookupTemplateVar (("issue", VMap (IssueRenderVars issue)) :: vars) ("issue." +:+ f))
                     ∨ is_Some (assoc vars ("issue." +:+ f)).
Proof.
  intros Hf. unfold issue_fields in Hf. rewrite !elem_of_cons in Hf.
  unfold lookupTemplateVar. destruct_or! Hf; subst; cbn [assoc];
    repeat match goal with |- context [String.eqb ?a ?b] => change (String.eqb a b) with false; cbn iota end;
    try (destruct (assoc vars _); [right; eauto|left; eexists; reflexivity]).
  by apply elem_of_nil in Hf.
Qed.

(** * A reference semantics of templates

    [Doc] is the syntax of a template: text, interpolations and nested [if] tags with
    their [elsif] and [else] arms.  [select] picks the branches and [fill] replaces the
    interpolations, both by recursion on the syntax; [render_meets_reference] shows that
    [Render], which finds tags and interpolations by searching the text, computes them on
    the printed document. *)


(** ** Syntax *)

Inductive Doc :=
| DNil
| DText (text : string) (rest : Doc)
| DVar (run : string) (rest : Doc)
| DIf (cond : string) (body : Doc) (arms : Arms) (rest : Doc)
with Arms :=
| AEnd
| AElse (body : Doc)
| AElsif (cond : string) (body : Doc) (arms : Arms).
Scheme Doc_mind := Induction for Doc Sort Prop
with Arms_mind := Induction for Arms Sort Prop.
Combined Scheme Doc_Arms_ind from Doc_mind, Arms_mind.

Definition tag_text (tag : string) : string := "{% " +:+ tag +:+ " %}".
Definition var_text (run : string) : string := "{{" +:+ run +:+ "}}".
Fixpoint print (d : Doc) : string :=
  match d with
  | DNil => ""
  | DText text rest => text +:+ print rest
  | DVar run rest => var_text run +:+ print rest
  | DIf cond body arms rest =>
      tag_text ("if " +:+ cond) +:+ print body +:+ print_arms arms +:+ tag_text "endif" +:+ print rest
  end
with print_arms (a : Arms) : string :=
  match a with
  | AEnd => ""
  | AElse body => tag_text "else" +:+ print body
  | AElsif cond body arms => tag_text ("elsif " +:+ cond) +:+ print body +:+ print_arms arms
  end.

(** Text in which no tag and no interpolation starts, nor begins at its end. *)
Fixpoint text_ok (s : string) : bool :=
  match s with
  | EmptyString => true
  | String c t =>
      (if byte_is 123 c
       then match t with EmptyString => false | String c' _ => negb (byte_is 123 c' || byte_is 37 c') end
       else true) && text_ok t
  end.
Definition run_ok (run : string) : bool :=
  str_forall (d_class liquidInterpolationRE) run
  && match run with EmptyString => false | String c _ => negb (byte_is 37 c) end.
Definition cond_ok (cond : string) : bool :=
  str_forall (d_class liquidTagRE) cond && String.eqb (TrimSpace cond) cond && negb (String.eqb cond "").
Fixpoint doc_ok (d : Doc) : bool :=
  match d with
  | DNil => true
  | DText text rest => text_ok text && doc_ok rest
  | DVar run rest => run_ok run && doc_ok rest
  | DIf cond body arms rest => cond_ok cond && doc_ok body && arms_ok arms && doc_ok rest
  end
with arms_ok (a : Arms) : bool :=
  match a with
  | AEnd => true
  | AElse body => doc_ok body
  | AElsif cond body arms => cond_ok cond && doc_ok body && arms_ok arms
  end.

(** What is left when the branches are chosen. *)
Inductive Piece := PText (text : string) | PVar (run : string).
Fixpoint print_pieces (ps : list Piece) : string :=
  match ps with
  | [] => ""
  | PText text :: ps => text +:+ print_pieces ps
  | PVar run :: ps => var_text run +:+ print_pieces ps
  end.
Definition piece_ok (p : Piece) : bool := match p with PText t => text_ok t | PVar run => run_ok run end.

(** ** Semantics *)

Section Spec.
Variable ParseFloat : string → option float64.
Variable float_text : float64 → string.
Variable time_text : Time → string.
Variable vars : Vars.
Notation condition := (evalLiquidCondition ParseFloat float_text time_text vars).
Notation interp := (interpolation float_text time_text vars).

Definition then_select (r : RenderErr + list Piece) (k : RenderErr + list Piece) : RenderErr + list Piece :=
  match r with
  | inl e => inl e
  | inr ps => match k with inl e => inl e | inr qs => inr (ps ++ qs) end
  end.
(** Branches are chosen from left to right, inside the chosen branch first. *)
Fixpoint select (d : Doc) : RenderErr + list Piece :=
  match d with
  | DNil => inr []
  | DText text rest => then_select (inr [PText text]) (select rest)
  | DVar run rest => then_select (inr [PVar run]) (select rest)
  | DIf cond body arms rest =>
      then_select
        match condition cond with
        | inl e => inl e
        | inr true => select body
        | inr false => select_arms arms
        end (select rest)
  end
with select_arms (a : Arms) : RenderErr + list Piece :=
  match a with
  | AEnd => inr []
  | AElse body => select body
  | AElsif cond body arms =>
      match condition cond with
      | inl e => inl e
      | inr true => select body
      | inr false => select_arms arms
      end
  end.
(** Each interpolation becomes the text of its value, which is not read again. *)
Fixpoint fill (ps : list Piece) : RenderErr + string :=
  match ps with
  | [] => inr ""
  | PText text :: ps => match fill ps with inl e => inl e | inr out => inr (text +:+ out) end
  | PVar run :: ps =>
      match interp run with
      | inl e => inl e
      | inr text => match fill ps with inl e => inl e | inr out => inr (text +:+ out) end
      end
  end.
End Spec.

(** ** Searching printed text *)

Lemma no_start_app open a b s : no_start open a (b +:+ s) → no_start open b s → no_start open (a +:+ b) s.
Proof.
  induction a as [|c a IH]; rewrite ?str_app_nil, ?str_app_cons; cbn [no_start]; [done|].
  intros [Hc Ha] Hb. split; [|by apply IH]. by rewrite <- Hc, !str_app_cons, str_app_assoc.
Qed.
Lemma no_start_forall open P a s :
  match open with EmptyString => False | String c _ => P c = false end →
  str_forall P a = true → no_start open a s.
Proof.
  intros Ho. induction a as [|c a IH]; cbn [str_forall no_start]; [done|].
  intros [Hp Ha]%andb_prop. split; [|by apply IH].
  destruct open as [|o open]; [done|]. rewrite str_app_cons. cbn [CutPrefix].
  destruct (Ascii.eqb_spec o c) as [->|]; [congruence|done].
Qed.

Lemma byte_is_inj n c : byte_is n c = true → c = Ascii.ascii_of_nat n.
Proof. unfold byte_is. intros <-%Nat.eqb_eq. by rewrite Ascii.ascii_nat_embedding. Qed.
(** No delimiter starts in such text. *)
Lemma text_no_start open c2 t s :
  open = String (Ascii.ascii_of_nat 123) (String c2 "") → (byte_is 123 c2 || byte_is 37 c2) = true →
  text_ok t = true → no_start open t s.
Proof.
  intros -> Hc2. induction t as [|c t IH]; cbn [text_ok no_start]; [done|].
  intros [Hc Ht]%andb_prop. split; [|by apply IH].
  rewrite str_app_cons. cbn [CutPrefix].
  destruct (Ascii.eqb_spec (Ascii.ascii_of_nat 123) c) as [<-|]; [|done].
  change (byte_is 123 (Ascii.ascii_of_nat 123)) with true in Hc. cbn [CutPrefix].
  destruct t as [|c' t]; [done|]. rewrite str_app_cons. cbn [CutPrefix].
  destruct (Ascii.eqb_spec c2 c') as [->|]; [|done]. rewrite Hc2 in Hc. done.
Qed.
Lemma text_no_tag t s : text_ok t = true → no_start "{%" t s.
Proof. by apply (text_no_start _ (Ascii.ascii_of_nat 37)). Qed.
Lemma text_no_var t s : text_ok t = true → no_start "{{" t s.
Proof. by apply (text_no_start _ (Ascii.ascii_of_nat 123)). Qed.
Lemma var_no_tag run s : run_ok run = true → no_start "{%" (var_text run) s.
Proof.
  unfold run_ok. intros [Hall Hhd]%andb_prop. destruct run as [|c run]; [done|].
  unfold var_text. rewrite !str_app_cons, !str_app_nil. cbn [no_start].
  split; [done|]. split.
  - rewrite !str_app_cons. cbn [CutPrefix].
    match goal with |- context [Ascii.eqb ?a c] => destruct (Ascii.eqb_spec a c) as [<-|] end; done.
  - apply (no_start_app "{%" (String c run) "}}" s).
    + by apply (no_start_forall _ (d_class liquidInterpolationRE)).
    + done.
Qed.

(** ** The tags of a document *)

Lemma trim_right_space s : trim_right (s +:+ " ") = trim_right s.
Proof. induction s as [|c s IH]; [done|]. rewrite str_app_cons. cbn [trim_right]. by rewrite IH. Qed.
Lemma trim_left_space s : trim_left (" " +:+ s) = trim_left s.
Proof. reflexivity. Qed.
Lemma trim_left_length s : (String.length (trim_left s) ≤ String.length s)%nat.
Proof. induction s as [|c s IH]; cbn [trim_left String.length]; [done|]. destruct (is_space c); cbn [String.length]; lia. Qed.
Lemma trim_right_length s : (String.length (trim_right s) ≤ String.length s)%nat.
Proof.
  induction s as [|c s IH]; cbn [trim_right String.length]; [done|].
  destruct (trim_right s); [destruct (is_space c)|]; cbn [String.length] in *; lia.
Qed.
Lemma trimmed_parts s : TrimSpace s = s → trim_left s = s ∧ trim_right s = s.
Proof.
  unfold TrimSpace. intros H. enough (trim_left s = s) as Hl by (split; [done|]; by rewrite Hl in H).
  destruct s as [|c s]; [done|]. cbn [trim_left] in *. destruct (is_space c); [|done].
  pose proof (trim_right_length (trim_left s)) as Hr. rewrite H in Hr. pose proof (trim_left_length s).
  cbn [String.length] in Hr. lia.
Qed.

(** A tag that is found as it was printed. *)
Definition good_tag (t : string) : Prop :=
  str_forall (d_class liquidTagRE) t = true ∧ TrimSpace (" " +:+ t +:+ " ") = t.
Lemma keyword_good pre cond :
  trim_left pre = pre → pre ≠ "" → str_forall (d_class liquidTagRE) pre = true → cond_ok cond = true →
  good_tag (pre +:+ cond).
Proof.
  unfold cond_ok. intros Hpre Hne Hc [[Hall Ht%String.eqb_eq]%andb_prop Hn%negb_true_iff%String.eqb_neq]%andb_prop.
  apply trimmed_parts in Ht as [_ Ht]. split; [by rewrite str_forall_app, Hc, Hall|].
  unfold TrimSpace. rewrite trim_left_space.
  destruct pre as [|c pre]; [done|]. cbn [trim_left] in Hpre. rewrite !str_app_cons. cbn [trim_left].
  destruct (is_space c) eqn:E.
  { pose proof (trim_left_length pre) as Hl. rewrite Hpre in Hl. cbn [String.length] in Hl. lia. }
  rewrite <- !str_app_cons, trim_right_space. by apply trim_right_app.
Qed.
Lemma if_good cond : cond_ok cond = true → good_tag ("if " +:+ cond).
Proof. by apply keyword_good. Qed.
Lemma elsif_good cond : cond_ok cond = true → good_tag ("elsif " +:+ cond).
Proof. by apply keyword_good. Qed.
Lemma endif_good : good_tag "endif".
Proof. split; reflexivity. Qed.
Lemma else_good : good_tag "else".
Proof. split; reflexivity. Qed.

Definition tag_match (pos : nat) (tag : string) : Match :=
  {| m_start := pos; m_end := pos + String.length (tag_text tag); m_run := " " +:+ tag +:+ " " |}.
Lemma tag_of_match pos t : good_tag t → tag_of (tag_match pos t) = t.
Proof. by intros [_ H]. Qed.

Lemma find_all_match d pos a u run :
  match_here d (a +:+ u) = Some (run, String.length a) → a ≠ "" →
  find_all d 0 pos (a +:+ u)
  = {| m_start := pos; m_end := pos + String.length a; m_run := run |} :: find_all d 0 (pos + String.length a) u.
Proof.
  intros Hm Ha. destruct a as [|c a]; [done|]. rewrite str_app_cons in *. cbn [find_all]. rewrite Hm.
  cbn [String.length]. replace (S (String.length a) - 1)%nat with (String.length a) by lia.
  f_equal. rewrite find_all_skip. f_equal. lia.
Qed.
Lemma find_all_tag pos t u :
  good_tag t →
  find_all liquidTagRE 0 pos (tag_text t +:+ u)
  = tag_match pos t :: find_all liquidTagRE 0 (pos + String.length (tag_text t)) u.
Proof.
  intros [Hc Ht]. apply find_all_match; [|done].
  pose proof (match_here_run liquidTagRE (" " +:+ t +:+ " ") u) as H.
  unfold tag_text. change (d_open liquidTagRE) with "{%" in H. change (d_close liquidTagRE) with "%}" in H.
  replace (("{% " +:+ t +:+ " %}") +:+ u) with ("{%" +:+ (" " +:+ t +:+ " ") +:+ "%}" +:+ u)
    by (rewrite <- !str_app_assoc; reflexivity).
  rewrite H; [|done|done|].
  - do 2 f_equal. rewrite !str_length_app. cbn [String.length]. lia.
  - by rewrite !str_forall_app, Hc.
Qed.

(** The matches of the tag expression in a printed document, from an offset on. *)
Fixpoint doc_matches (pos : nat) (d : Doc) : list Match :=
  match d with
  | DNil => []
  | DText text rest => doc_matches (pos + String.length text) rest
  | DVar run rest => doc_matches (pos + String.length (var_text run)) rest
  | DIf cond body arms rest =>
      let p1 := (pos + String.length (tag_text ("if " +:+ cond)))%nat in
      let p2 := (p1 + String.length (print body))%nat in
      let p3 := (p2 + String.length (print_arms arms))%nat in
      tag_match pos ("if " +:+ cond) :: doc_matches p1 body ++ arms_matches p2 arms
        ++ tag_match p3 "endif" :: doc_matches (p3 + String.length (tag_text "endif")) rest
  end
with arms_matches (pos : nat) (a : Arms) : list Match :=
  match a with
  | AEnd => []
  | AElse body => tag_match pos "else" :: doc_matches (pos + String.length (tag_text "else")) body
  | AElsif cond body arms =>
      let p1 := (pos + String.length (tag_text ("elsif " +:+ cond)))%nat in
      tag_match pos ("elsif " +:+ cond) :: doc_matches p1 body
        ++ arms_matches (p1 + String.length (print body)) arms
  end.

Lemma find_all_doc_arms :
  (∀ d pos u, doc_ok d = true →
     find_all liquidTagRE 0 pos (print d +:+ u)
     = doc_matches pos d ++ find_all liquidTagRE 0 (pos + String.length (print d)) u)
  ∧ (∀ a pos u, arms_ok a = true →
     find_all liquidTagRE 0 pos (print_arms a +:+ u)
     = arms_matches pos a ++ find_all liquidTagRE 0 (pos + String.length (print_arms a)) u).
Proof.
  assert (Hpos : ∀ p q u, p = q → find_all liquidTagRE 0 p u = find_all liquidTagRE 0 q u) by congruence.
  apply Doc_Arms_ind.
  - intros pos u _. cbn [print doc_matches String.length app]. by rewrite str_app_nil, Nat.add_0_r.
  - intros text rest IH pos u [Ht Hd]%andb_prop. cbn [print doc_matches].
    rewrite <- str_app_assoc, find_all_text by by apply text_no_tag.
    rewrite IH by done. f_equal. apply Hpos. rewrite str_length_app. lia.
  - intros run rest IH pos u [Ht Hd]%andb_prop. cbn [print doc_matches].
    rewrite <- str_app_assoc, find_all_text by by apply var_no_tag.
    rewrite IH by done. f_equal. apply Hpos. rewrite (str_length_app (var_text run)). lia.
  - intros cond body IHb arms IHa rest IHr pos u Hok. cbn [doc_ok] in Hok.
    apply andb_prop in Hok as [[[Hc Hb]%andb_prop Ha]%andb_prop Hr]. cbn [print doc_matches].
    rewrite <- !str_app_assoc, find_all_tag by by apply if_good.
    rewrite IHb, IHa, find_all_tag, IHr by (done || apply endif_good).
    rewrite <- app_comm_cons, <- !app_assoc, <- app_comm_cons. do 5 f_equal. apply Hpos.
    rewrite !(str_length_app (tag_text _)), !str_length_app. lia.
  - intros pos u _. cbn [print_arms arms_matches String.length app]. by rewrite str_app_nil, Nat.add_0_r.
  - intros body IH pos u Hok. cbn [print_arms arms_matches arms_ok] in *.
    rewrite <- str_app_assoc, find_all_tag by apply else_good. rewrite IH by done.
    rewrite <- app_comm_cons. do 2 f_equal. apply Hpos. rewrite (str_length_app (tag_text _)). lia.
  - intros cond body IHb arms IHa pos u Hok. cbn [print_arms arms_matches arms_ok] in *.
    apply andb_prop in Hok as [[Hc Hb]%andb_prop Ha].
    rewrite <- !str_app_assoc, find_all_tag by by apply elsif_good. rewrite IHb, IHa by done.
    rewrite <- app_comm_cons, <- !app_assoc. do 3 f_equal. apply Hpos.
    rewrite (str_length_app (tag_text _)), !str_length_app. lia.
Qed.
Lemma FindAll_print d u :
  doc_ok d = true →
  FindAll liquidTagRE (print d +:+ u) = doc_matches 0 d ++ find_all liquidTagRE 0 (String.length (print d)) u.
Proof. intros H. by apply find_all_doc_arms. Qed.

(** ** Finding the end and the arms of an if *)

Lemma is_if_cond cond : is_if ("if " +:+ cond) = true.
Proof. apply HasPrefix_app. Qed.
Lemma is_if_elsif cond : is_if ("elsif " +:+ cond) = false.
Proof. reflexivity. Qed.
Lemma endif_elsif cond : String.eqb ("elsif " +:+ cond) "endif" = false.
Proof. reflexivity. Qed.

Lemma find_endif_doc_arms :
  (∀ d k pos ms, doc_ok d = true → find_endif (S k) (doc_matches pos d ++ ms) = find_endif (S k) ms)
  ∧ (∀ a k pos ms, arms_ok a = true → find_endif (S k) (arms_matches pos a ++ ms) = find_endif (S k) ms).
Proof.
  apply Doc_Arms_ind; try done.
  - intros text rest IH k pos ms [_ Hd]%andb_prop. by apply IH.
  - intros run rest IH k pos ms [_ Hd]%andb_prop. by apply IH.
  - intros cond body IHb arms IHa rest IHr k pos ms Hok. cbn [doc_ok] in Hok.
    apply andb_prop in Hok as [[[Hc Hb]%andb_prop Ha]%andb_prop Hr]. cbn [doc_matches].
    rewrite <- app_comm_cons, <- !app_assoc, <- app_comm_cons. cbn [find_endif].
    rewrite tag_of_match, is_if_cond by by apply if_good. rewrite IHb, IHa by done.
    cbn [find_endif]. rewrite tag_of_match by apply endif_good. cbn. by apply IHr.
  - intros body IH k pos ms Hok. cbn [arms_matches]. rewrite <- app_comm_cons. cbn [find_endif].
    rewrite tag_of_match by apply else_good. cbn. by apply IH.
  - intros cond body IHb arms IHa k pos ms Hok. cbn [arms_ok arms_matches] in *.
    apply andb_prop in Hok as [[Hc Hb]%andb_prop Ha].
    rewrite <- app_comm_cons, <- !app_assoc. cbn [find_endif].
    rewrite tag_of_match, is_if_elsif, endif_elsif by by apply elsif_good. by rewrite IHb, IHa.
Qed.

(** What stands between the tag of an if and its own endif. *)
Definition inside (body : Doc) (arms : Arms) : string := print body +:+ print_arms arms.
Lemma findLiquidEndif_print body arms u :
  doc_ok body = true → arms_ok arms = true →
  findLiquidEndif (inside body arms +:+ tag_text "endif" +:+ u)
  = Some (String.length (inside body arms), String.length (inside body arms) + String.length (tag_text "endif"))%nat.
Proof.
  intros Hb Ha. unfold findLiquidEndif, FindAll, inside. rewrite <- str_app_assoc.
  rewrite (proj1 find_all_doc_arms), (proj2 find_all_doc_arms), find_all_tag by (done || apply endif_good).
  rewrite (proj1 find_endif_doc_arms), (proj2 find_endif_doc_arms) by done. cbn [find_endif].
  rewrite tag_of_match by apply endif_good. rewrite str_length_app. reflexivity.
Qed.

(** A document does not move the split, at any depth; arms do not when nested. *)
Lemma split_doc_arms body0 :
  (∀ d pos st, doc_ok d = true → fold_left (split_step body0) (doc_matches pos d) st = st)
  ∧ (∀ a pos st, arms_ok a = true → ss_depth st ≠ 0%nat → fold_left (split_step body0) (arms_matches pos a) st = st).
Proof.
  apply Doc_Arms_ind; try done.
  - intros text rest IH pos st [_ Hd]%andb_prop. by apply IH.
  - intros run rest IH pos st [_ Hd]%andb_prop. by apply IH.
  - intros cond body IHb arms IHa rest IHr pos st Hok. cbn [doc_ok] in Hok.
    apply andb_prop in Hok as [[[Hc Hb]%andb_prop Ha]%andb_prop Hr]. cbn [doc_matches fold_left].
    rewrite fold_left_app, fold_left_app, IHb by done.
    assert (Hopen : split_step body0 st (tag_match pos ("if " +:+ cond))
      = {| ss_done := ss_done st; ss_cond := ss_cond st; ss_start := ss_start st; ss_depth := S (ss_depth st) |}).
    { unfold split_step. by rewrite tag_of_match, is_if_cond by by apply if_good. }
    rewrite Hopen, IHa by done. cbn [fold_left].
    unfold split_step at 2. rewrite tag_of_match by apply endif_good. cbn.
    rewrite Nat.sub_0_r, IHr by done. by destruct st.
  - intros body IH pos st Hok Hd. cbn [arms_matches fold_left].
    unfold split_step at 2. rewrite tag_of_match by apply else_good.
    rewrite (proj2 (Nat.eqb_neq _ _) Hd). cbn. by apply IH.
  - intros cond body IHb arms IHa pos st Hok Hd. cbn [arms_ok arms_matches fold_left] in *.
    apply andb_prop in Hok as [[Hc Hb]%andb_prop Ha]. rewrite fold_left_app.
    unfold split_step at 3. rewrite tag_of_match, is_if_elsif, endif_elsif by by apply elsif_good.
    rewrite (proj2 (Nat.eqb_neq _ _) Hd). cbn [andb]. by rewrite IHb, IHa.
Qed.

(** The branches of an if: the text after each of its own tags. *)
Fixpoint arm_branches (a : Arms) : list liquidBranch :=
  match a with
  | AEnd => []
  | AElse body => [{| br_cond := ""; br_body := print body |}]
  | AElsif cond body arms => {| br_cond := cond; br_body := print body |} :: arm_branches arms
  end.
Lemma cond_of_keyword pre cond : cond_ok cond = true → cond_of (pre +:+ cond) pre = cond.
Proof.
  unfold cond_ok, cond_of. rewrite CutPrefix_of. by intros [[_ H%String.eqb_eq]%andb_prop _]%andb_prop.
Qed.

Definition branches_of (body0 : string) (st : split_state) : list liquidBranch :=
  ss_done st ++ [{| br_cond := ss_cond st; br_body := slice_from body0 (ss_start st) |}].
(** A tag of an arm at depth zero closes the open branch. *)
Lemma split_close body0 pre seg u t cond st pos :
  body0 = pre +:+ seg +:+ u → ss_start st = String.length pre → ss_depth st = 0%nat →
  pos = (String.length pre + String.length seg)%nat →
  good_tag t → is_if t = false → String.eqb t "endif" = false →
  (HasPrefix t "elsif " = true ∧ cond = cond_of t "elsif "
   ∨ HasPrefix t "elsif " = false ∧ String.eqb t "else" = true ∧ cond = "") →
  split_step body0 st (tag_match pos t)
  = {| ss_done := ss_done st ++ [{| br_cond := ss_cond st; br_body := seg |}];
       ss_cond := cond; ss_start := pos + String.length (tag_text t); ss_depth := 0 |}.
Proof.
  intros -> Hs Hd -> Hg Hi He Hc. unfold split_step. rewrite tag_of_match, Hi, He, Hd, Hs by done. cbn [andb Nat.eqb].
  cbn [m_start m_end tag_match]. rewrite (slice_app pre seg u) by done.
  destruct Hc as [[-> ->]|(-> & -> & ->)]; done.
Qed.
Lemma split_arms a body0 pre seg st pos :
  arms_ok a = true → body0 = pre +:+ seg +:+ print_arms a →
  ss_start st = String.length pre → ss_depth st = 0%nat → pos = (String.length pre + String.length seg)%nat →
  branches_of body0 (fold_left (split_step body0) (arms_matches pos a) st)
  = ss_done st ++ {| br_cond := ss_cond st; br_body := seg |} :: arm_branches a.
Proof.
  revert pre seg st pos. induction a as [|body|cond body arms IH]; intros pre seg st pos Hok Hb Hs Hd Hp;
    cbn [arms_matches fold_left arm_branches print_arms arms_ok] in *.
  - unfold branches_of. rewrite Hb, Hs, str_app_nil_r. by rewrite slice_from_app.
  - rewrite (split_close body0 pre seg (tag_text "else" +:+ print body) _ "") by
      (done || apply else_good || (by right)).
    rewrite (proj1 (split_doc_arms body0)) by done. unfold branches_of. cbn [ss_done ss_cond ss_start].
    rewrite <- app_assoc. cbn [app]. do 4 f_equal. subst body0 pos.
    rewrite !str_app_assoc. apply slice_from_app. rewrite !str_length_app. lia.
  - apply andb_prop in Hok as [[Hc Hbody]%andb_prop Ha]. rewrite fold_left_app.
    rewrite (split_close body0 pre seg (tag_text ("elsif " +:+ cond) +:+ print body +:+ print_arms arms) _ cond).
    + rewrite (proj1 (split_doc_arms body0)) by done.
      rewrite (IH (pre +:+ seg +:+ tag_text ("elsif " +:+ cond)) (print body)); cbn [ss_done ss_cond ss_start ss_depth]; try done.
      * by rewrite <- app_assoc.
      * rewrite Hb. by rewrite <- !str_app_assoc.
      * rewrite !(str_length_app pre), !(str_length_app seg). lia.
      * rewrite !(str_length_app pre), !(str_length_app seg). lia.
    + done.
    + done.
    + done.
    + done.
    + by apply elsif_good.
    + done.
    + done.
    + left. split; [apply HasPrefix_app|]. by rewrite cond_of_keyword.
Qed.
Lemma splitLiquidBranches_print cond body arms :
  cond_ok cond = true → doc_ok body = true → arms_ok arms = true →
  splitLiquidBranches ("if " +:+ cond) (inside body arms)
  = {| br_cond := cond; br_body := print body |} :: arm_branches arms.
Proof.
  intros Hc Hb Ha. unfold splitLiquidBranches. rewrite cond_of_keyword by done.
  unfold inside. rewrite <- (str_app_nil_r (print_arms arms)).
  rewrite FindAll_print, (proj2 find_all_doc_arms), fold_left_app, (proj1 (split_doc_arms _)) by done.
  rewrite str_app_nil_r, app_nil_r.
  by apply (split_arms arms _ "" (print body)).
Qed.

(** ** The loop follows the syntax *)

Fixpoint doc_append (d e : Doc) : Doc :=
  match d with
  | DNil => e
  | DText text rest => DText text (doc_append rest e)
  | DVar run rest => DVar run (doc_append rest e)
  | DIf cond body arms rest => DIf cond body arms (doc_append rest e)
  end.
Lemma print_append d e : print (doc_append d e) = print d +:+ print e.
Proof. induction d; cbn [doc_append print]; rewrite ?IHd, ?IHd2, <- ?str_app_assoc; done. Qed.
Lemma ok_append d e : doc_ok d = true → doc_ok e = true → doc_ok (doc_append d e) = true.
Proof.
  intros Hd He. induction d; cbn [doc_append doc_ok] in *; [done|..]; apply andb_prop in Hd as [H1 H2]; apply andb_true_intro; auto.
Qed.
Lemma print_pieces_app ps qs : print_pieces (ps ++ qs) = print_pieces ps +:+ print_pieces qs.
Proof. induction ps as [|[t|r] ps IH]; cbn [app print_pieces]; rewrite ?IH, ?str_app_assoc; done. Qed.
Lemma pieces_no_tag ps s : forallb piece_ok ps = true → no_start "{%" (print_pieces ps) s.
Proof.
  induction ps as [|[t|run] ps IH]; cbn [forallb print_pieces]; [done|..]; intros [Hp Hps]%andb_prop;
    (apply no_start_app; [|by apply IH]); [by apply text_no_tag|by apply var_no_tag].
Qed.

Section Meets.
Variable ParseFloat : string → option float64.
Variable float_text : float64 → string.
Variable time_text : Time → string.
Variable vars : Vars.
Notation condition := (evalLiquidCondition ParseFloat float_text time_text vars).
Notation interp := (interpolation float_text time_text vars).
Notation step := (render_if_step ParseFloat float_text time_text vars).
Notation loop := (λ fuel, render_if_tags ParseFloat float_text time_text fuel vars).
Notation select := (select ParseFloat float_text time_text vars).
Notation select_arms := (select_arms ParseFloat float_text time_text vars).
Notation fill := (fill float_text time_text vars).

Lemma select_append d e : select (doc_append d e) = then_select (select d) (select e).
Proof.
  assert (Hassoc : ∀ r s t, then_select r (then_select s t) = then_select (then_select r s) t).
  { intros [?|?] [?|?] [?|?]; cbn; rewrite ?app_assoc; done. }
  induction d; cbn [doc_append Template.evalLiquidCondition TemplateProps.select];
    [by destruct (select e)|by rewrite IHd, Hassoc|by rewrite IHd, Hassoc|].
  by rewrite IHd2, Hassoc.
Qed.

Lemma select_if cond body arms rest :
  select (DIf cond body arms rest)
  = then_select match condition cond with inl e => inl e | inr true => select body
                                        | inr false => select_arms arms end (select rest).
Proof. reflexivity. Qed.

(** The document of the branch taken. *)
Fixpoint pick_arms (a : Arms) : RenderErr + Doc :=
  match a with
  | AEnd => inr DNil
  | AElse body => inr body
  | AElsif cond body arms =>
      match condition cond with inl e => inl e | inr true => inr body | inr false => pick_arms arms end
  end.
Definition pick (cond : string) (body : Doc) (arms : Arms) : RenderErr + Doc :=
  match condition cond with inl e => inl e | inr true => inr body | inr false => pick_arms arms end.
Lemma pick_arms_spec a :
  arms_ok a = true →
  choose_branch ParseFloat float_text time_text vars (arm_branches a)
  = match pick_arms a with inl e => inl e | inr d => inr (print d) end
  ∧ select_arms a = match pick_arms a with inl e => inl e | inr d => select d end
  ∧ (∀ d, pick_arms a = inr d → doc_ok d = true).
Proof.
  induction a as [|body|cond body arms IH]; intros Hok; cbn [arms_ok arm_branches choose_branch pick_arms TemplateProps.select_arms br_cond br_body] in *.
  - split_and!; [done..|]. by intros d [= <-].
  - split_and!; [done..|]. by intros d [= <-].
  - apply andb_prop in Hok as [[[_ Hne%negb_true_iff]%andb_prop Hb]%andb_prop Ha]. rewrite Hne.
    destruct (condition cond) as [e|[|]]; [done| |by apply IH].
    split_and!; [done..|]. by intros d [= <-].
Qed.
Lemma pick_spec cond body arms :
  cond_ok cond = true → doc_ok body = true → arms_ok arms = true →
  renderLiquidIfBody ParseFloat float_text time_text vars ("if " +:+ cond) (inside body arms)
  = match pick cond body arms with inl e => inl e | inr d => inr (print d) end
  ∧ (∀ rest, select (DIf cond body arms rest)
             = match pick cond body arms with inl e => inl e | inr d => select (doc_append d rest) end)
  ∧ (∀ d, pick cond body arms = inr d → doc_ok d = true).
Proof.
  intros Hc Hb Ha. unfold renderLiquidIfBody, pick. rewrite splitLiquidBranches_print by done.
  cbn [choose_branch br_cond br_body].
  pose proof Hc as [_ ->%negb_true_iff]%andb_prop.
  destruct (pick_arms_spec arms Ha) as (H1 & H2 & H3).
  setoid_rewrite select_if.
  destruct (condition cond) as [e|[|]]; [done| |].
  - split_and!; [done| |by intros d [= <-]]. intros rest. by rewrite select_append.
  - rewrite H1. split_and!; [done| |done]. intros rest. rewrite H2.
    destruct (pick_arms arms); [done|]. by rewrite select_append.
Qed.

(** One iteration on a document whose first tag is that of an if. *)
Lemma step_if ps cond body arms rest :
  forallb piece_ok ps = true → doc_ok (DIf cond body arms rest) = true →
  step (print_pieces ps +:+ print (DIf cond body arms rest))
  = match pick cond body arms with
    | inl e => inl (Plain e)
    | inr d => inr (inr (print_pieces ps +:+ print (doc_append d rest)))
    end.
Proof.
  intros Hps Hok. cbn [doc_ok] in Hok. apply andb_prop in Hok as [[[Hc Hb]%andb_prop Ha]%andb_prop Hr].
  assert (Hp : print (DIf cond body arms rest)
    = tag_text ("if " +:+ cond) +:+ inside body arms +:+ tag_text "endif" +:+ print rest).
  { cbn [print]. unfold inside. by rewrite <- !str_app_assoc. }
  rewrite Hp. unfold render_if_step, Find, FindAll.
  rewrite find_all_text, find_all_tag by (by apply if_good || by apply pieces_no_tag).
  cbn [head]. rewrite tag_of_match by by apply if_good.
  rewrite is_if_cond. change (String.eqb ("if " +:+ cond) "endif") with false. cbn [negb m_start m_end tag_match].
  set (tag := tag_text ("if " +:+ cond)).
  rewrite (str_app_assoc (print_pieces ps)).
  rewrite (slice_from_app (print_pieces ps +:+ tag)) by (rewrite str_length_app; lia).
  rewrite findLiquidEndif_print by done. rewrite (slice_app (print_pieces ps +:+ tag)) by (rewrite ?str_length_app; lia).
  destruct (pick_spec cond body arms Hc Hb Ha) as (-> & _ & _).
  destruct (pick cond body arms) as [e|d]; [done|]. do 2 f_equal.
  rewrite <- str_app_assoc, slice_head by done. f_equal.
  rewrite print_append. f_equal. rewrite !str_app_assoc. apply slice_from_app.
  rewrite !str_length_app. lia.
Qed.

Lemma loop_select fuel d ps :
  forallb piece_ok ps = true → doc_ok d = true →
  (String.length (print_pieces ps +:+ print d) < fuel)%nat →
  loop fuel (print_pieces ps +:+ print d)
  = match select d with inl e => inl (Plain e) | inr qs => inr (print_pieces (ps ++ qs)) end.
Proof.
  revert d ps. induction fuel as [|fuel IH]; intros d ps Hps Hok Hl; [lia|].
  revert ps Hps Hok Hl. induction d as [|t rest IHd|run rest IHd|cond body _ arms rest IHd]; intros ps Hps Hok Hl.
  - cbn [print TemplateProps.select]. rewrite str_app_nil_r, app_nil_r. cbn [render_if_tags].
    unfold render_if_step, Find, FindAll. pose proof (pieces_no_tag ps "" Hps) as Hn.
    apply (find_all_text liquidTagRE 0) in Hn. rewrite str_app_nil_r in Hn. rewrite Hn. done.
  - apply andb_prop in Hok as [Ht Hr]. specialize (IHd (ps ++ [PText t])).
    rewrite print_pieces_app in IHd. cbn [print_pieces print] in *. rewrite str_app_nil_r, <- str_app_assoc in IHd.
    rewrite IHd; [|by rewrite forallb_app, Hps; cbn; rewrite Ht|done..].
    cbn [TemplateProps.select then_select]. destruct (select rest); [done|]. by rewrite <- app_assoc.
  - apply andb_prop in Hok as [Ht Hr]. specialize (IHd (ps ++ [PVar run])).
    rewrite print_pieces_app in IHd. cbn [print_pieces print] in *. rewrite str_app_nil_r, <- str_app_assoc in IHd.
    rewrite IHd; [|by rewrite forallb_app, Hps; cbn; rewrite Ht|done..].
    cbn [TemplateProps.select then_select]. destruct (select rest); [done|]. by rewrite <- app_assoc.
  - cbn [render_if_tags]. pose proof (step_if ps cond body arms rest Hps Hok) as Hs. rewrite Hs.
    pose proof Hok as [[[Hc Hb]%andb_prop Ha]%andb_prop Hr]%andb_prop.
    destruct (pick_spec cond body arms Hc Hb Ha) as (_ & -> & Hpok).
    destruct (pick cond body arms) as [e|d]; [done|].
    apply step_shrinks in Hs. rewrite IH; [done|done| |lia]. apply ok_append; [by apply Hpok|done].
Qed.

(** ** The second pass fills the pieces *)

Notation replace := (replace_all float_text time_text vars).
Lemma replace_skip a u err : replace (String.length a) (a +:+ u) err = replace 0 u err.
Proof. induction a as [|c a IH]; [done|]. rewrite str_app_cons. exact IH. Qed.
Lemma replace_text t u err :
  no_start "{{" t u → replace 0 (t +:+ u) err = (t +:+ (replace 0 u err).1, (replace 0 u err).2).
Proof.
  induction t as [|c t IH]; [by rewrite !str_app_nil; destruct (replace 0 u err)|].
  intros [Hc Ht]. rewrite !str_app_cons in *. cbn [replace_all]. unfold match_here.
  change (d_open liquidInterpolationRE) with "{{". rewrite Hc, IH by done. done.
Qed.
Lemma replace_var run u :
  run_ok run = true →
  replace 0 (var_text run +:+ u) None
  = match interp run with
    | inl e => (var_text run +:+ (replace 0 u (Some e)).1, (replace 0 u (Some e)).2)
    | inr text => (text +:+ (replace 0 u None).1, (replace 0 u None).2)
    end.
Proof.
  intros [Hall Hhd]%andb_prop.
  pose proof (match_here_run liquidInterpolationRE run u) as Hm.
  assert (Hv : var_text run +:+ u = "{{" +:+ run +:+ "}}" +:+ u)
    by (unfold var_text; by rewrite <- !str_app_assoc).
  change (d_open liquidInterpolationRE +:+ run +:+ d_close liquidInterpolationRE +:+ u)
    with ("{{" +:+ run +:+ "}}" +:+ u) in Hm.
  rewrite <- Hv in Hm. specialize (Hm eq_refl). destruct run as [|c run]; [done|].
  specialize (Hm ltac:(done) Hall). set (r := String c run) in *.
  assert (Hn : String.length (var_text r)
    = (String.length (d_open liquidInterpolationRE) + String.length r + String.length (d_close liquidInterpolationRE))%nat)
    by (unfold var_text; rewrite !str_length_app; cbn [String.length d_open d_close liquidInterpolationRE]; lia).
  rewrite <- Hn in Hm.
  assert (Hs : var_text r = String (Ascii.ascii_of_nat 123) (str_tail (var_text r))) by done.
  rewrite Hs at 1. rewrite str_app_cons. cbn [replace_all]. rewrite <- str_app_cons, <- Hs, Hm.
  replace (String.length (var_text r) - 1)%nat with (String.length (str_tail (var_text r)))
    by (rewrite Hs at 2; cbn [String.length]; lia).
  rewrite slice_head by done.
  destruct (interp r) as [e|text]; rewrite replace_skip; by destruct (replace 0 u _).
Qed.
Lemma replace_fill ps :
  forallb piece_ok ps = true →
  match fill ps with
  | inl e => (replace 0 (print_pieces ps) None).2 = Some e
  | inr out => replace 0 (print_pieces ps) None = (out, None)
  end.
Proof.
  induction ps as [|[t|run] ps IH]; cbn [forallb piece_ok TemplateProps.fill print_pieces]; [done|..];
    intros [Hp Hps]%andb_prop; specialize (IH Hps).
  - rewrite replace_text by by apply text_no_var. destruct (fill ps) as [e|out]; [done|]. by rewrite IH.
  - rewrite replace_var by done. destruct (interp run) as [e|text].
    + cbn [snd]. apply (replace_keeps_error float_text time_text vars 0).
    + destruct (fill ps) as [e|out]; [done|]. by rewrite IH.
Qed.
Lemma then_select_inr r s ps :
  then_select r s = inr ps → ∃ qs rs, r = inr qs ∧ s = inr rs ∧ ps = qs ++ rs.
Proof. destruct r as [|qs], s as [|rs]; cbn; try done. intros [= <-]. eauto. Qed.
Lemma select_ok :
  (∀ d ps, doc_ok d = true → select d = inr ps → forallb piece_ok ps = true)
  ∧ (∀ a ps, arms_ok a = true → select_arms a = inr ps → forallb piece_ok ps = true).
Proof.
  apply Doc_Arms_ind; cbn [doc_ok arms_ok].
  - by intros ps _ [= <-].
  - intros t rest IH ps [Ht Hr]%andb_prop Hsel. change (then_select (inr [PText t]) (select rest) = inr ps) in Hsel.
    apply then_select_inr in Hsel as (qs & rs & [= <-] & Hs & ->).
    cbn [app forallb piece_ok]. rewrite Ht. by apply IH.
  - intros t rest IH ps [Ht Hr]%andb_prop Hsel. change (then_select (inr [PVar t]) (select rest) = inr ps) in Hsel.
    apply then_select_inr in Hsel as (qs & rs & [= <-] & Hs & ->).
    cbn [app forallb piece_ok]. rewrite Ht. by apply IH.
  - intros cond body IHb arms IHa rest IHr ps [[[Hc Hb]%andb_prop Ha]%andb_prop Hr]%andb_prop Hsel.
    rewrite select_if in Hsel. apply then_select_inr in Hsel as (qs & rs & Hq & Hs & ->).
    rewrite forallb_app, (IHr rs) by done. destruct (condition cond) as [e|[|]]; [done|..].
    + by rewrite (IHb qs).
    + by rewrite (IHa qs).
  - by intros ps _ [= <-].
  - intros body IH ps Hb Hs. by apply IH.
  - intros cond body IHb arms IHa ps [[Hc Hb]%andb_prop Ha]%andb_prop Hs. cbn in Hs.
    destruct (condition cond) as [e|[|]]; [done|by apply IHb|by apply IHa].
Qed.

(** C19: [Render] computes the reference semantics.  On the text of any well-formed
    template that is not blank, with any values, it returns exactly what choosing the
    branches by recursion on the syntax and then filling the interpolations one by one
    returns: nested ifs pair with their own arms and ends, a failing condition is
    reported before any missing variable, and the text of a value is never read as a
    tag or as an interpolation. *)
Theorem render_meets_reference d :
  doc_ok d = true → blank (print d) = false →
  Render ParseFloat float_text time_text (print d) vars
  = match select d with
    | inl e => inl (TemplateRenderError e)
    | inr ps => match fill ps with inl e => inl (TemplateRenderError e) | inr out => inr out end
    end.
Proof.
  intros Hok Hb. unfold Render, renderLiquidIfTags. rewrite Hb.
  pose proof (loop_select (S (String.length (print d))) d []) as Hl. cbn [print_pieces app] in Hl.
  rewrite str_app_nil in Hl. rewrite Hl by (done || lia).
  destruct (select d) as [e|ps] eqn:Hs; [done|].
  pose proof (replace_fill ps (proj1 select_ok d ps Hok Hs)) as Hf.
  destruct (fill ps) as [e|out].
  - destruct (replace 0 (print_pieces ps) None) as [o err]. cbn [snd] in Hf. by rewrite Hf.
  - by rewrite Hf.
Qed.
End Meets.

(** An if inside an arm, and a value that looks like a template. *)
Definition demo_doc : Doc :=
  DText "T: " (DIf "attempt > 1"
    (DIf "issue" (DVar " issue.title " DNil) (AElse (DText "none" DNil)) (DText "!" DNil))
    (AElsif "attempt == 1" (DText "first" DNil) (AElse (DText "new" DNil)))
    (DText " end" DNil)).
Definition demo_vars : Vars :=
  [("attempt", VInt 2); ("issue", VMap [("title", VString "{{ secret }}{% endif %}")])].
Definition demo_render : TemplateErr + string :=
  Render (λ _, None) (λ _, "") (λ _, "") (print demo_doc) demo_vars.
Lemma render_meets_reference_witness :
  doc_ok demo_doc = true ∧ blank (print demo_doc) = false
  ∧ demo_render = inr "T: {{ secret }}{% endif %}! end".
Proof.
  split_and!; [reflexivity..|]. unfold demo_render.
  rewrite (render_meets_reference (λ _, None) (λ _, "") (λ _, "") demo_vars demo_doc); reflexivity.
Defined.

(** ** Where the text is not what it seems *)

(** The comparison operator is looked for inside quoted literals too. *)
Lemma quoted_operator_is_cut :
  evalLiquidCondition (λ _, None) (λ _, "") (λ _, "") [("title", VString "x")] "title != 'a==b'"
  = inl (MissingVariable "title != 'a").
Proof. reflexivity. Qed.
(** There is no [for] tag. *)
Lemma for_is_unsupported :
  Render (λ _, None) (λ _, "") (λ _, "") "{% for l in issue.labels %}{{ l }}{% endfor %}" demo_vars
  = inl (TemplateParseError (UnsupportedTag "for l in issue.labels")).
Proof. reflexivity. Qed.
