(* ===== verification/GitCmd.v ===== *)
(** * Git commands, locks and the mirror cache

    internal/workspace/gitcmd.go, ownership_lock.go with its Unix half, mirror.go and
    mirror_lock_unix.go.  A git command is one call; [classifyGitContextErr] reads how it
    ended.  A lock is released by the program [release_*] of the descriptor it holds, as
    the source returns a closure; [deferred] is Go's defer.  [url_Parse] stands for
    net/url's parser, of which the code uses the host and the path, and [getwd] for the
    working directory. *)

From S2P Require Import Prelude GoStd Paths Sys Hashes WorkspaceKey.

(** ** Text *)

(** [strings.Split(s, "\n")]. *)
Fixpoint split_lines (s : string) : list string :=
  match s with
  | EmptyString => [""]
  | String c t =>
      if byte_is 10 c then "" :: split_lines t
      else match split_lines t with
           | [] => [String c ""]
           | w :: ws => String c w :: ws
           end
  end.

(** [strings.TrimSuffix(s, suffix)] and [strings.TrimPrefix(s, prefix)]. *)
Fixpoint TrimSuffix (s suffix : string) : string :=
  if String.eqb s suffix then ""
  else match s with EmptyString => "" | String c t => String c (TrimSuffix t suffix) end.
Definition TrimPrefix (s prefix : string) : string :=
  match CutPrefix s prefix with Some r => r | None => s end.

Fixpoint str_contains (s sub : string) : bool :=
  HasPrefix s sub || match s with String _ t => str_contains t sub | EmptyString => false end.

(** The text before and after the first [sub]. *)
Fixpoint str_cut (s sub : string) : option (string * string) :=
  match CutPrefix s sub with
  | Some r => Some ("", r)
  | None =>
      match s with
      | EmptyString => None
      | String c t => match str_cut t sub with Some (b, r) => Some (String c b, r) | None => None end
      end
  end.

(** ** Running git *)

Definition classifyGitContextErr (r : GitRun) : option Err :=
  match gr_Err r with
  | Some ErrWaitDelay => None
  | None => None
  | Some e =>
      match gr_Ctx r with
      | None => Some (FromRun e)
      | Some DeadlineExceeded => Some (Both "git operation exceeded budget" (FromRun e) (FromContext DeadlineExceeded))
      | Some cause => Some (Both "git operation canceled" (FromRun e) (FromContext cause))
      end
  end.

Fixpoint last_line (lines : list string) (fallback actionable : string) : string :=
  match lines with
  | [] => if negb (String.eqb actionable "") then actionable else fallback
  | raw :: lines =>
      let line := TrimSpace raw in
      if String.eqb line "" then last_line lines fallback actionable
      else last_line lines line
             (if HasPrefix line "fatal:" || HasPrefix line "error:" then line else actionable)
  end.
Definition lastActionableLine (s : string) : string := last_line (split_lines s) "" "".

Definition foldGitStderr (err : Err) (stderr : string) : Err :=
  let line := lastActionableLine stderr in
  if String.eqb line "" then err else Wrapped line err.

Definition finish (e : option Err) : Fallible unit :=
  match e with Some e => fail e | None => ok tt end.

Definition runGit (dir : string) (args : list string) : Fallible unit :=
  let* capture := call CreateTemp in
  if negb capture
  then let* r := call (Git Inherit dir args) in finish (classifyGitContextErr r)
  else
    let* r := call (Git Capture dir args) in
    match classifyGitContextErr r with
    | None => ok tt
    | Some runErr => fail (foldGitStderr runErr (gr_Stderr r))
    end.
Definition runGitRedacted (dir : string) (args : list string) : Fallible unit :=
  let* r := call (Git Redact dir args) in finish (classifyGitContextErr r).
Definition runGitQuiet (dir : string) (args : list string) : Fallible unit :=
  let* r := call (Git Discard dir args) in finish (classifyGitContextErr r).
Definition runGitOutput (dir : string) (args : list string) : Fallible string :=
  let* r := call (Git Output dir args) in
  match classifyGitContextErr r with Some e => fail e | None => ok (gr_Stdout r) end.

(** [_ = f()]. *)
Definition ignore {A} (p : Prog A) : Prog unit := prog_bind p (fun _ => Done tt).
(** [defer d()] around [p]. *)
Definition deferred {A} (d : Prog unit) (p : Prog A) : Prog A :=
  let* r := p in let* _ := d in Done r.

(** ** Locks on files *)

(** EWOULDBLOCK and EAGAIN. *)
Definition would_block (e : OsErr) : bool :=
  match e with EOther text => String.eqb text "resource temporarily unavailable" | ENotExist => false end.

(** [nonblock] tells the two users apart; the descriptor is what the closure holds. *)
Definition file_lock (lockPath : string) (nonblock : bool) : Fallible Fd :=
  let! _ := wrap_error "mkdir lock parent" (os_done (MkdirAll (Dir lockPath))) in
  let! fd := wrap_error "open lock" (os_value (OpenFile lockPath ["O_RDWR"; "O_CREATE"] 420)) in
  let* locked := call (Flock fd nonblock) in
  match locked with
  | None => ok fd
  | Some err =>
      let* _ := call (Close fd) in
      if nonblock && would_block err then fail ErrWorktreeOwnershipLockHeld
      else fail (Wrapped "flock" (FromOs err))
  end.
Definition release_file_lock (fd : Fd) : Prog unit :=
  let* _ := call (Funlock fd) in ignore (call (Close fd)).

Definition acquireWorktreeOwnershipFileLock (lockPath : string) (nonblock : bool) : Fallible Fd :=
  file_lock lockPath nonblock.

Definition worktreeOwnershipLockName : string := "aiops-owner.lock".

Definition worktreeOwnershipLockPath (workdir : string) : Fallible string :=
  let! out := wrap_error "resolve worktree git dir" (runGitOutput workdir ["rev-parse"; "--git-dir"]) in
  let gitDir := TrimSpace out in
  if String.eqb gitDir "" then fail (Message "resolve worktree git dir: empty path")
  else
    let gitDir := if negb (IsAbs gitDir) then Join [workdir; gitDir] else gitDir in
    ok (Join [gitDir; worktreeOwnershipLockName]).

Definition acquireWorktreeOwnership (workdir : string) : Fallible Fd :=
  let! lockPath := worktreeOwnershipLockPath workdir in
  acquireWorktreeOwnershipFileLock lockPath false.

Definition worktreeOwnershipLockHeld (workdir : string) : Prog bool :=
  let* lockPath := worktreeOwnershipLockPath workdir in
  match lockPath with
  | inl _ => Done true
  | inr lockPath =>
      let* release := acquireWorktreeOwnershipFileLock lockPath true in
      match release with
      | inr fd => let* _ := release_file_lock fd in Done false
      | inl _ => Done true
      end
  end.

(** ** The lock of a mirror: a mutex of the process, then a file *)

Definition acquireMirrorFileLock (mirror : string) : Fallible Fd := file_lock (mirror +:+ ".lock") false.

Definition acquireMirrorLock (mirror : string) : Fallible Fd :=
  let* _ := call (MutexLock mirror) in
  let* release := acquireMirrorFileLock mirror in
  match release with
  | inl err => let* _ := call (MutexUnlock mirror) in fail (Wrapped "acquire mirror lock" err)
  | inr fd => ok fd
  end.
Definition release_mirror_lock (mirror : string) (fd : Fd) : Prog unit :=
  let* _ := release_file_lock fd in call (MutexUnlock mirror).

(** ** Where mirrors are *)

Definition MirrorRoot (override : string) : Prog string :=
  if negb (String.eqb (TrimSpace override) "") then Done override
  else
    let* dir := call UserCacheDir in
    match dir with
    | Some dir => if negb (String.eqb dir "") then Done (Join [dir; "aiops-platform"; "mirrors"])
                  else let* tmp := call TempDir in Done (Join [tmp; "aiops-platform"; "mirrors"])
    | None => let* tmp := call TempDir in Done (Join [tmp; "aiops-platform"; "mirrors"])
    end.

Section Mirrors.
Context (url_Parse : string → option (string * string)) (getwd : option string).

Definition scp_style (cloneURL : string) : string * string :=
  match str_cut cloneURL "@" with
  | Some (_, rest) =>
      match str_cut rest ":" with
      | Some (host, path) => (host, path)
      | None => ("unknown", sanitizeComponent cloneURL)
      end
  | None => ("unknown", sanitizeComponent cloneURL)
  end.

Definition splitCloneURL (cloneURL : string) : string * string :=
  let cloneURL := TrimSpace cloneURL in
  if String.eqb cloneURL "" then ("unknown", "repo")
  else if str_contains cloneURL "://"
  then match url_Parse cloneURL with
       | Some (host, path) => (if String.eqb host "" then "unknown" else host, TrimPrefix path slash)
       | None => scp_style cloneURL
       end
  else scp_style cloneURL.

Definition pathContainedUnder (root path : string) : bool :=
  match Abs getwd root, Abs getwd path with
  | Some rootAbs, Some pathAbs =>
      match Rel rootAbs pathAbs with
      | None => false
      | Some rel =>
          if String.eqb rel "." || goes_up rel then false else negb (IsAbs rel)
      end
  | _, _ => false
  end.

Definition mirrorPathUnderRoot (root candidate cloneURL : string) : string :=
  if pathContainedUnder root candidate then candidate
  else Join [root; sanitizeComponent cloneURL +:+ ".git"].

Definition mirrorPathFor (root cloneURL : string) : string :=
  let (host, repoPath) := splitCloneURL cloneURL in
  let host := sanitizeComponent host in
  let repoPath := TrimSuffix repoPath ".git" in
  let parts := map sanitizeComponent (split_slash repoPath) in
  let repoPath := str_join slash parts in
  let candidate := Join [root; host; repoPath +:+ ".git"] in
  mirrorPathUnderRoot root candidate cloneURL.
End Mirrors.

(** ** Building and refreshing a mirror *)

Definition mirrorStagingSuffix : string := ".staging".
Definition fetch_refspec : string := "+refs/heads/*:refs/remotes/origin/*".

Definition clone_steps (cloneURL mirror staging : string) : Fallible string :=
  let! _ := wrap_error "clone mirror" (runGitRedacted (Dir mirror) ["clone"; "--bare"; cloneURL; staging]) in
  let! _ := wrap_error "configure fetch refspec" (runGit staging ["config"; "remote.origin.fetch"; fetch_refspec]) in
  let! _ := wrap_error "initial fetch" (runGitRedacted staging ["fetch"; "--prune"; "--tags"; "origin"]) in
  let! _ := wrap_error "enable worktree config" (runGit staging ["config"; "extensions.worktreeConfig"; "true"]) in
  let! _ := wrap_error "move mirror into place" (os_done (Rename staging mirror)) in
  ok mirror.

(** The deferred removal of the staging directory runs when the steps failed. *)
Definition cloneMirrorLocked (cloneURL mirror : string) : Fallible string :=
  let staging := mirror +:+ mirrorStagingSuffix in
  let* _ := call (RemoveAll staging) in
  let* _ := call (RemoveAll mirror) in
  let* r := clone_steps cloneURL mirror staging in
  match r with
  | inr mirror => ok mirror
  | inl err => let* _ := call (RemoveAll staging) in fail err
  end.

Definition ensureMirrorLocked (cloneURL mirror : string) : Fallible string :=
  let! _ := wrap_error "mkdir mirror parent" (os_done (MkdirAll (Dir mirror))) in
  let* head := call (Stat (Join [mirror; "HEAD"])) in
  match head with
  | inr _ =>
      let! _ := wrap_error "reassert fetch refspec"
        (runGit mirror ["config"; "--replace-all"; "remote.origin.fetch"; fetch_refspec]) in
      let! _ := wrap_error "refresh mirror" (runGitRedacted mirror ["fetch"; "--prune"; "--tags"; "origin"]) in
      let! _ := wrap_error "enable worktree config" (runGit mirror ["config"; "extensions.worktreeConfig"; "true"]) in
      ok mirror
  | inl _ => cloneMirrorLocked cloneURL mirror
  end.

Section EnsureMirror.
Context (url_Parse : string → option (string * string)) (getwd : option string).

(** [Manager.EnsureMirror], with the manager's MirrorRoot. *)
Definition EnsureMirror (override cloneURL : string) : Fallible string :=
  let* root := MirrorRoot override in
  let mirror := mirrorPathFor url_Parse getwd root cloneURL in
  let! fd := acquireMirrorLock mirror in
  deferred (release_mirror_lock mirror fd) (ensureMirrorLocked cloneURL mirror).
End EnsureMirror.
