(* ===== verification/Artifacts.v ===== *)
(** * Internal artifacts of a workspace

    internal/workspace/artifacts.go: the files under .aiops that must not be committed are
    listed in git's exclude file, blocked by a pre-commit hook of the worktree, and
    written through a descriptor that is no symbolic link and has one name.  The
    theorems: which lines the exclude file has afterwards, that a second run adds none,
    and what must hold before a byte of an artifact is written. *)

From S2P Require Import Prelude GoStd Paths Sys GitCmd.

Definition SensitiveArtifactFileMode : Z := 384.   (* 0o600 *)
Definition AllowedHandoffArtifactPaths : list string := [".aiops/PLAN.md"].
Definition sensitiveArtifactPaths : list string :=
  [".aiops/PROMPT.md"; ".aiops/TASK.md"; ".aiops/CODEX_OUTPUT.txt";
   ".aiops/CODEX_APP_SERVER_OUTPUT.txt"; ".aiops/CODEX_LAST_MESSAGE.md"].
Definition sensitiveArtifactExcludePatterns : list string := sensitiveArtifactPaths ++ [".aiops/logs/"].

Definition lf : string := byte 10.

Definition sensitiveArtifactPreCommitHook : string :=
  let patterns := map (fun path => "-e '" +:+ path +:+ "'") AllowedHandoffArtifactPaths in
  let q := byte 34 in let tab := byte 9 in
  "#!/bin/sh" +:+ lf +:+
  "blocked=$(git diff --cached --name-only --diff-filter=ACMRTUXB -- .aiops | grep -Fxv " +:+
  str_join " " patterns +:+ " || true)" +:+ lf +:+
  "if [ -n " +:+ q +:+ "$blocked" +:+ q +:+ " ]; then" +:+ lf +:+
  tab +:+ "printf '%s\n' " +:+ q +:+ "aiops-platform: staged internal .aiops artifact blocked:" +:+ q +:+ " >&2" +:+ lf +:+
  tab +:+ "printf '%s\n' " +:+ q +:+ "$blocked" +:+ q +:+ " >&2" +:+ lf +:+
  tab +:+ "exit 1" +:+ lf +:+ "fi" +:+ lf.

(** ** Writing an artifact *)

(** [f.Close()] on the way out with an error. *)
Definition close_and_fail {A} (fd : Fd) (err : Err) : Fallible A :=
  let* _ := call (Close fd) in fail err.

(** A file with several names is unlinked first; one that is not there is fine. *)
Definition unlink_shared (path : string) : Fallible unit :=
  let* info := call (Lstat path) in
  match info with
  | inr info =>
      match fi_Nlink info with
      | Some links => if 1 <? links then os_done (Remove path) else ok tt
      | None => ok tt
      end
  | inl err => if negb (os_IsNotExist err) then fail (FromOs err) else ok tt
  end.

Definition WriteSensitiveArtifact (path body : string) : Fallible unit :=
  let parent := Dir path in
  let! _ := os_done (MkdirAll parent) in
  let! info := os_value (Lstat parent) in
  if fi_IsSymlink info then fail (Message "sensitive artifact parent is a symlink")
  else
    let! _ := unlink_shared path in
    let! fd := os_value (OpenFile path ["O_WRONLY"; "O_CREATE"; "O_TRUNC"; "O_NOFOLLOW"] SensitiveArtifactFileMode) in
    let* info := call (Fstat fd) in
    match info with
    | inl err => close_and_fail fd (FromOs err)
    | inr info =>
        if match fi_Nlink info with Some links => 1 <? links | None => false end
        then close_and_fail fd (Message "sensitive artifact has several hard links")
        else
          let* written := call (FdWrite fd body) in
          match written with
          | Some err => close_and_fail fd (FromOs err)
          | None =>
              let* moded := call (Fchmod fd SensitiveArtifactFileMode) in
              match moded with
              | Some err => close_and_fail fd (FromOs err)
              | None => wrap_error "close sensitive artifact" (os_done (Close fd))
              end
          end
    end.

Definition WritePrompt (workdir prompt : string) : Fallible unit :=
  let dir := Join [workdir; ".aiops"] in
  let! _ := os_done (MkdirAll dir) in
  WriteSensitiveArtifact (Join [dir; "PROMPT.md"]) prompt.

(** ** Git's exclude file *)

Definition gitPath (workdir rel : string) : Fallible string :=
  let! out := wrap_error "resolve git path" (runGitOutput workdir ["rev-parse"; "--git-path"; rel]) in
  let path := TrimSpace out in
  if String.eqb path "" then fail (Message "resolve git path: empty path")
  else ok (if negb (IsAbs path) then Join [workdir; path] else path).

Definition missingSensitiveArtifactExcludes (existing : string) : list string :=
  let seen := map TrimSpace (split_lines existing) in
  List.filter (fun rel => negb (existsb (String.eqb rel) seen)) sensitiveArtifactExcludePatterns.

(** What [append] adds to the file, one write after the other. *)
Definition exclude_writes (existing : string) (add : list string) : list string :=
  (if negb (String.eqb existing "") && negb (HasSuffix existing lf) then [lf] else []) ++
  [str_join lf add +:+ lf].

Fixpoint write_each (fd : Fd) (texts : list string) : Fallible unit :=
  match texts with
  | [] => ok tt
  | text :: texts =>
      let* written := call (FdWrite fd text) in
      match written with
      | Some err => close_and_fail fd (FromOs err)
      | None => write_each fd texts
      end
  end.

Definition appendSensitiveArtifactExcludes (excludePath existing : string) (add : list string) : Fallible unit :=
  let! fd := os_value (OpenFile excludePath ["O_CREATE"; "O_WRONLY"; "O_APPEND"] 420) in
  let! _ := write_each fd (exclude_writes existing add) in
  wrap_error "close git exclude" (os_done (Close fd)).

Definition ensureSensitiveArtifactExcludeFile (workdir : string) : Fallible unit :=
  let! excludePath := gitPath workdir "info/exclude" in
  let! _ := os_done (MkdirAll (Dir excludePath)) in
  let* read := call (ReadFile excludePath) in
  match match read with inr text => inr text | inl err => if os_IsNotExist err then inr "" else inl err end with
  | inl err => fail (FromOs err)
  | inr existing =>
      let add := missingSensitiveArtifactExcludes existing in
      if (0 <? length add)%nat then appendSensitiveArtifactExcludes excludePath existing add else ok tt
  end.

Definition installSensitiveArtifactHook (workdir : string) : Fallible unit :=
  let! out := wrap_error "resolve worktree git dir" (runGitOutput workdir ["rev-parse"; "--absolute-git-dir"]) in
  let hookDir := Join [TrimSpace out; "aiops-hooks"] in
  let! _ := os_done (MkdirAll hookDir) in
  let! _ := runGitQuiet workdir ["config"; "--worktree"; "core.bare"; "false"] in
  let! _ := runGitQuiet workdir ["config"; "--worktree"; "core.hooksPath"; hookDir] in
  let hookPath := Join [hookDir; "pre-commit"] in
  let! _ := os_done (WriteFile hookPath sensitiveArtifactPreCommitHook) in
  os_done (Chmod hookPath 493).

Definition EnsureSensitiveArtifactExcludes (workdir : string) : Fallible unit :=
  let! _ := ensureSensitiveArtifactExcludeFile workdir in
  installSensitiveArtifactHook workdir.

(** ** The exclude file afterwards *)

Lemma split_lines_nonempty s : split_lines s ≠ [].
Proof. destruct s as [|c s]; simpl; [done|]. destruct (byte_is 10 c); [done|]. by destruct (split_lines s). Qed.

Lemma split_lines_app s t : split_lines (s +:+ lf +:+ t) = split_lines s ++ split_lines t.
Proof.
  induction s as [|c s IH]; [done|]. rewrite str_app_cons. cbn [split_lines]. rewrite IH.
  destruct (byte_is 10 c); [done|]. pose proof (split_lines_nonempty s).
  by destruct (split_lines s) as [|w ws].
Qed.

(** The file once the writes are appended. *)
Definition excludes_after (existing : string) : string :=
  let add := missingSensitiveArtifactExcludes existing in
  match add with
  | [] => existing
  | _ => existing +:+ str_join "" (exclude_writes existing add)
  end.

Lemma HasSuffix_lf s : HasSuffix s lf = true → ∃ t, s = t +:+ lf.
Proof.
  induction s as [|c s IH]; [done|]. cbn [HasSuffix]. destruct (String.eqb_spec (String c s) lf) as [->|_]; [by exists ""|].
  intros (t & ->)%IH. by exists (String c t).
Qed.

Lemma lines_join add :
  Forall (λ p, split_lines p = [p]) add → add ≠ [] → split_lines (str_join lf add +:+ lf) = add ++ [""].
Proof.
  induction 1 as [|p add Hp Hadd IH]; [done|]. intros _. destruct add as [|q add].
  - cbn [str_join]. change lf with (lf +:+ "") at 1. by rewrite split_lines_app, Hp.
  - change (str_join lf (p :: q :: add)) with (p +:+ lf +:+ str_join lf (q :: add)).
    rewrite <- !str_app_assoc, split_lines_app, Hp, IH by done. done.
Qed.

(** The lines the file holds afterwards: the old ones, except an empty one at the end, and
    the missing patterns. *)
Lemma excludes_after_lines existing :
  let add := missingSensitiveArtifactExcludes existing in
  add ≠ [] → ∃ old, split_lines (excludes_after existing) = old ++ add ++ [""] ∧
    (split_lines existing = old ∨ split_lines existing = old ++ [""]).
Proof.
  cbn zeta. intros Hne. unfold excludes_after. set (add := missingSensitiveArtifactExcludes existing) in *.
  assert (Forall (λ p, split_lines p = [p]) add) as Hadd.
  { apply Forall_forall. intros p Hp. unfold add, missingSensitiveArtifactExcludes in Hp.
    apply list_elem_of_In, List.filter_In in Hp as [Hp _]. apply list_elem_of_In in Hp. revert p Hp.
    apply Forall_forall. by repeat constructor. }
  assert (str_join "" (exclude_writes existing add) =
    (if negb (String.eqb existing "") && negb (HasSuffix existing lf) then lf else "") +:+ (str_join lf add +:+ lf)) as Ew.
  { unfold exclude_writes. by destruct (_ && _). }
  destruct add as [|p add'] eqn:Ea; [done|]. rewrite <- Ea in *. rewrite Ew.
  destruct (String.eqb_spec existing "") as [->|He]; cbn [negb andb].
  { exists []. rewrite !str_app_nil, lines_join by done. by split; [|right]. }
  destruct (HasSuffix existing lf) eqn:Hs; cbn [negb].
  - apply HasSuffix_lf in Hs as (t & ->). exists (split_lines t).
    rewrite str_app_nil, <- str_app_assoc, split_lines_app, lines_join by done. split; [done|right].
    change (t +:+ lf) with (t +:+ lf +:+ ""). by rewrite split_lines_app.
  - exists (split_lines existing). rewrite split_lines_app, lines_join by done. by split; [|left].
Qed.

(** After the exclude file was completed, every sensitive pattern is one of its lines
    and completing it again adds nothing; every line it held before is still there, and
    a complete file is left as it is. *)
Theorem excludes_complete (existing : string) :
  missingSensitiveArtifactExcludes (excludes_after existing) = [] ∧
  (∀ line, line ∈ split_lines existing → line ∈ split_lines (excludes_after existing)) ∧
  (missingSensitiveArtifactExcludes existing = [] → excludes_after existing = existing).
Proof.
  destruct (decide (missingSensitiveArtifactExcludes existing = [])) as [E|E].
  { assert (excludes_after existing = existing) as -> by (unfold excludes_after; by rewrite E). by rewrite E. }
  destruct (excludes_after_lines existing E) as (old & El & Eold). split_and!; [| |done].
  - unfold missingSensitiveArtifactExcludes at 1. cbn zeta. rewrite El. apply elem_of_nil_inv.
    intros p Hp. apply list_elem_of_In, List.filter_In in Hp as [Hp Hno]. apply negb_true_iff in Hno.
    assert (TrimSpace p = p ∧ p ≠ "") as [Ht Hp0].
    { clear Hno. apply list_elem_of_In in Hp. revert p Hp. apply Forall_forall. by repeat constructor. }
    revert Hno. apply not_false_iff_true, existsb_exists.
    enough (∃ line, line ∈ old ++ missingSensitiveArtifactExcludes existing ++ [""] ∧ TrimSpace line = p) as (line & Hl & <-).
    { exists (TrimSpace line). split; [apply list_elem_of_In, list_elem_of_fmap; eauto|by apply String.eqb_eq]. }
    destruct (existsb (String.eqb p) (map TrimSpace (split_lines existing))) eqn:Es.
    + apply existsb_exists in Es as (q & Hq & <-%String.eqb_eq). apply in_map_iff in Hq as (line & El' & Hin).
      exists line. split; [|done]. apply list_elem_of_In in Hin. destruct Eold as [Eo|Eo]; rewrite Eo in Hin; [set_solver|].
      apply elem_of_app in Hin as [Hin|Hin]; [set_solver|]. apply list_elem_of_singleton in Hin as ->. by subst p.
    + exists p. split; [|done]. apply elem_of_app. right. apply elem_of_app. left.
      apply list_elem_of_In, List.filter_In. by rewrite Es.
  - intros line Hin. rewrite El. destruct Eold as [Eo|Eo]; rewrite Eo in Hin; set_solver.
Qed.

(** ** Before a byte is written *)

(** The log shows that the parent was no symbolic link, that the descriptor is of the path
    opened without following one, and that the open file had one name. *)
Definition artifact_ready (before : list Event) (path : string) (fd : Fd) : Prop :=
  (∃ info, Ev (Lstat (Dir path)) (inr info) ∈ before ∧ fi_IsSymlink info = false) ∧
  (∃ flags mode, Ev (OpenFile path flags mode) (inr fd) ∈ before ∧ "O_NOFOLLOW" ∈ flags ∧ mode = SensitiveArtifactFileMode) ∧
  (∃ info, Ev (Fstat fd) (inr info) ∈ before ∧ ∀ links, fi_Nlink info = Some links → links ≤ 1).

Definition artifact_guard (path body : string) : Guard := λ before B c,
  match c with FdWrite fd text => text = body ∧ artifact_ready before path fd | _ => True end.

Ltac in_log := rewrite ?elem_of_app, ?list_elem_of_singleton; tauto.

Lemma unlink_shared_safe path body os past Q :
  (∀ new r, Q (past ++ new) r) → safe (artifact_guard path body) os past (unlink_shared path) Q.
Proof.
  intros HQ. unfold unlink_shared. apply safe_do; [done|]. intros [err|info].
  - destruct (negb _); apply HQ.
  - destruct (fi_Nlink info) as [links|]; [|apply HQ]. destruct (1 <? links); [|apply HQ].
    apply safe_os_done; [done|intros e|]; rewrite <- app_assoc; apply HQ.
Qed.

Lemma close_and_fail_safe {A} path body os past fd err (Q : list Event → Err + A → Prop) :
  (∀ new, Q (past ++ new) (inl err)) → safe (artifact_guard path body) os past (close_and_fail fd err) Q.
Proof. intros HQ. unfold close_and_fail. apply safe_do; [done|]. intros b. apply HQ. Qed.

(** What a write is allowed, from any log on, and what a write that is reported shows. *)
Definition artifact_done (body : string) (log : list Event) (r : Err + unit) : Prop :=
  r = inr tt → ∃ fd, Ev (FdWrite fd body) None ∈ log ∧ Ev (Fchmod fd SensitiveArtifactFileMode) None ∈ log.
Lemma write_artifact_safe os past path body :
  safe (artifact_guard path body) os past (WriteSensitiveArtifact path body) (artifact_done body).
Proof.
  unfold WriteSensitiveArtifact. cbn zeta.
  apply safe_or_fail, safe_os_done; [done|done|].
  apply safe_or_fail, safe_os_value; [done|done|]. intros parent.
  destruct (fi_IsSymlink parent) eqn:Hp; [done|].
  apply safe_or_fail, unlink_shared_safe. intros new [e|[]]; [done|].
  apply safe_or_fail, safe_os_value; [done|done|]. intros fd.
  apply safe_do; [done|]. intros [err|info]; [by apply close_and_fail_safe|].
  destruct (match fi_Nlink info with Some links => 1 <? links | None => false end) eqn:Hn; [by apply close_and_fail_safe|].
  apply safe_do.
  { split; [done|]. split_and!.
    - exists parent. split; [in_log|done].
    - do 2 eexists. split; [in_log|]. split; [set_solver|done].
    - exists info. split; [in_log|]. intros links El. rewrite El in Hn. by apply Z.ltb_ge. }
  intros [err|]; [by apply close_and_fail_safe|].
  apply safe_do; [done|]. intros [err|]; [by apply close_and_fail_safe|].
  apply safe_wrap_error, safe_os_done; [done|done|]. intros _. exists fd. split; in_log.
Qed.

(** No byte of a sensitive artifact is written except the given content through a
    descriptor of the path that was opened without following a symbolic link, below a
    parent that is no symbolic link, and of a file found to have a single name; and when
    the write is reported done, the content was written and the mode set to 0600. *)
Theorem artifact_written_safely (os : OS) (path body : string) :
  let '(log, r) := exec os [] (WriteSensitiveArtifact path body) in
  (∀ before fd text b, happened log before (FdWrite fd text) b → text = body ∧ artifact_ready before path fd) ∧
  (r = inr tt → ∃ fd, Ev (FdWrite fd body) None ∈ log ∧ Ev (Fchmod fd SensitiveArtifactFileMode) None ∈ log).
Proof.
  pose proof (safe_exec _ _ _ _ _ (write_artifact_safe os [] path body)) as Hx.
  destruct (exec os [] _) as [log r]. destruct Hx as [HQ HG].
  split; [|exact HQ]. intros before fd text b Hh. exact (HG before _ _ b Hh (Nat.le_0_l _)).
Qed.
