(* ===== verification/Worktree.v ===== *)
(** * Preparing a worktree

    The git half of internal/workspace/manager.go: which ref a worktree starts from,
    whether a directory that is there can be reused, how a new one is made, when the
    worktree of another root is reclaimed, and [PrepareGitWorkspaceOwned], which does all
    of it under the mirror's lock and returns with the worktree's ownership. *)

From S2P Require Import Prelude Types Runtime GoStd Paths Sys SafeRemove Hashes WorkspaceKey GitCmd Artifacts.

Definition resolve_candidates (baseBranch : string) : list string :=
  ["refs/remotes/origin/" +:+ baseBranch; "refs/heads/" +:+ baseBranch].

Fixpoint first_resolving (mirror : string) (refs : list string) (default : string) : Prog string :=
  match refs with
  | [] => Done default
  | ref :: refs =>
      let* err := runGitQuiet mirror ["rev-parse"; "--verify"; ref] in
      match err with
      | inr _ => Done ref
      | inl _ => first_resolving mirror refs default
      end
  end.
Definition resolveStartRef (mirror baseBranch : string) : Prog string :=
  first_resolving mirror (resolve_candidates baseBranch) ("refs/remotes/origin/" +:+ baseBranch).

(** The second [EvalSymlinks] is only asked when the first succeeds. *)
Definition sameRealPath (commonDir workdir want : string) : Prog bool :=
  if String.eqb commonDir "" then Done false
  else
    let commonDir := if negb (IsAbs commonDir) then Join [workdir; commonDir] else commonDir in
    let* commonReal := call (EvalSymlinks commonDir) in
    match commonReal with
    | inl _ => Done false
    | inr commonReal =>
        let* wantReal := call (EvalSymlinks want) in
        match wantReal with
        | inl _ => Done false
        | inr wantReal => Done (String.eqb commonReal wantReal)
        end
    end.

(** [reusable] and [foreignCommonDir]. *)
Definition classifyExistingWorkdir (workdir mirror : string) : Prog (bool * string) :=
  let* lstatInfo := call (Lstat workdir) in
  match lstatInfo with
  | inl _ => Done (false, "")
  | inr info =>
      if fi_IsSymlink info then Done (false, "")
      else
        let* err := runGitQuiet workdir ["rev-parse"; "--git-dir"] in
        match err with
        | inl _ => Done (false, "")
        | inr _ =>
            let* cdOut := runGitOutput workdir ["rev-parse"; "--git-common-dir"] in
            match cdOut with
            | inl _ => Done (false, "")
            | inr out =>
                let common := TrimSpace out in
                let* same := sameRealPath common workdir mirror in
                if same : bool then Done (true, "")
                else if negb (String.eqb common "")
                then Done (false, if negb (IsAbs common) then Join [workdir; common] else common)
                else Done (false, "")
            end
        end
  end.

Definition reuseWorktree (workdir workBranch startRef : string) : Fallible unit :=
  let! _ := wrap_error "worktree index reset" (runGitQuiet workdir ["reset"; "--quiet"; "HEAD"; "--"; "."]) in
  let! _ := wrap_error "worktree checkout"
    (runGit workdir ["checkout"; "--force"; "--no-track"; "-B"; workBranch; startRef]) in
  wrap_error "install sensitive artifact excludes" (EnsureSensitiveArtifactExcludes workdir).

(** ** The worktree that holds a branch *)

(** [strings.TrimRight(line, "\r")]. *)
Fixpoint trim_cr (s : string) : string :=
  match s with
  | EmptyString => ""
  | String c t =>
      match trim_cr t with
      | EmptyString => if byte_is 13 c then "" else String c ""
      | t' => String c t'
      end
  end.

Fixpoint find_branch (wantBranch curPath : string) (lines : list string) : string :=
  match lines with
  | [] => ""
  | line :: lines =>
      let line := trim_cr line in
      match CutPrefix line "worktree " with
      | Some path => find_branch wantBranch path lines
      | None => if String.eqb line wantBranch then curPath else find_branch wantBranch curPath lines
      end
  end.

Definition worktreePathForBranch (mirror workBranch : string) : Prog string :=
  let* out := runGitOutput mirror ["worktree"; "list"; "--porcelain"] in
  match out with
  | inl _ => Done ""
  | inr out => Done (find_branch ("branch refs/heads/" +:+ workBranch) "" (split_lines out))
  end.

Definition evalSymlinksOr (p : string) : Prog string :=
  let* resolved := call (EvalSymlinks p) in
  match resolved with inr resolved => Done resolved | inl _ => Done (Clean p) end.

Section Prepare.
Context (url_Parse : string → option (string * string)) (getwd : option string).

Definition isForeignRootHolder (root workdir holder : string) : Prog bool :=
  let* realRoot := evalSymlinksOr root in
  let* realHolder := evalSymlinksOr holder in
  let* realWorkdir := evalSymlinksOr workdir in
  if String.eqb realHolder realWorkdir then Done false
  else if String.eqb realHolder realRoot || pathContainedUnder getwd realHolder realRoot then Done false
  else Done true.

Definition reclaimForeignBranchWorktree (root workdir mirror workBranch : string) : Prog unit :=
  let* holder := worktreePathForBranch mirror workBranch in
  if String.eqb holder "" then Done tt
  else
    let* foreign := isForeignRootHolder root workdir holder in
    if negb foreign then Done tt
    else
      let* c := classifyExistingWorkdir holder mirror in
      if negb (c.1 : bool) then Done tt
      else
        let* held := worktreeOwnershipLockHeld holder in
        if held : bool then Done tt
        else
          let* _ := runGitQuiet mirror ["worktree"; "remove"; "--force"; holder] in
          ignore (call (RemoveAll holder)).

Definition createWorktree (root workdir mirror workBranch startRef foreignCommonDir : string) : Fallible unit :=
  let* _ := if negb (String.eqb foreignCommonDir "")
            then ignore (runGitQuiet foreignCommonDir ["worktree"; "prune"]) else Done tt in
  let* _ := runGitQuiet mirror ["worktree"; "remove"; "--force"; workdir] in
  let! _ := wrap_error "worktree cleanup" (SafeRemove root workdir) in
  let* _ := reclaimForeignBranchWorktree root workdir mirror workBranch in
  let! _ := wrap_error "worktree prune" (runGitQuiet mirror ["worktree"; "prune"]) in
  let! _ := wrap_error "worktree add"
    (runGit mirror ["worktree"; "add"; "--no-track"; "-B"; workBranch; workdir; startRef]) in
  wrap_error "install sensitive artifact excludes" (EnsureSensitiveArtifactExcludes workdir).

(** [createdNow] and the error; the source returns both. *)
Definition attachWorktree (root workdir mirror workBranch startRef : string) (workdirExists : bool)
    : Prog (bool * (Err + unit)) :=
  let* c := if workdirExists then classifyExistingWorkdir workdir mirror else Done (false, "") in
  let (reusable, foreignCommonDir) := c : bool * string in
  if reusable
  then let* r := reuseWorktree workdir workBranch startRef in Done (false, r)
  else let* r := createWorktree root workdir mirror workBranch startRef foreignCommonDir in Done (true, r).

(** ** Preparing *)

(** [release] is the ownership lease: the descriptor of its lock. *)
Record PreparedGitWorkspace := { Workdir : string; CreatedNow : bool; release : Fd }.

Definition prepare_locked (root workdir mirror : string) (t : Task) (workdirExists : bool) : Fallible PreparedGitWorkspace :=
  let! mirror := ensureMirrorLocked (task_CloneURL t) mirror in
  let* startRef := resolveStartRef mirror (task_BaseBranch t) in
  let* attached := attachWorktree root workdir mirror (task_WorkBranch t) startRef workdirExists in
  match attached.2 with
  | inl err => fail err
  | inr _ =>
      let! fd := acquireWorktreeOwnership workdir in
      ok {| Workdir := workdir; CreatedNow := attached.1; release := fd |}
  end.

(** [Manager.PrepareGitWorkspaceOwned], with the manager's Root and MirrorRoot. *)
Definition PrepareGitWorkspaceOwned (root override : string) (t : Task) : Fallible PreparedGitWorkspace :=
  let workdir := PathFor root t in
  let! _ := os_done (MkdirAll (Dir workdir)) in
  let* info := call (Stat workdir) in
  match match info with
        | inr info => inr (fi_IsDir info)
        | inl err => if os_IsNotExist err then inr false else inl err
        end with
  | inl err => fail (FromOs err)
  | inr workdirExists =>
      let* mirrorRoot := MirrorRoot override in
      let mirror := mirrorPathFor url_Parse getwd mirrorRoot (task_CloneURL t) in
      let! fd := acquireMirrorLock mirror in
      deferred (release_mirror_lock mirror fd) (prepare_locked root workdir mirror t workdirExists)
  end.

(** [PreparedGitWorkspace.Release]. *)
Definition Release (p : PreparedGitWorkspace) : Prog unit := release_file_lock (release p).

Definition PrepareGitWorkspace (root override : string) (t : Task) : Fallible (string * bool) :=
  let! prepared := PrepareGitWorkspaceOwned root override t in
  let* _ := Release prepared in
  ok (Workdir prepared, CreatedNow prepared).
End Prepare.
