(* ===== verification/WorktreeProps.v ===== *)
(** * What preparing a worktree may remove, and its locks

    A run of [PrepareGitWorkspaceOwned] against any operating system: every removal, the
    ones git is told to make included, is of the mirror's own directories, of the
    workspace that was found not to be reusable (by the code after two validations, by
    git without), or of a stale worktree of the branch that was found to be one of ours,
    foreign and not owned; git runs under the mirror's lock; and afterwards no lock is
    held but the ownership of a workspace that was prepared. *)

From S2P Require Import Prelude Tracker GoStd Types Runtime Paths Sys SafeRemove Hashes WorkspaceKey GitCmd Artifacts Worktree.

(** ** The locks a log leaves held *)

Fixpoint remove_one {A} `{EqDecision A} (x : A) (l : list A) : list A :=
  match l with [] => [] | y :: l => if decide (x = y) then l else y :: remove_one x l end.

(** Mutexes and file locks, the last one taken first. *)
Record Locks := { mutexes : list string; flocks : list Fd }.
Definition lock_step (st : Locks) (e : Event) : Locks :=
  match e with
  | @Ev B c b =>
      match c in Sys B return B → Locks with
      | MutexLock k => fun _ => {| mutexes := k :: mutexes st; flocks := flocks st |}
      | MutexUnlock k => fun _ => {| mutexes := remove_one k (mutexes st); flocks := flocks st |}
      | Flock fd _ => fun r => match r with
                               | None => {| mutexes := mutexes st; flocks := fd :: flocks st |}
                               | Some _ => st
                               end
      | Funlock fd => fun _ => {| mutexes := mutexes st; flocks := remove_one fd (flocks st) |}
      | _ => fun _ => st
      end b
  end.
Definition no_locks : Locks := {| mutexes := []; flocks := [] |}.
Definition locks (log : list Event) : Locks := fold_left lock_step log no_locks.

(** Calls that neither lock nor take a run forward: no phase is reported, no agent run. *)
Definition no_lock : Calls := λ B c,
  match c with
  | MutexLock _ | MutexUnlock _ | Flock _ _ | Funlock _ | RunAgent _ _ _ _ _ _ => false
  | Emit _ kind _ _ => negb (String.eqb kind "run_phase_transition")
  | _ => true
  end.
(** The path a call removes: one the code removes itself, or the worktree git is told to
    remove. *)
Definition git_removes (args : list string) : option string :=
  match args with
  | command :: sub :: rest => if String.eqb command "worktree" && String.eqb sub "remove" then List.last (map Some rest) None else None
  | _ => None
  end.
Definition removes {B} (c : Sys B) : option string :=
  match c with
  | RemoveAll p | Remove p => Some p
  | Git _ _ args => git_removes args
  | _ => None
  end.
(** Those of them that do not remove. *)
Definition plain : Calls := λ B c, match removes c with Some _ => false | None => no_lock _ c end.

Lemma locks_app_plain past new : all_calls no_lock new → locks (past ++ new) = locks past.
Proof.
  unfold locks. rewrite fold_left_app. generalize (fold_left lock_step past no_locks).
  intros st H. revert st. induction H as [|[B c b] new Hc _ IH]; intros st; simpl; [done|].
  rewrite IH. by destruct c.
Qed.

Lemma plain_no_lock new : all_calls plain new → all_calls no_lock new.
Proof. intros H. eapply Forall_impl; [exact H|]. intros [B c b]. unfold plain. by destruct (removes c). Qed.

Ltac log_prefix := rewrite <- ?app_assoc; by eexists.

(** ** Which calls the parts make *)

Section OnlyPlain.
#[export] Instance only_finish P e : Only P (finish e).
Proof. by destruct e. Qed.
Lemma plain_git s dir args : git_removes args = None → Only plain (call (Git s dir args)).
Proof. intros H. apply only_call. unfold plain, removes. by rewrite H. Qed.
Ltac git_tac H := repeat (match goal with
  | |- Only _ (prog_bind _ _) => apply only_bind; [|intros ?]
  | |- Only _ (call (Git _ _ _)) => by apply plain_git
  | |- Only _ (if ?x then _ else _) => destruct x
  | |- Only _ (match ?x with _ => _ end) => destruct x
  end); try exact I; apply _.
Lemma only_runGit dir args : git_removes args = None → Only plain (runGit dir args).
Proof. intros H. unfold runGit. git_tac H. Qed.
Lemma only_runGitRedacted dir args : git_removes args = None → Only plain (runGitRedacted dir args).
Proof. intros H. unfold runGitRedacted. git_tac H. Qed.
Lemma only_runGitQuiet dir args : git_removes args = None → Only plain (runGitQuiet dir args).
Proof. intros H. unfold runGitQuiet. git_tac H. Qed.
Lemma only_runGitOutput dir args : git_removes args = None → Only plain (runGitOutput dir args).
Proof. intros H. unfold runGitOutput. git_tac H. Qed.
#[local] Hint Extern 1 (Only plain (runGit _ _)) => apply only_runGit; reflexivity : typeclass_instances.
#[local] Hint Extern 1 (Only plain (runGitRedacted _ _)) => apply only_runGitRedacted; reflexivity : typeclass_instances.
#[local] Hint Extern 1 (Only plain (runGitQuiet _ _)) => apply only_runGitQuiet; reflexivity : typeclass_instances.
#[local] Hint Extern 1 (Only plain (runGitOutput _ _)) => apply only_runGitOutput; reflexivity : typeclass_instances.
#[export] Instance only_ignore {A} P (p : Prog A) : Only P p → Only P (ignore p).
Proof. intros. unfold ignore. only_tac. Qed.
#[export] Instance only_fail {A} P e : Only P (@fail A e).
Proof. exact I. Qed.
#[export] Instance only_ok {A} P (a : A) : Only P (ok a).
Proof. exact I. Qed.

#[export] Instance only_write_each fd texts : Only plain (write_each fd texts).
Proof.
  induction texts as [|t texts IH]; [exact I|]. cbn [write_each]. unfold close_and_fail. only_tac.
Qed.
#[export] Instance only_append path existing add : Only plain (appendSensitiveArtifactExcludes path existing add).
Proof. unfold appendSensitiveArtifactExcludes. only_tac. Qed.
#[export] Instance only_gitPath w rel : Only plain (gitPath w rel).
Proof. unfold gitPath. only_tac. Qed.
#[export] Instance only_excludes w : Only plain (EnsureSensitiveArtifactExcludes w).
Proof.
  unfold EnsureSensitiveArtifactExcludes, ensureSensitiveArtifactExcludeFile, installSensitiveArtifactHook. only_tac.
Qed.
#[export] Instance only_reuse w b r : Only plain (reuseWorktree w b r).
Proof. unfold reuseWorktree. only_tac. Qed.
#[export] Instance only_resolve m b : Only plain (resolveStartRef m b).
Proof.
  unfold resolveStartRef. generalize (resolve_candidates b), ("refs/remotes/origin/" +:+ b).
  intros refs d. induction refs as [|ref refs IH]; [exact I|]. cbn [first_resolving]. only_tac.
Qed.
#[export] Instance only_same c w m : Only plain (sameRealPath c w m).
Proof. unfold sameRealPath. only_tac. Qed.
#[export] Instance only_classify w m : Only plain (classifyExistingWorkdir w m).
Proof. unfold classifyExistingWorkdir. only_tac. Qed.
#[export] Instance only_worktreePath m b : Only plain (worktreePathForBranch m b).
Proof. unfold worktreePathForBranch. only_tac. Qed.
#[export] Instance only_evalOr p : Only plain (evalSymlinksOr p).
Proof. unfold evalSymlinksOr. only_tac. Qed.
#[export] Instance only_foreign wd r w h : Only plain (isForeignRootHolder wd r w h).
Proof. unfold isForeignRootHolder. only_tac. Qed.
#[export] Instance only_lockPath w : Only plain (worktreeOwnershipLockPath w).
Proof. unfold worktreeOwnershipLockPath. only_tac. Qed.
#[export] Instance only_MirrorRoot o : Only plain (MirrorRoot o).
Proof. unfold MirrorRoot. only_tac. Qed.
#[export] Instance only_clone_steps u m s : Only plain (clone_steps u m s).
Proof. unfold clone_steps. only_tac. Qed.
End OnlyPlain.
#[export] Hint Extern 1 (Only plain (runGit _ _)) => apply only_runGit; reflexivity : typeclass_instances.
#[export] Hint Extern 1 (Only plain (runGitQuiet _ _)) => apply only_runGitQuiet; reflexivity : typeclass_instances.

(** ** Evidence *)

(** What a path is taken for: what it resolves to, or its clean text. *)
Definition real (log : list Event) (p q : string) : Prop :=
  Ev (EvalSymlinks p) (inr q) ∈ log ∨ (∃ e, Ev (EvalSymlinks p) (inl e) ∈ log) ∧ q = Clean p.

(** [workdir] was no symbolic link and its git directory leads where [mirror] leads. *)
Definition our_worktree (log : list Event) (workdir mirror : string) : Prop :=
  (∃ info, Ev (Lstat workdir) (inr info) ∈ log ∧ fi_IsSymlink info = false) ∧
  (∃ run, Ev (Git Output workdir ["rev-parse"; "--git-common-dir"]) run ∈ log ∧
    let common := TrimSpace (gr_Stdout run) in
    ∃ q, Ev (EvalSymlinks (if negb (IsAbs common) then Join [workdir; common] else common)) (inr q) ∈ log ∧
         Ev (EvalSymlinks mirror) (inr q) ∈ log).

(** [workdir] was found not to be such a worktree: there is no directory, or a symbolic
    link, or git finds no repository or no common directory there, or that directory
    cannot be resolved or is not where [mirror] leads. *)
Definition not_reusable (log : list Event) (workdir mirror : string) : Prop :=
  (∃ answer, Ev (Stat workdir) answer ∈ log ∧ ∀ info, answer = inr info → fi_IsDir info = false) ∨
  (∃ answer, Ev (Lstat workdir) answer ∈ log ∧ ∀ info, answer = inr info → fi_IsSymlink info = true) ∨
  (∃ run, Ev (Git Discard workdir ["rev-parse"; "--git-dir"]) run ∈ log ∧ classifyGitContextErr run ≠ None) ∨
  (∃ run, Ev (Git Output workdir ["rev-parse"; "--git-common-dir"]) run ∈ log ∧
    let common := TrimSpace (gr_Stdout run) in
    let path := if negb (IsAbs common) then Join [workdir; common] else common in
    (classifyGitContextErr run ≠ None ∨ common = "" ∨ (∃ e, Ev (EvalSymlinks path) (inl e) ∈ log) ∨
     ∃ q answer, Ev (EvalSymlinks path) (inr q) ∈ log ∧ Ev (EvalSymlinks mirror) answer ∈ log ∧ answer ≠ inr q)).

(** The ownership lock of the worktree at [workdir] was taken: the lock file in the git
    directory that git named there was opened, and then locked, on [fd]. *)
Definition ownership_locked (log : list Event) (workdir : string) (nonblock : bool) (fd : Fd) : Prop :=
  ∃ run before after,
    Ev (Git Output workdir ["rev-parse"; "--git-dir"]) run ∈ before ∧
    let gitDir := TrimSpace (gr_Stdout run) in
    let lockPath := Join [if negb (IsAbs gitDir) then Join [workdir; gitDir] else gitDir; "aiops-owner.lock"] in
    gitDir ≠ "" ∧
    log = before ++ [Ev (OpenFile lockPath ["O_RDWR"; "O_CREATE"] 420) (inr fd); Ev (Flock fd nonblock) None] ++ after.
(** Nobody had it: it was taken without waiting. *)
Definition ownership_free (log : list Event) (holder : string) : Prop :=
  ∃ fd, ownership_locked log holder true fd.

Section Preparation.
Context (getwd : option string).
Context (root workdir branch : string).

(** [holder] is registered for the branch, is one of our worktrees, is neither the
    workspace nor the root nor a directory above the root, and nobody owns it. *)
Definition stale_worktree (log : list Event) (mirror holder : string) : Prop :=
  holder ≠ "" ∧
  (∃ run, Ev (Git Output mirror ["worktree"; "list"; "--porcelain"]) run ∈ log ∧
    find_branch ("branch refs/heads/" +:+ branch) "" (split_lines (gr_Stdout run)) = holder) ∧
  our_worktree log holder mirror ∧
  (∃ rr rh rw, real log root rr ∧ real log holder rh ∧ real log workdir rw ∧
    rh ≠ rw ∧ rh ≠ rr ∧ pathContainedUnder getwd rh rr = false) ∧
  ownership_free log holder.

(** The mirror's lock is held: its mutex, and a file lock. *)
Definition mirror_held (mirror : string) (log : list Event) : Prop :=
  mutexes (locks log) = [mirror] ∧ flocks (locks log) ≠ [].

Definition removal_justified (before : list Event) {B} (c : Sys B) (p : string) : Prop :=
  ∃ mirror, mirror_held mirror before ∧
  match c with
  | RemoveAll _ =>
      ((p = mirror ∨ p = mirror +:+ mirrorStagingSuffix) ∧ ∃ e, Ev (Stat (Join [mirror; "HEAD"])) (inl e) ∈ before) ∨
      (p = TrimSpace workdir ∧ not_reusable before workdir mirror ∧ ∃ earlier first middle second canonical,
         before = earlier ++ first ++ middle ++ second ∧
         validated first (TrimSpace root) p canonical ∧ validated second (TrimSpace root) p canonical) ∨
      stale_worktree before mirror p
  | Git _ dir args =>
      dir = mirror ∧ args = ["worktree"; "remove"; "--force"; p] ∧
      (p = workdir ∧ not_reusable before workdir mirror ∨ stale_worktree before mirror p)
  | _ => False
  end.

Definition prepare_guard : Guard := λ before B c,
  (∀ p, removes c = Some p → removal_justified before c p) ∧
  match c with
  | RemoveAll _ | Git _ _ _ => ∃ mirror, mirror_held mirror before
  | RunAgent _ _ _ _ _ _ => False
  | Emit _ kind _ _ => kind ≠ "run_phase_transition"
  | _ => True
  end.

#[export] Instance prepare_looks : LooksAllowed prepare_guard.
Proof. intros past B c. by destruct c. Qed.

(** A call that removes nothing. *)
Lemma guard_keeps before B (c : Sys B) :
  removes c = None → match c with
    | Git _ _ _ => ∃ mirror, mirror_held mirror before
    | RunAgent _ _ _ _ _ _ => False
    | Emit _ kind _ _ => kind ≠ "run_phase_transition"
    | _ => True
    end → prepare_guard before B c.
Proof. intros Hr Hc. split; [by rewrite Hr|]. by destruct c. Qed.

Lemma mirror_held_plain mirror past new :
  all_calls no_lock new → mirror_held mirror past → mirror_held mirror (past ++ new).
Proof. intros H. unfold mirror_held. by rewrite locks_app_plain. Qed.

Lemma plain_safe {A} os mirror past (p : Prog A) :
  Only plain p → mirror_held mirror past →
  safe prepare_guard os past p (λ past' _, ∃ new, past' = past ++ new ∧ all_calls plain new).
Proof.
  intros Hp Hh. apply only_safe; [done|]. intros new B c Hnew Hc.
  unfold plain in Hc. destruct (removes c) eqn:Er; [done|]. apply guard_keeps; [done|].
  destruct c; try done.
  - exists mirror. by apply mirror_held_plain; [apply plain_no_lock|].
  - cbn in *. by apply negb_true_iff, String.eqb_neq in Hc.
Qed.

(** *** What the probes show *)

Lemma same_evidence os past c w m :
  safe anything os past (sameRealPath c w m) (λ past' r, r = true →
    ∃ q, Ev (EvalSymlinks (if negb (IsAbs c) then Join [w; c] else c)) (inr q) ∈ past' ∧
         Ev (EvalSymlinks m) (inr q) ∈ past').
Proof.
  unfold sameRealPath. destruct (String.eqb c ""); [done|]. cbv zeta.
  apply safe_do; [done|]. intros [e|q1]; [done|]. apply safe_do; [done|]. intros [e|q2]; [done|].
  intros ->%String.eqb_eq. exists q2. split; in_log.
Qed.

Lemma runGitOutput_evidence os past dir args :
  safe anything os past (runGitOutput dir args) (λ past' r, past `prefix_of` past' ∧ ∀ out, r = inr out →
    ∃ run, Ev (Git Output dir args) run ∈ past' ∧ gr_Stdout run = out).
Proof.
  unfold runGitOutput. apply safe_do; [done|]. intros run.
  destruct (classifyGitContextErr run); (split; [by eexists|]); intros out [= <-].
  exists run. split; [in_log|done].
Qed.

Lemma safe_grow {A} os past (p : Prog A) Q :
  (∀ past' a, past `prefix_of` past' → Q past' a) → safe anything os past p Q.
Proof.
  intros HQ. eapply safe_mono; [apply (safe_extends anything os past p (λ _ _, True))|].
  - clear HQ. revert past. induction p; simpl; auto.
    intros past. split; [done|]. eauto.
  - intros past' a [_ ?]. by apply HQ.
Qed.

Lemma prefix_in {A} (l l' : list A) x : l `prefix_of` l' → x ∈ l → x ∈ l'.
Proof. intros [m ->] H. apply elem_of_app. by left. Qed.

Lemma not_reusable_prefix l l' w m : l `prefix_of` l' → not_reusable l w m → not_reusable l' w m.
Proof.
  intros Hl. assert (∀ x, x ∈ l → x ∈ l') as Hin by (intros x; by apply prefix_in).
  intros [(a & ? & ?)|[(a & ? & ?)|[(run & ? & ?)|(run & ? & H)]]];
    [left; by exists a; auto|right; left; by exists a; auto|do 2 right; left; by exists run; auto|].
  do 3 right. exists run. split; [by apply Hin|]. cbv zeta in *.
  destruct H as [?|[?|[[e ?]|(q & a & ? & ? & ?)]]]; [by left|by right; left| |].
  - do 2 right. left. exists e. auto.
  - do 3 right. exists q, a. auto.
Qed.

Lemma sameRealPath_false os past c w m :
  safe anything os past (sameRealPath c w m) (λ past' r, r = false →
    let path := if negb (IsAbs c) then Join [w; c] else c in
    c = "" ∨ (∃ e, Ev (EvalSymlinks path) (inl e) ∈ past') ∨
    ∃ q answer, Ev (EvalSymlinks path) (inr q) ∈ past' ∧ Ev (EvalSymlinks m) answer ∈ past' ∧ answer ≠ inr q).
Proof.
  unfold sameRealPath. destruct (String.eqb_spec c "") as [->|]; [by left|]. cbv zeta.
  apply safe_do; [done|]. intros [e|q1]; [right; left; exists e; in_log|].
  apply safe_do; [done|]. intros [e|q2]; (intros H; do 2 right; exists q1; eexists; split_and!; [in_log|in_log|]); [done|].
  intros [= ->]. by rewrite String.eqb_refl in H.
Qed.

Lemma runGitQuiet_evidence os past dir args :
  safe anything os past (runGitQuiet dir args) (λ past' r, past `prefix_of` past' ∧ ∀ e, r = inl e →
    ∃ run, Ev (Git Discard dir args) run ∈ past' ∧ classifyGitContextErr run ≠ None).
Proof.
  unfold runGitQuiet. apply safe_do; [done|]. intros run.
  destruct (classifyGitContextErr run) as [e'|] eqn:E; (split; [by eexists|]); intros e [= <-].
  exists run. rewrite E. split; [in_log|done].
Qed.

Lemma runGitOutput_full os past dir args :
  safe anything os past (runGitOutput dir args) (λ past' r, past `prefix_of` past' ∧
    ∃ run, Ev (Git Output dir args) run ∈ past' ∧
    match r with inl _ => classifyGitContextErr run ≠ None | inr out => gr_Stdout run = out end).
Proof.
  unfold runGitOutput. apply safe_do; [done|]. intros run.
  destruct (classifyGitContextErr run) as [e'|] eqn:E; (split; [by eexists|]); exists run; (split; [in_log|done || by rewrite E]).
Qed.

Lemma classify_evidence os past w m :
  safe anything os past (classifyExistingWorkdir w m) (λ past' r,
    if r.1 then our_worktree past' w m else not_reusable past' w m).
Proof.
  unfold classifyExistingWorkdir. apply safe_do; [done|]. intros [e|info]; [by right; left; exists (inl e); split; [in_log|]|].
  destruct (fi_IsSymlink info) eqn:Hs; [by right; left; exists (inr info); split; [in_log|intros ? [= <-]]|].
  apply safe_bind. eapply safe_mono; [apply runGitQuiet_evidence|]. intros p1 [e|[]] [H1 Hq].
  { destruct (Hq e eq_refl) as (run & Hrun). do 2 right. left. by exists run. }
  apply safe_bind. eapply safe_mono; [apply runGitOutput_full|]. intros p2 [e|out] [H2 (run & Hrun & Hout)].
  { do 3 right. exists run. split; [done|by left]. }
  subst out. cbv zeta. apply safe_bind.
  eapply safe_mono; [apply safe_extends, safe_combine; [apply same_evidence|apply sameRealPath_false]|].
  intros p3 same [[Hsame Hdiff] H3]. destruct same.
  - split.
    + exists info. split; [|done]. eapply prefix_in; [exact H3|]. eapply prefix_in; [exact H2|].
      eapply prefix_in; [exact H1|]. in_log.
    + exists run. split; [by eapply prefix_in|]. by apply Hsame.
  - assert (not_reusable p3 w m) as H; [|by destruct (negb (String.eqb _ _))].
    do 3 right. exists run. split; [by eapply prefix_in|]. right. by apply Hdiff.
Qed.

Lemma real_prefix l l' p q : l `prefix_of` l' → real l p q → real l' p q.
Proof. intros Hl [H|[[e H] ->]]; [left|right; split; [exists e|done]]; by eapply prefix_in. Qed.

Lemma evalSymlinksOr_evidence os past p :
  safe anything os past (evalSymlinksOr p) (λ past' q, past `prefix_of` past' ∧ real past' p q).
Proof.
  unfold evalSymlinksOr. apply safe_do; [done|].
  intros [e|q]; (split; [by eexists|]); [right; split; [exists e; in_log|done]|left; in_log].
Qed.

Lemma foreign_evidence os past holder :
  safe anything os past (isForeignRootHolder getwd root workdir holder) (λ past' r, past `prefix_of` past' ∧ (r = true →
    ∃ rr rh rw, real past' root rr ∧ real past' holder rh ∧ real past' workdir rw ∧
    rh ≠ rw ∧ rh ≠ rr ∧ pathContainedUnder getwd rh rr = false)).
Proof.
  unfold isForeignRootHolder.
  apply safe_bind. eapply safe_mono; [apply evalSymlinksOr_evidence|]. intros p1 rr [L1 Rr].
  apply safe_bind. eapply safe_mono; [apply evalSymlinksOr_evidence|]. intros p2 rh [L2 Rh].
  apply safe_bind. eapply safe_mono; [apply evalSymlinksOr_evidence|]. intros p3 rw [L3 Rw].
  assert (past `prefix_of` p3) as L by by do 2 (etrans; [|done]).
  destruct (String.eqb_spec rh rw) as [|H1]; [done|].
  destruct (String.eqb_spec rh rr) as [|H2]; [done|].
  destruct (pathContainedUnder getwd rh rr) eqn:H3; [done|]. split; [done|]. intros _.
  exists rr, rh, rw. split_and!; [|exact (real_prefix _ _ _ _ L3 Rh)|done..].
  eapply real_prefix; [|exact Rr]. by etrans.
Qed.

Lemma holder_evidence os past mirror :
  safe anything os past (worktreePathForBranch mirror branch) (λ past' holder, holder ≠ "" →
    ∃ run, Ev (Git Output mirror ["worktree"; "list"; "--porcelain"]) run ∈ past' ∧
    find_branch ("branch refs/heads/" +:+ branch) "" (split_lines (gr_Stdout run)) = holder).
Proof.
  unfold worktreePathForBranch. apply safe_bind. eapply safe_mono; [apply runGitOutput_evidence|].
  intros p1 [e|out] [_ H]; [intros Hn; by destruct Hn|]. intros _. destruct (H out eq_refl) as (run & Hrun & <-). eauto.
Qed.

(** *** Locks *)

Definition grows (past past' : list Event) : Prop := past `prefix_of` past'.

Lemma locks_snoc past e : locks (past ++ [e]) = lock_step (locks past) e.
Proof. unfold locks. by rewrite fold_left_app. Qed.

Lemma file_lock_safe os past path nonblock :
  safe prepare_guard os past (file_lock path nonblock) (λ past' r, past `prefix_of` past' ∧
    match r with
    | inr fd => locks past' = {| mutexes := mutexes (locks past); flocks := fd :: flocks (locks past) |} ∧
                ∃ before, past' = before ++ [Ev (OpenFile path ["O_RDWR"; "O_CREATE"] 420) (inr fd); Ev (Flock fd nonblock) None] ∧
                  past `prefix_of` before
    | inl _ => locks past' = locks past
    end).
Proof.
  unfold file_lock.
  apply safe_or_fail, safe_wrap_error, safe_os_done; [done|intros e; split; [log_prefix|by rewrite locks_snoc]|].
  apply safe_or_fail, safe_wrap_error, safe_os_value;
    [done|intros e; split; [log_prefix|by rewrite !locks_snoc]|].
  intros fd. apply safe_do; [done|]. intros [err|].
  - apply safe_do; [done|]. intros b.
    assert (∀ e, past `prefix_of` (((past ++ [Ev (MkdirAll (Dir path)) None]) ++
      [Ev (OpenFile path ["O_RDWR"; "O_CREATE"] 420) (inr fd)]) ++ [Ev (Flock fd nonblock) (Some err)]) ++ [e]) as Hp.
    { intros e. log_prefix. }
    destruct (_ && _); (split; [apply Hp|by rewrite !locks_snoc]).
  - split; [log_prefix|]. rewrite !locks_snoc. split; [done|].
    exists (past ++ [Ev (MkdirAll (Dir path)) None]). split; [by rewrite <- !app_assoc|by eexists].
Qed.

Lemma release_file_lock_safe os past fd :
  safe prepare_guard os past (release_file_lock fd) (λ past' _, past `prefix_of` past' ∧
    locks past' = {| mutexes := mutexes (locks past); flocks := remove_one fd (flocks (locks past)) |}).
Proof.
  unfold release_file_lock. apply safe_do; [done|]. intros u. unfold ignore. apply safe_do; [done|]. intros b.
  split; [log_prefix|]. by rewrite !locks_snoc.
Qed.

(** A plain part keeps the locks. *)
Lemma plain_keeps {A} os mirror past (p : Prog A) Q :
  Only plain p → mirror_held mirror past → safe anything os past p Q →
  safe prepare_guard os past p (λ past' a, Q past' a ∧ past `prefix_of` past' ∧ locks past' = locks past).
Proof.
  intros Hp Hh HQ. eapply safe_mono; [apply safe_combine; [by apply (plain_safe os mirror)|exact HQ]|].
  intros past' a [(new & -> & Hnew) H]. split_and!; [done|by eexists|]. by apply locks_app_plain, plain_no_lock.
Qed.

Lemma mirror_held_locks mirror l l' : locks l' = locks l → mirror_held mirror l → mirror_held mirror l'.
Proof. unfold mirror_held. by intros ->. Qed.

Lemma remove_one_same {A} `{EqDecision A} (x : A) l : remove_one x (x :: l) = l.
Proof. cbn [remove_one]. by destruct (decide (x = x)). Qed.

(** What a part of the preparation under the mirror's lock keeps. *)
Definition kept (mirror : string) (past past' : list Event) : Prop :=
  past `prefix_of` past' ∧ locks past' = locks past ∧ mirror_held mirror past'.

Lemma kept_trans mirror l1 l2 l3 : kept mirror l1 l2 → kept mirror l2 l3 → kept mirror l1 l3.
Proof. intros (H1 & E1 & _) (H2 & E2 & H3). split_and!; [by etrans|congruence|done]. Qed.

Lemma plain_kept {A} os mirror past (p : Prog A) :
  Only plain p → mirror_held mirror past → safe prepare_guard os past p (λ past' _, kept mirror past past').
Proof.
  intros Hp Hh. eapply safe_mono; [apply (plain_keeps os mirror past p (λ _ _, True)); [done..|by apply safe_grow]|].
  intros past' a (_ & H1 & H2). split_and!; [done..|]. by eapply mirror_held_locks.
Qed.

Lemma lockPath_evidence os past holder :
  safe anything os past (worktreeOwnershipLockPath holder) (λ past' r, ∀ lockPath, r = inr lockPath →
    ∃ run, Ev (Git Output holder ["rev-parse"; "--git-dir"]) run ∈ past' ∧
      let gitDir := TrimSpace (gr_Stdout run) in
      gitDir ≠ "" ∧ lockPath = Join [if negb (IsAbs gitDir) then Join [holder; gitDir] else gitDir; "aiops-owner.lock"]).
Proof.
  unfold worktreeOwnershipLockPath. apply safe_or_fail, safe_wrap_error.
  eapply safe_mono; [apply runGitOutput_evidence|]. intros p1 [e|out] [_ H]; [done|].
  destruct (H out eq_refl) as (run & Hrun & <-). cbv zeta.
  destruct (String.eqb_spec (TrimSpace (gr_Stdout run)) ""); [done|].
  intros lockPath [= <-]. exists run. done.
Qed.

Lemma ownership_locked_prefix l l' w n fd : l `prefix_of` l' → ownership_locked l w n fd → ownership_locked l' w n fd.
Proof.
  intros [m ->] (run & before & after & H1 & H2 & ->). exists run, before, (after ++ m).
  split_and!; [done..|]. cbv zeta. by rewrite <- !app_assoc.
Qed.
Lemma ownership_free_prefix l l' w : l `prefix_of` l' → ownership_free l w → ownership_free l' w.
Proof. intros Hl [fd H]. exists fd. by eapply ownership_locked_prefix. Qed.

Lemma held_probe_safe os past mirror holder :
  mirror_held mirror past →
  safe prepare_guard os past (worktreeOwnershipLockHeld holder) (λ past' held, kept mirror past past' ∧
    (held = false → ownership_free past' holder)).
Proof.
  intros Hh. unfold worktreeOwnershipLockHeld.
  apply safe_bind. eapply safe_mono; [apply safe_combine; [by apply plain_kept; [apply _|]|apply lockPath_evidence]|].
  intros p1 [e|lockPath] [K1 Hpath]; [by split|].
  destruct (Hpath lockPath eq_refl) as (run & Hrun & Hne & ->).
  apply safe_bind. eapply safe_mono; [apply file_lock_safe|].
  intros p2 [e|fd] [L2 H2].
  { split; [|done]. eapply kept_trans; [exact K1|]. split_and!; [done..|]. eapply mirror_held_locks; [done|]. apply K1. }
  destruct H2 as [E2 (before & -> & L)].
  apply safe_bind. eapply safe_mono; [apply release_file_lock_safe|]. intros p3 _ [L3 E3].
  assert (locks p3 = locks p1) as E.
  { rewrite E3, E2. cbn [mutexes flocks]. rewrite remove_one_same. by destruct (locks p1). }
  split.
  - eapply kept_trans; [exact K1|]. split_and!; [etrans; [exact L2|exact L3]|done|]. eapply mirror_held_locks; [done|]. apply K1.
  - intros _. eapply ownership_free_prefix; [exact L3|].
    exists fd, run, before, []. split; [exact (prefix_in _ _ _ L Hrun)|]. by split.
Qed.

(** Git removes a worktree. *)
Lemma git_remove_kept os mirror past p :
  mirror_held mirror past → p = workdir ∧ not_reusable past workdir mirror ∨ stale_worktree past mirror p →
  safe prepare_guard os past (runGitQuiet mirror ["worktree"; "remove"; "--force"; p]) (λ past' _, kept mirror past past').
Proof.
  intros Hh Hp. unfold runGitQuiet. apply safe_do.
  - split; [|by exists mirror]. intros q [= <-]. by exists mirror.
  - intros run. assert (kept mirror past (past ++ [Ev (Git Discard mirror ["worktree"; "remove"; "--force"; p]) run])).
    { split_and!; [by eexists|by rewrite locks_snoc|]. eapply mirror_held_locks; [|done]. by rewrite locks_snoc. }
    by destruct (classifyGitContextErr run).
Qed.

(** *** Removing the workspace *)

#[export] Instance only_resolve_from n p : Only no_lock (resolve_from n p).
Proof.
  revert p. induction n as [|n IH]; intros p; [exact I|]. cbn [resolve_from]. only_tac.
Qed.
#[export] Instance only_validateRemoval r p : Only no_lock (validateRemoval r p).
Proof.
  assert (∀ e, Only no_lock (from_error e)) by (by intros []).
  unfold validateRemoval, resolveRemovePath. only_tac.
Qed.
#[export] Instance only_ValidateRemove r p : Only no_lock (ValidateRemove r p).
Proof. unfold ValidateRemove. apply _. Qed.
#[export] Instance only_ValidatedRemoval_Remove v : Only no_lock (ValidatedRemoval_Remove v).
Proof. unfold ValidatedRemoval_Remove. only_tac. Qed.
#[export] Instance only_SafeRemove r p : Only no_lock (SafeRemove r p).
Proof. unfold SafeRemove. only_tac. Qed.

Lemma SafeRemove_kept os `{!AbsoluteOS os} mirror past :
  mirror_held mirror past → not_reusable past workdir mirror →
  safe prepare_guard os past (SafeRemove root workdir) (λ past' _, kept mirror past past').
Proof.
  intros Hh Hnr. eapply safe_mono; [apply (only_frame no_lock _ _ _ _ (λ _ _, True)); [apply only_SafeRemove|]|].
  2: { intros past' a [_ (new & -> & Hnew)]. split_and!; [by eexists|by apply locks_app_plain|by apply mirror_held_plain]. }
  eapply (only_guard no_lock); [apply _|].
  set (G := λ before B (c : Sys B), (∃ new, before = past ++ new ∧ all_calls no_lock new) → prepare_guard before B c).
  assert (LooksAllowed G) as HL. { intros p B c Hc _. by apply prepare_looks. }
  eapply safe_mono; [apply (remove_across_safe G os root workdir (Done tt) past); [by intros|]|].
  2: { by intros past' a _. }
  intros first middle second canonical H1 H2 (new & E & Hnew). apply app_inv_head in E. subst new.
  assert (mirror_held mirror (past ++ first ++ middle ++ second)) as Hh' by by apply mirror_held_plain.
  split; [|by exists mirror]. intros p [= <-]. exists mirror. split; [done|]. right. left. split_and!; [done| |].
  - eapply not_reusable_prefix; [by eexists|done].
  - by exists past, first, middle, second, canonical.
Qed.

(** *** Reclaiming *)

Lemma our_worktree_prefix l l' w m : l `prefix_of` l' → our_worktree l w m → our_worktree l' w m.
Proof.
  intros Hl [(i & Hi & Hs) (run & Hr & q & H1 & H2)]. split.
  - exists i. split; [by eapply prefix_in|done].
  - exists run. split; [by eapply prefix_in|]. exists q. split; by eapply prefix_in.
Qed.

Lemma stale_prefix l l' m h : l `prefix_of` l' → stale_worktree l m h → stale_worktree l' m h.
Proof.
  intros Hl (H0 & (run & Hr & Hf) & H1 & (rr & rh & rw & R1 & R2 & R3 & Hneq) & H3).
  split; [done|]. split; [exists run; split; [by eapply prefix_in|done]|].
  split; [by eapply our_worktree_prefix|]. split; [|by eapply ownership_free_prefix].
  exists rr, rh, rw. split_and!; [by eapply real_prefix..|by apply Hneq|by apply Hneq|by apply Hneq].
Qed.

Lemma reclaim_kept os mirror past :
  mirror_held mirror past →
  safe prepare_guard os past (reclaimForeignBranchWorktree getwd root workdir mirror branch)
    (λ past' _, kept mirror past past').
Proof.
  intros Hh. unfold reclaimForeignBranchWorktree.
  apply safe_bind. eapply safe_mono; [apply (plain_keeps os mirror); [apply _|done|apply holder_evidence]|].
  intros p1 holder (Hholder & L1 & E1). assert (kept mirror past p1) as K1.
  { split_and!; [done..|]. by eapply mirror_held_locks. }
  destruct (String.eqb_spec holder "") as [|Hne]; [done|]. destruct (Hholder Hne) as (run & Hrun & Hfind).
  apply safe_bind. eapply safe_mono; [apply (plain_keeps os mirror); [apply _|apply K1|apply foreign_evidence]|].
  intros p2 foreign ([_ Hforeign] & L2 & E2). assert (kept mirror past p2) as K2.
  { eapply kept_trans; [exact K1|]. split_and!; [done..|]. eapply mirror_held_locks; [exact E2|]. apply K1. }
  destruct foreign; [|done]. cbn [negb]. destruct (Hforeign eq_refl) as (rr & rh & rw & R1 & R2 & R3 & N1 & N2 & N3).
  apply safe_bind. eapply safe_mono; [apply (plain_keeps os mirror); [apply _|apply K2|apply classify_evidence]|].
  intros p3 c (Hc & L3 & E3). assert (kept mirror past p3) as K3.
  { eapply kept_trans; [exact K2|]. split_and!; [done..|]. eapply mirror_held_locks; [exact E3|]. apply K2. }
  destruct c as [[] f]; [|done]. cbn [fst negb] in *.
  apply safe_bind. eapply safe_mono; [apply (held_probe_safe os p3 mirror); apply K3|].
  intros p4 held (K4 & Hheld). pose proof (kept_trans _ _ _ _ K3 K4) as K4'.
  destruct held; [done|]. specialize (Hheld eq_refl).
  assert (stale_worktree p4 mirror holder) as Hstale.
  { assert (p3 `prefix_of` p4) as L34 by apply K4. assert (p2 `prefix_of` p4) as L24 by by etrans.
    split; [done|]. split; [exists run; split; [|done]|split; [exact (our_worktree_prefix _ _ _ _ L34 Hc)|split; [|done]]].
    - eapply prefix_in; [|exact Hrun]. by etrans.
    - exists rr, rh, rw.
      pose proof (real_prefix _ _ _ _ L24 R1). pose proof (real_prefix _ _ _ _ L24 R2).
      by pose proof (real_prefix _ _ _ _ L24 R3). }
  apply safe_bind. eapply safe_mono; [apply (git_remove_kept os mirror); [apply K4|by right]|].
  intros p5 u5 K5. pose proof (kept_trans _ _ _ _ K4' K5) as K5'.
  unfold ignore. apply safe_do.
  - split; [|exists mirror; apply K5]. intros q [= <-]. exists mirror. split; [apply K5|]. right. right.
    eapply stale_prefix; [apply K5|done].
  - intros r. eapply kept_trans; [exact K5'|]. split_and!; [by eexists|by rewrite locks_snoc|].
    eapply mirror_held_locks; [|apply K5]. by rewrite locks_snoc.
Qed.

(** *** Attaching and the mirror *)

Lemma kept_step {A B} os mirror past (p : Prog A) (f : A → Prog B) Q :
  Only plain p → mirror_held mirror past →
  (∀ past' a, kept mirror past past' → safe prepare_guard os past' (f a) Q) →
  safe prepare_guard os past (prog_bind p f) Q.
Proof.
  intros Hp Hh Hf. apply safe_bind. eapply safe_mono; [by apply (plain_kept os mirror)|].
  intros past' a K. by apply Hf.
Qed.

Lemma kept_or_fail {A B} os mirror past (p : Fallible A) (f : A → Fallible B) Q :
  safe prepare_guard os past p (λ past' _, kept mirror past past') →
  (∀ past' e, kept mirror past past' → Q past' (inl e)) →
  (∀ past' a, kept mirror past past' → safe prepare_guard os past' (f a) Q) →
  safe prepare_guard os past (or_fail p f) Q.
Proof. intros Hp He Hf. apply safe_or_fail. eapply safe_mono; [exact Hp|]. intros past' [e|a] K; [by apply He|by apply Hf]. Qed.

Lemma wrap_kept {A} os mirror past text (p : Fallible A) :
  safe prepare_guard os past p (λ past' _, kept mirror past past') →
  safe prepare_guard os past (wrap_error text p) (λ past' _, kept mirror past past').
Proof. intros H. by apply safe_wrap_error. Qed.

Lemma create_kept os `{!AbsoluteOS os} mirror past startRef foreignCommonDir :
  mirror_held mirror past → not_reusable past workdir mirror →
  safe prepare_guard os past (createWorktree getwd root workdir mirror branch startRef foreignCommonDir)
    (λ past' _, kept mirror past past').
Proof.
  intros Hh Hnr. unfold createWorktree.
  apply (kept_step os mirror); [destruct (negb _); apply _|done|]. intros p1 _ K1.
  assert (not_reusable p1 workdir mirror) as Hnr1 by (eapply not_reusable_prefix; [apply K1|done]).
  apply safe_bind. eapply safe_mono; [apply (git_remove_kept os mirror); [apply K1|by left]|].
  intros p2 r2 K2. pose proof (kept_trans _ _ _ _ K1 K2) as K12.
  eapply (kept_or_fail os mirror);
    [by apply wrap_kept, SafeRemove_kept; [done|apply K2|eapply not_reusable_prefix; [apply K2|]]|..].
  { intros p3 e K3. by eapply kept_trans. }
  intros p3 _ K3. pose proof (kept_trans _ _ _ _ K12 K3) as K13.
  apply safe_bind. eapply safe_mono; [by apply (reclaim_kept os mirror); apply K3|]. intros p4 u4 K4.
  pose proof (kept_trans _ _ _ _ K13 K4) as K14.
  eapply safe_mono; [apply (plain_kept os mirror); [apply _|apply K4]|].
  intros p5 r K5. by eapply kept_trans.
Qed.

Lemma attach_kept os `{!AbsoluteOS os} mirror past startRef workdirExists :
  mirror_held mirror past → (workdirExists = false → not_reusable past workdir mirror) →
  safe prepare_guard os past (attachWorktree getwd root workdir mirror branch startRef workdirExists)
    (λ past' _, kept mirror past past').
Proof.
  intros Hh Hnr. unfold attachWorktree. apply safe_bind.
  assert (safe anything os past (if workdirExists then classifyExistingWorkdir workdir mirror else Done (false, ""))
    (λ p r, r.1 = false → not_reusable p workdir mirror)) as Hc.
  { destruct workdirExists; [|intros _; by apply Hnr].
    eapply safe_mono; [apply classify_evidence|]. by intros p [[] f] H. }
  eapply safe_mono; [apply safe_combine; [|exact Hc]; apply (plain_kept os mirror); [destruct workdirExists; apply _|done]|].
  intros p1 [reusable foreign] [K1 H1]. destruct reusable.
  - apply (kept_step os mirror); [apply _|apply K1|]. intros p2 r K2. by eapply kept_trans.
  - apply safe_bind. eapply safe_mono; [apply create_kept; [done|apply K1|by apply H1]|]. intros p2 r K2. by eapply kept_trans.
Qed.

Lemma remove_mirror_kept os mirror past p :
  mirror_held mirror past → p = mirror ∨ p = mirror +:+ mirrorStagingSuffix →
  (∃ e, Ev (Stat (Join [mirror; "HEAD"])) (inl e) ∈ past) →
  safe prepare_guard os past (call (RemoveAll p)) (λ past' _, kept mirror past past').
Proof.
  intros Hh Hp He. apply safe_call.
  - split; [|by exists mirror]. intros q [= <-]. exists mirror. split; [done|]. by left.
  - intros r _. split_and!; [by eexists|by rewrite locks_snoc|].
    eapply mirror_held_locks; [|exact Hh]. by rewrite locks_snoc.
Qed.

Lemma clone_steps_result os past u mirror staging :
  safe anything os past (clone_steps u mirror staging) (λ _ r, ∀ m, r = inr m → m = mirror).
Proof.
  unfold clone_steps. do 5 (apply safe_or_fail, safe_grow; intros ? [e|[]] _; [done|]).
  by intros m [= <-].
Qed.

Definition mirror_result (mirror : string) (past past' : list Event) (r : Err + string) : Prop :=
  kept mirror past past' ∧ ∀ m, r = inr m → m = mirror.

Lemma clone_kept os mirror past cloneURL :
  mirror_held mirror past → (∃ e, Ev (Stat (Join [mirror; "HEAD"])) (inl e) ∈ past) →
  safe prepare_guard os past (cloneMirrorLocked cloneURL mirror) (mirror_result mirror past).
Proof.
  intros Hh He. unfold cloneMirrorLocked. cbv zeta.
  assert (∀ l, past `prefix_of` l → ∃ e, Ev (Stat (Join [mirror; "HEAD"])) (inl e) ∈ l) as He'.
  { intros l Hl. destruct He as [e He]. exists e. by eapply prefix_in. }
  apply safe_bind. eapply safe_mono; [apply (remove_mirror_kept os mirror); [done|by right|done]|]. intros p1 u1 K1.
  apply safe_bind. eapply safe_mono; [apply (remove_mirror_kept os mirror); [apply K1|by left|apply He', K1]|]. intros p2 u2 K2.
  pose proof (kept_trans _ _ _ _ K1 K2) as K12.
  apply safe_bind. eapply safe_mono; [apply (plain_keeps os mirror); [apply _|apply K2|apply clone_steps_result]|].
  intros p3 r (Hr & L3 & E3). assert (kept mirror past p3) as K13.
  { eapply kept_trans; [exact K12|]. split_and!; [done..|]. eapply mirror_held_locks; [exact E3|]. apply K2. }
  destruct r as [e|m]; [|by split].
  apply safe_bind. eapply safe_mono; [apply (remove_mirror_kept os mirror); [apply K13|by right|apply He', K13]|].
  intros p4 u4 K4. split; [by eapply kept_trans|done].
Qed.

Lemma ensure_mirror_kept os mirror past cloneURL :
  mirror_held mirror past →
  safe prepare_guard os past (ensureMirrorLocked cloneURL mirror) (mirror_result mirror past).
Proof.
  intros Hh. unfold ensureMirrorLocked.
  eapply (kept_or_fail os mirror); [by apply (plain_kept os mirror); [apply _|]|by intros p1 e K1; split|].
  intros p1 _ K1. apply safe_do; [done|]. intros head. set (p2 := p1 ++ _).
  assert (kept mirror past p2) as K2.
  { eapply kept_trans; [exact K1|]. split_and!; [by eexists|by unfold p2; rewrite locks_snoc|].
    eapply mirror_held_locks; [|apply K1]. unfold p2. by rewrite locks_snoc. }
  destruct head as [e|info].
  - eapply safe_mono; [apply clone_kept; [apply K2|exists e; unfold p2; in_log]|].
    intros p3 r [K3 Hr]. split; [by eapply kept_trans|done].
  - do 3 (eapply (kept_or_fail os mirror); [apply (plain_kept os mirror); [apply _|
      match goal with K : kept mirror past ?l |- mirror_held mirror ?l => apply K end]|
      intros ? e K; split; [eapply kept_trans; [|exact K]; done|done]|];
      intros ? _ K; match goal with K0 : kept mirror past ?l, K : kept mirror ?l _ |- _ =>
        pose proof (kept_trans _ _ _ _ K0 K); clear K0 K end).
    split; [done|]. by intros m [= <-].
Qed.

(** *** The whole preparation *)

Lemma ownership_safe os mirror past :
  mirror_held mirror past →
  safe prepare_guard os past (acquireWorktreeOwnership workdir) (λ past' r,
    match r with
    | inr fd => locks past' = {| mutexes := mutexes (locks past); flocks := fd :: flocks (locks past) |}
    | inl _ => locks past' = locks past
    end).
Proof.
  intros Hh. unfold acquireWorktreeOwnership.
  eapply (kept_or_fail os mirror); [by apply (plain_kept os mirror); [apply _|]|intros p1 e K; apply K|].
  intros p1 lockPath (_ & E1 & _). eapply safe_mono; [apply file_lock_safe|].
  intros p2 [e|fd] [_ H]; rewrite <- E1; [done|apply H].
Qed.

(** The lease that is handed out is the lock of that worktree. *)
Lemma ownership_evidence os past :
  safe anything os past (acquireWorktreeOwnership workdir) (λ past' r,
    ∀ fd, r = inr fd → ownership_locked past' workdir false fd).
Proof.
  unfold acquireWorktreeOwnership. apply safe_or_fail. eapply safe_mono; [apply lockPath_evidence|].
  intros p1 [e|lockPath] H; [done|]. destruct (H lockPath eq_refl) as (run & Hrun & Hne & ->).
  eapply safe_mono; [apply (safe_guard_mono prepare_guard anything); [done|]; apply file_lock_safe|].
  intros p2 [e|fd] [_ H2]; [done|]. intros ? [= <-]. destruct H2 as (_ & before & -> & L).
  exists run, before, []. split; [exact (prefix_in _ _ _ L Hrun)|]. by split.
Qed.

Lemma prepare_locked_safe os `{!AbsoluteOS os} mirror past t exists_ :
  task_WorkBranch t = branch → mirror_held mirror past → (exists_ = false → not_reusable past workdir mirror) →
  safe prepare_guard os past (prepare_locked getwd root workdir mirror t exists_) (λ past' r,
    match r with
    | inr p => locks past' = {| mutexes := mutexes (locks past); flocks := release p :: flocks (locks past) |}
    | inl _ => locks past' = locks past
    end).
Proof.
  intros Hb Hh Hnr. unfold prepare_locked.
  apply safe_or_fail. eapply safe_mono; [by apply (ensure_mirror_kept os mirror)|].
  intros p1 [e|m] [K1 Hm]; [apply K1|]. rewrite (Hm m eq_refl).
  apply (kept_step os mirror); [apply _|apply K1|]. intros p2 startRef K2. pose proof (kept_trans _ _ _ _ K1 K2) as K12.
  rewrite Hb. apply safe_bind.
  eapply safe_mono; [apply (attach_kept os mirror); [apply K2|]|].
  { intros He. eapply not_reusable_prefix; [apply K12|]. by apply Hnr. }
  intros p3 [created r] K3.
  pose proof (kept_trans _ _ _ _ K12 K3) as (_ & E3 & H3). cbn [fst snd].
  destruct r as [e|u]; [done|].
  apply safe_or_fail. eapply safe_mono; [by apply (ownership_safe os mirror)|].
  intros p4 [e|fd] H; rewrite <- E3; done.
Qed.

Lemma MirrorRoot_safe os past o :
  safe prepare_guard os past (MirrorRoot o) (λ past' _, locks past' = locks past).
Proof.
  unfold MirrorRoot. destruct (negb _); [done|]. apply safe_do; [done|]. intros [d|].
  - destruct (negb _); [simpl; by rewrite locks_snoc|].
    apply safe_do; [done|]. intros tmp. simpl. by rewrite !locks_snoc.
  - apply safe_do; [done|]. intros tmp. simpl. by rewrite !locks_snoc.
Qed.

Lemma acquire_mirror_safe os past mirror :
  locks past = no_locks →
  safe prepare_guard os past (acquireMirrorLock mirror) (λ past' r,
    locks past' = match r with
                  | inr fd => {| mutexes := [mirror]; flocks := [fd] |}
                  | inl _ => no_locks
                  end).
Proof.
  intros E0. unfold acquireMirrorLock. apply safe_do; [done|]. intros u1.
  apply safe_bind. eapply safe_mono; [apply file_lock_safe|].
  intros p2 [e|fd] [_ H]; rewrite locks_snoc, E0 in H; cbn in H.
  - apply safe_do; [done|]. intros u2. simpl. rewrite locks_snoc, H. cbn. by destruct (decide (mirror = mirror)).
  - apply H.
Qed.

Lemma deferred_release_safe {A} os mirror fd past (p : Fallible A) (Q : list Fd → Err + A → Prop) :
  safe prepare_guard os past p (λ past' r, ∃ fds, locks past' = {| mutexes := [mirror]; flocks := fds |} ∧ Q (remove_one fd fds) r) →
  safe prepare_guard os past (deferred (release_mirror_lock mirror fd) p) (λ past' r,
    mutexes (locks past') = [] ∧ Q (flocks (locks past')) r).
Proof.
  intros H. unfold deferred. apply safe_bind. eapply safe_mono; [exact H|]. intros p1 r (fds & E1 & HQ).
  apply safe_bind. unfold release_mirror_lock. apply safe_bind.
  eapply safe_mono; [apply release_file_lock_safe|]. intros p2 u2 [_ E2].
  apply safe_call; [done|]. intros u3 _. simpl. rewrite locks_snoc, E2, E1. cbn.
  by destruct (decide (mirror = mirror)).
Qed.
End Preparation.

Lemma prepare_safe url_Parse getwd os `{!AbsoluteOS os} root override t past :
  locks past = no_locks →
  safe (prepare_guard getwd root (PathFor root t) (task_WorkBranch t)) os past
    (PrepareGitWorkspaceOwned url_Parse getwd root override t)
    (λ log r, locks log = {| mutexes := []; flocks := match r with inr p => [release p] | inl _ => [] end |}).
Proof.
  intros E0. unfold PrepareGitWorkspaceOwned. cbv zeta.
  apply safe_or_fail, safe_os_done; [done|intros e; by rewrite locks_snoc, E0|].
  apply safe_do; [done|]. intros info.
  set (p0 := (past ++ _) ++ _). assert (Ev (Stat (PathFor root t)) info ∈ p0) as Hin by (unfold p0; in_log).
  assert (locks p0 = no_locks) as E00 by (unfold p0; by rewrite !locks_snoc, E0).
  destruct (match info with inl _ => _ | inr _ => _ end) as [e|exists_] eqn:Hstat; [done|].
  assert (∀ mirror, exists_ = false → not_reusable p0 (PathFor root t) mirror) as Hnr.
  { intros mirror ->. left. exists info. split; [done|]. intros i ->. by injection Hstat. }
  apply safe_bind. eapply safe_mono; [apply safe_extends, MirrorRoot_safe|]. intros p1 mirrorRoot [E1 L1].
  set (mirror := mirrorPathFor _ _ _ _).
  apply safe_or_fail. eapply safe_mono; [apply safe_extends, acquire_mirror_safe; by rewrite E1|].
  intros p2 [e|fd] [E2 L2]; [done|].
  eapply safe_mono; [apply (deferred_release_safe _ _ _ _ os mirror fd p2 _
    (λ fds r, fds = match r with inr p => [release p] | inl _ => [] end))|].
  - eapply safe_mono; [apply (prepare_locked_safe _ _ _ _ os mirror); [done|..]|].
    + unfold mirror_held. by rewrite E2.
    + intros He. eapply not_reusable_prefix; [|by apply Hnr]. by etrans.
    + intros p3 [e|p] H; rewrite E2 in H; eexists; (split; [exact H|]); cbn.
      * by destruct (decide (fd = fd)).
      * destruct (decide (fd = release p)) as [->|]; [done|]. by destruct (decide (fd = fd)).
  - intros p3 r [Hm Hf]. destruct (locks p3). simpl in *. by subst.
Qed.



(** *** A run *)

(** Git finds a git directory; the worktree list names a stale worktree of the branch. *)
Definition demo_os : OS := fun B past c =>
  match c in Sys B return B with
  | Git Output dir args =>
      if bool_decide (args = ["worktree"; "list"; "--porcelain"])
      then git_ok ("worktree /old/ws" +:+ lf +:+ "branch refs/heads/ai/1" +:+ lf)
      else if bool_decide (args = ["rev-parse"; "--git-common-dir"])
      then git_ok (if String.eqb dir "/old/ws" then "/cache/host/o/r.git" else "/elsewhere/.git")
      else git_ok "/cache/host/o/r.git/worktrees/1"
  | c => quiet_os _ past c
  end.
Lemma demo_absolute : AbsoluteOS demo_os.
Proof. intros past p q Hp E. cbn in E. by injection E as <-. Qed.

Definition demo_task : Task :=
  {| task_ID := "t1"; task_SourceType := ""; task_SourceEventID := ""; task_RepoOwner := "o"; task_RepoName := "r";
     task_CloneURL := "git@host:o/r.git"; task_BaseBranch := "main"; task_WorkBranch := "ai/1"; task_Title := "";
     task_Description := ""; task_Actor := ""; task_Model := ""; task_Priority := 0; task_Attempts := 0;
     task_IssueRender := None |}.
Definition demo_run := exec demo_os [] (PrepareGitWorkspaceOwned (λ _, None) (Some "/") "/srv/ws" "/cache" demo_task).

(** The paths removed, in order. *)
Definition removed (log : list Event) : list string := omap (λ '(Ev c _), removes c) log.

Example demo_removed :
  removed demo_run.1 = ["/srv/ws/o/r/t1"; "/srv/ws/o/r/t1"; "/old/ws"; "/old/ws"] ∧
  demo_run.2 = inr {| Workdir := "/srv/ws/o/r/t1"; CreatedNow := true; release := 3 |}.
Proof. vm_compute. done. Qed.



(** * Where mirrors lie, which worktree holds a branch, what reuse touches

    Facts about the parts of a preparation: the path of a mirror is strictly below the
    mirror root for every clone URL; the worktree list is parsed back to the worktree
    that holds the branch; and a worktree that is reused is only reset and checked out
    again from a fully qualified ref. *)


(** ** Mirror paths *)

Lemma str_join_snoc sep l x y : str_join sep (l ++ [x]) +:+ y = str_join sep (l ++ [x +:+ y]).
Proof.
  induction l as [|a l IH]; [done|]. destruct l as [|b l].
  - cbn [app str_join]. by rewrite <- !str_app_assoc.
  - change (str_join sep ((a :: b :: l) ++ [x])) with (a +:+ sep +:+ str_join sep ((b :: l) ++ [x])).
    by rewrite <- !str_app_assoc, IH.
Qed.

(** Joining a path with a joined list of names is joining it with the names. *)
Lemma Join_nested root l l' : IsAbs root = true → l' ≠ [] → Join (root :: l ++ [str_join slash l']) = Join (root :: l ++ l').
Proof.
  intros Ha Hne. cbn [Join]. destruct root as [|c root]; [done|].
  change (String.eqb (String c root) "") with false. cbv iota. f_equal.
  assert (∀ x, str_join slash (x :: l ++ [str_join slash l']) = str_join slash (x :: l ++ l')) as H; [|apply H].
  induction l as [|a l IH]; intros x; cbn [app].
  - destruct l' as [|b l']; [done|]. done.
  - change (str_join slash (x :: ?y :: ?r)) with (x +:+ slash +:+ str_join slash (y :: r)).
    by rewrite IH.
Qed.

Lemma component_git s : component_ok s = true → real_name (s +:+ ".git") = true.
Proof.
  intros H. apply component_real in H as Hr. apply real_name_spec in Hr as (Hs & H0 & _). apply real_name_spec.
  assert (String.length (s +:+ ".git") ≥ 5)%nat as Hl.
  { rewrite str_length_app. destruct s; simpl; [done|lia]. }
  split_and!; [|intros E; rewrite E in Hl; simpl in Hl; lia..].
  clear -Hs. induction s as [|c s IH]; [done|]. cbn [has_slash] in Hs. apply orb_false_iff in Hs as [Hc Hs].
  rewrite str_app_cons. cbn [has_slash]. by rewrite Hc, IH.
Qed.

Section Mirrors.
Context (url_Parse : string → option (string * string)) (getwd : option string).

Lemma contained_below root path :
  IsAbs root = true → IsAbs path = true → pathContainedUnder getwd root path = true ↔ below root path.
Proof.
  intros Hr Hp. unfold pathContainedUnder, Abs. rewrite Hr, Hp.
  rewrite <- (below_Clean root path Hr Hp). unfold below.
  destruct (Rel_abs (Clean root) (Clean path)) as [(E & ->)|[(d & Hd & Hreal & E & ->)|(Hno & down & ->)]];
    [by apply IsAbs_Clean..| | |].
  - simpl. split; [done|]. intros (d & Hd & E'). rewrite E' in E.
    rewrite <- (app_nil_r (elements (Clean root))) in E at 2. by apply app_inv_head in E.
  - destruct (join_real d Hd Hreal) as (-> & _ & H2%String.eqb_neq & ->). rewrite H2. simpl. naive_solver.
  - rewrite goes_up_dotdot, orb_true_r. split; [done|]. naive_solver.
Qed.

(** For every clone URL, however its host and path are parsed, the mirror's path is a
    clean path strictly below an absolute mirror root: the host and the path's names,
    each a well-formed component, the last one with ".git"; the containment check never
    replaces it. *)
Theorem mirror_path_below_root (root cloneURL : string) (Hroot : IsAbs root = true) :
  let p := mirrorPathFor url_Parse getwd root cloneURL in
  clean_abs p ∧ below root p ∧
  ∃ host names last, elements p = elements root ++ host :: names ++ [last +:+ ".git"] ∧
    Forall (λ s, component_ok s = true) (host :: names ++ [last]).
Proof.
  cbv zeta. unfold mirrorPathFor. destruct (splitCloneURL url_Parse cloneURL) as [host path]. cbv zeta.
  set (parts := map sanitizeComponent (split_slash (TrimSuffix path ".git"))).
  assert (Forall (λ s, component_ok s = true) parts) as Hparts.
  { apply Forall_map, Forall_forall. intros s _. apply sanitizeComponent_ok. }
  destruct parts as [|last names _] eqn:E using rev_ind.
  { exfalso. apply (f_equal length) in E. unfold parts in E. rewrite length_map in E.
    pose proof (split_slash_nonempty (TrimSuffix path ".git")). by destruct (split_slash _). }
  rewrite str_join_snoc.
  set (h := sanitizeComponent host). assert (component_ok h = true) as Hh by apply sanitizeComponent_ok.
  assert (Join [root; h; str_join slash (names ++ [last +:+ ".git"])] = Join (root :: h :: names ++ [last +:+ ".git"])) as ->.
  { apply (Join_nested root [h]); [done|]. by destruct names. }
  set (l := h :: names ++ [last +:+ ".git"]).
  assert (real_names l) as Hl.
  { apply Forall_app in Hparts as [Hn Hlast]. inversion Hlast; subst. constructor; [by apply component_real|].
    apply Forall_app. split; [|by repeat constructor; apply component_git].
    eapply Forall_impl; [exact Hn|]. apply component_real. }
  destruct (elements_Join root l Hroot Hl) as [El Ha].
  assert (below root (Join (root :: l))) as Hb by (exists l; by rewrite El).
  unfold mirrorPathUnderRoot. rewrite (proj2 (contained_below root _ Hroot Ha) Hb).
  split_and!; [by apply Join_clean_abs|done|]. exists h, names, last. split; [done|]. by constructor.
Qed.
End Mirrors.

Lemma mirror_path_below_root_witness :
  mirrorPathFor (λ _, None) None "/cache" "git@host:../../etc/passwd.git" = "/cache/host/unknown/unknown/etc/passwd.git" ∧
  below "/cache" (mirrorPathFor (λ _, None) None "/cache" "git@host:../../etc/passwd.git").
Proof.
  split; [reflexivity|].
  refine (proj1 (proj2 (mirror_path_below_root (λ _, None) None "/cache" "git@host:../../etc/passwd.git" _))). reflexivity.
Defined.

(** ** The worktree list *)

(** One record of `git worktree list --porcelain`. *)
Record WorktreeEntry := { we_path : string; we_attributes : list string }.

Definition entry_lines (e : WorktreeEntry) : list string :=
  ("worktree " +:+ we_path e) :: we_attributes e ++ [""].
Fixpoint print_lines (lines : list string) : string :=
  match lines with [] => "" | l :: lines => l +:+ lf +:+ print_lines lines end.
Definition print_worktrees (es : list WorktreeEntry) : string := print_lines (concat (map entry_lines es)).

Definition one_line (s : string) : Prop := split_lines s = [s] ∧ trim_cr s = s.
Definition entry_ok (e : WorktreeEntry) : Prop :=
  one_line ("worktree " +:+ we_path e) ∧
  Forall (λ a, one_line a ∧ CutPrefix a "worktree " = None) (we_attributes e).

(** The first worktree with the branch. *)
Definition holder_of (branch : string) (es : list WorktreeEntry) : string :=
  match List.find (λ e, existsb (String.eqb ("branch refs/heads/" +:+ branch)) (we_attributes e)) es with
  | Some e => we_path e
  | None => ""
  end.

Lemma split_print lines : Forall one_line lines → split_lines (print_lines lines) = lines ++ [""].
Proof.
  induction 1 as [|l lines [Hl _] _ IH]; [done|]. cbn [print_lines]. by rewrite split_lines_app, Hl, IH.
Qed.


Lemma find_branch_attributes want path attrs rest :
  want ≠ "" → Forall (λ a, one_line a ∧ CutPrefix a "worktree " = None) attrs →
  find_branch want path (attrs ++ "" :: rest) =
  if existsb (String.eqb want) attrs then path else find_branch want path rest.
Proof.
  intros Hw. induction 1 as [|a attrs [[_ Ht] Ha] _ IH]; cbn [app find_branch existsb].
  - by destruct want.
  - rewrite Ht, Ha, IH, (String.eqb_sym want). by destruct (String.eqb a want).
Qed.

(** What git prints for a list of worktrees is read back to the path of the first one
    that has the branch checked out, whole names compared, and to nothing when there is
    none. *)
Theorem worktree_list_roundtrip (branch : string) (es : list WorktreeEntry) (Hes : Forall entry_ok es) :
  find_branch ("branch refs/heads/" +:+ branch) "" (split_lines (print_worktrees es)) = holder_of branch es.
Proof.
  unfold print_worktrees. rewrite split_print.
  2: { apply Forall_concat, Forall_map. eapply Forall_impl; [exact Hes|]. intros e [H1 H2].
       constructor; [done|]. apply Forall_app. split; [|by repeat constructor].
       eapply Forall_impl; [exact H2|]. by intros a [? _]. }
  assert ("branch refs/heads/" +:+ branch ≠ "") as Hw by done.
  revert Hw. unfold holder_of. generalize ("branch refs/heads/" +:+ branch). intros want Hw.
  generalize "" at 1. induction Hes as [|e es [H1 H2] _ IH]; intros path.
  { by destruct want. }
  cbn [map concat entry_lines app find_branch List.find]. destruct H1 as [_ ->]. rewrite CutPrefix_of.
  rewrite <- !app_assoc. cbn [app]. rewrite find_branch_attributes by done.
  destruct (existsb _ (we_attributes e)); [done|apply IH].
Qed.

Lemma worktree_list_roundtrip_witness :
  let es := [{| we_path := "/cache/r.git"; we_attributes := ["bare"] |};
             {| we_path := "/ws/20"; we_attributes := ["HEAD 12ab"; "branch refs/heads/ai/20"] |};
             {| we_path := "/ws/2"; we_attributes := ["HEAD 12ab"; "branch refs/heads/ai/2"] |}] in
  find_branch "branch refs/heads/ai/2" "" (split_lines (print_worktrees es)) = "/ws/2".
Proof.
  cbv zeta. refine (worktree_list_roundtrip "ai/2" _ _). by repeat constructor.
Defined.

(** ** Reuse *)

(** The git commands that leave untracked files alone. *)
Definition keeps_untracked (args : list string) : bool :=
  match args with
  | command :: _ => existsb (String.eqb command) ["rev-parse"; "reset"; "checkout"; "config"]
  | [] => false
  end.
(** The calls of a reuse: those git commands, looking, and writing git's own files. *)
Definition reuse_call : Calls := λ B c,
  match c with
  | Git _ _ args => keeps_untracked args
  | EvalSymlinks _ | Lstat _ | CreateTemp | MkdirAll _ | ReadFile _ => true
  | OpenFile _ flags _ => negb (existsb (String.eqb "O_TRUNC") flags)
  | FdWrite _ _ | Close _ | WriteFile _ _ | Chmod _ _ => true
  | _ => false
  end.

Lemma only_git (P : Calls) dir args :
  (∀ s, P _ (Git s dir args) = true) → P _ CreateTemp = true →
  Only P (runGit dir args) ∧ Only P (runGitQuiet dir args) ∧ Only P (runGitOutput dir args).
Proof.
  intros HG HT. unfold runGit, runGitQuiet, runGitOutput.
  split_and!; repeat (cbv zeta; match goal with
    | |- Only _ (prog_bind _ _) => apply only_bind; [|intros ?]
    | |- Only _ (call _) => apply only_call; auto
    | |- Only _ (if ?x then _ else _) => destruct x
    | |- Only _ (match ?x with _ => _ end) => destruct x
    end); try exact I; apply only_finish.
Qed.
Ltac only_git_tac := match goal with
  | |- Only ?P (runGit ?d ?a) => apply (only_git P d a); [by intros []|done]
  | |- Only ?P (runGitQuiet ?d ?a) => apply (only_git P d a); [by intros []|done]
  | |- Only ?P (runGitOutput ?d ?a) => apply (only_git P d a); [by intros []|done]
  end.
#[export] Hint Extern 1 (Only reuse_call (runGit _ _)) => only_git_tac : typeclass_instances.
#[export] Hint Extern 1 (Only reuse_call (runGitQuiet _ _)) => only_git_tac : typeclass_instances.
#[export] Hint Extern 1 (Only reuse_call (runGitOutput _ _)) => only_git_tac : typeclass_instances.

#[export] Instance reuse_write_each fd texts : Only reuse_call (write_each fd texts).
Proof.
  induction texts as [|x texts IH]; [exact I|]. cbn [write_each]. unfold close_and_fail. only_tac.
Qed.
#[export] Instance reuse_excludes w : Only reuse_call (EnsureSensitiveArtifactExcludes w).
Proof.
  unfold EnsureSensitiveArtifactExcludes, ensureSensitiveArtifactExcludeFile, installSensitiveArtifactHook,
    appendSensitiveArtifactExcludes, gitPath. only_tac.
Qed.
#[export] Instance reuse_classify w m : Only reuse_call (classifyExistingWorkdir w m).
Proof. unfold classifyExistingWorkdir, sameRealPath. only_tac. Qed.
#[export] Instance reuse_reuse w b r : Only reuse_call (reuseWorktree w b r).
Proof. unfold reuseWorktree. only_tac. Qed.

Lemma attach_outcome_safe getwd os root workdir mirror branch startRef exists_ :
  safe anything os [] (attachWorktree getwd root workdir mirror branch startRef exists_) (λ log out,
    (out.1 = false → all_calls reuse_call log ∧ our_worktree log workdir mirror) ∧
    (out.1 = true → out.2 = inr tt → ∃ s run,
       Ev (Git s mirror ["worktree"; "add"; "--no-track"; "-B"; branch; workdir; startRef]) run ∈ log ∧
       classifyGitContextErr run = None)).
Proof.
  unfold attachWorktree. apply safe_bind.
  assert (safe anything os [] (if exists_ then classifyExistingWorkdir workdir mirror else Done (false, ""))
    (λ p r, (r.1 = true → our_worktree p workdir mirror) ∧ all_calls reuse_call p)) as Hc.
  { destruct exists_; [|split; [done|constructor]].
    eapply safe_mono; [apply only_frame; [apply reuse_classify|apply classify_evidence]|].
    intros p r [H (new & -> & Hn)]. split; [|done]. intros Hr. by rewrite Hr in H. }
  eapply safe_mono; [exact Hc|]. intros p1 [reusable foreign] [Hev Hall]. destruct reusable.
  - apply safe_bind. eapply safe_mono; [apply (only_frame reuse_call _ _ _ _ (λ _ _, True)); [apply reuse_reuse|by apply safe_grow]|].
    intros p2 r [_ (new & -> & Hn)]. split; [|done]. intros _. split; [by apply Forall_app|].
    eapply our_worktree_prefix; [by eexists|]. by apply Hev.
  - apply safe_bind. unfold createWorktree.
    apply safe_bind, safe_grow; intros p2 u2 _. apply safe_bind, safe_grow; intros p3 u3 _.
    apply safe_or_fail, safe_grow; intros p4 [e|u4] _; [done|].
    apply safe_bind, safe_grow; intros p5 u5 _. apply safe_or_fail, safe_grow; intros p6 [e|u6] _; [done|].
    apply safe_or_fail, safe_wrap_error. unfold runGit.
    assert (∀ p run r, Ev (Git r mirror ["worktree"; "add"; "--no-track"; "-B"; branch; workdir; startRef]) run ∈ p →
      classifyGitContextErr run = None →
      safe anything os p (wrap_error "install sensitive artifact excludes" (EnsureSensitiveArtifactExcludes workdir))
        (λ past' a, safe anything os past' (Done (true, a)) (λ log out,
          (out.1 = false → all_calls reuse_call log ∧ our_worktree log workdir mirror) ∧
          (out.1 = true → out.2 = inr tt → ∃ s run,
             Ev (Git s mirror ["worktree"; "add"; "--no-track"; "-B"; branch; workdir; startRef]) run ∈ log ∧
             classifyGitContextErr run = None)))) as Hend.
    { intros p run s Hin Hrun. apply safe_grow. intros p' a Hp. split; [done|]. intros _ _. exists s, run.
      split; [by eapply prefix_in|done]. }
    apply safe_do; [done|]. intros []; cbn [negb]; (apply safe_do; [done|]); intros run;
      destruct (classifyGitContextErr run) eqn:Er; cbn [finish]; try done; (eapply Hend; [in_log|exact Er]).
Qed.

(** A workspace that is reused was found to be a worktree of the task's mirror and is
    only looked at, reset and checked out: no call removes, truncates or cleans anything;
    and one reported as created without error was added by git at the start ref. *)
Theorem attach_outcome getwd (os : OS) (root workdir mirror branch startRef : string) (workdirExists : bool) :
  let '(log, (createdNow, err)) :=
    exec os [] (attachWorktree getwd root workdir mirror branch startRef workdirExists) in
  (createdNow = false → all_calls reuse_call log ∧ our_worktree log workdir mirror) ∧
  (createdNow = true → err = inr tt → ∃ streams run,
     Ev (Git streams mirror ["worktree"; "add"; "--no-track"; "-B"; branch; workdir; startRef]) run ∈ log ∧
     classifyGitContextErr run = None).
Proof.
  pose proof (safe_exec _ _ _ _ _ (attach_outcome_safe getwd os root workdir mirror branch startRef workdirExists)) as H.
  destruct (exec _ _ _) as [log [created err]]. exact (proj1 H).
Qed.

(** The base is always named in full, the remote branch first. *)
Lemma start_ref_qualified (os : OS) past mirror base :
  let '(log, ref) := exec os past (resolveStartRef mirror base) in
  ref = "refs/remotes/origin/" +:+ base ∨ ref = "refs/heads/" +:+ base.
Proof.
  unfold resolveStartRef, resolve_candidates, runGitQuiet. cbn.
  destruct (classifyGitContextErr _); cbn; [|by left].
  destruct (classifyGitContextErr _); cbn; [by left|by right].
Qed.
