(* ===== verification/Profiles.v ===== *)
(** * Tracker profiles

    internal/trackerprofile with its three adapters, and internal/trackerprofiles: what
    the free-form map [tracker.provider] of a workflow means to the selected tracker,
    which of its values are secrets, and under which environment names a secret may be
    found.  A provider map is a [gmap]; copying one so that later writes stay private is
    the identity here, where maps are values.  The theorems are in EnvPolicy. *)

From S2P Require Import Prelude GoStd Payload Paths GitCmd.

(** The values a provider map is inspected for. *)
Inductive ProviderValue :=
| PString (s : string)
| PInt (z : Z)
| PInt64 (z : Z)
| PUint64 (z : Z)
| PFloat64 (f : float64)
| POther.
Notation provider_map := (gmap string ProviderValue).
Notation lookup_env := (string → option string).

Inductive ProfileError :=
| NotAString (key : string)
| BadPagination (key : string)
| MissingVariable (key envName : string)
| MissingSecret (reason : option ProfileError) (key : string)
| MissingField (key : string)
| BadRepo
| UnsupportedKind (kind : string).

Record Base := {
  AdapterKind : string;
  ProviderMap : provider_map;
  Secrets : list string;
  SecretEnvs : list string;
  SecretFields : list string
}.

Definition Result (A : Type) : Type := ProfileError + A.
Definition res_bind {A B} (r : Result A) (k : A → Result B) : Result B :=
  match r with inl e => inl e | inr a => k a end.
Notation "'let+' x := m 'in' k" := (res_bind m (fun x => k))
  (at level 200, x pattern, m at level 100, k at level 200) : go_scope.

Definition CloneProvider (provider : option provider_map) : provider_map := default ∅ provider.

(** [trackerprofile.String]: the text, and whether the key is there. *)
Definition ProfileString (provider : provider_map) (key : string) : Result (string * bool) :=
  match provider !! key with
  | None => inr ("", false)
  | Some (PString text) => inr (text, true)
  | Some _ => inl (NotAString key)
  end.

(** [value != float64(int(value))]: no whole number, or out of range. *)
Definition float_whole (f : float64) : option Z :=
  match f with
  | FFin m e =>
      let v := if 0 <=? e then m * 2 ^ e else Z.quot m (2 ^ (- e)) in
      let whole := (0 <=? e) || (Z.rem m (2 ^ (- e)) =? 0) in
      if whole && (min64 <=? v) && (v <=? max64) then Some v else None
  | _ => None
  end.

Definition PaginationPages (provider : provider_map) (key : string) (fallback : Z) : Result Z :=
  match provider !! key with
  | None => inr fallback
  | Some value =>
      match match value with
            | PInt z => Some z
            | PInt64 z => Some z
            | PUint64 z => Some (wrap64 z)
            | PFloat64 f => float_whole f
            | _ => None
            end with
      | None => inl (BadPagination key)
      | Some number =>
          if number <? 0 then inl (BadPagination key)
          else if number =? 0 then inr fallback else inr number
      end
  end.

Definition env_letter (c : Ascii.ascii) : bool := byte_is 95 c || in_range 65 90 c || in_range 97 122 c.
Definition validEnvironmentCharacter (c : Ascii.ascii) (first : bool) : bool :=
  env_letter c || (negb first && in_range 48 57 c).
Fixpoint valid_env_from (first : bool) (s : string) : bool :=
  match s with
  | EmptyString => true
  | String c t => validEnvironmentCharacter c first && valid_env_from false t
  end.
Definition validEnvironmentName (name : string) : bool :=
  negb (String.eqb name "") && valid_env_from true name.

Definition explicitEnvReference (value : string) : string * bool :=
  if HasPrefix value "${" && HasSuffix value "}"
  then let name := str_take (String.length value - 3) (default "" (CutPrefix value "${")) in
       (name, validEnvironmentName name)
  else if HasPrefix value "$" && (1 <? Z.of_nat (String.length value))
  then let name := default "" (CutPrefix value "$") in (name, validEnvironmentName name)
  else ("", false).

(** [ResolveDocumentedString]: the value, the variable it came from, whether the key is
    there, and the map with the value put in. *)
Definition ResolveDocumentedString (provider : provider_map) (key : string) (lookup : lookup_env)
    : Result (string * string * bool * provider_map) :=
  let+ (value, present) := ProfileString provider key in
  if negb present then inr (value, "", present, provider)
  else
    let (envName, isReference) := explicitEnvReference value in
    if negb isReference then inr (value, "", true, provider)
    else
      match lookup envName with
      | None => inl (MissingVariable key envName)
      | Some resolved => inr (resolved, envName, true, <[key := PString resolved]> provider)
      end.

Definition ToUpper (s : string) : string :=
  str_map (fun c => if in_range 97 122 c then Ascii.ascii_of_nat (Ascii.nat_of_ascii c - 32) else c) s.

Fixpoint unique_from (seen : list string) (names : list string) : list string :=
  match names with
  | [] => []
  | name :: names =>
      if String.eqb name "" then unique_from seen names
      else let normalized := ToUpper name in
           if existsb (String.eqb normalized) seen then unique_from seen names
           else name :: unique_from (normalized :: seen) names
  end.
Definition uniqueNames (base : list string) (extra : string) : list string := unique_from [] (base ++ [extra]).

(** The secret, the names it may be found under, and whether the key is there. *)
Definition ResolveOptionalSecret (provider : provider_map) (key : string) (aliases : list string) (lookup : lookup_env)
    : Result (string * list string * bool * provider_map) :=
  match ResolveDocumentedString provider key lookup with
  | inl err => inl (MissingSecret (Some err) key)
  | inr (value, envName, present, provider) =>
      let envs := uniqueNames aliases envName in
      if negb present then inr ("", envs, false, provider)
      else if String.eqb (TrimSpace value) "" then inl (MissingSecret None key)
      else inr (value, envs, true, provider)
  end.

Definition EnvironmentValue (lookup : lookup_env) (name fallback : string) : string :=
  match lookup name with
  | Some value => if negb (String.eqb (TrimSpace value) "") then value else fallback
  | None => fallback
  end.

(** ** Linear *)

Definition linear_SecretEnvironmentNames : list string := ["LINEAR_API_KEY"; "LINEAR_TOKEN"].
Definition linear_DefaultEndpoint : string := "https://api.linear.app/graphql".
Record LinearProfile := {
  lp_Base : Base; lp_Endpoint : string; lp_APIKey : string; lp_TeamKey : string;
  lp_ProjectSlug : string; lp_PaginationMaxPages : Z
}.

Definition linear_Parse (raw : option provider_map) (lookup : lookup_env) : Result LinearProfile :=
  let provider := CloneProvider raw in
  let+ (endpoint, _, _, provider) := ResolveDocumentedString provider "endpoint" lookup in
  let endpoint := TrimSpace endpoint in
  let endpoint := if String.eqb (TrimSpace endpoint) "" then linear_DefaultEndpoint else endpoint in
  let+ (apiKey, secretEnvs, _, provider) :=
    ResolveOptionalSecret provider "api_key" linear_SecretEnvironmentNames lookup in
  let+ (teamKey, _, _, provider) := ResolveDocumentedString provider "team_key" lookup in
  let+ (projectSlug, _, _, provider) := ResolveDocumentedString provider "project_slug" lookup in
  let+ pages := PaginationPages provider "pagination_max_pages" 200 in
  let provider := <["endpoint" := PString endpoint]> provider in
  let provider := <["pagination_max_pages" := PInt pages]> provider in
  inr {| lp_Base := {| AdapterKind := "linear"; ProviderMap := provider; Secrets := [apiKey];
                       SecretEnvs := secretEnvs; SecretFields := ["api_key"] |};
         lp_Endpoint := endpoint; lp_APIKey := apiKey; lp_TeamKey := teamKey;
         lp_ProjectSlug := projectSlug; lp_PaginationMaxPages := pages |}.

Definition linear_Resolve (raw : option provider_map) (lookup : lookup_env) : Result LinearProfile :=
  let+ profile := linear_Parse raw lookup in
  if String.eqb (TrimSpace (lp_APIKey profile)) "" then inl (MissingSecret None "api_key")
  else if String.eqb (TrimSpace (lp_ProjectSlug profile)) "" then inl (MissingField "project_slug")
  else inr profile.

(** ** GitHub and Gitea

    One record for both: [rp_URL] is GitHub's APIURL and Gitea's BaseURL, and only Gitea has
    [rp_BaseURLConfigured]. *)

Record RepoProfile := {
  rp_Base : Base; rp_URL : string; rp_Token : string; rp_Owner : string; rp_Repo : string;
  rp_PaginationMaxPages : Z; rp_BaseURLConfigured : bool
}.

(** [strings.Trim(s, "/")]. *)
Fixpoint trim_slashes_left (s : string) : string :=
  match s with String c t => if is_slash c then trim_slashes_left t else s | EmptyString => "" end.
Definition trim_slashes (s : string) : string := strip_trailing_slashes (trim_slashes_left s).

(** [parseRepo], the same in both adapters. *)
Definition parseRepo (provider : provider_map) (fallbackOwner fallbackRepo : string) (lookup : lookup_env)
    : Result (string * string * provider_map) :=
  let+ (repoValue, _, present, provider) := ResolveDocumentedString provider "repo" lookup in
  if negb present || String.eqb (TrimSpace repoValue) ""
  then inr (TrimSpace fallbackOwner, TrimSpace fallbackRepo, provider)
  else
    match split_slash (trim_slashes repoValue) with
    | [owner; repo] =>
        if String.eqb (TrimSpace owner) "" || String.eqb (TrimSpace repo) "" then inl BadRepo
        else inr (owner, repo, provider)
    | _ => inl BadRepo
    end.

Definition repo_Resolve (parsed : Result RepoProfile) : Result RepoProfile :=
  let+ profile := parsed in
  if String.eqb (TrimSpace (rp_Token profile)) "" then inl (MissingSecret None "token")
  else if String.eqb (TrimSpace (rp_Owner profile)) "" || String.eqb (TrimSpace (rp_Repo profile)) ""
  then inl (MissingField "repo")
  else inr profile.

Definition github_SecretEnvironmentNames : list string := ["GITHUB_TOKEN"; "GH_TOKEN"; "GITHUB_PAT"].

Definition github_Parse (raw : option provider_map) (fallbackOwner fallbackRepo : string) (lookup : lookup_env)
    : Result RepoProfile :=
  let provider := CloneProvider raw in
  let+ (apiURL, _, present, provider) := ResolveDocumentedString provider "api_url" lookup in
  let apiURL := if negb present || String.eqb (TrimSpace apiURL) ""
                then EnvironmentValue lookup "GITHUB_API_BASE_URL" "https://api.github.com" else apiURL in
  let+ (token, secretEnvs, _, provider) :=
    ResolveOptionalSecret provider "token" github_SecretEnvironmentNames lookup in
  let+ (owner, repo, provider) := parseRepo provider fallbackOwner fallbackRepo lookup in
  let+ pages := PaginationPages provider "pagination_max_pages" 10 in
  let provider := <["api_url" := PString apiURL]> provider in
  let provider := <["repo" := PString (owner +:+ "/" +:+ repo)]> provider in
  let provider := <["pagination_max_pages" := PInt pages]> provider in
  inr {| rp_Base := {| AdapterKind := "github"; ProviderMap := provider; Secrets := [token];
                       SecretEnvs := secretEnvs; SecretFields := ["token"] |};
         rp_URL := apiURL; rp_Token := token; rp_Owner := owner; rp_Repo := repo;
         rp_PaginationMaxPages := pages; rp_BaseURLConfigured := true |}.

Definition github_Resolve raw fallbackOwner fallbackRepo lookup : Result RepoProfile :=
  repo_Resolve (github_Parse raw fallbackOwner fallbackRepo lookup).

Definition gitea_SecretEnvironmentNames : list string := ["GITEA_TOKEN"; "GITEA_API_TOKEN"].

Definition gitea_Parse (raw : option provider_map) (fallbackOwner fallbackRepo : string) (lookup : lookup_env)
    : Result RepoProfile :=
  let provider := CloneProvider raw in
  let+ (baseURL, _, present, provider) := ResolveDocumentedString provider "base_url" lookup in
  let baseURL := TrimSpace baseURL in
  let baseURLConfigured :=
    (present && negb (String.eqb baseURL "")) ||
    match lookup "GITEA_BASE_URL" with
    | Some envBaseURL => negb (String.eqb (TrimSpace envBaseURL) "")
    | None => false
    end in
  let baseURL := if negb present || String.eqb (TrimSpace baseURL) ""
                 then TrimSpace (EnvironmentValue lookup "GITEA_BASE_URL" "http://localhost:3000") else baseURL in
  let+ (token, secretEnvs, _, provider) :=
    ResolveOptionalSecret provider "token" gitea_SecretEnvironmentNames lookup in
  let+ (owner, repo, provider) := parseRepo provider fallbackOwner fallbackRepo lookup in
  let+ pages := PaginationPages provider "pagination_max_pages" 20 in
  let provider := <["base_url" := PString baseURL]> provider in
  let provider := <["repo" := PString (owner +:+ "/" +:+ repo)]> provider in
  let provider := <["pagination_max_pages" := PInt pages]> provider in
  inr {| rp_Base := {| AdapterKind := "gitea"; ProviderMap := provider; Secrets := [token];
                       SecretEnvs := secretEnvs; SecretFields := ["token"] |};
         rp_URL := baseURL; rp_Token := token; rp_Owner := owner; rp_Repo := repo;
         rp_PaginationMaxPages := pages; rp_BaseURLConfigured := baseURLConfigured |}.

Definition gitea_Resolve raw fallbackOwner fallbackRepo lookup : Result RepoProfile :=
  repo_Resolve (gitea_Parse raw fallbackOwner fallbackRepo lookup).

(** ** The registry *)

Definition res_map {A B} (f : A → B) (r : Result A) : Result B :=
  match r with inl e => inl e | inr a => inr (f a) end.

(** [trackerprofiles.Resolve]: the shared part of the profile. *)
Definition profiles_Resolve (kind : string) (provider : option provider_map) (repoOwner repoName : string)
    (lookup : lookup_env) : Result Base :=
  let k := norm kind in
  if String.eqb k "linear" then res_map lp_Base (linear_Resolve provider lookup)
  else if String.eqb k "gitea" then res_map rp_Base (gitea_Resolve provider repoOwner repoName lookup)
  else if String.eqb k "github" then res_map rp_Base (github_Resolve provider repoOwner repoName lookup)
  else inl (UnsupportedKind kind).

Definition SecretEnvironmentNames : list string :=
  linear_SecretEnvironmentNames ++ gitea_SecretEnvironmentNames ++ github_SecretEnvironmentNames.
