(* ===== verification/EnvPolicy.v ===== *)
(** * The environment of child processes

    internal/envpolicy/env.go with internal/workflow/agent_env_policy.go, and the
    allow-lists of its callers (internal/workspace/subprocess_env.go,
    internal/runner/env.go): hooks and agents get a baseline of names plus the configured
    ones, and no tracker secret.  [lookup] is os.LookupEnv; [path] is LoginPATH.

    The theorems: where every entry comes from and that none is a secret by name or by
    value, and what the display copy of a provider keeps. *)

From S2P Require Import Prelude GoStd Paths Hashes GitCmd Profiles.

(** What of workflow.Config the policy reads. *)
Record TrackerConfig := {
  tc_Kind : string;
  tc_Provider : option provider_map;
  tc_profile : option Base;
  tc_RepoOwner : string;
  tc_RepoName : string
}.

Definition supportedTrackerKinds : list string := ["gitea"; "github"; "linear"].
Definition is_supported_kind (kind : string) : bool := existsb (String.eqb kind) supportedTrackerKinds.

(** [TrackerConfig.MaskedProvider]. *)
Definition MaskedProvider (t : TrackerConfig) (mask : string) : provider_map :=
  let provider := CloneProvider (tc_Provider t) in
  match tc_profile t with
  | None => provider
  | Some profile =>
      fold_left (fun provider key =>
        match provider !! key with Some _ => <[key := PString mask]> provider | None => provider end)
        (SecretFields profile) provider
  end.

(** ** Denied names *)

Definition secret_reason : string := "tracker provider secret must stay behind orchestrator tools".
Definition secret_value_reason : string := "tracker provider secret value must stay behind orchestrator tools".

Definition AgentEnvPassthroughDenyReason (name : string) : string :=
  if existsb (fun secretName => EqualFold (TrimSpace name) secretName) SecretEnvironmentNames
  then secret_reason else "".

(** The names and the values. *)
Definition trackerSecretsForConfig (cfg : TrackerConfig) (lookup : lookup_env) : list string * list string :=
  let secretNames := match tc_profile cfg with Some p => SecretEnvs p | None => [] end in
  let profile :=
    if is_supported_kind (tc_Kind cfg)
    then match profiles_Resolve (tc_Kind cfg) (tc_Provider cfg) (tc_RepoOwner cfg) (tc_RepoName cfg) lookup with
         | inr resolved => Some resolved
         | inl _ => tc_profile cfg
         end
    else tc_profile cfg in
  match profile with
  | Some p => (secretNames ++ SecretEnvs p, Secrets p)
  | None => (secretNames, [])
  end.

Definition AgentEnvPassthroughDenyReasonForConfigWithLookup (name : string) (cfg : TrackerConfig)
    (lookup : lookup_env) : string :=
  let name := TrimSpace name in
  let reason := AgentEnvPassthroughDenyReason name in
  if negb (String.eqb reason "") then reason
  else
    let (secretNames, secretValues) := trackerSecretsForConfig cfg lookup in
    if existsb (EqualFold name) secretNames then secret_reason
    else
      match lookup name with
      | Some value =>
          if negb (String.eqb value "") && existsb (fun v => String.eqb v value) secretValues
          then secret_value_reason else ""
      | None => ""
      end.

(** ** Building an environment *)

Section Builder.
Context (cfg : TrackerConfig) (lookup : lookup_env) (path : option (unit → string)).

Record envBuilder := { eb_seen : list string; eb_env : list string }.

Definition allowedName (b : envBuilder) (raw : string) : option string :=
  let name := TrimSpace raw in
  if String.eqb name "" || str_contains name "=" then None
  else if existsb (String.eqb name) (eb_seen b) then None
  else if negb (String.eqb (AgentEnvPassthroughDenyReasonForConfigWithLookup name cfg lookup) "") then None
  else Some name.

Definition env_value (name : string) : option string :=
  match (if String.eqb name "PATH" then path else None) with
  | Some p => let value := p tt in if negb (String.eqb value "") then Some value else lookup name
  | None => lookup name
  end.

Definition env_add (b : envBuilder) (raw : string) : envBuilder :=
  match allowedName b raw with
  | None => b
  | Some name =>
      match env_value name with
      | None => b
      | Some value => {| eb_seen := name :: eb_seen b; eb_env := eb_env b ++ [name +:+ "=" +:+ value] |}
      end
  end.
Definition addNames (b : envBuilder) (names : list string) : envBuilder := fold_left env_add names b.

Definition BuildSanitizedEnv (baseline passthrough : list string) : list string :=
  eb_env (addNames (addNames {| eb_seen := []; eb_env := [] |} baseline) passthrough).
End Builder.

(** *** Callers *)

Definition baselineHookEnvAllowlist : list string :=
  ["PATH"; "HOME"; "USER"; "LANG"; "LC_ALL"; "LC_CTYPE"; "TZ"; "TERM"].
Definition baselineAgentEnvAllowlist : list string :=
  ["PATH"; "HOME"; "USER"; "LANG"; "LC_ALL"; "LC_CTYPE"; "TZ"; "TERM"].
Definition codexAppServerEnvAllowlist : list string := baselineAgentEnvAllowlist ++ ["CODEX_HOME"; "TMPDIR"].

Definition subprocessEnvWithLookup passthrough cfg lookup loginPath : list string :=
  BuildSanitizedEnv cfg lookup loginPath baselineHookEnvAllowlist passthrough.
Definition agentEnvWithLookup passthrough cfg lookup loginPath : list string :=
  BuildSanitizedEnv cfg lookup loginPath baselineAgentEnvAllowlist passthrough.
Definition codexAppServerEnvWithLookup passthrough cfg lookup loginPath : list string :=
  BuildSanitizedEnv cfg lookup loginPath codexAppServerEnvAllowlist passthrough.

(** ** What an environment holds *)

(** An entry and where it comes from. *)
Definition entry_ok (cfg : TrackerConfig) lookup path (name value : string) : Prop :=
  name ≠ "" ∧ str_contains name "=" = false ∧ TrimSpace name = name ∧
  AgentEnvPassthroughDenyReasonForConfigWithLookup name cfg lookup = "" ∧
  env_value lookup path name = Some value.

(** The builder's state: the entries of the names it has seen. *)
Definition builder_ok cfg lookup path (b : envBuilder) : Prop :=
  NoDup (eb_seen b) ∧ ∃ entries, eb_env b = map (λ '(n, v), n +:+ "=" +:+ v) entries ∧
    eb_seen b = rev (map fst entries) ∧ Forall (λ '(n, v), entry_ok cfg lookup path n v) entries.

Lemma env_add_ok cfg lookup path b raw :
  builder_ok cfg lookup path b → builder_ok cfg lookup path (env_add cfg lookup path b raw).
Proof.
  intros (Hnd & entries & E1 & E2 & H). unfold env_add.
  destruct (allowedName cfg lookup b raw) as [name|] eqn:Ea; [|by split; [|exists entries]].
  destruct (env_value lookup path name) as [value|] eqn:Ev; [|by split; [|exists entries]].
  unfold allowedName in Ea. cbv zeta in Ea.
  destruct (String.eqb (TrimSpace raw) "" || str_contains (TrimSpace raw) "=") eqn:En; [done|].
  destruct (existsb _ (eb_seen b)) eqn:Es; [done|].
  destruct (negb _) eqn:Ed; [done|]. injection Ea as <-.
  apply orb_false_iff in En as [En1%String.eqb_neq En2]. apply negb_false_iff, String.eqb_eq in Ed.
  assert (TrimSpace raw ∉ eb_seen b) as Hnew.
  { intros Hin. apply not_true_iff_false in Es. apply Es, existsb_exists. exists (TrimSpace raw).
    split; [by apply list_elem_of_In|apply String.eqb_refl]. }
  split; [by constructor|]. exists (entries ++ [(TrimSpace raw, value)]). cbn [eb_env eb_seen].
  rewrite !map_app, rev_app_distr, E1, E2. split_and!; [done..|]. apply Forall_app. split; [done|].
  repeat constructor; try done. apply TrimSpace_idem.
Qed.

Lemma build_ok cfg lookup path baseline passthrough :
  builder_ok cfg lookup path
    (addNames cfg lookup path (addNames cfg lookup path {| eb_seen := []; eb_env := [] |} baseline) passthrough).
Proof.
  unfold addNames. assert (∀ names b, builder_ok cfg lookup path b → builder_ok cfg lookup path (fold_left (env_add cfg lookup path) names b)) as H.
  { induction names as [|n names IH]; [done|]. intros b Hb. by apply IH, env_add_ok. }
  apply H, H. split; [constructor|]. exists []. split_and!; [done..|constructor].
Qed.

(** A name is not denied when it is no secret name, under any letter case, and its value
    is no secret value. *)
Lemma not_denied name cfg lookup :
  AgentEnvPassthroughDenyReasonForConfigWithLookup name cfg lookup = "" → TrimSpace name = name →
  (∀ s, s ∈ SecretEnvironmentNames ++ (trackerSecretsForConfig cfg lookup).1 → EqualFold name s = false) ∧
  (∀ v, lookup name = Some v → v ≠ "" → v ∉ (trackerSecretsForConfig cfg lookup).2).
Proof.
  unfold AgentEnvPassthroughDenyReasonForConfigWithLookup, AgentEnvPassthroughDenyReason. cbv zeta.
  intros H Ht. rewrite Ht in H. rewrite Ht in H.
  destruct (existsb (λ s, EqualFold name s) SecretEnvironmentNames) eqn:E1; [done|]. cbn [String.eqb negb] in H.
  destruct (trackerSecretsForConfig cfg lookup) as [names values]. cbn [fst snd].
  destruct (existsb (EqualFold name) names) eqn:E2; [done|]. split.
  - intros s Hs. apply not_true_iff_false. intros Hf. apply elem_of_app in Hs as [Hs|Hs].
    + apply not_true_iff_false in E1. apply E1, existsb_exists. exists s. by split; [apply list_elem_of_In|].
    + apply not_true_iff_false in E2. apply E2, existsb_exists. exists s. by split; [apply list_elem_of_In|].
  - intros v Ev Hne Hin. rewrite Ev in H. rewrite (proj2 (String.eqb_neq v "")) in H by done. cbn [negb andb] in H.
    assert (existsb (λ v0, String.eqb v0 v) values = true) as Hx.
    { apply existsb_exists. exists v. split; [by apply list_elem_of_In|apply String.eqb_refl]. }
    by rewrite Hx in H.
Qed.

(** Every entry of a child process's environment is NAME=value for a name without "="
    that is no tracker secret's name under any letter case, each name once; its value is
    the worker's own for that name, and then it is not the value of a tracker secret, or
    it is the PATH of the login shell. *)
Theorem child_env_sanitized (cfg : TrackerConfig) (lookup : lookup_env) (path : option (unit → string))
    (baseline passthrough : list string) :
  ∃ entries, BuildSanitizedEnv cfg lookup path baseline passthrough = map (λ '(n, v), n +:+ "=" +:+ v) entries ∧
    NoDup (map fst entries) ∧
    ∀ name value, (name, value) ∈ entries →
      str_contains name "=" = false ∧
      (∀ s, s ∈ SecretEnvironmentNames ++ (trackerSecretsForConfig cfg lookup).1 → EqualFold name s = false) ∧
      ((lookup name = Some value ∧ (value ≠ "" → value ∉ (trackerSecretsForConfig cfg lookup).2)) ∨
       (name = "PATH" ∧ ∃ p, path = Some p ∧ p tt = value)).
Proof.
  destruct (build_ok cfg lookup path baseline passthrough) as (Hnd & entries & E1 & E2 & H).
  exists entries. split; [exact E1|]. split.
  - apply NoDup_ListNoDup. rewrite <- (rev_involutive (map fst entries)), <- E2.
    apply List.NoDup_rev. by apply NoDup_ListNoDup.
  - intros name value Hin. rewrite Forall_forall in H. destruct (H _ Hin) as (_ & Heq & Ht & Hd & Hv).
    destruct (not_denied name cfg lookup Hd Ht) as [Hn Hs]. split_and!; [done..|].
    unfold env_value in Hv. destruct (String.eqb_spec name "PATH") as [->|_]; [|left; split; eauto].
    destruct path as [p|]; [|left; split; eauto]. cbv zeta in Hv.
    destruct (String.eqb (p tt) ""); cbn [negb] in Hv; [left; split; eauto|].
    injection Hv as Hv. right. split; [done|]. by exists p.
Qed.

(** ** Masking *)

Lemma mask_fold (mask : string) fields (m : provider_map) key :
  fold_left (λ provider k, match provider !! k with Some _ => <[k := PString mask]> provider | None => provider end) fields m !! key =
  match m !! key with
  | Some v => Some (if bool_decide (key ∈ fields) then PString mask else v)
  | None => None
  end.
Proof.
  revert m. induction fields as [|f fields IH]; intros m; cbn [fold_left]; [by destruct (m !! key)|].
  rewrite IH. destruct (decide (key = f)) as [->|Hne].
  - destruct (m !! f) eqn:E; [|by rewrite E]. rewrite lookup_insert_eq. rewrite (bool_decide_true (f ∈ f :: fields)) by set_solver.
    by destruct (bool_decide _).
  - assert (match m !! f with Some _ => <[f:=PString mask]> m | None => m end !! key = m !! key) as ->.
    { destruct (m !! f); [|done]. by rewrite lookup_insert_ne. }
    destruct (m !! key); [|done]. do 2 f_equal. by rewrite (bool_decide_ext (key ∈ fields) (key ∈ f :: fields)) by set_solver.
Qed.

(** The display copy of a provider map has the keys of the map, the mask under every
    key the profile declares secret, and the configured value under every other key. *)
Theorem masked_provider_exact (t : TrackerConfig) (mask key : string) :
  MaskedProvider t mask !! key =
  match CloneProvider (tc_Provider t) !! key with
  | None => None
  | Some v =>
      Some (match tc_profile t with
            | Some p => if bool_decide (key ∈ SecretFields p) then PString mask else v
            | None => v
            end)
  end.
Proof.
  unfold MaskedProvider. cbv zeta. destruct (tc_profile t) as [p|]; [|by destruct (_ !! key)].
  apply mask_fold.
Qed.

(** ** An admitted secret *)

Lemma res_bind_inr {A B} (r : Result A) (k : A → Result B) b :
  res_bind r k = inr b → ∃ a, r = inr a ∧ k a = inr b.
Proof. destruct r as [e|a]; [done|]. simpl. eauto. Qed.

Lemma linear_Parse_secret raw lookup p : linear_Parse raw lookup = inr p → Secrets (lp_Base p) = [lp_APIKey p].
Proof.
  unfold linear_Parse. intros H. repeat (apply res_bind_inr in H as (? & _ & H); repeat case_match); by simplify_eq/=.
Qed.
Lemma github_Parse_secret raw o r lookup p : github_Parse raw o r lookup = inr p → Secrets (rp_Base p) = [rp_Token p].
Proof.
  unfold github_Parse. intros H. repeat (apply res_bind_inr in H as (? & _ & H); repeat case_match); by simplify_eq/=.
Qed.
Lemma gitea_Parse_secret raw o r lookup p : gitea_Parse raw o r lookup = inr p → Secrets (rp_Base p) = [rp_Token p].
Proof.
  unfold gitea_Parse. intros H. repeat (apply res_bind_inr in H as (? & _ & H); repeat case_match); by simplify_eq/=.
Qed.

Lemma repo_Resolve_inr parsed p :
  repo_Resolve parsed = inr p → parsed = inr p ∧ TrimSpace (rp_Token p) ≠ "".
Proof.
  unfold repo_Resolve. intros (q & -> & H)%res_bind_inr.
  destruct (String.eqb_spec (TrimSpace (rp_Token q)) ""); [done|].
  destruct (_ || _); [done|]. by injection H as <-.
Qed.

(** An admitted profile has one secret, which is not blank. *)
Lemma resolved_secret kind raw o r lookup p :
  profiles_Resolve kind raw o r lookup = inr p → ∃ s, Secrets p = [s] ∧ TrimSpace s ≠ "".
Proof.
  unfold profiles_Resolve. cbv zeta.
  destruct (String.eqb (norm kind) "linear"); [|destruct (String.eqb (norm kind) "gitea"); [|destruct (String.eqb (norm kind) "github"); [|done]]].
  - destruct (linear_Resolve raw lookup) as [e|q] eqn:E; [done|]. intros [= <-].
    unfold linear_Resolve in E. apply res_bind_inr in E as (q' & Ep & E).
    destruct (String.eqb_spec (TrimSpace (lp_APIKey q')) ""); [done|].
    destruct (String.eqb _ ""); [done|]. injection E as <-. exists (lp_APIKey q'). split; [|done].
    by eapply linear_Parse_secret.
  - destruct (gitea_Resolve raw o r lookup) as [e|q] eqn:E; [done|]. intros [= <-].
    apply repo_Resolve_inr in E as [E Hs]. exists (rp_Token q). split; [by eapply gitea_Parse_secret|done].
  - destruct (github_Resolve raw o r lookup) as [e|q] eqn:E; [done|]. intros [= <-].
    apply repo_Resolve_inr in E as [E Hs]. exists (rp_Token q). split; [by eapply github_Parse_secret|done].
Qed.

(** C36: When the configured tracker's profile is admitted, no entry of a child process's
    environment carries its secret as a value, whatever the passthrough list names;
    only the PATH a login shell reports is not compared with it. *)
Theorem admitted_secret_not_inherited (cfg : TrackerConfig) (lookup : lookup_env) (path : option (unit → string))
    (baseline passthrough : list string) (p : Base)
    (Hkind : is_supported_kind (tc_Kind cfg) = true)
    (Hp : profiles_Resolve (tc_Kind cfg) (tc_Provider cfg) (tc_RepoOwner cfg) (tc_RepoName cfg) lookup = inr p) :
  ∃ secret, Secrets p = [secret] ∧ TrimSpace secret ≠ "" ∧
  ∃ entries, BuildSanitizedEnv cfg lookup path baseline passthrough = map (λ '(n, v), n +:+ "=" +:+ v) entries ∧
    ∀ name, (name, secret) ∈ entries → name = "PATH" ∧ ∃ f, path = Some f ∧ f tt = secret.
Proof.
  destruct (resolved_secret _ _ _ _ _ _ Hp) as (s & Es & Hs). exists s. split; [done|]. split; [done|].
  destruct (build_ok cfg lookup path baseline passthrough) as (_ & entries & E1 & _ & H).
  exists entries. split; [exact E1|]. intros name Hin. rewrite Forall_forall in H.
  destruct (H _ Hin) as (_ & _ & Ht & Hd & Hv). destruct (not_denied name cfg lookup Hd Ht) as [_ Hval].
  assert (s ∈ (trackerSecretsForConfig cfg lookup).2) as Hsecret.
  { unfold trackerSecretsForConfig. cbv zeta. rewrite Hkind, Hp. cbn [snd]. rewrite Es. set_solver. }
  assert (s ≠ "") as Hne by (intros ->; done).
  assert (lookup name ≠ Some s) as Hno by (intros El; by apply (Hval s El Hne)).
  unfold env_value in Hv. destruct (String.eqb_spec name "PATH") as [->|_]; [|done].
  destruct path as [f|]; [|done]. cbv zeta in Hv. destruct (String.eqb (f tt) ""); cbn [negb] in Hv; [done|].
  injection Hv as Hv. split; [done|]. by exists f.
Qed.

Definition demo_config : TrackerConfig :=
  {| tc_Kind := "linear";
     tc_Provider := Some {[ "api_key" := PString "$MY_KEY"; "project_slug" := PString "p" ]};
     tc_profile := None; tc_RepoOwner := ""; tc_RepoName := "" |}.
Definition demo_lookup : lookup_env := λ name,
  if String.eqb name "MY_KEY" || String.eqb name "ALIAS" then Some "s3cret"
  else if String.eqb name "HOME" then Some "/home/a" else None.

Example demo_env :
  BuildSanitizedEnv demo_config demo_lookup None ["PATH"; "HOME"] ["MY_KEY"; "ALIAS"; "HOME"; "LINEAR_API_KEY"] = ["HOME=/home/a"].
Proof. vm_compute. reflexivity. Qed.

Lemma admitted_secret_not_inherited_witness :
  ∃ p secret, profiles_Resolve "linear" (tc_Provider demo_config) "" "" demo_lookup = inr p ∧ Secrets p = [secret] ∧
  ∃ entries, BuildSanitizedEnv demo_config demo_lookup None ["HOME"] ["MY_KEY"; "ALIAS"] = map (λ '(n, v), n +:+ "=" +:+ v) entries ∧
    ∀ name, (name, secret) ∉ entries.
Proof.
  destruct (profiles_Resolve "linear" (tc_Provider demo_config) "" "" demo_lookup) as [e|p] eqn:E;
    [vm_compute in E; discriminate E|].
  destruct (admitted_secret_not_inherited demo_config demo_lookup None ["HOME"] ["MY_KEY"; "ALIAS"] p eq_refl E)
    as (s & Es & _ & entries & Eb & H).
  exists p, s. split; [done|]. split; [done|]. exists entries. split; [done|]. intros name Hin.
  destruct (H name Hin) as (_ & f & Hf & _). discriminate Hf.
Defined.
