(* ===== verification/Hooks.v ===== *)
(** * Workspace hooks

    The rest of internal/workspace/manager.go: the buffer that keeps a bounded part of a
    command's output, one hook command, and the list of commands of a hook.  A command is
    one call, answered with what it wrote and how it ended; the login shell's PATH
    (path_snapshot.go) is read from the output of another.

    The theorems: what the buffer keeps, which commands of a hook run, and that every
    result is bounded and holds no credential. *)

From S2P Require Import Prelude GoStd Paths Sys Hashes Redact GitCmd Profiles EnvPolicy.

(** ** The buffer *)

Definition VerifyOutputCap : Z := 1048576.

Record cappedBuffer := { cb_Cap : Z; cb_buf : string; cb_dropped : Z }.
#[export] Instance eta_cappedBuffer : Eta cappedBuffer := fun r =>
  Build_cappedBuffer (cb_Cap r) (cb_buf r) (cb_dropped r).

Definition str_len (s : string) : Z := Z.of_nat (String.length s).

Definition cappedBuffer_Write (c : cappedBuffer) (p : string) : cappedBuffer :=
  let remaining := cb_Cap c -i str_len (cb_buf c) in
  if 0 <? remaining
  then
    let take := if remaining <? str_len p then remaining else str_len p in
    let c := c <| cb_buf ::= (λ b, b +:+ str_take (Z.to_nat take) p) |> in
    if take <? str_len p then c <| cb_dropped ::= (λ d, d +i (str_len p - take)) |> else c
  else c <| cb_dropped ::= (λ d, d +i str_len p) |>.
Definition cappedBuffer_Truncated (c : cappedBuffer) : bool := 0 <? cb_dropped c.
Definition cappedBuffer_Dropped (c : cappedBuffer) : Z := cb_dropped c.
Definition new_buffer (cap : Z) : cappedBuffer := {| cb_Cap := cap; cb_buf := ""; cb_dropped := 0 |}.

(** ** One command *)

Inductive HookName := HookAfterCreate | HookBeforeRun | HookAfterRun | HookBeforeRemove.

Record HookResult := {
  hr_Name : HookName;
  hr_Command : string;
  hr_ExitCode : Z;
  hr_Output : string;
  hr_Truncated : bool;
  hr_Duration : Duration;
  hr_Err : option Err
}.
Record HookError := { he_Name : HookName; he_Results : list HookResult; he_Err : Err }.

Definition EffectiveWorkspaceHookTimeoutMs (timeoutMs : Z) : Z := if 0 <? timeoutMs then timeoutMs else 60000.

Definition workspaceHookWaitDelay (timeoutMs : Z) : Duration :=
  if timeoutMs <=? 0 then 100 * Millisecond
  else
    let grace := (timeoutMs + 9) / 10 *i Millisecond in
    if grace <? 100 * Millisecond then 100 * Millisecond
    else if Second <? grace then Second
    else grace.

Fixpoint exit_code_of (e : Err) : option Z :=
  match e with
  | FromRun (ExitError code) => Some code
  | Wrapped _ e => exit_code_of e
  | Both _ e1 e2 => match exit_code_of e1 with Some c => Some c | None => exit_code_of e2 end
  | _ => None
  end.
Definition exitCode (err : option Err) : Z :=
  match err with None => 0 | Some e => default (-1) (exit_code_of e) end.

Definition has {A} (o : option A) : bool := match o with Some _ => true | None => false end.

Definition runWorkspaceHookCommand (workdir : string) (name : HookName) (command : string) (timeoutMs : Z)
    (env : list string) : Prog HookResult :=
  let maskedCommand := redactCredentials command in
  let* run := call (Command workdir command timeoutMs env) in
  match cr_Started run with
  | Some err =>
      let err := FromRun (StartFailed err) in
      Done {| hr_Name := name; hr_Command := maskedCommand; hr_ExitCode := exitCode (Some err);
              hr_Output := redactHookOutput "" (has (cr_Ctx run)); hr_Truncated := false;
              hr_Duration := cr_Duration run; hr_Err := Some err |}
  | None =>
      let out := fold_left cappedBuffer_Write (cr_Chunks run) (new_buffer VerifyOutputCap) in
      let err :=
        if cr_WaitedOut run
        then match cr_Ctx run with
             | Some cause => Some (Wrapped "hook wait exceeded cleanup grace after timeout" (FromContext cause))
             | None => Some (Message "hook wait exceeded cleanup grace after timeout")
             end
        else option_map FromRun (cr_Err run) in
      let truncated := cappedBuffer_Truncated out in
      let incomplete := truncated || has (cr_Ctx run) in
      let timed_out := match cr_Ctx run with Some DeadlineExceeded => true | _ => false end in
      Done {| hr_Name := name; hr_Command := maskedCommand;
              hr_ExitCode := if timed_out then -1 else exitCode err;
              hr_Output := redactHookOutput (cb_buf out) incomplete; hr_Truncated := truncated;
              hr_Duration := cr_Duration run;
              hr_Err := if timed_out then Some (Wrapped "hook timed out" (FromContext DeadlineExceeded)) else err |}
  end.

(** ** A hook *)

Section Hook.
Context (workdir : string) (name : HookName) (timeoutMs : Z) (env : list string).

Fixpoint run_commands (commands : list string) (results : list HookResult)
    : Prog (list HookResult * option HookError) :=
  match commands with
  | [] => Done (results, None)
  | raw :: commands =>
      let command := TrimSpace raw in
      if String.eqb command "" then run_commands commands results
      else
        let* res := runWorkspaceHookCommand workdir name command timeoutMs env in
        let results := results ++ [res] in
        match hr_Err res with
        | Some err => Done (results, Some {| he_Name := name; he_Results := results; he_Err := err |})
        | None => run_commands commands results
        end
  end.
End Hook.

(** [lookup] and [loginPath] are the worker's environment and LoginPATH. *)
Definition RunWorkspaceHook (workdir : string) (name : HookName) (commands : list string) (timeoutMs : Z)
    (envPassthrough : list string) (cfg : TrackerConfig) (lookup : lookup_env) (loginPath : unit → string)
    : Prog (list HookResult * option HookError) :=
  let timeoutMs := EffectiveWorkspaceHookTimeoutMs timeoutMs in
  let env := subprocessEnvWithLookup envPassthrough cfg lookup (Some loginPath) in
  run_commands workdir name timeoutMs env commands [].

(** ** The login shell's PATH *)

Definition loginPATHBegin : string := "__AIOPS_LOGIN_PATH_BEGIN__".
Definition loginPATHEnd : string := "__AIOPS_LOGIN_PATH_END__".

(** [out] is what the login shell printed, [None] when it failed. *)
Definition captureLoginPATH (fallback : string) (out : option string) : string :=
  match out with
  | None => fallback
  | Some s =>
      match str_cut s loginPATHBegin with
      | None => fallback
      | Some (_, rest) =>
          match str_cut rest loginPATHEnd with
          | None => fallback
          | Some (path, _) => if String.eqb path "" then fallback else path
          end
      end
  end.

(** * What hooks leave behind

    The bounded buffer keeps the first bytes of a command's output and counts the rest;
    the results of a hook are bounded and free of credentials; and its commands run in
    order until one fails. *)


(** ** The buffer *)

Lemma str_take_app_le n a b : (n ≤ String.length a)%nat → str_take n (a +:+ b) = str_take n a.
Proof.
  revert n. induction a as [|c a IH]; intros n H; simpl in H.
  - assert (n = 0)%nat as -> by lia. by destruct b.
  - rewrite str_app_cons. destruct n as [|n]; [done|]. simpl. rewrite IH; [done|lia].
Qed.
Lemma str_take_app_ge n a b : (String.length a ≤ n)%nat → str_take n (a +:+ b) = a +:+ str_take (n - String.length a) b.
Proof.
  revert n. induction a as [|c a IH]; intros n H.
  - rewrite str_app_nil. simpl. by rewrite Nat.sub_0_r.
  - rewrite !str_app_cons. destruct n as [|n]; simpl in *; [lia|]. rewrite IH; [done|lia].
Qed.

(** The buffer after it was given a text. *)
Definition holds (cap : Z) (given : string) (c : cappedBuffer) : Prop :=
  cb_Cap c = cap ∧ cb_buf c = str_take (Z.to_nat cap) given ∧
  cb_dropped c = Z.max 0 (str_len given - cap).

Lemma str_len_app a b : str_len (a +:+ b) = str_len a + str_len b.
Proof. unfold str_len. rewrite str_length_app. lia. Qed.

Lemma write_holds cap given c p :
  0 ≤ cap ≤ max64 → str_len (given +:+ p) ≤ max64 → holds cap given c →
  holds cap (given +:+ p) (cappedBuffer_Write c p).
Proof.
  intros Hcap Hlen (E1 & E2 & E3). rewrite str_len_app in Hlen.
  assert (0 ≤ str_len p ∧ 0 ≤ str_len given) as [Hp Hg] by (unfold str_len; lia).
  assert (str_len (cb_buf c) = Z.min cap (str_len given)) as Eb.
  { rewrite E2. unfold str_len in *. destruct (decide (String.length given ≤ Z.to_nat cap)%nat).
    - rewrite str_take_all by done. lia.
    - rewrite str_take_length by lia. lia. }
  unfold cappedBuffer_Write. cbv zeta. rewrite E1, Eb.
  rewrite wrap64_id by (unfold in64, min64, max64 in *; lia).
  unfold holds. rewrite str_len_app.
  destruct (Z.ltb_spec 0 (cap - Z.min cap (str_len given))) as [Hr|Hr].
  - assert (str_len given < cap) as Hlt by lia. rewrite Z.min_r in * by lia.
    rewrite str_take_all in E2 by (unfold str_len in *; lia).
    rewrite (str_take_app_ge (Z.to_nat cap)) by (unfold str_len in *; lia).
    replace (Z.to_nat cap - String.length given)%nat with (Z.to_nat (cap - str_len given)) by (unfold str_len in *; lia).
    destruct (Z.ltb_spec (cap - str_len given) (str_len p)) as [Ht|Ht].
    + rewrite (proj2 (Z.ltb_lt _ _)) by lia. cbn. rewrite E1, E2, E3. split_and!; [done..|].
      rewrite wrap64_id by (unfold in64, min64, max64 in *; lia). lia.
    + rewrite Z.ltb_irrefl. cbn. rewrite E1, E2, E3. split_and!; [done| |lia].
      rewrite !str_take_all by (unfold str_len in *; lia). done.
  - cbn. rewrite E1, E2, E3. split_and!; [done| |].
    + symmetry. apply str_take_app_le. unfold str_len in *. lia.
    + rewrite wrap64_id by (unfold in64, min64, max64 in *; lia). lia.
Qed.

Lemma writes_hold cap chunks :
  0 ≤ cap ≤ max64 → str_len (str_cat chunks) ≤ max64 →
  holds cap (str_cat chunks) (fold_left cappedBuffer_Write chunks (new_buffer cap)).
Proof.
  intros Hcap. induction chunks as [|p chunks IH] using rev_ind; intros Hlen.
  - split_and!; [done|by destruct (Z.to_nat cap)|]. change (0 = Z.max 0 (0 - cap)). lia.
  - rewrite fold_left_app, str_cat_app in *. cbn [fold_left str_cat] in *. rewrite str_app_nil_r in *.
    apply write_holds; [done|done|]. apply IH. rewrite str_len_app in Hlen. unfold str_len in *. lia.
Qed.

(** After any writes, of less than 2^63 bytes in all, the buffer holds exactly the
    first [cap] bytes of them, reports as dropped exactly the number of the others, and
    reports truncation exactly when there are others. *)
Theorem capped_buffer_exact (cap : Z) (chunks : list string)
    (Hcap : 0 ≤ cap ≤ max64) (Hlen : str_len (str_cat chunks) ≤ max64) :
  let c := fold_left cappedBuffer_Write chunks (new_buffer cap) in
  cb_buf c = str_take (Z.to_nat cap) (str_cat chunks) ∧
  cappedBuffer_Dropped c = Z.max 0 (str_len (str_cat chunks) - cap) ∧
  (cappedBuffer_Truncated c = true ↔ cap < str_len (str_cat chunks)).
Proof.
  cbv zeta. destruct (writes_hold cap chunks Hcap Hlen) as (_ & E2 & E3).
  split_and!; [done|done|]. unfold cappedBuffer_Truncated. rewrite E3, Z.ltb_lt. lia.
Qed.

Lemma capped_buffer_exact_witness :
  let c := fold_left cappedBuffer_Write ["ab"; "cde"; "f"] (new_buffer 4) in
  cb_buf c = "abcd" ∧ cappedBuffer_Dropped c = 2.
Proof.
  destruct (capped_buffer_exact 4 ["ab"; "cde"; "f"]) as (E1 & E2 & _); [done|done|].
  split; [exact E1|exact E2].
Defined.

(** The buffer never holds more than its capacity, however much is written. *)
Lemma writes_bounded cap chunks :
  0 ≤ cap ≤ max64 → str_len (cb_buf (fold_left cappedBuffer_Write chunks (new_buffer cap))) ≤ cap.
Proof.
  intros Hcap. assert (∀ c, cb_Cap c = cap → str_len (cb_buf c) ≤ cap →
    let c' := fold_left cappedBuffer_Write chunks c in cb_Cap c' = cap ∧ str_len (cb_buf c') ≤ cap) as H.
  { induction chunks as [|p chunks IH]; intros c E Hc; cbn [fold_left]; [done|]. apply IH.
    - unfold cappedBuffer_Write. cbv zeta. by repeat case_match.
    - assert (0 ≤ str_len (cb_buf c)) by (unfold str_len; lia).
      unfold cappedBuffer_Write. cbv zeta. rewrite E, wrap64_id by (unfold in64, min64, max64 in *; lia).
      destruct (Z.ltb_spec 0 (cap - str_len (cb_buf c))); [|done].
      destruct (Z.ltb_spec (cap - str_len (cb_buf c)) (str_len p)); cbn.
      + rewrite (proj2 (Z.ltb_lt _ _)) by done. cbn. rewrite str_len_app.
        pose proof (str_take_length (Z.to_nat (cap - str_len (cb_buf c))) p). unfold str_len in *. lia.
      + rewrite Z.ltb_irrefl. cbn. rewrite str_len_app.
        pose proof (str_take_short (Z.to_nat (str_len p)) p). unfold str_len in *. lia. }
  apply H; [done|]. change (0 ≤ cap). lia.
Qed.

(** ** Results *)

Lemma redact_from_shorter copy omit s : (String.length (redact_from copy omit s) ≤ String.length s)%nat.
Proof.
  revert copy omit. induction s as [|c s IH]; intros copy omit; [done|]. cbn [redact_from String.length].
  destruct copy as [|copy]; [destruct omit as [|omit]|].
  - destruct (credential_match _) as [[n m]|]; cbn [String.length]; by apply le_n_S.
  - by apply le_S.
  - cbn [String.length]. by apply le_n_S.
Qed.
Lemma redact_shorter s : (String.length (redactCredentials s) ≤ String.length s)%nat.
Proof. apply redact_from_shorter. Qed.

Lemma hook_output_shorter s incomplete : (String.length (redactHookOutput s incomplete) ≤ String.length s)%nat.
Proof.
  unfold redactHookOutput. cbv zeta. pose proof (redact_shorter s) as H. destruct incomplete; [|done].
  destruct (strip_tail_shape (redactCredentials s)) as [->|(b & sc & r & _ & E & ->)]; [done|].
  rewrite E, !str_length_app in H. rewrite !str_length_app. lia.
Qed.

Definition result_ok (r : HookResult) : Prop :=
  no_credential (hr_Command r) ∧ no_credential (hr_Output r) ∧ str_len (hr_Output r) ≤ VerifyOutputCap ∧
  (hr_Truncated r = true → no_tail (hr_Output r)).

Lemma hook_output_ok s incomplete :
  no_credential (redactHookOutput s incomplete) ∧ (incomplete = true → no_tail (redactHookOutput s incomplete)).
Proof.
  unfold redactHookOutput. cbv zeta. split; [|intros ->; apply strip_tail_clean].
  pose proof (redact_clean s) as H. destruct incomplete; [|done]. revert H. generalize (redactCredentials s).
  intros t H. destruct (strip_tail_shape t) as [->|(before & scheme & r & _ & E & ->)]; [done|].
  rewrite E, str_app_assoc in H. by apply no_credential_app in H as [H _].
Qed.

Lemma command_safe os past workdir name command timeoutMs env :
  safe anything os past (runWorkspaceHookCommand workdir name command timeoutMs env)
    (λ _ r, result_ok r ∧ hr_Command r = redactCredentials command).
Proof.
  unfold runWorkspaceHookCommand. cbv zeta. apply safe_do; [done|]. intros run.
  destruct (cr_Started run); simpl; (split; [|done]); (split; [apply redact_clean|]); cbn [hr_Output hr_Truncated].
  - destruct (hook_output_ok "" (has (cr_Ctx run))) as [H _]. split_and!; [done| |done].
    pose proof (hook_output_shorter "" (has (cr_Ctx run))). unfold str_len, VerifyOutputCap. simpl in *. lia.
  - set (out := fold_left _ _ _). set (inc := _ || _). destruct (hook_output_ok (cb_buf out) inc) as [H1 H2].
    split_and!; [done| |].
    + pose proof (hook_output_shorter (cb_buf out) inc).
      assert (str_len (cb_buf out) ≤ VerifyOutputCap) by by apply writes_bounded. unfold str_len in *. lia.
    + intros Ht. apply H2. unfold inc. by rewrite Ht.
Qed.

Lemma Forall_snoc {A} (P : A → Prop) l x : Forall P l → P x → Forall P (l ++ [x]).
Proof. intros Hl Hx. apply Forall_app. split; [done|]. by constructor; [|constructor]. Qed.

(** The commands of a hook that are not blank. *)
Definition real_commands (commands : list string) : list string :=
  List.filter (λ c, negb (String.eqb c "")) (map TrimSpace commands).
Definition succeeded (r : HookResult) : Prop := hr_Err r = None.

Lemma run_commands_safe os past workdir name timeoutMs env commands done_ :
  Forall result_ok done_ → Forall succeeded done_ →
  safe anything os past (run_commands workdir name timeoutMs env commands done_) (λ _ '(results, err),
    Forall result_ok results ∧
    ∃ ran rest, real_commands commands = ran ++ rest ∧
      map hr_Command results = map hr_Command done_ ++ map redactCredentials ran ∧
      match err with
      | None => rest = [] ∧ Forall succeeded results
      | Some e => he_Results e = results ∧ ∃ before r, results = before ++ [r] ∧ Forall succeeded before ∧ hr_Err r = Some (he_Err e)
      end).
Proof.
  revert past done_. induction commands as [|raw commands IH]; intros past done_ Hok Hs; cbn [run_commands].
  { split; [done|]. exists [], []. split_and!; [done|by rewrite app_nil_r|done|done]. }
  cbv zeta. unfold real_commands. cbn [map List.filter].
  destruct (String.eqb (TrimSpace raw) ""); cbn [negb]; [by apply IH|].
  apply safe_bind. eapply safe_mono; [apply command_safe|]. intros p1 r [Hr Ec].
  destruct (hr_Err r) as [err|] eqn:Ee.
  - split; [by apply Forall_snoc|]. exists [TrimSpace raw], (real_commands commands).
    split_and!; [done|by rewrite map_app; cbn; rewrite Ec|done|]. by exists done_, r.
  - eapply safe_mono; [apply IH; by apply Forall_snoc|].
    intros p2 [results e] [H1 (ran & rest & Er & Em & He)]. split; [done|].
    exists (TrimSpace raw :: ran), rest. split_and!; [by cbn; rewrite <- Er| |done].
    rewrite Em, map_app, <- app_assoc. cbn. by rewrite Ec.
Qed.

(** A hook runs its commands that are not blank in order and stops at the first that
    fails, which its error reports with every result so far; each result shows the
    command and at most 1 MiB of its output with no URL that carries userinfo, and
    truncated output does not end inside such a URL. *)
Theorem hook_results (os : OS) (past : list Event) (workdir : string) (name : HookName) (commands : list string)
    (timeoutMs : Z) (envPassthrough : list string) (cfg : TrackerConfig) (lookup : lookup_env) (loginPath : unit → string) :
  let '(log, (results, err)) :=
    exec os past (RunWorkspaceHook workdir name commands timeoutMs envPassthrough cfg lookup loginPath) in
  Forall result_ok results ∧
  ∃ ran rest, real_commands commands = ran ++ rest ∧ map hr_Command results = map redactCredentials ran ∧
  match err with
  | None => rest = [] ∧ Forall succeeded results
  | Some e => he_Results e = results ∧
      ∃ before r, results = before ++ [r] ∧ Forall succeeded before ∧ hr_Err r = Some (he_Err e)
  end.
Proof.
  unfold RunWorkspaceHook. cbv zeta.
  pose proof (safe_exec _ _ _ _ _ (run_commands_safe os past workdir name (EffectiveWorkspaceHookTimeoutMs timeoutMs)
    (subprocessEnvWithLookup envPassthrough cfg lookup (Some loginPath)) commands [] (Forall_nil_2 _) (Forall_nil_2 _))) as H.
  destruct (exec _ _ _) as [log [results err]]. exact (proj1 H).
Qed.

(** The time a hook is given, and the grace after its end, are bounded. *)
Lemma hook_times_bounded timeoutMs :
  0 < EffectiveWorkspaceHookTimeoutMs timeoutMs ∧
  100 * Millisecond ≤ workspaceHookWaitDelay timeoutMs ≤ Second.
Proof.
  split.
  - unfold EffectiveWorkspaceHookTimeoutMs. destruct (Z.ltb_spec 0 timeoutMs); lia.
  - unfold workspaceHookWaitDelay, Millisecond, Second. cbv zeta. destruct (timeoutMs <=? 0); [lia|].
    destruct (Z.ltb_spec ((timeoutMs + 9) / 10 *i 1000000) (100 * 1000000)); [lia|].
    destruct (Z.ltb_spec 1000000000 ((timeoutMs + 9) / 10 *i 1000000)); lia.
Qed.
