(* ===== verification/GoCache.v ===== *)
(** * Per-workspace Go build caches

    internal/runner/go_cache.go: the directory of a workspace's build cache, its removal,
    which caches are in use, and the reaper of old ones.  The table of caches in use is
    shared by all runs, so the reaper sees, for the n-th entry, the table [active n]. *)

From S2P Require Import Prelude GoStd Paths Sys Hashes GitCmd.

Definition goBuildCacheMaxAge : Duration := 7 * 24 * 60 * Minute.

Definition aiopsGoCacheRoot : Prog string :=
  let* tmp := call TempDir in Done (Join [tmp; "aiops-go-cache"]).

(** [fmt.Sprintf("%016x", h.Sum64())] of the absolute path. *)
Definition workspaceCacheKey (getwd : option string) (workdir : string) : string :=
  let key := match Abs getwd workdir with
             | Some abs => if negb (String.eqb abs "") then abs else workdir
             | None => workdir
             end in
  hex (be_bytes 8 (fnv64a (bytes_of key))).

Section Caches.
Context (getwd : option string).

Definition SandboxGoBuildCachePath (workdir : string) : Prog string :=
  let* root := aiopsGoCacheRoot in
  Done (Join [root; "build"; workspaceCacheKey getwd workdir]).

Definition RemoveSandboxGoBuildCache (workdir : string) : Fallible unit :=
  let* path := SandboxGoBuildCachePath workdir in
  wrap_error "remove Go build cache" (os_done (RemoveAll path)).

(** ** Environment *)

(** [strings.CutPrefix(kv, name+"=")] with a value. *)
Definition envHasValue (env : list string) (name : string) : bool :=
  existsb (fun kv => match CutPrefix kv (name +:+ "=") with
                     | Some v => negb (String.eqb v "")
                     | None => false
                     end) env.

(** The caches injected: name, directory below the root, per workspace. *)
Definition goToolchainCaches : list (string * string * bool) :=
  [("GOCACHE", "build", true); ("GOMODCACHE", "mod", false)].
Definition goCacheNames : list string := map (fun c => c.1.1) goToolchainCaches.

Fixpoint add_caches (root workdir : string) (caches : list (string * string * bool)) (env : list string)
    : Prog (list string) :=
  match caches with
  | [] => Done env
  | (name, subdir, perWorkspace) :: caches =>
      if envHasValue env name then add_caches root workdir caches env
      else
        let* path := if perWorkspace : bool then SandboxGoBuildCachePath workdir else Done (Join [root; subdir]) in
        add_caches root workdir caches (env ++ [name +:+ "=" +:+ path])
  end.
Definition withSandboxGoToolchainCaches (env : list string) (workdir : string) : Prog (list string) :=
  let* root := aiopsGoCacheRoot in add_caches root workdir goToolchainCaches env.

Definition isWorkerInjectedGoCache (value : string) : Prog bool :=
  let* root := aiopsGoCacheRoot in
  Done (String.eqb value root || HasPrefix value (root +:+ slash)).
End Caches.

(** ** Caches in use *)

Notation active_map := (gmap string Z).
Definition markActiveGoBuildCache (m : active_map) (key : string) : active_map :=
  <[key := default 0 (m !! key) +i 1]> m.
Definition unmarkActiveGoBuildCache (m : active_map) (key : string) : active_map :=
  if default 0 (m !! key) <=? 1 then delete key m else <[key := default 0 (m !! key) -i 1]> m.
Definition activeGoBuildCache (m : active_map) (key : string) : bool := 0 <? default 0 (m !! key).

(** ** The reaper *)

Definition goBuildCacheStatError (err : OsErr) : Fallible unit :=
  if os_IsNotExist err then ok tt else fail (Wrapped "stat Go build cache" (FromOs err)).

Definition readGoBuildCacheEntries (root : string) : Fallible (list DirEntry) :=
  let* entries := call (ReadDir root) in
  match entries with
  | inr entries => ok entries
  | inl err => if os_IsNotExist err then ok [] else fail (Wrapped "read Go build cache root" (FromOs err))
  end.

Definition reapGoBuildCacheEntry (active : active_map) (root : string) (entry : DirEntry) (cutoff : Time) : Fallible unit :=
  if negb (de_IsDir entry) || activeGoBuildCache active (de_Name entry) then ok tt
  else
    let path := Join [root; de_Name entry] in
    match de_Info entry with
    | inl err => goBuildCacheStatError err
    | inr info =>
        if After (fi_ModTime info) cutoff then ok tt
        else wrap_error "remove stale Go build cache" (os_done (RemoveAll path))
    end.

(** The errors collected, in order; [errors.Join] of none is nil. *)
Fixpoint reap_entries (active : nat → active_map) (n : nat) (root : string) (entries : list DirEntry) (cutoff : Time)
    : Prog (list Err) :=
  match entries with
  | [] => Done []
  | entry :: entries =>
      let* r := reapGoBuildCacheEntry (active n) root entry cutoff in
      let* errs := reap_entries active (S n) root entries cutoff in
      Done (match r with inl e => e :: errs | inr _ => errs end)
  end.

Definition reapSandboxGoBuildCaches (active : nat → active_map) : Prog (list Err) :=
  let* cache := aiopsGoCacheRoot in
  let root := Join [cache; "build"] in
  let* entries := readGoBuildCacheEntries root in
  match entries with
  | inl err => Done [err]
  | inr entries =>
      let* now := call Now in
      reap_entries active 0 root entries (time_Add now (- goBuildCacheMaxAge))
  end.

(** ** What is removed *)

(** The cache at [path] is of a listed directory not in use when it was looked at, and
    last changed by the cutoff. *)
Definition stale_cache (active : nat → active_map) (root : string) (entries : list DirEntry) (cutoff : Time) (path : string) : Prop :=
  ∃ n entry info, entries !! n = Some entry ∧ path = Join [root; de_Name entry] ∧ de_IsDir entry = true ∧
    activeGoBuildCache (active n) (de_Name entry) = false ∧ de_Info entry = inr info ∧ fi_ModTime info ≤ cutoff.

Definition reap_guard (active : nat → active_map) : Guard := λ before B c,
  match c with
  | RemoveAll path => ∃ tmp entries now,
      let root := Join [Join [tmp; "aiops-go-cache"]; "build"] in
      Ev TempDir tmp ∈ before ∧ Ev (ReadDir root) (inr entries) ∈ before ∧ Ev Now now ∈ before ∧
      stale_cache active root entries (time_Add now (- goBuildCacheMaxAge)) path
  | _ => True
  end.

Lemma reap_entries_safe active os tmp entries now before n past :
  let root := Join [Join [tmp; "aiops-go-cache"]; "build"] in
  let cutoff := time_Add now (- goBuildCacheMaxAge) in
  Ev TempDir tmp ∈ past → Ev (ReadDir root) (inr (before ++ entries)) ∈ past → Ev Now now ∈ past → n = length before →
  safe (reap_guard active) os past (reap_entries active n root entries cutoff) (λ _ _, True).
Proof.
  cbv zeta. revert before n past. induction entries as [|entry entries IH]; intros before n past H1 H2 H3 Hn; [done|].
  cbn [reap_entries]. set (root := Join [Join [tmp; "aiops-go-cache"]; "build"]) in *.
  set (cutoff := time_Add now (- goBuildCacheMaxAge)) in *.
  apply safe_bind. eapply safe_mono; [apply (safe_extends _ _ _ _ (λ _ _, True))|].
  2: { intros p1 r [_ Hp]. apply safe_bind. eapply safe_mono; [|by intros].
       apply (IH (before ++ [entry])); rewrite ?length_app; simpl; [..|lia].
       - destruct Hp as [new ->]. set_solver.
       - rewrite <- app_assoc. destruct Hp as [new ->]. set_solver.
       - destruct Hp as [new ->]. set_solver. }
  unfold reapGoBuildCacheEntry. destruct (negb (de_IsDir entry) || _) eqn:E; [done|].
  apply orb_false_iff in E as [E1%negb_false_iff E2]. cbv zeta.
  destruct (de_Info entry) as [err|info] eqn:Ei; [unfold goBuildCacheStatError; by destruct (os_IsNotExist err)|].
  destruct (After (fi_ModTime info) cutoff) eqn:Ea; [done|].
  apply safe_wrap_error, safe_os_done; [|done|done]. exists tmp, (before ++ entry :: entries), now. cbv zeta.
  split_and!; [done..|]. exists n, entry, info. split_and!; [|done|done|done|done|].
  - rewrite Hn. by rewrite list_lookup_middle.
  - unfold After in Ea. apply Z.ltb_ge in Ea. done.
Qed.

(** The reaper removes only directories listed below the worker's own cache root, that
    no run had marked as in use when they were looked at, and that were last changed at
    least seven days before the reaper read the clock. *)
Theorem reaper_spares_active (active : nat → active_map) (os : OS) :
  let '(log, errs) := exec os [] (reapSandboxGoBuildCaches active) in
  ∀ before path b, happened log before (RemoveAll path) b → reap_guard active before _ (RemoveAll path).
Proof.
  assert (safe (reap_guard active) os [] (reapSandboxGoBuildCaches active) (λ _ _, True)) as H.
  2: { pose proof (safe_exec _ _ _ _ _ H) as Hx. destruct (exec _ _ _) as [log errs].
       intros before path b Hh. exact (proj2 Hx before _ _ b Hh (Nat.le_0_l _)). }
  unfold reapSandboxGoBuildCaches, aiopsGoCacheRoot, readGoBuildCacheEntries.
  apply safe_bind, safe_do; [done|]. intros tmp. simpl. split; [done|]. 
  destruct (os _ _ _) as [err|entries]; [by destruct (os_IsNotExist err)|]. simpl. split; [done|].
  apply (reap_entries_safe active os tmp entries _ []); [set_solver..|done].
Qed.

(** Marks count: a cache is in use while some run that marked it has not released it. *)
Lemma mark_unmark (m : active_map) key :
  in64 (default 0 (m !! key) + 1) → 0 ≤ default 0 (m !! key) →
  activeGoBuildCache (markActiveGoBuildCache m key) key = true ∧
  default 0 (unmarkActiveGoBuildCache (markActiveGoBuildCache m key) key !! key) = default 0 (m !! key).
Proof.
  intros Hr H0. unfold activeGoBuildCache, unmarkActiveGoBuildCache, markActiveGoBuildCache.
  rewrite lookup_insert_eq. destruct (m !! key) as [z|]; cbn [default from_option id] in *;
    (rewrite wrap64_id by done; split; [apply Z.ltb_lt; lia|]);
    (case_match eqn:E; [rewrite lookup_delete_eq|rewrite lookup_insert_eq, wrap64_id]);
    cbn [default from_option id]; try apply Z.leb_le in E; try apply Z.leb_gt in E;
    unfold in64, min64, max64 in *; lia.
Qed.
