(* ===== verification/WorkspaceRemoval.v ===== *)
(** * Removing the workspaces of issues

    internal/worker/workspace_root.go, workspace_hooks.go and reconcile.go: where the
    workspaces are, the removal of one with its before_remove hook, and the
    reconciliation at startup, which lists the workspaces on disk and removes those the
    tracker confirms as terminal.  The log lines are not modelled, the task events are.

    The arguments: [lookup] and [loginPath] are the worker's environment, [getwd] its
    directory, and [emitter] tells if the worker has an event emitter. *)

From S2P Require Import Prelude Tracker GoStd Types Paths Sys SafeRemove Hashes WorkspaceKey Profiles EnvPolicy Hooks GoCache.

(** ** The workspace root *)

(** [cfg.WorkspaceRoot], [wcfg.Workspace.Root] and [wcfg.Workspace.RootSet()]. *)
Definition EffectiveWorkspaceRoot (envRoot workflowRoot : string) (rootSet : bool) : string :=
  let workflowRoot := TrimSpace workflowRoot in
  if rootSet && negb (String.eqb workflowRoot "") then workflowRoot
  else
    let envRoot := TrimSpace envRoot in
    if negb (String.eqb envRoot "") then envRoot else workflowRoot.

(** ** Hooks *)

Definition HookName_string (name : HookName) : string :=
  match name with
  | HookAfterCreate => "after_create"
  | HookBeforeRun => "before_run"
  | HookAfterRun => "after_run"
  | HookBeforeRemove => "before_remove"
  end.

Definition EventWorkspaceHookStart : string := "hook_start".
Definition EventWorkspaceHookEnd : string := "hook_end".
Definition EventReconcileStart : string := "reconcile_start".
Definition EventReconcileWorkspace : string := "reconcile_workspace".
Definition EventReconcileEnd : string := "reconcile_end".

Section Worker.
Context (lookup : lookup_env) (loginPath : unit → string) (getwd : option string) (emitter : bool).

Definition worker_Emit (taskID kind msg : string) (payload : list (string * Payload)) : Prog unit :=
  if emitter then call (Emit taskID kind msg payload) else Done tt.

Fixpoint emitHookResults (taskID : string) (results : list HookResult) : Prog unit :=
  match results with
  | [] => Done tt
  | res :: results =>
      let* _ := worker_Emit taskID EventWorkspaceHookEnd (HookName_string (hr_Name res) +:+ " hook completed")
        [("hook", JStr (HookName_string (hr_Name res))); ("command", JStr (hr_Command res));
         ("exit_code", JInt (hr_ExitCode res)); ("output", JStr (hr_Output res));
         ("truncated", JBool (hr_Truncated res)); ("duration_ms", JInt (Z.quot (hr_Duration res) Millisecond));
         ("error", JErr (hr_Err res))] in
      emitHookResults taskID results
  end.

(** [worker.runWorkspaceHook]. *)
Definition worker_runWorkspaceHook (taskID workdir : string) (name : HookName) (hook : list string)
    (timeoutMs : Z) (envPassthrough : list string) (cfg : TrackerConfig) : Prog (option HookError) :=
  match hook with
  | [] => Done None
  | _ =>
      let* _ := worker_Emit taskID EventWorkspaceHookStart (HookName_string name +:+ " hook started")
        [("hook", JStr (HookName_string name)); ("commands", JInt (Z.of_nat (length hook)));
         ("timeout_ms", JInt timeoutMs)] in
      let* r := RunWorkspaceHook workdir name hook timeoutMs envPassthrough cfg lookup loginPath in
      let* _ := emitHookResults taskID r.1 in
      Done r.2
  end.

Definition removeWorkdirAfterHookFailure (taskID workspaceRoot workdir : string) (beforeRemove : list string)
    (timeoutMs : Z) (envPassthrough : list string) (cfg : TrackerConfig) : Prog unit :=
  let* v := ValidateRemove workspaceRoot workdir in
  match v with
  | inl _ => Done tt
  | inr removal =>
      let* _ := worker_runWorkspaceHook taskID workdir HookBeforeRemove beforeRemove timeoutMs envPassthrough cfg in
      let* _ := ValidatedRemoval_Remove removal in
      let* _ := RemoveSandboxGoBuildCache getwd workdir in
      Done tt
  end.

(** ** Removing one workspace *)

Record RemoveWorkspaceRequest := {
  rwr_WorkspaceRoot : string;
  rwr_TaskID : string;
  rwr_Path : string;
  rwr_IssueID : string;
  rwr_Identifier : string;
  rwr_State : string;
  rwr_Reason : string;
  rwr_WorkflowConfig : TrackerConfig;
  rwr_BeforeRemoveHook : list string;
  rwr_HookTimeoutMillis : Z;
  rwr_HookEnvPassthrough : list string
}.

(** The value and the error of [(bool, error)]. *)
Definition RemoveIssueWorkspace (req : RemoveWorkspaceRequest) : Prog (bool * option Err) :=
  let* v := ValidateRemove (rwr_WorkspaceRoot req) (rwr_Path req) in
  match v with
  | inl err => Done (false, Some (Wrapped "validate workspace" err))
  | inr removal =>
      let* _ := worker_runWorkspaceHook (rwr_TaskID req) (rwr_Path req) HookBeforeRemove
        (rwr_BeforeRemoveHook req) (rwr_HookTimeoutMillis req) (rwr_HookEnvPassthrough req)
        (rwr_WorkflowConfig req) in
      let* r := ValidatedRemoval_Remove removal in
      match r with
      | inl err => Done (false, Some (Wrapped "remove workspace" err))
      | inr _ =>
          let* _ := RemoveSandboxGoBuildCache getwd (rwr_Path req) in
          let* _ := worker_Emit (rwr_TaskID req) EventReconcileWorkspace "removed workspace"
            [("path", JStr (rwr_Path req)); ("issue_id", JStr (rwr_IssueID req));
             ("identifier", JStr (rwr_Identifier req)); ("state", JStr (rwr_State req));
             ("action", JStr "remove"); ("reason", JStr (rwr_Reason req))] in
          Done (true, None)
      end
  end.

(** ** The workspaces on disk *)

Record issueWorkspace := { iw_Path : string; iw_Key : string }.

(** The loops over directory entries: the results of [f], or its first error. *)
Fixpoint collect {A B} (f : A → Fallible (list B)) (l : list A) : Fallible (list B) :=
  match l with
  | [] => ok []
  | x :: l => let! ys := f x in let! zs := collect f l in ok (ys ++ zs)
  end.

Definition readWorkspaceRootEntries (root : string) : Fallible (list DirEntry) :=
  let* entries := call (ReadDir root) in
  match entries with
  | inr entries => ok entries
  | inl err => if os_IsNotExist err then ok [] else fail (Wrapped "read workspace root" (FromOs err))
  end.

Definition collectSourceDirIssueWorkspaces (sourcePath : string) : Fallible (list issueWorkspace) :=
  let* entries := call (ReadDir sourcePath) in
  match entries with
  | inl err => if os_IsNotExist err then ok [] else fail (Wrapped "read issue workspace source" (FromOs err))
  | inr workspaceEntries =>
      ok (map (fun e => {| iw_Path := Join [sourcePath; de_Name e]; iw_Key := de_Name e |})
              (List.filter de_IsDir workspaceEntries))
  end.

Definition collectRepoIssueWorkspaces (repoPath : string) (sourceDirs : list string)
    : Fallible (list issueWorkspace) :=
  collect (fun sourceDir => collectSourceDirIssueWorkspaces (Join [repoPath; sourceDir])) sourceDirs.

Definition collectOwnerIssueWorkspaces (ownerPath : string) (sourceDirs : list string)
    : Fallible (list issueWorkspace) :=
  let* entries := call (ReadDir ownerPath) in
  match entries with
  | inl err => fail (Wrapped "read workspace owner" (FromOs err))
  | inr repoEntries =>
      collect (fun e => collectRepoIssueWorkspaces (Join [ownerPath; de_Name e]) sourceDirs)
        (List.filter de_IsDir repoEntries)
  end.

Definition issueWorkspaceSourceDirs (trackerKind : string) : list string :=
  let kind := ToLower (TrimSpace trackerKind) in
  if String.eqb kind "github" then ["github_issue"; "github-issue"]
  else if String.eqb kind "gitea" then ["gitea_issue"; "gitea-issue"]
  else if String.eqb kind "" || String.eqb kind "linear" then ["linear_issue"; "linear-issue"]
  else [].

Definition listIssueWorkspaces (root trackerKind : string) : Fallible (list issueWorkspace) :=
  let! ownerEntries := readWorkspaceRootEntries root in
  collect (fun e => collectOwnerIssueWorkspaces (Join [root; de_Name e]) (issueWorkspaceSourceDirs trackerKind))
    (List.filter de_IsDir ownerEntries).

(** ** What the tracker says *)

Definition nonEmptyStates (states : list string) : list string :=
  List.filter (fun s => negb (String.eqb s "")) (map TrimSpace states).

Definition worker_issueWorkspaceKey (issue : Issue) : string :=
  let identifier := if String.eqb (iss_Identifier issue) "" then iss_ID issue else iss_Identifier issue in
  if String.eqb identifier "" then "" else IssueWorkspaceKey identifier.

Record reconcileFetch := {
  rf_activeIssues : list Issue;
  rf_terminalIssues : list Issue;
  rf_terminalFetchOK : bool;
  rf_terminalFetchErr : option Err
}.

Record reconcileIndex := { ri_activeKeys : gmap string Issue; ri_terminalKeys : gmap string Issue }.

(** The last issue of a key stays. *)
Definition keys_of (issues : list Issue) : gmap string Issue :=
  fold_left (fun m issue =>
    let key := worker_issueWorkspaceKey issue in
    if negb (String.eqb key "") then <[key := issue]> m else m) issues ∅.
Definition newReconcileIndex (fetch : reconcileFetch) : reconcileIndex :=
  {| ri_activeKeys := keys_of (rf_activeIssues fetch); ri_terminalKeys := keys_of (rf_terminalIssues fetch) |}.

(** ** Reconciliation at startup *)

(** [rc_Tracker]: the answer of the tracker to its n-th request. *)
Record ReconcileConfig := {
  rc_WorkspaceRoot : string;
  rc_ActiveStates : list string;
  rc_TerminalStates : list string;
  rc_TrackerKind : string;
  rc_Tracker : option (nat → list string → Err + list Issue);
  rc_ReconcileTaskID : string;
  rc_WorkflowConfig : TrackerConfig;
  rc_BeforeRemoveHook : list string;
  rc_HookTimeoutMillis : Z;
  rc_HookEnvPassthrough : list string
}.

Definition validateReconcileConfig (cfg : ReconcileConfig) : Err + (nat → list string → Err + list Issue) :=
  if String.eqb (TrimSpace (rc_WorkspaceRoot cfg)) "" then inl (Message "workspace root is required")
  else match rc_Tracker cfg with
       | None => inl (Message "reconcile tracker is required")
       | Some tracker =>
           if (length (nonEmptyStates (rc_ActiveStates cfg)) =? 0)%nat
           then inl (Message "active states are required for startup reconciliation")
           else if (length (nonEmptyStates (rc_TerminalStates cfg)) =? 0)%nat
           then inl (Message "terminal states are required for startup reconciliation")
           else inr tracker
       end.

Definition fetchReconcileIssues (tracker : nat → list string → Err + list Issue) (taskID : string)
    (activeStates terminalStates : list string) : Prog (reconcileFetch * bool) :=
  match tracker O activeStates with
  | inl err =>
      let* _ := worker_Emit taskID EventReconcileEnd "startup reconciliation skipped"
        [("status", JStr "skipped"); ("reason", JStr "active_fetch_failed"); ("error", JErr (Some err))] in
      Done ({| rf_activeIssues := []; rf_terminalIssues := []; rf_terminalFetchOK := false;
               rf_terminalFetchErr := None |}, true)
  | inr activeIssues =>
      match tracker 1%nat terminalStates with
      | inl err =>
          Done ({| rf_activeIssues := activeIssues; rf_terminalIssues := []; rf_terminalFetchOK := false;
                   rf_terminalFetchErr := Some err |}, false)
      | inr terminalIssues =>
          Done ({| rf_activeIssues := activeIssues; rf_terminalIssues := terminalIssues;
                   rf_terminalFetchOK := true; rf_terminalFetchErr := None |}, false)
      end
  end.

Definition removeWorkspace (cfg : ReconcileConfig) (taskID path : string) (issue : Issue) (reason : string)
    : Prog (bool * option Err) :=
  RemoveIssueWorkspace
    {| rwr_WorkspaceRoot := rc_WorkspaceRoot cfg; rwr_TaskID := taskID; rwr_Path := path;
       rwr_IssueID := iss_ID issue; rwr_Identifier := iss_Identifier issue; rwr_State := iss_State issue;
       rwr_Reason := reason; rwr_WorkflowConfig := rc_WorkflowConfig cfg;
       rwr_BeforeRemoveHook := rc_BeforeRemoveHook cfg; rwr_HookTimeoutMillis := rc_HookTimeoutMillis cfg;
       rwr_HookEnvPassthrough := rc_HookEnvPassthrough cfg |}.

(** [(removedOne, keptOne, err)]. *)
Definition reconcileWorkspace (cfg : ReconcileConfig) (taskID : string) (workspace : issueWorkspace)
    (idx : reconcileIndex) : Prog (bool * bool * option Err) :=
  match ri_activeKeys idx !! iw_Key workspace with
  | Some _ =>
      let* _ := worker_Emit taskID EventReconcileWorkspace "kept active workspace"
        [("path", JStr (iw_Path workspace)); ("key", JStr (iw_Key workspace)); ("action", JStr "keep");
         ("reason", JStr "active")] in
      Done (false, true, None)
  | None =>
      match ri_terminalKeys idx !! iw_Key workspace with
      | Some issue =>
          let* r := removeWorkspace cfg taskID (iw_Path workspace) issue "terminal" in
          Done (r.1, false, r.2)
      | None =>
          let* _ := worker_Emit taskID EventReconcileWorkspace "kept unknown workspace"
            [("path", JStr (iw_Path workspace)); ("key", JStr (iw_Key workspace)); ("action", JStr "keep");
             ("reason", JStr "unknown_terminal_state_unconfirmed")] in
          Done (false, true, None)
      end
  end.

(** [ctx n]: the error of the context before the n-th workspace. *)
Fixpoint reconcileWorkspaces (ctx : nat → option Cause) (n : nat) (cfg : ReconcileConfig) (taskID : string)
    (workspaces : list issueWorkspace) (idx : reconcileIndex) (removed kept : Z) : Prog (Z * Z * option Err) :=
  match workspaces with
  | [] => Done (removed, kept, None)
  | workspace :: workspaces =>
      match ctx n with
      | Some cause => Done (removed, kept, Some (FromContext cause))
      | None =>
          let* r := reconcileWorkspace cfg taskID workspace idx in
          match r.2 with
          | Some err => Done (removed, kept, Some err)
          | None =>
              let removed := if r.1.1 : bool then removed +i 1 else removed in
              let kept := if r.1.2 : bool then kept +i 1 else kept in
              reconcileWorkspaces ctx (S n) cfg taskID workspaces idx removed kept
          end
      end
  end.

Definition reconcileEndPayload (fetch : reconcileFetch) (kept removed : Z) : list (string * Payload) :=
  [("active_issues", JInt (Z.of_nat (length (rf_activeIssues fetch))));
   ("terminal_issues", JInt (Z.of_nat (length (rf_terminalIssues fetch))));
   ("kept", JInt kept); ("removed", JInt removed)] ++
  if rf_terminalFetchOK fetch then [("status", JStr "ok")]
  else [("status", JStr "partial"); ("reason", JStr "terminal_fetch_failed")] ++
       match rf_terminalFetchErr fetch with
       | Some err => [("error", JErr (Some err))]
       | None => []
       end.

Definition ReconcileStartup (ctx : nat → option Cause) (cfg : ReconcileConfig) : Prog (option Err) :=
  match validateReconcileConfig cfg with
  | inl err => Done (Some err)
  | inr tracker =>
      let taskID := if String.eqb (rc_ReconcileTaskID cfg) "" then "reconcile-startup" else rc_ReconcileTaskID cfg in
      let* _ := worker_Emit taskID EventReconcileStart "startup reconciliation started"
        [("workspace_root", JStr (rc_WorkspaceRoot cfg)); ("active_states", JStrs (rc_ActiveStates cfg));
         ("terminal_states", JStrs (rc_TerminalStates cfg))] in
      let* f := fetchReconcileIssues tracker taskID (nonEmptyStates (rc_ActiveStates cfg))
        (nonEmptyStates (rc_TerminalStates cfg)) in
      if f.2 : bool then Done None
      else
        let idx := newReconcileIndex f.1 in
        let* workspaces := listIssueWorkspaces (rc_WorkspaceRoot cfg) (rc_TrackerKind cfg) in
        match workspaces with
        | inl err => Done (Some err)
        | inr workspaces =>
            let* r := reconcileWorkspaces ctx O cfg taskID workspaces idx 0 0 in
            match r.2 with
            | Some err => Done (Some err)
            | None =>
                let* _ := worker_Emit taskID EventReconcileEnd "startup reconciliation finished"
                  (reconcileEndPayload f.1 r.1.2 r.1.1) in
                Done None
            end
        end
  end.
End Worker.

(** * What workspace removal removes

    For the removal of one workspace and the reconciliation at startup, on any operating
    system whose symbolic links resolve to absolute paths: what every call needs to be
    made, and when the results and the task events say that a workspace was removed. *)


Lemma prefix_elem {A} (l l' : list A) x : l `prefix_of` l' → x ∈ l → x ∈ l'.
Proof. intros [r ->] H. set_solver. Qed.

(** ** One workspace *)

(** The hook calls nothing but its commands, in the workspace, and its own events. *)
Definition hook_calls (workdir : string) : Calls := λ B c,
  match c with
  | Command dir _ _ _ => String.eqb dir workdir
  | Emit _ kind _ _ => negb (String.eqb kind EventReconcileWorkspace)
  | _ => false
  end.

Section Removal.
Context (lookup : lookup_env) (loginPath : unit → string) (getwd : option string) (emitter : bool).

(** A hook makes only its commands and reports their start and end. *)
Section HookCalls.
Context (P : Calls) (workdir : string).
Context (Pcommand : ∀ command timeoutMs env, P _ (Command workdir command timeoutMs env) = true).
Context (Pemit : ∀ taskID kind msg payload,
  kind = EventWorkspaceHookStart ∨ kind = EventWorkspaceHookEnd → P _ (Emit taskID kind msg payload) = true).

Lemma emit_calls taskID kind msg payload :
  kind = EventWorkspaceHookStart ∨ kind = EventWorkspaceHookEnd →
  Only P (worker_Emit emitter taskID kind msg payload).
Proof. intros H. unfold worker_Emit. destruct emitter; [|exact I]. by apply only_call, Pemit. Qed.
Lemma results_calls taskID results : Only P (emitHookResults emitter taskID results).
Proof.
  induction results as [|r results IH]; [exact I|]. cbn [emitHookResults]. apply only_bind; [|done].
  apply emit_calls. by right.
Qed.
Lemma commands_calls name timeoutMs env commands results :
  Only P (run_commands workdir name timeoutMs env commands results).
Proof.
  revert results. induction commands as [|raw commands IH]; intros results; [exact I|]. cbn [run_commands].
  cbv zeta. destruct (String.eqb _ ""); [apply IH|]. apply only_bind.
  - unfold runWorkspaceHookCommand. cbv zeta. apply only_bind; [|intros run; destruct (cr_Started run); exact I].
    apply only_call, Pcommand.
  - intros r. destruct (hr_Err r); [exact I|apply IH].
Qed.
Lemma worker_hook_calls taskID name hook timeoutMs envPassthrough cfg :
  Only P (worker_runWorkspaceHook lookup loginPath emitter taskID workdir name hook timeoutMs envPassthrough cfg).
Proof.
  unfold worker_runWorkspaceHook. destruct hook; [exact I|]. apply only_bind; [apply emit_calls; by left|]. intros _.
  apply only_bind; [apply commands_calls|]. intros r. apply only_bind; [apply results_calls|]. intros _. exact I.
Qed.
End HookCalls.

#[local] Instance worker_hook_only taskID workdir name hook timeoutMs envPassthrough cfg :
  Only (hook_calls workdir)
    (worker_runWorkspaceHook lookup loginPath emitter taskID workdir name hook timeoutMs envPassthrough cfg).
Proof.
  apply worker_hook_calls; [intros; apply String.eqb_refl|].
  intros ? kind ? ? [-> | ->]; reflexivity.
Qed.

(** The path was validated once; twice, with one canonical root, the second time last. *)
Definition validated_before (root path : string) (before : list Event) : Prop :=
  ∃ pre first middle canonical, before = pre ++ first ++ middle ∧
    validated first (TrimSpace root) (TrimSpace path) canonical.
Definition validated_around (root path : string) (before : list Event) : Prop :=
  ∃ pre first middle second canonical, before = pre ++ first ++ middle ++ second ∧
    validated first (TrimSpace root) (TrimSpace path) canonical ∧
    validated second (TrimSpace root) (TrimSpace path) canonical.

(** The Go build cache of the workspace, below the worker's own cache directory. *)
Definition its_cache (path : string) (before : list Event) (p : string) : Prop :=
  ∃ tmp, Ev TempDir tmp ∈ before ∧
    p = Join [Join [tmp; "aiops-go-cache"]; "build"; workspaceCacheKey getwd path].

Definition removal_guard (root path : string) : Guard := λ before B c,
  match c with
  | RemoveAll p => (p = TrimSpace path ∧ validated_around root path before) ∨ its_cache path before p
  | Command dir _ _ _ => dir = path ∧ validated_before root path before
  | Emit _ kind _ _ => kind = EventReconcileWorkspace → Ev (RemoveAll (TrimSpace path)) None ∈ before
  | EvalSymlinks _ | Lstat _ | TempDir => True
  | _ => False
  end.

#[local] Instance removal_looks root path : LooksAllowed (removal_guard root path).
Proof. intros past B c. by destruct c. Qed.

Lemma Remove_removes os past v :
  safe anything os past (ValidatedRemoval_Remove v)
    (λ past' r, match r with inr _ => Ev (RemoveAll (vr_path v)) None ∈ past' | inl _ => True end).
Proof.
  unfold ValidatedRemoval_Remove. apply safe_or_fail.
  eapply safe_mono; [apply (safe_guard_mono (λ _ _ _, True) anything); [done|]|].
  - instantiate (1 := λ _ _, True). clear. generalize (validateRemoval (vr_root v) (vr_path v)). intros p.
    revert past. induction p as [a|B c k IH]; intros past; simpl; auto.
  - intros past' [e|cur] _; [done|]. destruct (negb _); [done|]. simpl. split; [done|].
    destruct (os _ _ _); [done|]. set_solver.
Qed.

Lemma cache_safe root path os past Q :
  (∀ new r, Q (past ++ new) r) →
  safe (removal_guard root path) os past (RemoveSandboxGoBuildCache getwd path) Q.
Proof.
  intros HQ. unfold RemoveSandboxGoBuildCache, SandboxGoBuildCachePath, aiopsGoCacheRoot.
  apply safe_bind. cbn [prog_bind call safe]. split; [exact I|]. apply safe_wrap_error, safe_os_done.
  - right. eexists. split; [apply elem_of_app; right; apply list_elem_of_singleton; reflexivity|reflexivity].
  - intros e. rewrite <- app_assoc. apply HQ.
  - rewrite <- app_assoc. apply HQ.
Qed.

Lemma remove_issue_safe (os : OS) `{!AbsoluteOS os} past req :
  safe (removal_guard (rwr_WorkspaceRoot req) (rwr_Path req)) os past
    (RemoveIssueWorkspace lookup loginPath getwd emitter req)
    (λ log '(removed, err),
      (removed = true → err = None ∧ Ev (RemoveAll (TrimSpace (rwr_Path req))) None ∈ log) ∧
      (removed = false → is_Some err)).
Proof.
  set (root := rwr_WorkspaceRoot req). set (path := rwr_Path req). unfold RemoveIssueWorkspace.
  apply safe_bind. eapply safe_mono; [apply validate_safe; apply _|].
  intros past1 [e|v] (first & -> & H); [done|]. destruct H as (Er & Ep & Hv).
  apply safe_bind. eapply safe_mono; [apply (only_safe (hook_calls path)); [apply _|]|].
  { intros new B c _ Hc. destruct c; simpl in *; try done.
    - apply String.eqb_eq in Hc as ->. split; [done|]. exists past, first, new, (vr_canonicalRoot v).
      by rewrite <- app_assoc.
    - intros ->. done. }
  intros past2 _ (middle & -> & _). apply safe_bind. eapply safe_mono.
  { apply safe_extends, safe_combine; [apply Remove_safe; [apply _|done|..]|apply Remove_removes].
    - by rewrite Er, TrimSpace_idem.
    - by rewrite Ep, TrimSpace_idem.
    - intros second Hs. rewrite Er, Ep in Hs. left. split; [done|].
      exists past, first, middle, second, (vr_canonicalRoot v). by rewrite <- !app_assoc. }
  rewrite Ep. intros past3 [e|[]] [[_ Hrm] _]; [done|]. fold path in Hrm.
  apply safe_bind, cache_safe. intros new r. apply safe_bind. unfold worker_Emit. destruct emitter; simpl.
  - split_and!; [set_solver|..]; set_solver.
  - split_and!; set_solver.
Qed.

End Removal.

Definition removals (log : list Event) : list string :=
  omap (λ '(Ev c _), match c with RemoveAll p => Some p | _ => None end) log.

(** A directory with a workspace for each of ENG-1, ENG-2 and ENG-3. *)
Definition a_dir (name : string) : DirEntry := {| de_Name := name; de_IsDir := true; de_Info := inr a_directory |}.
Definition demo_os : OS := fun B past c =>
  match c in Sys B return B with
  | ReadDir path =>
      if String.eqb path "/srv/ws" then inr [a_dir "acme"]
      else if String.eqb path "/srv/ws/acme" then inr [a_dir "app"]
      else if String.eqb path "/srv/ws/acme/app/linear_issue" then inr [a_dir "ENG-1"; a_dir "ENG-2"; a_dir "ENG-3"]
      else inl ENotExist
  | c => quiet_os _ past c
  end.
#[export] Instance demo_os_abs : AbsoluteOS demo_os.
Proof. by intros past path target Ha [= <-]. Qed.

Definition no_tracker : TrackerConfig :=
  {| tc_Kind := "linear"; tc_Provider := None; tc_profile := None; tc_RepoOwner := ""; tc_RepoName := "" |}.


(** ** Reconciliation at startup *)

(** The log lists the directory of [w] as owner, repository, source and key below the
    root. *)
Definition lists (log : list Event) (dir : string) (entry : DirEntry) : Prop :=
  ∃ entries, Ev (ReadDir dir) (inr entries) ∈ log ∧ entry ∈ entries ∧ de_IsDir entry = true.
Definition on_disk (root kind : string) (log : list Event) (w : issueWorkspace) : Prop :=
  ∃ owner repo source entry,
    let repoPath := Join [Join [root; de_Name owner]; de_Name repo] in
    lists log root owner ∧ lists log (Join [root; de_Name owner]) repo ∧
    source ∈ issueWorkspaceSourceDirs kind ∧ lists log (Join [repoPath; source]) entry ∧
    iw_Key w = de_Name entry ∧ iw_Path w = Join [Join [repoPath; source]; de_Name entry].

Lemma lists_mono log log' dir e : log `prefix_of` log' → lists log dir e → lists log' dir e.
Proof. intros Hp (es & H & ?). exists es. split; [by eapply prefix_elem|done]. Qed.
Lemma on_disk_mono root kind log log' w : log `prefix_of` log' → on_disk root kind log w → on_disk root kind log' w.
Proof.
  intros Hp (o & r & s & e & H1 & H2 & H3 & H4 & H). exists o, r, s, e. cbv zeta.
  split; [by eapply lists_mono|]. split; [by eapply lists_mono|]. split; [done|]. split; [by eapply lists_mono|done].
Qed.

(** What a listing promises of its results. *)
Definition listing {B} (P : list Event → B → Prop) (log : list Event) (r : Err + list B) : Prop :=
  match r with inr l => Forall (P log) l | inl _ => True end.

Lemma collect_safe {A B} (P : list Event → B → Prop) G os past (f : A → Fallible (list B)) l :
  (∀ log log' y, log `prefix_of` log' → P log y → P log' y) →
  (∀ x past', x ∈ l → past `prefix_of` past' → safe G os past' (f x) (listing P)) →
  safe G os past (collect f l) (listing P).
Proof.
  intros Hm. revert past. induction l as [|x l IH]; intros past Hf; cbn [collect]; [by constructor|].
  apply safe_or_fail. eapply safe_mono; [apply safe_extends, Hf; [by left|done]|].
  intros p1 [e|ys] [Hys Hp]; [done|]. apply safe_or_fail. eapply safe_mono.
  { apply safe_extends, IH. intros z p2 Hz Hp2. apply Hf; [by right|by etrans]. }
  intros p2 [e|zs] [Hzs Hp2]; [done|]. apply Forall_app. split; [|done].
  eapply Forall_impl; [exact Hys|]. intros y. by apply Hm.
Qed.

Definition reads_only : Guard := λ _ B c, match c with ReadDir _ => True | _ => False end.

Lemma filter_dirs (e : DirEntry) es : e ∈ List.filter de_IsDir es → e ∈ es ∧ de_IsDir e = true.
Proof. rewrite !list_elem_of_In. apply filter_In. Qed.

Lemma read_dir_safe {B} (P : list Event → B → Prop) os past dir (k : OsErr + list DirEntry → Fallible (list B)) :
  (∀ e, k (inl e) = ok [] ∨ ∃ x, k (inl e) = fail x) →
  (∀ es, Ev (ReadDir dir) (inr es) ∈ past ++ [Ev (ReadDir dir) (inr es)] →
    safe reads_only os (past ++ [Ev (ReadDir dir) (inr es)]) (k (inr es)) (listing P)) →
  safe reads_only os past (prog_bind (call (ReadDir dir)) k) (listing P).
Proof.
  intros He Hk. apply safe_do; [done|]. intros [e|es].
  - destruct (He e) as [->|[x ->]]; [by constructor|done].
  - apply Hk. set_solver.
Qed.

Lemma list_workspaces_safe os past root kind :
  safe reads_only os past (listIssueWorkspaces root kind) (listing (on_disk root kind)).
Proof.
  unfold listIssueWorkspaces, readWorkspaceRootEntries. apply safe_or_fail, safe_do; [done|].
  intros [e|es]; [destruct (os_IsNotExist e); [by constructor|done]|].
  apply collect_safe; [apply on_disk_mono|]. intros owner p1 [Ho Hod]%filter_dirs Hp1.
  assert (lists p1 root owner) as Hlo.
  { exists es. split; [eapply prefix_elem; [exact Hp1|set_solver]|done]. }
  apply read_dir_safe; [eauto|]. intros repos Hr.
  apply collect_safe; [apply on_disk_mono|]. intros repo p2 [Hrin Hrd]%filter_dirs Hp2.
  apply collect_safe; [apply on_disk_mono|]. intros source p3 Hs Hp3.
  apply read_dir_safe; [intros e; destruct (os_IsNotExist e); eauto|]. intros entries He.
  simpl. rewrite Forall_map, Forall_forall. intros entry [Hein Hed]%filter_dirs.
  exists owner, repo, source, entry. cbv zeta. split_and!; [| |done| |done|done].
  - eapply lists_mono; [|exact Hlo]. etrans; [|by eexists]. etrans; [|exact Hp3]. etrans; [|exact Hp2]. by eexists.
  - exists repos. split; [|done]. apply elem_of_app. left. eapply prefix_elem; [|exact Hr]. by etrans.
  - by exists entries.
Qed.

Lemma keys_of_spec issues k :
  match keys_of issues !! k with
  | Some issue => issue ∈ issues ∧ worker_issueWorkspaceKey issue = k ∧ k ≠ ""
  | None => ∀ issue, issue ∈ issues → worker_issueWorkspaceKey issue = k → k = ""
  end.
Proof.
  unfold keys_of. induction issues as [|i issues IH] using rev_ind; [set_solver|]. rewrite fold_left_app. simpl.
  destruct (String.eqb_spec (worker_issueWorkspaceKey i) "") as [E|E]; cbn [negb].
  - destruct (fold_left _ issues ∅ !! k); [set_solver|]. intros j [Hj|Hj]%elem_of_app; [by apply IH|].
    apply list_elem_of_singleton in Hj as ->. by rewrite E.
  - destruct (decide (worker_issueWorkspaceKey i = k)) as [<-|Hk].
    + rewrite lookup_insert_eq. set_solver.
    + rewrite lookup_insert_ne by done. destruct (fold_left _ issues ∅ !! k); [set_solver|].
      intros j [Hj|Hj]%elem_of_app; [by apply IH|]. by apply list_elem_of_singleton in Hj as ->.
Qed.

(** The tracker lists an issue of this key in a terminal state, and none in an active
    state. *)
Definition confirmed_terminal (cfg : ReconcileConfig) (key : string) : Prop :=
  ∃ tracker actives terminals issue, rc_Tracker cfg = Some tracker ∧
    tracker O (nonEmptyStates (rc_ActiveStates cfg)) = inr actives ∧
    tracker 1%nat (nonEmptyStates (rc_TerminalStates cfg)) = inr terminals ∧
    issue ∈ terminals ∧ worker_issueWorkspaceKey issue = key ∧
    ∀ active, active ∈ actives → worker_issueWorkspaceKey active ≠ key.

Section Startup.
Context (lookup : lookup_env) (loginPath : unit → string) (getwd : option string) (emitter : bool).
Context (os : OS) `{!AbsoluteOS os} (ctx : nat → option Cause) (cfg : ReconcileConfig).

(** What a removal, or a command of the hook, needs at startup. *)
Definition startup_guard : Guard := λ before B c,
  match c with
  | RemoveAll _ | Command _ _ _ _ => ∃ w,
      on_disk (rc_WorkspaceRoot cfg) (rc_TrackerKind cfg) before w ∧ confirmed_terminal cfg (iw_Key w) ∧
      removal_guard getwd (rc_WorkspaceRoot cfg) (iw_Path w) before B c
  | _ => True
  end.

Lemma worker_emit_safe past taskID kind msg payload (Q : list Event → unit → Prop) :
  (∀ new u, Q (past ++ new) u) →
  safe startup_guard os past (worker_Emit emitter taskID kind msg payload) Q.
Proof.
  intros HQ. unfold worker_Emit. destruct emitter; simpl; [split; [done|]; apply HQ|].
  rewrite <- (app_nil_r past). apply HQ.
Qed.

Definition index_ok (idx : reconcileIndex) : Prop :=
  ∀ key issue, ri_activeKeys idx !! key = None → ri_terminalKeys idx !! key = Some issue → confirmed_terminal cfg key.

Lemma reconcile_one_safe past taskID w idx :
  index_ok idx → on_disk (rc_WorkspaceRoot cfg) (rc_TrackerKind cfg) past w →
  safe startup_guard os past (reconcileWorkspace lookup loginPath getwd emitter cfg taskID w idx) (λ _ _, True).
Proof.
  intros Hidx Hw. unfold reconcileWorkspace. destruct (ri_activeKeys idx !! _) eqn:Ea.
  { by apply safe_bind, worker_emit_safe. }
  destruct (ri_terminalKeys idx !! _) eqn:Et; [|by apply safe_bind, worker_emit_safe].
  apply safe_bind. eapply safe_mono; [|by intros].
  eapply safe_guard_mono; [|by apply remove_issue_safe]. cbn [rwr_WorkspaceRoot rwr_Path].
  intros before B c Hp Hc. unfold startup_guard.
  destruct c; try exact I; exists w; (split; [by eapply on_disk_mono|split; [by eapply Hidx|exact Hc]]).
Qed.

Lemma reconcile_all_safe past taskID n workspaces idx removed kept :
  index_ok idx → Forall (on_disk (rc_WorkspaceRoot cfg) (rc_TrackerKind cfg) past) workspaces →
  safe startup_guard os past
    (reconcileWorkspaces lookup loginPath getwd emitter ctx n cfg taskID workspaces idx removed kept) (λ _ _, True).
Proof.
  intros Hidx. revert past n removed kept. induction workspaces as [|w ws IH]; intros past n removed kept Hws; [done|].
  cbn [reconcileWorkspaces]. inversion Hws as [|?? Hw Hws']; subst. destruct (ctx n); [done|].
  apply safe_bind. eapply safe_mono; [by apply safe_extends, reconcile_one_safe|].
  intros p1 [[r1 k1] [e|]] [_ Hp]; [done|]. apply IH. eapply Forall_impl; [exact Hws'|]. intros w'. by apply on_disk_mono.
Qed.

(** C35: The reconciliation at startup removes directories, and runs the before_remove
    hook, only for workspaces that it found on disk below the workspace root, whose key
    is that of an issue the tracker lists in a terminal state and of none it lists in an
    active state, and each such removal is confined as the removal of one workspace is;
    so nothing is removed when either request to the tracker fails. *)
Theorem startup_removes_confirmed :
  let '(log, _) := exec os [] (ReconcileStartup lookup loginPath getwd emitter ctx cfg) in
  ∀ before B (c : Sys B) b, happened log before c b → startup_guard before B c.
Proof.
  assert (safe startup_guard os [] (ReconcileStartup lookup loginPath getwd emitter ctx cfg) (λ _ _, True)) as H.
  2: { pose proof (safe_exec _ _ _ _ _ H) as Hx. destruct (exec _ _ _) as [log r].
       intros before B c b Hh. apply (proj2 Hx before B c b Hh). simpl. lia. }
  unfold ReconcileStartup, validateReconcileConfig. destruct (String.eqb _ ""); [done|].
  destruct (rc_Tracker cfg) as [tracker|] eqn:Et; [|done]. do 2 (destruct (_ =? _)%nat; [done|]). cbv zeta.
  apply safe_bind, worker_emit_safe. intros new _. unfold fetchReconcileIssues.
  destruct (tracker O _) as [e|actives] eqn:E0; [by apply safe_bind, safe_bind, worker_emit_safe|].
  set (f := match tracker 1%nat _ with inl _ => _ | inr _ => _ end).
  assert (∃ fetch, f = Done (fetch, false) ∧ index_ok (newReconcileIndex fetch)) as (fetch & -> & Hidx).
  { unfold f. destruct (tracker 1%nat _) as [e|terminals] eqn:E1; eexists; (split; [reflexivity|]);
      intros key issue Ha Ht; cbn [newReconcileIndex rf_activeIssues rf_terminalIssues ri_activeKeys ri_terminalKeys] in Ha, Ht; [by unfold keys_of in Ht; cbn [fold_left] in Ht; rewrite lookup_empty in Ht|].
    pose proof (keys_of_spec actives key) as Hk. rewrite Ha in Hk.
    pose proof (keys_of_spec terminals key) as Hk'. rewrite Ht in Hk'. destruct Hk' as (H1 & H2 & H3).
    exists tracker, actives, terminals, issue. split_and!; [done..|].
    intros active Hin Heq. by apply H3, (Hk active). }
  cbn [prog_bind fst snd]. apply safe_bind.
  eapply safe_guard_mono with (G := reads_only); [intros before B c _; by destruct c|].
  eapply safe_mono; [apply list_workspaces_safe|]. intros p1 [e|ws] Hws; [done|].
  apply safe_bind. eapply safe_mono; [by apply reconcile_all_safe|].
  intros p2 [[r k] [e|]] _; [done|]. by apply safe_bind, worker_emit_safe.
Qed.
End Startup.

Definition an_issue (id state : string) : Issue := zero_Issue <| iss_ID := id |> <| iss_Identifier := id |> <| iss_State := state |>.
Definition demo_reconcile : ReconcileConfig :=
  {| rc_WorkspaceRoot := "/srv/ws"; rc_ActiveStates := ["Todo"]; rc_TerminalStates := [" "; "Done"];
     rc_TrackerKind := "Linear";
     rc_Tracker := Some (λ n _, inr (if (n =? 0)%nat then [an_issue "ENG-2" "Todo"]
                                     else [an_issue "ENG-1" "Done"; an_issue "ENG-2" "Done"]));
     rc_ReconcileTaskID := ""; rc_WorkflowConfig := no_tracker; rc_BeforeRemoveHook := [];
     rc_HookTimeoutMillis := 0; rc_HookEnvPassthrough := [] |}.

Lemma startup_removes_confirmed_witness :
  let '(log, _) := exec demo_os [] (ReconcileStartup (λ _, None) (λ _, "") None true (λ _, None) demo_reconcile) in
  removals log = ["/srv/ws/acme/app/linear_issue/ENG-1"; "/tmp/aiops-go-cache/build/" +:+
    workspaceCacheKey None "/srv/ws/acme/app/linear_issue/ENG-1"] ∧
  ∀ before B (c : Sys B) b, happened log before c b → startup_guard None demo_reconcile before B c.
Proof.
  pose proof (startup_removes_confirmed (λ _, None) (λ _, "") None true demo_os (λ _, None) demo_reconcile) as H.
  assert (removals (exec demo_os [] (ReconcileStartup (λ _, None) (λ _, "") None true (λ _, None) demo_reconcile)).1 =
    ["/srv/ws/acme/app/linear_issue/ENG-1"; "/tmp/aiops-go-cache/build/" +:+
    workspaceCacheKey None "/srv/ws/acme/app/linear_issue/ENG-1"]) as Hr by (vm_compute; done).
  destruct (exec _ _ _) as [log err]. split; [exact Hr|exact H].
Defined.
