(* ===== verification/RunTask.v ===== *)
(** * Running a task (internal/worker/runtask.go, reconcile_cancel.go)

    [RunTaskWithResult] takes one task from its workspace to the end of its agent: it
    prepares the workspace and holds its ownership, runs the hooks, renders the prompt,
    runs the runner under a timeout with its sinks wired, classifies how it ended, and
    reports the phases of the attempt.  The program runs against an operating system
    ([Sys]); one run of a runner is the call [RunAgent], whose answer lists what it sent
    to its sinks; the closures handed to the runner are part of it.

    The fields of [runState] are the values the helpers return; the phase and whether it
    is terminal are the state [PhaseState] they thread.  [emitter] tells if there is an
    event emitter; its errors and the log lines are not modelled, nor are panics. *)

From S2P Require Import Prelude Tracker GoStd Payload Template Ops RuntimeEvents AgentErrors Runtime Profiles EnvPolicy Paths Sys Hashes WorkspaceKey GitCmd Artifacts Worktree Hooks WorkspaceRemoval.

(** ** The workflow of the service (internal/workflow/config.go) *)

Record WorkspaceHooks := {
  hk_AfterCreate : list string;
  hk_BeforeRun : list string;
  hk_AfterRun : list string;
  hk_BeforeRemove : list string;
  hk_TimeoutMs : Z;
  hk_EnvPassthrough : list string
}.
(** The fields of [workflow.Workflow] and its Config the worker reads. *)
Record WorkflowFile := {
  wf_Source : string;
  wf_Path : string;
  wf_PromptTemplate : string;
  wf_AgentDefault : string;
  wf_AgentTimeout : Duration;
  wf_PolicyMode : string;
  wf_VerifyCommands : list string;
  wf_WorkspaceRoot : string;
  wf_WorkspaceRootSet : bool;
  wf_Hooks : WorkspaceHooks;
  wf_Tracker : TrackerConfig
}.
(** [Config.WorkspaceHooks]. *)
Definition config_WorkspaceHooks (wf : WorkflowFile) : WorkspaceHooks :=
  let h := wf_Hooks wf in
  {| hk_AfterCreate := hk_AfterCreate h; hk_BeforeRun := hk_BeforeRun h; hk_AfterRun := hk_AfterRun h;
     hk_BeforeRemove := hk_BeforeRemove h; hk_EnvPassthrough := hk_EnvPassthrough h;
     hk_TimeoutMs := if hk_TimeoutMs h <=? 0 then 60000 else hk_TimeoutMs h |}.

(** [worker.Config]; the two closure factories are part of the runner. *)
Record WorkerConfig := {
  wk_WorkspaceRoot : string;
  wk_MirrorRoot : string;
  wk_Workflow : option WorkflowFile;
  wk_CleanTurnBudget : Z
}.

(** ** Phases and events (internal/task/task.go) *)

Definition PhasePreparingWorkspace : string := "PreparingWorkspace".
Definition PhaseBuildingPrompt : string := "BuildingPrompt".
Definition PhaseLaunchingAgentProcess : string := "LaunchingAgentProcess".
Definition PhaseFinishing : string := "Finishing".
Definition PhaseSucceeded : string := "Succeeded".
Definition PhaseFailed : string := "Failed".
Definition PhaseTimedOut : string := "TimedOut".
Definition PhaseStalled : string := "Stalled".
Definition PhaseCanceledByReconciliation : string := "CanceledByReconciliation".
Definition isTerminalPhase (phase : string) : bool :=
  existsb (String.eqb phase)
    [PhaseSucceeded; PhaseFailed; PhaseTimedOut; PhaseStalled; PhaseCanceledByReconciliation].

Definition EventRunPhaseTransition : string := "run_phase_transition".
Definition EventSessionStarted : string := "session_started".
Definition EventWorkflowResolved : string := "workflow_resolved".
Definition EventRunnerStart : string := "runner_start".
Definition EventRunnerEnd : string := "runner_end".
Definition EventRunnerStopped : string := "runner_stopped".
Definition EventRunnerTimeout : string := "runner_timeout".
Definition EventStalled : string := "stalled".

Definition PhaseTransitionEvent (from to : string) : list (string * Payload) :=
  [("event", JStr EventRunPhaseTransition)] ++ (if String.eqb from "" then [] else [("from", JStr from)])
  ++ [("to", JStr to)].

(** ** Errors *)

Inductive TaskErr :=
| ErrNoWorkflow                          (* service workflow is required *)
| ErrPrepare (e : Err)
| ErrHook (e : HookError)
| ErrRender (e : TemplateErr)
| ErrTaskFiles (e : Err)
| ErrUnknownRunner (name : string)
| ErrReset (artifact : string) (e : OsErr)
| ErrAgent (e : AgentErr).
(** [RunTaskError]: the configuration is absent when no workflow was resolved. *)
Record RunTaskError := { rte_Cfg : option WorkflowFile; rte_Err : TaskErr }.

(** ** The prompt *)

Definition issueRenderVarsForTask (t : Task) : Vars :=
  match task_IssueRender t with
  | Some vars =>
      ("actor", VString (task_Actor t)) :: List.filter (fun kv => negb (String.eqb kv.1 "actor")) vars
  | None =>
      [("identifier", VString (task_SourceEventID t)); ("title", VString (task_Title t));
       ("description", VString (task_Description t)); ("actor", VString (task_Actor t))]
  end.
Definition render_vars (t : Task) : Vars :=
  [("task", VMap [("id", VString (task_ID t)); ("title", VString (task_Title t));
                  ("description", VString (task_Description t)); ("actor", VString (task_Actor t))]);
   ("issue", VMap (issueRenderVarsForTask t));
   ("repo", VMap [("owner", VString (task_RepoOwner t)); ("name", VString (task_RepoName t));
                  ("branch", VString (task_BaseBranch t))]);
   ("attempt", if 0 <? task_Attempts t then VInt (task_Attempts t) else VNil)].

Definition rule : string := newline +:+ newline +:+ "---" +:+ newline +:+ newline.
Definition analysisOnlyDirective : string :=
  rule +:+ "**Analysis-only mode:** do not edit source files, commit, push, open PRs, "
  +:+ "or post tracker comments on the worker's behalf. Produce your assessment "
  +:+ "as `.aiops/PLAN.md`; any optional tracker handoff must happen through "
  +:+ "agent-side tools advertised to you by the runtime.".
Definition verifyDirectiveMarker : string := "**Verification (you own this):**".
(** [fmt.Sprintf(verifyDirectiveTemplate, cmds)]. *)
Definition verifyDirectiveTemplate (cmds : string) : string :=
  rule +:+ verifyDirectiveMarker +:+ " before you hand off — i.e. before opening a PR or moving "
  +:+ "the issue to a review/inactive state — run the workflow's verification commands in "
  +:+ "the workspace and make sure they pass: " +:+ cmds +:+ ". If any fail, fix the code and re-run until "
  +:+ "they pass; do not hand off on red. The orchestrator does not run these for you.".

Definition AppendVerifyDirective (prompt : string) (commands : list string) : string :=
  let cmds := map TrimSpace (List.filter (fun c => negb (blank c)) commands) in
  match cmds with
  | [] => prompt
  | _ => if str_contains prompt verifyDirectiveMarker then prompt
         else prompt +:+ verifyDirectiveTemplate (str_join "; " cmds)
  end.
Definition AppendAnalysisOnlyDirective (prompt mode : string) : string :=
  if negb (String.eqb mode "analysis_only") then prompt
  else if str_contains prompt (TrimSpace analysisOnlyDirective) then prompt
  else prompt +:+ analysisOnlyDirective.

(** ** How a runner ended *)

(** [ErrSummary] of a non-nil error. *)
Definition ErrSummary (err : AgentErr) : string :=
  let msg := agent_error_text err in
  if (500 <? String.length msg)%nat then str_take 500 msg +:+ "..." else msg.

Definition addOutputFields (payload : list (string * Payload)) (res : RunnerResult) : list (string * Payload) :=
  payload
  ++ (if 0 <? res_OutputBytes res then [("output_bytes", JInt (res_OutputBytes res))] else [])
  ++ (if 0 <? res_OutputDropped res then [("output_dropped", JInt (res_OutputDropped res))] else [])
  ++ (if String.eqb (res_OutputHead res) "" then [] else [("output_head", JStr (res_OutputHead res))])
  ++ (if String.eqb (res_OutputTail res) "" then [] else [("output_tail", JStr (res_OutputTail res))]).

(** [Duration.Milliseconds]. *)
Definition in_ms (d : Duration) : Z := Z.quot d Millisecond.
Definition timeoutBudgetPayload (model : string) (budget elapsed : Duration) (res : RunnerResult) : list (string * Payload) :=
  addOutputFields
    [("model", JStr model); ("timeout_ms", JInt (in_ms budget)); ("elapsed_ms", JInt (in_ms elapsed))] res.

Record terminalRunnerEvent := { tre_kind : string; tre_message : string; tre_payload : list (string * Payload) }.
Record runnerErrorClassification := {
  rec_phase : string;
  rec_events : list terminalRunnerEvent;
  rec_err : AgentErr
}.

(** [isReconcileCancel] of a non-nil error; [cause] is [context.Cause(ctx)]. *)
Definition isReconcileCancel (cause : CancelCause) (err : AgentErr) : bool :=
  if is_deadline err then false else match cause with ReconcileCancel => true | _ => false end.

(** The timeout error for the payload and the one to return. *)
Definition asTimeoutError (runErr : AgentErr) (ctxDeadline : bool) (timeout elapsed : Duration)
    : option (AgentErr * Duration * Duration * AgentErr) :=
  match as_timeout runErr with
  | Some (te, t, el) => Some (te, t, el, runErr)
  | None =>
      if is_deadline runErr && ctxDeadline
      then let norm := TimeoutError timeout elapsed (Some runErr) in Some (norm, timeout, elapsed, norm)
      else None
  end.

Definition classifyRunnerError (cause : CancelCause) (runErr : AgentErr) (ctxDeadline : bool) (res : RunnerResult)
    (model : string) (elapsed timeout : Duration) : runnerErrorClassification :=
  match as_stall runErr with
  | Some (stall, t, el) =>
      let payload := timeoutBudgetPayload model t el res in
      {| rec_phase := PhaseStalled;
         rec_events := [{| tre_kind := EventStalled; tre_message := agent_error_text stall; tre_payload := payload |};
                        {| tre_kind := EventRunnerTimeout; tre_message := agent_error_text stall; tre_payload := payload |}];
         rec_err := runErr |}
  | None =>
  let timed_out (e : AgentErr) (t el : Duration) (err : AgentErr) :=
    {| rec_phase := PhaseTimedOut;
       rec_events := [{| tre_kind := EventRunnerTimeout; tre_message := agent_error_text e;
                         tre_payload := timeoutBudgetPayload model t el res |}];
       rec_err := err |} in
  match as_turn_timeout runErr with
  | Some (e, t, el) => timed_out e t el runErr
  | None =>
  match as_read_timeout runErr with
  | Some (e, t) => timed_out e t elapsed runErr
  | None =>
  match asTimeoutError runErr ctxDeadline timeout elapsed with
  | Some (te, t, el, surfaced) => timed_out te t el surfaced
  | None =>
      if isReconcileCancel cause runErr
      then {| rec_phase := PhaseCanceledByReconciliation;
              rec_events := [{| tre_kind := EventRunnerStopped; tre_message := "runner stopped: reconcile ineligible";
                                tre_payload := addOutputFields
                                  [("model", JStr model); ("duration_ms", JInt (in_ms elapsed)); ("ok", JBool true);
                                   ("reason", JStr "reconcile_ineligible")] res |}];
              rec_err := runErr |}
      else {| rec_phase := PhaseFailed;
              rec_events := [{| tre_kind := EventRunnerEnd; tre_message := "runner failed";
                                tre_payload := addOutputFields
                                  [("model", JStr model); ("duration_ms", JInt (in_ms elapsed));
                                   ("error", JStr (ErrSummary runErr)); ("ok", JBool false)] res |}];
              rec_err := runErr |}
  end
  end
  end
  end.

(** [sessionIDFromRuntimeEvents] (log.go). *)
Fixpoint sessionIDFromRuntimeEvents (events : list TaskEvent) : string :=
  match events with
  | [] => ""
  | ev :: events =>
      match (if String.eqb (te_Event ev) EventSessionStarted then te_Payload ev else ANil) with
      | AMap m =>
          match map_get m "session_id" with
          | AString id => if String.eqb id "" then sessionIDFromRuntimeEvents events else id
          | _ => sessionIDFromRuntimeEvents events
          end
      | _ => sessionIDFromRuntimeEvents events
      end
  end.

(** [runner.New]. *)
Inductive RunnerKind := MockRunner | CodexAppServerRunner | ShellRunner (Name : string).
Definition runner_New (name : string) : option RunnerKind :=
  if String.eqb name "" || String.eqb name "mock" then Some MockRunner
  else if String.eqb name "codex-app-server" then Some CodexAppServerRunner
  else if String.eqb name "claude" then Some (ShellRunner "claude")
  else None.

(** ** The program *)

Section Worker.
(** As in WorkspaceRemoval and Worktree; [payload_key] is the JSON text of a payload, or
    its Go syntax when it has none; the last two are the renderer's. *)
Context (lookup : lookup_env) (loginPath : unit → string) (getwd : option string) (emitter : bool).
Context (url_Parse : string → option (string * string)).
Context (payload_key : any → string).
Context (ParseFloat : string → option float64) (float_text : float64 → string) (time_text : Time → string).

Notation Emit' := (worker_Emit emitter).

Record PhaseState := { currentPhase : string; phaseTerminal : bool }.
Definition no_phase : PhaseState := {| currentPhase := ""; phaseTerminal := false |}.

Definition EmitPhaseTransition (t : Task) (from to : string) : Prog unit :=
  if String.eqb to "" then Done tt
  else Emit' (task_ID t) EventRunPhaseTransition to (PhaseTransitionEvent from to).
Definition emitPhase (t : Task) (from to : string) : Prog PhaseState :=
  let* _ := EmitPhaseTransition t from to in
  Done {| currentPhase := to; phaseTerminal := isTerminalPhase to |}.

Definition EmitRuntimeEvent (t : Task) (event : TaskEvent) : Prog unit :=
  if String.eqb (te_Event event) "" then Done tt
  else if emitter then call (EmitRuntime (task_ID t) (te_Event event) (te_Event event) (te_Payload event)) else Done tt.

(** *** The sinks of a runner *)

(** [runnerSinkState], with the phase state of the run the upstream sink is a method of. *)
Record runnerSinkState := { st_current : string; st_emitted : gset string; st_phase : PhaseState }.
Definition runtimeEventKey (event : TaskEvent) : string :=
  te_Event event +:+ byte 0 +:+ payload_key (te_Payload event).

Definition phase_sink (t : Task) (st : runnerSinkState) (from to : string) : Prog runnerSinkState :=
  let from := if String.eqb from "" then st_current st else from in
  let* ps := emitPhase t from to in
  Done {| st_current := to; st_emitted := st_emitted st; st_phase := ps |}.
Definition runtime_sink (t : Task) (st : runnerSinkState) (event : TaskEvent) : Prog runnerSinkState :=
  let* _ := EmitRuntimeEvent t event in
  Done {| st_current := st_current st; st_emitted := {[runtimeEventKey event]} ∪ st_emitted st; st_phase := st_phase st |}.
Fixpoint run_callbacks (t : Task) (st : runnerSinkState) (calls : list Callback) : Prog runnerSinkState :=
  match calls with
  | [] => Done st
  | OnPhase from to :: calls => let* st := phase_sink t st from to in run_callbacks t st calls
  | OnEvent event :: calls => let* st := runtime_sink t st event in run_callbacks t st calls
  end.
Fixpoint forwardResultRuntimeEvents (t : Task) (emitted : gset string) (events : list TaskEvent) : Prog unit :=
  match events with
  | [] => Done tt
  | event :: events =>
      let* _ := if bool_decide (runtimeEventKey event ∈ emitted) then Done tt else EmitRuntimeEvent t event in
      forwardResultRuntimeEvents t emitted events
  end.
Fixpoint emit_terminal (t : Task) (events : list terminalRunnerEvent) : Prog unit :=
  match events with
  | [] => Done tt
  | e :: events => let* _ := Emit' (task_ID t) (tre_kind e) (tre_message e) (tre_payload e) in emit_terminal t events
  end.

Record RunInput := {
  in_Task : Task;
  in_Workdir : string;
  in_WorkspaceRoot : string;
  in_Prompt : string;
  in_CleanTurnBudget : Z
}.
Definition effective_timeout (timeout : Duration) : Duration := if timeout <=? 0 then 30 * Minute else timeout.

Definition RunRunnerWithTimeout (ps : PhaseState) (inp : RunInput) (timeout : Duration) (workflowSource : string)
    : Prog (PhaseState * (RunnerResult * option AgentErr)) :=
  let timeout := effective_timeout timeout in
  let t := in_Task inp in
  let* _ := Emit' (task_ID t) EventRunnerStart "runner started"
    [("model", JStr (task_Model t)); ("timeout_ms", JInt (in_ms timeout)); ("workflow_source", JStr workflowSource)] in
  let st := {| st_current := PhaseBuildingPrompt; st_emitted := ∅; st_phase := ps |} in
  let* st := phase_sink t st PhaseBuildingPrompt PhaseLaunchingAgentProcess in
  let* run := call (RunAgent (task_Model t) (in_Workdir inp) (in_WorkspaceRoot inp) (in_Prompt inp)
                             (in_CleanTurnBudget inp) timeout) in
  let* st := run_callbacks t st (ar_Callbacks run) in
  let res := ar_Result run in
  let elapsed := ar_Elapsed run in
  let* _ := forwardResultRuntimeEvents t (st_emitted st) (res_RuntimeEvents res) in
  match ar_Err run with
  | Some runErr =>
      let decision := classifyRunnerError (ar_Cause run) runErr (ar_DeadlineExceeded run) res (task_Model t) elapsed timeout in
      let* st := phase_sink t st (st_current st) (rec_phase decision) in
      let* _ := emit_terminal t (rec_events decision) in
      Done (st_phase st, (res, Some (rec_err decision)))
  | None =>
      let* st := phase_sink t st (st_current st) PhaseFinishing in
      let* _ := Emit' (task_ID t) EventRunnerEnd "runner completed"
        (addOutputFields ([("model", JStr (task_Model t)); ("duration_ms", JInt (in_ms elapsed)); ("ok", JBool true)]
          ++ (if String.eqb (res_Summary res) "" then [] else [("summary", JStr (res_Summary res))])) res) in
      Done (st_phase st, (res, None))
  end.

(** *** The phases of a task *)

(** A helper of [runState] that may return an error. *)
Definition Stage (A : Type) : Type := Prog (PhaseState * (RunTaskError + A)).
Definition stage_bind {A B} (p : Stage A) (f : PhaseState → A → Stage B) : Stage B :=
  let* r := p in
  match r.2 with inl e => Done (r.1, inl e) | inr a => f r.1 a end.

(** The fields of [runState] that [prepareWorkspace] sets. *)
Record runState := {
  rs_t : Task;
  rs_wf : WorkflowFile;
  rs_hooks : WorkspaceHooks;
  rs_workspaceRoot : string;
  rs_workdir : string;
  rs_releaseWorkdir : Fd
}.

Definition ResolveWorkflow (t : Task) (wf : option WorkflowFile) : Prog (option WorkflowFile) :=
  match wf with
  | None => Done None
  | Some wf =>
      let* _ := Emit' (task_ID t) EventWorkflowResolved "workflow resolved"
        ([("source", JStr (wf_Source wf)); ("agent_default", JStr (wf_AgentDefault wf));
          ("policy_mode", JStr (wf_PolicyMode wf)); ("tracker_kind", JStr (tc_Kind (wf_Tracker wf)))]
         ++ (if String.eqb (wf_Path wf) "" then [] else [("path", JStr (wf_Path wf))])) in
      Done (Some wf)
  end.

Definition applyDefaultModel (t : Task) (wf : WorkflowFile) : Task :=
  if String.eqb (task_Model t) "" || String.eqb (task_Model t) "mock"
  then t <| task_Model := if String.eqb (wf_AgentDefault wf) "" then "mock" else wf_AgentDefault wf |>
  else t.

Definition run_hook (t : Task) (hooks : WorkspaceHooks) (wf : WorkflowFile) (workdir : string) (name : HookName)
    (commands : list string) : Prog (option HookError) :=
  worker_runWorkspaceHook lookup loginPath emitter (task_ID t) workdir name commands (hk_TimeoutMs hooks)
    (hk_EnvPassthrough hooks) (wf_Tracker wf).

Definition prepareWorkspace (cfg : WorkerConfig) (t : Task) : Stage runState :=
  let* ps := emitPhase t "" PhasePreparingWorkspace in
  let* resolved := ResolveWorkflow t (wk_Workflow cfg) in
  match resolved with
  | None => Done (ps, inl {| rte_Cfg := None; rte_Err := ErrNoWorkflow |})
  | Some wf =>
      let hooks := config_WorkspaceHooks wf in
      let root := EffectiveWorkspaceRoot (wk_WorkspaceRoot cfg) (wf_WorkspaceRoot wf) (wf_WorkspaceRootSet wf) in
      let* prepared := PrepareGitWorkspaceOwned url_Parse getwd root (wk_MirrorRoot cfg) t in
      match prepared with
      | inl err => Done (ps, inl {| rte_Cfg := Some wf; rte_Err := ErrPrepare err |})
      | inr prepared =>
          let* hookErr := if CreatedNow prepared
            then run_hook t hooks wf (Workdir prepared) HookAfterCreate (hk_AfterCreate hooks)
            else Done None in
          match hookErr with
          | Some err =>
              let* _ := removeWorkdirAfterHookFailure lookup loginPath getwd emitter (task_ID t) root (Workdir prepared)
                (hk_BeforeRemove hooks) (hk_TimeoutMs hooks) (hk_EnvPassthrough hooks) (wf_Tracker wf) in
              let* _ := Release prepared in
              Done (ps, inl {| rte_Cfg := Some wf; rte_Err := ErrHook err |})
          | None =>
              Done (ps, inr {| rs_t := applyDefaultModel t wf; rs_wf := wf; rs_hooks := hooks;
                               rs_workspaceRoot := root; rs_workdir := Workdir prepared;
                               rs_releaseWorkdir := release prepared |})
          end
      end
  end.

Definition writeTaskFiles (workdir : string) (t : Task) (prompt : string) : Fallible unit :=
  let! _ := WritePrompt workdir prompt in
  WriteSensitiveArtifact (workdir +:+ "/.aiops/TASK.md")
    ("# Task " +:+ task_ID t +:+ newline +:+ newline +:+ task_Description t +:+ newline).

Definition task_prompt (wf : WorkflowFile) (prompt : string) : string :=
  let prompt := AppendAnalysisOnlyDirective prompt (wf_PolicyMode wf) in
  if negb (String.eqb (wf_PolicyMode wf) "analysis_only") then AppendVerifyDirective prompt (wf_VerifyCommands wf)
  else prompt.
Definition buildPrompt (rs : runState) : Stage string :=
  let t := rs_t rs in
  let wf := rs_wf rs in
  let failed ps e := Done (ps, inl {| rte_Cfg := Some wf; rte_Err := e |}) in
  let* ps := emitPhase t PhasePreparingWorkspace PhaseBuildingPrompt in
  match Render ParseFloat float_text time_text (wf_PromptTemplate wf) (render_vars t) with
  | inl err => failed ps (ErrRender err)
  | inr prompt =>
      let prompt := task_prompt wf prompt in
      let* r := writeTaskFiles (rs_workdir rs) t prompt in
      match r with
      | inl err => failed ps (ErrTaskFiles err)
      | inr _ => Done (ps, inr prompt)
      end
  end.

Definition retiredArtifacts : list string :=
  ["FAILURE.md"; "CHANGED_FILES.txt"; "RUN_SUMMARY.md"; "VERIFICATION.txt"; "BLOCKED.json"].
Fixpoint remove_artifacts (workdir : string) (names : list string) : Prog (option TaskErr) :=
  match names with
  | [] => Done None
  | name :: names =>
      let* err := call (Remove (Join [workdir; ".aiops"; name])) in
      match err with
      | Some e => if os_IsNotExist e then remove_artifacts workdir names else Done (Some (ErrReset name e))
      | None => remove_artifacts workdir names
      end
  end.
Definition resetStaleArtifacts (rs : runState) : Prog (option TaskErr) :=
  let* err := remove_artifacts (rs_workdir rs) retiredArtifacts in
  match err with
  | Some e => Done (Some e)
  | None =>
      if String.eqb (wf_PolicyMode (rs_wf rs)) "analysis_only"
      then remove_artifacts (rs_workdir rs) ["PLAN.md"]
      else Done None
  end.

Definition handleRunnerFailure (rs : runState) (ps : PhaseState) (runErr : AgentErr) : Stage RunnerResult :=
  let* _ := run_hook (rs_t rs) (rs_hooks rs) (rs_wf rs) (rs_workdir rs) HookAfterRun (hk_AfterRun (rs_hooks rs)) in
  Done (ps, inl {| rte_Cfg := Some (rs_wf rs); rte_Err := ErrAgent runErr |}).

Definition runAgent (cfg : WorkerConfig) (rs : runState) (ps : PhaseState) (prompt : string) : Stage RunnerResult :=
  let t := rs_t rs in
  let wf := rs_wf rs in
  let failed e := Done (ps, inl {| rte_Cfg := Some wf; rte_Err := e |}) in
  match runner_New (task_Model t) with
  | None => failed (ErrUnknownRunner (task_Model t))
  | Some _ =>
      let* stale := resetStaleArtifacts rs in
      match stale with
      | Some e => failed e
      | None =>
          let* hookErr := run_hook t (rs_hooks rs) wf (rs_workdir rs) HookBeforeRun (hk_BeforeRun (rs_hooks rs)) in
          match hookErr with
          | Some err => failed (ErrHook err)
          | None =>
              let* r := RunRunnerWithTimeout ps
                {| in_Task := t; in_Workdir := rs_workdir rs; in_WorkspaceRoot := rs_workspaceRoot rs;
                   in_Prompt := prompt; in_CleanTurnBudget := wk_CleanTurnBudget cfg |}
                (wf_AgentTimeout wf) (wf_Source wf) in
              let '(ps, (res, runErr)) := r in
              match runErr with
              | Some runErr => handleRunnerFailure rs ps runErr
              | None =>
                  let* _ := run_hook t (rs_hooks rs) wf (rs_workdir rs) HookAfterRun (hk_AfterRun (rs_hooks rs)) in
                  Done (ps, inr res)
              end
          end
      end
  end.

(** [RunTaskResult] is the issue exit state.  The deferred release of the workspace runs
    before the deferred report of a failure. *)
Definition finalize (rs : runState) : Prog PhaseState := emitPhase (rs_t rs) PhaseFinishing PhaseSucceeded.
Definition run_owned (cfg : WorkerConfig) (rs : runState) (ps : PhaseState) : Stage (option IssueStateSnapshot) :=
  deferred (release_file_lock (rs_releaseWorkdir rs))
    (stage_bind (buildPrompt rs) (fun ps prompt =>
     stage_bind (runAgent cfg rs ps prompt) (fun _ res =>
     let* ps := finalize rs in Done (ps, inr (res_IssueExitState res))))).
Definition RunTaskWithResult (t : Task) (cfg : WorkerConfig) : Prog (RunTaskError + option IssueStateSnapshot) :=
  let* r := stage_bind (prepareWorkspace cfg t) (fun ps rs => run_owned cfg rs ps) in
  match r.2 with
  | inr exit => Done (inr exit)
  | inl err =>
      let ps := r.1 in
      if negb (String.eqb (currentPhase ps) "") && negb (phaseTerminal ps)
      then let* _ := emitPhase t (currentPhase ps) PhaseFailed in Done (inl err)
      else Done (inl err)
  end.
End Worker.
