(* ===== verification/RunTaskProps.v ===== *)
(** * What running a task guarantees

    [run_task_agent]: when an agent may be started, and that no lock outlives the task;
    [run_task_phases]: every attempt reports exactly one terminal phase, last, and it is
    Succeeded exactly when the task succeeded; [classify_runner_error]: the decision
    table of the ways a runner ends. *)

From S2P Require Import Prelude Tracker GoStd Payload Template Ops RuntimeEvents AgentErrors Runtime Profiles EnvPolicy Paths Sys SafeRemove Hashes WorkspaceKey GitCmd Artifacts Worktree WorktreeProps Hooks GoCache WorkspaceRemoval RunTask.

(** ** What a log shows of an attempt *)

(** The phases reported, and the prompts agents were started with. *)
Definition phase_of (e : Event) : option string :=
  let 'Ev c _ := e in
  match c with
  | Emit _ kind msg _ => if String.eqb kind EventRunPhaseTransition then Some msg else None
  | _ => None
  end.
Definition phases (log : list Event) : list string := omap phase_of log.
Definition agent_of (e : Event) : option string :=
  let 'Ev c _ := e in match c with RunAgent _ _ _ prompt _ _ => Some prompt | _ => None end.
Definition agents (log : list Event) : list string := omap agent_of log.
Definition steady (phase : string) : Prop := isTerminalPhase phase = false.

(** Every command of a hook was run, in the directory, and did not fail. *)
Definition hook_passed (workdir : string) (commands : list string) (log : list Event) : Prop :=
  Forall (λ raw, blank raw = false → ∃ timeoutMs env run,
    Ev (Command workdir (TrimSpace raw) timeoutMs env) run ∈ log ∧
    cr_Started run = None ∧ cr_WaitedOut run = false ∧ cr_Err run = None ∧ cr_Ctx run ≠ Some DeadlineExceeded) commands.

(** The agents of the platform report no terminal phase themselves. *)
Class SteadyRunner (os : OS) :=
  runner_steady past model workdir root prompt budget timeout from to :
    OnPhase from to ∈ ar_Callbacks (os _ past (RunAgent model workdir root prompt budget timeout)) → steady to.

(** Calls that leave locks, phases and agents alone. *)
Definition frame (past past' : list Event) : Prop :=
  past `prefix_of` past' ∧ locks past' = locks past ∧ phases past' = phases past ∧ agents past' = agents past.
Lemma frame_refl l : frame l l.
Proof. by split_and!. Qed.
Lemma frame_trans l1 l2 l3 : frame l1 l2 → frame l2 l3 → frame l1 l3.
Proof. intros (? & ? & ? & ?) (? & ? & ? & ?). split_and!; [by etrans|congruence..]. Qed.
Lemma quiet_call B (c : Sys B) b : no_lock _ c = true → phase_of (Ev c b) = None ∧ agent_of (Ev c b) = None.
Proof.
  destruct c; cbn; try done. intros H%negb_true_iff. change EventRunPhaseTransition with "run_phase_transition".
  by rewrite H.
Qed.
Lemma omap_none {A B} (f : A → option B) l : Forall (λ x, f x = None) l → omap f l = [].
Proof. induction 1 as [|x l H _ IH]; [done|]. cbn. by rewrite H. Qed.
Lemma frame_quiet past new : all_calls no_lock new → frame past (past ++ new).
Proof.
  intros H. split_and!; [by eexists|by apply locks_app_plain|..]; unfold phases, agents;
    rewrite omap_app, (omap_none _ new), app_nil_r; try done;
    (eapply Forall_impl; [exact H|]); intros [B c b] Hc; by apply (quiet_call B c b).
Qed.

Section RunTask.
Context (lookup : lookup_env) (loginPath : unit → string) (getwd : option string).
Context (url_Parse : string → option (string * string)).
Context (payload_key : any → string).
Context (ParseFloat : string → option float64) (float_text : float64 → string) (time_text : Time → string).
Context (os : OS) `{!AbsoluteOS os, !SteadyRunner os}.
Context (cfg : WorkerConfig) (t0 : Task).

(** ** The guard *)

Definition task_root (wf : WorkflowFile) : string :=
  EffectiveWorkspaceRoot (wk_WorkspaceRoot cfg) (wf_WorkspaceRoot wf) (wf_WorkspaceRootSet wf).
(** The file at [path] was opened, and emptied, and [body] written to it. *)
Definition written_to (log : list Event) (path body : string) : Prop :=
  ∃ before after flags mode fd info,
    log = before ++ [Ev (OpenFile path flags mode) (inr fd); Ev (Fstat fd) (inr info); Ev (FdWrite fd body) None] ++ after ∧
    "O_TRUNC" ∈ flags.
(** When an agent is started: it is the first of the task; nothing is locked but the
    ownership lock of its workspace; it runs in the task's workspace below the configured
    root, with a deadline; its prompt was written to the workspace's prompt file; the
    before_run hook passed. *)
Definition agent_may_start (before : list Event) (workdir root prompt : string) (timeout : Duration) : Prop :=
  agents before = [] ∧
  (∃ fd, locks before = {| mutexes := []; flocks := [fd] |} ∧ ownership_locked before workdir false fd) ∧
  0 < timeout ∧
  written_to before (Join [Join [workdir; ".aiops"]; "PROMPT.md"]) prompt ∧
  ∃ wf, wk_Workflow cfg = Some wf ∧ root = task_root wf ∧ workdir = PathFor root t0 ∧
        hook_passed workdir (hk_BeforeRun (wf_Hooks wf)) before.
Definition task_guard : Guard := λ before B c,
  match c with
  | RunAgent _ workdir root prompt _ timeout => agent_may_start before workdir root prompt timeout
  | Emit _ kind _ _ => kind = EventRunPhaseTransition → Forall steady (phases before)
  | _ => True
  end.
Lemma quiet_guard before B (c : Sys B) : no_lock _ c = true → task_guard before B c.
Proof.
  destruct c; cbn; try done. intros H%negb_true_iff%String.eqb_neq ->. by destruct H.
Qed.
Lemma quiet_safe {A} past (p : Prog A) :
  Only no_lock p → safe task_guard os past p (λ past' _, frame past past').
Proof.
  intros Hp. eapply safe_mono; [apply only_safe; [exact Hp|]|].
  - intros new B c _ Hc. by apply quiet_guard.
  - intros past' _ (new & -> & Hnew). by apply frame_quiet.
Qed.
Lemma quiet_keeps {A} past (p : Prog A) Q :
  Only no_lock p → safe anything os past p Q →
  safe task_guard os past p (λ past' a, Q past' a ∧ frame past past').
Proof.
  intros Hp HQ. eapply safe_mono; [apply safe_combine; [by apply quiet_safe|exact HQ]|]. by intros past' a [? ?].
Qed.
(** The next step of a program whose first part is quiet. *)
Lemma quiet_bind {A B} past (p : Prog A) (f : A → Prog B) Q :
  Only no_lock p → (∀ past' a, frame past past' → safe task_guard os past' (f a) Q) →
  safe task_guard os past (prog_bind p f) Q.
Proof. intros Hp Hf. apply safe_bind. eapply safe_mono; [by apply quiet_safe|]. intros past' a. apply Hf. Qed.

(** ** Phases *)

Notation emitPhase := (emitPhase true).
Lemma phases_emit past taskID to payload b :
  phases (past ++ [Ev (Emit taskID EventRunPhaseTransition to payload) b]) = phases past ++ [to].
Proof. unfold phases. by rewrite omap_app. Qed.
Lemma emitPhase_safe past t from to :
  Forall steady (phases past) → to ≠ "" →
  safe task_guard os past (emitPhase t from to) (λ past' ps,
    past `prefix_of` past' ∧ locks past' = locks past ∧ agents past' = agents past ∧
    phases past' = phases past ++ [to] ∧
    ps = {| currentPhase := to; phaseTerminal := isTerminalPhase to |}).
Proof.
  intros Hs Hto. unfold RunTask.emitPhase, EmitPhaseTransition.
  destruct (String.eqb_spec to "") as [->|_]; [done|]. cbn [worker_Emit prog_bind call].
  split; [by intros _|]. cbn [safe]. split_and!; [by eexists|..].
  - by rewrite locks_snoc.
  - unfold agents. rewrite omap_app. cbn. by rewrite app_nil_r.
  - apply phases_emit.
  - done.
Qed.
(** A phase that is not terminal, or none. *)
Lemma emitPhase_steady past t from to :
  Forall steady (phases past) → steady to →
  safe task_guard os past (emitPhase t from to) (λ past' ps,
    past `prefix_of` past' ∧ locks past' = locks past ∧ agents past' = agents past ∧
    Forall steady (phases past') ∧ ps = {| currentPhase := to; phaseTerminal := false |}).
Proof.
  intros Hs Hto. destruct (decide (to = "")) as [->|Hn].
  - cbn. by split_and!.
  - eapply safe_mono; [by apply emitPhase_safe|]. intros past' ps (? & ? & ? & E & ->). rewrite Hto, E.
    split_and!; try done. apply Forall_app. by repeat constructor.
Qed.

(** An attempt that goes on, and one that is over. *)
Definition going (l : list Event) (ps : PhaseState) : Prop :=
  Forall steady (phases l) ∧ phaseTerminal ps = false ∧ currentPhase ps ≠ "".
Definition over (l : list Event) (last : string) : Prop :=
  ∃ pre, phases l = pre ++ [last] ∧ Forall steady pre ∧ isTerminalPhase last = true.
Lemma going_frame l l' ps : frame l l' → going l ps → going l' ps.
Proof. intros (_ & _ & E & _) (? & ? & ?). unfold going. by rewrite E. Qed.
Lemma over_frame l l' last : frame l l' → over l last → over l' last.
Proof. intros (_ & _ & E & _). unfold over. by rewrite E. Qed.

(** ** The quiet parts *)

#[local] Instance emit_quiet taskID kind msg payload :
  TCEq (String.eqb kind "run_phase_transition") false → Only no_lock (worker_Emit true taskID kind msg payload).
Proof. intros H%TCEq_eq. apply only_call. cbn. by rewrite H. Qed.
#[local] Instance hook_quiet t hooks wf workdir name commands :
  Only no_lock (run_hook lookup loginPath true t hooks wf workdir name commands).
Proof. apply worker_hook_calls; [done|]. intros ? kind ? ? [-> | ->]; reflexivity. Qed.
#[local] Instance remove_workdir_quiet taskID root workdir beforeRemove timeoutMs env c :
  Only no_lock (removeWorkdirAfterHookFailure lookup loginPath getwd true taskID root workdir beforeRemove timeoutMs env c).
Proof.
  unfold removeWorkdirAfterHookFailure. apply only_bind; [apply _|]. intros [e|v]; [exact I|].
  apply only_bind; [apply worker_hook_calls; [done|]; intros ? kind ? ? [-> | ->]; reflexivity|]. intros _.
  apply only_bind; [apply _|]. intros _.
  unfold RemoveSandboxGoBuildCache, SandboxGoBuildCachePath, aiopsGoCacheRoot. only_tac.
Qed.
#[local] Instance resolve_quiet t wf : Only no_lock (ResolveWorkflow true t wf).
Proof. unfold ResolveWorkflow. destruct wf; [|exact I]. apply only_bind; [by apply emit_quiet|]. intros _. exact I. Qed.
#[local] Instance runtime_event_quiet t e : Only no_lock (EmitRuntimeEvent true t e).
Proof. unfold EmitRuntimeEvent. destruct (String.eqb _ _); [exact I|]. by apply only_call. Qed.
#[local] Instance forward_quiet t emitted events :
  Only no_lock (forwardResultRuntimeEvents true payload_key t emitted events).
Proof.
  induction events as [|e events IH]; [exact I|]. cbn [forwardResultRuntimeEvents].
  apply only_bind; [destruct (bool_decide _); [exact I|apply _]|done].
Qed.
#[local] Instance artifact_quiet path body : Only no_lock (WriteSensitiveArtifact path body).
Proof. unfold WriteSensitiveArtifact, unlink_shared, close_and_fail. only_tac. Qed.
#[local] Instance task_files_quiet workdir t prompt : Only no_lock (writeTaskFiles workdir t prompt).
Proof. unfold writeTaskFiles, WritePrompt. only_tac. Qed.
#[local] Instance remove_artifacts_quiet workdir names : Only no_lock (remove_artifacts workdir names).
Proof. induction names as [|n names IH]; [exact I|]. cbn [remove_artifacts]. only_tac. Qed.
#[local] Instance reset_quiet rs : Only no_lock (resetStaleArtifacts rs).
Proof. unfold resetStaleArtifacts. only_tac. Qed.

(** The events of a classification are no phases, and its phase is terminal. *)
Lemma classify_terminal cause e deadline res model elapsed timeout :
  let d := classifyRunnerError cause e deadline res model elapsed timeout in
  isTerminalPhase (rec_phase d) = true ∧ rec_phase d ≠ PhaseSucceeded ∧
  Forall (λ ev, String.eqb (tre_kind ev) "run_phase_transition" = false) (rec_events d).
Proof.
  unfold classifyRunnerError.
  repeat case_match; cbn [rec_phase rec_events]; (split_and!; [reflexivity|done|repeat constructor]).
Qed.
Lemma terminal_quiet t events :
  Forall (λ ev, String.eqb (tre_kind ev) "run_phase_transition" = false) events → Only no_lock (emit_terminal true t events).
Proof.
  induction 1 as [|ev events H _ IH]; [exact I|]. cbn [emit_terminal]. apply only_bind; [|done].
  apply emit_quiet. by apply TCEq_eq.
Qed.

(** ** Evidence *)

Lemma hook_passed_prefix workdir commands l l' :
  l `prefix_of` l' → hook_passed workdir commands l → hook_passed workdir commands l'.
Proof.
  intros Hp H. eapply Forall_impl; [exact H|]. intros raw Hr Hb. destruct (Hr Hb) as (ms & env & run & Hin & ?).
  exists ms, env, run. split; [by eapply prefix_in|done].
Qed.
Lemma run_commands_passed past workdir name ms env commands results :
  safe anything os past (run_commands workdir name ms env commands results) (λ past' r,
    r.2 = None → hook_passed workdir commands past').
Proof.
  revert past results. induction commands as [|raw commands IH]; intros past results; [by intros _; constructor|].
  cbn [run_commands]. cbv zeta. destruct (String.eqb_spec (TrimSpace raw) "") as [E|E].
  - eapply safe_mono; [apply IH|]. intros past' r H Hr. constructor; [|by apply H].
    intros Hb. unfold blank in Hb. by rewrite E in Hb.
  - apply safe_bind. unfold runWorkspaceHookCommand. cbv zeta. apply safe_do; [exact I|]. intros run.
    destruct (cr_Started run) as [err|] eqn:Hs; [done|]. cbn [safe].
    match goal with |- context [match hr_Err ?r with _ => _ end] => destruct (hr_Err r) eqn:He end; [done|].
    cbn [hr_Err] in He. eapply safe_mono; [apply safe_extends, IH|]. intros past' r [H Hp] Hr.
    constructor; [|by apply H]. intros _. exists ms, env, run. split.
    + eapply prefix_in; [exact Hp|]. in_log.
    + destruct (cr_Ctx run) as [[]|]; try done; destruct (cr_WaitedOut run); try done;
        destruct (cr_Err run); try done.
Qed.
Lemma run_hook_passed past t hooks wf workdir name commands :
  safe anything os past (run_hook lookup loginPath true t hooks wf workdir name commands) (λ past' r,
    r = None → hook_passed workdir commands past').
Proof.
  unfold run_hook, worker_runWorkspaceHook. destruct commands as [|c commands]; [by intros _; constructor|].
  apply safe_bind. eapply safe_mono; [apply safe_top|]. intros p1 _ _.
  apply safe_bind. unfold RunWorkspaceHook. eapply safe_mono; [apply run_commands_passed|]. intros p2 r H.
  apply safe_bind. eapply safe_mono; [apply safe_extends, safe_top|]. intros p3 _ [_ Hp] Hr.
  eapply hook_passed_prefix; [exact Hp|]. by apply H.
Qed.
Lemma written_prefix l l' path body : l `prefix_of` l' → written_to l path body → written_to l' path body.
Proof.
  intros [m ->] (before & after & flags & mode & fd & info & -> & Hf). exists before, (after ++ m), flags, mode, fd, info.
  split; [|done]. by rewrite <- !app_assoc.
Qed.
Lemma artifact_written past path body :
  safe anything os past (WriteSensitiveArtifact path body) (λ past' r, r = inr tt → written_to past' path body).
Proof.
  assert (∀ A fd err p, safe anything os p (@close_and_fail A fd err) (λ _ r, r = inl err)) as Hfail.
  { intros A fd err p. unfold close_and_fail. by apply safe_do. }
  unfold WriteSensitiveArtifact. cbv zeta.
  apply safe_or_fail, safe_os_done; [exact I|done|]. apply safe_or_fail, safe_os_value; [exact I|done|]. intros parent.
  destruct (fi_IsSymlink parent); [done|].
  apply safe_or_fail. eapply safe_mono; [apply safe_top|]. intros p1 [e|[]] _; [done|].
  apply safe_or_fail, safe_os_value; [exact I|done|]. intros fd.
  apply safe_do; [exact I|]. intros [err|info]; [eapply safe_mono; [apply Hfail|]; by intros ? ? ->|].
  destruct (match fi_Nlink info with Some links => 1 <? links | None => false end);
    [eapply safe_mono; [apply Hfail|]; by intros ? ? ->|].
  apply safe_do; [exact I|]. intros [err|]; [eapply safe_mono; [apply Hfail|]; by intros ? ? ->|].
  eapply safe_mono; [apply safe_extends, safe_top|]. intros p2 r [_ Hp] _. eapply written_prefix; [exact Hp|].
  eexists p1, [], _, _, fd, info. split; [by rewrite <- !app_assoc|]. set_solver.
Qed.
Lemma task_files_written past workdir t prompt :
  safe anything os past (writeTaskFiles workdir t prompt) (λ past' r,
    r = inr tt → written_to past' (Join [Join [workdir; ".aiops"]; "PROMPT.md"]) prompt).
Proof.
  unfold writeTaskFiles, WritePrompt. apply safe_or_fail. cbv zeta. apply safe_or_fail, safe_os_done; [exact I|done|].
  eapply safe_mono; [apply artifact_written|].
  intros p1 [e|[]] H; [done|]. eapply safe_mono; [apply safe_extends, safe_top|].
  intros p2 r [_ Hp] _. eapply written_prefix; [exact Hp|]. by apply H.
Qed.

(** ** The stages *)

Notation Prepare := (PrepareGitWorkspaceOwned url_Parse getwd).
(** The workspace that is returned, and its lease. *)
Definition leased (t : Task) (root : string) (l : list Event) (p : PreparedGitWorkspace) : Prop :=
  Workdir p = PathFor root t ∧ ownership_locked l (Workdir p) false (release p).
Lemma prepare_workdir past root override t :
  safe anything os past (Prepare root override t) (λ l r, ∀ p, r = inr p → leased t root l p).
Proof.
  unfold PrepareGitWorkspaceOwned. cbv zeta. apply safe_or_fail, safe_os_done; [exact I|done|].
  apply safe_do; [exact I|]. intros info.
  destruct (match info with inl _ => _ | inr _ => _ end) as [e|exists_]; [done|].
  apply safe_bind. eapply safe_mono; [apply safe_top|]. intros p1 mirrorRoot _.
  apply safe_or_fail. eapply safe_mono; [apply safe_top|]. intros p2 [e|fd] _; [done|].
  unfold deferred. apply safe_bind. unfold prepare_locked.
  eapply safe_mono with (Q := λ l r, ∀ p, r = inr p → leased t root l p).
  - apply safe_or_fail. eapply safe_mono; [apply safe_top|]. intros p3 [e|m] _; [done|].
    apply safe_bind. eapply safe_mono; [apply safe_top|]. intros p4 ref _.
    apply safe_bind. eapply safe_mono; [apply safe_top|]. intros p5 [c [e|u]] _; [done|]. cbn [snd].
    apply safe_or_fail. eapply safe_mono; [apply (ownership_evidence getwd root _ (task_WorkBranch t))|].
    intros p6 [e|f] H; [done|]. intros p [= <-]. split; [done|]. by apply H.
  - intros p3 r H. apply safe_bind. eapply safe_mono; [apply safe_extends, safe_top|]. intros p4 _ [_ Hp] p E.
    destruct (H p E) as [H1 H2]. split; [done|]. by eapply ownership_locked_prefix.
Qed.
(** The calls of a preparation are quiet but for the locks. *)
Lemma prepare_frame past root override t :
  locks past = no_locks →
  safe task_guard os past (Prepare root override t) (λ past' r,
    past `prefix_of` past' ∧ phases past' = phases past ∧ agents past' = agents past ∧
    locks past' = {| mutexes := []; flocks := match r with inr p => [release p] | inl _ => [] end |} ∧
    ∀ p, r = inr p → leased t root past' p).
Proof.
  intros E. set (G := prepare_guard getwd root (PathFor root t) (task_WorkBranch t)).
  assert (HG : ∀ before B (c : Sys B) b, G before B c → phase_of (Ev c b) = None ∧ agent_of (Ev c b) = None).
  { intros before B c b [_ Hc]. revert Hc. destruct c; cbn; try done. intros Hk. split; [|done].
    destruct (String.eqb_spec kind EventRunPhaseTransition); done. }
  assert (Hnew : ∀ A (p : Prog A) past Q, safe G os past p Q →
    safe task_guard os past p (λ past' a, Q past' a ∧ past `prefix_of` past' ∧
      phases past' = phases past ∧ agents past' = agents past)).
  { clear - HG. intros A p. induction p as [a|B c k IH]; intros past Q; cbn [safe]; [intros HQ; by split_and!|].
    intros [Hc Hk]. split.
    - destruct Hc as [_ Hc]. destruct c; cbn in *; done.
    - eapply safe_mono; [by apply IH|]. intros past' a (HQ & Hp & E1 & E2).
      destruct (HG _ _ _ (os _ past c) Hc) as [H1 H2]. unfold phases, agents in *.
      rewrite omap_app in E1, E2. cbn [omap list_omap] in E1, E2. rewrite H1, app_nil_r in E1. rewrite H2, app_nil_r in E2.
      split_and!; try done. etrans; [|exact Hp]. by eexists. }
  eapply safe_mono; [apply safe_combine; [apply Hnew, (prepare_safe url_Parse getwd os); done|apply prepare_workdir]|].
  intros past' r [(HL & Hp & E1 & E2) Hw]. by split_and!.
Qed.
Lemma release_safe past fd :
  safe task_guard os past (release_file_lock fd) (λ past' _,
    past `prefix_of` past' ∧ phases past' = phases past ∧ agents past' = agents past ∧
    locks past' = {| mutexes := mutexes (locks past); flocks := remove_one fd (flocks (locks past)) |}).
Proof.
  unfold release_file_lock. apply safe_do; [exact I|]. intros u. unfold ignore. apply safe_do; [exact I|]. intros b.
  cbn [safe]. unfold phases, agents. rewrite !omap_app. cbn. rewrite !app_nil_r. split_and!; [|done..|].
  - rewrite <- app_assoc. by eexists.
  - by rewrite !locks_snoc.
Qed.

(** What holds when the workspace is there. *)
Definition ready (rs : runState) (l : list Event) : Prop :=
  wk_Workflow cfg = Some (rs_wf rs) ∧ rs_hooks rs = config_WorkspaceHooks (rs_wf rs) ∧
  rs_workspaceRoot rs = task_root (rs_wf rs) ∧ rs_workdir rs = PathFor (rs_workspaceRoot rs) t0 ∧
  locks l = {| mutexes := []; flocks := [rs_releaseWorkdir rs] |} ∧ agents l = [] ∧
  ownership_locked l (rs_workdir rs) false (rs_releaseWorkdir rs).
Lemma ready_frame rs l l' : frame l l' → ready rs l → ready rs l'.
Proof.
  intros (Hp & E1 & _ & E2) (? & ? & ? & ? & ? & ? & ?). unfold ready. rewrite E1, E2. split_and!; try done.
  by eapply ownership_locked_prefix.
Qed.

Lemma prepareWorkspace_safe :
  safe task_guard os [] (prepareWorkspace lookup loginPath getwd true url_Parse cfg t0) (λ l r,
    going l r.1 ∧ match r.2 with inl _ => locks l = no_locks ∧ agents l = [] | inr rs => ready rs l end).
Proof.
  unfold prepareWorkspace. apply safe_bind. eapply safe_mono; [by apply emitPhase_steady|].
  intros p1 ps (_ & L1 & A1 & S1 & ->).
  assert (G1 : going p1 {| currentPhase := PhasePreparingWorkspace; phaseTerminal := false |}) by by split_and!.
  unfold ResolveWorkflow. destruct (wk_Workflow cfg) as [wf|] eqn:Ewf; [|by split_and!].
  apply safe_bind, quiet_bind; [by apply emit_quiet|]. intros p2 u F2. cbn [safe].
  pose proof (going_frame _ _ _ F2 G1) as G2. destruct F2 as (_ & L2 & _ & A2). rewrite L1 in L2. rewrite A1 in A2.
  apply safe_bind. eapply safe_mono; [by apply prepare_frame|]. intros p3 r (_ & E3 & A3 & L3 & W3).
  assert (G3 : ∀ ps, going p2 ps → going p3 ps) by (intros ps; unfold going; by rewrite E3).
  rewrite A2 in A3. destruct r as [e|p]; [cbn; split; [by apply G3|done]|].
  apply safe_bind. eapply safe_mono; [apply quiet_safe; destruct (CreatedNow p); [apply _|exact I]|].
  cbv beta. intros p4 hookErr F4. pose proof (going_frame _ _ _ F4 (G3 _ G2)) as G4.
  destruct hookErr as [err|].
  - apply quiet_bind; [apply _|]. intros p5 u5 F5. pose proof (going_frame _ _ _ F5 G4) as G5.
    apply safe_bind. unfold Release. eapply safe_mono; [apply release_safe|]. intros p6 u6 (_ & E6 & A6 & L6). cbn.
    destruct F4 as (_ & L4 & _ & A4), F5 as (_ & L5 & _ & A5). split.
    + unfold going. by rewrite E6.
    + rewrite L6, L5, L4, L3, A6, A5, A4, A3. cbn. by destruct (decide (release p = release p)).
  - cbn. split; [done|]. destruct F4 as (P4 & L4 & _ & A4). unfold ready. cbn.
    destruct (W3 p eq_refl) as [W HO]. rewrite L4, L3, A4, A3, W. rewrite W in HO. split_and!; try done.
    by eapply ownership_locked_prefix.
Qed.

Definition prompt_written (rs : runState) (l : list Event) (prompt : string) : Prop :=
  written_to l (Join [Join [rs_workdir rs; ".aiops"]; "PROMPT.md"]) prompt.
Notation build := (buildPrompt true ParseFloat float_text time_text).
Lemma buildPrompt_safe past rs :
  ready rs past → Forall steady (phases past) →
  safe task_guard os past (build rs) (λ l r,
    going l r.1 ∧ ready rs l ∧ ∀ prompt, r.2 = inr prompt → prompt_written rs l prompt).
Proof.
  intros Hr Hs. unfold buildPrompt. cbv zeta. apply safe_bind.
  eapply safe_mono; [by apply emitPhase_steady|]. intros p1 ps (P1 & L1 & A1 & S1 & ->).
  assert (R1 : ready rs p1).
  { destruct Hr as (? & ? & ? & ? & HL & HA & HO). unfold ready. rewrite L1, A1. split_and!; try done.
    by eapply ownership_locked_prefix. }
  destruct (Render _ _ _ _ _) as [e|prompt]; [by split_and!|].
  apply safe_bind. eapply safe_mono; [apply quiet_keeps; [apply _|apply task_files_written]|].
  cbv beta. intros p2 r [Hw F].
  assert (G2 : going p2 {| currentPhase := PhaseBuildingPrompt; phaseTerminal := false |})
    by by apply (going_frame p1).
  pose proof (ready_frame _ _ _ F R1) as R2. destruct r as [e|[]]; cbn; (split_and!; [done|done|]); [done|].
  intros ? [= <-]. by apply Hw.
Qed.

(** Nothing but phases and agents changed. *)
Definition onward (past past' : list Event) : Prop := past `prefix_of` past' ∧ locks past' = locks past.
Lemma onward_trans l1 l2 l3 : onward l1 l2 → onward l2 l3 → onward l1 l3.
Proof. intros [??] [??]. split; [by etrans|congruence]. Qed.
Lemma onward_frame l l' : frame l l' → onward l l'.
Proof. by intros (? & ? & _). Qed.

Lemma phase_sink_steady past t st from to :
  Forall steady (phases past) → steady to →
  safe task_guard os past (phase_sink true t st from to) (λ l st',
    onward past l ∧ agents l = agents past ∧ Forall steady (phases l) ∧
    st_phase st' = {| currentPhase := to; phaseTerminal := false |}).
Proof.
  intros Hs Hto. unfold phase_sink. cbv zeta. apply safe_bind. eapply safe_mono; [by apply emitPhase_steady|].
  intros l ps (? & ? & ? & ? & ->). cbn. by split_and!.
Qed.
Lemma callbacks_safe past t st calls :
  Forall steady (phases past) → (∀ from to, OnPhase from to ∈ calls → steady to) →
  safe task_guard os past (run_callbacks true payload_key t st calls) (λ l _,
    onward past l ∧ Forall steady (phases l)).
Proof.
  revert past st. induction calls as [|[from to|ev] calls IH]; intros past st Hs Hc; cbn [run_callbacks]; [by split|..].
  - apply safe_bind. eapply safe_mono; [apply phase_sink_steady; [done|by eapply Hc; left]|].
    intros l st' (O & _ & S & _). eapply safe_mono; [apply IH; [done|]|].
    + intros f to' H. eapply Hc. by right.
    + intros l' st'' [O' S']. split; [by eapply onward_trans|done].
  - unfold runtime_sink. apply safe_bind, quiet_bind; [apply _|]. intros l u F. cbn [safe].
    eapply safe_mono; [apply IH|].
    + by destruct F as (_ & _ & -> & _).
    + intros f to' H. eapply Hc. by right.
    + intros l' st'' [O' S']. split; [eapply onward_trans; [by apply onward_frame|done]|done].
Qed.
Lemma may_start_onward past l workdir root prompt timeout :
  onward past l → agents l = agents past →
  agent_may_start past workdir root prompt timeout → agent_may_start l workdir root prompt timeout.
Proof.
  intros [Hp HL] HA (E & (fd & HF & HO) & ? & Hw & wf & ? & ? & ? & Hh). unfold agent_may_start. rewrite HL, HA.
  split_and!; try done; [exists fd; split; [done|by eapply ownership_locked_prefix]|by eapply written_prefix|]. exists wf. split_and!; try done.
  by eapply hook_passed_prefix.
Qed.

Lemma effective_timeout_pos timeout : 0 < effective_timeout timeout.
Proof. unfold effective_timeout. destruct (Z.leb_spec timeout 0); [done|lia]. Qed.
Lemma runner_safe past ps inp timeout source :
  Forall steady (phases past) →
  agent_may_start past (in_Workdir inp) (in_WorkspaceRoot inp) (in_Prompt inp) (effective_timeout timeout) →
  safe task_guard os past (RunRunnerWithTimeout true payload_key ps inp timeout source) (λ l r,
    onward past l ∧
    match r.2.2 with
    | Some _ => phaseTerminal r.1 = true ∧ ∃ last, over l last ∧ last ≠ PhaseSucceeded
    | None => going l r.1
    end).
Proof.
  intros Hs Hm. unfold RunRunnerWithTimeout. cbv zeta.
  apply quiet_bind; [by apply emit_quiet|]. intros p1 u F1.
  assert (S1 : Forall steady (phases p1)) by (by destruct F1 as (_ & _ & -> & _)).
  apply safe_bind. eapply safe_mono; [by apply phase_sink_steady|]. intros p2 st (O2 & A2 & S2 & _).
  pose proof (onward_trans _ _ _ (onward_frame _ _ F1) O2) as O12.
  assert (A12 : agents p2 = agents past) by (destruct F1 as (_ & _ & _ & F1); congruence).
  cbn [prog_bind call safe]. split; [by eapply may_start_onward|].
  set (c := RunAgent _ _ _ _ _ _). set (run := os _ p2 c).
  assert (O3 : onward past (p2 ++ [Ev c run])).
  { eapply onward_trans; [exact O12|]. split; [by eexists|by rewrite locks_snoc]. }
  assert (S3 : Forall steady (phases (p2 ++ [Ev c run]))) by (unfold phases; rewrite omap_app; cbn; by rewrite app_nil_r).
  apply safe_bind. eapply safe_mono; [apply callbacks_safe; [done|]|].
  { intros from to. apply runner_steady. }
  intros p4 st4 [O4 S4]. pose proof (onward_trans _ _ _ O3 O4) as O34.
  apply quiet_bind; [apply _|]. intros p5 u5 F5.
  assert (S5 : Forall steady (phases p5)) by (by destruct F5 as (_ & _ & -> & _)).
  pose proof (onward_trans _ _ _ O34 (onward_frame _ _ F5)) as O5.
  destruct (ar_Err run) as [e|].
  - set (d := classifyRunnerError _ _ _ _ _ _ _).
    destruct (classify_terminal (ar_Cause run) e (ar_DeadlineExceeded run) (ar_Result run) (task_Model (in_Task inp))
                (ar_Elapsed run) (effective_timeout timeout)) as (Ht & Hn & Hev). fold d in Ht, Hn, Hev.
    unfold phase_sink at 1. cbv zeta. apply safe_bind, safe_bind.
    eapply safe_mono; [apply emitPhase_safe; [done|by intros E; rewrite E in Ht]|].
    intros p6 ps6 (P6 & L6 & _ & E6 & ->). cbn [safe st_phase].
    apply quiet_bind; [by apply terminal_quiet|]. intros p7 u7 F7. cbn [safe fst snd phaseTerminal].
    assert (O7 : onward past p7).
    { eapply onward_trans; [exact O5|]. eapply onward_trans; [split; [exact P6|exact L6]|by apply onward_frame]. }
    split; [done|]. split; [exact Ht|]. exists (rec_phase d). split; [|done].
    eapply over_frame; [exact F7|]. by exists (phases p5).
  - apply safe_bind. eapply safe_mono; [by apply phase_sink_steady|]. intros p6 st6 (O6 & _ & S6 & E6).
    apply quiet_bind; [by apply emit_quiet|]. intros p7 u7 F7. cbn.
    split; [eapply onward_trans; [exact O5|]; eapply onward_trans; [exact O6|by apply onward_frame]|].
    eapply going_frame; [exact F7|]. rewrite E6. by split_and!.
Qed.

(** How a stage may fail: on the way, or with the agent's terminal phase. *)
Definition failed (l : list Event) (ps : PhaseState) : Prop :=
  going l ps ∨ (phaseTerminal ps = true ∧ ∃ last, over l last ∧ last ≠ PhaseSucceeded).
Lemma failed_frame l l' ps : frame l l' → failed l ps → failed l' ps.
Proof.
  intros F [H|(H & last & Ho & Hn)]; [left; by eapply going_frame|right]. split; [done|].
  exists last. split; [by eapply over_frame|done].
Qed.
Definition owned (rs : runState) (l : list Event) : Prop :=
  locks l = {| mutexes := []; flocks := [rs_releaseWorkdir rs] |}.
Lemma owned_onward rs l l' : onward l l' → owned rs l → owned rs l'.
Proof. intros [_ E]. unfold owned. by rewrite E. Qed.

Notation run_agent := (runAgent lookup loginPath true payload_key cfg).
Lemma runAgent_safe past rs ps prompt :
  ready rs past → going past ps → prompt_written rs past prompt →
  safe task_guard os past (run_agent rs ps prompt) (λ l r,
    owned rs l ∧ match r.2 with inl _ => failed l r.1 | inr _ => going l r.1 end).
Proof.
  intros Hr Hg Hw. pose proof Hr as (Ewf & Eh & Eroot & Edir & EL & EA & EO). unfold runAgent. cbv zeta.
  destruct (runner_New _) as [kind|]; [|split; [exact EL|by left]].
  apply quiet_bind; [apply _|]. intros p1 stale F1. pose proof (going_frame _ _ _ F1 Hg) as G1.
  pose proof (owned_onward rs _ _ (onward_frame _ _ F1) EL) as O1.
  destruct stale as [e|]; [split; [done|by left]|].
  apply safe_bind. eapply safe_mono; [apply quiet_keeps; [apply _|apply run_hook_passed]|].
  cbv beta. intros p2 hookErr [Hh F2]. pose proof (frame_trans _ _ _ F1 F2) as F12.
  pose proof (going_frame _ _ _ F2 G1) as G2. pose proof (owned_onward rs _ _ (onward_frame _ _ F2) O1) as O2.
  destruct hookErr as [err|]; [split; [done|by left]|].
  apply safe_bind. eapply safe_mono; [apply runner_safe; [apply G2|]|].
  { destruct F12 as (Hp & HL & _ & HA). unfold agent_may_start. cbn.
    rewrite HL, HA. split_and!; [done| |apply effective_timeout_pos|by eapply written_prefix|].
    - eexists. split; [done|]. by eapply ownership_locked_prefix.
    - exists (rs_wf rs). rewrite <- Eroot. split_and!; try done. rewrite Eh in Hh. by apply Hh. }
  intros p3 [ps3 [res [runErr|]]] [O3 H3]; cbn [fst snd] in H3;
    pose proof (owned_onward rs _ _ O3 O2) as Hown.
  - unfold handleRunnerFailure. apply quiet_bind; [apply _|]. intros p4 u F4. cbn.
    split; [eapply owned_onward; [by apply onward_frame|done]|]. eapply failed_frame; [exact F4|]. right. exact H3.
  - apply quiet_bind; [apply _|]. intros p4 u F4. cbn.
    split; [eapply owned_onward; [by apply onward_frame|done]|]. by eapply going_frame.
Qed.

Definition outcome (l : list Event) (ps : PhaseState) (ok : bool) : Prop :=
  if ok then over l PhaseSucceeded else failed l ps.
Definition is_ok {A B} (r : A + B) : bool := match r with inl _ => false | inr _ => true end.
Notation owned_run := (run_owned lookup loginPath true payload_key ParseFloat float_text time_text cfg).
Lemma run_owned_safe past rs ps :
  ready rs past → going past ps →
  safe task_guard os past (owned_run rs ps) (λ l r, locks l = no_locks ∧ outcome l r.1 (is_ok r.2)).
Proof.
  intros Hr Hg. unfold run_owned, deferred. apply safe_bind.
  eapply safe_mono with (Q := λ l r, owned rs l ∧ outcome l r.1 (is_ok r.2)).
  - unfold stage_bind. apply safe_bind. eapply safe_mono; [apply buildPrompt_safe; [done|apply Hg]|].
    intros p1 [ps1 r1] (G1 & R1 & W1). cbn [fst snd] in *.
    destruct r1 as [e|prompt]; [split; [apply R1|by left]|].
    apply safe_bind. eapply safe_mono; [apply runAgent_safe; [done|done|by apply W1]|].
    intros p2 [ps2 [e|res]] [O2 G2]; cbn [fst snd] in *; [by split|].
    unfold finalize. apply safe_bind. eapply safe_mono; [apply emitPhase_safe; [apply G2|done]|].
    intros p3 ps3 (P3 & L3 & _ & E3 & ->). cbn [safe fst snd is_ok outcome]. split.
    + unfold owned. by rewrite L3.
    + exists (phases p2). split_and!; [done|apply G2|done].
  - intros p1 r [O1 H1]. apply safe_bind. eapply safe_mono; [apply release_safe|].
    intros p2 u (P2 & E2 & A2 & L2). cbn. rewrite L2, O1. cbn. split.
    + by destruct (decide (rs_releaseWorkdir rs = rs_releaseWorkdir rs)).
    + unfold outcome, failed, going, over in *. by rewrite E2.
Qed.

Notation run_task := (RunTaskWithResult lookup loginPath getwd true url_Parse payload_key ParseFloat float_text time_text t0 cfg).
Lemma run_task_safe :
  safe task_guard os [] run_task (λ l r,
    locks l = no_locks ∧ ∃ last, over l last ∧ (last = PhaseSucceeded ↔ is_ok r = true)).
Proof.
  unfold RunTaskWithResult. apply safe_bind.
  eapply safe_mono with (Q := λ l r, locks l = no_locks ∧ outcome l r.1 (is_ok r.2)).
  - unfold stage_bind. apply safe_bind. eapply safe_mono; [apply prepareWorkspace_safe|].
    intros p1 [ps1 [e|rs]] [G1 H1]; cbn [fst snd] in *; [split; [apply H1|by left]|by apply run_owned_safe].
  - intros p1 [ps1 r] [L1 H1]. cbn [fst snd] in *. destruct r as [e|exit]; cbn [is_ok outcome] in H1.
    + destruct H1 as [(S1 & T1 & N1)|(T1 & last & Ho & Hn)]; rewrite T1.
      * destruct (String.eqb_spec (currentPhase ps1) ""); [done|]. cbn [negb andb].
        apply safe_bind. eapply safe_mono; [by apply emitPhase_safe|]. intros p2 ps2 (_ & L2 & _ & E2 & _). cbn [safe].
        rewrite L2. split; [done|]. exists PhaseFailed. split; [by exists (phases p1)|done].
      * rewrite andb_false_r. cbn [safe]. split; [done|]. exists last. done.
    + cbn [safe]. split; [done|]. by exists PhaseSucceeded.
Qed.

(** C16: An agent is started at most once in a task, under a deadline, in the task's own
    workspace below the configured root, while the only lock held is the ownership lock of
    that workspace (the lock file in the git directory git names in it), after the prompt
    it is given was written to the file .aiops/PROMPT.md of that workspace and every
    before_run command passed; and however the task ends, no lock is left held. *)
Theorem run_task_agent :
  let '(log, r) := exec os [] run_task in
  (∀ before model workdir root prompt budget timeout b,
     happened log before (RunAgent model workdir root prompt budget timeout) b →
     agent_may_start before workdir root prompt timeout) ∧
  locks log = no_locks.
Proof.
  pose proof (safe_exec _ _ _ _ _ run_task_safe) as H. destruct (exec os [] _) as [log r].
  destruct H as [[HL _] H]. split; [|done]. intros before model workdir root prompt budget timeout b Hh.
  exact (H before _ _ b Hh (Nat.le_0_l _)).
Qed.

(** The phases an attempt reports end in exactly one terminal phase, whatever fails, and
    it is Succeeded exactly when the task returns no error. *)
Theorem run_task_phases :
  let '(log, r) := exec os [] run_task in
  ∃ pre last, phases log = pre ++ [last] ∧ Forall steady pre ∧ isTerminalPhase last = true ∧
    (last = PhaseSucceeded ↔ ∃ exit, r = inr exit).
Proof.
  pose proof (safe_exec _ _ _ _ _ run_task_safe) as H. destruct (exec os [] _) as [log r].
  destruct H as [[_ (last & (pre & E & S & T) & HS)] _]. exists pre, last. split_and!; try done.
  rewrite HS. destruct r as [e|exit]; cbn; [|by split; [exists exit|]]. split; [done|]. by intros [? ?].
Qed.
End RunTask.

(** ** How a runner's end is classified *)

(** The decision table: a stall before any timeout, an expired turn, read or run budget
    before a cancellation, a cancellation by reconciliation before a failure; the events
    of each; the error returned is the runner's own, except that a bare deadline of the
    run's context becomes a timeout error around it; and the orchestrator still finds a
    request for input or an exhausted quota in what is returned. *)
Theorem classify_runner_error cause e deadline res model elapsed timeout :
  let d := classifyRunnerError cause e deadline res model elapsed timeout in
  let timed_out := IsTurnTimeout e || IsReadTimeout e || IsTimeout e in
  let kinds := map tre_kind (rec_events d) in
  (IsStall e = true → rec_phase d = PhaseStalled ∧ kinds = [EventStalled; EventRunnerTimeout] ∧ rec_err d = e) ∧
  (IsStall e = false → timed_out = true →
     rec_phase d = PhaseTimedOut ∧ kinds = [EventRunnerTimeout] ∧ rec_err d = e) ∧
  (IsStall e = false → timed_out = false →
     (is_deadline e = true → deadline = true →
        rec_phase d = PhaseTimedOut ∧ kinds = [EventRunnerTimeout] ∧ rec_err d = TimeoutError timeout elapsed (Some e)) ∧
     (is_deadline e = true → deadline = false → rec_phase d = PhaseFailed ∧ kinds = [EventRunnerEnd] ∧ rec_err d = e) ∧
     (is_deadline e = false → cause = ReconcileCancel →
        rec_phase d = PhaseCanceledByReconciliation ∧ kinds = [EventRunnerStopped] ∧ rec_err d = e) ∧
     (is_deadline e = false → cause ≠ ReconcileCancel →
        rec_phase d = PhaseFailed ∧ kinds = [EventRunnerEnd] ∧ rec_err d = e)) ∧
  Ops.IsInputRequired (run_error (rec_err d)) = agent_IsInputRequired e ∧
  (match as_quota (run_error (rec_err d)) with Some _ => true | None => false end) = IsQuotaBackoff e.
Proof.
  cbv zeta. rewrite run_error_input, run_error_quota.
  unfold classifyRunnerError, asTimeoutError, isReconcileCancel, IsStall, IsTurnTimeout, IsReadTimeout, IsTimeout.
  destruct (as_stall e) as [[[]]|]; [by split_and!|].
  destruct (as_turn_timeout e) as [[[]]|]; [by split_and!|].
  destruct (as_read_timeout e) as [[]|]; [by split_and!|].
  destruct (as_timeout e) as [[[]]|]; [by split_and!|].
  destruct (is_deadline e) eqn:Hd, deadline, cause; cbn; by split_and!.
Qed.
(** A stalled run whose context was cancelled by reconciliation is a stall. *)
Lemma classify_runner_error_witness :
  let e := WrapErr "run" (StallError 5 7 "" (Some CanceledErr)) in
  let d := classifyRunnerError ReconcileCancel e false zero_Result "m" 7 10 in
  rec_phase d = PhaseStalled ∧ map tre_kind (rec_events d) = [EventStalled; EventRunnerTimeout].
Proof.
  destruct (classify_runner_error ReconcileCancel (WrapErr "run" (StallError 5 7 "" (Some CanceledErr))) false
              zero_Result "m" 7 10) as [H _].
  destruct (H eq_refl) as (H1 & H2 & _). split; [exact H1|exact H2].
Defined.

(** ** A run *)

#[local] Instance demo_steady : SteadyRunner WorktreeProps.demo_os.
Proof. intros past model workdir root prompt budget timeout from to H. by apply elem_of_nil in H. Qed.
Definition demo_hooks : WorkspaceHooks :=
  {| hk_AfterCreate := ["setup"]; hk_BeforeRun := [" check "; ""]; hk_AfterRun := ["report"]; hk_BeforeRemove := [];
     hk_TimeoutMs := 0; hk_EnvPassthrough := [] |}.
Definition demo_workflow (template : string) : WorkflowFile :=
  {| wf_Source := "file"; wf_Path := "WORKFLOW.md"; wf_PromptTemplate := template; wf_AgentDefault := "codex-app-server";
     wf_AgentTimeout := 0; wf_PolicyMode := "pr"; wf_VerifyCommands := []; wf_WorkspaceRoot := "/srv/ws";
     wf_WorkspaceRootSet := true; wf_Hooks := demo_hooks; wf_Tracker := demo_config |}.
Definition demo_cfg (template : string) : WorkerConfig :=
  {| wk_WorkspaceRoot := ""; wk_MirrorRoot := "/cache"; wk_Workflow := Some (demo_workflow template); wk_CleanTurnBudget := 0 |}.
Definition demo_run (template : string) :=
  exec WorktreeProps.demo_os [] (RunTaskWithResult (λ _, None) (λ _, "/bin") (Some "/") true (λ _, None) (λ _, "")
    (λ _, None) (λ _, "") (λ _, "") WorktreeProps.demo_task (demo_cfg template)).

Lemma run_task_agent_witness :
  agents (demo_run "work on {{ task.id }}").1 = ["work on t1"] ∧
  locks (demo_run "work on {{ task.id }}").1 = no_locks.
Proof.
  split; [by vm_compute|].
  pose proof (run_task_agent (λ _, None) (λ _, "/bin") (Some "/") (λ _, None) (λ _, "")
    (λ _, None) (λ _, "") (λ _, "") WorktreeProps.demo_os (AbsoluteOS0 := demo_absolute)
    (demo_cfg "work on {{ task.id }}") WorktreeProps.demo_task) as H.
  unfold demo_run. destruct (exec _ _ _) as [log r]. exact (proj2 H).
Defined.
Lemma run_task_phases_witness :
  phases (demo_run "{{ nothing }}").1 = ["PreparingWorkspace"; "BuildingPrompt"; "Failed"] ∧
  ∃ pre last, phases (demo_run "{{ nothing }}").1 = pre ++ [last] ∧ isTerminalPhase last = true.
Proof.
  split; [by vm_compute|].
  pose proof (run_task_phases (λ _, None) (λ _, "/bin") (Some "/") (λ _, None) (λ _, "")
    (λ _, None) (λ _, "") (λ _, "") WorktreeProps.demo_os (AbsoluteOS0 := demo_absolute)
    (demo_cfg "{{ nothing }}") WorktreeProps.demo_task) as H.
  unfold demo_run. destruct (exec _ _ _) as [log r]. destruct H as (pre & last & E & _ & T & _). by exists pre, last.
Defined.
