(* ===== verification/Config.v ===== *)
(** * The workflow configuration (internal/workflow/config.go, codex_schema.go, expand.go, env.go, normalize.go)

    The typed configuration of a workflow file, its defaults, and the expansion after the
    parse: explicit environment references, the defaults of blank fields, and the sandbox
    policy of a turn derived from the one of the thread.  The two decoders the source gives
    to the YAML library are here; the library's own decoding is an argument ([Yaml]).
    Other arguments are what the code asks its environment: [lookup] is os.LookupEnv,
    [home] is os.UserHomeDir, [tempdir] is os.TempDir. *)

From S2P Require Import Prelude Workflow Payload GoStd Paths GitCmd Redact Profiles EnvPolicy RunTask.

(** ** YAML documents *)

(** What the source reads of a [yaml.Node]: its kind, tag and value.  The content of a
    mapping alternates keys and values. *)
Inductive Node :=
| ScalarNode (tag value : string)
| SequenceNode (tag : string) (items : list Node)
| MappingNode (tag : string) (entries : list (Node * Node))
| OtherNode (tag : string).
Definition node_Tag (n : Node) : string :=
  match n with ScalarNode t _ | SequenceNode t _ | MappingNode t _ | OtherNode t => t end.
Definition node_Value (n : Node) : string := match n with ScalarNode _ v => v | _ => "" end.

(** ** The records *)

Record RepoConfig := { rc_Owner : string; rc_Name : string; rc_CloneURL : string; rc_DefaultBranch : string }.
#[export] Instance eta_RepoConfig : Eta RepoConfig := fun r =>
  Build_RepoConfig (rc_Owner r) (rc_Name r) (rc_CloneURL r) (rc_DefaultBranch r).

Record ServerConfig := { sv_Host : string; sv_Port : Z; sv_portSet : bool }.
#[export] Instance eta_ServerConfig : Eta ServerConfig := fun r =>
  Build_ServerConfig (sv_Host r) (sv_Port r) (sv_portSet r).

Record TrackerSection := {
  tk_Kind : string;
  tk_Provider : option provider_map;
  tk_profile : option Profiles.Base;
  tk_ActiveStates : list string;
  tk_TerminalStates : list string;
  tk_InactiveStates : list string;
  tk_RequiredLabels : list string
}.
#[export] Instance eta_TrackerSection : Eta TrackerSection := fun r =>
  Build_TrackerSection (tk_Kind r) (tk_Provider r) (tk_profile r) (tk_ActiveStates r) (tk_TerminalStates r)
    (tk_InactiveStates r) (tk_RequiredLabels r).

Record HookFieldPresence := {
  hf_AfterCreate : bool;
  hf_BeforeRun : bool;
  hf_AfterRun : bool;
  hf_BeforeRemove : bool;
  hf_TimeoutMs : bool;
  hf_EnvPassthrough : bool
}.
Definition no_hook_fields : HookFieldPresence := Build_HookFieldPresence false false false false false false.

Record WorkspaceConfig := { wc_Root : string; wc_rootSet : bool }.
#[export] Instance eta_WorkspaceConfig : Eta WorkspaceConfig := fun r =>
  Build_WorkspaceConfig (wc_Root r) (wc_rootSet r).

Record AgentConfig := {
  ac_Default : string;
  ac_MaxConcurrentAgents : Z;
  ac_MaxConcurrentAgentsByState : gmap string Z;
  ac_MaxTurns : Z;
  ac_MaxContinuationTurns : Z;
  ac_MaxTokensPerClaim : Z;
  ac_MaxRuntimeSecondsPerClaim : Z;
  ac_MaxRetryBackoffMs : Z;
  ac_Timeout : Duration
}.
#[export] Instance eta_AgentConfig : Eta AgentConfig := fun r =>
  Build_AgentConfig (ac_Default r) (ac_MaxConcurrentAgents r) (ac_MaxConcurrentAgentsByState r) (ac_MaxTurns r)
    (ac_MaxContinuationTurns r) (ac_MaxTokensPerClaim r) (ac_MaxRuntimeSecondsPerClaim r)
    (ac_MaxRetryBackoffMs r) (ac_Timeout r).

Record CodexSandboxPolicy := {
  sp_Type : string;
  sp_WritableRoots : list string;
  sp_NetworkAccess : bool;
  sp_ExternalNetworkAccess : string;
  sp_ExcludeTmpdirEnvVar : bool;
  sp_ExcludeSlashTmp : bool
}.
#[export] Instance eta_CodexSandboxPolicy : Eta CodexSandboxPolicy := fun r =>
  Build_CodexSandboxPolicy (sp_Type r) (sp_WritableRoots r) (sp_NetworkAccess r) (sp_ExternalNetworkAccess r)
    (sp_ExcludeTmpdirEnvVar r) (sp_ExcludeSlashTmp r).
Definition zero_policy : CodexSandboxPolicy := Build_CodexSandboxPolicy "" [] false "" false false.

Record LinearGraphQLConfig := { lg_AllowMutations : bool; lg_AllowedMutations : list string }.
Definition LinearGraphQLConfig_IsZero (c : LinearGraphQLConfig) : bool :=
  negb (lg_AllowMutations c) && (length (lg_AllowedMutations c) =? 0)%nat.

Record CommandConfig := {
  cc_Command : string;
  cc_EnvPassthrough : list string;
  cc_ApprovalPolicy : any;
  cc_ThreadSandbox : string;
  cc_TurnSandboxPolicy : CodexSandboxPolicy;
  cc_turnSandboxPolicySet : bool;
  cc_TurnTimeoutMs : Z;
  cc_ReadTimeoutMs : Z;
  cc_StallTimeoutMs : Z;
  cc_LinearGraphQL : LinearGraphQLConfig
}.
#[export] Instance eta_CommandConfig : Eta CommandConfig := fun r =>
  Build_CommandConfig (cc_Command r) (cc_EnvPassthrough r) (cc_ApprovalPolicy r) (cc_ThreadSandbox r)
    (cc_TurnSandboxPolicy r) (cc_turnSandboxPolicySet r) (cc_TurnTimeoutMs r) (cc_ReadTimeoutMs r)
    (cc_StallTimeoutMs r) (cc_LinearGraphQL r).

Record SandboxConfig := {
  sb_Enabled : bool;
  sb_Backend : string;
  sb_NetworkMode : string;
  sb_NetworkAllowlistCIDRs : list string;
  sb_NetworkInterface : string;
  sb_EnvAllowlist : list string;
  sb_CredentialFiles : list string
}.
#[export] Instance eta_SandboxConfig : Eta SandboxConfig := fun r =>
  Build_SandboxConfig (sb_Enabled r) (sb_Backend r) (sb_NetworkMode r) (sb_NetworkAllowlistCIDRs r)
    (sb_NetworkInterface r) (sb_EnvAllowlist r) (sb_CredentialFiles r).

Record Config := {
  cf_Repo : RepoConfig;
  cf_Server : ServerConfig;
  cf_Tracker : TrackerSection;
  cf_PollingIntervalMs : Z;
  cf_Hooks : RunTask.WorkspaceHooks;
  cf_hookFields : HookFieldPresence;
  cf_Workspace : WorkspaceConfig;
  cf_Agent : AgentConfig;
  cf_Codex : CommandConfig;
  cf_Claude : CommandConfig;
  cf_PolicyMode : string;
  cf_Sandbox : SandboxConfig;
  cf_VerifyCommands : list string
}.
#[export] Instance eta_Config : Eta Config := fun r =>
  Build_Config (cf_Repo r) (cf_Server r) (cf_Tracker r) (cf_PollingIntervalMs r) (cf_Hooks r) (cf_hookFields r)
    (cf_Workspace r) (cf_Agent r) (cf_Codex r) (cf_Claude r) (cf_PolicyMode r) (cf_Sandbox r) (cf_VerifyCommands r).

(** What the environment policy reads of it. *)
Definition policy_config (cfg : Config) : EnvPolicy.TrackerConfig :=
  {| tc_Kind := tk_Kind (cf_Tracker cfg); tc_Provider := tk_Provider (cf_Tracker cfg);
     tc_profile := tk_profile (cf_Tracker cfg);
     tc_RepoOwner := rc_Owner (cf_Repo cfg); tc_RepoName := rc_Name (cf_Repo cfg) |}.

(** ** Errors

    What is formatted into a message is kept where the message names it; the path that
    prefixes every message is not. *)
Inductive Category :=
| CategoryMissingWorkflowFile
| CategoryWorkflowParseError
| CategoryWorkflowFrontMatterNotMap
| CategoryTemplateParseError
| CategoryTemplateRenderError.
#[export] Instance Category_eq_dec : EqDecision Category.
Proof. solve_decision. Defined.

(** Why a value is refused by the validators. *)
Inductive Refusal :=
| TrackerKindRequired
| CloneURLRequired
| TrackerKindUnsupported (kind : string)
| ProviderRefused (e : ProfileError)
| AgentDefaultUnsupported (name : string)
| EnvNameDenied (field : string) (i : nat) (name reason : string)
| SandboxBackendUnsupported (backend : string)
| SandboxNeedsBackend
| SandboxNeedsEnvAllowlist
| SandboxNetworkUnsupported (mode : string)
| AllowlistNeedsFirejail
| AllowlistNeedsCIDRs
| AllowlistNeedsInterface
| InvalidCIDR (cidr : string)
| NotIPv4 (cidr : string)
| ServerPortOutOfRange
| CommandBlank (field : string)
| SandboxPolicyTypeRequired
| SandboxPolicyBadNetwork (value : string)
| SandboxPolicyUnsupported (type : string)
| ClaudeLinearGraphQL
| MutationEmpty (i : nat)
| MutationInvalid (i : nat) (name : string)
| MutationDuplicate (i : nat) (name : string) (first : nat)
| MutationsNotAllowed
| MustBePositive (field : string)
| MustBeNonNegative (field : string)
| StateCapEmpty
| StateCapNotPositive (state : string)
| StateCapDuplicate (state first key : string)
| InvalidTimeouts (fields : list string).

(** Why the decoder of the sandbox policy refuses a node. *)
Inductive PolicyError :=
| PolicyNotMap
| PolicyFieldDuplicated (key : string)
| PolicyFieldLegacy (key : string)
| PolicyTypeRequired
| PolicyUnknownFields (keys : list string)
| PolicyFieldRequired (key : string)
| PolicyFieldType (key : string)
| PolicyBadNetwork (value : string)
| PolicyTypeUnsupported (type : string).

Inductive Error :=
| WorkflowError (c : Category) (cause : option Error)
| ReadFailed (e : Sys.OsErr)
| YamlFailed
| HookNotDecoded
| PolicyNotDecoded (e : PolicyError)
| MissingEnvValueError (field envVar : string)
| FieldRemoved (field : string)
| Refused (r : Refusal)
| StatFailed (e : Sys.OsErr)
| NotADirectory.

Definition result (A : Type) : Type := Error + A.
Definition bind_result {A B} (r : result A) (k : A → result B) : result B :=
  match r with inl e => inl e | inr a => k a end.
Notation "'let@' x := m 'in' k" := (bind_result m (fun x => k))
  (at level 200, x pattern, m at level 100, k at level 200) : go_scope.

(** [ErrorCategory]: [errors.As] looks for the first error of a chain that has one. *)
Definition ErrorCategory (e : Error) : option Category :=
  match e with WorkflowError c _ => Some c | _ => None end.

(** ** The decoders given to the library *)

Class Yaml := {
  (* node.Decode into a string, a bool, a []string, and the commands field of a struct *)
  decode_string : Node → option string;
  decode_bool : Node → option bool;
  decode_strings : Node → option (list string);
  decode_commands : Node → option (list string);
  (* yaml.Unmarshal into a yaml.Node: the content of the document *)
  unmarshal_node : string → option (list Node);
  (* yaml.Unmarshal into a map[string]any *)
  unmarshal_map : string → option any_map;
  (* yaml.Unmarshal over a Config, with the decoders of a hook and of the sandbox policy *)
  unmarshal_config :
    (Node → list string → result (list string)) → (Node → result CodexSandboxPolicy) →
    string → Config → result Config
}.

(** [WorkspaceHook.UnmarshalYAML]: [h] is the hook before. *)
Definition decode_or_fail {A} (r : option A) : result A :=
  match r with Some a => inr a | None => inl YamlFailed end.
Definition WorkspaceHook_UnmarshalYAML `{Yaml} (value : Node) (h : list string) : result (list string) :=
  match value with
  | ScalarNode _ _ =>
      let@ command := decode_or_fail (decode_string value) in
      inr (if negb (String.eqb command "") then [command] else h)
  | SequenceNode _ _ => decode_or_fail (decode_strings value)
  | MappingNode _ _ => decode_or_fail (decode_commands value)
  | OtherNode _ => inl HookNotDecoded
  end.

Definition CodexSandboxDangerFullAccess : string := "dangerFullAccess".
Definition CodexSandboxReadOnly : string := "readOnly".
Definition CodexSandboxExternalSandbox : string := "externalSandbox".
Definition CodexSandboxWorkspaceWrite : string := "workspaceWrite".

Definition DefaultCodexSandboxPolicy : CodexSandboxPolicy := zero_policy <| sp_Type := CodexSandboxWorkspaceWrite |>.

Definition defaultTurnSandboxPolicyForThread (threadSandbox : string) : CodexSandboxPolicy :=
  if String.eqb threadSandbox "danger-full-access" then zero_policy <| sp_Type := CodexSandboxDangerFullAccess |>
  else if String.eqb threadSandbox "read-only" then zero_policy <| sp_Type := CodexSandboxReadOnly |>
  else DefaultCodexSandboxPolicy.

Definition CodexSandboxPolicy_IsZero (p : CodexSandboxPolicy) : bool :=
  String.eqb (sp_Type p) "" && (length (sp_WritableRoots p) =? 0)%nat && negb (sp_NetworkAccess p)
  && String.eqb (sp_ExternalNetworkAccess p) "" && negb (sp_ExcludeTmpdirEnvVar p) && negb (sp_ExcludeSlashTmp p).

Definition shouldDeriveTurnSandboxPolicy (c : CommandConfig) : bool :=
  negb (cc_turnSandboxPolicySet c) || CodexSandboxPolicy_IsZero (cc_TurnSandboxPolicy c).

Definition network_ok (network : string) : bool := String.eqb network "restricted" || String.eqb network "enabled".

(** [CodexSandboxPolicy.Validate]. *)
Definition CodexSandboxPolicy_Validate (p : CodexSandboxPolicy) : option Refusal :=
  if CodexSandboxPolicy_IsZero p then Some SandboxPolicyTypeRequired
  else if existsb (String.eqb (sp_Type p)) [CodexSandboxDangerFullAccess; CodexSandboxReadOnly; CodexSandboxWorkspaceWrite]
  then None
  else if String.eqb (sp_Type p) CodexSandboxExternalSandbox
  then if network_ok (sp_ExternalNetworkAccess p) then None
       else Some (SandboxPolicyBadNetwork (sp_ExternalNetworkAccess p))
  else Some (SandboxPolicyUnsupported (sp_Type p)).

Definition require_field (fields : gmap string Node) (key : string) : result Node :=
  match fields !! key with Some n => inr n | None => inl (PolicyNotDecoded (PolicyFieldRequired key)) end.
Definition require_type {A} (key : string) (r : option A) : result A :=
  match r with Some a => inr a | None => inl (PolicyNotDecoded (PolicyFieldType key)) end.

Section PolicyDecoder.
Context `{Yaml}.

Definition requireBoolCodexSandboxField (fields : gmap string Node) (key : string) : result bool :=
  let@ node := require_field fields key in require_type key (decode_bool node).
Definition requireStringCodexSandboxField (fields : gmap string Node) (key : string) : result string :=
  let@ node := require_field fields key in require_type key (decode_string node).
Definition requireStringSliceCodexSandboxField (fields : gmap string Node) (key : string) : result (list string) :=
  let@ node := require_field fields key in require_type key (decode_strings node).

(** The fields a type allows; [None] for an unknown type. *)
Definition allowed_fields (policyType : string) : option (list string) :=
  if String.eqb policyType CodexSandboxDangerFullAccess then Some ["type"]
  else if String.eqb policyType CodexSandboxReadOnly || String.eqb policyType CodexSandboxExternalSandbox
  then Some ["type"; "networkAccess"]
  else if String.eqb policyType CodexSandboxWorkspaceWrite
  then Some ["type"; "writableRoots"; "networkAccess"; "excludeTmpdirEnvVar"; "excludeSlashTmp"]
  else None.
Definition rejectUnknownCodexSandboxFields (policyType : string) (fields : gmap string Node) : option PolicyError :=
  match allowed_fields policyType with
  | None => None
  | Some allowed =>
      match List.filter (λ key, negb (existsb (String.eqb key) allowed)) (map fst (map_to_list fields)) with
      | [] => None
      | unknown => Some (PolicyUnknownFields (sort_strings unknown))
      end
  end.

Fixpoint policy_fields (entries : list (Node * Node)) (fields : gmap string Node) : result (gmap string Node) :=
  match entries with
  | [] => inr fields
  | (k, v) :: entries =>
      let key := node_Value k in
      match fields !! key with
      | Some _ => inl (PolicyNotDecoded (PolicyFieldDuplicated key))
      | None => policy_fields entries (<[key := v]> fields)
      end
  end.

Definition typed_policy (type : string) (fields : gmap string Node) : result CodexSandboxPolicy :=
  let policy := zero_policy <| sp_Type := type |> in
  if String.eqb type CodexSandboxDangerFullAccess then inr policy
  else if String.eqb type CodexSandboxReadOnly then
    let@ network := requireBoolCodexSandboxField fields "networkAccess" in
    inr (policy <| sp_NetworkAccess := network |>)
  else if String.eqb type CodexSandboxExternalSandbox then
    let@ network := requireStringCodexSandboxField fields "networkAccess" in
    if network_ok network then inr (policy <| sp_ExternalNetworkAccess := network |>)
    else inl (PolicyNotDecoded (PolicyBadNetwork network))
  else if String.eqb type CodexSandboxWorkspaceWrite then
    let@ roots := requireStringSliceCodexSandboxField fields "writableRoots" in
    let@ network := requireBoolCodexSandboxField fields "networkAccess" in
    let@ tmpdir := requireBoolCodexSandboxField fields "excludeTmpdirEnvVar" in
    let@ tmp := requireBoolCodexSandboxField fields "excludeSlashTmp" in
    inr (policy <| sp_WritableRoots := roots |> <| sp_NetworkAccess := network |>
                <| sp_ExcludeTmpdirEnvVar := tmpdir |> <| sp_ExcludeSlashTmp := tmp |>)
  else inl (PolicyNotDecoded (PolicyTypeUnsupported type)).

(** [CodexSandboxPolicy.UnmarshalYAML]. *)
Definition CodexSandboxPolicy_UnmarshalYAML (node : Node) : result CodexSandboxPolicy :=
  if String.eqb (node_Tag node) "!!null" then inr zero_policy
  else
    match node with
    | MappingNode _ entries =>
        let@ fields := policy_fields entries ∅ in
        match List.find (λ legacy, bool_decide (is_Some (fields !! legacy))) ["mode"; "readOnlyAccess"; "access"] with
        | Some legacy => inl (PolicyNotDecoded (PolicyFieldLegacy legacy))
        | None =>
            match fields !! "type" with
            | None => inl (PolicyNotDecoded PolicyTypeRequired)
            | Some typeNode =>
                if String.eqb (TrimSpace (node_Value typeNode)) ""
                then inl (PolicyNotDecoded PolicyTypeRequired)
                else
                  let type := node_Value typeNode in
                  match rejectUnknownCodexSandboxFields type fields with
                  | Some e => inl (PolicyNotDecoded e)
                  | None => typed_policy type fields
                  end
            end
        end
    | _ => inl (PolicyNotDecoded PolicyNotMap)
    end.
End PolicyDecoder.

(** [CodexSandboxPolicy.MarshalJSON]: null, or the fields of the object in order. *)
Inductive JsonField := JString (s : string) | JBool (b : bool) | JStrings (l : list string).
Definition CodexSandboxPolicy_MarshalJSON (p : CodexSandboxPolicy) : option (option (list (string * JsonField))) :=
  let type := ("type", JString (sp_Type p)) in
  if String.eqb (sp_Type p) "" then Some None
  else if String.eqb (sp_Type p) CodexSandboxDangerFullAccess then Some (Some [type])
  else if String.eqb (sp_Type p) CodexSandboxReadOnly
  then Some (Some [type; ("networkAccess", JBool (sp_NetworkAccess p))])
  else if String.eqb (sp_Type p) CodexSandboxExternalSandbox
  then Some (Some [type; ("networkAccess", JString (sp_ExternalNetworkAccess p))])
  else if String.eqb (sp_Type p) CodexSandboxWorkspaceWrite
  then Some (Some [type; ("writableRoots", JStrings (sp_WritableRoots p)); ("networkAccess", JBool (sp_NetworkAccess p));
                   ("excludeTmpdirEnvVar", JBool (sp_ExcludeTmpdirEnvVar p));
                   ("excludeSlashTmp", JBool (sp_ExcludeSlashTmp p))])
  else None.

(** ** Defaults *)

Definition default_approval : any :=
  AMap (Some [("granular", AMap (Some
    [("sandbox_approval", ABool false); ("rules", ABool false); ("skill_approval", ABool false);
     ("request_permissions", ABool false); ("mcp_elicitations", ABool false)]))]).

Definition DefaultCodexCommand : string := "codex app-server".
Definition zero_command : CommandConfig :=
  Build_CommandConfig "" [] ANil "" zero_policy false 0 0 0 (Build_LinearGraphQLConfig false []).
Definition defaultWorkspaceRoot (tempdir : string) : string := Join [tempdir; "symphony_workspaces"].

Definition DefaultConfig (tempdir : string) : Config := {|
  cf_Repo := Build_RepoConfig "" "" "" "";
  cf_Server := Build_ServerConfig "127.0.0.1" 4000 false;
  cf_Tracker := {| tk_Kind := ""; tk_Provider := Some ∅; tk_profile := None;
                   tk_ActiveStates := ["Todo"; "In Progress"];
                   tk_TerminalStates := ["Closed"; "Cancelled"; "Canceled"; "Duplicate"; "Done"];
                   tk_InactiveStates := []; tk_RequiredLabels := [] |};
  cf_PollingIntervalMs := 30000;
  cf_Hooks := {| hk_AfterCreate := []; hk_BeforeRun := []; hk_AfterRun := []; hk_BeforeRemove := [];
                 hk_TimeoutMs := 60000; hk_EnvPassthrough := [] |};
  cf_hookFields := no_hook_fields;
  cf_Workspace := Build_WorkspaceConfig (defaultWorkspaceRoot tempdir) false;
  cf_Agent := {| ac_Default := "mock"; ac_MaxConcurrentAgents := 10; ac_MaxConcurrentAgentsByState := ∅;
                 ac_MaxTurns := 20; ac_MaxContinuationTurns := 20; ac_MaxTokensPerClaim := 0;
                 ac_MaxRuntimeSecondsPerClaim := 0; ac_MaxRetryBackoffMs := 300000; ac_Timeout := 30 * Minute |};
  cf_Codex := zero_command <| cc_Command := DefaultCodexCommand |> <| cc_ApprovalPolicy := default_approval |>
    <| cc_ThreadSandbox := "workspace-write" |> <| cc_TurnSandboxPolicy := DefaultCodexSandboxPolicy |>
    <| cc_TurnTimeoutMs := 3600000 |> <| cc_ReadTimeoutMs := 5000 |> <| cc_StallTimeoutMs := 300000 |>;
  cf_Claude := zero_command <| cc_Command := "claude" |>;
  cf_PolicyMode := "draft_pr";
  cf_Sandbox := {| sb_Enabled := false; sb_Backend := "none"; sb_NetworkMode := "none"; sb_NetworkAllowlistCIDRs := [];
                   sb_NetworkInterface := ""; sb_EnvAllowlist := []; sb_CredentialFiles := [] |};
  cf_VerifyCommands := []
|}.

(** ** Environment references (env.go) *)

Definition isExplicitEnvName (name : string) : bool := validEnvironmentName name.

Definition explicitEnvReferenceName (value : string) : string * bool :=
  if HasPrefix value "${" && HasSuffix value "}"
  then let name := TrimSuffix (TrimPrefix value "${") "}" in (name, isExplicitEnvName name)
  else if HasPrefix value "$"
  then let name := TrimPrefix value "$" in (name, isExplicitEnvName name)
  else ("", false).

Definition resolveExplicitEnv (lookup : lookup_env) (field value : string) : result string :=
  let '(envName, ok) := explicitEnvReferenceName value in
  if ok : bool
  then
    match lookup envName with
    | Some resolved => if String.eqb resolved "" then inl (MissingEnvValueError field envName) else inr resolved
    | None => inl (MissingEnvValueError field envName)
    end
  else inr value.

(** ** Expansion (expand.go) *)

Section Expand.
Context (lookup : lookup_env) (home : option string).

Definition expandPath (p : string) : string :=
  if String.eqb p "" then p
  else if HasPrefix p "~/"
  then match home with Some home => Join [home; TrimPrefix p "~/"] | None => p end
  else p.

Definition normalizeWorkflowPath (workflowPath p : string) : result string :=
  let@ resolved := resolveExplicitEnv lookup "workspace.root" p in
  let expanded := expandPath resolved in
  inr (if String.eqb expanded "" || IsAbs expanded || String.eqb workflowPath "" then expanded
       else Join [Dir workflowPath; expanded]).

Definition expandRepoConfig (field : string) (repo : RepoConfig) : result RepoConfig :=
  let@ url := resolveExplicitEnv lookup field (rc_CloneURL repo) in
  let repo := repo <| rc_CloneURL := url |> in
  inr (if String.eqb (rc_DefaultBranch repo) "" then repo <| rc_DefaultBranch := "main" |> else repo).

(** The loop over the credential files, from index [i]. *)
Fixpoint expand_credentials (i : nat) (files : list string) : result (list string) :=
  match files with
  | [] => inr []
  | file :: files =>
      let@ resolved := resolveExplicitEnv lookup ("sandbox.credential_files[" +:+ fmt_d (Z.of_nat i) +:+ "]") file in
      let@ rest := expand_credentials (S i) files in
      inr (expandPath resolved :: rest)
  end.

Definition expand_agent (agent : AgentConfig) : AgentConfig :=
  let agent := if String.eqb (ac_Default agent) "" then agent <| ac_Default := "mock" |> else agent in
  if ac_Timeout agent <=? 0 then agent <| ac_Timeout := 30 * Minute |> else agent.

Definition expand_sandbox (sandbox : SandboxConfig) : SandboxConfig :=
  let sandbox := if String.eqb (sb_Backend sandbox) "" then sandbox <| sb_Backend := "none" |> else sandbox in
  if String.eqb (sb_NetworkMode sandbox) "" then sandbox <| sb_NetworkMode := "none" |> else sandbox.

Definition is_nil (v : any) : bool := match v with ANil => true | _ => false end.

Definition expand_codex (codex : CommandConfig) : CommandConfig :=
  let codex := if String.eqb (cc_ThreadSandbox codex) "" then codex <| cc_ThreadSandbox := "workspace-write" |> else codex in
  let codex :=
    if shouldDeriveTurnSandboxPolicy codex
    then codex <| cc_TurnSandboxPolicy := defaultTurnSandboxPolicyForThread (cc_ThreadSandbox codex) |> else codex in
  if is_nil (cc_ApprovalPolicy codex) then codex <| cc_ApprovalPolicy := default_approval |> else codex.

Definition expandConfigForWorkflowPath (workflowPath : string) (cfg : Config) : result Config :=
  let@ repo := expandRepoConfig "repo.clone_url" (cf_Repo cfg) in
  let@ root := normalizeWorkflowPath workflowPath (wc_Root (cf_Workspace cfg)) in
  let@ codexCommand := resolveExplicitEnv lookup "codex.command" (cc_Command (cf_Codex cfg)) in
  let@ claudeCommand := resolveExplicitEnv lookup "claude.command" (cc_Command (cf_Claude cfg)) in
  let@ credentials := expand_credentials 0 (sb_CredentialFiles (cf_Sandbox cfg)) in
  inr (cfg
    <| cf_Repo := repo |>
    <| cf_Workspace ::= (λ w, w <| wc_Root := root |>) |>
    <| cf_Codex ::= (λ c, expand_codex (c <| cc_Command := codexCommand |>)) |>
    <| cf_Claude ::= (λ c, c <| cc_Command := claudeCommand |>) |>
    <| cf_Sandbox ::= (λ s, expand_sandbox (s <| sb_CredentialFiles := credentials |>)) |>
    <| cf_Agent ::= expand_agent |>
    <| cf_PollingIntervalMs ::= (λ p, if p <=? 0 then 30000 else p) |>).

Definition expandConfig (cfg : Config) : result Config := expandConfigForWorkflowPath "" cfg.
End Expand.

(** ** Normalization *)

(** The loop of [normalizeRequiredLabels]: the labels seen and those kept. *)
Fixpoint normalize_labels (labels : list string) (seen : gset string) : list string :=
  match labels with
  | [] => []
  | label :: labels =>
      let norm := ToLower (TrimSpace label) in
      if decide (norm ∈ seen) then normalize_labels labels seen
      else norm :: normalize_labels labels ({[norm]} ∪ seen)
  end.
Definition normalizeRequiredLabels (labels : list string) : list string :=
  match labels with [] => labels | _ => normalize_labels labels ∅ end.

(** The order of a range over a map is the language's choice: one for each loop. *)
Class MapRange := {
  range_order : nat → gmap string Z → list (string * Z);
  range_order_ok : ∀ n m, range_order n m ≡ₚ map_to_list m
}.

Definition normalizeLoadedConfig `{MapRange} (cfg : Config) : Config :=
  cfg <| cf_Agent ::= (λ a, a <| ac_MaxConcurrentAgentsByState ::= (λ m, NormalizeStateConcurrencyLimits (range_order 1 m)) |>) |>
      <| cf_Tracker ::= (λ t, t <| tk_RequiredLabels ::= normalizeRequiredLabels |>) |>.

(** ** Clone URLs

    [parse] is url.Parse: none for an error, the URL's user, and the URL printed without it. *)

Record ParsedURL := { pu_HasUser : bool; pu_WithoutUser : string }.
Definition MaskCloneURL (parse : string → option ParsedURL) (raw : string) : string :=
  if String.eqb raw "" then raw
  else
    match parse raw with
    | Some u => if pu_HasUser u then pu_WithoutUser u else raw
    | None => stripCloneURLUserinfo raw
    end.

(** ** The environment of the worker (worker/env.go) *)

Record EnvResolution := { er_Canonical : string; er_Value : string; er_UsedName : string }.
Definition ResolveEnv (lookup : lookup_env) (canonical : string) : EnvResolution :=
  let v := default "" (lookup canonical) in
  if negb (String.eqb v "") then {| er_Canonical := canonical; er_Value := v; er_UsedName := canonical |}
  else {| er_Canonical := canonical; er_Value := ""; er_UsedName := "" |}.
