(* ===== verification/Loader.v ===== *)
(** * Loading a workflow file (internal/workflow/frontmatter.go, reject.go, validate.go, loader.go, resolver.go)

    The split of a file into its front matter and its prompt, the keys that are refused,
    the validators in their order, and [Load] and [Resolve], which read the file system
    ([Sys]).  The YAML library is [Yaml] (Config); net.ParseCIDR is an argument, as are the
    environment and the home directory; the order in which a loop visits a map is
    [MapRange].  Log lines are not modelled. *)

From S2P Require Import Prelude Workflow Payload GoStd Paths Sys GitCmd Profiles EnvPolicy RunTask Config.

(** ** The front matter *)

Definition carriage_return : string := String (Ascii.ascii_of_nat 13) "".
Definition fence : string := "---".

(** [strings.SplitAfter(s, "\n")]. *)
Fixpoint SplitAfter_newline (s : string) : list string :=
  match s with
  | EmptyString => [""]
  | String c t =>
      if byte_is 10 c then String c "" :: SplitAfter_newline t
      else match SplitAfter_newline t with
           | l :: ls => String c l :: ls
           | [] => [String c ""]
           end
  end.
(** [strings.TrimRight(s, "\r\n")]. *)
Fixpoint TrimRight_eol (s : string) : string :=
  match s with
  | EmptyString => ""
  | String c t =>
      match TrimRight_eol t with
      | EmptyString => if byte_is 10 c || byte_is 13 c then "" else String c ""
      | t => String c t
      end
  end.

(** The loop over the lines: what is before the closing fence, and what is after it. *)
Fixpoint find_fence (lines : list string) (front : string) : option (string * string) :=
  match lines with
  | [] => None
  | line :: lines =>
      if String.eqb (TrimRight_eol line) fence then Some (front, str_join "" lines)
      else find_fence lines (front +:+ line)
  end.

Definition splitFrontMatter (s : string) : string * string :=
  let open := fence +:+ newline in
  let open_crlf := fence +:+ carriage_return +:+ newline in
  if negb (HasPrefix s open) && negb (HasPrefix s open_crlf) then ("", s)
  else
    let rest := TrimPrefix (TrimPrefix s open_crlf) open in
    match find_fence (SplitAfter_newline rest) "" with
    | Some (front, body) => (front, body)
    | None => ("", s)
    end.

(** ** Keys of the raw document *)

(** [v.(map[string]any)]. *)
Definition string_map (v : any) : option any_map := match v with AMap m => Some m | _ => None end.
Definition map_has (m : any_map) (key : string) : bool :=
  match m with Some m => bool_decide (is_Some (assoc m key)) | None => false end.

Fixpoint has_path (current : any) (path : list string) : bool :=
  match path with
  | [] => true
  | key :: path =>
      match string_map current with
      | None => false
      | Some m => map_has m key && has_path (map_get m key) path
      end
  end.

Section Keys.
Context `{Yaml}.

Definition hasNestedKey (front : string) (path : list string) : bool :=
  match unmarshal_map front with None => false | Some raw => has_path (AMap raw) path end.

Definition hookFieldPresence (front : string) (path : list string) : HookFieldPresence := {|
  hf_AfterCreate := hasNestedKey front (path ++ ["after_create"]);
  hf_BeforeRun := hasNestedKey front (path ++ ["before_run"]);
  hf_AfterRun := hasNestedKey front (path ++ ["after_run"]);
  hf_BeforeRemove := hasNestedKey front (path ++ ["before_remove"]);
  hf_TimeoutMs := hasNestedKey front (path ++ ["timeout_ms"]);
  hf_EnvPassthrough := hasNestedKey front (path ++ ["env_passthrough"])
|}.
End Keys.

(** ** Removed keys (reject.go) *)

Definition section (raw : any_map) (key : string) : option any_map := string_map (map_get raw key).
(** The first of [keys] in a section. *)
Definition reject_keys (m : any_map) (prefix : string) (keys : list string) : option Error :=
  match List.find (map_has m) keys with
  | Some key => Some (FieldRemoved (prefix +:+ key))
  | None => None
  end.
Definition reject_in (raw : any_map) (name : string) (keys : list string) : option Error :=
  match section raw name with Some m => reject_keys m (name +:+ ".") keys | None => None end.

(** The first refusal of a list of checks. *)
Fixpoint first_some {A} (checks : list (option A)) : option A :=
  match checks with
  | [] => None
  | Some a :: _ => Some a
  | None :: checks => first_some checks
  end.

Definition rejectRemovedTrackerFields (raw : any_map) : option Error :=
  reject_in raw "tracker"
    (["api_key"; "endpoint"; "team_key"; "project_slug"; "pagination_max_pages"; "base_url"]
     ++ ["poll_interval_ms"] ++ ["statuses"]).
Definition rejectRemovedWorkspaceFields (raw : any_map) : option Error := reject_in raw "workspace" ["hooks"].
Definition rejectRemovedAgentFields (raw : any_map) : option Error :=
  reject_in raw "agent" (["fallback"] ++ ["max_retry_attempts"; "max_timeout_retries"]).
Definition rejectRemovedMiscFields (raw : any_map) : option Error :=
  first_some
    [reject_in raw "claude" ["profile"];
     if map_has raw "pr" then Some (FieldRemoved "pr") else None;
     if map_has raw "safety" then Some (FieldRemoved "safety") else None;
     rejectRemovedAgentFields raw].
Definition rejectRemovedVerifyFields (raw : any_map) : option Error :=
  reject_in raw "verify" (["timeout"; "allow_failure"; "env_passthrough"] ++ ["secret_scan"]).
Definition rejectRemovedPolicyFields (raw : any_map) : option Error :=
  first_some
    [reject_in raw "policy" ["allow_paths"; "deny_paths"; "max_changed_files"; "max_changed_lines"; "max_changed_loc"];
     reject_in raw "agent" ["policy_violation_budget"]].

(** [strings.NewReplacer] of both quotes by nothing, and [strings.Fields]. *)
Fixpoint drop_quotes (s : string) : string :=
  match s with
  | EmptyString => ""
  | String c t => if byte_is 34 c || byte_is 39 c then drop_quotes t else String c (drop_quotes t)
  end.
Fixpoint fields_from (word : string) (s : string) : list string :=
  let flush := if String.eqb word "" then [] else [word] in
  match s with
  | EmptyString => flush
  | String c t => if is_space c then flush ++ fields_from "" t else fields_from (word +:+ String c "") t
  end.
Definition Fields (s : string) : list string := fields_from "" s.

Definition commandRunsCodexExec (command : string) : bool :=
  match Fields (drop_quotes command) with
  | f0 :: f1 :: _ => String.eqb f0 "codex" && String.eqb f1 "exec"
  | _ => false
  end.

Definition rejectRemovedCodexFields (raw : any_map) : option Error :=
  match section raw "codex" with
  | None => None
  | Some codex =>
      first_some
        [reject_keys codex "codex." ["profile"];
         match map_get codex "command" with
         | AString command => if commandRunsCodexExec command then Some (FieldRemoved "codex.command") else None
         | _ => None
         end;
         match section codex "approval_policy" with
         | Some approval => reject_keys approval "codex.approval_policy." ["reject"]
         | None => None
         end]
  end.

Definition rejectRemovedFields `{Yaml} (front : string) : option Error :=
  match unmarshal_map front with
  | None => None
  | Some raw =>
      first_some
        [rejectRemovedCodexFields raw; rejectRemovedVerifyFields raw; rejectRemovedPolicyFields raw;
         rejectRemovedTrackerFields raw; rejectRemovedWorkspaceFields raw; rejectRemovedMiscFields raw]
  end.

(** ** The validators (validate.go) *)

Definition supportedAgentDefaults : list string := ["mock"; "codex-app-server"; "claude"].
Definition supportedSandboxBackends : list string := ["none"; "bubblewrap"; "firejail"].
Definition supportedSandboxNetworks : list string := ["none"; "allowlist"].
Definition listed (l : list string) (s : string) : bool := existsb (String.eqb s) l.
Definition refuse_if (b : bool) (r : Refusal) : option Refusal := if b then Some r else None.

Definition validateTrackerAndRepo (cfg : Config) : option Refusal :=
  first_some
    [refuse_if (blank (tk_Kind (cf_Tracker cfg))) TrackerKindRequired;
     refuse_if (blank (rc_CloneURL (cf_Repo cfg))) CloneURLRequired].

Definition validateSupportedTrackerKind (cfg : Config) : option Refusal :=
  refuse_if (negb (is_supported_kind (tk_Kind (cf_Tracker cfg)))) (TrackerKindUnsupported (tk_Kind (cf_Tracker cfg))).

(** GraphQL names. *)
Definition name_start (c : Ascii.ascii) : bool := in_range 65 90 c || in_range 97 122 c || byte_is 95 c.
Definition name_rest (c : Ascii.ascii) : bool := name_start c || in_range 48 57 c.
Fixpoint str_all (P : Ascii.ascii → bool) (s : string) : bool :=
  match s with EmptyString => true | String c t => P c && str_all P t end.
Definition isLinearGraphQLMutationName (s : string) : bool :=
  match s with EmptyString => false | String c t => name_start c && str_all name_rest t end.

Section Validate.
Context (lookup : lookup_env) (parse_cidr : string → option bool).

(** The loop from index [i]. *)
Fixpoint validate_names (field : string) (i : nat) (names : list string) (cfg : Config) : option Refusal :=
  match names with
  | [] => None
  | name :: names =>
      let reason := AgentEnvPassthroughDenyReasonForConfigWithLookup name (policy_config cfg) lookup in
      if negb (String.eqb reason "") then Some (EnvNameDenied field i name reason)
      else validate_names field (S i) names cfg
  end.
Definition validateAgentEnvExposure (field : string) (names : list string) (cfg : Config) : option Refusal :=
  validate_names field 0 names cfg.
Definition validateAgentEnvPassthrough (section : string) (names : list string) (cfg : Config) : option Refusal :=
  validateAgentEnvExposure (section +:+ ".env_passthrough") names cfg.

Definition validateSupportedValues (cfg : Config) : option Refusal :=
  first_some
    [refuse_if (negb (listed supportedAgentDefaults (ac_Default (cf_Agent cfg))))
       (AgentDefaultUnsupported (ac_Default (cf_Agent cfg)));
     validateAgentEnvPassthrough "codex" (cc_EnvPassthrough (cf_Codex cfg)) cfg;
     validateAgentEnvPassthrough "claude" (cc_EnvPassthrough (cf_Claude cfg)) cfg].

(** [parse_cidr]: whether the address of a CIDR that parses is an IPv4 one. *)
Definition validate_cidr (cidr : string) : option Refusal :=
  match parse_cidr (TrimSpace cidr) with
  | None => Some (InvalidCIDR cidr)
  | Some is_ipv4 => refuse_if (negb is_ipv4) (NotIPv4 cidr)
  end.

Definition validateSandboxNetworkAllowlist (cfg : Config) : option Refusal :=
  let sandbox := cf_Sandbox cfg in
  first_some
    ([refuse_if (negb (String.eqb (sb_Backend sandbox) "firejail")) AllowlistNeedsFirejail;
      refuse_if (length (sb_NetworkAllowlistCIDRs sandbox) =? 0)%nat AllowlistNeedsCIDRs;
      refuse_if (blank (sb_NetworkInterface sandbox)) AllowlistNeedsInterface]
     ++ map validate_cidr (sb_NetworkAllowlistCIDRs sandbox)).

Definition validateSandbox (cfg : Config) : option Refusal :=
  let sandbox := cf_Sandbox cfg in
  first_some
    [refuse_if (negb (listed supportedSandboxBackends (sb_Backend sandbox))) (SandboxBackendUnsupported (sb_Backend sandbox));
     refuse_if (sb_Enabled sandbox && String.eqb (sb_Backend sandbox) "none") SandboxNeedsBackend;
     refuse_if (sb_Enabled sandbox && (length (sb_EnvAllowlist sandbox) =? 0)%nat) SandboxNeedsEnvAllowlist;
     validateAgentEnvExposure "sandbox.env_allowlist" (sb_EnvAllowlist sandbox) cfg;
     refuse_if (negb (listed supportedSandboxNetworks (sb_NetworkMode sandbox))) (SandboxNetworkUnsupported (sb_NetworkMode sandbox));
     if String.eqb (sb_NetworkMode sandbox) "allowlist" then validateSandboxNetworkAllowlist cfg else None].

Definition validateServerPort (cfg : Config) : option Refusal :=
  let port := sv_Port (cf_Server cfg) in
  refuse_if ((port <? -1) || (port =? 0) || (65535 <? port)) ServerPortOutOfRange.

Fixpoint validate_mutations (i : nat) (names : list string) (seenAllowedMutations : gmap string nat) : option Refusal :=
  match names with
  | [] => None
  | name :: names =>
      if blank name then Some (MutationEmpty i)
      else if negb (isLinearGraphQLMutationName name) then Some (MutationInvalid i name)
      else
        match seenAllowedMutations !! name with
        | Some first => Some (MutationDuplicate i name first)
        | None => validate_mutations (S i) names (<[name := i]> seenAllowedMutations)
        end
  end.
Definition validateAllowedMutations (cfg : Config) : option Refusal :=
  let graphql := cc_LinearGraphQL (cf_Codex cfg) in
  first_some
    [validate_mutations 0 (lg_AllowedMutations graphql) ∅;
     refuse_if (negb (length (lg_AllowedMutations graphql) =? 0)%nat && negb (lg_AllowMutations graphql))
       MutationsNotAllowed].

Definition validateCodexClaude (cfg : Config) : option Refusal :=
  first_some
    [refuse_if (blank (cc_Command (cf_Codex cfg))) (CommandBlank "codex.command");
     refuse_if (blank (cc_Command (cf_Claude cfg))) (CommandBlank "claude.command");
     CodexSandboxPolicy_Validate (cc_TurnSandboxPolicy (cf_Codex cfg));
     refuse_if (negb (LinearGraphQLConfig_IsZero (cc_LinearGraphQL (cf_Claude cfg)))) ClaudeLinearGraphQL;
     validateAllowedMutations cfg].

(** The loop over the caps, in the order they are visited. *)
Fixpoint validate_caps (caps : list (string * Z)) (seenStateCaps : gmap string string) : option Refusal :=
  match caps with
  | [] => None
  | (state, limit) :: caps =>
      if blank state then Some StateCapEmpty
      else if limit <=? 0 then Some (StateCapNotPositive state)
      else
        let key := NormalizeStateConcurrencyKey state in
        match seenStateCaps !! key with
        | Some first => Some (StateCapDuplicate state first key)
        | None => validate_caps caps (<[key := state]> seenStateCaps)
        end
  end.
Definition validateStateConcurrencyCaps `{MapRange} (cfg : Config) : option Refusal :=
  validate_caps (range_order 0 (ac_MaxConcurrentAgentsByState (cf_Agent cfg))) ∅.

Definition validateAgentLimits `{MapRange} (cfg : Config) : option Refusal :=
  let agent := cf_Agent cfg in
  first_some
    [refuse_if (ac_MaxRetryBackoffMs agent <=? 0) (MustBePositive "agent.max_retry_backoff_ms");
     refuse_if (ac_MaxTurns agent <=? 0) (MustBePositive "agent.max_turns");
     refuse_if (ac_MaxContinuationTurns agent <=? 0) (MustBePositive "agent.max_continuation_turns");
     refuse_if (ac_MaxTokensPerClaim agent <? 0) (MustBeNonNegative "agent.max_tokens_per_claim");
     refuse_if (ac_MaxRuntimeSecondsPerClaim agent <? 0) (MustBeNonNegative "agent.max_runtime_seconds_per_claim");
     refuse_if (ac_MaxConcurrentAgents agent <=? 0) (MustBePositive "agent.max_concurrent_agents");
     validateStateConcurrencyCaps cfg].

Definition validateTimeouts (cfg : Config) : option Refusal :=
  let codex := cf_Codex cfg in
  let invalid :=
    (if cc_TurnTimeoutMs codex <=? 0 then ["codex.turn_timeout_ms"] else [])
    ++ (if cc_ReadTimeoutMs codex <=? 0 then ["codex.read_timeout_ms"] else [])
    ++ (if cc_StallTimeoutMs codex <? 0 then ["codex.stall_timeout_ms"] else []) in
  first_some
    [refuse_if (hf_TimeoutMs (cf_hookFields cfg) && (hk_TimeoutMs (cf_Hooks cfg) <=? 0)) (MustBePositive "hooks.timeout_ms");
     refuse_if (negb (length invalid =? 0)%nat) (InvalidTimeouts invalid)].

Definition validateCoreConfig `{MapRange} (cfg : Config) : option Refusal :=
  first_some (map (λ validate : Config → option Refusal, validate cfg)
    [validateSupportedValues; validateSandbox; validateServerPort; validateCodexClaude; validateAgentLimits;
     validateTimeouts]).

(** ** Admission (loader.go, tracker_provider.go) *)

Definition admitTrackerProvider (cfg : Config) : result Config :=
  match profiles_Resolve (tk_Kind (cf_Tracker cfg)) (tk_Provider (cf_Tracker cfg)) (rc_Owner (cf_Repo cfg))
          (rc_Name (cf_Repo cfg)) lookup with
  | inl e => inl (Refused (ProviderRefused e))
  | inr profile =>
      inr (cfg <| cf_Tracker ::= (λ t, t <| tk_Provider := Some (ProviderMap profile) |> <| tk_profile := Some profile |>) |>)
  end.

Definition check (r : option Refusal) : result unit :=
  match r with Some r => inl (Refused r) | None => inr tt end.

Definition admitSnapshot `{MapRange} (cfg : Config) (hasFrontMatter : bool) : result Config :=
  let@ cfg :=
    if hasFrontMatter
    then
      let@ _ := check (validateTrackerAndRepo cfg) in
      let@ _ := check (validateSupportedTrackerKind cfg) in
      let@ cfg := admitTrackerProvider cfg in
      let@ _ := check (validateCoreConfig cfg) in
      inr cfg
    else inr cfg in
  inr (normalizeLoadedConfig cfg).
End Validate.

(** ** Loading *)

Definition SourceFile : string := "file".
Definition SourcePromptOnly : string := "prompt_only".
Definition SourceDefault : string := "default".
Record Workflow := { wl_Path : string; wl_Config : Config; wl_PromptTemplate : string; wl_Source : string }.
Record Resolution := { rs_Source : string; rs_Path : string; rs_ShadowedBy : list string }.

Definition parse_error : Error := WorkflowError CategoryWorkflowParseError (Some YamlFailed).

Definition validateFrontMatterRoot `{Yaml} (front : string) : option Error :=
  match unmarshal_node front with
  | None => Some parse_error
  | Some (MappingNode _ _ :: _) => None
  | Some _ => Some (WorkflowError CategoryWorkflowFrontMatterNotMap None)
  end.

Definition defaultAgentMaxContinuationTurns `{Yaml} (cfg : Config) (hasFrontMatter : bool) (front : string) : Config :=
  if hasFrontMatter && hasNestedKey front ["agent"; "max_continuation_turns"] then cfg
  else cfg <| cf_Agent ::= (λ a, a <| ac_MaxContinuationTurns := ac_MaxTurns a |>) |>.

Section Load.
Context `{Yaml} `{MapRange} (lookup : lookup_env) (home : option string) (parse_cidr : string → option bool).
Context (DefaultPrompt : string).

(** The part of [Load] under [if hasFrontMatter]. *)
Definition decode_front (front : string) (cfg : Config) : result Config :=
  match validateFrontMatterRoot front with
  | Some e => inl e
  | None =>
      match rejectRemovedFields front with
      | Some e => inl e
      | None =>
          let hookFields := hookFieldPresence front ["hooks"] in
          let workspaceRootSet := hasNestedKey front ["workspace"; "root"] in
          let serverPortSet := hasNestedKey front ["server"; "port"] in
          let turnSandboxPolicySet := hasNestedKey front ["codex"; "turn_sandbox_policy"] in
          match unmarshal_config WorkspaceHook_UnmarshalYAML CodexSandboxPolicy_UnmarshalYAML front cfg with
          | inl e => inl (WorkflowError CategoryWorkflowParseError (Some e))
          | inr cfg =>
              inr (cfg <| cf_hookFields := hookFields |>
                       <| cf_Workspace ::= (λ w, w <| wc_rootSet := workspaceRootSet |>) |>
                       <| cf_Server ::= (λ s, s <| sv_portSet := serverPortSet |>) |>
                       <| cf_Codex ::= (λ c, c <| cc_turnSandboxPolicySet := turnSandboxPolicySet |>) |>)
          end
      end
  end.

Definition has_front_matter (front : string) : bool := negb (blank front).

(** [Load] after the file is read. *)
Definition load_text (path text : string) (defaults : Config) : result Workflow :=
  let '(front, body) := splitFrontMatter text in
  let hasFrontMatter := has_front_matter front in
  let@ cfg := if hasFrontMatter then decode_front front defaults else inr defaults in
  let rawStateCaps :=
    let caps := ac_MaxConcurrentAgentsByState (cf_Agent cfg) in
    if hasFrontMatter && negb (bool_decide (caps = ∅)) then Some caps else None in
  let cfg := defaultAgentMaxContinuationTurns cfg hasFrontMatter front in
  let@ cfg := expandConfigForWorkflowPath lookup home path cfg in
  let cfg :=
    match rawStateCaps with
    | Some caps => cfg <| cf_Agent ::= (λ a, a <| ac_MaxConcurrentAgentsByState := caps |>) |>
    | None => cfg
    end in
  let@ cfg := admitSnapshot lookup parse_cidr cfg hasFrontMatter in
  inr {| wl_Path := path; wl_Config := cfg; wl_PromptTemplate := TrimSpace body;
         wl_Source := if hasFrontMatter then SourceFile else SourcePromptOnly |}.

Definition Load (path : string) : Prog (result Workflow) :=
  let* b := call (ReadFile path) in
  match b with
  | inl ENotExist => Done (inl (WorkflowError CategoryMissingWorkflowFile (Some (ReadFailed ENotExist))))
  | inl e => Done (inl (ReadFailed e))
  | inr text =>
      let* tempdir := call TempDir in
      Done (load_text path text (DefaultConfig tempdir))
  end.

Definition HasFrontMatterAt (path : string) : Prog (result bool) :=
  let* b := call (ReadFile path) in
  Done (match b with
        | inl e => inl (ReadFailed e)
        | inr text => inr (has_front_matter (splitFrontMatter text).1)
        end).

Definition resolveCandidate : string := "WORKFLOW.md".

(** The workflow of a directory without a file. *)
Definition default_workflow : Prog (result (Workflow * Resolution)) :=
  let* tempdir := call TempDir in
  Done (let@ cfg := expandConfig lookup home (DefaultConfig tempdir) in
        inr ({| wl_Path := ""; wl_Config := cfg; wl_PromptTemplate := DefaultPrompt; wl_Source := SourceDefault |},
             {| rs_Source := SourceDefault; rs_Path := ""; rs_ShadowedBy := [] |})).

Definition Resolve (workdir : string) : Prog (result (Workflow * Resolution)) :=
  let* info := call (Stat workdir) in
  match info with
  | inl e => Done (inl (StatFailed e))
  | inr info =>
      if negb (fi_IsDir info) then Done (inl NotADirectory)
      else
        let abs := Join [workdir; resolveCandidate] in
        let* info := call (Stat abs) in
        match info with
        | inl e => if negb (os_IsNotExist e) then Done (inl (StatFailed e)) else default_workflow
        | inr info =>
            if fi_IsDir info then default_workflow
            else
              let* wf := Load abs in
              match wf with
              | inl e => Done (inl e)
              | inr wf =>
                  let* hasFront := HasFrontMatterAt abs in
                  Done (let@ hasFront := hasFront in
                        inr (wf, {| rs_Source := if hasFront : bool then SourceFile else SourcePromptOnly;
                                    rs_Path := resolveCandidate; rs_ShadowedBy := [] |}))
              end
        end
  end.
End Load.

(** What the worker reads of a loaded workflow. *)
Definition workflow_file (wf : Workflow) : RunTask.WorkflowFile :=
  let cfg := wl_Config wf in
  {| wf_Source := wl_Source wf; wf_Path := wl_Path wf; wf_PromptTemplate := wl_PromptTemplate wf;
     wf_AgentDefault := ac_Default (cf_Agent cfg); wf_AgentTimeout := ac_Timeout (cf_Agent cfg);
     wf_PolicyMode := cf_PolicyMode cfg; wf_VerifyCommands := cf_VerifyCommands cfg;
     wf_WorkspaceRoot := wc_Root (cf_Workspace cfg); wf_WorkspaceRootSet := wc_rootSet (cf_Workspace cfg);
     wf_Hooks := cf_Hooks cfg; wf_Tracker := policy_config cfg |}.
