(* ===== verification/LoaderProps.v ===== *)
(** * What an admitted workflow satisfies (internal/workflow)

    [core_valid] says what the validators accept, without their order; [admitted] adds the
    tracker's profile and the normal forms.  The theorems: a load returns only admitted
    configurations and refuses every other, whatever the order in which maps are visited;
    which files are split where; which keys are refused; what a turn's sandbox is. *)

From S2P Require Import Prelude Workflow Payload GoStd Paths Sys Hashes GitCmd Profiles EnvPolicy RunTask Config Loader.

(** ** Checks *)

Lemma first_some_None {A} (checks : list (option A)) : first_some checks = None ↔ Forall (λ c, c = None) checks.
Proof.
  induction checks as [|[a|] checks IH]; simpl.
  - by split.
  - split; [done|]. by inversion 1.
  - rewrite IH. split; [by constructor|by inversion 1].
Qed.
Lemma refuse_if_None b r : refuse_if b r = None ↔ b = false.
Proof. by destruct b. Qed.
Lemma blank_spec s : blank s = false ↔ TrimSpace s ≠ "".
Proof. unfold blank. by destruct (String.eqb_spec (TrimSpace s) ""). Qed.
Lemma existsb_eqb l s : existsb (String.eqb s) l = true ↔ s ∈ l.
Proof.
  rewrite existsb_exists. split.
  - intros (x & Hx & E). apply String.eqb_eq in E as ->. by apply list_elem_of_In.
  - intros Hs. exists s. split; [by apply list_elem_of_In|apply String.eqb_refl].
Qed.
Lemma listed_spec l s : negb (listed l s) = false ↔ s ∈ l.
Proof. unfold listed. by rewrite negb_false_iff, existsb_eqb. Qed.
Lemma length_eqb_0 {A} (l : list A) : (length l =? 0)%nat = false ↔ l ≠ [].
Proof. by destruct l. Qed.

(** ** What the validators accept *)

Section Valid.
Context (lookup : lookup_env) (parse_cidr : string → option bool).

(** No name is a tracker secret, by its name or its value. *)
Definition exposable (cfg : Config) (names : list string) : Prop :=
  ∀ name, name ∈ names → AgentEnvPassthroughDenyReasonForConfigWithLookup name (policy_config cfg) lookup = "".

Record sandbox_valid (s : SandboxConfig) : Prop := {
  sandbox_backend : sb_Backend s ∈ supportedSandboxBackends;
  sandbox_enabled : sb_Enabled s = true → sb_Backend s ≠ "none" ∧ sb_EnvAllowlist s ≠ [];
  sandbox_network : sb_NetworkMode s ∈ supportedSandboxNetworks;
  sandbox_allowlist : sb_NetworkMode s = "allowlist" →
    sb_Backend s = "firejail" ∧ sb_NetworkAllowlistCIDRs s ≠ [] ∧ TrimSpace (sb_NetworkInterface s) ≠ "" ∧
    ∀ cidr, cidr ∈ sb_NetworkAllowlistCIDRs s → parse_cidr (TrimSpace cidr) = Some true
}.

Definition mutations_valid (g : LinearGraphQLConfig) : Prop :=
  NoDup (lg_AllowedMutations g) ∧
  (∀ name, name ∈ lg_AllowedMutations g → TrimSpace name ≠ "" ∧ isLinearGraphQLMutationName name = true) ∧
  (lg_AllowedMutations g ≠ [] → lg_AllowMutations g = true).

Record commands_valid (codex claude : CommandConfig) : Prop := {
  codex_command : TrimSpace (cc_Command codex) ≠ "";
  claude_command : TrimSpace (cc_Command claude) ≠ "";
  codex_policy : CodexSandboxPolicy_Validate (cc_TurnSandboxPolicy codex) = None;
  claude_graphql : LinearGraphQLConfig_IsZero (cc_LinearGraphQL claude) = true;
  codex_mutations : mutations_valid (cc_LinearGraphQL codex);
  codex_timeouts : 0 < cc_TurnTimeoutMs codex ∧ 0 < cc_ReadTimeoutMs codex ∧ 0 <= cc_StallTimeoutMs codex
}.

(** Each cap is positive, under a state that is no other's key. *)
Definition caps_valid (caps : gmap string Z) : Prop :=
  (∀ state limit, caps !! state = Some limit → TrimSpace state ≠ "" ∧ 0 < limit) ∧
  (∀ s1 s2, is_Some (caps !! s1) → is_Some (caps !! s2) →
     NormalizeStateConcurrencyKey s1 = NormalizeStateConcurrencyKey s2 → s1 = s2).

Record agent_valid (a : AgentConfig) : Prop := {
  agent_default : ac_Default a ∈ supportedAgentDefaults;
  agent_backoff : 0 < ac_MaxRetryBackoffMs a;
  agent_turns : 0 < ac_MaxTurns a;
  agent_continuation : 0 < ac_MaxContinuationTurns a;
  agent_tokens : 0 <= ac_MaxTokensPerClaim a;
  agent_runtime : 0 <= ac_MaxRuntimeSecondsPerClaim a;
  agent_slots : 0 < ac_MaxConcurrentAgents a;
  agent_caps : caps_valid (ac_MaxConcurrentAgentsByState a)
}.

Record core_valid (cfg : Config) : Prop := {
  valid_agent : agent_valid (cf_Agent cfg);
  valid_sandbox : sandbox_valid (cf_Sandbox cfg);
  valid_port : sv_Port (cf_Server cfg) = -1 ∨ 1 <= sv_Port (cf_Server cfg) <= 65535;
  valid_commands : commands_valid (cf_Codex cfg) (cf_Claude cfg);
  valid_hooks : hf_TimeoutMs (cf_hookFields cfg) = true → 0 < hk_TimeoutMs (cf_Hooks cfg);
  valid_codex_env : exposable cfg (cc_EnvPassthrough (cf_Codex cfg));
  valid_claude_env : exposable cfg (cc_EnvPassthrough (cf_Claude cfg));
  valid_sandbox_env : exposable cfg (sb_EnvAllowlist (cf_Sandbox cfg))
}.

(** ** Each validator *)

Lemma validate_names_None field i names cfg : validate_names lookup field i names cfg = None ↔ exposable cfg names.
Proof.
  unfold exposable. revert i. induction names as [|name names IH]; intros i; cbn [validate_names].
  - split; [|done]. intros _ n Hn. by apply elem_of_nil in Hn.
  - destruct (String.eqb_spec (AgentEnvPassthroughDenyReasonForConfigWithLookup name (policy_config cfg) lookup) "")
      as [E|E]; simpl.
    + rewrite IH. split; intros Hall n.
      * intros [->|Hn]%elem_of_cons; [done|by apply Hall].
      * intros Hn. apply Hall. by right.
    + split; [done|]. intros Hall. by specialize (Hall name (list_elem_of_here _ _)).
Qed.

Lemma validate_cidr_None cidr : validate_cidr parse_cidr cidr = None ↔ parse_cidr (TrimSpace cidr) = Some true.
Proof.
  unfold validate_cidr. destruct (parse_cidr _) as [[]|]; simpl; by split.
Qed.

Lemma validateSandbox_None cfg :
  validateSandbox lookup parse_cidr cfg = None ↔
  sandbox_valid (cf_Sandbox cfg) ∧ exposable cfg (sb_EnvAllowlist (cf_Sandbox cfg)).
Proof.
  unfold validateSandbox, validateSandboxNetworkAllowlist, validateAgentEnvExposure.
  rewrite first_some_None, !Forall_cons, Forall_nil, !refuse_if_None, !listed_spec, validate_names_None.
  set (s := cf_Sandbox cfg). rewrite !andb_false_iff, length_eqb_0.
  assert ((if String.eqb (sb_NetworkMode s) "allowlist"
           then first_some ([refuse_if (negb (String.eqb (sb_Backend s) "firejail")) AllowlistNeedsFirejail;
             refuse_if (length (sb_NetworkAllowlistCIDRs s) =? 0)%nat AllowlistNeedsCIDRs;
             refuse_if (blank (sb_NetworkInterface s)) AllowlistNeedsInterface]
             ++ map (validate_cidr parse_cidr) (sb_NetworkAllowlistCIDRs s)) else None) = None ↔
          (sb_NetworkMode s = "allowlist" →
            sb_Backend s = "firejail" ∧ sb_NetworkAllowlistCIDRs s ≠ [] ∧ TrimSpace (sb_NetworkInterface s) ≠ "" ∧
            ∀ cidr, cidr ∈ sb_NetworkAllowlistCIDRs s → parse_cidr (TrimSpace cidr) = Some true)) as ->.
  { destruct (String.eqb_spec (sb_NetworkMode s) "allowlist") as [->|Hn]; [|by split].
    rewrite first_some_None, Forall_app, !Forall_cons, Forall_nil, !refuse_if_None, length_eqb_0, blank_spec.
    rewrite negb_false_iff, String.eqb_eq, Forall_map, Forall_forall.
    setoid_rewrite validate_cidr_None. tauto. }
  rewrite String.eqb_neq. split.
  - intros (H1 & H2 & H3 & H4 & H5 & H6 & _). split; [|done]. constructor; [done| |done|done].
    intros HE. rewrite HE in H2, H3. destruct H2 as [|], H3 as [|]; done.
  - intros [[H1 H2 H3 H4] H5]. destruct (sb_Enabled s); naive_solver.
Qed.

End Valid.

Lemma validateServerPort_None cfg :
  validateServerPort cfg = None ↔ sv_Port (cf_Server cfg) = -1 ∨ 1 <= sv_Port (cf_Server cfg) <= 65535.
Proof. unfold validateServerPort. rewrite refuse_if_None. lia. Qed.

Lemma validate_mutations_None i names seen :
  validate_mutations i names seen = None ↔
  NoDup names ∧ ∀ name, name ∈ names → TrimSpace name ≠ "" ∧ isLinearGraphQLMutationName name = true ∧ seen !! name = None.
Proof.
  revert i seen. induction names as [|name names IH]; intros i seen; cbn [validate_mutations].
  - split; [|done]. intros _. split; [constructor|]. intros n Hn. by apply elem_of_nil in Hn.
  - rewrite NoDup_cons. destruct (blank name) eqn:Eb.
    { split; [done|]. intros [_ Hall]. destruct (Hall name (list_elem_of_here _ _)) as (Hb & _).
      by apply blank_spec in Hb; rewrite Hb in Eb. }
    apply blank_spec in Eb. destruct (isLinearGraphQLMutationName name) eqn:En; simpl.
    2: { split; [done|]. intros [_ Hall]. destruct (Hall name (list_elem_of_here _ _)) as (_ & Hn & _). congruence. }
    destruct (seen !! name) eqn:Es.
    { split; [done|]. intros [_ Hall]. destruct (Hall name (list_elem_of_here _ _)) as (_ & _ & Hs). congruence. }
    rewrite IH. split.
    + intros [HN Hall]. split_and!; [|done|].
      * intros Hin. destruct (Hall name Hin) as (_ & _ & Hs). by rewrite lookup_insert_eq in Hs.
      * intros n [->|Hn]%elem_of_cons; [done|]. destruct (Hall n Hn) as (? & ? & Hs). split_and!; [done..|].
        apply lookup_insert_None in Hs. tauto.
    + intros [[Hn HN] Hall]. split; [done|]. intros n Hin.
      destruct (Hall n (list_elem_of_further _ _ _ Hin)) as (? & ? & ?). split_and!; [done..|].
      rewrite lookup_insert_ne; [done|]. by intros ->.
Qed.

Lemma validateAllowedMutations_None cfg :
  validateAllowedMutations cfg = None ↔ mutations_valid (cc_LinearGraphQL (cf_Codex cfg)).
Proof.
  unfold validateAllowedMutations, mutations_valid. set (g := cc_LinearGraphQL _).
  rewrite first_some_None, !Forall_cons, Forall_nil, refuse_if_None, validate_mutations_None.
  setoid_rewrite lookup_empty. rewrite andb_false_iff, !negb_false_iff.
  split.
  - intros ([HN Hall] & Hm & _). split_and!; [done| |].
    + intros n Hn. destruct (Hall n Hn) as (? & ? & _). done.
    + intros Hne. destruct Hm as [Hm|Hm]; [|done]. destruct (lg_AllowedMutations g); done.
  - intros (HN & Hall & Hm). split_and!; [done| | |done].
    + intros n Hn. destruct (Hall n Hn) as [? ?]. done.
    + destruct (lg_AllowedMutations g); [by left|right; by apply Hm].
Qed.
Lemma validateCodexClaude_Timeouts_None cfg :
  (validateCodexClaude cfg = None ∧ validateTimeouts cfg = None) ↔
  commands_valid (cf_Codex cfg) (cf_Claude cfg) ∧
  (hf_TimeoutMs (cf_hookFields cfg) = true → 0 < hk_TimeoutMs (cf_Hooks cfg)).
Proof.
  unfold validateCodexClaude, validateTimeouts.
  rewrite !first_some_None, !Forall_cons, !Forall_nil, !refuse_if_None, !blank_spec, validateAllowedMutations_None.
  rewrite !negb_false_iff, andb_false_iff, Nat.eqb_eq, !length_app.
  assert (∀ (b : bool) (s : string), length (if b then [s] else []) = 0%nat ↔ b = false) as HL by by intros [].
  assert (∀ n m k : nat, (n + (m + k))%nat = 0%nat ↔ n = 0%nat ∧ m = 0%nat ∧ k = 0%nat) as H0 by lia.
  rewrite H0, !HL, !Z.leb_gt, Z.ltb_ge. split.
  - intros ((H1 & H2 & H3 & H4 & H5 & _) & H6 & H7 & _). split; [by constructor|].
    intros Ht. rewrite Ht in H6. by destruct H6.
  - intros [[H1 H2 H3 H4 H5 H6] H7]. split_and!; try done; try tauto.
    destruct (hf_TimeoutMs _); [right; by apply H7|by left].
Qed.

(** ** The caps of the states *)

Lemma validate_caps_None caps seen :
  validate_caps caps seen = None ↔
  (∀ s l, (s, l) ∈ caps → TrimSpace s ≠ "" ∧ 0 < l ∧ seen !! NormalizeStateConcurrencyKey s = None) ∧
  NoDup (map (λ p, NormalizeStateConcurrencyKey p.1) caps).
Proof.
  revert seen. induction caps as [|[s l] caps IH]; intros seen; cbn [validate_caps map].
  - split; [|done]. intros _. split; [intros s l Hn; by apply elem_of_nil in Hn|constructor].
  - rewrite NoDup_cons. set (key := NormalizeStateConcurrencyKey s).
    destruct (blank s) eqn:Eb.
    { split; [done|]. intros [Hall _]. destruct (Hall s l (list_elem_of_here _ _)) as (Hb & _).
      by apply blank_spec in Hb; rewrite Hb in Eb. }
    apply blank_spec in Eb. destruct (Z.leb_spec l 0).
    { split; [done|]. intros [Hall _]. destruct (Hall s l (list_elem_of_here _ _)) as (_ & ? & _). lia. }
    destruct (seen !! key) eqn:Es.
    { split; [done|]. intros [Hall _]. destruct (Hall s l (list_elem_of_here _ _)) as (_ & _ & Hs).
      unfold key in Es. congruence. }
    rewrite IH. simpl. rewrite list_elem_of_fmap. split.
    + intros [Hall HN]. split_and!; [|intros ([s' l'] & Ek & Hin)|done].
      * intros s' l' [[= -> ->]|Hin]%elem_of_cons; [done|].
        destruct (Hall _ _ Hin) as (? & ? & Hs). apply lookup_insert_None in Hs. tauto.
      * destruct (Hall _ _ Hin) as (_ & _ & Hs). apply lookup_insert_None in Hs as [_ Hs]. by apply Hs.
    + intros [Hall [Hk HN]]. split; [|done]. intros s' l' Hin.
      destruct (Hall s' l' (list_elem_of_further _ _ _ Hin)) as (? & ? & ?). split_and!; [done..|].
      rewrite lookup_insert_ne; [done|]. intros Ek. apply Hk. by exists (s', l').
Qed.

Lemma NoDup_map_inj {A B} (f : A → B) (l : list A) :
  NoDup l → NoDup (map f l) ↔ (∀ x y, x ∈ l → y ∈ l → f x = f y → x = y).
Proof.
  induction 1 as [|a l Ha HN IH]; simpl.
  - split; [|constructor]. intros _ x y Hx. by apply elem_of_nil in Hx.
  - rewrite NoDup_cons, IH, list_elem_of_fmap. split.
    + intros [Hn Hi] x y [->|Hx]%elem_of_cons [->|Hy]%elem_of_cons E; [done| | |by apply Hi].
      * destruct Hn. by exists y.
      * destruct Hn. by exists x.
    + intros Hi. split.
      * intros (y & E & Hy). apply Ha. by rewrite (Hi a y (list_elem_of_here _ _) (list_elem_of_further _ _ _ Hy) E).
      * intros x y Hx Hy. apply Hi; by right.
Qed.

Section Caps.
Context `{MapRange}.

Lemma range_order_in n m s l : (s, l) ∈ range_order n m ↔ m !! s = Some l.
Proof. by rewrite range_order_ok, elem_of_map_to_list. Qed.

Lemma validateStateConcurrencyCaps_None cfg :
  validateStateConcurrencyCaps cfg = None ↔ caps_valid (ac_MaxConcurrentAgentsByState (cf_Agent cfg)).
Proof.
  unfold validateStateConcurrencyCaps, caps_valid. set (m := ac_MaxConcurrentAgentsByState _).
  rewrite validate_caps_None. setoid_rewrite range_order_in. setoid_rewrite lookup_empty.
  rewrite <- (map_map fst NormalizeStateConcurrencyKey).
  assert (NoDup (map fst (range_order 0 m))) as HN by (rewrite range_order_ok; apply NoDup_fst_map_to_list).
  assert (∀ s, s ∈ map fst (range_order 0 m) ↔ is_Some (m !! s)) as Hin.
  { intros s. rewrite list_elem_of_fmap. split.
    - intros ([s' l] & -> & Hs). apply range_order_in in Hs. by exists l.
    - intros [l Hl]. exists (s, l). split; [done|]. by apply range_order_in. }
  rewrite (NoDup_map_inj _ _ HN). setoid_rewrite Hin. split.
  - intros [Hall Hi]. split; [|intros s1 s2 ? ?; by apply Hi]. intros s l Hl. destruct (Hall _ _ Hl) as (? & ? & _). done.
  - intros [Hall Hi]. split; [|intros s1 s2 ? ?; by apply Hi]. intros s l Hl. destruct (Hall _ _ Hl) as [? ?]. done.
Qed.
End Caps.

Lemma validateAgentLimits_None `{MapRange} cfg :
  (listed supportedAgentDefaults (ac_Default (cf_Agent cfg)) = true ∧ validateAgentLimits cfg = None) ↔
  agent_valid (cf_Agent cfg).
Proof.
  unfold validateAgentLimits, listed.
  rewrite first_some_None, !Forall_cons, Forall_nil, !refuse_if_None, validateStateConcurrencyCaps_None, existsb_eqb.
  rewrite !Z.leb_gt, !Z.ltb_ge. split.
  - intros (? & ? & ? & ? & ? & ? & ? & ? & _). by constructor.
  - intros []. split_and!; done.
Qed.

(** The validators accept exactly the valid configurations. *)
Lemma validateCoreConfig_None `{MapRange} lookup parse_cidr cfg :
  validateCoreConfig lookup parse_cidr cfg = None ↔ core_valid lookup parse_cidr cfg.
Proof.
  unfold validateCoreConfig. cbn [map].
  rewrite first_some_None, !Forall_cons, Forall_nil, validateSandbox_None, validateServerPort_None.
  unfold validateSupportedValues, validateAgentEnvPassthrough, validateAgentEnvExposure.
  rewrite first_some_None, !Forall_cons, Forall_nil, refuse_if_None, negb_false_iff, !validate_names_None.
  pose proof (validateAgentLimits_None cfg) as HA. pose proof (validateCodexClaude_Timeouts_None cfg) as HC.
  split.
  - intros ((H1 & H2 & H3 & _) & [H4 H5] & H6 & H7 & H8 & H9 & _).
    destruct HA as [HA _], HC as [HC _]. specialize (HA (conj H1 H8)). specialize (HC (conj H7 H9)) as [HC1 HC2].
    by constructor.
  - intros [V1 V2 V3 V4 V5 V6 V7 V8]. destruct HA as [_ HA], HC as [_ HC].
    destruct (HA V1) as [? ?], (HC (conj V4 V5)) as [? ?]. split_and!; done.
Qed.

(** ** The normal form of the caps *)

Lemma str_map_empty f s : str_map f s = "" ↔ s = "".
Proof. by destruct s. Qed.
Lemma state_key_empty s : NormalizeStateConcurrencyKey s = "" ↔ TrimSpace s = "".
Proof. unfold NormalizeStateConcurrencyKey, spaces_to_underscores, ToLower. by rewrite !str_map_empty. Qed.
Lemma state_key_trim s : TrimSpace (NormalizeStateConcurrencyKey s) = NormalizeStateConcurrencyKey s.
Proof. unfold NormalizeStateConcurrencyKey. by rewrite <- (TrimSpace_ToLower s), TrimSpace_underscores. Qed.

Definition add_cap (out : gmap string Z) (p : string * Z) : gmap string Z :=
  let '(state, limit) := p in
  let key := NormalizeStateConcurrencyKey state in
  if String.eqb key "" || (limit <=? 0) then out else <[key := limit]> out.

Lemma add_caps_lookup l out k v :
  NoDup (map (λ p, NormalizeStateConcurrencyKey p.1) l) →
  (∀ s n, (s, n) ∈ l → TrimSpace s ≠ "" ∧ 0 < n) →
  fold_left add_cap l out !! k = Some v ↔
  (∃ s, (s, v) ∈ l ∧ NormalizeStateConcurrencyKey s = k) ∨
  (k ∉ map (λ p, NormalizeStateConcurrencyKey p.1) l ∧ out !! k = Some v).
Proof.
  revert out. induction l as [|[s n] l IH]; intros out HN Hall; cbn [fold_left map].
  - split; [intros Hv; right; split; [by apply not_elem_of_nil|done]|].
    intros [(s & Hs & _)|[_ Hv]]; [by apply elem_of_nil in Hs|done].
  - apply NoDup_cons in HN as [Hk HN]. destruct (Hall s n (list_elem_of_here _ _)) as [Hs Hn].
    rewrite IH; [|done|intros; apply Hall; by right].
    assert (add_cap out (s, n) = <[NormalizeStateConcurrencyKey s := n]> out) as ->.
    { unfold add_cap. destruct (String.eqb_spec (NormalizeStateConcurrencyKey s) "") as [E|_].
      - by apply state_key_empty in E.
      - by destruct (Z.leb_spec n 0); [lia|]. }
    rewrite not_elem_of_cons, lookup_insert_Some. split.
    + intros [(s' & Hin & <-)|[Hnot [[<- <-]|[Hne Hv]]]].
      * left. exists s'. split; [by right|done].
      * left. exists s. split; [by left|done].
      * right. split; [|done]. split; [|done]. by intros ->.
    + intros [(s' & [[= -> ->]|Hin]%elem_of_cons & <-)|[[Hne Hnot] Hv]].
      * right. simpl. auto.
      * left. eauto.
      * right. split; [done|]. right. split; [by apply not_eq_sym|done].
Qed.

Section Order.
Context `{R : MapRange}.

Lemma range_order_keys n m :
  caps_valid m → NoDup (map (λ p, NormalizeStateConcurrencyKey p.1) (range_order n m)).
Proof.
  intros [Hall Hi]. rewrite <- (map_map fst NormalizeStateConcurrencyKey).
  apply NoDup_map_inj; [rewrite range_order_ok; apply NoDup_fst_map_to_list|].
  intros s1 s2 ([? l1] & -> & H1)%list_elem_of_fmap ([? l2] & -> & H2)%list_elem_of_fmap.
  apply range_order_in in H1, H2. apply Hi; by eexists.
Qed.

Lemma normal_caps_lookup n m k v :
  caps_valid m →
  NormalizeStateConcurrencyLimits (range_order n m) !! k = Some v ↔
  ∃ s, m !! s = Some v ∧ NormalizeStateConcurrencyKey s = k.
Proof.
  intros Hm. pose proof (range_order_keys n m Hm) as HN. destruct Hm as [Hall _].
  unfold NormalizeStateConcurrencyLimits. change (fold_left _ ?l ?o) with (fold_left add_cap l o).
  rewrite add_caps_lookup; [|done|intros s l Hin; apply Hall; by apply range_order_in in Hin].
  setoid_rewrite range_order_in. split; [|by left].
  intros [?|[_ E]]; [done|by rewrite lookup_empty in E].
Qed.

Lemma normal_caps_valid n m : caps_valid (NormalizeStateConcurrencyLimits (range_order n m)).
Proof.
  pose proof (NormalizeStateConcurrencyLimits_ok (range_order n m)) as Hok. split.
  - intros k l Hl. destruct (Hok k l Hl) as (? & Hk & E). split; [|done]. by rewrite <- E, state_key_trim, E.
  - intros k1 k2 [l1 H1] [l2 H2]. destruct (Hok _ _ H1) as (_ & _ & ->), (Hok _ _ H2) as (_ & _ & ->). done.
Qed.
End Order.

(** Valid caps have one normal form, whatever the order they are visited in. *)
Lemma normal_caps_order (R1 R2 : MapRange) n1 n2 m :
  caps_valid m →
  NormalizeStateConcurrencyLimits (range_order (MapRange := R1) n1 m) =
  NormalizeStateConcurrencyLimits (range_order (MapRange := R2) n2 m).
Proof.
  intros Hm. apply map_eq. intros k. apply option_eq. intros v. by rewrite !normal_caps_lookup.
Qed.

(** ** Labels *)

Lemma normalize_labels_in labels seen norm :
  norm ∈ normalize_labels labels seen ↔ norm ∉ seen ∧ ∃ label, label ∈ labels ∧ norm = ToLower (TrimSpace label).
Proof.
  revert seen. induction labels as [|label labels IH]; intros seen; cbn [normalize_labels].
  - split; [by intros ?%elem_of_nil|]. intros (_ & ? & ?%elem_of_nil & _). done.
  - case_decide as Hs.
    + rewrite IH. split.
      * intros (? & l & ? & ->). split; [done|]. exists l. split; [by right|done].
      * intros (Hn & l & [->|Hl]%elem_of_cons & ->); [done|]. split; [done|]. eauto.
    + rewrite elem_of_cons, IH. split.
      * intros [->|(Hn & l & Hl & ->)]; [split; [done|]; exists label; split; [by left|done]|].
        split; [set_solver|]. exists l. split; [by right|done].
      * intros (Hn & l & Hl & ->). destruct (decide (ToLower (TrimSpace l) = ToLower (TrimSpace label))) as [E|E]; [by left|].
        right. split; [set_solver|]. apply elem_of_cons in Hl as [->|Hl]; [done|]. eauto.
Qed.
Lemma normalize_labels_NoDup labels seen : NoDup (normalize_labels labels seen).
Proof.
  revert seen. induction labels as [|label labels IH]; intros seen; cbn [normalize_labels]; [constructor|].
  case_decide; [done|]. constructor; [|done]. rewrite normalize_labels_in. set_solver.
Qed.
Lemma normalizeRequiredLabels_in labels norm :
  norm ∈ normalizeRequiredLabels labels ↔ ∃ label, label ∈ labels ∧ norm = ToLower (TrimSpace label).
Proof.
  destruct labels as [|l labels]; [set_solver|]. unfold normalizeRequiredLabels.
  rewrite normalize_labels_in. set_solver.
Qed.
Lemma normalizeRequiredLabels_NoDup labels : NoDup (normalizeRequiredLabels labels).
Proof. destruct labels; [constructor|apply normalize_labels_NoDup]. Qed.

(** ** Admission *)

Section Admission.
Context (lookup : lookup_env) (parse_cidr : string → option bool).

Definition with_profile (cfg : Config) (p : Profiles.Base) : Config :=
  cfg <| cf_Tracker ::= (λ t, t <| tk_Provider := Some (ProviderMap p) |> <| tk_profile := Some p |>) |>.

(** A configuration the loader admits, with the profile of its tracker. *)
Definition admissible (cfg : Config) (p : Profiles.Base) : Prop :=
  tk_Kind (cf_Tracker cfg) ∈ supportedTrackerKinds ∧ TrimSpace (rc_CloneURL (cf_Repo cfg)) ≠ "" ∧
  profiles_Resolve (tk_Kind (cf_Tracker cfg)) (tk_Provider (cf_Tracker cfg)) (rc_Owner (cf_Repo cfg))
    (rc_Name (cf_Repo cfg)) lookup = inr p ∧
  core_valid lookup parse_cidr (with_profile cfg p).

Lemma check_inr r u : check r = inr u ↔ r = None.
Proof. destruct r, u; simpl; by split. Qed.
Lemma bind_result_inr {A B} (m : result A) (k : A → result B) b :
  bind_result m k = inr b ↔ ∃ a, m = inr a ∧ k a = inr b.
Proof. destruct m as [e|a]; simpl; [split; [done|by intros (? & ? & _)]|]. split; [eauto|by intros (? & [= <-] & ?)]. Qed.

Lemma supported_not_blank kind : kind ∈ supportedTrackerKinds → TrimSpace kind ≠ "".
Proof. unfold supportedTrackerKinds. rewrite !elem_of_cons. by intros [->|[->|[->|?%elem_of_nil]]]. Qed.

Lemma validateTrackerAndRepo_None cfg :
  (validateTrackerAndRepo cfg = None ∧ validateSupportedTrackerKind cfg = None) ↔
  tk_Kind (cf_Tracker cfg) ∈ supportedTrackerKinds ∧ TrimSpace (rc_CloneURL (cf_Repo cfg)) ≠ "".
Proof.
  unfold validateTrackerAndRepo, validateSupportedTrackerKind, is_supported_kind.
  rewrite first_some_None, !Forall_cons, Forall_nil, !refuse_if_None, !blank_spec, negb_false_iff, existsb_eqb.
  pose proof (supported_not_blank (tk_Kind (cf_Tracker cfg))). tauto.
Qed.

Lemma admitSnapshot_inr `{MapRange} cfg cfg' :
  admitSnapshot lookup parse_cidr cfg true = inr cfg' ↔
  ∃ p, admissible cfg p ∧ cfg' = normalizeLoadedConfig (with_profile cfg p).
Proof.
  unfold admitSnapshot, admitTrackerProvider. rewrite bind_result_inr.
  setoid_rewrite bind_result_inr. setoid_rewrite bind_result_inr. setoid_rewrite bind_result_inr.
  setoid_rewrite bind_result_inr. setoid_rewrite check_inr. setoid_rewrite validateCoreConfig_None.
  unfold admissible. pose proof (validateTrackerAndRepo_None cfg) as HV. split.
  - intros (cfg2 & (_ & H1 & _ & H2 & cfg1 & H3 & _ & H4 & [= <-]) & [= <-]).
    destruct (profiles_Resolve _ _ _ _ _) as [e|p] eqn:EP; [done|]. injection H3 as <-.
    exists p. split; [|done]. destruct HV as [HV _]. destruct (HV (conj H1 H2)). done.
  - intros (p & (H1 & H2 & H3 & H4) & ->). destruct HV as [_ HV]. destruct (HV (conj H1 H2)) as [H5 H6].
    exists (with_profile cfg p). split; [|done]. exists tt. split; [done|]. exists tt. split; [done|].
    exists (with_profile cfg p). split; [by rewrite H3|]. exists tt. done.
Qed.

(** Normalizing keeps a configuration valid. *)
Lemma normal_valid `{MapRange} cfg :
  core_valid lookup parse_cidr cfg → core_valid lookup parse_cidr (normalizeLoadedConfig cfg).
Proof.
  intros [[]]. constructor; [|done..]. constructor; [done..|]. apply normal_caps_valid.
Qed.

Lemma normal_order (R1 R2 : MapRange) cfg :
  caps_valid (ac_MaxConcurrentAgentsByState (cf_Agent cfg)) →
  normalizeLoadedConfig (H := R1) cfg = normalizeLoadedConfig (H := R2) cfg.
Proof.
  intros Hc. pose proof (normal_caps_order R1 R2 1 1 _ Hc) as E. destruct cfg as [? ? t ? ? ? ? a].
  destruct a, t. unfold normalizeLoadedConfig, set. cbv beta.
  cbn [Config.cf_Agent Config.cf_Tracker Config.ac_MaxConcurrentAgentsByState Config.tk_RequiredLabels] in *. by rewrite E.
Qed.
End Admission.

(** ** Lines *)

Definition no_newline (s : string) : bool := str_all (λ c, negb (byte_is 10 c)) s.
Definition is_fence (line : string) : Prop := TrimRight_eol line = fence.
(** A line of the front matter, with its end. *)
Definition front_line (line : string) : Prop :=
  ¬ is_fence line ∧ ∃ l, line = l +:+ newline ∧ no_newline l = true.
(** A closing fence before [body]: a line with its end, or the last line. *)
Definition closing (close body : string) : Prop :=
  is_fence close ∧ ((∃ l, close = l +:+ newline ∧ no_newline l = true) ∨ no_newline close = true ∧ body = "").

Lemma split_after_last l : no_newline l = true → SplitAfter_newline l = [l].
Proof.
  induction l as [|c l IH]; [done|]. unfold no_newline. cbn [str_all SplitAfter_newline].
  destruct (byte_is 10 c); [done|]. simpl. intros Hl. by rewrite (IH Hl).
Qed.
Lemma split_after_line l t :
  no_newline l = true → SplitAfter_newline (l +:+ newline +:+ t) = (l +:+ newline) :: SplitAfter_newline t.
Proof.
  induction l as [|c l IH]; [done|]. unfold no_newline. rewrite !str_app_cons. cbn [str_all SplitAfter_newline].
  destruct (byte_is 10 c); [done|]. simpl. intros Hl. by rewrite (IH Hl).
Qed.
Lemma first_line s : no_newline s = true ∨ ∃ l t, s = l +:+ newline +:+ t ∧ no_newline l = true.
Proof.
  induction s as [|c s IH]; [by left|]. unfold no_newline. cbn [str_all].
  destruct (byte_is 10 c) eqn:Ec.
  - right. exists "", s. split; [|done]. unfold byte_is in Ec. apply Nat.eqb_eq in Ec.
    unfold newline. rewrite <- (Ascii.ascii_nat_embedding c), Ec. done.
  - simpl. destruct IH as [IH|(l & t & -> & Hl)]; [by left|]. right. exists (String c l), t.
    rewrite !str_app_cons. split; [done|]. cbn [str_all]. by rewrite Ec.
Qed.
Lemma join_split_after s : str_join "" (SplitAfter_newline s) = s.
Proof.
  induction s as [|c s IH]; [done|]. cbn [SplitAfter_newline].
  destruct (SplitAfter_newline s) as [|l ls] eqn:E.
  - destruct (first_line s) as [Hs|(a & b & -> & Ha)]; [by rewrite split_after_last in E|by rewrite split_after_line in E].
  - destruct (byte_is 10 c).
    + cbn [str_join] in IH |- *. by rewrite <- IH at 1.
    + destruct ls; cbn [str_join] in IH |- *; rewrite <- IH; by rewrite ?str_app_cons.
Qed.

Definition text_of (lines : list string) : string := str_join "" lines.
Lemma text_of_cons line lines : text_of (line :: lines) = line +:+ text_of lines.
Proof. unfold text_of. destruct lines; cbn [str_join]; [by rewrite str_app_nil_r|by rewrite str_app_nil]. Qed.

Lemma find_fence_lines lines close body before :
  Forall front_line lines → closing close body →
  find_fence (SplitAfter_newline (text_of lines +:+ close +:+ body)) before = Some (before +:+ text_of lines, body).
Proof.
  intros Hl [Hf Hc]. revert before. induction Hl as [|line lines [Hn (l & -> & Hl)] _ IH]; intros before.
  - unfold text_of. cbn [str_join]. rewrite str_app_nil, str_app_nil_r. unfold is_fence in Hf.
    destruct Hc as [(l & -> & Hl)|[Hl ->]].
    + rewrite <- str_app_assoc, split_after_line by done. cbn [find_fence]. by rewrite Hf, String.eqb_refl, join_split_after.
    + rewrite str_app_nil_r, split_after_last by done. cbn [find_fence]. by rewrite Hf, String.eqb_refl.
  - rewrite text_of_cons, <- !str_app_assoc, split_after_line by done. cbn [find_fence].
    destruct (String.eqb_spec (TrimRight_eol (l +:+ newline)) fence); [done|]. rewrite IH.
    by rewrite <- !str_app_assoc.
Qed.

Lemma find_fence_found n s before front body :
  (String.length s < n)%nat → find_fence (SplitAfter_newline s) before = Some (front, body) →
  ∃ lines close, s = text_of lines +:+ close +:+ body ∧ front = before +:+ text_of lines ∧
    Forall front_line lines ∧ closing close body.
Proof.
  revert s before. induction n as [|n IH]; intros s before Hlen; [lia|].
  destruct (first_line s) as [Hs|(l & t & -> & Hl)].
  - rewrite split_after_last by done. cbn [find_fence].
    destruct (String.eqb_spec (TrimRight_eol s) fence) as [E|]; [|done]. intros [= <- <-].
    exists [], s. unfold text_of. cbn [str_join]. rewrite str_app_nil, !str_app_nil_r. split_and!; [done..|].
    split; [done|]. by right.
  - rewrite split_after_line by done. cbn [find_fence].
    destruct (String.eqb_spec (TrimRight_eol (l +:+ newline)) fence) as [E|E].
    + rewrite join_split_after. intros [= <- <-]. exists [], (l +:+ newline). unfold text_of. cbn [str_join].
      rewrite str_app_nil, str_app_nil_r, <- str_app_assoc. split_and!; [done..|]. split; [done|]. left. eauto.
    + intros H. apply IH in H as (lines & close & -> & -> & HF & Hc).
      2: { rewrite !str_length_app in Hlen. unfold newline in Hlen. simpl in Hlen. lia. }
      exists ((l +:+ newline) :: lines), close. rewrite text_of_cons, <- !str_app_assoc. split_and!; [done..| |done].
      constructor; [|done]. split; [done|]. eauto.
Qed.

Definition opening : string := fence +:+ newline.
Definition opening_crlf : string := fence +:+ carriage_return +:+ newline.

Lemma split_opened s rest :
  HasPrefix s opening = true ∨ HasPrefix s opening_crlf = true →
  TrimPrefix (TrimPrefix s opening_crlf) opening = rest →
  splitFrontMatter s = match find_fence (SplitAfter_newline rest) "" with Some r => r | None => ("", s) end.
Proof.
  intros Ho <-. unfold splitFrontMatter. cbv zeta. fold opening opening_crlf.
  assert (negb (HasPrefix s opening) && negb (HasPrefix s opening_crlf) = false) as ->.
  { destruct Ho as [-> | ->]; [done|]. by rewrite andb_false_r. }
  destruct (find_fence _ _) as [[]|]; done.
Qed.

(** The text does not begin like a fence with a bare end. *)
Lemma front_no_opening lines close body :
  Forall front_line lines → text_of lines ≠ "" → CutPrefix (text_of lines +:+ close +:+ body) opening = None.
Proof.
  intros HF Hn. destruct (CutPrefix _ opening) as [r|] eqn:E; [|done]. exfalso.
  apply CutPrefix_app in E. destruct HF as [|line lines [Hl (l & -> & Hnl)] _]; [done|].
  apply Hl. rewrite text_of_cons, <- !str_app_assoc in E.
  assert (SplitAfter_newline (l +:+ newline +:+ text_of lines +:+ close +:+ body)
          = SplitAfter_newline (fence +:+ newline +:+ r)) as E2.
  { rewrite E. unfold opening. by rewrite <- str_app_assoc. }
  rewrite !split_after_line in E2 by done. injection E2 as E2 _. rewrite E2. done.
Qed.

Lemma cut_wrong_eol r : CutPrefix (opening +:+ r) opening_crlf = None ∧ CutPrefix (opening_crlf +:+ r) opening = None.
Proof. split; reflexivity. Qed.

(** The three ways a front matter may be opened. *)
Definition openings : list string := [opening; opening_crlf; opening_crlf +:+ opening].

Lemma opened_by s rest :
  HasPrefix s opening = true ∨ HasPrefix s opening_crlf = true →
  TrimPrefix (TrimPrefix s opening_crlf) opening = rest → ∃ open, open ∈ openings ∧ s = open +:+ rest.
Proof.
  intros Ho <-. unfold TrimPrefix. destruct Ho as [[r ->]%HasPrefix_spec|[r ->]%HasPrefix_spec].
  - rewrite (proj1 (cut_wrong_eol r)), CutPrefix_of. exists opening. split; [by left|done].
  - rewrite CutPrefix_of. destruct (CutPrefix r opening) as [q|] eqn:Eq.
    + apply CutPrefix_app in Eq as ->. exists (opening_crlf +:+ opening). rewrite str_app_assoc.
      split; [by right; right; left|done].
    + exists opening_crlf. split; [by right; left|done].
Qed.

Lemma split_front_matter_iff s front body :
  front ≠ "" →
  splitFrontMatter s = (front, body) ↔
  ∃ open lines close, open ∈ openings ∧ s = open +:+ text_of lines +:+ close +:+ body ∧ front = text_of lines ∧
    Forall front_line lines ∧ closing close body.
Proof.
  intros Hf. split.
  - intros E. destruct (decide (HasPrefix s opening = true ∨ HasPrefix s opening_crlf = true)) as [Ho|Ho].
    2: { exfalso. unfold splitFrontMatter in E. cbv zeta in E. fold opening opening_crlf in E.
         destruct (HasPrefix s opening); [by destruct Ho; left|]. destruct (HasPrefix s opening_crlf); [by destruct Ho; right|].
         simpl in E. congruence. }
    rewrite (split_opened _ _ Ho eq_refl) in E.
    destruct (find_fence _ _) as [[f b]|] eqn:EF; [|congruence]. injection E as -> ->.
    apply (find_fence_found _ _ _ _ _ (Nat.lt_succ_diag_r _)) in EF as (lines & close & ER & -> & HF & HC).
    rewrite str_app_nil. rewrite str_app_nil in Hf.
    destruct (opened_by _ _ Ho ER) as (open & Hopen & ->).
    exists open, lines, close. split_and!; done.
  - intros (open & lines & close & Ho & -> & -> & HF & HC).
    set (t := text_of lines +:+ close +:+ body).
    assert (CutPrefix t opening = None) as Hcut by by apply front_no_opening.
    assert (TrimPrefix (TrimPrefix (open +:+ t) opening_crlf) opening = t ∧
            (HasPrefix (open +:+ t) opening = true ∨ HasPrefix (open +:+ t) opening_crlf = true)) as [HT HP].
    { unfold TrimPrefix. unfold openings in Ho. rewrite !elem_of_cons in Ho.
      destruct Ho as [->|[->|[->|?%elem_of_nil]]]; [| | |done].
      - rewrite (proj1 (cut_wrong_eol t)), CutPrefix_of. split; [done|]. left. apply HasPrefix_app.
      - rewrite CutPrefix_of, Hcut. split; [done|]. right. apply HasPrefix_app.
      - rewrite <- str_app_assoc, !CutPrefix_of. split; [done|]. right. apply HasPrefix_app. }
    rewrite (split_opened _ _ HP HT). unfold t. by rewrite find_fence_lines by done.
Qed.

(** ** Removed keys *)

(** Every key that is no longer part of the schema, except one value: a codex.command
    that runs [codex exec]. *)
Definition removed_paths : list (list string) :=
  map (λ key, ["codex"; key]) ["profile"] ++
  [["codex"; "approval_policy"; "reject"]] ++
  map (λ key, ["verify"; key]) ["timeout"; "allow_failure"; "env_passthrough"; "secret_scan"] ++
  map (λ key, ["policy"; key]) ["allow_paths"; "deny_paths"; "max_changed_files"; "max_changed_lines"; "max_changed_loc"] ++
  map (λ key, ["agent"; key]) ["policy_violation_budget"] ++
  map (λ key, ["agent"; key]) ["fallback"; "max_retry_attempts"; "max_timeout_retries"] ++
  map (λ key, ["tracker"; key])
    ["api_key"; "endpoint"; "team_key"; "project_slug"; "pagination_max_pages"; "base_url"; "poll_interval_ms"; "statuses"] ++
  map (λ key, ["workspace"; key]) ["hooks"] ++ map (λ key, ["claude"; key]) ["profile"] ++ [["pr"]] ++ [["safety"]].
Definition runs_codex_exec (raw : any_map) : Prop :=
  ∃ codex command, section raw "codex" = Some codex ∧ map_get codex "command" = AString command ∧
    commandRunsCodexExec command = true.

Lemma section_has raw name m : section raw name = Some m → map_has raw name = true.
Proof.
  unfold section, map_get, map_has. destruct raw as [raw|]; [|done].
  destruct (assoc raw name) as [v|]; simpl; [done|]. done.
Qed.
Lemma has_path_cons raw name path :
  path ≠ [] → has_path (AMap raw) (name :: path) = match section raw name with Some m => has_path (AMap m) path | None => false end.
Proof.
  intros Hp. change (map_has raw name && has_path (map_get raw name) path
    = match section raw name with Some m => has_path (AMap m) path | None => false end).
  destruct (section raw name) as [m|] eqn:E.
  - rewrite (section_has _ _ _ E). unfold section in E. by destruct (map_get raw name); simplify_eq/=.
  - destruct path as [|p path]; [done|]. unfold section in E. rewrite andb_comm.
    destruct (map_get raw name); simplify_eq/=; done.
Qed.
Lemma has_path_key raw key : has_path (AMap raw) [key] = map_has raw key.
Proof. cbn. by rewrite andb_true_r. Qed.

Lemma reject_keys_None m prefix keys : reject_keys m prefix keys = None ↔ Forall (λ key, has_path (AMap m) [key] = false) keys.
Proof.
  unfold reject_keys. induction keys as [|key keys IH]; [by split|]. cbn [List.find].
  rewrite Forall_cons, has_path_key. destruct (map_has m key); [by split; [|intros []]|]. rewrite IH. tauto.
Qed.
Lemma reject_in_None raw name keys :
  reject_in raw name keys = None ↔ Forall (λ path, has_path (AMap raw) path = false) (map (λ key, [name; key]) keys).
Proof.
  unfold reject_in. rewrite Forall_map.
  destruct (section raw name) as [m|] eqn:E.
  - rewrite reject_keys_None. apply Forall_iff. intros key. by rewrite (has_path_cons raw name [key]), E.
  - split; [intros _|done]. apply Forall_forall. intros key _. by rewrite (has_path_cons raw name [key]), E.
Qed.

Lemma codex_fields_None raw :
  rejectRemovedCodexFields raw = None ↔
  Forall (λ path, has_path (AMap raw) path = false) (map (λ key, ["codex"; key]) ["profile"]) ∧
  ¬ runs_codex_exec raw ∧ has_path (AMap raw) ["codex"; "approval_policy"; "reject"] = false.
Proof.
  unfold rejectRemovedCodexFields, runs_codex_exec. rewrite Forall_map, Forall_cons, Forall_nil.
  rewrite !(has_path_cons raw "codex") by done.
  destruct (section raw "codex") as [codex|] eqn:E.
  - rewrite first_some_None, !Forall_cons, !Forall_nil, reject_keys_None, Forall_cons, Forall_nil.
    rewrite (has_path_cons codex "approval_policy") by done.
    assert (match map_get codex "command" with
            | AString command => if commandRunsCodexExec command then Some (FieldRemoved "codex.command") else None
            | _ => None
            end = None ↔ ¬ ∃ c command, Some codex = Some c ∧ map_get c "command" = AString command ∧
                         commandRunsCodexExec command = true) as ->.
    { split.
      - intros H (c & command & [= <-] & Ec & Ex). by rewrite Ec, Ex in H.
      - intros H. destruct (map_get codex "command") as [|command| | | | | | | | |] eqn:Ec; try done.
        destruct (commandRunsCodexExec command) eqn:Ex; [|done]. destruct H. eauto. }
    assert (match section codex "approval_policy" with
            | Some approval => reject_keys approval "codex.approval_policy." ["reject"] | None => None end = None ↔
            match section codex "approval_policy" with Some m => has_path (AMap m) ["reject"] | None => false end = false) as ->.
    { destruct (section codex "approval_policy"); [|done]. rewrite reject_keys_None, Forall_cons, Forall_nil. tauto. }
    tauto.
  - split; [|done]. intros _. split_and!; [done..| |done].
    by intros (? & ? & ? & _).
Qed.

Lemma rejectRemovedFields_None `{Yaml} front raw :
  unmarshal_map front = Some raw →
  rejectRemovedFields front = None ↔
  (∀ path, path ∈ removed_paths → hasNestedKey front path = false) ∧ ¬ runs_codex_exec raw.
Proof.
  intros Hraw. unfold rejectRemovedFields, hasNestedKey. rewrite Hraw, <- Forall_forall.
  unfold rejectRemovedVerifyFields, rejectRemovedPolicyFields, rejectRemovedTrackerFields, rejectRemovedWorkspaceFields,
    rejectRemovedMiscFields, rejectRemovedAgentFields.
  assert (∀ key, (if map_has raw key then Some (FieldRemoved key) else None) = None ↔ has_path (AMap raw) [key] = false) as HK.
  { intros key. rewrite has_path_key. by destruct (map_has raw key). }
  rewrite !first_some_None, !Forall_cons, !Forall_nil, codex_fields_None, !first_some_None, !Forall_cons, !Forall_nil.
  rewrite !reject_in_None, !HK. unfold removed_paths. rewrite !Forall_app, !(Forall_cons _ [_]), !(Forall_cons _ [_; _; _]), !Forall_nil.
  cbn [app]. tauto.
Qed.

(** ** What the expansion keeps and sets *)

Section Expansion.
Context (lookup : lookup_env) (home : option string).

Lemma expand_inr path cfg cfg' :
  expandConfigForWorkflowPath lookup home path cfg = inr cfg' →
  ∃ repo root codexCommand claudeCommand credentials,
    expandRepoConfig lookup "repo.clone_url" (cf_Repo cfg) = inr repo ∧
    normalizeWorkflowPath lookup home path (wc_Root (cf_Workspace cfg)) = inr root ∧
    cfg' = cfg
      <| cf_Repo := repo |>
      <| cf_Workspace ::= (λ w, w <| wc_Root := root |>) |>
      <| cf_Codex ::= (λ c, expand_codex (c <| cc_Command := codexCommand |>)) |>
      <| cf_Claude ::= (λ c, c <| cc_Command := claudeCommand |>) |>
      <| cf_Sandbox ::= (λ s, expand_sandbox (s <| sb_CredentialFiles := credentials |>)) |>
      <| cf_Agent ::= expand_agent |>
      <| cf_PollingIntervalMs ::= (λ p, if p <=? 0 then 30000 else p) |>.
Proof.
  unfold expandConfigForWorkflowPath. intros (repo & HR & H)%bind_result_inr.
  apply bind_result_inr in H as (root & HW & H). apply bind_result_inr in H as (c1 & _ & H).
  apply bind_result_inr in H as (c2 & _ & H). apply bind_result_inr in H as (files & _ & [= <-]).
  by exists repo, root, c1, c2, files.
Qed.

Lemma normalizeWorkflowPath_abs path p root :
  IsAbs path = true → normalizeWorkflowPath lookup home path p = inr root → root = "" ∨ IsAbs root = true.
Proof.
  intros Ha. unfold normalizeWorkflowPath. intros (resolved & _ & H)%bind_result_inr. revert H.
  pose proof (proj1 (Join_clean_abs (Dir path) [expandPath home resolved] (proj1 (Dir_clean_abs path Ha)))) as HJ.
  set (joined := Join _) in *. clearbody joined. intros [= <-].
  destruct (String.eqb_spec (expandPath home resolved) ""); [by left|]. right.
  destruct (IsAbs (expandPath home resolved)) eqn:E; [done|].
  by destruct (String.eqb_spec path "") as [->|_].
Qed.

Lemma expand_codex_policy c :
  cc_ThreadSandbox (expand_codex c) ≠ "" ∧
  cc_turnSandboxPolicySet (expand_codex c) = cc_turnSandboxPolicySet c ∧
  cc_TurnSandboxPolicy (expand_codex c) =
    if shouldDeriveTurnSandboxPolicy c then defaultTurnSandboxPolicyForThread (cc_ThreadSandbox (expand_codex c))
    else cc_TurnSandboxPolicy c.
Proof.
  destruct c as [? ? ap th pol set ? ? ? ?]. unfold expand_codex, shouldDeriveTurnSandboxPolicy. cbn.
  destruct (String.eqb_spec th "") as [->|Hn]; cbn; destruct (negb set || CodexSandboxPolicy_IsZero pol); cbn;
    destruct (is_nil ap); cbn; split_and!; done.
Qed.
End Expansion.

(** A load from a file's text: the steps that succeeded. *)
Section LoadText.
Context `{Y : Yaml} `{R : MapRange} (lookup : lookup_env) (home : option string) (parse_cidr : string → option bool).

Lemma restore_caps cfg caps :
  caps = ac_MaxConcurrentAgentsByState (cf_Agent cfg) →
  cfg <| cf_Agent ::= (λ a, a <| ac_MaxConcurrentAgentsByState := caps |>) |> = cfg.
Proof. intros ->. by destruct cfg as [? ? ? ? ? ? ? []]. Qed.

Lemma expand_agent_caps a : ac_MaxConcurrentAgentsByState (expand_agent a) = ac_MaxConcurrentAgentsByState a.
Proof. destruct a. unfold expand_agent. cbn. by repeat (case_match; cbn). Qed.
Lemma default_turns_caps cfg b front :
  ac_MaxConcurrentAgentsByState (cf_Agent (defaultAgentMaxContinuationTurns cfg b front)) =
  ac_MaxConcurrentAgentsByState (cf_Agent cfg).
Proof. unfold defaultAgentMaxContinuationTurns. by destruct (_ && _). Qed.

Lemma load_text_inr path text defaults wf :
  load_text lookup home parse_cidr path text defaults = inr wf →
  let front := (splitFrontMatter text).1 in
  let has := has_front_matter front in
  wl_Path wf = path ∧ wl_PromptTemplate wf = TrimSpace (splitFrontMatter text).2 ∧
  wl_Source wf = (if has then SourceFile else SourcePromptOnly) ∧
  ∃ cfg0 cfg1,
    (if has then decode_front front defaults else inr defaults) = inr cfg0 ∧
    expandConfigForWorkflowPath lookup home path (defaultAgentMaxContinuationTurns cfg0 has front) = inr cfg1 ∧
    admitSnapshot lookup parse_cidr cfg1 has = inr (wl_Config wf).
Proof.
  unfold load_text. destruct (splitFrontMatter text) as [front body]. cbv zeta.
  intros (cfg0 & E0 & H)%bind_result_inr. apply bind_result_inr in H as (cfg1 & E1 & H).
  apply bind_result_inr in H as (cfg & E2 & [= <-]). cbn [fst snd wl_Path wl_PromptTemplate wl_Source wl_Config].
  split_and!; [done..|]. exists cfg0, cfg1. split_and!; [done..|].
  destruct (has_front_matter front && _) in E2; [|done]. rewrite restore_caps in E2; [done|].
  apply expand_inr in E1 as (? & ? & ? & ? & ? & _ & _ & ->). cbn. by rewrite expand_agent_caps, default_turns_caps.
Qed.

Lemma decode_front_inr front defaults cfg :
  decode_front front defaults = inr cfg →
  rejectRemovedFields front = None ∧
  (∃ tag entries rest, unmarshal_node front = Some (MappingNode tag entries :: rest)) ∧
  cc_turnSandboxPolicySet (cf_Codex cfg) = hasNestedKey front ["codex"; "turn_sandbox_policy"] ∧
  wc_rootSet (cf_Workspace cfg) = hasNestedKey front ["workspace"; "root"] ∧
  cf_hookFields cfg = hookFieldPresence front ["hooks"].
Proof.
  unfold decode_front, validateFrontMatterRoot.
  destruct (unmarshal_node front) as [[|[] rest]|]; try done.
  destruct (rejectRemovedFields front); [done|]. destruct (unmarshal_config _ _ _ _); [done|].
  intros [= <-]. split_and!; try done. eauto.
Qed.

(** The last step changes the caps, the labels and the tracker's profile only. *)
Lemma admitSnapshot_keeps cfg has cfg' :
  admitSnapshot lookup parse_cidr cfg has = inr cfg' →
  cf_Codex cfg' = cf_Codex cfg ∧ cf_Workspace cfg' = cf_Workspace cfg ∧ cf_Repo cfg' = cf_Repo cfg ∧
  cf_hookFields cfg' = cf_hookFields cfg.
Proof.
  destruct has.
  - intros (p & _ & ->)%admitSnapshot_inr. done.
  - by intros [= <-].
Qed.
Lemma default_turns_keeps cfg b front :
  cf_Codex (defaultAgentMaxContinuationTurns cfg b front) = cf_Codex cfg ∧
  cf_Workspace (defaultAgentMaxContinuationTurns cfg b front) = cf_Workspace cfg ∧
  cf_hookFields (defaultAgentMaxContinuationTurns cfg b front) = cf_hookFields cfg.
Proof. unfold defaultAgentMaxContinuationTurns. by destruct (_ && _). Qed.

(** What holds of the configuration of a file with a front matter. *)
Record admitted (path front : string) (cfg : Config) : Prop := {
  adm_mapping : ∃ tag entries rest, unmarshal_node front = Some (MappingNode tag entries :: rest);
  adm_removed : ∀ path, path ∈ removed_paths → hasNestedKey front path = false;
  adm_tracker : tk_Kind (cf_Tracker cfg) ∈ supportedTrackerKinds ∧ TrimSpace (rc_CloneURL (cf_Repo cfg)) ≠ "" ∧
    ∃ provider p, profiles_Resolve (tk_Kind (cf_Tracker cfg)) provider (rc_Owner (cf_Repo cfg)) (rc_Name (cf_Repo cfg)) lookup = inr p ∧
      tk_profile (cf_Tracker cfg) = Some p ∧ tk_Provider (cf_Tracker cfg) = Some (ProviderMap p);
  adm_valid : core_valid lookup parse_cidr cfg;
  adm_caps : ∀ state limit, ac_MaxConcurrentAgentsByState (cf_Agent cfg) !! state = Some limit →
    0 < limit ∧ state ≠ "" ∧ NormalizeStateConcurrencyKey state = state;
  adm_labels : NoDup (tk_RequiredLabels (cf_Tracker cfg)) ∧
    ∀ label, label ∈ tk_RequiredLabels (cf_Tracker cfg) → ToLower (TrimSpace label) = label;
  adm_root : IsAbs path = true → wc_Root (cf_Workspace cfg) = "" ∨ IsAbs (wc_Root (cf_Workspace cfg)) = true
}.

Lemma load_text_admitted path text defaults wf :
  load_text lookup home parse_cidr path text defaults = inr wf →
  has_front_matter (splitFrontMatter text).1 = true →
  admitted path (splitFrontMatter text).1 (wl_Config wf).
Proof.
  intros (_ & _ & _ & cfg0 & cfg1 & E0 & E1 & E2)%load_text_inr Hhas. rewrite Hhas in E0, E1, E2.
  apply decode_front_inr in E0 as (HR & HM & _ & _ & _).
  pose proof (admitSnapshot_keeps _ _ _ E2) as (_ & HW & _ & _).
  apply admitSnapshot_inr in E2 as (p & (HK & HU & HP & HV) & EC).
  apply expand_inr in E1 as (repo & root & c1 & c2 & files & _ & Hroot & E1).
  rewrite EC in HW |- *. constructor.
  - done.
  - destruct (unmarshal_map (splitFrontMatter text).1) as [raw|] eqn:Eraw.
    + by apply (rejectRemovedFields_None _ raw).
    + intros q _. unfold hasNestedKey. by rewrite Eraw.
  - split_and!; [done..|]. by exists (tk_Provider (cf_Tracker cfg1)), p.
  - by apply normal_valid.
  - apply NormalizeStateConcurrencyLimits_ok.
  - split; [apply normalizeRequiredLabels_NoDup|]. intros label (l & _ & ->)%normalizeRequiredLabels_in.
    by rewrite TrimSpace_ToLower, TrimSpace_idem, ToLower_idem.
  - intros Ha. rewrite HW, E1. by apply (normalizeWorkflowPath_abs _ _ _ _ _ Ha Hroot).
Qed.
End LoadText.

(** ** Theorems *)

(** What a load returns.  [Load] reads the file once.  A workflow it returns has the
    prompt of the file; when the file has a front matter, that is a YAML mapping without
    any removed key, and the configuration is valid as a whole: a supported tracker whose
    profile resolved, a clone URL, positive limits, a sandbox that is consistent, no
    tracker secret among the names passed to a child, caps under canonical keys, and an
    absolute workspace root (or none) when the file's path is absolute. *)
Theorem load_admits `{Yaml} `{MapRange} lookup home parse_cidr os past path log wf :
  exec os past (Load lookup home parse_cidr path) = (log, inr wf) →
  ∃ text tempdir, log = past ++ [Ev (ReadFile path) (inr text); Ev TempDir tempdir] ∧
    wl_Path wf = path ∧ wl_PromptTemplate wf = TrimSpace (splitFrontMatter text).2 ∧
    if has_front_matter (splitFrontMatter text).1
    then wl_Source wf = SourceFile ∧ admitted lookup parse_cidr path (splitFrontMatter text).1 (wl_Config wf)
    else wl_Source wf = SourcePromptOnly.
Proof.
  unfold Load. cbn [prog_bind call exec]. destruct (os _ past (ReadFile path)) as [e|text] eqn:ER; [by destruct e|].
  cbn [exec prog_bind]. set (tempdir := os _ _ TempDir). intros [= <- E]. exists text, tempdir.
  rewrite <- app_assoc. pose proof (load_text_inr _ _ _ _ _ _ _ E) as (H1 & H2 & H3 & _).
  split_and!; [done..|]. destruct (has_front_matter _) eqn:EH; [|done]. split; [done|].
  by apply (load_text_admitted _ home _ path text (DefaultConfig tempdir) wf).
Qed.

(** C33: admission is exact.  A configuration with a front matter is admitted exactly when it
    is valid with the profile its tracker resolves to, and then in one normal form: the
    order in which Go visits the map of caps changes neither the verdict nor the result. *)
Theorem admission_exact (R1 R2 : MapRange) lookup parse_cidr cfg cfg' :
  admitSnapshot (H := R1) lookup parse_cidr cfg true = inr cfg' ↔
  ∃ p, admissible lookup parse_cidr cfg p ∧ cfg' = normalizeLoadedConfig (H := R2) (with_profile cfg p).
Proof.
  rewrite admitSnapshot_inr. split; intros (p & Hp & ->); exists p; (split; [done|]);
    apply normal_order; apply agent_caps, valid_agent with lookup parse_cidr, Hp.
Qed.

(** The split of a workflow file.  A front matter is found exactly when the file is an
    opening fence, lines that are no fence, a closing fence, and the body; the lines in
    between are the front matter, and text in them that only contains a fence does not
    end it.  Otherwise the whole file is the body, or what follows an empty front matter. *)
Theorem front_matter_split s front body :
  (front ≠ "" ∧ splitFrontMatter s = (front, body) ↔
   front ≠ "" ∧ ∃ open lines close, open ∈ openings ∧ s = open +:+ text_of lines +:+ close +:+ body ∧
     front = text_of lines ∧ Forall front_line lines ∧ closing close body) ∧
  (splitFrontMatter s = ("", body) → body = s ∨ ∃ open close, open ∈ openings ∧ s = open +:+ close +:+ body ∧ closing close body).
Proof.
  split.
  - split; intros [Hf H]; (split; [done|]); by apply split_front_matter_iff.
  - intros E. destruct (decide (HasPrefix s opening = true ∨ HasPrefix s opening_crlf = true)) as [Ho|Ho].
    2: { left. unfold splitFrontMatter in E. cbv zeta in E. fold opening opening_crlf in E.
         destruct (HasPrefix s opening); [by destruct Ho; left|]. destruct (HasPrefix s opening_crlf); [by destruct Ho; right|].
         simpl in E. congruence. }
    rewrite (split_opened _ _ Ho eq_refl) in E. destruct (find_fence _ _) as [[f b]|] eqn:EF; [|left; congruence].
    injection E as -> ->. right. apply (find_fence_found _ _ _ _ _ (Nat.lt_succ_diag_r _)) in EF as (lines & close & ER & E0 & HF & HC).
    assert (text_of lines = "") as El by by rewrite str_app_nil in E0. rewrite El, str_app_nil in ER.
    destruct (opened_by s _ Ho ER) as (open & Hopen & ->). by exists open, close.
Qed.

(** The sandbox of a turn.  After a load the sandbox of a thread has a value, and unless
    the workflow sets codex.turn_sandbox_policy, the policy of a turn is the one the
    thread's sandbox stands for; so full access needs either thread_sandbox:
    danger-full-access or an explicit policy. *)
Theorem turn_sandbox_from_thread `{Yaml} `{MapRange} lookup home parse_cidr path text tempdir wf :
  load_text lookup home parse_cidr path text (DefaultConfig tempdir) = inr wf →
  let codex := cf_Codex (wl_Config wf) in
  let front := (splitFrontMatter text).1 in
  let explicit := has_front_matter front && hasNestedKey front ["codex"; "turn_sandbox_policy"] in
  cc_ThreadSandbox codex ≠ "" ∧
  (explicit = false → cc_TurnSandboxPolicy codex = defaultTurnSandboxPolicyForThread (cc_ThreadSandbox codex)) ∧
  (sp_Type (cc_TurnSandboxPolicy codex) = CodexSandboxDangerFullAccess →
   cc_ThreadSandbox codex = "danger-full-access" ∨ explicit = true).
Proof.
  intros (_ & _ & _ & cfg0 & cfg1 & E0 & E1 & E2)%load_text_inr. cbv zeta.
  set (front := (splitFrontMatter text).1) in *. set (explicit := _ && hasNestedKey _ _).
  apply admitSnapshot_keeps in E2 as (-> & _). apply expand_inr in E1 as (repo & root & c1 & c2 & files & _ & _ & ->).
  destruct (default_turns_keeps cfg0 (has_front_matter front) front) as (EC & _).
  cbn -[expand_codex]. rewrite EC. set (c := (cf_Codex cfg0) <| cc_Command := c1 |>).
  destruct (expand_codex_policy c) as (Ht & _ & Hp).
  assert (cc_turnSandboxPolicySet c = explicit) as Hset.
  { unfold explicit. destruct (has_front_matter front).
    - by apply decode_front_inr in E0 as (_ & _ & ? & _).
    - by injection E0 as <-. }
  assert (explicit = false → cc_TurnSandboxPolicy (expand_codex c)
          = defaultTurnSandboxPolicyForThread (cc_ThreadSandbox (expand_codex c))) as Hd.
  { intros He. rewrite Hp. unfold shouldDeriveTurnSandboxPolicy. by rewrite Hset, He. }
  split_and!; [done|done|]. destruct explicit; [by right|]. rewrite Hd by done. left.
  unfold defaultTurnSandboxPolicyForThread in *.
  destruct (String.eqb_spec (cc_ThreadSandbox (expand_codex c)) "danger-full-access"); [done|].
  by destruct (String.eqb_spec (cc_ThreadSandbox (expand_codex c)) "read-only").
Qed.

Lemma normal_nothing `{MapRange} cfg :
  ac_MaxConcurrentAgentsByState (cf_Agent cfg) = ∅ → tk_RequiredLabels (cf_Tracker cfg) = [] →
  normalizeLoadedConfig cfg = cfg.
Proof.
  intros HA HL. pose proof (range_order_ok 1 (ac_MaxConcurrentAgentsByState (cf_Agent cfg))) as HR.
  rewrite HA, map_to_list_empty in HR. symmetry in HR. apply Permutation_nil in HR.
  assert (NormalizeStateConcurrencyLimits (range_order 1 (ac_MaxConcurrentAgentsByState (cf_Agent cfg)))
          = ac_MaxConcurrentAgentsByState (cf_Agent cfg)) as E by by rewrite HA, HR.
  clear HA HR. destruct cfg as [? ? t ? ? ? ? a], t, a.
  unfold normalizeLoadedConfig, set. cbv beta. cbn [Config.cf_Agent Config.cf_Tracker Config.ac_MaxConcurrentAgentsByState Config.tk_RequiredLabels] in *.
  by rewrite E, HL.
Qed.

Lemma abs_no_reference p : IsAbs p = true → explicitEnvReferenceName p = ("", false) ∧ HasPrefix p "~/" = false.
Proof.
  unfold explicitEnvReferenceName, HasPrefix. destruct p as [|c p]; [done|].
  intros Hc. change (byte_is 47 c = true) in Hc. apply Nat.eqb_eq in Hc.
  assert (c = Ascii.ascii_of_nat 47) as -> by by rewrite <- Hc, Ascii.ascii_nat_embedding.
  done.
Qed.

(** a file without a front matter always loads: its text is the prompt, and the
    configuration is the default one with the default branch. *)
Theorem prompt_only_loads `{Yaml} `{MapRange} lookup home parse_cidr path text tempdir :
  has_front_matter (splitFrontMatter text).1 = false → IsAbs tempdir = true →
  load_text lookup home parse_cidr path text (DefaultConfig tempdir) =
  inr {| wl_Path := path; wl_PromptTemplate := TrimSpace (splitFrontMatter text).2; wl_Source := SourcePromptOnly;
         wl_Config := (DefaultConfig tempdir) <| cf_Repo ::= (λ r, r <| rc_DefaultBranch := "main" |>) |> |}.
Proof.
  intros Hf Ht. unfold load_text. destruct (splitFrontMatter text) as [front body]. cbn [fst snd] in *. rewrite Hf.
  assert (expandConfigForWorkflowPath lookup home path (DefaultConfig tempdir) =
          inr ((DefaultConfig tempdir) <| cf_Repo ::= (λ r, r <| rc_DefaultBranch := "main" |>) |>)) as E.
  { assert (normalizeWorkflowPath lookup home path (defaultWorkspaceRoot tempdir) = inr (defaultWorkspaceRoot tempdir)) as EW.
    { pose proof (proj1 (Join_clean_abs tempdir ["symphony_workspaces"] Ht)) as HJ. unfold defaultWorkspaceRoot.
      set (root := Join _) in *. clearbody root. destruct (abs_no_reference root HJ) as [HE HH].
      assert (expandPath home root = root) as EP by (unfold expandPath; rewrite HH; by destruct (String.eqb root "")).
      unfold normalizeWorkflowPath, resolveExplicitEnv. rewrite HE. cbn [bind_result]. cbv zeta.
      by rewrite EP, HJ, orb_true_r. }
    unfold expandConfigForWorkflowPath. cbn -[normalizeWorkflowPath defaultWorkspaceRoot]. rewrite EW. reflexivity. }
  cbn [bind_result andb]. unfold defaultAgentMaxContinuationTurns. cbn [andb].
  change ((DefaultConfig tempdir) <| cf_Agent ::= (λ a, a <| ac_MaxContinuationTurns := ac_MaxTurns a |>) |>) with (DefaultConfig tempdir).
  rewrite E. cbn [bind_result]. unfold admitSnapshot. cbn [bind_result].
  by rewrite normal_nothing.
Qed.

(** ** An execution

    A library that knows one document, and the file that holds it. *)

Definition demo_front : string := "tracker: the demo workflow" +:+ newline.
Definition demo_file : string :=
  fence +:+ newline +:+ demo_front +:+ fence +:+ newline +:+ "Fix {{ issue.title }}." +:+ newline.

Definition demo_config (cfg : Config) : Config := cfg
  <| cf_Repo := Build_RepoConfig "acme" "widgets" "https://git.example/acme/widgets.git" "" |>
  <| cf_Tracker ::= (λ t, t <| tk_Kind := "gitea" |> <| tk_Provider := Some {["token" := PString "s3cret"]} |>
       <| tk_RequiredLabels := [" Agent "; "agent"] |>) |>
  <| cf_Agent ::= (λ a, a <| ac_MaxConcurrentAgentsByState := {["In Progress" := 2]} |>) |>
  <| cf_Codex ::= (λ c, c <| cc_ThreadSandbox := "read-only" |>) |>.

#[local] Instance demo_yaml : Yaml := {|
  decode_string n := Some (node_Value n);
  decode_bool n := Some (String.eqb (node_Value n) "true");
  decode_strings _ := Some [];
  decode_commands _ := Some [];
  unmarshal_node s := if String.eqb s demo_front then Some [MappingNode "!!map" []] else None;
  unmarshal_map s :=
    if String.eqb s demo_front
    then Some (Some [("tracker", AMap (Some [("kind", AString "gitea")])); ("codex", AMap (Some [("thread_sandbox", AString "read-only")]))])
    else None;
  unmarshal_config _ _ s cfg := if String.eqb s demo_front then inr (demo_config cfg) else inl YamlFailed
|}.
#[local] Instance demo_range : MapRange :=
  {| range_order _ m := map_to_list m; range_order_ok _ m := Permutation_refl _ |}.
Definition demo_files : OS := fun B past c =>
  match c in Sys B return B with
  | ReadFile _ => inr demo_file
  | c => quiet_os _ past c
  end.
Definition read_text (e : Event) : option string :=
  let '(Ev c b) := e in
  match c in Sys B return B → option string with
  | ReadFile _ => λ r, match r with inr text => Some text | inl _ => None end
  | _ => λ _, None
  end b.
Definition demo_lookup (_ : string) : option string := None.
Definition demo_cidr (_ : string) : option bool := None.

Lemma load_admits_witness :
  ∃ log wf, exec demo_files [] (Load demo_lookup None demo_cidr "/srv/WORKFLOW.md") = (log, inr wf) ∧
    wl_Source wf = SourceFile ∧ admitted demo_lookup demo_cidr "/srv/WORKFLOW.md" demo_front (wl_Config wf).
Proof.
  destruct (exec demo_files [] (Load demo_lookup None demo_cidr "/srv/WORKFLOW.md")) as [log [e|wf]] eqn:E.
  - exfalso. vm_compute in E. discriminate.
  - exists log, wf. split; [done|]. destruct (load_admits _ _ _ _ _ _ _ _ E) as (text & tempdir & EL & _ & _ & H).
    assert (text = demo_file) as ->.
    { apply (f_equal (λ r, map read_text r.1)) in E. rewrite EL in E. vm_compute in E. by injection E. }
    exact H.
Defined.

Lemma turn_sandbox_from_thread_witness :
  ∃ wf, load_text demo_lookup None demo_cidr "/srv/WORKFLOW.md" demo_file (DefaultConfig "/tmp") = inr wf ∧
    cc_TurnSandboxPolicy (cf_Codex (wl_Config wf)) = defaultTurnSandboxPolicyForThread (cc_ThreadSandbox (cf_Codex (wl_Config wf))).
Proof.
  destruct (load_text demo_lookup None demo_cidr "/srv/WORKFLOW.md" demo_file (DefaultConfig "/tmp")) as [e|wf] eqn:E.
  - exfalso. vm_compute in E. discriminate.
  - exists wf. split; [done|]. apply (turn_sandbox_from_thread _ _ _ _ _ _ _ E). reflexivity.
Defined.

(** A file that opens with a CRLF fence and closes with a bare one at once: the closing
    fence is taken for a part of the opening, and the whole file becomes the prompt. *)
Example mixed_fences_kept :
  let body := "Fix it." in
  splitFrontMatter (opening +:+ opening +:+ body) = ("", body) ∧
  splitFrontMatter (opening_crlf +:+ opening_crlf +:+ body) = ("", body) ∧
  splitFrontMatter (opening_crlf +:+ opening +:+ body) = ("", opening_crlf +:+ opening +:+ body).
Proof. vm_compute. auto. Qed.
