(* ===== verification/TrackerErrors.v ===== *)
(** * Errors and rate limits of the tracker adapters

    The categories of internal/tracker/linear.go, the stop rule of tracker.go, and the
    retry hint of ratelimit.go: a Retry-After header in seconds or as a date, saturated at
    the largest duration, with the epoch of X-RateLimit-Reset as the fallback.  An error is
    the list of what [errors.Is] and [errors.As] find in it; messages are not modelled.
    net/http's date parser is an argument. *)

From S2P Require Import Prelude Payload GoStd.

(** * Clients of a remote service

    A tracker client is a program over requests: [Asking] is its syntax, for any type of
    requests [Q] with an answer type each.  A server answers a request in view of the
    exchanges before; [run] yields the log of exchanges and the result.  [holds] is the
    logic of such programs: every request is allowed by [G], which sees the log, and the
    postcondition holds of the log and the result. *)


Inductive Asking {Q : Type} (An : Q → Type) (A : Type) : Type :=
| Ret (a : A)
| Ask (q : Q) (k : An q → Asking An A).
Arguments Ret {Q An A} a.
Arguments Ask {Q An A} q k.

Section Programs.
Context {Q : Type} {An : Q → Type}.

Fixpoint ask_bind {A B} (p : Asking An A) (f : A → Asking An B) : Asking An B :=
  match p with Ret a => f a | Ask q k => Ask q (fun b => ask_bind (k b) f) end.
Definition ask (q : Q) : Asking An (An q) := Ask q Ret.
(** A program that may return an error. *)
Definition ask_or_fail {E A B} (p : Asking An (E + A)) (f : A → Asking An (E + B)) : Asking An (E + B) :=
  ask_bind p (fun r => match r with inl e => Ret (inl e) | inr a => f a end).

(** One exchange, the log, and a server. *)
Inductive Exchange := Ex (q : Q) (a : An q).
Definition Server := list Exchange → ∀ q, An q.
Fixpoint run {A} (srv : Server) (log : list Exchange) (p : Asking An A) : list Exchange * A :=
  match p with
  | Ret a => (log, a)
  | Ask q k => let a := srv log q in run srv (log ++ [Ex q a]) (k a)
  end.

Definition Allowed := list Exchange → Q → Prop.
Fixpoint holds {A} (G : Allowed) (srv : Server) (log : list Exchange) (p : Asking An A)
    (P : list Exchange → A → Prop) : Prop :=
  match p with
  | Ret a => P log a
  | Ask q k => G log q ∧ holds G srv (log ++ [Ex q (srv log q)]) (k (srv log q)) P
  end.

Section Logic.
Context (G : Allowed) (srv : Server).
Lemma holds_bind {A B} log (p : Asking An A) (f : A → Asking An B) P :
  holds G srv log p (λ log' a, holds G srv log' (f a) P) → holds G srv log (ask_bind p f) P.
Proof. revert log. induction p as [a|q k IH]; intros log; simpl; [done|]. intros [? ?]. eauto. Qed.
Lemma holds_mono {A} log (p : Asking An A) (P P' : list Exchange → A → Prop) :
  holds G srv log p P → (∀ log' a, P log' a → P' log' a) → holds G srv log p P'.
Proof. revert log. induction p as [a|q k IH]; intros log; simpl; [auto|]. intros [? ?] ?. eauto. Qed.
Lemma holds_or_fail {E A B} log (p : Asking An (E + A)) (f : A → Asking An (E + B)) P :
  holds G srv log p (λ log' r, match r with inl e => P log' (inl e) | inr a => holds G srv log' (f a) P end) →
  holds G srv log (ask_or_fail p f) P.
Proof. intros H. apply holds_bind. eapply holds_mono; [exact H|]. by intros log' [e|a]. Qed.
Lemma holds_ask {A} log q (k : An q → Asking An A) P :
  G log q → (∀ a, a = srv log q → holds G srv (log ++ [Ex q a]) (k a) P) → holds G srv log (ask_bind (ask q) k) P.
Proof. intros Hq Hk. simpl. auto. Qed.
(** The log only grows. *)
Lemma holds_grows {A} log (p : Asking An A) P :
  holds G srv log p P → holds G srv log p (λ log' a, P log' a ∧ log `prefix_of` log').
Proof.
  revert log. induction p as [a|q k IH]; intros log; simpl; [done|]. intros [? H]. split; [done|].
  eapply holds_mono; [by apply IH|]. intros log' a [? Hp]. split; [done|]. etrans; [|exact Hp]. by eexists.
Qed.
Lemma holds_run {A} log (p : Asking An A) P :
  holds G srv log p P → let '(log', a) := run srv log p in P log' a.
Proof. revert log. induction p as [a|q k IH]; intros log; simpl; [done|]. intros [_ H]. by apply IH. Qed.
Lemma run_extends {A} log (p : Asking An A) : log `prefix_of` (run srv log p).1.
Proof.
  revert log. induction p as [a|q k IH]; intros log; simpl; [done|]. etrans; [|apply IH]. by eexists.
Qed.
(** Every request of a run was allowed, with the log it had then. *)
Lemma holds_requests {A} log (p : Asking An A) P :
  holds G srv log p P →
  ∀ before q a after, (run srv log p).1 = before ++ Ex q a :: after → (length log ≤ length before)%nat → G before q.
Proof.
  revert log. induction p as [x|q0 k IH]; intros log; simpl.
  - intros _ before q a after E Hl. apply (f_equal length) in E. rewrite length_app in E. simpl in E. lia.
  - intros [HG H] before q a after E Hl. destruct (decide (length before = length log)) as [El|El].
    + destruct (run_extends (log ++ [Ex q0 (srv log q0)]) (k (srv log q0))) as [rest Hr].
      rewrite E in Hr. rewrite <- app_assoc in Hr. apply app_inj_1 in Hr as [-> Hr]; [|done].
      by injection Hr as -> _ _.
    + apply (IH _ _ H before q a after E). rewrite length_app. simpl. lia.
Qed.
End Logic.
End Programs.
Arguments Exchange {Q} An.
Arguments Server {Q} An.
Arguments Allowed {Q} An.

Notation "'ask*' x := p 'in' k" := (ask_bind p (fun x => k))
  (at level 200, x binder, p at level 100, k at level 200) : go_scope.
Notation "'ask!' x := p 'in' k" := (ask_or_fail p (fun x => k))
  (at level 200, x binder, p at level 100, k at level 200) : go_scope.


Inductive Category :=
| CategoryUnsupportedTrackerKind | CategoryMissingTrackerAPIKey | CategoryMissingTrackerProjectSlug
| CategoryLinearAPIRequest | CategoryLinearAPIStatus | CategoryLinearGraphQLErrors
| CategoryLinearUnknownPayload | CategoryLinearMissingEndCursor | CategoryIssueListingCapped
| CategoryRateLimited.
#[export] Instance Category_eq_dec : EqDecision Category.
Proof. solve_decision. Defined.

Inductive ErrorKind :=
| InCategory (c : Category)
| RetryAfter (d : Duration)
| ErrIssueStateRefreshIncomplete
| ErrJSONResponseTooLarge
| Canceled
| DeadlineExceeded
| Unclassified.
#[export] Instance ErrorKind_eq_dec : EqDecision ErrorKind.
Proof. solve_decision. Defined.

Definition Err := list ErrorKind.
Definition errors_Is (e : Err) (k : ErrorKind) : bool := bool_decide (k ∈ e).
(** [errors.Join]. *)
Definition errors_Join (es : list Err) : option Err := match es with [] => None | _ => Some (concat es) end.
Definition NewError (c : Category) (err : Err) : Err := InCategory c :: err.
Definition ErrRateLimited : ErrorKind := InCategory CategoryRateLimited.
(** The category of the first [*Error] of the chain. *)
Fixpoint ErrorCategory (e : Err) : option Category :=
  match e with [] => None | InCategory c :: _ => Some c | _ :: rest => ErrorCategory rest end.

(** [tracker.ShouldStopIssueStateRefresh], and the errors that stop without the context. *)
Definition stops (e : Err) : bool :=
  errors_Is e ErrRateLimited || errors_Is e ErrJSONResponseTooLarge ||
  errors_Is e Canceled || errors_Is e DeadlineExceeded.
Definition ShouldStopIssueStateRefresh {Q} {An : Q → Type} (ctx_Err : Asking An Err) (err : Err) : Asking An bool :=
  if stops err then Ret true
  else ask* ctxErr := ctx_Err in
       if errors_Is ctxErr Canceled then Ret true
       else ask* ctxErr := ctx_Err in Ret (errors_Is ctxErr DeadlineExceeded).

(** ** Batches *)

(** The slices of [size] that a loop over a batch takes in turn. *)
Fixpoint chunks (size fuel : nat) (ids : list string) : list (list string) :=
  match fuel, ids with
  | O, _ | _, [] => []
  | S fuel, _ => take size ids :: chunks size fuel (drop size ids)
  end.
Lemma concat_chunks size fuel ids : (length ids ≤ fuel)%nat → (0 < size)%nat → concat (chunks size fuel ids) = ids.
Proof.
  revert ids. induction fuel as [|fuel IH]; intros [|x ids] Hl Hs; simpl in *; [done|lia|done|].
  rewrite IH; [|rewrite length_drop; simpl; lia|done]. apply take_drop.
Qed.
Lemma chunks_size size fuel ids chunk :
  chunk ∈ chunks size fuel ids → (0 < size)%nat → (0 < length chunk ≤ size)%nat.
Proof.
  revert ids. induction fuel as [|fuel IH]; intros [|x ids] H Hs; simpl in *; try set_solver.
  apply elem_of_cons in H as [->|H]; [|by eapply IH]. rewrite length_take. simpl. lia.
Qed.

(** ** strconv.Atoi *)

Inductive NumError := ErrSyntax | ErrRange.
Definition max_uint64 : Z := 2 ^ 64 - 1.
(** An overflowing digit ends the loop before a later byte is looked at. *)
Fixpoint ParseUint (s : string) (n : Z) : Z + NumError :=
  match s with
  | EmptyString => inl n
  | String c t => match digit c with
                  | None => inr ErrSyntax
                  | Some d => if (max_uint64 / 10 + 1 <=? n) || (max_uint64 <? 10 * n + d) then inr ErrRange
                              else ParseUint t (10 * n + d)
                  end
  end.
Definition sign_of (s : string) : bool * string :=
  match s with
  | String c t => if byte_is 43 c then (false, t) else if byte_is 45 c then (true, t) else (false, s)
  | EmptyString => (false, s)
  end.
Definition Atoi (s : string) : Z + NumError :=
  let '(neg, digits) := sign_of s in
  if String.eqb digits "" then inr ErrSyntax
  else match ParseUint digits 0 with
       | inr e => inr e
       | inl un => if neg then (if 2 ^ 63 <? un then inr ErrRange else inl (- un))
                   else if 2 ^ 63 <=? un then inr ErrRange else inl un
       end.

(** ** The retry hint *)

Class HttpDates := http_ParseTime : string → option Time.

(** The two headers, and the clock when the response is classified. *)
Record RateHeader := { h_RetryAfter : string; h_RateLimitReset : string; h_now : Time }.

Definition maxRetryAfter : Duration := max64.
Definition unix_epoch : Time := 62135596800 * Second.

Definition parseRateLimitReset (value : string) (now : Time) : Duration :=
  let value := TrimSpace value in
  if String.eqb value "" then 0
  else match ParseInt value with
       | None => 0
       | Some epoch => if epoch <=? 0 then 0
                       else let remaining := time_Sub (unix_epoch + epoch * Second) now in
                            if 0 <? remaining then remaining else 0
       end.

Definition parseRetryAfter `{HttpDates} (value : string) (now : Time) : Duration :=
  let value := TrimSpace value in
  if String.eqb value "" then 0
  else
    let date := match http_ParseTime value with
                | None => 0
                | Some when => let remaining := time_Sub when now in if 0 <? remaining then remaining else 0
                end in
    match Atoi value with
    | inl seconds => if seconds <=? 0 then 0
                     else if maxRetryAfter / Second <? seconds then maxRetryAfter
                     else wrap64 (seconds * Second)
    | inr ErrRange => if HasPrefix value "-" then date else maxRetryAfter
    | inr ErrSyntax => date
    end.

Definition retryAfterHint `{HttpDates} (header : RateHeader) : Duration :=
  let d := parseRetryAfter (h_RetryAfter header) (h_now header) in
  if 0 <? d then d else parseRateLimitReset (h_RateLimitReset header) (h_now header).

Definition NewRateLimitedError `{HttpDates} (header : RateHeader) : Err :=
  NewError CategoryRateLimited [RetryAfter (retryAfterHint header)].

(** ** Lemmas *)

Lemma digit_value c d : digit c = Some d → 48 ≤ Z.of_nat (Ascii.nat_of_ascii c) ≤ 57 ∧ d = Z.of_nat (Ascii.nat_of_ascii c) - 48.
Proof.
  unfold digit, in_range. destruct ((_ <=? _)%nat && (_ <=? _)%nat)%bool eqn:ER; [|done]. intros [= <-].
  apply andb_true_iff in ER as [?%Nat.leb_le ?%Nat.leb_le]. lia.
Qed.

Lemma digit_of c : 48 ≤ Z.of_nat (Ascii.nat_of_ascii c) ≤ 57 → digit c = Some (Z.of_nat (Ascii.nat_of_ascii c) - 48).
Proof. intros H. unfold digit, in_range. by rewrite (proj2 (Nat.leb_le 48 _)), (proj2 (Nat.leb_le _ 57)) by lia. Qed.

Lemma ParseUint_bounds s n v : 0 ≤ n → ParseUint s n = inl v → 0 ≤ v ∧ (v = n ∨ v ≤ max_uint64).
Proof.
  revert n. induction s as [|c t IH]; intros n Hn; simpl; [intros [= <-]; lia|].
  destruct (digit c) as [d|] eqn:E; [|done].
  destruct ((_ <=? n) || _) eqn:EO; [done|]. apply orb_false_iff in EO as [_ EO%Z.ltb_ge].
  apply digit_value in E as [? ->].
  intros HP. apply IH in HP as [? [->|?]]; lia.
Qed.

(** What strconv.ParseInt accepts, Atoi reads as the same number. *)
Lemma parse_digits_ge s n v : 0 ≤ n → parse_digits s n = Some v → n ≤ v.
Proof.
  revert n. induction s as [|c t IH]; intros n Hn; simpl; [by intros [= <-]|].
  destruct (Z.leb_spec 48 (Z.of_nat (Ascii.nat_of_ascii c))), (Z.leb_spec (Z.of_nat (Ascii.nat_of_ascii c)) 57);
    simpl; try done.
  intros H1%IH; lia.
Qed.
Lemma parse_digits_ParseUint s n v :
  0 ≤ n → parse_digits s n = Some v → v ≤ max_uint64 → ParseUint s n = inl v.
Proof.
  revert n. induction s as [|c t IH]; intros n Hn; simpl; [by intros [= <-]|].
  destruct (Z.leb_spec 48 (Z.of_nat (Ascii.nat_of_ascii c))), (Z.leb_spec (Z.of_nat (Ascii.nat_of_ascii c)) 57);
    simpl; try done.
  rewrite digit_of by lia. intros HP HV.
  assert (10 * n + (Z.of_nat (Ascii.nat_of_ascii c) - 48) ≤ v) as HG by (apply (parse_digits_ge t); [lia|done]).
  assert (max_uint64 / 10 + 1 = 1844674407370955162) as -> by done. unfold max_uint64 in *.
  rewrite (proj2 (Z.leb_gt _ n)), (proj2 (Z.ltb_ge _ _)) by lia. apply IH; [lia|done..].
Qed.
Lemma ParseInt_Atoi s v : ParseInt s = Some v → Atoi s = inl v.
Proof.
  intros HP. pose proof (ParseInt_in64 _ _ HP) as HI. revert HP. unfold ParseInt, Atoi, sign_of, in64, min64, max64 in *.
  assert (∀ d u, parse_unsigned d = Some u → u ≤ max_uint64 → String.eqb d "" = false ∧ ParseUint d 0 = inl u ∧ 0 ≤ u) as HU.
  { intros [|c t] u HPu Hu; [done|]. split; [done|]. split; [by apply parse_digits_ParseUint|].
    by apply (parse_digits_ge (String c t)). }
  assert (∀ u, (min64 <=? u) && (u <=? max64) = true → - 2 ^ 63 ≤ u ≤ 2 ^ 63 - 1) as HB.
  { unfold min64, max64. intros u [?%Z.leb_le ?%Z.leb_le]%andb_true_iff. lia. }
  unfold max_uint64 in HU.
  assert (∀ d u, parse_unsigned d = Some u → u ≤ 2 ^ 63 - 1 →
    (if String.eqb d "" then inr ErrSyntax
     else match ParseUint d 0 with
          | inr e => inr e
          | inl un => if 2 ^ 63 <=? un then inr ErrRange else inl un
          end) = inl u) as HPos.
  { intros d u HPu Hu. destruct (HU d u HPu ltac:(lia)) as (-> & -> & ?). by rewrite (proj2 (Z.leb_gt _ _)) by lia. }
  destruct s as [|c t]; [done|]. unfold byte_is.
  destruct (Ascii.eqb_spec c (Ascii.ascii_of_nat 43)) as [->|H43].
  { change ((Ascii.nat_of_ascii (Ascii.ascii_of_nat 43) =? 43)%nat) with true. cbv iota.
    destruct (parse_unsigned t) as [u|] eqn:Eu; [|done]. destruct (_ && _)%bool eqn:EB; [|done]. intros [= <-].
    apply HPos; [done|lia]. }
  rewrite (proj2 (Nat.eqb_neq _ 43)).
  2:{ intros E. apply H43. by rewrite <- E, Ascii.ascii_nat_embedding. }
  destruct (Ascii.eqb_spec c (Ascii.ascii_of_nat 45)) as [->|H45].
  { change ((Ascii.nat_of_ascii (Ascii.ascii_of_nat 45) =? 45)%nat) with true. cbv iota.
    destruct (parse_unsigned t) as [u|] eqn:Eu; [|done]. simpl fmap. cbv iota.
    destruct (_ && _)%bool eqn:EB; [|done]. apply HB in EB. intros [= <-].
    destruct (HU t u Eu ltac:(lia)) as (-> & -> & ?). by rewrite (proj2 (Z.ltb_ge _ _)) by lia. }
  rewrite (proj2 (Nat.eqb_neq _ 45)).
  2:{ intros E. apply H45. by rewrite <- E, Ascii.ascii_nat_embedding. }
  destruct (parse_unsigned (String c t)) as [u|] eqn:Eu; [|done].
  destruct (_ && _)%bool eqn:EB; [|done]. intros [= <-]. apply HPos; [done|lia].
Qed.

Lemma Atoi_in64 s v : Atoi s = inl v → in64 v.
Proof.
  unfold Atoi. destruct (sign_of s) as [neg digits]. destruct (String.eqb _ _); [done|].
  destruct (ParseUint digits 0) as [un|e] eqn:E; [|done].
  apply ParseUint_bounds in E as [? _]; [|done]. unfold in64, min64, max64.
  destruct neg; [destruct (Z.ltb_spec (2 ^ 63) un)|destruct (Z.leb_spec (2 ^ 63) un)]; intros [= <-]; lia.
Qed.

Lemma saturated_seconds n :
  0 < n → in64 n →
  (if maxRetryAfter / Second <? n then maxRetryAfter else wrap64 (n * Second)) = Z.min max64 (n * Second).
Proof.
  intros Hn Hi. unfold maxRetryAfter, Second, in64 in *.
  assert (max64 / 1000000000 = 9223372036) as -> by done.
  destruct (Z.ltb_spec 9223372036 n).
  - rewrite Z.min_l; [done|]. unfold max64. lia.
  - rewrite wrap64_id by (unfold in64, min64, max64 in *; lia). rewrite Z.min_r; [done|]. unfold max64. lia.
Qed.

Lemma remaining_bounds t now :
  let remaining := time_Sub t now in 0 ≤ (if 0 <? remaining then remaining else 0) ≤ max64.
Proof. simpl. unfold time_Sub, max64, min64. destruct (Z.ltb_spec 0 (Z.max (- 2 ^ 63) (Z.min (2 ^ 63 - 1) (t - now)))); lia. Qed.

Lemma parseRetryAfter_bounds `{HttpDates} value now : 0 ≤ parseRetryAfter value now ≤ max64.
Proof.
  unfold parseRetryAfter. destruct (String.eqb _ _); [done|].
  assert (0 ≤ match http_ParseTime (TrimSpace value) with
              | None => 0
              | Some when => let remaining := time_Sub when now in if 0 <? remaining then remaining else 0
              end ≤ max64) as HD.
  { destruct (http_ParseTime _); [apply remaining_bounds|done]. }
  destruct (Atoi _) as [n|[]] eqn:E; [|done|destruct (HasPrefix _ _); [done|by unfold maxRetryAfter, max64]].
  destruct (Z.leb_spec n 0); [done|]. rewrite saturated_seconds by eauto using Atoi_in64.
  unfold Second, max64. lia.
Qed.
Lemma parseRateLimitReset_bounds value now : 0 ≤ parseRateLimitReset value now ≤ max64.
Proof.
  unfold parseRateLimitReset. destruct (String.eqb _ _); [done|]. destruct (ParseInt _) as [n|]; [|done].
  destruct (n <=? 0); [done|]. apply remaining_bounds.
Qed.

(** The hint of a rate-limited response is a duration, never negative and never
    overflowing.  A Retry-After of [n] positive seconds gives exactly [n] seconds, saturated
    at the largest duration, and so does a number too large for an int.  Without a positive
    Retry-After the hint is the time to the reset. *)
Theorem retry_after_hint `{HttpDates} header :
  0 ≤ retryAfterHint header ≤ max64 ∧
  (∀ n, ParseInt (TrimSpace (h_RetryAfter header)) = Some n → 0 < n →
     retryAfterHint header = Z.min max64 (n * Second)) ∧
  (Atoi (TrimSpace (h_RetryAfter header)) = inr ErrRange → HasPrefix (TrimSpace (h_RetryAfter header)) "-" = false →
     retryAfterHint header = max64) ∧
  (parseRetryAfter (h_RetryAfter header) (h_now header) = 0 →
     retryAfterHint header = parseRateLimitReset (h_RateLimitReset header) (h_now header)).
Proof.
  pose proof (parseRetryAfter_bounds (h_RetryAfter header) (h_now header)) as HB. unfold retryAfterHint.
  split_and!.
  1,2: destruct (0 <? _); [apply HB|apply parseRateLimitReset_bounds].
  - intros n HP Hn. unfold parseRetryAfter. rewrite (ParseInt_Atoi _ _ HP).
    destruct (String.eqb_spec (TrimSpace (h_RetryAfter header)) "") as [E|_]; [by rewrite E in HP|].
    rewrite (proj2 (Z.leb_gt n 0)), saturated_seconds by eauto using ParseInt_in64.
    rewrite (proj2 (Z.ltb_lt 0 _)); [done|]. unfold max64, Second. lia.
  - intros HA HN. unfold parseRetryAfter. rewrite HA, HN.
    destruct (String.eqb_spec (TrimSpace (h_RetryAfter header)) "") as [E|_]; [by rewrite E in HA|done].
  - intros ->. done.
Qed.
