(* ===== verification/Linear.v ===== *)
(** * The Linear tracker client (internal/tracker/linear.go, linear_refresh.go)

    The paged listing of a project's issues, the inverse relations that give a Todo issue
    its blockers (a batched first page per fifty issues, then the pages of one issue), and
    the narrow refresh of claimed issues.  A client is a program over its GraphQL requests
    and its readings of the context; Linear answers them in view of the exchanges before.
    JSON is decoded by the answer; a map range takes its order as an argument. *)

From S2P Require Import Prelude GoStd Tracker TrackerErrors.

Definition linearIssuePageSize : Z := 50.
Definition maxLinearIssuePages : Z := 200.

(** ** Responses *)

Record linearIssueNode := {
  ln_ID : string; ln_Identifier : string; ln_Title : string; ln_Description : string; ln_URL : string;
  ln_Priority : Z; ln_BranchName : string; ln_CreatedAt : string; ln_UpdatedAt : string;
  ln_Labels : list string; ln_State : string
}.
Record linearPageInfo := { HasNextPage : bool; EndCursor : string }.
(** The entries of a GraphQL [errors] array, rendered. *)
Record linearIssuesResponse := { li_Nodes : list linearIssueNode; li_PageInfo : linearPageInfo; li_Errors : list string }.

Record linearRelationNode := { rel_Type : string; rel_ID : string; rel_Identifier : string; rel_State : string }.
Record linearInverseRelationsPage := {
  ir_Nodes : option (list linearRelationNode);
  ir_PageInfo : option (option bool * option string)
}.
(** [None] is an absent data, issues or nodes field. *)
Record linearBatchInverseRelationsResponse := {
  lb_Nodes : option (list (option string * option linearInverseRelationsPage));
  lb_Errors : list string
}.
(** [None] is an absent data or issue field. *)
Record linearInverseRelationsResponse := {
  lr_Issue : option (option linearInverseRelationsPage);
  lr_Errors : list string
}.
Record linearIssueStateNode := {
  sn_ID : option string; sn_State : option (option string); sn_Labels : option (option (list (option string)))
}.
Record linearIssueStatesResponse := { ls_Nodes : option (list linearIssueStateNode); ls_Errors : list string }.

(** ** Requests and answers *)

Inductive LinearQuery :=
| ListIssues (projectSlug : string) (states : list string) (first : Z) (after : option string)
| ListIssuesInverseRelations (ids : list string) (first : Z)
| ListIssueInverseRelations (id after : string)
| IssueStatesByIDs (ids : list string) (first : Z)
| CtxErr.

(** A request fails to be built or sent, or is answered with a status, the headers of a
    rate limit, and a body: its decoding as an error payload (the extension codes) and as
    the response asked for. *)
Inductive HttpAnswer (A : Type) :=
| SendFailed (err : Err)
| HttpResponse (StatusCode : Z) (Header : RateHeader) (codes : list string + Err) (out : A + Err).
Arguments SendFailed {A} err.
Arguments HttpResponse {A} StatusCode Header codes out.

Definition Answer (q : LinearQuery) : Type :=
  match q with
  | ListIssues _ _ _ _ => HttpAnswer linearIssuesResponse
  | ListIssuesInverseRelations _ _ => HttpAnswer linearBatchInverseRelationsResponse
  | ListIssueInverseRelations _ _ => HttpAnswer linearInverseRelationsResponse
  | IssueStatesByIDs _ _ => HttpAnswer linearIssueStatesResponse
  | CtxErr => Err
  end.
Notation Linear := (Asking Answer).
Notation BlockerMap := (gmap string (list BlockerRef)).
Notation StateMap := (gmap string IssueState).

Record LinearClient := {
  APIKey : string; ProjectSlug : string; PaginationMaxPages : Z; ActiveStates : list string
}.

Section Client.
Context {HD : HttpDates} (c : LinearClient).

(** ** One GraphQL exchange *)

Definition linearGraphQLRateLimited (codes : list string) : bool :=
  existsb (fun code => EqualFold (TrimSpace code) "RATELIMITED") codes.

Definition linearGraphQLResponseError (StatusCode : Z) (Header : RateHeader) (codes : list string + Err) : option Err :=
  let status_error :=
    if (StatusCode <? 200) || (300 <=? StatusCode) then Some (NewError CategoryLinearAPIStatus []) else None in
  if StatusCode =? 429 then Some (NewRateLimitedError Header)
  else if StatusCode =? 400 then
    match codes with
    | inr probeErr => Some (NewError CategoryLinearUnknownPayload probeErr)
    | inl codes => if linearGraphQLRateLimited codes then Some (NewRateLimitedError Header) else status_error
    end
  else status_error.

Definition linear_result {A} (a : HttpAnswer A) : Err + A :=
  match a with
  | SendFailed err => inl (NewError CategoryLinearAPIRequest err)
  | HttpResponse StatusCode Header codes out =>
      match linearGraphQLResponseError StatusCode Header codes with
      | Some err => inl err
      | None => match out with
                | inl r => inr r
                | inr err => inl (NewError CategoryLinearUnknownPayload err)
                end
      end
  end.

(** The call and the check of the [errors] array that follows it. *)
Definition graphql {A} (send : Linear (HttpAnswer A)) : Linear (Err + A) :=
  ask* a := send in Ret (linear_result a).
Definition linearGraphQLErrors : Err := NewError CategoryLinearGraphQLErrors [].
Definition errors_or {A} (errors : list string) (a : Err + A) : Err + A :=
  match errors with [] => a | _ => inl linearGraphQLErrors end.

Definition send_ListIssues slug states after : Linear (HttpAnswer linearIssuesResponse) :=
  ask (An := Answer) (ListIssues slug states linearIssuePageSize after).
Definition send_batch (chunk : list string) : Linear (HttpAnswer linearBatchInverseRelationsResponse) :=
  ask (An := Answer) (ListIssuesInverseRelations chunk (slice_len chunk)).
Definition send_relations id after : Linear (HttpAnswer linearInverseRelationsResponse) :=
  ask (An := Answer) (ListIssueInverseRelations id after).
Definition send_states (chunk : list string) : Linear (HttpAnswer linearIssueStatesResponse) :=
  ask (An := Answer) (IssueStatesByIDs chunk (slice_len chunk)).
Definition ctx_Err : Linear Err := ask (An := Answer) CtxErr.

(** ** Helpers *)

Definition isTodoState (state : string) : bool := EqualFold (TrimSpace state) "Todo".

Definition issueMaxPages : Z := if 0 <? PaginationMaxPages c then PaginationMaxPages c else maxLinearIssuePages.

Definition normalizeRequestedStates (states : list string) : list string :=
  filter (fun s => s ≠ "") (map TrimSpace states).

Definition requireListIssuesConfig : Err + string :=
  if String.eqb (APIKey c) "" then inl (NewError CategoryMissingTrackerAPIKey [])
  else let projectSlug := TrimSpace (ProjectSlug c) in
       if String.eqb projectSlug "" then inl (NewError CategoryMissingTrackerProjectSlug []) else inr projectSlug.

Definition nextLinearIssueCursor (pageInfo : linearPageInfo) (page maxPages : Z) : Err + option string :=
  if negb (HasNextPage pageInfo) then inr None
  else if maxPages <=? page then inl (NewError CategoryIssueListingCapped [])
  else if String.eqb (EndCursor pageInfo) "" then inl (NewError CategoryLinearMissingEndCursor [])
  else inr (Some (EndCursor pageInfo)).

Definition parseLinearIssueTime (value : string) : Err + Time :=
  let value := TrimSpace value in
  if String.eqb value "" then inr time_zero
  else match ParseRFC3339Nano value with Some t => inr t | None => inl [Unclassified] end.

(** Labels are trimmed and lowercased; blank ones are dropped. *)
Definition linear_labels (names : list string) : list string :=
  flat_map (fun l => if String.eqb (TrimSpace l) "" then [] else [ToLower (TrimSpace l)]) names.

Definition mapLinearIssueNode (n : linearIssueNode) : Err + Issue :=
  match parseLinearIssueTime (ln_CreatedAt n) with
  | inl e => inl e
  | inr createdAt =>
      match parseLinearIssueTime (ln_UpdatedAt n) with
      | inl e => inl e
      | inr updatedAt =>
          inr {| iss_ID := ln_ID n; iss_Identifier := ln_Identifier n; iss_Title := ln_Title n;
                 iss_Description := ln_Description n; iss_URL := ln_URL n; iss_State := ln_State n;
                 iss_Labels := linear_labels (ln_Labels n); iss_BranchName := ln_BranchName n;
                 iss_Priority := ln_Priority n; iss_CreatedAt := createdAt; iss_UpdatedAt := updatedAt;
                 iss_BlockedBy := None |}
      end
  end.
Fixpoint map_nodes (nodes : list linearIssueNode) : Err + list Issue :=
  match nodes with
  | [] => inr []
  | n :: rest => match mapLinearIssueNode n with
                 | inl e => inl e
                 | inr i => match map_nodes rest with inl e => inl e | inr issues => inr (i :: issues) end
                 end
  end.

(** ** Blockers *)

Definition zero_BlockerRef : BlockerRef := Build_BlockerRef "" "" "".
Definition failClosedTodoIssueBlockers (issues : list Issue) : list Issue :=
  map (fun i => if isTodoState (iss_State i) then i <| iss_BlockedBy := Some [zero_BlockerRef] |> else i) issues.

Definition incompleteLinearBlockerResponse : Err := NewError CategoryLinearUnknownPayload [ErrIssueStateRefreshIncomplete].

Definition relation_ok (relation : linearRelationNode) : bool :=
  negb (blank (rel_Type relation)) &&
  negb (String.eqb (rel_Type relation) "blocks" &&
        (blank (rel_ID relation) || blank (rel_Identifier relation) || blank (rel_State relation))).
Definition validateLinearRelationNodes (nodes : list linearRelationNode) : option Err :=
  if forallb relation_ok nodes then None else Some incompleteLinearBlockerResponse.

Definition linearInverseRelationsValues (page : option linearInverseRelationsPage)
    : Err + (list linearRelationNode * bool * string) :=
  match page with
  | Some {| ir_Nodes := Some nodes; ir_PageInfo := Some (Some hasNextPage, rawCursor) |} =>
      match validateLinearRelationNodes nodes with
      | Some e => inl e
      | None =>
          let endCursor := match rawCursor with Some s => TrimSpace s | None => "" end in
          if hasNextPage && String.eqb endCursor "" then inl incompleteLinearBlockerResponse
          else inr (nodes, hasNextPage, endCursor)
      end
  | _ => inl incompleteLinearBlockerResponse
  end.

(** [appendBlockers]. *)
Definition blockers_in (nodes : list linearRelationNode) : list BlockerRef :=
  flat_map (fun r => if String.eqb (rel_Type r) "blocks"
                     then [Build_BlockerRef (rel_ID r) (rel_Identifier r) (rel_State r)] else []) nodes.

(** The loop over the later pages: the cap is reached after [issueMaxPages] pages, so the
    fuel is what is left of it. *)
Fixpoint relation_pages (fuel : nat) (issueID : string) (blockers : list BlockerRef) (hasNextPage : bool)
    (endCursor : string) (page : Z) : Linear (Err + list BlockerRef) :=
  match fuel with
  | O => Ret (inl (NewError CategoryIssueListingCapped []))
  | S fuel =>
      if negb hasNextPage then Ret (inr blockers)
      else if issueMaxPages <=? page then Ret (inl (NewError CategoryIssueListingCapped []))
      else if String.eqb endCursor "" then Ret (inl (NewError CategoryLinearMissingEndCursor []))
      else
        ask! out := graphql (send_relations issueID endCursor) in
        ask! _ := Ret (errors_or (lr_Errors out) (inr tt)) in
        match lr_Issue out with
        | None => Ret (inl incompleteLinearBlockerResponse)
        | Some relations =>
            ask! v := Ret (linearInverseRelationsValues relations) in
            let '(nextNodes, nextPage, nextCursor) := v in
            relation_pages fuel issueID (blockers ++ blockers_in nextNodes) nextPage nextCursor (page + 1)
        end
  end.

Definition linearBlockersFromInverseRelations (issueID : string) (nodes : list linearRelationNode)
    (hasNextPage : bool) (endCursor : string) : Linear (Err + list BlockerRef) :=
  match validateLinearRelationNodes nodes with
  | Some e => Ret (inl e)
  | None => relation_pages (Z.to_nat issueMaxPages) issueID (blockers_in nodes) hasNextPage endCursor 1
  end.

Definition linearBlockersForBatchNode (rawID : option string) (page : option linearInverseRelationsPage)
    (requested seen : gset string) : Linear (Err + (string * list BlockerRef)) :=
  match rawID with
  | None => Ret (inl incompleteLinearBlockerResponse)
  | Some raw =>
      let id := TrimSpace raw in
      if String.eqb id "" then Ret (inl incompleteLinearBlockerResponse)
      else if bool_decide (id ∉ requested) then Ret (inl incompleteLinearBlockerResponse)
      else if bool_decide (id ∈ seen) then Ret (inl incompleteLinearBlockerResponse)
      else
        ask! v := Ret (linearInverseRelationsValues page) in
        let '(nodes, hasNextPage, endCursor) := v in
        ask! blockers := linearBlockersFromInverseRelations id nodes hasNextPage endCursor in
        Ret (inr (id, blockers))
  end.

Fixpoint batch_nodes (nodes : list (option string * option linearInverseRelationsPage)) (requested seen : gset string)
    (result : BlockerMap) : Linear (Err + (gset string * BlockerMap)) :=
  match nodes with
  | [] => Ret (inr (seen, result))
  | (rawID, page) :: rest =>
      ask! v := linearBlockersForBatchNode rawID page requested seen in
      let '(id, blockers) := v in
      batch_nodes rest requested ({[id]} ∪ seen) (<[id := blockers]> result)
  end.

Definition fetchLinearBlockerChunk (chunk : list string) (result : BlockerMap) : Linear (Err + BlockerMap) :=
  ask! out := graphql (send_batch chunk) in
  ask! _ := Ret (errors_or (lb_Errors out) (inr tt)) in
  match lb_Nodes out with
  | None => Ret (inl incompleteLinearBlockerResponse)
  | Some nodes =>
      let requested := set_of chunk in
      ask! v := batch_nodes nodes requested ∅ result in
      let '(seen, result) := v in
      if bool_decide (size seen = size requested) then Ret (inr result)
      else Ret (inl incompleteLinearBlockerResponse)
  end.

(** [for start := 0; start < len(ids); start += linearIssuePageSize]. *)
Definition id_chunks (ids : list string) : list (list string) := chunks (Z.to_nat linearIssuePageSize) (length ids) ids.

Fixpoint blocker_chunks (cs : list (list string)) (result : BlockerMap) : Linear (Err + BlockerMap) :=
  match cs with
  | [] => Ret (inr result)
  | chunk :: rest => ask! result := fetchLinearBlockerChunk chunk result in blocker_chunks rest result
  end.
Definition linearBlockersForIssues (ids : list string) : Linear (Err + BlockerMap) :=
  blocker_chunks (id_chunks ids) (fold_left (fun m id => <[id := []]> m) ids ∅).

Definition attachLinearBlockers (issues : list Issue) : Linear (Err + list Issue) :=
  let ids := map iss_ID (filter (fun i => isTodoState (iss_State i)) issues) in
  match ids with
  | [] => Ret (inr issues)
  | _ =>
      ask! blockers := linearBlockersForIssues ids in
      Ret (inr (map (fun i => if isTodoState (iss_State i)
                              then i <| iss_BlockedBy := blockers !! iss_ID i |> else i) issues))
  end.

(** ** Listing *)

Definition fetchLinearIssuesPage (slug : string) (states : list string) (after : option string)
    : Linear (Err + (list Issue * linearPageInfo)) :=
  ask! out := graphql (send_ListIssues slug states after) in
  ask! issues := Ret (errors_or (li_Errors out) (map_nodes (li_Nodes out))) in
  ask* attached := attachLinearBlockers issues in
  match attached with
  | inr issues => Ret (inr (issues, li_PageInfo out))
  | inl err =>
      ask* ctxErr := ctx_Err in
      match ctxErr with
      | _ :: _ => Ret (inl (err ++ ctxErr))
      | [] => if errors_Is err ErrRateLimited then Ret (inl err)
              else Ret (inr (failClosedTodoIssueBlockers issues, li_PageInfo out))
      end
  end.

Fixpoint list_pages (fuel : nat) (slug : string) (states : list string) (page : Z) (after : option string)
    (issues : list Issue) : Linear (Err + list Issue) :=
  match fuel with
  | O => Ret (inl (NewError CategoryIssueListingCapped []))
  | S fuel =>
      ask! v := fetchLinearIssuesPage slug states after in
      let '(mapped, pageInfo) := v in
      ask! next := Ret (nextLinearIssueCursor pageInfo page issueMaxPages) in
      match next with
      | None => Ret (inr (issues ++ mapped))
      | Some nextCursor => list_pages fuel slug states (page + 1) (Some nextCursor) (issues ++ mapped)
      end
  end.

Definition ListIssuesByStates (states : list string) : Linear (Err + list Issue) :=
  ask! projectSlug := Ret requireListIssuesConfig in
  match normalizeRequestedStates states with
  | [] => Ret (inr [])
  | nonEmpty => list_pages (Z.to_nat issueMaxPages) projectSlug nonEmpty 1 None []
  end.
Definition ListActiveIssues : Linear (Err + list Issue) := ListIssuesByStates (ActiveStates c).

(** ** Narrow refresh *)

Definition incompleteLinearIssueStateResponse : Err := NewError CategoryLinearUnknownPayload [ErrIssueStateRefreshIncomplete].

Fixpoint state_labels (names : list (option string)) : Err + list string :=
  match names with
  | [] => inr []
  | Some name :: rest =>
      if blank name then inl incompleteLinearIssueStateResponse
      else match state_labels rest with
           | inl e => inl e
           | inr labels => inr (ToLower (TrimSpace name) :: labels)
           end
  | None :: _ => inl incompleteLinearIssueStateResponse
  end.

Definition classifyLinearIssueStateNode (node : linearIssueStateNode) (classified : StateMap) (seen : gset string)
    : Err + (StateMap * gset string) :=
  match node with
  | {| sn_ID := Some rawID; sn_State := Some (Some name); sn_Labels := Some (Some labels) |} =>
      let id := TrimSpace rawID in
      if String.eqb id "" || blank name then inl incompleteLinearIssueStateResponse
      else match classified !! id with
           | None => inl incompleteLinearIssueStateResponse
           | Some _ =>
               if bool_decide (id ∈ seen) then inl incompleteLinearIssueStateResponse
               else match state_labels labels with
                    | inl e => inl e
                    | inr labels =>
                        inr (<[id := {| ist_Outcome := IssueStateOutcomeCurrent; ist_State := name;
                                        ist_Labels := labels; ist_BlockedBy := None |}]> classified, {[id]} ∪ seen)
                    end
           end
  | _ => inl incompleteLinearIssueStateResponse
  end.
Fixpoint classify_nodes (nodes : list linearIssueStateNode) (classified : StateMap) (seen : gset string)
    : Err + StateMap :=
  match nodes with
  | [] => inr classified
  | n :: rest => match classifyLinearIssueStateNode n classified seen with
                 | inl e => inl e
                 | inr (classified, seen) => classify_nodes rest classified seen
                 end
  end.

Definition absent_row : IssueState :=
  {| ist_Outcome := IssueStateOutcomeAbsent; ist_State := ""; ist_Labels := []; ist_BlockedBy := None |}.
Definition classifyLinearIssueStateChunk (chunk : list string) (out : linearIssueStatesResponse) : Err + StateMap :=
  match ls_Nodes out with
  | None => inl incompleteLinearIssueStateResponse
  | Some nodes => classify_nodes nodes (fold_left (fun m id => <[id := absent_row]> m) chunk ∅) ∅
  end.

(** The chunks in turn: the rows, the errors, and whether one of them halts the refresh. *)
Fixpoint refresh_chunks (cs : list (list string)) (states : StateMap) (errs : list Err)
    : Linear (StateMap * list Err * bool) :=
  match cs with
  | [] => Ret (states, errs, false)
  | chunk :: rest =>
      ask* r := graphql (send_states chunk) in
      match r with
      | inl err =>
          ask* stop := ShouldStopIssueStateRefresh ctx_Err err in
          if stop then Ret (states, errs ++ [err], true) else refresh_chunks rest states (errs ++ [err])
      | inr out =>
          match errors_or (ls_Errors out) (classifyLinearIssueStateChunk chunk out) with
          | inl err => refresh_chunks rest states (errs ++ [err])
          | inr chunkStates => refresh_chunks rest (chunkStates ∪ states) errs
          end
      end
  end.

Definition failClosedTodoBlockers (states : StateMap) : StateMap :=
  (fun st => if isTodoState (ist_State st)
             then {| ist_Outcome := ist_Outcome st; ist_State := ist_State st; ist_Labels := ist_Labels st;
                     ist_BlockedBy := Some [zero_BlockerRef] |} else st) <$> states.

Definition todo_row (states : StateMap) (id : string) : bool :=
  match states !! id with Some st => isTodoState (ist_State st) | None => false end.
Definition set_blockers (blockers : BlockerMap) (m : StateMap) (id : string) : StateMap :=
  match m !! id with
  | Some st => <[id := {| ist_Outcome := ist_Outcome st; ist_State := ist_State st; ist_Labels := ist_Labels st;
                          ist_BlockedBy := blockers !! id |}]> m
  | None => m
  end.
(** [order]: the keys in the order the range over [states] visits them. *)
Definition attachRefreshedTodoBlockers (order : list string) (states : StateMap) : Linear (Err + StateMap) :=
  let ids := filter (todo_row states) order in
  match ids with
  | [] => Ret (inr states)
  | _ =>
      ask! blockers := linearBlockersForIssues ids in
      Ret (inr (fold_left (set_blockers blockers) ids states))
  end.

Definition FetchIssueStatesByIDs (order : StateMap → list string) (issueIDs : list string)
    : Linear (StateMap * option Err) :=
  let '(states, ids) := unknownIssueStatesByIDs issueIDs in
  if String.eqb (APIKey c) "" then Ret (states, Some (NewError CategoryMissingTrackerAPIKey []))
  else match ids with
       | [] => Ret (states, None)
       | _ =>
           ask* r := refresh_chunks (id_chunks ids) states [] in
           let '(states, refreshErrs, halted) := r in
           if halted then Ret (failClosedTodoBlockers states, errors_Join refreshErrs)
           else
             ask* attached := attachRefreshedTodoBlockers (order states) states in
             match attached with
             | inr states => Ret (states, errors_Join refreshErrs)
             | inl _ => Ret (failClosedTodoBlockers states, errors_Join refreshErrs)
             end
       end.
End Client.
