(* ===== verification/LinearProps.v ===== *)
(** * What the Linear client's results rest on

    Evidence is a set of answers in the log of exchanges: complete pages of inverse
    relations, the pages of a listing, the answered chunks of a refresh.  Each part of the
    client is proved, in the logic of requests, to return only what such evidence supports
    and to send nothing after an answer that ends it. *)

From S2P Require Import Prelude Tracker GoStd TrackerErrors Linear.

Notation Log := (list (Exchange Answer)).

(** ** Evidence *)

Section Evidence.
Context {HD : HttpDates}.

Definition answered_page (log : Log) slug states after (out : linearIssuesResponse) : Prop :=
  ∃ a, Ex (ListIssues slug states linearIssuePageSize after) a ∈ log ∧ linear_result a = inr out ∧ li_Errors out = [].
Definition answered_batch (log : Log) chunk (out : linearBatchInverseRelationsResponse) : Prop :=
  ∃ a, Ex (ListIssuesInverseRelations chunk (slice_len chunk)) a ∈ log ∧ linear_result a = inr out ∧ lb_Errors out = [].
Definition answered_relations (log : Log) id after (out : linearInverseRelationsResponse) : Prop :=
  ∃ a, Ex (ListIssueInverseRelations id after) a ∈ log ∧ linear_result a = inr out ∧ lr_Errors out = [].
Definition answered_states (log : Log) chunk (out : linearIssueStatesResponse) : Prop :=
  ∃ a, Ex (IssueStatesByIDs chunk (slice_len chunk)) a ∈ log ∧ linear_result a = inr out ∧ ls_Errors out = [].

(** A page with its nodes and page information, each blocking relation identified, and a
    cursor when there are more. *)
Definition complete_page (page : option linearInverseRelationsPage) nodes (next : bool) (cursor : string) : Prop :=
  ∃ raw, page = Some {| ir_Nodes := Some nodes; ir_PageInfo := Some (Some next, raw) |} ∧
    cursor = default "" (TrimSpace <$> raw) ∧ (next = true → cursor ≠ "") ∧
    ∀ r, r ∈ nodes → rel_Type r = "blocks" →
      TrimSpace (rel_ID r) ≠ "" ∧ TrimSpace (rel_Identifier r) ≠ "" ∧ TrimSpace (rel_State r) ≠ "".

(** The blockers on the pages after [cursor], read to the last one. *)
Inductive relations_after (log : Log) (id : string) : bool → string → list BlockerRef → Prop :=
| relations_end cursor : relations_after log id false cursor []
| relations_page cursor out page nodes next cursor' bs :
    answered_relations log id cursor out → lr_Issue out = Some page → complete_page page nodes next cursor' →
    relations_after log id next cursor' bs → relations_after log id true cursor (blockers_in nodes ++ bs).

(** [bs] is every blocker Linear has for the issue. *)
Definition blocker_evidence (log : Log) (id : string) (bs : list BlockerRef) : Prop :=
  ∃ chunk out nodes raw page first next cursor later,
    answered_batch log chunk out ∧ id ∈ chunk ∧ lb_Nodes out = Some nodes ∧ (Some raw, page) ∈ nodes ∧
    TrimSpace raw = id ∧ complete_page page first next cursor ∧ relations_after log id next cursor later ∧
    bs = blockers_in first ++ later.

(** The blockers of a listed or refreshed issue: none for a state that is not Todo, and
    for Todo all of them, or one without a state, which blocks. *)
Definition blockers_known (log : Log) (id state : string) (b : option (list BlockerRef)) : Prop :=
  if isTodoState state then b = Some [zero_BlockerRef] ∨ ∃ bs, b = Some bs ∧ blocker_evidence log id bs
  else b = None.

(** The pages of a listing from the cursor [after] to the one without a successor. *)
Fixpoint listing_pages (log : Log) slug states (after : option string) (pages : list linearIssuesResponse) : Prop :=
  match pages with
  | [] => False
  | p :: rest =>
      answered_page log slug states after p ∧
      match rest with
      | [] => HasNextPage (li_PageInfo p) = false
      | _ => HasNextPage (li_PageInfo p) = true ∧ EndCursor (li_PageInfo p) ≠ "" ∧
             listing_pages log slug states (Some (EndCursor (li_PageInfo p))) rest
      end
  end.

Definition listed_from (log : Log) (i : Issue) (n : linearIssueNode) : Prop :=
  mapLinearIssueNode n = inr (i <| iss_BlockedBy := None |>) ∧
  blockers_known log (iss_ID i) (iss_State i) (iss_BlockedBy i).

(** The row of a node that was answered, and of an id no node of a complete answer has. *)
Definition current_evidence (log : Log) (id : string) (st : IssueState) : Prop :=
  ∃ chunk out nodes raw name labels,
    answered_states log chunk out ∧ id ∈ chunk ∧ ls_Nodes out = Some nodes ∧
    {| sn_ID := Some raw; sn_State := Some (Some name); sn_Labels := Some (Some (map Some labels)) |} ∈ nodes ∧
    TrimSpace raw = id ∧ TrimSpace name ≠ "" ∧ ist_State st = name ∧ ist_Labels st = map norm labels.
Definition absent_evidence (log : Log) (id : string) : Prop :=
  ∃ chunk out nodes,
    answered_states log chunk out ∧ id ∈ chunk ∧ ls_Nodes out = Some nodes ∧
    ∀ node, node ∈ nodes → ∃ raw, sn_ID node = Some raw ∧ TrimSpace raw ≠ id ∧ TrimSpace raw ∈ chunk.

(** ** Evidence survives a longer log *)

Lemma answered_relations_mono log log' id after out :
  log `prefix_of` log' → answered_relations log id after out → answered_relations log' id after out.
Proof. intros [s ->] (a & H & ? & ?). exists a. rewrite elem_of_app. eauto. Qed.
Lemma relations_after_mono log log' id next cursor bs :
  log `prefix_of` log' → relations_after log id next cursor bs → relations_after log' id next cursor bs.
Proof. intros Hp. induction 1; [constructor|]. eapply relations_page; eauto using answered_relations_mono. Qed.
Lemma blocker_evidence_mono log log' id bs :
  log `prefix_of` log' → blocker_evidence log id bs → blocker_evidence log' id bs.
Proof.
  intros Hp (chunk & out & nodes & raw & page & first & next & cursor & later & (a & H & H1 & H2) & HR).
  exists chunk, out, nodes, raw, page, first, next, cursor, later. destruct HR as (? & ? & ? & ? & ? & ? & ?).
  split_and!; eauto using relations_after_mono. exists a. destruct Hp as [s ->]. rewrite elem_of_app. eauto.
Qed.
Lemma blockers_known_mono log log' id state b :
  log `prefix_of` log' → blockers_known log id state b → blockers_known log' id state b.
Proof. intros Hp. unfold blockers_known. destruct (isTodoState state); [|done]. naive_solver eauto using blocker_evidence_mono. Qed.
Lemma listed_from_mono log log' i n : log `prefix_of` log' → listed_from log i n → listed_from log' i n.
Proof. intros Hp [? ?]. split; eauto using blockers_known_mono. Qed.
Lemma answered_page_mono log log' slug states after out :
  log `prefix_of` log' → answered_page log slug states after out → answered_page log' slug states after out.
Proof. intros [s ->] (a & H & ? & ?). exists a. rewrite elem_of_app. eauto. Qed.
Lemma answered_states_mono log log' chunk out :
  log `prefix_of` log' → answered_states log chunk out → answered_states log' chunk out.
Proof. intros [s ->] (a & H & ? & ?). exists a. rewrite elem_of_app. eauto. Qed.
Lemma current_evidence_mono log log' id st :
  log `prefix_of` log' → current_evidence log id st → current_evidence log' id st.
Proof.
  intros Hp (chunk & out & nodes & raw & name & labels & H & HR). exists chunk, out, nodes, raw, name, labels.
  eauto using answered_states_mono.
Qed.
Lemma absent_evidence_mono log log' id :
  log `prefix_of` log' → absent_evidence log id → absent_evidence log' id.
Proof. intros Hp (chunk & out & nodes & H & HR). exists chunk, out, nodes. eauto using answered_states_mono. Qed.

(** ** What the checks of a page establish *)

Lemma linearInverseRelationsValues_complete page nodes next cursor :
  linearInverseRelationsValues page = inr (nodes, next, cursor) → complete_page page nodes next cursor.
Proof.
  destruct page as [[[ns|] [[[n|] raw]|]]|]; try done. simpl. unfold validateLinearRelationNodes.
  destruct (forallb relation_ok ns) eqn:E; [|done].
  destruct (n && _) eqn:EN; [done|]. intros [= <- <- <-]. exists raw. split_and!.
  - done.
  - by destruct raw.
  - intros ->. simpl in EN. by apply String.eqb_neq in EN.
  - intros r Hr ET. rewrite forallb_forall in E. specialize (E r). rewrite <- list_elem_of_In in E.
    apply E in Hr. unfold relation_ok, blank in Hr. rewrite ET in Hr. simpl in Hr.
    apply negb_true_iff in Hr. by rewrite !orb_false_iff, !String.eqb_neq in Hr; destruct Hr as [[? ?] ?].
Qed.

Lemma linear_result_rate_limited {A} status header codes (out : A + Err) :
  status = 429 ∨ status = 400 ∧ (∃ cs, codes = inl cs ∧ linearGraphQLRateLimited cs = true) →
  linear_result (HttpResponse status header codes out) = inl (NewRateLimitedError header).
Proof. intros [->|[-> (cs & -> & E)]]; simpl; [done|]. unfold linearGraphQLResponseError. simpl. by rewrite E. Qed.
End Evidence.

(** ** The chunks of a batch *)

Lemma concat_id_chunks ids : concat (id_chunks ids) = ids.
Proof. apply concat_chunks; [done|vm_compute; lia]. Qed.
Lemma id_chunks_size ids chunk : chunk ∈ id_chunks ids → 0 < slice_len chunk ≤ linearIssuePageSize.
Proof. intros H. apply chunks_size in H; [|vm_compute; lia]. unfold slice_len. change (Z.to_nat linearIssuePageSize) with 50%nat in H. unfold linearIssuePageSize. lia. Qed.

(** ** The logic of the client's requests *)

Definition failure {HD : HttpDates} {A} (a : HttpAnswer A) : option Err :=
  match linear_result a with inl e => Some e | inr _ => None end.
(** The error of an exchange, as the client sees it. *)
Definition answer_error {HD : HttpDates} (e : Exchange Answer) : option Err :=
  match e with
  | Ex q a =>
      match q as q' return Answer q' → option Err with
      | ListIssues _ _ _ _ | ListIssuesInverseRelations _ _ | ListIssueInverseRelations _ _ | IssueStatesByIDs _ _ => failure
      | CtxErr => λ _, None
      end a
  end.
Definition is_listing (e : Exchange Answer) : option (option string) :=
  match e with Ex (ListIssues _ _ _ after) _ => Some after | _ => None end.

Section Logic.
Context {HD : HttpDates} (c : LinearClient) (srv : Server Answer) (bad : Err → bool).

(** No answer so far carries an error that ends the reading. *)
Definition quiet (log : Log) : Prop := ∀ e err, e ∈ log → answer_error e = Some err → bad err = false.
(** Every request but a reading of the context finds the log quiet. *)
Definition only_while_quiet : Allowed Answer := λ log q, q = CtxErr ∨ quiet log.

Lemma quiet_snoc log e : quiet log → (∀ err, answer_error e = Some err → bad err = false) → quiet (log ++ [e]).
Proof. intros HQ HE e' err [H| ->%list_elem_of_singleton]%elem_of_app; [by apply HQ|apply HE]. Qed.

(** The result of a part of the client: an error that ends the reading, or a quiet log;
    the log has only grown, by no page of the listing. *)
Definition reads {A} (log : Log) (P : Log → A → Prop) (log' : Log) (r : Err + A) : Prop :=
  log `prefix_of` log' ∧ omap is_listing log' = omap is_listing log ∧
  match r with inl e => quiet log' ∨ bad e = true | inr a => quiet log' ∧ P log' a end.
Notation holds := (holds only_while_quiet srv).

Lemma reads_ret {A} log (P : Log → A → Prop) r :
  quiet log → match r with inl _ => True | inr a => P log a end → holds log (Ret r) (reads log P).
Proof. intros HQ HP. split_and!; [done..|]. destruct r; auto. Qed.

Lemma holds_ret_inr {A B} log (a : A) (f : A → Linear (Err + B)) Q : holds log (f a) Q → holds log (ask_or_fail (Ret (inr a)) f) Q.
Proof. done. Qed.
Lemma reads_seq {A B} log (p : Linear (Err + A)) (f : A → Linear (Err + B)) P P' :
  holds log p (reads log P) →
  (∀ log' a, log `prefix_of` log' → quiet log' → P log' a → holds log' (f a) (reads log' P')) →
  holds log (ask_or_fail p f) (reads log P').
Proof.
  intros Hp Hf. apply holds_or_fail. eapply holds_mono; [exact Hp|].
  intros log1 [e|a] (HP & HL & HR); [split_and!; done|]. destruct HR as [HQ HR].
  eapply holds_mono; [by apply Hf|]. intros log2 r (HP2 & HL2 & HR2).
  split_and!; [by etrans|congruence|done].
Qed.

(** One exchange that is not a page of the listing. *)
Lemma reads_graphql {A} log q (ok : Answer q → HttpAnswer A) (P : Log → A → Prop) :
  quiet log → (∀ a, is_listing (Ex q a) = None) →
  (∀ a, answer_error (Ex q a) = failure (ok a)) →
  (∀ a out, linear_result (ok a) = inr out → P (log ++ [Ex q a]) out) →
  holds log (ask_bind (ask q) (λ a, Ret (linear_result (ok a)))) (reads log P).
Proof.
  intros HQ HL HE HP. simpl. split; [by right|]. split; [by eexists|]. split.
  { rewrite omap_app. specialize (HL (srv log q)). simpl in *. by rewrite HL, app_nil_r. }
  destruct (linear_result (ok (srv log q))) as [e|out] eqn:E.
  - destruct (bad e) eqn:EB; [by right|left]. apply quiet_snoc; [done|]. intros err. rewrite HE. unfold failure.
    rewrite E. by intros [= <-].
  - split; [|by apply HP]. apply quiet_snoc; [done|]. intros err. rewrite HE. unfold failure. by rewrite E.
Qed.

Lemma reads_mono {A} log (P P' : Log → A → Prop) log' r :
  (∀ a, P log' a → P' log' a) → reads log P log' r → reads log P' log' r.
Proof. intros HP (? & ? & HR). split_and!; [done..|]. destruct r; naive_solver. Qed.

(** ** Blockers *)

Lemma reads_relation_pages fuel id blockers next cursor page log :
  quiet log → Z.of_nat fuel + page = issueMaxPages c + 1 →
  holds log (relation_pages c fuel id blockers next cursor page)
    (reads log (λ log' bs, ∃ later, bs = blockers ++ later ∧ relations_after log' id next cursor later)).
Proof.
  revert blockers next cursor page log. induction fuel as [|fuel IH]; intros blockers next cursor page log HQ Hfuel; simpl.
  { by apply reads_ret. }
  destruct next; simpl.
  2:{ apply reads_ret; [done|]. exists []. rewrite app_nil_r. split; [done|constructor]. }
  destruct (_ <=? page); [by apply reads_ret|]. destruct (String.eqb_spec cursor "") as [|HC]; [by apply reads_ret|].
  eapply reads_seq with (P := λ log' out, ∃ a, Ex (ListIssueInverseRelations id cursor) a ∈ log' ∧ linear_result a = inr out).
  { apply (reads_graphql log (ListIssueInverseRelations id cursor) (λ a, a)); [done..|].
    intros a out E. exists a. split; [set_solver|done]. }
  intros log1 out Hp1 HQ1 (a & Ha & Eo). unfold errors_or.
  destruct (lr_Errors out) as [|? ?] eqn:EE; simpl; [|by apply reads_ret].
  destruct (lr_Issue out) as [relations|] eqn:EI; [|by apply reads_ret]. simpl.
  destruct (linearInverseRelationsValues relations) as [e|[[nodes nxt] cur]] eqn:EV; simpl; [by apply reads_ret|].
  eapply holds_mono; [apply IH; [done|lia]|]. intros log2 r HR.
  assert (log1 `prefix_of` log2) as Hp2 by apply HR. revert HR. apply reads_mono. intros bs (later & -> & HL).
  exists (blockers_in nodes ++ later). rewrite app_assoc. split; [done|].
  eapply relations_page; [|done|by apply linearInverseRelationsValues_complete|done].
  exists a. split; [|done]. destruct Hp2 as [s ->]. rewrite elem_of_app. by left.
Qed.
(** The ids of [ids] have all their blockers in [result]. *)
Definition resolved (log : Log) (ids : gset string) (result : BlockerMap) : Prop :=
  ∀ id, id ∈ ids → ∃ bs, result !! id = Some bs ∧ blocker_evidence log id bs.
Lemma resolutions_mono log log' ids result : log `prefix_of` log' → resolved log ids result → resolved log' ids result.
Proof. intros Hp H id Hid. destruct (H id Hid) as (bs & ? & ?). eauto using blocker_evidence_mono. Qed.

Lemma reads_batch_nodes chunk out nodes rest done seen result log :
  quiet log → answered_batch log chunk out → lb_Nodes out = Some nodes → rest ⊆ nodes →
  resolved log (done ∪ seen) result → seen ⊆ set_of chunk →
  holds log (batch_nodes c rest (set_of chunk) seen result)
    (reads log (λ log' r, r.1 ⊆ set_of chunk ∧ resolved log' (done ∪ r.1) r.2)).
Proof.
  intros HQ HA HN. revert seen result log HQ HA.
  induction rest as [|[rawID page] rest IH]; intros seen result log HQ HA Hsub HR Hseen; simpl; [by apply reads_ret|].
  assert (rest ⊆ nodes ∧ (rawID, page) ∈ nodes) as [Hrest Hin] by (split; set_solver).
  eapply reads_seq with (P := λ log' r, r.1 ∈ set_of chunk ∧ blocker_evidence log' r.1 r.2).
  - unfold linearBlockersForBatchNode. destruct rawID as [raw|]; [|by apply reads_ret].
    destruct (String.eqb _ _); [by apply reads_ret|]. case_bool_decide as Hreq; [by apply reads_ret|].
    case_bool_decide; [by apply reads_ret|].
    destruct (linearInverseRelationsValues page) as [e|[[ns nxt] cur]] eqn:EV; simpl; [by apply reads_ret|].
    apply linearInverseRelationsValues_complete in EV.
    eapply reads_seq with (P := λ log' bs, ∃ later, bs = blockers_in ns ++ later ∧ relations_after log' (TrimSpace raw) nxt cur later).
    + unfold linearBlockersFromInverseRelations. destruct (validateLinearRelationNodes ns); [by apply reads_ret|].
      apply reads_relation_pages; [done|]. unfold issueMaxPages, maxLinearIssuePages.
      destruct (Z.ltb_spec 0 (PaginationMaxPages c)); lia.
    + intros log1 bs [s ->] HQ1 (later & -> & HL). apply reads_ret; [done|]. simpl. split; [done|].
      destruct HA as (a & Ha & Ea). apply elem_of_set_of in Hreq.
      exists chunk, out, nodes, raw, page, ns, nxt, cur, later. split_and!; try done.
      exists a. rewrite elem_of_app. eauto.
  - intros log1 [id bs] Hp HQ1 [Hid HB]. simpl in *.
    eapply holds_mono; [apply IH; try done|].
    + destruct HA as (a & Ha & Ea). destruct Hp as [s ->]. exists a. rewrite elem_of_app. eauto.
    + intros id' Hid'. destruct (decide (id' = id)) as [->|Hne].
      * rewrite lookup_insert. case_decide; [|done]. eauto.
      * rewrite lookup_insert_ne by done. eapply (resolutions_mono log); [exact Hp|exact HR|]. set_solver.
    + set_solver.
    + intros log2 r. apply reads_mono. naive_solver.
Qed.
Lemma reads_chunk chunk done result log :
  quiet log → resolved log done result →
  holds log (fetchLinearBlockerChunk c chunk result)
    (reads log (λ log' result', resolved log' (done ∪ set_of chunk) result')).
Proof.
  intros HQ HR. unfold fetchLinearBlockerChunk.
  eapply reads_seq with (P := λ log' out, ∃ a,
    Ex (ListIssuesInverseRelations chunk (slice_len chunk)) a ∈ log' ∧ linear_result a = inr out).
  { apply (reads_graphql log (ListIssuesInverseRelations chunk (slice_len chunk)) (λ a, a)); [done..|].
    intros a out E. exists a. split; [set_solver|done]. }
  intros log1 out Hp HQ1 (a & Ha & Eo). unfold errors_or.
  destruct (lb_Errors out) eqn:EE; [apply holds_ret_inr|by apply reads_ret].
  destruct (lb_Nodes out) as [nodes|] eqn:EN; [|by apply reads_ret].
  eapply reads_seq.
  - eapply (reads_batch_nodes chunk out nodes nodes done ∅); [done|by exists a|done..| |set_solver].
    eapply resolutions_mono; [exact Hp|]. by rewrite union_empty_r_L.
  - intros log2 [seen result'] Hp2 HQ2 [Hs HR2]. simpl in *.
    case_bool_decide as ES; [|by apply reads_ret]. apply reads_ret; [done|].
    assert (seen = set_of chunk) as ->; [|done]. apply set_eq, set_subseteq_size_equiv; [done|lia].
Qed.

Lemma reads_blocker_chunks cs done result log :
  quiet log → resolved log done result →
  holds log (blocker_chunks c cs result)
    (reads log (λ log' result', resolved log' (done ∪ set_of (concat cs)) result')).
Proof.
  revert done result log. induction cs as [|chunk rest IH]; intros done result log HQ HR; cbn [blocker_chunks concat].
  - apply reads_ret; [done|]. intros id [Hid|Hid]%elem_of_union; [by apply HR|]. set_solver.
  - eapply reads_seq; [by apply reads_chunk|]. intros log1 result1 Hp HQ1 HR1. simpl in *.
    eapply holds_mono; [by apply IH|]. intros log2 r. apply reads_mono. intros result2.
    intros HR2 id Hid. apply HR2. unfold set_of in *. rewrite list_to_set_app_L in Hid. set_solver.
Qed.

Lemma reads_issue_blockers ids log :
  quiet log →
  holds log (linearBlockersForIssues c ids) (reads log (λ log' result, resolved log' (set_of ids) result)).
Proof.
  intros HQ. eapply holds_mono; [apply (reads_blocker_chunks _ ∅); [done|set_solver]|].
  intros log' r. apply reads_mono. intros result. by rewrite concat_id_chunks, union_empty_l_L.
Qed.

(** ** Listing *)

Definition attached_as (log : Log) (issues issues' : list Issue) : Prop :=
  Forall2 (λ i i', i' = i <| iss_BlockedBy := iss_BlockedBy i' |> ∧
                   blockers_known log (iss_ID i) (iss_State i) (iss_BlockedBy i')) issues issues'.

Lemma attached_by log issues f :
  (∀ i, i ∈ issues → iss_BlockedBy i = None) →
  (∀ i, i ∈ issues → isTodoState (iss_State i) = true → blockers_known log (iss_ID i) (iss_State i) (f i)) →
  attached_as log issues
    (map (λ i, if isTodoState (iss_State i) then i <| iss_BlockedBy := f i |> else i) issues).
Proof.
  unfold attached_as. intros HN HF. induction issues as [|i issues IH]; simpl; constructor.
  - destruct (isTodoState (iss_State i)) eqn:ET; simpl.
    + split; [done|]. apply HF; [set_solver|done].
    + split; [by destruct i|]. unfold blockers_known. rewrite ET. apply HN. set_solver.
  - apply IH; intros; [apply HN|apply HF]; set_solver.
Qed.

Lemma reads_attach issues log :
  quiet log → (∀ i, i ∈ issues → iss_BlockedBy i = None) →
  holds log (attachLinearBlockers c issues) (reads log (λ log' issues', attached_as log' issues issues')).
Proof.
  intros HQ HN. unfold attachLinearBlockers.
  set (ids := map iss_ID _). destruct ids as [|x ids'] eqn:Eids.
  { apply reads_ret; [done|].
    assert (∀ i, i ∈ issues → isTodoState (iss_State i) = false) as HT.
    { intros i Hi. destruct (isTodoState (iss_State i)) eqn:E; [|done].
      assert (iss_ID i ∈ ids) as Hin; [|by rewrite Eids in Hin; set_solver].
      unfold ids. apply list_elem_of_fmap. exists i. rewrite list_elem_of_filter. split; [done|]. by rewrite E. }
    replace issues with (map (λ i, if isTodoState (iss_State i) then i <| iss_BlockedBy := None |> else i) issues) at 2.
    - apply attached_by; [done|]. intros i Hi. by rewrite HT.
    - rewrite <- (map_id issues) at 2. apply map_ext_in. intros i Hi. rewrite HT; [done|]. by apply list_elem_of_In. }
  rewrite <- Eids. eapply reads_seq; [by apply reads_issue_blockers|].
  intros log1 blockers Hp HQ1 HR. apply reads_ret; [done|]. apply attached_by; [done|].
  intros i Hi ET. unfold blockers_known. rewrite ET. right. apply HR. apply elem_of_set_of. unfold ids.
  apply list_elem_of_fmap. exists i. rewrite list_elem_of_filter. split; [done|]. by rewrite ET.
Qed.
End Logic.

(** ** The listing *)

Definition rate_limited (e : Err) : bool := errors_Is e ErrRateLimited.
(** The cursors a listing asks for. *)
Fixpoint page_cursors (after : option string) (pages : list linearIssuesResponse) : list (option string) :=
  match pages with [] => [] | p :: rest => after :: page_cursors (Some (EndCursor (li_PageInfo p))) rest end.

Lemma map_nodes_inr nodes issues :
  map_nodes nodes = inr issues → Forall2 (λ i n, mapLinearIssueNode n = inr i ∧ iss_BlockedBy i = None) issues nodes.
Proof.
  revert issues. induction nodes as [|n rest IH]; intros issues; simpl; [intros [= <-]; constructor|].
  destruct (mapLinearIssueNode n) as [|i] eqn:E; [done|]. destruct (map_nodes rest) as [|mapped]; [done|].
  intros [= <-]. constructor; [|by apply IH]. split; [done|]. unfold mapLinearIssueNode in E.
  destruct (parseLinearIssueTime _); [done|]. destruct (parseLinearIssueTime _); [done|]. by injection E as <-.
Qed.

Section Listing.
Context {HD : HttpDates} (c : LinearClient) (srv : Server Answer) (slug : string) (states : list string).
Notation quiet := (quiet rate_limited).
Notation holds := (holds (only_while_quiet rate_limited) srv).

Definition page_read after (log : Log) (log' : Log) (r : Err + (list Issue * linearPageInfo)) : Prop :=
  log `prefix_of` log' ∧ omap is_listing log' = omap is_listing log ++ [after] ∧
  match r with
  | inl e => quiet log' ∨ rate_limited e = true
  | inr (issues, pageInfo) =>
      quiet log' ∧ ∃ out, answered_page log' slug states after out ∧ pageInfo = li_PageInfo out ∧
        Forall2 (listed_from log') issues (li_Nodes out)
  end.

Lemma attached_listed log mapped nodes issues :
  Forall2 (λ i n, mapLinearIssueNode n = inr i ∧ iss_BlockedBy i = None) mapped nodes →
  attached_as log mapped issues → Forall2 (listed_from log) issues nodes.
Proof.
  intros HM HA. revert issues HA. induction HM as [|i n mapped nodes [EM EN] HM IH]; intros issues HA.
  { inversion HA. constructor. }
  inversion HA as [|? i' ? issues' [Ei HB] HR]; subst. constructor; [|by apply IH].
  unfold listed_from. rewrite Ei. destruct i; simpl in *. subst. done.
Qed.

Lemma holds_page after log :
  quiet log → holds log (fetchLinearIssuesPage c slug states after) (page_read after log).
Proof.
  intros HQ. unfold fetchLinearIssuesPage, page_read.
  apply holds_or_fail. simpl. split; [by right|].
  generalize (srv log (ListIssues slug states linearIssuePageSize after)) as a. intros a.
  set (log1 := log ++ [Ex (ListIssues slug states linearIssuePageSize after) a]).
  assert (log `prefix_of` log1) as Hp1 by by eexists.
  assert (omap is_listing log1 = omap is_listing log ++ [after]) as HL1 by by unfold log1; rewrite omap_app.
  destruct (linear_result a) as [e|out] eqn:Ea.
  { split_and!; [done..|]. destruct (rate_limited e) eqn:EB; [by right|left]. apply quiet_snoc; [done|].
    intros err. simpl. unfold failure. rewrite Ea. by intros [= <-]. }
  assert (quiet log1) as HQ1.
  { apply quiet_snoc; [done|]. intros err. simpl. unfold failure. by rewrite Ea. }
  unfold errors_or. destruct (li_Errors out) eqn:EE; simpl; [|by split_and!; auto].
  destruct (map_nodes (li_Nodes out)) as [e|mapped] eqn:EM; [by simpl; split_and!; auto|]. apply holds_ret_inr.
  apply map_nodes_inr in EM.
  assert (∀ i, i ∈ mapped → iss_BlockedBy i = None) as HN.
  { intros i Hi. apply list_elem_of_lookup in Hi as [k Hk].
    destruct (Forall2_lookup_l _ _ _ _ _ EM Hk) as (n & _ & _ & ?). done. }
  assert (answered_page log1 slug states after out) as HA.
  { exists a. split; [|done]. unfold log1. apply elem_of_app. right. by apply list_elem_of_singleton. }
  apply holds_bind. eapply holds_mono; [by apply (reads_attach c srv rate_limited mapped log1)|].
  intros log2 [err|issues] (Hp2 & HL2 & HR).
  2:{ destruct HR as [HQ2 HR]. split; [by etrans|]. split; [congruence|]. split; [done|].
      exists out. split; [by eapply answered_page_mono|]. split; [done|]. by eapply attached_listed. }
  simpl. split; [by left|]. generalize (srv log2 CtxErr) as ctxErr. intros ctxErr.
  set (log3 := log2 ++ [Ex CtxErr ctxErr]).
  assert (log `prefix_of` log3) as Hp3 by (etrans; [done|]; etrans; [done|]; by eexists).
  assert (omap is_listing log3 = omap is_listing log ++ [after]) as HL3.
  { unfold log3. rewrite omap_app. simpl. by rewrite app_nil_r, HL2. }
  assert (quiet log2 → quiet log3) as HQ3 by by intros; apply quiet_snoc.
  destruct ctxErr as [|k ctxErr].
  - destruct (errors_Is err ErrRateLimited) eqn:ER; simpl; (split; [done|split; [done|]]); [by right|].
    destruct HR as [HQ2|HB]; [|unfold rate_limited in HB; congruence]. split; [by apply HQ3|].
    exists out. split; [|split; [done|]].
    { eapply answered_page_mono, HA. etrans; [done|]. by eexists. }
    eapply attached_listed; [done|]. apply attached_by; [done|].
    intros i Hi ET. unfold blockers_known. rewrite ET. by left.
  - simpl. split_and!; [done..|]. destruct HR as [HQ2|HB]; [by left; apply HQ3|right].
    unfold rate_limited, errors_Is in *. apply bool_decide_eq_true in HB. apply bool_decide_eq_true. set_solver.
Qed.

Definition listing_read after (issues : list Issue) (fuel : nat) (log log' : Log) (r : Err + list Issue) : Prop :=
  log `prefix_of` log' ∧
  match r with
  | inl e => quiet log' ∨ rate_limited e = true
  | inr result =>
      quiet log' ∧ ∃ pages more, result = issues ++ more ∧ listing_pages log' slug states after pages ∧
        Forall2 (listed_from log') more (concat (map li_Nodes pages)) ∧ (length pages ≤ fuel)%nat ∧
        omap is_listing log' = omap is_listing log ++ page_cursors after pages
  end.

Lemma holds_list_pages fuel page after issues log :
  quiet log → holds log (list_pages c fuel slug states page after issues) (listing_read after issues fuel log).
Proof.
  revert page after issues log. induction fuel as [|fuel IH]; intros page after issues log HQ; cbn [list_pages].
  { split; [done|by left]. }
  apply holds_or_fail. eapply holds_mono; [by apply holds_page|].
  intros log1 [e|[mapped pageInfo]] (Hp1 & HL1 & HR); [by split|].
  destruct HR as (HQ1 & out & HA & -> & HF). unfold nextLinearIssueCursor.
  destruct (HasNextPage (li_PageInfo out)) eqn:EN; simpl.
  2:{ split; [done|]. split; [done|]. exists [out], mapped. simpl. rewrite app_nil_r. split_and!; try done. lia. }
  destruct (issueMaxPages c <=? page); simpl; [by split; auto|].
  destruct (String.eqb_spec (EndCursor (li_PageInfo out)) "") as [|HC]; simpl; [by split; auto|].
  eapply holds_mono; [by apply IH|]. intros log2 [e|result] (Hp2 & HR2); (split; [by etrans|]); [done|].
  destruct HR2 as (HQ2 & pages & more & -> & HP & HM & Hl & HL2). split; [done|].
  exists (out :: pages), (mapped ++ more). split_and!.
  - by rewrite app_assoc.
  - simpl. split; [by eapply answered_page_mono|]. destruct pages; [done|]. done.
  - simpl. apply Forall2_app; [|done]. eapply Forall2_impl; [exact HF|]. intros i n. by apply listed_from_mono.
  - simpl. lia.
  - rewrite HL2, HL1. simpl. by rewrite <- app_assoc.
Qed.
End Listing.

(** * The Linear client's operations (internal/tracker/linear.go, linear_refresh.go)

    What a listing and a refresh return, in terms of Linear's answers, and when they stop
    asking. *)


(** ** A chunk of a refresh *)

Section Classify.
Context {HD : HttpDates} (log : Log) (chunk : list string) (out : linearIssueStatesResponse)
  (nodes : list linearIssueStateNode).
Context (HA : answered_states log chunk out) (HN : ls_Nodes out = Some nodes).

Lemma state_labels_inr names labels :
  state_labels names = inr labels → ∃ ls, names = map Some ls ∧ labels = map norm ls.
Proof.
  revert labels. induction names as [|[name|] rest IH]; intros labels; simpl; [intros [= <-]; by exists []| |done].
  destruct (blank name); [done|]. destruct (state_labels rest) as [|labels']; [done|].
  destruct (IH labels' eq_refl) as (ls & -> & ->). intros [= <-]. by exists (name :: ls).
Qed.

(** While the nodes are read: the rows of the ids seen rest on their nodes, the others are
    still absent, and the nodes read have the ids seen. *)
Record classifying (read : list linearIssueStateNode) (classified : StateMap) (seen : gset string) : Prop := {
  cl_keys : ∀ id, is_Some (classified !! id) ↔ id ∈ chunk;
  cl_rows : ∀ id st, classified !! id = Some st →
    if bool_decide (id ∈ seen) then ist_Outcome st = IssueStateOutcomeCurrent ∧ current_evidence log id st ∧ ist_BlockedBy st = None
    else st = absent_row;
  cl_seen : ∀ node, node ∈ read → ∃ raw, sn_ID node = Some raw ∧ TrimSpace raw ∈ seen;
  cl_sub : seen ⊆ set_of chunk
}.

Lemma classify_step read node classified seen classified' seen' :
  node ∈ nodes → classifying read classified seen →
  classifyLinearIssueStateNode node classified seen = inr (classified', seen') →
  classifying (read ++ [node]) classified' seen'.
Proof.
  intros Hin HC. destruct node as [[raw|] [[name|]|] [[labels|]|]]; try done. simpl.
  destruct (String.eqb (TrimSpace raw) "") eqn:E1; [done|]. destruct (blank name) eqn:E2; [done|]. simpl.
  destruct (classified !! TrimSpace raw) as [st0|] eqn:EC; [|done].
  case_bool_decide as ES; [done|]. destruct (state_labels labels) as [|ls] eqn:EL; [done|].
  intros [= <- <-]. destruct HC as [HK HR HS HB].
  assert (TrimSpace raw ∈ chunk) as Hchunk by (apply HK; eauto). constructor.
  - intros id. rewrite lookup_insert_is_Some', HK. set_solver.
  - intros id st. rewrite lookup_insert_Some. intros [[<- <-]|[Hne Hst]].
    + rewrite bool_decide_eq_true_2 by set_solver. split_and!; try done. simpl.
      apply state_labels_inr in EL as (l & -> & ->). exists chunk, out, nodes, raw, name, l. split_and!; try done.
      unfold blank in E2. by apply String.eqb_neq.
    + rewrite (bool_decide_ext _ (id ∈ seen)) by set_solver. by apply HR.
  - intros node [Hn| ->%list_elem_of_singleton]%elem_of_app; [|exists raw; set_solver].
    destruct (HS node Hn) as (raw' & ? & ?). exists raw'. set_solver.
  - rewrite <- elem_of_set_of in Hchunk. set_solver.
Qed.

Lemma classify_nodes_inr rest read classified seen result :
  read ++ rest = nodes → classifying read classified seen → classify_nodes rest classified seen = inr result →
  ∃ seen', classifying nodes result seen'.
Proof.
  revert read classified seen. induction rest as [|node rest IH]; intros read classified seen Er HC; simpl.
  - rewrite app_nil_r in Er. subst read. intros [= <-]. eauto.
  - destruct (classifyLinearIssueStateNode node classified seen) as [|[classified' seen']] eqn:E; [done|].
    apply (IH (read ++ [node])); [by rewrite <- app_assoc|]. eapply classify_step; [|done..]. rewrite <- Er. set_solver.
Qed.

(** A row of a refresh that rests on an answer. *)
Definition row_evidence (log : Log) (id : string) (st : IssueState) : Prop :=
  ist_Outcome st = IssueStateOutcomeCurrent ∧ current_evidence log id st ∨
  ist_Outcome st = IssueStateOutcomeAbsent ∧ ist_State st = "" ∧ absent_evidence log id.

Lemma fold_absent_lookup l (m : StateMap) id :
  fold_left (λ m id, <[id := absent_row]> m) l m !! id = if bool_decide (id ∈ l) then Some absent_row else m !! id.
Proof.
  revert m. induction l as [|x l IH]; intros m; simpl; [done|]. rewrite IH.
  destruct (decide (id ∈ l)); [rewrite !bool_decide_eq_true_2 by set_solver; done|].
  rewrite (bool_decide_eq_false_2 (id ∈ l)) by done. destruct (decide (id = x)) as [->|].
  - rewrite lookup_insert. by rewrite decide_True, bool_decide_eq_true_2 by set_solver.
  - rewrite lookup_insert_ne by done. by rewrite bool_decide_eq_false_2 by set_solver.
Qed.

Lemma classify_chunk_inr result :
  classifyLinearIssueStateChunk chunk out = inr result →
  (∀ id, is_Some (result !! id) ↔ id ∈ chunk) ∧
  ∀ id st, result !! id = Some st → row_evidence log id st ∧ ist_BlockedBy st = None.
Proof.
  unfold classifyLinearIssueStateChunk. rewrite HN. intros E.
  apply (classify_nodes_inr _ []) in E as (seen & [HK HR HS HB]); [|done|].
  - split; [done|]. intros id st Hst. specialize (HR id st Hst). revert HR. unfold row_evidence.
    case_bool_decide as Hs; [intuition|]. intros ->. split; [right|done]. split_and!; [done..|].
    exists chunk, out, nodes. split_and!; [done| |done|]. { apply HK. eauto. }
    intros node Hn. destruct (HS node Hn) as (raw & ? & Hraw). exists raw. split; [done|].
    split; [by intros <-|]. apply elem_of_set_of, HB, Hraw.
  - constructor; [| |set_solver..].
    + intros id. rewrite fold_absent_lookup. case_bool_decide; [naive_solver|]. rewrite lookup_empty. by split; [intros [? [=]]|].
    + intros id st. rewrite fold_absent_lookup, lookup_empty. case_bool_decide; [|done]. by intros [= <-].
Qed.
End Classify.

(** ** The refresh *)

Section Refresh.
Context {HD : HttpDates} (c : LinearClient) (srv : Server Answer).
Notation quiet := (quiet stops).
Notation holds := (holds (only_while_quiet stops) srv).

Lemma row_evidence_mono log log' id st : log `prefix_of` log' → row_evidence log id st → row_evidence log' id st.
Proof. unfold row_evidence. intros Hp. naive_solver eauto using current_evidence_mono, absent_evidence_mono. Qed.

(** The rows after some chunks: an id already asked for has its evidence, or an error was
    recorded; the other rows are Unknown. *)
Record refreshing (ids done : list string) (log : Log) (states : StateMap) (errs : list Err) : Prop := {
  rf_keys : ∀ id, is_Some (states !! id) ↔ id ∈ ids;
  rf_rows : ∀ id st, states !! id = Some st →
    st = unknown_row ∧ (errs ≠ [] ∨ id ∉ done) ∨ row_evidence log id st ∧ ist_BlockedBy st = None
}.

Lemma refreshing_mono ids done log log' states errs :
  log `prefix_of` log' → refreshing ids done log states errs → refreshing ids done log' states errs.
Proof. intros Hp [HK HR]. constructor; [done|]. intros id st Hst. destruct (HR id st Hst); [by left|right]. naive_solver eauto using row_evidence_mono. Qed.

Lemma refreshing_error ids done done' log states errs err :
  refreshing ids done log states errs → refreshing ids done' log states (errs ++ [err]).
Proof. intros [HK HR]. constructor; [done|]. intros id st Hst. destruct (HR id st Hst) as [[? _]|?]; [left|by right]. split; [done|left]. by destruct errs. Qed.

Lemma refreshing_chunk ids done chunk log states errs chunkStates :
  chunk ⊆ ids → refreshing ids done log states errs →
  (∀ id, is_Some (chunkStates !! id) ↔ id ∈ chunk) →
  (∀ id st, chunkStates !! id = Some st → row_evidence log id st ∧ ist_BlockedBy st = None) →
  refreshing ids (done ++ chunk) log (chunkStates ∪ states) errs.
Proof.
  intros Hsub [HK HR] HK' HR'. constructor.
  - intros id. rewrite lookup_union_is_Some, HK, HK'. set_solver.
  - intros id st. rewrite lookup_union_Some_raw. intros [Hst|[HN Hst]]; [right; by apply HR'|].
    destruct (HR id st Hst) as [[-> HD']|?]; [left|by right]. split; [done|].
    destruct HD' as [?|Hd]; [by left|right]. rewrite not_elem_of_app, <- HK', HN. split; [done|]. by intros [? ?].
Qed.

(** The context is read at most twice, and no more is asked. *)
Lemma holds_should_stop log err :
  quiet log →
  holds log (ShouldStopIssueStateRefresh ctx_Err err)
    (λ log' stop, log `prefix_of` log' ∧ quiet log' ∧ (stops err = true → stop = true)).
Proof.
  intros HQ. unfold ShouldStopIssueStateRefresh. destruct (stops err) eqn:ES; [done|].
  simpl. split; [by left|]. generalize (srv log CtxErr) as e1. intros e1.
  assert (quiet (log ++ [Ex CtxErr e1])) as HQ1 by by apply quiet_snoc.
  destruct (errors_Is e1 Canceled); simpl; [by split_and!; [eexists| |]|].
  split; [by left|]. split_and!; [|by apply quiet_snoc|done]. rewrite <- app_assoc. by eexists.
Qed.

Lemma holds_refresh_chunks ids done cs log states errs :
  quiet log → done ++ concat cs = ids → refreshing ids done log states errs →
  holds log (refresh_chunks cs states errs)
    (λ log' r, let '(states', errs', halted) := r in
       log `prefix_of` log' ∧ refreshing ids ids log' states' errs' ∧ (halted = false → quiet log')).
Proof.
  revert done log states errs. induction cs as [|chunk rest IH]; intros done log states errs HQ Ei HR; cbn [refresh_chunks concat].
  { rewrite app_nil_r in Ei. by subst done. }
  simpl. split; [by right|]. generalize (srv log (IssueStatesByIDs chunk (slice_len chunk))) as a. intros a.
  set (log1 := log ++ [Ex (IssueStatesByIDs chunk (slice_len chunk)) a]).
  assert (log `prefix_of` log1) as Hp1 by by eexists.
  assert (∀ P, (stops P = false → linear_result a = inl P → quiet log1)) as HQerr.
  { intros e HS Ea. apply quiet_snoc; [done|]. intros err. simpl. unfold failure. rewrite Ea. by intros [= <-]. }
  assert (∀ log2 states2 errs2, log1 `prefix_of` log2 → quiet log2 → refreshing ids (done ++ chunk) log2 states2 errs2 →
    holds log2 (refresh_chunks rest states2 errs2)
      (λ log' r, let '(states', errs', halted) := r in
         log `prefix_of` log' ∧ refreshing ids ids log' states' errs' ∧ (halted = false → quiet log'))) as Hrest.
  { intros log2 states2 errs2 Hp2 HQ2 HR2. eapply holds_mono; [apply (IH (done ++ chunk)); [done| |done]|].
    - by rewrite <- app_assoc.
    - intros log3 [[? ?] ?] (? & ? & ?). split_and!; [|done..]. etrans; [done|]. by etrans. }
  eapply refreshing_mono in HR; [|exact Hp1].
  destruct (linear_result a) as [err|out] eqn:Ea.
  - destruct (stops err) eqn:ES.
    + unfold ShouldStopIssueStateRefresh. rewrite ES. simpl. split_and!; [done| |done]. by apply (refreshing_error ids done).
    + apply holds_bind. eapply holds_mono; [by apply holds_should_stop, (HQerr err)|].
      intros log2 stop (Hp2 & HQ2 & _). apply (refreshing_mono _ _ _ log2) in HR; [|done]. destruct stop; simpl.
      * split_and!; [by etrans| |done]. by apply (refreshing_error ids done).
      * apply Hrest; [done..|]. by apply (refreshing_error ids done).
  - assert (quiet log1) as HQ1.
    { apply quiet_snoc; [done|]. intros err. simpl. unfold failure. by rewrite Ea. }
    destruct (ls_Errors out) as [|? ?] eqn:EE; simpl; [|apply Hrest; [done..|by apply (refreshing_error ids done)]].
    destruct (classifyLinearIssueStateChunk chunk out) as [e|chunkStates] eqn:EC; [apply Hrest; [done..|by apply (refreshing_error ids done)]|].
    apply Hrest; [done..|]. destruct (ls_Nodes out) as [nodes|] eqn:EN.
    2:{ unfold classifyLinearIssueStateChunk in EC. by rewrite EN in EC. }
    apply (classify_chunk_inr log1 chunk out nodes) in EC as [HK HE]; [|exists a; set_solver|done].
    apply refreshing_chunk; [|done..]. rewrite <- Ei. set_solver.
Qed.

Definition with_blockers (st : IssueState) (b : option (list BlockerRef)) : IssueState :=
  {| ist_Outcome := ist_Outcome st; ist_State := ist_State st; ist_Labels := ist_Labels st; ist_BlockedBy := b |}.
(** A row of the result. *)
Definition refreshed_row (log : Log) (err : option Err) (id : string) (st : IssueState) : Prop :=
  st = unknown_row ∧ err ≠ None ∨
  row_evidence log id st ∧ blockers_known log id (ist_State st) (ist_BlockedBy st).
Definition ranges (order : StateMap → list string) : Prop := ∀ m id, id ∈ order m ↔ is_Some (m !! id).

Lemma set_blockers_lookup blockers ids (m : StateMap) id :
  fold_left (set_blockers blockers) ids m !! id =
  (λ st, if bool_decide (id ∈ ids) then with_blockers st (blockers !! id) else st) <$> m !! id.
Proof.
  revert m. induction ids as [|x ids IH]; intros m; simpl; [by destruct (m !! id)|].
  rewrite IH. unfold set_blockers at 1. destruct (decide (id = x)) as [->|Hne].
  - rewrite (bool_decide_eq_true_2 (x ∈ x :: ids)) by set_solver.
    destruct (m !! x) as [st|] eqn:E; [|by rewrite E]. rewrite lookup_insert, decide_True by done. simpl. by case_bool_decide.
  - rewrite (bool_decide_ext (id ∈ x :: ids) (id ∈ ids)) by set_solver.
    destruct (m !! x) as [st|] eqn:E; [|done]. by rewrite lookup_insert_ne.
Qed.

Lemma failClosedTodoBlockers_lookup (m : StateMap) id :
  failClosedTodoBlockers m !! id =
  (λ st, if isTodoState (ist_State st) then with_blockers st (Some [zero_BlockerRef]) else st) <$> m !! id.
Proof. unfold failClosedTodoBlockers. by rewrite lookup_fmap. Qed.

Lemma errors_Join_None errs : errors_Join errs = None ↔ errs = [].
Proof. by destruct errs. Qed.

(** The rows of a refresh whose chunks are done, with blockers given to the Todo ones. *)
Lemma refreshed_rows ids log (states states' : StateMap) errs f :
  refreshing ids ids log states errs →
  (∀ id, states' !! id = (λ st, if isTodoState (ist_State st) then with_blockers st (f id) else st) <$> states !! id) →
  (∀ id st, states !! id = Some st → isTodoState (ist_State st) = true → blockers_known log id (ist_State st) (f id)) →
  (∀ id, is_Some (states' !! id) ↔ id ∈ ids) ∧
  ∀ id st, states' !! id = Some st → refreshed_row log (errors_Join errs) id st.
Proof.
  intros [HK HR] HL HB. split; [intros id; by rewrite HL, fmap_is_Some, HK|].
  intros id st. rewrite HL. destruct (states !! id) as [st0|] eqn:E; [|done]. intros [= <-].
  assert (id ∈ ids) as Hid by (apply HK; eauto).
  destruct (HR id st0 E) as [[-> [He|Hn]]|[HE HN]]; [|done|].
  - left. split; [done|]. by rewrite errors_Join_None.
  - right. specialize (HB id st0 E). destruct (isTodoState (ist_State st0)) eqn:ET; simpl; [by split; [|apply HB]|].
    split; [done|]. unfold blockers_known. by rewrite ET.
Qed.

Lemma holds_attach_refreshed order ids log states errs :
  ranges order → quiet log → refreshing ids ids log states errs →
  holds log
    (ask* attached := attachRefreshedTodoBlockers c (order states) states in
     match attached with
     | inr states => Ret (states, errors_Join errs)
     | inl _ => Ret (failClosedTodoBlockers states, errors_Join errs)
     end)
    (λ log' r, (∀ id, is_Some (r.1 !! id) ↔ id ∈ ids) ∧ ∀ id st, r.1 !! id = Some st → refreshed_row log' r.2 id st).
Proof.
  intros Ho HQ HR. apply holds_bind. set (todo := filter (todo_row states) (order states)).
  assert (∀ id, id ∈ todo ↔ ∃ st, states !! id = Some st ∧ isTodoState (ist_State st) = true) as Htodo.
  { intros id. unfold todo, todo_row. rewrite list_elem_of_filter, (Ho states).
    destruct (states !! id) as [st|]; [|naive_solver]. rewrite Is_true_true. naive_solver. }
  assert (∀ log', log `prefix_of` log' → refreshing ids ids log' states errs) as HR' by (intros; by eapply refreshing_mono).
  unfold attachRefreshedTodoBlockers. fold todo.
  assert (∀ log', log `prefix_of` log' →
    (∀ id, is_Some (failClosedTodoBlockers states !! id) ↔ id ∈ ids) ∧
    ∀ id st, failClosedTodoBlockers states !! id = Some st → refreshed_row log' (errors_Join errs) id st) as Hclosed.
  { intros log' Hp. eapply (refreshed_rows _ _ states _ _ (λ _, Some [zero_BlockerRef])); [by apply HR'|..].
    - intros id. apply failClosedTodoBlockers_lookup.
    - intros id st _ ET. unfold blockers_known. rewrite ET. by left. }
  destruct todo as [|x todo'] eqn:Et.
  { simpl. eapply (refreshed_rows _ _ states _ _ (λ _, None)); [by apply HR'|..].
    - intros id. destruct (states !! id) as [st|] eqn:E; [|done]. simpl.
      destruct (isTodoState (ist_State st)) eqn:ET; [|done]. exfalso.
      assert (id ∈ @nil string) as Hin by (apply Htodo; eauto). by apply elem_of_nil in Hin.
    - intros id st E ET. assert (id ∈ @nil string) as Hin by (apply Htodo; eauto). by apply elem_of_nil in Hin. }
  rewrite <- Et in *. apply holds_or_fail.
  eapply holds_mono; [by apply (reads_issue_blockers c srv stops)|].
  intros log1 [e|blockers] (Hp & _ & HB); simpl; [by apply Hclosed|]. destruct HB as [_ HB].
  eapply (refreshed_rows _ _ states _ _ (λ id, blockers !! id)); [by apply HR'|..].
  - intros id. rewrite set_blockers_lookup. destruct (states !! id) as [st|] eqn:E; [|done]. simpl. f_equal.
    destruct (isTodoState (ist_State st)) eqn:ET.
    + rewrite bool_decide_eq_true_2; [done|]. apply Htodo. eauto.
    + rewrite bool_decide_eq_false_2; [done|]. rewrite Htodo. naive_solver congruence.
  - intros id st E ET. unfold blockers_known. rewrite ET. right. apply HB, elem_of_set_of, Htodo. eauto.
Qed.

Lemma holds_refresh order issueIDs :
  ranges order →
  holds [] (FetchIssueStatesByIDs c order issueIDs)
    (λ log r, (∀ id, is_Some (r.1 !! id) ↔ id ∈ requested_ids (IssueRefsFromIDs issueIDs)) ∧
              ∀ id st, r.1 !! id = Some st → refreshed_row log r.2 id st).
Proof.
  intros Ho. unfold FetchIssueStatesByIDs, unknownIssueStatesByIDs.
  destruct (UnknownIssueStatesByRefs_inv (IssueRefsFromIDs issueIDs)) as (Hv & Hs & _ & Hin).
  destruct (UnknownIssueStatesByRefs (IssueRefsFromIDs issueIDs)) as [states refs]. simpl in *.
  set (wanted := requested_ids _) in *. set (ids := map ref_ID refs) in *.
  destruct (String.eqb (APIKey c) "").
  { simpl. split; [done|]. intros id st Hst. left. split; [by eapply Hv|done]. }
  assert (quiet []) as HQ by by intros e err H%elem_of_nil.
  assert (∀ id, id ∈ wanted ↔ id ∈ ids) as Hids by (intros id; by rewrite Hin).
  destruct ids as [|x ids'] eqn:Ei.
  { simpl. split; [done|]. intros id st Hst. assert (id ∈ wanted) as Hw by (apply Hs; eauto). apply Hids in Hw. by apply elem_of_nil in Hw. }
  rewrite <- Ei in *. apply holds_bind.
  eapply holds_mono; [apply (holds_refresh_chunks ids []); [done|by rewrite concat_id_chunks|]|].
  { constructor; [intros id; by rewrite Hs, Hids|]. intros id st Hst. left. split; [by eapply Hv|]. right. set_solver. }
  intros log1 [[states1 errs] halted] (_ & HR & HQ1). destruct halted.
  - simpl. destruct (refreshed_rows ids log1 states1 (failClosedTodoBlockers states1) errs (λ _, Some [zero_BlockerRef]) HR) as [HK HRow].
    + intros id. apply failClosedTodoBlockers_lookup.
    + intros id st _ ET. unfold blockers_known. rewrite ET. by left.
    + split; [|done]. intros id. by rewrite HK, Hids.
  - eapply holds_mono; [by apply holds_attach_refreshed; [|apply HQ1|]|]. intros log2 r [HK HRow].
    split; [|done]. intros id. by rewrite HK, Hids.
Qed.
End Refresh.

(** ** The caps bound the loops: more fuel changes nothing *)

Lemma run_or_fail_ext {E A B} (srv : Server Answer) log (p : Linear (E + A)) (f g : A → Linear (E + B)) :
  (∀ log a, run srv log (f a) = run srv log (g a)) → run srv log (ask_or_fail p f) = run srv log (ask_or_fail p g).
Proof.
  intros H. revert log. induction p as [[e|a]|q k IH]; intros log; simpl; [done|apply H|]. apply IH.
Qed.

Lemma issueMaxPages_pos c : 0 < issueMaxPages c.
Proof. unfold issueMaxPages, maxLinearIssuePages. destruct (Z.ltb_spec 0 (PaginationMaxPages c)); lia. Qed.

Lemma list_pages_fuel `{HttpDates} c srv slug states extra fuel page after issues log :
  page ≤ issueMaxPages c < Z.of_nat fuel + page →
  run srv log (list_pages c (fuel + extra) slug states page after issues) =
  run srv log (list_pages c fuel slug states page after issues).
Proof.
  revert page after issues log. induction fuel as [|fuel IH]; intros page after issues log Hf; [lia|].
  simpl Nat.add. cbn [list_pages]. apply run_or_fail_ext. intros log1 [mapped pageInfo].
  unfold nextLinearIssueCursor. destruct (negb _); [done|].
  destruct (Z.leb_spec (issueMaxPages c) page); [done|]. destruct (String.eqb _ _); [done|]. apply IH. lia.
Qed.

Lemma relation_pages_fuel `{HttpDates} c srv id extra fuel blockers next cursor page log :
  page ≤ issueMaxPages c < Z.of_nat fuel + page →
  run srv log (relation_pages c (fuel + extra) id blockers next cursor page) =
  run srv log (relation_pages c fuel id blockers next cursor page).
Proof.
  revert blockers next cursor page log. induction fuel as [|fuel IH]; intros blockers next cursor page log Hf; [lia|].
  simpl Nat.add. cbn [relation_pages]. destruct (negb next); [done|].
  destruct (Z.leb_spec (issueMaxPages c) page); [done|]. destruct (String.eqb _ _); [done|].
  apply run_or_fail_ext. intros log1 out. apply run_or_fail_ext. intros log2 _. destruct (lr_Issue out); [|done].
  apply run_or_fail_ext. intros log3 [[nodes nxt] cur]. apply IH. lia.
Qed.

(** ** Theorems *)

Lemma holds_ListIssuesByStates `{HttpDates} c srv states :
  holds (only_while_quiet rate_limited) srv [] (ListIssuesByStates c states)
    (λ log r, match r with
       | inl e => quiet rate_limited log ∨ rate_limited e = true
       | inr issues =>
           quiet rate_limited log ∧
           (normalizeRequestedStates states ≠ [] →
            ∃ pages, listing_pages log (TrimSpace (ProjectSlug c)) (normalizeRequestedStates states) None pages ∧
              omap is_listing log = page_cursors None pages ∧ Z.of_nat (length pages) ≤ issueMaxPages c ∧
              Forall2 (listed_from log) issues (concat (map li_Nodes pages)))
       end).
Proof.
  assert (quiet rate_limited []) as HQ by by intros e err Hin%elem_of_nil.
  unfold ListIssuesByStates, requireListIssuesConfig.
  destruct (String.eqb (APIKey c) ""); [by left|]. destruct (String.eqb (TrimSpace (ProjectSlug c)) ""); [by left|].
  apply holds_ret_inr. destruct (normalizeRequestedStates states) as [|s rest] eqn:E; [done|].
  eapply holds_mono; [by apply holds_list_pages|]. intros log [e|result] [_ HR]; [done|].
  destruct HR as (HQ1 & pages & more & -> & HP & HM & Hl & HL). split; [done|]. intros _. exists pages.
  split_and!; try done. pose proof (issueMaxPages_pos c). lia.
Qed.

(** a listing that returns is complete.  It read the pages of the project's issues in
    the wanted states from the first to the one without a successor, following each page's
    cursor and asking for each once, at most the configured number; its issues are the
    nodes of those pages in order; an issue in Todo has every blocker Linear reports for
    it, over all pages of its relations, or one placeholder that blocks, and no other issue
    has blockers. *)
Theorem linear_listing_complete `{HttpDates} c srv states log issues :
  run srv [] (ListIssuesByStates c states) = (log, inr issues) → normalizeRequestedStates states ≠ [] →
  ∃ pages, listing_pages log (TrimSpace (ProjectSlug c)) (normalizeRequestedStates states) None pages ∧
    omap is_listing log = page_cursors None pages ∧ Z.of_nat (length pages) ≤ issueMaxPages c ∧
    Forall2 (listed_from log) issues (concat (map li_Nodes pages)).
Proof.
  intros E Hs. pose proof (holds_run _ _ _ _ _ (holds_ListIssuesByStates c srv states)) as HR. rewrite E in HR.
  by apply HR.
Qed.

(** The rows of a refresh are exactly the ids asked for, trimmed and without the empty
    ones, and each rests on Linear's answers.  A Current row is a node of an answered chunk
    that named its state and labels; an Absent row was asked for in a chunk whose every
    node is another issue of it; a row is Unknown only next to an error.  Blockers are
    complete or the placeholder. *)
Theorem linear_refresh_evidence `{HttpDates} c srv order issueIDs log states err :
  ranges order → run srv [] (FetchIssueStatesByIDs c order issueIDs) = (log, (states, err)) →
  (∀ id, is_Some (states !! id) ↔ id ∈ requested_ids (IssueRefsFromIDs issueIDs)) ∧
  ∀ id st, states !! id = Some st → refreshed_row log err id st.
Proof.
  intros Ho E. pose proof (holds_run _ _ _ _ _ (holds_refresh c srv order issueIDs Ho)) as HR. by rewrite E in HR.
Qed.

(** The client does not go on after an answer that spends its budget.  A listing sends
    nothing after a rate-limited answer and then fails as rate limited; a refresh sends
    nothing after an answer that was rate limited, too large, canceled or late. *)
Theorem linear_stops_asking `{HttpDates} c srv :
  (∀ states before q a after,
     (run srv [] (ListIssuesByStates c states)).1 = before ++ Ex q a :: after → q ≠ CtxErr →
     quiet rate_limited before) ∧
  (∀ states, let '(log, r) := run srv [] (ListIssuesByStates c states) in
     ¬ quiet rate_limited log → ∃ e, r = inl e ∧ rate_limited e = true) ∧
  (∀ order issueIDs before q a after, ranges order →
     (run srv [] (FetchIssueStatesByIDs c order issueIDs)).1 = before ++ Ex q a :: after → q ≠ CtxErr →
     quiet stops before).
Proof.
  split_and!.
  - intros states before q a after E Hq.
    destruct (holds_requests _ _ _ _ _ (holds_ListIssuesByStates c srv states) _ _ _ _ E) as [?|?]; [simpl; lia|done..].
  - intros states. pose proof (holds_run _ _ _ _ _ (holds_ListIssuesByStates c srv states)) as HR.
    destruct (run _ _ _) as [log [e|issues]]; intros Hn; [|by destruct HR]. destruct HR; [done|]. by exists e.
  - intros order issueIDs before q a after Ho E Hq.
    destruct (holds_requests _ _ _ _ _ (holds_refresh c srv order issueIDs Ho) _ _ _ _ E) as [?|?]; [simpl; lia|done..].
Qed.

(** ** Witnesses *)

#[local] Instance no_dates : HttpDates := λ _, None.
Definition demo_client : LinearClient :=
  {| APIKey := "key"; ProjectSlug := " proj "; PaginationMaxPages := 3; ActiveStates := ["Todo"; " "; "Doing "] |}.
Definition no_header : RateHeader := {| h_RetryAfter := ""; h_RateLimitReset := ""; h_now := unix_epoch |}.
Definition demo_node (id state : string) : linearIssueNode :=
  {| ln_ID := id; ln_Identifier := "ENG-" +:+ id; ln_Title := "t"; ln_Description := ""; ln_URL := ""; ln_Priority := 2;
     ln_BranchName := ""; ln_CreatedAt := "2024-01-02T03:04:05Z"; ln_UpdatedAt := ""; ln_Labels := [" Bug"; " "]; ln_State := state |}.
Definition demo_relations (r : linearRelationNode) (next : bool) (cursor : option string) : option linearInverseRelationsPage :=
  Some {| ir_Nodes := Some [r]; ir_PageInfo := Some (Some next, cursor) |}.
(** Two pages of issues; the Todo issue's relations take two pages as well. *)
Definition demo_server (log : Log) (q : LinearQuery) : Answer q :=
  match q with
  | ListIssues _ _ _ None =>
      HttpResponse 200 no_header (inl []) (inl {| li_Nodes := [demo_node "i1" "Todo"];
        li_PageInfo := {| HasNextPage := true; EndCursor := "c1" |}; li_Errors := [] |})
  | ListIssues _ _ _ (Some _) =>
      HttpResponse 200 no_header (inl []) (inl {| li_Nodes := [demo_node "i2" "Doing"];
        li_PageInfo := {| HasNextPage := false; EndCursor := "" |}; li_Errors := [] |})
  | ListIssuesInverseRelations _ _ =>
      HttpResponse 200 no_header (inl []) (inl {| lb_Nodes := Some [(Some "i1 ",
        demo_relations {| rel_Type := "blocks"; rel_ID := "b1"; rel_Identifier := "ENG-b1"; rel_State := "Doing" |} true (Some "r1"))];
        lb_Errors := [] |})
  | ListIssueInverseRelations _ _ =>
      HttpResponse 200 no_header (inl []) (inl {| lr_Issue := Some
        (demo_relations {| rel_Type := "related"; rel_ID := ""; rel_Identifier := ""; rel_State := "" |} false None); lr_Errors := [] |})
  | IssueStatesByIDs _ _ =>
      HttpResponse 200 no_header (inl []) (inl {| ls_Nodes := Some
        [{| sn_ID := Some "i1"; sn_State := Some (Some "Todo"); sn_Labels := Some (Some [Some "Bug "]) |}]; ls_Errors := [] |})
  | CtxErr => []
  end.
(** The same, but relations are rate limited. *)
Definition limited_server (log : Log) (q : LinearQuery) : Answer q :=
  match q with
  | ListIssuesInverseRelations _ _ =>
      HttpResponse 429 {| h_RetryAfter := " 120 "; h_RateLimitReset := ""; h_now := unix_epoch |} (inl []) (inr [])
  | q => demo_server log q
  end.

Definition ok_of {A} (r : Log * (Err + list A)) : list A := match r.2 with inr l => l | inl _ => [] end.
Lemma linear_listing_complete_witness :
  let r := run demo_server [] (ListActiveIssues demo_client) in
  r.2 = inr (ok_of r) ∧ map iss_BlockedBy (ok_of r) = [Some [Build_BlockerRef "b1" "ENG-b1" "Doing"]; None] ∧
  ∃ pages, listing_pages r.1 "proj" ["Todo"; "Doing"] None pages ∧
    omap is_listing r.1 = page_cursors None pages ∧ Z.of_nat (length pages) ≤ 3 ∧
    Forall2 (listed_from r.1) (ok_of r) (concat (map li_Nodes pages)).
Proof.
  split_and!; [vm_compute; reflexivity..|].
  apply (linear_listing_complete demo_client demo_server ["Todo"; " "; "Doing "]); [vm_compute; reflexivity|vm_compute; discriminate].
Defined.

Definition key_order (m : StateMap) : list string := (map_to_list m).*1.
Lemma key_order_ranges : ranges key_order.
Proof.
  intros m id. unfold key_order. rewrite list_elem_of_fmap. split.
  - intros ([k st] & -> & H%elem_of_map_to_list). by exists st.
  - intros [st H]. exists (id, st). by rewrite elem_of_map_to_list.
Qed.
Lemma linear_refresh_evidence_witness :
  let r := run limited_server [] (FetchIssueStatesByIDs demo_client key_order ["i1"; " i2"; "i1"]) in
  r.2.1 !! "i1" = Some {| ist_Outcome := IssueStateOutcomeCurrent; ist_State := "Todo"; ist_Labels := ["bug"];
                          ist_BlockedBy := Some [zero_BlockerRef] |} ∧
  r.2.1 !! "i2" = Some absent_row ∧ r.2.2 = None ∧
  refreshed_row r.1 None "i2" absent_row.
Proof.
  split_and!; [vm_compute; reflexivity..|].
  apply (linear_refresh_evidence demo_client limited_server key_order ["i1"; " i2"; "i1"] _
    (run limited_server [] (FetchIssueStatesByIDs demo_client key_order ["i1"; " i2"; "i1"])).2.1 None);
    [apply key_order_ranges|vm_compute; reflexivity|vm_compute; reflexivity].
Defined.
Example limited_listing_fails :
  (run limited_server [] (ListActiveIssues demo_client)).2 = inl [InCategory CategoryRateLimited; RetryAfter (120 * Second)].
Proof. reflexivity. Qed.
