(* ===== verification/Regex.v ===== *)
(** * Leftmost-first regular expressions

    Go's regexp, for the expressions the tracker adapters use: classes, sequence, ordered
    choice, greedy repetition, one capture group and \b, on bytes (a folded letter beyond
    ASCII is its UTF-8 bytes).  [attempt] is the backtracking matcher, in the order Go
    prefers matches; [Matches] is what an expression means.  [attempt] finds a match
    exactly where there is one, and the search for references of the form "... #N" misses
    none of them. *)

From S2P Require Import Prelude GoStd Hashes.

Inductive Regex :=
| Eps
| Chr (p : Ascii.ascii → bool)
| Cat (r1 r2 : Regex)
| Alt (r1 r2 : Regex)
| Star (r : Regex)
| Lazy (r : Regex)
| Group (r : Regex)
| WordBoundary.

Definition is_word (c : Ascii.ascii) : bool :=
  in_range 48 57 c || in_range 65 90 c || in_range 97 122 c || byte_is 95 c.
(** Whether the byte before is a word's, what is left of the text, and the group so far. *)
Record At := { at_prev : bool; at_rest : string; at_group : string }.
Definition starts_word (s : string) : bool := match s with String c _ => is_word c | EmptyString => false end.
Definition at_boundary (a : At) : bool := xorb (at_prev a) (starts_word (at_rest a)).
Definition eat (c : Ascii.ascii) (t : string) (a : At) : At :=
  {| at_prev := is_word c; at_rest := t; at_group := at_group a |}.
Definition with_group (g : string) (a : At) : At := {| at_prev := at_prev a; at_rest := at_rest a; at_group := g |}.

(** One round more while it consumes and the rest matches, else none. *)
Fixpoint star {A} (m : (At → option A) → At → option A) (fuel : nat) (k : At → option A) (a : At) : option A :=
  match fuel with
  | O => k a
  | S fuel =>
      match m (fun a' => if (String.length (at_rest a') <? String.length (at_rest a))%nat then star m fuel k a' else None) a with
      | Some x => Some x
      | None => k a
      end
  end.
(** The same, with the rest tried first. *)
Fixpoint lazy_star {A} (m : (At → option A) → At → option A) (fuel : nat) (k : At → option A) (a : At) : option A :=
  match k a with
  | Some x => Some x
  | None =>
      match fuel with
      | O => None
      | S fuel =>
          m (fun a' => if (String.length (at_rest a') <? String.length (at_rest a))%nat then lazy_star m fuel k a' else None) a
      end
  end.
Fixpoint attempt {A} (r : Regex) (k : At → option A) (a : At) : option A :=
  match r with
  | Eps => k a
  | Chr p => match at_rest a with String c t => if p c then k (eat c t a) else None | EmptyString => None end
  | Cat r1 r2 => attempt r1 (attempt r2 k) a
  | Alt r1 r2 => match attempt r1 k a with Some x => Some x | None => attempt r2 k a end
  | Star r => star (attempt r) (String.length (at_rest a)) k a
  | Lazy r => lazy_star (attempt r) (String.length (at_rest a)) k a
  | Group r => attempt r (fun a' => k (with_group (between (at_rest a) (at_rest a')) a')) a
  | WordBoundary => if at_boundary a then k a else None
  end.

(** The leftmost match at or after a place: where it ends. *)
Fixpoint search (r : Regex) (prev : bool) (s : string) : option At :=
  match attempt r Some {| at_prev := prev; at_rest := s; at_group := "" |} with
  | Some a => Some a
  | None => match s with String c t => search r (is_word c) t | EmptyString => None end
  end.
(** [FindAllStringSubmatch(s, -1)], the group of each match, for an expression that never
    matches the empty text. *)
Fixpoint find_groups (fuel : nat) (r : Regex) (prev : bool) (s : string) : list string :=
  match fuel with
  | O => []
  | S fuel => match search r prev s with
              | Some a => at_group a :: find_groups fuel r (at_prev a) (at_rest a)
              | None => []
              end
  end.
Definition FindAllGroups (r : Regex) (s : string) : list string := find_groups (S (String.length s)) r false s.

(** ** Building blocks *)

Definition Plus (r : Regex) : Regex := Cat r (Star r).
Definition Opt (r : Regex) : Regex := Alt r Eps.
Definition chr_is (n : nat) : Regex := Chr (byte_is n).
(** A letter in any case: k and s also fold from U+212A and U+017F. *)
Definition fold_letter (c : Ascii.ascii) : Regex :=
  let plain := Chr (fun b => Ascii.eqb (lower_ascii b) c) in
  if byte_is 115 c then Alt plain (Cat (chr_is 197) (chr_is 191))
  else if byte_is 107 c then Alt plain (Cat (chr_is 226) (Cat (chr_is 132) (chr_is 170)))
  else plain.
Fixpoint fold_text (s : string) : Regex :=
  match s with String c t => Cat (fold_letter c) (fold_text t) | EmptyString => Eps end.
Fixpoint one_of (rs : list Regex) : Regex :=
  match rs with [] => Chr (fun _ => false) | [r] => r | r :: rest => Alt r (one_of rest) end.
(** [\s]. *)
Definition white : Regex := Chr (fun c => in_range 9 10 c || in_range 12 13 c || byte_is 32 c).
(** A reference: [\b], a phrase, and a number after a hash that ends at a boundary. *)
Definition reference (phrase : Regex) : Regex :=
  Cat WordBoundary (Cat phrase (Cat (chr_is 35) (Cat (Group (Plus (Chr (in_range 48 57)))) WordBoundary))).

(** ** What an expression matches *)

Inductive Matches : Regex → At → At → Prop :=
| m_eps a : Matches Eps a a
| m_chr p c t a : at_rest a = String c t → p c = true → Matches (Chr p) a (eat c t a)
| m_cat r1 r2 a b d : Matches r1 a b → Matches r2 b d → Matches (Cat r1 r2) a d
| m_alt_l r1 r2 a b : Matches r1 a b → Matches (Alt r1 r2) a b
| m_alt_r r1 r2 a b : Matches r2 a b → Matches (Alt r1 r2) a b
| m_star_end r a : Matches (Star r) a a
| m_star_more r a b d :
    Matches r a b → (String.length (at_rest b) < String.length (at_rest a))%nat → Matches (Star r) b d → Matches (Star r) a d
| m_lazy r a b : Matches (Star r) a b → Matches (Lazy r) a b
| m_group r a b : Matches r a b → Matches (Group r) a (with_group (between (at_rest a) (at_rest b)) b)
| m_boundary a : at_boundary a = true → Matches WordBoundary a a.

(** The matcher only succeeds on a match, with a result of its continuation. *)
Lemma attempt_sound {A} r : ∀ (k : At → option A) a x,
  attempt r k a = Some x → ∃ b, Matches r a b ∧ k b = Some x.
Proof.
  induction r as [|p|r1 IH1 r2 IH2|r1 IH1 r2 IH2|r IH|r IH|r IH|]; intros k a x; simpl.
  - intros E. exists a. split; [constructor|done].
  - destruct (at_rest a) as [|c t] eqn:E; [done|]. destruct (p c) eqn:Ep; [|done].
    intros H. eexists. split; [by econstructor|done].
  - intros (b & H1 & (d & H2 & Hk)%IH2)%IH1. exists d. split; [by econstructor|done].
  - destruct (attempt r1 k a) as [y|] eqn:E.
    + intros [= <-]. apply IH1 in E as (b & ? & ?). exists b. split; [by apply m_alt_l|done].
    + intros (b & ? & ?)%IH2. exists b. split; [by apply m_alt_r|done].
  - generalize (String.length (at_rest a)) as fuel. intros fuel. revert a x.
    induction fuel as [|fuel IHf]; intros a x; simpl; [intros E; exists a; split; [constructor|done]|].
    destruct (attempt r _ a) as [y|] eqn:E; [|intros E'; exists a; split; [constructor|done]].
    intros [= <-]. apply IH in E as (b & HM & Hk). destruct (Nat.ltb_spec (String.length (at_rest b)) (String.length (at_rest a))); [|done].
    apply IHf in Hk as (d & HD & Hk). exists d. split; [by eapply m_star_more|done].
  - assert (∀ fuel a x, lazy_star (attempt r) fuel k a = Some x → ∃ b, Matches (Star r) a b ∧ k b = Some x) as H.
    { clear a x. induction fuel as [|fuel IHf]; intros a x; cbn [lazy_star];
        (destruct (k a) as [y|] eqn:E; [intros [= <-]; exists a; split; [constructor|done]|]); [done|].
      intros (b & HM & Hk)%IH. destruct (Nat.ltb_spec (String.length (at_rest b)) (String.length (at_rest a))); [|done].
      apply IHf in Hk as (d & HD & Hk). exists d. split; [by eapply m_star_more|done]. }
    intros (b & ? & ?)%H. exists b. split; [by constructor|done].
  - intros (b & ? & ?)%IH. eexists. split; [by constructor|done].
  - destruct (at_boundary a) eqn:E; [|done]. intros Hk. exists a. split; [by constructor|done].
Qed.

(** Where there is a match its continuation accepts, the matcher succeeds. *)
Lemma attempt_complete {A} r : ∀ (k : At → option A) a b,
  Matches r a b → is_Some (k b) → is_Some (attempt r k a).
Proof.
  induction r as [|p|r1 IH1 r2 IH2|r1 IH1 r2 IH2|r IH|r IH|r IH|]; intros k a b HM Hk; simpl.
  - by inversion HM; subst.
  - inversion HM as [|? ? ? ? E Ep| | | | | | | |]; subst. by rewrite E, Ep.
  - inversion HM; subst. eauto.
  - inversion HM; subst.
    + destruct (IH1 k a b) as [x ->]; eauto.
    + destruct (attempt r1 k a); eauto.
  - assert (∀ fuel, (String.length (at_rest a) ≤ fuel)%nat → is_Some (star (attempt r) fuel k a)) as H; [|by apply H].
    remember (Star r) as rs eqn:Er. induction HM; try done; injection Er as ->; intros fuel Hf.
    + destruct fuel as [|fuel]; simpl; [done|]. destruct (attempt r _ a); eauto.
    + destruct fuel as [|fuel]; [lia|]. simpl. 
      match goal with |- context [attempt r ?k' a] => destruct (IH k' a b HM1) as [x ->]; [|by eexists] end.
      rewrite (proj2 (Nat.ltb_lt _ _)) by done. apply IHHM2; [done|done|lia].
  - inversion HM as [| | | | | | |? ? ? HS| |]; subst; clear HM.
    assert (∀ fuel, (String.length (at_rest a) ≤ fuel)%nat → is_Some (lazy_star (attempt r) fuel k a)) as H; [|by apply H].
    remember (Star r) as rs eqn:Er. induction HS; try done; injection Er as ->; intros fuel Hf.
    + destruct fuel as [|fuel]; cbn [lazy_star]; destruct (k a); [done| |done|]; by destruct Hk.
    + destruct fuel as [|fuel]; [lia|]. cbn [lazy_star]. destruct (k a); [done|].
      match goal with |- is_Some (attempt r ?k' a) => apply (IH k' a b HS1) end.
      rewrite (proj2 (Nat.ltb_lt _ _)) by done. apply IHHS2; [done|done|lia].
  - inversion HM; subst. eapply IH; [done|]. done.
  - inversion HM as [| | | | | | | | |? E]; subst. by rewrite E.
Qed.

(** ** The text of a match *)

Fixpoint prev_after (prev : bool) (x : string) : bool :=
  match x with String c t => prev_after (is_word c) t | EmptyString => prev end.
Lemma prev_after_app prev x y : prev_after prev (x +:+ y) = prev_after (prev_after prev x) y.
Proof. revert prev. induction x as [|c x IH]; intros prev; [done|]. rewrite str_app_cons. apply IH. Qed.

(** Every byte the expression reads satisfies [p]; it can match the empty text; the first
    byte it reads satisfies [p]. *)
Fixpoint reads (p : Ascii.ascii → bool) (r : Regex) : Prop :=
  match r with
  | Chr q => ∀ c, q c = true → p c = true
  | Cat r1 r2 | Alt r1 r2 => reads p r1 ∧ reads p r2
  | Star r | Lazy r | Group r => reads p r
  | Eps | WordBoundary => True
  end.
Fixpoint nullable (r : Regex) : bool :=
  match r with
  | Chr _ => false
  | Cat r1 r2 => nullable r1 && nullable r2
  | Alt r1 r2 => nullable r1 || nullable r2
  | Group r => nullable r
  | Eps | Star _ | Lazy _ | WordBoundary => true
  end.
Fixpoint starts (p : Ascii.ascii → bool) (r : Regex) : Prop :=
  match r with
  | Chr q => ∀ c, q c = true → p c = true
  | Cat r1 r2 => starts p r1 ∧ (nullable r1 = true → starts p r2)
  | Alt r1 r2 => starts p r1 ∧ starts p r2
  | Star r | Lazy r | Group r => starts p r
  | Eps | WordBoundary => True
  end.

Lemma Matches_text p r a b :
  reads p r → Matches r a b →
  ∃ x, at_rest a = x +:+ at_rest b ∧ at_prev b = prev_after (at_prev a) x ∧ str_forall p x = true.
Proof.
  intros Hp HM. revert Hp. induction HM; simpl; intros Hp; try (exists ""; done).
  - exists (String c ""). rewrite H. split_and!; [done..|]. simpl. by rewrite Hp.
  - destruct IHHM1 as (x & -> & E1 & F1); [tauto|]. destruct IHHM2 as (y & -> & E2 & F2); [tauto|].
    exists (x +:+ y). by rewrite str_app_assoc, prev_after_app, str_forall_app, <- E1, F1, F2.
  - apply IHHM. tauto.
  - apply IHHM. tauto.
  - destruct IHHM1 as (x & -> & E1 & F1); [done|]. destruct IHHM2 as (y & -> & E2 & F2); [done|].
    exists (x +:+ y). by rewrite str_app_assoc, prev_after_app, str_forall_app, <- E1, F1, F2.
  - apply IHHM, Hp.
  - destruct (IHHM Hp) as (x & ? & ? & ?). by exists x.
Qed.

Lemma Matches_consumes r a b :
  Matches r a b → (String.length (at_rest b) ≤ String.length (at_rest a))%nat ∧
  (nullable r = false → (String.length (at_rest b) < String.length (at_rest a))%nat).
Proof.
  induction 1; simpl; rewrite ?andb_false_iff, ?orb_false_iff; try (split; [lia|done]).
  1: rewrite H; simpl; lia.
  all: try (naive_solver lia).
Qed.

Lemma Matches_starts p r a b :
  starts p r → Matches r a b → at_rest b = at_rest a ∨ ∃ c t, at_rest a = String c t ∧ p c = true.
Proof.
  intros Hp HM. revert Hp. induction HM; simpl; intros Hp; try (by left); try (apply IHHM; tauto).
  - right. eauto.
  - destruct IHHM1 as [E1|]; [tauto| |by right]. destruct Hp as [_ Hp].
    destruct (nullable r1) eqn:EN.
    + destruct IHHM2 as [E2|(c & t & E2 & ?)]; [by apply Hp|left; congruence|right; exists c, t; split; congruence].
    + apply Matches_consumes in HM1 as [_ HM1]. specialize (HM1 EN). rewrite E1 in HM1. lia.
  - destruct IHHM1 as [E1|]; [done| |by right]. rewrite E1 in H. lia.
Qed.

(** ** References *)

Definition no_hash (c : Ascii.ascii) : bool := negb (byte_is 35 c).
Definition no_digit (c : Ascii.ascii) : bool := negb (in_range 48 57 c).
Definition all_digits (s : string) : bool := str_forall (in_range 48 57) s.
Definition starts_digit (s : string) : bool := match s with String c _ => in_range 48 57 c | EmptyString => false end.
(** A phrase reads no hash and begins with no digit. *)
Definition phrase_ok (r : Regex) : Prop := reads no_hash r ∧ starts no_digit r ∧ nullable r = false.

Lemma digit_is_word c : in_range 48 57 c = true → is_word c = true.
Proof. unfold is_word. by intros ->. Qed.
Lemma prev_after_digits prev ds : ds ≠ "" → all_digits ds = true → prev_after prev ds = true.
Proof.
  revert prev. induction ds as [|c ds IH]; intros prev Hne; [done|]. unfold all_digits. simpl.
  intros [Hc Hds]%andb_true_iff. destruct ds as [|d ds]; [by apply digit_is_word|by apply IH].
Qed.

Lemma between_app x y : between (x +:+ y) y = x.
Proof.
  unfold between. rewrite str_length_app, Nat.add_sub.
  induction x as [|c x IH]; [by destruct y|]. rewrite str_app_cons. simpl. by rewrite IH.
Qed.

(** The text of a reference: its phrase, the hash, and a whole number. *)
Lemma reference_text phrase a b :
  phrase_ok phrase → Matches (reference phrase) a b →
  ∃ c x ds, at_rest a = String c x +:+ ("#" +:+ (ds +:+ at_rest b)) ∧ str_forall no_hash (String c x) = true ∧
    no_digit c = true ∧ ds ≠ "" ∧ all_digits ds = true ∧ starts_word (at_rest b) = false ∧ at_group b = ds.
Proof.
  intros (Hr & Hs & Hn) HM. inversion HM as [| |? ? ? a1 ? HB HM1| | | | | | |]; subst. clear HM.
  inversion HB; subst. clear HB. inversion HM1 as [| |? ? ? a2 ? HP HM2| | | | | | |]; subst. clear HM1.
  destruct (Matches_text no_hash _ _ _ Hr HP) as (x & Ex & _ & Fx).
  pose proof (Matches_consumes _ _ _ HP) as [_ HC]. specialize (HC Hn).
  apply (Matches_starts no_digit) in HP as [HP|(c & t & Et & Hc)]; [rewrite HP in HC; lia| |done].
  inversion HM2 as [| |? ? ? a3 ? HH HM3| | | | | | |]; subst. clear HM2.
  inversion HH as [|? h t2 ? Eh Hh| | | | | | | |]; subst. clear HH.
  inversion HM3 as [| |? ? ? a4 ? HG HB| | | | | | |]; subst. clear HM3.
  inversion HB as [| | | | | | | | |? Hb]; subst. clear HB.
  inversion HG as [| | | | | | | |? ? a5 HD|]; subst. clear HG.
  pose proof (Matches_consumes _ _ _ HD) as [_ HDC]. specialize (HDC eq_refl).
  assert (reads (in_range 48 57) (Plus (Chr (in_range 48 57)))) as HRD by (split; intros ? HR; exact HR).
  destruct (Matches_text (in_range 48 57) _ _ _ HRD HD) as (ds & Eds & Ep & Fd).
  simpl in *. subst t2. assert (ds ≠ "") as Hne by (intros ->; rewrite str_app_nil in HDC; lia).
  rewrite Ex in Et, HC. destruct x as [|c' x]; [rewrite str_app_nil in HC; lia|].
  rewrite str_app_cons in Et. injection Et as -> _. exists c, x, ds. rewrite Ex, Eh. split_and!; try done.
  - f_equal. unfold byte_is in Hh. apply Nat.eqb_eq in Hh. rewrite str_app_cons. f_equal.
    rewrite <- (Ascii.ascii_nat_embedding h), Hh. done.
  - unfold at_boundary in Hb. simpl in Hb. rewrite Ep, (prev_after_digits _ ds) in Hb by done.
    by destruct (starts_word (at_rest a5)).
  - simpl. apply between_app.
Qed.

(** ** The search misses no reference *)

(** The place in [s] after [pre]. *)
Definition place (prev : bool) (s pre : string) (a : At) : Prop :=
  s = pre +:+ at_rest a ∧ at_prev a = prev_after prev pre ∧ at_group a = "".

Lemma search_some r prev s b :
  search r prev s = Some b → ∃ pre a, place prev s pre a ∧ Matches r a b.
Proof.
  revert prev. induction s as [|c t IH]; intros prev; cbn [search];
    destruct (attempt r Some _) as [b'|] eqn:E.
  1,3: intros [= <-]; apply attempt_sound in E as (b & HM & [= ->]);
    eexists "", _; (split; [|exact HM]); by split_and!.
  - done.
  - intros (pre & a & (-> & Ep & Eg) & HM)%IH. exists (String c pre), a. by split_and!.
Qed.

Lemma search_first r prev s pre a b :
  place prev s pre a → Matches r a b →
  ∃ pre' a' b', search r prev s = Some b' ∧ place prev s pre' a' ∧ Matches r a' b' ∧
    (String.length pre' ≤ String.length pre)%nat.
Proof.
  revert prev pre. induction s as [|c t IH]; intros prev pre (Es & Ep & Eg) HM; cbn [search];
    destruct (attempt r Some _) as [b'|] eqn:E.
  1,3: apply attempt_sound in E as (b1 & HM' & [= ->]);
    eexists "", _, _; (split; [done|]; split; [|split; [exact HM'|simpl; lia]]); by split_and!.
  all: destruct pre as [|c' pre]; [exfalso; rewrite str_app_nil in Es; destruct a as [p s' g]; simpl in *; subst;
    destruct (attempt_complete r Some _ _ HM) as [? Ha]; [by eexists|simpl in *; congruence]|].
  - done.
  - rewrite str_app_cons in Es. injection Es as -> Es.
    destruct (IH (is_word c') pre) as (pre' & a' & b' & ES & (Es' & Ep' & Eg') & HM' & Hl); [by split_and!|done|].
    exists (String c' pre'), a', b'. rewrite ES. split_and!; try done; [by rewrite Es'|simpl; lia].
Qed.

Lemma digits_prefix_unique d1 r1 d2 r2 :
  d1 +:+ r1 = d2 +:+ r2 → all_digits d1 = true → all_digits d2 = true →
  starts_digit r1 = false → starts_digit r2 = false → d1 = d2.
Proof.
  unfold all_digits. intros E. destruct (str_app_split _ _ _ _ E) as [(e & -> & ->)|(e & -> & ->)];
    rewrite str_forall_app; intros H1 H2 N1 N2; destruct e as [|c e]; rewrite ?str_app_nil_r; try done;
    rewrite ?andb_true_iff in *; simpl in *; rewrite ?andb_true_iff in *; naive_solver congruence.
Qed.
Lemma hash_prefix_unique x1 r1 x2 r2 :
  x1 +:+ ("#" +:+ r1) = x2 +:+ ("#" +:+ r2) → str_forall no_hash x1 = true → str_forall no_hash x2 = true → x1 = x2 ∧ r1 = r2.
Proof.
  intros E. destruct (str_app_split _ _ _ _ E) as [(e & -> & Er)|(e & -> & Er)]; rewrite str_forall_app;
    intros H1 H2; (destruct e as [|c e]; [rewrite str_app_nil_r; rewrite str_app_nil in Er; by injection Er|]);
    rewrite !str_app_cons in Er; injection Er as <- _; exfalso; cbn [str_forall] in *;
    rewrite ?andb_true_iff in *; naive_solver.
Qed.
Lemma word_starts_digit s : starts_word s = false → starts_digit s = false.
Proof. destruct s as [|c s]; [done|]. simpl. destruct (in_range 48 57 c) eqn:E; [|done]. by rewrite digit_is_word. Qed.

(** Two references that overlap are the same number: the one found first ends with the
    same hash and digits. *)
Lemma overlap phrase a b a1 b1 p :
  phrase_ok phrase → Matches (reference phrase) a b → Matches (reference phrase) a1 b1 →
  at_rest a1 = p +:+ at_rest a →
  at_group b = at_group b1 ∨ ∃ q, at_rest b1 = q +:+ at_rest a ∧ (∃ m, p = m +:+ q ∧ m ≠ "").
Proof.
  intros HP HM HM1 Ep. destruct (reference_text _ _ _ HP HM) as (c & x & ds & Ea & Fx & Hc & _ & Fd & Hw & ->).
  destruct (reference_text _ _ _ HP HM1) as (c1 & x1 & ds1 & Ea1 & Fx1 & _ & _ & Fd1 & Hw1 & ->).
  rewrite Ep, Ea in Ea1. rewrite Ea. symmetry in Ea1. remember (String c1 x1) as y1.
  destruct (str_app_split _ _ _ _ Ea1) as [(e & -> & E)|(e & -> & E)].
  - left. rewrite str_forall_app in Fx1. apply andb_true_iff in Fx1 as [_ Fe].
    destruct (hash_prefix_unique _ _ _ _ E Fx Fe) as [_ E']. symmetry.
    eapply digits_prefix_unique; eauto using word_starts_digit.
  - destruct e as [|h e].
    { left. rewrite str_app_nil in E. apply (hash_prefix_unique "" _ (String c x)) in E as [[=] _]; done. }
    rewrite !str_app_cons, str_app_nil in E. injection E as <- E.
    destruct (str_app_split _ _ _ _ E) as [(e' & -> & E')|(e' & -> & E')].
    + destruct e' as [|d e'].
      * right. exists "". rewrite str_app_nil in E' |- *. split; [done|]. eexists. rewrite str_app_nil_r. split; [done|]. by subst y1.
      * exfalso. rewrite !str_app_cons in E'. injection E' as <- _. unfold all_digits, no_digit in *.
        rewrite str_forall_app in Fd1. cbn [str_forall] in Fd1. rewrite !andb_true_iff in Fd1.
        destruct Fd1 as [_ [Fc _]]. by rewrite Fc in Hc.
    + right. exists e'. split; [done|]. exists (y1 +:+ ("#" +:+ ds1)). subst y1.
      split; [|done]. by rewrite <- !str_app_assoc.
Qed.

Lemma reads_any r : reads (λ _, true) r.
Proof. induction r; simpl; auto. Qed.
Lemma str_app_cancel_r x y z : x +:+ z = y +:+ z → x = y.
Proof.
  intros E. destruct (str_app_split _ _ _ _ E) as [(e & -> & Ez)|(e & -> & Ez)];
    apply (f_equal String.length) in Ez; rewrite str_length_app in Ez; destruct e; simpl in Ez; try lia;
    by rewrite str_app_nil_r.
Qed.

Lemma find_groups_complete phrase fuel prev s pre a b :
  phrase_ok phrase → (String.length s < fuel)%nat → place prev s pre a → Matches (reference phrase) a b →
  at_group b ∈ find_groups fuel (reference phrase) prev s.
Proof.
  intros HP. revert prev s pre. induction fuel as [|fuel IH]; intros prev s pre Hf HPl HM; [lia|]. cbn [find_groups].
  destruct (search_first _ _ _ _ _ _ HPl HM) as (pre1 & a1 & b1 & -> & HPl1 & HM1 & Hl).
  destruct HPl as (Es & Epr & Eg), HPl1 as (Es1 & Epr1 & Eg1). rewrite Es in Es1.
  assert (∃ p, pre = pre1 +:+ p ∧ at_rest a1 = p +:+ at_rest a) as (p & -> & Ep).
  { destruct (str_app_split _ _ _ _ Es1) as [(p & -> & E)|(p & -> & E)]; [by exists p|].
    rewrite str_length_app in Hl. destruct p; [|simpl in Hl; lia]. exists "". by rewrite E, !str_app_nil_r, !str_app_nil. }
  destruct (overlap _ _ _ _ _ _ HP HM HM1 Ep) as [->|(q & Eq & m & -> & Hm)]; [by left|right].
  destruct (Matches_text (λ _, true) _ _ _ (reads_any _) HM1) as (x & Ex & Epx & _).
  assert (x = m) as ->.
  { rewrite Ep, Eq, str_app_assoc in Ex. by apply str_app_cancel_r, str_app_cancel_r in Ex. }
  apply (IH _ _ q); [| |done].
  - rewrite Es, !str_length_app in Hf. rewrite Eq, str_length_app. destruct m; [done|]. simpl in Hf. lia.
  - split_and!; [done| |done]. by rewrite Epr, !prev_after_app, <- Epr1, <- Epx.
Qed.

Lemma find_groups_sound r fuel prev s g :
  g ∈ find_groups fuel r prev s → ∃ pre a b, place prev s pre a ∧ Matches r a b ∧ at_group b = g.
Proof.
  revert prev s. induction fuel as [|fuel IH]; intros prev s; cbn [find_groups]; [set_solver|].
  destruct (search r prev s) as [b|] eqn:E; [|set_solver].
  apply search_some in E as (pre & a & (Es & Ep & Eg) & HM).
  intros [->|Hg]%elem_of_cons; [by exists pre, a, b|].
  apply IH in Hg as (pre' & a' & b' & (Es' & Ep' & Eg') & HM' & <-).
  destruct (Matches_text (λ _, true) _ _ _ (reads_any _) HM) as (x & Ex & Epx & _).
  exists (pre +:+ (x +:+ pre')), a', b'. split_and!; [|done..]. split_and!; [|by rewrite !prev_after_app, <- Ep, <- Epx|done].
  by rewrite Es, Ex, Es', !str_app_assoc.
Qed.

(** [text] refers to [g]: the expression matches somewhere in it with this number. *)
Definition refers (phrase : Regex) (text g : string) : Prop :=
  ∃ pre a b, place false text pre a ∧ Matches (reference phrase) a b ∧ at_group b = g.

Lemma FindAllGroups_iff phrase text g :
  phrase_ok phrase → g ∈ FindAllGroups (reference phrase) text ↔ refers phrase text g.
Proof.
  intros HP. split; [apply find_groups_sound|].
  intros (pre & a & b & HPl & HM & <-). eapply find_groups_complete; eauto.
Qed.

(** The two conditions on a phrase, decided by the 256 bytes. *)
Definition implied (q p : Ascii.ascii → bool) : bool :=
  forallb (fun n => implb (q (Ascii.ascii_of_nat n)) (p (Ascii.ascii_of_nat n))) (List.seq 0 256).
Fixpoint reads_b (p : Ascii.ascii → bool) (r : Regex) : bool :=
  match r with
  | Chr q => implied q p
  | Cat r1 r2 | Alt r1 r2 => reads_b p r1 && reads_b p r2
  | Star r | Lazy r | Group r => reads_b p r
  | Eps | WordBoundary => true
  end.
Fixpoint starts_b (p : Ascii.ascii → bool) (r : Regex) : bool :=
  match r with
  | Chr q => implied q p
  | Cat r1 r2 => starts_b p r1 && (if nullable r1 then starts_b p r2 else true)
  | Alt r1 r2 => starts_b p r1 && starts_b p r2
  | Star r | Lazy r | Group r => starts_b p r
  | Eps | WordBoundary => true
  end.
Lemma implied_ok q p : implied q p = true → ∀ c, q c = true → p c = true.
Proof.
  unfold implied. rewrite forallb_forall. intros H c Hq. specialize (H (Ascii.nat_of_ascii c)).
  rewrite Ascii.ascii_nat_embedding, Hq in H. apply H, in_seq. pose proof (Ascii.nat_ascii_bounded c). lia.
Qed.
Lemma phrase_ok_b r : reads_b no_hash r && starts_b no_digit r && negb (nullable r) = true → phrase_ok r.
Proof.
  intros [[HR HS]%andb_true_iff HN%negb_true_iff]%andb_true_iff. split_and!; [| |done].
  - clear HS HN. induction r; simpl in *; try done; try (by apply implied_ok); auto; apply andb_true_iff in HR as [? ?]; auto.
  - clear HR HN. induction r as [|q|r1 IH1 r2 IH2|r1 IH1 r2 IH2| | | |]; simpl in *; try done; try (by apply implied_ok); auto;
      apply andb_true_iff in HS as [? HS2]; split; auto. intros Hn. apply IH2. by rewrite Hn in HS2.
Qed.

(** The keyword references of the adapters. *)
Definition demo_phrase : Regex := Cat (one_of [fold_text "fix"; fold_text "fixes"]) (Plus white).
Example find_demo :
  FindAllGroups (reference demo_phrase) "Fixes #12, fix  #3x fix #4; prefix #5 FI" = ["12"; "4"] ∧
  FindAllGroups (reference demo_phrase) ("fixe" +:+ byte 197 +:+ byte 191 +:+ " #7") = ["7"].
Proof. by vm_compute. Qed.
