(* ===== verification/Github.v ===== *)
(** * The GitHub tracker client (internal/tracker/github*.go)

    The listing of a repository's issues by state or label, without the ones an open pull
    request claims; the blockers of a Todo issue, native ones from GraphQL and the ones its
    body names; the narrow refresh of claimed issues.  A client is a program over its
    requests that carries its caches; GitHub answers in view of the exchanges before.  Log
    lines are not modelled. *)

From S2P Require Import Prelude GoStd Tracker TrackerErrors Regex.

Definition githubIssuePageSize : Z := 100.
Definition githubMaxIssuePages : Z := 10.
Definition githubBlockedBySourceChunkSize : Z := 25.

(** ** Data *)

Record githubIssue := {
  gh_ID : Z; gh_NodeID : string; gh_Number : Z; gh_Title : string; gh_Body : string; gh_HTMLURL : string;
  gh_State : string; gh_CreatedAt : string; gh_UpdatedAt : string; gh_Labels : list string; gh_PullRequest : bool
}.
Record githubIssueMetadata := { md_NodeID : string; md_Number : Z; md_Body : string }.
Record githubPullRequestSummary := { pr_Number : Z; pr_Title : string; pr_Body : string; pr_State : string }.

(** The JSON object of one issue: the fields whose presence is checked, and its decoding
    as an issue. *)
Record RawIssue := {
  raw_ID : option Z; raw_Number : option Z; raw_State : option string; raw_Body : bool;
  raw_Labels : option (list (option string)); raw_issue : githubIssue + Err
}.

Record githubGraphQLBlockerNode := {
  bn_ID : option string; bn_DatabaseID : option Z; bn_Number : option Z; bn_State : option string;
  bn_Labels : option (list (option string))
}.
Record githubGraphQLIssueNode := {
  in_ID : option string; in_Number : option Z;
  in_Blockers : option (list githubGraphQLBlockerNode); in_HasNextPage : option bool
}.
(** [None] is an absent data or nodes field. *)
Record githubGraphQLBlockersResponse := { gb_Nodes : option (list githubGraphQLIssueNode); gb_Errors : list string }.

Record githubBlockerSource := {
  bs_IssueID : string; bs_Identifier : string; bs_State : string; bs_NodeID : string; bs_Number : Z; bs_Body : string
}.
Record githubNativeBlockers := { nb_Blockers : list BlockerRef; nb_Incomplete : bool }.
Inductive githubBodyBlockerLookupPolicy := githubBodyBlockerBestEffort | githubBodyBlockerRefresh.

(** ** Requests and answers *)

Inductive GitHubQuery :=
| IssuesPage (issueState label : string) (page : Z)
| PullsPage (page : Z)
| GetIssue (number : Z)
| IssueBlockers (nodeIDs : list string)
| CtxErr.

Record GitHubHeader := { hd_rate : RateHeader; hd_Remaining : string; hd_Link : list string }.
(** A request fails, or is answered with a status, headers, and a body: its decoding as an
    error payload (message and documentation URL; [None] when it has no such form) and as
    what was asked for. *)
Inductive HttpAnswer (A : Type) :=
| SendFailed (err : Err)
| HttpResponse (StatusCode : Z) (Header : GitHubHeader) (payload : option (string * string)) (out : A + Err).
Arguments SendFailed {A} err.
Arguments HttpResponse {A} StatusCode Header payload out.
Definition Answer (q : GitHubQuery) : Type :=
  match q with
  | IssuesPage _ _ _ => HttpAnswer (list githubIssue)
  | PullsPage _ => HttpAnswer (list githubPullRequestSummary)
  | GetIssue _ => HttpAnswer RawIssue
  | IssueBlockers _ => HttpAnswer githubGraphQLBlockersResponse
  | CtxErr => Err
  end.

(** ** The client *)

Record GitHubClient := {
  Token : string; Owner : string; Repo : string; PaginationMaxPages : Z;
  ActiveStates : list string; TerminalStates : list string; InactiveStates : list string
}.
Record GitHubState := {
  issueNumbers : gmap string Z; issueMetadata : gmap string githubIssueMetadata; paginationCapHits : Z
}.
#[export] Instance eta_GitHubState : Eta GitHubState := fun r =>
  Build_GitHubState (issueNumbers r) (issueMetadata r) (paginationCapHits r).

(** Programs that keep the caches, whether they fail or not. *)
Definition GitHub (A : Type) := GitHubState → Asking Answer (GitHubState * (Err + A)).
Definition done_with {A} (a : A) : GitHub A := fun s => Ret (s, inr a).
Definition fails {A} (e : Err) : GitHub A := fun s => Ret (s, inl e).
Definition or_error {A} (r : Err + A) : GitHub A := fun s => Ret (s, r).
Definition github_bind {A B} (m : GitHub A) (f : A → GitHub B) : GitHub B := fun s =>
  ask* r := m s in match r with (s, inl e) => Ret (s, inl e) | (s, inr a) => f a s end.
Notation "'gh!' x := m 'in' k" := (github_bind m (fun x => k))
  (at level 200, x binder, m at level 100, k at level 200) : go_scope.
(** The result with its error, for the callers that go on after one. *)
Definition attempted {A} (m : GitHub A) : GitHub (Err + A) := fun s => ask* r := m s in Ret (r.1, inr r.2).
Definition update (f : GitHubState → GitHubState) : GitHub unit := fun s => Ret (f s, inr tt).
Definition send (q : GitHubQuery) : GitHub (Answer q) := fun s => ask* a := ask (An := Answer) q in Ret (s, inr a).
Definition ctx_Err : GitHub Err := send CtxErr.

(** An error without a classification. *)
Definition plain_error : Err := [Unclassified].
Definition incompleteGitHubBlockerResponse : Err := [ErrIssueStateRefreshIncomplete].
Definition hash_number (n : Z) : string := "#" +:+ fmt_d n.

Section Client.
Context {HD : HttpDates} (c : GitHubClient).

(** ** Responses *)

Definition githubSecondaryLimitBody (payload : option (string * string)) : bool :=
  match payload with
  | None => false
  | Some (message, url) =>
      Contains (ToLower message) "secondary rate limit" || Contains (ToLower url) "secondary-rate-limit"
  end.
Definition githubRateLimited (StatusCode : Z) (Header : GitHubHeader) (payload : option (string * string)) : bool :=
  if StatusCode =? 429 then true
  else if negb (StatusCode =? 403) then false
  else if String.eqb (TrimSpace (hd_Remaining Header)) "0" || negb (blank (h_RetryAfter (hd_rate Header))) then true
  else githubSecondaryLimitBody payload.

(** The checks of each request; [gone] is the status the caller handles first. *)
Definition response {A} (a : HttpAnswer A) : Err + (A * list string) :=
  match a with
  | SendFailed err => inl err
  | HttpResponse StatusCode Header payload out =>
      if githubRateLimited StatusCode Header payload then inl (NewRateLimitedError (hd_rate Header))
      else if (StatusCode <? 200) || (300 <=? StatusCode) then inl plain_error
      else match out with inl r => inr (r, hd_Link Header) | inr err => inl err end
  end.

Definition githubHasNextPage (linkHeaders : list string) : bool :=
  existsb (fun header => existsb (fun part => Contains part ("rel=" +:+ byte 34 +:+ "next" +:+ byte 34))
                           (Split (Ascii.ascii_of_nat 44) header)) linkHeaders.

Definition listIssuesPage (issueState label : string) (page : Z) : GitHub (list githubIssue * bool) :=
  gh! a := send (IssuesPage issueState label page) in
  gh! r := or_error (response a) in
  done_with (r.1, githubHasNextPage r.2).
Definition listOpenPullRequestsPage (page : Z) : GitHub (list githubPullRequestSummary * bool) :=
  gh! a := send (PullsPage page) in
  gh! r := or_error (response a) in
  done_with (r.1, githubHasNextPage r.2).

Definition decodeGitHubIssueStateResponse (raw : RawIssue) : Err + (githubIssue * bool) :=
  let incomplete := inl [ErrIssueStateRefreshIncomplete] in
  match raw_ID raw, raw_Number raw, raw_State raw, raw_Labels raw with
  | Some id, Some number, Some state, Some labels =>
      if (id <=? 0) || (number <=? 0) || blank state then incomplete
      else if existsb (fun name => match name with Some n => blank n | None => true end) labels then incomplete
      else match raw_issue raw with inl issue => inr (issue, raw_Body raw) | inr err => inl err end
  | _, _, _, _ => incomplete
  end.

(** [None] when the issue is not there. *)
Definition getIssueByNumberWithBodyPresence (issueNumber : Z) : GitHub (option (githubIssue * bool)) :=
  gh! a := send (GetIssue issueNumber) in
  let gone := match a with HttpResponse StatusCode _ _ _ => (StatusCode =? 404) || (StatusCode =? 410) | _ => false end in
  if gone then done_with None
  else gh! r := or_error (response a) in
       gh! v := or_error (decodeGitHubIssueStateResponse r.1) in
       done_with (Some v).
Definition getIssueByNumber (issueNumber : Z) : GitHub (option githubIssue) :=
  gh! r := getIssueByNumberWithBodyPresence issueNumber in done_with (fst <$> r).

Definition ShouldStop (err : Err) : GitHub bool := fun s =>
  ask* stop := ShouldStopIssueStateRefresh (ask (An := Answer) CtxErr) err in Ret (s, inr stop).

(** ** Identifiers and states *)

Definition githubIssueNumberFromIdentifier (identifier : string) : option Z :=
  let identifier := TrimSpace identifier in
  match CutPrefix identifier "#" with
  | None => None
  | Some digits => match Atoi digits with
                   | inl number => if number <=? 0 then None else Some number
                   | inr _ => None
                   end
  end.
Definition githubIdentifierMatchesIssueNumber (identifier : string) (issueNumber : Z) : bool :=
  match githubIssueNumberFromIdentifier identifier with Some n => n =? issueNumber | None => true end.
Definition githubIssueNumberID (issueNumber : Z) : string := if issueNumber <=? 0 then "" else fmt_d issueNumber.
Definition githubFetchedIssueMatchesRef (issueID identifier refreshedID : string) (issueNumber : Z) : bool :=
  let issueID := TrimSpace issueID in
  if negb (githubIdentifierMatchesIssueNumber identifier issueNumber) then false
  else if String.eqb issueID refreshedID then true
  else if HasPrefix issueID "#" then String.eqb issueID (hash_number issueNumber)
  else String.eqb issueID (githubIssueNumberID issueNumber).
Definition githubIssueRefMatchesNumber (ref : IssueRef) (issueNumber : Z) : bool :=
  let number_is text := match githubIssueNumberFromIdentifier text with Some n => n =? issueNumber | None => false end in
  let identifier := TrimSpace (ref_Identifier ref) in
  if negb (String.eqb identifier "") && negb (number_is identifier) then false
  else let id := TrimSpace (ref_ID ref) in
       if negb (HasPrefix id "#") then true else number_is id.

Definition dedupe_step (acc : list string * gset string) (key out : string) : list string * gset string :=
  let '(l, seen) := acc in
  if String.eqb key "" then acc
  else if bool_decide (key ∈ seen) then acc else (l ++ [out], {[key]} ∪ seen).
Definition nonEmptyGitHubStates (states : list string) : list string :=
  (fold_left (fun acc state => let state := TrimSpace state in dedupe_step acc (ToLower state) state) states ([], ∅)).1.
Definition githubConfiguredStates : list string :=
  (fold_left (fun acc state => let state := ToLower (TrimSpace state) in dedupe_step acc state state)
             (ActiveStates c ++ TerminalStates c ++ InactiveStates c) ([], ∅)).1.

Definition githubResolveState (state : string) (labels configured : list string) : string :=
  let labelSet := set_of (flat_map (fun l => let name := ToLower (TrimSpace l) in
                                             if String.eqb name "" then [] else [name]) labels) in
  match List.find (fun s => bool_decide (s ∈ labelSet)) configured with
  | Some s => s
  | None => ToLower (TrimSpace state)
  end.
Definition githubTodoWorkflowState (state : string) : bool :=
  let state := ToLower (TrimSpace state) in
  String.eqb state "todo" || HasSuffix state ":todo" || HasSuffix state "/todo".

(** The query state, the label, and the mapped state. *)
Definition githubIssueQueryForState (state : string) : string * string * string :=
  let state := TrimSpace state in
  let low := ToLower state in
  if String.eqb low "open" || String.eqb low "closed" || String.eqb low "all" then (low, "", low)
  else ("open", state, state).
Definition githubStatesMayIncludeOpenIssues (states : list string) : bool :=
  existsb (fun state => let '(issueState, _, _) := githubIssueQueryForState state in
                        String.eqb issueState "open" || String.eqb issueState "all") states.
Definition githubIssueQueryRequiresCompleteClaims (issueState : string) : bool :=
  let issueState := ToLower (TrimSpace issueState) in String.eqb issueState "open" || String.eqb issueState "all".

(** ** References in text *)

(** [[A-Za-z0-9_.-]], with the letters that fold to s and k. *)
Definition name_char : Regex :=
  Alt (Chr (fun b => is_word b || byte_is 46 b || byte_is 45 b))
      (Alt (Cat (chr_is 197) (chr_is 191)) (Cat (chr_is 226) (Cat (chr_is 132) (chr_is 170)))).
Definition claim_phrase : Regex :=
  Cat (Alt (one_of (map fold_text ["close"; "closes"; "closed"; "fix"; "fixes"; "fixed"; "resolve"; "resolves"; "resolved"]))
           (Cat (Opt (Cat (one_of [fold_text "assigned"; fold_text "github"]) (Plus white))) (fold_text "issue")))
  (Cat (Star white) (Cat (Opt (chr_is 58)) (Cat (Plus white) (Opt (Cat (Plus name_char) (Cat (chr_is 47) (Plus name_char))))))).
Definition githubClaimedIssueRE : Regex := reference claim_phrase.
Definition blocked_phrase : Regex := Cat (Alt (fold_text "blocked by") (fold_text "depends on")) (Plus white).
Definition githubBlockedByIssueRE : Regex := reference blocked_phrase.

(** The numbers of the matches, in order, each once. *)
Fixpoint reference_numbers (ok : Z → bool) (groups : list string) (seen : gset Z) : list Z :=
  match groups with
  | [] => []
  | g :: rest =>
      match Atoi g with
      | inl number => if negb (ok number) || bool_decide (number ∈ seen) then reference_numbers ok rest seen
                      else number :: reference_numbers ok rest ({[number]} ∪ seen)
      | inr _ => reference_numbers ok rest seen
      end
  end.
Definition githubClaimedIssueNumbers (text : string) : list Z :=
  reference_numbers (fun n => negb (n =? 0)) (FindAllGroups githubClaimedIssueRE text) ∅.
Definition githubBlockedByIssueNumbers (body : string) : list Z :=
  reference_numbers (fun n => 0 <? n) (FindAllGroups githubBlockedByIssueRE body) ∅.

(** ** Caches *)

Definition cacheIssueNumber (issueID : string) (issueNumber : Z) : GitHub unit :=
  if blank issueID || (issueNumber <=? 0) then done_with tt
  else update (fun s => s <| issueNumbers := <[issueID := issueNumber]> (issueNumbers s) |>).
Definition cachedIssueNumber (s : GitHubState) (issueID : string) : option Z :=
  match issueNumbers s !! issueID with Some n => if 0 <? n then Some n else None | None => None end.
Definition cacheIssueMetadata (issueID : string) (issue : githubIssue) : GitHub unit :=
  if blank issueID then done_with tt
  else update (fun s => s <| issueMetadata := <[issueID :=
         {| md_NodeID := TrimSpace (gh_NodeID issue); md_Number := gh_Number issue; md_Body := gh_Body issue |}]> (issueMetadata s) |>).
Definition read_state : GitHub GitHubState := fun s => Ret (s, inr s).

(** ** Mapping *)

Definition githubIssueLabels (issue : githubIssue) : list string :=
  flat_map (fun l => let name := ToLower (TrimSpace l) in if String.eqb name "" then [] else [name]) (gh_Labels issue).
Definition parseGitHubIssueTime (value : string) : Err + Time :=
  let value := TrimSpace value in
  if String.eqb value "" then inr time_zero
  else match ParseRFC3339Nano value with Some t => inr t | None => inl plain_error end.
Definition mapped_id (issue : githubIssue) : string :=
  let id := fmt_d (gh_ID issue) in
  if String.eqb id "0" && negb (gh_Number issue =? 0) then fmt_d (gh_Number issue) else id.
Definition mapGitHubIssue (issue : githubIssue) (mappedState : string) : Err + Issue :=
  match parseGitHubIssueTime (gh_CreatedAt issue) with
  | inl e => inl e
  | inr createdAt =>
      match parseGitHubIssueTime (gh_UpdatedAt issue) with
      | inl e => inl e
      | inr updatedAt =>
          let state := TrimSpace mappedState in
          inr {| iss_ID := mapped_id issue; iss_Identifier := hash_number (gh_Number issue);
                 iss_Title := gh_Title issue; iss_Description := gh_Body issue; iss_URL := gh_HTMLURL issue;
                 iss_State := if String.eqb state "" then TrimSpace (gh_State issue) else state;
                 iss_Labels := githubIssueLabels issue; iss_BranchName := ""; iss_Priority := 0;
                 iss_CreatedAt := createdAt; iss_UpdatedAt := updatedAt; iss_BlockedBy := None |}
      end
  end.

(** ** Blockers *)

Definition blocker_key (b : BlockerRef) : string := if blank (br_Identifier b) then br_ID b else br_Identifier b.
Definition appendGitHubBlocker (blockers : list BlockerRef) (blocker : BlockerRef) : list BlockerRef :=
  if existsb (fun existing => String.eqb (blocker_key existing) (blocker_key blocker)) blockers then blockers
  else blockers ++ [blocker].
Definition unknownGitHubBlocker (source : githubBlockerSource) : BlockerRef :=
  let identifier := TrimSpace (bs_Identifier source) in
  {| br_ID := "";
     br_Identifier := if String.eqb identifier "" && (0 <? bs_Number source) then hash_number (bs_Number source) else identifier;
     br_State := "" |}.
Definition githubBlockerSourceNeedsHydration (source : githubBlockerSource) : bool :=
  githubTodoWorkflowState (bs_State source).
Definition githubBlockerHydrationSources (sources : list githubBlockerSource) : list githubBlockerSource :=
  filter githubBlockerSourceNeedsHydration sources.

Definition githubBlockerNodeIDs (sources : list githubBlockerSource) : list string :=
  (fold_left (fun acc source => let nodeID := TrimSpace (bs_NodeID source) in dedupe_step acc nodeID nodeID) sources ([], ∅)).1.
Fixpoint source_numbers (sources : list githubBlockerSource) (out : gmap string Z) : Err + gmap string Z :=
  match sources with
  | [] => inr out
  | source :: rest =>
      let nodeID := TrimSpace (bs_NodeID source) in
      if String.eqb nodeID "" then source_numbers rest out
      else if bs_Number source <=? 0 then inl incompleteGitHubBlockerResponse
      else match out !! nodeID with
           | Some number => if negb (number =? bs_Number source) then inl incompleteGitHubBlockerResponse
                            else source_numbers rest (<[nodeID := bs_Number source]> out)
           | None => source_numbers rest (<[nodeID := bs_Number source]> out)
           end
  end.
Definition githubBlockerSourceNumbers (sources : list githubBlockerSource) : Err + gmap string Z := source_numbers sources ∅.

Definition validateGitHubGraphQLBlockerNode (blocker : githubGraphQLBlockerNode) : bool :=
  match bn_ID blocker, bn_Number blocker, bn_State blocker, bn_Labels blocker with
  | Some id, Some number, Some state, Some labels =>
      negb (blank id) && (0 <? number) && negb (blank state) &&
      forallb (fun name => match name with Some n => negb (blank n) | None => false end) labels
  | _, _, _, _ => false
  end.
Definition githubGraphQLBlockerRef (blocker : githubGraphQLBlockerNode) (configuredStates : list string) : BlockerRef :=
  let labels := map (default "") (default [] (bn_Labels blocker)) in
  let id := TrimSpace (default "" (bn_ID blocker)) in
  {| br_ID := match bn_DatabaseID blocker with Some d => if 0 <? d then fmt_d d else id | None => id end;
     br_Identifier := hash_number (default 0 (bn_Number blocker));
     br_State := githubResolveState (default "" (bn_State blocker)) labels configuredStates |}.
Definition githubNativeBlockersFromGraphQLNode (node : githubGraphQLIssueNode) (expectedNumbers : gmap string Z)
    (configuredStates : list string) : Err + (string * githubNativeBlockers) :=
  match node with
  | {| in_ID := Some rawID; in_Number := Some number; in_Blockers := Some blockers; in_HasNextPage := Some hasNextPage |} =>
      if blank rawID || (number <=? 0) then inl incompleteGitHubBlockerResponse
      else if negb (forallb validateGitHubGraphQLBlockerNode blockers) then inl incompleteGitHubBlockerResponse
      else let id := TrimSpace rawID in
           match expectedNumbers !! id with
           | None => inl incompleteGitHubBlockerResponse
           | Some expectedNumber =>
               if negb (number =? expectedNumber) then inl incompleteGitHubBlockerResponse
               else inr (id, {| nb_Blockers := fold_left (fun acc b => appendGitHubBlocker acc (githubGraphQLBlockerRef b configuredStates)) blockers [];
                                nb_Incomplete := hasNextPage |})
           end
  | _ => inl incompleteGitHubBlockerResponse
  end.
Fixpoint native_nodes (nodes : list githubGraphQLIssueNode) (expectedNumbers : gmap string Z)
    (configuredStates : list string) (out : gmap string githubNativeBlockers) : Err + gmap string githubNativeBlockers :=
  match nodes with
  | [] => inr out
  | node :: rest =>
      match githubNativeBlockersFromGraphQLNode node expectedNumbers configuredStates with
      | inl e => inl e
      | inr (id, blockers) =>
          match out !! id with
          | Some _ => inl incompleteGitHubBlockerResponse
          | None => native_nodes rest expectedNumbers configuredStates (<[id := blockers]> out)
          end
      end
  end.
Definition graphQLNativeBlockers (decoded : githubGraphQLBlockersResponse) (expectedNumbers : gmap string Z)
    (configuredStates : list string) : Err + gmap string githubNativeBlockers :=
  match gb_Nodes decoded with
  | None => inl incompleteGitHubBlockerResponse
  | Some nodes =>
      match native_nodes nodes expectedNumbers configuredStates ∅ with
      | inl e => inl e
      | inr out => if bool_decide (size out = size expectedNumbers) then inr out else inl incompleteGitHubBlockerResponse
      end
  end.

Definition fetchNativeGitHubBlockers (nodeIDs : list string) : GitHub githubGraphQLBlockersResponse :=
  gh! a := send (IssueBlockers nodeIDs) in
  gh! r := or_error (response a) in
  match gb_Errors r.1 with [] => done_with r.1 | _ => fails plain_error end.
Definition nativeGitHubBlockerChunk (nodeIDs : list string) (sourceNumbers : gmap string Z) (configuredStates : list string)
    : GitHub (gmap string githubNativeBlockers) :=
  gh! decoded := fetchNativeGitHubBlockers nodeIDs in
  let expectedNumbers := fold_left (fun m id => <[id := default 0 (sourceNumbers !! id)]> m) nodeIDs ∅ in
  or_error (graphQLNativeBlockers decoded expectedNumbers configuredStates).
Fixpoint native_chunks (cs : list (list string)) (sourceNumbers : gmap string Z) (configuredStates : list string)
    (out : gmap string githubNativeBlockers) : GitHub (gmap string githubNativeBlockers) :=
  match cs with
  | [] => done_with out
  | chunk :: rest =>
      gh! blockersByID := nativeGitHubBlockerChunk chunk sourceNumbers configuredStates in
      native_chunks rest sourceNumbers configuredStates (blockersByID ∪ out)
  end.
Definition nativeGitHubBlockers (sources : list githubBlockerSource) (configuredStates : list string)
    : GitHub (gmap string githubNativeBlockers) :=
  match githubBlockerNodeIDs sources with
  | [] => done_with ∅
  | nodeIDs =>
      gh! sourceNumbers := or_error (githubBlockerSourceNumbers sources) in
      native_chunks (chunks (Z.to_nat githubBlockedBySourceChunkSize) (length nodeIDs) nodeIDs) sourceNumbers configuredStates ∅
  end.
Definition nativeGitHubBlockersForSource (source : githubBlockerSource) (native : gmap string githubNativeBlockers)
    : Err + list BlockerRef :=
  if String.eqb (bs_NodeID source) "" then inr []
  else match native !! bs_NodeID source with
       | None => inl plain_error
       | Some got => inr (if nb_Incomplete got then appendGitHubBlocker (nb_Blockers got) (unknownGitHubBlocker source)
                          else nb_Blockers got)
       end.

(** [None]: the body's reference is no blocker. *)
Definition githubBodyBlockerPlaceholder (issueNumber : Z) : option BlockerRef :=
  Some {| br_ID := ""; br_Identifier := hash_number issueNumber; br_State := "" |}.
Definition bodyGitHubBlockerLookupFailure (issueNumber : Z) (lookupErr : Err) (policy : githubBodyBlockerLookupPolicy)
    : GitHub (option BlockerRef) :=
  match policy with
  | githubBodyBlockerBestEffort => done_with None
  | githubBodyBlockerRefresh =>
      gh! stop := ShouldStop lookupErr in
      if stop then
        gh! ctxErr := ctx_Err in
        fails (match ctxErr with
               | [] => lookupErr
               | k :: _ => if errors_Is lookupErr k then lookupErr else lookupErr ++ ctxErr
               end)
      else done_with (githubBodyBlockerPlaceholder issueNumber)
  end.
Definition resolveBodyGitHubBlocker (issueNumber : Z) (configuredStates : list string) (policy : githubBodyBlockerLookupPolicy)
    : GitHub (option BlockerRef) :=
  gh! r := attempted (getIssueByNumber issueNumber) in
  match r with
  | inl lookupErr => bodyGitHubBlockerLookupFailure issueNumber lookupErr policy
  | inr None => done_with None
  | inr (Some issue) =>
      if negb (gh_Number issue =? issueNumber) then done_with (githubBodyBlockerPlaceholder issueNumber)
      else
        let id := fmt_d (gh_ID issue) in
        gh! _ := cacheIssueNumber id (gh_Number issue) in
        gh! _ := cacheIssueMetadata id issue in
        done_with (Some {| br_ID := id; br_Identifier := hash_number (gh_Number issue);
                           br_State := githubResolveState (gh_State issue) (gh_Labels issue) configuredStates |})
  end.
Fixpoint body_blockers (numbers : list Z) (configuredStates : list string) (skip : gset Z)
    (policy : githubBodyBlockerLookupPolicy) (out : list BlockerRef) : GitHub (list BlockerRef) :=
  match numbers with
  | [] => done_with out
  | number :: rest =>
      if bool_decide (number ∈ skip) then body_blockers rest configuredStates skip policy out
      else
        gh! resolved := resolveBodyGitHubBlocker number configuredStates policy in
        body_blockers rest configuredStates skip policy
          (match resolved with Some ref => appendGitHubBlocker out ref | None => out end)
  end.
Definition bodyGitHubBlockers (body : string) (configuredStates : list string) (skip : gset Z)
    (policy : githubBodyBlockerLookupPolicy) : GitHub (list BlockerRef) :=
  body_blockers (githubBlockedByIssueNumbers body) configuredStates skip policy [].
Definition githubBlockerNumbers (blockers : list BlockerRef) : gset Z :=
  list_to_set (omap (fun b => githubIssueNumberFromIdentifier (br_Identifier b)) blockers).

Definition blockersForGitHubSource (source : githubBlockerSource) (native : gmap string githubNativeBlockers)
    (configuredStates : list string) (policy : githubBodyBlockerLookupPolicy) : GitHub (list BlockerRef) :=
  if negb (githubBlockerSourceNeedsHydration source) then done_with []
  else
    gh! blockedBy := or_error (nativeGitHubBlockersForSource source native) in
    gh! bodyBlockers := bodyGitHubBlockers (bs_Body source) configuredStates (githubBlockerNumbers blockedBy) policy in
    done_with (fold_left appendGitHubBlocker bodyBlockers blockedBy).
Fixpoint source_blockers (sources : list githubBlockerSource) (native : gmap string githubNativeBlockers)
    (configuredStates : list string) (policy : githubBodyBlockerLookupPolicy) (out : gmap string (list BlockerRef))
    : GitHub (gmap string (list BlockerRef)) :=
  match sources with
  | [] => done_with out
  | source :: rest =>
      gh! blockedBy := blockersForGitHubSource source native configuredStates policy in
      source_blockers rest native configuredStates policy (<[bs_IssueID source := blockedBy]> out)
  end.
Definition blockersForGitHubSources (sources : list githubBlockerSource) (configuredStates : list string)
    (policy : githubBodyBlockerLookupPolicy) : GitHub (gmap string (list BlockerRef)) :=
  gh! native := nativeGitHubBlockers (githubBlockerHydrationSources sources) configuredStates in
  source_blockers sources native configuredStates policy ∅.

(** ** Listing *)

Definition issueMaxPages : Z := if 0 <? PaginationMaxPages c then PaginationMaxPages c else githubMaxIssuePages.
Definition recordPaginationCapHit : GitHub unit :=
  update (fun s => s <| paginationCapHits := paginationCapHits s + 1 |>).

(** The pages of open pull requests: the numbers they claim, and whether the cap was hit. *)
Definition claimed_by (pull : githubPullRequestSummary) : list Z :=
  if EqualFold (TrimSpace (pr_State pull)) "open"
  then githubClaimedIssueNumbers (pr_Title pull +:+ byte 10 +:+ pr_Body pull) else [].
Fixpoint claim_pages (fuel : nat) (page : Z) (out : gset Z) : GitHub (gset Z * bool) :=
  match fuel with
  | O => done_with (out, false)
  | S fuel =>
      gh! v := listOpenPullRequestsPage page in
      let '(pulls, hasNext) := v in
      if issueMaxPages <? page then
        if negb hasNext && (slice_len pulls =? 0) then done_with (out, false)
        else gh! _ := recordPaginationCapHit in done_with (out, true)
      else
        let out := out ∪ list_to_set (flat_map claimed_by pulls) in
        if negb hasNext && (slice_len pulls <? githubIssuePageSize) then done_with (out, false)
        else claim_pages fuel (page + 1) out
  end.
Definition openPullRequestClaimedIssueNumbers : GitHub (gset Z * bool) :=
  claim_pages (Z.to_nat (issueMaxPages + 1)) 1 ∅.

(** The issue collected, if it is. *)
Definition collectIssueFromBatch (issue : githubIssue) (mappedState : string) (claimedIssueNumbers : gset Z)
    (collectionSeen : gset string) : GitHub (option Issue) :=
  if gh_PullRequest issue then done_with None
  else if bool_decide (gh_Number issue ∈ claimedIssueNumbers) && EqualFold (TrimSpace (gh_State issue)) "open" then done_with None
  else
    gh! mapped := or_error (mapGitHubIssue issue mappedState) in
    if String.eqb (iss_ID mapped) "" then done_with None
    else
      gh! _ := cacheIssueNumber (iss_ID mapped) (gh_Number issue) in
      gh! _ := cacheIssueMetadata (iss_ID mapped) issue in
      done_with (if bool_decide (iss_ID mapped ∈ collectionSeen) then None else Some mapped).
(** [collectionSeen] is shared along the collection, so it is returned. *)
Fixpoint collectIssuesFromPage (batch : list githubIssue) (mappedState : string) (claimedIssueNumbers : gset Z)
    (collectionSeen : gset string) (out : list Issue) : GitHub (list Issue * gset string) :=
  match batch with
  | [] => done_with (out, collectionSeen)
  | issue :: rest =>
      gh! mapped := collectIssueFromBatch issue mappedState claimedIssueNumbers collectionSeen in
      match mapped with
      | Some i => collectIssuesFromPage rest mappedState claimedIssueNumbers ({[iss_ID i]} ∪ collectionSeen) (out ++ [i])
      | None => collectIssuesFromPage rest mappedState claimedIssueNumbers collectionSeen out
      end
  end.
(** [None]: the collection is capped. *)
Definition finishGitHubCapProbe (out : list Issue) (batch : list githubIssue) (hasNext : bool) : GitHub (option (list Issue)) :=
  if negb hasNext && (slice_len batch =? 0) then done_with (Some out)
  else gh! _ := recordPaginationCapHit in done_with None.
Fixpoint state_pages (fuel : nat) (issueState label mappedState : string) (claimedIssueNumbers : gset Z) (page : Z)
    (collectionSeen : gset string) (out : list Issue) : GitHub (option (list Issue)) :=
  match fuel with
  | O => done_with None
  | S fuel =>
      gh! v := listIssuesPage issueState label page in
      let '(batch, hasNext) := v in
      if issueMaxPages <? page then finishGitHubCapProbe out batch hasNext
      else
        gh! w := collectIssuesFromPage batch mappedState claimedIssueNumbers collectionSeen out in
        let '(out, collectionSeen) := w in
        if negb hasNext && (slice_len batch <? githubIssuePageSize) then done_with (Some out)
        else state_pages fuel issueState label mappedState claimedIssueNumbers (page + 1) collectionSeen out
  end.
Definition listIssuesForState (issueState label mappedState : string) (seen : gset string) (claimedIssueNumbers : gset Z)
    : GitHub (option (list Issue)) :=
  state_pages (Z.to_nat (issueMaxPages + 1)) issueState label mappedState claimedIssueNumbers 1 seen [].

(** The collections in turn, and whether one of them was capped. *)
Fixpoint collections (filters : list string) (claimedIssueNumbers : gset Z) (claimsCapped : bool) (seen : gset string)
    (out : list Issue) (capped : bool) : GitHub (list Issue * bool) :=
  match filters with
  | [] => done_with (out, capped)
  | state :: rest =>
      let '(issueState, label, mappedState) := githubIssueQueryForState state in
      if claimsCapped && githubIssueQueryRequiresCompleteClaims issueState
      then collections rest claimedIssueNumbers claimsCapped seen out true
      else
        gh! r := listIssuesForState issueState label mappedState seen claimedIssueNumbers in
        match r with
        | None => collections rest claimedIssueNumbers claimsCapped seen out true
        | Some issues => collections rest claimedIssueNumbers claimsCapped (set_of (map iss_ID issues) ∪ seen) (out ++ issues) capped
        end
  end.

Definition issue_source (s : GitHubState) (i : Issue) : option githubBlockerSource :=
  match issueMetadata s !! iss_ID i with
  | None => None
  | Some meta => Some {| bs_IssueID := iss_ID i; bs_Identifier := iss_Identifier i; bs_State := iss_State i;
                         bs_NodeID := md_NodeID meta; bs_Number := md_Number meta; bs_Body := md_Body meta |}
  end.
Definition attachGitHubBlockersToIssues (issues : list Issue) : GitHub (list Issue) :=
  match issues with
  | [] => done_with []
  | _ =>
      gh! s := read_state in
      gh! blockers := blockersForGitHubSources (omap (issue_source s) issues) githubConfiguredStates githubBodyBlockerBestEffort in
      done_with (map (fun i => i <| iss_BlockedBy := Some (default [] (blockers !! iss_ID i)) |>) issues)
  end.

Definition ListIssuesByStates (states : list string) : GitHub (list Issue) :=
  if blank (Token c) then fails plain_error
  else if blank (Owner c) || blank (Repo c) then fails plain_error
  else match nonEmptyGitHubStates states with
       | [] => done_with []
       | stateFilters =>
           gh! claims := (if githubStatesMayIncludeOpenIssues stateFilters then openPullRequestClaimedIssueNumbers
                          else done_with (∅, false)) in
           let '(claimedIssueNumbers, claimsCapped) := claims in
           gh! r := collections stateFilters claimedIssueNumbers claimsCapped ∅ [] false in
           let '(out, capped) := r in
           if capped : bool then fails (NewError CategoryIssueListingCapped [])
           else attachGitHubBlockersToIssues out
       end.
Definition ListActiveIssues : GitHub (list Issue) := ListIssuesByStates (ActiveStates c).

(** ** Narrow refresh *)

Record githubFetchedIssueState := { fs_issueID : string; fs_issue : githubIssue; fs_state : string; fs_labels : list string }.
Inductive githubIssueStateLookup := LookupUnknown | LookupAbsent | LookupCurrent (fetched : githubFetchedIssueState).

(** The number to ask for, and whether it is the cached one. *)
Definition issueNumberForStateRefresh (s : GitHubState) (ref : IssueRef) : option (Z * bool) :=
  match cachedIssueNumber s (ref_ID ref) with
  | Some n => Some (n, true)
  | None =>
      match githubIssueNumberFromIdentifier (ref_Identifier ref) with
      | Some n => Some (n, false)
      | None => if HasPrefix (TrimSpace (ref_ID ref)) "#"
                then (fun n => (n, false)) <$> githubIssueNumberFromIdentifier (ref_ID ref) else None
      end
  end.
Definition classifyFetchedGitHubIssueState (issueRef : IssueRef) (issueNumber : Z) (issue : githubIssue) (bodyPresent : bool)
    (configuredStates : list string) (includeBlockers : bool) : GitHub githubIssueStateLookup :=
  let refreshedID := fmt_d (gh_ID issue) in
  if negb (gh_Number issue =? issueNumber) then done_with LookupUnknown
  else if negb (githubFetchedIssueMatchesRef (ref_ID issueRef) (ref_Identifier issueRef) refreshedID (gh_Number issue)) then done_with LookupUnknown
  else
    gh! _ := cacheIssueNumber refreshedID (gh_Number issue) in
    gh! _ := (if String.eqb (ref_ID issueRef) (githubIssueNumberID (gh_Number issue))
              then cacheIssueNumber (ref_ID issueRef) (gh_Number issue) else done_with tt) in
    let state := githubResolveState (gh_State issue) (gh_Labels issue) configuredStates in
    if String.eqb state "" then done_with LookupUnknown
    else if includeBlockers && githubTodoWorkflowState state && (negb bodyPresent || blank (gh_NodeID issue))
    then fails [ErrIssueStateRefreshIncomplete]
    else done_with (LookupCurrent {| fs_issueID := ref_ID issueRef; fs_issue := issue; fs_state := state;
                                     fs_labels := githubIssueLabels issue |}).
Definition lookupGitHubIssueState (issueRef : IssueRef) (configuredStates : list string) (includeBlockers : bool)
    : GitHub githubIssueStateLookup :=
  gh! s := read_state in
  match issueNumberForStateRefresh s issueRef with
  | None => done_with LookupUnknown
  | Some (issueNumber, cached) =>
      if negb (githubIssueRefMatchesNumber issueRef issueNumber) then done_with LookupUnknown
      else
        gh! r := getIssueByNumberWithBodyPresence issueNumber in
        match r with
        | None => done_with (if cached : bool then LookupAbsent else LookupUnknown)
        | Some (issue, bodyPresent) =>
            classifyFetchedGitHubIssueState issueRef issueNumber issue bodyPresent configuredStates includeBlockers
        end
  end.

Record githubIssueStateLookupBatch := {
  bt_fetched : list githubFetchedIssueState; bt_absent : list string; bt_errs : list Err; bt_halted : bool
}.
Fixpoint lookup_refs (refs : list IssueRef) (configuredStates : list string) (includeBlockers : bool)
    (fetched : list githubFetchedIssueState) (absent : list string) (errs : list Err) : GitHub githubIssueStateLookupBatch :=
  match refs with
  | [] => done_with {| bt_fetched := fetched; bt_absent := absent; bt_errs := errs; bt_halted := false |}
  | issueRef :: rest =>
      gh! r := attempted (lookupGitHubIssueState issueRef configuredStates includeBlockers) in
      match r with
      | inl err =>
          gh! stop := ShouldStop err in
          if stop : bool then done_with {| bt_fetched := fetched; bt_absent := absent; bt_errs := errs ++ [err]; bt_halted := true |}
          else lookup_refs rest configuredStates includeBlockers fetched absent (errs ++ [err])
      | inr LookupUnknown => lookup_refs rest configuredStates includeBlockers fetched absent errs
      | inr LookupAbsent => lookup_refs rest configuredStates includeBlockers fetched (absent ++ [ref_ID issueRef]) errs
      | inr (LookupCurrent row) => lookup_refs rest configuredStates includeBlockers (fetched ++ [row]) absent errs
      end
  end.
Definition lookupGitHubIssueStates (refs : list IssueRef) (configuredStates : list string) (includeBlockers : bool)
    : GitHub githubIssueStateLookupBatch := lookup_refs refs configuredStates includeBlockers [] [] [].

Definition fetched_source (row : githubFetchedIssueState) : githubBlockerSource :=
  {| bs_IssueID := fs_issueID row; bs_Identifier := hash_number (gh_Number (fs_issue row)); bs_State := fs_state row;
     bs_NodeID := gh_NodeID (fs_issue row); bs_Number := gh_Number (fs_issue row); bs_Body := gh_Body (fs_issue row) |}.
Definition blockersForRefreshedGitHubIssues (rows : list githubFetchedIssueState) (configuredStates : list string)
    : GitHub (gmap string (list BlockerRef)) :=
  blockersForGitHubSources (map fetched_source rows) configuredStates githubBodyBlockerRefresh.
Definition blockerRefsForFetchedGitHubIssueStates (fetched : list githubFetchedIssueState) (configuredStates : list string)
    (includeBlockers : bool) : GitHub (gmap string (list BlockerRef)) :=
  if negb includeBlockers then done_with ∅ else blockersForRefreshedGitHubIssues fetched configuredStates.

Definition githubIssueStateBlockers (blockersByID : gmap string (list BlockerRef)) (issueID : string) (includeBlockers : bool)
    : option (list BlockerRef) :=
  if negb includeBlockers then None else Some (default [] (blockersByID !! issueID)).
Definition applyCurrentGitHubIssueStates (states : gmap string IssueState) (fetched : list githubFetchedIssueState)
    (blockersByID : gmap string (list BlockerRef)) (includeBlockers todoBlockersUnavailable : bool) : gmap string IssueState :=
  fold_left (fun states row =>
    if includeBlockers && githubTodoWorkflowState (fs_state row) && todoBlockersUnavailable then states
    else <[fs_issueID row := {| ist_Outcome := IssueStateOutcomeCurrent; ist_State := fs_state row; ist_Labels := fs_labels row;
             ist_BlockedBy := githubIssueStateBlockers blockersByID (fs_issueID row) includeBlockers |}]> states) fetched states.
Definition absent_row : IssueState :=
  {| ist_Outcome := IssueStateOutcomeAbsent; ist_State := ""; ist_Labels := []; ist_BlockedBy := None |}.

Definition fetchIssueStatesByRefs (issueRefs : list IssueRef) (includeBlockers : bool)
    : GitHub (gmap string IssueState * option Err) :=
  let '(states, refs) := UnknownIssueStatesByRefs issueRefs in
  if blank (Token c) then done_with (states, Some plain_error)
  else match refs with
       | [] => done_with (states, None)
       | _ =>
           if blank (Owner c) || blank (Repo c) then done_with (states, Some plain_error)
           else
             gh! batch := lookupGitHubIssueStates refs githubConfiguredStates includeBlockers in
             let states := fold_left (fun m id => <[id := absent_row]> m) (bt_absent batch) states in
             gh! blockers := (if bt_halted batch then done_with (inr ∅)
                              else attempted (blockerRefsForFetchedGitHubIssueStates (bt_fetched batch) githubConfiguredStates includeBlockers)) in
             let '(blockersByID, errs, failed) := match blockers with
               | inl err => (∅, bt_errs batch ++ [err], true)
               | inr m => (m, bt_errs batch, false)
               end in
             done_with (applyCurrentGitHubIssueStates states (bt_fetched batch) blockersByID includeBlockers (bt_halted batch || failed),
                        errors_Join errs)
       end.
Definition FetchIssueStatesByRefs (issueRefs : list IssueRef) := fetchIssueStatesByRefs issueRefs true.
Definition FetchIssueStatesWithoutBlockersByRefs (issueRefs : list IssueRef) := fetchIssueStatesByRefs issueRefs false.
Definition FetchIssueStatesByIDs (issueIDs : list string) := FetchIssueStatesByRefs (IssueRefsFromIDs issueIDs).
End Client.
