(* ===== verification/GithubProps.v ===== *)
(** * What the GitHub client's results rest on

    As for Linear, evidence is a set of answers in the log, and each part of the client is
    proved to return only what its evidence supports.  The caches change by what answered
    issues say, and only so.  The blockers of a Todo issue come before its listing: native
    ones from GraphQL, then the ones its body names. *)

From S2P Require Import Prelude Tracker GoStd Hashes TrackerErrors Regex Github.

Notation Log := (list (Exchange Answer)).

(** ** Evidence *)

Section Evidence.
Context {HD : HttpDates}.

Definition answered_issues (log : Log) issueState label page (batch : list githubIssue) (hasNext : bool) : Prop :=
  ∃ a links, Ex (IssuesPage issueState label page) a ∈ log ∧ response a = inr (batch, links) ∧ githubHasNextPage links = hasNext.
Definition answered_pulls (log : Log) page (batch : list githubPullRequestSummary) (hasNext : bool) : Prop :=
  ∃ a links, Ex (PullsPage page) a ∈ log ∧ response a = inr (batch, links) ∧ githubHasNextPage links = hasNext.
Definition gone {A} (a : HttpAnswer A) : bool :=
  match a with HttpResponse StatusCode _ _ _ => (StatusCode =? 404) || (StatusCode =? 410) | _ => false end.
Definition issue_gone (log : Log) number : Prop := ∃ a, Ex (GetIssue number) a ∈ log ∧ gone a = true.
Definition issue_failed (log : Log) number : Prop :=
  ∃ a, Ex (GetIssue number) a ∈ log ∧ gone a = false ∧
    (∀ raw links v, response a = inr (raw, links) → decodeGitHubIssueStateResponse raw = inr v → False).
Definition issue_answered (log : Log) number (issue : githubIssue) (body : bool) : Prop :=
  ∃ a raw links, Ex (GetIssue number) a ∈ log ∧ gone a = false ∧ response a = inr (raw, links) ∧
    decodeGitHubIssueStateResponse raw = inr (issue, body).
Definition answered_blockers (log : Log) ids (out : githubGraphQLBlockersResponse) : Prop :=
  ∃ a links, Ex (IssueBlockers ids) a ∈ log ∧ response a = inr (out, links) ∧ gb_Errors out = [].

(** An issue of some answer; what it says of an id. *)
Definition seen_issue (log : Log) (issue : githubIssue) : Prop :=
  (∃ issueState label page batch hasNext, answered_issues log issueState label page batch hasNext ∧ issue ∈ batch) ∨
  ∃ number body, issue_answered log number issue body.
Definition learned (log : Log) (id : string) (n : Z) : Prop :=
  ∃ issue, seen_issue log issue ∧ gh_Number issue = n ∧ 0 < n ∧
    (id = mapped_id issue ∨ id = fmt_d (gh_ID issue) ∨ id = githubIssueNumberID n).
Definition fresh (log : Log) (id : string) (m : githubIssueMetadata) : Prop :=
  ∃ issue, seen_issue log issue ∧ (id = mapped_id issue ∨ id = fmt_d (gh_ID issue)) ∧
    m = {| md_NodeID := TrimSpace (gh_NodeID issue); md_Number := gh_Number issue; md_Body := gh_Body issue |}.
(** The caches of [s'] are those of [s] but for what the log says. *)
Definition cache_step (log : Log) (s s' : GitHubState) : Prop :=
  (∀ id, issueNumbers s' !! id = issueNumbers s !! id ∨ ∃ n, issueNumbers s' !! id = Some n ∧ learned log id n) ∧
  (∀ id, issueMetadata s' !! id = issueMetadata s !! id ∨ ∃ m, issueMetadata s' !! id = Some m ∧ fresh log id m).

Lemma seen_issue_mono log log' issue : log `prefix_of` log' → seen_issue log issue → seen_issue log' issue.
Proof.
  intros [t ->] [(st & l & p & b & h & (a & k & Ha & Hr) & Hi)|(n & body & a & raw & k & Ha & Hr)].
  - left. exists st, l, p, b, h. split; [|done]. exists a, k. rewrite elem_of_app. eauto.
  - right. exists n, body, a, raw, k. rewrite elem_of_app. eauto.
Qed.
Lemma learned_mono log log' id n : log `prefix_of` log' → learned log id n → learned log' id n.
Proof. intros Hp (issue & ? & ?). exists issue. eauto using seen_issue_mono. Qed.
Lemma fresh_mono log log' id m : log `prefix_of` log' → fresh log id m → fresh log' id m.
Proof. intros Hp (issue & ? & ?). exists issue. eauto using seen_issue_mono. Qed.
Lemma cache_step_refl log s : cache_step log s s.
Proof. split; by left. Qed.
Lemma cache_step_trans log log' s s1 s2 :
  log `prefix_of` log' → cache_step log s s1 → cache_step log' s1 s2 → cache_step log' s s2.
Proof.
  intros Hp [H1 H2] [H3 H4]. split; intros id.
  - destruct (H3 id) as [->|?]; [|by right]. destruct (H1 id) as [->|(n & ? & ?)]; [by left|right]. eauto using learned_mono.
  - destruct (H4 id) as [->|?]; [|by right]. destruct (H2 id) as [->|(n & ? & ?)]; [by left|right]. eauto using fresh_mono.
Qed.
End Evidence.

(** ** The logic of the client *)

Definition failure {HD : HttpDates} {A} (a : HttpAnswer A) : option Err :=
  match response a with inl e => Some e | inr _ => None end.
Definition answer_error {HD : HttpDates} (e : Exchange Answer) : option Err :=
  match e with
  | Ex q a =>
      match q as q' return Answer q' → option Err with
      | GetIssue _ => λ a, if gone a then None else failure a
      | IssuesPage _ _ _ | PullsPage _ | IssueBlockers _ => failure
      | CtxErr => λ _, None
      end a
  end.

Section Logic.
Context {HD : HttpDates} (c : GitHubClient) (srv : Server Answer) (bad : Err → bool).

Definition quiet (log : Log) : Prop := ∀ e err, e ∈ log → answer_error e = Some err → bad err = false.
Definition only_while_quiet : Allowed Answer := λ log q, q = CtxErr ∨ quiet log.
Lemma open_quiet_snoc log e : quiet log → (∀ err, answer_error e = Some err → bad err = false) → quiet (log ++ [e]).
Proof. intros HQ HE e' err [H| ->%list_elem_of_singleton]%elem_of_app; [by apply HQ|apply HE]. Qed.

Definition post {A} (log : Log) (s : GitHubState) (P : Log → GitHubState → A → Prop) (log' : Log) (r : GitHubState * (Err + A)) : Prop :=
  log `prefix_of` log' ∧ cache_step log' s r.1 ∧
  match r.2 with inl e => quiet log' ∨ bad e = true | inr a => quiet log' ∧ P log' r.1 a end.
Notation holds := (holds only_while_quiet srv).
Definition does {A} (log : Log) (m : GitHub A) (s : GitHubState) (P : Log → GitHubState → A → Prop) : Prop :=
  holds log (m s) (post log s P).

Lemma does_done {A} log s (a : A) (P : Log → GitHubState → A → Prop) : quiet log → P log s a → does log (done_with a) s P.
Proof. intros HQ HP. split; [done|]. split; [apply cache_step_refl|done]. Qed.
Lemma does_fails {A} log s e (P : Log → GitHubState → A → Prop) : quiet log → does log (fails e) s P.
Proof. intros HQ. split; [done|]. split; [apply cache_step_refl|by left]. Qed.
Lemma does_or_error {A} log s (r : Err + A) (P : Log → GitHubState → A → Prop) :
  quiet log → (∀ a, r = inr a → P log s a) → does log (or_error r) s P.
Proof. intros HQ HP. destruct r; [by apply does_fails|apply does_done; auto]. Qed.
Lemma does_inr {A B} log s (a : A) (f : A → GitHub B) P : does log (f a) s P → does log (gh! x := or_error (inr a) in f x) s P.
Proof. done. Qed.
Lemma does_read {A} log s (f : GitHubState → GitHub A) P : does log (f s) s P → does log (gh! s := read_state in f s) s P.
Proof. done. Qed.
Lemma does_update {A} log s u (f : unit → GitHub A) P :
  cache_step log s (u s) → does log (f tt) (u s) P → does log (gh! x := update u in f x) s P.
Proof.
  intros HC HF. unfold does, github_bind, update. simpl. eapply holds_mono; [exact HF|].
  intros log' r (Hp & HC' & HR). split; [done|]. split; [|done]. eapply cache_step_trans; [eassumption|exact HC|exact HC'].
Qed.

Lemma does_seq_step {A B} log s (m : GitHub A) (f : A → GitHub B) P Q :
  does log m s Q →
  (∀ log' s' a, log `prefix_of` log' → quiet log' → cache_step log' s s' → Q log' s' a → does log' (f a) s' P) →
  does log (github_bind m f) s P.
Proof.
  intros Hm Hf. unfold does, github_bind. apply holds_bind. eapply holds_mono; [exact Hm|].
  intros log1 [s1 [e|a]] (Hp & HC & HR); simpl in *; [by split_and!|]. destruct HR as [HQ HR].
  eapply holds_mono; [by apply Hf|]. intros log2 r (Hp2 & HC' & HR2).
  split; [by etrans|]. split; [|done]. eapply cache_step_trans; [eassumption|exact HC|exact HC'].
Qed.
Lemma does_seq {A B} log s (m : GitHub A) (f : A → GitHub B) P Q :
  does log m s Q → (∀ log' s' a, log `prefix_of` log' → quiet log' → Q log' s' a → does log' (f a) s' P) →
  does log (github_bind m f) s P.
Proof. intros Hm Hf. eapply does_seq_step; [exact Hm|auto]. Qed.
Lemma does_mono {A} log (m : GitHub A) s (P Q : Log → GitHubState → A → Prop) :
  does log m s Q → (∀ log' s' a, log `prefix_of` log' → cache_step log' s s' → Q log' s' a → P log' s' a) → does log m s P.
Proof.
  intros Hm HPQ. eapply holds_mono; [exact Hm|]. intros log' [s' [e|a]] (? & ? & HR); (split; [done|split; [done|]]); [done|].
  destruct HR. split; [done|]. by apply HPQ.
Qed.
(** A part whose error is looked at: an error that ends the reading leaves no more to ask. *)
Lemma does_attempted {A B} log s (m : GitHub A) (f : Err + A → GitHub B) P Q :
  does log m s Q →
  (∀ log' s' a, log `prefix_of` log' → quiet log' → Q log' s' a → does log' (f (inr a)) s' P) →
  (∀ log' s' e, log `prefix_of` log' → quiet log' ∨ bad e = true → does log' (f (inl e)) s' P) →
  does log (gh! r := attempted m in f r) s P.
Proof.
  intros Hm Hf Hg. unfold does, github_bind, attempted. apply holds_bind, holds_bind. eapply holds_mono; [exact Hm|].
  intros log1 [s1 r] (Hp & HC & HR). simpl.
  assert (does log1 (f r) s1 P) as HF by (destruct r; [by apply Hg|destruct HR; by apply Hf]).
  eapply holds_mono; [exact HF|]. intros log2 r2 (Hp2 & HC' & HR2).
  split; [by etrans|]. split; [|done]. eapply cache_step_trans; [eassumption|exact HC|exact HC'].
Qed.

(** One exchange; only its error can end the reading. *)
Lemma does_send {B} log s q (f : Answer q → GitHub B) P :
  q = CtxErr ∨ quiet log →
  (∀ a, does (log ++ [Ex q a]) (f a) s P) → does log (gh! a := send q in f a) s P.
Proof.
  intros HQ Hf. unfold does, github_bind, send. simpl. split; [done|].
  eapply holds_mono; [apply Hf|]. intros log' r (Hp & HC & HR). split; [|done]. etrans; [|exact Hp]. by eexists.
Qed.
(** The checks of the response. *)
Lemma does_response {A B} log s q (a : Answer q) (h : HttpAnswer A) (f : A * list string → GitHub B) P :
  quiet log → answer_error (Ex q a) = failure h →
  (∀ r links, response h = inr (r, links) → quiet (log ++ [Ex q a]) → does (log ++ [Ex q a]) (f (r, links)) s P) →
  does (log ++ [Ex q a]) (gh! r := or_error (response h) in f r) s P.
Proof.
  intros HQ HE Hf. unfold failure in HE. unfold github_bind, or_error, does. simpl.
  destruct (response h) as [e|[r links]] eqn:E.
  - split; [done|]. split; [apply cache_step_refl|]. simpl. destruct (bad e) eqn:EB; [by right|left].
    apply open_quiet_snoc; [done|]. intros err. rewrite HE. by intros [= <-].
  - apply Hf; [done|]. apply open_quiet_snoc; [done|]. by rewrite HE.
Qed.

(** The stop rule reads the context only when the error itself does not decide. *)
Lemma holds_ShouldStop {B} log s e (f : bool → GitHub B) P :
  (stops e = true → holds log (f true s) P) → (stops e = false → quiet log) →
  (∀ log' stop, log `prefix_of` log' → quiet log' → holds log' (f stop s) P) →
  holds log ((gh! stop := ShouldStop e in f stop) s) P.
Proof.
  intros Hs HQ Hf. unfold github_bind, ShouldStop, ShouldStopIssueStateRefresh. destruct (stops e) eqn:ES; [by apply Hs|].
  specialize (HQ eq_refl). simpl. split; [by left|]. generalize (srv log CtxErr) as e1. intros e1.
  assert (quiet (log ++ [Ex CtxErr e1])) as HQ1 by by apply open_quiet_snoc.
  destruct (errors_Is e1 Canceled); simpl; [apply Hf; [by eexists|done]|].
  split; [by left|]. apply Hf; [rewrite <- app_assoc; by eexists|by apply open_quiet_snoc].
Qed.
Lemma does_should_stop {B} log s e (f : bool → GitHub B) P :
  (stops e = true → does log (f true) s P) → (stops e = false → quiet log) →
  (∀ log' stop, log `prefix_of` log' → quiet log' → does log' (f stop) s P) →
  does log (gh! stop := ShouldStop e in f stop) s P.
Proof.
  intros Hs HQ Hf. apply holds_ShouldStop; [done..|]. intros log1 stop Hp HQ1.
  eapply holds_mono; [by apply Hf|]. intros log' r (Hp' & HC & HR). split; [by etrans|done].
Qed.

(** ** Requests and caches *)

Lemma does_listIssuesPage log s issueState label page :
  quiet log →
  does log (listIssuesPage issueState label page) s (λ log' s' r, s' = s ∧ answered_issues log' issueState label page r.1 r.2).
Proof.
  intros HQ. unfold listIssuesPage. apply does_send; [by right|]. intros a.
  apply (does_response log s (IssuesPage issueState label page) a a); [done..|].
  intros r links E HQ1. apply does_done; [done|]. split; [done|]. exists a, links. split_and!; [|done..].
  apply elem_of_app. right. by apply list_elem_of_singleton.
Qed.
Lemma does_listPulls log s page :
  quiet log → does log (listOpenPullRequestsPage page) s (λ log' s' r, s' = s ∧ answered_pulls log' page r.1 r.2).
Proof.
  intros HQ. unfold listOpenPullRequestsPage. apply does_send; [by right|]. intros a.
  apply (does_response log s (PullsPage page) a a); [done..|].
  intros r links E HQ1. apply does_done; [done|]. split; [done|]. exists a, links. split_and!; [|done..].
  apply elem_of_app. right. by apply list_elem_of_singleton.
Qed.
Lemma does_getIssue log s n :
  quiet log →
  does log (getIssueByNumberWithBodyPresence n) s (λ log' s' r, s' = s ∧
    match r with None => issue_gone log' n | Some (issue, body) => issue_answered log' n issue body end).
Proof.
  intros HQ. unfold getIssueByNumberWithBodyPresence. apply does_send; [by right|]. intros a. fold (gone a).
  destruct (gone a) eqn:EG.
  - apply does_done.
    + apply open_quiet_snoc; [done|]. intros err. simpl. by rewrite EG.
    + split; [done|]. exists a. split; [|done]. apply elem_of_app. right. by apply list_elem_of_singleton.
  - apply (does_response log s (GetIssue n) a a); [done|simpl; by rewrite EG|]. intros raw links E HQ1. simpl.
    destruct (decodeGitHubIssueStateResponse raw) as [e|[issue body]] eqn:ED; [by apply (does_fails _ s e)|].
    apply does_done; [done|]. split; [done|]. exists a, raw, links. split_and!; [|done..].
    apply elem_of_app. right. by apply list_elem_of_singleton.
Qed.

Lemma numbers_step log s id n :
  learned log id n → cache_step log s (s <| issueNumbers := <[id := n]> (issueNumbers s) |>).
Proof.
  intros HL. split; intros id'; simpl; [|by left].
  destruct (decide (id' = id)) as [->|Hne]; [right|left; by rewrite lookup_insert_ne].
  exists n. rewrite lookup_insert, decide_True by done. done.
Qed.
Lemma metadata_step log s id m :
  fresh log id m → cache_step log s (s <| issueMetadata := <[id := m]> (issueMetadata s) |>).
Proof.
  intros HL. split; intros id'; simpl; [by left|].
  destruct (decide (id' = id)) as [->|Hne]; [right|left; by rewrite lookup_insert_ne].
  exists m. rewrite lookup_insert, decide_True by done. done.
Qed.
Lemma does_cache_number {A} log s id n (f : unit → GitHub A) P :
  (0 < n → learned log id n) → (∀ s', cache_step log s s' → does log (f tt) s' P) →
  does log (gh! x := cacheIssueNumber id n in f x) s P.
Proof.
  intros HL Hf. unfold cacheIssueNumber. destruct (blank id || (n <=? 0)) eqn:E.
  - apply Hf, cache_step_refl.
  - apply orb_false_iff in E as [_ E%Z.leb_gt]. assert (cache_step log s (s <| issueNumbers := <[id := n]> (issueNumbers s) |>)) by by apply numbers_step, HL.
    apply does_update; auto.
Qed.
(** After an id is cached, its metadata is that of the answer. *)
Lemma does_cache_metadata {A} log s id issue (f : unit → GitHub A) P :
  seen_issue log issue → id = mapped_id issue ∨ id = fmt_d (gh_ID issue) →
  (∀ s', cache_step log s s' → (blank id = false → ∃ m, issueMetadata s' !! id = Some m ∧ fresh log id m) → does log (f tt) s' P) →
  does log (gh! x := cacheIssueMetadata id issue in f x) s P.
Proof.
  intros Hs Hid Hf. unfold cacheIssueMetadata. destruct (blank id) eqn:E.
  - apply Hf; [apply cache_step_refl|done].
  - set (m := {| md_NodeID := TrimSpace (gh_NodeID issue); md_Number := gh_Number issue; md_Body := gh_Body issue |}).
    assert (fresh log id m) as HF by by exists issue.
    assert (cache_step log s (s <| issueMetadata := <[id := m]> (issueMetadata s) |>)) as HC by by apply metadata_step.
    apply does_update; [done|]. apply Hf; [done|]. intros _. exists m. split; [|done]. simpl. by rewrite lookup_insert, decide_True.
Qed.
End Logic.

(** * The blockers of a GitHub issue

    Of the native blockers GitHub answers, one of each number is in the list, and one without
    a state is added when there are more; under the refresh's policy every issue the body
    names is a blocker unless GitHub said it is gone. *)


(** [b], or one that stands for it, is in the list. *)
Definition key_in (b : BlockerRef) (bs : list BlockerRef) : Prop := ∃ e, e ∈ bs ∧ blocker_key e = blocker_key b.
(** One of the native blockers [natives] of an answer that has this key is in the list, as
    the client renders it. *)
Definition native_listed (configured : list string) (natives : list githubGraphQLBlockerNode) (bs : list BlockerRef) (key : string) : Prop :=
  ∃ b, b ∈ natives ∧ githubGraphQLBlockerRef b configured ∈ bs ∧ blocker_key (githubGraphQLBlockerRef b configured) = key.
Definition listed (n : Z) (bs : list BlockerRef) : Prop :=
  ∃ e, e ∈ bs ∧ (blocker_key e = hash_number n ∨ githubIssueNumberFromIdentifier (br_Identifier e) = Some n).

Section Evidence.
Context {HD : HttpDates}.

Definition native_evidence (log : Log) (configured : list string) (source : githubBlockerSource) (bs : list BlockerRef) : Prop :=
  ∃ ids out nodes raw blockers next,
    answered_blockers log ids out ∧ gb_Nodes out = Some nodes ∧
    {| in_ID := Some raw; in_Number := Some (bs_Number source); in_Blockers := Some blockers; in_HasNextPage := Some next |} ∈ nodes ∧
    TrimSpace raw = bs_NodeID source ∧
    (∀ b, b ∈ blockers → native_listed configured blockers bs (blocker_key (githubGraphQLBlockerRef b configured))) ∧
    (next = true → unknownGitHubBlocker source ∈ bs ∨ native_listed configured blockers bs (blocker_key (unknownGitHubBlocker source))).
Definition body_evidence (log : Log) (source : githubBlockerSource) (bs : list BlockerRef) : Prop :=
  ∀ n, n ∈ githubBlockedByIssueNumbers (bs_Body source) → listed n bs ∨ issue_gone log n.
Definition source_evidence (log : Log) (configured : list string) (policy : githubBodyBlockerLookupPolicy)
    (source : githubBlockerSource) (bs : list BlockerRef) : Prop :=
  if githubTodoWorkflowState (bs_State source)
  then (bs_NodeID source ≠ "" → native_evidence log configured source bs) ∧
       (policy = githubBodyBlockerRefresh → body_evidence log source bs)
  else bs = [].

Lemma answered_blockers_mono log log' ids out :
  log `prefix_of` log' → answered_blockers log ids out → answered_blockers log' ids out.
Proof. intros [t ->] (a & k & Ha & ?). exists a, k. rewrite elem_of_app. eauto. Qed.
Lemma issue_gone_mono log log' n : log `prefix_of` log' → issue_gone log n → issue_gone log' n.
Proof. intros [t ->] (a & Ha & ?). exists a. rewrite elem_of_app. eauto. Qed.
Lemma native_evidence_mono log log' configured source bs :
  log `prefix_of` log' → native_evidence log configured source bs → native_evidence log' configured source bs.
Proof.
  intros Hp (ids & out & nodes & raw & bl & nx & HA & HR). exists ids, out, nodes, raw, bl, nx. eauto using answered_blockers_mono.
Qed.
Lemma native_listed_sub configured natives bs bs' key :
  bs ⊆ bs' → native_listed configured natives bs key → native_listed configured natives bs' key.
Proof. intros Hs (b & Hb & Hin & Ek). exists b. split_and!; [done|by apply Hs|done]. Qed.
Lemma native_evidence_sub log configured source bs bs' :
  bs ⊆ bs' → native_evidence log configured source bs → native_evidence log configured source bs'.
Proof.
  intros Hs (ids & out & nodes & raw & bl & nx & HA & Hn & Hin & Er & HB & HI). exists ids, out, nodes, raw, bl, nx.
  split_and!; [done..| |].
  - intros b Hb. eapply native_listed_sub; [exact Hs|by apply HB].
  - intros Hx. destruct (HI Hx) as [?|?]; [left; by apply Hs|right; by eapply native_listed_sub].
Qed.
Lemma source_evidence_mono log log' configured policy source bs :
  log `prefix_of` log' → source_evidence log configured policy source bs → source_evidence log' configured policy source bs.
Proof.
  intros Hp. unfold source_evidence. destruct (githubTodoWorkflowState _); [|done]. intros [HN HB]. split.
  - eauto using native_evidence_mono.
  - intros Hpol n Hn. destruct (HB Hpol n Hn); eauto using issue_gone_mono.
Qed.
End Evidence.

(** ** Appending *)

Lemma append_blocker_in bs b : key_in b (appendGitHubBlocker bs b).
Proof.
  unfold appendGitHubBlocker. destruct (existsb _ bs) eqn:E.
  - apply existsb_exists in E as (e & He%list_elem_of_In & Ek%String.eqb_eq). by exists e.
  - exists b. split; [|done]. apply elem_of_app. right. by apply list_elem_of_singleton.
Qed.
Lemma append_blocker_sub bs b : bs ⊆ appendGitHubBlocker bs b.
Proof. unfold appendGitHubBlocker. destruct (existsb _ bs); [done|]. intros x. rewrite elem_of_app. by left. Qed.
Lemma append_blocker_new bs b : b ∈ appendGitHubBlocker bs b ∨ key_in b bs.
Proof.
  unfold appendGitHubBlocker. destruct (existsb _ bs) eqn:E.
  - right. apply existsb_exists in E as (e & He%list_elem_of_In & Ek%String.eqb_eq). by exists e.
  - left. apply elem_of_app. right. by apply list_elem_of_singleton.
Qed.
Lemma append_blocker_from bs b e : e ∈ appendGitHubBlocker bs b → e ∈ bs ∨ e = b.
Proof. unfold appendGitHubBlocker. destruct (existsb _ bs); [by left|]. rewrite elem_of_app, list_elem_of_singleton. tauto. Qed.
Lemma key_in_sub b bs bs' : bs ⊆ bs' → key_in b bs → key_in b bs'.
Proof. intros Hs (e & He & Ek). exists e. split; [by apply Hs|done]. Qed.
Lemma listed_sub n bs bs' : bs ⊆ bs' → listed n bs → listed n bs'.
Proof. intros Hs (e & He & Ek). exists e. split; [by apply Hs|done]. Qed.
Lemma fold_append_sub {A} (g : A → BlockerRef) l bs : bs ⊆ fold_left (λ acc b, appendGitHubBlocker acc (g b)) l bs.
Proof. revert bs. induction l as [|x l IH]; intros bs; simpl; [done|]. etrans; [apply append_blocker_sub|apply IH]. Qed.
Lemma fold_append_in {A} (g : A → BlockerRef) l bs b :
  b ∈ l → key_in (g b) (fold_left (λ acc b, appendGitHubBlocker acc (g b)) l bs).
Proof.
  revert bs. induction l as [|x l IH]; intros bs; simpl; [set_solver|]. intros [->|Hb]%elem_of_cons; [|by apply IH].
  eapply key_in_sub; [apply fold_append_sub|apply append_blocker_in].
Qed.
Lemma fold_append_from {A} (g : A → BlockerRef) l bs e :
  e ∈ fold_left (λ acc b, appendGitHubBlocker acc (g b)) l bs → e ∈ bs ∨ ∃ b, b ∈ l ∧ e = g b.
Proof.
  revert bs. induction l as [|x l IH]; intros bs; simpl; [by left|]. intros [He|(b & Hb & ->)]%IH.
  - apply append_blocker_from in He as [?| ->]; [by left|]. right. exists x. by split; [left|].
  - right. exists b. by split; [right|].
Qed.

(** ** Native blockers *)

(** The list holds one blocker of each number of an answer, and nothing else. *)
Definition natives_of (configured : list string) (natives : list githubGraphQLBlockerNode) (bs : list BlockerRef) : Prop :=
  (∀ b, b ∈ natives → key_in (githubGraphQLBlockerRef b configured) bs) ∧
  ∀ e, e ∈ bs → ∃ b, b ∈ natives ∧ e = githubGraphQLBlockerRef b configured.
Lemma natives_listed configured natives bs b :
  natives_of configured natives bs → key_in b bs → native_listed configured natives bs (blocker_key b).
Proof. intros [_ HF] (e & He & Ek). destruct (HF e He) as (b' & Hb' & ->). by exists b'. Qed.

Lemma source_numbers_lookup sources out0 out source :
  source_numbers sources out0 = inr out →
  (∀ id n, out0 !! id = Some n → out !! id = Some n) ∧
  (source ∈ sources → TrimSpace (bs_NodeID source) ≠ "" → out !! TrimSpace (bs_NodeID source) = Some (bs_Number source)).
Proof.
  revert out0. induction sources as [|s rest IH]; intros out0; simpl; [intros [= <-]; split; [done|set_solver]|].
  destruct (String.eqb_spec (TrimSpace (bs_NodeID s)) "") as [E|E].
  { intros H. destruct (IH _ H) as [H1 H2]. split; [done|]. intros [->|?]%elem_of_cons; [done|auto]. }
  destruct (bs_Number s <=? 0); [done|].
  assert (∀ out1, out1 = <[TrimSpace (bs_NodeID s) := bs_Number s]> out0 →
    (∀ n, out0 !! TrimSpace (bs_NodeID s) = Some n → n = bs_Number s) → source_numbers rest out1 = inr out →
    (∀ id n, out0 !! id = Some n → out !! id = Some n) ∧
    (source ∈ s :: rest → TrimSpace (bs_NodeID source) ≠ "" → out !! TrimSpace (bs_NodeID source) = Some (bs_Number source))) as Hgo.
  { intros out1 -> Hsame H. destruct (IH _ H) as [H1 H2]. split.
    - intros id n Hid. apply H1. destruct (decide (id = TrimSpace (bs_NodeID s))) as [->|Hne].
      + rewrite lookup_insert, decide_True by done. f_equal. symmetry. by apply Hsame.
      + by rewrite lookup_insert_ne.
    - intros [->|?]%elem_of_cons Hne; [|auto]. apply H1. by rewrite lookup_insert, decide_True. }
  destruct (out0 !! TrimSpace (bs_NodeID s)) as [n|] eqn:EL.
  - destruct (Z.eqb_spec n (bs_Number s)) as [->|]; simpl; [|done]. apply (Hgo _ eq_refl). congruence.
  - by apply (Hgo _ eq_refl).
Qed.

(** What the response says of a node id. *)
Definition native_from (nodes : list githubGraphQLIssueNode) (expected : gmap string Z) (configured : list string)
    (id : string) (nb : githubNativeBlockers) : Prop :=
  ∃ raw number blockers,
    {| in_ID := Some raw; in_Number := Some number; in_Blockers := Some blockers; in_HasNextPage := Some (nb_Incomplete nb) |} ∈ nodes ∧
    TrimSpace raw = id ∧ expected !! id = Some number ∧ natives_of configured blockers (nb_Blockers nb).

Lemma native_node_from node expected configured id nb :
  githubNativeBlockersFromGraphQLNode node expected configured = inr (id, nb) → native_from [node] expected configured id nb.
Proof.
  destruct node as [[raw|] [number|] [blockers|] [next|]]; try done. simpl.
  destruct (_ || _); [done|]. destruct (negb (forallb _ _)); [done|].
  destruct (expected !! TrimSpace raw) as [n|] eqn:E; [|done]. destruct (Z.eqb_spec number n) as [->|]; [|done]. simpl.
  intros [= <- <-]. exists raw, n, blockers. split; [by apply list_elem_of_singleton|]. split_and!; [done..|].
  split; [intros b Hb; by apply (fold_append_in (λ b, githubGraphQLBlockerRef b configured))|].
  intros e [He|He]%fold_append_from; [by apply elem_of_nil in He|done].
Qed.
Lemma native_from_sub nodes nodes' expected configured id nb :
  nodes ⊆ nodes' → native_from nodes expected configured id nb → native_from nodes' expected configured id nb.
Proof. intros Hs (raw & n & bl & Hin & ?). exists raw, n, bl. split; [by apply Hs|done]. Qed.

Lemma native_nodes_from nodes expected configured out0 out id nb :
  native_nodes nodes expected configured out0 = inr out → out !! id = Some nb →
  out0 !! id = Some nb ∨ native_from nodes expected configured id nb.
Proof.
  revert out0. induction nodes as [|node rest IH]; intros out0; simpl; [intros [= <-]; by left|].
  destruct (githubNativeBlockersFromGraphQLNode node expected configured) as [|[id' nb']] eqn:E; [done|].
  destruct (out0 !! id') eqn:EL; [done|]. intros H Hid.
  destruct (IH _ H Hid) as [HL|HR]; [|right; eapply native_from_sub; [|done]; set_solver].
  apply lookup_insert_Some in HL as [[-> ->]|[_ HL]]; [right|by left].
  eapply native_from_sub; [|by apply native_node_from]. set_solver.
Qed.

Section Blockers.
Context {HD : HttpDates} (c : GitHubClient) (srv : Server Answer) (bad : Err → bool) (configured : list string)
  (policy : githubBodyBlockerLookupPolicy).
Context (Hstop : ∀ e, bad e = true → stops e = true) (Happ : ∀ e e', bad e = true → bad (e ++ e') = true)
  (Hbest : policy = githubBodyBlockerBestEffort → ∀ e, bad e = false).
Notation does := (does srv bad).
Notation quiet := (quiet bad).

Definition native_ok (log : Log) (numbers : gmap string Z) (id : string) (nb : githubNativeBlockers) : Prop :=
  ∃ ids out nodes raw blockers,
    answered_blockers log ids out ∧ gb_Nodes out = Some nodes ∧
    {| in_ID := Some raw; in_Number := Some (default 0 (numbers !! id)); in_Blockers := Some blockers;
       in_HasNextPage := Some (nb_Incomplete nb) |} ∈ nodes ∧
    TrimSpace raw = id ∧ natives_of configured blockers (nb_Blockers nb).
Lemma native_ok_mono log log' numbers id nb :
  log `prefix_of` log' → native_ok log numbers id nb → native_ok log' numbers id nb.
Proof.
  intros Hp (ids & out & nodes & raw & bl & HA & HR). exists ids, out, nodes, raw, bl. eauto using answered_blockers_mono.
Qed.

Lemma expected_lookup ids (numbers m : gmap string Z) id n :
  fold_left (λ m id, <[id := default 0 (numbers !! id)]> m) ids m !! id = Some n →
  n = default 0 (numbers !! id) ∨ m !! id = Some n.
Proof.
  revert m. induction ids as [|x ids IH]; intros m; simpl; [by right|]. intros H. destruct (IH _ H) as [->|HL]; [by left|].
  apply lookup_insert_Some in HL as [[-> <-]|[_ HL]]; auto.
Qed.

Lemma does_native_chunk log s ids numbers :
  quiet log →
  does log (nativeGitHubBlockerChunk ids numbers configured) s
    (λ log' s' out, ∀ id nb, out !! id = Some nb → native_ok log' numbers id nb).
Proof.
  intros HQ. unfold nativeGitHubBlockerChunk, fetchNativeGitHubBlockers.
  eapply does_seq with (Q := λ log' _ out, answered_blockers log' ids out).
  - apply does_send; [by right|]. intros a. apply (does_response srv bad log s (IssueBlockers ids) a a); [done..|].
    intros out links E HQ1. simpl. destruct (gb_Errors out) eqn:EE; [|by apply does_fails].
    apply does_done; [done|]. exists a, links. split_and!; [|done..]. apply elem_of_app. right. by apply list_elem_of_singleton.
  - intros log1 s1 decoded Hp HQ1 HA. apply does_or_error; [done|]. intros out. unfold graphQLNativeBlockers.
    destruct (gb_Nodes decoded) as [nodes|] eqn:EN; [|done].
    destruct (native_nodes _ _ _ _) as [|out'] eqn:E; [done|]. case_bool_decide; [|done]. intros [= ->] id nb Hid.
    destruct (native_nodes_from _ _ _ _ _ _ _ E Hid) as [HL|(raw & n & bl & Hin & Er & Ex & HB)]; [by rewrite lookup_empty in HL|].
    apply expected_lookup in Ex as [->|HL]; [|by rewrite lookup_empty in HL]. by exists ids, decoded, nodes, raw, bl.
Qed.

Lemma does_native_chunks log s cs numbers out :
  quiet log → (∀ id nb, out !! id = Some nb → native_ok log numbers id nb) →
  does log (native_chunks cs numbers configured out) s
    (λ log' s' out', ∀ id nb, out' !! id = Some nb → native_ok log' numbers id nb).
Proof.
  revert log s out. induction cs as [|chunk rest IH]; intros log s out HQ HO; cbn [native_chunks]; [by apply does_done|].
  eapply does_seq; [by apply does_native_chunk|]. intros log1 s1 m Hp HQ1 HM. apply IH; [done|].
  intros id nb [Hid|[_ Hid]]%lookup_union_Some_raw; [by apply HM|]. eapply native_ok_mono; [done|]. by apply HO.
Qed.

(** The native blockers of a source, with the placeholder when there are more. *)
Definition with_unknown (source : githubBlockerSource) (nb : githubNativeBlockers) : list BlockerRef :=
  if nb_Incomplete nb then appendGitHubBlocker (nb_Blockers nb) (unknownGitHubBlocker source) else nb_Blockers nb.
Lemma with_unknown_sub source nb : nb_Blockers nb ⊆ with_unknown source nb.
Proof. unfold with_unknown. destruct (nb_Incomplete nb); [apply append_blocker_sub|done]. Qed.

Lemma does_native log s sources :
  quiet log →
  does log (nativeGitHubBlockers sources configured) s
    (λ log' s' out, ∀ source nb, source ∈ sources → bs_NodeID source ≠ "" → out !! bs_NodeID source = Some nb →
       native_evidence log' configured source (with_unknown source nb)).
Proof.
  intros HQ. unfold nativeGitHubBlockers. destruct (githubBlockerNodeIDs sources) as [|x ids]; [by apply does_done|].
  destruct (githubBlockerSourceNumbers sources) as [e|numbers] eqn:EN; [by apply (does_fails _ _ _ s e)|].
  apply (does_seq _ _ _ s (or_error (inr numbers)) _ _ (λ _ _ n, n = numbers)); [by apply does_or_error; [|intros ? [= <-]]|].
  intros log1 s1 ? Hp HQ1 ->. eapply does_mono; [by apply (does_native_chunks _ _ _ _ ∅)|].
  intros log2 s2 out _ _ HO source nb Hs Hne Hid.
  destruct (HO _ _ Hid) as (ids' & resp & nodes & raw & bl & HA & Hnodes & Hin & Er & HB).
  assert (numbers !! bs_NodeID source = Some (bs_Number source)) as HN.
  { rewrite <- Er, <- (TrimSpace_idem raw), Er. apply (source_numbers_lookup _ _ _ _ EN); [done|]. by rewrite <- Er, TrimSpace_idem, Er. }
  rewrite HN in Hin. simpl in Hin. exists ids', resp, nodes, raw, bl, (nb_Incomplete nb). split_and!; [done..| |].
  - intros b Hb. apply (native_listed_sub _ _ (nb_Blockers nb)); [apply with_unknown_sub|].
    by apply natives_listed, HB.
  - intros Ei. unfold with_unknown. rewrite Ei.
    destruct (append_blocker_new (nb_Blockers nb) (unknownGitHubBlocker source)) as [?|Hk]; [by left|right].
    apply (native_listed_sub _ _ (nb_Blockers nb)); [apply append_blocker_sub|by apply natives_listed].
Qed.

(** ** Blockers named in the body *)

Lemma hash_number_key ref n : br_Identifier ref = hash_number n → blocker_key ref = hash_number n.
Proof.
  intros E. unfold blocker_key. rewrite E. unfold blank, hash_number, TrimSpace. rewrite str_app_cons, str_app_nil.
  simpl. by destruct (trim_right (fmt_d n)).
Qed.

Lemma does_lookup_failure log s n e :
  quiet log ∨ bad e = true →
  does log (bodyGitHubBlockerLookupFailure n e policy) s (λ log' s' r,
    match r with Some ref => blocker_key ref = hash_number n | None => policy = githubBodyBlockerRefresh → issue_gone log' n end).
Proof.
  intros HQ. unfold bodyGitHubBlockerLookupFailure. destruct policy eqn:EP.
  { destruct HQ as [HQ|HB]; [by apply does_done|]. by rewrite Hbest in HB. }
  assert (∀ log1 (P : Log → GitHubState → option BlockerRef → Prop), quiet log1 ∨ bad e = true →
    does log1 (gh! ctxErr := ctx_Err in
        fails (match ctxErr with [] => e | k :: _ => if errors_Is e k then e else e ++ ctxErr end)) s P) as Hfail.
  { intros log1 P HQ1. unfold ctx_Err. apply does_send; [by left|]. intros ctxErr.
    split; [done|]. split; [apply cache_step_refl|]. simpl.
    destruct HQ1 as [HQ1|HB]; [left; by apply open_quiet_snoc|right]. destruct ctxErr as [|k ctxErr]; [done|].
    destruct (errors_Is e k); [done|]. by apply Happ. }
  apply does_should_stop.
  - intros _. by apply Hfail.
  - intros ES. destruct HQ as [?|HB]; [done|]. apply Hstop in HB. congruence.
  - intros log' [] Hp HQ1; [apply Hfail; by left|]. apply does_done; [done|]. by apply hash_number_key.
Qed.

Lemma does_body_lookup log s n :
  quiet log →
  does log (resolveBodyGitHubBlocker n configured policy) s (λ log' s' r,
    match r with Some ref => blocker_key ref = hash_number n | None => policy = githubBodyBlockerRefresh → issue_gone log' n end).
Proof.
  intros HQ. unfold resolveBodyGitHubBlocker.
  eapply does_attempted with (Q := λ log' _ r, match r with None => issue_gone log' n | Some issue => ∃ body, issue_answered log' n issue body end).
  - unfold getIssueByNumber. eapply does_seq; [by apply does_getIssue|]. intros log1 s1 r Hp HQ1 [-> HR].
    apply does_done; [done|]. destruct r as [[issue body]|]; simpl; [by exists body|done].
  - intros log1 s1 [issue|] Hp HQ1 HR; [|by apply does_done].
    destruct (Z.eqb_spec (gh_Number issue) n) as [<-|]; simpl; [|apply does_done; [done|by apply hash_number_key]].
    assert (seen_issue log1 issue) as Hseen by (right; destruct HR as [body HR]; by exists (gh_Number issue), body).
    apply does_cache_number; [intros ?; exists issue; split_and!; auto|]. intros s2 _.
    apply does_cache_metadata with (issue := issue); [done|by right|]. intros s3 _ _.
    apply does_done; [done|]. by apply hash_number_key.
  - intros log1 s1 e Hp HR. by apply does_lookup_failure.
Qed.

(** Every number is listed, among the blockers already there or the ones added, or gone. *)
Lemma does_body_blockers log s numbers skip out :
  quiet log →
  does log (body_blockers numbers configured skip policy out) s (λ log' s' bs,
    out ⊆ bs ∧ (policy = githubBodyBlockerRefresh → ∀ n, n ∈ numbers → n ∈ skip ∨ (∃ e, e ∈ bs ∧ blocker_key e = hash_number n) ∨ issue_gone log' n)).
Proof.
  revert log s out. induction numbers as [|n rest IH]; intros log s out HQ; cbn [body_blockers].
  { apply does_done; [done|]. split; [done|set_solver]. }
  case_bool_decide as Hskip.
  - eapply does_mono; [by apply IH|]. intros log1 s1 bs _ _ [Hsub HB]. split; [done|].
    intros Hp n' [->|Hn]%elem_of_cons; [by left|by apply HB].
  - eapply does_seq; [by apply does_body_lookup|]. intros log1 s1 r Hp1 HQ1 HR.
    eapply does_mono; [by apply IH|]. intros log2 s2 bs Hp2 _ [Hsub HB]. split.
    + etrans; [|exact Hsub]. destruct r; [apply append_blocker_sub|done].
    + intros Hp n' [->|Hn]%elem_of_cons; [|by apply HB]. right. destruct r as [ref|].
      * left. destruct (append_blocker_in out ref) as (e & He & Ek). exists e. split; [by apply Hsub|]. by rewrite Ek.
      * right. eapply issue_gone_mono; [exact Hp2|]. by apply HR.
Qed.

Lemma does_source log s source native :
  quiet log →
  (bs_NodeID source ≠ "" → ∀ nb, native !! bs_NodeID source = Some nb →
     native_evidence log configured source (with_unknown source nb)) →
  does log (blockersForGitHubSource source native configured policy) s
    (λ log' s' bs, source_evidence log' configured policy source bs).
Proof.
  intros HQ HN. unfold blockersForGitHubSource, githubBlockerSourceNeedsHydration, source_evidence.
  destruct (githubTodoWorkflowState (bs_State source)) eqn:ET; simpl; [|by apply does_done].
  unfold nativeGitHubBlockersForSource.
  assert (∀ blockedBy, (bs_NodeID source ≠ "" → native_evidence log configured source blockedBy) →
    does log (gh! bodyBlockers := bodyGitHubBlockers (bs_Body source) configured (githubBlockerNumbers blockedBy) policy in
              done_with (fold_left appendGitHubBlocker bodyBlockers blockedBy)) s
      (λ log' s' bs, (bs_NodeID source ≠ "" → native_evidence log' configured source bs) ∧
                     (policy = githubBodyBlockerRefresh → body_evidence log' source bs))) as Hgo.
  { intros blockedBy HE. eapply does_seq; [by apply does_body_blockers|]. intros log1 s1 body Hp1 HQ1 [_ HB].
    apply does_done; [done|].
    assert (blockedBy ⊆ fold_left appendGitHubBlocker body blockedBy) as Hsub by apply (fold_append_sub (λ b, b)).
    split.
    - intros Hne. eapply native_evidence_mono; [exact Hp1|]. by eapply native_evidence_sub; [exact Hsub|apply HE].
    - intros Hp n Hn. destruct (HB Hp n Hn) as [Hs|[(e & He & Ek)|?]]; [left|left|by right].
      + apply elem_of_list_to_set, list_elem_of_omap in Hs as (e & He & Ee). exists e. split; [by apply Hsub|by right].
      + destruct (fold_append_in (λ b, b) body blockedBy e He) as (e' & He' & Ek'). exists e'. split; [done|].
        left. by rewrite Ek'. }
  destruct (String.eqb_spec (bs_NodeID source) "") as [Ee|Hne].
  { apply does_inr, Hgo. by rewrite Ee. }
  destruct (native !! bs_NodeID source) as [nb|] eqn:EN; [|by apply (does_fails _ _ _ s plain_error)].
  apply does_inr, Hgo. intros _. by apply (HN Hne nb).
Qed.

(** Every source has its blockers. *)
Lemma does_sources log s sources native out :
  quiet log → NoDup (map bs_IssueID sources) →
  (∀ source, source ∈ sources → githubTodoWorkflowState (bs_State source) = true → bs_NodeID source ≠ "" →
     ∀ nb, native !! bs_NodeID source = Some nb →
     native_evidence log configured source (with_unknown source nb)) →
  does log (source_blockers sources native configured policy out) s
    (λ log' s' out', (∀ id, id ∉ map bs_IssueID sources → out' !! id = out !! id) ∧
       ∀ source, source ∈ sources → ∃ bs, out' !! bs_IssueID source = Some bs ∧ source_evidence log' configured policy source bs).
Proof.
  revert log s out. induction sources as [|source rest IH]; intros log s out HQ HND HN; cbn [source_blockers].
  { apply does_done; [done|]. split; [done|set_solver]. }
  apply NoDup_cons in HND as [Hnin HND].
  eapply does_seq with (Q := λ log' _ bs, source_evidence log' configured policy source bs).
  { destruct (githubTodoWorkflowState (bs_State source)) eqn:ET.
    - apply does_source; [done|]. intros Hne. apply HN; [set_solver|done..].
    - unfold blockersForGitHubSource, githubBlockerSourceNeedsHydration, source_evidence. rewrite ET. by apply does_done. }
  intros log1 s1 bs Hp1 HQ1 HE. eapply does_mono.
  { apply (IH _ _ (<[bs_IssueID source := bs]> out)); [done..|]. intros src Hs HT Hne nb Hnb.
    eapply native_evidence_mono; [exact Hp1|]. apply HN; [set_solver|done..]. }
  intros log2 s2 out' Hp2 _ [Hkeep HS]. split.
  - intros id Hid. cbn [map] in Hid. rewrite Hkeep by set_solver. rewrite lookup_insert_ne; [done|set_solver].
  - intros src [->|Hs]%elem_of_cons; [|by apply HS]. exists bs. rewrite Hkeep by done.
    rewrite lookup_insert, decide_True by done. split; [done|]. by eapply source_evidence_mono.
Qed.

Lemma does_blockers log s sources :
  quiet log → NoDup (map bs_IssueID sources) →
  does log (blockersForGitHubSources sources configured policy) s
    (λ log' s' out, ∀ source, source ∈ sources →
       ∃ bs, out !! bs_IssueID source = Some bs ∧ source_evidence log' configured policy source bs).
Proof.
  intros HQ HND. unfold blockersForGitHubSources. eapply does_seq; [by apply does_native|].
  intros log1 s1 native Hp1 HQ1 HN. eapply does_mono; [apply does_sources; [done..|]|].
  - intros source Hs HT Hne nb Hnb. apply HN; [|done..]. apply list_elem_of_filter. split; [|done].
    unfold githubBlockerSourceNeedsHydration. by rewrite HT.
  - intros log2 s2 out _ _ [_ HS]. done.
Qed.
End Blockers.

(** * The GitHub listing is complete or an error

    A listing that returns read every page of every collection and of the open pull
    requests, and returns every wanted issue once, none of them claimed. *)


(** The pages from [page] to one that has no successor and is not full. *)
Fixpoint pages_from {X} (answered : Z → list X → bool → Prop) (page : Z) (batches : list (list X)) : Prop :=
  match batches with
  | [] => False
  | b :: rest =>
      match rest with
      | [] => answered page b false ∧ slice_len b < githubIssuePageSize
      | _ => (∃ next, answered page b next) ∧ pages_from answered (page + 1) rest
      end
  end.
Lemma pages_from_mono {X} (P Q : Z → list X → bool → Prop) page batches :
  (∀ p b n, P p b n → Q p b n) → pages_from P page batches → pages_from Q page batches.
Proof.
  intros HPQ. revert page. induction batches as [|b rest IH]; intros page; simpl; [done|]. destruct rest; naive_solver.
Qed.

(** A number's text is not blank. *)
Fixpoint ink (s : string) : bool := match s with String c t => negb (is_space c) || ink t | EmptyString => false end.
Lemma ink_not_blank s : ink s = true → blank s = false.
Proof.
  intros Hs. unfold blank. apply String.eqb_neq. unfold TrimSpace.
  assert (∀ t, ink t = true → trim_right t ≠ "") as HR.
  { induction t as [|c t IH]; simpl; [done|]. destruct (is_space c); simpl.
    - intros H%IH. by destruct (trim_right t).
    - by destruct (trim_right t). }
  apply HR. induction s as [|c s IH]; [done|]. cbn [trim_left ink] in *. destruct (is_space c) eqn:E; [by apply IH|].
  simpl. by rewrite E.
Qed.
Lemma pretty_N_go_ink x s : ink s = true → ink (pretty_N_go x s) = true.
Proof.
  revert s. induction (N.lt_wf_0 x) as [x _ IH]; intros s Hs.
  destruct (decide (x = 0%N)) as [->|Hx]; [by rewrite pretty_N_go_0|].
  rewrite pretty_N_go_step by lia. apply IH; [apply N.div_lt; lia|]. simpl. by rewrite Hs, orb_true_r.
Qed.
Lemma fmt_d_ink z : ink (fmt_d z) = true.
Proof.
  unfold fmt_d.
  assert (∀ p, ink (pretty (N.pos p)) = true) as HN.
  { intros p. unfold pretty, pretty_N. case_decide; [done|]. rewrite pretty_N_go_step by lia. apply pretty_N_go_ink. simpl.
    unfold pretty_N_char. by repeat case_match. }
  destruct z as [|p|p]; [done|apply HN|]. change (ink ("-" +:+ pretty (N.pos p)) = true). by rewrite str_app_cons.
Qed.

Definition wanted (claimed : gset Z) (issue : githubIssue) : Prop :=
  gh_PullRequest issue = false ∧ ¬ (gh_Number issue ∈ claimed ∧ EqualFold (TrimSpace (gh_State issue)) "open" = true).

Section Listing.
Context {HD : HttpDates} (c : GitHubClient) (srv : Server Answer).
Notation never := (λ _ : Err, false).
Notation does := (does srv never).
Notation quiet := (quiet never).

(** The issue is the mapping of a wanted one on an answered page of the filter's collection. *)
Definition listed_from (log : Log) (claimed : gset Z) (filter : string) (i : Issue) : Prop :=
  let '(issueState, label, mappedState) := githubIssueQueryForState filter in
  ∃ page batch next issue, answered_issues log issueState label page batch next ∧ issue ∈ batch ∧ wanted claimed issue ∧
    mapGitHubIssue issue mappedState = inr i.
(** The filter's pages were read to the end, and the wanted issues on them are among [ids]. *)
Definition covered (log : Log) (claimed : gset Z) (filter : string) (ids : gset string) : Prop :=
  let '(issueState, label, mappedState) := githubIssueQueryForState filter in
  ∃ batches, pages_from (answered_issues log issueState label) 1 batches ∧
    Z.of_nat (length batches) ≤ issueMaxPages c + 1 ∧
    ∀ issue, issue ∈ concat batches → wanted claimed issue → mapped_id issue ∈ ids.

Lemma answered_issues_mono log log' st label page batch next :
  log `prefix_of` log' → answered_issues log st label page batch next → answered_issues log' st label page batch next.
Proof. intros [t ->] (a & k & Ha & ?). exists a, k. rewrite elem_of_app. eauto. Qed.
Lemma answered_pulls_mono log log' page batch next :
  log `prefix_of` log' → answered_pulls log page batch next → answered_pulls log' page batch next.
Proof. intros [t ->] (a & k & Ha & ?). exists a, k. rewrite elem_of_app. eauto. Qed.
Lemma listed_in_mono log log' claimed filter i :
  log `prefix_of` log' → listed_from log claimed filter i → listed_from log' claimed filter i.
Proof.
  intros Hp. unfold listed_from. destruct (githubIssueQueryForState filter) as [[st label] mapped].
  intros (p & b & n & issue & ? & ?). exists p, b, n, issue. eauto using answered_issues_mono.
Qed.
Lemma covered_mono log log' claimed filter ids ids' :
  log `prefix_of` log' → ids ⊆ ids' → covered log claimed filter ids → covered log' claimed filter ids'.
Proof.
  intros Hp Hs. unfold covered. destruct (githubIssueQueryForState filter) as [[st label] mapped].
  intros (bs & HP & Hl & HC). exists bs. split; [|split; [done|set_solver]].
  eapply pages_from_mono; [|done]. intros p b n. by apply answered_issues_mono.
Qed.

Lemma github_issueMaxPages_pos : 0 < issueMaxPages c.
Proof. unfold issueMaxPages, githubMaxIssuePages. destruct (Z.ltb_spec 0 (PaginationMaxPages c)); lia. Qed.

(** ** Claims *)

Lemma does_claims log s fuel page out :
  quiet log → Z.of_nat fuel + page = issueMaxPages c + 2 → page ≤ issueMaxPages c + 1 →
  does log (claim_pages c fuel page out) s (λ log' s' r,
    r.2 = false → ∃ pulls, pages_from (answered_pulls log') page pulls ∧
      r.1 = out ∪ list_to_set (flat_map claimed_by (concat pulls))).
Proof.
  revert log s page out. induction fuel as [|fuel IH]; intros log s page out HQ Hf Hp; [lia|]. cbn [claim_pages].
  eapply does_seq; [by apply does_listPulls|]. intros log1 s1 [pulls hasNext] Hp1 HQ1 [-> HA]. simpl in HA.
  destruct (Z.ltb_spec (issueMaxPages c) page) as [Hcap|Hcap].
  - destruct (negb hasNext && (slice_len pulls =? 0)) eqn:EB.
    + apply does_done; [done|]. intros _. apply andb_true_iff in EB as [EN%negb_true_iff EL%Z.eqb_eq]. subst hasNext.
      destruct pulls; [|unfold slice_len in EL; simpl in EL; lia]. exists [[]]. simpl. split; [split; [done|by vm_compute]|set_solver].
    + apply does_update; [by split; intros ?; left|]. by apply does_done.
  - destruct (negb hasNext && (slice_len pulls <? githubIssuePageSize)) eqn:EB.
    + apply does_done; [done|]. intros _. apply andb_true_iff in EB as [EN%negb_true_iff EL%Z.ltb_lt]. subst hasNext.
      exists [pulls]. simpl. rewrite app_nil_r. done.
    + eapply does_mono; [apply IH; [done|lia|lia]|]. intros log2 s2 [claimed capped] Hp2 _ HR Hc. simpl in *.
      destruct (HR Hc) as (rest & HP & ->). exists (pulls :: rest). split.
      * simpl. destruct rest; [done|]. split; [|done]. exists hasNext. by eapply answered_pulls_mono.
      * simpl. rewrite flat_map_app, list_to_set_app_L. set_solver.
Qed.

(** ** One collection *)

(** What a collection has gathered, beyond the ids [base] of the ones before. *)
Record collected (log : Log) (s : GitHubState) (claimed : gset Z) (filter : string) (base seen : gset string) (out : list Issue) : Prop := {
  col_seen : seen = base ∪ set_of (map iss_ID out);
  col_nodup : NoDup (map iss_ID out);
  col_fresh : ∀ i, i ∈ out → iss_ID i ∉ base;
  col_from : ∀ i, i ∈ out → listed_from log claimed filter i;
  col_meta : ∀ i, i ∈ out → ∃ m, issueMetadata s !! iss_ID i = Some m ∧ fresh log (iss_ID i) m
}.
Lemma meta_step log log' s s' id :
  log `prefix_of` log' → cache_step log' s s' → (∃ m, issueMetadata s !! id = Some m ∧ fresh log id m) →
  ∃ m, issueMetadata s' !! id = Some m ∧ fresh log' id m.
Proof.
  intros Hp [_ HM] (m & Hm & HF). destruct (HM id) as [E|?]; [|done]. exists m. rewrite E. eauto using fresh_mono.
Qed.
Lemma collected_step log log' s s' claimed filter base seen out :
  log `prefix_of` log' → cache_step log' s s' → collected log s claimed filter base seen out →
  collected log' s' claimed filter base seen out.
Proof. intros Hp HC [H1 H2 H3 H4 H5]. constructor; eauto using listed_in_mono, meta_step. Qed.
Lemma collected_issues_nil log s claimed filter base : collected log s claimed filter base base [].
Proof. constructor; simpl; [set_solver|constructor|set_solver..]. Qed.
Lemma collected_issues_snoc log s claimed filter base seen out i m :
  collected log s claimed filter base seen out → iss_ID i ∉ seen → listed_from log claimed filter i →
  issueMetadata s !! iss_ID i = Some m → fresh log (iss_ID i) m →
  collected log s claimed filter base ({[iss_ID i]} ∪ seen) (out ++ [i]).
Proof.
  intros [-> HN HF HL HM] Hi Hfrom Hm Hfr. apply not_elem_of_union in Hi as [Hb Hi].
  assert (∀ P : Issue → Prop, (∀ j, j ∈ out → P j) → P i → ∀ j, j ∈ out ++ [i] → P j) as Hall.
  { intros P H1 H2 j [?| ->%list_elem_of_singleton]%elem_of_app; auto. }
  rewrite elem_of_set_of in Hi. constructor; try (apply Hall; eauto).
  - unfold set_of. rewrite map_app, list_to_set_app_L. simpl. set_solver.
  - rewrite map_app. apply NoDup_app. simpl. split_and!; [done|set_solver|apply NoDup_singleton].
Qed.

Lemma mapped_id_not_blank issue : blank (mapped_id issue) = false.
Proof. unfold mapped_id. destruct (_ && _); apply ink_not_blank, fmt_d_ink. Qed.
Lemma mapped_id_nonempty issue : mapped_id issue ≠ "".
Proof. intros E. pose proof (mapped_id_not_blank issue) as H. by rewrite E in H. Qed.
Lemma mapGitHubIssue_fields issue mappedState i :
  mapGitHubIssue issue mappedState = inr i → iss_ID i = mapped_id issue ∧ iss_BlockedBy i = None.
Proof.
  unfold mapGitHubIssue. destruct (parseGitHubIssueTime _); [done|]. destruct (parseGitHubIssueTime _); [done|]. by intros [= <-].
Qed.

Section Collection.
Context (claimed : gset Z) (filter issueState label mappedState : string).
Context (Hfilter : githubIssueQueryForState filter = (issueState, label, mappedState)).
Notation collected := (λ log s base, collected log s claimed filter base).

Lemma does_collect_issue log s issue page batch next base seen out :
  quiet log → answered_issues log issueState label page batch next → issue ∈ batch → collected log s base seen out →
  does log (collectIssueFromBatch issue mappedState claimed seen) s (λ log' s' r,
    match r with
    | Some i => collected log' s' base ({[iss_ID i]} ∪ seen) (out ++ [i]) ∧ iss_ID i = mapped_id issue
    | None => collected log' s' base seen out ∧ (wanted claimed issue → mapped_id issue ∈ seen)
    end).
Proof.
  intros HQ HA Hin HC. unfold collectIssueFromBatch, wanted.
  destruct (gh_PullRequest issue) eqn:EP; [apply does_done; [done|]; by split; [|intros []]|].
  destruct (bool_decide (gh_Number issue ∈ claimed) && _) eqn:EC.
  { apply does_done; [done|]. split; [done|]. apply andb_true_iff in EC as [?%bool_decide_eq_true ?]. naive_solver. }
  destruct (mapGitHubIssue issue mappedState) as [e|i] eqn:EM; [by apply (does_fails _ _ _ s e)|]. apply does_inr.
  destruct (mapGitHubIssue_fields _ _ _ EM) as [Eid _]. rewrite Eid.
  destruct (String.eqb_spec (mapped_id issue) "") as [E|_]; [by apply mapped_id_nonempty in E|].
  assert (seen_issue log issue) as Hseen by (left; exists issueState, label, page, batch, next; done).
  apply does_cache_number; [intros ?; exists issue; split_and!; auto|]. intros s1 HC1.
  apply does_cache_metadata with (issue := issue); [done|by left|]. intros s2 HC2 HM.
  assert (collected log s2 base seen out) as HC' by (eapply collected_step; [done| |exact HC]; by eapply cache_step_trans).
  apply does_done; [done|]. destruct (bool_decide (mapped_id issue ∈ seen)) eqn:Hs.
  { apply bool_decide_eq_true in Hs. by split. }
  apply bool_decide_eq_false in Hs. split; [|done]. rewrite <- Eid in *.
  destruct HM as (m & Hm & HF).
  { rewrite Eid. apply mapped_id_not_blank. }
  eapply collected_issues_snoc; try done. unfold listed_from. rewrite Hfilter.
  exists page, batch, next, issue. split_and!; try done. split; [done|]. intros [H1 H2].
  rewrite bool_decide_eq_true_2 in EC by done. by rewrite H2 in EC.
Qed.

Lemma does_collect log s page full next batch base seen out :
  quiet log → answered_issues log issueState label page full next → batch ⊆ full → collected log s base seen out →
  does log (collectIssuesFromPage batch mappedState claimed seen out) s (λ log' s' r,
    collected log' s' base r.2 r.1 ∧ seen ⊆ r.2 ∧ ∀ issue, issue ∈ batch → wanted claimed issue → mapped_id issue ∈ r.2).
Proof.
  revert log s seen out. induction batch as [|issue rest IH]; intros log s seen out HQ HA Hsub HC; cbn [collectIssuesFromPage].
  { apply does_done; [done|]. split_and!; [done..|set_solver]. }
  eapply does_seq; [apply (does_collect_issue _ _ issue page full next base seen out); [done..|set_solver|done]|].
  assert (rest ⊆ full) as Hrest by set_solver.
  intros log1 s1 [i|] Hp1 HQ1 [HC1 HR]; (eapply does_mono; [apply IH; [done|by eapply answered_issues_mono|done|exact HC1]|]);
    intros log2 s2 r _ _ (HC2 & Hseen & Hcov); (split; [done|]); (split; [set_solver|]).
  - intros issue' [->|?]%elem_of_cons Hw; [|by apply Hcov]. rewrite <- HR. set_solver.
  - intros issue' [->|?]%elem_of_cons Hw; [|by apply Hcov]. by apply Hseen, HR.
Qed.

Lemma does_state_pages log s fuel page base seen out :
  quiet log → Z.of_nat fuel + page = issueMaxPages c + 2 → page ≤ issueMaxPages c + 1 → collected log s base seen out →
  does log (state_pages c fuel issueState label mappedState claimed page seen out) s (λ log' s' r,
    match r with
    | Some out' => ∃ seen' batches, collected log' s' base seen' out' ∧ seen ⊆ seen' ∧
        pages_from (answered_issues log' issueState label) page batches ∧ Z.of_nat (length batches) ≤ Z.of_nat fuel ∧
        ∀ issue, issue ∈ concat batches → wanted claimed issue → mapped_id issue ∈ seen'
    | None => True
    end).
Proof.
  revert log s page seen out. induction fuel as [|fuel IH]; intros log s page seen out HQ Hf Hp HC; [lia|]. cbn [state_pages].
  eapply does_seq; [by apply does_listIssuesPage|]. intros log1 s1 [batch hasNext] Hp1 HQ1 [-> HA]. simpl in HA.
  assert (collected log1 s base seen out) as HC1 by (eapply collected_step; [done|apply cache_step_refl|exact HC]).
  destruct (Z.ltb_spec (issueMaxPages c) page) as [Hcap|Hcap].
  - unfold finishGitHubCapProbe. destruct (negb hasNext && (slice_len batch =? 0)) eqn:EB.
    + apply does_done; [done|]. apply andb_true_iff in EB as [EN%negb_true_iff EL%Z.eqb_eq]. subst hasNext.
      destruct batch; [|unfold slice_len in EL; simpl in EL; lia]. exists seen, [[]]. simpl.
      split_and!; [done..|by vm_compute|lia|set_solver].
    + apply does_update; [by split; intros ?; left|]. by apply does_done.
  - eapply does_seq; [by apply (does_collect _ _ page batch hasNext batch base seen out)|].
    intros log2 s2 [out2 seen2] Hp2 HQ2 (HC2 & Hs2 & Hcov2). simpl in *.
    destruct (negb hasNext && (slice_len batch <? githubIssuePageSize)) eqn:EB.
    + apply does_done; [done|]. apply andb_true_iff in EB as [EN%negb_true_iff EL%Z.ltb_lt]. subst hasNext.
      exists seen2, [batch]. simpl. rewrite app_nil_r. split_and!; try done; [|lia].
      by eapply answered_issues_mono.
    + eapply does_mono; [apply (IH _ _ (page + 1) seen2 out2); [done|lia|lia|done]|].
      intros log3 s3 [out3|] Hp3 _; [|done]. intros (seen3 & rest & HC3 & Hs3 & HP3 & Hl3 & Hcov3).
      exists seen3, (batch :: rest). split; [done|]. split; [set_solver|]. split; [|split].
      * simpl. destruct rest; [done|]. split; [|done]. exists hasNext. eapply answered_issues_mono; [|exact HA]. by etrans.
      * simpl. lia.
      * simpl. intros issue [?|?]%elem_of_app Hw; [apply Hs3; by apply Hcov2|by apply Hcov3].
Qed.
End Collection.

(** ** All collections *)

Record gathered (log : Log) (s : GitHubState) (claimed : gset Z) (capped : bool) (done filters : list string) (seen : gset string) (out : list Issue) : Prop := {
  gat_seen : seen = set_of (map iss_ID out);
  gat_nodup : NoDup (map iss_ID out);
  gat_from : ∀ i, i ∈ out → ∃ filter, filter ∈ filters ∧ listed_from log claimed filter i;
  gat_meta : ∀ i, i ∈ out → ∃ m, issueMetadata s !! iss_ID i = Some m ∧ fresh log (iss_ID i) m;
  gat_covered : capped = false → ∀ filter, filter ∈ done → covered log claimed filter seen
}.

Lemma gathered_step log log' s s' claimed capped done filters seen out :
  log `prefix_of` log' → cache_step log' s s' → gathered log s claimed capped done filters seen out →
  gathered log' s' claimed capped done filters seen out.
Proof.
  intros Hp HC [H1 H2 H3 H4 H5]. constructor; eauto using meta_step, covered_mono.
  intros i Hi. destruct (H3 i Hi) as (f & ? & ?). eauto using listed_in_mono.
Qed.

Lemma gathered_capped log s claimed capped done done' filters seen out :
  gathered log s claimed capped done filters seen out → gathered log s claimed true done' filters seen out.
Proof. intros [H1 H2 H3 H4 H5]. by constructor. Qed.
Lemma gathered_add log s claimed capped done filters filter seen out seen' issues :
  filter ∈ filters → gathered log s claimed capped done filters seen out → collected log s claimed filter seen seen' issues →
  covered log claimed filter seen' →
  gathered log s claimed capped (done ++ [filter]) filters (set_of (map iss_ID issues) ∪ seen) (out ++ issues).
Proof.
  intros Hf [H1 H2 H3 H4 H5] [C1 C2 C3 C4 C5] HC.
  assert (set_of (map iss_ID issues) ∪ seen = seen') as -> by set_solver.
  assert (∀ P : Issue → Prop, (∀ j, j ∈ out → P j) → (∀ j, j ∈ issues → P j) → ∀ j, j ∈ out ++ issues → P j) as Hall.
  { intros P HP1 HP2 j [?|?]%elem_of_app; auto. }
  constructor; try (apply Hall; eauto).
  - rewrite C1, H1. unfold set_of. by rewrite map_app, list_to_set_app_L.
  - rewrite map_app. apply NoDup_app. split_and!; [done| |done]. intros x Hx1 Hx2.
    apply list_elem_of_fmap in Hx2 as (j & -> & Hj). apply (C3 j Hj). rewrite H1. by apply elem_of_set_of.
  - intros Hcap f [Hd| ->%list_elem_of_singleton]%elem_of_app; [|done].
    eapply covered_mono; [done| |by apply H5]. set_solver.
Qed.

(** A collection that needs complete claims is only read when they are. *)
Definition needs_claims (filters : list string) : Prop :=
  ∃ f, f ∈ filters ∧ githubIssueQueryRequiresCompleteClaims (githubIssueQueryForState f).1.1 = true.

Lemma does_collections log s claimed claimsCapped done rest filters seen out capped :
  quiet log → done ++ rest = filters → gathered log s claimed capped done filters seen out →
  does log (collections c rest claimed claimsCapped seen out capped) s (λ log' s' r,
    (r.2 = false → capped = false ∧ (claimsCapped = true → ¬ needs_claims rest)) ∧
    ∃ seen', gathered log' s' claimed r.2 filters filters seen' r.1).
Proof.
  revert log s done seen out capped. induction rest as [|filter rest IH]; intros log s done seen out capped HQ Ef HG; cbn [collections].
  { apply does_done; [done|]. rewrite app_nil_r in Ef. subst done. split; [|by exists seen].
    simpl. intros ->. split; [done|]. intros _ (f & Hf & _). by apply elem_of_nil in Hf. }
  assert (filter ∈ filters) as Hin by (rewrite <- Ef; apply elem_of_app; right; by left).
  assert ((done ++ [filter]) ++ rest = filters) as Ef' by by rewrite <- app_assoc.
  destruct (githubIssueQueryForState filter) as [[issueState label] mappedState] eqn:EF.
  destruct (claimsCapped && githubIssueQueryRequiresCompleteClaims issueState) eqn:EC.
  - eapply does_mono; [apply (IH _ _ (done ++ [filter]) seen out true); [done..|by eapply gathered_capped]|].
    intros log1 s1 r _ _ [HR HG1]. split; [|done]. intros Er. by destruct (HR Er).
  - eapply does_seq_step.
    { unfold listIssuesForState. pose proof github_issueMaxPages_pos.
      apply (does_state_pages claimed filter issueState label mappedState EF _ _ _ _ seen seen []); [done|lia|lia|].
      apply collected_issues_nil. }
    intros log1 s1 [issues|] Hp1 HQ1 Hstep HR.
    + destruct HR as (seen1 & batches & HC1 & Hs1 & HP1 & Hl1 & Hcov1). eapply does_mono.
      { apply (IH _ _ (done ++ [filter])); [done..|]. eapply gathered_add; [done| |exact HC1|].
        - eapply gathered_step; [exact Hp1|exact Hstep|exact HG].
        - unfold covered. rewrite EF. exists batches. split_and!; [done| |done]. pose proof github_issueMaxPages_pos. lia. }
      intros log2 s2 r _ _ [HR HG2]. split; [|done]. intros Er. destruct (HR Er) as [-> HN]. split; [done|].
      intros Hc (f & [->|Hf]%elem_of_cons & Hr); [by rewrite EF in Hr; simpl in Hr; rewrite Hc, Hr in EC|]. apply (HN Hc). by exists f.
    + eapply does_mono; [apply (IH _ _ (done ++ [filter]) seen out true); [done..|]|].
      * eapply gathered_capped, gathered_step; [exact Hp1|exact Hstep|exact HG].
      * intros log2 s2 r _ _ [HR1 HG1]. split; [|done]. intros Er. by destruct (HR1 Er).
Qed.

(** ** The theorem *)

(** The blockers of a listed issue rest on what was last said of it. *)
Definition listed_blockers (log : Log) (i : Issue) : Prop :=
  ∃ m bs, iss_BlockedBy i = Some bs ∧ fresh log (iss_ID i) m ∧
    source_evidence log (githubConfiguredStates c) githubBodyBlockerBestEffort
      {| bs_IssueID := iss_ID i; bs_Identifier := iss_Identifier i; bs_State := iss_State i;
         bs_NodeID := md_NodeID m; bs_Number := md_Number m; bs_Body := md_Body m |} bs.
Definition without_blockers (i : Issue) : Issue := i <| iss_BlockedBy := None |>.

Lemma does_attach log s issues :
  quiet log → NoDup (map iss_ID issues) →
  (∀ i, i ∈ issues → ∃ m, issueMetadata s !! iss_ID i = Some m ∧ fresh log (iss_ID i) m) →
  does log (attachGitHubBlockersToIssues c issues) s (λ log' s' issues',
    Forall2 (λ i i', i' = i <| iss_BlockedBy := iss_BlockedBy i' |> ∧ listed_blockers log' i') issues issues').
Proof.
  intros HQ HND HM. unfold attachGitHubBlockersToIssues. destruct issues as [|i0 rest] eqn:Ei; [by apply does_done|].
  rewrite <- Ei in *. clear Ei. apply does_read.
  assert (map bs_IssueID (omap (issue_source s) issues) = map iss_ID issues) as Eids.
  { clear HND. induction issues as [|i issues IH]; [done|]. simpl. unfold issue_source at 1.
    destruct (HM i) as (m & -> & _); [set_solver|]. simpl. f_equal. apply IH. intros j Hj. apply HM. set_solver. }
  eapply does_seq.
  { apply (does_blockers srv never (githubConfiguredStates c) githubBodyBlockerBestEffort); [done..|by rewrite Eids]. }
  intros log1 s1 blockers Hp1 HQ1 HB. apply does_done; [done|].
  apply Forall2_fmap_r, Forall_Forall2_diag, Forall_forall. intros i Hi. split; [by destruct i|].
  destruct (HM i Hi) as (m & Hm & HF).
  destruct (HB {| bs_IssueID := iss_ID i; bs_Identifier := iss_Identifier i; bs_State := iss_State i;
         bs_NodeID := md_NodeID m; bs_Number := md_Number m; bs_Body := md_Body m |}) as (bs & Hbs & HE).
  { apply list_elem_of_omap. exists i. split; [done|]. unfold issue_source. by rewrite Hm. }
  exists m, bs. simpl in *. rewrite Hbs. split; [done|]. split; [by eapply fresh_mono|]. done.
Qed.

(** The open pull requests were read to the end, and these are the numbers they claim. *)
Definition claims_read (log : Log) (claimed : gset Z) : Prop :=
  ∃ pulls, pages_from (answered_pulls log) 1 pulls ∧ claimed = list_to_set (flat_map claimed_by (concat pulls)).
Lemma claims_read_mono log log' claimed : log `prefix_of` log' → claims_read log claimed → claims_read log' claimed.
Proof.
  intros Hp (pulls & HP & E). exists pulls. split; [|done]. eapply pages_from_mono; [|done].
  intros p b n. by apply answered_pulls_mono.
Qed.

Lemma may_include_needs filters : githubStatesMayIncludeOpenIssues filters = true → needs_claims filters.
Proof.
  intros H. apply existsb_exists in H as (f & Hf%list_elem_of_In & HE). exists f. split; [done|].
  unfold githubIssueQueryForState in *. destruct (String.eqb_spec (ToLower (TrimSpace f)) "open") as [->|]; [done|].
  destruct (String.eqb_spec (ToLower (TrimSpace f)) "closed") as [E|]; simpl in *; [by rewrite E in HE|].
  by destruct (String.eqb_spec (ToLower (TrimSpace f)) "all") as [->|].
Qed.

Definition complete_listing (log : Log) (filters : list string) (issues : list Issue) : Prop :=
  ∃ claimed, (githubStatesMayIncludeOpenIssues filters = true → claims_read log claimed) ∧
    NoDup (map iss_ID issues) ∧
    (∀ i, i ∈ issues → (∃ filter, filter ∈ filters ∧ listed_from log claimed filter (without_blockers i)) ∧ listed_blockers log i) ∧
    (∀ filter, filter ∈ filters → covered log claimed filter (set_of (map iss_ID issues))).

Lemma attached_ids log out issues :
  Forall2 (λ i i', i' = i <| iss_BlockedBy := iss_BlockedBy i' |> ∧ listed_blockers log i') out issues →
  map iss_ID issues = map iss_ID out ∧
  ∀ i', i' ∈ issues → listed_blockers log i' ∧ ∃ i, i ∈ out ∧ i' = i <| iss_BlockedBy := iss_BlockedBy i' |>.
Proof.
  induction 1 as [|i i' out issues [Ei HB] _ [IH1 IH2]]; [split; [done|set_solver]|]. split.
  - simpl. rewrite IH1, Ei. done.
  - intros j [->|Hj]%elem_of_cons; [split; [done|]; exists i; split; [by left|done]|].
    destruct (IH2 j Hj) as [? (i0 & ? & ?)]. split; [done|]. exists i0. split; [by right|done].
Qed.

Lemma does_listing s states :
  does [] (ListIssuesByStates c states) s (λ log' s' issues,
    nonEmptyGitHubStates states ≠ [] → complete_listing log' (nonEmptyGitHubStates states) issues).
Proof.
  assert (quiet []) as HQ by by intros e err Hin%elem_of_nil.
  unfold ListIssuesByStates. destruct (blank (Token c)); [by apply (does_fails _ _ _ s plain_error)|].
  destruct (blank (Owner c) || blank (Repo c)); [by apply (does_fails _ _ _ s plain_error)|].
  destruct (nonEmptyGitHubStates states) as [|f0 rest] eqn:Ef; [by apply does_done|]. rewrite <- Ef in *. clear Ef.
  set (filters := nonEmptyGitHubStates states). pose proof github_issueMaxPages_pos as Hpos.
  eapply does_seq with (Q := λ log' _ r, githubStatesMayIncludeOpenIssues filters = true → r.2 = false → claims_read log' r.1).
  { destruct (githubStatesMayIncludeOpenIssues filters); [|by apply does_done].
    unfold openPullRequestClaimedIssueNumbers. eapply does_mono; [apply does_claims; [done|lia|lia]|].
    intros log1 s1 r _ _ HR _ Hc. destruct (HR Hc) as (pulls & HP & E). exists pulls. split; [done|]. rewrite E. set_solver. }
  intros log1 s1 [claimed claimsCapped] Hp1 HQ1 Hclaims. simpl in Hclaims.
  eapply does_seq.
  { apply (does_collections log1 s1 claimed claimsCapped [] filters filters ∅ [] false); [done|done|].
    constructor; simpl; [done|constructor|set_solver|set_solver|set_solver]. }
  intros log2 s2 [out capped] Hp2 HQ2 [HC (seen & HG)]. simpl in *.
  destruct capped; [by apply (does_fails _ _ _ s2 (NewError CategoryIssueListingCapped []))|].
  destruct (HC eq_refl) as [_ HN]. destruct HG as [Hseen HND Hfrom Hmeta Hcov].
  eapply does_mono; [by apply does_attach|]. intros log3 s3 issues Hp3 _ HF _.
  destruct (attached_ids _ _ _ HF) as [Eids Hiss]. exists claimed. split_and!.
  - intros HO. eapply claims_read_mono; [etrans; [exact Hp2|exact Hp3]|]. apply Hclaims; [done|].
    destruct claimsCapped; [|done]. destruct (HN eq_refl). by apply may_include_needs.
  - by rewrite Eids.
  - intros i Hi. destruct (Hiss i Hi) as [HB (j & Hj & Ei)]. split; [|done].
    destruct (Hfrom j Hj) as (f & Hf & HL). exists f. split; [done|].
    assert (without_blockers i = j) as ->; [|by eapply listed_in_mono].
    rewrite Ei. unfold without_blockers. revert HL. unfold listed_from.
    destruct (githubIssueQueryForState f) as [[st lb] mp]. intros (p & b & n & issue & _ & _ & _ & EM).
    apply mapGitHubIssue_fields in EM as [_ EB]. destruct j; simpl in *. by subst.
  - intros f Hf. eapply covered_mono; [exact Hp3| |by apply Hcov]. rewrite Hseen, Eids. done.
Qed.
End Listing.
