(* ===== verification/GithubRefresh.v ===== *)
(** * The GitHub refresh rests on evidence

    Each row of a refresh is Unknown, or what GitHub answered for the issue, or Absent for
    a number this client knew; and the refresh asks nothing after an answer that stops it. *)

From S2P Require Import Prelude Tracker GoStd Hashes TrackerErrors Regex Github GithubProps.

Lemma stops_app e e' : stops e = true → stops (e ++ e') = true.
Proof.
  unfold stops, errors_Is. rewrite !orb_true_iff, !bool_decide_eq_true. set_solver.
Qed.

Section Refresh.
Context {HD : HttpDates} (c : GitHubClient) (srv : Server Answer) (configured : list string) (inc : bool).
Notation does := (does srv stops).
Notation quiet := (quiet stops).
Notation holds := (holds (only_while_quiet stops) srv).

(** The number the client has for an id: from its caches at the start, or an answer. *)
Definition known (s0 : GitHubState) (log : Log) (id : string) (n : Z) : Prop :=
  issueNumbers s0 !! id = Some n ∨ learned log id n.
(** What was fetched for a reference. *)
Definition fetched_for (log : Log) (ref : IssueRef) (row : githubFetchedIssueState) : Prop :=
  ∃ body, issue_answered log (gh_Number (fs_issue row)) (fs_issue row) body ∧ fs_issueID row = ref_ID ref ∧
    githubFetchedIssueMatchesRef (ref_ID ref) (ref_Identifier ref) (fmt_d (gh_ID (fs_issue row))) (gh_Number (fs_issue row)) = true ∧
    fs_state row = githubResolveState (gh_State (fs_issue row)) (gh_Labels (fs_issue row)) configured ∧ fs_state row ≠ "" ∧
    fs_labels row = githubIssueLabels (fs_issue row) ∧
    (inc = true → githubTodoWorkflowState (fs_state row) = true → body = true ∧ blank (gh_NodeID (fs_issue row)) = false).

Lemma issue_answered_mono log log' n issue body :
  log `prefix_of` log' → issue_answered log n issue body → issue_answered log' n issue body.
Proof. intros [t ->] (a & r & k & Ha & ?). exists a, r, k. rewrite elem_of_app. eauto. Qed.
Lemma fetched_for_mono log log' ref row : log `prefix_of` log' → fetched_for log ref row → fetched_for log' ref row.
Proof. intros Hp (body & ? & ?). exists body. eauto using issue_answered_mono. Qed.
Lemma known_mono s0 log log' id n : log `prefix_of` log' → known s0 log id n → known s0 log' id n.
Proof. intros Hp [?|?]; [by left|right]. eauto using learned_mono. Qed.

Lemma does_classify log s ref n issue body :
  quiet log → issue_answered log n issue body →
  does log (classifyFetchedGitHubIssueState ref n issue body configured inc) s (λ log' s' r,
    match r with LookupUnknown => True | LookupAbsent => False | LookupCurrent row => fetched_for log' ref row end).
Proof.
  intros HQ HA. unfold classifyFetchedGitHubIssueState.
  destruct (Z.eqb_spec (gh_Number issue) n) as [<-|]; simpl; [|by apply does_done].
  destruct (githubFetchedIssueMatchesRef _ _ _ _) eqn:EM; simpl; [|by apply does_done].
  assert (seen_issue log issue) as Hseen by (right; by exists (gh_Number issue), body).
  apply does_cache_number; [intros ?; exists issue; split_and!; auto|]. intros s1 _.
  set (rest := λ _ : unit, _).
  assert (∀ s', does log (rest tt) s' (λ log' s' r,
    match r with LookupUnknown => True | LookupAbsent => False | LookupCurrent row => fetched_for log' ref row end)) as Hrest.
  { intros s'. unfold rest.
    destruct (String.eqb_spec (githubResolveState (gh_State issue) (gh_Labels issue) configured) "") as [|Hne]; [by apply does_done|].
    destruct (inc && _ && _) eqn:EI; [by apply does_fails|]. apply does_done; [done|].
    exists body. simpl. split_and!; try done. intros -> HT. rewrite HT in EI. simpl in EI.
    apply orb_false_iff in EI as [EB%negb_false_iff ?]. done. }
  destruct (String.eqb_spec (ref_ID ref) (githubIssueNumberID (gh_Number issue))) as [E|].
  - apply does_cache_number; [|intros s' _; apply Hrest]. intros Hpos. exists issue. split_and!; auto.
  - apply Hrest.
Qed.

Lemma does_lookup s0 log s ref :
  quiet log → (∀ id n, issueNumbers s !! id = Some n → known s0 log id n) →
  does log (lookupGitHubIssueState ref configured inc) s (λ log' s' r,
    match r with
    | LookupUnknown => True
    | LookupAbsent => ∃ n, known s0 log' (ref_ID ref) n ∧ issue_gone log' n
    | LookupCurrent row => fetched_for log' ref row
    end).
Proof.
  intros HQ HK. unfold lookupGitHubIssueState. apply does_read.
  destruct (issueNumberForStateRefresh s ref) as [[n cached]|] eqn:EN; [|by apply does_done].
  destruct (negb _); [by apply does_done|].
  eapply does_seq; [by apply does_getIssue|]. intros log1 s1 [[issue body]|] Hp HQ1 [-> HR].
  - eapply does_mono; [by apply does_classify|]. by intros log2 s2 [| |row] _ _ ?.
  - apply does_done; [done|]. destruct cached; [|done]. exists n. split; [|done].
    eapply known_mono; [exact Hp|]. apply HK. unfold issueNumberForStateRefresh, cachedIssueNumber in EN.
    destruct (issueNumbers s !! ref_ID ref) as [m|].
    + destruct (0 <? m); [by injection EN as ->|]. destruct (githubIssueNumberFromIdentifier (ref_Identifier ref)); [done|].
      destruct (HasPrefix _ _); [|done]. by destruct (githubIssueNumberFromIdentifier _).
    + destruct (githubIssueNumberFromIdentifier (ref_Identifier ref)); [done|].
      destruct (HasPrefix _ _); [|done]. by destruct (githubIssueNumberFromIdentifier _).
Qed.

(** A batch of lookups: every row has its reference, and what stopped it is recorded. *)
Definition batch_ok (s0 : GitHubState) (log : Log) (refs : list IssueRef) (fetched : list githubFetchedIssueState)
    (absent : list string) : Prop :=
  (∀ row, row ∈ fetched → ∃ ref, ref ∈ refs ∧ fetched_for log ref row) ∧
  (∀ id, id ∈ absent → id ∈ map ref_ID refs ∧ ∃ n, known s0 log id n ∧ issue_gone log n) ∧
  map fs_issueID fetched `sublist_of` map ref_ID refs.

Lemma cache_known s0 log s : cache_step log s0 s → ∀ id n, issueNumbers s !! id = Some n → known s0 log id n.
Proof.
  intros [HN _] id n Hid. destruct (HN id) as [E|(m & E & HL)]; [left; congruence|right].
  rewrite Hid in E. by injection E as ->.
Qed.
Lemma batch_ok_mono s0 log log' refs fetched absent :
  log `prefix_of` log' → batch_ok s0 log refs fetched absent → batch_ok s0 log' refs fetched absent.
Proof.
  intros Hp (H1 & H2 & H3). split_and!; [| |done].
  - intros row Hr. destruct (H1 row Hr) as (ref & ? & ?). eauto using fetched_for_mono.
  - intros id Hid. destruct (H2 id Hid) as (? & n & ? & ?). split; [done|]. exists n. eauto using known_mono, issue_gone_mono.
Qed.
Lemma batch_ok_refs s0 log refs refs' fetched absent :
  batch_ok s0 log refs fetched absent → batch_ok s0 log (refs ++ refs') fetched absent.
Proof.
  intros (H1 & H2 & H3). split_and!.
  - intros row Hr. destruct (H1 row Hr) as (ref & ? & ?). exists ref. rewrite elem_of_app. auto.
  - intros id Hid. rewrite map_app, elem_of_app. destruct (H2 id Hid). auto.
  - rewrite map_app. by apply sublist_inserts_r.
Qed.

Lemma holds_lookup_refs s0 s log done refs fetched absent errs :
  quiet log → cache_step log s0 s → batch_ok s0 log done fetched absent →
  holds log (lookup_refs refs configured inc fetched absent errs s) (λ log' r,
    log `prefix_of` log' ∧ cache_step log' s0 r.1 ∧
    match r.2 with
    | inl _ => False
    | inr batch => (bt_halted batch = false → quiet log') ∧ batch_ok s0 log' (done ++ refs) (bt_fetched batch) (bt_absent batch)
    end).
Proof.
  revert log s done fetched absent errs. induction refs as [|ref refs IH]; intros log s done fetched absent errs HQ HC HB; cbn [lookup_refs].
  { simpl. rewrite app_nil_r. by split_and!. }
  unfold github_bind at 1, attempted. apply holds_bind, holds_bind.
  eapply holds_mono; [by apply (does_lookup s0), cache_known|].
  intros log1 [s1 r] (Hp1 & HC1 & HR). simpl in *.
  assert (cache_step log1 s0 s1) as HC1' by (eapply cache_step_trans; [exact Hp1|exact HC|exact HC1]).
  assert (∀ log2 fetched2 absent2 errs2, log1 `prefix_of` log2 → quiet log2 → batch_ok s0 log2 (done ++ [ref]) fetched2 absent2 →
    holds log2 (lookup_refs refs configured inc fetched2 absent2 errs2 s1) (λ log' r,
      log `prefix_of` log' ∧ cache_step log' s0 r.1 ∧
      match r.2 with
      | inl _ => False
      | inr batch => (bt_halted batch = false → quiet log') ∧ batch_ok s0 log' (done ++ ref :: refs) (bt_fetched batch) (bt_absent batch)
      end)) as Hgo.
  { intros log2 f2 a2 e2 Hp2 HQ2 HB2. eapply holds_mono.
    - apply (IH log2 s1 (done ++ [ref])); [done| |done]. eapply cache_step_trans; [exact Hp2|exact HC1'|apply cache_step_refl].
    - intros log3 r3 (Hp3 & HC3 & HR3). split; [etrans; [exact Hp1|]; by etrans|]. split; [done|].
      by rewrite <- app_assoc in HR3. }
  assert (batch_ok s0 log1 (done ++ [ref]) fetched absent) as HB1 by (apply batch_ok_refs; by eapply batch_ok_mono).
  destruct r as [err|lookup].
  - apply (holds_ShouldStop srv stops).
    + intros _. simpl. split_and!; [done..|]. rewrite cons_middle, app_assoc. by apply batch_ok_refs.
    + intros ES. destruct HR as [?|?]; [done|congruence].
    + intros log2 [] Hp2 HQ2.
      * simpl. split_and!; [by etrans|eapply cache_step_trans; [exact Hp2|exact HC1'|apply cache_step_refl]|done|].
        rewrite cons_middle, app_assoc. apply batch_ok_refs. by eapply batch_ok_mono.
      * apply Hgo; [done..|]. by eapply batch_ok_mono.
  - destruct HR as [HQ1 HR]. destruct lookup as [| |row]; (apply Hgo; [done..|]).
    + done.
    + destruct HB1 as (H1 & H2 & H3). split_and!; [done| |done].
      intros id [Hid| ->%list_elem_of_singleton]%elem_of_app; [by apply H2|]. split; [|done].
      rewrite map_app. apply elem_of_app. right. by apply list_elem_of_singleton.
    + destruct HB as (_ & _ & H3). destruct HB1 as (H1 & H2 & _). split_and!; [|done|].
      * intros row' [Hr| ->%list_elem_of_singleton]%elem_of_app; [by apply H1|]. exists ref. split; [|done].
        apply elem_of_app. right. by apply list_elem_of_singleton.
      * rewrite !map_app. apply sublist_app; [done|]. destruct HR as (body & _ & E & _). simpl. by rewrite E.
Qed.

(** ** The rows *)

Definition current_row (row : githubFetchedIssueState) (b : option (list BlockerRef)) : IssueState :=
  {| ist_Outcome := IssueStateOutcomeCurrent; ist_State := fs_state row; ist_Labels := fs_labels row; ist_BlockedBy := b |}.
Definition refreshed_row (s0 : GitHubState) (log : Log) (refs : list IssueRef) (id : string) (st : IssueState) : Prop :=
  st = unknown_row ∨ (st = absent_row ∧ ∃ n, known s0 log id n ∧ issue_gone log n) ∨
  ∃ ref row b, ref ∈ refs ∧ ref_ID ref = id ∧ fetched_for log ref row ∧ st = current_row row b ∧
    if inc then ∃ bs, b = Some bs ∧ source_evidence log configured githubBodyBlockerRefresh (fetched_source row) bs else b = None.

Lemma apply_lookup states fetched blockers unavailable id :
  (∀ row, row ∈ fetched → is_Some (states !! fs_issueID row)) →
  let states' := applyCurrentGitHubIssueStates states fetched blockers inc unavailable in
  (is_Some (states' !! id) ↔ is_Some (states !! id)) ∧
  ∀ st, states' !! id = Some st → states !! id = Some st ∨
    ∃ row, row ∈ fetched ∧ fs_issueID row = id ∧ (inc && githubTodoWorkflowState (fs_state row) && unavailable) = false ∧
      st = current_row row (githubIssueStateBlockers blockers (fs_issueID row) inc).
Proof.
  unfold applyCurrentGitHubIssueStates. revert states. induction fetched as [|row rest IH]; intros states HK; simpl; [naive_solver|].
  destruct (inc && _ && unavailable) eqn:EI.
  - destruct (IH states) as [H1 H2]; [intros r Hr; apply HK; set_solver|]. split; [done|].
    intros st Hst. destruct (H2 st Hst) as [?|(r & ? & ?)]; [by left|right]. exists r. set_solver.
  - set (states1 := <[fs_issueID row := _]> states).
    assert (∀ x, is_Some (states1 !! x) ↔ is_Some (states !! x)) as Hk1.
    { intros x. unfold states1. rewrite lookup_insert_is_Some'. split; [intros [<-|?]; [apply HK; by left|done]|by right]. }
    destruct (IH states1) as [H1 H2]; [intros r Hr; apply Hk1, HK; set_solver|]. split; [by rewrite H1|].
    intros st Hst. destruct (H2 st Hst) as [HL|(r & ? & ?)]; [|right; exists r; set_solver].
    unfold states1 in HL. apply lookup_insert_Some in HL as [[<- <-]|[_ HL]]; [right|by left].
    exists row. split_and!; [by left|done..].
Qed.

Lemma absent_lookup absent (states : gmap string IssueState) id :
  fold_left (λ m id, <[id := absent_row]> m) absent states !! id = if bool_decide (id ∈ absent) then Some absent_row else states !! id.
Proof.
  revert states. induction absent as [|x l IH]; intros m; simpl; [done|]. rewrite IH.
  destruct (decide (id ∈ l)); [rewrite !bool_decide_eq_true_2 by set_solver; done|].
  rewrite (bool_decide_eq_false_2 (id ∈ l)) by done. destruct (decide (id = x)) as [->|].
  - rewrite lookup_insert. by rewrite decide_True, bool_decide_eq_true_2 by set_solver.
  - rewrite lookup_insert_ne by done. by rewrite bool_decide_eq_false_2 by set_solver.
Qed.

(** The rows after a batch, with the blockers found or not. *)
Lemma rows_ok s0 log refs states fetched absent blockers unavailable :
  batch_ok s0 log refs fetched absent →
  (∀ id, is_Some (states !! id) ↔ id ∈ map ref_ID refs) → (∀ id st, states !! id = Some st → st = unknown_row) →
  (inc = true → unavailable = false → ∀ row, row ∈ fetched →
     ∃ bs, blockers !! fs_issueID row = Some bs ∧ source_evidence log configured githubBodyBlockerRefresh (fetched_source row) bs) →
  (unavailable = true → blockers = ∅) →
  let states' := applyCurrentGitHubIssueStates (fold_left (λ m id, <[id := absent_row]> m) absent states) fetched blockers inc unavailable in
  (∀ id, is_Some (states' !! id) ↔ id ∈ map ref_ID refs) ∧ ∀ id st, states' !! id = Some st → refreshed_row s0 log refs id st.
Proof.
  intros (HF & HA & Hsub) HK HU HB HE. set (states1 := fold_left _ absent states). simpl.
  assert (∀ id, is_Some (states1 !! id) ↔ id ∈ map ref_ID refs) as HK1.
  { intros id. unfold states1. rewrite absent_lookup. case_bool_decide as Hid; [|apply HK].
    split; [intros _; by apply HA|eauto]. }
  assert (∀ row, row ∈ fetched → is_Some (states1 !! fs_issueID row)) as HKF.
  { intros row Hr. apply HK1. eapply elem_of_sublist; [|exact Hsub]. by apply list_elem_of_fmap_2. }
  split; intros id.
  { rewrite <- HK1. by apply apply_lookup. }
  intros st Hst. apply apply_lookup in Hst as [HL|(row & Hr & Eid & EI & ->)]; [| |done].
  - unfold states1 in HL. rewrite absent_lookup in HL. case_bool_decide as Hid.
    + injection HL as <-. right. left. split; [done|]. by apply HA.
    + left. by eapply HU.
  - right. right. destruct (HF row Hr) as (ref & Href & Hfor). exists ref, row, (githubIssueStateBlockers blockers (fs_issueID row) inc).
    split; [done|]. split; [destruct Hfor as (? & _ & E & _); congruence|]. split; [done|]. split; [done|].
    unfold githubIssueStateBlockers. destruct inc; simpl in *; [|done]. destruct unavailable.
    + rewrite HE by done. rewrite lookup_empty. exists []. split; [done|]. unfold source_evidence. simpl.
      rewrite andb_true_r in EI. by rewrite EI.
    + destruct (HB eq_refl eq_refl row Hr) as (bs & -> & ?). by exists bs.
Qed.
End Refresh.

Lemma holds_fetch `{HttpDates} c srv inc s0 issueRefs :
  holds (only_while_quiet stops) srv [] (fetchIssueStatesByRefs c issueRefs inc s0) (λ log r,
    match r.2 with
    | inl _ => False
    | inr (states, err) =>
        (∀ id, is_Some (states !! id) ↔ id ∈ requested_ids issueRefs) ∧
        ∀ id st, states !! id = Some st →
          refreshed_row (githubConfiguredStates c) inc s0 log (UnknownIssueStatesByRefs issueRefs).2 id st
    end).
Proof.
  unfold fetchIssueStatesByRefs. destruct (UnknownIssueStatesByRefs_inv issueRefs) as (Hv & Hs & HND & Hin).
  destruct (UnknownIssueStatesByRefs issueRefs) as [states refs]. simpl in Hv, Hs, HND, Hin. simpl snd.
  assert (∀ err, match (inr (states, err) : Err + (gmap string IssueState * option Err)) with
    | inl _ => False
    | inr (states, _) => (∀ id, is_Some (states !! id) ↔ id ∈ requested_ids issueRefs) ∧
        ∀ id st, states !! id = Some st → refreshed_row (githubConfiguredStates c) inc s0 [] refs id st end) as Hnone.
  { intros err. split; [done|]. intros id st Hst. left. by eapply Hv. }
  destruct (blank (Token c)); [by apply (Hnone (Some plain_error))|].
  destruct refs as [|ref0 rest] eqn:Er; [by apply (Hnone None)|]. rewrite <- Er in *. clear Er ref0 rest.
  destruct (blank (Owner c) || blank (Repo c)); [by apply (Hnone (Some plain_error))|].
  assert (quiet stops []) as HQ by by intros e err Hnil%elem_of_nil.
  unfold github_bind at 1. apply holds_bind. eapply holds_mono.
  { apply (holds_lookup_refs srv (githubConfiguredStates c) inc s0 s0 [] [] refs [] [] []); [done|apply cache_step_refl|].
    split_and!; [set_solver..|constructor]. }
  intros log1 [s1 [e|batch]] (Hp1 & HC1 & HR); [done|]. destruct HR as [HQ1 HB]. simpl in HQ1, HB.
  assert (∀ id, is_Some (states !! id) ↔ id ∈ map ref_ID refs) as HK by (intros id; by rewrite Hs, Hin).
  assert (∀ log2 blockers unavailable (err : option Err), log1 `prefix_of` log2 →
    (inc = true → unavailable = false → ∀ row, row ∈ bt_fetched batch → ∃ bs, blockers !! fs_issueID row = Some bs ∧
       source_evidence log2 (githubConfiguredStates c) githubBodyBlockerRefresh (fetched_source row) bs) →
    (unavailable = true → blockers = ∅) →
    let states' := applyCurrentGitHubIssueStates (fold_left (λ m id, <[id := absent_row]> m) (bt_absent batch) states)
                     (bt_fetched batch) blockers inc unavailable in
    (∀ id, is_Some (states' !! id) ↔ id ∈ requested_ids issueRefs) ∧
    ∀ id st, states' !! id = Some st → refreshed_row (githubConfiguredStates c) inc s0 log2 refs id st) as Hrows.
  { intros log2 blockers unavailable err Hp2 H1 H2.
    destruct (rows_ok (githubConfiguredStates c) inc s0 log2 refs states (bt_fetched batch) (bt_absent batch) blockers unavailable)
      as [HK2 HR2]; [by eapply batch_ok_mono|done..|]. split; [|done]. intros id. by rewrite HK2, <- HK. }
  destruct (bt_halted batch) eqn:EH.
  { simpl. by apply (Hrows log1 ∅ true (errors_Join (bt_errs batch))). }
  specialize (HQ1 eq_refl). unfold github_bind, attempted. apply holds_bind, holds_bind.
  eapply holds_mono with (P := post stops log1 s1 (λ log' _ blockers, inc = true → ∀ row, row ∈ bt_fetched batch →
    ∃ bs, blockers !! fs_issueID row = Some bs ∧
      source_evidence log' (githubConfiguredStates c) githubBodyBlockerRefresh (fetched_source row) bs)).
  { unfold blockerRefsForFetchedGitHubIssueStates. destruct inc; simpl negb; cbv iota.
    - eapply does_mono.
      + apply (does_blockers srv stops (githubConfiguredStates c) githubBodyBlockerRefresh); [done|apply stops_app|done|done|].
        destruct HB as (_ & _ & Hsub). rewrite map_map. simpl. eapply sublist_NoDup; [done|exact Hsub].
      + intros log2 s2 out _ _ HS _ row Hr. apply (HS (fetched_source row)). by apply list_elem_of_fmap_2.
    - by apply does_done. }
  intros log2 [s2 [e|blockers]] (Hp2 & HC2 & HR2); simpl.
  - by apply (Hrows log2 ∅ true (errors_Join (bt_errs batch ++ [e]))).
  - destruct HR2 as [_ HR2]. apply (Hrows log2 blockers false (errors_Join (bt_errs batch))); [done|by auto|done].
Qed.

Lemma reference_numbers_iff ok groups seen n :
  n ∈ reference_numbers ok groups seen ↔ n ∉ seen ∧ ok n = true ∧ ∃ g, g ∈ groups ∧ Atoi g = inl n.
Proof.
  revert seen. induction groups as [|g rest IH]; intros seen; cbn [reference_numbers].
  { split; [by intros ?%elem_of_nil|]. intros (_ & _ & g & Hg & _). by apply elem_of_nil in Hg. }
  assert ((∃ g', g' ∈ g :: rest ∧ Atoi g' = inl n) ↔ Atoi g = inl n ∨ ∃ g', g' ∈ rest ∧ Atoi g' = inl n) as Hc.
  { split; [intros (g' & [->|?]%elem_of_cons & ?); eauto|intros [?|(g' & ? & ?)]; eexists; rewrite elem_of_cons; eauto]. }
  rewrite Hc. clear Hc. destruct (Atoi g) as [m|e]; [|rewrite IH; naive_solver].
  assert (inl m = (inl n : Z + NumError) ↔ m = n) as -> by (split; [by intros [= ->]|by intros ->]).
  destruct (ok m) eqn:Eo; simpl; [case_bool_decide as Hs|]; rewrite ?elem_of_cons, IH, ?not_elem_of_union, ?not_elem_of_singleton.
  - naive_solver.
  - destruct (decide (n = m)) as [->|Hne]; naive_solver.
  - naive_solver congruence.
Qed.
Lemma blocked_phrase_ok : phrase_ok blocked_phrase.
Proof. apply phrase_ok_b. by vm_compute. Qed.

Lemma claim_phrase_ok : phrase_ok claim_phrase.
Proof. apply phrase_ok_b. by vm_compute. Qed.

(** The numbers read from text are those of its references, all of them and no others,
    wherever they stand: a body's "blocked by #N" and "depends on #N", in any case, and in a
    pull request the closing keywords and "issue #N", with or without a repository.  A
    reference that overlaps an earlier one is not lost, since both end with its number. *)
Theorem github_references :
  (∀ body n, n ∈ githubBlockedByIssueNumbers body ↔ 0 < n ∧ ∃ g, refers blocked_phrase body g ∧ Atoi g = inl n) ∧
  (∀ text n, n ∈ githubClaimedIssueNumbers text ↔ n ≠ 0 ∧ ∃ g, refers claim_phrase text g ∧ Atoi g = inl n).
Proof.
  assert (∀ ok phrase text n, phrase_ok phrase →
    n ∈ reference_numbers ok (FindAllGroups (reference phrase) text) ∅ ↔ ok n = true ∧ ∃ g, refers phrase text g ∧ Atoi g = inl n) as H.
  { intros ok phrase text n HP. rewrite reference_numbers_iff. split.
    - intros (_ & Hn & g & Hg & Eg). split; [done|]. exists g. split; [|done]. by apply FindAllGroups_iff.
    - intros (Hn & g & Hg & Eg). split; [apply not_elem_of_empty|]. split; [done|]. exists g. split; [|done]. by apply FindAllGroups_iff. }
  split; intros text n.
  - unfold githubBlockedByIssueNumbers, githubBlockedByIssueRE. rewrite H by apply blocked_phrase_ok. by rewrite Z.ltb_lt.
  - unfold githubClaimedIssueNumbers, githubClaimedIssueRE. rewrite H by apply claim_phrase_ok. by rewrite negb_true_iff, Z.eqb_neq.
Qed.

(** * The GitHub client's operations (internal/tracker/github*.go)

    What a listing and a refresh return, in terms of GitHub's answers.  Then executions: a
    repository with one page of each kind, which witnesses the theorems, and those of the
    findings, where a listing goes on after a rate-limited lookup, and a native blocker is
    dropped for one of another repository with its number. *)


(** C32: a GitHub listing that returns is complete.  When a filter includes open issues,
    every page of open pull requests was read and no listed open issue is claimed by one;
    each filter's pages were read to the end; every issue wanted there is listed, once, as
    mapped from its answer.  The blockers of a Todo issue hold, for each native blocker of
    the answer for its node, a native blocker of that answer with the same identifier #N: the
    blocker itself where no other of the answer has its number, and one of those that do
    otherwise, since the client tells them apart by the number alone.  When the answer says
    there are more, a placeholder without a state, which blocks, is among them, or a native
    blocker with the issue's own number stands in its place. *)
Theorem github_listing_complete `{HttpDates} c srv states s log s' issues :
  run srv [] (ListIssuesByStates c states s) = (log, (s', inr issues)) → nonEmptyGitHubStates states ≠ [] →
  complete_listing c log (nonEmptyGitHubStates states) issues.
Proof.
  intros E Hs. pose proof (holds_run _ _ _ _ _ (does_listing c srv s states)) as HR. rewrite E in HR.
  destruct HR as (_ & _ & _ & HR). by apply HR.
Qed.

(** a refresh always returns rows, one for each id asked for.  A row is Unknown; or
    Absent, for an id whose number this client knew from its caches or from an answer, and
    GitHub answered 404 or 410 for that number; or Current, with the state and labels of
    the issue GitHub answered, whose id and number match the reference, and, when blockers
    are asked for, with the blockers of a Todo issue: every native one, and every issue its
    body names unless GitHub said it is gone. *)
Theorem github_refresh_evidence `{HttpDates} c srv inc s0 issueRefs :
  let '(log, (s', r)) := run srv [] (fetchIssueStatesByRefs c issueRefs inc s0) in
  ∃ states err, r = inr (states, err) ∧ (∀ id, is_Some (states !! id) ↔ id ∈ requested_ids issueRefs) ∧
    ∀ id st, states !! id = Some st →
      refreshed_row (githubConfiguredStates c) inc s0 log (UnknownIssueStatesByRefs issueRefs).2 id st.
Proof.
  pose proof (holds_run _ _ _ _ _ (holds_fetch c srv inc s0 issueRefs)) as HR.
  destruct (run srv [] _) as [log [s' [e|[states err]]]]; [done|]. by exists states, err.
Qed.

(** a refresh asks GitHub for nothing after an answer that was rate limited, too large,
    canceled or late: such an answer is the last request but for readings of the context. *)
Theorem github_refresh_stops `{HttpDates} c srv inc s0 issueRefs before q a after :
  (run srv [] (fetchIssueStatesByRefs c issueRefs inc s0)).1 = before ++ Ex q a :: after → q ≠ CtxErr →
  ∀ e err, e ∈ before → answer_error e = Some err → stops err = false.
Proof.
  intros E Hq. destruct (holds_requests _ _ _ _ _ (holds_fetch c srv inc s0 issueRefs) _ _ _ _ E) as [?|?]; [simpl; lia|done..].
Qed.


(** ** Executions *)

#[local] Instance no_dates : HttpDates := λ _, None.
Definition demo_client : GitHubClient :=
  {| Token := "token"; Owner := "acme"; Repo := "app"; PaginationMaxPages := 2;
     ActiveStates := ["Todo"; "open"]; TerminalStates := ["closed"]; InactiveStates := [] |}.
Definition empty_caches : GitHubState := {| issueNumbers := ∅; issueMetadata := ∅; paginationCapHits := 0 |}.
Definition no_header : GitHubHeader :=
  {| hd_rate := {| h_RetryAfter := ""; h_RateLimitReset := ""; h_now := unix_epoch |}; hd_Remaining := ""; hd_Link := [] |}.
Definition ok {A} (a : A) : HttpAnswer A := HttpResponse 200 no_header None (inl a).
Definition demo_issue (number : Z) (labels : list string) (body : string) (pull : bool) : githubIssue :=
  {| gh_ID := 1000 + number; gh_NodeID := "N" +:+ fmt_d number; gh_Number := number; gh_Title := "t"; gh_Body := body;
     gh_HTMLURL := ""; gh_State := "open"; gh_CreatedAt := "2024-01-02T03:04:05Z"; gh_UpdatedAt := "";
     gh_Labels := labels; gh_PullRequest := pull |}.
Definition demo_pull : githubPullRequestSummary :=
  {| pr_Number := 9; pr_Title := "Fixes #2"; pr_Body := ""; pr_State := "open" |}.
Definition demo_blocker (database number : Z) (state : string) : githubGraphQLBlockerNode :=
  {| bn_ID := Some "B"; bn_DatabaseID := Some database; bn_Number := Some number; bn_State := Some state; bn_Labels := Some [] |}.
Definition native_answer (blockers : list githubGraphQLBlockerNode) : githubGraphQLBlockersResponse :=
  {| gb_Nodes := Some [{| in_ID := Some "N1"; in_Number := Some 1; in_Blockers := Some blockers; in_HasNextPage := Some false |}];
     gb_Errors := [] |}.
Definition raw_of (issue : githubIssue) : RawIssue :=
  {| raw_ID := Some (gh_ID issue); raw_Number := Some (gh_Number issue); raw_State := Some (gh_State issue); raw_Body := true;
     raw_Labels := Some (map Some (gh_Labels issue)); raw_issue := inl issue |}.

Section Server.
Context (body : string) (blockers : list githubGraphQLBlockerNode) (lookup : Z → HttpAnswer RawIssue).
Definition demo_server (log : Log) (q : GitHubQuery) : Answer q :=
  match q with
  | IssuesPage _ label _ =>
      ok (demo_issue 1 ["Todo"] body false ::
          if String.eqb label "" then [demo_issue 2 [] "" false; demo_issue 3 [] "" true; demo_issue 4 [] "" false] else [])
  | PullsPage _ => ok [demo_pull]
  | GetIssue n => lookup n
  | IssueBlockers _ => ok (native_answer blockers)
  | CtxErr => []
  end.
End Server.

Definition gone_answer : HttpAnswer RawIssue := HttpResponse 404 no_header None (inr [Unclassified]).
Definition limited_answer : HttpAnswer RawIssue := HttpResponse 429 no_header None (inr [Unclassified]).
Definition issues_of (r : Err + list Issue) : list Issue := match r with inr l => l | inl _ => [] end.

Lemma github_listing_complete_witness :
  let r := run (demo_server "Depends on #7." [demo_blocker 55 5 "OPEN"] (λ _, gone_answer)) []
             (ListActiveIssues demo_client empty_caches) in
  r.2.2 = inr (issues_of r.2.2) ∧
  map (λ i, (iss_Identifier i, iss_BlockedBy i)) (issues_of r.2.2) =
    [("#1", Some [Build_BlockerRef "55" "#5" "open"]); ("#4", Some [])] ∧
  complete_listing demo_client r.1 ["Todo"; "open"] (issues_of r.2.2).
Proof.
  split_and!; [vm_compute; reflexivity..|].
  apply (github_listing_complete demo_client (demo_server "Depends on #7." [demo_blocker 55 5 "OPEN"] (λ _, gone_answer))
           ["Todo"; "open"] empty_caches _
           (run (demo_server "Depends on #7." [demo_blocker 55 5 "OPEN"] (λ _, gone_answer)) []
              (ListActiveIssues demo_client empty_caches)).2.1); [vm_compute; reflexivity|vm_compute; discriminate].
Defined.

Definition answered_number (e : Exchange Answer) : option Z := match e with Ex (GetIssue n) _ => Some n | _ => None end.
Lemma github_refresh_stops_witness :
  let limited := λ n : Z, if n =? 2 then limited_answer else ok (raw_of (demo_issue n ["Todo"] "" false)) in
  let refs := map (λ n, {| ref_ID := "#" +:+ fmt_d n; ref_Identifier := "" |}) [1; 2; 3] in
  let r := run (demo_server "" [] limited) [] (FetchIssueStatesByRefs demo_client refs empty_caches) in
  omap answered_number r.1 = [1; 2] ∧
  (∀ e err, e ∈ take 1 r.1 → answer_error e = Some err → stops err = false).
Proof.
  intros limited refs r. split; [vm_compute; reflexivity|].
  apply (github_refresh_stops demo_client (demo_server "" [] limited) true empty_caches refs (take 1 r.1) (GetIssue 2) limited_answer []);
    [vm_compute; reflexivity|discriminate].
Defined.

(** A refreshed Todo issue whose lookup is rate limited stays Unknown; so do the later ones. *)
Example limited_refresh :
  let limited := λ n : Z, if n =? 2 then limited_answer else ok (raw_of (demo_issue n [] "" false)) in
  let refs := map (λ n, {| ref_ID := "#" +:+ fmt_d n; ref_Identifier := "" |}) [1; 2; 3] in
  match (run (demo_server "" [] limited) [] (FetchIssueStatesByRefs demo_client refs empty_caches)).2.2 with
  | inr (states, err) => (ist_Outcome <$> states !! "#1", states !! "#2", states !! "#3", err) =
      (Some IssueStateOutcomeCurrent, Some unknown_row, Some unknown_row, Some [InCategory CategoryRateLimited; RetryAfter 0])
  | inl _ => False
  end.
Proof. vm_compute. reflexivity. Qed.

(** The listing's lookups of body references do not obey the stop rule: after a rate-limited
    answer the next one is sent, and the issue is listed without blockers. *)
Example listing_ignores_rate_limit :
  let r := run (demo_server "blocked by #5, blocked by #6" [] (λ _, limited_answer)) []
             (ListIssuesByStates demo_client ["Todo"] empty_caches) in
  omap answered_number r.1 = [5; 6] ∧ map iss_BlockedBy (issues_of r.2.2) = [Some []].
Proof. by vm_compute. Qed.

(** Native blockers are told apart by their number alone: of two with one number, in two
    repositories, the open one is dropped and the issue counts as unblocked. *)
Example same_number_blocker_dropped :
  let r := run (demo_server "" [demo_blocker 55 5 "CLOSED"; demo_blocker 66 5 "OPEN"] (λ _, gone_answer)) []
             (ListIssuesByStates demo_client ["Todo"] empty_caches) in
  map (λ i, BlockedByNonTerminal (default [] (iss_BlockedBy i)) {["closed"]}) (issues_of r.2.2) = [false] ∧
  map iss_BlockedBy (issues_of r.2.2) = [Some [Build_BlockerRef "55" "#5" "closed"]].
Proof. by vm_compute. Qed.

(** A native blocker of another repository with the issue's own number stands for the
    placeholder too: a closed one lets an issue with more blockers than shown count as
    unblocked. *)
Example own_number_absorbs_placeholder :
  let source := {| bs_IssueID := "i"; bs_Identifier := "#1"; bs_State := "Todo"; bs_NodeID := "N1"; bs_Number := 1; bs_Body := "" |} in
  let native blockers := nativeGitHubBlockersForSource source {["N1" := {| nb_Blockers := blockers; nb_Incomplete := true |}]} in
  native [githubGraphQLBlockerRef (demo_blocker 55 1 "CLOSED") []] = inr [Build_BlockerRef "55" "#1" "closed"] ∧
  native [githubGraphQLBlockerRef (demo_blocker 55 5 "CLOSED") []] =
    inr [Build_BlockerRef "55" "#5" "closed"; Build_BlockerRef "" "#1" ""].
Proof. intros source native. split; vm_compute; reflexivity. Qed.
