(* ===== verification/AppMessages.v ===== *)
(** * Messages of the app-server (internal/runner/codex_app_server_*.go)

    What a JSON-RPC message of the agent means to the client: which request it answers,
    how an approval is decided, what a failed turn may reveal, how long a quota lasts, and
    the messages the client sends.  A decoded message is a value of [any]; the order a Go
    map is ranged over is the order of its list.  [fmt_v] is Sprint's %v, [time_at] is
    time.Date on the day of its first argument. *)

From S2P Require Import Prelude GoStd Payload Poller Regex Ops RuntimeEvents Config AgentErrors.

(** ** Values *)

(** [v.(map[string]any)], nil when it is no such map; [v.(string)], empty when it is none. *)
Definition as_map (v : any) : any_map := match v with AMap m => m | _ => None end.
Definition as_str (v : any) : string := match v with AString s => s | _ => "" end.
Definition obj (l : list (string * any)) : any := AMap (Some l).
Definition has_key (m : any_map) (key : string) : bool :=
  match m with Some l => bool_decide (is_Some (assoc l key)) | None => false end.
(** [m[key] = v]. *)
Fixpoint put (l : list (string * any)) (key : string) (v : any) : list (string * any) :=
  match l with
  | [] => [(key, v)]
  | (k, old) :: rest => if String.eqb k key then (k, v) :: rest else (k, old) :: put rest key v
  end.

Class Sprint := fmt_v : any → string.
Class Calendar := time_at : Time → Z → Z → Time.

Lemma assoc_put l key v k : assoc (put l key v) k = if String.eqb key k then Some v else assoc l k.
Proof.
  induction l as [|[k0 old] l IH]; simpl; [done|].
  destruct (String.eqb_spec k0 key) as [->|Hn]; simpl.
  - by destruct (String.eqb_spec key k).
  - rewrite IH. destruct (String.eqb_spec k0 k) as [->|]; [|done].
    by destruct (String.eqb_spec key k).
Qed.

(** ** Responses *)

Definition response_error (msg : string) : AgentErr := CategoryError CategoryResponseError msg None.

(** The value of a float that is a whole number. *)
Definition float_integer (f : float64) : option Z :=
  match f with
  | FFin m e => if 0 <=? e then Some (m * 2 ^ e)
                else if m mod 2 ^ (- e) =? 0 then Some (m / 2 ^ (- e)) else None
  | _ => None
  end.
Definition numberID (v : any) : option Z :=
  match v with
  | AFloat64 f => match float_integer f with
                  | Some x => if (x <? - 2 ^ 63) || (2 ^ 63 <=? x) then None else Some x
                  | None => None
                  end
  | AInt x => Some x
  | _ => None
  end.

(** [None] is a message that does not answer the request. *)
Definition responseForID `{Sprint} (msg : any_map) (id : Z) : option (AgentErr + any_map) :=
  if has_key msg "method" then None
  else
    match numberID (map_get msg "id") with
    | None =>
        if has_key msg "id"
        then Some (inl (response_error ("codex app-server sent a non-integer JSON-RPC id: " +:+ fmt_v (map_get msg "id"))))
        else None
    | Some gotID =>
        if negb (gotID =? id) then None
        else if has_key msg "error" then Some (inl (response_error ("rpc error: " +:+ fmt_v (map_get msg "error"))))
        else Some (inr (match as_map (map_get msg "result") with None => Some [] | result => result end))
    end.

Definition serverRequestMethod (msg : any_map) : option string :=
  if negb (has_key msg "id") then None
  else let method := as_str (map_get msg "method") in if String.eqb method "" then None else Some method.

Definition extractString (m : any_map) (outer inner : string) : AgentErr + string :=
  match as_map (map_get m outer) with
  | None => inl (response_error ("missing " +:+ outer))
  | o => let v := as_str (map_get o inner) in
         if String.eqb v "" then inl (response_error ("missing " +:+ outer +:+ "." +:+ inner)) else inr v
  end.

(** ** Approvals *)

Definition toolUserInputRequestMethod : string := "item/tool/requestUserInput".

Definition inputRequiredServerRequest (method : string) : bool := String.eqb method "mcpServer/elicitation/request".

Definition approvalRuleEnabled (rules : any_map) (key : string) : bool :=
  match map_get rules key with ABool enabled => enabled | _ => false end.
Definition approvalRuleAllowsRequest (rules : any_map) (method : string) : bool :=
  if String.eqb method "item/permissions/requestApproval" then approvalRuleEnabled rules "request_permissions"
  else approvalRuleEnabled rules "sandbox_approval" || approvalRuleEnabled rules "rules".
Definition autoApproveRequest (method : string) (approvalPolicy : any) : bool :=
  match approvalPolicy with
  | AString policy => let p := norm policy in String.eqb p "never" || String.eqb p "on-failure"
  | AMap policy => match map_get policy "granular" with
                   | AMap granular => approvalRuleAllowsRequest granular method
                   | _ => false
                   end
  | _ => false
  end.

Definition approval_methods : list string :=
  ["item/commandExecution/requestApproval"; "item/fileChange/requestApproval";
   "item/permissions/requestApproval"; "execCommandApproval"; "applyPatchApproval"].
Definition is_approval (method : string) : bool := existsb (String.eqb method) approval_methods.
Definition approvalDeclinedServerRequest (method : string) (approvalPolicy : any) : bool :=
  if is_approval method then negb (autoApproveRequest method approvalPolicy) else false.
Definition protocolServerRequestAutoApproved (method : string) (approvalPolicy : any) : bool :=
  if is_approval method then autoApproveRequest method approvalPolicy else false.

Definition protocolServerRequestResult (method : string) (msg : any_map) (approvalPolicy : any)
    : option (list (string * any)) :=
  let decide yes no := Some [("decision", AString (if autoApproveRequest method approvalPolicy then yes else no))] in
  if String.eqb method "item/commandExecution/requestApproval" || String.eqb method "item/fileChange/requestApproval"
  then decide "acceptForSession" "decline"
  else if String.eqb method "item/permissions/requestApproval" then
    Some [("permissions", if autoApproveRequest method approvalPolicy
                          then map_get (as_map (map_get msg "params")) "permissions" else obj [])]
  else if String.eqb method "execCommandApproval" || String.eqb method "applyPatchApproval" then decide "allow" "deny"
  else if String.eqb method "mcpServer/elicitation/request" then Some [("action", AString "decline"); ("content", ANil)]
  else None.

Definition is_true (v : any) : bool := match v with ABool b => b | _ => false end.
Definition inputRequiredField (payload : any_map) : bool :=
  is_true (map_get payload "requiresInput") || is_true (map_get payload "needsInput") ||
  is_true (map_get payload "input_required") || is_true (map_get payload "inputRequired") ||
  String.eqb (as_str (map_get payload "type")) "input_required" ||
  String.eqb (as_str (map_get payload "type")) "needs_input".
Definition inputRequiredNotification (method : string) (msg : any_map) : bool :=
  if String.eqb method "mcpServer/elicitation/request" then true
  else if negb (HasPrefix method "turn/") then false
  else if existsb (String.eqb method)
            ["turn/input_required"; "turn/needs_input"; "turn/need_input"; "turn/request_input";
             "turn/request_response"; "turn/provide_input"; "turn/approval_required"] then true
  else inputRequiredField msg || inputRequiredField (as_map (map_get msg "params")).

(** *** Questions of a tool *)

Definition protocolToolUserInputApprovalLabel (label : string) : bool :=
  HasPrefix (norm label) "approve" || HasPrefix (norm label) "allow".
Definition protocolToolUserInputOptionLabels (options : list any) : list string :=
  omap (fun option => match option with
                      | AMap payload => match map_get payload "label" with AString label => Some label | _ => None end
                      | _ => None
                      end) options.
Definition protocolToolUserInputExactOption (labels : list string) (preferred : string) : option string :=
  List.find (fun label => String.eqb label preferred) labels.
Definition protocolToolUserInputApprovalOption (options : list any) : option string :=
  let labels := protocolToolUserInputOptionLabels options in
  match protocolToolUserInputExactOption labels "Approve this Session" with
  | Some label => Some label
  | None => match protocolToolUserInputExactOption labels "Approve Once" with
            | Some label => Some label
            | None => List.find protocolToolUserInputApprovalLabel labels
            end
  end.
Definition protocolToolUserInputApprovalAnswer (question : any) : option (string * string) :=
  match question with
  | AMap payload =>
      match map_get payload "id" with
      | AString id =>
          if negb (HasPrefix id "mcp_tool_call_approval_") then None
          else match map_get payload "options" with
               | ASlice options => pair id <$> protocolToolUserInputApprovalOption options
               | _ => None
               end
      | _ => None
      end
  | _ => None
  end.
Fixpoint approval_answers (questions : list any) (answers : list (string * any)) : option (list (string * any)) :=
  match questions with
  | [] => Some answers
  | question :: rest =>
      match protocolToolUserInputApprovalAnswer question with
      | Some (id, label) => approval_answers rest (put answers id (obj [("answers", ASlice [AString label])]))
      | None => None
      end
  end.
Definition protocolToolUserInputApprovalResult (msg : any_map) (approvalPolicy : any) : option (list (string * any)) :=
  match approvalPolicy with
  | AString policy =>
      if negb (String.eqb policy "never") then None
      else match map_get (as_map (map_get msg "params")) "questions" with
           | ASlice [] => None
           | ASlice questions => (fun answers => [("answers", obj answers)]) <$> approval_answers questions []
           | _ => None
           end
  | _ => None
  end.

Definition appServerToolCallName (params : any_map) : string :=
  let tool := TrimSpace (as_str (map_get params "tool")) in
  if String.eqb tool "" then TrimSpace (as_str (map_get params "name")) else tool.

(** ** Names and payloads of events *)

(** [prev] is the byte before, [None] at the start. *)
Fixpoint snake (prev : option Ascii.ascii) (s : string) : string :=
  match s with
  | EmptyString => ""
  | String c t =>
      let nextIsLower := match t with String n _ => in_range 97 122 n | EmptyString => false end in
      let boundary := match prev with
                      | Some p => in_range 97 122 p || in_range 48 57 p || (in_range 65 90 p && nextIsLower)
                      | None => false
                      end in
      if in_range 65 90 c
      then (if boundary then "_" else "") +:+ String (lower_ascii c) (snake (Some c) t)
      else String c (snake (Some c) t)
  end.
Definition toSnakeCase (s : string) : string := snake None s.

Definition put_all (l : list (string * any)) : list (string * any) :=
  fold_left (fun out kv => put out (toSnakeCase kv.1) kv.2) l [].
Fixpoint normalizeRuntimeValue (v : any) : any :=
  match v with
  | AMap m => AMap (option_map (fun l => put_all (map (fun '(k, v) => (k, normalizeRuntimeValue v)) l)) m)
  | ASlice l => ASlice (map normalizeRuntimeValue l)
  | v => v
  end.
(** The result with a nil one replaced by an empty map, as every recorder does. *)
Definition normalizeRuntimePayload (params : any_map) : list (string * any) :=
  default [] (as_map (normalizeRuntimeValue (AMap params))).

(** ** Failed turns *)

Definition reasonFieldKeys : list string := ["reason"; "error"; "message"; "error_code"].
Definition nestedReasonFieldKeys : list string := ["message"; "reason"; "error_code"; "code"].

(** The field as a trimmed string; [None] when it is no string or a blank one. *)
Definition text_field (m : any_map) (key : string) : option string :=
  let s := TrimSpace (as_str (map_get m key)) in if String.eqb s "" then None else Some s.

Fixpoint first_some {A B} (f : A → option B) (l : list A) : option B :=
  match l with [] => None | x :: rest => match f x with Some b => Some b | None => first_some f rest end end.
Definition firstNestedReasonString (errObj : any_map) : option string := first_some (text_field errObj) nestedReasonFieldKeys.
Definition extractReasonFields (source : any_map) : option string :=
  first_some (fun key => match map_get source key with
                         | AString _ => text_field source key
                         | AMap v => firstNestedReasonString v
                         | _ => None
                         end) reasonFieldKeys.
Definition safeTurnReason (params : any_map) : string :=
  match params with
  | None => "reason unavailable"
  | _ =>
      match extractReasonFields params with
      | Some v => v
      | None => match as_map (map_get params "turn") with
                | None => "reason unavailable"
                | turn => default "reason unavailable" (extractReasonFields turn)
                end
      end
  end.

Definition scrubbedNestedReason (errObj : any_map) : list (string * any) :=
  fold_left (fun out key => match text_field errObj key with Some s => put out key (AString s) | None => out end)
    nestedReasonFieldKeys [].
Definition copyAllowlistedReasonFields (src : any_map) (dst : list (string * any)) : list (string * any) :=
  fold_left (fun out key =>
    match map_get src key with
    | AString _ => match text_field src key with Some s => put out key (AString s) | None => out end
    | AMap v => match scrubbedNestedReason v with [] => out | scrubbed => put out key (obj scrubbed) end
    | _ => out
    end) reasonFieldKeys dst.

(** *** Quotas *)

Definition turn_error (params : any_map) : any_map := as_map (map_get (as_map (map_get params "turn")) "error").
Definition codexErrorInfoValue (params : any_map) : option string := text_field (turn_error params) "codexErrorInfo".
Definition isUsageLimitExceeded (info : string) : bool := String.eqb info "usageLimitExceeded".

(** [retryInPattern] and [retryAtPattern], with the group of the given number marked. *)
Definition group_if (b : bool) (r : Regex) : Regex := if b then Group r else r.
Definition digit_re : Regex := Chr (in_range 48 57).
Definition retry_head (word : string) : Regex :=
  Cat (Alt (fold_text "try again") (fold_text "retry"))
    (Cat (Lazy (Chr (fun c => negb (byte_is 46 c)))) (Cat WordBoundary (Cat (fold_text word) (Plus white)))).
Definition delay_units : list string :=
  ["second"; "seconds"; "sec"; "secs"; "minute"; "minutes"; "min"; "mins"; "hour"; "hours"; "hr"; "hrs"].
Definition retryInPattern (group : nat) : Regex :=
  Cat (retry_head "in")
    (Cat (group_if (group =? 1)%nat (Cat (Plus digit_re) (Opt (Cat (chr_is 46) (Plus digit_re)))))
      (Cat (Star white) (Cat (group_if (group =? 2)%nat (one_of (map fold_text delay_units))) WordBoundary))).
Definition retryAtPattern (group : nat) : Regex :=
  Cat (retry_head "at")
    (Cat (group_if (group =? 1)%nat (Cat digit_re (Opt digit_re)))
      (Cat (Opt (Cat (chr_is 58) (group_if (group =? 2)%nat (Cat digit_re digit_re))))
        (Cat (Star white)
          (group_if (group =? 3)%nat
            (Cat (Chr (fun c => byte_is 97 (lower_ascii c) || byte_is 112 (lower_ascii c)))
              (Cat (Opt (chr_is 46)) (Cat (fold_letter (Ascii.ascii_of_nat 109)) (Opt (chr_is 46))))))))).
(** A submatch of the leftmost match. *)
Definition FindSubmatch (pattern : nat → Regex) (message : string) (group : nat) : option string :=
  at_group <$> search (pattern group) false message.

Definition delay_unit (unit : string) : option Z :=
  let unit := ToLower unit in
  if existsb (String.eqb unit) ["second"; "seconds"; "sec"; "secs"] then Some Second
  else if existsb (String.eqb unit) ["minute"; "minutes"; "min"; "mins"] then Some Minute
  else if existsb (String.eqb unit) ["hour"; "hours"; "hr"; "hrs"] then Some (60 * Minute)
  else None.
Definition parseRelativeRetryDelay (number unit : string) : Duration :=
  match ParseDecimal number with
  | Some (FFin m e) =>
      if m <=? 0 then 0
      else match delay_unit unit with Some u => float_to_int64 (float_scale (FFin m e) u) | None => 0 end
  | _ => 0
  end.

Definition to24Hour (hour : Z) (meridiem : string) : Z :=
  if String.eqb meridiem "pm" && negb (hour =? 12) then hour + 12
  else if String.eqb meridiem "am" && (hour =? 12) then 0 else hour.
Fixpoint without_dots (s : string) : string :=
  match s with
  | EmptyString => ""
  | String c t => if byte_is 46 c then without_dots t else String c (without_dots t)
  end.
Definition parseAbsoluteRetryDelay `{Calendar} (hour minute meridiem : string) (now : Time) : Duration :=
  match ParseInt hour with
  | None => 0
  | Some hour =>
      if (hour <? 1) || (12 <? hour) then 0
      else
        match (if String.eqb minute "" then Some 0 else ParseInt minute) with
        | None => 0
        | Some minute =>
            if 59 <? minute then 0
            else
              let retryAt := time_at now (to24Hour hour (ToLower (without_dots meridiem))) minute in
              let retryAt := if now <? retryAt then retryAt else retryAt + 24 * 60 * Minute in
              time_Sub retryAt now
        end
  end.
Definition parseRetryAfterText `{Calendar} (message : string) (now : Time) : Duration :=
  match FindSubmatch retryInPattern message 1, FindSubmatch retryInPattern message 2 with
  | Some number, Some unit => parseRelativeRetryDelay number unit
  | _, _ =>
      match FindSubmatch retryAtPattern message 1, FindSubmatch retryAtPattern message 2,
            FindSubmatch retryAtPattern message 3 with
      | Some hour, Some minute, Some meridiem => parseAbsoluteRetryDelay hour minute meridiem now
      | _, _, _ => 0
      end
  end.
Definition quotaRetryAfterFromParams `{Calendar} (params : any_map) (now : Time) : Duration :=
  default 0 (first_some (fun key =>
    let s := as_str (map_get (turn_error params) key) in
    if blank s then None
    else let d := parseRetryAfterText s now in if 0 <? d then Some d else None) ["message"; "additionalDetails"]).
Definition quotaBackoffFromTurnParams `{Calendar} (params : any_map) (now : Time) : option AgentErr :=
  match codexErrorInfoValue params with
  | Some info => if isUsageLimitExceeded info
                 then Some (AgentQuotaBackoff (safeTurnReason params) (quotaRetryAfterFromParams params now)) else None
  | None => None
  end.

(** [d.Round(time.Second)] of a positive duration. *)
Definition round_seconds (d : Duration) : Duration :=
  let r := d mod Second in
  if 2 * r <? Second then d - r else let d1 := d + Second - r in if max64 <? d1 then max64 else d1.
Definition safeTurnFailurePayload `{Calendar} (params : any_map) (now : Time) : list (string * any) :=
  match params with
  | None => [("reason", AString "reason unavailable")]
  | _ =>
      let status m out := match text_field m "status" with Some s => put out "status" (AString s) | None => out end in
      let out := copyAllowlistedReasonFields params (status params []) in
      let out := match as_map (map_get params "turn") with
                 | None => out
                 | turn => match copyAllowlistedReasonFields turn (status turn []) with
                           | [] => out
                           | nested => put out "turn" (obj nested)
                           end
                 end in
      let out := match codexErrorInfoValue params with Some info => put out "codex_error_info" (AString info) | None => out end in
      let retryAfter := quotaRetryAfterFromParams params now in
      let out := if 0 <? retryAfter
                 then put out "retry_after_seconds" (AInt64 (round_seconds retryAfter / Second)) else out in
      if has_key (Some out) "reason" then out else put out "reason" (AString (safeTurnReason params))
  end.

(** The status of a completed turn, folded; and the error it stands for.  [now] is the
    clock when the quota is computed. *)
Definition completed_status (params : any_map) : string :=
  let status := as_str (map_get params "status") in
  norm (if String.eqb status "" then as_str (map_get (as_map (map_get params "turn")) "status") else status).
Definition completedTurnError `{Calendar} (msg : any_map) (now : Time) : option AgentErr :=
  let params := as_map (map_get msg "params") in
  let status := completed_status params in
  if existsb (String.eqb status) [""; "completed"; "succeeded"; "success"; "interrupted"] then None
  else match quotaBackoffFromTurnParams params now with
       | Some quota => Some quota
       | None => Some (CategoryError CategoryTurnFailed
                         ("turn/completed failed with status " +:+ quote status +:+ ": " +:+ safeTurnReason params) None)
       end.

(** ** What the client sends *)

Definition call_message (id : Z) (method : string) (params : any) : list (string * any) :=
  [("jsonrpc", AString "2.0"); ("id", AInt id); ("method", AString method); ("params", params)].
Definition notify_message (method : string) (params : any) : list (string * any) :=
  [("jsonrpc", AString "2.0"); ("method", AString method); ("params", params)].
Definition result_message (id result : any) : list (string * any) :=
  [("jsonrpc", AString "2.0"); ("id", id); ("result", result)].
Definition error_message (id : any) (code : Z) (message : string) : list (string * any) :=
  [("jsonrpc", AString "2.0"); ("id", id); ("error", obj [("code", AInt code); ("message", AString message)])].

Definition buildInitializeParams : any :=
  obj [("capabilities", obj [("experimentalApi", ABool true)]);
       ("clientInfo", obj [("name", AString "aiops-platform"); ("title", AString "AIOps Platform");
                           ("version", AString "0.1.0")])].
Definition buildThreadStartParams (codex : CommandConfig) (workdir : string) (specs : list any) (approvalPolicy : any) : any :=
  obj [("approvalPolicy", approvalPolicy); ("sandbox", AString (cc_ThreadSandbox codex)); ("cwd", AString workdir);
       ("dynamicTools", ASlice specs)].

Definition appServerTurnTitle (task_ID task_SourceEventID task_Title : string) : string :=
  let identifier := TrimSpace task_SourceEventID in
  let title := TrimSpace task_Title in
  if negb (String.eqb identifier "") && negb (String.eqb title "") then identifier +:+ ": " +:+ title
  else if negb (String.eqb identifier "") then identifier
  else if negb (String.eqb title "") then title
  else task_ID.
Definition appServerContinuationPrompt (title : string) (turn : Z) : string :=
  "Continue working on " +:+ (if blank title then "the current task" else title) +:+
  ". This is continuation turn " +:+ fmt_d turn +:+
  "; use the existing thread context, address any remaining requirements, and finish only when the task is complete.".
Definition turnInput (title prompt : string) (turn : Z) : any :=
  ASlice [obj [("type", AString "text");
               ("text", AString (if 1 <? turn then appServerContinuationPrompt title turn else prompt));
               ("text_elements", ASlice [])]].

(** The JSON of a sandbox policy; [None] when it cannot be written. *)
Definition json_field (f : JsonField) : any :=
  match f with JString s => AString s | JBool b => ABool b | JStrings l => ASlice (map AString l) end.
Definition policy_json (p : CodexSandboxPolicy) : option any :=
  match CodexSandboxPolicy_MarshalJSON p with
  | Some (Some fields) => Some (obj (map (fun kv => (kv.1, json_field kv.2)) fields))
  | Some None => Some ANil
  | None => None
  end.
(** [codexAppServerTurnStartParams] as JSON: cwd and the approval policy are left out when
    empty. *)
Definition buildTurnStartParams (codex : CommandConfig) (workdir threadID title prompt : string) (turn : Z)
    (approvalPolicy : any) : option any :=
  (fun policy =>
    obj ([("threadId", AString threadID); ("input", turnInput title prompt turn)]
         ++ (if String.eqb workdir "" then [] else [("cwd", AString workdir)])
         ++ match approvalPolicy with ANil => [] | p => [("approvalPolicy", p)] end
         ++ [("sandboxPolicy", policy)])) <$> policy_json (cc_TurnSandboxPolicy codex).

Definition effectiveTurnLimit (maxTurns cleanTurnBudget : Z) : Z :=
  let maxTurns := if maxTurns <=? 0 then 20 else maxTurns in
  if (0 <? cleanTurnBudget) && (cleanTurnBudget <=? maxTurns) then cleanTurnBudget else maxTurns.

(** ** Silence *)

Inductive turnStreamTimeoutKind := turnStreamTimeoutNone | turnStreamTimeoutTurn | turnStreamTimeoutStall.
Record turnStreamDeadline := { td_kind : turnStreamTimeoutKind; td_timeout : Duration }.
Definition turn_stream_deadline (turnTimeoutMs stallTimeoutMs : Z) : turnStreamDeadline :=
  let turn := wrap64 (turnTimeoutMs * Millisecond) in
  let stall := wrap64 (stallTimeoutMs * Millisecond) in
  if (turn <=? 0) && (stall <=? 0) then {| td_kind := turnStreamTimeoutNone; td_timeout := 0 |}
  else if stall <=? 0 then {| td_kind := turnStreamTimeoutTurn; td_timeout := turn |}
  else if (turn <=? 0) || (stall <? turn) then {| td_kind := turnStreamTimeoutStall; td_timeout := stall |}
  else {| td_kind := turnStreamTimeoutTurn; td_timeout := turn |}.
Definition deadline_err (d : turnStreamDeadline) (elapsed : Duration) (lastEvent : string) (cause : option AgentErr) : AgentErr :=
  match td_kind d with
  | turnStreamTimeoutStall => StallError (td_timeout d) elapsed lastEvent cause
  | _ => TurnTimeoutError (td_timeout d) elapsed cause
  end.

Fixpoint trim_right_of (P : Ascii.ascii → bool) (s : string) : string :=
  match s with
  | EmptyString => ""
  | String c t => match trim_right_of P t with EmptyString => if P c then "" else String c "" | t' => String c t' end
  end.
Definition trimProtocolLine (raw : string) : string := trim_right_of (fun c => byte_is 13 c || byte_is 10 c) raw.
Definition protocolMessageCandidate (raw : string) : bool :=
  HasPrefix (span (fun c => byte_is 32 c || byte_is 9 c || byte_is 13 c || byte_is 10 c) raw).2 "{".

(** ** What a failed turn may reveal

    [allowed_params] keeps of a payload the texts the allow-lists name, and nothing else:
    the status and the reason fields, those of the turn, and within a structured reason
    its own allow-list with the two fields that tell a quota. *)
Definition only_text (v : any) : any := match v with AString _ => v | _ => ANil end.
Definition keep_fields (keys : list string) (f : string → any → any) (m : any_map) : any_map :=
  option_map (fun l => map (fun kv => (kv.1, f kv.1 kv.2)) (List.filter (fun kv => bool_decide (kv.1 ∈ keys)) l)) m.
Definition error_fields : list string := nestedReasonFieldKeys ++ ["codexErrorInfo"; "additionalDetails"].
Definition allowed_reason (v : any) : any :=
  match v with
  | AString _ => v
  | AMap m => AMap (keep_fields error_fields (fun _ => only_text) m)
  | _ => ANil
  end.
Definition allowed_field (key : string) (v : any) : any := if String.eqb key "status" then only_text v else allowed_reason v.
Definition turn_fields : list string := "status" :: reasonFieldKeys.
Definition allowed_turn (m : any_map) : any_map := keep_fields turn_fields allowed_field m.
Definition allowed_params (m : any_map) : any_map :=
  keep_fields ("turn" :: turn_fields)
    (fun key v => if String.eqb key "turn" then match v with AMap t => AMap (allowed_turn t) | _ => ANil end
                  else allowed_field key v) m.

(** A key of a list of keys that are known. *)
Ltac known_key := refine (bool_decide_unpack _ _); vm_compute; exact I.

Lemma get_keep keys f m key :
  key ∈ keys → (∀ k, f k ANil = ANil) → map_get (keep_fields keys f m) key = f key (map_get m key).
Proof.
  intros Hk Hf. destruct m as [l|]; [|by rewrite Hf]. unfold keep_fields, map_get. cbn [option_map].
  induction l as [|[k v] l IH]; cbn [List.filter map assoc]; [by rewrite Hf|]. cbn [fst].
  destruct (String.eqb_spec k key) as [->|Hn].
  - rewrite bool_decide_eq_true_2 by done. cbn [map assoc fst snd]. by rewrite String.eqb_refl.
  - destruct (bool_decide (k ∈ keys)); [|exact IH]. cbn [map assoc fst snd]. by rewrite (proj2 (String.eqb_neq _ _) Hn).
Qed.
Lemma text_only v : as_str (only_text v) = as_str v.
Proof. by destruct v. Qed.
Lemma text_field_error m key : key ∈ error_fields → text_field (keep_fields error_fields (fun _ => only_text) m) key = text_field m key.
Proof. intros Hk. unfold text_field. by rewrite get_keep, text_only by done. Qed.
Lemma first_some_ext {A B} (f g : A → option B) l : (∀ x, x ∈ l → f x = g x) → first_some f l = first_some g l.
Proof.
  induction l as [|x l IH]; intros Hfg; [done|]. cbn [first_some]. rewrite Hfg by apply list_elem_of_here. destruct (g x); [done|].
  apply IH. intros y Hy. by apply Hfg, list_elem_of_further.
Qed.
Lemma fold_left_ext {A B} (f g : A → B → A) l a : (∀ a x, x ∈ l → f a x = g a x) → fold_left f l a = fold_left g l a.
Proof.
  revert a. induction l as [|x l IH]; intros a Hfg; [done|]. cbn [fold_left]. rewrite Hfg by apply list_elem_of_here. apply IH.
  intros b y Hy. by apply Hfg, list_elem_of_further.
Qed.
Lemma nested_error key : key ∈ nestedReasonFieldKeys → key ∈ error_fields.
Proof. unfold error_fields. rewrite elem_of_app. by left. Qed.
Lemma nested_allowed m : firstNestedReasonString (keep_fields error_fields (fun _ => only_text) m) = firstNestedReasonString m.
Proof. apply first_some_ext. intros key Hk. by apply text_field_error, nested_error. Qed.
Lemma scrubbed_allowed m : scrubbedNestedReason (keep_fields error_fields (fun _ => only_text) m) = scrubbedNestedReason m.
Proof. apply fold_left_ext. intros out key Hk. by rewrite text_field_error by by apply nested_error. Qed.

(** The same of a map and of its allowed part: two maps with the allowed value at every
    field read. *)
Definition agree (m m' : any_map) : Prop := ∀ key, key ∈ turn_fields → map_get m' key = allowed_field key (map_get m key).
Lemma reason_turn key : key ∈ reasonFieldKeys → key ∈ turn_fields ∧ String.eqb key "status" = false.
Proof.
  intros Hk. split; [unfold turn_fields; rewrite elem_of_cons; by right|]. unfold reasonFieldKeys in Hk.
  repeat (apply elem_of_cons in Hk as [->|Hk]; [done|]). by apply elem_of_nil in Hk.
Qed.
Lemma agree_reason m m' key : agree m m' → key ∈ reasonFieldKeys → map_get m' key = allowed_reason (map_get m key).
Proof. intros HA [Hk He]%reason_turn. rewrite (HA key Hk). unfold allowed_field. by rewrite He. Qed.
Lemma agree_status m m' : agree m m' → text_field m' "status" = text_field m "status".
Proof. intros HA. unfold text_field. rewrite (HA "status") by known_key. 
  change (allowed_field "status" (map_get m "status")) with (only_text (map_get m "status")). by rewrite text_only.
Qed.
Lemma agree_extract m m' : agree m m' → extractReasonFields m' = extractReasonFields m.
Proof.
  intros HA. apply first_some_ext. intros key Hk. pose proof (agree_reason _ _ _ HA Hk) as E.
  unfold text_field. rewrite E. destruct (map_get m key); try done. cbn. apply nested_allowed.
Qed.
Lemma agree_copy m m' out : agree m m' → copyAllowlistedReasonFields m' out = copyAllowlistedReasonFields m out.
Proof.
  intros HA. apply fold_left_ext. intros out' key Hk. pose proof (agree_reason _ _ _ HA Hk) as E.
  unfold text_field. rewrite E. destruct (map_get m key); try done. cbn [allowed_reason]. by rewrite scrubbed_allowed.
Qed.
Lemma allowed_field_nil key : allowed_field key ANil = ANil.
Proof. unfold allowed_field. by destruct (String.eqb _ _). Qed.
Lemma agree_turn m : agree m (allowed_turn m).
Proof. intros key Hk. apply get_keep; [done|apply allowed_field_nil]. Qed.
Lemma agree_params m : agree m (allowed_params m).
Proof.
  intros key Hk. unfold allowed_params. rewrite get_keep; [| |].
  - destruct (String.eqb_spec key "turn") as [->|]; [|done]. assert (bool_decide ("turn" ∈ turn_fields) = false) as Hn by by vm_compute. by apply bool_decide_eq_false_1 in Hn.
  - rewrite elem_of_cons. by right.
  - intros k. destruct (String.eqb _ _); [done|apply allowed_field_nil].
Qed.
Lemma params_turn m : as_map (map_get (allowed_params m) "turn") = match map_get m "turn" with AMap t => allowed_turn t | _ => None end.
Proof.
  unfold allowed_params. rewrite get_keep; [by destruct (map_get m "turn")|known_key|].
  intros k. destruct (String.eqb _ _); [done|apply allowed_field_nil].
Qed.
Lemma allowed_none m : allowed_turn m = None ↔ m = None.
Proof. by destruct m. Qed.
Lemma turn_error_allowed m key : key ∈ ["codexErrorInfo"; "message"; "additionalDetails"] →
  as_str (map_get (turn_error (allowed_params m)) key) = as_str (map_get (turn_error m) key).
Proof.
  intros Hk. unfold turn_error. rewrite params_turn.
  destruct (map_get m "turn") as [| | | | | |t| | | |]; try done. cbn [as_map].
  rewrite (agree_turn t "error") by known_key. unfold allowed_field. cbn.
  destruct (map_get t "error") as [| | | | | |e| | | |]; try done. cbn [allowed_reason as_map].
  rewrite get_keep; [apply text_only| |done]. repeat (apply elem_of_cons in Hk as [->|Hk]; [known_key|]). by apply elem_of_nil in Hk.
Qed.
Lemma quota_allowed `{Calendar} m now : quotaRetryAfterFromParams (allowed_params m) now = quotaRetryAfterFromParams m now.
Proof.
  unfold quotaRetryAfterFromParams. f_equal. apply first_some_ext. intros key Hk.
  rewrite turn_error_allowed; [done|]. apply elem_of_cons. by right.
Qed.
Lemma info_allowed m : codexErrorInfoValue (allowed_params m) = codexErrorInfoValue m.
Proof. unfold codexErrorInfoValue, text_field. by rewrite turn_error_allowed by known_key. Qed.
Lemma reason_allowed m : safeTurnReason (allowed_params m) = safeTurnReason m.
Proof.
  destruct m as [l|]; [|done]. unfold safeTurnReason.
  rewrite (agree_extract _ _ (agree_params (Some l))), params_turn. 
  replace (allowed_params (Some l)) with (Some (default [] (allowed_params (Some l)))) by done.
  destruct (extractReasonFields (Some l)); [done|]. destruct (map_get (Some l) "turn") as [| | | | | |t| | | |]; try done.
  cbn [as_map]. destruct t as [t|]; [|done]. rewrite <- (agree_extract _ _ (agree_turn (Some t))). done.
Qed.

(** The turn's part of the payload. *)
Definition status_of (m : any_map) : list (string * any) :=
  match text_field m "status" with Some s => put [] "status" (AString s) | None => [] end.
Definition turn_part (turn : any_map) (out : list (string * any)) : list (string * any) :=
  match turn with
  | None => out
  | turn => match copyAllowlistedReasonFields turn (status_of turn) with
            | [] => out
            | nested => put out "turn" (obj nested)
            end
  end.
Lemma agree_part m m' : agree m m' → copyAllowlistedReasonFields m' (status_of m') = copyAllowlistedReasonFields m (status_of m).
Proof. intros HA. unfold status_of. by rewrite (agree_copy _ _ _ HA), (agree_status _ _ HA). Qed.
Lemma turn_part_allowed m out : turn_part (as_map (map_get (allowed_params m) "turn")) out = turn_part (as_map (map_get m "turn")) out.
Proof.
  rewrite params_turn. destruct (map_get m "turn") as [| | | | | |[t|]| | | |]; try done. cbn [as_map].
  assert (∀ t', agree (Some t) (Some t') → turn_part (Some t') out = turn_part (Some t) out) as Ht;
    [|exact (Ht _ (agree_turn (Some t)))].
  intros t' HA. unfold turn_part. by rewrite (agree_part _ _ HA).
Qed.
Lemma payload_parts `{Calendar} l now :
  safeTurnFailurePayload (Some l) now =
  let m := Some l in
  let out := turn_part (as_map (map_get m "turn")) (copyAllowlistedReasonFields m (status_of m)) in
  let out := match codexErrorInfoValue m with Some info => put out "codex_error_info" (AString info) | None => out end in
  let retryAfter := quotaRetryAfterFromParams m now in
  let out := if 0 <? retryAfter then put out "retry_after_seconds" (AInt64 (round_seconds retryAfter / Second)) else out in
  if has_key (Some out) "reason" then out else put out "reason" (AString (safeTurnReason m)).
Proof. unfold safeTurnFailurePayload, turn_part. by destruct (as_map (map_get (Some l) "turn")). Qed.
Lemma payload_allowed `{Calendar} l l' now : allowed_params (Some l) = Some l' →
  safeTurnFailurePayload (Some l') now = safeTurnFailurePayload (Some l) now.
Proof.
  intros E. rewrite !payload_parts. cbv zeta. rewrite <- !E, turn_part_allowed, (agree_part _ _ (agree_params (Some l))).
  by rewrite info_allowed, quota_allowed, reason_allowed.
Qed.
Lemma status_allowed params : completed_status (allowed_params params) = completed_status params.
Proof.
  unfold completed_status. rewrite (agree_params _ "status") by known_key. unfold allowed_field. rewrite String.eqb_refl, text_only.
  destruct (String.eqb _ ""); [|done]. rewrite params_turn.
  destruct (map_get params "turn") as [| | | | | |t| | | |]; try done. cbn [as_map].
  rewrite (agree_turn t "status") by known_key. unfold allowed_field. by rewrite String.eqb_refl, text_only.
Qed.
Lemma params_put msg params : as_map (map_get (Some (put msg "params" (AMap params))) "params") = params.
Proof. unfold map_get. by rewrite assoc_put, String.eqb_refl. Qed.

