(* ===== verification/AppCommand.v ===== *)
(** * The app-server process (internal/runner/codex_app_server_cmd.go, command_path.go,
      capture.go, sandbox_startup.go, codex_app_server_transport.go, codex_app_server.go)

    The command line and whether a shell must run it, the capture of its output, the
    queue between the process and the client, and how the end of a run is classified.
    [stat] says of a path whether it is a directory and its permission bits; [look_path]
    is exec.LookPath, with the text of its error. *)

From S2P Require Import Prelude GoStd Payload Ops RuntimeEvents Poller Hashes Paths Config AgentErrors.

(** ** Words of a command *)

Definition isCommandSpace (c : Ascii.ascii) : bool := byte_is 32 c || byte_is 9 c || byte_is 10 c || byte_is 13 c.
Definition is_quote (c : Ascii.ascii) : bool := byte_is 39 c || byte_is 34 c.
(** [strings.ContainsRune] on one byte. *)
Definition one_byte (codes : list nat) (c : Ascii.ascii) : bool := existsb (fun n => byte_is n c) codes.

Record commandTokenizer := {
  ct_args : list string;
  ct_current : string;
  ct_quote : option Ascii.ascii;
  ct_started : bool
}.
Definition new_tokenizer : commandTokenizer := Build_commandTokenizer [] "" None false.
(** [current.WriteRune(r)] with [tokenStarted = true]. *)
Definition write_rune (t : commandTokenizer) (c : Ascii.ascii) : commandTokenizer :=
  Build_commandTokenizer (ct_args t) (ct_current t +:+ String c "") (ct_quote t) true.
Definition set_quote (t : commandTokenizer) (q : option Ascii.ascii) : commandTokenizer :=
  Build_commandTokenizer (ct_args t) (ct_current t) q true.
Definition flush (t : commandTokenizer) : commandTokenizer :=
  if ct_started t then Build_commandTokenizer (ct_args t ++ [ct_current t]) "" (ct_quote t) false else t.

(** The bytes a backslash escapes within double quotes. *)
Definition escapable (c : Ascii.ascii) : bool := one_byte [36; 96; 34; 92; 10]%nat c.
(** The state after the byte, and whether the next one is consumed with it. *)
Definition consumeQuoted (t : commandTokenizer) (q c : Ascii.ascii) (rest : string) : commandTokenizer * bool :=
  if Ascii.eqb c q then (set_quote t None, false)
  else match rest with
       | String n _ => if byte_is 34 q && byte_is 92 c && escapable n then (write_rune t n, true) else (write_rune t c, false)
       | EmptyString => (write_rune t c, false)
       end.
Definition consumeUnquoted (t : commandTokenizer) (c : Ascii.ascii) : commandTokenizer :=
  if byte_is 92 c then write_rune t c
  else if is_quote c then set_quote t (Some c)
  else if isCommandSpace c then flush t
  else write_rune t c.
Fixpoint tokenize (t : commandTokenizer) (s : string) : commandTokenizer :=
  match s with
  | EmptyString => t
  | String c rest =>
      match ct_quote t with
      | Some q =>
          let '(t, skip) := consumeQuoted t q c rest in
          if skip then match rest with String _ rest => tokenize t rest | EmptyString => t end else tokenize t rest
      | None => tokenize (consumeUnquoted t c) rest
      end
  end.
Definition splitAppServerCommand (command : string) : option (list string) :=
  let t := tokenize new_tokenizer command in
  match ct_quote t with Some _ => None | None => Some (ct_args (flush t)) end.

(** ** Shell syntax *)

(** [|&;<>$()`{}[]*?~]. *)
Definition shell_special (c : Ascii.ascii) : bool :=
  one_byte [124; 38; 59; 60; 62; 36; 40; 41; 96; 123; 125; 91; 93; 42; 63; 126]%nat c.
(** Outside quotes: [None] is shell syntax, else the quote and the token boundary after. *)
Definition scanUnquoted (boundary : bool) (c : Ascii.ascii) : option (option Ascii.ascii * bool) :=
  if is_quote c then Some (Some c, false)
  else if byte_is 10 c || byte_is 13 c then None
  else if byte_is 35 c then if boundary then None else Some (None, false)
  else if isCommandSpace c then Some (None, true)
  else if byte_is 92 c then None
  else if shell_special c then None
  else Some (None, false).
Fixpoint shell_syntax (quote : option Ascii.ascii) (boundary : bool) (s : string) : bool :=
  match s with
  | EmptyString => match quote with Some _ => true | None => false end
  | String c rest =>
      match quote with
      | None => match scanUnquoted boundary c with
                | None => true
                | Some (quote, boundary) => shell_syntax quote boundary rest
                end
      | Some q =>
          if byte_is 39 q then shell_syntax (if byte_is 39 c then None else quote) boundary rest
          else if byte_is 34 c then shell_syntax None boundary rest
          else if one_byte [36; 96; 10]%nat c then true
          else if byte_is 92 c then
            match rest with
            | EmptyString => true
            | String n rest => if byte_is 10 n then true else shell_syntax quote boundary rest
            end
          else shell_syntax quote boundary rest
      end
  end.
Definition hasShellSyntax (command : string) : bool := shell_syntax None true command.

(** ** The command *)

Definition name_byte (first : bool) (c : Ascii.ascii) : bool :=
  byte_is 95 c || in_range 65 90 c || in_range 97 122 c || (negb first && in_range 48 57 c).
Fixpoint assignment (first : bool) (tok : string) : bool :=
  match tok with
  | EmptyString => false
  | String c t => if byte_is 61 c then negb first else name_byte first c && assignment false t
  end.
Definition isShellEnvAssignment (tok : string) : bool := assignment true tok.
Fixpoint drop_assignments (args : list string) : list string :=
  match args with
  | tok :: rest => if isShellEnvAssignment tok then drop_assignments rest else args
  | [] => []
  end.
Definition argvAfterEnvPrefix (args : list string) : list string :=
  match drop_assignments args with
  | tok :: rest => if String.eqb tok "env" then drop_assignments rest else tok :: rest
  | [] => []
  end.
Definition first_two (a b : string) (args : list string) : bool :=
  match args with x :: y :: _ => String.eqb x a && String.eqb y b | _ => false end.

Section Lookup.
Context (stat : string → option (bool * Z)) (look_path : string → string + string).
Definition executableFile (path : string) : bool :=
  match stat path with Some (isDir, mode) => negb isDir && negb (Z.land mode 73 =? 0) | None => false end.
Fixpoint envPATH (env : list string) : string :=
  match env with
  | [] => ""
  | entry :: rest => match Cut entry "=" with
                    | Some (name, value) => if String.eqb name "PATH" then value else envPATH rest
                    | None => envPATH rest
                    end
  end.
Definition not_found (file : string) : string := "exec: " +:+ quote file +:+ ": executable file not found in $PATH".
Definition lookPathInPATH (file pathValue : string) : string + string :=
  if negb (str_forall (fun c => negb (byte_is 47 c || byte_is 92 c)) file) || String.eqb pathValue ""
  then look_path file
  else match List.find executableFile
               (map (fun dir => Join [if String.eqb dir "" then "." else dir; file]) (Split (Ascii.ascii_of_nat 58) pathValue)) with
       | Some path => inr path
       | None => inl (not_found file)
       end.
Definition lookPathInEnv (file : string) (env : list string) : string + string := lookPathInPATH file (envPATH env).

(** The argument vector, and whether codex is executed without a shell. *)
Record AppCommand := { app_argv : list string; app_direct : bool }.
Definition NewCodexAppServerCommand (codexCommand : string) (env : list string) : AgentErr + AppCommand :=
  let command := TrimSpace codexCommand in
  let command := if String.eqb command "" then DefaultCodexCommand else command in
  let shell := inr {| app_argv := ["sh"; "-c"; command]; app_direct := false |} in
  match splitAppServerCommand command with
  | None => shell
  | Some args =>
      if first_two "codex" "exec" (argvAfterEnvPrefix args) then
        inl (PlainErr ("codex.command " +:+ quote command +:+ " runs the removed one-shot `codex exec` runner (issue #541); the SPEC §10 runner is `codex app-server` — set codex.command to `codex app-server`"))
      else if first_two "codex" "app-server" args && negb (hasShellSyntax command) then
        match lookPathInEnv "codex" env with
        | inr path => inr {| app_argv := path :: tail args; app_direct := true |}
        | inl err => inl (CategoryError CategoryCodexNotFound
            "codex binary not found in PATH; install codex CLI or set agent.default to claude/mock" (Some (PlainErr err)))
        end
      else shell
  end.
End Lookup.

(** The pid that is surely the one of codex; 0 otherwise. *)
Definition appServerProcessPID (pid : option Z) (directCodexExec sandboxEnabled : bool) : Z :=
  match pid with Some pid => if directCodexExec && negb sandboxEnabled then pid else 0 | None => 0 end.

(** ** Captured output *)

Definition CodexOutputCap : Z := 1048576.
Definition CodexEventOutputCap : Z := 4096.
Record cappedWriter := { cw_Cap : Z; cw_buf : string; cw_dropped : Z }.
Definition new_capture : cappedWriter := {| cw_Cap := CodexOutputCap; cw_buf := ""; cw_dropped := 0 |}.
Definition slen (s : string) : Z := Z.of_nat (String.length s).
Definition Write (c : cappedWriter) (p : string) : cappedWriter :=
  let drop n := {| cw_Cap := cw_Cap c; cw_buf := cw_buf c; cw_dropped := cw_dropped c + n |} in
  if cw_Cap c <=? 0 then drop (slen p)
  else
    let remaining := cw_Cap c - slen (cw_buf c) in
    if remaining <=? 0 then drop (slen p)
    else
      let take := Z.min (slen p) remaining in
      {| cw_Cap := cw_Cap c; cw_buf := cw_buf c +:+ str_take (Z.to_nat take) p;
         cw_dropped := if take <? slen p then cw_dropped c + (slen p - take) else cw_dropped c |}.
Definition headTail (body : string) : string * string :=
  if slen body <=? CodexEventOutputCap then (body, "")
  else (str_take (Z.to_nat CodexEventOutputCap) body, slice_from body (String.length body - Z.to_nat CodexEventOutputCap)).

(** ** A sandbox that did not start *)

Definition hasBwrapDenial (lower : string) : bool :=
  if existsb (Contains lower) ["setting up uid map"; "setting up gid map"] then true
  else if negb (Contains lower "bwrap:") then false
  else existsb (Contains lower) ["permission denied"; "operation not permitted"; "no permissions"].
Definition textHasSandboxStartupFailure (parts : list string) : bool :=
  existsb (fun p => negb (String.eqb p "") && hasBwrapDenial (ToLower p)) parts.
Definition classifySandboxStartupFailure (err : option AgentErr) (outputHead outputTail : string) : option AgentErr :=
  match err with
  | None => None
  | Some e =>
      if IsSandboxStartup e then Some e
      else if IsTimeout e || IsStall e || IsReadTimeout e || IsTurnTimeout e || agent_IsInputRequired e || IsQuotaBackoff e
      then Some e
      else if negb (textHasSandboxStartupFailure [agent_error_text e; outputHead; outputTail]) then Some e
      else Some (SandboxStartupError "host denied the codex bwrap user namespace")
  end.

(** ** How a run ended

    [ctxErr] is the error of the run's context, [budget] what deadlineBudget reports. *)
Definition isAppServerReadTimeout (e : AgentErr) : bool :=
  bool_decide (is_Some (errors_As (fun e => match e with AppServerReadTimeout _ => Some tt | _ => None end) e)).
Definition isStdoutBacklogOverflow (e : AgentErr) : bool :=
  bool_decide (is_Some (errors_As (fun e => match e with StdoutBacklogOverflow _ => Some tt | _ => None end) e)).
Definition deadlineBudget (deadline : option Time) (start now : Time) : Duration :=
  match deadline with
  | Some d => let budget := time_Sub d start in if 0 <? budget then budget else time_Sub now start
  | None => time_Sub now start
  end.
Definition ctx_expired (ctxErr : option AgentErr) : bool :=
  match ctxErr with Some e => is_deadline e | None => false end.
Definition classifyAppServerProcessExit (ctxErr waitErr : option AgentErr) (budget elapsed : Duration) : option AgentErr :=
  match waitErr with
  | None => None
  | Some w => if ctx_expired ctxErr then Some (TimeoutError budget elapsed (Some w))
              else Some (CategoryError CategoryPortExit "codex app-server process exited" (Some w))
  end.
Definition classifyAppServerOutcome (ctxErr runErr waitErr : option AgentErr) (readTimeoutMs : Z)
    (budget elapsed : Duration) : option AgentErr :=
  match runErr with
  | None => classifyAppServerProcessExit ctxErr waitErr budget elapsed
  | Some e =>
      if IsStall e then Some e
      else if isAppServerReadTimeout e then Some (ReadTimeoutError (wrap64 (readTimeoutMs * Millisecond)) (Some e))
      else if ctx_expired ctxErr then Some (TimeoutError budget elapsed (Some e))
      else match ErrorCategory e with
           | Some _ => Some e
           | None => match waitErr with
                     | Some w => Some (CategoryError CategoryPortExit "codex app-server process exited" (Some (JoinErr e w)))
                     | None => Some e
                     end
           end
  end.

(** ** The queue of lines *)

Definition maxAppServerBufferedBytes : Z := 67108864.
Definition lineQueueItemOverheadBytes : Z := 64.
Record lineQueue := { lq_capBytes : Z; lq_items : list string; lq_bytes : Z }.
Definition queuedLineBytes (line : string) : Z := slen line + lineQueueItemOverheadBytes.
Definition push (q : lineQueue) (line : string) : lineQueue * bool :=
  let q := {| lq_capBytes := lq_capBytes q; lq_items := lq_items q ++ [line]; lq_bytes := lq_bytes q + queuedLineBytes line |} in
  (q, lq_bytes q <=? lq_capBytes q).
Definition pop (q : lineQueue) : lineQueue :=
  match lq_items q with
  | [] => q
  | line :: rest => {| lq_capBytes := lq_capBytes q; lq_items := rest; lq_bytes := lq_bytes q - queuedLineBytes line |}
  end.

(** The pump of [pumpStdoutLines]: the scan goroutine sends a line or closes its channel
    after its terminal error, the client receives.  [pump_sent] is what it received. *)
Record Pump := {
  pump_q : lineQueue;
  pump_lines : bool;                    (* the channel of lines is open *)
  pump_scanErr : option AgentErr;
  pump_readErr : option AgentErr;
  pump_closed : bool;                   (* the client's channel is closed *)
  pump_sent : list string
}.
Inductive PumpEvent := ScanLine (line : string) | ScanEnd (err : AgentErr) | ClientRead.
(** The check of the loop: with no more lines and an empty queue the pump ends. *)
Definition pump_loop (p : Pump) : Pump :=
  match lq_items (pump_q p) with
  | [] => if pump_lines p then p
          else {| pump_q := pump_q p; pump_lines := false; pump_scanErr := pump_scanErr p;
                  pump_readErr := pump_scanErr p; pump_closed := true; pump_sent := pump_sent p |}
  | _ => p
  end.
Definition new_pump (stdoutBufferBytes : Z) : Pump :=
  {| pump_q := {| lq_capBytes := if stdoutBufferBytes <=? 0 then maxAppServerBufferedBytes else stdoutBufferBytes;
                  lq_items := []; lq_bytes := 0 |};
     pump_lines := true; pump_scanErr := None; pump_readErr := None; pump_closed := false; pump_sent := [] |}.
(** [None]: the event cannot happen.  After an overflow the lines are discarded. *)
Definition pump_step (p : Pump) (ev : PumpEvent) : option Pump :=
  match ev with
  | ScanLine line =>
      if negb (pump_lines p) then None
      else if pump_closed p then Some p
      else
        let '(q, within) := push (pump_q p) line in
        if within
        then Some {| pump_q := q; pump_lines := true; pump_scanErr := None; pump_readErr := None;
                     pump_closed := false; pump_sent := pump_sent p |}
        else Some {| pump_q := q; pump_lines := true; pump_scanErr := None;
                     pump_readErr := Some (StdoutBacklogOverflow (lq_capBytes q));
                     pump_closed := true; pump_sent := pump_sent p |}
  | ScanEnd err =>
      if negb (pump_lines p) then None
      else
        let p' := {| pump_q := pump_q p; pump_lines := false; pump_scanErr := Some err; pump_readErr := pump_readErr p;
                     pump_closed := pump_closed p; pump_sent := pump_sent p |} in
        Some (if pump_closed p then p' else pump_loop p')
  | ClientRead =>
      if pump_closed p then None
      else match lq_items (pump_q p) with
           | [] => None
           | line :: _ =>
               Some (pump_loop {| pump_q := pop (pump_q p); pump_lines := pump_lines p; pump_scanErr := pump_scanErr p;
                                  pump_readErr := pump_readErr p; pump_closed := false;
                                  pump_sent := pump_sent p ++ [line] |})
           end
  end.

(** ** The words a shell would read

    A reference grammar of simple commands: words of bare bytes, single-quoted text and
    double-quoted text, separated by blanks.  [word_value] is the word after the shell's
    quote removal. *)
Inductive DChar :=
| Lit (c : Ascii.ascii)
| Esc (c : Ascii.ascii)        (* a backslash and a byte it escapes *)
| Back (c : Ascii.ascii).      (* a backslash and a byte it does not *)
Inductive Seg := Bare (c : Ascii.ascii) | Single (s : string) | Double (l : list DChar).
Definition chr (n : nat) : string := String (Ascii.ascii_of_nat n) "".

Definition dchar_text (d : DChar) : string :=
  match d with Lit c => String c "" | Esc c | Back c => chr 92 +:+ String c "" end.
Definition dchar_value (d : DChar) : string :=
  match d with Lit c | Esc c => String c "" | Back c => chr 92 +:+ String c "" end.
Definition concat_map {A} (f : A → string) (l : list A) : string := foldr (fun x acc => f x +:+ acc) "" l.
Definition seg_text (s : Seg) : string :=
  match s with
  | Bare c => String c ""
  | Single s => chr 39 +:+ (s +:+ chr 39)
  | Double l => chr 34 +:+ (concat_map dchar_text l +:+ chr 34)
  end.
Definition seg_value (s : Seg) : string :=
  match s with Bare c => String c "" | Single s => s | Double l => concat_map dchar_value l end.
Definition word_text : list Seg → string := concat_map seg_text.
Definition word_value : list Seg → string := concat_map seg_value.
(** Words, each with the blanks before it. *)
Definition line_text : list (string * list Seg) → string := concat_map (fun w => w.1 +:+ word_text w.2).

Definition blank_byte (c : Ascii.ascii) : bool := byte_is 32 c || byte_is 9 c.
Definition dchar_ok (d : DChar) : bool :=
  match d with
  | Lit c => negb (one_byte [34; 36; 96; 10; 92]%nat c)
  | Esc c => one_byte [34; 36; 96; 92]%nat c
  | Back c => negb (one_byte [34; 36; 96; 10; 92]%nat c)
  end.
(** [first]: at the beginning of a word, where a hash would start a comment. *)
Definition seg_ok (first : bool) (s : Seg) : bool :=
  match s with
  | Bare c => negb (is_quote c || isCommandSpace c || byte_is 92 c || shell_special c || (first && byte_is 35 c))
  | Single s => str_forall (fun c => negb (byte_is 39 c)) s
  | Double l => forallb dchar_ok l
  end.
Definition word_ok (first : bool) (w : list Seg) : bool :=
  match w with [] => negb first | s :: rest => seg_ok first s && forallb (seg_ok false) rest end.
Definition line_ok (first : bool) (l : list (string * list Seg)) : bool :=
  forallb (fun w => str_forall blank_byte w.1 && word_ok true w.2) l &&
  forallb (fun w => negb (String.eqb w.1 "")) (if first then tail l else l).

(** *** The tokenizer reads the words *)

Definition started (args : list string) (current : string) : commandTokenizer := Build_commandTokenizer args current None true.
Definition quoted (args : list string) (current : string) (q : nat) : commandTokenizer :=
  Build_commandTokenizer args current (Some (Ascii.ascii_of_nat q)) true.

Lemma byte_is_eq n c : byte_is n c = true ↔ Ascii.nat_of_ascii c = n.
Proof. apply Nat.eqb_eq. Qed.
Lemma byte_is_ascii n c : (n < 256)%nat → byte_is n c = Ascii.eqb c (Ascii.ascii_of_nat n).
Proof.
  intros Hn. unfold byte_is. destruct (Ascii.eqb_spec c (Ascii.ascii_of_nat n)) as [->|Hc].
  - rewrite Ascii.nat_ascii_embedding by done. apply Nat.eqb_refl.
  - apply Nat.eqb_neq. intros E. apply Hc. by rewrite <- E, Ascii.ascii_nat_embedding.
Qed.


(** One byte of quoted text that is kept as it is. *)
Lemma tokenize_quoted args cur q c rest :
  Ascii.eqb c (Ascii.ascii_of_nat q) = false →
  (∀ n r, rest = String n r → byte_is 34 (Ascii.ascii_of_nat q) && byte_is 92 c && escapable n = false) →
  tokenize (quoted args cur q) (String c rest) = tokenize (quoted args (cur +:+ String c "") q) rest.
Proof.
  intros Hc He. cbn [tokenize ct_quote quoted]. unfold consumeQuoted. rewrite Hc.
  destruct rest as [|n r]; [done|]. by rewrite (He n r).
Qed.
Ltac app_simpl := repeat (rewrite str_app_cons || rewrite str_app_nil).
Lemma tokenize_single args cur s rest :
  str_forall (fun c => negb (byte_is 39 c)) s = true →
  tokenize (quoted args cur 39) (s +:+ (chr 39 +:+ rest)) = tokenize (started args (cur +:+ s)) rest.
Proof.
  revert cur. induction s as [|c s IH]; intros cur; [by rewrite str_app_nil, str_app_nil_r|].
  cbn [str_forall]. intros [Hc Hs]%andb_true_iff. rewrite byte_is_ascii in Hc by lia. apply negb_true_iff in Hc.
  rewrite str_app_cons, tokenize_quoted, IH by done. by rewrite <- str_app_assoc, str_app_cons, str_app_nil.
Qed.
Lemma tokenize_double args cur l rest :
  forallb dchar_ok l = true →
  tokenize (quoted args cur 34) (concat_map dchar_text l +:+ (chr 34 +:+ rest)) =
  tokenize (started args (cur +:+ concat_map dchar_value l)) rest.
Proof.
  revert cur. induction l as [|d l IH]; intros cur; [by rewrite str_app_nil, str_app_nil_r|].
  cbn [forallb concat_map foldr]. intros [Hd Hl]%andb_true_iff. fold (concat_map dchar_text l) (concat_map dchar_value l).
  rewrite <- str_app_assoc. specialize (λ cur, IH cur Hl). revert IH.
  generalize (concat_map dchar_text l +:+ (chr 34 +:+ rest)) (concat_map dchar_value l). intros tl vl IH.
  assert (∀ c v, is_Some (Some c) → (cur +:+ String c "") +:+ v = cur +:+ (String c v)) as Ha.
  { intros c v _. by rewrite <- str_app_assoc, str_app_cons, str_app_nil. }
  unfold dchar_ok, one_byte in Hd.
  destruct d as [c|c|c]; cbn [dchar_text dchar_value existsb] in *; rewrite !byte_is_ascii in Hd by lia.
  - rewrite negb_true_iff, !orb_false_iff in Hd. destruct Hd as (H34 & _ & _ & _ & H92 & _).
    app_simpl. rewrite tokenize_quoted, IH, Ha; try done.
    intros n r _. by rewrite (byte_is_ascii 92 c), H92 by lia.
  - unfold chr. app_simpl. cbn [tokenize ct_quote quoted]. unfold consumeQuoted.
    change (Ascii.eqb (Ascii.ascii_of_nat 92) (Ascii.ascii_of_nat 34)) with false.
    replace (escapable c) with true.
    2:{ unfold escapable, one_byte. cbn [existsb]. rewrite !byte_is_ascii by lia.
        rewrite !orb_true_iff in Hd. repeat destruct Hd as [Hd|Hd]; try done; rewrite Hd; by rewrite ?orb_true_r. }
    change (tokenize (quoted args (cur +:+ String c "") 34) tl = tokenize (started args (cur +:+ String c vl)) rest).
    by rewrite IH, Ha.
  - rewrite negb_true_iff, !orb_false_iff in Hd. destruct Hd as (H34 & H36 & H96 & H10 & H92 & _).
    unfold chr. app_simpl. rewrite tokenize_quoted; [|done|].
    2:{ intros n r [= <- _]. unfold escapable, one_byte. cbn [existsb]. rewrite !(byte_is_ascii _ c) by lia.
        by rewrite H34, H36, H96, H10, H92. }
    rewrite tokenize_quoted, IH, <- !str_app_assoc; try done. intros n r _. by rewrite (byte_is_ascii 92 c), H92, andb_false_r by lia.
Qed.

Lemma tokenize_seg args cur quote_open s rest :
  seg_ok false s = true → 
  tokenize (Build_commandTokenizer args cur None quote_open) (seg_text s +:+ rest) = tokenize (started args (cur +:+ seg_value s)) rest.
Proof.
  intros Hs. destruct s as [c|s|l]; cbn [seg_ok seg_text seg_value] in *.
  - rewrite str_app_cons, str_app_nil. cbn [tokenize ct_quote]. unfold consumeUnquoted.
    rewrite negb_true_iff, !orb_false_iff in Hs. destruct Hs as ((((Hq & Hsp) & Hb) & _) & _). by rewrite Hq, Hsp, Hb.
  - rewrite <- !str_app_assoc. unfold chr at 1. rewrite str_app_cons, str_app_nil. cbn [tokenize ct_quote].
    by apply (tokenize_single args cur).
  - rewrite <- !str_app_assoc. unfold chr at 1. rewrite str_app_cons, str_app_nil. cbn [tokenize ct_quote].
    by apply (tokenize_double args cur).
Qed.
Lemma tokenize_segs args cur w rest :
  forallb (seg_ok false) w = true →
  tokenize (started args cur) (word_text w +:+ rest) = tokenize (started args (cur +:+ word_value w)) rest.
Proof.
  revert cur. induction w as [|s w IH]; intros cur; [by rewrite str_app_nil, str_app_nil_r|].
  cbn [forallb]. intros [Hs Hw]%andb_true_iff. unfold word_text, word_value. cbn [concat_map foldr].
  rewrite <- str_app_assoc. unfold started at 1. rewrite tokenize_seg by done.
  fold (concat_map seg_text w) (concat_map seg_value w). etrans; [by apply IH|]. by rewrite <- str_app_assoc.
Qed.
Lemma seg_ok_weaken b s : seg_ok b s = true → seg_ok false s = true.
Proof. destruct s as [c| |]; cbn [seg_ok]; try done. rewrite !negb_true_iff, !orb_false_iff. tauto. Qed.
Lemma tokenize_word args w rest :
  word_ok true w = true →
  tokenize (Build_commandTokenizer args "" None false) (word_text w +:+ rest) = tokenize (started args (word_value w)) rest.
Proof.
  destruct w as [|s w]; [done|]. cbn [word_ok]. intros [Hs%seg_ok_weaken Hw]%andb_true_iff.
  unfold word_text, word_value. cbn [concat_map foldr]. rewrite <- str_app_assoc, tokenize_seg by done.
  by apply tokenize_segs.
Qed.
Lemma tokenize_blanks t b rest :
  ct_quote t = None → str_forall blank_byte b = true → b ≠ "" → tokenize t (b +:+ rest) = tokenize (flush t) rest.
Proof.
  destruct t as [args cur q st]. simpl. intros ->. revert args cur st. induction b as [|c b IH]; intros args cur st; [done|].
  simpl str_forall. intros [Hc Hb]%andb_true_iff _. rewrite str_app_cons. cbn [tokenize ct_quote].
  assert (consumeUnquoted (Build_commandTokenizer args cur None st) c = flush (Build_commandTokenizer args cur None st)) as ->.
  { unfold consumeUnquoted, is_quote, isCommandSpace, blank_byte in *. rewrite !byte_is_ascii in * by lia.
    apply orb_true_iff in Hc as [->%Ascii.eqb_eq | ->%Ascii.eqb_eq]; done. }
  destruct b as [|c' b]; [by rewrite str_app_nil|]. unfold flush. cbn [ct_started ct_args ct_current ct_quote].
  destruct st; (etrans; [by apply IH|]); done.
Qed.
Lemma tokenize_line args cur st l rest :
  line_ok (negb st) l = true → (st = false → cur = "") →
  ∃ t, tokenize (Build_commandTokenizer args cur None st) (line_text l +:+ rest) = tokenize t rest ∧ ct_quote t = None ∧
    ct_args (flush t) = ct_args (flush (Build_commandTokenizer args cur None st)) ++ map (fun w => word_value w.2) l.
Proof.
  revert args cur st. induction l as [|[b w] l IH]; intros args cur st Hl Hst.
  { eexists. split; [by rewrite str_app_nil|]. split; [done|]. by rewrite app_nil_r. }
  unfold line_ok in Hl. cbn [forallb fst snd] in Hl. apply andb_true_iff in Hl as [[[Hb Hw]%andb_true_iff Hl]%andb_true_iff Hne].
  unfold line_text. cbn [concat_map foldr fst snd]. fold (concat_map (λ w0 : string * list Seg, w0.1 +:+ word_text w0.2) l).
  rewrite <- !str_app_assoc.
  set (tl := word_text w +:+ (concat_map _ l +:+ rest)).
  assert (tokenize (Build_commandTokenizer args cur None st) (b +:+ tl) =
    tokenize (Build_commandTokenizer (ct_args (flush (Build_commandTokenizer args cur None st))) "" None false) tl) as ->.
  { destruct b as [|c b].
    - rewrite str_app_nil. destruct st; simpl in Hne; [done|]. by rewrite Hst.
    - rewrite tokenize_blanks by done. destruct st; simpl; [done|]. by rewrite Hst. }
  unfold tl. rewrite tokenize_word by done.
  destruct (IH (ct_args (flush (Build_commandTokenizer args cur None st))) (word_value w) true) as (t & E & Eq & Ea); [|done|].
  { unfold line_ok. simpl negb. cbv iota. rewrite Hl. simpl. destruct st; simpl in Hne; [by apply andb_true_iff in Hne as [_ ?]|done]. }
  exists t. split; [exact E|]. split; [done|]. rewrite Ea. cbn [flush ct_started started ct_args ct_current map snd]. by rewrite <- app_assoc.
Qed.

(** *** A command without shell syntax is such a line *)

Lemma ascii_cases (codes : list nat) c :
  Forall (λ n, n < 256)%nat codes → one_byte codes c = true → ∃ n, n ∈ codes ∧ c = Ascii.ascii_of_nat n.
Proof.
  unfold one_byte. induction 1 as [|n codes Hn _ IH]; simpl; [done|]. rewrite byte_is_ascii by done.
  destruct (Ascii.eqb_spec c (Ascii.ascii_of_nat n)) as [->|]; [intros _; exists n; set_solver|].
  intros (m & ? & ?)%IH. exists m. set_solver.
Qed.

Lemma scan_single b s :
  shell_syntax (Some (Ascii.ascii_of_nat 39)) b s = false →
  ∃ body rest, s = body +:+ (chr 39 +:+ rest) ∧ str_forall (fun c => negb (byte_is 39 c)) body = true ∧
    shell_syntax None b rest = false.
Proof.
  induction s as [|c s IH]; [done|]. cbn [shell_syntax]. change (byte_is 39 (Ascii.ascii_of_nat 39)) with true. cbv iota.
  destruct (byte_is 39 c) eqn:E.
  - intros H. exists "", s. rewrite byte_is_ascii in E by lia. apply Ascii.eqb_eq in E as ->. by app_simpl.
  - intros (body & rest & -> & Hb & H)%IH. exists (String c body), rest. cbn [str_forall]. by rewrite E, Hb.
Qed.

Lemma one_byte_neg codes n c : one_byte codes c = false → n ∈ codes → byte_is n c = false.
Proof.
  unfold one_byte. induction codes as [|m codes IH]; simpl; [set_solver|]. rewrite orb_false_iff. intros [H1 H2] [->|?]%elem_of_cons; auto.
Qed.

Lemma scan_double_len len : ∀ b s, (String.length s ≤ len)%nat →
  shell_syntax (Some (Ascii.ascii_of_nat 34)) b s = false →
  ∃ l rest, s = concat_map dchar_text l +:+ (chr 34 +:+ rest) ∧ forallb dchar_ok l = true ∧
    shell_syntax None b rest = false.
Proof.
  induction len as [|len IH]; intros b [|c s] Hl; try (simpl in Hl; lia); try done. cbn [String.length] in Hl.
  cbn [shell_syntax]. change (byte_is 39 (Ascii.ascii_of_nat 34)) with false. cbv iota.
  destruct (byte_is 34 c) eqn:E34.
  { intros H. exists [], s. rewrite byte_is_ascii in E34 by lia. apply Ascii.eqb_eq in E34 as ->. by app_simpl. }
  destruct (one_byte [36; 96; 10]%nat c) eqn:EA; [done|].
  destruct (byte_is 92 c) eqn:E92.
  - destruct s as [|n s]; [done|]. destruct (byte_is 10 n) eqn:E10; [done|]. cbn [String.length] in Hl.
    intros (l & rest & -> & Hok & H)%IH; [|lia]. rewrite byte_is_ascii in E92 by lia. apply Ascii.eqb_eq in E92 as ->.
    destruct (one_byte [34; 36; 96; 92]%nat n) eqn:EE.
    + exists (Esc n :: l), rest. cbn [forallb dchar_ok]. by rewrite EE, Hok.
    + exists (Back n :: l), rest. cbn [forallb dchar_ok]. rewrite Hok. split_and!; [done| |done].
      apply andb_true_iff; split; [|done]. apply negb_true_iff. cbn [one_byte existsb] in *.
      rewrite !orb_false_iff in *. tauto.
  - intros (l & rest & -> & Hok & H)%IH; [|lia]. exists (Lit c :: l), rest. cbn [forallb dchar_ok]. rewrite Hok.
    split_and!; [done| |done]. apply andb_true_iff; split; [|done]. apply negb_true_iff. cbn [one_byte existsb] in *.
    rewrite !orb_false_iff in *. tauto.
Qed.

(** From within a word ([b = false]) or a boundary, what is left is the rest of the word,
    the words after it, and blanks. *)
Lemma scan_words_len len : ∀ b s, (String.length s ≤ len)%nat → shell_syntax None b s = false →
  ∃ w l blanks, s = word_text w +:+ (line_text l +:+ blanks) ∧
    match w with [] => True | _ => word_ok b w = true end ∧ line_ok false l = true ∧ str_forall blank_byte blanks = true.
Proof.
  induction len as [|len IH]; intros b [|c s] Hl; try (simpl in Hl; lia);
    try (intros _; exists [], [], ""; by split_and!). cbn [String.length] in Hl.
  cbn [shell_syntax]. unfold scanUnquoted.
  assert (∀ sg rest, shell_syntax None false rest = false → (String.length rest ≤ len)%nat → seg_ok b sg = true →
    ∃ w l blanks, seg_text sg +:+ rest = word_text w +:+ (line_text l +:+ blanks) ∧
      match w with [] => True | _ => word_ok b w = true end ∧ line_ok false l = true ∧ str_forall blank_byte blanks = true) as Hseg.
  { intros sg rest H Hr Hsg. apply IH in H as (w & l & blanks & -> & Hw & Hlo & Hb); [|done].
    exists (sg :: w), l, blanks. split_and!; [by rewrite !str_app_assoc| |done..]. cbn [word_ok]. rewrite Hsg. simpl.
    destruct w as [|s1 w]; [done|]. cbn [word_ok] in Hw. apply andb_true_iff in Hw as [Hs1 Hw]. simpl. by rewrite Hs1, Hw. }
  destruct (is_quote c) eqn:EQ.
  { intros H. unfold is_quote in EQ. rewrite !byte_is_ascii in EQ by lia.
    apply orb_true_iff in EQ as [->%Ascii.eqb_eq | ->%Ascii.eqb_eq].
    - apply scan_single in H as (body & rest & -> & Hbd & H).
      destruct (Hseg (Single body) rest) as (w & l & blanks & E & ?); [done| |done|].
      { rewrite !str_length_app in Hl. simpl in Hl. lia. }
      exists w, l, blanks. rewrite <- E. split; [|done]. cbn [seg_text]. unfold chr. by rewrite <- !str_app_assoc; app_simpl.
    - apply (scan_double_len (String.length s)) in H as (dl & rest & -> & Hbd & H); [|done].
      destruct (Hseg (Double dl) rest) as (w & l & blanks & E & ?); [done| |done|].
      { rewrite !str_length_app in Hl. simpl in Hl. lia. }
      exists w, l, blanks. rewrite <- E. split; [|done]. cbn [seg_text]. unfold chr. by rewrite <- !str_app_assoc; app_simpl. }
  destruct (byte_is 10 c || byte_is 13 c) eqn:ENL; [done|].
  destruct (byte_is 35 c) eqn:E35.
  { destruct b; [done|]. intros H. destruct (Hseg (Bare c) s) as (w & l & blanks & E & ?); [done|lia| |].
    { rewrite byte_is_ascii in E35 by lia. by apply Ascii.eqb_eq in E35 as ->. }
    exists w, l, blanks. by rewrite <- E. }
  destruct (isCommandSpace c) eqn:ESp.
  { intros (w & l & blanks & -> & Hw & Hlo & Hb)%IH; [|lia].
    assert (blank_byte c = true) as Hc.
    { unfold isCommandSpace, blank_byte in *. rewrite !orb_true_iff, !orb_false_iff in *. destruct ENL as [E1 E2].
      rewrite E1, E2 in ESp. intuition discriminate. }
    destruct w as [|sg w].
    - destruct l as [|[bl w1] l].
      + exists [], [], (String c blanks). split_and!; [by cbn [line_text concat_map foldr]; app_simpl|done|done|]. cbn [str_forall]. by rewrite Hc.
      + exists [], ((String c bl, w1) :: l), blanks. split_and!; [by cbn [line_text concat_map foldr]; app_simpl|done| |done].
        revert Hlo. unfold line_ok. cbn [forallb fst snd str_forall]. rewrite Hc. simpl. rewrite !andb_true_iff. tauto.
    - exists [], ((String c "", sg :: w) :: l), blanks. split_and!; [|done| |done].
      + cbn [line_text concat_map foldr fst snd word_text]. app_simpl. by rewrite <- !str_app_assoc.
      + revert Hlo. unfold line_ok. cbn [forallb fst snd str_forall]. rewrite Hc, Hw. simpl. tauto. }
  destruct (byte_is 92 c) eqn:E92; [done|]. destruct (shell_special c) eqn:ES; [done|].
  intros H. destruct (Hseg (Bare c) s) as (w & l & blanks & E & ?); [done|lia| |].
  { cbn [seg_ok]. by rewrite EQ, ESp, E92, ES, E35, andb_false_r. }
  exists w, l, blanks. by rewrite <- E.
Qed.

(** A command without shell syntax is a line of words, and the tokenizer reads the words
    the shell would. *)
Lemma plain_command_words s :
  hasShellSyntax s = false →
  ∃ l blanks, s = line_text l +:+ blanks ∧ line_ok true l = true ∧ str_forall blank_byte blanks = true ∧
    splitAppServerCommand s = Some (map (fun w => word_value w.2) l).
Proof.
  intros (w & l & blanks & -> & Hw & Hl & Hb)%(scan_words_len (String.length s)); [|done].
  assert (∃ l', word_text w +:+ (line_text l +:+ blanks) = line_text l' +:+ blanks ∧ line_ok true l' = true) as (l' & -> & Hl').
  { destruct w as [|sg w].
    - exists l. split; [by app_simpl|]. unfold line_ok in *. apply andb_true_iff in Hl as [-> Hl]. simpl.
      destruct l as [|[b w] l]; [done|]. simpl in *. by apply andb_true_iff in Hl as [_ ?].
    - exists (("", sg :: w) :: l). split.
      + cbn [line_text concat_map foldr fst snd]. app_simpl. by rewrite <- str_app_assoc.
      + unfold line_ok in *. cbn [forallb fst snd str_forall tail]. by rewrite Hw. }
  exists l', blanks. split_and!; [done..|]. unfold splitAppServerCommand.
  destruct (tokenize_line [] "" false l' blanks Hl' (λ _, eq_refl)) as (t & E & Eq & Ea).
  change new_tokenizer with (Build_commandTokenizer [] "" None false). rewrite E.
  assert (∀ t', ct_quote t' = None → ∃ t2, tokenize t' blanks = t2 ∧ ct_quote t2 = None ∧ ct_args (flush t2) = ct_args (flush t')) as Hbl.
  { intros t' Ht'. destruct (decide (blanks = "")) as [->|Hne]; [by exists t'|].
    rewrite <- (str_app_nil_r blanks), (tokenize_blanks t') by done. exists (flush t'). split; [done|].
    destruct t' as [? ? ? []]; cbn in *; by subst. }
  destruct (Hbl t Eq) as (t2 & -> & -> & ->). by rewrite Ea.
Qed.

(** ** Launching *)

(** C31: codex is executed without a shell only when the command is a line of words whose
    first two are codex and app-server, and the arguments are then exactly the words the
    shell would have read. *)
Theorem direct_command_is_the_shells stat look_path cmd env argv :
  NewCodexAppServerCommand stat look_path cmd env = inr {| app_argv := argv; app_direct := true |} →
  let command := if String.eqb (TrimSpace cmd) "" then DefaultCodexCommand else TrimSpace cmd in
  ∃ l blanks path rest,
    command = line_text l +:+ blanks ∧ line_ok true l = true ∧ str_forall blank_byte blanks = true ∧
    map (fun w => word_value w.2) l = "codex" :: "app-server" :: rest ∧
    lookPathInEnv stat look_path "codex" env = inr path ∧ argv = path :: "app-server" :: rest.
Proof.
  unfold NewCodexAppServerCommand. cbv zeta. set (command := if String.eqb _ _ then _ else _). clearbody command.
  destruct (splitAppServerCommand command) as [args|] eqn:ES; [|done].
  destruct (first_two "codex" "exec" _); [done|].
  destruct (first_two "codex" "app-server" args) eqn:EF; [|done].
  destruct (hasShellSyntax command) eqn:HS; [done|]. simpl.
  destruct (lookPathInEnv stat look_path "codex" env) as [|path]; [done|]. intros [= <-].
  apply plain_command_words in HS as (l & blanks & E & Hl & Hb & ES').
  rewrite ES in ES'. injection ES' as ->. exists l, blanks, path.
  destruct (map _ l) as [|a [|b rest]]; try done. cbn [first_two] in EF.
  apply andb_true_iff in EF as [->%String.eqb_eq ->%String.eqb_eq]. exists rest. by split_and!.
Qed.
Lemma direct_command_is_the_shells_witness :
  let stat := fun p => if String.eqb p "/bin/codex" then Some (false, 493) else None in
  let lp := fun _ => inl "" in
  let cmd := "codex app-server 'a b'" in
  let env := ["HOME=/h"; "PATH=/usr/bin:/bin"] in
  let argv := ["/bin/codex"; "app-server"; "a b"] in
  NewCodexAppServerCommand stat lp cmd env = inr {| app_argv := argv; app_direct := true |} ∧
  ∃ l blanks path rest,
    cmd = line_text l +:+ blanks ∧ line_ok true l = true ∧ str_forall blank_byte blanks = true ∧
    map (fun w => word_value w.2) l = "codex" :: "app-server" :: rest ∧
    lookPathInEnv stat lp "codex" env = inr path ∧ argv = path :: "app-server" :: rest.
Proof.
  cbv zeta. split; [vm_compute; reflexivity|].
  apply (direct_command_is_the_shells (fun p => if String.eqb p "/bin/codex" then Some (false, 493) else None)
           (fun _ => inl "") "codex app-server 'a b'" ["HOME=/h"; "PATH=/usr/bin:/bin"] ["/bin/codex"; "app-server"; "a b"]).
  vm_compute. reflexivity.
Defined.

(** ** The capture keeps a prefix and counts the rest *)

(** Whatever is written and in whatever pieces, the capture holds the first bytes up to
    its capacity, and what it counts as dropped is everything after them. *)
Theorem capture_keeps_prefix cap chunks :
  let all := concat_map (λ s, s) chunks in
  let c := fold_left Write chunks {| cw_Cap := cap; cw_buf := ""; cw_dropped := 0 |} in
  cw_buf c = str_take (Z.to_nat cap) all ∧ cw_dropped c = slen all - slen (cw_buf c).
Proof.
  cbv zeta.
  assert (∀ c all, cw_buf c = str_take (Z.to_nat (cw_Cap c)) all → cw_dropped c = slen all - slen (cw_buf c) →
    let c' := fold_left Write chunks c in let all' := all +:+ concat_map (λ s, s) chunks in
    cw_buf c' = str_take (Z.to_nat (cw_Cap c)) all' ∧ cw_dropped c' = slen all' - slen (cw_buf c')) as H.
  { induction chunks as [|p chunks IH]; intros c all Hb Hd; [by rewrite str_app_nil_r|]. cbn [fold_left concat_map foldr].
    fold (concat_map (λ s : string, s) chunks). rewrite str_app_assoc.
    assert (cw_Cap (Write c p) = cw_Cap c) as HC by (unfold Write; by repeat case_match).
    rewrite <- HC. apply IH; clear IH; rewrite ?HC.
    all: assert (slen (all +:+ p) = slen all + slen p) as HL by (unfold slen; rewrite str_length_app; lia).
    all: assert (slen (cw_buf c) = Z.min (slen all) (Z.max 0 (cw_Cap c))) as HB
      by (rewrite Hb; unfold slen; destruct (decide (String.length all ≤ Z.to_nat (cw_Cap c))%nat);
          [rewrite str_take_all by done; lia|rewrite str_take_length by lia; lia]).
    all: unfold Write; destruct (Z.leb_spec (cw_Cap c) 0); cbn [cw_buf cw_dropped cw_Cap].
    - rewrite Hb, str_take_split. replace (Z.to_nat (cw_Cap c)) with 0%nat by lia. by rewrite str_app_nil_r.
    - destruct (Z.leb_spec (cw_Cap c - slen (cw_buf c)) 0); cbn [cw_buf].
      + rewrite Hb, str_take_split. replace (_ - _)%nat with 0%nat by (unfold slen in *; lia). by rewrite str_app_nil_r.
      + rewrite str_take_split, <- Hb. f_equal. destruct (Z.min_spec (slen p) (cw_Cap c - slen (cw_buf c))) as [[? ->]|[? ->]].
        * rewrite !str_take_all; [done|unfold slen in *; lia..].
        * f_equal. unfold slen in *. lia.
    - lia.
    - destruct (Z.leb_spec (cw_Cap c - slen (cw_buf c)) 0); cbn [cw_buf cw_dropped]; [lia|].
      assert (slen (cw_buf c +:+ str_take (Z.to_nat (Z.min (slen p) (cw_Cap c - slen (cw_buf c)))) p) =
              slen (cw_buf c) + Z.min (slen p) (cw_Cap c - slen (cw_buf c))) as ->.
      { unfold slen in *. rewrite str_length_app, str_take_length by lia. lia. }
      destruct (Z.ltb_spec (Z.min (slen p) (cw_Cap c - slen (cw_buf c))) (slen p)); lia. }
  destruct (H {| cw_Cap := cap; cw_buf := ""; cw_dropped := 0 |} "") as [H1 H2]; [cbn; by destruct (Z.to_nat cap)|done|].
  cbn [cw_Cap] in H1. rewrite !str_app_nil in *. by split.
Qed.

(** ** The pump is a bounded first-in first-out queue *)

Fixpoint pump_run (p : Pump) (evs : list PumpEvent) : option Pump :=
  match evs with [] => Some p | ev :: rest => match pump_step p ev with Some p => pump_run p rest | None => None end end.
Definition scanned (evs : list PumpEvent) : list string := omap (fun ev => match ev with ScanLine l => Some l | _ => None end) evs.
Definition scan_ended (evs : list PumpEvent) : option AgentErr :=
  last (omap (fun ev => match ev with ScanEnd e => Some e | _ => None end) evs).
Definition queued (lines : list string) : Z := foldr (fun l acc => queuedLineBytes l + acc) 0 lines.
Lemma queued_app l1 l2 : queued (l1 ++ l2) = queued l1 + queued l2.
Proof. induction l1 as [|l l1 IH]; simpl; [done|]. unfold queued in *. simpl. lia. Qed.

(** The lines received and those queued, while nothing overflowed; the error after. *)
Record pump_inv (cap : Z) (lines : list string) (ended : option AgentErr) (p : Pump) : Prop := {
  pi_cap : lq_capBytes (pump_q p) = cap;
  pi_bytes : lq_bytes (pump_q p) = queued (lq_items (pump_q p));
  pi_prefix : (pump_sent p ++ lq_items (pump_q p)) `prefix_of` lines;
  pi_open : pump_closed p = false →
    pump_sent p ++ lq_items (pump_q p) = lines ∧ queued (lq_items (pump_q p)) ≤ cap ∧
    pump_scanErr p = ended ∧ (if pump_lines p then ended = None else ended ≠ None ∧ lq_items (pump_q p) ≠ []);
  pi_closed : pump_closed p = true →
    (pump_lines p = false ∧ pump_sent p = lines ∧ ended ≠ None ∧ pump_readErr p = ended) ∨
    (pump_readErr p = Some (StdoutBacklogOverflow cap) ∧ cap < queued (lq_items (pump_q p)))
}.
Lemma pump_loop_inv cap lines ended p :
  lq_capBytes (pump_q p) = cap → lq_bytes (pump_q p) = queued (lq_items (pump_q p)) →
  pump_sent p ++ lq_items (pump_q p) = lines → queued (lq_items (pump_q p)) ≤ cap →
  pump_scanErr p = ended → (if pump_lines p then ended = None else ended ≠ None) → pump_closed p = false →
  pump_inv cap lines ended (pump_loop p).
Proof.
  intros Hc Hb Hl Hq He Hn Ho. unfold pump_loop.
  destruct (lq_items (pump_q p)) as [|l items] eqn:EI; [destruct (pump_lines p) eqn:EL|];
    split; cbn; rewrite ?EI, ?Ho, ?EL; try done; try (by rewrite Hl); auto.
  - intros _. left. rewrite app_nil_r in Hl. by split_and!.
  - intros _. split_and!; try done. by destruct (pump_lines p).
Qed.
Lemma pump_step_inv cap lines ended p ev p' :
  pump_inv cap lines ended p → pump_step p ev = Some p' →
  pump_inv cap (lines ++ match ev with ScanLine l => [l] | _ => [] end)
    (match ev with ScanEnd e => Some e | _ => ended end) p'.
Proof.
  intros [Hc Hb Hp Ho Hcl] HS. destruct ev as [l|e|]; cbn [pump_step] in HS; rewrite ?app_nil_r.
  - destruct (pump_lines p) eqn:EL; [|done]. cbn [negb] in HS. destruct (pump_closed p) eqn:EC.
    + injection HS as <-. destruct (Hcl eq_refl) as [(? & _)|[? ?]]; [congruence|].
      split; try done; [by apply prefix_app_r|by rewrite EC|by right].
    + destruct (Ho eq_refl) as (Hl & Hq & _ & ->).
      unfold push in HS. cbn [lq_bytes lq_capBytes lq_items] in HS.
      assert (queued (lq_items (pump_q p) ++ [l]) = queued (lq_items (pump_q p)) + queuedLineBytes l) as EQ
        by (rewrite queued_app; unfold queued; simpl; lia).
      destruct (Z.leb_spec (lq_bytes (pump_q p) + queuedLineBytes l) (lq_capBytes (pump_q p))); injection HS as <-;
        (split; cbn [pump_q pump_lines pump_scanErr pump_readErr pump_closed pump_sent lq_capBytes lq_items lq_bytes];
         [done|by rewrite EQ, Hb|by rewrite app_assoc, Hl|..]); try done.
      * intros _. rewrite app_assoc, Hl. split_and!; try done. by rewrite EQ, <- Hb, <- Hc.
      * intros _. right. rewrite EQ, <- Hb, <- Hc. by split.
  - destruct (pump_lines p) eqn:EL; [|done]. cbn [negb] in HS. destruct (pump_closed p) eqn:EC; injection HS as <-.
    + destruct (Hcl eq_refl) as [(? & _)|[? ?]]; [congruence|]. split; try done. by right.
    + destruct (Ho eq_refl) as (Hl & Hq & _ & _). by apply pump_loop_inv.
  - destruct (pump_closed p) eqn:EC; [done|]. destruct (Ho eq_refl) as (Hl & Hq & Hs & Hn).
    destruct (lq_items (pump_q p)) as [|l items] eqn:EI; [done|]. injection HS as <-.
    assert (pop (pump_q p) = {| lq_capBytes := lq_capBytes (pump_q p); lq_items := items;
              lq_bytes := lq_bytes (pump_q p) - queuedLineBytes l |}) as EP by (unfold pop; by rewrite EI).
    unfold queued in Hb, Hq. cbn [foldr] in Hb, Hq. fold (queued items) in Hb, Hq.
    apply pump_loop_inv; cbn; rewrite ?EP; cbn; fold (queued items); try done.
    + lia.
    + by rewrite <- app_assoc.
    + unfold queuedLineBytes, lineQueueItemOverheadBytes, slen in *. lia.
    + by destruct (pump_lines p); [|destruct Hn].
Qed.
Lemma pump_run_inv cap lines ended p evs p' :
  pump_inv cap lines ended p → pump_run p evs = Some p' →
  ∃ ended', pump_inv cap (lines ++ scanned evs) ended' p' ∧ (ended' = match scan_ended evs with Some e => Some e | None => ended end).
Proof.
  revert lines ended p. induction evs as [|ev evs IH]; intros lines ended p HI; cbn [pump_run].
  { intros [= <-]. exists ended. by rewrite app_nil_r. }
  destruct (pump_step p ev) as [p1|] eqn:ES; [|done]. intros HR. pose proof (pump_step_inv _ _ _ _ _ _ HI ES) as HI1.
  destruct (IH _ _ _ HI1 HR) as (ended' & HI' & ->). rewrite <- app_assoc in HI'.
  unfold scan_ended. destruct ev as [l|e|]; eexists; (split; [exact HI'|]); cbn [omap list_omap];
    rewrite ?last_cons; unfold scan_ended; cbn; by destruct (last _).
Qed.
Lemma new_pump_inv n : pump_inv (lq_capBytes (pump_q (new_pump n))) [] None (new_pump n).
Proof.
  split; try done; cbn.
  intros _. split_and!; try done. unfold maxAppServerBufferedBytes. cbn. destruct (Z.leb_spec n 0); lia.
Qed.

(** However the scan goroutine, the pump and the client are interleaved, the client has
    received a prefix of the scanned lines in their order; while its channel is open
    nothing is missing and the backlog is within its bound; and the channel is closed
    either with everything delivered and the error of the scan, or with the overflow
    error when the backlog exceeded its bound. *)
Theorem pump_fifo n evs p :
  pump_run (new_pump n) evs = Some p →
  let cap := if n <=? 0 then maxAppServerBufferedBytes else n in
  (pump_sent p ++ lq_items (pump_q p)) `prefix_of` scanned evs ∧
  (pump_closed p = false → pump_sent p ++ lq_items (pump_q p) = scanned evs ∧ queued (lq_items (pump_q p)) ≤ cap) ∧
  (pump_closed p = true →
     (pump_sent p = scanned evs ∧ pump_readErr p = scan_ended evs ∧ scan_ended evs ≠ None) ∨
     (pump_readErr p = Some (StdoutBacklogOverflow cap) ∧ cap < queued (lq_items (pump_q p)))).
Proof.
  intros HR. cbv zeta. destruct (pump_run_inv _ _ _ _ _ _ (new_pump_inv n) HR) as (ended & HI & HE).
  assert (ended = scan_ended evs) as -> by (rewrite HE; by destruct (scan_ended evs)).
  destruct HI as [_ _ Hp Ho Hcl]. cbn in *. split_and!; [done| |].
  - intros H. destruct (Ho H) as (? & ? & _). by split.
  - intros H. destruct (Hcl H) as [(_ & ? & ? & ?)|[? ?]]; [left|right]; by split_and!.
Qed.
Lemma pump_fifo_witness :
  let evs := [ScanLine "a"; ScanLine "b"; ClientRead; ScanEnd (PlainErr "EOF"); ClientRead] in
  let evs' := [ScanLine "a"; ScanLine "b"; ScanLine "c"] in
  (∃ p, pump_run (new_pump 0) evs = Some p ∧ pump_closed p = true ∧ pump_sent p = ["a"; "b"] ∧
        (pump_sent p ++ lq_items (pump_q p)) `prefix_of` scanned evs) ∧
  (∃ p, pump_run (new_pump 130) evs' = Some p ∧ pump_readErr p = Some (StdoutBacklogOverflow 130)).
Proof.
  cbv zeta. split; [|by eexists].
  eexists. split; [reflexivity|]. split; [done|]. split; [done|].
  exact (proj1 (pump_fifo 0 [ScanLine "a"; ScanLine "b"; ClientRead; ScanEnd (PlainErr "EOF"); ClientRead] _ eq_refl)).
Defined.

(** Once the process has closed its output, reading ends. *)
Lemma pump_drains n evs p :
  pump_run (new_pump n) evs = Some p → pump_closed p = false → pump_lines p = false →
  ∃ p', pump_run p (replicate (length (lq_items (pump_q p))) ClientRead) = Some p' ∧ pump_closed p' = true ∧
    pump_sent p' = scanned evs.
Proof.
  intros HR HC HL. destruct (pump_run_inv _ _ _ _ _ _ (new_pump_inv n) HR) as (ended & HI & _). clear HR.
  simpl in HI. revert HI HC HL. generalize (lq_capBytes (pump_q (new_pump n))) (scanned evs). intros cap lines.
  remember (length (lq_items (pump_q p))) as k eqn:Ek. revert p Ek. induction k as [|k IH]; intros p Ek HI HC HL.
  - destruct HI as [_ _ _ Ho _]. destruct (Ho HC) as (_ & _ & _ & Hn). rewrite HL in Hn.
    destruct Hn as [_ Hn]. by destruct (lq_items (pump_q p)).
  - simpl replicate. cbn [pump_run pump_step]. rewrite HC. destruct (lq_items (pump_q p)) as [|l items] eqn:EI; [done|].
    set (p1 := pump_loop _).
    assert (pump_step p ClientRead = Some p1) as ES by (unfold pump_step; by rewrite HC, EI).
    pose proof (pump_step_inv _ _ _ _ _ _ HI ES) as HI1. rewrite app_nil_r in HI1.
    assert (lq_items (pump_q p1) = items ∧ pump_lines p1 = false ∧ pump_sent p1 = pump_sent p ++ [l] ∧
            (pump_closed p1 = true → items = [])) as (EI1 & HL1 & Hs & Hn).
    { unfold p1, pump_loop, pop. cbn. rewrite EI. cbn. rewrite HL. by destruct items. }
    destruct (pump_closed p1) eqn:HC1.
    + rewrite (Hn eq_refl) in *. simpl in Ek. injection Ek as ->. exists p1. split_and!; [done..|].
      destruct HI as [_ _ _ Ho _]. destruct (Ho HC) as (Hl & _). by rewrite EI in Hl; rewrite <- Hl.
    + apply (IH p1); try done. rewrite EI1. by injection Ek.
Qed.
