(* ===== verification/AppServer.v ===== *)
(** * A session with the app-server (internal/runner/codex_app_server*.go)

    The client of `codex app-server` as a program over its calls: reading a line, writing a
    message, the clock, the contexts, the tools, the tracker refresh and the sinks of the
    run.  An environment answers in view of every exchange before.  [App] is a program with
    the client's state that may fail.

    Reads are the fuel of the two loops that read until something ends them.  encoding/json
    is an argument: the object of a line, the value and the text of JSON, and whether the
    arguments of a tool decode.  Writing a message is one call, with json.Marshal in it. *)

From S2P Require Import Prelude GoStd Payload Ops RuntimeEvents Poller RunTask Config TrackerErrors AgentErrors AppMessages AppCommand.

Class Json := {
  json_object : string → AgentErr + any_map;
  json_value : string → option any;
  json_text : any → AgentErr + string;
  json_tool_call : string → option string     (* the text of the error *)
}.

(** ** Calls *)

(** The context of the run, and the one of a single read within a turn. *)
Inductive AppCtx := RunCtx | ReadCtx.
(** What [readLineOnce] selects. *)
Inductive LineEvent :=
| CtxDone (e : AgentErr)
| TimerFired
| GotLine (line : string)
| Closed (readErr : option AgentErr).
Inductive WriteResult := Sent | NotMarshalled (e : AgentErr) | NotWritten (e : AgentErr).

(** What a tool reports to the audit sinks of its context while it runs. *)
Record ToolMutationAudit := {
  tm_OperationField : string;
  tm_NonActive : bool;
  tm_Terminal : bool;
  tm_TerminalState : string
}.
Record MutationRejected := {
  mr_OperationField : string;
  mr_Reason : string;
  mr_Found : bool;
  mr_State : string;
  mr_Terminal : bool
}.
Inductive ToolReport := Mutated (audit : ToolMutationAudit) | Rejected (r : MutationRejected) | PostStop (operationField : string).
(** The reports, and the result or the text of the error. *)
Record ToolAnswer := { ta_reports : list ToolReport; ta_result : string + string }.

Inductive AppCall :=
| CtxErr (c : AppCtx)
| CtxUntil (c : AppCtx)                       (* ctx.Deadline, as the time until it *)
| WithTimeout (d : Duration)                  (* the context of a read *)
| AwaitLine (c : AppCtx) (timer : option Duration)
| TimeNow
| Transcript (text : string)
| WriteStdin (msg : list (string * any))
| CallTool (name arguments : string)
| RefreshIssueState
| RuntimeEventSink (e : TaskEvent)
| PhaseTransitionSink (from to : string).
Definition AppAns (q : AppCall) : Type :=
  match q with
  | CtxErr _ => option AgentErr
  | CtxUntil _ => option Duration
  | WithTimeout _ | Transcript _ | RuntimeEventSink _ | PhaseTransitionSink _ _ => unit
  | AwaitLine _ _ => LineEvent
  | TimeNow => Time
  | WriteStdin _ => WriteResult
  | CallTool _ _ => ToolAnswer
  | RefreshIssueState => AgentErr + IssueStateSnapshot
  end.

(** ** The client *)

Record Client := {
  c_nextID : Z;
  c_threadID : string;
  c_turnID : string;
  c_agentModel : string;
  c_lastMessage : string;
  c_runtimeEvents : list TaskEvent;
  c_lastRuntimeEvent : string;
  c_readTimeoutMs : Z;
  c_armedAt : Time;
  c_issueExitState : option IssueStateSnapshot
}.
#[export] Instance eta_Client : Eta Client := fun r =>
  Build_Client (c_nextID r) (c_threadID r) (c_turnID r) (c_agentModel r) (c_lastMessage r) (c_runtimeEvents r)
    (c_lastRuntimeEvent r) (c_readTimeoutMs r) (c_armedAt r) (c_issueExitState r).

(** What the input of the run gives: the configuration, the working directory and prompt,
    the task's title for continuations, the tools by name with their advertised specs, and
    which hooks are set. *)
Record Session := {
  ss_codex : CommandConfig;
  ss_maxTurns : Z;
  ss_cleanTurnBudget : Z;
  ss_workdir : string;
  ss_prompt : string;
  ss_title : string;
  ss_tools : list string;
  ss_specs : list any;
  ss_refresh : bool;
  ss_eventSink : bool;
  ss_phaseSink : bool;
  ss_pid : Z
}.
Definition approvalPolicy (s : Session) : any := cc_ApprovalPolicy (ss_codex s).

Inductive Res (A : Type) := Got (a : A) | Bad (e : AgentErr) | NoFuel.
Arguments Got {A} a.
Arguments Bad {A} e.
Arguments NoFuel {A}.
Definition App (A : Type) : Type := Client → Asking AppAns (Client * Res A).

Definition app_ret {A} (a : A) : App A := fun c => Ret (c, Got a).
Definition app_fail {A} (e : AgentErr) : App A := fun c => Ret (c, Bad e).
Definition app_bind {A B} (p : App A) (f : A → App B) : App B := fun c =>
  ask_bind (p c) (fun cr => match cr.2 with
                            | Got a => f a cr.1
                            | Bad e => Ret (cr.1, Bad e)
                            | NoFuel => Ret (cr.1, NoFuel)
                            end).
(** [p] with its error as a value. *)
Definition app_try {A} (p : App A) : App (AgentErr + A) := fun c =>
  ask_bind (p c) (fun cr => Ret (cr.1, match cr.2 with
                                       | Got a => Got (inr a)
                                       | Bad e => Got (inl e)
                                       | NoFuel => NoFuel
                                       end)).
Definition app_call (q : AppCall) : App (AppAns q) := fun c => Ask q (fun a => Ret (c, Got a)).
Definition app_get {A} (f : Client → A) : App A := fun c => Ret (c, Got (f c)).
Definition app_set (f : Client → Client) : App unit := fun c => Ret (f c, Got tt).

Notation "'let$' x := p 'in' q" := (app_bind p (fun x => q))
  (at level 200, x binder, p at level 100, q at level 200) : go_scope.
Notation "p '>>$' q" := (app_bind p (fun _ => q)) (at level 199, right associativity) : go_scope.

Section Client.
Context `{Json, Sprint, Calendar} (s : Session).

(** ** Events (codex_app_server_events.go) *)

Definition recordRuntimeEvent (event : string) (payload : list (string * any)) : App unit :=
  let e := {| te_Event := event; te_Payload := obj payload |} in
  app_set (fun c => c <| c_runtimeEvents := c_runtimeEvents c ++ [e] |> <| c_lastRuntimeEvent := event |>) >>$
  if ss_eventSink s then app_call (RuntimeEventSink e) else app_ret tt.
Definition withRuntimeContext (c : Client) (payload : list (string * any)) : list (string * any) :=
  let payload := if negb (has_key (Some payload) "thread_id") && negb (String.eqb (c_threadID c) "")
                 then put payload "thread_id" (AString (c_threadID c)) else payload in
  if negb (has_key (Some payload) "turn_id") && negb (String.eqb (c_turnID c) "")
  then put payload "turn_id" (AString (c_turnID c)) else payload.
Definition record_in_context (event : string) (payload : list (string * any)) : App unit :=
  let$ payload := app_get (fun c => withRuntimeContext c payload) in recordRuntimeEvent event payload.

Definition msg_params (msg : any_map) : any_map := as_map (map_get msg "params").
Definition recordRuntimeMessage (event : string) (msg : any_map) : App unit :=
  record_in_context event (normalizeRuntimePayload (msg_params msg)).
Definition recordModelRerouted (msg : any_map) : App unit :=
  let to := TrimSpace (as_str (map_get (msg_params msg) "toModel")) in
  (if String.eqb to "" then app_ret tt else app_set (fun c => c <| c_agentModel := to |>)) >>$
  let$ model := app_get c_agentModel in
  let payload := normalizeRuntimePayload (msg_params msg) in
  record_in_context EventNotification (if String.eqb model "" then payload else put payload "agent_model" (AString model)).
Definition recordOtherRuntimeMessage (msg : any_map) (raw : string) : App unit :=
  record_in_context EventOtherMessage (put (normalizeRuntimePayload msg) "raw" (AString (trimProtocolLine raw))).
Definition recordMalformedRuntimeLine (raw : string) (err : AgentErr) : App unit :=
  if negb (protocolMessageCandidate raw) then app_ret tt
  else record_in_context EventMalformed
         [("raw", AString (trimProtocolLine raw)); ("error", AString (agent_error_text err))].
Definition recordInputRequiredMessage (method : string) (msg : any_map) : App unit :=
  let$ c := app_get id in
  let thread := c_threadID c in
  let turn := c_turnID c in
  recordRuntimeEvent EventTurnInputRequired
    ([("method", AString method)]
     ++ match msg_params msg with None => [] | params => [("params", obj (normalizeRuntimePayload params))] end
     ++ (if String.eqb thread "" then [] else [("thread_id", AString thread)])
     ++ (if String.eqb turn "" then []
         else ("turn_id", AString turn)
              :: (if String.eqb thread "" then [] else [("session_id", AString (thread +:+ "-" +:+ turn))]))).
Definition recordUnsupportedToolCall (name arguments : string) : App unit :=
  record_in_context EventUnsupportedToolCall
    (("tool", AString name)
     :: (if String.eqb arguments "" then []
         else match json_value arguments with
              | Some parsed => [("arguments", parsed)]
              | None => [("arguments_raw", AString arguments)]
              end)).
Definition recordStartupFailed (phase : string) (err : AgentErr) : App unit :=
  record_in_context EventStartupFailed [("phase", AString phase); ("error", AString (agent_error_text err))].
Definition recordPhaseTransition (from to : string) : App unit :=
  if ss_phaseSink s then app_call (PhaseTransitionSink from to) else app_ret tt.
Definition recordSafeTurnFailure (event : string) (params : any_map) : App unit :=
  let$ now := app_call TimeNow in record_in_context event (safeTurnFailurePayload params now).

(** ** Transport (codex_app_server_transport.go) *)

Definition send (msg : list (string * any)) : App unit :=
  let$ r := app_call (WriteStdin msg) in
  match r with
  | Sent => app_ret tt
  | NotMarshalled e => app_fail e
  | NotWritten e => app_fail (WrapErr ("write codex app-server stdin: " +:+ agent_error_text e) e)
  end.
Definition notify (method : string) (params : any) : App unit := send (notify_message method params).

Definition deadlineDuration (c : AppCtx) : App (option Duration) :=
  let$ until := app_call (CtxUntil c) in
  app_ret (match until with Some d => Some (if d <=? 0 then 0 else d) | None => None end).
Definition EOF : AgentErr := PlainErr "EOF".
Definition readLineOnce (c : AppCtx) (timer : option Duration) : App string :=
  let$ ev := app_call (AwaitLine c timer) in
  match ev with
  | CtxDone e => app_fail e
  | TimerFired => let$ ms := app_get c_readTimeoutMs in app_fail (AppServerReadTimeout ms)
  | GotLine line => app_ret line
  | Closed readErr =>
      let$ ctxErr := app_call (CtxErr c) in
      match ctxErr with
      | Some e => if is_deadline e then app_fail e else app_fail (default EOF readErr)
      | None => app_fail (default EOF readErr)
      end
  end.
Definition readLine (c : AppCtx) : App string :=
  let$ ms := app_get c_readTimeoutMs in
  let readTimeout := wrap64 (ms * Millisecond) in
  let$ deadline := deadlineDuration c in
  let sooner := match deadline with Some d => d <? readTimeout | None => false end in
  readLineOnce c (if (ms <=? 0) || sooner then None else Some readTimeout).

(** A message with its line, or a line that is no object: [None] is an empty line, which
    the reader hands over as a nil slice. *)
Inductive Incoming :=
| InMessage (msg : any_map) (raw : string)
| InGarbage (raw : option string) (err : AgentErr).
Definition readProtocolMessage (c : AppCtx) : App Incoming :=
  let$ done := app_call (CtxErr c) in
  match done with
  | Some e => app_fail e
  | None =>
      let$ line := readLine c in
      app_call (Transcript line) >>$
      app_call (Transcript newline) >>$
      app_ret (match json_object line with
               | inr msg => InMessage msg line
               | inl err => InGarbage (if String.eqb line "" then None else Some line)
                              (CategoryError CategoryResponseError "decode codex app-server message" (Some err))
               end)
  end.
Definition decode_error (err : AgentErr) : AgentErr :=
  WrapErr ("decode codex app-server message: " +:+ agent_error_text err) err.
Definition readMessage (c : AppCtx) : App any_map :=
  let$ r := readProtocolMessage c in
  match r with
  | InMessage msg _ => app_ret msg
  | InGarbage (Some _) err => app_fail (decode_error err)
  | InGarbage None err => app_fail err
  end.

(** ** Answering the agent (codex_app_server_approval.go) *)

Definition reply_result (msg : any_map) (result : any) : App unit := send (result_message (map_get msg "id") result).
Definition recordApprovalAutoApproved (method : string) (msg : any_map) (result : list (string * any)) : App unit :=
  let payload := put (put (normalizeRuntimePayload (msg_params msg)) "method" (AString method))
                   "result" (normalizeRuntimeValue (obj result)) in
  record_in_context EventApprovalAutoApproved
    (if String.eqb method toolUserInputRequestMethod then put payload "decision" (AString "Approve this Session") else payload).
Definition replyServerRequest (msg : any_map) : App unit :=
  let method := as_str (map_get msg "method") in
  match protocolServerRequestResult method msg (approvalPolicy s) with
  | Some result =>
      reply_result msg (obj result) >>$
      if protocolServerRequestAutoApproved method (approvalPolicy s)
      then recordApprovalAutoApproved method msg result else app_ret tt
  | None => send (error_message (map_get msg "id") (-32601) ("Method not found: " +:+ method))
  end.
(** The handlers below return whether the turn has ended; ending with an error is a
    failure. *)
Definition input_required (method : string) (msg : any_map) : App bool :=
  recordInputRequiredMessage method msg >>$ app_fail (AgentInputRequired method).
Definition handleToolUserInputRequest (msg : any_map) : App bool :=
  match protocolToolUserInputApprovalResult msg (approvalPolicy s) with
  | None => input_required toolUserInputRequestMethod msg
  | Some result =>
      reply_result msg (obj result) >>$
      recordApprovalAutoApproved toolUserInputRequestMethod msg result >>$
      app_ret false
  end.
Definition handleServerRequest (msg : any_map) (method : string) : App bool :=
  if String.eqb method toolUserInputRequestMethod then handleToolUserInputRequest msg
  else
    replyServerRequest msg >>$
    if inputRequiredServerRequest method then input_required method msg
    else if approvalDeclinedServerRequest method (approvalPolicy s) then input_required method msg
    else app_ret false.

(** ** Tools *)

Definition dynamicToolResult (success : bool) (output : string) : AgentErr + string :=
  json_text (obj [("success", ABool success); ("output", AString output);
                  ("contentItems", ASlice [obj [("type", AString "inputText"); ("text", AString output)]])]).
(** A payload that does not marshal is reported as the failure of marshalling it. *)
Definition dynamicToolFailure (payload : any) : AgentErr + string :=
  dynamicToolResult false
    (match json_text payload with
     | inr body => body
     | inl err => "{" +:+ quote "error" +:+ ":{" +:+ quote "message" +:+ ":" +:+ quote "Linear GraphQL tool execution failed."
                  +:+ "," +:+ quote "reason" +:+ ":" +:+ quote (agent_error_text err) +:+ "}}"
     end).
Definition mutationAuditPayload (tool : string) (a : ToolMutationAudit) : list (string * any) :=
  [("tool", AString tool)]
  ++ (if String.eqb (tm_OperationField a) "" then [] else [("operation_field", AString (tm_OperationField a))])
  ++ (if tm_NonActive a then [("current_issue_non_active_state_update", ABool true)] else [])
  ++ (if tm_Terminal a then [("current_issue_terminal_state_update", ABool true)] else [])
  ++ (if String.eqb (tm_TerminalState a) "" then [] else [("current_issue_terminal_state", AString (tm_TerminalState a))]).
Definition mutationRejectedPayload (tool : string) (r : MutationRejected) : list (string * any) :=
  [("tool", AString tool); ("reason", AString (mr_Reason r)); ("found", ABool (mr_Found r)); ("terminal", ABool (mr_Terminal r))]
  ++ (if String.eqb (mr_OperationField r) "" then [] else [("operation_field", AString (mr_OperationField r))])
  ++ (if String.eqb (mr_State r) "" then [] else [("state", AString (mr_State r))]).
Definition postStopMutationPayload (tool operationField : string) : list (string * any) :=
  ("tool", AString tool) :: (if String.eqb operationField "" then [] else [("operation_field", AString operationField)]).
(** The sinks of [withMutationAuditSink]. *)
Definition mutation_sink (name : string) (r : ToolReport) : App unit :=
  match r with
  | Mutated audit => record_in_context EventToolCallMutation (mutationAuditPayload name audit)
  | Rejected rejection => record_in_context EventToolCallMutationRejected (mutationRejectedPayload name rejection)
  | PostStop field => record_in_context EventToolCallMutationPostOperatorTerminalStop (postStopMutationPayload name field)
  end.
Fixpoint mutation_sinks (name : string) (reports : list ToolReport) : App unit :=
  match reports with [] => app_ret tt | r :: rest => mutation_sink name r >>$ mutation_sinks name rest end.

Definition lift_result {A} (r : AgentErr + A) : App A := match r with inl e => app_fail e | inr a => app_ret a end.
Definition resolveDynamicToolResult (name arguments : string) : App string :=
  if negb (bool_decide (name ∈ ss_tools s))
  then recordUnsupportedToolCall name arguments >>$
       lift_result (dynamicToolResult false ("unsupported dynamic tool: " +:+ name))
  else match json_tool_call arguments with
       | Some err => lift_result (dynamicToolFailure (AString err))
       | None =>
           let$ answer := app_call (CallTool name arguments) in
           mutation_sinks name (ta_reports answer) >>$
           match ta_result answer with
           | inr result => app_ret result
           | inl err => lift_result (dynamicToolFailure (AString err))
           end
       end.
Definition appServerToolCallArguments (params : any_map) : string :=
  match map_get params "arguments" with
  | ANil => "{}"
  | raw => match json_text raw with inr b => b | inl _ => "{}" end
  end.
Definition replyDynamicToolOutput (msg params : any_map) (result : string) : App unit :=
  let payload := match json_value result with
                 | Some payload => payload
                 | None => obj [("success", ABool false); ("output", AString result)]
                 end in
  if has_key msg "id" then reply_result msg payload
  else notify "item/tool/call/output" (obj [("call_id", map_get params "call_id"); ("output", payload)]).
Definition handleDynamicToolCall (msg : any_map) : App unit :=
  let$ done := app_call (CtxErr RunCtx) in
  match done with
  | Some e => app_fail e
  | None =>
      let params := msg_params msg in
      let$ result := resolveDynamicToolResult (appServerToolCallName params) (appServerToolCallArguments params) in
      replyDynamicToolOutput msg params result
  end.

Definition handleNotification (msg : any_map) : App unit :=
  if String.eqb (as_str (map_get msg "method")) "deprecationNotice" then app_ret tt
  else match first_some (text_field (msg_params msg)) ["lastAssistantMessage"; "last_message"; "message"; "summary"] with
       | Some text => app_set (fun c => c <| c_lastMessage := text |>)
       | None => app_ret tt
       end.

(** ** A request of the client *)

Definition dispatchInterleavedMessage (msg : any_map) : App bool :=
  match serverRequestMethod msg with
  | None => handleNotification msg >>$ app_ret false
  | Some method =>
      if String.eqb method "item/tool/call" then handleDynamicToolCall msg >>$ app_ret false
      else handleServerRequest msg method
  end.
Fixpoint await_response (fuel : nat) (id : Z) : App any_map :=
  match fuel with
  | O => fun c => Ret (c, NoFuel)
  | S fuel =>
      let$ msg := readMessage RunCtx in
      match responseForID msg id with
      | Some (inl e) => app_fail e
      | Some (inr result) => app_ret result
      | None => let$ done := dispatchInterleavedMessage msg in
                if done then app_ret None else await_response fuel id
      end
  end.
(** [params] is [None] when it cannot be written as JSON. *)
Definition not_json : AgentErr := PlainErr "json: error calling MarshalJSON for type workflow.CodexSandboxPolicy".
Definition request (fuel : nat) (method : string) (params : option any) : App any_map :=
  let$ id := app_get c_nextID in
  app_set (fun c => c <| c_nextID := c_nextID c + 1 |>) >>$
  match params with
  | None => app_fail not_json
  | Some params => send (call_message id method params) >>$ await_response fuel id
  end.

(** ** A turn (codex_app_server_turn.go) *)

Definition handleTurnNotification (msg : any_map) (method : string) : App bool :=
  if inputRequiredNotification method msg then input_required method msg
  else
    handleNotification msg >>$
    (if String.eqb method "model/rerouted" then recordModelRerouted msg else recordRuntimeMessage EventNotification msg) >>$
    app_ret false.
Definition handleTurnMethod (msg : any_map) (method : string) : App bool :=
  if has_key msg "id" then handleServerRequest msg method else handleTurnNotification msg method.
Definition dispatchTurnMessage (msg : any_map) (raw : string) : App bool :=
  let method := as_str (map_get msg "method") in
  let params := msg_params msg in
  if String.eqb method "" then recordOtherRuntimeMessage msg raw >>$ app_ret false
  else if String.eqb method "turn/completed" then
    let$ now := app_call TimeNow in
    match completedTurnError msg now with
    | Some err => recordSafeTurnFailure EventTurnEndedWithError params >>$ app_fail err
    | None => handleNotification msg >>$ recordRuntimeMessage EventTurnCompleted msg >>$ app_ret true
    end
  else if String.eqb method "turn/failed" then
    recordSafeTurnFailure EventTurnFailed params >>$
    app_fail (CategoryError CategoryTurnFailed (method +:+ ": " +:+ safeTurnReason params) None)
  else if String.eqb method "turn/cancelled" then
    recordSafeTurnFailure EventTurnCancelled params >>$
    app_fail (CategoryError CategoryTurnCancelled (method +:+ ": " +:+ safeTurnReason params) None)
  else if String.eqb method "item/tool/call" then handleDynamicToolCall msg >>$ app_ret false
  else handleTurnMethod msg method.

Definition turnStreamDeadline : AppMessages.turnStreamDeadline :=
  turn_stream_deadline (cc_TurnTimeoutMs (ss_codex s)) (cc_StallTimeoutMs (ss_codex s)).
Definition resolveTurnReadResult (parentErr readCtxErr : option AgentErr) (read : AgentErr + Incoming)
    (deadline : AppMessages.turnStreamDeadline) : App Incoming :=
  match parentErr with
  | Some e => app_fail e
  | None =>
      let without_line (readErr : AgentErr) : App Incoming :=
        if isAppServerReadTimeout readErr then app_fail readErr
        else if (0 <? td_timeout deadline) && ctx_expired readCtxErr then
          let$ now := app_call TimeNow in
          let$ c := app_get id in
          app_fail (deadline_err deadline (time_Sub now (c_armedAt c)) (c_lastRuntimeEvent c) (Some readErr))
        else app_fail readErr in
      match read with
      | inl readErr => without_line readErr
      | inr (InGarbage None readErr) => without_line readErr
      | inr incoming => app_ret incoming
      end
  end.
Definition read_in (c : AppCtx) (deadline : AppMessages.turnStreamDeadline) : App Incoming :=
  let$ saved := app_get c_readTimeoutMs in
  (if 0 <? cc_StallTimeoutMs (ss_codex s) then app_set (fun c => c <| c_readTimeoutMs := 0 |>) else app_ret tt) >>$
  let$ read := app_try (readProtocolMessage c) in
  app_set (fun c => c <| c_readTimeoutMs := saved |>) >>$
  let$ parentErr := app_call (CtxErr RunCtx) in
  let$ readCtxErr := app_call (CtxErr c) in
  resolveTurnReadResult parentErr readCtxErr read deadline.
Definition readTurnMessage : App Incoming :=
  let deadline := turnStreamDeadline in
  if td_timeout deadline <=? 0 then read_in RunCtx deadline
  else
    let$ now := app_call TimeNow in
    let$ armed := app_get c_armedAt in
    let elapsed := time_Sub now armed in
    let remaining := td_timeout deadline -i elapsed in
    if remaining <=? 0 then
      let$ parentErr := app_call (CtxErr RunCtx) in
      match parentErr with
      | Some e => app_fail e
      | None => let$ last := app_get c_lastRuntimeEvent in app_fail (deadline_err deadline elapsed last None)
      end
    else app_call (WithTimeout remaining) >>$ read_in ReadCtx deadline.

Definition arm : App unit := let$ now := app_call TimeNow in app_set (fun c => c <| c_armedAt := now |>).
(** One round of [awaitTurnCompletion]: whether the turn has ended. *)
Definition turn_round : App bool :=
  let$ incoming := readTurnMessage in
  match incoming with
  | InGarbage (Some raw) err =>
      if negb (protocolMessageCandidate raw) then app_fail (decode_error err)
      else recordMalformedRuntimeLine raw err >>$ arm >>$ app_ret false
  | InGarbage None err => app_fail err
  | InMessage msg raw =>
      let$ done := dispatchTurnMessage msg raw in
      if done then app_ret true else arm >>$ app_ret false
  end.
Fixpoint turn_rounds (fuel : nat) : App unit :=
  match fuel with
  | O => fun c => Ret (c, NoFuel)
  | S fuel => let$ done := turn_round in if done then app_ret tt else turn_rounds fuel
  end.
Definition awaitTurnCompletion (fuel : nat) : App unit := arm >>$ turn_rounds fuel.

(** ** The session (codex_app_server.go) *)

Definition wrapped (text : string) (e : AgentErr) : AgentErr := WrapErr (text +:+ agent_error_text e) e.
Definition or_startup_failed {A} (record : bool) (phase text : string) (p : App A) : App A :=
  let$ r := app_try p in
  match r with
  | inr a => app_ret a
  | inl e => (if record then recordStartupFailed phase e else app_ret tt) >>$
             app_fail (if String.eqb text "" then e else wrapped text e)
  end.
Definition PhaseInitializingSession : string := "InitializingSession".
Definition PhaseStreamingTurn : string := "StreamingTurn".

Definition startThread (fuel : nat) : App string :=
  or_startup_failed true "initialize" "codex app-server initialize: " (request fuel "initialize" (Some buildInitializeParams)) >>$
  or_startup_failed true "initialized" "" (notify "initialized" (obj [])) >>$
  let$ threadResult := or_startup_failed true "thread/start" "codex app-server thread/start: "
    (request fuel "thread/start" (Some (buildThreadStartParams (ss_codex s) (ss_workdir s) (ss_specs s) (approvalPolicy s)))) in
  let$ threadID := or_startup_failed true "thread/start" "codex app-server thread/start: "
    (lift_result (extractString threadResult "thread" "id")) in
  app_set (fun c => c <| c_threadID := threadID |> <| c_agentModel := as_str (map_get threadResult "model") |>) >>$
  recordPhaseTransition PhaseLaunchingAgentProcess PhaseInitializingSession >>$
  app_ret threadID.

Definition startTurn (fuel : nat) (threadID : string) (turn : Z) : App string :=
  let$ turnResult := or_startup_failed (turn =? 1) "turn/start" "codex app-server turn/start: "
    (request fuel "turn/start"
       (buildTurnStartParams (ss_codex s) (ss_workdir s) threadID (ss_title s) (ss_prompt s) turn (approvalPolicy s))) in
  or_startup_failed (turn =? 1) "turn/start" "codex app-server turn/start: "
    (lift_result (extractString turnResult "turn" "id")).

Definition recordFirstTurnStarted (threadID turnID : string) : App unit :=
  let$ model := app_get c_agentModel in
  recordRuntimeEvent EventSessionStarted
    ([("session_id", AString (threadID +:+ "-" +:+ turnID)); ("thread_id", AString threadID);
      ("turn_id", AString turnID); ("agent_provider", AString "codex-app-server")]
     ++ (if String.eqb model "" then [] else [("agent_model", AString model)])
     ++ (if 0 <? ss_pid s then [("codex_app_server_pid", AInt (ss_pid s))] else [])) >>$
  recordPhaseTransition PhaseInitializingSession PhaseStreamingTurn.
Definition recordTurnStarted (threadID turnID : string) (turn : Z) : App unit :=
  recordRuntimeEvent EventTurnStarted
    [("session_id", AString (threadID +:+ "-" +:+ turnID)); ("thread_id", AString threadID);
     ("turn_id", AString turnID); ("turn_number", AInt turn)].

(** Whether to go on with another turn. *)
Definition runSingleTurn (fuel : nat) (threadID : string) (turn : Z) : App bool :=
  let$ turnID := startTurn fuel threadID turn in
  app_set (fun c => c <| c_turnID := turnID |>) >>$
  (if turn =? 1 then recordFirstTurnStarted threadID turnID else app_ret tt) >>$
  recordTurnStarted threadID turnID turn >>$
  awaitTurnCompletion fuel >>$
  if negb (ss_refresh s) then app_ret false
  else
    let$ r := app_call RefreshIssueState in
    match r with
    | inl e => app_fail (wrapped "codex app-server refresh issue state: " e)
    | inr snapshot =>
        if snap_Active snapshot then app_ret true
        else app_set (fun c => c <| c_issueExitState := Some snapshot |>) >>$ app_ret false
    end.
(** The turns from [turn] on, at most [more] of them. *)
Fixpoint run_turns (fuel more : nat) (threadID : string) (turn : Z) : App unit :=
  match more with
  | O => app_ret tt
  | S more =>
      let$ keepGoing := runSingleTurn fuel threadID turn in
      if keepGoing then run_turns fuel more threadID (turn + 1) else app_ret tt
  end.
Definition turnLimit : Z := effectiveTurnLimit (ss_maxTurns s) (ss_cleanTurnBudget s).
Definition client_run (fuel : nat) : App unit :=
  let$ threadID := startThread fuel in run_turns fuel (Z.to_nat turnLimit) threadID 1.
Definition initSession : Client :=
  {| c_nextID := 1; c_threadID := ""; c_turnID := ""; c_agentModel := ""; c_lastMessage := ""; c_runtimeEvents := [];
     c_lastRuntimeEvent := ""; c_readTimeoutMs := cc_ReadTimeoutMs (ss_codex s); c_armedAt := time_zero;
     c_issueExitState := None |}.
Definition summary (c : Client) : string :=
  if blank (c_lastMessage c) then "codex app-server completed" else TrimSpace (c_lastMessage c).
(** The client's part of [Run]: the session, then the result from what the client holds,
    the capture and how the process ended. *)
Definition session_result (capture : cappedWriter) (c : Client) : RunnerResult :=
  let '(head, tail) := headTail (cw_buf capture) in
  {| res_Summary := summary c; res_RuntimeEvents := c_runtimeEvents c; res_IssueExitState := c_issueExitState c;
     res_OutputBytes := slen (cw_buf capture); res_OutputDropped := cw_dropped capture;
     res_OutputHead := head; res_OutputTail := tail |}.
End Client.
