(* ===== verification/AppServerProps.v ===== *)
(** * Properties of a session

    [only allowed p] is a property of a program, whatever the environment: every call it
    makes is allowed and it does not run out of fuel.  [sat] is the logic of TrackerErrors
    for programs with the client's state.  With them: requests of the agent are answered
    before the client reads again, turns start only when the tracker says the issue is
    active, every wait is bounded, and enough fuel is the number of lines plus one. *)

From S2P Require Import Prelude GoStd Payload Ops RuntimeEvents Poller RunTask Config TrackerErrors AgentErrors AppMessages AppCommand AppServer.

(** ** Programs whose calls are all of one kind *)

Fixpoint only_ask {A} (allowed : AppCall → Prop) (R : Client → Res A → Prop) (p : Asking AppAns (Client * Res A)) : Prop :=
  match p with
  | Ret cr => R cr.1 cr.2
  | Ask q k => allowed q ∧ ∀ a, only_ask allowed R (k a)
  end.
(** The read timeout is the same after as before. *)
Definition same_timeout (c c' : Client) : Prop := c_readTimeoutMs c' = c_readTimeoutMs c.
Definition ends_as {A} (c c' : Client) (r : Res A) : Prop := r ≠ NoFuel ∧ same_timeout c c'.
Definition only {A} (allowed : AppCall → Prop) (p : App A) : Prop := ∀ c, only_ask allowed (ends_as c) (p c).

Lemma only_ask_bind {A B} allowed R R' (p : Asking AppAns (Client * Res A)) (f : Client * Res A → Asking AppAns (Client * Res B)) :
  only_ask allowed R p → (∀ c r, R c r → only_ask allowed R' (f (c, r))) → only_ask allowed R' (ask_bind p f).
Proof.
  intros Hp Hf. induction p as [[c r]|q k IH]; simpl in *; [by apply Hf; apply Hp|]. split; [apply Hp|]. intros a. apply IH, Hp.
Qed.
Lemma only_ask_mono {A} (P P' : AppCall → Prop) (R R' : Client → Res A → Prop) (p : Asking AppAns (Client * Res A)) :
  only_ask P R p → (∀ q, P q → P' q) → (∀ c r, R c r → R' c r) → only_ask P' R' p.
Proof.
  intros Hp HP HR. induction p as [cr|q k IH]; simpl in *; [auto|]. destruct Hp. split; auto.
Qed.
Lemma only_bind {A B} allowed (p : App A) (f : A → App B) :
  only allowed p → (∀ a, only allowed (f a)) → only allowed (app_bind p f).
Proof.
  intros Hp Hf c. eapply only_ask_bind; [apply Hp|]. intros c' [a|e|] [Hr Hc]; [|done|done].
  eapply only_ask_mono; [apply Hf|done|]. unfold ends_as, same_timeout. cbn. intros ? ? [? ?]. split; congruence.
Qed.
Lemma only_try {A} allowed (p : App A) : only allowed p → only allowed (app_try p).
Proof. intros Hp c. eapply only_ask_bind; [apply Hp|]. by intros c' [a|e|] [Hr Hc]. Qed.
Lemma only_asks allowed q : allowed q → only allowed (app_call q).
Proof. intros Hq c. by split. Qed.
Lemma only_ret {A} allowed (a : A) : only allowed (app_ret a).
Proof. by intros c. Qed.
Lemma only_fail {A} allowed e : only allowed (app_fail (A := A) e).
Proof. by intros c. Qed.
Lemma only_get {A} allowed (f : Client → A) : only allowed (app_get f).
Proof. by intros c. Qed.
Lemma only_set allowed f : (∀ c, same_timeout c (f c)) → only allowed (app_set f).
Proof. intros Hf c. by split. Qed.
Lemma only_mono {A} (P P' : AppCall → Prop) (p : App A) : only P p → (∀ q, P q → P' q) → only P' p.
Proof. intros Hp HP c. by eapply only_ask_mono. Qed.
Create HintDb app.
#[export] Hint Resolve only_try only_ret only_fail only_get : app.
(** Splits a program into its calls and the branches it takes. *)
Ltac only_step :=
  match goal with
  | |- only _ (app_bind _ _) => apply only_bind; [|intros ?]
  | |- only _ (app_call _) => apply only_asks
  | |- only _ (app_try _) => apply only_try
  | |- only _ (app_set _) => apply only_set; intros ?; reflexivity
  | |- only _ (match ?x with _ => _ end) => destruct x
  | |- only _ (if ?x then _ else _) => destruct x
  end.
Ltac only_solve := repeat (first [progress (auto with app) | only_step | exact I]).

(** ** The logic *)

Section Sat.
Context (G : Allowed AppAns) (srv : Server AppAns).
Definition sat {A} (p : App A) (log : list (Exchange AppAns)) (c : Client)
    (Q : list (Exchange AppAns) → Client → Res A → Prop) : Prop :=
  holds G srv log (p c) (λ log' cr, Q log' cr.1 cr.2).

Lemma sat_bind {A B} (p : App A) (f : A → App B) log c Q :
  sat p log c (λ log' c' r, match r with
                            | Got a => sat (f a) log' c' Q
                            | Bad e => Q log' c' (Bad e)
                            | NoFuel => Q log' c' NoFuel
                            end) → sat (app_bind p f) log c Q.
Proof. intros H. apply holds_bind. eapply holds_mono; [exact H|]. by intros log' [c' [a|e|]]. Qed.
Lemma sat_try {A} (p : App A) log c (Q : _ → _ → Res (AgentErr + A) → Prop) :
  sat p log c (λ log' c' r, Q log' c' (match r with Got a => Got (inr a) | Bad e => Got (inl e) | NoFuel => NoFuel end)) →
  sat (app_try p) log c Q.
Proof. intros H. apply holds_bind. eapply holds_mono; [exact H|]. by intros log' [c' [a|e|]]. Qed.
Lemma sat_call q log c Q :
  G log q → (∀ a, a = srv log q → Q (log ++ [Ex q a]) c (Got a)) → sat (app_call q) log c Q.
Proof. intros Hq H. split; [done|]. by apply H. Qed.
Lemma sat_get {A} (f : Client → A) log c (Q : _ → _ → _ → Prop) : Q log c (Got (f c)) → sat (app_get f) log c Q.
Proof. done. Qed.
Lemma sat_ret {A} (a : A) log c (Q : _ → _ → _ → Prop) : Q log c (Got a) → sat (app_ret a) log c Q.
Proof. done. Qed.
Lemma sat_set f log c (Q : _ → _ → _ → Prop) : Q log (f c) (Got tt) → sat (app_set f) log c Q.
Proof. done. Qed.
Lemma sat_mono {A} (p : App A) log c (Q Q' : _ → _ → _ → Prop) :
  sat p log c Q → (∀ log' c' r, Q log' c' r → Q' log' c' r) → sat p log c Q'.
Proof. intros H HQ. eapply holds_mono; [exact H|]. intros log' [c' r]. apply HQ. Qed.
(** A property of logs that the allowed calls keep. *)
Lemma sat_only {A} (allowed : AppCall → Prop) (p : App A) (P : list (Exchange AppAns) → Prop) log c :
  only allowed p → (∀ log q a, allowed q → P log → G log q ∧ P (log ++ [Ex q a])) → P log →
  sat p log c (λ log' c' r, P log' ∧ r ≠ NoFuel ∧ same_timeout c c').
Proof.
  intros Hp HP. unfold sat. specialize (Hp c). revert log Hp. generalize (p c). intros m.
  induction m as [[c' r]|q k IH]; intros log Hp Hlog; simpl in *; [by destruct Hp|]. destruct Hp as [Hq Hk].
  destruct (HP log q (srv log q) Hq Hlog). split; [done|]. by apply IH.
Qed.
(** One of two updates of the client. *)
Lemma sat_set_if {B} (b : bool) g (f : unit → App B) log c Q :
  (∀ c', sat (f tt) log c' Q) → sat (app_bind (if b then app_set g else app_ret tt) f) log c Q.
Proof. intros Hf. destruct b; apply sat_bind; [apply sat_set|apply sat_ret]; apply Hf. Qed.
Lemma sat_requests {A} (p : App A) log c Q :
  sat p log c Q → ∀ before q a after,
    (TrackerErrors.run srv log (p c)).1 = before ++ Ex q a :: after → (length log ≤ length before)%nat → G before q.
Proof. apply holds_requests. Qed.
End Sat.

(** ** Calls without a read, a turn, a refresh or a timeout *)

(** The method of a message, when it has one. *)
Definition method_of (m : list (string * any)) : option any := assoc m "method".
Definition starts_turn (m : list (string * any)) : bool :=
  match method_of m with Some (AString method) => String.eqb method "turn/start" | _ => false end.
Definition soft (q : AppCall) : Prop :=
  match q with
  | AwaitLine _ _ | RefreshIssueState | WithTimeout _ => False
  | WriteStdin m => starts_turn m = false
  | _ => True
  end.

Section Programs.
Context `{Json, Sprint, Calendar} (s : Session).

Lemma soft_send m : starts_turn m = false → only soft (send m).
Proof. intros Hm. unfold send. only_solve. Qed.
Lemma soft_event event payload : only soft (recordRuntimeEvent s event payload).
Proof. unfold recordRuntimeEvent. only_solve. Qed.
#[local] Hint Resolve soft_event : app.
Lemma soft_in_context event payload : only soft (record_in_context s event payload).
Proof. unfold record_in_context. only_solve. Qed.
#[local] Hint Resolve soft_in_context : app.
Lemma soft_failure event params : only soft (recordSafeTurnFailure s event params).
Proof. unfold recordSafeTurnFailure. only_solve. Qed.
Lemma soft_phase from to : only soft (recordPhaseTransition s from to).
Proof. unfold recordPhaseTransition. only_solve. Qed.
Lemma soft_reply msg result : only soft (reply_result msg result).
Proof. by apply soft_send. Qed.
Lemma soft_notification msg : only soft (handleNotification msg).
Proof. unfold handleNotification. only_solve. Qed.
Lemma soft_input_required method msg : only soft (input_required s method msg).
Proof. unfold input_required, recordInputRequiredMessage. only_solve. Qed.
#[local] Hint Resolve soft_failure soft_phase soft_reply soft_notification soft_input_required : app.
Lemma soft_auto_approved method msg result : only soft (recordApprovalAutoApproved s method msg result).
Proof. unfold recordApprovalAutoApproved. only_solve. Qed.
#[local] Hint Resolve soft_auto_approved : app.
Lemma soft_reply_request msg : only soft (replyServerRequest s msg).
Proof. unfold replyServerRequest. only_solve. by apply soft_send. Qed.
#[local] Hint Resolve soft_reply_request : app.
Lemma soft_user_input msg : only soft (handleToolUserInputRequest s msg).
Proof. unfold handleToolUserInputRequest. only_solve. Qed.
#[local] Hint Resolve soft_user_input : app.
Lemma soft_server_request msg method : only soft (handleServerRequest s msg method).
Proof. unfold handleServerRequest. only_solve. Qed.
Lemma soft_sinks name reports : only soft (mutation_sinks s name reports).
Proof. induction reports as [|r reports IH]; cbn [mutation_sinks]; [apply only_ret|]. unfold mutation_sink. only_solve. Qed.
Lemma soft_lift {A} (r : AgentErr + A) : only soft (lift_result r).
Proof. unfold lift_result. only_solve. Qed.
#[local] Hint Resolve soft_server_request soft_sinks soft_lift : app.
Lemma soft_tool_result name arguments : only soft (resolveDynamicToolResult s name arguments).
Proof. unfold resolveDynamicToolResult, recordUnsupportedToolCall. only_solve. Qed.
#[local] Hint Resolve soft_tool_result : app.
Lemma soft_tool_reply msg params result : only soft (replyDynamicToolOutput msg params result).
Proof. unfold replyDynamicToolOutput, notify. only_solve. by apply soft_send. Qed.
#[local] Hint Resolve soft_tool_reply : app.
Lemma soft_tool_call msg : only soft (handleDynamicToolCall s msg).
Proof. unfold handleDynamicToolCall. only_solve. Qed.
#[local] Hint Resolve soft_tool_call : app.
Lemma soft_interleaved msg : only soft (dispatchInterleavedMessage s msg).
Proof. unfold dispatchInterleavedMessage. only_solve. Qed.
Lemma soft_turn_notification msg method : only soft (handleTurnNotification s msg method).
Proof. unfold handleTurnNotification, recordModelRerouted, recordRuntimeMessage. only_solve. Qed.
#[local] Hint Resolve soft_turn_notification : app.
Lemma soft_turn_message msg raw : only soft (dispatchTurnMessage s msg raw).
Proof.
  unfold dispatchTurnMessage, handleTurnMethod, recordOtherRuntimeMessage, recordRuntimeMessage. only_solve.
Qed.
Lemma soft_arm : only soft arm.
Proof. unfold arm. only_solve. Qed.
Lemma soft_malformed raw err : only soft (recordMalformedRuntimeLine s raw err).
Proof. unfold recordMalformedRuntimeLine. only_solve. Qed.
Lemma soft_resolve parentErr readCtxErr read deadline : only soft (resolveTurnReadResult parentErr readCtxErr read deadline).
Proof. unfold resolveTurnReadResult. only_solve. Qed.
(** The read timeout is suspended for the read and put back. *)
Lemma only_read_in allowed ctx deadline :
  only allowed (readProtocolMessage ctx) → (∀ c, allowed (CtxErr c)) →
  (∀ parentErr readCtxErr read, only allowed (resolveTurnReadResult parentErr readCtxErr read deadline)) →
  only allowed (read_in s ctx deadline).
Proof.
  intros Hread Herr Hres c.
  set (c1 := if 0 <? cc_StallTimeoutMs (ss_codex s) then c <| c_readTimeoutMs := 0 |> else c).
  set (back := λ c', c' <| c_readTimeoutMs := c_readTimeoutMs c |>).
  assert (read_in s ctx deadline c =
    ask_bind (app_try (readProtocolMessage ctx) c1) (fun cr => match cr.2 with
      | Got read => (let$ parentErr := app_call (CtxErr RunCtx) in let$ readCtxErr := app_call (CtxErr ctx) in
                     resolveTurnReadResult parentErr readCtxErr read deadline) (back cr.1)
      | Bad e => Ret (cr.1, Bad e)
      | NoFuel => Ret (cr.1, NoFuel)
      end)) as -> by (unfold read_in, c1; by destruct (0 <? _)).
  eapply only_ask_bind with (R := λ _ r, match r with Got _ => True | _ => False end).
  - eapply only_ask_bind; [apply Hread|]. by intros c' [a|e|] [Hr Hc].
  - intros c2 [read|e|] HR; [|done..]. cbn [fst snd].
    eapply only_ask_mono with (P := allowed) (R := ends_as (back c2)); [|done|].
    + apply only_bind; [by apply only_asks|]. intros parentErr. apply only_bind; [by apply only_asks|]. intros readCtxErr.
      apply (Hres parentErr readCtxErr read).
    + unfold ends_as, same_timeout, back. cbn. by intros.
Qed.
Lemma soft_startup_failed phase err : only soft (recordStartupFailed s phase err).
Proof. unfold recordStartupFailed. only_solve. Qed.
Lemma soft_started threadID turnID turn :
  only soft (recordFirstTurnStarted s threadID turnID) ∧ only soft (recordTurnStarted s threadID turnID turn).
Proof. unfold recordFirstTurnStarted, recordTurnStarted. split; only_solve. Qed.

(** ** Every request of the agent is answered before the next read *)

(** The id of the request in a line; the end of a turn is answered by no message. *)
Definition asked (line : string) : option any :=
  match json_object line with
  | inr msg => match serverRequestMethod msg with
               | Some method => if String.eqb method "turn/completed" then None else Some (map_get msg "id")
               | None => None
               end
  | inl _ => None
  end.
(** The line an exchange read. *)
Definition line_of (e : Exchange AppAns) : option string :=
  match e with
  | Ex q a => match q return AppAns q → option string with
              | AwaitLine _ _ => fun ev => match ev with GotLine line => Some line | _ => None end
              | _ => fun _ => None
              end a
  end.
(** A response of the client to a request. *)
Definition answers (m : list (string * any)) (id : any) : Prop := assoc m "id" = Some id ∧ assoc m "method" = None.
Definition answered_in (after : list (Exchange AppAns)) (id : any) : Prop :=
  ∃ m, Ex (An := AppAns) (WriteStdin m) Sent ∈ after ∧ answers m id.
(** Every request read so far has been answered since, but for those of [o]. *)
Definition due (log : list (Exchange AppAns)) (o : option any) : Prop :=
  ∀ before c t line after id,
    log = before ++ Ex (An := AppAns) (AwaitLine c t) (GotLine line) :: after → asked line = Some id →
    answered_in after id ∨ o = Some id.
Definition paid (log : list (Exchange AppAns)) : Prop := due log None.

Lemma due_weaken log o : paid log → due log o.
Proof. intros HD before c t line after id E Ha. destruct (HD before c t line after id E Ha) as [?|?]; [by left|done]. Qed.
Lemma answered_more after id ex : answered_in after id → answered_in (after ++ [ex]) id.
Proof. intros (m & Hm & ?). exists m. split; [|done]. set_solver. Qed.
(** One more exchange, which may be the line that asks. *)
Lemma due_snoc log o q a :
  due log o → (∀ c t line, Ex q a = Ex (An := AppAns) (AwaitLine c t) (GotLine line) → asked line = None) → due (log ++ [Ex q a]) o.
Proof.
  intros HD Hq before c t line after id E Ha.
  destruct (decide (after = [])) as [->|Hne].
  - apply app_inj_tail in E as [-> E]. by rewrite (Hq _ _ _ E) in Ha.
  - destruct (exists_last Hne) as (after' & x & ->). rewrite app_comm_cons, app_assoc in E.
    apply app_inj_tail in E as [E <-]. destruct (HD before c t line after' id E Ha) as [?|?]; [left; by apply answered_more|by right].
Qed.
Lemma due_quiet log o q a : line_of (Ex q a) = None → due log o → due (log ++ [Ex q a]) o.
Proof. intros Hq HD. apply due_snoc; [done|]. intros c t line E. apply (f_equal line_of) in E. by rewrite Hq in E. Qed.
Lemma due_read log c t line : paid log → due (log ++ [Ex (An := AppAns) (AwaitLine c t) (GotLine line)]) (asked line).
Proof.
  intros HD before c' t' line' after id E Ha.
  destruct (decide (after = [])) as [->|Hne].
  - apply app_inj_tail in E as [-> E]. apply (f_equal line_of) in E as [= ->]. by right.
  - destruct (exists_last Hne) as (after' & x & ->). rewrite app_comm_cons, app_assoc in E.
    apply app_inj_tail in E as [E <-]. destruct (HD before c' t' line' after' id E Ha) as [?|?]; [left; by apply answered_more|done].
Qed.
Lemma due_answered log id m : due log (Some id) → answers m id → paid (log ++ [Ex (An := AppAns) (WriteStdin m) Sent]).
Proof.
  intros HD Hm before c t line after id' E Ha. left.
  destruct (decide (after = [])) as [->|Hne]; [by apply app_inj_tail in E as [_ E]|].
  destruct (exists_last Hne) as (after' & x & ->). rewrite app_comm_cons, app_assoc in E.
  apply app_inj_tail in E as [E <-]. destruct (HD before c t line after' id' E Ha) as [?|[= <-]]; [by apply answered_more|].
  exists m. split; [set_solver|done].
Qed.

(** Reads wait for the answers. *)
Definition settled : Allowed AppAns := λ log q, match q with AwaitLine _ _ => paid log | _ => True end.

Section Settled.
Context (srv : Server AppAns).
Notation sat := (sat settled srv).

Lemma sat_soft {A} (p : App A) log c o : only soft p → due log o → sat p log c (λ log' _ r, due log' o ∧ r ≠ NoFuel).
Proof.
  intros Hp HO. eapply sat_mono; [apply sat_only with (P := λ log, due log o) (1 := Hp) (3 := HO)|].
  - intros log' q a Hq HD. split; [by destruct q|]. apply due_snoc; [done|]. intros c' t line E. by destruct q.
  - by intros log' c' r (? & ? & _).
Qed.
(** A program that ends with a soft one. *)
Lemma sat_then {A B} (p : App A) (f : A → App B) log c o :
  (∀ a, only soft (f a)) → sat p log c (λ log' _ r, match r with Got _ => due log' o | _ => True end) →
  sat (app_bind p f) log c (λ log' _ r, match r with Got _ => due log' o | _ => True end).
Proof.
  intros Hf Hp. apply sat_bind. eapply sat_mono; [exact Hp|]. intros log' c' [a|e|]; [|done..]. intros HD.
  eapply sat_mono; [by apply sat_soft|]. by intros ? ? [] [? ?].
Qed.
(** A program that begins with a soft one. *)
Lemma sat_soft_bind {A B} (p : App A) (f : A → App B) log c o Q :
  only soft p → due log o →
  (∀ a log' c', due log' o → sat (f a) log' c' Q) →
  (∀ log' c' e, Q log' c' (Bad e)) → sat (app_bind p f) log c Q.
Proof.
  intros Hp HD Hf HQ. apply sat_bind. eapply sat_mono; [by apply sat_soft|]. intros log' c' [a|e|] [? ?]; [auto|auto|done].
Qed.

Definition got_paid {A} (log : list (Exchange AppAns)) (_ : Client) (r : Res A) : Prop :=
  match r with Got _ => paid log | _ => True end.
Lemma sat_send log c id m : due log (Some id) → answers m id → sat (send m) log c got_paid.
Proof.
  intros HD Hm. apply sat_bind, sat_call; [done|]. intros [|e|e] _; cbn; [|done..]. by eapply due_answered.
Qed.
Lemma sat_soft_paid {A} (p : App A) log c : only soft p → paid log → sat p log c got_paid.
Proof. intros Hp HD. eapply sat_mono; [by apply sat_soft|]. by intros ? ? [] [? ?]. Qed.
Lemma sat_got_then {A B} (p : App A) (f : A → App B) log c :
  (∀ a, only soft (f a)) → sat p log c got_paid → sat (app_bind p f) log c got_paid.
Proof. intros Hf Hp. by apply sat_then. Qed.

Lemma answers_result id result : answers (result_message id result) id.
Proof. done. Qed.
Lemma answers_error id code message : answers (error_message id code message) id.
Proof. done. Qed.

Lemma sat_reply msg result log c id :
  map_get msg "id" = id → due log (Some id) → sat (reply_result msg result) log c got_paid.
Proof. intros <- HD. eapply sat_send; [done|apply answers_result]. Qed.
Lemma sat_reply_request msg log c : due log (Some (map_get msg "id")) → sat (replyServerRequest s msg) log c got_paid.
Proof.
  intros HD. unfold replyServerRequest. destruct (protocolServerRequestResult _ _ _).
  - apply sat_got_then; [intros; only_solve|]. by eapply sat_reply.
  - eapply sat_send; [done|apply answers_error].
Qed.
Lemma sat_server_request msg method log c :
  due log (Some (map_get msg "id")) → sat (handleServerRequest s msg method) log c got_paid.
Proof.
  intros HD. unfold handleServerRequest, handleToolUserInputRequest. destruct (String.eqb _ _).
  - destruct (protocolToolUserInputApprovalResult _ _).
    + apply sat_got_then; [intros; only_solve|]. by eapply sat_reply.
    + unfold input_required. eapply sat_soft_bind; [|exact HD|done|done].
      unfold recordInputRequiredMessage. only_solve.
  - apply sat_got_then; [intros; only_solve|]. by apply sat_reply_request.
Qed.
Lemma sat_tool_call msg log c id :
  has_key msg "id" = true → map_get msg "id" = id → due log (Some id) → sat (handleDynamicToolCall s msg) log c got_paid.
Proof.
  intros Hk Hid HD. unfold handleDynamicToolCall. eapply sat_soft_bind; [by apply only_asks|exact HD| |done].
  intros [e|] log' c' HD'; [done|]. eapply sat_soft_bind; [apply soft_tool_result|exact HD'| |done].
  intros result log2 c2 HD2. unfold replyDynamicToolOutput. rewrite Hk. by eapply sat_reply.
Qed.

(** *** Reading *)

(** What a read leaves behind. *)
Definition read_msg (log : list (Exchange AppAns)) (msg : any_map) : Prop :=
  ∃ raw, json_object raw = inr msg ∧ due log (asked raw).
Definition got_incoming (log : list (Exchange AppAns)) (_ : Client) (r : Res Incoming) : Prop :=
  match r with
  | Got (InMessage msg raw) => read_msg log msg
  | Got (InGarbage _ _) => paid log
  | _ => True
  end.
Lemma sat_read_line ctx log c :
  paid log → sat (readLine ctx) log c (λ log' _ r, match r with Got line => due log' (asked line) | _ => True end).
Proof.
  intros HD. unfold readLine, deadlineDuration, readLineOnce.
  eapply sat_soft_bind; [only_solve|exact HD| |done]. intros ms log1 c1 HD1.
  eapply sat_soft_bind; [only_solve|exact HD1| |done]. intros deadline log2 c2 HD2.
  apply sat_bind, sat_call; [exact HD2|]. intros [e| |line|readErr] _; [done| | |].
  - eapply sat_soft_bind; [only_solve|by apply due_quiet| |done]. done.
  - by apply due_read.
  - eapply sat_soft_bind; [only_solve|by apply due_quiet| |done].
    intros [e|] ? ? ?; [|done]. by destruct (is_deadline e).
Qed.
Lemma sat_read ctx log c : paid log → sat (readProtocolMessage ctx) log c got_incoming.
Proof.
  intros HD. unfold readProtocolMessage. eapply sat_soft_bind; [by apply only_asks|exact HD| |done].
  intros [e|] log1 c1 HD1; [done|]. apply sat_bind. eapply sat_mono; [by apply sat_read_line|].
  intros log2 c2 [line|e|] HD2; [|done..].
  eapply sat_soft_bind; [by apply only_asks|exact HD2| |done]. intros _ log3 c3 HD3.
  eapply sat_soft_bind; [by apply only_asks|exact HD3| |done]. intros _ log4 c4 HD4.
  cbn. destruct (json_object line) as [err|msg] eqn:EJ; cbn; [|by exists line].
  unfold asked in HD4. by rewrite EJ in HD4.
Qed.
Lemma sat_message ctx log c :
  paid log → sat (readMessage ctx) log c (λ log' _ r, match r with Got msg => read_msg log' msg | _ => True end).
Proof.
  intros HD. unfold readMessage. apply sat_bind. eapply sat_mono; [by apply sat_read|].
  by intros log' c' [[msg raw|[raw|] err]|e|] H'.
Qed.

(** What a message asks, by its members. *)
Lemma asked_none raw msg : json_object raw = inr msg → serverRequestMethod msg = None → asked raw = None.
Proof. unfold asked. by intros -> ->. Qed.
Lemma asked_response raw msg id r : json_object raw = inr msg → responseForID msg id = Some r → asked raw = None.
Proof.
  intros EJ. unfold responseForID. destruct (has_key msg "method") eqn:EM; [done|]. intros _. apply (asked_none _ _ EJ).
  unfold serverRequestMethod. destruct (negb _); [done|].
  assert (map_get msg "method" = ANil) as ->; [|done].
  unfold has_key, map_get in *. destruct msg as [l|]; [|done]. by destruct (assoc l "method").
Qed.
Lemma request_due log raw msg method :
  json_object raw = inr msg → serverRequestMethod msg = Some method → due log (asked raw) → due log (Some (map_get msg "id")).
Proof.
  unfold asked. intros -> ->. destruct (String.eqb method "turn/completed"); [apply due_weaken|done].
Qed.
Lemma request_key msg method : serverRequestMethod msg = Some method → has_key msg "id" = true ∧ as_str (map_get msg "method") = method ∧ method ≠ "".
Proof.
  unfold serverRequestMethod. destruct (has_key msg "id"); [|done]. simpl.
  destruct (String.eqb_spec (as_str (map_get msg "method")) ""); [done|]. by intros [= <-].
Qed.

(** *** The two loops *)

Lemma sat_interleaved log c msg : read_msg log msg → sat (dispatchInterleavedMessage s msg) log c got_paid.
Proof.
  intros (raw & EJ & HD). unfold dispatchInterleavedMessage. destruct (serverRequestMethod msg) as [method|] eqn:EM.
  - destruct (request_key _ _ EM) as (Hk & _). pose proof (request_due _ _ _ _ EJ EM HD) as HD'.
    destruct (String.eqb method "item/tool/call"); [|by apply sat_server_request].
    apply sat_got_then; [intros; only_solve|]. by eapply sat_tool_call.
  - rewrite (asked_none _ _ EJ EM) in HD. apply sat_soft_paid; [|done]. only_solve.
Qed.
Lemma sat_await_response fuel id : ∀ log c, paid log → sat (await_response s fuel id) log c got_paid.
Proof.
  induction fuel as [|fuel IH]; intros log c HD; [done|]. cbn [await_response]. apply sat_bind.
  eapply sat_mono; [by apply sat_message|]. intros log1 c1 [msg|e|] HM; [|done..].
  destruct (responseForID msg id) as [[e|result]|] eqn:ER; [done| |].
  - destruct HM as (raw & EJ & HD1). by rewrite (asked_response _ _ _ _ EJ ER) in HD1.
  - apply sat_bind. eapply sat_mono; [by apply sat_interleaved|]. intros log2 c2 [[]|e|] HD2; [done|by apply IH|done..].
Qed.
Lemma sat_request fuel method params log c :
  paid log → sat (request s fuel method params) log c got_paid.
Proof.
  intros HD. unfold request. eapply sat_soft_bind; [only_solve|exact HD| |done]. intros id log1 c1 HD1.
  eapply sat_soft_bind; [only_solve|exact HD1| |done]. intros _ log2 c2 HD2.
  destruct params as [params|]; [|done]. apply sat_bind. unfold send. apply sat_bind, sat_call; [done|].
  intros [|e|e] _; [|done..]. apply sat_await_response. by apply due_quiet.
Qed.

(** After a failed read nothing is returned, and nothing is read. *)
Lemma sat_resolve_failed parentErr readCtxErr e deadline log c :
  sat (resolveTurnReadResult parentErr readCtxErr (inl e) deadline) log c got_incoming.
Proof.
  unfold resolveTurnReadResult. destruct parentErr as [e'|]; [done|]. destruct (isAppServerReadTimeout e); [done|].
  destruct (_ && _); [|done]. by apply sat_bind, sat_call.
Qed.
Lemma sat_resolve parentErr readCtxErr incoming deadline log c :
  got_incoming log c (Got incoming) → sat (resolveTurnReadResult parentErr readCtxErr (inr incoming) deadline) log c got_incoming.
Proof.
  intros HI. unfold resolveTurnReadResult. destruct parentErr as [e'|]; [done|].
  destruct incoming as [msg raw|[raw|] err]; [done..|]. destruct (isAppServerReadTimeout err); [done|].
  destruct (_ && _); [|done]. by apply sat_bind, sat_call.
Qed.
Lemma got_incoming_due log c r : got_incoming log c (Got r) → ∃ o, due log o ∧ ∀ log' c', due log' o → got_incoming log' c' (Got r).
Proof.
  destruct r as [msg raw|raw err]; cbn.
  - intros (raw' & EJ & HD). exists (asked raw'). split; [done|]. intros log' _ HD'. by exists raw'.
  - intros HD. by exists None.
Qed.
Lemma sat_read_in ctx deadline log c : paid log → sat (read_in s ctx deadline) log c got_incoming.
Proof.
  intros HD2. unfold read_in. apply sat_bind, sat_get, sat_set_if. intros c2.
  apply sat_bind, sat_try. eapply sat_mono; [by apply sat_read|]. intros log3 c3 [incoming|e|] HR; [| |done].
  - destruct (got_incoming_due _ _ _ HR) as (o & HD4 & Hkeep). apply sat_bind, sat_set.
    eapply sat_soft_bind; [only_solve|exact HD4| |done]. intros parentErr log5 c5 HD5.
    eapply sat_soft_bind; [only_solve|exact HD5| |done]. intros readCtxErr log6 c6 HD6.
    by apply sat_resolve, Hkeep.
  - apply sat_bind. apply sat_bind, sat_call; [done|]. intros parentErr _.
    apply sat_bind, sat_call; [done|]. intros readCtxErr _. apply sat_resolve_failed.
Qed.
Lemma sat_read_turn log c : paid log → sat (readTurnMessage s) log c got_incoming.
Proof.
  intros HD. unfold readTurnMessage. destruct (_ <=? 0); [by apply sat_read_in|].
  eapply sat_soft_bind; [only_solve|exact HD| |done]. intros now log1 c1 HD1.
  eapply sat_soft_bind; [only_solve|exact HD1| |done]. intros armed log2 c2 HD2.
  destruct (_ <=? 0).
  - eapply sat_soft_bind; [only_solve|exact HD2| |done]. intros [e|] log3 c3 HD3; done.
  - apply sat_bind, sat_call; [done|]. intros ? _. by apply sat_read_in, due_quiet.
Qed.

Lemma sat_turn_message log c msg raw : read_msg log msg → sat (dispatchTurnMessage s msg raw) log c got_paid.
Proof.
  intros (raw' & EJ & HD). 
  assert (sat (dispatchTurnMessage s msg raw) log c (λ log' _ r, due log' (asked raw') ∧ r ≠ NoFuel)) as Hsoft
    by (by apply sat_soft; [apply soft_turn_message|]).
  destruct (serverRequestMethod msg) as [method|] eqn:EM.
  2:{ rewrite (asked_none _ _ EJ EM) in Hsoft. eapply sat_mono; [exact Hsoft|]. by intros ? ? [] [? ?]. }
  destruct (request_key _ _ EM) as (Hk & Em & Hne). pose proof (request_due _ _ _ _ EJ EM HD) as HD'.
  destruct (String.eqb_spec method "turn/completed") as [->|Hc].
  { assert (asked raw' = None) as EA by (unfold asked; by rewrite EJ, EM).
    rewrite EA in Hsoft. eapply sat_mono; [exact Hsoft|]. by intros ? ? [] [? ?]. }
  clear Hsoft. unfold dispatchTurnMessage. rewrite Em.
  rewrite (proj2 (String.eqb_neq method "")), (proj2 (String.eqb_neq method "turn/completed")) by done.
  destruct (String.eqb method "turn/failed").
  { eapply sat_soft_bind; [only_solve|exact HD'|done|done]. }
  destruct (String.eqb method "turn/cancelled").
  { eapply sat_soft_bind; [only_solve|exact HD'|done|done]. }
  destruct (String.eqb method "item/tool/call").
  { apply sat_got_then; [intros; only_solve|]. by eapply sat_tool_call. }
  unfold handleTurnMethod. rewrite Hk. by apply sat_server_request.
Qed.
Lemma sat_turn_round log c : paid log → sat (turn_round s) log c got_paid.
Proof.
  intros HD. unfold turn_round. apply sat_bind. eapply sat_mono; [by apply sat_read_turn|].
  intros log1 c1 [[msg raw|[raw|] err]|e|] HI; try done; cbn in HI.
  - apply sat_bind. eapply sat_mono; [by apply sat_turn_message|]. intros log2 c2 [[]|e|] HD2; try done.
    apply sat_soft_paid; [only_solve; apply soft_arm|done].
  - destruct (negb _); [done|]. apply sat_soft_paid; [only_solve; first [apply soft_malformed|apply soft_arm]|done].
Qed.
Lemma sat_turn_rounds fuel : ∀ log c, paid log → sat (turn_rounds s fuel) log c got_paid.
Proof.
  induction fuel as [|fuel IH]; intros log c HD; [done|]. cbn [turn_rounds]. apply sat_bind.
  eapply sat_mono; [by apply sat_turn_round|]. intros log1 c1 [[]|e|] HD1; try done. by apply IH.
Qed.

(** *** The session *)

Lemma sat_or_failed {A} record phase text (p : App A) log c :
  sat p log c got_paid → sat (or_startup_failed s record phase text p) log c got_paid.
Proof.
  intros Hp. unfold or_startup_failed. apply sat_bind, sat_try. eapply sat_mono; [exact Hp|].
  intros log1 c1 [a|e|] HD; [done| |done].
  apply sat_bind. eapply sat_mono; [eapply sat_only with (allowed := soft) (P := λ _, True)|].
  - destruct record; [apply soft_startup_failed|apply only_ret].
  - intros log' q a Hq _. split; [by destruct q|done].
  - done.
  - by intros ? ? [] (? & ? & ?).
Qed.
Lemma sat_start_thread fuel log c : paid log → sat (startThread s fuel) log c got_paid.
Proof.
  intros HD. unfold startThread. apply sat_bind. eapply sat_mono; [by apply sat_or_failed, sat_request|].
  intros log1 c1 [?|e|] HD1; [|done..]. apply sat_bind. eapply sat_mono.
  { apply sat_or_failed, sat_soft_paid; [by apply soft_send|exact HD1]. }
  intros log2 c2 [?|e|] HD2; [|done..]. apply sat_bind. eapply sat_mono; [by apply sat_or_failed, sat_request|].
  intros log3 c3 [r|e|] HD3; [|done..]. apply sat_bind. eapply sat_mono.
  { apply sat_or_failed, sat_soft_paid; [apply soft_lift|exact HD3]. }
  intros log4 c4 [threadID|e|] HD4; [|done..]. apply sat_soft_paid; [only_solve|done].
Qed.
Lemma sat_single_turn fuel threadID turn log c : paid log → sat (runSingleTurn s fuel threadID turn) log c got_paid.
Proof.
  intros HD. unfold runSingleTurn, startTurn. apply sat_bind, sat_bind.
  eapply sat_mono; [by apply sat_or_failed, sat_request|]. intros log1 c1 [r|e|] HD1; [|done..].
  eapply sat_mono; [apply sat_or_failed, sat_soft_paid; [apply soft_lift|exact HD1]|].
  intros log2 c2 [turnID|e|] HD2; [|done..].
  assert (only soft (recordFirstTurnStarted s threadID turnID) ∧ only soft (recordTurnStarted s threadID turnID turn)) as [HS1 HS2] by apply soft_started.
  eapply sat_soft_bind; [only_solve|exact HD2| |done]. intros _ log3 c3 HD3.
  eapply sat_soft_bind; [only_solve|exact HD3| |done]. intros _ log4 c4 HD4.
  eapply sat_soft_bind; [only_solve|exact HD4| |done]. intros _ log5 c5 HD5.
  apply sat_bind. unfold awaitTurnCompletion.
  eapply sat_soft_bind; [apply soft_arm|exact HD5| |done]. intros _ log6 c6 HD6.
  eapply sat_mono; [by apply sat_turn_rounds|]. intros log7 c7 [?|e|] HD7; [|done..].
  destruct (negb (ss_refresh s)); [done|]. apply sat_bind, sat_call; [done|].
  intros [e|snapshot] _; [done|]. apply sat_soft_paid; [only_solve|by apply due_quiet].
Qed.
Lemma sat_run_turns fuel more threadID : ∀ turn log c, paid log → sat (run_turns s fuel more threadID turn) log c got_paid.
Proof.
  induction more as [|more IH]; intros turn log c HD; [done|]. cbn [run_turns]. apply sat_bind.
  eapply sat_mono; [by apply sat_single_turn|]. intros log1 c1 [[]|e|] HD1; [by apply IH|done..].
Qed.
Lemma sat_client_run fuel log c : paid log → sat (client_run s fuel) log c got_paid.
Proof.
  intros HD. unfold client_run. apply sat_bind. eapply sat_mono; [by apply sat_start_thread|].
  intros log1 c1 [threadID|e|] HD1; [|done..]. by apply sat_run_turns.
Qed.
End Settled.
End Programs.

(** C4: Whatever the agent sends and however its messages interleave with the answers of the
    client's own requests, a request of the agent read earlier has been answered by a
    response with its id before the client waits for another line; only the end of a turn
    is a notice. *)
Theorem requests_answered `{Json, Sprint, Calendar} (s : Session) (srv : Server AppAns) fuel :
  ∀ before c t a after,
    (TrackerErrors.run srv [] (client_run s fuel (initSession s))).1 = before ++ Ex (AwaitLine c t) a :: after → paid before.
Proof.
  intros before c t a after E.
  assert (paid []) as HD by (intros b ? ? ? ? ? Eb; by destruct b).
  pose proof (sat_client_run s srv fuel [] (initSession s) HD) as HS.
  apply (sat_requests _ _ _ _ _ _ HS before _ _ after E). simpl. lia.
Qed.

(** ** A turn starts only for an issue the tracker calls active *)

(** The turns started so far, and whether the tracker has called the issue active since the
    last of them. *)
Definition turn_step (st : nat * bool) (e : Exchange AppAns) : nat * bool :=
  match e with
  | Ex q a => match q return AppAns q → nat * bool with
              | WriteStdin m => fun _ => if starts_turn m then (S st.1, false) else st
              | RefreshIssueState => fun r => match r with inr snapshot => (st.1, snap_Active snapshot) | inl _ => st end
              | _ => fun _ => st
              end a
  end.
Definition turn_state (log : list (Exchange AppAns)) : nat * bool := fold_left turn_step log (O, true).
Lemma turn_state_snoc log q a : turn_state (log ++ [Ex q a]) = turn_step (turn_state log) (Ex q a).
Proof. unfold turn_state. by rewrite fold_left_app. Qed.

Section Turns.
Context `{Json, Sprint, Calendar} (s : Session) (srv : Server AppAns).
Definition renewed : Allowed AppAns := λ log q,
  match q with
  | WriteStdin m => if starts_turn m then (turn_state log).2 = true ∧ ((turn_state log).1 < Z.to_nat (turnLimit s))%nat else True
  | _ => True
  end.
Notation sat := (sat renewed srv).

(** Neither a turn nor a refresh. *)
Definition calm (q : AppCall) : Prop :=
  match q with RefreshIssueState => False | WriteStdin m => starts_turn m = false | _ => True end.
Definition same (st : nat * bool) {A} (log : list (Exchange AppAns)) (_ : Client) (_ : Res A) : Prop := turn_state log = st.
Lemma sat_calm {A} (p : App A) st log c : only calm p → turn_state log = st → sat p log c (same st).
Proof.
  intros Hp HD. eapply sat_mono; [eapply sat_only with (allowed := calm) (P := λ log, turn_state log = st); [exact Hp| |exact HD]|].
  - intros log' q a Hq E. destruct q; try done; simpl in Hq; cbn [renewed]; rewrite turn_state_snoc; cbn [turn_step];
      rewrite ?Hq; by split.
  - by intros log' c' r [? _].
Qed.
Lemma soft_calm {A} (p : App A) : only soft p → only calm p.
Proof. intros Hp. eapply only_mono; [exact Hp|]. by intros []. Qed.
Lemma sat_same_bind {A B} (p : App A) (f : A → App B) st log c :
  sat p log c (same st) → (∀ a log' c', turn_state log' = st → sat (f a) log' c' (same st)) → sat (app_bind p f) log c (same st).
Proof. intros Hp Hf. apply sat_bind. eapply sat_mono; [exact Hp|]. intros log' c' [a|e|] E; [by apply Hf|exact E..]. Qed.

Lemma sat_soft_free {A} (p : App A) log c : only soft p → sat p log c (λ _ _ _, True).
Proof.
  intros Hp. eapply sat_mono; [eapply sat_only with (allowed := soft) (P := λ _, True); [exact Hp| |done]|done].
  intros log' q a Hq _. destruct q; try done. simpl in Hq. cbn. by rewrite Hq.
Qed.

#[local] Hint Extern 1 (only calm _) => (apply soft_calm; solve [auto with app]) : app.
#[local] Hint Resolve soft_event soft_in_context soft_failure soft_phase soft_reply soft_notification soft_input_required
  soft_auto_approved soft_reply_request soft_user_input soft_server_request soft_sinks soft_lift soft_tool_result
  soft_tool_reply soft_tool_call soft_interleaved soft_turn_notification soft_turn_message soft_arm soft_malformed
  soft_resolve soft_startup_failed : app.
Lemma calm_read ctx : only calm (readProtocolMessage ctx).
Proof. unfold readProtocolMessage, readLine, deadlineDuration, readLineOnce. only_solve. Qed.
#[local] Hint Resolve calm_read : app.
Lemma calm_message ctx : only calm (readMessage ctx).
Proof. unfold readMessage. only_solve. Qed.
Lemma calm_read_turn : only calm (readTurnMessage s).
Proof. unfold readTurnMessage. only_solve; (apply only_read_in; [auto with app|done|intros; auto with app]). Qed.
#[local] Hint Resolve calm_message calm_read_turn : app.
Lemma calm_turn_round : only calm (turn_round s).
Proof. unfold turn_round. only_solve. Qed.
#[local] Hint Resolve calm_turn_round : app.

Lemma sat_await_same fuel id st : ∀ log c, turn_state log = st → sat (await_response s fuel id) log c (same st).
Proof.
  induction fuel as [|fuel IH]; intros log c E; [done|]. cbn [await_response].
  apply sat_same_bind; [apply sat_calm; [only_solve|done]|]. intros msg log1 c1 E1.
  destruct (responseForID msg id) as [[]|]; [done..|].
  apply sat_same_bind; [apply sat_calm; [only_solve|done]|]. intros [] log2 c2 E2; [done|by apply IH].
Qed.
Lemma sat_rounds_same fuel st : ∀ log c, turn_state log = st → sat (turn_rounds s fuel) log c (same st).
Proof.
  induction fuel as [|fuel IH]; intros log c E; [done|]. cbn [turn_rounds].
  apply sat_same_bind; [apply sat_calm; [only_solve|done]|]. intros [] log1 c1 E1; [done|by apply IH].
Qed.
Lemma sat_request_same fuel method params st log c :
  String.eqb method "turn/start" = false → turn_state log = st → sat (request s fuel method params) log c (same st).
Proof.
  intros Hm E. unfold request. apply sat_same_bind; [by apply sat_calm; [only_solve|]|]. intros id log1 c1 E1.
  apply sat_same_bind; [by apply sat_calm; [only_solve|]|]. intros _ log2 c2 E2.
  destruct params as [params|]; [|done]. apply sat_same_bind; [|intros; by apply sat_await_same].
  apply sat_calm; [|done]. by apply soft_calm, soft_send.
Qed.
Lemma sat_or_failed_same {A} record phase text (p : App A) st log c :
  sat p log c (same st) → sat (or_startup_failed s record phase text p) log c (same st).
Proof.
  intros Hp. unfold or_startup_failed. apply sat_bind, sat_try. eapply sat_mono; [exact Hp|].
  intros log1 c1 [a|e|] E; [done| |done]. apply sat_calm; [only_solve|exact E].
Qed.

(** The request that starts a turn, from a state in which it may. *)
Definition begun (st : nat * bool) {A} (log : list (Exchange AppAns)) (_ : Client) (r : Res A) : Prop :=
  match r with Got _ => turn_state log = (S st.1, false) | _ => True end.
Lemma sat_turn_request fuel params k log c :
  turn_state log = (k, true) → (k < Z.to_nat (turnLimit s))%nat → sat (request s fuel "turn/start" params) log c (begun (k, true)).
Proof.
  intros E Hk. unfold request. apply sat_bind, sat_get, sat_bind, sat_set. destruct params as [params|]; [|done]. apply sat_bind. unfold send. apply sat_bind, sat_call.
  { cbn. by rewrite E. }
  intros [|e|e] _; [|done..]. cbn. eapply sat_mono; [apply (sat_await_same fuel _ (S k, false))|].
  - by rewrite turn_state_snoc, E.
  - by intros log1 c1 [] E1.
Qed.
Lemma sat_single_turn_same fuel threadID turn k log c :
  turn_state log = (k, true) → (k < Z.to_nat (turnLimit s))%nat →
  sat (runSingleTurn s fuel threadID turn) log c (λ log' _ r, r = Got true → turn_state log' = (S k, true)).
Proof.
  intros E Hk. unfold runSingleTurn, startTurn.
  set (st := (S k, false)). apply sat_bind, sat_bind. unfold or_startup_failed at 1. apply sat_bind, sat_try.
  eapply sat_mono; [by apply sat_turn_request|]. intros log1 c1 [r|e|] E1; [| |done].
  2:{ apply sat_bind. eapply sat_mono; [apply sat_soft_free; only_solve|]. by intros ? ? []. }
  cbn in E1. apply sat_ret. eapply sat_mono; [apply (sat_or_failed_same (turn =? 1) "turn/start" "codex app-server turn/start: " _ st)|].
  { apply sat_calm; [only_solve|done]. }
  intros log2 c2 [turnID|e|] E2; [|done..].
  assert (only soft (recordFirstTurnStarted s threadID turnID) ∧ only soft (recordTurnStarted s threadID turnID turn))
    as [HS1 HS2] by apply soft_started.
  assert (∀ A B (p : App A) (f : A → App B) log c (Q : _ → _ → Res B → Prop), turn_state log = st → sat p log c (same st) →
    (∀ a log' c', turn_state log' = st → sat (f a) log' c' Q) → (∀ log' c' e, Q log' c' (Bad e)) → (∀ log' c', Q log' c' NoFuel) →
    sat (app_bind p f) log c Q) as Hbind.
  { intros A B p f log' c' Q _ Hp Hf HB HN. apply sat_bind. eapply sat_mono; [exact Hp|]. intros log'' c'' [a|e|] E'; auto. }
  apply Hbind; [done|by apply sat_calm; [only_solve|]| |done..]. intros _ log3 c3 E3.
  apply Hbind; [done|apply sat_calm; [only_solve|done]| |done..]. intros _ log4 c4 E4.
  apply Hbind; [done|apply sat_calm; [only_solve|done]| |done..]. intros _ log5 c5 E5.
  apply Hbind; [done| | |done..].
  { unfold awaitTurnCompletion. apply sat_same_bind; [by apply sat_calm; [only_solve|]|]. intros. by apply sat_rounds_same. }
  intros _ log6 c6 E6. destruct (negb (ss_refresh s)); [done|]. apply sat_bind, sat_call; [done|].
  intros [e|snapshot] _; [done|]. destruct (snap_Active snapshot) eqn:EA; [|apply sat_bind; done].
  intros _. rewrite turn_state_snoc, E6. cbn. by rewrite EA.
Qed.
Lemma sat_run_turns_same fuel more threadID : ∀ turn k log c,
  turn_state log = (k, true) → (k + more ≤ Z.to_nat (turnLimit s))%nat →
  sat (run_turns s fuel more threadID turn) log c (λ _ _ _, True).
Proof.
  induction more as [|more IH]; intros turn k log c E Hk; [done|]. cbn [run_turns]. apply sat_bind.
  eapply sat_mono; [apply sat_single_turn_same; [exact E|lia]|]. intros log1 c1 [[]|e|] E1; try done.
  eapply IH; [by apply E1|lia].
Qed.
Lemma sat_client_run_turns fuel c : sat (client_run s fuel) [] c (λ _ _ _, True).
Proof.
  unfold client_run, startThread. set (st := (O, true)). apply sat_bind.
  eapply sat_mono; [apply (λ H, H : sat _ _ _ (same st))|].
  - apply sat_same_bind; [by apply sat_or_failed_same, sat_request_same|]. intros _ log1 c1 E1.
    apply sat_same_bind; [apply sat_or_failed_same, sat_calm; [by apply soft_calm, soft_send|done]|]. intros _ log2 c2 E2.
    apply sat_same_bind; [by apply sat_or_failed_same, sat_request_same|]. intros r log3 c3 E3.
    apply sat_same_bind; [apply sat_or_failed_same, sat_calm; [only_solve|done]|]. intros threadID log4 c4 E4.
    by apply sat_calm; [only_solve|].
  - intros log1 c1 [threadID|e|] E; [|done..]. eapply sat_run_turns_same; [exact E|lia].
Qed.
End Turns.

(** C5: No session starts more turns than its limit allows, and every turn after the first
    starts only after the tracker has called the issue active since the turn before. *)
Theorem turns_are_renewed `{Json, Sprint, Calendar} (s : Session) (srv : Server AppAns) fuel :
  ∀ before m a after,
    (TrackerErrors.run srv [] (client_run s fuel (initSession s))).1 = before ++ Ex (WriteStdin m) a :: after →
    starts_turn m = true →
    (turn_state before).2 = true ∧ ((turn_state before).1 < Z.to_nat (turnLimit s))%nat.
Proof.
  intros before m a after E Hm.
  pose proof (sat_requests _ _ _ _ _ _ (sat_client_run_turns s srv fuel (initSession s)) before _ _ after E) as HG.
  cbn in HG. rewrite Hm in HG. apply HG. lia.
Qed.

(** ** Enough fuel *)

(** The lines read so far; an environment that delivers at most [n]. *)
Definition lines (log : list (Exchange AppAns)) : nat := length (omap line_of log).
Definition at_most (n : nat) (srv : Server AppAns) : Prop :=
  ∀ log ctx t line, srv log (AwaitLine ctx t) = GotLine line → (lines log < n)%nat.
Lemma lines_snoc log e : lines (log ++ [e]) = (lines log + match line_of e with Some _ => 1 | None => 0 end)%nat.
Proof. unfold lines. rewrite omap_app, length_app. f_equal. cbn. by destruct (line_of e). Qed.

Section Fuel.
Context `{Json, Sprint, Calendar} (s : Session) (srv : Server AppAns) (n : nat) (Hn : at_most n srv).
Notation sat := (sat (λ _ _, True) srv).

Definition no_read (q : AppCall) : Prop := match q with AwaitLine _ _ => False | _ => True end.
Lemma soft_no_read {A} (p : App A) : only soft p → only no_read p.
Proof. intros Hp. eapply only_mono; [exact Hp|]. by intros []. Qed.
(** It ended by itself, and some lines may have been read. *)
Definition fine (log : list (Exchange AppAns)) {A} (log' : list (Exchange AppAns)) (_ : Client) (r : Res A) : Prop :=
  r ≠ NoFuel ∧ (lines log ≤ lines log')%nat.
(** It returns only after reading one of the [n] lines. *)
Definition advanced (log : list (Exchange AppAns)) {A} (log' : list (Exchange AppAns)) (c' : Client) (r : Res A) : Prop :=
  fine log log' c' r ∧ match r with Got _ => (lines log < lines log' ∧ lines log < n)%nat | _ => True end.

Lemma sat_no_read {A} (p : App A) log c : only no_read p → sat p log c (λ log' _ r, lines log' = lines log ∧ r ≠ NoFuel).
Proof.
  intros Hp. eapply sat_mono; [apply sat_only with (P := λ log', lines log' = lines log) (1 := Hp); [|done]|].
  - intros log' q a Hq E. split; [done|]. rewrite lines_snoc, E. destruct q; try done; simpl; lia.
  - by intros log' c' r (? & ? & _).
Qed.
Lemma sat_fine {A} (p : App A) log c : only soft p → sat p log c (fine log).
Proof. intros Hp. eapply sat_mono; [by apply sat_no_read, soft_no_read|]. intros log' c' r [E ?]. split; [done|lia]. Qed.
Lemma fine_bind {A B} (p : App A) (f : A → App B) log c :
  sat p log c (fine log) → (∀ a log' c', (lines log ≤ lines log')%nat → sat (f a) log' c' (fine log')) →
  sat (app_bind p f) log c (fine log).
Proof.
  intros Hp Hf. apply sat_bind. eapply sat_mono; [exact Hp|]. intros log' c' [a|e|] [Hr Hl]; [|by split|done].
  eapply sat_mono; [by apply Hf|]. intros log2 c2 r [? ?]. split; [done|lia].
Qed.
Lemma advanced_before {A B} (p : App A) (f : A → App B) log c :
  only no_read p → (∀ a log' c', lines log' = lines log → sat (f a) log' c' (advanced log')) →
  sat (app_bind p f) log c (advanced log).
Proof.
  intros Hp Hf. apply sat_bind. eapply sat_mono; [by apply sat_no_read|].
  intros log' c' [a|e|] [E Hr]; [|by split; [split; [done|lia]|]|done]. eapply sat_mono; [by apply Hf|].
  intros log2 c2 r [[? ?] Hg]. split; [split; [done|lia]|]. destruct r; [lia|done..].
Qed.
Lemma advanced_after {A B} (p : App A) (f : A → App B) log c :
  sat p log c (advanced log) → (∀ a log' c', sat (f a) log' c' (fine log')) → sat (app_bind p f) log c (advanced log).
Proof.
  intros Hp Hf. apply sat_bind. eapply sat_mono; [exact Hp|]. intros log' c' [a|e|] [[Hr Hl] Hg]; [|by split|done].
  eapply sat_mono; [by apply Hf|]. intros log2 c2 r [? ?]. split; [split; [done|lia]|]. destruct r; [lia|done..].
Qed.

#[local] Hint Extern 1 (only no_read _) => (apply soft_no_read; solve [auto with app]) : app.
#[local] Hint Resolve soft_event soft_in_context soft_failure soft_phase soft_reply soft_notification soft_input_required
  soft_auto_approved soft_reply_request soft_user_input soft_server_request soft_sinks soft_lift soft_tool_result
  soft_tool_reply soft_tool_call soft_interleaved soft_turn_notification soft_turn_message soft_arm soft_malformed
  soft_resolve soft_startup_failed : app.
Lemma advanced_line ctx log c : sat (readLine ctx) log c (advanced log).
Proof.
  unfold readLine, deadlineDuration. apply advanced_before; [only_solve|]. intros ms log1 c1 _.
  apply advanced_before; [only_solve|]. intros deadline log2 c2 _. unfold readLineOnce.
  match goal with |- context [AwaitLine ctx ?t] => generalize t end. intros timer.
  apply sat_bind, sat_call; [done|]. intros a E.
  assert (∀ e, advanced log2 (log2 ++ [Ex (An := AppAns) (AwaitLine ctx timer) a]) c2 (Bad e : Res string)) as Hb.
  { intros e. split; [split; [done|]|done]. rewrite lines_snoc. lia. }
  destruct a as [e| |line|readErr].
  - apply Hb.
  - apply Hb.
  - symmetry in E. apply Hn in E. split; [split; [done|]|]; rewrite lines_snoc; cbn; lia.
  - apply sat_bind, sat_call; [done|]. intros ctxErr _.
    assert (∀ e, advanced log2 ((log2 ++ [Ex (An := AppAns) (AwaitLine ctx timer) (Closed readErr)])
      ++ [Ex (An := AppAns) (CtxErr ctx) ctxErr]) c2 (Bad e : Res string)) as Hb'.
    { intros e. split; [split; [done|]|done]. rewrite !lines_snoc. cbn. lia. }
    destruct ctxErr as [e|]; [destruct (is_deadline e)|]; apply Hb'.
Qed.
Lemma advanced_read ctx log c : sat (readProtocolMessage ctx) log c (advanced log).
Proof.
  unfold readProtocolMessage. apply advanced_before; [by apply only_asks|]. intros [e|] log1 c1 _.
  { by split; [split; [|lia]|]. }
  apply advanced_after; [apply advanced_line|]. intros line log2 c2. apply sat_fine. only_solve.
Qed.
Lemma advanced_message ctx log c : sat (readMessage ctx) log c (advanced log).
Proof. unfold readMessage. apply advanced_after; [apply advanced_read|]. intros ? ? ?. apply sat_fine. only_solve. Qed.
Lemma fine_resolve parentErr readCtxErr read deadline log c :
  sat (resolveTurnReadResult parentErr readCtxErr read deadline) log c
    (λ log' _ r, lines log' = lines log ∧ r ≠ NoFuel ∧ (match read with inl _ => ∀ i, r ≠ Got i | inr _ => True end)).
Proof.
  unfold resolveTurnReadResult. destruct parentErr as [e'|]; [by destruct read|].
  assert (∀ e, sat (if isAppServerReadTimeout e then app_fail e
     else if (0 <? td_timeout deadline) && ctx_expired readCtxErr then
       let$ now := app_call TimeNow in let$ c0 := app_get id in
       app_fail (deadline_err deadline (time_Sub now (c_armedAt c0)) (c_lastRuntimeEvent c0) (Some e))
     else app_fail e) log c (λ log' _ r, lines log' = lines log ∧ r ≠ NoFuel ∧ ∀ i : Incoming, r ≠ Got i)) as Hw.
  { intros e. destruct (isAppServerReadTimeout e); [done|]. destruct (_ && _); [|done].
    apply sat_bind, sat_call; [done|]. intros now _. apply sat_bind, sat_get. cbn. rewrite lines_snoc. cbn. split_and!; [lia|done..]. }
  destruct read as [e|[msg raw|[raw|] err]]; [apply Hw|done..|].
  eapply sat_mono; [apply Hw|]. by intros ? ? ? (? & ? & ?).
Qed.
Lemma advanced_read_in ctx deadline log c : sat (read_in s ctx deadline) log c (advanced log).
Proof.
  unfold read_in. apply sat_bind, sat_get, sat_set_if. intros c1. apply sat_bind, sat_try.
  eapply sat_mono; [apply advanced_read|]. intros log2 c2 r [[Hr Hl] Hg].
  assert (∀ read : AgentErr + Incoming, match read with inr _ => (lines log < lines log2 ∧ lines log < n)%nat | inl _ => True end →
    sat (app_set (λ c0, c0 <| c_readTimeoutMs := c_readTimeoutMs c |>) >>$
         let$ parentErr := app_call (CtxErr RunCtx) in let$ readCtxErr := app_call (CtxErr ctx) in
         resolveTurnReadResult parentErr readCtxErr read deadline) log2 c2 (advanced log)) as Hrest.
  { intros read HR. apply sat_bind, sat_set. apply sat_bind, sat_call; [done|]. intros parentErr _.
    apply sat_bind, sat_call; [done|]. intros readCtxErr _.
    eapply sat_mono; [apply fine_resolve|]. intros log3 c3 r' (E & Hr' & HG).
    rewrite !lines_snoc in E. cbn in E.
    split; [split; [done|lia]|]. destruct r' as [incoming|e|]; [|done..].
    destruct read as [e|incoming']; [by destruct (HG incoming)|lia]. }
  destruct r as [incoming|e|]; [by apply Hrest|by apply Hrest|done].
Qed.
Lemma advanced_read_turn log c : sat (readTurnMessage s) log c (advanced log).
Proof.
  unfold readTurnMessage. destruct (_ <=? 0); [apply advanced_read_in|].
  apply advanced_before; [only_solve|]. intros now log1 c1 _. apply advanced_before; [only_solve|]. intros armed log2 c2 _.
  destruct (_ <=? 0).
  - apply sat_bind, sat_call; [done|]. intros parentErr _.
    assert (∀ e, advanced log2 (log2 ++ [Ex (An := AppAns) (CtxErr RunCtx) parentErr]) c2 (Bad e : Res Incoming)) as Hb.
    { intros e. split; [split; [done|]|done]. rewrite lines_snoc. cbn. lia. }
    destruct parentErr as [e|]; apply Hb.
  - apply advanced_before; [only_solve|]. intros _ log3 c3 _. apply advanced_read_in.
Qed.
Lemma advanced_round log c : sat (turn_round s) log c (advanced log).
Proof.
  unfold turn_round. apply advanced_after; [apply advanced_read_turn|].
  intros [msg raw|[raw|] err] log1 c1; apply sat_fine; only_solve.
Qed.

(** A loop that ends when a round returns no [go], with the rest of the rounds. *)
Lemma fine_rounds fuel : ∀ log c, (n - lines log < fuel)%nat → sat (turn_rounds s fuel) log c (fine log).
Proof.
  induction fuel as [|fuel IH]; intros log c Hf; [lia|]. cbn [turn_rounds]. apply sat_bind.
  eapply sat_mono; [apply advanced_round|]. intros log1 c1 [fin|e|] [[Hr Hl] Hg]; [|by split|done].
  destruct fin; [by split|]. eapply sat_mono; [apply IH; lia|]. intros log2 c2 r [? ?]. split; [done|lia].
Qed.
Lemma fine_await fuel id : ∀ log c, (n - lines log < fuel)%nat → sat (await_response s fuel id) log c (fine log).
Proof.
  induction fuel as [|fuel IH]; intros log c Hf; [lia|]. cbn [await_response]. apply sat_bind.
  eapply sat_mono; [apply advanced_message|]. intros log1 c1 [msg|e|] [[Hr Hl] Hg]; [|by split|done].
  destruct (responseForID msg id) as [[e|result]|]; [by split|by split|].
  apply sat_bind. eapply sat_mono; [apply sat_fine; auto with app|]. intros log2 c2 [fin|e|] [Hr2 Hl2]; [|split; [done|lia]|done].
  destruct fin; [split; [done|lia]|]. eapply sat_mono; [apply IH; lia|]. intros log3 c3 r [? ?]. split; [done|lia].
Qed.
Section Session.
Context (fuel : nat) (Hfuel : (n < fuel)%nat).
Lemma fine_request method params log c : sat (request s fuel method params) log c (fine log).
Proof.
  unfold request. apply sat_bind, sat_get, sat_bind, sat_set. destruct params as [params|]; [|by split; [|lia]].
  apply fine_bind; [|intros ? ? ? _; apply fine_await; lia].
  unfold send. apply sat_bind, sat_call; [done|]. intros a _.
  assert (∀ r : Res unit, r ≠ NoFuel → fine log (log ++ [Ex (An := AppAns) (WriteStdin (call_message (c_nextID c) method params)) a])
    (c <| c_nextID := c_nextID c + 1 |>) r) as Hb.
  { intros r Hr. split; [done|]. rewrite lines_snoc. lia. }
  destruct a; by apply Hb.
Qed.
Lemma fine_or_failed {A} record phase text (p : App A) log c :
  sat p log c (fine log) → sat (or_startup_failed s record phase text p) log c (fine log).
Proof.
  intros Hp. unfold or_startup_failed. apply sat_bind, sat_try. eapply sat_mono; [exact Hp|].
  intros log1 c1 [a|e|] [Hr Hl]; [by split| |done]. eapply sat_mono; [apply sat_fine; only_solve|].
  intros log2 c2 r [? ?]. split; [done|lia].
Qed.
Lemma fine_start_thread log c : sat (startThread s fuel) log c (fine log).
Proof.
  unfold startThread. apply fine_bind; [apply fine_or_failed, fine_request|]. intros _ log1 c1 _.
  apply fine_bind; [apply fine_or_failed, sat_fine; by apply soft_send|]. intros _ log2 c2 _.
  apply fine_bind; [apply fine_or_failed, fine_request|]. intros r log3 c3 _.
  apply fine_bind; [apply fine_or_failed, sat_fine; only_solve|]. intros threadID log4 c4 _. apply sat_fine. only_solve.
Qed.
Lemma fine_single_turn threadID turn log c : sat (runSingleTurn s fuel threadID turn) log c (fine log).
Proof.
  unfold runSingleTurn, startTurn.
  apply fine_bind.
  { apply fine_bind; [apply fine_or_failed, fine_request|]. intros r log1 c1 _. apply fine_or_failed, sat_fine. only_solve. }
  intros turnID log1 c1 _.
  assert (only soft (recordFirstTurnStarted s threadID turnID) ∧ only soft (recordTurnStarted s threadID turnID turn))
    as [HS1 HS2] by apply soft_started.
  apply fine_bind; [apply sat_fine; only_solve|]. intros _ log2 c2 _.
  apply fine_bind; [apply sat_fine; only_solve|]. intros _ log3 c3 _.
  apply fine_bind; [apply sat_fine; only_solve|]. intros _ log4 c4 _.
  apply fine_bind.
  { unfold awaitTurnCompletion. apply fine_bind; [apply sat_fine; only_solve|]. intros _ log5 c5 _. apply fine_rounds. lia. }
  intros _ log5 c5 _. destruct (negb (ss_refresh s)); [by split; [|lia]|].
  eapply sat_mono; [apply sat_no_read; only_solve|]. intros log6 c6 r [E ?]. split; [done|lia].
Qed.
Lemma fine_run_turns more threadID : ∀ turn log c, sat (run_turns s fuel more threadID turn) log c (fine log).
Proof.
  induction more as [|more IH]; intros turn log c; [by split; [|lia]|]. cbn [run_turns].
  apply fine_bind; [apply fine_single_turn|]. intros [] log1 c1 _; [apply IH|by split; [|lia]].
Qed.
End Session.
End Fuel.

(** C9: A session ends: when the environment delivers at most [n] lines, fuel for [n + 1]
    reads is never used up, whatever else the environment does. *)
Theorem session_ends `{Json, Sprint, Calendar} (s : Session) (srv : Server AppAns) n fuel :
  at_most n srv → (n < fuel)%nat →
  (TrackerErrors.run srv [] (client_run s fuel (initSession s))).2.2 ≠ NoFuel.
Proof.
  intros Hn Hf.
  assert (sat (λ _ _, True) srv (client_run s fuel) [] (initSession s) (fine [])) as HS.
  { unfold client_run. apply fine_bind; [by apply fine_start_thread with (n := n)|]. intros ? ? ? _.
    by apply fine_run_turns with (n := n). }
  apply holds_run in HS. destruct (TrackerErrors.run _ _ _) as [log [c r]]. apply HS.
Qed.

(** ** No wait is without an end *)

Definition last_timeout (log : list (Exchange AppAns)) : option Duration :=
  last (omap (fun e => match e with Ex q _ => match q with WithTimeout d => Some d | _ => None end end) log).
Definition last_until (log : list (Exchange AppAns)) : option (option Duration) :=
  last (omap (fun e => match e with
                       | Ex q a => match q return AppAns q → option (option Duration) with
                                   | CtxUntil _ => fun until => Some until
                                   | _ => fun _ => None
                                   end a
                       end) log).
Definition read_timeout (s : Session) : Duration := wrap64 (cc_ReadTimeoutMs (ss_codex s) * Millisecond).
(** A wait ends by the read timer, by the timeout of its own context, or by a deadline of
    the run's context that is sooner than the read timer would be. *)
Definition wait_ends (s : Session) (log : list (Exchange AppAns)) (ctx : AppCtx) (timer : option Duration) : Prop :=
  timer = Some (read_timeout s) ∨
  (ctx = ReadCtx ∧ ∃ d, last_timeout log = Some d ∧ 0 < d) ∨
  (∃ d, last_until log = Some (Some d) ∧ d < read_timeout s).
(** The budgets of a configuration: a read timeout, and none that overflows. *)
Definition budgets_ok (c : CommandConfig) : Prop :=
  0 < cc_ReadTimeoutMs c ∧ ∀ ms, ms ∈ [cc_ReadTimeoutMs c; cc_TurnTimeoutMs c; cc_StallTimeoutMs c] → in64 (ms * Millisecond).

Section Waits.
Context `{Json, Sprint, Calendar} (s : Session) (srv : Server AppAns) (Hb : budgets_ok (ss_codex s)).
Definition waits : Allowed AppAns := λ log q,
  match q with AwaitLine ctx timer => wait_ends s log ctx timer | _ => True end.
Notation sat := (sat waits srv).

Definition configured (c : Client) : Prop := c_readTimeoutMs c = cc_ReadTimeoutMs (ss_codex s).
Definition keeps {A} (p : App A) : Prop := ∀ log c, configured c → sat p log c (λ _ c' _, configured c').
Lemma keeps_bind {A B} (p : App A) (f : A → App B) : keeps p → (∀ a, keeps (f a)) → keeps (app_bind p f).
Proof. intros Hp Hf log c Hc. apply sat_bind. eapply sat_mono; [by apply Hp|]. intros log' c' [a|e|] Hc'; [by apply Hf|exact Hc'..]. Qed.
Lemma keeps_soft {A} (p : App A) : only soft p → keeps p.
Proof.
  intros Hp log c Hc. eapply sat_mono; [apply sat_only with (P := λ _, True) (1 := Hp); [|done]|].
  - intros log' q a Hq _. split; [by destruct q|done].
  - unfold configured, same_timeout. intros log' c' r (_ & _ & ->). done.
Qed.
Lemma keeps_call q : (∀ log, waits log q) → keeps (app_call q).
Proof. intros Hq log c Hc. by apply sat_call. Qed.
Lemma keeps_or_failed {A} record phase text (p : App A) : keeps p → keeps (or_startup_failed s record phase text p).
Proof.
  intros Hp. unfold or_startup_failed. apply keeps_bind.
  - intros log c Hc. by apply sat_try, Hp.
  - intros [e|a]; apply keeps_soft; [|apply only_ret]. apply only_bind; [destruct record; [apply soft_startup_failed|apply only_ret]|].
    intros. apply only_fail.
Qed.

Definition may_wait (ctx : AppCtx) (log : list (Exchange AppAns)) (c : Client) : Prop :=
  match ctx with RunCtx => configured c | ReadCtx => ∃ d, last_timeout log = Some d ∧ 0 < d end.
Lemma may_wait_snoc ctx log c q a :
  (match q with WithTimeout _ => False | _ => True end) → may_wait ctx log c → may_wait ctx (log ++ [Ex q a]) c.
Proof.
  intros Hq. destruct ctx; [done|]. intros (d & E & Hd). exists d. split; [|done].
  unfold last_timeout. rewrite omap_app. destruct q; try done; cbn; by rewrite app_nil_r.
Qed.
Lemma waits_line ctx log c : may_wait ctx log c → sat (readLine ctx) log c (λ _ c' r, ends_as c c' r).
Proof.
  intros Hw. unfold readLine, deadlineDuration. apply sat_bind, sat_get, sat_bind, sat_bind, sat_call; [done|]. intros u _.
  apply sat_ret. unfold readLineOnce. apply sat_bind, sat_call.
  - cbn. destruct ctx; cbn in Hw.
    2:{ right. left. split; [done|]. apply (may_wait_snoc ReadCtx log c (CtxUntil ReadCtx) u I Hw). }
    rewrite Hw. destruct Hb as [Hpos _].
    rewrite (proj2 (Z.leb_gt _ _) Hpos). simpl. destruct u as [d|]; [|by left].
    destruct (Z.ltb_spec (if d <=? 0 then 0 else d) (read_timeout s)) as [Hlt|]; [|left; by rewrite (proj2 (Z.ltb_ge _ _))].
    right. right. exists d. split.
    + unfold last_until. rewrite omap_app. cbn. by rewrite last_snoc.
    + destruct (Z.leb_spec d 0); lia.
  - intros [e| |line|readErr] _; [done..|]. apply sat_bind, sat_call; [done|]. intros [e|] _; [|done]. by destruct (is_deadline e).
Qed.
Lemma waits_read ctx log c : may_wait ctx log c → sat (readProtocolMessage ctx) log c (λ _ c' r, ends_as c c' r).
Proof.
  intros Hw. unfold readProtocolMessage. apply sat_bind, sat_call; [done|]. intros [e|] _; [done|].
  apply sat_bind. eapply sat_mono; [by apply waits_line, may_wait_snoc|]. intros log1 c1 [line|e|] Hc; [|by destruct Hc..].
  destruct Hc as [_ Hc]. apply sat_bind, sat_call; [done|]. intros ? _. by apply sat_bind, sat_call.
Qed.
Lemma waits_message : keeps (readMessage RunCtx).
Proof.
  intros log c Hc. unfold readMessage. apply sat_bind. eapply sat_mono; [by apply waits_read|].
  unfold configured, same_timeout in *. intros log1 c1 r [_ E]. unfold same_timeout in E. destruct r as [[msg raw|[raw|] err]|e|]; cbn; congruence.
Qed.
Lemma waits_read_in ctx deadline log c :
  configured c → (match ctx with RunCtx => cc_StallTimeoutMs (ss_codex s) ≤ 0 | ReadCtx => may_wait ReadCtx log c end) →
  sat (read_in s ctx deadline) log c (λ _ c' _, configured c').
Proof.
  intros Hc Hctx. unfold read_in. apply sat_bind, sat_get.
  assert (∀ c1, may_wait ctx log c1 → sat (
    let$ read := app_try (readProtocolMessage ctx) in
    app_set (λ c0, c0 <| c_readTimeoutMs := c_readTimeoutMs c |>) >>$
    let$ parentErr := app_call (CtxErr RunCtx) in let$ readCtxErr := app_call (CtxErr ctx) in
    resolveTurnReadResult parentErr readCtxErr read deadline) log c1 (λ _ c' _, configured c')) as Hrest.
  { intros c1 Hw. apply sat_bind, sat_try. eapply sat_mono; [by apply waits_read|]. intros log2 c2 r [Hr0 _].
    assert (∀ read, sat (app_set (λ c0, c0 <| c_readTimeoutMs := c_readTimeoutMs c |>) >>$
      let$ parentErr := app_call (CtxErr RunCtx) in let$ readCtxErr := app_call (CtxErr ctx) in
      resolveTurnReadResult parentErr readCtxErr read deadline) log2 c2 (λ _ c' _, configured c')) as Hr.
    { intros read. apply sat_bind, sat_set. apply keeps_bind; [by apply keeps_call| |exact Hc]. intros parentErr.
      apply keeps_bind; [by apply keeps_call|]. intros readCtxErr. apply keeps_soft, soft_resolve. }
    destruct r as [incoming|e|]; [apply Hr|apply Hr|done]. }
  destruct (Z.ltb_spec 0 (cc_StallTimeoutMs (ss_codex s))) as [Hs|Hs].
  - destruct ctx; [lia|]. by apply sat_bind, sat_set, Hrest.
  - apply sat_bind, sat_ret, Hrest. by destruct ctx.
Qed.
Lemma waits_read_turn : keeps (readTurnMessage s).
Proof.
  intros log c Hc. unfold readTurnMessage. destruct (Z.leb_spec (td_timeout (turnStreamDeadline s)) 0) as [Ht|Ht].
  - apply waits_read_in; [done|]. destruct Hb as [_ Hin].
    pose proof (Hin (cc_StallTimeoutMs (ss_codex s)) ltac:(set_solver)) as Hst. pose proof (Hin (cc_TurnTimeoutMs (ss_codex s)) ltac:(set_solver)) as Htt.
    unfold turnStreamDeadline, turn_stream_deadline in Ht. rewrite !wrap64_id in Ht by done. unfold Millisecond in *.
    destruct (Z.leb_spec (cc_StallTimeoutMs (ss_codex s)) 0); [done|].
    rewrite (proj2 (Z.leb_gt (cc_StallTimeoutMs (ss_codex s) * 1000000) 0)), andb_false_r in Ht by lia.
    destruct (Z.leb_spec (cc_TurnTimeoutMs (ss_codex s) * 1000000) 0); simpl in Ht; [lia|].
    destruct (_ <? _); simpl in Ht; lia.
  - apply sat_bind, sat_call; [done|]. intros now _. apply sat_bind, sat_get. 
    destruct (Z.leb_spec (td_timeout (turnStreamDeadline s) -i time_Sub now (c_armedAt c)) 0) as [Hr|Hr].
    + apply sat_bind, sat_call; [done|]. by intros [e|] _.
    + apply sat_bind, sat_call; [done|]. intros ? _. apply waits_read_in; [done|].
      eexists. split; [|exact Hr]. unfold last_timeout. rewrite omap_app. cbn. by rewrite last_snoc.
Qed.

#[local] Hint Resolve soft_event soft_in_context soft_failure soft_phase soft_reply soft_notification soft_input_required
  soft_auto_approved soft_reply_request soft_user_input soft_server_request soft_sinks soft_lift soft_tool_result
  soft_tool_reply soft_tool_call soft_interleaved soft_turn_notification soft_turn_message soft_arm soft_malformed
  soft_resolve soft_startup_failed : app.
Lemma waits_rounds fuel : keeps (turn_rounds s fuel).
Proof.
  induction fuel as [|fuel IH]; [by intros log c Hc|]. cbn [turn_rounds]. apply keeps_bind.
  - unfold turn_round. apply keeps_bind; [apply waits_read_turn|]. intros incoming. apply keeps_soft. only_solve.
  - intros []; [by apply keeps_soft, only_ret|done].
Qed.
Lemma waits_request fuel method params : keeps (request s fuel method params).
Proof.
  assert (∀ fuel id, keeps (await_response s fuel id)) as Ha.
  { clear fuel. intros fuel id. induction fuel as [|fuel IH]; [by intros log c Hc|]. cbn [await_response].
    apply keeps_bind; [apply waits_message|]. intros msg. destruct (responseForID msg id) as [[]|];
      [apply keeps_soft; only_solve..|]. apply keeps_bind; [apply keeps_soft; only_solve|].
    intros []; [apply keeps_soft; only_solve|done]. }
  unfold request. apply keeps_bind; [apply keeps_soft; only_solve|]. intros id.
  apply keeps_bind; [apply keeps_soft; only_solve|]. intros _. destruct params as [params|]; [|apply keeps_soft; only_solve].
  apply keeps_bind; [|intros; apply Ha]. unfold send. apply keeps_bind; [by apply keeps_call|]. intros r. apply keeps_soft. only_solve.
Qed.
Lemma waits_client_run fuel : keeps (client_run s fuel).
Proof.
  unfold client_run, startThread. apply keeps_bind.
  - apply keeps_bind; [apply keeps_or_failed, waits_request|]. intros _.
    apply keeps_bind; [apply keeps_or_failed, keeps_soft; by apply soft_send|]. intros _.
    apply keeps_bind; [apply keeps_or_failed, waits_request|]. intros r.
    apply keeps_bind; [apply keeps_or_failed, keeps_soft; only_solve|]. intros threadID. apply keeps_soft. only_solve.
  - intros threadID. generalize 1 as turn. induction (Z.to_nat (turnLimit s)) as [|more IH]; intros turn; [apply keeps_soft, only_ret|].
    cbn [run_turns]. apply keeps_bind; [|intros []; [apply IH|apply keeps_soft, only_ret]].
    unfold runSingleTurn, startTurn.
    apply keeps_bind; [apply keeps_bind; [apply keeps_or_failed, waits_request|intros; apply keeps_or_failed, keeps_soft; only_solve]|].
    intros turnID. assert (only soft (recordFirstTurnStarted s threadID turnID) ∧ only soft (recordTurnStarted s threadID turnID turn))
      as [HS1 HS2] by apply soft_started.
    do 3 (apply keeps_bind; [apply keeps_soft; only_solve|]; intros _).
    apply keeps_bind; [unfold awaitTurnCompletion; apply keeps_bind; [apply keeps_soft; only_solve|intros; apply waits_rounds]|]. intros _.
    destruct (negb (ss_refresh s)); [apply keeps_soft; only_solve|]. apply keeps_bind; [by apply keeps_call|].
    intros r. apply keeps_soft. only_solve.
Qed.
End Waits.

(** C8: No wait for the agent is without an end: with a positive read timeout and budgets that
    do not overflow, every wait for a line has the read timer, or a context that expires
    after a positive time, or a deadline of the run sooner than the read timer, so a
    silent agent cannot hold the worker. *)
Theorem waits_end `{Json, Sprint, Calendar} (s : Session) (srv : Server AppAns) fuel :
  budgets_ok (ss_codex s) →
  ∀ before ctx timer a after,
    (TrackerErrors.run srv [] (client_run s fuel (initSession s))).1 = before ++ Ex (AwaitLine ctx timer) a :: after →
    wait_ends s before ctx timer.
Proof.
  intros Hb before ctx timer a after E.
  pose proof (waits_client_run s srv Hb fuel [] (initSession s) eq_refl) as HS.
  apply (sat_requests _ _ _ _ _ _ HS before _ _ after E). simpl. lia.
Qed.

(** ** An approval is what the policy says *)

(** The results that grant nothing. *)
Definition refusals : list any :=
  [obj [("decision", AString "decline")]; obj [("decision", AString "deny")]; obj [("permissions", obj [])]].
(** The answer to an approval request of [method] with the id and the parameters of [msg]. *)
Definition approval_answer (s : Session) (msg : any_map) (method : string) : list (string * any) :=
  result_message (map_get msg "id") (obj (default [] (protocolServerRequestResult method msg (approvalPolicy s)))).

Lemma approval_known method : is_approval method = true →
  method ≠ toolUserInputRequestMethod ∧ inputRequiredServerRequest method = false ∧ method ∈ approval_methods.
Proof.
  intros (m & Hm%list_elem_of_In & E%String.eqb_eq)%existsb_exists. subst m.
  split; [|split; [|exact Hm]]; unfold approval_methods in Hm;
    repeat (apply elem_of_cons in Hm as [->|Hm]; [first [unfold toolUserInputRequestMethod; discriminate|reflexivity]|]); by apply elem_of_nil in Hm.
Qed.
Lemma approval_result method msg policy : is_approval method = true →
  ∃ result, protocolServerRequestResult method msg policy = Some result ∧
    (autoApproveRequest method policy = false → In (obj result) refusals).
Proof.
  intros (_ & _ & Hm)%approval_known. unfold approval_methods in Hm.
  repeat (apply elem_of_cons in Hm as [->|Hm]; [eexists; split; [reflexivity|intros ->; unfold refusals; cbn [In]; tauto]|]).
  by apply elem_of_nil in Hm.
Qed.

(** C11: An approval request is decided by the approval policy alone: the first thing the client
    does is to answer it with its id; when the policy approves, the turn goes on, and
    otherwise the answer grants nothing and the session ends as one that needs input. *)
Theorem approval_gate `{Json, Sprint, Calendar} (s : Session) (srv : Server AppAns) log c msg method :
  is_approval method = true → as_str (map_get msg "method") = method →
  let m := approval_answer s msg method in
  let '(log', (_, r)) := TrackerErrors.run srv log (handleServerRequest s msg method c) in
  (∃ after, log' = log ++ Ex (An := AppAns) (WriteStdin m) (srv log (WriteStdin m)) :: after) ∧
  match srv log (WriteStdin m) with
  | Sent => if autoApproveRequest method (approvalPolicy s) then r = Got false
            else r = Bad (AgentInputRequired method) ∧ ∃ v, assoc m "result" = Some v ∧ In v refusals
  | _ => ∃ e, r = Bad e
  end.
Proof.
  intros Ha Hmsg. destruct (approval_known _ Ha) as (Hu & Hi & _). apply String.eqb_neq in Hu.
  destruct (approval_result method msg (approvalPolicy s) Ha) as (result & Hr & Href).
  unfold handleServerRequest, replyServerRequest, approvalDeclinedServerRequest, protocolServerRequestAutoApproved, approval_answer.
  rewrite Hu, Hmsg, Hr, Hi, Ha. cbn [default].
  unfold reply_result, send, app_bind, app_call. cbn -[handleServerRequest input_required recordApprovalAutoApproved].
  destruct (srv log (WriteStdin (result_message (map_get msg "id") (obj result)))) as [|e|e]; cbn [TrackerErrors.run ask_bind fst snd];
    [|split; [by eexists|by eexists]..].
  unfold input_required, recordInputRequiredMessage, recordApprovalAutoApproved, record_in_context, recordRuntimeEvent.
  destruct (autoApproveRequest method (approvalPolicy s)), (ss_eventSink s);
    cbn; rewrite <- ?app_assoc; split; try (by eexists); try done; (split; [done|]); eexists; (split; [done|]); by apply Href.
Qed.

(** ** The phase a session ends in *)

(** The error [Run] returns: the outcome of the session and of its process, re-tagged when
    the sandbox did not start. *)
Definition run_outcome (ctxErr runErr waitErr : option AgentErr) (readTimeoutMs : Z) (budget elapsed : Duration)
    (res : RunnerResult) : option AgentErr :=
  classifySandboxStartupFailure (classifyAppServerOutcome ctxErr runErr waitErr readTimeoutMs budget elapsed)
    (res_OutputHead res) (res_OutputTail res).

Lemma as_mono {A B} (f : AgentErr → option A) (g : AgentErr → option B) :
  (∀ e, is_Some (f e) → is_Some (g e)) → ∀ e, is_Some (errors_As f e) → is_Some (errors_As g e).
Proof.
  intros Hfg. fix IH 1. intros e HS. destruct (g e) as [b|] eqn:Eg; [rewrite (errors_As_here _ _ _ Eg); by eexists|].
  destruct (f e) eqn:Ef; [assert (is_Some (g e)) as [? E] by (apply Hfg; rewrite Ef; by eexists); congruence|].
  destruct e as [| | |? ? [c|]|? ? [c|]|? ? ? [c|]|? ? [c|]|? [c|]| | | |? c| | |e1 e2]; cbn [errors_As] in *;
    rewrite Ef in HS; rewrite Eg; try exact HS; try (by apply IH); try (by destruct HS).
  destruct (errors_As f e1) eqn:E1.
  - destruct (IH e1) as [b Eb]; [rewrite E1; by eexists|]. rewrite Eb; by eexists.
  - destruct (errors_As g e1); [by eexists|]. by apply IH.
Qed.
Lemma turn_timeout_category e : IsTurnTimeout e = true → is_Some (ErrorCategory e).
Proof.
  intros HI. unfold ErrorCategory. eapply as_mono with (f := fun e => match e with TurnTimeoutError t el _ => Some (e, t, el) | _ => None end).
  - intros e' [a E]. destruct e'; try discriminate. by eexists.
  - unfold IsTurnTimeout, as_turn_timeout in HI. destruct (errors_As _ e); [by eexists|discriminate].
Qed.
(** What the sandbox classifier keeps. *)
Definition kept (e : AgentErr) : bool :=
  IsTimeout e || IsStall e || IsReadTimeout e || IsTurnTimeout e || agent_IsInputRequired e || IsQuotaBackoff e.
Definition sandbox_failed : AgentErr := SandboxStartupError "host denied the codex bwrap user namespace".
Lemma sandbox_cases e head tail :
  classifySandboxStartupFailure (Some e) head tail = Some e ∨
  classifySandboxStartupFailure (Some e) head tail = Some sandbox_failed ∧ kept e = false ∧
  textHasSandboxStartupFailure [agent_error_text e; head; tail] = true.
Proof.
  unfold classifySandboxStartupFailure. fold (kept e). destruct (IsSandboxStartup e); [by left|].
  destruct (kept e); [by left|]. destruct (textHasSandboxStartupFailure _); [by right|by left].
Qed.
Lemma sandbox_kept e head tail : kept e = true → classifySandboxStartupFailure (Some e) head tail = Some e.
Proof. intros Hk. destruct (sandbox_cases e head tail) as [|(_ & Hn & _)]; [done|]. by rewrite Hk in Hn. Qed.

Section Phase.
Context (cause : CancelCause) (ctxDeadline : bool) (res : RunnerResult) (model : string) (el timeout : Duration).
Definition phase_of (e : AgentErr) : string := rec_phase (classifyRunnerError cause e ctxDeadline res model el timeout).
Lemma phase_stalled e : IsStall e = true → phase_of e = PhaseStalled.
Proof. unfold phase_of, IsStall, classifyRunnerError. destruct (as_stall e) as [[[??]?]|]; [done|discriminate]. Qed.
Lemma phase_timed_out e : IsStall e = false → IsTurnTimeout e || IsReadTimeout e || IsTimeout e = true → phase_of e = PhaseTimedOut.
Proof.
  unfold phase_of, IsStall, IsTurnTimeout, IsReadTimeout, IsTimeout, classifyRunnerError, asTimeoutError.
  destruct (as_stall e); [discriminate|]. intros _.
  destruct (as_turn_timeout e) as [[[??]?]|]; [done|]. destruct (as_read_timeout e) as [[??]|]; [done|].
  destruct (as_timeout e) as [[[??]?]|]; [done|discriminate].
Qed.
End Phase.

(** The kinds the worker asks for pass from an error to the one that wraps it. *)
Definition carries (e x : AgentErr) : Prop :=
  (agent_IsInputRequired e = true → agent_IsInputRequired x = true) ∧ (IsQuotaBackoff e = true → IsQuotaBackoff x = true).
Lemma carries_join c m e w : carries e (CategoryError c m (Some (JoinErr e w))).
Proof.
  split; [unfold agent_IsInputRequired|unfold IsQuotaBackoff]; cbn [errors_As]; by destruct (errors_As _ e).
Qed.
Lemma outcome_of_failed ctxErr e waitErr readMs budget elapsed :
  ∃ x, classifyAppServerOutcome ctxErr (Some e) waitErr readMs budget elapsed = Some x ∧ carries e x ∧
    (IsStall e = true → x = e) ∧
    (IsStall e = false → isAppServerReadTimeout e || ctx_expired ctxErr || IsTurnTimeout e = true →
       IsStall x = false ∧ IsTurnTimeout x || IsReadTimeout x || IsTimeout x = true).
Proof.
  unfold classifyAppServerOutcome. destruct (IsStall e) eqn:HS; [by exists e|].
  destruct (isAppServerReadTimeout e).
  { eexists. split; [done|]. split; [done|]. split; [done|]. intros _ _. split; [exact HS|]. apply orb_true_iff. left. apply orb_true_r. }
  destruct (ctx_expired ctxErr).
  { eexists. split; [done|]. split; [done|]. split; [done|]. intros _ _. split; [exact HS|]. apply orb_true_r. }
  cbn [orb]. destruct (ErrorCategory e) as [c|] eqn:Ec.
  { exists e. do 3 (split; [done|]). intros _ ->. by split. }
  assert (IsTurnTimeout e = false) as ->.
  { destruct (IsTurnTimeout e) eqn:Et; [|done]. destruct (turn_timeout_category e Et) as [? E]. congruence. }
  destruct waitErr as [w|]; eexists; (split; [done|]); (split; [first [apply carries_join|done]|]); done.
Qed.

(** C10: How a session ends decides its phase.  There is no error exactly when neither the
    session nor its process failed; a stall is recorded as one; a read timeout, a turn
    timeout and a run out of time are recorded as time-outs; a request for input and a
    quota reach the worker as such; and what the sandbox printed shows in no error but by a
    fixed text, for a failure that is none of those. *)
Theorem outcome_decides_phase ctxErr runErr waitErr readMs budget elapsed res :
  let final := run_outcome ctxErr runErr waitErr readMs budget elapsed res in
  let outcome := classifyAppServerOutcome ctxErr runErr waitErr readMs budget elapsed in
  (final = None ↔ runErr = None ∧ waitErr = None) ∧
  (final = outcome ∨ final = Some sandbox_failed ∧ ∀ e, outcome = Some e → kept e = false) ∧
  ∀ e e', runErr = Some e → final = Some e' →
    (agent_IsInputRequired e = true → agent_IsInputRequired e' = true) ∧
    (IsQuotaBackoff e = true → IsQuotaBackoff e' = true) ∧
    ∀ cause ctxDeadline model el timeout, let phase := phase_of cause ctxDeadline res model el timeout e' in
      (IsStall e = true → phase = PhaseStalled) ∧
      (IsStall e = false → isAppServerReadTimeout e || ctx_expired ctxErr || IsTurnTimeout e = true → phase = PhaseTimedOut).
Proof.
  cbv zeta. unfold run_outcome. split; [|split].
  - destruct runErr as [e|].
    + split; [|by intros [? _]]. intros E. exfalso. revert E.
      assert (∃ x, classifyAppServerOutcome ctxErr (Some e) waitErr readMs budget elapsed = Some x) as [x ->].
      { unfold classifyAppServerOutcome. repeat case_match; by eexists. }
      by destruct (sandbox_cases x (res_OutputHead res) (res_OutputTail res)) as [->|[-> _]].
    + destruct waitErr as [w|]; [|done]. split; [|by intros [_ ?]]. intros E. exfalso. revert E.
      assert (∃ x, classifyAppServerOutcome ctxErr None (Some w) readMs budget elapsed = Some x) as [x ->].
      { unfold classifyAppServerOutcome, classifyAppServerProcessExit. repeat case_match; by eexists. }
      by destruct (sandbox_cases x (res_OutputHead res) (res_OutputTail res)) as [->|[-> _]].
  - destruct (classifyAppServerOutcome _ _ _ _ _ _) as [x|]; [|by left].
    destruct (sandbox_cases x (res_OutputHead res) (res_OutputTail res)) as [->|(-> & Hk & _)]; [by left|right].
    split; [done|]. by intros ? [= <-].
  - intros e e' -> E.
    assert (∃ x, classifyAppServerOutcome ctxErr (Some e) waitErr readMs budget elapsed = Some x ∧ carries e x ∧
      (IsStall e = true → x = e) ∧
      (IsStall e = false → isAppServerReadTimeout e || ctx_expired ctxErr || IsTurnTimeout e = true →
         IsStall x = false ∧ IsTurnTimeout x || IsReadTimeout x || IsTimeout x = true)) as (x & Ex & [Hi Hq] & Hst & Hto)
      by apply outcome_of_failed.
    rewrite Ex in E.
    assert (kept x = true → e' = x) as Hk by (intros Hk; rewrite sandbox_kept in E by done; by injection E).
    split; [intros HI; rewrite Hk; [by apply Hi|unfold kept; rewrite (Hi HI); by rewrite !orb_true_r]|].
    split; [intros HI; rewrite Hk; [by apply Hq|unfold kept; rewrite (Hq HI); by rewrite !orb_true_r]|].
    intros. split.
    + intros HS. rewrite (Hst HS) in Hk. rewrite Hk by (unfold kept; rewrite HS; by rewrite !orb_true_r). by apply phase_stalled.
    + intros HS HT. destruct (Hto HS HT) as [Hx Hx']. rewrite Hk; [by apply phase_timed_out|]. unfold kept.
      destruct (IsTimeout x), (IsTurnTimeout x), (IsReadTimeout x); try done; by rewrite ?orb_true_r.
Qed.

(** ** A session played *)

(** Two turns of an agent that asks for an approval in each, known by the names of their lines. *)
Module Played.
Definition message (line : string) : option any_map :=
  let turn := String.eqb "turn" line in
  if String.eqb line "initialized" then Some (Some [("id", AInt 1); ("result", obj [])])
  else if String.eqb line "thread" then Some (Some [("id", AInt 2); ("result", obj [("thread", obj [("id", AString "t")])])])
  else if String.eqb line "turn one" then Some (Some [("id", AInt 3); ("result", obj [("turn", obj [("id", AString "u")])])])
  else if String.eqb line "turn two" then Some (Some [("id", AInt 4); ("result", obj [("turn", obj [("id", AString "v")])])])
  else if String.eqb line "approval" then Some (Some [("id", AString "a"); ("method", AString "execCommandApproval"); ("params", obj [])])
  else if String.eqb line "completed" then Some (Some [("method", AString "turn/completed"); ("params", obj [("status", AString "completed")])])
  else None.
#[export] Instance json : Json := {
  json_object line := match message line with Some m => inr m | None => inl (PlainErr "invalid character") end;
  json_value _ := None;
  json_text v := inr (as_str v);
  json_tool_call _ := None
}.
#[export] Instance sprint : Sprint := fun _ => "map[]".
#[export] Instance calendar : Calendar := fun now _ _ => now.
Definition script : list string :=
  ["initialized"; "approval"; "thread"; "turn one"; "approval"; "completed"; "approval"; "turn two"; "completed"].
Definition server : Server AppAns := fun log q =>
  match q with
  | CtxErr _ => None
  | CtxUntil _ => None
  | WithTimeout _ | Transcript _ | RuntimeEventSink _ | PhaseTransitionSink _ _ => tt
  | AwaitLine _ _ => match script !! lines log with Some line => GotLine line | None => Closed None end
  | TimeNow => 0
  | WriteStdin _ => Sent
  | CallTool _ _ => {| ta_reports := []; ta_result := inr "" |}
  | RefreshIssueState => inr {| snap_Found := true; snap_State := "Todo"; snap_Active := true; snap_Terminal := false;
                                snap_OperatorTerminalStop := false |}
  end.
Definition session : Session := {|
  ss_codex := {| cc_Command := ""; cc_EnvPassthrough := []; cc_ApprovalPolicy := AString "never"; cc_ThreadSandbox := "workspace-write";
                 cc_TurnSandboxPolicy := zero_policy; cc_turnSandboxPolicySet := false; cc_TurnTimeoutMs := 3600000;
                 cc_ReadTimeoutMs := 5000; cc_StallTimeoutMs := 300000;
                 cc_LinearGraphQL := {| lg_AllowMutations := false; lg_AllowedMutations := [] |} |};
  ss_maxTurns := 2; ss_cleanTurnBudget := 0; ss_workdir := "/w"; ss_prompt := "p"; ss_title := "T"; ss_tools := []; ss_specs := [];
  ss_refresh := true; ss_eventSink := true; ss_phaseSink := true; ss_pid := 0
|}.
Notation played := (TrackerErrors.run server [] (client_run session 20 (initSession session))).
Example both_turns_run : played.2.2 = Got tt ∧ turn_state played.1 = (2%nat, true).
Proof. vm_compute. auto. Qed.
End Played.
Import Played.

(** The log around a call. *)
Lemma played_wait : ∃ c a after,
  played.1 = take 24 played.1 ++ Ex (AwaitLine c (Some (5 * Second))) a :: after ∧ lines (take 24 played.1) = 3%nat.
Proof. vm_compute. by eexists _, _, _. Qed.
Lemma requests_answered_witness :
  ∃ before c t a after, played.1 = before ++ Ex (AwaitLine c t) a :: after ∧ lines before = 3%nat ∧ paid before.
Proof.
  destruct played_wait as (c & a & after & E & Hl). eexists _, c, _, a, after. split; [exact E|]. split; [exact Hl|].
  exact (requests_answered session server 20 _ c _ a after E).
Defined.
Lemma played_turn : ∃ m a after, played.1 = take 55 played.1 ++ Ex (WriteStdin m) a :: after ∧
  starts_turn m = true ∧ (turn_state (take 55 played.1)).1 = 1%nat.
Proof. vm_compute. by eexists _, _, _. Qed.
Lemma turns_are_renewed_witness :
  ∃ before m a after, played.1 = before ++ Ex (WriteStdin m) a :: after ∧ (turn_state before).1 = 1%nat ∧
    (turn_state before).2 = true ∧ ((turn_state before).1 < Z.to_nat (turnLimit session))%nat.
Proof.
  destruct played_turn as (m & a & after & E & Hm & Ht). eexists _, m, a, after. split; [exact E|]. split; [exact Ht|].
  exact (turns_are_renewed session server 20 _ m a after E Hm).
Defined.
Lemma played_lines : at_most 9 server.
Proof.
  intros log ctx t line. cbn [server]. destruct (script !! lines log) eqn:E; [|discriminate].
  intros _. apply lookup_lt_Some in E. exact E.
Qed.
Lemma session_ends_witness : (9 < 20)%nat ∧ (TrackerErrors.run server [] (client_run session 20 (initSession session))).2.2 ≠ NoFuel.
Proof. split; [lia|]. apply (session_ends session server 9 20 played_lines). lia. Defined.
Lemma played_turn_wait : ∃ c a after,
  played.1 = take 35 played.1 ++ Ex (AwaitLine c None) a :: after.
Proof. vm_compute. by eexists _, _, _. Qed.
Lemma played_budgets : budgets_ok (ss_codex session).
Proof.
  split; [by vm_compute|]. intros ms Hms. repeat (apply elem_of_cons in Hms as [->|Hms]; [by vm_compute|]). by apply elem_of_nil in Hms.
Qed.
Lemma waits_end_witness :
  budgets_ok (ss_codex session) ∧ ∃ before c a after,
    played.1 = before ++ Ex (AwaitLine c None) a :: after ∧ wait_ends session before c None.
Proof.
  split; [exact played_budgets|]. destruct played_turn_wait as (c & a & after & E). eexists _, c, a, after. split; [exact E|].
  exact (waits_end session server 20 played_budgets _ c None a after E).
Defined.
Definition asks_approval : any_map := Some [("id", AInt 7); ("method", AString "applyPatchApproval")].
Definition on_request : Session :=
  {| ss_codex := (ss_codex session) <| cc_ApprovalPolicy := AString "on-request" |>; ss_maxTurns := 1; ss_cleanTurnBudget := 0;
     ss_workdir := ""; ss_prompt := ""; ss_title := ""; ss_tools := []; ss_specs := []; ss_refresh := false; ss_eventSink := false;
     ss_phaseSink := false; ss_pid := 0 |}.
Lemma approval_gate_witness :
  (TrackerErrors.run server [] (handleServerRequest on_request asks_approval "applyPatchApproval" (initSession on_request))).2.2
  = Bad (AgentInputRequired "applyPatchApproval").
Proof.
  pose proof (approval_gate on_request server [] (initSession on_request) asks_approval "applyPatchApproval" eq_refl eq_refl) as HG.
  cbv zeta in HG. destruct (TrackerErrors.run _ _ _) as [log' [c r]]. cbn in *. apply HG.
Defined.
Lemma outcome_decides_phase_witness :
  let stall := StallError 1 2 "" (Some (CategoryError CategoryPortExit "" None)) in
  ∃ e, run_outcome None (Some stall) (Some (PlainErr "exit status 1")) 5000 0 0 zero_Result = Some e ∧
    phase_of NotCanceled false zero_Result "" 0 0 e = PhaseStalled.
Proof.
  intros stall. assert (∃ e, run_outcome None (Some stall) (Some (PlainErr "exit status 1")) 5000 0 0 zero_Result = Some e) as [e E]
    by (vm_compute; by eexists).
  exists e. split; [exact E|].
  destruct (outcome_decides_phase None (Some stall) (Some (PlainErr "exit status 1")) 5000 0 0 zero_Result) as (_ & _ & HP).
  apply (HP stall e eq_refl E). by vm_compute.
Defined.
