(* ===== verification/Sandbox.v ===== *)
(** * Starting an agent's process (internal/runner/sandbox.go, workspace_cwd.go)

    The checks of the working directory, the environment of a sandbox, the arguments of
    bubblewrap and firejail, the netfilter file, and the set-up of the app-server's and the
    shell runner's commands, over [Sys].  The theorems: what a wrapped command may touch and
    where that was checked, that its environment is the allow-list's, and who removes a
    netfilter file that was written.

    Arguments: the working directory of the worker, the environment, exec.LookPath with the
    text of its error, net.ParseCIDR (the network's text, and whether its address is an
    IPv4 one), the path os.CreateTemp picks in a directory, and GOOS. *)

From S2P Require Import Prelude GoStd Payload Poller Paths Sys SafeRemove Hashes GitCmd Profiles EnvPolicy GoCache RunTask Config AgentErrors AppCommand.

(** ** Commands *)

(** [cmd.Cancel]: the kill of exec.CommandContext, the removal of files, or the
    termination of the process group after another cancellation. *)
Inductive CancelFn := KillProcess | RemoveFiles (paths : list string) | TerminateGroup (cleanup : option CancelFn).
Record ExecCmd := {
  ec_Args : list string;
  ec_Dir : string;
  ec_Env : option (list string);       (* None is nil: the environment of the worker *)
  ec_Cancel : CancelFn;
  ec_WaitDelay : Duration
}.
#[export] Instance eta_ExecCmd : Eta ExecCmd := fun r =>
  Build_ExecCmd (ec_Args r) (ec_Dir r) (ec_Env r) (ec_Cancel r) (ec_WaitDelay r).
Definition CommandContext (name : string) (args : list string) : ExecCmd :=
  {| ec_Args := name :: args; ec_Dir := ""; ec_Env := None; ec_Cancel := KillProcess; ec_WaitDelay := 0 |}.

(** What of the run's input the set-up reads. *)
Record StartInput := { si_Workdir : string; si_WorkspaceRoot : string; si_Config : Config.Config }.



Section Sandbox.
Context (getwd : option string) (lookup : lookup_env) (look_path : string → string + string)
  (parse_cidr : string → option (string * bool)) (temp_file : string → string) (goos : string).

(** ** The working directory *)

Definition ensurePathWithinRoot (path root : string) : Fallible unit :=
  let! canonicalPath := wrap_error "check workspace root invariant" (os_value (EvalSymlinks path)) in
  let! canonicalRoot := wrap_error "check workspace root invariant for root" (os_value (EvalSymlinks root)) in
  match Rel canonicalRoot canonicalPath with
  | None => fail (Message "check workspace root invariant")
  | Some rel =>
      if String.eqb rel "." then fail (Message "must be under workspace root, not the workspace root itself")
      else if String.eqb rel "" || goes_up rel || IsAbs rel then fail (Message "is outside workspace root")
      else ok tt
  end.
Definition abs_or (text path : string) : Fallible string :=
  match Abs getwd path with Some p => ok p | None => fail (Message text) end.
(** The runtime root, else the configured one. *)
Definition root_of (i : StartInput) : string :=
  let root := TrimSpace (si_WorkspaceRoot i) in
  if String.eqb root "" then TrimSpace (wc_Root (cf_Workspace (si_Config i))) else root.

Definition validateAgentWorkdir (i : StartInput) (cwd : string) : Fallible unit :=
  let workspacePath := TrimSpace (si_Workdir i) in
  if String.eqb workspacePath "" then fail (Message "invalid_workspace_cwd: workspace_path is required")
  else if String.eqb (TrimSpace cwd) "" then fail (Message "invalid_workspace_cwd: cwd is required")
  else
    let! workspaceAbs := abs_or "invalid_workspace_cwd: resolve workspace_path" workspacePath in
    let! cwdAbs := abs_or "invalid_workspace_cwd: resolve cwd" (TrimSpace cwd) in
    if negb (String.eqb cwdAbs workspaceAbs) then fail (Message "invalid_workspace_cwd: cwd does not match workspace_path")
    else if String.eqb (root_of i) "" then fail (Message "invalid_workspace_cwd: workspace root is required")
    else
      let! rootAbs := abs_or "invalid_workspace_cwd: resolve workspace root" (root_of i) in
      wrap_error "invalid_workspace_cwd" (ensurePathWithinRoot workspaceAbs rootAbs).
Definition validateAgentCommandWorkdir (i : StartInput) (cmd : ExecCmd) : Fallible unit := validateAgentWorkdir i (ec_Dir cmd).

Definition sandboxWorkdirForInput (i : StartInput) : Fallible string :=
  let! workdir := abs_or "resolve sandbox workdir" (si_Workdir i) in
  if String.eqb (root_of i) ""
  then fail (Message "sandbox requires runtime workspace root so the workspace-root invariant can be enforced")
  else
    let! rootAbs := abs_or "resolve runtime workspace root" (root_of i) in
    let! _ := ensurePathWithinRoot workdir rootAbs in
    ok workdir.

(** ** The environment of a sandbox *)

Definition indexEnvByName (env : list string) : gmap string string :=
  fold_left (fun m pair => match Cut pair "=" with
                           | Some (name, value) => if String.eqb name "" then m else <[name := value]> m
                           | None => m
                           end) env ∅.
Definition allowlistedEnvValue (name : string) (primary : gmap string string) (cfg : Config.Config) : option string :=
  if String.eqb name "" || str_contains name "=" then None
  else if negb (String.eqb (AgentEnvPassthroughDenyReasonForConfigWithLookup name (policy_config cfg) lookup) "") then None
  else match primary !! name with Some value => Some value | None => lookup name end.
(** The names seen, and the entries. *)
Fixpoint allow_names (primary : gmap string string) (cfg : Config.Config) (allow seen : list string)
    (env : list (string * string)) : list string * list (string * string) :=
  match allow with
  | [] => (seen, env)
  | raw :: allow =>
      let name := TrimSpace raw in
      if bool_decide (name ∈ seen) then allow_names primary cfg allow seen env
      else match allowlistedEnvValue name primary cfg with
           | None => allow_names primary cfg allow seen env
           | Some value => allow_names primary cfg allow (name :: seen) (env ++ [(name, value)])
           end
  end.
Fixpoint carry_names (names : list string) (primary : gmap string string) (seen : list string) (env : list (string * string))
    : Prog (list (string * string)) :=
  match names with
  | [] => Done env
  | name :: names =>
      if bool_decide (name ∈ seen) then carry_names names primary seen env
      else match primary !! name with
           | None => carry_names names primary seen env
           | Some value =>
               let* injected := isWorkerInjectedGoCache value in
               if injected : bool then carry_names names primary (name :: seen) (env ++ [(name, value)])
               else carry_names names primary seen env
           end
  end.
Definition carryWorkerInjectedGoCache (env : list (string * string)) (primary : gmap string string) (seen : list string) :=
  carry_names goCacheNames primary seen env.
(** The entries as names and values; [env_pair] joins one. *)
Definition env_pair (kv : string * string) : string := kv.1 +:+ "=" +:+ kv.2.
Definition sandbox_entries (primary allow : list string) (cfg : Config.Config) : Prog (list (string * string)) :=
  match allow with
  | [] => Done []
  | _ =>
      let primaryByName := indexEnvByName primary in
      let '(seen, env) := allow_names primaryByName cfg allow [] [] in
      carryWorkerInjectedGoCache env primaryByName seen
  end.
(** [None] is nil, which a slice is until something is appended to it. *)
Definition sandboxEnv (primary allow : list string) (cfg : Config.Config) : Prog (option (list string)) :=
  let* entries := sandbox_entries primary allow cfg in
  Done (match allow, entries with _ :: _, [] => None | _, _ => Some (map env_pair entries) end).

(** ** The wrapped command *)

Definition sandboxActive (cfg : SandboxConfig) : bool :=
  sb_Enabled cfg && negb (String.eqb (sb_Backend cfg) "") && negb (String.eqb (sb_Backend cfg) "none").
Definition is_allowlist (cfg : SandboxConfig) : bool := String.eqb (sb_NetworkMode cfg) "allowlist".
Definition validateSandboxRuntimeConfig (cfg : SandboxConfig) : Fallible unit :=
  if negb (String.eqb goos "linux") then fail (Message "sandbox.backend requires linux host OS")
  else if is_allowlist cfg then
    if negb (String.eqb (sb_Backend cfg) "firejail")
    then fail (Message "sandbox network allowlist requires sandbox.backend firejail")
    else match sb_NetworkAllowlistCIDRs cfg with
         | [] => fail (Message "sandbox.network=allowlist requires sandbox.network_allowlist_cidrs")
         | _ => ok tt
         end
  else ok tt.
Definition sandboxChildArgs (cmd : ExecCmd) : Fallible (list string) :=
  match ec_Args cmd with [] => fail (Message "sandbox cannot wrap empty command") | args => ok args end.
Definition LookPath (text file : string) : Fallible string :=
  match look_path file with inr p => ok p | inl err => fail (Wrapped text (Message err)) end.
(** [ContainsAny] of a slash and a backslash. *)
Fixpoint has_separator (s : string) : bool :=
  match s with EmptyString => false | String c t => byte_is 47 c || byte_is 92 c || has_separator t end.
Definition resolveSandboxChildArgs (childArgs : list string) : Fallible (list string) :=
  match childArgs with
  | [] => fail (Message "sandbox cannot wrap empty command")
  | file :: rest =>
      if IsAbs file || has_separator file then ok childArgs
      else let! resolved := LookPath "sandbox child binary not found in PATH" file in ok (resolved :: rest)
  end.
Fixpoint appendCredentialMounts (args credentialFiles : list string) (mountArgs : string → list string) : Fallible (list string) :=
  match credentialFiles with
  | [] => ok args
  | raw :: files =>
      let f := TrimSpace raw in
      if String.eqb f "" then appendCredentialMounts args files mountArgs
      else
        let! _ := wrap_error "sandbox credential file is not readable" (os_value (Stat f)) in
        appendCredentialMounts (args ++ mountArgs f) files mountArgs
  end.

(** *** bubblewrap *)

Definition bubblewrapBaseArgs (workdir : string) : list string :=
  ["--die-with-parent"; "--new-session"; "--unshare-pid"; "--unshare-ipc"; "--unshare-uts";
   "--proc"; "/proc"; "--dev"; "/dev"; "--ro-bind"; "/usr"; "/usr"; "--ro-bind"; "/bin"; "/bin";
   "--ro-bind"; "/lib"; "/lib"; "--tmpfs"; "/tmp"; "--bind"; workdir; workdir; "--chdir"; workdir].
Definition appendOptionalBubblewrapLib64 (args : list string) : Fallible (list string) :=
  let* r := call (Stat "/lib64") in
  match r with
  | inr _ => ok (args ++ ["--ro-bind"; "/lib64"; "/lib64"])
  | inl err => if os_IsNotExist err then ok args
               else fail (Wrapped "check optional bubblewrap /lib64 bind source" (FromOs err))
  end.
Definition no_network (cfg : SandboxConfig) : bool := String.eqb (sb_NetworkMode cfg) "none" || String.eqb (sb_NetworkMode cfg) "".
Definition appendBubblewrapNetworkArgs (args : list string) (cfg : SandboxConfig) : list string :=
  if no_network cfg then args ++ ["--unshare-net"] else args.
Definition appendBubblewrapEnvArgs (args env : list string) : list string :=
  fold_left (fun args pair => let '(name, value, _) := Cut3 pair "=" in args ++ ["--setenv"; name; value]) env args.
Definition bubblewrapCredentialMount (path : string) : list string := ["--ro-bind"; path; path].
Definition bubblewrapCommand (cfg : SandboxConfig) (workdir : string) (childArgs : list string) (env : option (list string)) : Fallible ExecCmd :=
  let! bwrap := LookPath "bubblewrap sandbox requested but bwrap binary not found in PATH" "bwrap" in
  let! childArgs := resolveSandboxChildArgs childArgs in
  if is_allowlist cfg then fail (Message "sandbox network allowlist requires firejail --netfilter support")
  else
    let! args := appendOptionalBubblewrapLib64 (bubblewrapBaseArgs workdir) in
    let args := appendBubblewrapNetworkArgs args cfg in
    let args := appendBubblewrapEnvArgs args (default [] env) in
    let! args := appendCredentialMounts args (sb_CredentialFiles cfg) bubblewrapCredentialMount in
    ok ((CommandContext bwrap (args ++ "--" :: childArgs)) <| ec_Dir := workdir |> <| ec_Env := env |>).

(** *** firejail *)

Definition firejailAllowlistNetArg (cfg : SandboxConfig) : Fallible string :=
  let iface := TrimSpace (sb_NetworkInterface cfg) in
  if String.eqb iface "" then fail (Message "sandbox.network=allowlist requires sandbox.network_interface")
  else ok ("--net=" +:+ iface).
(** The line of one CIDR, empty for a blank one. *)
Definition appendFirejailNetfilterRule (cidr : string) : Err + string :=
  let cidr := TrimSpace cidr in
  if String.eqb cidr "" then inr ""
  else match parse_cidr cidr with
       | None => inl (Message "sandbox network allowlist contains invalid CIDR")
       | Some (network, is_ipv4) =>
           if negb is_ipv4 then inl (Message "sandbox network allowlist CIDR is IPv6; Firejail --netfilter supports IPv4 rules only")
           else inr ("-A OUTPUT -d " +:+ network +:+ " -j ACCEPT" +:+ newline)
       end.
Fixpoint netfilter_rules (cidrs : list string) : Err + string :=
  match cidrs with
  | [] => inr ""
  | cidr :: cidrs =>
      match appendFirejailNetfilterRule cidr with
      | inl e => inl e
      | inr line => match netfilter_rules cidrs with inl e => inl e | inr rest => inr (line +:+ rest) end
      end
  end.
Definition netfilter_head : string := "*filter" +:+ newline +:+ ":OUTPUT DROP [0:0]" +:+ newline.
Definition firejailNetfilterContent (cidrs : list string) : Err + string :=
  match cidrs with
  | [] => inl (Message "sandbox network allowlist requires at least one CIDR")
  | _ => match netfilter_rules cidrs with
         | inl e => inl e
         | inr rules => inr (netfilter_head +:+ rules +:+ "COMMIT" +:+ newline)
         end
  end.
Definition temp_flags : list string := ["O_RDWR"; "O_CREATE"; "O_EXCL"].
Definition writeFirejailNetfilterFile (body : string) : Fallible string :=
  let* tmp := call TempDir in
  let name := temp_file tmp in
  let! fd := wrap_error "create firejail netfilter allowlist" (os_value (OpenFile name temp_flags 384)) in
  let* written := call (FdWrite fd body) in
  match written with
  | Some err =>
      let* _ := call (Close fd) in
      fail (Wrapped "write firejail netfilter allowlist" (FromOs err))
  | None =>
      let! _ := wrap_error "close firejail netfilter allowlist" (os_done (Close fd)) in
      ok name
  end.
Definition writeFirejailNetfilter (cidrs : list string) : Fallible string :=
  match firejailNetfilterContent cidrs with inl e => fail e | inr body => writeFirejailNetfilterFile body end.
(** The first error other than that a file is not there. *)
Fixpoint removeFiles (paths : list string) : Fallible unit :=
  match paths with
  | [] => ok tt
  | path :: paths =>
      let* r := call (Remove path) in
      let* rest := removeFiles paths in
      Done (match r with
            | Some err => if os_IsNotExist err then rest else inl (FromOs err)
            | None => rest
            end)
  end.
(** The deferred clean-up of an error. *)
Definition cleanup_on_error {A} (files : list string) (p : Fallible A) : Fallible A :=
  let* r := p in
  match r with
  | inl e => match files with [] => fail e | _ => let* _ := removeFiles files in fail e end
  | inr a => ok a
  end.
(** The arguments, and the files to clean up. *)
Definition buildFirejailNetArgs (cfg : SandboxConfig) : Fallible (list string * list string) :=
  if negb (is_allowlist cfg) then ok (["--net=none"], [])
  else
    let! filter := writeFirejailNetfilter (sb_NetworkAllowlistCIDRs cfg) in
    cleanup_on_error [filter]
      (let! netArg := firejailAllowlistNetArg cfg in
       ok ([netArg; "--netfilter=" +:+ filter], [filter])).
Definition cleanup_script : string :=
  "cleanup_file=$1; shift; " +:+ quote "$@" +:+ "; status=$?; rm -f " +:+ quote "$cleanup_file" +:+ "; exit " +:+ quote "$status".
Definition wireFirejailCleanup (firejail : string) (args cleanupFiles : list string) : Fallible ExecCmd :=
  match cleanupFiles with
  | [] => ok (CommandContext firejail args)
  | [file] =>
      ok ((CommandContext "/bin/sh" (["-c"; cleanup_script; "aiops-firejail-cleanup"; file; firejail] ++ args))
            <| ec_Cancel := RemoveFiles cleanupFiles |> <| ec_WaitDelay := 1 |>)
  | _ => fail (Message "firejail sandbox expected one cleanup file")
  end.
Definition firejailCredentialMount (path : string) : list string := ["--read-only=" +:+ path; "--whitelist=" +:+ path].
Definition firejailCommand (cfg : SandboxConfig) (workdir : string) (childArgs : list string) (env : option (list string)) : Fallible ExecCmd :=
  let! firejail := LookPath "firejail sandbox requested but firejail binary not found in PATH" "firejail" in
  let! childArgs := resolveSandboxChildArgs childArgs in
  let args := ["--quiet"; "--noprofile"; "--private=" +:+ workdir; "--whitelist=" +:+ workdir; "--private-tmp"] in
  let! net := buildFirejailNetArgs cfg in
  cleanup_on_error net.2
    (let args := args ++ net.1 ++ map (fun pair => "--env=" +:+ pair) (default [] env) in
     let! args := appendCredentialMounts args (sb_CredentialFiles cfg) firejailCredentialMount in
     let! wrapped := wireFirejailCleanup firejail (args ++ "--" :: childArgs) net.2 in
     ok (wrapped <| ec_Dir := workdir |> <| ec_Env := env |>)).

(** *** Which one *)

Definition applySandbox (i : StartInput) (cmd : ExecCmd) : Fallible ExecCmd :=
  let cfg := cf_Sandbox (si_Config i) in
  if negb (sandboxActive cfg) then ok cmd
  else
    let! _ := validateSandboxRuntimeConfig cfg in
    let! workdir := sandboxWorkdirForInput i in
    let! childArgs := sandboxChildArgs cmd in
    let* env := sandboxEnv (default [] (ec_Env cmd)) (sb_EnvAllowlist cfg) (si_Config i) in
    if String.eqb (sb_Backend cfg) "bubblewrap" then bubblewrapCommand cfg workdir childArgs env
    else if String.eqb (sb_Backend cfg) "firejail" then firejailCommand cfg workdir childArgs env
    else fail (Message "sandbox.backend is not supported").

(** ** Setting up a runner's command *)

Definition killGrace : Duration := 5 * Second.
(** [configurePlatformKill] of Unix. *)
Definition configurePlatformKill (cmd : ExecCmd) : ExecCmd :=
  cmd <| ec_Cancel := TerminateGroup (if ec_WaitDelay cmd =? 0 then None else Some (ec_Cancel cmd)) |>.

Inductive SetupErr := FromCommand (e : AgentErr) | FromSetup (e : Err).
Definition or_setup {A B} (p : Fallible A) (f : A → Prog (SetupErr + B)) : Prog (SetupErr + B) :=
  let* r := p in match r with inl e => Done (inl (FromSetup e)) | inr a => f a end.
(** The command, whether it runs codex directly, and whether a sandbox wraps it.  [active]
    are the build caches in use as the reaper sees them. *)
Definition setupAppServerCommand (stat : string → option (bool * Z)) (loginPath : option (unit → string))
    (active : nat → active_map) (i : StartInput) : Prog (SetupErr + (ExecCmd * bool * bool)) :=
  let cfg := si_Config i in
  let env := codexAppServerEnvWithLookup (cc_EnvPassthrough (cf_Codex cfg)) (policy_config cfg) lookup loginPath in
  let* _ := reapSandboxGoBuildCaches active in
  let* env := withSandboxGoToolchainCaches getwd env (si_Workdir i) in
  match NewCodexAppServerCommand stat look_path (cc_Command (cf_Codex cfg)) env with
  | inl e => Done (inl (FromCommand e))
  | inr c =>
      let cmd := {| ec_Args := app_argv c; ec_Dir := si_Workdir i; ec_Env := Some env; ec_Cancel := KillProcess; ec_WaitDelay := 0 |} in
      or_setup (validateAgentCommandWorkdir i cmd) (fun _ =>
      or_setup (applySandbox i cmd) (fun cmd =>
        Done (inr ((configurePlatformKill cmd) <| ec_WaitDelay := killGrace |>, app_direct c, sandboxActive (cf_Sandbox cfg)))))
  end.

(** [validateAppServerWorkdir]. *)
Definition validateAppServerWorkdir (workdir : string) : Prog (option AgentErr) :=
  let invalid msg err := Done (Some (CategoryError CategoryInvalidWorkspaceCWD msg err)) in
  if blank workdir then invalid "codex app-server workspace cwd is empty" None
  else
    let* info := call (Stat workdir) in
    match info with
    | inl ENotExist => invalid "codex app-server workspace cwd is invalid" (Some (PlainErr "no such file or directory"))
    | inl (EOther text) => invalid "codex app-server workspace cwd is invalid" (Some (PlainErr text))
    | inr info => if fi_IsDir info then Done None else invalid "codex app-server workspace cwd is not a directory" None
    end.
End Sandbox.

(** ** The shell runner (internal/runner/shell.go) *)

Section Shell.
Context (getwd : option string) (lookup : lookup_env) (look_path : string → string + string)
  (parse_cidr : string → option (string * bool)) (temp_file : string → string) (goos : string)
  (loginPath : option (unit → string)).

(** The command ready to run, and the open prompt its stdin is. *)
Definition shell_start (name : string) (i : StartInput) : Fallible (ExecCmd * Fd) :=
  let cfg := si_Config i in
  let is_claude := String.eqb name "claude" in
  let command := if is_claude then cc_Command (cf_Claude cfg) else "" in
  if String.eqb command "" then fail (Message "empty command for runner")
  else
    let env := agentEnvWithLookup (if is_claude then cc_EnvPassthrough (cf_Claude cfg) else []) (policy_config cfg) lookup loginPath in
    let cmd := (CommandContext "sh" ["-c"; command]) <| ec_Dir := si_Workdir i |> <| ec_Env := Some env |> in
    let! _ := validateAgentCommandWorkdir getwd i cmd in
    let! prompt := wrap_error "open prompt file" (os_value (OpenFile (Join [si_Workdir i; ".aiops"; "PROMPT.md"]) ["O_RDONLY"] 0)) in
    let* wrapped := applySandbox getwd lookup look_path parse_cidr temp_file goos i cmd in
    match wrapped with
    | inl e => let* _ := call (Close prompt) in fail e
    | inr cmd => ok ((configurePlatformKill cmd) <| ec_WaitDelay := killGrace |>, prompt)
    end.
(** The results, from how the command ended. *)
Definition shell_outcome (name : string) (runErr ctxErr : option AgentErr) (budget elapsed : Duration)
    : RunnerResult * option AgentErr :=
  match runErr with
  | Some e => (zero_Result, Some (if ctx_expired ctxErr then TimeoutError budget elapsed (Some e) else e))
  | None => ({| res_Summary := name +:+ " completed"; res_RuntimeEvents := []; res_IssueExitState := None; res_OutputBytes := 0;
                res_OutputDropped := 0; res_OutputHead := ""; res_OutputTail := "" |}, None)
  end.
End Shell.

(** ** The environment of a sandbox *)

Lemma Cut_env_pair kv : str_contains kv.1 "=" = false → Cut (env_pair kv) "=" = Some kv.
Proof.
  destruct kv as [n v]. unfold env_pair. cbn [fst snd]. induction n as [|a n IH]; intros Hn; [by destruct v|].
  rewrite !str_app_cons. cbn [str_contains] in Hn. apply orb_false_iff in Hn as [Ha Hn]. cbn [Cut].
  unfold HasPrefix in Ha. cbn [CutPrefix] in *. destruct (Ascii.eqb _ a); [by destruct n|]. change (String (Ascii.Ascii _ _ _ _ _ _ _ _) ("" +:+ v)) with ("=" +:+ v). by rewrite (IH Hn).
Qed.

Section Environment.
Context (lookup : lookup_env) (cfg : Config.Config).
Definition denied (name : string) : bool :=
  negb (String.eqb (AgentEnvPassthroughDenyReasonForConfigWithLookup name (policy_config cfg) lookup) "").
(** An entry of the allow-list, with the value the runner set or else the worker's. *)
Definition listed (allow : list string) (primary : gmap string string) (kv : string * string) : Prop :=
  kv.1 ∈ map TrimSpace allow ∧ kv.1 ≠ "" ∧ str_contains kv.1 "=" = false ∧ denied kv.1 = false ∧
  (primary !! kv.1 = Some kv.2 ∨ primary !! kv.1 = None ∧ lookup kv.1 = Some kv.2).
(** A build cache the worker injected. *)
Definition carried (primary : gmap string string) (past : list Event) (kv : string * string) : Prop :=
  kv.1 ∈ goCacheNames ∧ primary !! kv.1 = Some kv.2 ∧
  ∃ tmp, Ev TempDir tmp ∈ past ∧ let root := Join [tmp; "aiops-go-cache"] in kv.2 = root ∨ HasPrefix kv.2 (root +:+ slash) = true.
Definition env_ok (allow : list string) (primary : gmap string string) (past : list Event) (entries : list (string * string)) : Prop :=
  NoDup (map fst entries) ∧ Forall (λ kv, listed allow primary kv ∨ carried primary past kv) entries.
(** Every name of the allow-list that has a value is there. *)
Definition env_full (allow : list string) (primary : gmap string string) (entries : list (string * string)) : Prop :=
  ∀ raw value, raw ∈ allow → allowlistedEnvValue lookup (TrimSpace raw) primary cfg = Some value → TrimSpace raw ∈ map fst entries.

Lemma allowlisted_listed primary name value :
  allowlistedEnvValue lookup name primary cfg = Some value →
  name ≠ "" ∧ str_contains name "=" = false ∧ denied name = false ∧ (primary !! name = Some value ∨ primary !! name = None ∧ lookup name = Some value).
Proof.
  unfold allowlistedEnvValue, denied. destruct (_ || _) eqn:E1; [done|]. apply orb_false_iff in E1 as [E1%String.eqb_neq E2].
  destruct (negb _); [done|]. intros Hv. split_and!; try done. destruct (primary !! name) as [v|]; [by left|by right].
Qed.
Lemma allow_names_ok primary all allow seen env :
  (∀ raw, raw ∈ allow → raw ∈ all) → (∀ n, n ∈ seen ↔ n ∈ map fst env) → NoDup (map fst env) → Forall (listed all primary) env →
  let '(seen', env') := allow_names lookup primary cfg allow seen env in
  (∀ n, n ∈ seen' ↔ n ∈ map fst env') ∧ NoDup (map fst env') ∧ Forall (listed all primary) env' ∧
  (∀ n, n ∈ map fst env → n ∈ map fst env') ∧ env_full allow primary env'.
Proof.
  revert seen env. induction allow as [|raw allow IH]; intros seen env Hall Hs Hn Hf; cbn [allow_names].
  { split_and!; try done. intros raw value Hr. by apply elem_of_nil in Hr. }
  assert (∀ raw', raw' ∈ allow → raw' ∈ all) as Hall' by (intros r Hr; apply Hall; by apply elem_of_cons; right).
  destruct (bool_decide_reflect (TrimSpace raw ∈ seen)) as [Hin|Hout].
  - specialize (IH seen env Hall' Hs Hn Hf). destruct (allow_names _ _ _ _ _ _) as [seen' env'].
    destruct IH as (H1 & H2 & H3 & H4 & H5). split_and!; try done.
    intros r value [->|Hr]%elem_of_cons Hv; [apply H4, Hs, Hin|by eapply H5].
  - destruct (allowlistedEnvValue lookup (TrimSpace raw) primary cfg) as [value|] eqn:Ev.
    + specialize (IH (TrimSpace raw :: seen) (env ++ [(TrimSpace raw, value)]) Hall').
      destruct (allow_names _ _ _ _ _ _) as [seen' env'].
      destruct IH as (H1 & H2 & H3 & H4 & H5).
      * intros n. rewrite map_app, elem_of_app, elem_of_cons, Hs. cbn. rewrite list_elem_of_singleton. tauto.
      * rewrite map_app. apply NoDup_app. split_and!; [done| |apply NoDup_singleton].
        intros n Hn' ->%list_elem_of_singleton. apply Hout. by apply Hs.
      * apply Forall_app. split; [done|]. apply Forall_singleton. destruct (allowlisted_listed _ _ _ Ev) as (? & ? & ? & ?).
        split_and!; try done. cbn. apply list_elem_of_fmap. exists raw. split; [done|]. apply Hall. by apply elem_of_cons; left.
      * split_and!; try done.
        -- intros n Hn'. apply H4. rewrite map_app, elem_of_app. by left.
        -- intros r v [->|Hr]%elem_of_cons Hv; [|by eapply H5].
           apply H4. rewrite map_app, elem_of_app. right. by apply list_elem_of_singleton.
    + specialize (IH seen env Hall' Hs Hn Hf). destruct (allow_names _ _ _ _ _ _) as [seen' env'].
      destruct IH as (H1 & H2 & H3 & H4 & H5). split_and!; try done.
      intros r v [->|Hr]%elem_of_cons Hv; [congruence|by eapply H5].
Qed.
Lemma env_ok_more allow primary past past' entries : past `prefix_of` past' → env_ok allow primary past entries → env_ok allow primary past' entries.
Proof.
  intros [new ->] [Hn Hf]. split; [done|]. eapply Forall_impl; [exact Hf|]. intros kv [Hl|(H1 & H2 & tmp & H3 & H4)]; [by left|right].
  split_and!; try done. exists tmp. split; [|done]. apply elem_of_app. by left.
Qed.
Lemma carry_names_ok os allow primary names : ∀ past seen env,
  (∀ n, n ∈ names → n ∈ goCacheNames) → (∀ n, n ∈ seen ↔ n ∈ map fst env) → env_ok allow primary past env →
  safe anything os past (carry_names names primary seen env)
    (λ past' env', env_ok allow primary past' env' ∧ (∀ n, n ∈ map fst env → n ∈ map fst env')).
Proof.
  induction names as [|name names IH]; intros past seen env Hnames Hs He; cbn [carry_names]; [done|].
  assert (∀ n, n ∈ names → n ∈ goCacheNames) as Hnames' by (intros n Hn; apply Hnames; by apply elem_of_cons; right).
  destruct (bool_decide_reflect (name ∈ seen)) as [Hin|Hout]; [by apply IH|].
  destruct (primary !! name) as [value|] eqn:Evalue; [|by apply IH].
  unfold isWorkerInjectedGoCache, aiopsGoCacheRoot. cbn [prog_bind call safe]. split; [done|].
  set (tmp := os string past TempDir). set (past1 := past ++ [Ev TempDir tmp]).
  assert (env_ok allow primary past1 env) as He1 by (eapply env_ok_more; [|exact He]; by eexists).
  destruct (_ || _) eqn:Einj; [|by apply IH].
  eapply safe_mono; [apply (IH past1 (name :: seen) (env ++ [(name, value)]) Hnames')|].
  - intros n. rewrite map_app, elem_of_app, elem_of_cons, Hs. cbn. rewrite list_elem_of_singleton. tauto.
  - destruct He1 as [Hn Hf]. split.
    + rewrite map_app. apply NoDup_app. split_and!; [done| |apply NoDup_singleton].
      intros n Hn' ->%list_elem_of_singleton. apply Hout. by apply Hs.
    + apply Forall_app. split; [done|]. apply Forall_singleton. right. split_and!; [apply Hnames; by apply elem_of_cons; left|done|].
      exists tmp. split; [apply elem_of_app; right; by apply list_elem_of_singleton|]. cbv zeta. cbn [snd].
      apply orb_true_iff in Einj as [E%String.eqb_eq|E]; [by left|by right].
  - cbv beta. intros past' env' [H1 H2]. split; [done|]. intros n Hn. apply H2. rewrite map_app, elem_of_app. by left.
Qed.

(** The slice of the entries: nil when a list was given and nothing came of it. *)
Definition env_slice (allow : list string) (entries : list (string * string)) : option (list string) :=
  match allow, entries with _ :: _, [] => None | _, _ => Some (map env_pair entries) end.
Lemma sandboxEnv_ok os past primary allow :
  safe anything os past (sandboxEnv lookup primary allow cfg) (λ past' env, ∃ entries, env = env_slice allow entries ∧
    env_ok allow (indexEnvByName primary) past' entries ∧ env_full allow (indexEnvByName primary) entries).
Proof.
  unfold sandboxEnv, sandbox_entries. apply safe_bind. destruct allow as [|name allow].
  { exists []. split_and!; [done|by split; constructor|]. intros raw value Hr. by apply elem_of_nil in Hr. }
  set (primaryByName := indexEnvByName primary). set (all := name :: allow).
  pose proof (allow_names_ok primaryByName all all [] []) as HA.
  destruct (allow_names _ _ _ _ _ _) as [seen env].
  destruct HA as (H1 & H2 & H3 & _ & H5); [done| |constructor|constructor|].
  { intros n. cbn. by rewrite !elem_of_nil. }
  unfold carryWorkerInjectedGoCache. eapply safe_mono; [apply (carry_names_ok os all primaryByName goCacheNames past seen env)|].
  - done.
  - done.
  - split; [done|]. eapply Forall_impl; [exact H3|]. by left.
  - cbv beta. intros past' entries [He Hk]. exists entries. split_and!; try done.
    intros raw value Hr Hv. apply Hk. by eapply H5.
Qed.
End Environment.

(** ** What a bubblewrap command may touch *)

(** Its options: a plain word, a file system of its own, a host path, a variable. *)
Inductive BwrapOption :=
| Plain (word : string)
| Own (kind at_path : string)
| Mount (writable : bool) (path : string)
| Chdir (path : string)
| SetEnv (name value : string).
Definition words (o : BwrapOption) : list string :=
  match o with
  | Plain word => [word]
  | Own kind at_path => [kind; at_path]
  | Mount writable path => [if writable then "--bind" else "--ro-bind"; path; path]
  | Chdir path => ["--chdir"; path]
  | SetEnv name value => ["--setenv"; name; value]
  end.
Definition writable_path (o : BwrapOption) : option string := match o with Mount true path => Some path | _ => None end.
Definition read_path (o : BwrapOption) : option string := match o with Mount false path => Some path | _ => None end.
Definition variable (o : BwrapOption) : option (string * string) := match o with SetEnv name value => Some (name, value) | _ => None end.
Definition plain_word (o : BwrapOption) : option string := match o with Plain word => Some word | _ => None end.

Definition base_options (workdir : string) : list BwrapOption :=
  [Plain "--die-with-parent"; Plain "--new-session"; Plain "--unshare-pid"; Plain "--unshare-ipc"; Plain "--unshare-uts";
   Own "--proc" "/proc"; Own "--dev" "/dev"; Mount false "/usr"; Mount false "/bin"; Mount false "/lib"; Own "--tmpfs" "/tmp";
   Mount true workdir; Chdir workdir].
Definition credential_paths (files : list string) : list string := List.filter (fun f => negb (String.eqb f "")) (map TrimSpace files).
Definition bwrap_options (cfg : SandboxConfig) (workdir : string) (lib64 : bool) (entries : list (string * string)) : list BwrapOption :=
  base_options workdir ++ (if lib64 then [Mount false "/lib64"] else [])
  ++ (if no_network cfg then [Plain "--unshare-net"] else [])
  ++ map (fun kv => SetEnv kv.1 kv.2) entries ++ map (Mount false) (credential_paths (sb_CredentialFiles cfg)).

Lemma env_args args entries : Forall (λ kv, str_contains kv.1 "=" = false) entries →
  appendBubblewrapEnvArgs args (map env_pair entries) = args ++ flat_map words (map (fun kv => SetEnv kv.1 kv.2) entries).
Proof.
  unfold appendBubblewrapEnvArgs. revert args. induction entries as [|kv entries IH]; intros args Hf; [by rewrite app_nil_r|].
  apply Forall_cons in Hf as [Hkv Hf]. cbn [map fold_left flat_map]. rewrite (IH _ Hf). unfold Cut3. rewrite (Cut_env_pair kv Hkv).
  destruct kv as [n v]. by rewrite <- app_assoc.
Qed.
Lemma credential_mounts mount files : ∀ args os past,
  safe anything os past (appendCredentialMounts args files mount)
    (λ _ r, match r with inr args' => args' = args ++ flat_map mount (credential_paths files) | inl _ => True end).
Proof.
  induction files as [|raw files IH]; intros args os past; cbn [appendCredentialMounts]; [by rewrite app_nil_r|].
  unfold credential_paths. cbn [map List.filter]. destruct (String.eqb_spec (TrimSpace raw) "") as [E|E]; cbn [negb].
  - apply IH.
  - apply safe_or_fail, safe_wrap_error, safe_os_value; [done|done|]. intros info.
    eapply safe_mono; [apply IH|]. intros past' [e|args'] H; [done|]. rewrite H. cbn [flat_map]. by rewrite <- app_assoc.
Qed.

Section Wrapped.
Context (getwd : option string) (lookup : lookup_env) (look_path : string → string + string)
  (parse_cidr : string → option (string * bool)) (temp_file : string → string) (goos : string) (os : OS) `{!AbsoluteOS os}.
Notation safe := (safe anything os).

Lemma child_resolved past args :
  safe past (resolveSandboxChildArgs look_path args) (λ _ r, match r with inr child => tail child = tail args | inl _ => True end).
Proof.
  destruct args as [|file rest]; [done|]. cbn [resolveSandboxChildArgs]. destruct (_ || _); [done|].
  unfold LookPath. by destruct (look_path file).
Qed.
Definition wrapped_by (bwrap : string) (cfg : SandboxConfig) (workdir : string) (childArgs : list string) (env : option (list string))
    (entries : list (string * string)) (c : ExecCmd) : Prop :=
  ∃ lib64 child, tail child = tail childArgs ∧
    ec_Args c = bwrap :: flat_map words (bwrap_options cfg workdir lib64 entries) ++ "--" :: child ∧
    ec_Dir c = workdir ∧ ec_Env c = env.
Definition if_ok {A} (P : A → Prop) (r : Err + A) : Prop := match r with inr a => P a | inl _ => True end.

Lemma mount_words paths : flat_map words (map (Mount false) paths) = flat_map bubblewrapCredentialMount paths.
Proof. induction paths as [|p paths IH]; [done|]. cbn [map flat_map]. by rewrite IH. Qed.
Lemma wrapped_rest bwrap cfg workdir childArgs child env entries (lib64 : bool) past :
  tail child = tail childArgs → Forall (λ kv, str_contains kv.1 "=" = false) entries →
  safe past
    (let! args := appendCredentialMounts (appendBubblewrapEnvArgs (appendBubblewrapNetworkArgs
         (bubblewrapBaseArgs workdir ++ if lib64 then ["--ro-bind"; "/lib64"; "/lib64"] else []) cfg) (map env_pair entries))
       (sb_CredentialFiles cfg) bubblewrapCredentialMount in
     ok ((CommandContext bwrap (args ++ "--" :: child)) <| ec_Dir := workdir |> <| ec_Env := env |>))
    (λ _, if_ok (wrapped_by bwrap cfg workdir childArgs env entries)).
Proof.
  intros Hchild Heq. apply safe_or_fail. eapply safe_mono; [apply credential_mounts|]. intros past3 [e|args] Hargs; [done|].
  exists lib64, child. split_and!; try done. cbn. rewrite Hargs, env_args by done.
  unfold bwrap_options, appendBubblewrapNetworkArgs. rewrite !flat_map_app.
  rewrite mount_words.
  destruct lib64, (no_network cfg); cbn; rewrite <- ?app_assoc; cbn; rewrite <- ?app_assoc; reflexivity.
Qed.
Lemma bubblewrap_wraps cfg workdir childArgs env entries past :
  default [] env = map env_pair entries → Forall (λ kv, str_contains kv.1 "=" = false) entries →
  safe past (bubblewrapCommand look_path cfg workdir childArgs env)
    (λ _, if_ok (λ c, ∃ bwrap, look_path "bwrap" = inr bwrap ∧ wrapped_by bwrap cfg workdir childArgs env entries c)).
Proof.
  intros Henv Heq. unfold bubblewrapCommand, LookPath at 1. destruct (look_path "bwrap") as [|bwrap]; [done|].
  cbn [or_fail prog_bind ok]. apply safe_or_fail. eapply safe_mono; [apply child_resolved|]. intros past1 [e|child] Hchild; [done|].
  destruct (is_allowlist cfg); [done|]. rewrite Henv. apply safe_or_fail.
  unfold appendOptionalBubblewrapLib64. apply safe_do; [done|]. intros [e|info].
  - destruct (os_IsNotExist e); [|done]. cbv beta iota. change (Sys.safe ?G ?o ?p (ok ?a) ?Q) with (Q p (inr a)). cbv beta iota. rewrite <- (app_nil_r (bubblewrapBaseArgs workdir)).
    eapply safe_mono; [by apply (wrapped_rest bwrap cfg workdir childArgs child env entries false)|].
    intros ? [?|c] H; [done|]. by exists bwrap.
  - change (Sys.safe ?G ?o ?p (ok ?a) ?Q) with (Q p (inr a)). cbv beta iota.
    eapply safe_mono; [by apply (wrapped_rest bwrap cfg workdir childArgs child env entries true)|].
    intros ? [?|c] H; [done|]. by exists bwrap.
Qed.

(** A call with its answer. *)
Lemma safe_value {A} past (c : Sys (OsErr + A)) Q :
  (∀ e, Q (past ++ [Ev c (inl e)]) (inl (FromOs e))) → (∀ a, os _ past c = inr a → Q (past ++ [Ev c (inr a)]) (inr a)) →
  safe past (os_value c) Q.
Proof. intros H1 H2. simpl. split; [done|]. destruct (os _ past c) eqn:E; [apply H1|by apply H2]. Qed.

(** A path found strictly below a root, both as they resolve. *)
Definition found_below (past : list Event) (path root : string) : Prop :=
  ∃ p r, Ev (EvalSymlinks path) (inr p) ∈ past ∧ Ev (EvalSymlinks root) (inr r) ∈ past ∧ below r p.
Lemma found_below_more past past' path root : past `prefix_of` past' → found_below past path root → found_below past' path root.
Proof. intros [new ->] (p & r & H1 & H2 & H3). exists p, r. split_and!; try done; apply elem_of_app; by left. Qed.
Lemma within_root_found path root past : IsAbs path = true → IsAbs root = true →
  safe past (ensurePathWithinRoot path root) (λ past' r, if_ok (λ _, found_below past' path root) r).
Proof.
  intros Hp Hr. unfold ensurePathWithinRoot. apply safe_or_fail, safe_wrap_error, safe_value; [done|]. intros p Ep. pose proof (eval_abs _ _ _ Hp Ep) as Hap.
  set (past1 := past ++ [_]). apply safe_or_fail, safe_wrap_error, safe_value; [done|]. intros r Er. pose proof (eval_abs _ _ _ Hr Er) as Har.
  destruct (Rel_abs r p Har Hap) as [[_ ->]|[(d & Hd & _ & Ed & Erel)|[_ [down ->]]]]; [done| |].
  - destruct (Rel r p); [|done]. repeat case_match; try done. exists p, r. split_and!; [| |by exists d].
    + apply elem_of_app. left. apply elem_of_app. right. by apply list_elem_of_singleton.
    + apply elem_of_app. right. by apply list_elem_of_singleton.
  - rewrite goes_up_dotdot. repeat case_match; try done. by rewrite orb_true_r in *.
Qed.
Lemma Abs_abs path p : (∀ wd, getwd = Some wd → IsAbs wd = true) → Abs getwd path = Some p → IsAbs p = true.
Proof.
  intros Hwd. unfold Abs. destruct (IsAbs path) eqn:Ea; [intros [= <-]; by apply IsAbs_Clean|].
  destruct getwd as [wd|]; [|done]. intros [= <-]. by apply (Join_clean_abs wd [path]), Hwd.
Qed.
Lemma abs_or_abs text path past :
  (∀ wd, getwd = Some wd → IsAbs wd = true) →
  safe past (abs_or getwd text path) (λ past' r, past' = past ∧ if_ok (λ p, Abs getwd path = Some p ∧ IsAbs p = true) r).
Proof.
  intros Hwd. unfold abs_or. destruct (Abs getwd path) as [p|] eqn:E; [|done]. cbn. split_and!; [done..|].
  by apply (Abs_abs path).
Qed.

Lemma safe_prefix {A} past (p : Prog A) Q : safe past p Q → safe past p (λ past' a, Q past' a ∧ past `prefix_of` past').
Proof. apply safe_extends. Qed.
Lemma workdir_found i past :
  (∀ wd, getwd = Some wd → IsAbs wd = true) →
  safe past (sandboxWorkdirForInput getwd i) (λ past' r, if_ok (λ workdir, Abs getwd (si_Workdir i) = Some workdir ∧
    ∃ root, Abs getwd (root_of i) = Some root ∧ found_below past' workdir root) r).
Proof.
  intros Hwd. unfold sandboxWorkdirForInput.
  apply safe_or_fail. eapply safe_mono; [by apply abs_or_abs|]. intros past1 [e|workdir] [-> H1]; [done|]. destruct H1 as [E1 A1].
  destruct (String.eqb _ _); [done|].
  apply safe_or_fail. eapply safe_mono; [by apply abs_or_abs|]. intros past2 [e|root] [-> H2]; [done|]. destruct H2 as [E2 A2].
  apply safe_or_fail. eapply safe_mono; [by apply within_root_found|]. intros past3 [e|[]] H3; [done|].
  split; [done|]. by exists root.
Qed.

(** What the theorem below says of the wrapped command [c] of [cmd]. *)
Record confined (i : StartInput) (cmd c : ExecCmd) (past : list Event) : Prop := {
  cf_command : ∃ bwrap options child entries, let sandbox := cf_Sandbox (si_Config i) in
    ec_Args c = bwrap :: flat_map words options ++ "--" :: child ∧ look_path "bwrap" = inr bwrap ∧ tail child = tail (ec_Args cmd) ∧
    omap writable_path options = [ec_Dir c] ∧
    (∀ path, path ∈ omap read_path options → path ∈ ["/usr"; "/bin"; "/lib"; "/lib64"] ∨ path ∈ credential_paths (sb_CredentialFiles sandbox)) ∧
    ("--unshare-net" ∈ omap plain_word options ↔ no_network sandbox = true) ∧
    omap variable options = entries ∧
    (ec_Env c = None ↔ sb_EnvAllowlist sandbox ≠ [] ∧ entries = []) ∧
    (∀ env, ec_Env c = Some env → env = map (λ kv, kv.1 +:+ "=" +:+ kv.2) entries) ∧
    let primary := indexEnvByName (default [] (ec_Env cmd)) in
    env_ok lookup (si_Config i) (sb_EnvAllowlist sandbox) primary past entries ∧
    env_full lookup (si_Config i) (sb_EnvAllowlist sandbox) primary entries;
  cf_workdir : Abs getwd (si_Workdir i) = Some (ec_Dir c) ∧ ∃ root, Abs getwd (root_of i) = Some root ∧ found_below past (ec_Dir c) root
}.

Lemma omap_variables entries : omap variable (map (λ kv, SetEnv kv.1 kv.2) entries) = entries.
Proof. induction entries as [|[n v] l IH]; [done|]. cbn. by rewrite IH. Qed.
Lemma omap_variables_none {B} (f : BwrapOption → option B) entries :
  (∀ n v, f (SetEnv n v) = None) → omap f (map (λ kv, SetEnv kv.1 kv.2) entries) = [].
Proof. intros Hf. induction entries as [|kv l IH]; [done|]. cbn. by rewrite Hf. Qed.
Lemma omap_mounts paths : omap read_path (map (Mount false) paths) = paths.
Proof. induction paths as [|p l IH]; [done|]. cbn. by rewrite IH. Qed.
Lemma omap_mounts_none {B} (f : BwrapOption → option B) paths :
  (∀ p, f (Mount false p) = None) → omap f (map (Mount false) paths) = [].
Proof. intros Hf. induction paths as [|p l IH]; [done|]. cbn. by rewrite Hf. Qed.
Lemma option_facts cfg workdir lib64 entries :
  let options := bwrap_options cfg workdir lib64 entries in
  omap writable_path options = [workdir] ∧
  (∀ path, path ∈ omap read_path options → path ∈ ["/usr"; "/bin"; "/lib"; "/lib64"] ∨ path ∈ credential_paths (sb_CredentialFiles cfg)) ∧
  ("--unshare-net" ∈ omap plain_word options ↔ no_network cfg = true) ∧ omap variable options = entries.
Proof.
  cbv zeta. unfold bwrap_options. rewrite !omap_app.
  rewrite !(omap_variables_none writable_path), !(omap_variables_none read_path), !(omap_variables_none plain_word), omap_variables,
    omap_mounts, !omap_mounts_none by done.
  split_and!.
  - by destruct lib64, (no_network cfg).
  - intros path. destruct lib64, (no_network cfg); cbn; rewrite ?elem_of_cons; tauto.
  - destruct lib64, (no_network cfg); cbn; rewrite ?elem_of_cons, elem_of_nil; split; try done; try tauto;
      intros H; repeat destruct H as [H|H]; try discriminate; done.
  - by destruct lib64, (no_network cfg); cbn; rewrite ?app_nil_r.
Qed.
Lemma env_ok_names (cfg : Config.Config) allow primary past entries :
  env_ok lookup cfg allow primary past entries → Forall (λ kv, str_contains kv.1 "=" = false) entries.
Proof.
  intros [_ Hf]. eapply Forall_impl; [exact Hf|]. intros kv [(_ & _ & H & _)|(H & _)]; [done|].
  unfold goCacheNames in H. cbn in H. repeat (apply elem_of_cons in H as [->|H]; [done|]). by apply elem_of_nil in H.
Qed.
Lemma apply_bubblewrap i cmd past :
  (∀ wd, getwd = Some wd → IsAbs wd = true) → sandboxActive (cf_Sandbox (si_Config i)) = true →
  sb_Backend (cf_Sandbox (si_Config i)) = "bubblewrap" →
  safe past (applySandbox getwd lookup look_path parse_cidr temp_file goos i cmd)
    (λ past' r, if_ok (λ c, confined i cmd c past') r).
Proof.
  intros Hwd Hact Hb. unfold applySandbox. rewrite Hact, Hb. cbn [negb].
  apply safe_or_fail. eapply safe_mono; [apply (safe_prefix _ _ (λ _ _, True))|].
  { unfold validateSandboxRuntimeConfig. repeat case_match; done. }
  intros past1 [e|[]] _; [done|].
  apply safe_or_fail. eapply safe_mono; [by apply workdir_found|]. intros past2 [e|workdir] Hw; [done|]. destruct Hw as (Ew & root & Er & Hroot).
  apply safe_or_fail. eapply safe_mono with (Q := λ past' r, past' = past2 ∧ if_ok (λ args, args = ec_Args cmd) r).
  { unfold sandboxChildArgs. by destruct (ec_Args cmd). }
  intros past3 [e|args] [-> Hargs]; [done|]. cbn in Hargs. subst args.
  apply safe_bind. eapply safe_mono; [apply safe_prefix, sandboxEnv_ok|]. intros past4 env [(entries & -> & Hok & Hfull) Hp4].
  pose proof (env_ok_names _ _ _ _ _ Hok) as Heq.
  eapply safe_mono; [apply safe_prefix, (bubblewrap_wraps _ _ _ _ entries); [|exact Heq]|].
  { unfold env_slice. by destruct (sb_EnvAllowlist _), entries. }
  cbv beta. intros past5 [e|c] [Hc Hp5]; [done|]. destruct Hc as (bwrap & Hbw & lib64 & child & Hchild & Hcargs & Hdir & Henv).
  destruct (option_facts (cf_Sandbox (si_Config i)) workdir lib64 entries) as (O1 & O2 & O3 & O4).
  constructor.
  - exists bwrap, (bwrap_options (cf_Sandbox (si_Config i)) workdir lib64 entries), child, entries. cbv zeta.
    rewrite Hdir, Henv. unfold env_slice.
    split_and!; try done; try (by apply O3); [by destruct (sb_EnvAllowlist _), entries; naive_solver..|by eapply env_ok_more].
  - rewrite Hdir. split; [done|]. exists root. split; [done|]. eapply found_below_more; [|exact Hroot]. by etrans.
Qed.
End Wrapped.


(** ** The netfilter file *)

(** The file an event creates, with its descriptor. *)
Definition opened_by (e : Event) : option (string * Fd) :=
  match e with
  | Ev c b => match c in Sys B return B → option (string * Fd) with
              | OpenFile name _ _ => fun r => match r with inr fd => Some (name, fd) | inl _ => None end
              | _ => fun _ => None
              end b
  end.
Definition removed (past : list Event) (name : string) : Prop := ∃ a, Ev (Remove name) a ∈ past.
(** The file could not be written or closed. *)
Definition unwritten (past : list Event) (fd : Fd) : Prop :=
  (∃ body e, Ev (FdWrite fd body) (Some e) ∈ past) ∨ ∃ e, Ev (Close fd) (Some e) ∈ past.
Definition opened (past : list Event) : list (string * Fd) := omap opened_by past.
Definition disposed (past : list Event) : Prop := ∀ name fd, (name, fd) ∈ opened past → removed past name ∨ unwritten past fd.
(** The one file of the log has the text [body]. *)
Definition holds_file (past : list Event) (name body : string) : Prop :=
  ∃ fd, opened past = [(name, fd)] ∧ Ev (FdWrite fd body) None ∈ past.

Lemma opened_snoc past e : opened (past ++ [e]) = opened past ++ match opened_by e with Some x => [x] | None => [] end.
Proof. unfold opened. rewrite omap_app. cbn. by destruct (opened_by e). Qed.
Lemma in_snoc (past : list Event) e x : x ∈ past → x ∈ past ++ [e].
Proof. intros H. apply elem_of_app. by left. Qed.
Lemma last_snoc (past : list Event) e : e ∈ past ++ [e].
Proof. apply elem_of_app. right. by apply list_elem_of_singleton. Qed.
Lemma holds_file_snoc past e name body : opened_by e = None → holds_file past name body → holds_file (past ++ [e]) name body.
Proof. intros He (fd & H1 & H2). exists fd. rewrite opened_snoc, He, app_nil_r. split; [done|by apply in_snoc]. Qed.
Lemma disposed_none past : opened past = [] → disposed past.
Proof. intros H name fd. rewrite H. by rewrite elem_of_nil. Qed.
Lemma disposed_removed past name body : holds_file past name body → removed past name → disposed past.
Proof. intros (fd & H & _) Hr n f. rewrite H, list_elem_of_singleton. intros [= -> ->]. by left. Qed.

Section Netfilter.
Context (look_path : string → string + string) (parse_cidr : string → option (string * bool)) (temp_file : string → string) (os : OS).
Notation safe := (safe anything os).

Lemma write_file body past : opened past = [] →
  safe past (writeFirejailNetfilterFile temp_file body) (λ past' r, match r with
    | inr name => holds_file past' name body
    | inl _ => disposed past'
    end).
Proof.
  intros H0. unfold writeFirejailNetfilterFile. apply safe_do; [done|]. intros tmp.
  apply safe_or_fail, safe_wrap_error, safe_os_value; [done| |].
  { intros e. apply disposed_none. by rewrite !opened_snoc, H0. }
  intros fd. apply safe_do; [done|]. intros [e|].
  - apply safe_do; [done|]. intros a. intros n f. rewrite !opened_snoc, H0. cbn. rewrite list_elem_of_singleton.
    intros [= -> ->]. right. left. exists body, e. apply in_snoc, last_snoc.
  - apply safe_or_fail, safe_wrap_error, safe_os_done; [done| |].
    + intros e n f. rewrite !opened_snoc, H0. cbn. rewrite list_elem_of_singleton. intros [= -> ->]. right. right. exists e. apply last_snoc.
    + exists fd. rewrite !opened_snoc, H0. split; [done|]. apply in_snoc, last_snoc.
Qed.
Lemma write_netfilter cidrs past : opened past = [] →
  safe past (writeFirejailNetfilter parse_cidr temp_file cidrs) (λ past' r, match r with
    | inr name => ∃ body, firejailNetfilterContent parse_cidr cidrs = inr body ∧ holds_file past' name body
    | inl _ => disposed past'
    end).
Proof.
  intros H0. unfold writeFirejailNetfilter. destruct (firejailNetfilterContent _ _) as [e|body] eqn:E; [by apply disposed_none|].
  eapply safe_mono; [by apply write_file|]. intros past' [e|name]; [done|]. by exists body.
Qed.
(** An error after the file was written removes it. *)
Lemma cleanup_removes {A} name body (p : Fallible A) past (Q : list Event → A → Prop) :
  safe past p (λ past' r, match r with inr a => Q past' a | inl _ => holds_file past' name body end) →
  safe past (cleanup_on_error [name] p) (λ past' r, match r with inr a => Q past' a | inl _ => disposed past' end).
Proof.
  intros Hp. unfold cleanup_on_error. apply safe_bind. eapply safe_mono; [exact Hp|]. intros past' [e|a] H; [|done].
  cbn [removeFiles]. apply safe_bind, safe_do; [done|]. intros r. cbn. 
  eapply disposed_removed; [by apply holds_file_snoc; [|exact H]|]. exists r. apply last_snoc.
Qed.
Lemma mounts_hold mount files name body : ∀ args past, holds_file past name body →
  safe past (appendCredentialMounts args files mount) (λ past' r, match r with
    | inr args' => holds_file past' name body ∧ ∃ more, args' = args ++ more
    | inl _ => holds_file past' name body
    end).
Proof.
  induction files as [|raw files IH]; intros args past H; cbn [appendCredentialMounts]; [by split; [|exists []; rewrite app_nil_r]|].
  destruct (String.eqb _ _); [by apply IH|].
  apply safe_or_fail, safe_wrap_error, safe_os_value; [done| |].
  - intros e. by apply holds_file_snoc.
  - intros info. eapply safe_mono; [by apply IH, holds_file_snoc|]. intros past' [e|args'] H'; [done|].
    destruct H' as [H1 [more ->]]. split; [done|]. rewrite <- app_assoc. by eexists.
Qed.
End Netfilter.

(** ** What becomes of it *)

Section Firejail.
Context (look_path : string → string + string) (parse_cidr : string → option (string * bool)) (temp_file : string → string) (os : OS).
Notation safe := (safe anything os).

(** The command uses the file as its filter, and removes it when it ends and when it is
    cancelled. *)
Definition owns_file (c : ExecCmd) (name : string) : Prop :=
  ec_Cancel c = RemoveFiles [name] ∧ ec_WaitDelay c ≠ 0 ∧
  ∃ firejail head tail, ec_Args c = ["/bin/sh"; "-c"; cleanup_script; "aiops-firejail-cleanup"; name; firejail] ++ head ++ ("--netfilter=" +:+ name) :: tail.
(** The log and the result of a run. *)
Definition netfilter_kept (cfg : SandboxConfig) (past : list Event) (r : Err + ExecCmd) : Prop :=
  match r with
  | inl _ => disposed past
  | inr c => if is_allowlist cfg
             then ∃ name body, firejailNetfilterContent parse_cidr (sb_NetworkAllowlistCIDRs cfg) = inr body ∧
                    holds_file past name body ∧ owns_file c name
             else opened past = [] ∧ "--net=none" ∈ ec_Args c
  end.

Lemma resolve_opened past args :
  safe past (resolveSandboxChildArgs look_path args) (λ past' _, past' = past).
Proof.
  destruct args as [|file rest]; [done|]. cbn [resolveSandboxChildArgs]. destruct (_ || _); [done|].
  unfold LookPath. by destruct (look_path file).
Qed.
Lemma mounts_open_none mount files : ∀ args past, opened past = [] →
  safe past (appendCredentialMounts args files mount) (λ past' r, opened past' = [] ∧ if_ok (λ args', ∃ more, args' = args ++ more) r).
Proof.
  induction files as [|raw files IH]; intros args past H; cbn [appendCredentialMounts]; [by split; [|exists []; rewrite app_nil_r]|].
  destruct (String.eqb _ _); [by apply IH|].
  apply safe_or_fail, safe_wrap_error, safe_os_value; [done| |].
  - intros e. by rewrite opened_snoc, H.
  - intros info. eapply safe_mono; [apply IH; by rewrite opened_snoc, H|]. intros past' [e|args'] [H1 H2]; [done|].
    destruct H2 as [more ->]. split; [done|]. rewrite <- app_assoc. by eexists.
Qed.
Lemma firejail_keeps cfg workdir childArgs env past : opened past = [] →
  safe past (firejailCommand look_path parse_cidr temp_file cfg workdir childArgs env) (netfilter_kept cfg).
Proof.
  intros H0. unfold firejailCommand, LookPath at 1. destruct (look_path "firejail") as [|firejail]; [by apply disposed_none|].
  cbn [or_fail prog_bind ok]. apply safe_or_fail. eapply safe_mono; [apply resolve_opened|].
  intros past1 [e|child] ->; [by apply disposed_none|]. unfold buildFirejailNetArgs, netfilter_kept.
  destruct (is_allowlist cfg); cbn [negb].
  - apply safe_or_fail, safe_or_fail. eapply safe_mono; [by apply write_netfilter|]. intros past2 [e|name]; [done|].
    intros (body & Hbody & Hfile).
    eapply safe_mono; [apply (cleanup_removes os name body) with
      (Q := λ past3 net, holds_file past3 name body ∧ net.2 = [name] ∧ ∃ first, net.1 = [first; "--netfilter=" +:+ name])|].
    { apply safe_or_fail. unfold firejailAllowlistNetArg. destruct (String.eqb _ _); [done|]. cbn. split_and!; [done..|by eexists]. }
    intros past3 [e|[net files]]; [done|]. cbn [fst snd]. intros (Hfile3 & -> & first & ->).
    eapply safe_mono; [apply (cleanup_removes os name body) with (Q := λ past4 c, holds_file past4 name body ∧ owns_file c name)|].
    { apply safe_or_fail. eapply safe_mono; [by apply mounts_hold|]. intros past4 [e|args]; [done|]. intros [H4 [more ->]].
      cbn. split; [done|]. split_and!; [done..|].
      exists firejail, ["--quiet"; "--noprofile"; "--private=" +:+ workdir; "--whitelist=" +:+ workdir; "--private-tmp"; first],
        (map (fun pair => "--env=" +:+ pair) (default [] env) ++ more ++ "--" :: child).
      cbn. by rewrite <- !app_assoc. }
    intros past4 [e|c]; [done|]. intros [H4 H5]. by exists name, body.
  - apply safe_or_fail. cbn [fst snd]. 
    assert (∀ p : Fallible ExecCmd, safe past p (λ past' r, opened past' = [] ∧ if_ok (λ c, "--net=none" ∈ ec_Args c) r) →
      safe past (cleanup_on_error [] p) (λ past' r, match r with inl _ => disposed past' | inr c => opened past' = [] ∧ "--net=none" ∈ ec_Args c end)) as Hc.
    { intros p Hp. unfold cleanup_on_error. apply safe_bind. eapply safe_mono; [exact Hp|]. intros past' [e|c] [H1 H2]; [by apply disposed_none|done]. }
    apply Hc. apply safe_or_fail. eapply safe_mono; [by apply mounts_open_none|]. intros past4 [e|args] [H4 H5]; [done|]. destruct H5 as [more ->].
    split; [done|]. cbn. set_solver.
Qed.
End Firejail.

Definition accept_line (network : string) : string := "-A OUTPUT -d " +:+ network +:+ " -j ACCEPT" +:+ newline.
(** What a filter lets out: the networks of the CIDRs, all of them IPv4. *)
Definition accepts (parse_cidr : string → option (string * bool)) (cidrs : list string) (body : string) : Prop :=
  ∃ networks, body = netfilter_head +:+ foldr (λ n rest, accept_line n +:+ rest) ("COMMIT" +:+ newline) networks ∧
    map (λ n, Some (n, true)) networks = map parse_cidr (List.filter (λ c, negb (String.eqb c "")) (map TrimSpace cidrs)).
Lemma rules_accept parse_cidr cidrs : ∀ rules, netfilter_rules parse_cidr cidrs = inr rules →
  ∃ networks, (∀ rest, rules +:+ rest = foldr (λ n rest, accept_line n +:+ rest) rest networks) ∧
    map (λ n, Some (n, true)) networks = map parse_cidr (List.filter (λ c, negb (String.eqb c "")) (map TrimSpace cidrs)).
Proof.
  induction cidrs as [|cidr cidrs IH]; intros rules; cbn [netfilter_rules]; [intros [= <-]; by exists []|].
  unfold appendFirejailNetfilterRule. cbn [map List.filter]. destruct (String.eqb (TrimSpace cidr) "") eqn:Eb; cbn [negb].
  - destruct (netfilter_rules _ _) as [|rest]; [done|]. intros [= <-]. by apply IH.
  - destruct (parse_cidr (TrimSpace cidr)) as [[network []]|] eqn:Ep; cbn [negb]; [|done..].
    destruct (netfilter_rules _ _) as [|rules']; [done|]. intros [= <-]. destruct (IH rules' eq_refl) as (networks & H1 & H2).
    exists (network :: networks). split; [|cbn [map]; by rewrite Ep, H2]. intros rest. cbn [foldr].
    rewrite <- H1. unfold accept_line. by rewrite !str_app_assoc.
Qed.
Lemma content_accepts parse_cidr cidrs body : firejailNetfilterContent parse_cidr cidrs = inr body → accepts parse_cidr cidrs body.
Proof.
  unfold firejailNetfilterContent. destruct cidrs as [|cidr cidrs]; [done|]. 
  destruct (netfilter_rules _ _) as [|rules] eqn:E; [done|]. intros [= <-].
  destruct (rules_accept _ _ _ E) as (networks & H1 & H2). exists networks. split; [|exact H2]. by rewrite H1.
Qed.

(** The netfilter file of firejail has an owner at every exit: an error after it was written
    removes it, and a command that is returned removes it when it ends and when it is
    cancelled; it drops what the allow-list does not name, and without an allow-list there
    is no network at all. *)
Theorem netfilter_has_an_owner look_path parse_cidr temp_file (os : OS) cfg workdir childArgs env :
  let '(log, r) := exec os [] (firejailCommand look_path parse_cidr temp_file cfg workdir childArgs env) in
  netfilter_kept parse_cidr cfg log r ∧
  ∀ body, firejailNetfilterContent parse_cidr (sb_NetworkAllowlistCIDRs cfg) = inr body →
    accepts parse_cidr (sb_NetworkAllowlistCIDRs cfg) body.
Proof.
  pose proof (safe_exec _ _ _ _ _ (firejail_keeps look_path parse_cidr temp_file os cfg workdir childArgs env [] eq_refl)) as HS.
  destruct (exec _ _ _) as [log r]. split; [apply HS|]. intros body. apply content_accepts.
Qed.

(** ** Starting below the root *)

(** The directory the command is started in: it is the one of the run, and it was found
    strictly below the root of the run. Outside a sandbox what was found there is the path
    without the blanks around it. *)
Definition starts_below getwd (past : list Event) (i : StartInput) (c : ExecCmd) : Prop :=
  ∃ w root, Abs getwd (root_of i) = Some root ∧ found_below past w root ∧
  if sandboxActive (cf_Sandbox (si_Config i)) then ec_Dir c = w ∧ Abs getwd (si_Workdir i) = Some w
  else ec_Dir c = si_Workdir i ∧ Abs getwd (TrimSpace (ec_Dir c)) = Some w.
(** The group is terminated when the context of the run ends, with its time of grace. *)
Definition killed_as_group (c : ExecCmd) : Prop := ec_WaitDelay c = killGrace ∧ ∃ first, ec_Cancel c = TerminateGroup first.

Section Starting.
Context (getwd : option string) (lookup : lookup_env) (look_path : string → string + string)
  (parse_cidr : string → option (string * bool)) (temp_file : string → string) (goos : string) (os : OS) `{!AbsoluteOS os}
  (Hwd : ∀ wd, getwd = Some wd → IsAbs wd = true).
Notation safe := (safe anything os).

Lemma validated_below i cwd past :
  safe past (validateAgentWorkdir getwd i cwd) (λ past' r, if_ok (λ _, ∃ w root,
    Abs getwd (TrimSpace cwd) = Some w ∧ Abs getwd (root_of i) = Some root ∧ found_below past' w root) r).
Proof.
  unfold validateAgentWorkdir. destruct (String.eqb _ _); [done|]. destruct (String.eqb _ _); [done|].
  apply safe_or_fail. eapply safe_mono; [by apply abs_or_abs|]. intros past1 [e|w] [-> H1]; [done|]. destruct H1 as [E1 A1].
  apply safe_or_fail. eapply safe_mono; [by apply abs_or_abs|]. intros past2 [e|cwdAbs] [-> H2]; [done|]. destruct H2 as [E2 A2].
  destruct (String.eqb_spec cwdAbs w) as [->|]; [|done]. cbn [negb]. destruct (String.eqb _ _); [done|].
  apply safe_or_fail. eapply safe_mono; [by apply abs_or_abs|]. intros past3 [e|root] [-> H3]; [done|]. destruct H3 as [E3 A3].
  apply safe_wrap_error. eapply safe_mono; [by apply within_root_found|]. intros past4 [e|[]] H4; [done|]. by exists w, root.
Qed.

(** The wrappers set the directory they are given. *)
Lemma bubblewrap_dir cfg workdir childArgs env past :
  safe past (bubblewrapCommand look_path cfg workdir childArgs env) (λ _, if_ok (λ c, ec_Dir c = workdir)).
Proof.
  unfold bubblewrapCommand. do 2 (apply safe_or_fail; eapply safe_mono; [apply safe_top|]; intros ? [e|?] _; [done|]).
  destruct (is_allowlist cfg); [done|]. cbv zeta.
  do 2 (apply safe_or_fail; eapply safe_mono; [apply safe_top|]; intros ? [e|?] _; [done|]). done.
Qed.
Lemma cleanup_result {A} files (p : Fallible A) (P : A → Prop) past :
  safe past p (λ _, if_ok P) → safe past (cleanup_on_error files p) (λ _, if_ok P).
Proof.
  intros H. unfold cleanup_on_error. apply safe_bind. eapply safe_mono; [exact H|]. intros past1 [e|a] Ha; [|done].
  destruct files; [done|]. apply safe_bind. eapply safe_mono; [apply safe_top|]. done.
Qed.
Lemma firejail_dir cfg workdir childArgs env past :
  safe past (firejailCommand look_path parse_cidr temp_file cfg workdir childArgs env) (λ _, if_ok (λ c, ec_Dir c = workdir)).
Proof.
  unfold firejailCommand. do 2 (apply safe_or_fail; eapply safe_mono; [apply safe_top|]; intros ? [e|?] _; [done|]). cbv zeta.
  apply safe_or_fail. eapply safe_mono; [apply safe_top|]. intros past3 [e|net] _; [done|]. apply cleanup_result.
  do 2 (apply safe_or_fail; eapply safe_mono; [apply safe_top|]; intros ? [e|?] _; [done|]). done.
Qed.
Lemma sandbox_dir i cmd past :
  safe past (applySandbox getwd lookup look_path parse_cidr temp_file goos i cmd) (λ past' r, if_ok (λ c,
    if sandboxActive (cf_Sandbox (si_Config i))
    then Abs getwd (si_Workdir i) = Some (ec_Dir c) ∧ ∃ root, Abs getwd (root_of i) = Some root ∧ found_below past' (ec_Dir c) root
    else c = cmd) r).
Proof.
  unfold applySandbox. destruct (sandboxActive _); cbn [negb]; [|done].
  apply safe_or_fail. eapply safe_mono; [apply safe_top|]. intros past1 [e|[]] _; [done|].
  apply safe_or_fail. eapply safe_mono; [by apply workdir_found|]. intros past2 [e|workdir] Hw; [done|].
  destruct Hw as (Ew & root & Er & Hroot).
  apply safe_or_fail. eapply safe_mono; [apply safe_extends, safe_top|]. intros past3 [e|args] [_ P3]; [done|].
  apply safe_bind. eapply safe_mono; [apply safe_extends, safe_top|]. intros past4 env [_ P4].
  assert (∀ p, safe past4 p (λ _, if_ok (λ c, ec_Dir c = workdir)) → safe past4 p (λ past' r, if_ok (λ c,
    Abs getwd (si_Workdir i) = Some (ec_Dir c) ∧ ∃ root, Abs getwd (root_of i) = Some root ∧ found_below past' (ec_Dir c) root) r)) as Hend.
  { intros p H. eapply safe_mono; [apply safe_extends, H|]. intros past5 [e|c] [Hc P5]; [done|]. cbn in Hc |- *. rewrite Hc.
    split; [done|]. exists root. split; [done|]. eapply found_below_more; [|exact Hroot]. do 2 (etrans; [done|]). done. }
  destruct (String.eqb _ "bubblewrap"); [apply Hend, bubblewrap_dir|].
  destruct (String.eqb _ "firejail"); [apply Hend, firejail_dir|done].
Qed.

(** A command whose directory is the one of the run, validated and then wrapped. *)
Lemma validated_wrapped i cmd past w root :
  ec_Dir cmd = si_Workdir i → Abs getwd (TrimSpace (ec_Dir cmd)) = Some w → Abs getwd (root_of i) = Some root →
  found_below past w root →
  safe past (applySandbox getwd lookup look_path parse_cidr temp_file goos i cmd) (λ past' r,
    if_ok (starts_below getwd past' i) r).
Proof.
  intros Hd Hw Hr Hf. eapply safe_mono; [apply safe_extends, sandbox_dir|]. intros past' [e|c] [Hc Hp]; [done|].
  cbn in Hc |- *. unfold starts_below. destruct (sandboxActive _).
  - destruct Hc as (E & root' & Hr' & Hf'). by exists (ec_Dir c), root'.
  - subst c. exists w, root. split_and!; try done. by eapply found_below_more.
Qed.
End Starting.

(** C15: Every agent command that is set up, the app-server and the shell runner's alike, is
    started in the directory of its run, and that directory resolved strictly below the
    workspace root: the very path the command is started in inside a sandbox, and outside
    one that path without blanks around it, which is what the code validates. Its whole
    process group is terminated when its time is over. *)
Theorem process_starts_below_root getwd lookup look_path parse_cidr temp_file goos stat loginPath active name (os : OS) `{!AbsoluteOS os} i :
  (∀ wd, getwd = Some wd → IsAbs wd = true) →
  (let '(log, r) := exec os [] (setupAppServerCommand getwd lookup look_path parse_cidr temp_file goos stat loginPath active i) in
   ∀ c direct sandboxed, r = inr (c, direct, sandboxed) → starts_below getwd log i c ∧ killed_as_group c) ∧
  (let '(log, r) := exec os [] (shell_start getwd lookup look_path parse_cidr temp_file goos loginPath name i) in
   ∀ c prompt, r = inr (c, prompt) → starts_below getwd log i c ∧ killed_as_group c).
Proof.
  intros Hwd. split.
  - assert (safe anything os [] (setupAppServerCommand getwd lookup look_path parse_cidr temp_file goos stat loginPath active i)
      (λ past' r, ∀ c direct sandboxed, r = inr (c, direct, sandboxed) → starts_below getwd past' i c ∧ killed_as_group c)) as HS.
    { unfold setupAppServerCommand. apply safe_bind. eapply safe_mono; [apply safe_top|]. intros past1 _ _.
      apply safe_bind. eapply safe_mono; [apply safe_top|]. intros past2 env _.
      destruct (NewCodexAppServerCommand _ _ _ _) as [e|command]; [done|].
      unfold or_setup at 1. apply safe_bind. eapply safe_mono; [by apply validated_below|].
      intros past3 [e|[]] H3; [done|]. destruct H3 as (w & root & Hw & Hr & Hf).
      unfold or_setup. apply safe_bind. eapply safe_mono; [by eapply validated_wrapped|].
      intros past4 [e|c] Hc; [done|]. intros c' direct sandboxed [= <- _ _]. split; [exact Hc|]. by split; [|eexists]. }
    apply safe_exec in HS. destruct (exec _ _ _). apply HS.
  - assert (safe anything os [] (shell_start getwd lookup look_path parse_cidr temp_file goos loginPath name i)
      (λ past' r, ∀ c prompt, r = inr (c, prompt) → starts_below getwd past' i c ∧ killed_as_group c)) as HS.
    { unfold shell_start. cbv zeta. destruct (String.eqb _ ""); [done|].
      apply safe_or_fail. eapply safe_mono; [by apply validated_below|].
      intros past1 [e|[]] H1; [done|]. destruct H1 as (w & root & Hw & Hr & Hf).
      apply safe_or_fail. eapply safe_mono; [apply safe_extends, safe_top|]. intros past2 [e|prompt] [_ P2]; [done|].
      apply safe_bind. eapply safe_mono; [apply (validated_wrapped getwd lookup look_path parse_cidr temp_file goos os Hwd i _ past2 w root);
        [reflexivity|exact Hw|exact Hr|by eapply found_below_more]|].
      intros past3 [e|c] Hc.
      - apply safe_bind. eapply safe_mono; [apply safe_top|]. done.
      - intros c' p [= <- _]. split; [exact Hc|]. by split; [|eexists]. }
    apply safe_exec in HS. destruct (exec _ _ _). apply HS.
Qed.

(** ** A worker with both sandboxes *)

Module Demo.
Definition sandboxed (backend network : string) (allow cidrs : list string) : StartInput :=
  {| si_Workdir := "/srv/ws/a"; si_WorkspaceRoot := "/srv/ws";
     si_Config := (DefaultConfig "/tmp") <| cf_Sandbox :=
       {| sb_Enabled := true; sb_Backend := backend; sb_NetworkMode := network; sb_NetworkAllowlistCIDRs := cidrs;
          sb_NetworkInterface := "eth0"; sb_EnvAllowlist := allow; sb_CredentialFiles := [] |} |> |}.
Definition claude : ExecCmd := (CommandContext "sh" ["-c"; "claude"]) <| ec_Dir := "/srv/ws/a" |> <| ec_Env := Some ["PATH=/bin"] |>.
Definition no_lookup : lookup_env := λ _, None.
Definition in_bin (file : string) : string + string := inr ("/bin/" +:+ file).
Definition ipv4 (cidr : string) : option (string * bool) := Some (cidr, true).
Definition in_tmp (tmp : string) : string := tmp +:+ "/aiops-firejail-netfilter-1.conf".
#[export] Instance quiet_abs : AbsoluteOS quiet_os.
Proof. by intros past path target Ha [= <-]. Qed.
(** A disk that is full. *)
Definition full_disk : OS := fun B past c =>
  match c in Sys B return B with FdWrite _ _ => Some (EOther "no space left on device") | c => quiet_os _ past c end.
Definition wrap (os : OS) (i : StartInput) : list Event * (Err + ExecCmd) :=
  exec os [] (applySandbox None no_lookup in_bin ipv4 in_tmp "linux" i claude).
End Demo.
Import Demo.

(** With an allow-list none of whose names has a value the slice stays nil, and a command
    with a nil environment gets the whole one of the worker. *)
Example unresolved_allowlist_inherits :
  ∃ c, (wrap quiet_os (sandboxed "bubblewrap" "none" ["NO_SUCH_NAME"] [])).2 = inr c ∧ ec_Env c = None.
Proof. eexists. by vm_compute. Qed.
Example resolved_allowlist_is_exact :
  ∃ c, (wrap quiet_os (sandboxed "bubblewrap" "none" ["PATH"; "NO_SUCH_NAME"] [])).2 = inr c ∧ ec_Env c = Some ["PATH=/bin"].
Proof. eexists. by vm_compute. Qed.
(** A filter that cannot be written stays on the disk. *)
Example unwritten_filter_stays :
  let '(log, r) := wrap full_disk (sandboxed "firejail" "allowlist" ["PATH"] ["10.0.0.0/8"]) in
  r = inl (Wrapped "write firejail netfilter allowlist" (FromOs (EOther "no space left on device"))) ∧
  opened log = [("/tmp/aiops-firejail-netfilter-1.conf", 3)] ∧
  existsb (fun '(Ev c _) => match c with Remove _ => true | _ => false end) log = false.
Proof. by vm_compute. Qed.

Lemma netfilter_has_an_owner_witness :
  let cfg := cf_Sandbox (si_Config (sandboxed "firejail" "allowlist" ["PATH"] ["10.0.0.0/8"; " "])) in
  let '(log, r) := exec quiet_os [] (firejailCommand in_bin ipv4 in_tmp cfg "/srv/ws/a" ["sh"] None) in
  netfilter_kept ipv4 cfg log r ∧ ∃ body, accepts ipv4 (sb_NetworkAllowlistCIDRs cfg) body.
Proof.
  cbv zeta. set (cfg := cf_Sandbox _).
  pose proof (netfilter_has_an_owner in_bin ipv4 in_tmp quiet_os cfg "/srv/ws/a" ["sh"] None) as HN.
  destruct (exec _ _ _) as [log r]. destruct HN as [H1 H2]. split; [exact H1|].
  eexists. apply H2. by vm_compute.
Defined.
Lemma process_starts_below_root_witness :
  let i := sandboxed "firejail" "none" ["PATH"] [] in
  let app := exec quiet_os [] (setupAppServerCommand None no_lookup in_bin ipv4 in_tmp "linux" (λ _, Some (false, 493)) None (λ _, ∅) i) in
  let shell := exec quiet_os [] (shell_start None no_lookup in_bin ipv4 in_tmp "linux" None "claude" i) in
  (∃ c direct wrapped, app.2 = inr (c, direct, wrapped) ∧ starts_below None app.1 i c) ∧
  (∃ c prompt, shell.2 = inr (c, prompt) ∧ starts_below None shell.1 i c).
Proof.
  cbv zeta. set (i := sandboxed _ _ _ _).
  assert (∀ wd, None = Some wd → IsAbs wd = true) as Hwd by discriminate.
  pose proof (process_starts_below_root None no_lookup in_bin ipv4 in_tmp "linux" (λ _, Some (false, 493)) None (λ _, ∅) "claude"
    quiet_os i Hwd) as [HA HS].
  assert (∃ x, (exec quiet_os [] (setupAppServerCommand None no_lookup in_bin ipv4 in_tmp "linux" (λ _, Some (false, 493)) None (λ _, ∅) i)).2 = inr x)
    as [[[c d] b] EA] by (vm_compute; by eexists).
  assert (∃ x, (exec quiet_os [] (shell_start None no_lookup in_bin ipv4 in_tmp "linux" None "claude" i)).2 = inr x)
    as [[c' p] ES] by (vm_compute; by eexists).
  split.
  - exists c, d, b. split; [exact EA|]. destruct (exec _ _ _) as [log r]. exact (proj1 (HA c d b EA)).
  - exists c', p. split; [exact ES|]. destruct (exec quiet_os [] (shell_start _ _ _ _ _ _ _ _ _)) as [log r]. exact (proj1 (HS c' p ES)).
Defined.
