(* ===== verification/Tools.v ===== *)
(** * The tools of the agent (internal/runner/tools.go, workpad.go, linear_graphql_proxy.go)

    Which tools a workflow registers and how they are described; the transport of
    linear_graphql, which [GraphQLGuard] sees as a class of response; the redaction and the
    bounds of what a tracker server sends back; and linear_ai_workpad, the search of the one
    workpad comment over the pages of an issue and its update or creation.

    encoding/json is an argument: beside [Json], the decoding of a tool's envelope and of
    the three bodies the workpad reads.  The HTTP client answers in view of the number of
    calls made before, as in [GraphQLGuard]; for the workpad, the linear_graphql tool is
    what is asked.  The transport of gitea_issue_labels is in [GiteaTools]. *)

From S2P Require Import Prelude Payload GoStd Types Ops GraphQL GraphQLGuard GiteaClient GiteaTools Poller Hashes Profiles Config TrackerErrors AgentErrors AppMessages AppServer.

(** ** Redaction and truncation of bodies *)

Definition str_byte (c : Ascii.ascii) : nat := Ascii.nat_of_ascii c.

(** [strings.ReplaceAll(s, old, new)] for an [old] that is not empty; [skip] bytes of the
    current match are still to be dropped. *)
Fixpoint ReplaceAll (old new : string) (skip : nat) (s : string) : string :=
  match s with
  | EmptyString => ""
  | String c t =>
      match skip with
      | S skip => ReplaceAll old new skip t
      | O => if HasPrefix s old then new +:+ ReplaceAll old new (String.length old - 1) t
             else String c (ReplaceAll old new 0 t)
      end
  end.

Definition redacted_mark : string := "[REDACTED]".
Definition redactToolSecrets (s : string) (secrets : list string) : string :=
  fold_left (λ s secret, let secret := TrimSpace secret in
                         if String.eqb secret "" then s else ReplaceAll secret redacted_mark 0 s) secrets s.

(** [string(runes[:n])]: an invalid byte is a rune of its own and comes back as U+FFFD;
    [skip] bytes of the current rune are left. *)
Definition replacement_rune : string := byte 239 +:+ byte 191 +:+ byte 189.
Fixpoint first_runes (n skip : nat) (s : string) : string :=
  match s with
  | EmptyString => ""
  | String c t =>
      match skip, n with
      | S skip, _ => String c (first_runes n skip t)
      | O, O => ""
      | O, S n =>
          let width := rune_width c t in
          if (width =? 1)%nat && (128 <=? str_byte c)%nat then replacement_rune +:+ first_runes n 0 t
          else String c (first_runes n (width - 1) t)
      end
  end.
(** [len([]rune(s))]. *)
Fixpoint rune_count (skip : nat) (s : string) : nat :=
  match s with
  | EmptyString => 0
  | String c t =>
      match skip with
      | S skip => rune_count skip t
      | O => S (rune_count (rune_width c t - 1) t)
      end
  end.

Definition maxToolErrorBodyRunes : nat := 2048.
Definition truncated_mark : string := "…[truncated]".
Definition sanitizeToolErrorBody (body : string) (secrets : list string) : string :=
  let s := redactToolSecrets body secrets in
  if (maxToolErrorBodyRunes <? rune_count 0 s)%nat then first_runes maxToolErrorBodyRunes 0 s +:+ truncated_mark else s.

(** A response body: what can be read of it, and the error that ends it early. *)
Record Reader := { rd_bytes : string; rd_err : option AgentErr }.
Definition maxLinearGraphQLResponseBytes : Z := 1048576.
Inductive BodyErr := errDynamicToolResponseTooLarge | BodyUnread (e : AgentErr).
(** [body.ReadFrom(io.LimitReader(r, max+1))]: past the limit nothing is read, so an error
    that comes later is not seen. *)
Definition readDynamicToolResponseBody (r : Reader) : BodyErr + string :=
  if maxLinearGraphQLResponseBytes <? Z.of_nat (String.length (rd_bytes r)) then inl errDynamicToolResponseTooLarge
  else match rd_err r with Some e => inl (BodyUnread e) | None => inr (rd_bytes r) end.

Definition defaultDynamicToolHTTPTimeout : Duration := 30 * Second.
Definition dynamicToolRequestTimeout (override : Duration) : Duration :=
  if 0 <? override then override else defaultDynamicToolHTTPTimeout.

(** ** Arguments *)

Record CommentNode := { cn_ID : string; cn_Body : string }.
Record linearWorkpadCommentPage := { HasNextPage : bool; EndCursor : string; Nodes : list CommentNode }.
(** [success] of commentCreate and of commentUpdate, where the body has them. *)
Record MutationPayload := { CommentCreate : option bool; CommentUpdate : option bool }.

Class ToolJson := {
  decode_envelope : string → option bool;              (* success of a dynamicToolResponse *)
  decode_payload : string → option (bool * string);    (* a linearToolPayload *)
  decode_page : string → AgentErr + linearWorkpadCommentPage;
  decode_mutation : string → AgentErr + MutationPayload
}.

(** ** The linear_graphql tool *)

Record LinearClient := {
  lc_apiKey : string;
  lc_baseURL : string;
  lc_httpTimeout : Duration;
  lc_proxy : linearGraphQLProxy
}.

Definition defaultLinearGraphQLEndpoint : string := linear_DefaultEndpoint.
Definition linearGraphQLEndpoint (endpoint : string) : string :=
  let endpoint := TrimSpace endpoint in
  if String.eqb endpoint "" then defaultLinearGraphQLEndpoint else endpoint.
Definition linearAuthorizationHeader (apiKey : string) : string := TrimSpace apiKey.

(** The request, under the deadline of its context, and what comes of it. *)
Record LinearRequest := { lr_URL : string; lr_Headers : list (string * string); lr_Body : string; lr_Timeout : Duration }.
Inductive HttpReply :=
| NotBuilt (e : AgentErr)
| NoResponse (e : AgentErr)
| Response (StatusCode : Z) (Status : string) (Body : Reader).

Definition linearGraphQLRequest (p : LinearClient) (body : string) : LinearRequest :=
  {| lr_URL := linearGraphQLEndpoint (lc_baseURL p);
     lr_Headers := [("Content-Type", "application/json"); ("Authorization", linearAuthorizationHeader (lc_apiKey p))];
     lr_Body := body;
     lr_Timeout := dynamicToolRequestTimeout (lc_httpTimeout p) |}.

(** The payload of a failure: the fields under "error". *)
Definition error_payload (fields : list (string * any)) : any := obj [("error", obj fields)].

Definition currentIssueMutationRejectMessage (reason : string) : string :=
  if String.eqb reason currentIssueRejectActiveStateUpdate
  then "linear_graphql issueUpdate for the current issue cannot move it into a configured active state after the operator stop guard is enabled"
  else if String.eqb reason currentIssueRejectUnsupportedShape
  then "linear_graphql issueUpdate uses an unsupported issueUpdate shape; provide id and input.stateId as literals or variables"
  else if String.eqb reason currentIssueRejectRefreshFailed
  then "linear_graphql issueUpdate for the current issue was rejected because the current issue state could not be refreshed"
  else if String.eqb reason currentIssueRejectMissing
  then "linear_graphql issueUpdate for the current issue was rejected because the issue state is unknown"
  else if String.eqb reason currentIssueRejectTerminal
  then "linear_graphql issueUpdate for the current issue was rejected because the issue is terminal"
  else if String.eqb reason currentIssueRejectNotActive
  then "linear_graphql issueUpdate for the current issue was rejected because the issue is not active"
  else if String.eqb reason currentIssueRejectOperatorStop
  then "linear_graphql issueUpdate for the current issue was rejected because Operator Terminal Stop is active"
  else if String.eqb reason currentIssueRejectStateLookupFailed
  then "linear_graphql issueUpdate for the current issue was rejected because active state IDs could not be resolved"
  else "linear_graphql issueUpdate for the current issue was rejected".

(** What a refusal of the gate tells the agent. *)
Definition refusal_payload (r : GraphQLGuard.Refusal) : any :=
  error_payload
    match r with
    | QueryRequired => [("message", AString "linear_graphql query is required")]
    | SeveralOperations => [("message", AString "linear_graphql query must contain exactly one operation")]
    | SubscriptionRefused =>
        [("message", AString "linear_graphql does not accept subscription operations; submit a query or mutation instead")]
    | MutationsDisabled field =>
        [("message", AString "linear_graphql mutations are disabled by this workflow; set codex.linear_graphql.allow_mutations: true in WORKFLOW.md to opt in (SPEC §15.5)");
         ("operation", AString "mutation"); ("operation_field", AString field);
         ("workflow_setting", AString "codex.linear_graphql.allow_mutations")]
    | FieldUnidentified =>
        [("message", AString "linear_graphql could not identify the top-level mutation field; rewrite the mutation so its selection set starts with a single Mutation root field");
         ("workflow_setting", AString "codex.linear_graphql.allowed_mutations")]
    | MutationNotAllowed field =>
        [("message", AString "linear_graphql mutation is not in the workflow's allowed_mutations list");
         ("operation_field", AString field); ("workflow_setting", AString "codex.linear_graphql.allowed_mutations")]
    | CurrentIssueRefused j =>
        [("message", AString (currentIssueMutationRejectMessage (rej_Reason j)));
         ("operation_field", AString (rej_OperationField j)); ("reason", AString (rej_Reason j));
         ("found", ABool (rej_Found j)); ("state", AString (rej_State j)); ("terminal", ABool (rej_Terminal j))]
    end.

Section LinearTool.
Context `{Json} `{ToolJson} (env : GuardEnv) (http : nat → LinearRequest → HttpReply) (p : LinearClient).

Definition linearGraphQLRequestBody (query : string) (variables : any_map) : AgentErr + string :=
  json_text (obj (("query", AString query)
                  :: match variables with Some m => [("variables", AMap (Some m))] | None => [] end)).

(** Whether the decoded body carries GraphQL errors. *)
Definition graphql_errors (decoded : any_map) : bool :=
  match map_get decoded "errors" with ASlice (_ :: _) => true | _ => false end.
Definition linearGraphQLToolResponse (body secret : string) : AgentErr + string :=
  match json_object body with
  | inl err =>
      dynamicToolFailure (error_payload
        [("message", AString "Linear GraphQL response was not valid JSON.");
         ("reason", AString (agent_error_text err)); ("body", AString (sanitizeToolErrorBody body [secret]))])
  | inr decoded => dynamicToolResult (negb (graphql_errors decoded)) (redactToolSecrets body [secret])
  end.
Definition toolResultSucceeded (result : string) : bool := default false (decode_envelope result).

(** The result of the request that is the call [n] to the outside. *)
Definition linear_result (n : nat) (query : string) (variables : any_map) : AgentErr + string :=
  match linearGraphQLRequestBody query variables with
  | inl err =>
      dynamicToolFailure (error_payload
        [("message", AString "`linear_graphql.variables` must be a JSON object that can be encoded as GraphQL variables.");
         ("reason", AString (agent_error_text err))])
  | inr body =>
      match http n (linearGraphQLRequest p body) with
      | NotBuilt err =>
          dynamicToolFailure (error_payload
            [("message", AString "Linear GraphQL request could not be built."); ("reason", AString (agent_error_text err))])
      | NoResponse err =>
          dynamicToolFailure (error_payload
            [("message", AString "Linear GraphQL request failed during transport."); ("reason", AString (agent_error_text err))])
      | Response code status reader =>
          match readDynamicToolResponseBody reader with
          | inl errDynamicToolResponseTooLarge =>
              dynamicToolFailure (error_payload
                [("message", AString "Linear GraphQL response exceeded maximum size.");
                 ("limit", AInt maxLinearGraphQLResponseBytes)])
          | inl (BodyUnread err) =>
              dynamicToolFailure (error_payload
                [("message", AString "Linear GraphQL response body could not be read.");
                 ("reason", AString (agent_error_text err))])
          | inr respBody =>
              if (code <? 200) || (300 <=? code)
              then dynamicToolFailure (error_payload
                     [("message", AString "Linear GraphQL request failed before receiving a successful response.");
                      ("status", AString status); ("body", AString (sanitizeToolErrorBody respBody [lc_apiKey p]))])
              else linearGraphQLToolResponse respBody (lc_apiKey p)
          end
      end
  end.

(** [dispatch], with the text it returns. *)
Definition linear_dispatch (query : string) (op : linearGraphQLOperation) (variables : any_map)
    (handoff : currentIssueHandoffClassification) (s : GuardState) : GuardState * ((AgentErr + string) * option AuditEvent) :=
  let result := linear_result (gs_calls s) query variables in
  let s := s <| gs_calls ::= S |> in
  let ok := match result with inr text => toolResultSucceeded text | inl _ => false end in
  if ok && bool_decide (op_Kind op = linearGraphQLOperationMutation) then
    let '(s, stopped) := postOperatorTerminalStop env (currentIssueGuard (lc_proxy p)) s in
    let terminal := if nonActive handoff then TrimSpace (terminalState handoff) else "" in
    (s, (result, Some (if stopped then PostStopEvent (op_FieldName op)
                       else MutationEvent
                         {| OperationField := op_FieldName op;
                            CurrentIssueNonActiveStateUpdate := nonActive handoff;
                            CurrentIssueTerminalStateUpdate := negb (String.eqb terminal "");
                            CurrentIssueTerminalState := terminal |})))
  else (s, (result, None)).

(** [call] and [callRaw], with the text they return; [None] is a panic of the gate. *)
Definition linear_call (rawQuery : string) (variables : any_map) (s : GuardState)
    : GuardState * option ((AgentErr + string) * option AuditEvent) :=
  let query := TrimSpace rawQuery in
  let refuse r := (s, Some (dynamicToolFailure (refusal_payload r), None)) in
  if String.eqb query "" then refuse QueryRequired
  else if 1 <? countGraphQLOperations query then refuse SeveralOperations
  else
    let op := parseLinearGraphQLOperation query in
    let '(s, auth) := authorizeMutation env (lc_proxy p) query op variables s in
    match auth with
    | Failed r => (s, Some (dynamicToolFailure (refusal_payload r), None))
    | Panicked => (s, None)
    | Returned handoff => let '(s, out) := linear_dispatch query op variables handoff s in (s, Some out)
    end.
Definition linear_callRaw (rawQuery : string) (variables : any_map) (s : GuardState)
    : GuardState * ((AgentErr + string) * option AuditEvent) :=
  let query := TrimSpace rawQuery in
  if String.eqb query "" then (s, (dynamicToolFailure (refusal_payload QueryRequired), None))
  else if 1 <? countGraphQLOperations query then (s, (dynamicToolFailure (refusal_payload SeveralOperations), None))
  else linear_dispatch query (parseLinearGraphQLOperation query) variables no_handoff s.
End LinearTool.

(** ** The workpad *)

Definition linearWorkpadMarker : string := "<!-- aiops:ai-workpad -->".
Definition linearWorkpadMaxLookupPages : nat := 100.

(** A call of the linear_graphql tool, and what is asked of it. *)
Record ToolQuery := { tq_Query : string; tq_Variables : list (string * any) }.
Definition ToolReply (q : ToolQuery) : Type := AgentErr + string.

Record linearWorkpadInput := {
  wi_IssueID : string;
  wi_Branch : string;
  wi_PRURL : string;
  wi_Summary : string;
  wi_Blocker : string;
  wi_Next : string
}.

Definition stringVariable (vars : any_map) (name : string) : string :=
  match map_get vars name with AString value => TrimSpace value | _ => "" end.
Definition normalizeLinearWorkpadInput (variables : any_map) : linearWorkpadInput :=
  let vars := match map_get variables "variables" with AMap nested => nested | _ => variables end in
  {| wi_IssueID := stringVariable vars "issueId"; wi_Branch := stringVariable vars "branch";
     wi_PRURL := stringVariable vars "prUrl"; wi_Summary := stringVariable vars "summary";
     wi_Blocker := stringVariable vars "blocker"; wi_Next := stringVariable vars "next" |}.

Definition workpadValue (value : string) : string :=
  let value := TrimSpace value in if String.eqb value "" then "unknown" else value.
Definition workpad_heading : string := "# AI Workpad".
Definition renderLinearWorkpadBody (input : linearWorkpadInput) : string :=
  linearWorkpadMarker +:+ newline +:+ workpad_heading +:+ newline +:+ newline
  +:+ "- Current branch: " +:+ workpadValue (wi_Branch input) +:+ newline
  +:+ "- Pull request: " +:+ workpadValue (wi_PRURL input) +:+ newline
  +:+ "- Run summary: " +:+ workpadValue (wi_Summary input) +:+ newline
  +:+ "- Last error/blocker: " +:+ workpadValue (wi_Blocker input) +:+ newline
  +:+ "- Next action: " +:+ workpadValue (wi_Next input) +:+ newline.

(** [strings.TrimLeft(body, " \t\r\n")]. *)
Definition workpad_blank (c : Ascii.ascii) : bool := byte_is 32 c || byte_is 9 c || byte_is 13 c || byte_is 10 c.
Fixpoint TrimLeft_blank (s : string) : string :=
  match s with String c t => if workpad_blank c then TrimLeft_blank t else s | EmptyString => "" end.
Definition isLinearWorkpadCommentBody (body : string) : bool :=
  let trimmed := TrimLeft_blank body in
  HasPrefix trimmed (linearWorkpadMarker +:+ newline +:+ workpad_heading)
  || HasPrefix trimmed (linearWorkpadMarker +:+ byte 13 +:+ newline +:+ workpad_heading).

(** Why a lookup failed. *)
Inductive LookupErr :=
| LookupToolErr (e : AgentErr)
| LookupReturnedFailure (result : string)
| LookupNotDecoded (e : AgentErr)
| LookupDidNotAdvance (cursor : string)
| LookupExceeded.
Definition lookup_error_text (e : LookupErr) : string :=
  match e with
  | LookupToolErr e => agent_error_text e
  | LookupReturnedFailure result => "lookup returned a failure: " +:+ result
  | LookupNotDecoded e => "lookup response could not be decoded: " +:+ agent_error_text e
  | LookupDidNotAdvance cursor => "lookup pagination did not advance after cursor " +:+ quote cursor
  | LookupExceeded => "lookup exceeded " +:+ fmt_d (Z.of_nat linearWorkpadMaxLookupPages) +:+ " pages"
  end.

Definition workpad_find_query : string :=
  "query AIWorkpadFind($issueId: String!, $after: String) {" +:+ newline
  +:+ "  issue(id: $issueId) {" +:+ newline
  +:+ "    comments(first: 50, after: $after) {" +:+ newline
  +:+ "      pageInfo { hasNextPage endCursor }" +:+ newline
  +:+ "      nodes { id body }" +:+ newline
  +:+ "    }" +:+ newline
  +:+ "  }" +:+ newline +:+ "}".
Definition workpad_update_query : string :=
  "mutation AIWorkpadUpdate($commentId: String!, $body: String!) {" +:+ newline
  +:+ "  commentUpdate(id: $commentId, input: { body: $body }) {" +:+ newline
  +:+ "    success" +:+ newline +:+ "    comment { id }" +:+ newline +:+ "  }" +:+ newline +:+ "}".
Definition workpad_create_query : string :=
  "mutation AIWorkpadCreate($issueId: String!, $body: String!) {" +:+ newline
  +:+ "  commentCreate(input: { issueId: $issueId, body: $body }) {" +:+ newline
  +:+ "    success" +:+ newline +:+ "    comment { id }" +:+ newline +:+ "  }" +:+ newline +:+ "}".

Definition find_question (issueID after : string) : ToolQuery :=
  {| tq_Query := workpad_find_query;
     tq_Variables := ("issueId", AString issueID) :: if String.eqb after "" then [] else [("after", AString after)] |}.
(** The mutation for the comment found, empty when there is none. *)
Definition mutation_question (issueID commentID body : string) : ToolQuery :=
  if String.eqb commentID ""
  then {| tq_Query := workpad_create_query; tq_Variables := [("body", AString body); ("issueId", AString issueID)] |}
  else {| tq_Query := workpad_update_query; tq_Variables := [("body", AString body); ("commentId", AString commentID)] |}.

Section Workpad.
Context `{Json} `{ToolJson}.

Definition decodeSuccessfulToolOutput (result : string) : option string :=
  match decode_payload result with Some (true, output) => Some output | _ => None end.

(** The loop body after the answer: the lookup's end, or the next cursor. *)
Definition read_page (after : string) (answer : AgentErr + string) : (LookupErr + string) + string :=
  match answer with
  | inl err => inl (inl (LookupToolErr err))
  | inr findResult =>
      match decodeSuccessfulToolOutput findResult with
      | None => inl (inl (LookupReturnedFailure findResult))
      | Some findOutput =>
          match decode_page findOutput with
          | inl err => inl (inl (LookupNotDecoded err))
          | inr page =>
              match List.find (λ node, isLinearWorkpadCommentBody (cn_Body node)) (Nodes page) with
              | Some node => inl (inr (cn_ID node))
              | None =>
                  let nextCursor := TrimSpace (EndCursor page) in
                  if negb (HasNextPage page) || String.eqb nextCursor "" then inl (inr "")
                  else if String.eqb nextCursor after then inl (inl (LookupDidNotAdvance nextCursor))
                  else inr nextCursor
              end
          end
      end
  end.
(** The loop with [pages] iterations left. *)
Fixpoint find_from (pages : nat) (issueID after : string) : Asking ToolReply (LookupErr + string) :=
  match pages with
  | O => Ret (inl LookupExceeded)
  | S pages =>
      Ask (find_question issueID after) (λ answer,
        match read_page after answer with
        | inl found => Ret found
        | inr nextCursor => find_from pages issueID nextCursor
        end)
  end.
Definition findLinearWorkpadCommentID (issueID : string) : Asking ToolReply (LookupErr + string) :=
  find_from linearWorkpadMaxLookupPages issueID "".

Definition linearWorkpadMutationSucceeded (output : string) : AgentErr + bool :=
  match decode_mutation output with
  | inl err => inl err
  | inr payload =>
      match CommentCreate payload, CommentUpdate payload with
      | Some success, _ => inr success
      | None, Some success => inr success
      | None, None => inr false
      end
  end.

Definition workpad_failure (fields : list (string * any)) : AgentErr + string := dynamicToolFailure (error_payload fields).
Definition mutation_result (answer : AgentErr + string) : AgentErr + string :=
  match answer with
  | inl err => workpad_failure [("message", AString "AI Workpad mutation failed"); ("reason", AString (agent_error_text err))]
  | inr mutateResult =>
      match decodeSuccessfulToolOutput mutateResult with
      | None => workpad_failure [("message", AString "AI Workpad mutation returned a failure"); ("output", AString mutateResult)]
      | Some mutateOutput =>
          match linearWorkpadMutationSucceeded mutateOutput with
          | inl err => workpad_failure [("message", AString "AI Workpad mutation response could not be decoded");
                                        ("reason", AString (agent_error_text err))]
          | inr false => workpad_failure [("message", AString "AI Workpad mutation did not succeed"); ("output", AString mutateOutput)]
          | inr true => dynamicToolResult true mutateOutput
          end
      end
  end.

(** [linearWorkpadProxy.call]; [wired] is that the tool it asks is there. *)
Definition workpad_call (wired : bool) (variables : any_map) : Asking ToolReply (AgentErr + string) :=
  let input := normalizeLinearWorkpadInput variables in
  if blank (wi_IssueID input)
  then Ret (workpad_failure [("message", AString "linear_ai_workpad variables.issueId is required")])
  else if negb wired
  then Ret (workpad_failure [("message", AString "linear_ai_workpad requires the linear_graphql dynamic tool")])
  else
    ask* found := findLinearWorkpadCommentID (wi_IssueID input) in
    match found with
    | inl err => Ret (workpad_failure [("message", AString "AI Workpad lookup failed"); ("reason", AString (lookup_error_text err))])
    | inr commentID =>
        ask* answer := ask (mutation_question (wi_IssueID input) commentID (renderLinearWorkpadBody input)) in
        Ret (mutation_result answer)
    end.
End Workpad.

(** ** Registration *)

(** What runs behind a tool: the gated linear_graphql, the workpad over the ungated one, or
    the label tool with its endpoint and token. *)
Record GiteaClientTool := {
  gc_token : string;
  gc_baseURL : string;
  gc_owner : string;
  gc_repo : string;
  gc_proxy : giteaIssueLabelsProxy
}.
Inductive ToolImpl :=
| LinearGraphQLCall (client : LinearClient)
| LinearWorkpadCall (harness : LinearClient)
| GiteaLabelsCall (client : GiteaClientTool).
Record DynamicTool := { dt_Name : string; dt_Description : string; dt_InputSchema : any; dt_Call : ToolImpl }.
Notation DynamicToolSet := (gmap string DynamicTool).

Definition Lookup (s : DynamicToolSet) (name : string) : option DynamicTool := s !! name.
Definition Names (s : DynamicToolSet) : list string := sort_strings (map fst (map_to_list s)).

(** The options; a refresher and a stop lookup only matter by being set. *)
Record dynamicToolOptions := {
  to_currentIssueID : string;
  to_currentIssueIdentifier : string;
  to_refresher : bool;
  to_stopLookup : bool
}.
Inductive DynamicToolOption :=
| NilOption
| WithCurrentIssueToolGuard (issueID issueIdentifier : string) (refresher : bool)
| WithCurrentIssueOperatorTerminalStopLookup (lookup : bool).
Definition apply_option (opts : dynamicToolOptions) (o : DynamicToolOption) : dynamicToolOptions :=
  match o with
  | NilOption => opts
  | WithCurrentIssueToolGuard id ident refresher =>
      {| to_currentIssueID := TrimSpace id; to_currentIssueIdentifier := TrimSpace ident;
         to_refresher := refresher; to_stopLookup := to_stopLookup opts |}
  | WithCurrentIssueOperatorTerminalStopLookup lookup =>
      {| to_currentIssueID := to_currentIssueID opts; to_currentIssueIdentifier := to_currentIssueIdentifier opts;
         to_refresher := to_refresher opts; to_stopLookup := lookup |}
  end.
Definition tool_options (l : list DynamicToolOption) : dynamicToolOptions :=
  fold_left apply_option l {| to_currentIssueID := ""; to_currentIssueIdentifier := ""; to_refresher := false; to_stopLookup := false |}.

(** The guard, when there is one; both of its caches are then allocated. *)
Definition currentIssueGuardFromOptions (opts : dynamicToolOptions) (cfg : TrackerSection) (team : string)
    : option currentIssueMutationGuard :=
  if String.eqb (to_currentIssueID opts) "" || negb (to_refresher opts || to_stopLookup opts) then None
  else Some {| issueID := to_currentIssueID opts; issueIdentifier := to_currentIssueIdentifier opts;
               GraphQLGuard.activeStates := tk_ActiveStates cfg; GraphQLGuard.terminalStates := tk_TerminalStates cfg;
               teamKey := team |}.
Definition no_guard : currentIssueMutationGuard :=
  {| issueID := ""; issueIdentifier := ""; GraphQLGuard.activeStates := []; GraphQLGuard.terminalStates := []; teamKey := "" |}.
Definition guard_state (guard : option currentIssueMutationGuard) : GuardState :=
  let cache := match guard with Some _ => Some {| ca_loaded := false; ca_ids := ∅ |} | None => None end in
  {| gs_calls := 0; gs_activeCache := cache; gs_terminalCache := cache |}.

(** The profile that a resolved configuration carries. *)
Inductive ProviderProfile := LinearProvider (l : LinearProfile) | GiteaProvider (r : RepoProfile) | OtherProvider.
Definition linearToolProfile (cfg : TrackerSection) (profile : option ProviderProfile) (lookup : lookup_env) : option LinearProfile :=
  match profile with
  | Some (LinearProvider l) => Some l
  | _ => match linear_Parse (tk_Provider cfg) lookup with inr l => Some l | inl _ => None end
  end.
Definition without_default_url (r : RepoProfile) : RepoProfile :=
  if rp_BaseURLConfigured r then r
  else {| rp_Base := rp_Base r; rp_URL := ""; rp_Token := rp_Token r; rp_Owner := rp_Owner r; rp_Repo := rp_Repo r;
          rp_PaginationMaxPages := rp_PaginationMaxPages r; rp_BaseURLConfigured := rp_BaseURLConfigured r |}.
Definition giteaToolProfile (cfg : TrackerSection) (profile : option ProviderProfile) (owner repo : string) (lookup : lookup_env)
    : option RepoProfile :=
  option_map without_default_url
    match profile with
    | Some (GiteaProvider r) => Some r
    | _ => match gitea_Parse (tk_Provider cfg) owner repo lookup with inr r => Some r | inl _ => None end
    end.

Definition string_schema (description : string) : any := obj [("type", AString "string"); ("description", AString description)].
Definition linearGraphQLInputSchema : any :=
  obj [("type", AString "object");
       ("properties", obj
          [("query", string_schema "A single Linear GraphQL query or mutation.");
           ("variables", obj [("type", AString "object"); ("description", AString "Optional GraphQL variables object.");
                              ("additionalProperties", ABool true)])]);
       ("required", ASlice [AString "query"]); ("additionalProperties", ABool false)].
Definition giteaIssueLabelsInputSchema : any :=
  obj [("type", AString "object");
       ("properties", obj
          [("issue_number", obj [("type", AString "integer");
              ("description", AString "Gitea issue number whose aiops/* state labels should be replaced.")]);
           ("labels", obj [("type", AString "array");
              ("description", AString "Complete desired aiops/* state label set for the issue; exactly one label is accepted.");
              ("items", obj [("type", AString "string")]); ("minItems", AInt 1); ("maxItems", AInt 1)]);
           ("close_issue", obj [("type", AString "boolean");
              ("description", AString "When true, close the current Gitea issue after replacing it with a configured terminal aiops/* state label.")])]);
       ("required", ASlice [AString "issue_number"; AString "labels"]); ("additionalProperties", ABool false)].
Definition linearGraphQLToolDescription (p : linearGraphQLProxy) : string :=
  "Execute a Linear GraphQL query using the orchestrator-configured Linear auth. Input: {query:string, variables?:object}. The Linear API token is never exposed to the agent process."
  +:+ (if negb (allowMutations p) then " Mutations are disabled by this workflow; submit queries only."
       else if bool_decide (allowedMutations p = ∅) then " Mutations are permitted."
       else " Mutations are restricted to: " +:+ str_join ", " (sort_strings (elements (allowedMutations p))) +:+ ".").

Definition linear_graphql_tool (client : LinearClient) : DynamicTool :=
  {| dt_Name := "linear_graphql"; dt_Description := linearGraphQLToolDescription (lc_proxy client);
     dt_InputSchema := linearGraphQLInputSchema; dt_Call := LinearGraphQLCall client |}.
Definition linearWorkpadToolName : string := "linear_ai_workpad".
Definition workpad_schema : any :=
  obj [("type", AString "object");
       ("properties", obj [("variables", obj
          [("type", AString "object");
           ("properties", obj
              [("issueId", string_schema "Linear issue identifier or ID to attach the AI Workpad comment to.");
               ("branch", string_schema "Current branch name, when known.");
               ("prUrl", string_schema "Pull request URL, when known.");
               ("summary", string_schema "Current run summary or handoff note.");
               ("blocker", string_schema "Last error or blocker, when any.");
               ("next", string_schema "Next action, when known.")]);
           ("required", ASlice [AString "issueId"]); ("additionalProperties", ABool false)])]);
       ("required", ASlice [AString "variables"]); ("additionalProperties", ABool false)].
Definition NewLinearWorkpadTool (linearGraphQL : LinearClient) : DynamicTool :=
  {| dt_Name := linearWorkpadToolName;
     dt_Description := "Find, create, or update the single AI Workpad Linear comment for an issue by calling the token-isolated linear_graphql tool. Input: {variables:{issueId:string, branch?:string, prUrl?:string, summary?:string, blocker?:string, next?:string}}. No Linear token is exposed.";
     dt_InputSchema := workpad_schema; dt_Call := LinearWorkpadCall linearGraphQL |}.
Definition gitea_labels_tool (client : GiteaClientTool) : DynamicTool :=
  {| dt_Name := "gitea_issue_labels";
     dt_Description := "Replace the aiops/* state label on one Gitea issue using orchestrator-configured Gitea auth. Input: {issue_number:number, labels:string[], close_issue?:boolean} with exactly one aiops/* label. close_issue is accepted only for the current issue with a configured terminal state label, and closes that issue in the same tool call. The Gitea API token is never exposed to the agent process.";
     dt_InputSchema := giteaIssueLabelsInputSchema; dt_Call := GiteaLabelsCall client |}.

(** The configuration, and the profile its tracker section carries. *)
Section Registration.
Context (cfg : Config) (profile : option ProviderProfile) (lookup : lookup_env) (options : list DynamicToolOption).

Definition linear_client (l : LinearProfile) : LinearClient :=
  let lg := cc_LinearGraphQL (cf_Codex cfg) in
  {| lc_apiKey := lp_APIKey l; lc_baseURL := lp_Endpoint l; lc_httpTimeout := 0;
     lc_proxy := {| allowMutations := lg_AllowMutations lg; allowedMutations := linearGraphQLAllowSet (lg_AllowedMutations lg);
                    currentIssueGuard := default no_guard
                      (currentIssueGuardFromOptions (tool_options options) (cf_Tracker cfg) (lp_TeamKey l)) |} |}.
Definition gitea_client (r : RepoProfile) : GiteaClientTool :=
  {| gc_token := rp_Token r; gc_baseURL := rp_URL r; gc_owner := rp_Owner r; gc_repo := rp_Repo r;
     gc_proxy := withCurrentIssueClassification
       {| currentIssueNumber := 0; GiteaTools.activeStates := []; GiteaTools.terminalStates := [] |}
       (tk_ActiveStates (cf_Tracker cfg)) (tk_TerminalStates (cf_Tracker cfg))
       (to_currentIssueID (tool_options options)) (to_currentIssueIdentifier (tool_options options)) |}.

Definition register (tool : DynamicTool) (tools : DynamicToolSet) : DynamicToolSet := <[dt_Name tool := tool]> tools.
Definition linear_tools : DynamicToolSet :=
  match linearToolProfile (cf_Tracker cfg) profile lookup with
  | Some l =>
      if EqualFold (tk_Kind (cf_Tracker cfg)) "linear" && negb (String.eqb (lp_APIKey l) "")
      then register (NewLinearWorkpadTool (linear_client l)) (register (linear_graphql_tool (linear_client l)) ∅)
      else ∅
  | None => ∅
  end.
Definition DynamicToolsForWorkflow : DynamicToolSet :=
  match giteaToolProfile (cf_Tracker cfg) profile (rc_Owner (cf_Repo cfg)) (rc_Name (cf_Repo cfg)) lookup with
  | Some r =>
      if EqualFold (tk_Kind (cf_Tracker cfg)) "gitea" && negb (String.eqb (rp_Token r) "") && negb (String.eqb (rp_Owner r) "")
         && negb (String.eqb (rp_Repo r) "") && negb (String.eqb (rp_URL r) "")
      then register (gitea_labels_tool (gitea_client r)) linear_tools else linear_tools
  | None => linear_tools
  end.
End Registration.

(** * Correctness of the tools *)

(** ** A token in a body

    A [token] is what a tracker credential is: not empty, ASCII, without brackets or
    blanks, and not spelled inside the two marks. *)

Definition token_char (c : Ascii.ascii) : bool :=
  in_range 33 126 c && negb (byte_is 91 c) && negb (byte_is 93 c).
Definition token (t : string) : bool :=
  negb (String.eqb t "") && str_forall token_char t
  && negb (Contains "REDACTED" t) && negb (Contains "truncated" t).

Lemma Contains_cons c s t : Contains (String c s) t = HasPrefix (String c s) t || Contains s t.
Proof. done. Qed.
Lemma HasPrefix_nil s : HasPrefix s "" = true.
Proof. by destruct s. Qed.
Lemma HasPrefix_String c s d t : HasPrefix (String c s) (String d t) = Ascii.eqb d c && HasPrefix s t.
Proof. unfold HasPrefix. cbn [CutPrefix]. by destruct (Ascii.eqb d c). Qed.
Lemma HasPrefix_Empty d t : HasPrefix "" (String d t) = false.
Proof. done. Qed.

Fixpoint str_drop (n : nat) (s : string) : string :=
  match n, s with S n, String _ t => str_drop n t | O, _ => s | _, EmptyString => "" end.
Lemma Contains_drop n s t : Contains s t = false → Contains (str_drop n s) t = false.
Proof.
  revert s. induction n as [|n IH]; intros [|c s]; cbn [str_drop]; try done.
  rewrite Contains_cons. intros [_ H]%orb_false_iff. by apply IH.
Qed.

Lemma token_spec t :
  token t = true ↔ (∃ d u, t = String d u ∧ token_char d = true) ∧ str_forall token_char t = true
                   ∧ Contains "REDACTED" t = false ∧ Contains "truncated" t = false.
Proof.
  unfold token. rewrite !andb_true_iff, !negb_true_iff. destruct t as [|d u].
  - split; [by intros [[[? _] _] _]|]. by intros [(? & ? & ? & _) _].
  - split.
    + intros (((_ & H) & ?) & ?). repeat split; [|done..]. exists d, u. split; [done|].
      by apply andb_true_iff in H as [? _].
    + by intros (_ & ? & ? & ?).
Qed.

Definition open_bracket : Ascii.ascii := Ascii.ascii_of_nat 91.
Definition close_bracket : Ascii.ascii := Ascii.ascii_of_nat 93.

(** A byte that no token has cannot begin a match. *)
Lemma no_match_at c s d u : token_char d = true → token_char c = false → HasPrefix (String c s) (String d u) = false.
Proof.
  intros Hd Hc. rewrite HasPrefix_String. apply andb_false_iff. left. apply Ascii.eqb_neq. intros ->. congruence.
Qed.
(** A token that begins in a text that a foreign byte ends lies in the text. *)
Lemma match_before m c s t :
  str_forall token_char t = true → token_char c = false →
  HasPrefix (m +:+ String c s) t = true → HasPrefix m t = true.
Proof.
  revert t. induction m as [|a m IH]; intros [|d u] Ht Hc; rewrite ?HasPrefix_nil; try done.
  - rewrite str_app_nil. apply andb_true_iff in Ht as [Hd _]. by rewrite no_match_at.
  - rewrite str_app_cons, !HasPrefix_String. apply andb_true_iff in Ht as [_ Ht].
    rewrite !andb_true_iff. intros [? ?]. split; [done|]. by apply IH.
Qed.
Lemma absent_across m c s t :
  token t = true → token_char c = false → Contains m t = false → Contains s t = false →
  Contains (m +:+ String c s) t = false.
Proof.
  intros Ht Hc Hm Hs. apply token_spec in Ht as ((d & u & -> & Hd) & Ht & _).
  induction m as [|a m IH].
  - rewrite str_app_nil, Contains_cons, (no_match_at c s d u Hd Hc). done.
  - rewrite Contains_cons in Hm. apply orb_false_iff in Hm as [Hp Hm]. rewrite str_app_cons, Contains_cons.
    apply orb_false_iff. split; [|by apply IH].
    destruct (HasPrefix (String a (m +:+ String c s)) (String d u)) eqn:E; [|done].
    rewrite <- str_app_cons in E. apply match_before in E; [congruence|done..].
Qed.

Lemma redacted_mark_absent s t : token t = true → Contains s t = false → Contains (redacted_mark +:+ s) t = false.
Proof.
  intros Ht Hs. pose proof Ht as Ht'. apply token_spec in Ht' as ((d & u & -> & Hd) & _ & Hr & _).
  change (redacted_mark +:+ s) with (String open_bracket ("REDACTED" +:+ String close_bracket s)).
  rewrite Contains_cons, (no_match_at open_bracket _ d u Hd eq_refl). by apply absent_across.
Qed.

(** What comes before a mark is text of the input. *)
Lemma prefix_of_redacted u s t :
  str_forall token_char t = true → HasPrefix (ReplaceAll u redacted_mark 0 s) t = true → HasPrefix s t = true.
Proof.
  revert t. induction s as [|c s IH]; intros [|d v] Ht; try done. cbn [ReplaceAll]. cbn [str_forall] in Ht.
  apply andb_true_iff in Ht as [Hd Ht]. destruct (HasPrefix (String c s) u) eqn:E.
  - intros H. exfalso. revert H. change (redacted_mark +:+ ?x) with (String open_bracket ("REDACTED]" +:+ x)).
    by rewrite (no_match_at open_bracket _ _ _ Hd eq_refl).
  - rewrite !HasPrefix_String, !andb_true_iff. intros [? H]. split; [done|]. by apply IH.
Qed.
Lemma redaction_absent u t k s :
  token t = true → t = u ∨ Contains (str_drop k s) t = false → Contains (ReplaceAll u redacted_mark k s) t = false.
Proof.
  intros Ht. revert k. induction s as [|c s IH]; intros k H.
  - destruct H as [->|H]; [|by destruct k]. by apply token_spec in Ht as ((? & ? & -> & _) & _).
  - destruct k as [|k]; cbn [ReplaceAll]; [|by apply IH].
    destruct (HasPrefix (String c s) u) eqn:E.
    + apply redacted_mark_absent; [done|]. apply IH. destruct H as [->|H]; [by left|right].
      apply Contains_drop. cbn [str_drop] in H. rewrite Contains_cons in H. by apply orb_false_iff in H as [_ H].
    + assert (HasPrefix (String c s) t = false ∧ (t = u ∨ Contains s t = false)) as [Hp Hs].
      { destruct H as [->|H]; [by split; [|left]|]. cbn [str_drop] in H. rewrite Contains_cons in H.
        by apply orb_false_iff in H as [? ?]; split; [|right]. }
      rewrite Contains_cons. apply orb_false_iff. split; [|by apply IH].
      destruct (HasPrefix (String c (ReplaceAll u redacted_mark 0 s)) t) eqn:E'; [|done].
      assert (String c (ReplaceAll u redacted_mark 0 s) = ReplaceAll u redacted_mark 0 (String c s)) as Hr
        by (cbn [ReplaceAll]; by rewrite E).
      rewrite Hr in E'. apply prefix_of_redacted in E'; [congruence|]. by apply token_spec in Ht as (_ & ? & _).
Qed.

(** Redacting more secrets does not bring one back. *)
Lemma redact_absent s secrets t :
  token t = true → (∃ secret, secret ∈ secrets ∧ TrimSpace secret = t) ∨ Contains s t = false →
  Contains (redactToolSecrets s secrets) t = false.
Proof.
  unfold redactToolSecrets. intros Ht. revert s. induction secrets as [|x secrets IH]; intros s H; cbn [fold_left].
  - destruct H as [(? & H & _)|]; [set_solver|done].
  - apply IH. destruct H as [(y & Hy & <-)|H].
    + apply elem_of_cons in Hy as [->|Hy]; [right|left; eauto].
      destruct (String.eqb_spec (TrimSpace x) "") as [E|]; [by rewrite E in Ht|]. apply redaction_absent; auto.
    + right. destruct (String.eqb (TrimSpace x) ""); [done|]. apply redaction_absent; auto.
Qed.

(** Truncation keeps text of the body. *)
Lemma foreign_absent c s t :
  token t = true → token_char c = false → Contains s t = false → Contains (String c s) t = false.
Proof.
  intros Ht Hc Hs. apply (absent_across "" c s t Ht Hc); [|done]. by apply token_spec in Ht as ((d & u & -> & _) & _).
Qed.
Lemma truncated_mark_absent t : token t = true → Contains truncated_mark t = false.
Proof.
  intros Ht. pose proof Ht as Ht'. apply token_spec in Ht' as (_ & _ & _ & H).
  change truncated_mark with (byte 226 +:+ byte 128 +:+ byte 166 +:+ String open_bracket ("truncated" +:+ String close_bracket "")).
  do 4 (apply foreign_absent; [done|done|]). apply absent_across; [done..|].
  by apply token_spec in Ht as ((d & u & -> & _) & _).
Qed.
Lemma prefix_of_runes n k s t :
  str_forall token_char t = true → HasPrefix (first_runes n k s +:+ truncated_mark) t = true → HasPrefix s t = true.
Proof.
  revert n k t. induction s as [|c s IH]; intros n k [|d v] Ht; try done; cbn [first_runes]; cbn [str_forall] in Ht;
    apply andb_true_iff in Ht as [Hd Ht].
  - rewrite str_app_nil. change truncated_mark with (String (Ascii.ascii_of_nat 226) (String.substring 1 20 truncated_mark)).
    intros H. exfalso. revert H. by rewrite (no_match_at (Ascii.ascii_of_nat 226) _ _ _ Hd eq_refl).
  - assert (∀ n k, HasPrefix (String c (first_runes n k s) +:+ truncated_mark) (String d v) = true →
              HasPrefix (String c s) (String d v) = true) as Hkeep.
    { intros n' k'. rewrite str_app_cons, !HasPrefix_String, !andb_true_iff. intros [? ?]. split; [done|]. by eapply IH. }
    destruct k as [|k]; [|apply Hkeep]. destruct n as [|n].
    + rewrite str_app_nil. change truncated_mark with (String (Ascii.ascii_of_nat 226) (String.substring 1 20 truncated_mark)).
      intros H. exfalso. revert H. by rewrite (no_match_at (Ascii.ascii_of_nat 226) _ _ _ Hd eq_refl).
    + cbv zeta. destruct (_ && _); [|apply Hkeep]. intros H. exfalso. revert H.
      change (replacement_rune +:+ ?x) with (String (Ascii.ascii_of_nat 239) (byte 191 +:+ byte 189 +:+ x)).
      rewrite str_app_cons. by rewrite (no_match_at (Ascii.ascii_of_nat 239) _ _ _ Hd eq_refl).
Qed.
Lemma truncation_absent n k s t :
  token t = true → Contains s t = false → Contains (first_runes n k s +:+ truncated_mark) t = false.
Proof.
  intros Ht. pose proof (truncated_mark_absent t Ht) as Hm. revert n k. induction s as [|c s IH]; intros n k Hs; [done|].
  pose proof Hs as Hs'. rewrite Contains_cons in Hs'. apply orb_false_iff in Hs' as [Hp Hs'].
  assert (∀ n k, Contains (String c (first_runes n k s) +:+ truncated_mark) t = false) as Hkeep.
  { intros n' k'. rewrite str_app_cons, Contains_cons, (IH _ _ Hs'), orb_false_r.
    apply not_true_iff_false. intros E. apply token_spec in Ht as ((d & v & -> & Hd) & Hall & _).
    rewrite HasPrefix_String in E, Hp. apply andb_true_iff in E as [E1 E2]. rewrite E1 in Hp.
    cbn [str_forall] in Hall. apply andb_true_iff in Hall as [_ Hall]. simpl in Hp.
    apply (prefix_of_runes _ _ _ _ Hall) in E2. congruence. }
  cbn [first_runes]. destruct k as [|k]; [|apply Hkeep]. destruct n as [|n]; [by rewrite str_app_nil|].
  cbv zeta. destruct (_ && _); [|apply Hkeep].
  change (replacement_rune +:+ ?x) with (byte 239 +:+ byte 191 +:+ byte 189 +:+ x).
  do 3 (apply foreign_absent; [done|done|]). by apply IH.
Qed.

(** What a tool passes on from a tracker server names no secret: for every text of a
    response body, neither the redacted body, which a success returns in full, nor the
    redacted and truncated diagnostic contains a token among the secrets, trimmed as the
    Authorization header has it, whatever the other secrets are and wherever the cut
    falls. *)
Theorem tool_bodies_hide_the_token body secrets secret :
  secret ∈ secrets → token (TrimSpace secret) = true →
  Contains (redactToolSecrets body secrets) (TrimSpace secret) = false
  ∧ Contains (sanitizeToolErrorBody body secrets) (TrimSpace secret) = false.
Proof.
  intros Hin Ht. assert (Contains (redactToolSecrets body secrets) (TrimSpace secret) = false) as H.
  { apply redact_absent; [done|]. left. eauto. }
  split; [done|]. unfold sanitizeToolErrorBody. destruct (_ <? _)%nat; [|done]. by apply truncation_absent.
Qed.
Lemma tool_bodies_hide_the_token_witness :
  let body := "{" +:+ quote "Authorization" +:+ ":" +:+ quote "lin_api_k3y" +:+ "}" in
  redactToolSecrets body [" lin_api_k3y"] = "{" +:+ quote "Authorization" +:+ ":" +:+ quote "[REDACTED]" +:+ "}"
  ∧ Contains (redactToolSecrets body [" lin_api_k3y"]) "lin_api_k3y" = false.
Proof.
  intros body. split; [by vm_compute|]. refine (proj1 (tool_bodies_hide_the_token body [" lin_api_k3y"] " lin_api_k3y" _ _)).
  - by left.
  - by vm_compute.
Defined.

(** ** The transport and the gate

    What [GraphQLGuard] calls the class of a response, read off the HTTP exchange.
    Marshalling an envelope does not fail and its success flag is read back. *)

Definition envelope_roundtrip `{Json} `{ToolJson} : Prop :=
  ∀ success output, ∃ text, dynamicToolResult success output = inr text ∧ decode_envelope text = Some success.
Definition succeeded `{ToolJson} (result : AgentErr + string) : bool :=
  match result with inr text => toolResultSucceeded text | inl _ => false end.

Section Transport.
Context `{Json} `{ToolJson} (http : nat → LinearRequest → HttpReply) (p : LinearClient).

Definition response_class (n : nat) (query : string) (variables : any_map) : LinearResponse :=
  match linearGraphQLRequestBody query variables with
  | inl _ => VariablesNotEncodable
  | inr body =>
      match http n (linearGraphQLRequest p body) with
      | NotBuilt _ => RequestNotBuilt
      | NoResponse _ => TransportFailed
      | Response code _ reader =>
          match readDynamicToolResponseBody reader with
          | inl errDynamicToolResponseTooLarge => ResponseTooLarge
          | inl (BodyUnread _) => ResponseUnreadable
          | inr respBody =>
              if (code <? 200) || (300 <=? code) then ResponseStatus code
              else ResponseBody (match json_object respBody with inl _ => None | inr decoded => Some (graphql_errors decoded) end)
          end
      end
  end.
(** The outcome of the gate, and the text the agent gets for it. *)
Definition implements (r : CallResult) (out : option ((AgentErr + string) * option AuditEvent)) : Prop :=
  match r with
  | CallRefused refusal => out = Some (dynamicToolFailure (refusal_payload refusal), None)
  | CallPanicked => out = None
  | CallDispatched _ success event => ∃ result, out = Some (result, event) ∧ succeeded result = success
  end.

Lemma succeeded_result success output : envelope_roundtrip → succeeded (dynamicToolResult success output) = success.
Proof. intros H1. destruct (H1 success output) as (text & -> & E). simpl. unfold toolResultSucceeded. by rewrite E. Qed.
Lemma succeeded_failure payload : envelope_roundtrip → succeeded (dynamicToolFailure payload) = false.
Proof. intros H1. by apply succeeded_result. Qed.

Lemma result_class n query variables :
  envelope_roundtrip → succeeded (linear_result http p n query variables) = response_ok (response_class n query variables).
Proof.
  intros H1. unfold linear_result, response_class, linearGraphQLToolResponse.
  destruct (linearGraphQLRequestBody _ _) as [|body]; [by apply succeeded_failure|].
  destruct (http _ _) as [| |code status reader]; [by apply succeeded_failure..|].
  destruct (readDynamicToolResponseBody reader) as [[|]|respBody]; [by apply succeeded_failure..|].
  destruct (_ || _); [by apply succeeded_failure|]. destruct (json_object respBody); [by apply succeeded_failure|].
  by apply succeeded_result.
Qed.
Lemma dispatch_class env query op variables handoff s :
  envelope_roundtrip → g_dispatch env (gs_calls s) = response_class (gs_calls s) query variables →
  let '(s', (result, event)) := linear_dispatch env http p query op variables handoff s in
  dispatch env (lc_proxy p) op handoff s = (s', (succeeded result, event)).
Proof.
  intros H1 E. unfold linear_dispatch, dispatch. rewrite E, <- (result_class _ _ _ H1). fold (succeeded (linear_result http p (gs_calls s) query variables)).
  destruct (succeeded (linear_result _ _ _ _ _)) eqn:Es; cbn [andb]; [|by rewrite Es].
  destruct (bool_decide _); [|by rewrite Es]. destruct (postOperatorTerminalStop _ _ _) as [s' stopped]. by rewrite Es.
Qed.

(** The linear_graphql tool, with its HTTP request, the size limit, the status check,
    the JSON of the body and the redaction, does what the gate of its model does when the
    gate is told the class of the response: the same state, calls to the outside and audit
    event, the refusal's text when it refuses, a panic only when it panics, and otherwise
    an envelope whose success flag is the gate's; and so does the harness's entry point. *)
Theorem transport_refines_gate env rawQuery variables s :
  envelope_roundtrip → (∀ n, g_dispatch env n = response_class n (TrimSpace rawQuery) variables) →
  let '(s1, out) := linear_call env http p rawQuery variables s in
  let '(s2, rawOut) := linear_callRaw env http p rawQuery variables s in
  (let '(t1, r) := call env (lc_proxy p) rawQuery variables s in s1 = t1 ∧ implements r out)
  ∧ (let '(t2, r) := callRaw env (lc_proxy p) rawQuery s in s2 = t2 ∧ implements r (Some rawOut)).
Proof.
  intros H1 Hg. unfold linear_call, linear_callRaw, call, callRaw.
  destruct (String.eqb _ _); [done|]. destruct (1 <? _); [done|].
  assert (∀ op handoff s', let '(s1, out) := linear_dispatch env http p (TrimSpace rawQuery) op variables handoff s' in
            let '(t1, (ok, event)) := dispatch env (lc_proxy p) op handoff s' in
            s1 = t1 ∧ implements (CallDispatched op ok event) (Some out)) as Hd.
  { intros op handoff s'. pose proof (dispatch_class env (TrimSpace rawQuery) op variables handoff s' H1 (Hg _)) as E.
    destruct (linear_dispatch _ _ _ _ _ _ _ _) as [s1 [result event]]. rewrite E. split; [done|]. by exists result. }
  pose proof (Hd (parseLinearGraphQLOperation (TrimSpace rawQuery)) no_handoff s) as Hraw.
  destruct (authorizeMutation _ _ _ _ _ _) as [s' [handoff|r|]].
  2-3: destruct (linear_dispatch _ _ _ _ _ _ no_handoff s) as [s2 rawOut]; destruct (dispatch _ _ _ no_handoff s) as [t2 [ok2 ev2]]; done.
  specialize (Hd (parseLinearGraphQLOperation (TrimSpace rawQuery)) handoff s').
  destruct (linear_dispatch _ _ _ _ _ _ handoff s') as [s1 out], (dispatch _ _ _ handoff s') as [t1 [ok1 ev1]].
  destruct (linear_dispatch _ _ _ _ _ _ no_handoff s) as [s2 rawOut], (dispatch _ _ _ no_handoff s) as [t2 [ok2 ev2]]. done.
Qed.

(** ** What the agent gets for a call *)

(** The request for a query, and a reply that answers it: a status of the two hundreds,
    and a body within the limit, read to its end, that is a JSON object without GraphQL
    errors. *)
Definition graphql_request (body : string) : LinearRequest :=
  {| lr_URL := if blank (lc_baseURL p) then "https://api.linear.app/graphql" else TrimSpace (lc_baseURL p);
     lr_Headers := [("Content-Type", "application/json"); ("Authorization", TrimSpace (lc_apiKey p))];
     lr_Body := body;
     lr_Timeout := if 0 <? lc_httpTimeout p then lc_httpTimeout p else 30 * Second |}.
Definition answers (reply : HttpReply) : Prop :=
  ∃ code status body decoded,
    reply = Response code status {| rd_bytes := body; rd_err := None |} ∧ 200 ≤ code < 300 ∧
    Z.of_nat (String.length body) ≤ 1048576 ∧ json_object body = inr decoded ∧
    ∀ x l, map_get decoded "errors" ≠ ASlice (x :: l).
(** The call [n] to the outside answered the query. *)
Definition answered (n : nat) (query : string) (variables : any_map) : Prop :=
  ∃ body, json_text (obj (("query", AString query) :: match variables with Some m => [("variables", AMap (Some m))] | None => [] end)) = inr body
          ∧ answers (http n (graphql_request body)).
(** The result is an envelope around a text, or the report of a failure, and what it
    shows of a body holds no [secret]. *)
Definition hides (secret : string) (result : AgentErr + string) : Prop :=
  (∃ success output, result = dynamicToolResult success output ∧ Contains output secret = false)
  ∨ (∃ fields, result = dynamicToolFailure (error_payload fields)
              ∧ ∀ text, ("body", AString text) ∈ fields → Contains text secret = false).

Lemma request_spelled body : linearGraphQLRequest p body = graphql_request body.
Proof.
  unfold linearGraphQLRequest, graphql_request, linearGraphQLEndpoint, dynamicToolRequestTimeout, blank.
  by destruct (String.eqb (TrimSpace (lc_baseURL p)) "").
Qed.
Lemma result_answered n query variables :
  envelope_roundtrip → succeeded (linear_result http p n query variables) = true ↔ answered n query variables.
Proof.
  intros H1. rewrite (result_class n query variables H1). unfold response_class, answered, linearGraphQLRequestBody, response_ok.
  destruct (json_text _) as [e|body]; [split; [done|by intros (body & ? & _)]|]. rewrite request_spelled. split.
  - destruct (http n (graphql_request body)) as [e|e|code status [bytes err]] eqn:Eh; [done..|]. unfold readDynamicToolResponseBody. simpl.
    destruct (Z.ltb_spec maxLinearGraphQLResponseBytes (Z.of_nat (String.length bytes))) as [?|Hl]; [done|].
    destruct err as [e|]; [done|]. destruct (Z.ltb_spec code 200), (Z.leb_spec 300 code); simpl; try done.
    destruct (json_object bytes) as [e|decoded] eqn:Ej; [done|]. intros He%negb_true_iff. exists body. split; [done|].
    unfold maxLinearGraphQLResponseBytes in Hl.
    exists code, status, bytes, decoded. split_and!; [done|lia..|done|]. intros x l Hx. unfold graphql_errors in He. by rewrite Hx in He.
  - intros (b & [= <-] & code & status & bytes & decoded & -> & Hc & Hl & Ej & Hx). unfold readDynamicToolResponseBody. simpl.
    destruct (Z.ltb_spec maxLinearGraphQLResponseBytes (Z.of_nat (String.length bytes))) as [Hm|_]; [unfold maxLinearGraphQLResponseBytes in Hm; lia|].
    destruct (Z.ltb_spec code 200), (Z.leb_spec 300 code); [lia..|]. simpl. rewrite Ej. unfold graphql_errors.
    destruct (map_get decoded "errors") as [| | | | | | |[|x l]| | |] eqn:E; try done. by destruct (Hx x l).
Qed.
Lemma result_hides n query variables secret :
  secret = TrimSpace (lc_apiKey p) → token secret = true → hides secret (linear_result http p n query variables).
Proof.
  intros -> Ht. assert (∀ body, Contains (redactToolSecrets body [lc_apiKey p]) (TrimSpace (lc_apiKey p)) = false ∧
                          Contains (sanitizeToolErrorBody body [lc_apiKey p]) (TrimSpace (lc_apiKey p)) = false) as Hb.
  { intros body. apply tool_bodies_hide_the_token; [by left|done]. }
  unfold linear_result, linearGraphQLToolResponse, hides.
  destruct (linearGraphQLRequestBody _ _) as [e|body]; [right; eexists; split; [done|]; set_solver|].
  destruct (http _ _) as [e|e|code status reader]; [right; eexists; (split; [done|]; set_solver)..|].
  destruct (readDynamicToolResponseBody reader) as [[|e]|bytes]; [right; eexists; (split; [done|]; set_solver)..|].
  destruct (_ || _).
  - right. eexists. split; [done|]. intros text Hin. rewrite !elem_of_cons in Hin.
    destruct Hin as [[=]|[[=]|[[= ->]|?%elem_of_nil]]]; [|done]. apply Hb.
  - destruct (json_object bytes) as [e|decoded].
    + right. eexists. split; [done|]. intros text Hin. rewrite !elem_of_cons in Hin.
      destruct Hin as [[=]|[[=]|[[= ->]|?%elem_of_nil]]]; [|done]. apply Hb.
    + left. do 2 eexists. split; [done|]. apply Hb.
Qed.
Lemma dispatch_outcome env query op variables handoff s s' result event secret :
  envelope_roundtrip → secret = TrimSpace (lc_apiKey p) → token secret = true →
  linear_dispatch env http p query op variables handoff s = (s', (result, event)) →
  (gs_calls s < gs_calls s')%nat ∧ (succeeded result = true ↔ answered (gs_calls s) query variables) ∧ hides secret result ∧
  (is_Some event ↔ succeeded result = true ∧ op_Kind op = linearGraphQLOperationMutation).
Proof.
  intros H1 Es Ht. unfold linear_dispatch. cbv zeta.
  assert (∀ r, match r with inr text => toolResultSucceeded text | inl _ => false end = succeeded r) as E by done. rewrite E. clear E.
  pose proof (result_answered (gs_calls s) query variables H1) as HA. pose proof (result_hides (gs_calls s) query variables secret Es Ht) as HH.
  destruct (succeeded (linear_result http p (gs_calls s) query variables)) eqn:Ek; simpl.
  - case_bool_decide as Hm.
    + unfold postOperatorTerminalStop. destruct (blank _); [|destruct (g_stopLookup env)]; intros [= <- <- <-]; rewrite Ek; simpl;
        (split_and!; [lia|done|done|split; [done|by eexists]]).
    + intros [= <- <- <-]. rewrite Ek. simpl. split_and!; [lia|done|done|]. split; [by intros []|]. by intros [_ ?].
  - intros [= <- <- <-]. rewrite Ek. simpl. split_and!; [lia|done|done|]. split; [by intros []|]. by intros [? _].
Qed.

End Transport.

(** ** The one workpad of an issue *)

(** A program over a service that keeps a state. *)
Fixpoint run_on {Q S A} {An : Q → Type} (serve : S → ∀ q, S * An q) (s : S) (p : Asking An A) : S * A :=
  match p with
  | Ret a => (s, a)
  | Ask q k => let '(s, a) := serve s q in run_on serve s (k a)
  end.
Lemma run_on_bind {Q S A B} {An : Q → Type} (serve : S → ∀ q, S * An q) s (p : Asking An A) (f : A → Asking An B) :
  run_on serve s (ask_bind p f) = let '(s, a) := run_on serve s p in run_on serve s (f a).
Proof. revert s. induction p as [a|q k IH]; intros s; simpl; [done|]. by destruct (serve s q). Qed.

(** What the tool promises: the first workpad comment gets the new body, or a new comment
    has it. *)
Definition is_workpad (c : CommentNode) : bool := isLinearWorkpadCommentBody (cn_Body c).
Fixpoint upsert (fresh body : string) (l : list CommentNode) : list CommentNode :=
  match l with
  | [] => [{| cn_ID := fresh; cn_Body := body |}]
  | c :: l => if is_workpad c then {| cn_ID := cn_ID c; cn_Body := body |} :: l else c :: upsert fresh body l
  end.
Definition workpads (l : list CommentNode) : nat := length (List.filter is_workpad l).
Definition set_body (id body : string) (l : list CommentNode) : list CommentNode :=
  map (λ c, if String.eqb (cn_ID c) id then {| cn_ID := id; cn_Body := body |} else c) l.

Lemma rendered_is_workpad input : isLinearWorkpadCommentBody (renderLinearWorkpadBody input) = true.
Proof. reflexivity. Qed.
Lemma workpads_upsert fresh body l :
  isLinearWorkpadCommentBody body = true → workpads (upsert fresh body l) = Nat.max 1 (workpads l).
Proof.
  intros Hb. unfold workpads. induction l as [|c l IH]; cbn [upsert List.filter].
  - unfold is_workpad at 1. cbn [cn_Body]. by rewrite Hb.
  - destruct (is_workpad c) eqn:E; cbn [List.filter].
    + unfold is_workpad at 1. cbn [cn_Body]. rewrite Hb. cbn [length]. lia.
    + by rewrite E.
Qed.
Lemma upsert_absent fresh body l : List.find is_workpad l = None → upsert fresh body l = l ++ [{| cn_ID := fresh; cn_Body := body |}].
Proof. induction l as [|c l IH]; cbn [List.find upsert]; [done|]. destruct (is_workpad c); [done|]. intros H. by rewrite IH. Qed.
Lemma set_body_other id body l : id ∉ map cn_ID l → set_body id body l = l.
Proof.
  induction l as [|c l IH]; [done|]. cbn [map set_body]. intros H. apply not_elem_of_cons in H as [Hc H].
  destruct (String.eqb_spec (cn_ID c) id); [congruence|]. f_equal. by apply IH.
Qed.
Lemma upsert_found fresh body l c :
  NoDup (map cn_ID l) → List.find is_workpad l = Some c → upsert fresh body l = set_body (cn_ID c) body l ∧ c ∈ l.
Proof.
  induction l as [|x l IH]; [done|]. cbn [map List.find upsert set_body]. intros [Hx Hd]%NoDup_cons.
  destruct (is_workpad x).
  - intros [= ->]. rewrite String.eqb_refl. fold (set_body (cn_ID c) body l). rewrite set_body_other by done. split; [done|by left].
  - intros Hf. destruct (IH Hd Hf) as [-> Hc]. split; [|by right].
    destruct (String.eqb_spec (cn_ID x) (cn_ID c)) as [E|]; [|done].
    destruct Hx. rewrite E. by apply list_elem_of_fmap_2.
Qed.
Lemma find_app {A} (f : A → bool) l m :
  List.find f (l ++ m) = match List.find f l with Some a => Some a | None => List.find f m end.
Proof. induction l as [|x l IH]; [done|]. simpl. by destruct (f x). Qed.

Section Single.
Context `{Json} `{ToolJson}.
Context (serve : list CommentNode → ∀ q, list CommentNode * ToolReply q) (issueID : string) (l : list CommentNode)
        (cursor : nat → string) (fresh : string).

(** Linear's answers for the comments [l] of the issue: pages of 50 with a cursor after
    each, an update of one body, a creation at the end.  Comment ids are not empty and
    pairwise distinct. *)
Definition accepted (answer : AgentErr + string) (output : string) : Prop :=
  ∃ text, answer = inr text ∧ decode_payload text = Some (true, output).
Definition page_of (k : nat) : linearWorkpadCommentPage :=
  {| HasNextPage := bool_decide (50 * S k < length l)%nat; EndCursor := cursor (S k); Nodes := take 50 (drop (50 * k) l) |}.
Record CommentService : Prop := {
  cs_ids : NoDup (map cn_ID l) ∧ "" ∉ map cn_ID l;
  cs_cursor : cursor 0%nat = "" ∧ ∀ k, TrimSpace (cursor (S k)) = cursor (S k) ∧ cursor (S k) ≠ "" ∧ cursor (S k) ≠ cursor k;
  cs_page : ∀ k, k = 0%nat ∨ (50 * k < length l)%nat →
    ∃ answer output, serve l (find_question issueID (cursor k)) = (l, answer) ∧ accepted answer output
                     ∧ decode_page output = inr (page_of k);
  cs_update : ∀ id body, id ∈ map cn_ID l →
    ∃ answer output, serve l (mutation_question issueID id body) = (set_body id body l, answer) ∧ accepted answer output
                     ∧ decode_mutation output = inr {| CommentCreate := None; CommentUpdate := Some true |};
  cs_create : ∀ body,
    ∃ answer output, serve l (mutation_question issueID "" body) = (l ++ [{| cn_ID := fresh; cn_Body := body |}], answer)
                     ∧ accepted answer output
                     ∧ decode_mutation output = inr {| CommentCreate := Some true; CommentUpdate := None |}
}.
Context (service : CommentService).

(** Where the lookup ends: the first workpad comment, if there is one. *)
Definition first_workpad (m : list CommentNode) : string :=
  match List.find is_workpad m with Some c => cn_ID c | None => "" end.

Lemma decoded answer output : accepted answer output → ∃ text, answer = inr text ∧ decodeSuccessfulToolOutput text = Some output.
Proof. intros (text & -> & E). exists text. split; [done|]. unfold decodeSuccessfulToolOutput. by rewrite E. Qed.

Lemma find_from_first pages k :
  (0 < pages)%nat → k = 0%nat ∨ (50 * k < length l)%nat → (length l ≤ 50 * (k + pages))%nat →
  run_on serve l (find_from pages issueID (cursor k)) = (l, inr (first_workpad (drop (50 * k) l))).
Proof.
  revert k. induction pages as [|pages IH]; intros k Hp Hk Hl; [lia|]. cbn [find_from run_on].
  destruct (cs_page service k Hk) as (answer & output & -> & Ha & Hpage).
  destruct (decoded _ _ Ha) as (text & -> & Ht). unfold read_page. rewrite Ht, Hpage. unfold page_of at 1. cbn [Nodes].
  change (λ node, isLinearWorkpadCommentBody (cn_Body node)) with is_workpad.
  assert (List.find is_workpad (drop (50 * k) l) =
            match List.find is_workpad (take 50 (drop (50 * k) l)) with
            | Some c => Some c | None => List.find is_workpad (drop (50 * S k) l) end) as Hsplit.
  { rewrite <- (take_drop 50 (drop (50 * k) l)) at 1. rewrite find_app, drop_drop. by replace (50 * S k)%nat with (50 * k + 50)%nat by lia. }
  unfold first_workpad. rewrite Hsplit. destruct (List.find is_workpad (take 50 (drop (50 * k) l))) as [c|]; [done|]. clear Hsplit.
  destruct (cs_cursor service) as [_ Hc]. destruct (Hc k) as (Htrim & Hne & Hnext). unfold page_of. cbn [HasNextPage EndCursor].
  rewrite Htrim.
  destruct (bool_decide_reflect (50 * S k < length l)%nat) as [Hlt|Hge]; cbn [negb orb].
  - rewrite (proj2 (String.eqb_neq _ _) Hne), (proj2 (String.eqb_neq _ _) Hnext). apply IH; [|by right|]; lia.
  - rewrite drop_ge by lia. done.
Qed.

Lemma mutation_accepted answer output payload :
  accepted answer output → decode_mutation output = inr payload →
  CommentCreate payload = Some true ∨ (CommentCreate payload = None ∧ CommentUpdate payload = Some true) →
  mutation_result answer = dynamicToolResult true output.
Proof.
  intros Ha Hm Hp. destruct (decoded _ _ Ha) as (text & -> & Ht). unfold mutation_result, linearWorkpadMutationSucceeded.
  rewrite Ht, Hm. by destruct Hp as [-> | [-> ->]].
Qed.

(** C22: linear_ai_workpad keeps one workpad: for an issue whose comments fit the hundred
    pages it reads, a call with the issue's id succeeds, gives the first workpad comment of
    all pages the new body, or creates it when no page has one, and touches no other
    comment; so after it there is exactly one more than before only if there was none, and
    a later call finds what this one wrote. *)
Theorem workpad_is_single variables :
  wi_IssueID (normalizeLinearWorkpadInput variables) = issueID → blank issueID = false →
  (length l ≤ 50 * linearWorkpadMaxLookupPages)%nat →
  let body := renderLinearWorkpadBody (normalizeLinearWorkpadInput variables) in
  let '(l', result) := run_on serve l (workpad_call true variables) in
  (∃ output, result = dynamicToolResult true output)
  ∧ l' = upsert fresh body l ∧ workpads l' = Nat.max 1 (workpads l).
Proof.
  intros Hid Hb Hl. cbn zeta. unfold workpad_call. rewrite Hid, Hb. cbn [negb]. rewrite run_on_bind.
  unfold findLinearWorkpadCommentID. rewrite <- (proj1 (cs_cursor service)).
  rewrite find_from_first by (try apply Nat.lt_0_succ; auto; lia). rewrite Nat.mul_0_r, drop_0.
  set (body := renderLinearWorkpadBody _). assert (isLinearWorkpadCommentBody body = true) as Hr by apply rendered_is_workpad.
  assert (∃ answer output, serve l (mutation_question issueID (first_workpad l) body) = (upsert fresh body l, answer)
            ∧ mutation_result answer = dynamicToolResult true output) as (answer & output & Hs & Hm).
  { unfold first_workpad. destruct (List.find is_workpad l) as [c|] eqn:E.
    - destruct (upsert_found fresh body l c (proj1 (cs_ids service)) E) as [-> Hc].
      destruct (cs_update service (cn_ID c) body) as (answer & output & -> & Ha & Hm); [by apply list_elem_of_fmap_2|].
      exists answer, output. split; [done|]. eapply mutation_accepted; [done..|]. by right.
    - rewrite upsert_absent by done. destruct (cs_create service body) as (answer & output & -> & Ha & Hm).
      exists answer, output. split; [done|]. eapply mutation_accepted; [done..|]. by left. }
  unfold ask. cbn [ask_bind run_on]. rewrite Hs. cbn [run_on]. rewrite Hm. split; [by eexists|]. split; [done|].
  by apply workpads_upsert.
Qed.
End Single.

(** An issue with 60 comments, the workpad among them on the second page. *)
Module Board.
Definition workpad_of (summary : string) : string :=
  renderLinearWorkpadBody (normalizeLinearWorkpadInput (Some [("issueId", AString "ENG-1"); ("summary", AString summary)])).
Definition comments : list CommentNode :=
  map (λ n : nat, {| cn_ID := "c" +:+ fmt_d (Z.of_nat n); cn_Body := if (n =? 55)%nat then workpad_of "first run" else "a comment" |})
    (seq 0 60).
Definition cursor (k : nat) : string := match k with O => "" | S k => if Nat.even k then "a" else "b" end.
#[export] Instance json : Json := {
  json_object _ := inr None; json_value _ := None; json_tool_call _ := None;
  json_text v := inr (match map_get (as_map v) "success" with ABool true => "ok" | _ => "failed" end)
}.
#[export] Instance tool_json : ToolJson := {
  decode_envelope text := Some (String.eqb text "ok");
  decode_payload text := Some (true, text);
  decode_page text := if String.eqb text "page one" then inr (page_of comments cursor 0) else inr (page_of comments cursor 1);
  decode_mutation text := inr (if String.eqb text "created" then {| CommentCreate := Some true; CommentUpdate := None |}
                               else {| CommentCreate := None; CommentUpdate := Some true |})
}.
Definition text_of (vars : list (string * any)) (key : string) : string := stringVariable (Some vars) key.
Definition raw_of (vars : list (string * any)) (key : string) : string := match map_get (Some vars) key with AString s => s | _ => "" end.
Definition serve (l : list CommentNode) (q : ToolQuery) : list CommentNode * ToolReply q :=
  let vars := tq_Variables q in
  if String.eqb (tq_Query q) workpad_find_query
  then (l, inr (if String.eqb (text_of vars "after") "" then "page one" else "page two"))
  else if String.eqb (tq_Query q) workpad_update_query
  then (set_body (raw_of vars "commentId") (raw_of vars "body") l, inr "updated")
  else (l ++ [{| cn_ID := "new"; cn_Body := raw_of vars "body" |}], inr "created").

Lemma no_empty_id : "" ∉ map cn_ID comments.
Proof. apply (bool_decide_unpack _). by vm_compute. Qed.
Lemma service : CommentService serve "ENG-1" comments cursor "new".
Proof.
  split.
  - split; [|exact no_empty_id]. apply (bool_decide_unpack _). by vm_compute.
  - split; [done|]. intros k. cbn [cursor]. destruct k as [|k]; [done|]. rewrite Nat.even_succ, <- Nat.negb_even.
    destruct (Nat.even k) eqn:E; simpl; rewrite ?E; split_and!; done.
  - intros k Hk. change (length comments) with 60%nat in Hk. destruct k as [|[|k]]; [| |lia].
    + exists (inr "page one"), "page one". split; [done|]. split; [by eexists|done].
    + exists (inr "page two"), "page two". split; [done|]. split; [by eexists|done].
  - intros id body Hid. exists (inr "updated"), "updated". split; [|split; [by eexists|done]].
    unfold mutation_question. destruct (String.eqb_spec id "") as [->|]; [|done].
    by destruct no_empty_id.
  - intros body. exists (inr "created"), "created". split; [done|]. split; [by eexists|done].
Qed.

Lemma workpad_is_single_witness :
  let variables := Some [("issueId", AString "ENG-1"); ("summary", AString "second run")] in
  let '(l', result) := run_on serve comments (workpad_call true variables) in
  l' = upsert "new" (workpad_of "second run") comments ∧ workpads l' = 1%nat.
Proof.
  intros variables. pose proof (workpad_is_single serve "ENG-1" comments cursor "new" service variables) as H1.
  specialize (H1 eq_refl eq_refl). cbv zeta in H1. destruct (run_on serve comments (workpad_call true variables)) as [l' result].
  destruct H1 as (_ & H2 & H3).
  - apply Nat.leb_le. by vm_compute.
  - split; [exact H2|]. rewrite H3. by vm_compute.
Defined.


(** The demonstration mutation of the gate over a server that accepts it. *)
Definition client : LinearClient :=
  {| lc_apiKey := "lin_api_k3y"; lc_baseURL := ""; lc_httpTimeout := 0; lc_proxy := GraphQLGuard.demo_proxy |}.
Definition http (n : nat) (r : LinearRequest) : HttpReply :=
  Response 200 "200 OK" {| rd_bytes := "{}"; rd_err := None |}.
Lemma transport_refines_gate_witness :
  envelope_roundtrip ∧
  let '(s1, out) := linear_call demo_env http client demo_query demo_variables demo_guard_state in
  let '(t1, r) := call demo_env GraphQLGuard.demo_proxy demo_query demo_variables demo_guard_state in
  s1 = t1 ∧ implements r out ∧ match out with Some (inr text, Some _) => text = "ok" | _ => False end.
Proof.
  assert (envelope_roundtrip) as H1. { intros [] output; by eexists. }
  split; [exact H1|].
  pose proof (transport_refines_gate http client demo_env demo_query demo_variables demo_guard_state H1 (λ n, eq_refl)) as H2.
  destruct (linear_callRaw demo_env http client demo_query demo_variables demo_guard_state) as [s2 rawOut].
  assert (match (linear_call demo_env http client demo_query demo_variables demo_guard_state).2 with
          | Some (inr text, Some _) => text = "ok" | _ => False end) as H3 by (vm_compute; reflexivity).
  destruct (linear_call demo_env http client demo_query demo_variables demo_guard_state) as [s1 out].
  change GraphQLGuard.demo_proxy with (lc_proxy client).
  destruct (call demo_env (lc_proxy client) demo_query demo_variables demo_guard_state) as [t1 r].
  destruct H2 as [[E Hr] _]. split; [exact E|]. split; [exact Hr|exact H3].
Defined.
End Board.

(** A page that promises another one but names no cursor ends the lookup as if nothing
    were left: the workpad is created though pages were not read. *)
Example unread_pages_create :
  read_page (H0 := {| decode_envelope _ := None; decode_payload t := Some (true, t); decode_mutation _ := inl CanceledErr;
              decode_page _ := inr {| HasNextPage := true; EndCursor := " "; Nodes := [] |} |}) "" (inr "page") = inl (inr "")
  ∧ tq_Query (mutation_question "ENG-1" "" "body") = workpad_create_query.
Proof. done. Qed.

(** ** What the agent is told *)

Definition metadata (tool : DynamicTool) : string * any := (dt_Description tool, dt_InputSchema tool).
(** What each name is advertised with under a configuration. *)
Definition advertised (cfg : Config) (name : string) : option (string * any) :=
  let lg := cc_LinearGraphQL (cf_Codex cfg) in
  let gate := {| allowMutations := lg_AllowMutations lg; allowedMutations := linearGraphQLAllowSet (lg_AllowedMutations lg);
                 currentIssueGuard := no_guard |} in
  let client := {| lc_apiKey := ""; lc_baseURL := ""; lc_httpTimeout := 0; lc_proxy := gate |} in
  if String.eqb name "linear_graphql" then Some (metadata (linear_graphql_tool client))
  else if String.eqb name linearWorkpadToolName then Some (metadata (NewLinearWorkpadTool client))
  else if String.eqb name "gitea_issue_labels"
  then Some (metadata (gitea_labels_tool {| gc_token := ""; gc_baseURL := ""; gc_owner := ""; gc_repo := "";
                         gc_proxy := {| currentIssueNumber := 0; GiteaTools.activeStates := []; GiteaTools.terminalStates := [] |} |}))
  else None.

(** What is behind a tool of this tracker: a client with a token. *)
Definition has_its_token (kind : string) (impl : ToolImpl) : Prop :=
  match impl with
  | LinearGraphQLCall c | LinearWorkpadCall c => EqualFold kind "linear" = true ∧ lc_apiKey c ≠ ""
  | GiteaLabelsCall g => EqualFold kind "gitea" = true ∧ gc_token g ≠ "" ∧ gc_owner g ≠ "" ∧ gc_repo g ≠ "" ∧ gc_baseURL g ≠ ""
  end.
Definition tool_ok (cfg : Config) (name : string) (tool : DynamicTool) : Prop :=
  advertised cfg name = Some (metadata tool) ∧ has_its_token (tk_Kind (cf_Tracker cfg)) (dt_Call tool).

Lemma registered_ok cfg tool (tools : DynamicToolSet) :
  tool_ok cfg (dt_Name tool) tool → map_Forall (tool_ok cfg) tools → map_Forall (tool_ok cfg) (register tool tools).
Proof. intros H Ht. by apply map_Forall_insert_2. Qed.
Lemma tools_ok cfg profile lookup options : map_Forall (tool_ok cfg) (DynamicToolsForWorkflow cfg profile lookup options).
Proof.
  unfold DynamicToolsForWorkflow.
  assert (map_Forall (tool_ok cfg) (linear_tools cfg profile lookup options)) as Ht.
  { unfold linear_tools. destruct (linearToolProfile _ _ _) as [l|]; [|apply map_Forall_empty].
    destruct (EqualFold _ "linear" && _) eqn:E; [|apply map_Forall_empty].
    apply andb_true_iff in E as [Ek Et]. apply negb_true_iff, String.eqb_neq in Et.
    apply registered_ok; [done|]. apply registered_ok; [done|]. apply map_Forall_empty. }
  destruct (giteaToolProfile _ _ _ _ _) as [r|]; [|done].
    destruct (_ && _) eqn:E; [|done]. rewrite !andb_true_iff, !negb_true_iff, !String.eqb_neq in E.
    apply registered_ok; [|done]. split; [done|]. simpl. tauto.
Qed.

(** What the agent is told of its tools carries nothing of a token: under one
    configuration and one list of options, two workers whose resolved profiles and
    environments differ in any way, credentials included, advertise every tool they both
    register with the same description and input schema, and each tool registered belongs
    to the configured tracker and has a credential behind it. *)
Theorem tool_metadata_is_token_free cfg options profile1 lookup1 profile2 lookup2 name tool1 tool2 :
  Lookup (DynamicToolsForWorkflow cfg profile1 lookup1 options) name = Some tool1 →
  Lookup (DynamicToolsForWorkflow cfg profile2 lookup2 options) name = Some tool2 →
  metadata tool1 = metadata tool2
  ∧ has_its_token (tk_Kind (cf_Tracker cfg)) (dt_Call tool1) ∧ has_its_token (tk_Kind (cf_Tracker cfg)) (dt_Call tool2).
Proof.
  intros [E1 H1]%tools_ok [E2 H2]%tools_ok. split; [|done]. congruence.
Qed.
Definition linear_config : Config := (DefaultConfig "/tmp") <| cf_Tracker ::= (λ t, t <| tk_Kind := "linear" |> <| tk_Provider := Some {["api_key" := PString "$LINEAR_API_KEY"]} |>) |>.
Definition env_with (key : string) : lookup_env := λ name, if String.eqb name "LINEAR_API_KEY" then Some key else None.
Lemma tool_metadata_is_token_free_witness :
  ∃ tool1 tool2,
    Lookup (DynamicToolsForWorkflow linear_config None (env_with "lin_one") []) "linear_graphql" = Some tool1
    ∧ Lookup (DynamicToolsForWorkflow linear_config None (env_with "lin_two") []) "linear_graphql" = Some tool2
    ∧ dt_Call tool1 ≠ dt_Call tool2 ∧ metadata tool1 = metadata tool2.
Proof.
  destruct (Lookup (DynamicToolsForWorkflow linear_config None (env_with "lin_one") []) "linear_graphql") as [tool1|] eqn:E1;
    [|exfalso; vm_compute in E1; discriminate E1].
  destruct (Lookup (DynamicToolsForWorkflow linear_config None (env_with "lin_two") []) "linear_graphql") as [tool2|] eqn:E2;
    [|exfalso; vm_compute in E2; discriminate E2].
  exists tool1, tool2. split; [done|]. split; [done|].
  split; [|exact (proj1 (tool_metadata_is_token_free _ _ _ _ _ _ _ _ _ E1 E2))].
  intros E. vm_compute in E1, E2. injection E1 as <-. injection E2 as <-. discriminate E.
Defined.
Example linear_names : Names (DynamicToolsForWorkflow linear_config None (env_with "lin_one") []) = ["linear_ai_workpad"; "linear_graphql"].
Proof. vm_compute. reflexivity. Qed.
Example no_token_no_tools : Names (DynamicToolsForWorkflow linear_config None (λ _, None) []) = [].
Proof. vm_compute. reflexivity. Qed.
