(* ===== verification/StateApi.v ===== *)
(** * The state API of the worker (cmd/worker/stateapi.go, statehttp_server.go, redact.go,
      internal/stateapi)

    What an operator sees of the orchestrator over HTTP: the redaction of secrets in text,
    the rows of /api/v1/state and the lookup of one issue from a [StateView], the handlers
    and the refresh trigger, the guard in front of them, and the controller that keeps at
    most one server listening across reloads of the configuration.

    A handler is a program that may ask for a snapshot, a refresh, the readiness or the
    time; the controller asks to listen, to cancel and to wait.  net/http's reading of a
    request, the base64 of basic authentication, net.SplitHostPort and net.ParseIP are
    arguments; bodies of responses are the values that are encoded.  The patterns of the
    multiplexers are matched on paths without escapes. *)

From S2P Require Import Prelude Tracker RetryPolicy Payload GoStd Types State Ops RuntimeEvents Reconcile Snapshot Paths Hashes Profiles TrackerErrors Regex Tools.

(** ** Redaction of text *)

Definition stateAPILastMessageMaxRunes : nat := 256.
Definition redacted : string := "<redacted>".

Fixpoint literal (s : string) : Regex :=
  match s with String c t => Cat (Chr (Ascii.eqb c)) (literal t) | EmptyString => Eps end.
Fixpoint at_least (n : nat) (r : Regex) : Regex := match n with O => Star r | S n => Cat r (at_least n r) end.
(** A class that holds every letter, under (?i): k and s also fold from beyond ASCII. *)
Definition fold_class (p : Ascii.ascii → bool) : Regex :=
  Alt (Chr p) (Alt (Cat (chr_is 197) (chr_is 191)) (Cat (chr_is 226) (Cat (chr_is 132) (chr_is 170)))).
Definition is_letter (c : Ascii.ascii) : bool := in_range 65 90 c || in_range 97 122 c.
Definition is_digit (c : Ascii.ascii) : bool := in_range 48 57 c.
Definition re_white (c : Ascii.ascii) : bool := in_range 9 10 c || in_range 12 13 c || byte_is 32 c.

Definition header_char (c : Ascii.ascii) : bool := negb (byte_is 13 c || byte_is 10 c || byte_is 59 c).
Definition bearer_char (c : Ascii.ascii) : bool :=
  is_letter c || is_digit c || byte_is 46 c || byte_is 95 c || byte_is 45 c || byte_is 43 c || byte_is 47 c || byte_is 61 c.
Definition key_char (c : Ascii.ascii) : bool := is_letter c || is_digit c || byte_is 95 c || byte_is 45 c.
Definition scheme_char (c : Ascii.ascii) : bool := is_letter c || is_digit c || byte_is 43 c || byte_is 46 c || byte_is 45 c.
Definition userinfo_char (c : Ascii.ascii) : bool := negb (byte_is 47 c || byte_is 63 c || byte_is 35 c || re_white c).
Definition not_white (c : Ascii.ascii) : bool := negb (re_white c).

Definition authorization_re : Regex :=
  Cat WordBoundary (Cat (fold_text "authorization:") (Cat (Star white) (Plus (Chr header_char)))).
Definition bearer_re : Regex :=
  Cat WordBoundary (Cat (fold_text "bearer") (Cat (Plus white) (Plus (fold_class bearer_char)))).
Definition key_re : Regex :=
  Cat WordBoundary (Cat (one_of (map literal ["sk"; "ghp"; "ghu"; "ghs"; "gho"; "github_pat"; "glpat"; "xoxb"; "xoxp"]))
    (Cat (Chr (λ c, byte_is 95 c || byte_is 45 c)) (at_least 16 (Chr key_char)))).
Definition userinfo_re : Regex :=
  Cat WordBoundary (Cat (Chr is_letter) (Cat (Star (Chr scheme_char)) (Cat (literal "://")
    (Cat (Star (Chr userinfo_char)) (Cat (chr_is 64) (Plus (Chr not_white))))))).
Definition stateAPIRedactionPatterns : list Regex := [authorization_re; bearer_re; key_re; userinfo_re].

(** [ReplaceAllString] for an expression that does not match the empty text; [skip] bytes
    of the current match are left. *)
Definition match_at (r : Regex) (prev : bool) (s : string) : option At :=
  attempt r Some {| at_prev := prev; at_rest := s; at_group := "" |}.
Fixpoint replace_matches (r : Regex) (text : string) (skip : nat) (prev : bool) (s : string) : string :=
  match s with
  | EmptyString => ""
  | String c t =>
      match skip with
      | S skip => replace_matches r text skip (is_word c) t
      | O => match match_at r prev s with
             | Some a => text +:+ replace_matches r text (String.length t - String.length (at_rest a)) (is_word c) t
             | None => String c (replace_matches r text 0 (is_word c) t)
             end
      end
  end.
Definition ReplaceAllString (r : Regex) (text s : string) : string := replace_matches r text 0 false s.

Definition redactStateAPISecretText (s : string) : string :=
  if String.eqb s "" then ""
  else fold_left (λ s p, ReplaceAllString p redacted s) stateAPIRedactionPatterns s.
Definition ellipsis : string := "…".
Definition redactStateAPILastMessage (s : string) : string :=
  if String.eqb s "" then ""
  else
    let s := redactStateAPISecretText s in
    if (stateAPILastMessageMaxRunes <? rune_count 0 s)%nat
    then first_runes stateAPILastMessageMaxRunes 0 s +:+ ellipsis else s.

Example redact_header : redactStateAPISecretText "set Authorization: Bearer xyz789; retrying" = "set <redacted>; retrying".
Proof. vm_compute. reflexivity. Qed.
Example redact_url : redactStateAPISecretText "clone https://u:p@ss@host/r.git failed" = "clone <redacted> failed".
Proof. vm_compute. reflexivity. Qed.
Example redact_key : redactStateAPISecretText "key ghp_0123456789abcdef0 used" = "key <redacted> used".
Proof. vm_compute. reflexivity. Qed.
(** The second expression takes the scheme of a URL for the token, and the last one then
    does not find the credential. *)
Example bearer_url_leaks : redactStateAPISecretText "got Bearer https://s3cret@host/" = "got <redacted>://s3cret@host/".
Proof. vm_compute. reflexivity. Qed.

(** ** The wire rows *)

(** A zero time is left out. *)
Definition time_or_none (t : Time) : option Time := if IsZero t then None else Some t.

Record api_Running := {
  ar_IssueID : string; ar_Identifier : string; ar_IssueURL : string; ar_State : string; ar_SessionID : string;
  ar_TurnCount : Z; ar_LastEvent : string; ar_LastMessage : string; ar_StartedAt : option Time;
  ar_RuntimeSeconds : Duration; ar_LastEventAt : option Time; ar_RetryAttempt : option Z; ar_WorkspacePath : string;
  ar_Tokens : TokensView; ar_CodexAppServerPID : Z; ar_AgentProvider : string; ar_AgentModel : string;
  ar_WorkflowSource : string; ar_WorkflowPath : string
}.
Record api_Blocked := {
  ab_IssueID : string; ab_Identifier : string; ab_IssueURL : string; ab_State : string; ab_BlockedAt : option Time;
  ab_WorkspacePath : string; ab_SessionID : string; ab_LastEventAt : option Time; ab_RuntimeSeconds : Duration;
  ab_Tokens : TokensView; ab_Method : string; ab_Error : string; ab_CodexAppServerPID : Z
}.
Record api_Retry := {
  ay_IssueID : string; ay_Identifier : string; ay_IssueURL : string; ay_Attempt : Z; ay_DueAt : option Time;
  ay_Error : string; ay_Kind : RetryKind; ay_StartupFailure : option StartupFailure
}.
Record api_OperatorTerminalStop := {
  ao_IssueID : string; ao_Identifier : string; ao_State : string; ao_StoppedAt : option Time;
  ao_SuppressedDispatches : Z; ao_FirstSuppressedAt : option Time; ao_FirstSuppressedState : string;
  ao_FirstSuppressedReason : string
}.
Record api_SessionUsage := {
  au_IssueID : string; au_Identifier : string; au_IssueURL : string; au_State : string; au_SessionID : string;
  au_WorkflowSource : string; au_WorkflowPath : string; au_AgentProvider : string; au_AgentModel : string;
  au_Tokens : TokensView; au_RuntimeSeconds : Duration; au_CompletedAt : option Time; au_Outcome : string
}.
Record api_Counts := {
  ac_Running : Z; ac_Blocked : Z; ac_Retrying : Z; ac_Completed : Z; ac_CompletedTotal : Z;
  ac_ReconcileStoppedWithProgress : Z; ac_ReconcileStoppedWithProgressTotal : Z;
  ac_AgentHandoffReconcileStopped : Z; ac_AgentHandoffReconcileStoppedTotal : Z;
  ac_ActiveSuccessNoHandoff : Z; ac_ActiveSuccessNoHandoffTotal : Z;
  ac_OperatorTerminalStops : Z; ac_OperatorTerminalStopsTotal : Z
}.
(** A list of ids is null when it is empty. *)
Record StateResponse := {
  as_Version : string; as_AgentDefault : string; as_GeneratedAt : Time; as_PollIntervalMs : Z;
  as_MaxConcurrentAgents : Z; as_MaxConcurrentAgentsByState : option (gmap string Z); as_Counts : api_Counts;
  as_Running : list api_Running; as_Blocked : list api_Blocked; as_Retrying : list api_Retry;
  as_Completed : option (list string); as_ReconcileStoppedWithProgress : option (list string);
  as_AgentHandoffReconcileStopped : option (list string); as_ActiveSuccessNoHandoff : option (list string);
  as_OperatorTerminalStops : list api_OperatorTerminalStop; as_CompletedSessionUsage : list api_SessionUsage;
  as_BudgetGuardrails : BudgetGuardrails; as_CodexTotals : CodexTotals; as_RateLimits : any_map
}.

Definition apiRunningFromView (row : RunningView) : api_Running :=
  {| ar_IssueID := rv_IssueID row; ar_Identifier := rv_Identifier row; ar_IssueURL := rv_IssueURL row;
     ar_State := rv_State row; ar_SessionID := rv_SessionID row; ar_TurnCount := rv_TurnCount row;
     ar_LastEvent := rv_LastEvent row; ar_LastMessage := redactStateAPILastMessage (rv_LastMessage row);
     ar_StartedAt := time_or_none (rv_StartedAt row); ar_RuntimeSeconds := rv_RuntimeSeconds row;
     ar_LastEventAt := time_or_none (rv_LastEventAt row); ar_RetryAttempt := rv_RetryAttempt row;
     ar_WorkspacePath := rv_WorkspacePath row; ar_Tokens := rv_Tokens row;
     ar_CodexAppServerPID := rv_CodexAppServerPID row; ar_AgentProvider := rv_AgentProvider row;
     ar_AgentModel := rv_AgentModel row; ar_WorkflowSource := rv_WorkflowSource row; ar_WorkflowPath := rv_WorkflowPath row |}.
Definition apiStartupFailure (f : option StartupFailure) : option StartupFailure :=
  option_map (λ f, {| sf_Phase := sf_Phase f; sf_Error := redactStateAPISecretText (sf_Error f) |}) f.
Definition apiRetryFromView (row : RetryView) : api_Retry :=
  {| ay_IssueID := yv_IssueID row; ay_Identifier := yv_Identifier row; ay_IssueURL := yv_IssueURL row;
     ay_Attempt := yv_Attempt row; ay_DueAt := time_or_none (yv_DueAt row);
     ay_Error := redactStateAPISecretText (yv_Error row); ay_Kind := yv_Kind row;
     ay_StartupFailure := apiStartupFailure (yv_StartupFailure row) |}.
Definition apiBlockedFromView (row : BlockedView) : api_Blocked :=
  {| ab_IssueID := bv_IssueID row; ab_Identifier := bv_Identifier row; ab_IssueURL := bv_IssueURL row;
     ab_State := bv_State row; ab_BlockedAt := time_or_none (bv_BlockedAt row); ab_WorkspacePath := bv_WorkspacePath row;
     ab_SessionID := bv_SessionID row; ab_LastEventAt := time_or_none (bv_LastEventAt row);
     ab_RuntimeSeconds := bv_RuntimeSeconds row; ab_Tokens := bv_Tokens row; ab_Method := bv_Method row;
     ab_Error := redactStateAPISecretText (bv_Error row); ab_CodexAppServerPID := bv_CodexAppServerPID row |}.
Definition apiStopFromView (row : OperatorTerminalStopView) : api_OperatorTerminalStop :=
  {| ao_IssueID := ov_IssueID row; ao_Identifier := ov_Identifier row; ao_State := ov_State row;
     ao_StoppedAt := time_or_none (ov_StoppedAt row); ao_SuppressedDispatches := ov_SuppressedDispatches row;
     ao_FirstSuppressedAt := time_or_none (ov_FirstSuppressedAt row);
     ao_FirstSuppressedState := ov_FirstSuppressedState row; ao_FirstSuppressedReason := ov_FirstSuppressedReason row |}.
Definition apiSessionUsageFromView (rows : list SessionUsageView) : list api_SessionUsage :=
  map (λ row,
    {| au_IssueID := sv_IssueID row; au_Identifier := sv_Identifier row; au_IssueURL := sv_IssueURL row;
       au_State := sv_State row; au_SessionID := sv_SessionID row; au_WorkflowSource := sv_WorkflowSource row;
       au_WorkflowPath := sv_WorkflowPath row; au_AgentProvider := sv_AgentProvider row; au_AgentModel := sv_AgentModel row;
       au_Tokens := sv_Tokens row; au_RuntimeSeconds := sv_RuntimeSeconds row;
       au_CompletedAt := time_or_none (sv_CompletedAt row); au_Outcome := sv_Outcome row |}) rows.

(** [sort.Slice] by issue id; a view has one row per id, so the order is the only one. *)
Definition by_id {A} (id : A → string) (l : list A) : list A := stable_sort (λ x y, String.ltb (id x) (id y)) l.
Definition sortedAPIRunningRows (rows : list RunningView) : list api_Running := by_id ar_IssueID (map apiRunningFromView rows).
Definition sortedAPIRetryRows (rows : list RetryView) : list api_Retry := by_id ay_IssueID (map apiRetryFromView rows).
Definition sortedAPIOperatorTerminalStops (rows : list OperatorTerminalStopView) : list api_OperatorTerminalStop :=
  by_id ao_IssueID (map apiStopFromView rows).
Definition sortedIssueIDStrings (ids : list IssueID) : option (list string) :=
  match ids with [] => None | _ => Some (sort_strings ids) end.

Definition count {A} (l : list A) : Z := Z.of_nat (length l).
Definition apiCountsFromView (view : StateView) : api_Counts :=
  {| ac_Running := count (view_Running view); ac_Blocked := count (view_Blocked view);
     ac_Retrying := count (view_Retrying view); ac_Completed := count (view_Completed view);
     ac_CompletedTotal := view_CumulativeCompletedTotal view;
     ac_ReconcileStoppedWithProgress := count (view_ReconcileStoppedWithProgress view);
     ac_ReconcileStoppedWithProgressTotal := view_CumulativeReconcileStoppedWithProgressTotal view;
     ac_AgentHandoffReconcileStopped := count (view_AgentHandoffReconcileStopped view);
     ac_AgentHandoffReconcileStoppedTotal := view_CumulativeAgentHandoffReconcileStoppedTotal view;
     ac_ActiveSuccessNoHandoff := count (view_ActiveSuccessNoHandoff view);
     ac_ActiveSuccessNoHandoffTotal := view_CumulativeActiveSuccessNoHandoffTotal view;
     ac_OperatorTerminalStops := count (view_OperatorTerminalStops view);
     ac_OperatorTerminalStopsTotal := view_CumulativeOperatorTerminalStopsTotal view |}.

Definition copyConcurrencyLimits (src : gmap string Z) : option (gmap string Z) :=
  if bool_decide (src = ∅) then None else Some src.
Definition rateLimitsForAPI (src : option any_map) : any_map := default None src.

(** [version] is the build's, [now] is only looked at for a view without a time. *)
Definition apiStateFromView (version : string) (now : Time) (view : StateView) : StateResponse :=
  {| as_Version := version; as_AgentDefault := view_AgentDefault view;
     as_GeneratedAt := if IsZero (view_GeneratedAt view) then now else view_GeneratedAt view;
     as_PollIntervalMs := view_PollIntervalMs view; as_MaxConcurrentAgents := view_MaxConcurrentAgents view;
     as_MaxConcurrentAgentsByState := copyConcurrencyLimits (view_MaxConcurrentAgentsByState view);
     as_Counts := apiCountsFromView view; as_Running := sortedAPIRunningRows (view_Running view);
     as_Blocked := by_id ab_IssueID (map apiBlockedFromView (view_Blocked view));
     as_Retrying := sortedAPIRetryRows (view_Retrying view);
     as_Completed := sortedIssueIDStrings (view_Completed view);
     as_ReconcileStoppedWithProgress := sortedIssueIDStrings (view_ReconcileStoppedWithProgress view);
     as_AgentHandoffReconcileStopped := sortedIssueIDStrings (view_AgentHandoffReconcileStopped view);
     as_ActiveSuccessNoHandoff := sortedIssueIDStrings (view_ActiveSuccessNoHandoff view);
     as_OperatorTerminalStops := sortedAPIOperatorTerminalStops (view_OperatorTerminalStops view);
     as_CompletedSessionUsage := apiSessionUsageFromView (view_CompletedSessionUsage view);
     as_BudgetGuardrails := view_BudgetGuardrails view; as_CodexTotals := view_CodexTotals view;
     as_RateLimits := rateLimitsForAPI (view_CodexRateLimits view) |}.

(** ** One issue *)

Record api_Issue := {
  ai_IssueIdentifier : string; ai_IssueID : IssueID; ai_Status : string; ai_WorkspacePath : string;
  ai_RestartCount : Z; ai_CurrentRetryAttempt : option Z; ai_Running : option api_Running; ai_Retry : option api_Retry;
  ai_RecentEvents : list RuntimeEvent; ai_LastError : option string
}.
#[export] Instance eta_api_Issue : Eta api_Issue := fun r =>
  Build_api_Issue (ai_IssueIdentifier r) (ai_IssueID r) (ai_Status r) (ai_WorkspacePath r) (ai_RestartCount r)
    (ai_CurrentRetryAttempt r) (ai_Running r) (ai_Retry r) (ai_RecentEvents r) (ai_LastError r).

Definition normalizeIssueLookup (value : string) : string := ToLower (TrimSpace value).
Definition matchesIssueLookup (issueID identifier want : string) : bool :=
  String.eqb (normalizeIssueLookup identifier) want || String.eqb (normalizeIssueLookup issueID) want.
Definition restartCountFromRetryAttempt (attempt : option Z) : Z :=
  match attempt with Some a => if a <=? 0 then 0 else a - 1 | None => 0 end.
Definition redactedStringPointerIfNotEmpty (value : string) : option string :=
  if String.eqb value "" then None else Some (redactStateAPISecretText value).
(** The event with its message redacted; an empty branch or URL is left out. *)
Definition apiRuntimeEventFromView (ev : RuntimeEvent) : RuntimeEvent :=
  ev <| ev_Message := redactStateAPISecretText (ev_Message ev) |>.

Definition base_issue (issueID identifier status : string) : api_Issue :=
  {| ai_IssueIdentifier := identifier; ai_IssueID := issueID; ai_Status := status; ai_WorkspacePath := "";
     ai_RestartCount := 0; ai_CurrentRetryAttempt := None; ai_Running := None; ai_Retry := None;
     ai_RecentEvents := []; ai_LastError := None |}.
Definition kind_text (k : RuntimeEventKind) : string :=
  match k with
  | RuntimeEventCandidate => "candidate" | RuntimeEventRunning => "running" | RuntimeEventCompleted => "completed"
  | RuntimeEventFailed => "failed" | RuntimeEventInputBlocked => "input_blocked"
  | RuntimeEventContinuationBudgetBlocked => "continuation_budget_blocked"
  | RuntimeEventOperatorTerminalStop => "operator_terminal_stop"
  | RuntimeEventOperatorTerminalStopDispatchSuppressed => "operator_terminal_stop_dispatch_suppressed"
  | RuntimeEventReconcileStopped => "reconcile_stopped_with_progress"
  | RuntimeEventAgentHandoffReconcileStopped => "agent_handoff_reconcile_stopped"
  | RuntimeEventActiveSuccessNoHandoff => "active_success_no_handoff"
  | RuntimeEventBudgetExceeded => "budget_exceeded" | RuntimeEventDispatchPreflightFailed => "dispatch_preflight_failed"
  end.
Definition terminal_kind (k : RuntimeEventKind) : bool :=
  match k with
  | RuntimeEventCompleted | RuntimeEventFailed | RuntimeEventReconcileStopped
  | RuntimeEventAgentHandoffReconcileStopped | RuntimeEventActiveSuccessNoHandoff | RuntimeEventOperatorTerminalStop => true
  | _ => false
  end.
Definition event_issue (ev : RuntimeEvent) : api_Issue :=
  (base_issue (ev_IssueID ev) (ev_Identifier ev) (kind_text (ev_Kind ev)))
    <| ai_RecentEvents := [apiRuntimeEventFromView ev] |>
    <| ai_LastError := match ev_Kind ev with
                       | RuntimeEventFailed => redactedStringPointerIfNotEmpty (ev_Message ev)
                       | _ => None end |>.

(** The first of the lists that has a row for the issue. *)
Definition first_of {A} (l : list A) (found : A → bool) (row : A → api_Issue) (rest : option api_Issue) : option api_Issue :=
  match List.find found l with Some x => Some (row x) | None => rest end.
Definition id_row (status : string) (id : IssueID) : api_Issue := base_issue id id status.
Definition apiTerminalIssueFromView (view : StateView) (want : string) : option api_Issue :=
  let matches_id id := matchesIssueLookup id "" want in
  first_of (view_OperatorTerminalStops view) (λ s, matchesIssueLookup (ov_IssueID s) (ov_Identifier s) want)
    (λ s, base_issue (ov_IssueID s) (ov_Identifier s) "operator_terminal_stop")
  (first_of (rev (view_RecentEvents view))
     (λ ev, terminal_kind (ev_Kind ev) && matchesIssueLookup (ev_IssueID ev) (ev_Identifier ev) want) event_issue
  (first_of (view_AgentHandoffReconcileStopped view) matches_id (id_row "agent_handoff_reconcile_stopped")
  (first_of (view_ActiveSuccessNoHandoff view) matches_id (id_row "active_success_no_handoff")
  (first_of (view_Completed view) matches_id (id_row "completed")
  (first_of (view_ReconcileStoppedWithProgress view) matches_id (id_row "reconcile_stopped_with_progress") None))))).
Definition running_issue (row : RunningView) : api_Issue :=
  (base_issue (rv_IssueID row) (rv_Identifier row) "running")
    <| ai_WorkspacePath := rv_WorkspacePath row |> <| ai_CurrentRetryAttempt := rv_RetryAttempt row |>
    <| ai_RestartCount := restartCountFromRetryAttempt (rv_RetryAttempt row) |>
    <| ai_Running := Some (apiRunningFromView row) |>.
Definition retrying_issue (row : RetryView) : api_Issue :=
  (base_issue (yv_IssueID row) (yv_Identifier row) "retrying")
    <| ai_CurrentRetryAttempt := Some (yv_Attempt row) |>
    <| ai_RestartCount := restartCountFromRetryAttempt (Some (yv_Attempt row)) |>
    <| ai_Retry := Some (apiRetryFromView row) |>
    <| ai_LastError := redactedStringPointerIfNotEmpty (yv_Error row) |>.
Definition apiIssueFromView (view : StateView) (identifier : string) : option api_Issue :=
  let want := normalizeIssueLookup identifier in
  first_of (view_Running view) (λ row, matchesIssueLookup (rv_IssueID row) (rv_Identifier row) want) running_issue
  (first_of (view_Retrying view) (λ row, matchesIssueLookup (yv_IssueID row) (yv_Identifier row) want) retrying_issue
  (apiTerminalIssueFromView view want)).

(** ** Requests and responses *)

(** A request as a handler reads it: a missing header is empty, [None] is a nil body. *)
Record RequestBody := { bd_bytes : string; bd_err : option string }.
Record Request := {
  rq_Method : string; rq_Path : string; rq_Host : string; rq_RemoteAddr : string;
  rq_Authorization : string; rq_Refresh : string; rq_Body : option RequestBody; rq_ContentLength : Z
}.
Record RefreshRequestResult := { rr_Queued : bool; rr_Coalesced : bool; rr_RequestedAt : Time; rr_Operations : list string }.
Inductive RespBody :=
| ErrorBody (code message : string)
| StateBody (s : StateResponse)
| IssueBody (i : api_Issue)
| RefreshBody (r : RefreshRequestResult)
| TextBody (text : string)
| PageBody (html : string)
| FaviconBody (png : string)
| FileBody (path : string)                      (* what the file server makes of it *)
| NoBody.
Record Response := { rs_Status : Z; rs_Headers : list (string * string); rs_Body : RespBody }.

(** An error of a snapshot or a refresh: whether a context ended, and the categories the
    workflow and the tracker package find in it. *)
Record CallErr := { ce_Cancelled : bool; ce_Workflow : option string; ce_Tracker : option string }.
Inductive ApiCall := AskSnapshot | AskRefresh | AskReadiness | AskNow.
Definition ApiAns (q : ApiCall) : Type :=
  match q with
  | AskSnapshot => CallErr + StateView
  | AskRefresh => CallErr + RefreshRequestResult
  | AskReadiness => bool * string
  | AskNow => Time
  end.
Notation Handler := (Request → Asking ApiAns Response).

Class Net := {
  BasicAuth : string → option (string * string);          (* of an Authorization header *)
  SplitHostPort : string → option (string * string);
  ip_is_loopback : string → bool;                         (* ParseIP succeeds, IsLoopback *)
  json_members : string → option nat                      (* of a JSON object *)
}.

Definition json_type : string * string := ("Content-Type", "application/json").
Definition text_type : string * string := ("Content-Type", "text/plain; charset=utf-8").
Definition apiErrorCode (e : CallErr) : string :=
  match ce_Workflow e, ce_Tracker e with Some c, _ => c | None, Some c => c | None, None => "internal_error" end.
Definition writeAPIError (headers : list (string * string)) (status : Z) (code message : string) : Response :=
  {| rs_Status := status; rs_Headers := headers ++ [json_type]; rs_Body := ErrorBody code message |}.
(** [http.Error]. *)
Definition http_Error (headers : list (string * string)) (message : string) (status : Z) : Response :=
  {| rs_Status := status; rs_Headers := headers ++ [text_type; ("X-Content-Type-Options", "nosniff")];
     rs_Body := TextBody (message +:+ newline) |}.
Definition method_not_allowed (allow : string) : Response :=
  writeAPIError [("Allow", allow)] 405 "method_not_allowed" "method not allowed".
Definition encoded (status : Z) (b : RespBody) : Response := {| rs_Status := status; rs_Headers := [json_type]; rs_Body := b |}.

Definition snapshot_error (e : CallErr) : Response :=
  if ce_Cancelled e then writeAPIError [] 503 "request_cancelled" "request cancelled before snapshot completed"
  else writeAPIError [] 500 (apiErrorCode e) "snapshot temporarily unavailable".

Definition stateHTTPHandler (version : string) : Handler := λ r,
  if negb (String.eqb (rq_Method r) "GET") then Ret (method_not_allowed "GET")
  else
    ask* answer := ask AskSnapshot in
    match answer with
    | inl e => Ret (snapshot_error e)
    | inr view =>
        if IsZero (view_GeneratedAt view)
        then ask* now := ask AskNow in Ret (encoded 200 (StateBody (apiStateFromView version now view)))
        else Ret (encoded 200 (StateBody (apiStateFromView version 0 view)))
    end.

(** [url.PathUnescape]. *)
Definition percent : Ascii.ascii := Ascii.ascii_of_nat 37.
Fixpoint PathUnescape (s : string) : option string :=
  match s with
  | EmptyString => Some ""
  | String c t =>
      if Ascii.eqb c percent then
        match t with
        | String h (String l rest) =>
            match hex_value h, hex_value l with
            | Some h, Some l => option_map (λ u, byte (16 * h + l) +:+ u) (PathUnescape rest)
            | _, _ => None
            end
        | _ => None
        end
      else option_map (String c) (PathUnescape t)
  end.
Definition api_prefix : string := "/api/v1/".
Definition issueIdentifierFromPath (path : string) : string + string :=
  let raw := match CutPrefix path api_prefix with Some rest => rest | None => path end in
  let raw := trim_slashes raw in
  if String.eqb raw "" then inl "missing issue identifier"
  else match PathUnescape raw with
       | None => inl ("invalid issue identifier " +:+ Poller.quote raw)
       | Some identifier =>
           let identifier := TrimSpace identifier in
           if String.eqb identifier "" then inl "missing issue identifier" else inr identifier
       end.
Definition issueHTTPHandler : Handler := λ r,
  if negb (String.eqb (rq_Method r) "GET") then Ret (method_not_allowed "GET")
  else match issueIdentifierFromPath (rq_Path r) with
       | inl err => Ret (writeAPIError [] 404 "issue_not_found" err)
       | inr identifier =>
           ask* answer := ask AskSnapshot in
           match answer with
           | inl e => Ret (snapshot_error e)
           | inr view =>
               Ret match apiIssueFromView view identifier with
                   | None => writeAPIError [] 404 "issue_not_found"
                               ("issue " +:+ Poller.quote identifier +:+ " was not found in the current runtime state")
                   | Some payload => encoded 200 (IssueBody payload)
                   end
           end
       end.

(** ** The refresh trigger *)

Definition refreshBodyLimitBytes : Z := 1048576.
Inductive RefreshBodyErr := errRefreshBodyTooLarge | RefreshBodyBad (text : string).
Definition refresh_body_bad : RefreshBodyErr := RefreshBodyBad "refresh request body must be empty or {}".
Definition validateRefreshBody `{Net} (r : Request) : option RefreshBodyErr :=
  match rq_Body r with
  | None => None
  | Some body =>
      if refreshBodyLimitBytes <? rq_ContentLength r then Some errRefreshBodyTooLarge
      else if refreshBodyLimitBytes <? Z.of_nat (String.length (bd_bytes body)) then Some errRefreshBodyTooLarge
      else match bd_err body with
           | Some err => Some (RefreshBodyBad err)
           | None =>
               match TrimSpace (bd_bytes body) with
               | EmptyString => None
               | String c t =>
                   if negb (byte_is 123 c) then Some refresh_body_bad
                   else match json_members (String c t) with Some O => None | _ => Some refresh_body_bad end
               end
           end
  end.
Definition refreshRequestHeader : string := "X-AIOPS-Refresh".
Definition refreshRequestHeaderValue : string := "true".
Definition validRefreshHeader (r : Request) : bool := EqualFold (TrimSpace (rq_Refresh r)) refreshRequestHeaderValue.
Definition refreshHTTPHandler `{Net} (configured : bool) : Handler := λ r,
  if negb (String.eqb (rq_Method r) "POST") then Ret (method_not_allowed "POST")
  else match validateRefreshBody r with
       | Some errRefreshBodyTooLarge => Ret (writeAPIError [] 413 "refresh_body_too_large" "refresh request body exceeds 1 MiB")
       | Some (RefreshBodyBad text) => Ret (writeAPIError [] 400 "invalid_refresh_body" text)
       | None =>
           if negb (validRefreshHeader r)
           then Ret (writeAPIError [] 403 "refresh_header_required"
                       (refreshRequestHeader +:+ ": " +:+ refreshRequestHeaderValue +:+ " header is required"))
           else if negb configured
           then Ret (writeAPIError [] 503 "refresh_unavailable" "refresh trigger is not configured")
           else
             ask* answer := ask AskRefresh in
             Ret match answer with
                 | inl e => if ce_Cancelled e
                            then writeAPIError [] 503 "refresh_unavailable" "request cancelled before refresh completed"
                            else writeAPIError [] 500 "refresh_failed" "refresh trigger temporarily unavailable"
                 | inr result => encoded 202 (RefreshBody result)
                 end
       end.

(** [RequestRefresh] on the one slot of the wake channel: whether it was taken, and the
    slot after. *)
Definition RequestRefresh (ctxErr : bool) (now : Time) (slot : bool) : bool * (CallErr + RefreshRequestResult) :=
  if ctxErr then (slot, inl {| ce_Cancelled := true; ce_Workflow := None; ce_Tracker := None |})
  else (true, inr {| rr_Queued := true; rr_Coalesced := slot; rr_RequestedAt := now; rr_Operations := ["poll"; "reconcile"] |}).

(** ** The dashboard *)

(** What is embedded: the built index, if there was a build, the fallback page, and the
    favicon; a page that cannot be read is none. *)
Record Embedded := { em_index : option string; em_fallback : option string; em_favicon : string }.
Definition faviconVersionPlaceholder : string := "__FAVICON_V__".
Definition faviconDigest (em : Embedded) : string := str_take 12 (hex (Sum256 (bytes_of (em_favicon em)))).
Definition dashboardIndex (em : Embedded) : option string :=
  match em_index em with Some page => Some page | None => em_fallback em end.
Definition dashboardHTML (em : Embedded) : string :=
  match dashboardIndex em with
  | Some raw => ReplaceAll faviconVersionPlaceholder (faviconDigest em) 0 raw
  | None => ""
  end.
Definition get_or_head (r : Request) : bool := String.eqb (rq_Method r) "GET" || String.eqb (rq_Method r) "HEAD".
Definition dashboardHTMLHandler (em : Embedded) : Handler := λ r,
  Ret (if negb (get_or_head r) then method_not_allowed "GET, HEAD"
       else if String.eqb (dashboardHTML em) "" then writeAPIError [] 500 "dashboard_unavailable" "dashboard html unavailable"
       else {| rs_Status := 200; rs_Headers := [("Content-Type", "text/html; charset=utf-8"); ("Cache-Control", "no-cache")];
               rs_Body := PageBody (dashboardHTML em) |}).
Definition double_quote : string := byte 34.
Definition faviconHandler (em : Embedded) : Handler := λ r,
  Ret (if negb (get_or_head r) then method_not_allowed "GET, HEAD"
       else {| rs_Status := 200;
               rs_Headers := [("Content-Type", "image/png"); ("Cache-Control", "public, max-age=31536000, immutable");
                              ("ETag", double_quote +:+ faviconDigest em +:+ double_quote)];
               rs_Body := FaviconBody (em_favicon em) |}).

(** ** Probes *)

Definition probe (status : Z) (text : string) : Response :=
  {| rs_Status := status; rs_Headers := [text_type]; rs_Body := TextBody (text +:+ newline) |}.
Definition livenessHTTPHandler : Handler := λ r,
  Ret (if negb (String.eqb (rq_Method r) "GET") then http_Error [("Allow", "GET")] "method not allowed" 405
       else probe 200 "ok").
(** [configured] is that a readiness function is set. *)
Definition readinessHTTPHandler (configured : bool) : Handler := λ r,
  if negb (String.eqb (rq_Method r) "GET") then Ret (http_Error [("Allow", "GET")] "method not allowed" 405)
  else if negb configured then Ret (probe 200 "ok")
  else
    ask* answer := ask AskReadiness in
    let '(ready, reason) := answer in
    Ret (if ready : bool then probe 200 "ok" else probe 503 (if String.eqb reason "" then "not ready" else reason)).

(** [stateHTTPReadiness]. *)
Definition readiness_Status (ready : bool) : bool * string :=
  if ready then (true, "") else (false, "startup reconciliation has not completed").

(** ** Who is let in *)

(** [subtle.ConstantTimeCompare] says whether the bytes are equal. *)
Definition stateHTTPTokenMatches (got want : string) : bool :=
  if String.eqb got "" || String.eqb want "" || negb (String.length got =? String.length want)%nat then false
  else String.eqb got want.
(** [strings.Cut(s, " ")]. *)
Fixpoint cut_space (s : string) : option (string * string) :=
  match s with
  | EmptyString => None
  | String c t => if byte_is 32 c then Some ("", t)
                  else option_map (λ '(before, after), (String c before, after)) (cut_space t)
  end.
Definition stateHTTPAuthorized `{Net} (r : Request) (token : string) : bool :=
  match BasicAuth (rq_Authorization r) with
  | Some (user, password) => String.eqb user "aiops" && stateHTTPTokenMatches password token
  | None => false
  end
  || match cut_space (rq_Authorization r) with
     | Some (scheme, credentials) => EqualFold scheme "Bearer" && stateHTTPTokenMatches (TrimSpace credentials) token
     | None => false
     end.

Definition has_open (s : string) : bool := HasPrefix s "[".
(** [host[1 : len(host)-1]]. *)
Definition inside (host : string) : string := String.substring 1 (String.length host - 2) host.
Definition normalizeHostFromHostport `{Net} (hostport : string) : option string :=
  if String.eqb hostport "" then None
  else
    let unbracket host :=
      if negb (Bool.eqb (has_open host) (HasSuffix host "]")) then None
      else if has_open host then Some (inside host) else Some host in
    match SplitHostPort hostport with
    | Some (h, _) => unbracket h
    | None => if Contains hostport ":" && negb (has_open hostport) then None else unbracket hostport
    end.
Definition isLoopbackHTTPHost `{Net} (hostport : string) : bool :=
  match normalizeHostFromHostport hostport with
  | Some host => String.eqb host "localhost" || ip_is_loopback host
  | None => false
  end.
Definition isLoopbackHTTPRemoteAddr `{Net} (remoteAddr : string) : bool :=
  match SplitHostPort remoteAddr with Some (host, _) => ip_is_loopback host | None => false end.
Definition requireStateHTTPAuth : Response :=
  http_Error [("WWW-Authenticate", "Basic realm=" +:+ double_quote +:+ "aiops state API" +:+ double_quote
                                   +:+ ", charset=" +:+ double_quote +:+ "UTF-8" +:+ double_quote)]
    "authentication required" 401.
(** [stateHTTPAccessGuard.wrap]. *)
Definition guard_wrap `{Net} (authToken : string) (next : Handler) : Handler := λ r,
  if negb (String.eqb authToken "")
  then if stateHTTPAuthorized r authToken then next r else Ret requireStateHTTPAuth
  else if isLoopbackHTTPHost (rq_Host r) && isLoopbackHTTPRemoteAddr (rq_RemoteAddr r) then next r
  else if negb (isLoopbackHTTPHost (rq_Host r)) then Ret (http_Error [] "misdirected request" 421)
  else Ret (http_Error [] "forbidden" 403).

(** ** Routes

    [http.ServeMux]: the longest pattern that is the path, or a prefix of it when it ends
    in a slash; a path that is not clean is redirected, and so is one that lacks the slash
    of a pattern. *)

Definition mux_matches (path pattern : string) : bool :=
  if HasSuffix pattern "/" then HasPrefix path pattern else String.eqb path pattern.
Definition longest {A} (best : option (string * A)) (entry : string * A) : option (string * A) :=
  match best with
  | Some (p, _) => if (String.length p <? String.length entry.1)%nat then Some entry else best
  | None => Some entry
  end.
Definition mux_find {A} (path : string) (patterns : list (string * A)) : option A :=
  snd <$> fold_left longest (List.filter (λ e, mux_matches path e.1) patterns) None.
Definition cleanPath (p : string) : string :=
  if String.eqb p "" then "/"
  else
    let p := if HasPrefix p "/" then p else "/" +:+ p in
    let np := Clean p in
    if HasSuffix p "/" && negb (String.eqb np "/") then np +:+ "/" else np.
Definition redirect (path : string) : Response :=
  {| rs_Status := 301; rs_Headers := [("Location", path); ("Content-Type", "text/html; charset=utf-8")]; rs_Body := NoBody |}.
Definition not_found : Response := http_Error [] "404 page not found" 404.
Definition mux_serve (patterns : list (string * Handler)) : Handler := λ r,
  if negb (String.eqb (cleanPath (rq_Path r)) (rq_Path r)) then Ret (redirect (cleanPath (rq_Path r)))
  else if negb (HasSuffix (rq_Path r) "/") && existsb (λ e, String.eqb e.1 (rq_Path r +:+ "/")) patterns
          && negb (existsb (λ e, String.eqb e.1 (rq_Path r)) patterns)
  then Ret (redirect (rq_Path r +:+ "/"))
  else match mux_find (rq_Path r) patterns with Some h => h r | None => Ret not_found end.

Section Server.
Context `{Net} (version : string) (em : Embedded) (refreshConfigured readinessConfigured : bool) (envToken : string).

Definition asset_handler : Handler := λ r, Ret {| rs_Status := 200; rs_Headers := []; rs_Body := FileBody (rq_Path r) |}.
Definition root_page : Handler := λ r,
  if negb (String.eqb (rq_Path r) "/") then Ret not_found else dashboardHTMLHandler em r.
Definition api_mux : Handler :=
  mux_serve [("/api/v1/state", stateHTTPHandler version); ("/api/v1/refresh", refreshHTTPHandler refreshConfigured);
             (api_prefix, issueHTTPHandler); ("/assets/", asset_handler); ("/fonts/", asset_handler);
             ("/favicon.png", faviconHandler em); ("/", root_page)].
(** [newStateHTTPServerWithAuthTokenAndReadiness]: the handler of the server. *)
Definition server_handler : Handler :=
  mux_serve [("/livez", livenessHTTPHandler); ("/readyz", readinessHTTPHandler readinessConfigured);
             ("/", guard_wrap (TrimSpace envToken) api_mux)].
End Server.

(** ** The controller of the server

    [cancel], [addr] and [serverDone] are set and cleared together, as the server [ct_server]. *)

Inductive CtlCall :=
| Listen (host : string) (port : Z)
| Stopped (server : nat)                 (* the select on serverDone *)
| Cancel (server : nat)
| AwaitStop (server : nat).              (* serverDone, or the shutdown timeout *)
Definition CtlAns (q : CtlCall) : Type :=
  match q with Listen _ _ => option nat | Stopped _ => bool | Cancel _ => unit | AwaitStop _ => bool end.
Definition Ctl := Asking CtlAns.

Record Controller := { ct_desired : option (string * Z); ct_server : option nat }.
Definition newStateHTTPServerController : Controller := {| ct_desired := None; ct_server := None |}.
Definition clear : Controller := newStateHTTPServerController.

Definition refreshStopped (c : Controller) : Ctl Controller :=
  match ct_server c with
  | None => Ret c
  | Some id =>
      ask* stopped := ask (Stopped id) in
      if stopped : bool then ask* _ := ask (Cancel id) in Ret clear else Ret c
  end.
Definition stop (c : Controller) : Ctl Controller :=
  match ct_server c with
  | None => Ret clear
  | Some id => ask* _ := ask (Cancel id) in ask* _ := ask (AwaitStop id) in Ret clear
  end.
Definition normalizeServerHost (host : string) : string := if String.eqb host "" then "127.0.0.1" else host.
(** [startStateHTTPServer] for a port that is not negative: the server, or [None] when
    listening failed. *)
Definition startStateHTTPServer (host : string) (port : Z) : Ctl (option nat) := ask (Listen (normalizeServerHost host) port).
Definition apply (host : string) (port : Z) (c : Controller) : Ctl Controller :=
  ask* c := refreshStopped c in
  if bool_decide (ct_desired c = Some (host, port)) then Ret c
  else
    ask* c := stop c in
    if port <? 0 then Ret {| ct_desired := Some (host, port); ct_server := None |}
    else
      ask* server := startStateHTTPServer host port in
      Ret match server with
          | None => c
          | Some id => {| ct_desired := Some (host, port); ct_server := Some id |}
          end.

(** The overrides of the process, and the server settings of the current workflow. *)
Record LoopOptions := { lo_PortOverride : option Z; lo_HostOverride : option string }.
Definition desiredPortForLoop (opts : LoopOptions) (wf : option (string * Z)) : Z :=
  match lo_PortOverride opts, wf with Some p, _ => p | None, Some (_, port) => port | None, None => -1 end.
Definition desiredHostForLoop (opts : LoopOptions) (wf : option (string * Z)) : string :=
  match lo_HostOverride opts, wf with Some h, _ => h | None, Some (host, _) => host | None, None => "" end.
(** The loop over what each tick finds as the current workflow, until the sleep fails or
    the checks are used up; the deferred stop comes last. *)
Fixpoint ticks (opts : LoopOptions) (wfs : list (option (string * Z))) (c : Controller) : Ctl Controller :=
  match wfs with
  | [] => Ret c
  | wf :: wfs => ask* c := apply (desiredHostForLoop opts wf) (desiredPortForLoop opts wf) c in ticks opts wfs c
  end.
Definition runStateHTTPServerLoop (opts : LoopOptions) (wfs : list (option (string * Z))) : Ctl Controller :=
  ask* c := ticks opts wfs newStateHTTPServerController in stop c.

(** * Correctness of the state API *)

(** ** Credentials in URLs do not survive

    No text that is passed on holds a match of the last expression: a scheme, ://, and
    userinfo up to an at sign with something behind it. *)

(** Somewhere in the text, which starts after a word character or not, [r] matches. *)
Fixpoint found_in (r : Regex) (prev : bool) (s : string) : bool :=
  match match_at r prev s with Some _ => true | None => false end
  || match s with String c t => found_in r (is_word c) t | EmptyString => false end.

(** The same read byte by byte. *)
Definition at_seen (s : string) : bool := match s with String c _ => not_white c | EmptyString => false end.
Fixpoint in_userinfo (s : string) : bool :=
  match s with
  | String c t => (byte_is 64 c && at_seen t) || (userinfo_char c && in_userinfo t)
  | EmptyString => false
  end.
Definition after_colon (s : string) : bool :=
  match s with String a (String b t) => is_slash a && is_slash b && in_userinfo t | _ => false end.
Fixpoint in_scheme (s : string) : bool :=
  match s with
  | String c t => (byte_is 58 c && after_colon t) || (scheme_char c && in_scheme t)
  | EmptyString => false
  end.
Definition credential (prev : bool) (s : string) : bool :=
  negb prev && match s with String c t => is_letter c && in_scheme t | EmptyString => false end.

Lemma Chr_inv p a b : Matches (Chr p) a b → ∃ c, at_rest a = String c (at_rest b) ∧ p c = true ∧ at_prev b = is_word c.
Proof. intros H. inversion H; subst. by eexists. Qed.
Lemma Cat_inv r1 r2 a d : Matches (Cat r1 r2) a d → ∃ b, Matches r1 a b ∧ Matches r2 b d.
Proof. intros H. inversion H; subst. eauto. Qed.
Lemma Star_text p a b : Matches (Star (Chr p)) a b → ∃ x, at_rest a = x +:+ at_rest b ∧ str_forall p x = true.
Proof. intros H. destruct (Matches_text p (Star (Chr p)) a b) as (x & E & _ & F); [by intros ?|done|]. eauto. Qed.
(** A repeated class takes as much as there is. *)
Definition ends_in_white (s : string) : Prop := s = "" ∨ ∃ c t, s = String c t ∧ re_white c = true.
Lemma star_takes_all fuel a b :
  (String.length (at_rest a) ≤ fuel)%nat → star (attempt (Chr not_white)) fuel Some a = Some b → ends_in_white (at_rest b).
Proof.
  revert a. induction fuel as [|fuel IH]; intros a Hl; cbn [star].
  - intros [= <-]. left. by destruct (at_rest a); [|simpl in Hl; lia].
  - cbn [attempt]. destruct (at_rest a) as [|c t] eqn:E.
    + intros [= <-]. by left.
    + destruct (not_white c) eqn:Ec.
      * cbn [eat at_rest String.length]. rewrite (proj2 (Nat.ltb_lt _ _)) by lia.
        destruct (star _ fuel Some (eat c t a)) as [d|] eqn:Es.
        -- intros [= <-]. eapply IH, Es. simpl in *. lia.
        -- intros H. exfalso. clear -Es. destruct fuel as [|fuel]; cbn [star] in Es; [done|].
           cbn [attempt] in Es. match type of Es with match ?m with _ => _ end = _ => by destruct m end.
      * intros [= <-]. right. exists c, t. split; [done|]. unfold not_white in Ec. by apply negb_false_iff in Ec.
Qed.

Lemma in_userinfo_app u t : str_forall userinfo_char u = true → in_userinfo t = true → in_userinfo (u +:+ t) = true.
Proof.
  intros Hu Ht. induction u as [|c u IH]; [done|]. cbn [str_forall] in Hu. apply andb_true_iff in Hu as [Hc Hu].
  rewrite str_app_cons. cbn [in_userinfo]. by rewrite Hc, IH, orb_true_r.
Qed.
Lemma in_scheme_app x t : str_forall scheme_char x = true → in_scheme t = true → in_scheme (x +:+ t) = true.
Proof.
  intros Hx Ht. induction x as [|c x IH]; [done|]. cbn [str_forall] in Hx. apply andb_true_iff in Hx as [Hc Hx].
  rewrite str_app_cons. cbn [in_scheme]. by rewrite Hc, IH, orb_true_r.
Qed.
Lemma in_userinfo_split t :
  in_userinfo t = true → ∃ u c v, t = u +:+ String (Ascii.ascii_of_nat 64) (String c v) ∧ str_forall userinfo_char u = true ∧ not_white c = true.
Proof.
  induction t as [|d t IH]; [done|]. cbn [in_userinfo]. intros [[Hd Ha]%andb_true_iff|[Hd Ht]%andb_true_iff]%orb_true_iff.
  - destruct t as [|c v]; [done|]. exists "", c, v. split_and!; [|done|done]. rewrite str_app_nil. f_equal.
    unfold byte_is in Hd. apply Nat.eqb_eq in Hd. rewrite <- Hd. by rewrite Ascii.ascii_nat_embedding.
  - destruct (IH Ht) as (u & c & v & -> & Hu & Hc). exists (String d u), c, v. cbn [str_forall]. by rewrite Hd, Hu.
Qed.
Lemma in_scheme_split t :
  in_scheme t = true → ∃ x u, t = x +:+ "://" +:+ u ∧ str_forall scheme_char x = true ∧ in_userinfo u = true.
Proof.
  induction t as [|d t IH]; [done|]. cbn [in_scheme]. intros [[Hd Ha]%andb_true_iff|[Hd Ht]%andb_true_iff]%orb_true_iff.
  - destruct t as [|a [|b u]]; [done..|]. cbn [after_colon] in Ha. rewrite !andb_true_iff in Ha. destruct Ha as [[Ha Hb] Hu].
    exists "", u. split_and!; [|done|done]. unfold byte_is in Hd. apply Nat.eqb_eq in Hd.
    rewrite <- (Ascii.ascii_nat_embedding d), Hd. unfold is_slash, byte_is in *. apply Nat.eqb_eq in Ha, Hb.
    by rewrite <- (Ascii.ascii_nat_embedding a), <- (Ascii.ascii_nat_embedding b), Ha, Hb.
  - destruct (IH Ht) as (x & u & -> & Hx & Hu). exists (String d x), u. cbn [str_forall]. by rewrite Hd, Hx.
Qed.

Definition at_text (prev : bool) (s : string) : At := {| at_prev := prev; at_rest := s; at_group := "" |}.
Lemma Chr_build (p : Ascii.ascii → bool) prev c t : p c = true → Matches (Chr p) (at_text prev (String c t)) (at_text (is_word c) t).
Proof. intros H. by apply (m_chr p c t (at_text prev (String c t))). Qed.
Lemma Star_build p prev x t :
  str_forall p x = true → Matches (Star (Chr p)) (at_text prev (x +:+ t)) (at_text (prev_after prev x) t).
Proof.
  revert prev. induction x as [|c x IH]; intros prev H; [rewrite str_app_nil; apply m_star_end|].
  cbn [str_forall] in H. apply andb_true_iff in H as [Hc Hx]. rewrite str_app_cons.
  eapply m_star_more; [by apply Chr_build| |by apply IH]. simpl. lia.
Qed.
Lemma literal_build s prev t : Matches (literal s) (at_text prev (s +:+ t)) (at_text (prev_after prev s) t).
Proof.
  revert prev. induction s as [|c s IH]; intros prev; [rewrite str_app_nil; constructor|]. rewrite str_app_cons. cbn [literal].
  eapply m_cat; [apply Chr_build, Ascii.eqb_refl|]. apply IH.
Qed.
Lemma letter_is_word c : is_letter c = true → is_word c = true.
Proof. unfold is_letter, is_word. rewrite !orb_true_iff. tauto. Qed.
Lemma credential_matches prev s : credential prev s = true → is_Some (match_at userinfo_re prev s).
Proof.
  unfold credential. destruct s as [|l t]; [by rewrite andb_false_r|]. rewrite !andb_true_iff, negb_true_iff.
  intros (-> & Hl & (x & r & -> & Hx & (u & c & v & -> & Hu & Hc)%in_userinfo_split)%in_scheme_split).
  eapply (attempt_complete userinfo_re Some (at_text false _)); [|by eexists].
  eapply m_cat; [constructor; unfold at_boundary; simpl; by rewrite letter_is_word|].
  eapply m_cat; [by apply Chr_build|]. eapply m_cat; [by apply Star_build|]. eapply m_cat; [apply literal_build|].
  eapply m_cat; [by apply Star_build|]. eapply m_cat; [by apply (Chr_build (byte_is 64))|].
  eapply m_cat; [by apply Chr_build|]. apply m_star_end.
Qed.
Lemma attempt_cat {A} r1 r2 (k : At → option A) a x :
  attempt (Cat r1 r2) k a = Some x → ∃ b, Matches r1 a b ∧ attempt r2 k b = Some x.
Proof. exact (attempt_sound r1 (attempt r2 k) a x). Qed.
Lemma matches_credential prev s a :
  match_at userinfo_re prev s = Some a → credential prev s = true ∧ ends_in_white (at_rest a).
Proof.
  unfold match_at, userinfo_re. intros (b0 & H0 & E)%attempt_cat. inversion H0 as [| | | | | | | | |? Hb]; subst; clear H0.
  apply attempt_cat in E as (b1 & (l & El & Hl & _)%Chr_inv & E). apply attempt_cat in E as (b2 & (x & Ex & Hx)%Star_text & E).
  apply attempt_cat in E as (b3 & H3 & E). apply attempt_cat in E as (b4 & (u & Eu & Hu)%Star_text & E).
  apply attempt_cat in E as (b5 & (at_ & E5 & Hat & _)%Chr_inv & E).
  apply attempt_cat in E as (b6 & (c & E6 & Hc & _)%Chr_inv & E).
  apply star_takes_all in E; [|done]. split; [|done].
  apply Cat_inv in H3 as (d1 & (c1 & F1 & G1 & _)%Chr_inv & H3). apply Cat_inv in H3 as (d2 & (c2 & F2 & G2 & _)%Chr_inv & H3).
  apply Cat_inv in H3 as (d3 & (c3 & F3 & G3 & _)%Chr_inv & H3). inversion H3; subst; clear H3.
  apply Ascii.eqb_eq in G1, G2, G3. subst c1 c2 c3. simpl in El. rewrite E6 in E5. rewrite E5 in Eu. rewrite Eu in F3. rewrite F3 in F2.
  rewrite F2 in F1. rewrite F1 in Ex. rewrite Ex in El. subst s. unfold at_boundary in Hb. cbn [at_prev at_rest starts_word] in Hb.
  unfold credential. rewrite (letter_is_word _ Hl), xorb_true_r in Hb. rewrite Hb, Hl. cbn [andb].
  apply in_scheme_app; [done|]. cbn. apply orb_true_iff. left. cbn [in_userinfo]. apply in_userinfo_app; [done|].
  cbn [in_userinfo at_seen]. by rewrite Hat, Hc.
Qed.

Notation scrub := (replace_matches userinfo_re redacted).

Lemma white_is_nothing w : re_white w = true → is_letter w = false ∧ byte_is 64 w = false ∧ userinfo_char w = false ∧ scheme_char w = false
                                          ∧ byte_is 58 w = false ∧ not_white w = false.
Proof.
  destruct w as [[] [] [] [] [] [] [] []]; vm_compute; intros; try discriminate; repeat split.
Qed.
Lemma scrub_none prev c t : match_at userinfo_re prev (String c t) = None → scrub 0 prev (String c t) = String c (scrub 0 (is_word c) t).
Proof. intros E. cbn [replace_matches]. by rewrite E. Qed.
Lemma scrub_some prev c t a :
  match_at userinfo_re prev (String c t) = Some a →
  ∃ k, scrub 0 prev (String c t) = redacted +:+ scrub k (is_word c) t ∧ ends_in_white (str_drop k t) ∧ is_letter c = true ∧ prev = false.
Proof.
  intros E. cbn [replace_matches]. rewrite E. exists (String.length t - String.length (at_rest a))%nat. split; [done|].
  pose proof E as [Hcr Hends]%matches_credential. unfold credential in Hcr. rewrite !andb_true_iff, negb_true_iff in Hcr.
  destruct Hcr as (-> & Hc & _). split; [|done].
  assert (∃ x, t = x +:+ at_rest a) as [x Hx].
  { unfold match_at, userinfo_re in E. apply attempt_cat in E as (b0 & H0 & E). inversion H0; subst; clear H0.
    apply attempt_cat in E as (b1 & (l & El & _ & _)%Chr_inv & E). apply attempt_sound in E as (b & Hm & [= <-]).
    destruct (Matches_text (λ _, true) _ _ _ (reads_any _) Hm) as (x & Ex & _). exists x. simpl in El. congruence. }
  rewrite Hx at 2. rewrite Hx. rewrite str_length_app. replace (_ + _ - _)%nat with (String.length x) by lia.
  clear -Hends. induction x as [|d x IH]; [done|]. done.
Qed.
Lemma scrub_ends k prev s : ends_in_white (str_drop k s) → ends_in_white (scrub k prev s).
Proof.
  revert k prev. induction s as [|c s IH]; intros k prev H; [by destruct k; left|]. destruct k as [|k]; [|by apply IH].
  destruct H as [|(w & t & [= -> ->] & Hw)]; [done|]. rewrite scrub_none; [right; eauto|].
  destruct (match_at userinfo_re prev (String w t)) as [a|] eqn:E; [|done]. apply scrub_some in E as (_ & _ & _ & Hl & _).
  apply white_is_nothing in Hw as (Hl' & _). congruence.
Qed.

(** What is read as userinfo or as a scheme after the scrubbing was so before it. *)
Lemma userinfo_before t prev : in_userinfo (scrub 0 prev t) = true → in_userinfo t = true.
Proof.
  revert prev. induction t as [|c t IH]; intros prev; [done|]. destruct (match_at userinfo_re prev (String c t)) as [a|] eqn:E.
  - apply scrub_some in E as (k & -> & Hk & _). apply (scrub_ends k (is_word c)) in Hk. intros H. exfalso. revert H.
    change (in_userinfo (scrub k (is_word c) t) ≠ true). destruct Hk as [->|(w & r & -> & Hw)]; [done|].
    apply white_is_nothing in Hw as (_ & Hat & Hu & _). cbn [in_userinfo]. by rewrite Hat, Hu.
  - rewrite scrub_none by done. cbn [in_userinfo]. rewrite !orb_true_iff, !andb_true_iff. intros [[Hc Ha]|[Hc Hu]].
    + left. split; [done|]. destruct t as [|d t]; [done|]. cbn [at_seen].
      destruct (match_at userinfo_re (is_word c) (String d t)) as [a|] eqn:E'.
      * apply scrub_some in E' as (_ & _ & _ & Hl & _). destruct (not_white d) eqn:En; [done|]. unfold not_white in En.
        apply negb_false_iff, white_is_nothing in En as (Hl' & _). congruence.
      * by rewrite scrub_none in Ha.
    + right. split; [done|]. by eapply IH.
Qed.
Lemma slash_kept t prev a o : scrub 0 prev t = String a o → is_slash a = true → ∃ t', t = String a t' ∧ o = scrub 0 (is_word a) t'.
Proof.
  destruct t as [|c t]; [done|]. destruct (match_at userinfo_re prev (String c t)) as [m|] eqn:E.
  - apply scrub_some in E as (k & -> & _). intros [= <- _]. done.
  - rewrite scrub_none by done. intros [= <- <-]. eauto.
Qed.
Lemma scheme_before t prev : in_scheme (scrub 0 prev t) = true → in_scheme t = true.
Proof.
  revert prev. induction t as [|c t IH]; intros prev; [done|]. destruct (match_at userinfo_re prev (String c t)) as [m|] eqn:E.
  - apply scrub_some in E as (k & -> & _). done.
  - rewrite scrub_none by done. cbn [in_scheme]. rewrite !orb_true_iff, !andb_true_iff. intros [[Hc Ha]|[Hc Hu]]; [left|right].
    + split; [done|]. destruct (scrub 0 (is_word c) t) as [|a [|b o]] eqn:Eo; [done..|]. cbn [after_colon] in Ha.
      rewrite !andb_true_iff in Ha. destruct Ha as [[Ha Hb] Hu]. apply slash_kept in Eo as (t1 & -> & Eo); [|done].
      symmetry in Eo. apply slash_kept in Eo as (t2 & -> & ->); [|done]. cbn [after_colon]. rewrite Ha, Hb. by eapply userinfo_before.
    + split; [done|]. by eapply IH.
Qed.

Lemma no_credential prev s : credential prev s = false → match_at userinfo_re prev s = None.
Proof. intros H. destruct (match_at userinfo_re prev s) as [a|] eqn:E; [|done]. apply matches_credential in E as [E _]. congruence. Qed.
Lemma found_cons prev c t :
  credential prev (String c t) = false → found_in userinfo_re (is_word c) t = false → found_in userinfo_re prev (String c t) = false.
Proof. intros Hc Ht. cbn [found_in]. by rewrite no_credential, Ht. Qed.
Lemma white_no_credential prev s : ends_in_white s → credential prev s = false.
Proof.
  unfold credential. intros [->|(w & t & -> & (-> & _)%white_is_nothing)]; by rewrite andb_false_r.
Qed.
(** No suffix of the mark begins a credential. *)
Lemma found_after_mark prev o : found_in userinfo_re false o = false → found_in userinfo_re prev (redacted +:+ o) = false.
Proof.
  intros Ho. unfold redacted. rewrite !str_app_cons, str_app_nil.
  repeat (apply found_cons; [unfold credential; apply andb_false_r || (apply andb_false_iff; right; reflexivity)|]). exact Ho.
Qed.
Lemma scrub_clean k prev prev' s :
  (match k with O => prev' = prev ∨ ends_in_white s | S _ => ends_in_white (str_drop k s) end) →
  found_in userinfo_re prev' (scrub k prev s) = false.
Proof.
  revert k prev prev'. induction s as [|c s IH]; intros k prev prev' H.
  - destruct k; cbn [replace_matches found_in]; rewrite orb_false_r; by rewrite no_credential by (unfold credential; apply andb_false_r).
  - destruct k as [|k].
    + destruct (match_at userinfo_re prev (String c s)) as [a|] eqn:E.
      * apply scrub_some in E as (k & -> & Hk & _). apply found_after_mark, IH. destruct k; [by right|done].
      * rewrite scrub_none by done. apply found_cons; [|apply IH; by left]. apply not_true_iff_false. intros Hcr.
        destruct H as [->|Hs]; [|rewrite white_no_credential in Hcr; [done|]].
        -- assert (credential prev (String c s) = true) as [x Hx]%credential_matches; [|congruence].
           unfold credential in *. rewrite !andb_true_iff in *. destruct Hcr as (? & ? & Hi). split_and!; [done..|].
           by eapply scheme_before.
        -- right. destruct Hs as [|(w & t & [= -> ->] & Hw)]; [done|]. eauto.
    + cbn [replace_matches]. apply IH. destruct k as [|k]; [by right|done].
Qed.

(** A URL with userinfo in a text, character by character: a scheme (a letter, then letters,
    digits, plus, dot or hyphen) that no letter, digit or underscore precedes, "://", any
    userinfo up to an at sign without slash, question mark, hash or white space, and one
    more visible character. *)
Definition alnum (c : Ascii.ascii) : bool := in_range 65 90 c || in_range 97 122 c || in_range 48 57 c.
Definition white_space (c : Ascii.ascii) : bool := existsb (λ n, byte_is n c) [9; 10; 12; 13; 32]%nat.
Definition text_of (p : Ascii.ascii → bool) (s : string) : Prop := ∀ c, c ∈ String.list_ascii_of_string s → p c = true.
Definition ends_word (s : string) : bool :=
  match last (String.list_ascii_of_string s) with Some c => alnum c || byte_is 95 c | None => false end.
Definition credential_url_in (text : string) : Prop :=
  ∃ before letter scheme userinfo c after,
    text = before +:+ String letter scheme +:+ "://" +:+ userinfo +:+ "@" +:+ String c after ∧
    ends_word before = false ∧ (in_range 65 90 letter || in_range 97 122 letter) = true ∧
    text_of (λ c, alnum c || existsb (λ n, byte_is n c) [43; 46; 45]%nat) scheme ∧
    text_of (λ c, negb (existsb (λ n, byte_is n c) [47; 63; 35]%nat || white_space c)) userinfo ∧
    white_space c = false.

Lemma text_of_forall p q s : (∀ c, p c = q c) → text_of p s → str_forall q s = true.
Proof.
  intros Hpq. induction s as [|c s IH]; [done|]. intros Ht. cbn [str_forall]. rewrite <- Hpq, IH.
  - rewrite (Ht c); [done|]. cbn. by left.
  - intros d Hd. apply Ht. cbn. by right.
Qed.
Lemma found_later r prev before s : found_in r (prev_after prev before) s = true → found_in r prev (before +:+ s) = true.
Proof.
  revert prev. induction before as [|c b IH]; intros prev; [by rewrite str_app_nil|]. intros Hf. rewrite str_app_cons.
  cbn [found_in]. apply orb_true_iff. right. by apply IH.
Qed.
Lemma ends_word_prev before : prev_after false before = ends_word before.
Proof.
  unfold ends_word. assert (∀ prev, prev_after prev before =
    match last (String.list_ascii_of_string before) with Some c => alnum c || byte_is 95 c | None => prev end) as E; [|apply E].
  induction before as [|c b IH]; intros prev; [done|]. cbn [prev_after]. rewrite IH.
  cbn [String.list_ascii_of_string]. rewrite last_cons. destruct (last _) as [d|]; [done|].
  unfold is_word, alnum. rewrite <- !orb_assoc. destruct (in_range 48 57 c), (in_range 65 90 c), (in_range 97 122 c); done.
Qed.
Lemma white_space_re c : white_space c = re_white c.
Proof. destruct c as [[] [] [] [] [] [] [] []]; reflexivity. Qed.
Lemma credential_url_found text : credential_url_in text → found_in userinfo_re false text = true.
Proof.
  intros (before & l & x & u & c & after & -> & Hb & Hl & Hx & Hu & Hc).
  apply found_later. rewrite ends_word_prev, Hb, str_app_cons. cbn [found_in].
  assert (credential false (String l (x +:+ "://" +:+ u +:+ "@" +:+ String c after)) = true) as Hcred.
  { unfold credential. cbn [negb andb]. rewrite (Hl : is_letter l = true). cbn [andb].
    apply in_scheme_app; [eapply text_of_forall; [|exact Hx]|].
    { intros d. unfold alnum, scheme_char, is_letter, is_digit. cbn [existsb]. rewrite orb_false_r, <- !orb_assoc. done. }
    cut (in_userinfo (u +:+ String (Ascii.ascii_of_nat 64) (String c after)) = true);
      [intros E; apply orb_true_iff; left; exact E|].
    apply in_userinfo_app.
    - eapply text_of_forall; [|exact Hu]. intros d. unfold userinfo_char. rewrite white_space_re. cbn [existsb].
      by rewrite orb_false_r, <- !orb_assoc.
    - cbn [in_userinfo at_seen]. unfold not_white. by rewrite <- white_space_re, Hc. }
  apply credential_matches in Hcred as [a Ea]. apply orb_true_iff. left. by rewrite Ea.
Qed.


(** ** Who is answered *)

Section Admission.
Context {NI : Net} (version : string) (em : Embedded) (refreshConfigured readinessConfigured : bool) (envToken : string) (r : Request).

(** The Authorization header presents the token: as a Bearer credential, the scheme in any
    case and blanks around the credential aside, or as the password of the user aiops. *)
Definition presents (header token : string) : Prop :=
  (∃ scheme credentials, header = scheme +:+ " " +:+ credentials ∧
     ToLower scheme = "bearer" ∧ TrimSpace credentials = token) ∨
  BasicAuth header = Some ("aiops", token).
(** The host of a Host header, its port and the brackets of an IPv6 address aside. *)
Definition host_named (hostport host : string) : Prop :=
  ∃ text, (text = hostport ∨ ∃ port, SplitHostPort hostport = Some (text, port)) ∧
    (text = host ∨ text = "[" +:+ host +:+ "]").
Definition names_loopback (hostport : string) : Prop :=
  ∃ host, host_named hostport host ∧ (host = "localhost" ∨ ip_is_loopback host = true).
Definition loopback_peer (remoteAddr : string) : Prop :=
  ∃ host port, SplitHostPort remoteAddr = Some (host, port) ∧ ip_is_loopback host = true.
(** With a token, who presents it; without one, a loopback peer that names a loopback host. *)
Definition admitted : Prop :=
  let token := TrimSpace envToken in
  token ≠ "" ∧ presents (rq_Authorization r) token ∨
  token = "" ∧ names_loopback (rq_Host r) ∧ loopback_peer (rq_RemoteAddr r).
(** The body of a refresh request: none, blank, or an object without members, read in full
    and no longer than 1 MiB. *)
Definition empty_body : Prop :=
  ∀ body, rq_Body r = Some body →
    rq_ContentLength r ≤ 1048576 ∧ Z.of_nat (String.length (bd_bytes body)) ≤ 1048576 ∧ bd_err body = None ∧
    (TrimSpace (bd_bytes body) = "" ∨
     HasPrefix (TrimSpace (bd_bytes body)) "{" = true ∧ json_members (TrimSpace (bd_bytes body)) = Some 0%nat).
Definition may_ask (log : list (Exchange ApiAns)) (q : ApiCall) : Prop :=
  match q with
  | AskSnapshot => admitted ∧ rq_Method r = "GET"
  | AskRefresh => admitted ∧ rq_Method r = "POST" ∧ ToLower (TrimSpace (rq_Refresh r)) = "true" ∧ empty_body
  | AskReadiness | AskNow => True
  end.
(** What a response may carry. *)
Definition discloses (b : RespBody) : bool :=
  match b with StateBody _ | IssueBody _ | RefreshBody _ | PageBody _ | FaviconBody _ | FileBody _ => true | _ => false end.
Definition answered (log : list (Exchange ApiAns)) (resp : Response) : Prop := discloses (rs_Body resp) = true → admitted.

Lemma byte_is_spec n c : byte_is n c = true → c = Ascii.ascii_of_nat n.
Proof. unfold byte_is. intros E%Nat.eqb_eq. by rewrite <- E, Ascii.ascii_nat_embedding. Qed.
Lemma cut_space_text s before after : cut_space s = Some (before, after) → s = before +:+ " " +:+ after.
Proof.
  revert before. induction s as [|c t IH]; intros before; [done|]. cbn [cut_space].
  destruct (byte_is 32 c) eqn:E.
  - intros [= <- <-]. apply byte_is_spec in E as ->. reflexivity.
  - destruct (cut_space t) as [[b a]|]; [|done]. intros [= <- <-]. cbn. by rewrite (IH b eq_refl).
Qed.
Lemma token_matches got want : stateHTTPTokenMatches got want = true → got = want.
Proof. unfold stateHTTPTokenMatches. destruct (_ || _ || _); [done|]. by intros ->%String.eqb_eq. Qed.
Lemma authorized_presents token : stateHTTPAuthorized r token = true → presents (rq_Authorization r) token.
Proof.
  unfold stateHTTPAuthorized. intros [H|H]%orb_true_iff.
  - right. destruct (BasicAuth _) as [[user password]|]; [|done].
    apply andb_true_iff in H as [->%String.eqb_eq ->%token_matches]. done.
  - left. destruct (cut_space _) as [[scheme credentials]|] eqn:E; [|done]. apply cut_space_text in E.
    apply andb_true_iff in H as [H1%String.eqb_eq H2%token_matches]. by exists scheme, credentials.
Qed.
Lemma has_suffix_text s suf : HasSuffix s suf = true → ∃ t, s = t +:+ suf.
Proof.
  induction s as [|c s IH]; cbn [HasSuffix]; intros [H|H]%orb_true_iff; try done.
  - exists "". by apply String.eqb_eq in H.
  - exists "". by apply String.eqb_eq in H.
  - destruct (IH H) as [t ->]. by exists (String c t).
Qed.
Lemma substring_app t u : String.substring 0 (String.length t) (t +:+ u) = t.
Proof.
  induction t as [|c t IH]; [by destruct u|]. rewrite str_app_cons.
  change (String c (String.substring 0 (String.length t) (t +:+ u)) = String c t). by rewrite IH.
Qed.
Lemma bracketed host : has_open host = true → HasSuffix host "]" = true → host = "[" +:+ inside host +:+ "]".
Proof.
  intros Ho [t ->]%has_suffix_text. destruct t as [|c t]; [done|]. unfold has_open in Ho. cbn [String.append] in *.
  assert (c = Ascii.ascii_of_nat 91) as ->.
  { destruct c as [[] [] [] [] [] [] [] []]; done. }
  unfold inside. set (o := Ascii.ascii_of_nat 91). rewrite str_app_cons.
  change (String.length (String o (t +:+ "]"))) with (S (String.length (t +:+ "]"))).
  rewrite str_length_app. change (String.length "]") with 1%nat.
  replace (S (String.length t + 1) - 2)%nat with (String.length t) by lia.
  change (String.substring 1 (String.length t) (String o (t +:+ "]"))) with (String.substring 0 (String.length t) (t +:+ "]")).
  by rewrite substring_app.
Qed.
Lemma host_loopback hostport : isLoopbackHTTPHost hostport = true → names_loopback hostport.
Proof.
  unfold isLoopbackHTTPHost. destruct (normalizeHostFromHostport hostport) as [host|] eqn:E; [|done].
  intros H. exists host. split.
  2: { apply orb_true_iff in H as [H%String.eqb_eq|H]; [by left|by right]. }
  revert E. unfold normalizeHostFromHostport. destruct (String.eqb hostport ""); [done|]. cbv zeta.
  assert (∀ text, (if negb (Bool.eqb (has_open text) (HasSuffix text "]")) then None
    else if has_open text then Some (inside text) else Some text) = Some host → text = host ∨ text = "[" +:+ host +:+ "]") as Hun.
  { intros text. destruct (has_open text) eqn:Ho, (HasSuffix text "]") eqn:Hs; cbn [Bool.eqb negb]; try done;
      intros [= <-]; [right; by apply bracketed|by left]. }
  destruct (SplitHostPort hostport) as [[h port]|] eqn:Es.
  - intros Hh. exists h. split; [right; by exists port|by apply Hun].
  - destruct (_ && _); [done|]. intros Hh. exists hostport. split; [by left|by apply Hun].
Qed.
Lemma peer_loopback addr : isLoopbackHTTPRemoteAddr addr = true → loopback_peer addr.
Proof. unfold isLoopbackHTTPRemoteAddr. destruct (SplitHostPort addr) as [[h port]|] eqn:E; [|done]. intros H. by exists h, port. Qed.
Lemma refresh_body : validateRefreshBody r = None → empty_body.
Proof.
  unfold validateRefreshBody, empty_body. destruct (rq_Body r) as [b|]; [|done]. intros H body [= <-].
  unfold refreshBodyLimitBytes in H.
  destruct (Z.ltb_spec 1048576 (rq_ContentLength r)); [done|].
  destruct (Z.ltb_spec 1048576 (Z.of_nat (String.length (bd_bytes b)))); [done|].
  destruct (bd_err b); [done|]. split_and!; try done.
  destruct (TrimSpace (bd_bytes b)) as [|c t]; [by left|right].
  destruct (byte_is 123 c) eqn:Ec; [|done]. cbn [negb] in H. apply byte_is_spec in Ec as ->.
  split; [by destruct t|]. by destruct (json_members _) as [[]|].
Qed.

Lemma mux_find_in {A} path (patterns : list (string * A)) h : mux_find path patterns = Some h → ∃ p, (p, h) ∈ patterns.
Proof.
  unfold mux_find. assert (∀ l best, (∀ e, best = Some e → e ∈ patterns) → (∀ e, e ∈ l → e ∈ patterns) →
    ∀ e, fold_left longest l best = Some e → e ∈ patterns) as Hl.
  { induction l as [|x l IH]; intros best Hb Hl e'; [apply Hb|]. cbn [fold_left]. apply IH; [|set_solver].
    unfold longest. destruct best as [[p a]|]; [|intros e0 [= <-]; set_solver].
    destruct (_ <? _)%nat; [intros e0 [= <-]; set_solver|exact Hb]. }
  intros E. destruct (fold_left _ _ _) as [[p a]|] eqn:Ef; [|done]. injection E as <-. exists p.
  eapply (Hl _ None); [done| |exact Ef]. intros x He. apply list_elem_of_In, filter_In in He as [He _]. by apply list_elem_of_In.
Qed.
Lemma mux_holds G srv log patterns P :
  (∀ p h, (p, h) ∈ patterns → holds G srv log (h r) P) → (∀ resp, discloses (rs_Body resp) = false → P log resp) →
  holds G srv log (mux_serve patterns r) P.
Proof.
  intros Hh HP. unfold mux_serve. destruct (negb _); [by apply HP|]. destruct (_ && _); [by apply HP|].
  destruct (mux_find _ _) as [h|] eqn:E; [|by apply HP]. apply mux_find_in in E as [p E]. by eapply Hh.
Qed.

Lemma state_answers srv log : admitted → holds may_ask srv log (stateHTTPHandler version r) answered.
Proof.
  intros Ha. unfold stateHTTPHandler. destruct (String.eqb_spec (rq_Method r) "GET"); [|by intros ?]. cbn [negb]. apply holds_ask; [done|].
  intros [err|view] _; [by intros ?|]. destruct (IsZero _); [|by intros ?]. apply holds_ask; [done|]. by intros ? _ ?.
Qed.
Lemma issue_answers srv log : admitted → holds may_ask srv log (issueHTTPHandler r) answered.
Proof.
  intros Ha. unfold issueHTTPHandler. destruct (String.eqb_spec (rq_Method r) "GET"); [|by intros ?]. cbn [negb].
  destruct (issueIdentifierFromPath _) as [|identifier]; [by intros ?|]. apply holds_ask; [done|]. by intros [err|view] _ ?.
Qed.
Lemma refresh_answers srv log : admitted → holds may_ask srv log (refreshHTTPHandler refreshConfigured r) answered.
Proof.
  intros Ha. unfold refreshHTTPHandler. destruct (String.eqb_spec (rq_Method r) "POST"); [|by intros ?]. cbn [negb].
  destruct (validateRefreshBody r) as [[]|] eqn:Eb; [by intros ?..|]. destruct (validRefreshHeader r) eqn:Eh; [|by intros ?]. cbn [negb].
  destruct refreshConfigured; [|by intros ?]. cbn [negb]. apply String.eqb_eq in Eh. apply refresh_body in Eb.
  apply holds_ask; [done|]. by intros ? _ ?.
Qed.
Lemma api_answers srv log : admitted → holds may_ask srv log (api_mux version em refreshConfigured r) answered.
Proof.
  intros Ha. apply mux_holds; [|by intros resp _ ?]. intros p h Hin. rewrite !elem_of_cons in Hin.
  destruct Hin as [[= -> ->]|[[= -> ->]|[[= -> ->]|[[= -> ->]|[[= -> ->]|[[= -> ->]|[[= -> ->]|Hin]]]]]]].
  - by apply state_answers.
  - by apply refresh_answers.
  - by apply issue_answers.
  - by intros ?.
  - by intros ?.
  - by intros ?.
  - unfold root_page. destruct (negb _); by intros ?.
  - by apply elem_of_nil in Hin.
Qed.

(** C27: the state server answers only whom it should: whatever the request and whatever the
    orchestrator answers, the state is read only for an admitted GET; a poll is triggered
    only by an admitted POST whose refresh header says true and whose body, read in full
    within 1 MiB, is absent, blank or an object without members; and a response with the
    state, an issue, a refresh result, the dashboard or its files goes only to an admitted
    request. Admitted is, when a token is configured, one whose Authorization header is
    Bearer and that very token, or Basic with the user aiops and that token as its
    password; without a token, one from a peer with a loopback address and whose Host
    header names localhost or a loopback address. *)
Theorem requests_are_admitted srv :
  holds may_ask srv [] (server_handler version em refreshConfigured readinessConfigured envToken r) answered.
Proof.
  apply mux_holds; [|by intros resp E ?; congruence]. intros p h Hin. rewrite !elem_of_cons in Hin.
  destruct Hin as [[= -> ->]|[[= -> ->]|[[= -> ->]|Hin]]].
  - unfold livenessHTTPHandler. destruct (negb _); by intros ?.
  - unfold readinessHTTPHandler. destruct (negb _); [by intros ?|]. destruct (negb _); [by intros ?|]. apply holds_ask; [done|].
    intros [ready reason] _. destruct ready; by intros ?.
  - unfold guard_wrap. destruct (String.eqb_spec (TrimSpace envToken) "") as [E|E]; cbn [negb].
    + destruct (isLoopbackHTTPHost _) eqn:E1; [|by intros ?].
      destruct (isLoopbackHTTPRemoteAddr _) eqn:E2; [|by intros ?]. cbn [andb]. apply api_answers. right.
      split_and!; [done|by apply host_loopback|by apply peer_loopback].
    + destruct (stateHTTPAuthorized _ _) eqn:E1; [|by intros ?].
      apply api_answers. left. split; [done|by apply authorized_presents].
  - by apply elem_of_nil in Hin.
Qed.
End Admission.

(** ** The lookup of one issue *)

Definition surfaced (view : StateView) (want : string) : Prop :=
  (∃ row, row ∈ view_Running view ∧ matchesIssueLookup (rv_IssueID row) (rv_Identifier row) want = true)
  ∨ (∃ row, row ∈ view_Retrying view ∧ matchesIssueLookup (yv_IssueID row) (yv_Identifier row) want = true)
  ∨ (∃ s, s ∈ view_OperatorTerminalStops view ∧ matchesIssueLookup (ov_IssueID s) (ov_Identifier s) want = true)
  ∨ (∃ ev, ev ∈ view_RecentEvents view ∧ terminal_kind (ev_Kind ev) = true ∧ matchesIssueLookup (ev_IssueID ev) (ev_Identifier ev) want = true)
  ∨ (∃ id, (id ∈ view_AgentHandoffReconcileStopped view ∨ id ∈ view_ActiveSuccessNoHandoff view ∨ id ∈ view_Completed view
            ∨ id ∈ view_ReconcileStoppedWithProgress view) ∧ normalizeIssueLookup id = want).

(** A row that the search may return, from the lists after the first two. *)
Lemma first_of_spec {A} (l : list A) found row rest i :
  first_of l found row rest = Some i ↔ (∃ x, List.find found l = Some x ∧ row x = i) ∨ (List.find found l = None ∧ rest = Some i).
Proof. unfold first_of. destruct (List.find found l); naive_solver. Qed.
Lemma first_of_none {A} (l : list A) found row rest :
  first_of l found row rest = None ↔ (∀ x, x ∈ l → found x = false) ∧ rest = None.
Proof.
  unfold first_of. destruct (List.find found l) as [x|] eqn:E.
  - apply find_some in E as [Hx Hf]. apply list_elem_of_In in Hx. split; [done|]. intros [H _]. by rewrite H in Hf.
  - split; [intros ->; split; [|done]|by intros [_ ->]]. intros x Hx. eapply find_none; [exact E|]. by apply list_elem_of_In.
Qed.
Lemma find_spec {A} (found : A → bool) l x : List.find found l = Some x → x ∈ l ∧ found x = true.
Proof. intros [Hx Hf]%find_some. by apply list_elem_of_In in Hx. Qed.
Lemma matches_id_only id want : want ≠ "" → matchesIssueLookup id "" want = String.eqb (normalizeIssueLookup id) want.
Proof.
  intros Hw. unfold matchesIssueLookup. replace (String.eqb (normalizeIssueLookup "") want) with false; [done|].
  symmetry. apply String.eqb_neq. by intros <-.
Qed.
Lemma id_row_matches status id want : want ≠ "" → matchesIssueLookup id "" want = true → matchesIssueLookup (ai_IssueID (id_row status id)) (ai_IssueIdentifier (id_row status id)) want = true.
Proof. intros Hw. rewrite matches_id_only by done. unfold matchesIssueLookup. simpl. by intros ->. Qed.

(** /api/v1/<issue> finds an issue exactly when the view surfaces it: for an identifier
    that is not blank the lookup, by identifier or id in any case, fails if and only if no
    running, retrying or operator-stopped row, no terminal event and none of the four
    lists of ids has it; what it returns is that issue; a running row wins over everything
    and a retry over all that is past. *)
Theorem issue_lookup_exact view identifier :
  blank identifier = false →
  let want := normalizeIssueLookup identifier in
  (apiIssueFromView view identifier = None ↔ ¬ surfaced view want)
  ∧ (∀ i, apiIssueFromView view identifier = Some i → matchesIssueLookup (ai_IssueID i) (ai_IssueIdentifier i) want = true)
  ∧ (∀ row, List.find (λ row, matchesIssueLookup (rv_IssueID row) (rv_Identifier row) want) (view_Running view) = Some row →
       apiIssueFromView view identifier = Some (running_issue row))
  ∧ (∀ row, (∀ run, run ∈ view_Running view → matchesIssueLookup (rv_IssueID run) (rv_Identifier run) want = false) →
       List.find (λ row, matchesIssueLookup (yv_IssueID row) (yv_Identifier row) want) (view_Retrying view) = Some row →
       apiIssueFromView view identifier = Some (retrying_issue row)).
Proof.
  intros Hb want. assert (want ≠ "") as Hw.
  { unfold want, normalizeIssueLookup. unfold blank in Hb. apply String.eqb_neq in Hb. by destruct (TrimSpace identifier). }
  split_and!.
  - unfold apiIssueFromView, apiTerminalIssueFromView. fold want. rewrite !first_of_none. split.
    + intros (H1 & H2 & H3 & H4 & H5 & H6 & H7 & H8 & _). unfold surfaced.
      intros [(x & Hx & E)|[(x & Hx & E)|[(x & Hx & E)|[(x & Hx & Hk & E)|(x & Hx & E)]]]].
      * by rewrite H1 in E.
      * by rewrite H2 in E.
      * by rewrite H3 in E.
      * specialize (H4 x). rewrite list_elem_of_In, <- in_rev, <- list_elem_of_In, Hk, E in H4. by specialize (H4 Hx).
      * apply String.eqb_eq in E. rewrite <- (matches_id_only _ _ Hw) in E.
        destruct Hx as [Hx|[Hx|[Hx|Hx]]]; [rewrite H5 in E|rewrite H6 in E|rewrite H7 in E|rewrite H8 in E]; done.
    + intros Hn. unfold surfaced in Hn.
      assert (∀ id, (id ∈ view_AgentHandoffReconcileStopped view ∨ id ∈ view_ActiveSuccessNoHandoff view ∨ id ∈ view_Completed view
                     ∨ id ∈ view_ReconcileStoppedWithProgress view) → matchesIssueLookup id "" want = false) as Hid.
      { intros id Hin. rewrite matches_id_only by done. apply String.eqb_neq. intros E. apply Hn. do 4 right. eauto. }
      split_and!; try (intros x Hx; apply Hid; tauto); try done; intros x Hx; apply not_true_iff_false; intros E; apply Hn.
      * left. eauto.
      * right. left. eauto.
      * do 2 right. left. eauto.
      * do 3 right. left. apply andb_true_iff in E as [? ?]. exists x. split_and!; [|done|done].
        by rewrite list_elem_of_In, <- in_rev, <- list_elem_of_In in Hx.
  - intros i. unfold apiIssueFromView, apiTerminalIssueFromView. fold want. rewrite !first_of_spec.
    intros [(x & [_ E]%find_spec & <-)|[_ [(x & [_ E]%find_spec & <-)|[_ [(x & [_ E]%find_spec & <-)|[_ [(x & [_ E]%find_spec & <-)|[_ H]]]]]]]]; try exact E.
    + apply andb_true_iff in E as [_ E]. exact E.
    + destruct H as [(x & [_ E]%find_spec & <-)|[_ [(x & [_ E]%find_spec & <-)|[_ [(x & [_ E]%find_spec & <-)|[_ [(x & [_ E]%find_spec & <-)|[_ H]]]]]]]];
        [by apply id_row_matches..|done].
  - intros row E. unfold apiIssueFromView, first_of. fold want. by rewrite E.
  - intros row Hn E. unfold apiIssueFromView. fold want. apply first_of_spec. right. split.
    + destruct (List.find _ (view_Running view)) as [x|] eqn:Ef; [|done]. apply find_spec in Ef as [Hx Hf]. by rewrite Hn in Hf.
    + unfold first_of. by rewrite E.
Qed.

(** ** One server at a time *)

Section OneServer.
Context (opts : LoopOptions) (wfs : list (option (string * Z))).

Definition started (log : list (Exchange CtlAns)) (id : nat) : Prop := ∃ h p, Ex (An := CtlAns) (Listen h p) (Some id) ∈ log.
Definition cancelled (log : list (Exchange CtlAns)) (id : nat) : Prop := Ex (An := CtlAns) (Cancel id) tt ∈ log.
(** The address of a tick: the overrides before the workflow's settings. *)
Definition desired (host : string) (port : Z) : Prop :=
  ∃ wf, wf ∈ wfs ∧ host = desiredHostForLoop opts wf ∧ port = desiredPortForLoop opts wf.
(** Listening only when everything before was cancelled, on a desired address that is
    loopback when no host is given; the other calls are about servers that were started. *)
Definition one_at_a_time (log : list (Exchange CtlAns)) (q : CtlCall) : Prop :=
  match q with
  | Listen h p => (∀ id, started log id → cancelled log id) ∧ ∃ host, desired host p ∧ 0 ≤ p ∧ h = normalizeServerHost host ∧ h ≠ ""
  | Stopped id | Cancel id | AwaitStop id => started log id
  end.
Definition controlled (log : list (Exchange CtlAns)) (c : Controller) : Prop :=
  (∀ id, ct_server c = Some id → started log id) ∧ (∀ id, started log id → cancelled log id ∨ ct_server c = Some id).

Definition server_of (e : Exchange CtlAns) : option nat :=
  match e with Ex q a => match q return CtlAns q → option nat with Listen _ _ => λ server, server | _ => λ _, None end a end.
Lemma started_grows log e id : started log id → started (log ++ [e]) id.
Proof. intros (h & p & H). exists h, p. set_solver. Qed.
Lemma started_other log q a id :
  match q with Listen _ _ => False | _ => True end → started (log ++ [Ex (An := CtlAns) q a]) id → started log id.
Proof.
  intros Hq (h & p & H). exists h, p. apply elem_of_app in H as [H|H]; [done|]. apply list_elem_of_singleton in H.
  assert (Listen h p = q) as <-; [|done]. by inversion H.
Qed.
Lemma cancelled_grows log e id : cancelled log id → cancelled (log ++ [e]) id.
Proof. unfold cancelled. set_solver. Qed.
Lemma controlled_grows log q a c :
  match q with Listen _ _ => False | _ => True end → controlled log c → controlled (log ++ [Ex (An := CtlAns) q a]) c.
Proof.
  intros Hq [H1 H2]. split; [intros id E; by apply started_grows, H1|].
  intros id Hs. apply started_other in Hs; [|done]. destruct (H2 id Hs); [left; by apply cancelled_grows|by right].
Qed.
Lemma controlled_cancel log id c : controlled log c → ct_server c = Some id → controlled (log ++ [Ex (An := CtlAns) (Cancel id) tt]) clear.
Proof.
  intros [H1 H2] E. split; [done|]. intros id' Hs. apply started_other in Hs; [|done]. left. unfold cancelled.
  destruct (H2 id' Hs) as [H|H]; [by apply cancelled_grows|]. assert (id' = id) as -> by congruence. set_solver.
Qed.

Lemma stop_ok srv log c : controlled log c → holds one_at_a_time srv log (stop c) (λ log' c', controlled log' c' ∧ c' = clear).
Proof.
  intros Hc. unfold stop. destruct (ct_server c) as [id|] eqn:E.
  - apply holds_ask; [by apply (proj1 Hc)|]. intros [] _. pose proof (controlled_cancel _ _ _ Hc E) as Hc'.
    apply holds_ask; [apply started_grows; by apply (proj1 Hc)|]. intros b _. split; [|done]. by apply controlled_grows.
  - split; [|done]. split; [done|]. intros id Hs. destruct (proj2 Hc id Hs); [by left|congruence].
Qed.
Lemma refreshStopped_ok srv log c : controlled log c → holds one_at_a_time srv log (refreshStopped c) controlled.
Proof.
  intros Hc. unfold refreshStopped. destruct (ct_server c) as [id|] eqn:E; [|done].
  assert (started log id) as Hs by (by apply (proj1 Hc)). apply holds_ask; [done|]. intros stopped _.
  pose proof (controlled_grows log (Stopped id) stopped c I Hc) as Hc'. destruct stopped; [|done].
  apply holds_ask; [by apply started_grows|]. intros [] _. by eapply controlled_cancel.
Qed.
Lemma normal_host_nonempty host : normalizeServerHost host ≠ "".
Proof. unfold normalizeServerHost. by destruct (String.eqb_spec host ""). Qed.
Lemma apply_ok srv log host port c :
  desired host port → controlled log c → holds one_at_a_time srv log (apply host port c) controlled.
Proof.
  intros Hd Hc. unfold apply. apply holds_bind. eapply holds_mono; [by apply refreshStopped_ok|]. clear log c Hc. intros log c Hc.
  destruct (bool_decide _); [done|]. apply holds_bind. eapply holds_mono; [by apply stop_ok|]. clear c Hc. intros log' c [Hc ->].
  assert (∀ id, started log' id → cancelled log' id) as Hall.
  { intros id Hs. by destruct (proj2 Hc id Hs). }
  destruct (Z.ltb_spec port 0) as [|Hp]; [split; [done|]; intros id Hs; by left; apply Hall|].
  unfold startStateHTTPServer. apply holds_ask.
  - split; [done|]. exists host. split_and!; [done..|apply normal_host_nonempty].
  - intros server _. destruct server as [id|].
    + split; [intros id' [= <-]; exists (normalizeServerHost host), port; set_solver|].
      intros id' (h & p & Hin). apply elem_of_app in Hin as [Hin|Hin].
      * left. apply cancelled_grows, Hall. by exists h, p.
      * right. apply list_elem_of_singleton, (f_equal server_of) in Hin. by simplify_eq/=.
    + split; [done|]. intros id' (h & p & Hin). left. apply cancelled_grows, Hall. exists h, p.
      apply elem_of_app in Hin as [Hin|Hin]; [done|]. by apply list_elem_of_singleton, (f_equal server_of) in Hin.
Qed.

End OneServer.

(** An issue that waits for input beside one that runs. *)
Module Seen.
Definition tokens : TokensView := {| tv_InputTokens := 1; tv_OutputTokens := 2; tv_TotalTokens := 3 |}.
Definition run : RunningView :=
  {| rv_IssueID := "id-1"; rv_Identifier := "ENG-1"; rv_IssueURL := ""; rv_State := "In Progress"; rv_SessionID := "s";
     rv_TurnCount := 2; rv_LastEvent := "turn_completed"; rv_LastMessage := "using Bearer abc"; rv_StartedAt := 5;
     rv_RuntimeSeconds := Second; rv_LastEventAt := 0; rv_RetryAttempt := Some 2; rv_WorkspacePath := "/w/ENG-1";
     rv_Tokens := tokens; rv_CodexAppServerPID := 7; rv_AgentProvider := ""; rv_AgentModel := ""; rv_WorkflowSource := "";
     rv_WorkflowPath := "" |}.
Definition waiting : BlockedView :=
  {| bv_IssueID := "id-2"; bv_Identifier := "ENG-2"; bv_IssueURL := ""; bv_State := "In Progress"; bv_BlockedAt := 5;
     bv_WorkspacePath := ""; bv_SessionID := ""; bv_LastEventAt := 0; bv_RuntimeSeconds := 0; bv_Tokens := tokens;
     bv_Method := "item/tool/requestUserInput"; bv_Error := "input required"; bv_CodexAppServerPID := 7 |}.
Definition view : StateView :=
  {| view_GeneratedAt := 9; view_PollIntervalMs := 1000; view_MaxConcurrentAgents := 2; view_MaxConcurrentAgentsByState := ∅;
     view_AgentDefault := "codex-app-server"; view_Running := [run]; view_Blocked := [waiting]; view_Retrying := [];
     view_Completed := ["id-0"]; view_ReconcileStoppedWithProgress := []; view_AgentHandoffReconcileStopped := [];
     view_ActiveSuccessNoHandoff := []; view_OperatorTerminalStops := []; view_CompletedSessionUsage := [];
     view_BudgetGuardrails := {| bg_MaxTokensPerClaim := 0; bg_MaxRuntimeSecondsPerClaim := 0 |};
     view_CumulativeCompletedTotal := 1; view_CumulativeReconcileStoppedWithProgressTotal := 0;
     view_CumulativeAgentHandoffReconcileStoppedTotal := 0; view_CumulativeActiveSuccessNoHandoffTotal := 0;
     view_CumulativeOperatorTerminalStopsTotal := 0; view_CodexTotals := zero_CodexTotals; view_CodexRateLimits := None;
     view_RecentEvents := [] |}.
End Seen.
Lemma issue_lookup_exact_witness :
  apiIssueFromView Seen.view " eng-1" = Some (running_issue Seen.run)
  ∧ ai_RestartCount (running_issue Seen.run) = 1
  ∧ option_map ar_LastMessage (ai_Running (running_issue Seen.run)) = Some "using <redacted>".
Proof.
  split; [|by vm_compute]. destruct (issue_lookup_exact Seen.view " eng-1" eq_refl) as (_ & _ & H & _).
  apply H. vm_compute. reflexivity.
Defined.
(** A blocked claim is a row of /api/v1/state, but its own page says there is no such issue. *)
Example blocked_issue_not_found :
  map ab_Identifier (as_Blocked (apiStateFromView "" 0 Seen.view)) = ["ENG-2"] ∧ apiIssueFromView Seen.view "ENG-2" = None.
Proof. vm_compute. done. Qed.
Example completed_issue_found : option_map ai_Status (apiIssueFromView Seen.view "ID-0") = Some "completed".
Proof. vm_compute. reflexivity. Qed.
