(* ===== verification/Commands.v ===== *)
(** * The commands of the worker (cmd/worker/main.go, internal/worker/print_config.go)

    The arguments of the worker and what it does with them: the flags, which may stand
    before or after the path; --print-config, which shows the configuration without its
    secrets; the choice of the workflow file; and the order in which a run starts its parts.

    [parse_int] is strconv.ParseInt with base 0; [parse_url] is url.Parse (Config);
    [encode] is encoding/json on the printed record, with the text of its error.  The
    printed record holds what is encoded of a configuration: unexported fields are not. *)

From S2P Require Import Prelude Payload Tracker Types GoStd Ops Paths Sys Hashes Redact GitCmd Profiles EnvPolicy WorkspaceRemoval RunTask TrackerErrors Config Loader.

(** ** Flags

    What the code uses of Go's package flag: integer and string flags, [--name value],
    [--name=value], the end of the flags at [--] or at the first other argument. *)

Inductive FlagKind := FInt | FString.
Inductive ArgError :=
| ErrHelp
| BadSyntax (arg : string)
| NotDefined (name : string)
| NeedsArgument (name : string)
| InvalidValue (name value : string)
| UsageRun
| UsagePrintConfig
| UsageDoctor
| ModeUnknown
| DeployUnknown
| PortOutOfRange (p : Z).

Inductive Token := NotFlag | EndOfFlags | BadFlag | Flag (name : string) (value : option string).
Definition dash (c : Ascii.ascii) : bool := byte_is 45 c.
Definition flag_name (s name : string) : Token :=
  match name with
  | EmptyString => BadFlag
  | String c t => if dash c || byte_is 61 c then BadFlag
                  else match str_cut name "=" with
                       | Some (n, v) => Flag n (Some v)
                       | None => Flag name None
                       end
  end.
Definition token (s : string) : Token :=
  match s with
  | String c1 (String c2 t) =>
      if negb (dash c1) then NotFlag
      else if dash c2 then match t with EmptyString => EndOfFlags | _ => flag_name s t end
      else flag_name s (String c2 t)
  | _ => NotFlag
  end.

Section Flags.
Context (parse_int : string → option Z) (formal : list (string * FlagKind)).

Definition set_flag (kind : FlagKind) (name value : string) (actual : list (string * string))
    : ArgError + list (string * string) :=
  match kind with
  | FString => inr ((name, value) :: actual)
  | FInt => match parse_int value with Some _ => inr ((name, value) :: actual) | None => inl (InvalidValue name value) end
  end.
(** The flags that were set, the last one first, and the other arguments. *)
Fixpoint flag_Parse (args : list string) (actual : list (string * string))
    : ArgError + (list (string * string) * list string) :=
  match args with
  | [] => inr (actual, [])
  | s :: rest =>
      match token s with
      | NotFlag => inr (actual, args)
      | EndOfFlags => inr (actual, rest)
      | BadFlag => inl (BadSyntax s)
      | Flag name value =>
          match assoc formal name with
          | None => inl (if String.eqb name "help" || String.eqb name "h" then ErrHelp else NotDefined name)
          | Some kind =>
              match value with
              | Some v => match set_flag kind name v actual with
                          | inl e => inl e
                          | inr actual => flag_Parse rest actual
                          end
              | None =>
                  match rest with
                  | [] => inl (NeedsArgument name)
                  | v :: rest => match set_flag kind name v actual with
                                 | inl e => inl e
                                 | inr actual => flag_Parse rest actual
                                 end
                  end
              end
          end
      end
  end.
End Flags.

(** The loop of both reorderings: the flags, with the value of one that takes it as a
    further argument, and the positional arguments. *)
Fixpoint reorder (takes_value : string → bool) (args : list string) : list string * list string :=
  match args with
  | [] => ([], [])
  | a :: rest =>
      if String.eqb a "--" then ([], "--" :: rest)
      else if takes_value a then
        match rest with
        | [] => ([a], [])
        | v :: rest => let '(flags, positional) := reorder takes_value rest in (a :: v :: flags, positional)
        end
      else
        let '(flags, positional) := reorder takes_value rest in
        if HasPrefix a "-" then (a :: flags, positional) else (flags, a :: positional)
  end.
Definition reordered (takes_value : string → bool) (args : list string) : list string :=
  let '(flags, positional) := reorder takes_value args in flags ++ positional.

Definition port_takes_value (a : string) : bool := String.eqb a "--port" || String.eqb a "-port".
Definition reorderForFlagParse (args : list string) : list string := reordered port_takes_value args.

Definition doctor_flags : list (string * FlagKind) :=
  [("mode", FString); ("deploy", FString); ("dashboard-url", FString); ("go-test-dir", FString);
   ("github-issue", FInt); ("github-repo", FString)].
Definition doctor_takes_value (a : string) : bool :=
  existsb (λ '(name, _), String.eqb a ("--" +:+ name) || String.eqb a ("-" +:+ name)) doctor_flags.
Definition reorderDoctorFlags (args : list string) : list string := reordered doctor_takes_value args.

Section Arguments.
Context (parse_int : string → option Z).

Definition port_flags : list (string * FlagKind) := [("port", FInt)].
Definition int_value (v : string) : Z := default 0 (parse_int v).

Definition portOverrideFromFlagSet (actual : list (string * string)) : ArgError + option Z :=
  match assoc actual "port" with
  | None => inr None
  | Some v => let p := int_value v in
              if (p <? -1) || (65535 <? p) then inl (PortOutOfRange p) else inr (Some p)
  end.

Definition parseRunArgs (args : list string) : ArgError + (string * option Z) :=
  match flag_Parse parse_int port_flags (reorderForFlagParse args) [] with
  | inl e => inl e
  | inr (actual, rest) =>
      if (1 <? length rest)%nat then inl UsageRun
      else match portOverrideFromFlagSet actual with
           | inl e => inl e
           | inr override => inr (match rest with [path] => path | _ => "" end, override)
           end
  end.

Definition parsePrintConfigArgs (args : list string) : ArgError + (string * option Z) :=
  match flag_Parse parse_int port_flags (reorderForFlagParse args) [] with
  | inl e => inl e
  | inr (actual, [workdir]) =>
      match portOverrideFromFlagSet actual with
      | inl e => inl e
      | inr override => inr (workdir, override)
      end
  | inr _ => inl UsagePrintConfig
  end.

Record DoctorOptions := {
  do_WorkflowPath : string; do_Mode : string; do_Deploy : string; do_DashboardURL : string; do_GoTestDir : string;
  do_GitHubIssue : Z; do_GitHubRepo : string
}.
Definition parseDoctorArgs (args : list string) : ArgError + DoctorOptions :=
  match flag_Parse parse_int doctor_flags (reorderDoctorFlags args) [] with
  | inl e => inl e
  | inr (actual, rest) =>
      let flag name fallback := default fallback (assoc actual name) in
      let mode := flag "mode" "mock" in
      let deploy := flag "deploy" "docker" in
      if negb (String.eqb mode "mock") && negb (String.eqb mode "real") then inl ModeUnknown
      else if negb (String.eqb deploy "binary") && negb (String.eqb deploy "docker") then inl DeployUnknown
      else if (1 <? length rest)%nat then inl UsageDoctor
      else inr {| do_WorkflowPath := match rest with [path] => path | _ => "" end;
                  do_Mode := mode; do_Deploy := deploy; do_DashboardURL := flag "dashboard-url" "";
                  do_GoTestDir := flag "go-test-dir" ""; do_GitHubIssue := int_value (flag "github-issue" "0");
                  do_GitHubRepo := flag "github-repo" "" |}
  end.

(** What [main] does with the arguments after the program's name. *)
Inductive Invocation :=
| ShowVersion
| DoPrintConfig (workdir : string) (portOverride : option Z)
| DoDoctor (opts : DoctorOptions)
| DoRun (args : list string)
| ExitWith (code : Z) (shown : option ArgError).
Definition main (args : list string) : Invocation :=
  match args with
  | first :: rest =>
      if String.eqb first "--version" then ShowVersion
      else if String.eqb first "--print-config" then
        match parsePrintConfigArgs rest with
        | inl e => ExitWith 2 (Some e)
        | inr (workdir, override) => DoPrintConfig workdir override
        end
      else if String.eqb first "--doctor" then
        match parseDoctorArgs rest with
        | inl ErrHelp => ExitWith 0 None
        | inl e => ExitWith 2 (Some e)
        | inr opts => DoDoctor opts
        end
      else DoRun args
  | [] => DoRun args
  end.
End Arguments.

(** ** The printed configuration *)

Record fieldProvenance := { fp_Value : string; fp_Source : string; fp_EnvVar : string }.
Record configProvenance := {
  pv_WorkspaceRoot : fieldProvenance;
  pv_MirrorRoot : fieldProvenance;
  pv_ServerPort : fieldProvenance;
  pv_WorkflowPath : fieldProvenance
}.
Definition sourceDefault : string := "default".
Definition sourceEnv : string := "env".
Definition sourceWorkflow : string := "workflow".
Definition sourceCLI : string := "cli".
Definition workspaceRootEnv : string := "AIOPS_WORKSPACE_ROOT".
Definition mirrorRootEnv : string := "AIOPS_MIRROR_ROOT".
Definition workflowPathEnv : string := "AIOPS_WORKFLOW_PATH".

Section Provenance.
Context (lookup : lookup_env).

Definition envProvenance (value : string) (res : EnvResolution) : fieldProvenance :=
  {| fp_Value := value; fp_Source := sourceEnv; fp_EnvVar := er_UsedName res |}.

(** [workerCfg.WorkspaceRoot] of [LoadConfigFromEnv] is the first argument. *)
Definition workspaceRootProvenance (workerRoot : string) (cfg : Config) : fieldProvenance :=
  let root := wc_Root (cf_Workspace cfg) in
  let effective := EffectiveWorkspaceRoot workerRoot root (wc_rootSet (cf_Workspace cfg)) in
  if wc_rootSet (cf_Workspace cfg) && negb (blank root)
  then {| fp_Value := effective; fp_Source := sourceWorkflow; fp_EnvVar := "" |}
  else
    let envRes := ResolveEnv lookup workspaceRootEnv in
    if negb (blank (er_Value envRes)) then envProvenance effective envRes
    else {| fp_Value := effective; fp_Source := sourceDefault; fp_EnvVar := "" |}.

Definition mirrorRootProvenance : Prog fieldProvenance :=
  let envRes := ResolveEnv lookup mirrorRootEnv in
  if negb (blank (er_Value envRes))
  then let* root := MirrorRoot (er_Value envRes) in Done (envProvenance root envRes)
  else let* root := MirrorRoot "" in Done {| fp_Value := root; fp_Source := sourceDefault; fp_EnvVar := "" |}.

Definition serverPortProvenance (cfg : Config) (portOverride : option Z) : fieldProvenance :=
  match portOverride with
  | Some p => {| fp_Value := fmt_d p; fp_Source := sourceCLI; fp_EnvVar := "" |}
  | None => {| fp_Value := fmt_d (sv_Port (cf_Server cfg));
               fp_Source := if sv_portSet (cf_Server cfg) then sourceWorkflow else sourceDefault; fp_EnvVar := "" |}
  end.

Definition workflowPathProvenance (res : Resolution) : fieldProvenance :=
  if String.eqb (rs_Source res) SourceFile || String.eqb (rs_Source res) SourcePromptOnly
  then {| fp_Value := rs_Path res; fp_Source := sourceWorkflow; fp_EnvVar := "" |}
  else {| fp_Value := ""; fp_Source := sourceDefault; fp_EnvVar := "" |}.

Definition resolveProvenance (mirrorRoot : fieldProvenance) (workerRoot : string) (cfg : Config) (res : Resolution)
    (portOverride : option Z) : configProvenance :=
  {| pv_WorkspaceRoot := workspaceRootProvenance workerRoot cfg; pv_MirrorRoot := mirrorRoot;
     pv_ServerPort := serverPortProvenance cfg portOverride; pv_WorkflowPath := workflowPathProvenance res |}.
End Provenance.

(** What is encoded of the sections of a configuration. *)
Record trackerView := {
  tv_Kind : string; tv_Provider : provider_map; tv_ActiveStates : list string; tv_TerminalStates : list string;
  tv_InactiveStates : list string; tv_RequiredLabels : list string
}.
Record commandView := {
  cv_Command : string; cv_EnvPassthrough : list string; cv_ApprovalPolicy : any; cv_ThreadSandbox : string;
  cv_TurnSandboxPolicy : CodexSandboxPolicy; cv_TurnTimeoutMs : Z; cv_ReadTimeoutMs : Z; cv_StallTimeoutMs : Z;
  cv_LinearGraphQL : LinearGraphQLConfig
}.
Record agentConfigView := {
  av_Default : string; av_MaxConcurrentAgents : Z; av_MaxTurns : Z; av_MaxContinuationTurns : Z; av_MaxTokensPerClaim : Z;
  av_MaxRuntimeSecondsPerClaim : Z; av_MaxRetryBackoffMs : Z; av_Timeout : string
}.
Record configView := {
  cw_Repo : RepoConfig; cw_Tracker : trackerView; cw_PollingIntervalMs : Z; cw_WorkspaceRoot : string;
  cw_Agent : agentConfigView; cw_Codex : commandView; cw_Claude : commandView; cw_PolicyMode : string;
  cw_VerifyCommands : list string; cw_Sandbox : SandboxConfig
}.
Definition tracker_view (t : TrackerSection) : trackerView :=
  {| tv_Kind := tk_Kind t; tv_Provider := default ∅ (tk_Provider t); tv_ActiveStates := tk_ActiveStates t;
     tv_TerminalStates := tk_TerminalStates t; tv_InactiveStates := tk_InactiveStates t; tv_RequiredLabels := tk_RequiredLabels t |}.
Definition command_view (c : CommandConfig) : commandView :=
  {| cv_Command := cc_Command c; cv_EnvPassthrough := cc_EnvPassthrough c; cv_ApprovalPolicy := cc_ApprovalPolicy c;
     cv_ThreadSandbox := cc_ThreadSandbox c; cv_TurnSandboxPolicy := cc_TurnSandboxPolicy c; cv_TurnTimeoutMs := cc_TurnTimeoutMs c;
     cv_ReadTimeoutMs := cc_ReadTimeoutMs c; cv_StallTimeoutMs := cc_StallTimeoutMs c; cv_LinearGraphQL := cc_LinearGraphQL c |}.
Definition newConfigView (cfg : Config) : configView :=
  let agent := cf_Agent cfg in
  {| cw_Repo := cf_Repo cfg; cw_Tracker := tracker_view (cf_Tracker cfg); cw_PollingIntervalMs := cf_PollingIntervalMs cfg;
     cw_WorkspaceRoot := wc_Root (cf_Workspace cfg);
     cw_Agent := {| av_Default := ac_Default agent; av_MaxConcurrentAgents := ac_MaxConcurrentAgents agent;
                    av_MaxTurns := ac_MaxTurns agent; av_MaxContinuationTurns := ac_MaxContinuationTurns agent;
                    av_MaxTokensPerClaim := ac_MaxTokensPerClaim agent;
                    av_MaxRuntimeSecondsPerClaim := ac_MaxRuntimeSecondsPerClaim agent;
                    av_MaxRetryBackoffMs := ac_MaxRetryBackoffMs agent; av_Timeout := Duration_String (ac_Timeout agent) |};
     cw_Codex := command_view (cf_Codex cfg); cw_Claude := command_view (cf_Claude cfg); cw_PolicyMode := cf_PolicyMode cfg;
     cw_VerifyCommands := cf_VerifyCommands cfg; cw_Sandbox := cf_Sandbox cfg |}.

Record promptSummary := { ps_Length : Z; ps_FirstLine : string }.
Definition promptFirstLineMaxBytes : nat := 200.
Definition summarizePrompt (body : string) : promptSummary :=
  let trimmed := TrimSpace body in
  let first := match str_cut trimmed newline with Some (line, _) => line | None => trimmed end in
  {| ps_Length := Z.of_nat (String.length trimmed); ps_FirstLine := str_take promptFirstLineMaxBytes first |}.

Definition maskedSecret : string := "***".
Definition maskSecrets (parse_url : string → option ParsedURL) (cfg : Config) : Config :=
  cfg <| cf_Tracker ::= (λ t, t <| tk_Provider := Some (MaskedProvider (policy_config cfg) maskedSecret) |>) |>
      <| cf_Repo ::= (λ r, r <| rc_CloneURL ::= MaskCloneURL parse_url |>) |>
      <| cf_Sandbox ::= (λ s, s <| sb_CredentialFiles ::= map (λ _, maskedSecret) |>) |>.

Record printConfigOutput := {
  po_Source : string; po_ShadowedBy : list string; po_Resolution : Resolution; po_Config : configView;
  po_Provenance : configProvenance; po_PromptTemplate : promptSummary
}.
(** The exit code, what is written to stdout and what to stderr. *)
Inductive Complaint := NotResolved (e : Error) | NotEncoded (text : string).
Record Printed := { pr_Code : Z; pr_Stdout : option printConfigOutput; pr_Stderr : option Complaint }.

Section PrintConfig.
Context `{Yaml} `{MapRange} (lookup : lookup_env) (home : option string) (parse_cidr : string → option bool).
Context (DefaultPrompt : string) (parse_url : string → option ParsedURL) (encode : printConfigOutput → option string).

(** [printConfig] after the workflow is resolved. *)
Definition print_resolved (mirrorRoot : fieldProvenance) (portOverride : option Z) (wf : Workflow) (res : Resolution) : Printed :=
  let out :=
    {| po_Source := rs_Source res; po_ShadowedBy := rs_ShadowedBy res; po_Resolution := res;
       po_Config := newConfigView (maskSecrets parse_url (wl_Config wf));
       po_Provenance := resolveProvenance lookup mirrorRoot (er_Value (ResolveEnv lookup workspaceRootEnv)) (wl_Config wf) res portOverride;
       po_PromptTemplate := summarizePrompt (wl_PromptTemplate wf) |} in
  match encode out with
  | Some text => {| pr_Code := 1; pr_Stdout := None; pr_Stderr := Some (NotEncoded text) |}
  | None => {| pr_Code := 0; pr_Stdout := Some out; pr_Stderr := None |}
  end.
Definition printConfig (workdir : string) (portOverride : option Z) : Prog Printed :=
  let* r := Resolve lookup home parse_cidr DefaultPrompt workdir in
  match r with
  | inl e => Done {| pr_Code := 1; pr_Stdout := None; pr_Stderr := Some (NotResolved e) |}
  | inr (wf, res) =>
      let* mirrorRoot := mirrorRootProvenance lookup in
      Done (print_resolved mirrorRoot portOverride wf res)
  end.
End PrintConfig.

(** ** The workflow file of a run *)

Inductive StartError :=
| StartUsage
| NoWorkingDir
| StartStat (e : OsErr)
| NotLoaded (e : Error)
| CloneURLMissing (path : string)
| UnsupportedTrackerKind (kind : string).

Definition startupWorkflowPath (lookup : lookup_env) (args : list string) : Prog (StartError + string) :=
  match args with
  | _ :: _ :: _ => Done (inl StartUsage)
  | [path] => Done (inr path)
  | [] =>
      let path := er_Value (ResolveEnv lookup workflowPathEnv) in
      if negb (String.eqb path "") then Done (inr path)
      else
        let* workdir := call Getwd in
        match workdir with
        | None => Done (inl NoWorkingDir)
        | Some workdir =>
            let path := Join [workdir; "WORKFLOW.md"] in
            let* info := call (Stat path) in
            Done (match info with
                  | inl e => if os_IsNotExist e then inr "" else inl (StartStat e)
                  | inr _ => inr path
                  end)
        end
  end.

Section Startup.
Context `{Yaml} `{MapRange} (lookup : lookup_env) (home : option string) (parse_cidr : string → option bool) (DefaultPrompt : string).

Definition resolveStartupWorkflow (args : list string) : Prog (StartError + (Workflow * Resolution)) :=
  let* path := startupWorkflowPath lookup args in
  match path with
  | inl e => Done (inl e)
  | inr path =>
      if String.eqb path "" then
        let* tempdir := call TempDir in
        Done (inr ({| wl_Path := ""; wl_Config := DefaultConfig tempdir; wl_PromptTemplate := DefaultPrompt; wl_Source := SourceDefault |},
                   {| rs_Source := SourceDefault; rs_Path := ""; rs_ShadowedBy := [] |}))
      else
        let* wf := Load lookup home parse_cidr path in
        match wf with
        | inl e => Done (inl (NotLoaded e))
        | inr wf =>
            let* hasFront := HasFrontMatterAt path in
            Done (match hasFront with
                  | inl e => inl (NotLoaded e)
                  | inr hasFront =>
                      inr (wf, {| rs_Source := if hasFront : bool then SourceFile else SourcePromptOnly; rs_Path := path; rs_ShadowedBy := [] |})
                  end)
        end
  end.
End Startup.

Definition validateWorkflowForRuntime (path source : string) (cfg : Config) : option StartError :=
  if String.eqb (rc_CloneURL (cf_Repo cfg)) ""
  then Some (CloneURLMissing (if String.eqb source SourceDefault then "built-in workflow defaults" else path))
  else None.

(** ** States a running issue may not be in *)

Definition state_set (states : list string) : list string := List.filter (λ key, negb (String.eqb key "")) (map norm states).
Definition defaultInactiveStateCandidates (kind : string) : list string :=
  if String.eqb (norm kind) "github" then []
  else if String.eqb (norm kind) "gitea" then ["Human Review"; "Merging"]
  else ["Backlog"; "Human Review"].
Fixpoint infer_states (excluded : list string) (seen : list string) (candidates : list string) : list string :=
  match candidates with
  | [] => []
  | state :: candidates =>
      let key := norm state in
      if String.eqb key "" || existsb (String.eqb key) excluded || existsb (String.eqb key) seen
      then infer_states excluded seen candidates
      else state :: infer_states excluded (key :: seen) candidates
  end.
Definition inferredInactiveStates (t : TrackerSection) : list string :=
  let candidates := match tk_InactiveStates t with [] => defaultInactiveStateCandidates (tk_Kind t) | l => l end in
  infer_states (state_set (tk_ActiveStates t) ++ state_set (tk_TerminalStates t)) [] candidates.

(** ** A run

    The calls of [run] that start or ask another part of the program, with what each is
    given; they answer with an error or not. *)

Record ActorDeps := {
  dp_PollIntervalMs : Z; dp_MaxConcurrentAgents : Z; dp_MaxContinuationTurns : Z; dp_AgentDefault : string;
  dp_BudgetGuardrails : BudgetGuardrails; dp_MaxBackoff : Duration
}.
Inductive RunCall :=
| ResolveWorkflow (args : list string)
| NewWorkflowRuntime (path source : string)
| NewRuntimeDispatcher
| StartActor (deps : ActorDeps)
| WaitStarted
| StartStateServer (portOverride : option Z)
| RunReconcileStartup (cfg : ReconcileConfig)
| MarkReady
| NewRuntimePoller
| StartReloadLoop
| RunPollLoop
| WaitForWorkers (grace : Duration).
(** An error that ends a run, and whether the context of the run was over and the error is its own. *)
Inductive RunFailure := NotStarted (e : StartError) | BadArguments (e : ArgError) | PartFailed (text : string) (of_context : bool).
Definition RunAns (q : RunCall) : Type :=
  match q with
  | ResolveWorkflow _ => StartError + (Workflow * Resolution)
  | StartActor _ | StartStateServer _ | MarkReady | StartReloadLoop => unit
  | WaitForWorkers _ => bool
  | _ => option RunFailure
  end.
Notation Run := (Asking RunAns (option RunFailure)).
Definition run_ask (q : RunCall) : Asking RunAns (RunAns q) := ask (An := RunAns) q.
(** [if err := ...; err != nil { return err }]. *)
Definition then_run (q : RunCall) (err : RunAns q → option RunFailure) (k : Run) : Run :=
  ask* a := run_ask q in match err a with Some e => Ret (Some e) | None => k end.

Definition workerShutdownDrainGrace : Duration := 30 * Second.
Definition supported_tracker (kind : string) : bool := existsb (String.eqb kind) ["linear"; "gitea"; "github"].
(** The settings of [cfg.WorkspaceHooks()]. *)
Definition hooks_of (cfg : Config) : WorkspaceHooks :=
  let hooks := cf_Hooks cfg in
  if hk_TimeoutMs hooks <=? 0
  then {| hk_AfterCreate := hk_AfterCreate hooks; hk_BeforeRun := hk_BeforeRun hooks; hk_AfterRun := hk_AfterRun hooks;
          hk_BeforeRemove := hk_BeforeRemove hooks; hk_TimeoutMs := 60000; hk_EnvPassthrough := hk_EnvPassthrough hooks |}
  else hooks.

Section Run.
Context (parse_int : string → option Z) (envRoot : string) (tracker : nat → list string → Sys.Err + list Tracker.Issue).

Definition startupReconcileConfigForWorkflow (cfg : Config) : ReconcileConfig :=
  let hooks := hooks_of cfg in
  {| rc_WorkspaceRoot := EffectiveWorkspaceRoot envRoot (wc_Root (cf_Workspace cfg)) (wc_rootSet (cf_Workspace cfg));
     rc_ActiveStates := tk_ActiveStates (cf_Tracker cfg); rc_TerminalStates := tk_TerminalStates (cf_Tracker cfg);
     rc_TrackerKind := tk_Kind (cf_Tracker cfg); rc_Tracker := Some tracker; rc_ReconcileTaskID := "reconcile-startup";
     rc_WorkflowConfig := policy_config cfg; rc_BeforeRemoveHook := hk_BeforeRemove hooks;
     rc_HookTimeoutMillis := hk_TimeoutMs hooks; rc_HookEnvPassthrough := hk_EnvPassthrough hooks |}.

Definition actor_deps (cfg : Config) : ActorDeps :=
  let agent := cf_Agent cfg in
  {| dp_PollIntervalMs := cf_PollingIntervalMs cfg; dp_MaxConcurrentAgents := ac_MaxConcurrentAgents agent;
     dp_MaxContinuationTurns := ac_MaxContinuationTurns agent; dp_AgentDefault := ac_Default agent;
     dp_BudgetGuardrails := {| bg_MaxTokensPerClaim := ac_MaxTokensPerClaim agent;
                               bg_MaxRuntimeSecondsPerClaim := ac_MaxRuntimeSecondsPerClaim agent |};
     dp_MaxBackoff := ac_MaxRetryBackoffMs agent *i Millisecond |}.

Definition run_worker (args : list string) : Run :=
  match parseRunArgs parse_int args with
  | inl e => Ret (Some (BadArguments e))
  | inr (workflowPath, portOverride) =>
      ask* r := run_ask (ResolveWorkflow (if String.eqb workflowPath "" then [] else [workflowPath])) in
      match r with
      | inl e => Ret (Some (NotStarted e))
      | inr (wf, resolution) =>
          let cfg := wl_Config wf in
          match validateWorkflowForRuntime (wl_Path wf) (wl_Source wf) cfg with
          | Some e => Ret (Some (NotStarted e))
          | None =>
              if negb (supported_tracker (tk_Kind (cf_Tracker cfg)))
              then Ret (Some (NotStarted (UnsupportedTrackerKind (tk_Kind (cf_Tracker cfg)))))
              else
                then_run (NewWorkflowRuntime (rs_Path resolution) (rs_Source resolution)) (λ e, e)
                  (then_run NewRuntimeDispatcher (λ e, e)
                     (then_run (StartActor (actor_deps cfg)) (λ _, None)
                        (then_run WaitStarted (λ e, e)
                           (then_run (StartStateServer portOverride) (λ _, None)
                              (then_run (RunReconcileStartup (startupReconcileConfigForWorkflow cfg)) (λ e, e)
                                 (then_run MarkReady (λ _, None)
                                    (then_run NewRuntimePoller (λ e, e)
                                       (then_run StartReloadLoop (λ _, None)
                                          (ask* pollErr := run_ask RunPollLoop in
                                           ask* _ := run_ask (WaitForWorkers workerShutdownDrainGrace) in
                                           Ret pollErr)))))))))
          end
      end
  end.
End Run.

Definition normalizeRunError (err : option RunFailure) (ctxErr : bool) : option RunFailure :=
  match err with
  | Some (PartFailed _ true) => if ctxErr then None else err
  | Some (BadArguments ErrHelp) => None
  | _ => err
  end.

(** * What is shown of a configuration *)

Lemma cut_any_app a rest : str_forall (λ c, negb (url_delimiter c)) a = true →
  cut_any (a +:+ rest) = (let (b, r) := cut_any rest in (a +:+ b, r)).
Proof.
  induction a as [|c a IH]; [rewrite str_app_nil; by destruct (cut_any rest)|]. cbn [str_forall]. intros [Hc Ha]%andb_true_iff.
  rewrite str_app_cons. cbn [cut_any]. apply negb_true_iff in Hc. rewrite Hc, IH by done. by destruct (cut_any rest).
Qed.
Lemma after_at_host user host : after_at host = None → after_at (user +:+ "@" +:+ host) = Some host.
Proof.
  intros Hh. induction user as [|c user IH].
  - rewrite str_app_nil. change ("@" +:+ host) with (String (Ascii.ascii_of_nat 64) host). cbn [after_at]. by rewrite Hh.
  - rewrite str_app_cons. cbn [after_at]. by rewrite IH.
Qed.

(** Two clone URLs that differ only in the user before the host: as url.Parse reads them,
    or, when it refuses both, as the text of scheme, user, host and tail. *)
Definition authority_text (s : string) : bool := str_forall (λ c, negb (url_delimiter c)) s.
Inductive same_but_user (parse_url : string → option ParsedURL) : string → string → Prop :=
| same_url u : same_but_user parse_url u u
| same_parsed u1 u2 p1 p2 :
    u1 ≠ "" → u2 ≠ "" → parse_url u1 = Some p1 → parse_url u2 = Some p2 → pu_HasUser p1 = true → pu_HasUser p2 = true →
    pu_WithoutUser p1 = pu_WithoutUser p2 → same_but_user parse_url u1 u2
| same_unparsed scheme user1 user2 host tail :
    let url user := scheme +:+ "://" +:+ user +:+ "@" +:+ host +:+ tail in
    is_scheme scheme = true → authority_text user1 = true → authority_text user2 = true → authority_text host = true →
    after_at host = None → (cut_any tail).1 = "" →
    parse_url (url user1) = None → parse_url (url user2) = None → same_but_user parse_url (url user1) (url user2).

Lemma strip_user scheme user host tail :
  is_scheme scheme = true → authority_text user = true → authority_text host = true → after_at host = None →
  (cut_any tail).1 = "" →
  stripCloneURLUserinfo (scheme +:+ "://" +:+ user +:+ "@" +:+ host +:+ tail) = scheme +:+ "://" +:+ host +:+ tail.
Proof.
  intros Hs Hu Hh Ha Ht. unfold stripCloneURLUserinfo. rewrite cut_index_scheme by by apply is_scheme_chars.
  assert (∀ r, CutPrefix ("://" +:+ r) "://" = Some r) as -> by by intros [].
  rewrite cut_any_app, (cut_any_app "@"), cut_any_app by done. destruct (cut_any tail) as [b r] eqn:E. simpl in Ht. subst b.
  assert (tail = r) as <-.
  { clear -E. revert r E. induction tail as [|c t IH]; intros r; cbn [cut_any]; [by intros [= <-]|].
    destruct (url_delimiter c); [by intros [= <-]|]. destruct (cut_any t). by intros [=]. }
  rewrite str_app_nil_r. by rewrite after_at_host, <- ?str_app_assoc.
Qed.
Lemma mask_same parse_url u1 u2 : same_but_user parse_url u1 u2 → MaskCloneURL parse_url u1 = MaskCloneURL parse_url u2.
Proof.
  intros [u|u1' u2' p1 p2 H1 H2 E1 E2 U1 U2 E|scheme user1 user2 host tail url Hs H1 H2 Hh Ha Ht E1 E2]; [done|..]; unfold MaskCloneURL.
  - apply String.eqb_neq in H1, H2. by rewrite H1, H2, E1, E2, U1, U2.
  - assert (∀ user, String.eqb (url user) "" = false) as Hne by (intros user; unfold url; by destruct scheme).
    rewrite !Hne, E1, E2. unfold url. by rewrite !strip_user.
Qed.

(** The fields of a configuration that hold no secret. *)
Definition public (cfg : Config) : Config :=
  cfg <| cf_Repo ::= (λ r, r <| rc_CloneURL := "" |>) |>
      <| cf_Tracker ::= (λ t, t <| tk_Provider := None |> <| tk_profile := None |>) |>
      <| cf_Sandbox ::= (λ s, s <| sb_CredentialFiles := [] |>) |>.
Definition secret_fields (cfg : Config) : list string :=
  match tk_profile (cf_Tracker cfg) with Some p => SecretFields p | None => [] end.
Definition provider_of (cfg : Config) : provider_map := default ∅ (tk_Provider (cf_Tracker cfg)).

(** Two configurations that differ only in secrets: the values the tracker's profile
    declares secret, the user of the clone URL, and the paths of credential files. *)
Record same_but_secrets (parse_url : string → option ParsedURL) (cfg1 cfg2 : Config) : Prop := {
  same_public : public cfg1 = public cfg2;
  same_fields : secret_fields cfg1 = secret_fields cfg2;
  same_keys : ∀ key, key ∈ secret_fields cfg1 → is_Some (provider_of cfg1 !! key) ↔ is_Some (provider_of cfg2 !! key);
  same_values : ∀ key, key ∉ secret_fields cfg1 → provider_of cfg1 !! key = provider_of cfg2 !! key;
  same_clone : same_but_user parse_url (rc_CloneURL (cf_Repo cfg1)) (rc_CloneURL (cf_Repo cfg2));
  same_credentials : length (sb_CredentialFiles (cf_Sandbox cfg1)) = length (sb_CredentialFiles (cf_Sandbox cfg2))
}.

Lemma masked_lookup cfg key :
  MaskedProvider (policy_config cfg) maskedSecret !! key =
  if bool_decide (key ∈ secret_fields cfg) then (λ _, PString maskedSecret) <$> provider_of cfg !! key else provider_of cfg !! key.
Proof.
  rewrite masked_provider_exact. unfold provider_of, secret_fields, CloneProvider. cbn [policy_config tc_Provider tc_profile].
  destruct (default ∅ _ !! key) as [v|] eqn:E; [|by destruct (bool_decide _)].
  destruct (tk_profile (cf_Tracker cfg)); [by destruct (bool_decide _)|]. by rewrite bool_decide_false by (apply not_elem_of_nil).
Qed.
Lemma masked_same parse_url cfg1 cfg2 :
  same_but_secrets parse_url cfg1 cfg2 → maskSecrets parse_url cfg1 =
    (maskSecrets parse_url cfg2) <| cf_Tracker ::= (λ t, t <| tk_profile := tk_profile (cf_Tracker cfg1) |>) |>.
Proof.
  intros [Hp Hf Hk Hv Hc Hl].
  assert (MaskedProvider (policy_config cfg1) maskedSecret = MaskedProvider (policy_config cfg2) maskedSecret) as EP.
  { apply map_eq. intros key. rewrite !masked_lookup, <- Hf. destruct (decide (key ∈ secret_fields cfg1)) as [Hin|Hin].
    - rewrite bool_decide_true by done. specialize (Hk key Hin).
      destruct (provider_of cfg1 !! key), (provider_of cfg2 !! key); [done|..|done];
        exfalso; [destruct Hk as [Hk _]|destruct Hk as [_ Hk]]; (destruct Hk as [? E]; [by eexists|discriminate E]).
    - rewrite bool_decide_false by done. by apply Hv. }
  apply mask_same in Hc. unfold maskSecrets. rewrite EP. generalize dependent (MaskedProvider (policy_config cfg2) maskedSecret). intros masked _ . clear Hf Hk Hv.
  assert (∀ l1 l2 : list string, length l1 = length l2 → map (λ _, maskedSecret) l1 = map (λ _, maskedSecret) l2) as EL.
  { intros l1 l2 E. revert l2 E. induction l1 as [|x l1 IH]; intros [|y l2] [=]; cbn; [done|]. f_equal. by apply IH. }
  apply EL in Hl. destruct cfg1 as [[] ? [] ? ? ? ? ? ? ? ? [] ?], cfg2 as [[] ? [] ? ? ? ? ? ? ? ? [] ?].
  unfold public, set in Hp. cbn in *. injection Hp. intros. subst. unfold set. cbn. by rewrite Hc, Hl.
Qed.
Lemma provenance_same lookup mirrorRoot workerRoot res portOverride parse_url cfg1 cfg2 :
  same_but_secrets parse_url cfg1 cfg2 →
  resolveProvenance lookup mirrorRoot workerRoot cfg1 res portOverride = resolveProvenance lookup mirrorRoot workerRoot cfg2 res portOverride.
Proof.
  intros [Hp _ _ _ _ _]. assert (cf_Workspace cfg1 = cf_Workspace cfg2 ∧ cf_Server cfg1 = cf_Server cfg2) as [E1 E2].
  { by split; [apply (f_equal cf_Workspace) in Hp|apply (f_equal cf_Server) in Hp]. }
  unfold resolveProvenance, workspaceRootProvenance, serverPortProvenance. by rewrite E1, E2.
Qed.

(** C23: What --print-config writes does not depend on the secrets of the configuration: two
    workflows that differ only in the values their tracker's profile declares secret, in the
    user of the clone URL and in the paths of credential files are printed as the same. *)
Theorem printed_config_hides_secrets lookup parse_url encode mirrorRoot portOverride wf1 wf2 res :
  same_but_secrets parse_url (wl_Config wf1) (wl_Config wf2) → wl_PromptTemplate wf1 = wl_PromptTemplate wf2 →
  print_resolved lookup parse_url encode mirrorRoot portOverride wf1 res =
  print_resolved lookup parse_url encode mirrorRoot portOverride wf2 res.
Proof.
  intros Hs Hp. unfold print_resolved. rewrite Hp, (provenance_same _ _ _ _ _ _ _ _ Hs), (masked_same _ _ _ Hs).
  assert (∀ cfg p, newConfigView (cfg <| cf_Tracker ::= (λ t, t <| tk_profile := p |>) |>) = newConfigView cfg) as -> by done.
  done.
Qed.

(** ** The order of a start *)

Definition asked (log : list (Exchange RunAns)) (q : RunCall) : Prop := ∃ a, Ex (An := RunAns) q a ∈ log.
(** The configuration of a run: it can be dispatched from, and its startup reconciliation
    ended without an error. *)
Definition started_from envRoot tracker (log : list (Exchange RunAns)) (cfg : Config) : Prop :=
  (∃ args wf res, Ex (An := RunAns) (ResolveWorkflow args) (inr (wf, res)) ∈ log ∧ wl_Config wf = cfg) ∧
  rc_CloneURL (cf_Repo cfg) ≠ "" ∧ supported_tracker (tk_Kind (cf_Tracker cfg)) = true ∧
  asked log (StartActor (actor_deps cfg)) ∧ (∃ p, asked log (StartStateServer p)) ∧
  Ex (An := RunAns) (RunReconcileStartup (startupReconcileConfigForWorkflow envRoot tracker cfg)) None ∈ log.
Definition start_order envRoot tracker (log : list (Exchange RunAns)) (q : RunCall) : Prop :=
  match q with
  | MarkReady => ∃ cfg, started_from envRoot tracker log cfg
  | StartReloadLoop => asked log MarkReady
  | RunPollLoop => asked log MarkReady ∧ asked log StartReloadLoop ∧ ∃ cfg, started_from envRoot tracker log cfg
  | WaitForWorkers _ => asked log RunPollLoop
  | _ => True
  end.

Lemma asked_app log log' q : asked log q → asked (log ++ log') q.
Proof. intros [a H]. exists a. apply elem_of_app. by left. Qed.
Lemma asked_last log q a : asked (log ++ [Ex (An := RunAns) q a]) q.
Proof. exists a. apply elem_of_app. right. by left. Qed.
#[local] Hint Resolve asked_last asked_app : core.
Lemma holds_then envRoot tracker srv log q err k :
  start_order envRoot tracker log q →
  (∀ a, err a = None → holds (start_order envRoot tracker) srv (log ++ [Ex (An := RunAns) q a]) k (λ _ _, True)) →
  holds (start_order envRoot tracker) srv log (then_run q err k) (λ _ _, True).
Proof. intros HG Hk. apply holds_ask; [done|]. intros a _. destruct (err a) eqn:E; [done|]. by apply Hk. Qed.


(** ** Flags may follow the path *)

(** Flags that are complete: no positional argument and no end of flags among them. *)
Fixpoint complete_flags (l : list string) : bool :=
  match l with
  | [] => true
  | a :: rest =>
      negb (String.eqb a "--") && HasPrefix a "-" &&
      (if port_takes_value a then match rest with [] => false | _ :: rest => complete_flags rest end else complete_flags rest)
  end.
Lemma reorder_complete n flags rest : (length flags ≤ n)%nat → complete_flags flags = true →
  reorder port_takes_value (flags ++ rest) = (let '(f, p) := reorder port_takes_value rest in (flags ++ f, p)).
Proof.
  revert flags. induction n as [|n IH]; intros [|a flags] Hn; simpl in Hn; try lia; [by intros _; cbn [app]; destruct (reorder port_takes_value rest)..|].
  cbn [complete_flags]. intros [[Hd Hp]%andb_true_iff Hc]%andb_true_iff. apply negb_true_iff in Hd. cbn [app reorder]. rewrite Hd.
  destruct (port_takes_value a).
  - destruct flags as [|v flags]; [done|]. cbn [app]. simpl in Hn. rewrite IH by (done || lia). by destruct (reorder _ rest).
  - rewrite IH by (done || lia). rewrite Hp. by destruct (reorder _ rest).
Qed.
(** The path may stand before the flags or after them. *)
Theorem flags_may_follow_the_path parse_int path flags :
  HasPrefix path "-" = false → complete_flags flags = true →
  parseRunArgs parse_int (path :: flags) = parseRunArgs parse_int (flags ++ [path]).
Proof.
  intros Hp Hc. assert (reorderForFlagParse (path :: flags) = reorderForFlagParse (flags ++ [path])) as E; [|by unfold parseRunArgs; rewrite E].
  assert (String.eqb path "--" = false ∧ port_takes_value path = false) as [H1 H2].
  { unfold port_takes_value. split; [|apply orb_false_iff; split]; apply String.eqb_neq; by intros ->. }
  unfold reorderForFlagParse, reordered. rewrite (reorder_complete (length flags)) by done. cbn [reorder]. rewrite H1, H2, Hp.
  rewrite <- (app_nil_r flags) at 1. rewrite (reorder_complete (length flags)) by done. cbn [reorder]. by rewrite !app_nil_r.
Qed.

(** ** Inferred inactive states *)

Lemma infer_states_spec excluded seen l s :
  s ∈ infer_states excluded seen l → s ∈ l ∧ norm s ≠ "" ∧ norm s ∉ excluded ∧ norm s ∉ seen.
Proof.
  assert (∀ x m, existsb (String.eqb x) m = false → x ∉ m) as Hx.
  { intros x m H Hin. apply not_true_iff_false in H. apply H, existsb_exists. exists x. split; [by apply list_elem_of_In|apply String.eqb_refl]. }
  revert seen. induction l as [|a l IH]; intros seen; cbn [infer_states]; [by intros ?%elem_of_nil|].
  destruct (_ || _) eqn:E.
  - intros (? & ? & ? & ?)%IH. split_and!; [by right|done..].
  - rewrite !orb_false_iff in E. destruct E as [[E1%String.eqb_neq E2%Hx] E3%Hx].
    intros [->|(? & ? & ? & H)%IH]%elem_of_cons; [by split_and!; [left|..]|]. split_and!; [by right|done|done|]. intros Hin. apply H. by right.
Qed.
Lemma infer_states_nodup excluded seen l : NoDup (map norm (infer_states excluded seen l)).
Proof.
  revert seen. induction l as [|a l IH]; intros seen; cbn [infer_states]; [constructor|]. destruct (_ || _); [apply IH|].
  cbn [map]. constructor; [|apply IH]. intros (s & E & (_ & _ & _ & H)%infer_states_spec)%list_elem_of_fmap. apply H. rewrite <- E. by left.
Qed.
Lemma infer_states_complete excluded seen l s :
  s ∈ l → norm s ≠ "" → norm s ∉ excluded → norm s ∈ seen ∨ norm s ∈ map norm (infer_states excluded seen l).
Proof.
  intros Hin Hne Hex. revert seen. induction Hin as [s l|s a l Hin IH]; intros seen; cbn [infer_states].
  - destruct (String.eqb_spec (norm s) "") as [|_]; [done|]. cbn [orb].
    destruct (existsb (String.eqb (norm s)) excluded) eqn:E1.
    { apply existsb_exists in E1 as (x & Hx%list_elem_of_In & <-%String.eqb_eq). done. }
    cbn [orb]. destruct (existsb (String.eqb (norm s)) seen) eqn:E2; [|right; cbn [map]; apply elem_of_cons; by left].
    left. apply existsb_exists in E2 as (x & Hx%list_elem_of_In & <-%String.eqb_eq). done.
  - destruct (_ || _); [by apply IH|]. destruct (IH Hne Hex (norm a :: seen)) as [[->|?]%elem_of_cons|?]; [|by left|right; cbn [map]; apply elem_of_cons; by right].
    right. cbn [map]. apply elem_of_cons. by left.
Qed.

(** The states that stop a running issue are candidates, none of them active or terminal,
    one for each name up to case and blanks, and no other candidate is left out. *)
Theorem inferred_states_exact t :
  let candidates := match tk_InactiveStates t with [] => defaultInactiveStateCandidates (tk_Kind t) | l => l end in
  let decided := state_set (tk_ActiveStates t) ++ state_set (tk_TerminalStates t) in
  (∀ s, s ∈ inferredInactiveStates t → s ∈ candidates ∧ norm s ≠ "" ∧ norm s ∉ decided) ∧
  NoDup (map norm (inferredInactiveStates t)) ∧
  ∀ s, s ∈ candidates → norm s ≠ "" → norm s ∉ decided → norm s ∈ map norm (inferredInactiveStates t).
Proof.
  cbv zeta. unfold inferredInactiveStates. split_and!.
  - intros s (? & ? & ? & _)%infer_states_spec. done.
  - apply infer_states_nodup.
  - intros s Hin Hne Hd. by destruct (infer_states_complete _ [] _ s Hin Hne Hd) as [?%elem_of_nil|?].
Qed.

(** ** Concrete configurations *)

Module Shown.
Definition no_env : lookup_env := λ _, None.
Definition provider (endpoint token : string) : provider_map := {["base_url" := PString endpoint; "token" := PString token]}.
Definition profile : Base :=
  {| AdapterKind := "gitea"; ProviderMap := ∅; Secrets := []; SecretEnvs := []; SecretFields := ["token"] |}.
Definition gitea (endpoint token clone : string) (credentials : list string) : Config :=
  (DefaultConfig "/tmp")
    <| cf_Tracker ::= (λ t, t <| tk_Kind := "gitea" |> <| tk_Provider := Some (provider endpoint token) |> <| tk_profile := Some profile |>) |>
    <| cf_Repo ::= (λ r, r <| rc_CloneURL := clone |>) |>
    <| cf_Sandbox ::= (λ s, s <| sb_CredentialFiles := credentials |>) |>.
Definition file (cfg : Config) : Workflow := {| wl_Path := "/w/WORKFLOW.md"; wl_Config := cfg; wl_PromptTemplate := "p"; wl_Source := SourceFile |}.
Definition resolution : Resolution := {| rs_Source := SourceFile; rs_Path := "WORKFLOW.md"; rs_ShadowedBy := [] |}.
Definition mirrors : fieldProvenance := {| fp_Value := "/m"; fp_Source := sourceDefault; fp_EnvVar := "" |}.
Definition printed (cfg : Config) : Printed := print_resolved no_env (λ _, None) (λ _, None) mirrors None (file cfg) resolution.
Definition provider_shown (p : Printed) (key : string) : option ProviderValue :=
  match pr_Stdout p with Some out => tv_Provider (cw_Tracker (po_Config out)) !! key | None => None end.
(** The secret of a tracker is masked, but the user of its endpoint is shown. *)
Example endpoint_user_shown :
  let p := printed (gitea "https://bot:pw@git.example" "s3cret" "" []) in
  provider_shown p "token" = Some (PString "***") ∧ provider_shown p "base_url" = Some (PString "https://bot:pw@git.example").
Proof. by vm_compute. Qed.
(** A run whose parts all start. *)
Definition parts : Server RunAns := λ log q,
  match q return RunAns q with
  | ResolveWorkflow _ => inr (file (gitea "https://git.example" "t" "https://git.example/o/r.git" []), resolution)
  | StartActor _ | StartStateServer _ | MarkReady | StartReloadLoop => tt
  | WaitForWorkers _ => true
  | _ => None
  end.
Notation started := (TrackerErrors.run parts [] (run_worker (λ _, None) "" (λ _ _, inr []) ["/w/WORKFLOW.md"])).1.
End Shown.
Import Shown.

Lemma printed_config_hides_secrets_witness :
  let cfg1 := gitea "https://git.example" "one" ("https://" +:+ "alice:a1" +:+ "@" +:+ "git.example" +:+ "/o/r.git") ["/home/a/.netrc"] in
  let cfg2 := gitea "https://git.example" "two" ("https://" +:+ "bob:b2" +:+ "@" +:+ "git.example" +:+ "/o/r.git") ["/etc/key"] in
  cfg1 ≠ cfg2 ∧ printed cfg1 = printed cfg2.
Proof.
  intros cfg1 cfg2. split; [discriminate|].
  apply (printed_config_hides_secrets no_env (λ _, None) (λ _, None) mirrors None (file cfg1) (file cfg2) resolution); [|reflexivity].
  split; [reflexivity|reflexivity| | | |reflexivity].
  - intros key [->|H%elem_of_nil]%elem_of_cons; [|done]. split; intros _; by eexists.
  - intros key Hk. assert (key ≠ "token") as Hne by (intros ->; apply Hk; by left).
    change (provider "https://git.example" "one" !! key = provider "https://git.example" "two" !! key).
    unfold provider. destruct (decide (key = "base_url")) as [->|Hb]; [reflexivity|].
    rewrite !(lookup_insert_ne _ "base_url") by congruence. by rewrite !lookup_singleton_ne by congruence.
  - by apply (same_unparsed (λ _, None) "https" "alice:a1" "bob:b2" "git.example" "/o/r.git").
Defined.
