(* ===== verification/Doctor.v ===== *)
(** * The doctor (internal/doctor)

    worker --doctor checks the host, the workflow, the tracker and the agent and prints a
    report.  It is a program that asks the operating system, the tracker's API, the state
    API and the agent; the checks it makes are collected in order.

    The workflow comes with the profile of its tracker as the loader resolved it.
    [lookup] is the environment, [environ] its list form; [parse_url] and [url_parts] are
    url.Parse (the URL without its user; scheme and host name); [stat] and [look_path] are
    what the launch of the app-server reads; [login_path] is the PATH of a login shell;
    [unmarshal_probe] decodes a line of the app-server into the raw texts of id, result and
    error.  [ready_wait] answers how often the ticker fires before the deadline: the
    passing of time is not modelled otherwise.  Output streams are their text. *)

From S2P Require Import Prelude Payload GoStd Types Ops Poller Paths Hashes Redact GitCmd Profiles EnvPolicy Regex TrackerErrors Config Loader AgentErrors AppCommand Tools Commands.

Inductive Status := Pass | Warn | Fail.
#[export] Instance Status_eq_dec : EqDecision Status.
Proof. solve_decision. Defined.
Definition status_text (s : Status) : string := match s with Pass => "PASS" | Warn => "WARN" | Fail => "FAIL" end.
Record Check := { Status_ : Status; Name : string; Detail : string; Fix : string }.
Record Report := { Checks : list Check }.
Definition HasFailures (r : Report) : bool := existsb (λ c, bool_decide (Status_ c = Fail)) (Checks r).

Definition aiopsModulePath : string := "github.com/xrf9268-hue/aiops-platform".
Definition defaultCommandTimeout : Duration := 10 * Second.
Definition goTestProbeTimeout : Duration := 2 * Minute.
Definition CodexProtocolVersion : string := "0.144.4".

Definition writeTextReport (report : Report) : string :=
  String.concat "" (map (λ check,
    status_text (Status_ check) +:+ " " +:+ Name check +:+
    (if String.eqb (Detail check) "" then "" else ": " +:+ Detail check) +:+ newline +:+
    (if negb (String.eqb (Fix check) "") && negb (bool_decide (Status_ check = Pass))
     then "     Fix: " +:+ Fix check +:+ newline else "")) (Checks report)).

(** ** Versions *)

Record goVersion := { gv_major : Z; gv_minor : Z; gv_patch : Z; gv_patchSet : bool }.
(** What [fmt.Sscanf] reads for %d from a text without white space: the number and the rest. *)
Definition is_digit (c : Ascii.ascii) : bool := in_range 48 57 c.
Definition digits_value (s : string) : Z := fold_left (λ n c, 10 * n + (Z.of_nat (Ascii.nat_of_ascii c) - 48)) (String.list_ascii_of_string s) 0.
Definition scan_digits (sign : Z) (s : string) : option (Z * string) :=
  let (digits, rest) := span is_digit s in
  let n := sign * digits_value digits in
  if String.eqb digits "" || negb ((min64 <=? n) && (n <=? max64)) then None else Some (n, rest).
Definition scan_d (s : string) : option (Z * string) :=
  match CutPrefix s "-", CutPrefix s "+" with
  | Some rest, _ => scan_digits (-1) rest
  | None, Some rest => scan_digits 1 rest
  | None, None => scan_digits 1 s
  end.
Definition scan_dot_d (s : string) : option (Z * string) :=
  match CutPrefix s "." with Some rest => scan_d rest | None => None end.
Definition parseGoVersion (version : string) : option goVersion :=
  match scan_d version with
  | Some (major, rest) =>
      match scan_dot_d rest with
      | Some (minor, rest) =>
          Some match scan_dot_d rest with
               | Some (patch, _) => {| gv_major := major; gv_minor := minor; gv_patch := patch; gv_patchSet := true |}
               | None => {| gv_major := major; gv_minor := minor; gv_patch := 0; gv_patchSet := false |}
               end
      | None => None
      end
  | None => None
  end.
(** The first field that begins with [go1.] decides. *)
Definition goVersionFromOutput (output : string) : option goVersion :=
  match List.find (λ field, HasPrefix field "go1.") (Fields output) with
  | Some field => parseGoVersion (TrimPrefix field "go")
  | None => None
  end.
Definition goVersionCompatible (output goModVersion : string) : bool :=
  match goVersionFromOutput output, parseGoVersion goModVersion with
  | Some got, Some want =>
      if negb (gv_major got =? gv_major want) then gv_major want <? gv_major got
      else if negb (gv_minor got =? gv_minor want) then gv_minor want <? gv_minor got
      else negb (gv_patchSet want) || (gv_patch want <=? gv_patch got)
  | _, _ => false
  end.
Definition version_text (v : goVersion) : string :=
  fmt_d (gv_major v) +:+ "." +:+ fmt_d (gv_minor v) +:+ "." +:+ fmt_d (gv_patch v).
Fixpoint codex_version_of (fields : list string) : option goVersion :=
  match fields with
  | [] => None
  | field :: fields =>
      let normalized := TrimPrefix field "v" in
      match parseGoVersion normalized with
      | Some v => if gv_patchSet v && String.eqb normalized (version_text v) then Some v else codex_version_of fields
      | None => codex_version_of fields
      end
  end.
Definition codexVersionFromOutput (output : string) : option goVersion := codex_version_of (Fields output).
Definition codexVersionMatches (got want : goVersion) : bool :=
  (gv_major got =? gv_major want) && (gv_minor got =? gv_minor want) && (gv_patch got =? gv_patch want).

(** [readGoMod] of the text of the file. *)
Definition go_mod_line (found : string * string) (line : string) : string * string :=
  match Fields line with
  | [key; value] =>
      if String.eqb key "module" then (value, found.2) else if String.eqb key "go" then (found.1, value) else found
  | _ => found
  end.
Definition readGoMod (data : option string) : string * string :=
  match data with
  | Some data => fold_left go_mod_line (Split (Ascii.ascii_of_nat 10) data) ("", "")
  | None => ("", "")
  end.
Definition goModuleFailureDetail (modulePath version : string) : string :=
  if String.eqb modulePath "" then "no go.mod found for targeted project verification"
  else if negb (String.eqb modulePath aiopsModulePath) then "go.mod module " +:+ quote modulePath +:+ " is not " +:+ aiopsModulePath
  else if String.eqb version "" then "go.mod is missing a go version"
  else "go.mod is not usable for targeted project verification".

(** ** The configuration of Codex *)

Fixpoint trim_left_byte (q : Ascii.ascii) (s : string) : string :=
  match s with String c t => if Ascii.eqb c q then trim_left_byte q t else s | EmptyString => "" end.
Fixpoint trim_right_byte (q : Ascii.ascii) (s : string) : string :=
  match s with
  | EmptyString => ""
  | String c t => match trim_right_byte q t with
                  | EmptyString => if Ascii.eqb c q then "" else String c ""
                  | t' => String c t'
                  end
  end.
Definition tomlScalarString (v : string) : string :=
  let v := TrimSpace v in
  let bare := TrimSpace (match str_cut v "#" with Some (b, _) => b | None => v end) in
  match v with
  | String q rest =>
      if byte_is 34 q || byte_is 39 q
      then match str_cut rest (String q "") with
           | Some (b, _) => b
           | None => trim_right_byte q (trim_left_byte q v)
           end
      else bare
  | EmptyString => bare
  end.
Fixpoint toml_scalars (inTable : bool) (values : gmap string string) (lines : list string) : gmap string string :=
  match lines with
  | [] => values
  | raw :: lines =>
      let line := TrimSpace raw in
      if String.eqb line "" || HasPrefix line "#" then toml_scalars inTable values lines
      else if HasPrefix line "[" then toml_scalars true values lines
      else if inTable then toml_scalars inTable values lines
      else match str_cut line "=" with
           | Some (key, val) => toml_scalars inTable (<[TrimSpace key := tomlScalarString val]> values) lines
           | None => toml_scalars inTable values lines
           end
  end.
Definition topLevelTOMLScalars (data : string) : gmap string string := toml_scalars false ∅ (Split (Ascii.ascii_of_nat 10) data).
(** [readCodexModelConfig] of the text of the file. *)
Definition readCodexModelConfig (data : option string) : option (string * string * string) :=
  match data with
  | Some data =>
      let values := topLevelTOMLScalars data in
      let value key := default "" (values !! key) in
      if String.eqb (value "model") "" then None else Some (value "model", value "model_provider", value "model_reasoning_effort")
  | None => None
  end.

Definition NameCodexAppServer : string := "codex-app-server".
Definition requiresCodex (cfg : Config) : bool := String.eqb (ac_Default (cf_Agent cfg)) NameCodexAppServer.
Definition codexAPIKeyAuthSelected (cfg : Config) : bool :=
  existsb (λ name, EqualFold (TrimSpace name) "OPENAI_API_KEY") (cc_EnvPassthrough (cf_Codex cfg)).
Definition usesDefaultCodexCLI (cfg : Config) : bool :=
  let command := TrimSpace (cc_Command (cf_Codex cfg)) in
  String.eqb command "" || String.eqb command "codex app-server" || HasPrefix command "codex app-server ".
Definition effectiveSandboxMode (cfg : Config) : string :=
  let type := sp_Type (cc_TurnSandboxPolicy (cf_Codex cfg)) in
  if String.eqb type CodexSandboxDangerFullAccess then "danger-full-access"
  else if String.eqb type CodexSandboxExternalSandbox then "external"
  else if String.eqb type CodexSandboxReadOnly then "read-only"
  else if String.eqb type CodexSandboxWorkspaceWrite then "workspace-write"
  else
    let thread := cc_ThreadSandbox (cf_Codex cfg) in
    if String.eqb thread "danger-full-access" then "danger-full-access"
    else if String.eqb thread "read-only" then "read-only" else "workspace-write".
Definition codexUsesUserNamespaceSandbox (mode : string) : bool := String.eqb mode "read-only" || String.eqb mode "workspace-write".
Definition codexLacksSandboxSubcommand (out : string) : bool :=
  let out := ToLower out in
  Contains out "unrecognized subcommand" || Contains out "no such subcommand" || Contains out "unknown command" ||
  (Contains out "unexpected argument" && Contains out "sandbox").
Definition firstLine (out : string) : string :=
  let line := TrimSpace out in
  let line := match str_cut line newline with Some (b, _) => b | None => line end in
  if String.eqb line "" then "ok" else line.

(** [(ok, err)] of one line. *)
Definition validateAppServerProbeLine (unmarshal_probe : string → option (string * string * string)) (line : string) : string + bool :=
  match unmarshal_probe line with
  | None => inr false
  | Some (id, result, error) =>
      if negb (String.eqb (TrimSpace id) "1") then inr false
      else if negb (String.eqb error "") && negb (String.eqb (TrimSpace error) "null")
      then inl ("app-server initialize error: " +:+ TrimSpace error)
      else if String.eqb result "" || String.eqb (TrimSpace result) "null"
      then inl ("unexpected app-server response: " +:+ TrimSpace line)
      else inr true
  end.

(** ** Repositories *)

Section CloneURLs.
Context (parse_url : string → option ParsedURL) (url_parts : string → option (string * string)).

Definition normalizeCloneURL (raw : string) : string := ToLower (TrimSpace raw).
Definition sameCloneURL (a b : string) : bool := String.eqb (normalizeCloneURL a) (normalizeCloneURL b).
Definition isGitHubCloneURL (raw : string) : bool :=
  let cloneURL := TrimSpace raw in
  if Contains cloneURL "://" then
    match url_parts cloneURL with
    | Some (scheme, host) => EqualFold host "github.com" && existsb (String.eqb (ToLower scheme)) ["https"; "ssh"; "git+ssh"]
    | None => false
    end
  else HasPrefix (ToLower cloneURL) "git@github.com:".
(** [strings.Index]. *)
Definition index_of (s sub : string) : option nat := match str_cut s sub with Some (b, _) => Some (String.length b) | None => None end.
Definition cloneURLNeedsSSH (raw : string) : bool :=
  let cloneURL := TrimSpace raw in
  if String.eqb cloneURL "" then false
  else if Contains cloneURL "://" then
    match url_parts cloneURL with
    | Some (scheme, _) => existsb (String.eqb (ToLower scheme)) ["ssh"; "git+ssh"]
    | None => false
    end
  else match index_of cloneURL "@", index_of cloneURL ":" with
       | Some at_, Some colon => (0 <? at_)%nat && (at_ <? colon)%nat
       | _, _ => false
       end.
Definition workflowCloneURLs (cfg : Config) : list string :=
  if blank (rc_CloneURL (cf_Repo cfg)) then [] else [rc_CloneURL (cf_Repo cfg)].
Definition workflowNeedsSSH (cfg : Config) : bool := existsb cloneURLNeedsSSH (workflowCloneURLs cfg).

Record githubRepo := { gr_Owner : string; gr_Name : string; gr_CloneURL : string }.
Definition fullName (r : githubRepo) : string := gr_Owner r +:+ "/" +:+ gr_Name r.
Definition githubRepoFromConfig (repo : RepoConfig) : option githubRepo :=
  let owner := TrimSpace (rc_Owner repo) in
  let name := TrimSpace (rc_Name repo) in
  let cloneURL := TrimSpace (rc_CloneURL repo) in
  if String.eqb owner "" || String.eqb name "" || String.eqb cloneURL "" || negb (isGitHubCloneURL cloneURL) then None
  else Some {| gr_Owner := owner; gr_Name := name; gr_CloneURL := cloneURL |}.
Definition githubRepos (cfg : Config) : list githubRepo :=
  match githubRepoFromConfig (cf_Repo cfg) with Some repo => [repo] | None => [] end.
Definition matchGitHubRepos (repos : list githubRepo) (target : string) : list githubRepo :=
  let is_exact repo := EqualFold (fullName repo) target || sameCloneURL (gr_CloneURL repo) target in
  let exact := List.filter is_exact repos in
  match exact with
  | [] => List.filter (λ repo, negb (is_exact repo) && sameCloneURL (MaskCloneURL parse_url (gr_CloneURL repo)) target) repos
  | _ => exact
  end.
Definition selectGitHubRepo (cfg : Config) (target : string) : string + githubRepo :=
  match githubRepos cfg with
  | [] => inl "no GitHub repo owner/name and clone_url found in workflow"
  | repo :: _ =>
      let target := TrimSpace target in
      if negb (String.eqb target "") && (length (matchGitHubRepos (githubRepos cfg) target) =? 0)%nat
      then inl ("github repo " +:+ quote (MaskCloneURL parse_url target) +:+ " not found in workflow")
      else inr repo
  end.
End CloneURLs.

Definition safeCommandFailure (command : string) (err : string) : string :=
  if String.eqb err "" then command +:+ " failed" else command +:+ " failed: " +:+ err.

(** ** What the doctor asks *)

(** The profile [cfg.Tracker.ProviderProfile()] asserts, where the workflow was loaded with one. *)
Inductive Profile := IsLinear (p : LinearProfile) | IsGitea (p : RepoProfile) | IsGitHub (p : RepoProfile).
Record Loaded := { ld_Config : Config; ld_Profile : option Profile }.
(** The error of a command: not found, out of time or cancelled, and its text. *)
Record CommandError := { ce_NotFound : bool; ce_Ended : bool; ce_Text : string }.
(** An error of a client: its text, and the text inside the url.Error it wraps. *)
Record ProbeError := { pe_Text : string; pe_Inner : option string }.
Inductive GetAnswer := BadURL (text : string) | GetFailed (text : string) | Got (status : string) (code : Z).
(** Of the body of a probe of Linear: the text of its errors, if any, and the number of projects. *)
Record LinearBody := { lb_Errors : option string; lb_Projects : nat }.
Inductive LinearAnswer := BadEndpoint (e : ProbeError) | NoResponse (e : ProbeError) | Response (status : string) (code : Z) (body : string + LinearBody).
(** How the output of the app-server ends after its lines: an error, or its end with what stderr holds. *)
Inductive OutputEnd := ScanFailed (text : string) | Ended (stderr : string).

Inductive DoctorCall :=
| Getwd
| LoadWorkflow (path : string)
| LookPath (name : string)
| Command (timeout : Duration) (name : string) (args : list string) (env : option (list string))
| CreateTemp (dir pattern : string)
| WriteTemp (name content : string)
| RemoveTemp (name : string)
| MkdirTemp (pattern : string)
| RemoveDir (dir : string)
| ReadText (path : string)
| Exists (path : string)
| GetURL (url : string) (authorization : option string)
| ready_wait
| PostLinear (endpoint apiKey projectSlug : string)
| ListActive (client : Profile)
| ProbeAppServer (argv : list string) (env : list string).
Definition DoctorAns (q : DoctorCall) : Type :=
  match q with
  | Getwd => option string
  | LoadWorkflow _ => string + Loaded
  | LookPath _ | Exists _ => bool
  | Command _ _ _ _ => string * option CommandError
  | CreateTemp _ _ | MkdirTemp _ => string + string
  | WriteTemp _ _ => option string
  | RemoveTemp _ | RemoveDir _ => unit
  | ReadText _ => option string
  | GetURL _ _ => GetAnswer
  | ready_wait => nat * option string
  | PostLinear _ _ _ => LinearAnswer
  | ListActive _ => option ProbeError
  | ProbeAppServer _ _ => string + list string * OutputEnd
  end.

(** A part of the doctor: its checks, in order, and a result. *)
Notation Doc A := (Asking DoctorAns (list Check * A)).
Definition doc_ret {A} (a : A) : Doc A := Ret ([], a).
Definition doc_bind {A B} (p : Doc A) (f : A → Doc B) : Doc B :=
  ask_bind p (λ r, ask_bind (f r.2) (λ r', Ret (r.1 ++ r'.1, r'.2))).
Definition doc_ask (q : DoctorCall) : Doc (DoctorAns q) := ask_bind (ask (An := DoctorAns) q) (λ a, Ret ([], a)).
Notation "'doc*' x := m 'in' k" := (doc_bind m (fun x => k)) (at level 200, x pattern, m at level 100, k at level 200) : go_scope.
Notation "m >>> k" := (doc_bind m (fun _ => k)) (at level 60, right associativity) : go_scope.
Fixpoint doc_each {A} (f : A → Doc unit) (l : list A) : Doc unit :=
  match l with [] => doc_ret tt | a :: l => f a >>> doc_each f l end.

Section Checks.
Context (lookup : lookup_env) (environ : list string) (parse_url : string → option ParsedURL) (url_parts : string → option (string * string)).
Context (stat : string → option (bool * Z)) (look_path : string → string + string) (login_path : option (unit → string)).
Context (unmarshal_probe : string → option (string * string * string)) (linux : bool) (opts : DoctorOptions).

Definition Getenv (name : string) : string := default "" (lookup name).
Definition redacted_names : list string := ["LINEAR_API_KEY"; "GITHUB_TOKEN"; "GITEA_TOKEN"; "OPENAI_API_KEY"; "AIOPS_STATE_API_TOKEN"].
Definition redact (s : string) : string :=
  fold_left (λ s env, let v := Getenv env in if String.eqb v "" then s else ReplaceAll v "***" 0 s) redacted_names s.

Definition add (status : Status) (name detail fix_ : string) : Doc unit :=
  Ret ([{| Status_ := status; Name := name; Detail := redact detail; Fix := redact fix_ |}], tt).
Definition pass (name detail : string) : Doc unit := add Pass name detail "".
Definition warn (name detail fix_ : string) : Doc unit := add Warn name detail fix_.
Definition fail (name detail fix_ : string) : Doc unit := add Fail name detail fix_.

Definition Mode_ : string := if String.eqb (do_Mode opts) "" then "mock" else do_Mode opts.
Definition Deploy_ : string := if String.eqb (do_Deploy opts) "" then "docker" else do_Deploy opts.
Definition realMode : bool := String.eqb Mode_ "real".
Definition binaryDeploy : bool := String.eqb Deploy_ "binary".
(** [status := Warn; if r.realMode() { status = Fail }]. *)
Definition fail_if_real : Status := if realMode then Fail else Warn.
Definition installFix (what : string) : string :=
  if binaryDeploy then "Install " +:+ what +:+ " on this host and ensure it is on PATH." else "Install " +:+ what +:+ " in the worker image.".

Definition runWithTimeout (timeout : Duration) (name : string) (args : list string) : Doc (string * option CommandError) :=
  doc_ask (Command timeout name args None).
Definition run (name : string) (args : list string) : Doc (string * option CommandError) := runWithTimeout defaultCommandTimeout name args.
Definition runEnv (name : string) (args env : list string) : Doc (string * option CommandError) :=
  doc_ask (Command (10 * Second) name args (Some env)).
Definition trimOutput (out : string) (err : option CommandError) : string :=
  let msg := TrimSpace out in
  match err with Some e => if String.eqb msg "" then ce_Text e else msg | None => msg end.

(** *** The workflow and the host *)

Definition checkWorkflow : Doc (option Loaded * string) :=
  let path := TrimSpace (do_WorkflowPath opts) in
  let path := if String.eqb path "" then Getenv "AIOPS_WORKFLOW_PATH" else path in
  (doc* path := (if String.eqb path "" then
                   doc* wd := doc_ask Getwd in
                   doc_ret (match wd with Some wd => Join [wd; "WORKFLOW.md"] | None => "" end)
                 else doc_ret path) in
   if String.eqb path "" then
     fail "Workflow" "no workflow path found" "Pass --doctor <path> or set AIOPS_WORKFLOW_PATH." >>> doc_ret (None, "")
   else
     doc* loaded := doc_ask (LoadWorkflow path) in
     match loaded with
     | inl err => fail "Workflow" err "Fix the WORKFLOW.md front matter, then rerun worker --doctor." >>> doc_ret (None, path)
     | inr wf =>
         (if String.eqb (rc_CloneURL (cf_Repo (ld_Config wf))) ""
          then fail "Runtime config" "repo.clone_url is required for worker dispatch" "Set repo.clone_url."
          else pass "Runtime config" "repo/workflow config is dispatchable") >>> doc_ret (Some wf, path)
     end)%go.

Definition requiredBinary (name : string) : Doc unit :=
  (doc* found := doc_ask (LookPath name) in
   if (found : bool) then pass name "found on PATH" else fail name "not found on PATH" (installFix name))%go.
Definition checkHostBinaries (wf : option Loaded) : Doc unit :=
  (requiredBinary "git" >>>
   (if match wf with Some wf => workflowNeedsSSH url_parts (ld_Config wf) | None => false end
    then requiredBinary "ssh" else pass "ssh" "not required for configured repository clone URLs") >>>
   doc* found := doc_ask (LookPath "rg") in
   if (found : bool) then pass "rg" "found on PATH"
   else warn "rg" "ripgrep not found on PATH" (installFix "rg" +:+ " It speeds up agent code search."))%go.

Definition goModule : Doc (string * string) :=
  let start := TrimSpace (do_GoTestDir opts) in
  if String.eqb start "" then doc_ret ("", "")
  else (doc* data := doc_ask (ReadText (Join [start; "go.mod"])) in doc_ret (readGoMod data))%go.
(** The path, or what [trimOutput] makes of the failure. *)
Definition gofmtPath : Doc (string + string) :=
  (doc* (out, err) := run "go" ["env"; "GOROOT"] in
   match err with
   | Some _ => doc_ret (inl (trimOutput out err))
   | None => let goRoot := TrimSpace out in
             doc_ret (if String.eqb goRoot "" then inl "go env GOROOT returned empty output" else inr (Join [goRoot; "bin"; "gofmt"]))
   end)%go.
Definition writeGofmtProbe : Doc (string + string) :=
  (doc* created := doc_ask (CreateTemp "" "aiops-doctor-gofmt-*.go") in
   match created with
   | inl err => doc_ret (inl err)
   | inr name =>
       doc* failed := doc_ask (WriteTemp name ("package main" +:+ newline)) in
       match failed with
       | Some err => doc_ask (RemoveTemp name) >>> doc_ret (inl err)
       | None => doc_ret (inr name)
       end
   end)%go.
Definition check_go_version (goModVersion : string) : Doc unit :=
  (doc* (out, err) := run "go" ["version"] in
   match err with
   | Some _ => fail "Go version" (trimOutput out err) (installFix "the Go toolchain required by go.mod")
   | None =>
       let version := TrimSpace out in
       if negb (String.eqb goModVersion "") && negb (goVersionCompatible version goModVersion)
       then fail "Go version" version ("Install a Go toolchain compatible with go.mod version " +:+ goModVersion +:+ ".")
       else pass "Go version" (if String.eqb goModVersion "" then version else version +:+ "; go.mod requires " +:+ goModVersion)
   end)%go.
Definition check_gofmt : Doc unit :=
  (doc* probe := writeGofmtProbe in
   match probe with
   | inl err => fail "gofmt" err "Create a writable temp directory for doctor preflight probes."
   | inr probe =>
       doc* path := gofmtPath in
       match path with
       | inl text => fail "gofmt" text (installFix "the Go toolchain (gofmt)")
       | inr path =>
           doc* (out, err) := run path ["-l"; probe] in
           match err with
           | Some _ => fail "gofmt" (trimOutput out err) (installFix "gofmt")
           | None => pass "gofmt" ("found at " +:+ path)
           end
       end >>> doc* _ := doc_ask (RemoveTemp probe) in doc_ret tt
   end)%go.
Definition check_go_test (modulePath goModVersion moduleRoot : string) : Doc unit :=
  (if String.eqb moduleRoot "" then
     warn "Go test" "not checked; no --go-test-dir supplied" "Pass --go-test-dir pointing at the repository module root for dogfood image preflight."
   else if negb (String.eqb modulePath aiopsModulePath) || String.eqb goModVersion "" then
     fail "Go test" (goModuleFailureDetail modulePath goModVersion) "Pass --go-test-dir pointing at the aiops-platform checkout root."
   else
     doc* found := doc_ask (Exists (Join [moduleRoot; "internal"; "doctor"])) in
     if negb (found : bool) then
       fail "Go test" "targeted package internal/doctor not found under --go-test-dir" "Pass --go-test-dir pointing at the aiops-platform checkout root."
     else
       doc* (out, err) := runWithTimeout goTestProbeTimeout "go"
          ["test"; "-C"; moduleRoot; "./internal/doctor"; "-run"; "TestDoctorGoToolchainProbe"; "-count=1"] in
       match err with
       | Some _ => fail "Go test" (trimOutput out err) "Fix the project Go test prerequisites in the targeted module checkout."
       | None => pass "Go test" "go test ./internal/doctor -run TestDoctorGoToolchainProbe -count=1"
       end)%go.
Definition checkProjectToolchain : Doc unit :=
  if negb realMode || binaryDeploy then doc_ret tt
  else (doc* (modulePath, goModVersion) := goModule in
        check_go_version goModVersion >>> check_gofmt >>> check_go_test modulePath goModVersion (TrimSpace (do_GoTestDir opts)))%go.

Definition runningInContainer : Doc bool :=
  (doc* docker := doc_ask (Exists "/.dockerenv") in
   if (docker : bool) then doc_ret true else doc* podman := doc_ask (Exists "/run/.containerenv") in doc_ret (podman : bool))%go.
Definition checkDockerCompose : Doc unit :=
  if binaryDeploy then doc_ret tt
  else
    (doc* contained := runningInContainer in
     if (contained : bool) then
       warn "Docker Compose" "host Docker Compose check skipped inside the worker container" "Run docker compose config --quiet on the host before docker compose run/up."
     else
       doc* (out, err) := run "docker" ["compose"; "version"] in
       match err with
       | Some _ => add fail_if_real "Docker Compose" (trimOutput out err) "Install Docker with Compose v2 before running the Docker first-run path."
       | None =>
           pass "Docker Compose" (TrimSpace out) >>>
           doc* found := doc_ask (Exists "deploy/docker-compose.yml") in
           if (found : bool) then
             doc* (out, err) := run "docker" ["compose"; "-f"; "deploy/docker-compose.yml"; "config"; "--quiet"] in
             match err with
             | Some _ => fail "Compose config" (trimOutput out err) "Fix deploy/docker-compose.yml or its required .env interpolation values."
             | None => pass "Compose config" "deploy/docker-compose.yml renders"
             end
           else doc_ret tt
       end)%go.

(** *** The state API *)

Record dashboardEndpoint := { de_name : string; de_path : string; de_fix : string }.
Definition dashboardEndpoints : list dashboardEndpoint :=
  [{| de_name := "Dashboard /livez"; de_path := "/livez"; de_fix := "Start the worker or fix the dashboard URL/network mapping." |};
   {| de_name := "Dashboard /readyz"; de_path := "/readyz"; de_fix := "Wait for startup readiness or fix the dashboard URL/network mapping." |};
   {| de_name := "Dashboard state API"; de_path := "/api/v1/state"; de_fix := "Set AIOPS_STATE_API_TOKEN or use the loopback-only URL." |}].
Record dashboardHTTPResult := { dr_status : string; dr_statusCode : Z; dr_err : option string; dr_fix : string }.
Definition StatusServiceUnavailable : Z := 503.

Definition fetchDashboardEndpoint (baseURL : string) (endpoint : dashboardEndpoint) : Doc dashboardHTTPResult :=
  let tok := if String.eqb (de_path endpoint) "/api/v1/state" then Getenv "AIOPS_STATE_API_TOKEN" else "" in
  (doc* answer := doc_ask (GetURL (baseURL +:+ de_path endpoint) (if String.eqb tok "" then None else Some ("Bearer " +:+ tok))) in
   doc_ret (match answer with
            | BadURL text => {| dr_status := ""; dr_statusCode := 0; dr_err := Some text; dr_fix := "Pass a valid dashboard base URL." |}
            | GetFailed text => {| dr_status := ""; dr_statusCode := 0; dr_err := Some text; dr_fix := "" |}
            | Got status code => {| dr_status := status; dr_statusCode := code; dr_err := None; dr_fix := "" |}
            end))%go.
(** [ticks] ticks before the context ends, with an error other than its deadline or not. *)
Fixpoint ready_loop (baseURL : string) (endpoint : dashboardEndpoint) (ticks : nat) (cancelled : option string) (last_ : dashboardHTTPResult)
    : Doc dashboardHTTPResult :=
  match ticks with
  | O => doc_ret (match cancelled with
                  | Some text => {| dr_status := ""; dr_statusCode := 0; dr_err := Some text; dr_fix := "" |}
                  | None => last_
                  end)
  | S ticks =>
      (doc* next := fetchDashboardEndpoint baseURL endpoint in
       if negb (dr_statusCode next =? StatusServiceUnavailable) then doc_ret next else ready_loop baseURL endpoint ticks cancelled next)%go
  end.
Definition retryDashboardReady (baseURL : string) (endpoint : dashboardEndpoint) (last_ : dashboardHTTPResult) : Doc dashboardHTTPResult :=
  (doc* (ticks, cancelled) := doc_ask ready_wait in ready_loop baseURL endpoint ticks cancelled last_)%go.
Definition addDashboardResult (endpoint : dashboardEndpoint) (result : dashboardHTTPResult) : Doc unit :=
  match dr_err result with
  | Some err => fail (de_name endpoint) err (if String.eqb (dr_fix result) "" then de_fix endpoint else dr_fix result)
  | None =>
      if (dr_statusCode result <? 200) || (300 <=? dr_statusCode result)
      then fail (de_name endpoint) (dr_status result) (de_fix endpoint)
      else pass (de_name endpoint) (dr_status result)
  end.
Definition checkDashboardEndpoint (baseURL : string) (endpoint : dashboardEndpoint) : Doc unit :=
  (doc* result := fetchDashboardEndpoint baseURL endpoint in
   doc* result := (if String.eqb (de_path endpoint) "/readyz" && (dr_statusCode result =? StatusServiceUnavailable)
                   then retryDashboardReady baseURL endpoint result else doc_ret result) in
   addDashboardResult endpoint result)%go.
Definition checkDashboard : Doc unit :=
  let baseURL := strip_trailing_slashes (TrimSpace (do_DashboardURL opts)) in
  if String.eqb baseURL "" then
    warn "Dashboard endpoints" "not checked; no dashboard URL supplied" "Pass --dashboard-url while the worker is running to verify /livez, /readyz, and /api/v1/state."
  else doc_each (checkDashboardEndpoint baseURL) dashboardEndpoints.

(** *** Codex *)

Definition codexHomeDir : string :=
  let home := TrimSpace (Getenv "CODEX_HOME") in
  if negb (String.eqb home "") then home
  else let home := TrimSpace (Getenv "HOME") in if negb (String.eqb home "") then Join [home; ".codex"] else "".
Definition codexHomeWritable (dir : string) : Doc (option string) :=
  (doc* created := doc_ask (CreateTemp dir ".aiops-doctor-write-*") in
   match created with
   | inl err => doc_ret (Some err)
   | inr name => doc* _ := doc_ask (RemoveTemp name) in doc_ret None
   end)%go.
Definition checkCodexAPIKeyAuth : Doc unit :=
  if negb (blank (Getenv "OPENAI_API_KEY")) then pass "Codex auth mode" "API key via OPENAI_API_KEY passthrough"
  else add fail_if_real "Codex auth mode" "OPENAI_API_KEY is in codex.env_passthrough but resolved empty"
         "Provide the model API key in OPENAI_API_KEY via the worker environment (a Docker secret or systemd EnvironmentFile); never pass it on a command line.".
Definition checkCodexLoginAuth (home : string) : Doc unit :=
  (pass "Codex auth mode" ("ChatGPT/Codex login" +:+ (if String.eqb home "" then "" else " (auth.json under " +:+ home +:+ ")")) >>>
   if negb realMode || String.eqb home "" then doc_ret tt
   else
     doc* failed := codexHomeWritable home in
     match failed with
     | Some err => warn "Codex auth refresh" ("CODEX_HOME is not writable: " +:+ err)
                     "Mount CODEX_HOME as a restricted writable volume so ChatGPT-login token refresh can persist for long-lived workers."
     | None => doc_ret tt
     end)%go.
Definition checkCodexModelConfig (home : string) : Doc unit :=
  if String.eqb home "" then doc_ret tt
  else
    let configPath := Join [home; "config.toml"] in
    (doc* data := doc_ask (ReadText configPath) in
     match readCodexModelConfig data with
     | None => warn "Codex model config" ("no model declared in " +:+ configPath)
                 "Declare model (and optional model_provider/model_reasoning_effort) in a tracked, non-secret config.toml so model selection is auditable instead of relying on a copied host config."
     | Some (model, provider, effort) =>
         pass "Codex model config" ("model=" +:+ model +:+ (if String.eqb provider "" then "" else ", provider=" +:+ provider) +:+
                                    (if String.eqb effort "" then "" else ", reasoning_effort=" +:+ effort))
     end)%go.
Definition checkCodexAuthModel (cfg : Config) : Doc unit :=
  let home := codexHomeDir in
  ((if codexAPIKeyAuthSelected cfg then checkCodexAPIKeyAuth else checkCodexLoginAuth home) >>> checkCodexModelConfig home)%go.

(** The loop over the lines of the app-server. *)
Fixpoint probe_lines (lines : list string) (ended : OutputEnd) : option string :=
  match lines with
  | [] => Some match ended with ScanFailed text => text | Ended stderr => "no JSON-RPC response: " +:+ TrimSpace stderr end
  | line :: lines =>
      match validateAppServerProbeLine unmarshal_probe line with
      | inl err => Some err
      | inr true => None
      | inr false => probe_lines lines ended
      end
  end.
Definition probeCodexAppServer (cfg : Config) : Doc (option string) :=
  match NewCodexAppServerCommand stat look_path (cc_Command (cf_Codex cfg)) environ with
  | inl err => doc_ret (Some (agent_error_text err))
  | inr cmd =>
      (doc* answer := doc_ask (ProbeAppServer (app_argv cmd) environ) in
       doc_ret (match answer with inl err => Some err | inr (lines, ended) => probe_lines lines ended end))%go
  end.
Definition pinned_version : goVersion :=
  default {| gv_major := 0; gv_minor := 0; gv_patch := 0; gv_patchSet := false |} (parseGoVersion CodexProtocolVersion).
Definition check_codex_version : Doc unit :=
  (doc* (out, err) := run "codex" ["--version"] in
   match err with
   | Some _ => fail "Codex version" (trimOutput out err) "Fix the Codex installation before dispatching real agents."
   | None =>
       let installed := TrimSpace out in
       if match codexVersionFromOutput installed with Some got => codexVersionMatches got pinned_version | None => false end
       then pass "Codex version" (installed +:+ " (matches pinned " +:+ CodexProtocolVersion +:+ ")")
       else add fail_if_real "Codex version" (installed +:+ " (pinned schema is " +:+ CodexProtocolVersion +:+ ")")
              ("The vendored app-server schema is generated for codex " +:+ CodexProtocolVersion +:+ " exactly; any other version — older or newer — can add or rename required fields the contract test cannot see. Regenerate via scripts/refresh-codex-schema.sh after a deliberate upgrade, or align the installed codex.")
   end)%go.
Definition check_codex_login : Doc unit :=
  (doc* (out, err) := run "codex" ["login"; "status"] in
   match err with
   | Some _ => fail "Codex auth" (trimOutput out err) "Run codex --login in the same CODEX_HOME/container user context."
   | None => pass "Codex auth" (firstLine out)
   end)%go.
Definition check_app_server (cfg : Config) : Doc unit :=
  if negb (String.eqb (ac_Default (cf_Agent cfg)) NameCodexAppServer) then doc_ret tt
  else
    (doc* failed := probeCodexAppServer cfg in
     match failed with
     | Some err => fail "Codex app-server" err "Check CODEX_HOME, codex.command, and app-server support in the installed Codex version."
     | None => pass "Codex app-server" "started and answered a JSON-RPC probe"
     end >>> checkCodexAuthModel cfg)%go.
Definition checkCodex (cfg : Config) : Doc unit :=
  if negb (requiresCodex cfg) then pass "Codex" "not required for mock runner"
  else if usesDefaultCodexCLI cfg then
    (doc* found := doc_ask (LookPath "codex") in
     if negb (found : bool) then
       fail "Codex CLI" "codex binary not found on PATH" "Install Codex CLI in this host/container or set codex.command to a runnable app-server wrapper."
     else check_codex_version >>> check_codex_login >>> check_app_server cfg)%go
  else
    (warn "Codex CLI" "version/auth checks skipped for custom codex.command" "Ensure the wrapper uses an authenticated Codex context; the app-server probe validates launch." >>>
     check_app_server cfg)%go.

Definition userNamespaceRemediation : string :=
  "codex sandboxes agent shell commands in a bubblewrap (bwrap) user namespace, which this host most commonly blocks because unprivileged user namespaces are restricted (Ubuntu 24.04+: kernel.apparmor_restrict_unprivileged_userns=1) — see the codex error above for the exact failure. Prefer: install an AppArmor profile that permits codex's bwrap user namespaces, or run the worker in a container that allows them, or set codex.thread_sandbox: danger-full-access only in an already-isolated environment. Last resort (weakens host security — re-enables unprivileged user namespaces process-wide): `sudo sysctl -w kernel.apparmor_restrict_unprivileged_userns=0`, persisted via /etc/sysctl.d/99-userns.conf.".
Definition probeCodexSandbox (cfg : Config) : Doc unit :=
  if negb (usesDefaultCodexCLI cfg) then
    warn "Codex sandbox" "custom codex.command: skipped the codex sandbox self-test" "Verify the wrapper sandboxes agent commands, e.g. `codex sandbox -- /bin/true`."
  else
    (doc* (out, err) := run "codex" ["sandbox"; "--"; "/bin/true"] in
     let detail := trimOutput out err in
     match err with
     | None => pass "Codex sandbox" "codex sandbox started a command on this host"
     | Some e =>
         if ce_NotFound e then
           warn "Codex sandbox" "codex not found on PATH; cannot run the codex sandbox self-test" "Install Codex CLI on this host, then rerun worker --doctor --deploy=binary --mode=real."
         else if ce_Ended e then
           warn "Codex sandbox" "codex sandbox self-test timed out before completing; could not determine sandbox health" "Re-run worker --doctor; if it persists, check codex startup time on this host."
         else if codexLacksSandboxSubcommand detail then
           warn "Codex sandbox" ("this codex build does not support `codex sandbox`; cannot self-test the sandbox: " +:+ detail)
             "Upgrade Codex CLI to a build with the `sandbox` subcommand, or verify the sandbox manually: codex sandbox -- /bin/true."
         else fail "Codex sandbox" ("codex sandbox cannot start commands: " +:+ detail) userNamespaceRemediation
     end)%go.
Definition checkSandbox (cfg : Config) : Doc unit :=
  if negb (requiresCodex cfg) then doc_ret tt
  else
    let mode := effectiveSandboxMode cfg in
    (doc* contained := runningInContainer in
     if (contained : bool) && codexUsesUserNamespaceSandbox mode then
       warn "Codex sandbox" "containerized Codex may not support workspace-write namespaces" "Use the documented Docker-isolated profile or enable the required kernel/userns support."
     else if negb (codexUsesUserNamespaceSandbox mode) then
       pass "Codex sandbox" ("effective sandbox (" +:+ mode +:+ ") runs agent commands without a user-namespace sandbox")
     else if negb realMode || negb binaryDeploy || negb linux then pass "Codex sandbox" "selected profile is compatible with this preflight"
     else probeCodexSandbox cfg)%go.

(** *** The tracker *)

Definition maskedProbeError (endpoint : string) (err : ProbeError) : string :=
  "probe " +:+ MaskCloneURL parse_url endpoint +:+ ": " +:+ default (pe_Text err) (pe_Inner err).
(** [linearProfileForConfig], [githubProfileForConfig] and the profile of [NewTrackerClient]:
    the profile of the configuration, its settings parsed anew, or the defaults. *)
Definition linearProfileForConfig (wf : Loaded) : LinearProfile :=
  match ld_Profile wf with
  | Some (IsLinear p) => p
  | _ => match linear_Parse (tk_Provider (cf_Tracker (ld_Config wf))) lookup with
         | inr p => p
         | inl _ => {| lp_Base := {| AdapterKind := ""; ProviderMap := ∅; Secrets := []; SecretEnvs := []; SecretFields := [] |};
                       lp_Endpoint := linear_DefaultEndpoint; lp_APIKey := ""; lp_TeamKey := ""; lp_ProjectSlug := ""; lp_PaginationMaxPages := 200 |}
         end
  end.
Definition bare_profile (url owner repo : string) (pages : Z) : RepoProfile :=
  {| rp_Base := {| AdapterKind := ""; ProviderMap := ∅; Secrets := []; SecretEnvs := []; SecretFields := [] |};
     rp_URL := url; rp_Token := ""; rp_Owner := owner; rp_Repo := repo; rp_PaginationMaxPages := pages; rp_BaseURLConfigured := false |}.
Definition githubProfileForConfig (wf : Loaded) : RepoProfile :=
  let repo := cf_Repo (ld_Config wf) in
  match ld_Profile wf with
  | Some (IsGitHub p) => p
  | _ => match github_Parse (tk_Provider (cf_Tracker (ld_Config wf))) (rc_Owner repo) (rc_Name repo) lookup with
         | inr p => p
         | inl _ => bare_profile "https://api.github.com" (rc_Owner repo) (rc_Name repo) 10
         end
  end.
Definition gitea_profile (wf : Loaded) : RepoProfile :=
  let repo := cf_Repo (ld_Config wf) in
  match ld_Profile wf with
  | Some (IsGitea p) => p
  | _ => match gitea_Parse (tk_Provider (cf_Tracker (ld_Config wf))) (rc_Owner repo) (rc_Name repo) lookup with
         | inr p => p
         | inl _ => bare_profile "http://localhost:3000" (rc_Owner repo) (rc_Name repo) 20
         end
  end.
Definition BaseURLFromTrackerConfig (wf : Loaded) (fallback : string) : string :=
  let lookup' name := if String.eqb name "GITEA_BASE_URL" && negb (blank fallback) then Some fallback else lookup name in
  let url := match ld_Profile wf with
             | Some (IsGitea p) => TrimSpace (rp_URL p)
             | _ => match gitea_Parse (tk_Provider (cf_Tracker (ld_Config wf))) "" "" lookup' with
                    | inr p => TrimSpace (rp_URL p)
                    | inl _ => TrimSpace fallback
                    end
             end in
  strip_trailing_slashes url.
Definition BaseURLFromEnv (wf : Loaded) : string :=
  let fallback := Getenv "GITEA_BASE_URL" in
  BaseURLFromTrackerConfig wf (if String.eqb fallback "" then "http://localhost:3000" else fallback).

Definition checkLinearGraphQL (client : LinearProfile) : Doc (option string) :=
  let projectSlug := TrimSpace (lp_ProjectSlug client) in
  if String.eqb projectSlug "" then doc_ret (Some "linear project slug is required at tracker.provider.project_slug")
  else
    (doc* answer := doc_ask (PostLinear (lp_Endpoint client) (lp_APIKey client) projectSlug) in
     doc_ret (match answer with
              | BadEndpoint e | NoResponse e => Some (maskedProbeError (lp_Endpoint client) e)
              | Response status code body =>
                  if (code <? 200) || (300 <=? code) then Some ("linear returned " +:+ status)
                  else
                    match body with
                    | inl err => Some ("linear returned " +:+ status +:+ " with a body that is not JSON or exceeded maximum size: " +:+ err)
                    | inr out =>
                        match lb_Errors out with
                        | Some errors => Some ("linear GraphQL errors for project_slug " +:+ quote projectSlug +:+ ": " +:+ errors)
                        | None => if (lb_Projects out =? 0)%nat
                                  then Some ("project_slug " +:+ quote projectSlug +:+ " is not visible to the token") else None
                        end
                    end
              end))%go.
Definition checkLinear (wf : Loaded) : Doc unit :=
  let client := linearProfileForConfig wf in
  if blank (lp_APIKey client) then
    fail "Linear API key" "tracker.provider.api_key resolved empty" "Provide LINEAR_API_KEY via the worker environment (a systemd EnvironmentFile, a Docker secret, or a shell export)."
  else if negb realMode then pass "Linear API key" "present; live auth skipped in mock mode"
  else
    (doc* failed := checkLinearGraphQL client in
     match failed with
     | Some err => fail "Linear auth" err "Verify the token, tracker.provider.project_slug, and Authorization header style."
     | None => pass "Linear auth" "API key authenticated and configured projects are visible"
     end)%go.
Definition trackerPreflightStages (token owner repo keyCheckName keyFix authCheckName : string) : Doc bool :=
  (if blank token then fail keyCheckName "tracker provider token resolved empty" keyFix >>> doc_ret false
   else if negb realMode then pass keyCheckName "present; live auth skipped in mock mode" >>> doc_ret false
   else if blank owner || blank repo then
     fail authCheckName "tracker provider repository scope is required for the visibility probe" "Set tracker.provider.repo or repo.owner and repo.name to the repository the worker polls." >>> doc_ret false
   else doc_ret true)%go.
Definition reportTrackerListing (authCheckName base baseHint repoFullName : string) (err : option ProbeError) : Doc unit :=
  match err with
  | Some err => fail authCheckName (maskedProbeError base err)
                  ("Verify the tracker provider token, the tracker base URL (" +:+ baseHint +:+ "), and that the token can run the worker's issue listing for " +:+ repoFullName +:+ ".")
  | None => pass authCheckName ("the worker's own issue listing for " +:+ repoFullName +:+ " succeeded against " +:+ MaskCloneURL parse_url base)
  end.
Definition checkGiteaTracker (wf : Loaded) : Doc unit :=
  let base := BaseURLFromEnv wf in
  let client := gitea_profile wf in
  (doc* go_on := trackerPreflightStages (rp_Token client) (rp_Owner client) (rp_Repo client) "Gitea API key"
      "Set tracker.provider.token: $GITEA_TOKEN in WORKFLOW.md and provide GITEA_TOKEN via the worker environment." "Gitea auth" in
   if negb (go_on : bool) then doc_ret tt
   else
     doc* err := doc_ask (ListActive (IsGitea client)) in
     reportTrackerListing "Gitea auth" base "tracker.provider.base_url or GITEA_BASE_URL" (rp_Owner client +:+ "/" +:+ rp_Repo client) err)%go.
Definition checkGitHubTracker (wf : Loaded) : Doc unit :=
  let client := githubProfileForConfig wf in
  (doc* go_on := trackerPreflightStages (rp_Token client) (rp_Owner client) (rp_Repo client) "GitHub tracker API key"
      "Set tracker.provider.token: $GITHUB_TOKEN in WORKFLOW.md and provide GITHUB_TOKEN via the worker environment." "GitHub tracker auth" in
   if negb (go_on : bool) then doc_ret tt
   else
     doc* err := doc_ask (ListActive (IsGitHub client)) in
     reportTrackerListing "GitHub tracker auth" (strip_trailing_slashes (rp_URL client)) "tracker.provider.api_url or GITHUB_API_BASE_URL"
       (rp_Owner client +:+ "/" +:+ rp_Repo client) err)%go.
Definition checkTracker (wf : Loaded) : Doc unit :=
  let kind := tk_Kind (cf_Tracker (ld_Config wf)) in
  if String.eqb kind "linear" then checkLinear wf
  else if String.eqb kind "gitea" then checkGiteaTracker wf
  else if String.eqb kind "github" then checkGitHubTracker wf
  else warn "Tracker" ("tracker.kind " +:+ quote kind +:+ " has no doctor preflight") "Set tracker.kind to gitea, github, or linear in WORKFLOW.md.".

(** *** The agent's access to GitHub *)

Definition AgentEnvForPreflight (agent : string) (cfg : Config) : list string :=
  if String.eqb agent NameCodexAppServer then codexAppServerEnvWithLookup (cc_EnvPassthrough (cf_Codex cfg)) (policy_config cfg) lookup login_path
  else if String.eqb agent "claude" then agentEnvWithLookup (cc_EnvPassthrough (cf_Claude cfg)) (policy_config cfg) lookup login_path
  else agentEnvWithLookup [] (policy_config cfg) lookup login_path.

Fixpoint git_steps (env : list string) (dir : string) (steps : list (list string)) : Doc (string + string) :=
  match steps with
  | [] => doc_ret (inr dir)
  | args :: steps =>
      (doc* (out, err) := runEnv "git" args env in
       match err with
       | Some e => doc* _ := doc_ask (RemoveDir dir) in
                   doc_ret (inl (safeCommandFailure ("git " +:+ str_join " " args) (ce_Text e)))
       | None => git_steps env dir steps
       end)%go
  end.
Definition prepareGitPushProbe (env : list string) : Doc (string + string) :=
  (doc* made := doc_ask (MkdirTemp "aiops-doctor-git-*") in
   match made with
   | inl err => doc_ret (inl err)
   | inr dir =>
       git_steps env dir
         [["-C"; dir; "init"; "-q"]; ["-C"; dir; "config"; "user.email"; "aiops-doctor@example.invalid"];
          ["-C"; dir; "config"; "user.name"; "aiops doctor"]; ["-C"; dir; "commit"; "--allow-empty"; "-m"; "aiops doctor preflight"; "-q"]]
   end)%go.
Definition check_git_push (env : list string) (repo : githubRepo) : Doc unit :=
  (doc* prepared := prepareGitPushProbe env in
   match prepared with
   | inl err => fail "GitHub agent git push" err "Create a writable temporary directory for the doctor git probe."
   | inr probeDir =>
       doc* (out, err) := runEnv "git" ["-C"; probeDir; "push"; "--dry-run"; gr_CloneURL repo; "HEAD:refs/heads/aiops-doctor-preflight"] env in
       match err with
       | Some e => fail "GitHub agent git push" (safeCommandFailure "git push --dry-run" (ce_Text e))
                     "Configure deploy-key or gh git credential-helper access for the aiops user, then rerun worker --doctor --mode=real --github-issue."
       | None => pass "GitHub agent git push" "agent env passed git push --dry-run"
       end >>> doc* _ := doc_ask (RemoveDir probeDir) in doc_ret tt
   end)%go.
Definition checkGitHubAgent (cfg : Config) : Doc unit :=
  if do_GitHubIssue opts =? 0 then doc_ret tt
  else if negb (requiresCodex cfg) then
    warn "GitHub agent credentials" "not checked because the selected agent is not Codex" "Use --github-issue only with a Codex workflow that expects agent-side GitHub access."
  else
    match selectGitHubRepo parse_url url_parts cfg (do_GitHubRepo opts) with
    | inl err => fail "GitHub agent credentials" err "Set repo.owner, repo.name, and repo.clone_url, or pass --github-repo owner/name (or the exact clone_url) for the GitHub repository the agent will access."
    | inr repo =>
        let env := AgentEnvForPreflight (ac_Default (cf_Agent cfg)) cfg in
        (doc* (out, err) := runEnv "gh" ["issue"; "view"; fmt_d (do_GitHubIssue opts); "--repo"; fullName repo; "--json"; "number,title,url"] env in
         match err with
         | Some e => fail "GitHub agent gh auth" (safeCommandFailure "gh issue view" (ce_Text e))
                       "Create file-backed gh auth for the aiops user; do not rely on GH_TOKEN/GITHUB_TOKEN in the worker environment."
         | None =>
             pass "GitHub agent gh auth" ("agent env can read " +:+ fullName repo +:+ "#" +:+ fmt_d (do_GitHubIssue opts)) >>>
             check_git_push env repo
         end)%go
    end.

(** *** The report *)

Definition BuildReport : Asking DoctorAns Report :=
  ask_bind
    (doc* (wf, path) := checkWorkflow in
     checkHostBinaries wf >>> checkProjectToolchain >>> checkDockerCompose >>>
     match wf with
     | Some wf => let cfg := ld_Config wf in checkTracker wf >>> checkCodex cfg >>> checkGitHubAgent cfg >>> checkSandbox cfg
     | None => doc_ret tt
     end >>>
     checkDashboard >>>
     match wf with
     | Some _ => if String.eqb path "" then doc_ret tt else pass "Workflow path" path
     | None => doc_ret tt
     end)%go
    (λ r, Ret {| Checks := r.1 |}).
(** What is written, and the exit code. *)
Definition Run_doctor : Asking DoctorAns (string * Z) :=
  ask_bind BuildReport (λ report, Ret (writeTextReport report, if HasFailures report then 1 else 0)).
End Checks.

(** * What a part of the doctor keeps *)

(** [kept G srv log p P]: every question of [p] is allowed by [G], the checks it makes
    satisfy [C], and its result and log satisfy [P]. *)
Section Kept.
Context (C : Check → Prop) (G : Allowed DoctorAns) (srv : Server DoctorAns).
Definition kept {A} (log : list (Exchange DoctorAns)) (p : Doc A) (P : list (Exchange DoctorAns) → A → Prop) : Prop :=
  holds G srv log p (λ log' r, Forall C r.1 ∧ P log' r.2).
Lemma kept_ret {A} log (a : A) (P : _ → _ → Prop) : P log a → kept log (doc_ret a) P.
Proof. by split. Qed.
Lemma kept_bind {A B} log (p : Doc A) (f : A → Doc B) P :
  kept log p (λ log' a, log `prefix_of` log' → kept log' (f a) P) → kept log (doc_bind p f) P.
Proof.
  intros H. apply holds_bind. eapply holds_mono; [by apply holds_grows, H|]. intros log' [c a] [[Hc Hf] Hp]. apply holds_bind.
  eapply holds_mono; [by apply Hf|]. intros log'' [c' b] [Hc' HP]. split; [|done]. by apply Forall_app.
Qed.
Lemma kept_ask log q P : G log q → (∀ a, P (log ++ [Ex q a]) a) → kept log (doc_ask q) P.
Proof. intros HG HP. split; [done|]. by split. Qed.
Lemma kept_mono {A} log (p : Doc A) (P P' : list (Exchange DoctorAns) → A → Prop) :
  kept log p P → (∀ log' a, log `prefix_of` log' → P log' a → P' log' a) → kept log p P'.
Proof. intros H HP. eapply holds_mono; [apply holds_grows, H|]. intros log' r [[? ?] ?]. split; [done|]. by apply HP. Qed.
Lemma kept_each {A} log (f : A → Doc unit) l P :
  (∀ log' a, log `prefix_of` log' → a ∈ l → kept log' (f a) (λ _ _, True)) → (∀ log', log `prefix_of` log' → P log' tt) → kept log (doc_each f l) P.
Proof.
  intros Hf HP. revert log Hf HP. induction l as [|a l IH]; intros log Hf HP; cbn [doc_each]; [by apply kept_ret, HP|].
  apply kept_bind. eapply kept_mono; [apply Hf; [done|by left]|]. intros log' [] Hl _ _. apply IH.
  - intros log'' b Hl' Hb. apply Hf; [by etrans|by right].
  - intros log'' Hl'. apply HP. by etrans.
Qed.
End Kept.

(** ** What the doctor may ask *)

Section Bounds.
Context (lookup : lookup_env) (environ : list string) (parse_url : string → option ParsedURL) (url_parts : string → option (string * string)).
Context (stat : string → option (bool * Z)) (look_path : string → string + string) (login_path : option (unit → string)).
Context (unmarshal_probe : string → option (string * string * string)) (linux : bool) (opts : DoctorOptions).

Definition answered (log : list (Exchange DoctorAns)) (q : DoctorCall) (a : DoctorAns q) : Prop := Ex (An := DoctorAns) q a ∈ log.
Definition was_loaded (log : list (Exchange DoctorAns)) (wf : Loaded) : Prop := ∃ path, answered log (LoadWorkflow path) (inr wf).
Definition client_ready (client : Profile) : Prop :=
  match client with
  | IsLinear _ => False
  | IsGitea p | IsGitHub p => blank (rp_Token p) = false ∧ blank (rp_Owner p) = false ∧ blank (rp_Repo p) = false
  end.
(** Nothing is sent to a tracker but in real mode and with the credentials and the scope
    the worker would use.  Commands in the environment of the worker are the Go tools (in
    real mode, for an image), docker (for an image) and codex (for a Codex workflow);
    commands for a GitHub issue run in the environment of the agent.  Only files and
    directories the doctor made are written or removed.  The token of the state API is
    sent to the state API alone. *)
Definition doctor_may (log : list (Exchange DoctorAns)) (q : DoctorCall) : Prop :=
  match q with
  | PostLinear endpoint apiKey slug =>
      realMode opts = true ∧ blank apiKey = false ∧ slug ≠ "" ∧
      ∃ wf, was_loaded log wf ∧ endpoint = lp_Endpoint (linearProfileForConfig lookup wf) ∧ apiKey = lp_APIKey (linearProfileForConfig lookup wf)
  | ListActive client => realMode opts = true ∧ client_ready client
  | Command timeout name args None =>
      (timeout ≤ goTestProbeTimeout) ∧
      (realMode opts = true ∧ binaryDeploy opts = false ∨ name = "docker" ∧ binaryDeploy opts = false ∨
       name = "codex" ∧ ∃ wf, was_loaded log wf ∧ requiresCodex (ld_Config wf) = true)
  | Command timeout name args (Some env) =>
      (name = "gh" ∨ name = "git") ∧ do_GitHubIssue opts ≠ 0 ∧
      ∃ wf, was_loaded log wf ∧ requiresCodex (ld_Config wf) = true ∧
            env = codexAppServerEnvWithLookup (cc_EnvPassthrough (cf_Codex (ld_Config wf))) (policy_config (ld_Config wf)) lookup login_path
  | CreateTemp dir _ => realMode opts = true ∧ (dir = "" ∨ dir = codexHomeDir lookup)
  | WriteTemp name _ | RemoveTemp name => ∃ dir pattern, answered log (CreateTemp dir pattern) (inr name)
  | MkdirTemp _ => do_GitHubIssue opts ≠ 0
  | RemoveDir dir => ∃ pattern, answered log (MkdirTemp pattern) (inr dir)
  | GetURL url auth =>
      let base := strip_trailing_slashes (TrimSpace (do_DashboardURL opts)) in
      base ≠ "" ∧ HasPrefix url base = true ∧
      ∀ token, auth = Some token → url = base +:+ "/api/v1/state" ∧ token = "Bearer " +:+ Getenv lookup "AIOPS_STATE_API_TOKEN"
  | ProbeAppServer argv env =>
      env = environ ∧ ∃ wf direct, was_loaded log wf ∧ requiresCodex (ld_Config wf) = true ∧
        NewCodexAppServerCommand stat look_path (cc_Command (cf_Codex (ld_Config wf))) environ = inr {| app_argv := argv; app_direct := direct |}
  | _ => True
  end.

(** A check is made of redacted texts. *)
Definition redacted (c : Check) : Prop := (∃ d, Detail c = redact lookup d) ∧ (∃ f, Fix c = redact lookup f).
Context (srv : Server DoctorAns).
Notation kept_here := (kept redacted doctor_may srv).

Lemma kept_add log status name detail fix_ P : P log tt → kept_here log (add lookup status name detail fix_) P.
Proof. intros HP. split; [|done]. constructor; [|constructor]. split; by eexists. Qed.
Lemma kept_use {A B} log (p : Doc A) (f : A → Doc B) Q P :
  kept_here log p Q → (∀ log' a, log `prefix_of` log' → Q log' a → kept_here log' (f a) P) → kept_here log (doc_bind p f) P.
Proof. intros Hp Hf. apply kept_bind. eapply kept_mono; [exact Hp|]. intros log' a Hl HQ _. by apply Hf. Qed.
Lemma answered_last log q a : answered (log ++ [Ex (An := DoctorAns) q a]) q a.
Proof. apply elem_of_app. right. by left. Qed.
Lemma answered_app log l q a : answered log q a → answered (log ++ l) q a.
Proof. intros H. apply elem_of_app. by left. Qed.
Lemma answered_grows log log' q a : log `prefix_of` log' → answered log q a → answered log' q a.
Proof. intros [l ->]. apply answered_app. Qed.
Lemma loaded_app log l wf : was_loaded log wf → was_loaded (log ++ l) wf.
Proof. intros [path H]. exists path. by apply answered_app. Qed.
Lemma loaded_grows log log' wf : log `prefix_of` log' → was_loaded log wf → was_loaded log' wf.
Proof. intros [l ->]. apply loaded_app. Qed.
Create HintDb doctor.
#[local] Hint Resolve answered_last answered_app loaded_app : doctor.
#[local] Hint Extern 3 (was_loaded _ _) => eapply loaded_grows; [eassumption|] : doctor.
#[local] Hint Extern 3 (answered _ _ _) => eapply answered_grows; [eassumption|] : doctor.
#[local] Hint Extern 1 (doctor_may _ (LookPath _)) => exact I : doctor.

(** One step of a part: a return, a check, a question, or the case the code distinguishes. *)
Ltac doc_step :=
  lazymatch goal with
  | |- kept _ _ _ _ (doc_ret _) _ => apply kept_ret
  | |- kept _ _ _ _ (doc_bind _ _) _ => apply kept_bind
  | |- kept _ _ _ _ (doc_ask _) _ => apply kept_ask; [try exact I|intros ?]
  | |- kept _ _ _ _ (pass _ _ _) _ => apply kept_add
  | |- kept _ _ _ _ (warn _ _ _ _) _ => apply kept_add
  | |- kept _ _ _ _ (fail _ _ _ _) _ => apply kept_add
  | |- kept _ _ _ _ (add _ _ _ _ _) _ => apply kept_add
  | |- kept _ _ _ _ (if ?b then _ else _) _ => let E := fresh "E" in destruct b eqn:E
  | |- kept _ _ _ _ (match ?b with _ => _ end) _ => let E := fresh "E" in destruct b eqn:E
  | |- _ `prefix_of` _ → _ => intros ?
  | |- True => exact I
  end.
Ltac doc_steps := repeat doc_step.
Notation quiet p := (∀ log, kept_here log p (λ _ _, True)).

Lemma requiredBinary_kept name : quiet (requiredBinary lookup opts name).
Proof. intros log. unfold requiredBinary. doc_steps. Qed.
Lemma checkHostBinaries_kept wf : quiet (checkHostBinaries lookup url_parts opts wf).
Proof.
  intros log. unfold checkHostBinaries. eapply kept_use; [apply requiredBinary_kept|]. intros log' [] _ _.
  eapply (kept_use _ _ _ (λ _ _, True)).
  - destruct (match wf with Some _ => _ | None => _ end); [apply requiredBinary_kept|doc_steps].
  - intros. doc_steps.
Qed.

(** *** The host *)

Section Toolchain.
Context (Hreal : realMode opts = true) (Himage : binaryDeploy opts = false).
Lemma command_ok log timeout name args : timeout ≤ goTestProbeTimeout → doctor_may log (Command timeout name args None).
Proof. split; [done|by left]. Qed.
Lemma default_timeout : defaultCommandTimeout ≤ goTestProbeTimeout.
Proof. done. Qed.
#[local] Hint Resolve command_ok default_timeout : doctor.
Lemma check_go_version_kept v : quiet (check_go_version lookup opts v).
Proof. intros log. unfold check_go_version, run, runWithTimeout. doc_steps; auto with doctor. Qed.
Lemma writeGofmtProbe_kept log :
  kept_here log writeGofmtProbe (λ log' r, match r with inl _ => True | inr name => ∃ dir pattern, answered log' (CreateTemp dir pattern) (inr name) end).
Proof.
  unfold writeGofmtProbe. do 2 doc_step; [by split; auto|]. intros _. destruct a as [err|name]; [by apply kept_ret|].
  set (log1 := log ++ _). assert (answered log1 (CreateTemp "" "aiops-doctor-gofmt-*.go") (inr name)) as Hn by apply answered_last.
  clearbody log1. do 2 doc_step; [by do 2 eexists|]. intros _. destruct a as [err|]; doc_steps; do 2 eexists; by apply answered_app.
Qed.
Lemma gofmtPath_kept : quiet gofmtPath.
Proof. intros log. unfold gofmtPath, run, runWithTimeout. doc_steps; auto with doctor. Qed.
Lemma check_gofmt_kept : quiet (check_gofmt lookup opts).
Proof.
  intros log. unfold check_gofmt. eapply kept_use; [apply writeGofmtProbe_kept|]. intros log1 [err|probe] _ Hp; [doc_steps|].
  eapply kept_use; [apply gofmtPath_kept|]. intros log2 path H2 _. destruct Hp as (dir & pattern & Hp).
  eapply (kept_use _ _ _ (λ _ _, True)).
  - unfold run, runWithTimeout. doc_steps. auto with doctor.
  - intros log3 [] H3 _. doc_steps. exists dir, pattern. eauto with doctor.
Qed.
Lemma check_go_test_kept modulePath version root : quiet (check_go_test lookup modulePath version root).
Proof. intros log. unfold check_go_test, runWithTimeout. doc_steps; auto with doctor. by apply command_ok. Qed.
End Toolchain.
Lemma checkProjectToolchain_kept : quiet (checkProjectToolchain lookup opts).
Proof.
  intros log. unfold checkProjectToolchain. destruct (realMode opts) eqn:Hr, (binaryDeploy opts) eqn:Hb; cbn [negb orb]; try (by doc_steps).
  eapply (kept_use _ _ _ (λ _ _, True)); [unfold goModule; by doc_steps|]. intros log1 [m v] _ _.
  eapply kept_use; [by apply check_go_version_kept|]. intros log2 [] _ _.
  eapply kept_use; [by apply check_gofmt_kept|]. intros log3 [] _ _. by apply check_go_test_kept.
Qed.
Lemma runningInContainer_kept : quiet runningInContainer.
Proof. intros log. unfold runningInContainer. doc_steps. Qed.
Lemma checkDockerCompose_kept : quiet (checkDockerCompose lookup opts).
Proof.
  intros log. unfold checkDockerCompose, run, runWithTimeout. destruct (binaryDeploy opts) eqn:Hb; [doc_steps|].
  eapply kept_use; [apply runningInContainer_kept|]. intros log1 contained _ _.
  assert (∀ log args, doctor_may log (Command defaultCommandTimeout "docker" args None)) as Hd by (split; [done|right; left; auto]).
  doc_steps; auto.
Qed.

(** *** The state API *)

Section Dashboard.
Let base := strip_trailing_slashes (TrimSpace (do_DashboardURL opts)).
Context (Hbase : base ≠ "").
Lemma fetch_kept endpoint : quiet (fetchDashboardEndpoint lookup base endpoint).
Proof.
  intros log. unfold fetchDashboardEndpoint. cbv zeta. doc_steps. cbn [doctor_may]. fold base. split; [done|]. split; [apply HasPrefix_app|].
  destruct (String.eqb_spec (de_path endpoint) "/api/v1/state") as [->|_]; [|done].
  destruct (String.eqb _ ""); [done|]. by intros token [= <-].
Qed.
Lemma ready_loop_kept endpoint ticks cancelled r : quiet (ready_loop lookup base endpoint ticks cancelled r).
Proof.
  revert r. induction ticks as [|ticks IH]; intros r log; cbn [ready_loop]; [by doc_steps|].
  eapply kept_use; [apply fetch_kept|]. intros log1 next _ _. destruct (negb _); [doc_steps|apply IH].
Qed.
Lemma checkDashboardEndpoint_kept endpoint : quiet (checkDashboardEndpoint lookup base endpoint).
Proof.
  intros log. unfold checkDashboardEndpoint. eapply kept_use; [apply fetch_kept|]. intros log1 r _ _.
  eapply (kept_use _ _ _ (λ _ _, True)).
  - destruct (_ && _); [|doc_steps]. unfold retryDashboardReady. doc_step. apply kept_ask; [exact I|]. intros [ticks cancelled] _. apply ready_loop_kept.
  - intros log2 r2 _ _. unfold addDashboardResult. doc_steps.
Qed.
End Dashboard.
Lemma checkDashboard_kept : quiet (checkDashboard lookup opts).
Proof.
  intros log. unfold checkDashboard. destruct (String.eqb_spec (strip_trailing_slashes (TrimSpace (do_DashboardURL opts))) ""); [doc_steps|].
  apply kept_each; [|done]. intros. by apply checkDashboardEndpoint_kept.
Qed.

(** *** Codex *)

Notation quiet_with wf p := (∀ log, was_loaded log wf → kept_here log p (λ _ _, True)).
Section Codex.
Context (wf : Loaded) (Hcodex : requiresCodex (ld_Config wf) = true).
Lemma codex_command_ok log args : was_loaded log wf → doctor_may log (Command defaultCommandTimeout "codex" args None).
Proof. intros Hl. split; [done|]. right; right. split; [done|]. by exists wf. Qed.
#[local] Hint Resolve codex_command_ok : doctor.
Lemma codexHomeWritable_kept : realMode opts = true → quiet (codexHomeWritable (codexHomeDir lookup)).
Proof.
  intros Hr log. unfold codexHomeWritable. do 2 doc_step; [by split; auto|]. intros _. destruct a as [err|name]; doc_steps.
  do 2 eexists. apply answered_last.
Qed.
Lemma checkCodexAuthModel_kept cfg : quiet (checkCodexAuthModel lookup opts cfg).
Proof.
  intros log. unfold checkCodexAuthModel. cbv zeta. eapply (kept_use _ _ _ (λ _ _, True)).
  - destruct (codexAPIKeyAuthSelected cfg); [unfold checkCodexAPIKeyAuth; doc_steps|]. unfold checkCodexLoginAuth. do 2 doc_step. intros _.
    destruct (realMode opts) eqn:Hr; cbn [negb orb]; [|doc_steps]. doc_step; [doc_steps|].
    eapply kept_use; [by apply codexHomeWritable_kept|]. intros log' [err|] _ _; doc_steps.
  - intros log' [] _ _. unfold checkCodexModelConfig. cbv zeta. doc_steps.
Qed.
Lemma probeCodexAppServer_kept : quiet_with wf (probeCodexAppServer environ stat look_path unmarshal_probe (ld_Config wf)).
Proof.
  intros log Hl. unfold probeCodexAppServer. destruct (NewCodexAppServerCommand _ _ _ _) as [err|[argv direct]] eqn:E; doc_steps.
  split; [done|]. by exists wf, direct.
Qed.
Lemma check_app_server_kept : quiet_with wf (check_app_server lookup environ stat look_path unmarshal_probe opts (ld_Config wf)).
Proof.
  intros log Hl. unfold check_app_server. doc_step; [doc_steps|]. eapply kept_use; [by apply probeCodexAppServer_kept|]. intros log' failed _ _.
  eapply (kept_use _ _ _ (λ _ _, True)); [doc_steps|]. intros. apply checkCodexAuthModel_kept.
Qed.
Lemma check_codex_version_kept : quiet_with wf (check_codex_version lookup opts).
Proof. intros log Hl. unfold check_codex_version, run, runWithTimeout. doc_steps. auto with doctor. Qed.
Lemma check_codex_login_kept : quiet_with wf (check_codex_login lookup).
Proof. intros log Hl. unfold check_codex_login, run, runWithTimeout. doc_steps. auto with doctor. Qed.
Lemma probeCodexSandbox_kept : quiet_with wf (probeCodexSandbox lookup (ld_Config wf)).
Proof. intros log Hl. unfold probeCodexSandbox, run, runWithTimeout. cbv zeta. doc_steps. auto with doctor. Qed.
End Codex.
Lemma checkCodex_kept wf : quiet_with wf (checkCodex lookup environ stat look_path unmarshal_probe opts (ld_Config wf)).
Proof.
  intros log Hl. unfold checkCodex. destruct (requiresCodex (ld_Config wf)) eqn:Hc; cbn [negb]; [|doc_steps].
  destruct (usesDefaultCodexCLI (ld_Config wf)).
  - do 2 doc_step. intros _. destruct a; cbn [negb]; [|doc_steps].
    eapply kept_use; [apply (check_codex_version_kept wf); auto with doctor|]. intros log1 [] H1 _.
    eapply kept_use; [apply (check_codex_login_kept wf); eauto with doctor|]. intros log2 [] H2 _.
    apply check_app_server_kept; [done|]. eapply loaded_grows; [exact H2|]. eapply loaded_grows; [exact H1|]. by apply loaded_app.
  - do 2 doc_step. intros _. by apply check_app_server_kept.
Qed.
Lemma checkSandbox_kept wf : quiet_with wf (checkSandbox lookup linux opts (ld_Config wf)).
Proof.
  intros log Hl. unfold checkSandbox. destruct (requiresCodex (ld_Config wf)) eqn:Hc; cbn [negb]; [|doc_steps]. cbv zeta.
  eapply kept_use; [apply runningInContainer_kept|]. intros log1 contained H1 _.
  doc_step; [doc_steps|]. doc_step; [doc_steps|]. doc_step; [doc_steps|]. apply probeCodexSandbox_kept; [done|]. by eapply loaded_grows.
Qed.

(** *** The tracker *)

Lemma checkLinear_kept wf : quiet_with wf (checkLinear lookup parse_url opts wf).
Proof.
  intros log Hl. unfold checkLinear. cbv zeta. destruct (blank (lp_APIKey _)) eqn:Hk; [doc_steps|].
  destruct (realMode opts) eqn:Hr; cbn [negb]; [|doc_steps].
  eapply (kept_use _ _ _ (λ _ _, True)); [|intros; doc_steps]. unfold checkLinearGraphQL. cbv zeta.
  destruct (String.eqb_spec (TrimSpace (lp_ProjectSlug (linearProfileForConfig lookup wf))) "") as [|Hs]; [doc_steps|].
  doc_steps. split; [done|]. split; [done|]. split; [done|]. by exists wf.
Qed.
Lemma stages_kept token owner repo n1 f1 n2 :
  ∀ log, kept_here log (trackerPreflightStages lookup opts token owner repo n1 f1 n2)
    (λ _ go_on, go_on = true → realMode opts = true ∧ blank token = false ∧ blank owner = false ∧ blank repo = false).
Proof.
  intros log. unfold trackerPreflightStages. destruct (blank token); [by doc_steps|]. destruct (realMode opts); [|by doc_steps].
  destruct (blank owner), (blank repo); by doc_steps.
Qed.
Lemma checkTracker_kept wf : quiet_with wf (checkTracker lookup parse_url opts wf).
Proof.
  intros log Hl. unfold checkTracker. cbv zeta. destruct (String.eqb _ "linear"); [by apply checkLinear_kept|].
  assert (∀ name base hint full err log, kept_here log (reportTrackerListing lookup parse_url name base hint full err) (λ _ _, True)) as Hrep
    by (intros; unfold reportTrackerListing; doc_steps).
  destruct (String.eqb _ "gitea"); [|destruct (String.eqb _ "github"); [|doc_steps]];
    [unfold checkGiteaTracker|unfold checkGitHubTracker]; cbv zeta; (eapply kept_use; [apply stages_kept|]); intros log1 [] _ Hok; cbn [negb];
    try doc_steps; apply Hrep || (destruct (Hok eq_refl); split; done).
Qed.

(** *** The agent's access to GitHub *)

Section Agent.
Context (wf : Loaded) (Hcodex : requiresCodex (ld_Config wf) = true) (Hissue : do_GitHubIssue opts ≠ 0).
Let env := AgentEnvForPreflight lookup login_path (ac_Default (cf_Agent (ld_Config wf))) (ld_Config wf).
Lemma agent_command_ok log timeout name args :
  name = "gh" ∨ name = "git" → was_loaded log wf → doctor_may log (Command timeout name args (Some env)).
Proof.
  intros Hn Hl. split; [done|]. split; [done|]. exists wf. split; [done|]. split; [done|]. subst env. unfold AgentEnvForPreflight.
  apply String.eqb_eq in Hcodex. by rewrite Hcodex, String.eqb_refl.
Qed.
Lemma git_steps_kept dir steps log pattern :
  was_loaded log wf → answered log (MkdirTemp pattern) (inr dir) →
  kept_here log (git_steps env dir steps) (λ _ r, match r with inl _ => True | inr d => d = dir end).
Proof.
  revert log. induction steps as [|args steps IH]; intros log Hl Hd; cbn [git_steps]; [by apply kept_ret|]. unfold runEnv.
  doc_step. apply kept_ask; [by apply agent_command_ok; [right|]|]. intros [out [e|]] _.
  - do 2 doc_step; [exists pattern; by apply answered_app|]. intros _. by apply kept_ret.
  - apply IH; [by apply loaded_app|by apply answered_app].
Qed.
Lemma check_git_push_kept repo : quiet_with wf (check_git_push lookup env repo).
Proof.
  intros log Hl. unfold check_git_push.
  eapply (kept_use _ _ _ (λ log' r, match r with inl _ => True | inr d => ∃ pattern, answered log' (MkdirTemp pattern) (inr d) end)).
  - unfold prepareGitPushProbe. do 2 doc_step; [done|]. intros _. destruct a as [err|dir]; [by apply kept_ret|].
    set (log1 := log ++ _). assert (answered log1 (MkdirTemp "aiops-doctor-git-*") (inr dir)) as Hd by apply answered_last.
    assert (was_loaded log1 wf) as Hl1 by by apply loaded_app. clearbody log1.
    eapply kept_mono; [by eapply git_steps_kept|]. intros log2 [err|d] H2; [done|]. intros ->. eexists. by eapply answered_grows.
  - intros log1 [err|dir] H1; [intros _; doc_steps|]. intros [pattern Hd]. unfold runEnv. doc_step.
    apply kept_ask; [apply agent_command_ok; [by right|by eapply loaded_grows]|]. intros [out err] _.
    eapply (kept_use _ _ _ (λ _ _, True)); [doc_steps|]. intros log3 [] H3 _. doc_steps. exists pattern.
    eapply answered_grows; [exact H3|]. by apply answered_app.
Qed.
End Agent.
Lemma checkGitHubAgent_kept wf : quiet_with wf (checkGitHubAgent lookup parse_url url_parts login_path opts (ld_Config wf)).
Proof.
  intros log Hl. unfold checkGitHubAgent. destruct (Z.eqb_spec (do_GitHubIssue opts) 0) as [|Hi]; [doc_steps|].
  destruct (requiresCodex (ld_Config wf)) eqn:Hc; cbn [negb]; [|doc_steps]. destruct (selectGitHubRepo _ _ _ _) as [err|repo]; [doc_steps|].
  cbv zeta. unfold runEnv. doc_step. apply kept_ask; [by apply agent_command_ok; [..|left|]|]. intros [out [e|]] _; [doc_steps|].
  do 2 doc_step. intros _. apply check_git_push_kept; [done..|]. by apply loaded_app.
Qed.

(** *** The report *)

Notation report := (BuildReport lookup environ parse_url url_parts stat look_path login_path unmarshal_probe linux opts).
Notation doctor := (Run_doctor lookup environ parse_url url_parts stat look_path login_path unmarshal_probe linux opts).
Lemma checkWorkflow_kept log :
  kept_here log (checkWorkflow lookup opts) (λ log' r, match r.1 with Some wf => was_loaded log' wf | None => True end).
Proof.
  unfold checkWorkflow. cbv zeta. eapply (kept_use _ _ _ (λ _ _, True)); [by doc_steps|]. intros log1 path _ _.
  doc_step; [by doc_steps|]. do 2 doc_step. intros _. destruct a as [err|wf]; [by doc_steps|].
  assert (was_loaded (log1 ++ [Ex (An := DoctorAns) (LoadWorkflow path) (inr wf)]) wf) as Hl by (exists path; apply answered_last).
  eapply (kept_use _ _ _ (λ _ _, True)); [by doc_steps|]. intros log2 [] H2 _. apply kept_ret. by eapply loaded_grows.
Qed.
Lemma report_kept : holds doctor_may srv [] report (λ _ r, Forall redacted (Checks r)).
Proof.
  unfold BuildReport. apply holds_bind.
  assert (∀ A log (p : Doc A), kept_here log p (λ _ _, True) → holds doctor_may srv log p (λ log' r, holds doctor_may srv log' (Ret (An := DoctorAns) {| Checks := r.1 |}) (λ _ r, Forall redacted (Checks r)))) as Hend.
  { intros A log p H. eapply holds_mono; [exact H|]. intros log' r [? _]. done. }
  apply Hend. eapply kept_use; [apply checkWorkflow_kept|]. intros log1 [wf path] _ Hl. cbn [fst] in Hl.
  eapply kept_use; [apply checkHostBinaries_kept|]. intros log2 [] H2 _.
  eapply kept_use; [apply checkProjectToolchain_kept|]. intros log3 [] H3 _.
  eapply kept_use; [apply checkDockerCompose_kept|]. intros log4 [] H4 _.
  assert (log1 `prefix_of` log4) as H14 by (etrans; [exact H2|by etrans]).
  eapply (kept_use _ _ _ (λ _ _, True)).
  - destruct wf as [wf|]; [|doc_steps]. apply (loaded_grows _ _ _ H14) in Hl. cbv zeta.
    eapply kept_use; [by apply checkTracker_kept|]. intros log5 [] H5 _. apply (loaded_grows _ _ _ H5) in Hl.
    eapply kept_use; [by apply checkCodex_kept|]. intros log6 [] H6 _. apply (loaded_grows _ _ _ H6) in Hl.
    eapply kept_use; [by apply checkGitHubAgent_kept|]. intros log7 [] H7 _. apply (loaded_grows _ _ _ H7) in Hl. by apply checkSandbox_kept.
  - intros log5 [] _ _. eapply kept_use; [apply checkDashboard_kept|]. intros log6 [] _ _. doc_steps.
Qed.
Lemma doctor_kept : holds doctor_may srv [] doctor (λ _ _, True).
Proof. unfold Run_doctor. apply holds_bind. eapply holds_mono; [exact report_kept|]. done. Qed.
End Bounds.


(** ** The report *)

Definition star : Ascii.ascii := Ascii.ascii_of_nat 42.
Definition no_star (s : string) : bool := str_forall (λ c, negb (byte_is 42 c)) s.
Lemma star_absent s v : no_star v = true → v ≠ "" → Contains s v = false → Contains ("***" +:+ s) v = false.
Proof.
  destruct v as [|d v]; [done|]. intros Hv _ Hs. cbn [no_star str_forall] in Hv. apply andb_true_iff in Hv as [Hd _].
  assert (∀ t, HasPrefix (String star t) (String d v) = false) as Hp.
  { intros t. rewrite HasPrefix_String. apply andb_false_iff. left. apply Ascii.eqb_neq. by intros ->. }
  change ("***" +:+ s) with (String star (String star (String star s))). by rewrite !Contains_cons, !Hp.
Qed.
Lemma prefix_of_starred u s v : no_star v = true → HasPrefix (ReplaceAll u "***" 0 s) v = true → HasPrefix s v = true.
Proof.
  revert v. induction s as [|c s IH]; intros [|d v] Hv; try done. cbn [ReplaceAll]. cbn [no_star str_forall] in Hv.
  apply andb_true_iff in Hv as [Hd Hv]. destruct (HasPrefix (String c s) u).
  - change ("***" +:+ ?x) with (String star ("**" +:+ x)). rewrite HasPrefix_String. intros [->%Ascii.eqb_eq _]%andb_true_iff. done.
  - rewrite !HasPrefix_String, !andb_true_iff. intros [? H]. split; [done|]. by apply IH.
Qed.
Lemma starred_absent u v k s :
  no_star v = true → v ≠ "" → v = u ∨ Contains (str_drop k s) v = false → Contains (ReplaceAll u "***" k s) v = false.
Proof.
  intros Hv Hn. revert k. induction s as [|c s IH]; intros k H; [by destruct v|].
  destruct k as [|k]; cbn [ReplaceAll]; [|by apply IH]. destruct (HasPrefix (String c s) u) eqn:E.
  - apply star_absent; [done..|]. apply IH. destruct H as [->|H]; [by left|right]. apply Contains_drop. cbn [str_drop] in H.
    rewrite Contains_cons in H. by apply orb_false_iff in H as [_ H].
  - assert (HasPrefix (String c s) v = false ∧ (v = u ∨ Contains s v = false)) as [Hp Hs].
    { destruct H as [->|H]; [by split; [|left]|]. cbn [str_drop] in H. rewrite Contains_cons in H. apply orb_false_iff in H as [? ?]. by split; [|right]. }
    rewrite Contains_cons. apply orb_false_iff. split; [|by apply IH]. apply not_true_iff_false. intros E'.
    assert (String c (ReplaceAll u "***" 0 s) = ReplaceAll u "***" 0 (String c s)) as Hr by (cbn [ReplaceAll]; by rewrite E).
    rewrite Hr in E'. apply prefix_of_starred in E'; [congruence|done].
Qed.
Lemma redact_hides lookup name s :
  name ∈ redacted_names → Getenv lookup name ≠ "" → no_star (Getenv lookup name) = true →
  Contains (redact lookup s) (Getenv lookup name) = false.
Proof.
  intros Hin Hn Hs. set (v := Getenv lookup name) in *. unfold redact.
  assert (∀ names s, name ∈ names ∨ Contains s v = false →
    Contains (fold_left (λ s env, let v := Getenv lookup env in if String.eqb v "" then s else ReplaceAll v "***" 0 s) names s) v = false) as H.
  { induction names as [|x names IH]; intros t Ht; cbn [fold_left].
    - destruct Ht as [Ht|Ht]; [by apply elem_of_nil in Ht|done].
    - apply IH. cbv zeta. destruct Ht as [[->|Ht]%elem_of_cons|Ht]; [right|by left|right].
      + fold v. destruct (String.eqb_spec v ""); [done|]. apply starred_absent; auto.
      + destruct (String.eqb _ ""); [done|]. apply starred_absent; auto. }
  apply H. by left.
Qed.

(** What the doctor shows.  Its report is the text of the checks it made and the exit
    code is 1 exactly when one of them failed; the detail and the fix of a check hold none
    of the five tokens of the environment, whatever a command, the tracker, the agent or a
    file answered (a token with an asterisk excepted, as the mask is made of them). *)
Theorem report_hides_tokens lookup environ parse_url url_parts stat look_path login_path unmarshal_probe linux opts srv :
  let report := (TrackerErrors.run srv [] (BuildReport lookup environ parse_url url_parts stat look_path login_path unmarshal_probe linux opts)).2 in
  (TrackerErrors.run srv [] (Run_doctor lookup environ parse_url url_parts stat look_path login_path unmarshal_probe linux opts)).2
    = (writeTextReport report, if HasFailures report then 1 else 0) ∧
  (HasFailures report = true ↔ ∃ check, check ∈ Checks report ∧ Status_ check = Fail) ∧
  ∀ check name, check ∈ Checks report → name ∈ redacted_names → Getenv lookup name ≠ "" → no_star (Getenv lookup name) = true →
    Contains (Detail check) (Getenv lookup name) = false ∧ Contains (Fix check) (Getenv lookup name) = false.
Proof.
  cbv zeta. split; [|split].
  - unfold Run_doctor. set (p := BuildReport _ _ _ _ _ _ _ _ _ _). clearbody p.
    assert (∀ A (f : Report → A) log, (TrackerErrors.run srv log (ask_bind p (λ r, Ret (An := DoctorAns) (f r)))).2 = f (TrackerErrors.run srv log p).2) as H.
    { intros A f. induction p as [r|q k IH]; intros log; [done|]. cbn [ask_bind TrackerErrors.run]. apply IH. }
    by rewrite H.
  - unfold HasFailures. rewrite existsb_exists. split; intros (c & Hc & Hs); exists c.
    + split; [by apply list_elem_of_In|by apply bool_decide_eq_true in Hs].
    + split; [by apply list_elem_of_In|by apply bool_decide_eq_true].
  - intros check name Hc Hname Hn Hs. pose proof (report_kept lookup environ parse_url url_parts stat look_path login_path unmarshal_probe linux opts srv) as H.
    apply holds_run in H. destruct (TrackerErrors.run srv [] _) as [log r]. cbn [snd] in Hc. rewrite Forall_forall in H.
    destruct (H check Hc) as [[d ->] [f ->]]. split; by apply redact_hides.
Qed.

(** ** A table of the Codex configuration is not read

    Whatever follows a line that opens a table, provider blocks included, the keys read
    before it are all that is read. *)

Lemma Split_newline sep a b : Split sep (a +:+ String sep b) = Split sep a ++ Split sep b.
Proof.
  induction a as [|c a IH].
  - rewrite str_app_nil. cbn [Split]. by rewrite (proj2 (Ascii.eqb_eq sep sep) eq_refl).
  - rewrite str_app_cons. cbn [Split]. destruct (Ascii.eqb c sep); [by rewrite IH|]. rewrite IH.
    destruct (Split sep a) eqn:E; [|done]. destruct a; cbn [Split] in E; repeat case_match; discriminate.
Qed.
Lemma toml_in_table values lines : toml_scalars true values lines = values.
Proof.
  revert values. induction lines as [|l lines IH]; intros values; [done|]. cbn [toml_scalars].
  destruct (_ || _); [apply IH|]. destruct (HasPrefix _ "["); apply IH.
Qed.
Lemma toml_scalars_app table values l1 l2 :
  (∀ table' values', toml_scalars table' values' l2 = values') →
  toml_scalars table values (l1 ++ l2) = toml_scalars table values l1.
Proof.
  intros H2. revert table values. induction l1 as [|l l1 IH]; intros table values; cbn [app toml_scalars]; [apply H2|].
  destruct (_ || _); [apply IH|]. destruct (HasPrefix _ "["); [apply IH|]. destruct table; [apply IH|]. destruct (str_cut _ _) as [[k v]|]; apply IH.
Qed.
Theorem toml_tables_unread pre rest :
  topLevelTOMLScalars (pre +:+ newline +:+ "[" +:+ rest) = topLevelTOMLScalars pre.
Proof.
  unfold topLevelTOMLScalars. change (newline +:+ "[" +:+ rest) with (String (Ascii.ascii_of_nat 10) ("[" +:+ rest)).
  rewrite Split_newline. apply toml_scalars_app. intros table values.
  assert (∃ w lines, Split (Ascii.ascii_of_nat 10) ("[" +:+ rest) = ("[" +:+ w) :: lines) as (w & lines & ->).
  { change ("[" +:+ rest) with (String (Ascii.ascii_of_nat 91) rest). cbn [Split]. assert (Ascii.eqb (Ascii.ascii_of_nat 91) (Ascii.ascii_of_nat 10) = false) as -> by done.
    destruct (Split _ rest) as [|p ps] eqn:E; [by exists "", []|by exists p, ps]. }
  cbn [toml_scalars].
  assert (∃ u, TrimSpace ("[" +:+ w) = "[" +:+ u) as [u ->].
  { change ("[" +:+ w) with (String (Ascii.ascii_of_nat 91) w). unfold TrimSpace. cbn [trim_left]. assert (is_space (Ascii.ascii_of_nat 91) = false) as -> by done.
    cbn [trim_right]. assert (is_space (Ascii.ascii_of_nat 91) = false) as -> by done. destruct (trim_right w) as [|c t]; [by exists ""|by exists (String c t)]. }
  change ("[" +:+ u) with (String (Ascii.ascii_of_nat 91) u).
  assert (String.eqb (String (Ascii.ascii_of_nat 91) u) "" || HasPrefix (String (Ascii.ascii_of_nat 91) u) "#" = false) as -> by done.
  assert (HasPrefix (String (Ascii.ascii_of_nat 91) u) "[" = true) as -> by (rewrite HasPrefix_String, HasPrefix_nil; done).
  apply toml_in_table.
Qed.

(** ** A visit *)

Module Visit.
Definition env : lookup_env := λ name, if String.eqb name "GITEA_TOKEN" then Some "s3cret" else if String.eqb name "HOME" then Some "/home/w" else None.
Definition opts : DoctorOptions :=
  {| do_WorkflowPath := "/w/WORKFLOW.md"; do_Mode := "real"; do_Deploy := "binary"; do_DashboardURL := "http://127.0.0.1:4000/";
     do_GoTestDir := ""; do_GitHubIssue := 0; do_GitHubRepo := "" |}.
Definition workflow : Loaded :=
  {| ld_Config := (Shown.gitea "https://git.example" "s3cret" "https://git.example/o/r.git" []) <| cf_Agent ::= (λ a, a <| ac_Default := NameCodexAppServer |>) |>
       <| cf_Repo ::= (λ r, r <| rc_Owner := "o" |> <| rc_Name := "r" |>) |>;
     ld_Profile := None |}.
(** Everything answers, but the tracker refuses the token and says which it was. *)
Definition world : Server DoctorAns := λ log q,
  match q return DoctorAns q with
  | Getwd => None
  | LoadWorkflow _ => inr workflow
  | LookPath _ => true
  | Exists _ => false
  | Command _ _ _ _ => ("codex-cli 0.144.4", None)
  | CreateTemp dir _ => inr (dir +:+ "/tmp1")
  | MkdirTemp _ => inr "/tmp/d1"
  | WriteTemp _ _ => None
  | RemoveTemp _ | RemoveDir _ => tt
  | ReadText _ => Some ("model = 'm' # the model" +:+ newline +:+ "[model_providers.x]" +:+ newline +:+ "model = 'other'")
  | GetURL _ _ => Got "200 OK" 200
  | ready_wait => (0%nat, None)
  | PostLinear _ _ _ => Response "200 OK" 200 (inr {| lb_Errors := None; lb_Projects := 1 |})
  | ListActive _ => Some {| pe_Text := "token s3cret is refused"; pe_Inner := None |}
  | ProbeAppServer _ _ => inr (["{}"], Ended "")
  end.
Notation visit := (Run_doctor env [] (λ _, None) (λ _, None) (λ _, None) (λ _, inl "none") None (λ _, Some ("1", "{}", "")) true opts).
Notation log := (TrackerErrors.run world [] visit).1.

Example versions :
  map (goVersionCompatible "go version go1.25.10 linux/amd64") ["1.25"; "1.25.11"; "1.24.99"; "2.0"; "tip"] = [true; false; true; false; false] ∧
  codexVersionFromOutput "codex-cli 0.144.4" = Some pinned_version ∧ codexVersionFromOutput "codex-cli 0.144" = None.
Proof. by vm_compute. Qed.
(** The app-server is probed with the environment of the worker, tokens included, not with
    the one an agent gets. *)
Example probe_has_the_workers_environment :
  ∃ k, probeCodexAppServer ["GITEA_TOKEN=s3cret"] (λ _, None) (λ _, inr "/bin/codex") (λ _, None) (ld_Config workflow)
       = Ask (An := DoctorAns) (ProbeAppServer ["/bin/codex"; "app-server"] ["GITEA_TOKEN=s3cret"]) k.
Proof. eexists. reflexivity. Qed.
Example exit_code : (TrackerErrors.run world [] visit).2.2 = 1.
Proof. by vm_compute. Qed.
End Visit.
Import Visit.

Lemma report_hides_tokens_witness :
  let report := (TrackerErrors.run world [] (BuildReport env [] (λ _, None) (λ _, None) (λ _, None) (λ _, inl "none") None (λ _, Some ("1", "{}", "")) true opts)).2 in
  (∃ check, check ∈ Checks report ∧ Status_ check = Fail ∧ Detail check = "probe https://git.example: token *** is refused") ∧
  ∀ check, check ∈ Checks report → Contains (Detail check) "s3cret" = false ∧ Contains (Fix check) "s3cret" = false.
Proof.
  intros report. split.
  - assert (∃ check, nth_error (Checks report) 4 = Some check ∧ Status_ check = Fail ∧ Detail check = "probe https://git.example: token *** is refused") as (check & H & HF)
      by (unfold report; eexists; split; [vm_compute; reflexivity|]; split; vm_compute; reflexivity).
    exists check. split; [|exact HF]. apply list_elem_of_In. exact (nth_error_In _ _ H).
  - intros check Hc.
    apply (proj2 (proj2 (report_hides_tokens env [] (λ _, None) (λ _, None) (λ _, None) (λ _, inl "none") None (λ _, Some ("1", "{}", "")) true opts world))
             check "GITEA_TOKEN"); [exact Hc|vm_compute; right; right; left|discriminate|reflexivity].
Defined.
