(* ===== verification/Tui.v ===== *)
(** * The terminal dashboard (cmd/tui/render.go, layout.go, state_client.go)

    A frame is a list of lines built from the state the API serves, each clipped to the
    width of the terminal.  The theorems: a line of a frame is no wider than the terminal,
    and holds no control byte but in a colour code, when the few values that are printed
    without sanitising hold none.

    A rune is its UTF-8 bytes.  [fmt_v] is Sprint's %v, [float_text] and [fixed2] are the
    texts of a float with as many and with two decimals; [until] is time.Until during one
    rendering; sort.Slice is not stable, so its result is an argument.  Sums of seconds are
    exact.  White space is ASCII white space. *)

From S2P Require Import Prelude Payload Types GoStd Hashes Ops Snapshot AppMessages Loader Tools StateApi.

(** ** Runes *)

(** [[]rune(s)]: [skip] bytes of the current rune are left. *)
Fixpoint runes (skip : nat) (s : string) : list string :=
  match s with
  | EmptyString => []
  | String c t =>
      match skip with
      | S skip => runes skip t
      | O =>
          let width := rune_width c t in
          (if (width =? 1)%nat && (128 <=? str_byte c)%nat then replacement_rune else String c (str_take (width - 1) t))
            :: runes (width - 1) t
      end
  end.
(** [string(runes)]. *)
Definition of_runes (l : list string) : string := String.concat "" l.
Fixpoint spaces (n : nat) : string := match n with O => "" | S n => " " +:+ spaces n end.

Definition padRight (s : string) (width : nat) : string := s +:+ spaces (width - length (runes 0 s)).
Definition padLeft (s : string) (width : nat) : string := spaces (width - length (runes 0 s)) +:+ s.

Definition truncateCell (s : string) (width : nat) : string :=
  if (width =? 0)%nat then ""
  else
    let l := runes 0 s in
    if (length l <=? width)%nat then s
    else if (width <=? 3)%nat then of_runes (take width l)
    else of_runes (take (width - 3) l) +:+ "...".

(** ** Sanitising *)

Definition esc : string := byte 27.
Definition is_esc (c : Ascii.ascii) : bool := byte_is 27 c.
Definition is_control (c : Ascii.ascii) : bool := in_range 0 31 c || byte_is 127 c.
Definition reCSISeq : Regex.Regex :=
  Regex.Cat (Regex.Chr is_esc) (Regex.Cat (Regex.Chr (byte_is 91))
    (Regex.Cat (Regex.Star (Regex.Chr (λ c, in_range 48 57 c || byte_is 59 c))) (Regex.Chr is_letter))).
(** The replacement of \x1B. by nothing: an escape and the rune after it. *)
Fixpoint drop_escapes (skip : nat) (s : string) : string :=
  match s with
  | EmptyString => ""
  | String c t =>
      match skip with
      | S skip => drop_escapes skip t
      | O =>
          match t with
          | String n t' => if is_esc c && negb (byte_is 10 n) then drop_escapes (rune_width n t') t
                           else String c (drop_escapes 0 t)
          | EmptyString => s
          end
      end
  end.
Definition sanitize (s : string) : string :=
  let s := ReplaceAllString reCSISeq "" s in
  let s := drop_escapes 0 s in
  let s := str_map (λ c, if is_control c then Ascii.ascii_of_nat 32 else c) s in
  String.concat " " (Fields s).

Definition cell (s : string) (width : nat) : string := padRight (truncateCell (sanitize s) width) width.
Definition cellRight (s : string) (width : nat) : string := padLeft (truncateCell (sanitize s) width) width.

(** ** Colours *)

Definition sgr (code : string) : string := esc +:+ "[" +:+ code +:+ "m".
Definition ansiReset : string := sgr "0".
Definition ansiBold : string := sgr "1".
Definition ansiDim : string := sgr "2".
Definition ansiRed : string := sgr "31".
Definition ansiGreen : string := sgr "32".
Definition ansiYellow : string := sgr "33".
Definition ansiBlue : string := sgr "34".
Definition ansiMagenta : string := sgr "35".
Definition ansiCyan : string := sgr "36".
Definition ansiGray : string := sgr "90".
Definition colorize (s code : string) : string := code +:+ s +:+ ansiReset.

(** ** Numbers *)

Fixpoint group_digits (fuel : nat) (s : string) : string :=
  match fuel with
  | O => s
  | S fuel =>
      let n := String.length s in
      if (n <=? 3)%nat then s
      else group_digits fuel (String.substring 0 (n - 3) s) +:+ "," +:+ String.substring (n - 3) 3 s
  end.
Definition groupThousands (s : string) : string := group_digits (String.length s) s.
Definition formatCount (n : Z) : string :=
  if n <? 0 then "-" +:+ groupThousands (fmt_d (wrap64 (- n))) else groupThousands (fmt_d n).

Definition formatHumanDurationSeconds (seconds : Z) : string :=
  let seconds := if seconds <? 0 then 0 else seconds in
  let days := seconds / 86400 in
  let hours := seconds mod 86400 / 3600 in
  let mins := seconds mod 3600 / 60 in
  let secs := seconds mod 60 in
  if 0 <? days then fmt_d days +:+ "d " +:+ fmt_d hours +:+ "h"
  else if 0 <? hours then fmt_d hours +:+ "h " +:+ fmt_d mins +:+ "m"
  else if 0 <? mins then fmt_d mins +:+ "m " +:+ fmt_d secs +:+ "s"
  else fmt_d secs +:+ "s".
Definition formatRateLimitDuration (seconds : Z) : string := formatHumanDurationSeconds seconds.
(** Of a duration: [math.Floor] of its seconds, at least zero. *)
Definition formatRuntimeSecs (d : Duration) : string := formatHumanDurationSeconds (Z.max 0 (d / Second)).
Definition formatRuntimeAndTurns (d : Duration) (turns : Z) : string :=
  if 0 <? turns then formatRuntimeSecs d +:+ " / " +:+ fmt_d turns else formatRuntimeSecs d.

Definition pad3 (n : Z) : string := (if n <? 10 then "00" else if n <? 100 then "0" else "") +:+ fmt_d n.
Definition formatRetryDueIn (d : Duration) : string :=
  let d := if d <? 0 then 0 else d in
  if d <? Minute then fmt_d (d / Second) +:+ "." +:+ pad3 (d / Millisecond mod 1000) +:+ "s"
  else formatHumanDurationSeconds (d / Second).

Definition formatClaimBudget (budget : BudgetGuardrails) : string :=
  let parts := (if 0 <? bg_MaxTokensPerClaim budget then [formatCount (bg_MaxTokensPerClaim budget) +:+ " worker-observed Codex tokens"] else [])
            ++ (if 0 <? bg_MaxRuntimeSecondsPerClaim budget then [formatHumanDurationSeconds (bg_MaxRuntimeSecondsPerClaim budget) +:+ " runtime"] else []) in
  match parts with [] => "off" | _ => String.concat " | " parts end.

(** ** Throughput *)

Record tokenSample := { ts_at : Time; ts_tokens : Z }.
Definition throughputWindowMs : Z := 5000.
Definition pruneSamples (samples : list tokenSample) (now : Time) : list tokenSample :=
  List.filter (λ s, negb (ts_at s <? time_Add now (- throughputWindowMs * Millisecond))) samples.
(** The tokens and the time whose quotient it is; [None] is zero. *)
Definition rollingTPS (samples : list tokenSample) (now : Time) (currentTokens : Z) : option (Z * Duration) :=
  match last (pruneSamples ({| ts_at := now; ts_tokens := currentTokens |} :: samples) now) with
  | Some oldest =>
      let elapsed := time_Sub now (ts_at oldest) in
      let delta := currentTokens -i ts_tokens oldest in
      if (length (pruneSamples ({| ts_at := now; ts_tokens := currentTokens |} :: samples) now) <? 2)%nat then None
      else if (elapsed <=? 0) || (delta <=? 0) then None else Some (delta, elapsed)
  | None => None
  end.
(** [math.Round] of the quotient, per second. *)
Definition formatTPS (tps : option (Z * Duration)) : string :=
  groupThousands (fmt_d (match tps with Some (n, d) => (2 * n * Second + d) / (2 * d) | None => 0 end)).

(** ** Rate limits *)

Definition present (m : any_map) (key : string) : option any :=
  match m with Some l => assoc l key | None => None end.

Section Values.
Context `{Sprint} (float_text fixed2 : float64 → string) (unix_now : Z).

Definition intVal (m : any_map) (key : string) : option Z :=
  match map_get m key with
  | AFloat64 x => Some (float_to_int64 x)
  | AInt64 x | AInt x => Some x
  | _ => None
  end.
Fixpoint first_found {A} (f : string → option A) (keys : list string) : option A :=
  match keys with
  | [] => None
  | k :: keys => match f k with Some a => Some a | None => first_found f keys end
  end.
Definition firstIntVal (m : any_map) (keys : list string) : option Z := first_found (intVal m) keys.
Definition numericVal (m : any_map) (key : string) : option float64 :=
  match map_get m key with
  | AFloat64 x => Some x
  | AInt64 x | AInt x => Some (float_of_int x)
  | _ => None
  end.
Definition firstNumericVal (m : any_map) (keys : list string) : option float64 := first_found (numericVal m) keys.
Definition toFloat (v : any) : float64 :=
  match v with AFloat64 x => x | AInt64 x | AInt x => float_of_int x | _ => FFin 0 0 end.
Definition strMapGet (m : any_map) (keys : list string) (fallback : string) : string :=
  default fallback (first_found (λ k, match present m k with
                                      | Some (AString s) => Some s
                                      | Some v => Some (fmt_v v)
                                      | None => None
                                      end) keys).

Definition formatResetValue (v : any) : string :=
  match v with
  | AFloat64 x => fmt_d (float_to_int64 x) +:+ "s"
  | AInt64 x | AInt x => fmt_d x +:+ "s"
  | AString x => sanitize x
  | _ => sanitize (fmt_v v)
  end.
Definition formatResetAtValue (v : any) : string :=
  match v with
  | AFloat64 x => "resets in " +:+ formatRateLimitDuration (float_to_int64 x -i unix_now)
  | AInt64 x | AInt x => "resets in " +:+ formatRateLimitDuration (x -i unix_now)
  | AString x => "reset " +:+ sanitize x
  | _ => "reset " +:+ sanitize (fmt_v v)
  end.
Definition not_nil (v : option any) : option any := match v with Some ANil => None | _ => v end.
Definition rateLimitResetText (m : any_map) : option string :=
  match first_found (λ k, not_nil (present m k)) ["reset_in_seconds"; "resetInSeconds"; "resets_in_seconds"; "resetsInSeconds"] with
  | Some v => Some ("reset " +:+ formatResetValue v)
  | None => formatResetAtValue <$> first_found (λ k, not_nil (present m k)) ["reset_at"; "resetAt"; "resets_at"; "resetsAt"]
  end.
Definition formatRateLimitWindow (minutes : Z) : string :=
  if minutes <=? 0 then ""
  else if minutes mod 1440 =? 0 then fmt_d (minutes / 1440) +:+ "d window"
  else if minutes mod 60 =? 0 then fmt_d (minutes / 60) +:+ "h window"
  else fmt_d minutes +:+ "m window".
Definition formatPercentRateLimitBucket (m : any_map) (used : float64) : string :=
  let window := match firstIntVal m ["window_duration_mins"; "windowDurationMins"; "window_minutes"; "windowMinutes"] with
                | Some mins => formatRateLimitWindow mins
                | None => ""
                end in
  String.concat " · " ((float_text used +:+ "% used") :: (if String.eqb window "" then [] else [window])
                       ++ match rateLimitResetText m with Some reset => [reset] | None => [] end).
Definition formatRateLimitBucket (v : any) : string :=
  match v with
  | ANil => "n/a"
  | AMap m =>
      match firstNumericVal m ["used_percent"; "usedPercent"] with
      | Some used => formatPercentRateLimitBucket m used
      | None =>
          let base :=
            match intVal m "remaining", intVal m "limit" with
            | Some remaining, Some limit => Some (formatCount remaining +:+ "/" +:+ formatCount limit)
            | Some remaining, None => Some ("remaining " +:+ formatCount remaining)
            | None, Some limit => Some ("limit " +:+ formatCount limit)
            | None, None => match m with None | Some [] => None | _ => Some "n/a" end
            end in
          match base with
          | None => "n/a"
          | Some base => match rateLimitResetText m with Some reset => base +:+ " " +:+ reset | None => base end
          end
      end
  | _ => sanitize (fmt_v v)
  end.
Definition is_bool_true (v : any) : bool := match v with ABool b => b | _ => false end.
Definition formatCredits (v : any) : string :=
  match v with
  | AMap m =>
      if is_bool_true (map_get m "unlimited") then "credits unlimited"
      else if is_bool_true (map_get m "has_credits") then
        match present m "balance" with
        | Some balance => "credits " +:+ fixed2 (toFloat balance)
        | None => "credits available"
        end
      else "credits none"
  | _ => "credits n/a"
  end.
Definition formatRateLimits (rl : any_map) : string :=
  match rl with
  | None => colorize "unavailable" ansiGray
  | Some _ =>
      let limitID := sanitize (strMapGet rl ["limit_id"; "limit_name"; "limitId"; "limitName"] "") in
      let limitID := if String.eqb limitID "" then "unknown" else limitID in
      colorize limitID ansiYellow +:+ colorize " | " ansiGray +:+
      colorize ("primary " +:+ formatRateLimitBucket (map_get rl "primary")) ansiCyan +:+ colorize " | " ansiGray +:+
      colorize ("secondary " +:+ formatRateLimitBucket (map_get rl "secondary")) ansiCyan +:+ colorize " | " ansiGray +:+
      colorize (formatCredits (map_get rl "credits")) ansiGreen
  end.
End Values.

(** ** Rows *)

(** What the dashboard reads of a row of the backoff queue and of a state. *)
Record Retry := {
  y_IssueID : string; y_Identifier : string; y_Attempt : Z; y_Kind : string; y_DueAt : option Time; y_Error : string;
  y_StartupPhase : option string
}.
Record State := {
  s_AgentDefault : string; s_MaxConcurrentAgents : Z; s_CompletedTotal : Z; s_HandoffStoppedTotal : Z; s_HandoffStopped : Z;
  s_NoHandoffTotal : Z; s_Running : list api_Running; s_Retrying : list Retry; s_Totals : TokensView; s_SecondsRunning : Duration;
  s_BudgetGuardrails : BudgetGuardrails; s_RateLimits : any_map
}.

Definition colID : nat := 8.
Definition colStage : nat := 14.
Definition colPID : nat := 8.
Definition colAge : nat := 12.
Definition colTokens : nat := 10.
Definition colSession : nat := 14.
Definition colModel : nat := 20.
Definition colEventMin : nat := 12.
Definition colEventDef : nat := 44.
Definition chromeWidth : nat := 11.
Definition defaultTermCols : nat := 115.
Definition fixedRunningWidth : nat := colID + colStage + colPID + colAge + colTokens + colSession + colModel.

Definition issueLabel (identifier issueID : string) : string :=
  if negb (String.eqb identifier "") then identifier else if negb (String.eqb issueID "") then issueID else "unknown".
Definition orUnknown (s : string) : string := if blank s then "unknown" else s.
Definition compactSession (id : string) : string :=
  if String.eqb id "" then "n/a"
  else
    let l := runes 0 id in
    if (10 <? length l)%nat then of_runes (take 4 l) +:+ "..." +:+ of_runes (drop (length l - 6) l) else id.
Definition statusDotColor (event : string) : string :=
  if String.eqb event "" || String.eqb event "none" then ansiRed
  else if String.eqb event "codex/event/token_count" then ansiYellow
  else if String.eqb event "codex/event/task_started" then ansiGreen
  else if String.eqb event "turn_completed" then ansiMagenta
  else ansiBlue.

Fixpoint labels_of (seen : list string) (rows : list api_Running) : list string :=
  match rows with
  | [] => []
  | r :: rows =>
      let label := TrimSpace (ar_WorkflowPath r) in
      let label := if String.eqb label "" then TrimSpace (ar_WorkflowSource r) else label in
      if String.eqb label "" || existsb (String.eqb label) seen then labels_of seen rows
      else label :: labels_of (label :: seen) rows
  end.
Definition resolvedWorkflowLabel (rows : list api_Running) : string :=
  match labels_of [] rows with [] => "unknown" | labels => String.concat ", " labels end.

Definition runningTableHeader (eventWidth : nat) : string :=
  let header := String.concat " "
    [padRight "ID" colID; padRight "STAGE" colStage; padRight "PID" colPID; padRight "AGE / TURN" colAge; padLeft "TOKENS" colTokens;
     padRight "SESSION" colSession; padRight "MODEL" colModel; padRight "EVENT" eventWidth] in
  "│   " +:+ colorize header ansiGray.
Definition runningTableSep (eventWidth : nat) : string :=
  "│   " +:+ colorize (of_runes (repeat "─" (fixedRunningWidth + eventWidth + 7))) ansiGray.

Definition formatRunningRow (r : api_Running) (now : Time) (eventWidth : nat) : string :=
  let id := cell (issueLabel (ar_Identifier r) (ar_IssueID r)) colID in
  let stage := cell (ar_State r) colStage in
  let pidCell := cell (if 0 <? ar_CodexAppServerPID r then fmt_d (ar_CodexAppServerPID r) else "n/a") colPID in
  let runtime := match ar_StartedAt r with Some started => time_Sub now started | None => 0 end in
  let age := cell (formatRuntimeAndTurns runtime (ar_TurnCount r)) colAge in
  let tokens := cellRight (formatCount (tv_TotalTokens (ar_Tokens r))) colTokens in
  let session := cell (compactSession (ar_SessionID r)) colSession in
  let model := cell (orUnknown (ar_AgentModel r)) colModel in
  let eventText := if String.eqb (ar_LastMessage r) "" then ar_LastEvent r else ar_LastMessage r in
  let eventText := if String.eqb eventText "" then "none" else eventText in
  let event := cell (sanitize eventText) eventWidth in
  let dotColor := statusDotColor (ar_LastEvent r) in
  "│ " +:+ colorize "●" dotColor +:+ " " +:+ colorize id ansiCyan +:+ " " +:+ colorize stage dotColor +:+ " " +:+
  colorize pidCell ansiYellow +:+ " " +:+ colorize age ansiMagenta +:+ " " +:+ colorize tokens ansiYellow +:+ " " +:+
  colorize session ansiCyan +:+ " " +:+ colorize model ansiGray +:+ " " +:+ colorize event dotColor.

Definition formatRetryRow (until : Time → Duration) (r : Retry) : string :=
  let id := issueLabel (y_Identifier r) (y_IssueID r) in
  let kind := if String.eqb (y_Kind r) "" then "failure" else y_Kind r in
  let dueIn := match y_DueAt r with Some due => formatRetryDueIn (until due) | None => "n/a" end in
  let errorPart :=
    if String.eqb (y_Error r) "" then ""
    else
      let errStr := sanitize (y_Error r) in
      let errStr := if (96 <? String.length errStr)%nat then str_take 93 errStr +:+ "..." else errStr in
      " " +:+ colorize ("error=" +:+ errStr) ansiDim in
  let startupPart :=
    match y_StartupPhase r with
    | Some phase => if String.eqb phase "" then "" else " " +:+ colorize ("startup_phase=" +:+ sanitize phase) ansiDim
    | None => ""
    end in
  "│  " +:+ colorize "↻" ansiYellow +:+ " " +:+ colorize id ansiRed +:+ " " +:+ colorize ("kind=" +:+ kind) ansiYellow +:+ " " +:+
  colorize ("attempt=" +:+ fmt_d (y_Attempt r)) ansiYellow +:+ colorize " in " ansiDim +:+ colorize dueIn ansiCyan +:+
  startupPart +:+ errorPart.

(** ** Widths

    The loops of layout.go walk the runes by index and jump over an escape sequence; here
    the state says what is open: nothing, an escape, or a control sequence. *)

Inductive Mode := Plain | Escaped | InSequence.
#[export] Instance Mode_eq_dec : EqDecision Mode.
Proof. solve_decision. Defined.
Definition final_byte (r : string) : bool := match r with String c EmptyString => in_range 64 126 c | _ => false end.
Definition ansi_next (m : Mode) (r : string) : Mode :=
  match m with
  | Plain => if String.eqb r esc then Escaped else Plain
  | Escaped => if String.eqb r "[" then InSequence else Plain
  | InSequence => if final_byte r then Plain else InSequence
  end.
Definition is_visible (m : Mode) (r : string) : bool := match m with Plain => negb (String.eqb r esc) | _ => false end.
Fixpoint visibleColumns (m : Mode) (l : list string) : nat :=
  match l with
  | [] => 0
  | r :: l => (if is_visible m r then 1 else 0) + visibleColumns (ansi_next m r) l
  end.
(** The runes copied before the loop stops. *)
Fixpoint clipped (width : nat) (m : Mode) (visible : nat) (l : list string) : list string :=
  match l with
  | [] => []
  | r :: l =>
      if is_visible m r
      then if (width - 1 <=? visible)%nat then [] else r :: clipped width (ansi_next m r) (S visible) l
      else r :: clipped width (ansi_next m r) visible l
  end.
Definition truncateToWidth (line : string) (width : nat) : string :=
  if (width =? 0)%nat then line
  else
    let l := runes 0 line in
    if (visibleColumns Plain l <=? width)%nat then line
    else of_runes (clipped width Plain 0 l) +:+ "…" +:+ ansiReset.

(** ** The frame *)

(** sort.Slice: some permutation, sorted when the comparison is an order. *)
Class SortSlice := {
  sort_slice : ∀ {A}, (A → A → bool) → list A → list A;
  sort_slice_perm : ∀ A (less : A → A → bool) l, sort_slice less l ≡ₚ l
}.

Section Frame.
Context `{Sprint} `{SortSlice} (float_text fixed2 : float64 → string) (unix_now : Z) (until : Time → Duration).
(** The width of the terminal, if stdout is one, and the variable COLUMNS as [strconv.Atoi] reads it. *)
Context (terminal_width : option nat) (columns_env : string) (atoi : string → option Z).

Definition terminalColumnsFromEnv : nat :=
  if String.eqb columns_env "" then fixedRunningWidth + chromeWidth + colEventDef
  else match atoi (TrimSpace columns_env) with
       | Some n => if 0 <? n then Z.to_nat n else defaultTermCols
       | None => defaultTermCols
       end.
Definition terminalColumns : nat := match terminal_width with Some cols => cols | None => terminalColumnsFromEnv end.

(** The lines [clipFrame] joins. *)
Definition clip_lines (lines : list string) : list string :=
  match terminal_width with Some width => map (λ l, truncateToWidth l width) lines | None => lines end.
Definition clipFrame (lines : list string) : string := String.concat (byte 10) (clip_lines lines).

Definition running_less (a b : api_Running) : bool :=
  let label r := if String.eqb (ar_Identifier r) "" then ar_IssueID r else ar_Identifier r in
  String.ltb (label a) (label b).
Definition retry_less (a b : Retry) : bool :=
  let due r := match y_DueAt r with Some d => until d | None => 0 end in due a <? due b.

Definition count_of {A} (l : list A) : string := formatCount (Z.of_nat (length l)).
Definition dashboard_line (baseURL : string) : string := colorize (baseURL +:+ "/") ansiCyan.
Definition seconds_text (interval : Duration) : string := fmt_d (Z.quot interval Second) +:+ "s".

Definition unavailable_lines (fetchErr : string) (tps : option (Z * Duration)) (baseURL : string) (interval : Duration) : list string :=
  [colorize "╭─ AIOPS STATUS" ansiBold;
   colorize "│ Orchestrator snapshot unavailable: " ansiRed +:+ colorize fetchErr ansiRed;
   colorize "│ Throughput: " ansiBold +:+ colorize (formatTPS tps +:+ " tps") ansiCyan;
   colorize "│ Dashboard:  " ansiBold +:+ dashboard_line baseURL;
   colorize "│ Next refresh: " ansiBold +:+ colorize (seconds_text interval) ansiCyan;
   colorize "╰─" ansiBold].

Definition header_lines (state : State) (tps : option (Z * Duration)) (baseURL : string) (interval : Duration) (eventWidth : nat) : list string :=
  [colorize "╭─ AIOPS STATUS" ansiBold;
   colorize "│ Agents: " ansiBold +:+ colorize (count_of (s_Running state)) ansiGreen +:+ colorize "/" ansiGray +:+
     colorize (formatCount (s_MaxConcurrentAgents state)) ansiGray;
   colorize "│ Default:    " ansiBold +:+ colorize (orUnknown (s_AgentDefault state)) ansiCyan +:+ colorize " · model " ansiGray +:+
     colorize "unknown" ansiGray;
   colorize "│ Workflow:   " ansiBold +:+ colorize (resolvedWorkflowLabel (s_Running state)) ansiCyan;
   colorize "│ Handoffs: " ansiBold +:+ colorize ("completed " +:+ formatCount (s_CompletedTotal state)) ansiGreen +:+
     colorize " | " ansiGray +:+ colorize ("agent " +:+ formatCount (s_HandoffStoppedTotal state)) ansiGreen +:+
     colorize (" (recent " +:+ formatCount (s_HandoffStopped state) +:+ ")") ansiGray +:+ colorize " | " ansiGray +:+
     colorize ("no handoff " +:+ formatCount (s_NoHandoffTotal state)) ansiYellow;
   colorize "│ Throughput: " ansiBold +:+ colorize (formatTPS tps +:+ " tps") ansiCyan;
   colorize "│ Runtime:    " ansiBold +:+ colorize (formatRuntimeSecs (s_SecondsRunning state)) ansiMagenta;
   colorize "│ Tokens:     " ansiBold +:+ colorize ("in " +:+ formatCount (tv_InputTokens (s_Totals state))) ansiYellow +:+
     colorize " | " ansiGray +:+ colorize ("out " +:+ formatCount (tv_OutputTokens (s_Totals state))) ansiYellow +:+
     colorize " | " ansiGray +:+ colorize ("total " +:+ formatCount (tv_TotalTokens (s_Totals state))) ansiYellow;
   colorize "│ Claim budget: " ansiBold +:+ colorize (formatClaimBudget (s_BudgetGuardrails state)) ansiYellow;
   colorize "│ Token scope: " ansiBold +:+ colorize "worker-observed, runner-reported Codex usage only" ansiGray;
   colorize "│ Unmeasured: " ansiBold +:+ colorize "external GitHub @codex review usage" ansiGray;
   colorize "│ Unmeasured: " ansiBold +:+ colorize "other reviewers outside the worker session" ansiGray;
   colorize "│ Unmeasured: " ansiBold +:+ colorize "otherwise unreported nested or subagent usage" ansiGray;
   colorize "│ Rate Limits: " ansiBold +:+ formatRateLimits float_text fixed2 unix_now (s_RateLimits state);
   colorize "│ Dashboard:   " ansiBold +:+ dashboard_line baseURL;
   colorize "│ Next refresh: " ansiBold +:+ colorize (seconds_text interval) ansiCyan;
   colorize "├─ Running" ansiBold;
   "│";
   runningTableHeader eventWidth;
   runningTableSep eventWidth].

Definition frame_lines (state : State) (now : Time) (tps : option (Z * Duration)) (baseURL : string) (interval : Duration) : list string :=
  let eventWidth := Nat.max colEventMin (terminalColumns - (fixedRunningWidth + chromeWidth)) in
  header_lines state tps baseURL interval eventWidth ++
  (match s_Running state with
   | [] => ["│  " +:+ colorize "No active agents" ansiGray; "│"]
   | _ => map (λ r, formatRunningRow r now eventWidth) (sort_slice running_less (s_Running state)) ++ ["│"]
   end) ++
  [colorize "├─ Backoff queue" ansiBold; "│"] ++
  (match s_Retrying state with
   | [] => ["│  " +:+ colorize "No queued retries" ansiGray]
   | _ => map (formatRetryRow until) (sort_slice retry_less (s_Retrying state))
   end) ++
  [colorize "╰─" ansiBold].

(** What the client makes of a request ([request] of the header Authorization: the error of
    the request, or the status and the body) and the decoder of the body. *)
Definition fetchStateWithAuth (request : option string → string + Z * string) (decode : string → string + State) (authToken : string) : string + State :=
  match request (if String.eqb authToken "" then None else Some ("Bearer " +:+ authToken)) with
  | inl err => inl err
  | inr (status, body) =>
      if (status <? 200) || (300 <=? status) then inl ("HTTP " +:+ fmt_d status +:+ ": " +:+ TrimSpace (str_take 256 body))
      else decode body
  end.

(** A fetch that failed, or the state it fetched. *)
Definition renderFrame (fetched : string + State) (now : Time) (tps : option (Z * Duration)) (baseURL : string) (interval : Duration) : string :=
  clipFrame (match fetched with
             | inl fetchErr => unavailable_lines fetchErr tps baseURL interval
             | inr state => frame_lines state now tps baseURL interval
             end).
End Frame.

(** * Runes of a text *)

Lemma continuation_sub lo hi b : (128 ≤ lo)%nat → (hi ≤ 191)%nat → continuation 128 191 b = false → continuation lo hi b = false.
Proof.
  destruct b as [|c b]; [done|]. cbn [continuation]. unfold in_range. intros Hl Hh H.
  apply not_true_iff_false in H. apply not_true_iff_false. intros [H1%Nat.leb_le H2%Nat.leb_le]%andb_true_iff. apply H.
  apply andb_true_iff. split; apply Nat.leb_le; lia.
Qed.
(** A text that begins a rune, whatever stands before it. *)
Definition begins (b : string) : bool := negb (continuation 128 191 b).
Lemma begins_not lo hi b : begins b = true → (128 ≤ lo)%nat → (hi ≤ 191)%nat → continuation lo hi b = false.
Proof. intros H%negb_true_iff ? ?. by apply continuation_sub. Qed.
Lemma rune_width_app c t b : begins b = true → rune_width c (t +:+ b) = rune_width c t.
Proof.
  intros Hb. pose proof (λ lo hi, begins_not lo hi b Hb) as H.
  unfold rune_width. destruct t as [|x [|y [|z t]]]; rewrite ?str_app_nil, ?str_app_cons; cbn [str_tail continuation]; [..|done];
    rewrite ?str_app_nil, ?str_app_cons; cbn [str_tail continuation]; rewrite ?H by lia; rewrite ?andb_false_r; cbn [andb]; try done.
  all: repeat case_match; done.
Qed.
Lemma rune_width_pos c t : (1 ≤ rune_width c t)%nat.
Proof. unfold rune_width. repeat case_match; lia. Qed.
Lemma rune_width_fits c t : (rune_width c t ≤ S (String.length t))%nat.
Proof.
  unfold rune_width. destruct t as [|x [|y [|z t]]]; cbn [str_tail continuation String.length]; rewrite ?andb_false_r;
    repeat case_match; lia.
Qed.
Lemma runes_app k a b : begins b = true → (k ≤ String.length a)%nat → runes k (a +:+ b) = runes k a ++ runes 0 b.
Proof.
  intros Hb. revert k. induction a as [|c a IH]; intros k Hk; simpl in Hk.
  { rewrite str_app_nil. by assert (k = 0)%nat as -> by lia. }
  rewrite str_app_cons. cbn [runes]. destruct k as [|k]; [|apply IH; lia].
  rewrite rune_width_app by done. pose proof (rune_width_fits c a). pose proof (rune_width_pos c a).
  rewrite IH by lia. rewrite str_take_split. replace (rune_width c a - 1 - String.length a)%nat with 0%nat by lia.
  by destruct b; rewrite ?str_app_nil_r.
Qed.

(** ** Plain text *)

Definition plain_byte (c : Ascii.ascii) : bool := negb (is_control c).
Definition plain (s : string) : bool := str_forall plain_byte s.
Lemma plain_app a b : plain (a +:+ b) = plain a && plain b.
Proof. apply str_forall_app. Qed.
Lemma plain_take n s : plain s = true → plain (str_take n s) = true.
Proof. apply str_forall_take. Qed.
Lemma plain_rune_in s k r : plain s = true → r ∈ runes k s → plain r = true.
Proof.
  revert k. induction s as [|c t IH]; intros k Hs Hin; [by apply elem_of_nil in Hin|].
  cbn [plain str_forall] in Hs. apply andb_true_iff in Hs as [Hc Ht]. cbn [runes] in Hin. destruct k as [|k]; [|by eapply IH].
  apply elem_of_cons in Hin as [->|Hin]; [|by eapply IH]. destruct (_ && _); [by vm_compute|].
  cbn [plain str_forall]. rewrite Hc. by apply plain_take.
Qed.
Lemma of_runes_cons r l : of_runes (r :: l) = r +:+ of_runes l.
Proof. unfold of_runes. destruct l; [cbn [String.concat]; by rewrite str_app_nil_r|done]. Qed.
Lemma of_runes_app l1 l2 : of_runes (l1 ++ l2) = of_runes l1 +:+ of_runes l2.
Proof. induction l1 as [|r l1 IH]; [done|]. cbn [app]. by rewrite !of_runes_cons, IH, str_app_assoc. Qed.
Lemma plain_of_runes l : (∀ r, r ∈ l → plain r = true) → plain (of_runes l) = true.
Proof.
  induction l as [|r l IH]; intros H; [done|]. rewrite of_runes_cons, plain_app, H, IH; [done| |by left].
  intros x Hx. apply H. by right.
Qed.
Lemma plain_spaces n : plain (spaces n) = true.
Proof. induction n as [|n IH]; [done|]. cbn [spaces]. by rewrite plain_app, IH. Qed.
Lemma plain_truncateCell s n : plain s = true → plain (truncateCell s n) = true.
Proof.
  intros Hs. unfold truncateCell. destruct (n =? 0)%nat; [done|]. destruct (_ <=? n)%nat; [done|].
  assert (∀ m, plain (of_runes (take m (runes 0 s))) = true) as Ht.
  { intros m. apply plain_of_runes. intros r Hr%elem_of_take. destruct Hr as (i & Hr & _). apply list_elem_of_lookup_2 in Hr. by eapply plain_rune_in. }
  destruct (_ <=? 3)%nat; [done|]. by rewrite plain_app, Ht.
Qed.
Lemma plain_padRight s n : plain s = true → plain (padRight s n) = true.
Proof. intros Hs. unfold padRight. by rewrite plain_app, Hs, plain_spaces. Qed.
Lemma plain_padLeft s n : plain s = true → plain (padLeft s n) = true.
Proof. intros Hs. unfold padLeft. by rewrite plain_app, Hs, plain_spaces. Qed.
Lemma plain_concat sep l : plain sep = true → (∀ s, s ∈ l → plain s = true) → plain (String.concat sep l) = true.
Proof.
  intros Hsep. induction l as [|s l IH]; intros H; [done|]. destruct l as [|s' l]; [apply H; by left|].
  change (plain (s +:+ sep +:+ String.concat sep (s' :: l)) = true). rewrite !plain_app, Hsep, H, IH; [done| |by left].
  intros x Hx. apply H. by right.
Qed.
Lemma plain_fields word s : plain word = true → plain s = true → ∀ f, f ∈ fields_from word s → plain f = true.
Proof.
  revert word. induction s as [|c s IH]; intros word Hw Hs f; cbn [fields_from].
  - destruct (String.eqb word ""); [by intros ?%elem_of_nil|]. by intros ->%list_elem_of_singleton.
  - cbn [plain str_forall] in Hs. apply andb_true_iff in Hs as [Hc Hs]. destruct (is_space c).
    + intros [H|H]%elem_of_app; [|by eapply (IH "")]. destruct (String.eqb word ""); [by apply elem_of_nil in H|].
      by apply list_elem_of_singleton in H as ->.
    + apply IH; [|done]. rewrite plain_app, Hw. cbn [plain str_forall]. by rewrite Hc.
Qed.
(** What is sanitised holds no control byte. *)
Lemma sanitize_plain s : plain (sanitize s) = true.
Proof.
  unfold sanitize. apply plain_concat; [done|]. intros f. apply plain_fields; [done|].
  generalize (drop_escapes 0 (ReplaceAllString reCSISeq "" s)). clear. intros s. induction s as [|c s IH]; [done|].
  cbn [str_map plain str_forall]. fold (plain (str_map (λ c, if is_control c then Ascii.ascii_of_nat 32 else c) s)). rewrite IH, andb_true_r.
  unfold plain_byte. destruct (is_control c) eqn:E; [done|]. by rewrite E.
Qed.
Lemma plain_cell s n : plain (cell s n) = true.
Proof. apply plain_padRight, plain_truncateCell, sanitize_plain. Qed.
Lemma plain_cellRight s n : plain (cellRight s n) = true.
Proof. apply plain_padLeft, plain_truncateCell, sanitize_plain. Qed.
Lemma plain_pretty_N n : plain (pretty (N.pos n)) = true.
Proof.
  assert (∀ x s, plain s = true → plain (pretty_N_go x s) = true) as HG.
  { intros x. induction (N.lt_wf_0 x) as [x _ IH]; intros s Hs. destruct (decide (x = 0%N)) as [->|Hx]; [by rewrite pretty_N_go_0|].
    rewrite pretty_N_go_step by lia. apply IH; [apply N.div_lt; lia|]. cbn [plain str_forall]. apply andb_true_iff. split; [|done].
    unfold pretty_N_char. by repeat case_match. }
  unfold pretty, pretty_N. case_decide; [done|]. by apply HG.
Qed.
Lemma plain_fmt_d z : plain (fmt_d z) = true.
Proof.
  unfold fmt_d. destruct z as [|p|p]; [done|apply plain_pretty_N|].
  change (plain ("-" +:+ pretty (N.pos p)) = true). by rewrite plain_app, plain_pretty_N.
Qed.
Lemma plain_substring s n m : plain s = true → plain (String.substring n m s) = true.
Proof.
  revert n m. induction s as [|c s IH]; intros [|n] [|m] Hs; try done; cbn [plain str_forall] in Hs; apply andb_true_iff in Hs as [Hc Hs]; cbn [String.substring].
  - cbn [plain str_forall]. rewrite Hc. by apply IH.
  - by apply IH.
  - by apply IH.
Qed.
Lemma plain_groupThousands s : plain s = true → plain (groupThousands s) = true.
Proof.
  unfold groupThousands. generalize (String.length s) as fuel. intros fuel. revert s. induction fuel as [|fuel IH]; intros s Hs; [done|].
  cbn [group_digits]. destruct (_ <=? 3)%nat; [done|]. rewrite !plain_app, IH; [|by apply plain_substring]. by rewrite plain_substring.
Qed.

Lemma plain_join a b : plain a = true → plain b = true → plain (a +:+ b) = true.
Proof. intros Ha Hb. by rewrite plain_app, Ha, Hb. Qed.

Create HintDb plain discriminated.
#[export] Hint Resolve plain_take plain_spaces plain_truncateCell plain_padRight plain_padLeft sanitize_plain plain_cell
  plain_cellRight plain_fmt_d plain_substring plain_groupThousands : plain.
(** A text put together from plain parts. *)
Ltac plain_parts :=
  rewrite ?andb_true_iff; repeat split;
  repeat lazymatch goal with
         | |- plain (_ +:+ _) = true => apply plain_join
         | |- plain (String _ _) = true => reflexivity
         | |- plain EmptyString = true => reflexivity
         end; auto 4 with plain.

Lemma plain_formatCount n : plain (formatCount n) = true.
Proof. unfold formatCount. destruct (n <? 0); plain_parts. Qed.
#[export] Hint Resolve plain_formatCount : plain.
Lemma plain_human n : plain (formatHumanDurationSeconds n) = true.
Proof. unfold formatHumanDurationSeconds. cbv zeta. repeat case_match; plain_parts. Qed.
#[export] Hint Resolve plain_human : plain.
Lemma plain_runtime d : plain (formatRuntimeSecs d) = true.
Proof. apply plain_human. Qed.
#[export] Hint Resolve plain_runtime : plain.
Lemma plain_due d : plain (formatRetryDueIn d) = true.
Proof. unfold formatRetryDueIn, pad3. cbv zeta. repeat case_match; plain_parts. Qed.
Lemma plain_tps tps : plain (formatTPS tps) = true.
Proof. unfold formatTPS. auto with plain. Qed.
Lemma plain_budget b : plain (formatClaimBudget b) = true.
Proof.
  unfold formatClaimBudget. cbv zeta. destruct (0 <? bg_MaxTokensPerClaim b), (0 <? bg_MaxRuntimeSecondsPerClaim b); cbn [app]; [..|done];
    apply plain_concat; try done; intros s; rewrite ?elem_of_cons; intros H;
    repeat (destruct H as [->|H]; [plain_parts|]); by apply elem_of_nil in H.
Qed.
#[export] Hint Resolve plain_due plain_tps plain_budget : plain.

Section Plain.
Context `{Sprint} (float_text fixed2 : float64 → string) (unix_now : Z).
Context (Hfloat : ∀ f, plain (float_text f) = true) (Hfixed : ∀ f, plain (fixed2 f) = true).
Lemma plain_reset_at v : plain (formatResetAtValue unix_now v) = true.
Proof. unfold formatResetAtValue, formatRateLimitDuration. destruct v; plain_parts. Qed.
Lemma plain_reset v : plain (formatResetValue v) = true.
Proof. unfold formatResetValue. destruct v; plain_parts. Qed.
Lemma plain_reset_text m s : rateLimitResetText unix_now m = Some s → plain s = true.
Proof.
  unfold rateLimitResetText. destruct (first_found _ _) as [v|].
  - intros [= <-]. plain_parts. apply plain_reset.
  - destruct (first_found _ _) as [v|]; [|done]. intros [= <-]. apply plain_reset_at.
Qed.
Lemma plain_window n : plain (formatRateLimitWindow n) = true.
Proof. unfold formatRateLimitWindow. repeat case_match; plain_parts. Qed.
Lemma plain_bucket v : plain (formatRateLimitBucket float_text unix_now v) = true.
Proof.
  unfold formatRateLimitBucket. destruct v; try done; try apply sanitize_plain. destruct (firstNumericVal m _) as [used|].
  - unfold formatPercentRateLimitBucket. cbv zeta. apply plain_concat; [done|]. intros s [->|Hin]%elem_of_cons; [plain_parts|].
    apply elem_of_app in Hin as [Hin|Hin].
    + destruct (firstIntVal m _) as [mins|]; [|by apply elem_of_nil in Hin].
      destruct (String.eqb _ ""); [by apply elem_of_nil in Hin|]. apply list_elem_of_singleton in Hin as ->. apply plain_window.
    + destruct (rateLimitResetText unix_now m) as [reset|] eqn:E; [|by apply elem_of_nil in Hin].
      apply list_elem_of_singleton in Hin as ->. by eapply plain_reset_text.
  - cbv zeta. destruct (match intVal m "remaining" with Some _ => _ | None => _ end) as [base|] eqn:E; [|done].
    assert (plain base = true) as Hb.
    { destruct (intVal m "remaining"), (intVal m "limit"); [injection E as <-; plain_parts..|].
      destruct m as [[|e l]|]; [done| |done]. by injection E as <-. }
    destruct (rateLimitResetText unix_now m) as [reset|] eqn:ER; [|done]. plain_parts. by eapply plain_reset_text.
Qed.
Lemma plain_credits v : plain (formatCredits fixed2 v) = true.
Proof. unfold formatCredits. destruct v; try done. destruct (is_bool_true _); [done|]. destruct (is_bool_true _); [|done]. destruct (present m "balance"); [plain_parts|done]. Qed.
End Plain.

(** ** Painted lines *)

(** The colour codes of the file, and the lines made of plain text and colour codes. *)
Definition digit_rune (r : string) : bool := match r with String c EmptyString => in_range 48 57 c | _ => false end.
Definition painted_next (m : Mode) (r : string) : option Mode :=
  match m with
  | Plain => if String.eqb r esc then Some Escaped else if plain r then Some Plain else None
  | Escaped => if String.eqb r "[" then Some InSequence else None
  | InSequence => if String.eqb r "m" then Some Plain else if digit_rune r then Some InSequence else None
  end.
Fixpoint painted (m : Mode) (l : list string) : bool :=
  match l with
  | [] => bool_decide (m = Plain)
  | r :: l => match painted_next m r with Some m' => painted m' l | None => false end
  end.
Definition painted_line (s : string) : Prop := painted Plain (runes 0 s) = true.

Lemma painted_ansi m r m' : painted_next m r = Some m' → ansi_next m r = m'.
Proof.
  destruct m; cbn [painted_next ansi_next].
  - destruct (String.eqb r esc); [by intros [= <-]|]. destruct (plain r); [by intros [= <-]|done].
  - destruct (String.eqb r "["); [by intros [= <-]|done].
  - destruct (String.eqb_spec r "m") as [->|_]; [by intros [= <-]|]. destruct (digit_rune r) eqn:E; [|done]. intros [= <-].
    destruct r as [|c [|? ?]]; [done| |done]. cbn [digit_rune final_byte] in *. unfold in_range in *.
    apply andb_true_iff in E as [_ E%Nat.leb_le]. destruct (64 <=? _)%nat eqn:E1; [apply Nat.leb_le in E1; lia|done].
Qed.
Lemma painted_app m l1 l2 : painted m l1 = true → painted Plain l2 = true → painted m (l1 ++ l2) = true.
Proof.
  intros H1 H2. revert m H1. induction l1 as [|r l1 IH]; intros m H1; cbn [app painted] in *; [by apply bool_decide_eq_true in H1 as ->|].
  destruct (painted_next m r); [by apply IH|done].
Qed.
Lemma painted_clipped w m v l : painted m l = true → painted m (clipped w m v l) = true.
Proof.
  revert m v. induction l as [|r l IH]; intros m v; [done|]. cbn [painted clipped]. destruct (painted_next m r) as [m'|] eqn:E; [|done].
  intros HP. apply painted_ansi in E as E'. rewrite E'. destruct (is_visible m r) eqn:Ev.
  - destruct (_ <=? v)%nat; [by destruct m|]. cbn [painted]. rewrite E. by apply IH.
  - cbn [painted]. rewrite E. by apply IH.
Qed.
Lemma painted_plain k s : plain s = true → painted Plain (runes k s) = true.
Proof.
  intros Hs. assert (∀ r, r ∈ runes k s → plain r = true) as H by (intros r; by apply plain_rune_in). revert H.
  generalize (runes k s). intros l. induction l as [|r l IH]; intros H; [done|]. cbn [painted painted_next].
  assert (plain r = true) as Hr by (apply H; by left). assert (String.eqb r esc = false) as -> by (apply String.eqb_neq; by intros ->).
  rewrite Hr. apply IH. intros x Hx. apply H. by right.
Qed.
Definition colours : list string := [ansiBold; ansiDim; ansiRed; ansiGreen; ansiYellow; ansiBlue; ansiMagenta; ansiCyan; ansiGray].
Lemma painted_line_plain s : plain s = true → painted_line s.
Proof. apply painted_plain. Qed.
Lemma painted_colorize s code : plain s = true → code ∈ colours → painted_line (colorize s code).
Proof.
  intros Hs Hc. unfold painted_line, colorize.
  assert (runes 0 (code +:+ s +:+ ansiReset) = runes 0 code ++ runes 0 (s +:+ ansiReset)) as ->.
  { unfold colours in Hc. repeat (apply elem_of_cons in Hc as [->|Hc]; [reflexivity|]). by apply elem_of_nil in Hc. }
  rewrite runes_app by (done || lia). apply painted_app.
  - unfold colours in Hc. repeat (apply elem_of_cons in Hc as [->|Hc]; [reflexivity|]). by apply elem_of_nil in Hc.
  - apply painted_app; [by apply painted_plain|reflexivity].
Qed.
Lemma painted_line_app a b : painted_line a → painted_line b → begins b = true → painted_line (a +:+ b).
Proof. intros Ha Hb Hs. unfold painted_line. rewrite runes_app by (done || lia). by apply painted_app. Qed.
Lemma begins_app a b : begins a = true → begins b = true → begins (a +:+ b) = true.
Proof. by destruct a. Qed.
Lemma begins_colorize s code : code ∈ colours → begins (colorize s code) = true.
Proof. intros Hc. unfold colours in Hc. repeat (apply elem_of_cons in Hc as [->|Hc]; [reflexivity|]). by apply elem_of_nil in Hc. Qed.

(** ** Decoding what was decoded *)

(** A rune that is read back whatever follows it. *)
Definition rune_ok (r : string) : Prop :=
  match r with
  | EmptyString => False
  | String c t => (∀ u, rune_width c (t +:+ u) = S (String.length t)) ∧ (t = "" → (str_byte c < 128)%nat)
  end.
Lemma rune_width_ascii c t : (str_byte c < 128)%nat → rune_width c t = 1%nat.
Proof.
  intros H. assert (∀ lo hi, (128 ≤ lo)%nat → in_range lo hi c = false) as Hr.
  { intros lo hi Hl. unfold in_range. apply andb_false_iff. left. apply Nat.leb_gt. unfold str_byte in H. lia. }
  assert (∀ k, (128 ≤ k)%nat → byte_is k c = false) as Hb.
  { intros k Hk. unfold byte_is. apply Nat.eqb_neq. unfold str_byte in H. lia. }
  unfold rune_width. by rewrite !Hr, !Hb by lia.
Qed.
Lemma rune_width_cut c t u n : rune_width c t = S (S n) → rune_width c (str_take (S n) t +:+ u) = S (S n).
Proof.
  unfold rune_width. destruct t as [|x [|y [|z t]]]; cbn [str_tail continuation]; rewrite ?andb_false_r; cbn [andb];
    repeat match goal with |- (if ?b then _ else _) = S (S _) → _ => destruct b eqn:?; try done end; intros [= <-];
    cbn [str_take]; rewrite ?str_app_nil, ?str_app_cons; cbn [str_tail continuation];
    rewrite ?str_app_nil, ?str_app_cons; cbn [str_tail continuation];
    repeat match goal with H : _ = true |- _ => rewrite H end; try done.
Qed.
Lemma runes_ok k s : Forall rune_ok (runes k s).
Proof.
  revert k. induction s as [|c t IH]; intros k; [constructor|]. cbn [runes]. destruct k as [|k]; [|apply IH]. constructor; [|apply IH].
  pose proof (rune_width_pos c t). pose proof (rune_width_fits c t). destruct (rune_width c t =? 1)%nat eqn:E; cbn [andb].
  - apply Nat.eqb_eq in E. destruct (128 <=? str_byte c)%nat eqn:Eb.
    + split; [intros u; reflexivity|done].
    + apply Nat.leb_gt in Eb. rewrite E. split; [|done]. intros u. cbn [Nat.sub str_take String.length]. by apply rune_width_ascii.
  - apply Nat.eqb_neq in E. assert (String.length (str_take (rune_width c t - 1) t) = (rune_width c t - 1)%nat) as Hl by (apply str_take_length; lia).
    split; [|intros Hn; rewrite Hn in Hl; simpl in Hl; lia]. intros u. rewrite Hl.
    destruct (rune_width c t) as [|[|n]] eqn:Ew; [lia..|]. cbn [Nat.sub]. by apply rune_width_cut.
Qed.
Lemma runes_skip a b : runes (String.length a) (a +:+ b) = runes 0 b.
Proof. induction a as [|c a IH]; [done|]. rewrite str_app_cons. cbn [String.length runes]. apply IH. Qed.
Lemma runes_read_back l b : Forall rune_ok l → runes 0 (of_runes l +:+ b) = l ++ runes 0 b.
Proof.
  induction 1 as [|r l Hr _ IH]; [by rewrite str_app_nil|]. rewrite of_runes_cons, <- str_app_assoc. destruct r as [|c t]; [done|].
  destruct Hr as [Hw Hb]. rewrite str_app_cons. cbn [runes]. rewrite Hw. cbn [Nat.sub]. rewrite Nat.sub_0_r, runes_skip, IH.
  replace (S (String.length t) =? 1)%nat with (String.length t =? 0)%nat by done.
  destruct t as [|x t]; cbn [app]; f_equal.
  - cbn [String.length Nat.eqb andb]. replace (128 <=? str_byte c)%nat with false; [done|]. symmetry. apply Nat.leb_gt. by apply Hb.
  - cbn [String.length Nat.eqb andb]. f_equal. rewrite str_take_split, str_take_all by done.
    replace (S (String.length t) - String.length (String x t))%nat with 0%nat by (simpl; lia). by rewrite str_app_nil_r.
Qed.

(** ** The cut *)

Lemma clipped_runes w m v l : ∃ k, clipped w m v l = take k l.
Proof.
  revert m v. induction l as [|r l IH]; intros m v; [by exists 0%nat|]. cbn [clipped].
  destruct (is_visible m r); [destruct (_ <=? v)%nat; [by exists 0%nat|]|];
    [destruct (IH (ansi_next m r) (S v)) as [k ->]|destruct (IH (ansi_next m r) v) as [k ->]]; by exists (S k).
Qed.
(** The cut runes leave room for one more, and no escape sequence is open after them. *)
Lemma clipped_room w m v l x :
  (v ≤ w - 1)%nat → (w - 1 < v + visibleColumns m l)%nat →
  (v + visibleColumns m (clipped w m v l ++ x) ≤ w - 1 + visibleColumns Plain x)%nat.
Proof.
  revert m v. induction l as [|r l IH]; intros m v Hv; cbn [visibleColumns clipped]; [lia|]. destruct (is_visible m r) eqn:E; intros Hw.
  - destruct (w - 1 <=? v)%nat eqn:El; [by destruct m; cbn [app]; first [lia|discriminate E]|]. apply Nat.leb_gt in El. cbn [app visibleColumns]. rewrite E.
    specialize (IH (ansi_next m r) (S v)). lia.
  - cbn [app visibleColumns]. rewrite E. apply IH; lia.
Qed.
Definition cut_mark : string := "…" +:+ ansiReset.
Lemma truncate_runes line w :
  (w = 0%nat ∨ (visibleColumns Plain (runes 0 line) ≤ w)%nat) ∧ truncateToWidth line w = line ∨
  (w < visibleColumns Plain (runes 0 line))%nat ∧
  runes 0 (truncateToWidth line w) = clipped w Plain 0 (runes 0 line) ++ runes 0 cut_mark.
Proof.
  unfold truncateToWidth. destruct (w =? 0)%nat eqn:E0; [left; apply Nat.eqb_eq in E0; auto|]. cbv zeta.
  destruct (_ <=? w)%nat eqn:E; [left; apply Nat.leb_le in E; auto|]. right. split; [by apply Nat.leb_gt|].
  apply runes_read_back. destruct (clipped_runes w Plain 0 (runes 0 line)) as [k ->]. apply Forall_take, runes_ok.
Qed.
Lemma truncate_fits line w : (0 < w)%nat → (visibleColumns Plain (runes 0 (truncateToWidth line w)) ≤ w)%nat.
Proof.
  intros Hw. destruct (truncate_runes line w) as [[[->|Hv] ->]|[Hv ->]]; [lia|done|].
  pose proof (clipped_room w Plain 0 (runes 0 line) (runes 0 cut_mark)) as H.
  assert (visibleColumns Plain (runes 0 cut_mark) = 1%nat) as Hm by reflexivity. lia.
Qed.
Lemma truncate_painted line w : painted_line line → painted_line (truncateToWidth line w).
Proof.
  intros HP. destruct (truncate_runes line w) as [[_ ->]|[_ Hr]]; [done|]. unfold painted_line. rewrite Hr.
  apply painted_app; [by apply painted_clipped|reflexivity].
Qed.

(** ** The lines of a frame *)

Lemma plain_trim s : plain s = true → plain (TrimSpace s) = true.
Proof.
  intros Hs. unfold TrimSpace. assert (∀ s, plain s = true → plain (trim_left s) = true) as Hl.
  { clear. intros s. induction s as [|c s IH]; [done|]. cbn [trim_left]. destruct (is_space c); [|done].
    cbn [plain str_forall]. intros [_ H]%andb_true_iff. by apply IH. }
  apply Hl in Hs. revert Hs. generalize (trim_left s). clear. intros s. induction s as [|c s IH]; [done|]. cbn [trim_right].
  cbn [plain str_forall]. intros [Hc Hs]%andb_true_iff. specialize (IH Hs). destruct (trim_right s) as [|d t].
  - destruct (is_space c); [done|]. cbn [plain str_forall]. by rewrite Hc.
  - cbn [plain str_forall] in *. by rewrite Hc.
Qed.
Lemma plain_orUnknown s : plain s = true → plain (orUnknown s) = true.
Proof. intros Hs. unfold orUnknown. by destruct (blank s). Qed.
Lemma plain_labels seen rows :
  (∀ r, r ∈ rows → plain (ar_WorkflowPath r) = true ∧ plain (ar_WorkflowSource r) = true) →
  ∀ label, label ∈ labels_of seen rows → plain label = true.
Proof.
  revert seen. induction rows as [|r rows IH]; intros seen H label; cbn [labels_of]; [by intros ?%elem_of_nil|].
  destruct (H r) as [Hp Hs]; [by left|]. assert (∀ x, x ∈ rows → plain (ar_WorkflowPath x) = true ∧ plain (ar_WorkflowSource x) = true) as H'.
  { intros x Hx. apply H. by right. }
  destruct (_ || _); [by apply IH|]. intros [->|Hin]%elem_of_cons; [|by eapply IH]. destruct (String.eqb _ ""); by apply plain_trim.
Qed.
Lemma plain_workflow rows :
  (∀ r, r ∈ rows → plain (ar_WorkflowPath r) = true ∧ plain (ar_WorkflowSource r) = true) → plain (resolvedWorkflowLabel rows) = true.
Proof.
  intros H. unfold resolvedWorkflowLabel. pose proof (plain_labels [] rows H) as HL. destruct (labels_of [] rows); [done|]. by apply plain_concat.
Qed.
Lemma dot_colour event : statusDotColor event ∈ colours.
Proof. unfold statusDotColor, colours. repeat case_match; set_solver. Qed.
#[export] Hint Resolve plain_orUnknown : plain.

Lemma colour_in code : existsb (String.eqb code) colours = true → code ∈ colours.
Proof. intros (x & Hx & ->%String.eqb_eq)%existsb_exists. by apply list_elem_of_In. Qed.
(** A line put together from plain texts and coloured plain texts. *)
Ltac painted_parts :=
  repeat
    lazymatch goal with
    | H : ?goal |- ?goal => exact H
    | |- statusDotColor _ ∈ colours => apply dot_colour
    | |- _ ∈ colours => apply colour_in; reflexivity
    | |- painted_line (colorize _ _) => apply painted_colorize
    | |- painted_line (_ +:+ _) => apply painted_line_app
    | |- painted_line _ => apply painted_line_plain; reflexivity
    | |- begins (colorize _ _) = true => apply begins_colorize
    | |- begins (_ +:+ _) = true => apply begins_app
    | |- begins _ = true => reflexivity
    | |- plain _ = true => solve [plain_parts]
    end.

Section Lines.
Context `{Sprint} `{SortSlice} (float_text fixed2 : float64 → string) (unix_now : Z) (until : Time → Duration).
Context (Hfloat : ∀ f, plain (float_text f) = true) (Hfixed : ∀ f, plain (fixed2 f) = true).

Lemma rate_limits_painted rl : painted_line (formatRateLimits float_text fixed2 unix_now rl) ∧ begins (formatRateLimits float_text fixed2 unix_now rl) = true.
Proof.
  unfold formatRateLimits. destruct rl as [l|]; [|split; painted_parts]. cbv zeta.
  pose proof (λ v, plain_bucket float_text unix_now Hfloat v) as Hb. pose proof (plain_credits fixed2 Hfixed (map_get (Some l) "credits")) as Hc.
  destruct (String.eqb _ ""); split; painted_parts; plain_parts.
Qed.
Lemma running_row_painted r now width : painted_line (formatRunningRow r now width).
Proof. unfold formatRunningRow. cbv zeta. painted_parts. Qed.
Definition plain_retry (r : Retry) : Prop :=
  plain (y_Identifier r) = true ∧ plain (y_IssueID r) = true ∧ plain (y_Kind r) = true.
Lemma retry_row_painted r : plain_retry r → painted_line (formatRetryRow until r).
Proof.
  intros (Hi & HI & Hk). unfold formatRetryRow. cbv zeta.
  assert (plain (issueLabel (y_Identifier r) (y_IssueID r)) = true) as Hl by (unfold issueLabel; by repeat case_match).
  assert (plain (if String.eqb (y_Kind r) "" then "failure" else y_Kind r) = true) as Hkind by (by case_match).
  assert (plain (match y_DueAt r with Some due => formatRetryDueIn (until due) | None => "n/a" end) = true) as Hd by (destruct (y_DueAt r); auto with plain).
  match goal with |- context [colorize _ ansiCyan +:+ ?startup +:+ ?err] => set (startupPart := startup); set (errorPart := err) end.
  assert (painted_line startupPart ∧ begins startupPart = true) as [Hs1 Hs2].
  { subst startupPart. destruct (y_StartupPhase r) as [phase|]; [destruct (String.eqb phase "")|]; split; painted_parts. }
  assert (painted_line errorPart ∧ begins errorPart = true) as [He1 He2].
  { subst errorPart. destruct (String.eqb (y_Error r) ""); [|destruct (96 <? _)%nat]; split; painted_parts. }
  clearbody startupPart errorPart. painted_parts.
Qed.

(** The values printed as they came: the default agent, the profile of the runs, the
    labels of the queued retries. *)
Definition plain_state (state : State) : Prop :=
  plain (s_AgentDefault state) = true ∧
  (∀ r, r ∈ s_Running state → plain (ar_WorkflowPath r) = true ∧ plain (ar_WorkflowSource r) = true) ∧
  (∀ r, r ∈ s_Retrying state → plain_retry r).

Lemma header_row_painted width : painted_line (runningTableHeader width).
Proof.
  unfold runningTableHeader. cbv zeta. painted_parts. apply plain_concat; [done|]. intros s. rewrite !elem_of_cons. intros Hin.
  repeat (destruct Hin as [->|Hin]; [by first [apply plain_padRight|apply plain_padLeft]|]). by apply elem_of_nil in Hin.
Qed.
Lemma separator_painted width : painted_line (runningTableSep width).
Proof. unfold runningTableSep. painted_parts. apply plain_of_runes. intros r Hr%list_elem_of_In%repeat_spec. by subst r. Qed.
Lemma header_painted state tps baseURL interval width line :
  plain_state state → plain baseURL = true →
  line ∈ header_lines float_text fixed2 unix_now state tps baseURL interval width → painted_line line.
Proof.
  intros (Ha & Hr & _) Hb. pose proof (plain_workflow (s_Running state) Hr) as Hw. destruct (rate_limits_painted (s_RateLimits state)) as [Hrl Hrb].
  unfold header_lines, count_of, dashboard_line, seconds_text. set (rl := formatRateLimits _ _ _ _) in *. clearbody rl.
  rewrite !elem_of_cons. intros Hin. repeat (destruct Hin as [->|Hin]; [try solve [painted_parts]|]); [..|by apply elem_of_nil in Hin].
  - apply header_row_painted.
  - apply separator_painted.
Qed.
Lemma frame_painted state now tps baseURL interval terminal_width columns_env atoi line :
  plain_state state → plain baseURL = true →
  line ∈ frame_lines float_text fixed2 unix_now until terminal_width columns_env atoi state now tps baseURL interval → painted_line line.
Proof.
  intros Hs Hb. unfold frame_lines. cbv zeta. rewrite !elem_of_app. intros [Hin|[Hin|[Hin|[Hin|Hin]]]].
  - by eapply header_painted.
  - destruct (s_Running state) as [|r rows].
    + apply elem_of_cons in Hin as [->|Hin]; [painted_parts|]. by apply list_elem_of_singleton in Hin as ->.
    + apply elem_of_app in Hin as [Hin|Hin]; [|by apply list_elem_of_singleton in Hin as ->]. apply list_elem_of_fmap in Hin as (x & -> & _). apply running_row_painted.
  - apply elem_of_cons in Hin as [->|Hin]; [painted_parts|]. apply list_elem_of_singleton in Hin as ->. painted_parts.
  - destruct Hs as (_ & _ & Hq). destruct (s_Retrying state) as [|r rows]; [apply list_elem_of_singleton in Hin as ->; painted_parts|].
    apply list_elem_of_fmap in Hin as (x & -> & Hx). apply retry_row_painted, Hq. by rewrite sort_slice_perm in Hx.
  - apply list_elem_of_singleton in Hin as ->. painted_parts.
Qed.
Lemma unavailable_painted fetchErr tps baseURL interval line :
  plain fetchErr = true → plain baseURL = true → line ∈ unavailable_lines fetchErr tps baseURL interval → painted_line line.
Proof.
  intros Hf Hb. unfold unavailable_lines, dashboard_line, seconds_text. rewrite !elem_of_cons. intros Hin.
  repeat (destruct Hin as [->|Hin]; [painted_parts|]). by apply elem_of_nil in Hin.
Qed.
End Lines.


(** ** A screen *)

Module Screen.
#[export] Instance sprint : Sprint := fun _ => "<nil>".
#[export] Instance sort_slice_insertion : SortSlice := {| sort_slice := @stable_sort; sort_slice_perm := @stable_sort_perm |}.

Definition claim : api_Running := {|
  ar_IssueID := "42"; ar_Identifier := "ENG-42"; ar_IssueURL := ""; ar_State := "In Progress"; ar_SessionID := "thread-0123456789";
  ar_TurnCount := 3; ar_LastEvent := "turn_completed"; ar_LastMessage := byte 27 +:+ "[2Jcleared" +:+ byte 10 +:+ "the screen";
  ar_StartedAt := None; ar_RuntimeSeconds := 0; ar_LastEventAt := None; ar_RetryAttempt := None; ar_WorkspacePath := "/w/ENG-42";
  ar_Tokens := {| tv_InputTokens := 1200; tv_OutputTokens := 34; tv_TotalTokens := 1234 |}; ar_CodexAppServerPID := 7;
  ar_AgentProvider := ""; ar_AgentModel := ""; ar_WorkflowSource := "default"; ar_WorkflowPath := "" |}.
Definition retry (kind : string) : Retry := {|
  y_IssueID := "43"; y_Identifier := "ENG-43"; y_Attempt := 2; y_Kind := kind; y_DueAt := Some 0; y_Error := "boom"; y_StartupPhase := None |}.
Definition state (kind : string) : State := {|
  s_AgentDefault := "codex"; s_MaxConcurrentAgents := 4; s_CompletedTotal := 1000; s_HandoffStoppedTotal := 0; s_HandoffStopped := 0;
  s_NoHandoffTotal := 0; s_Running := [claim]; s_Retrying := [retry kind];
  s_Totals := {| tv_InputTokens := 1200; tv_OutputTokens := 34; tv_TotalTokens := 1234 |}; s_SecondsRunning := 90 * Second;
  s_BudgetGuardrails := {| bg_MaxTokensPerClaim := 0; bg_MaxRuntimeSecondsPerClaim := 3600 |}; s_RateLimits := None |}.

Example row_text :
  formatRunningRow claim 0 24 =
  "│ " +:+ colorize "●" ansiMagenta +:+ " " +:+ colorize "ENG-42  " ansiCyan +:+ " " +:+ colorize "In Progress   " ansiMagenta +:+ " " +:+
  colorize "7       " ansiYellow +:+ " " +:+ colorize "0s / 3      " ansiMagenta +:+ " " +:+ colorize "     1,234" ansiYellow +:+ " " +:+
  colorize "thre...456789 " ansiCyan +:+ " " +:+ colorize "unknown             " ansiGray +:+ " " +:+
  colorize "cleared the screen      " ansiMagenta.
Proof. vm_compute. reflexivity. Qed.

(** The kind of a retry is printed as it came, unlike its error and its startup phase: the
    row then clears the screen. *)
Example retry_kind_unsanitised :
  ∃ rest, formatRetryRow (λ _, 0) (retry (byte 27 +:+ "[2J")) =
            "│  " +:+ colorize "↻" ansiYellow +:+ " " +:+ colorize "ENG-43" ansiRed +:+ " " +:+ ansiYellow +:+ "kind=" +:+ byte 27 +:+ "[2J" +:+ rest.
Proof. eexists. vm_compute. reflexivity. Qed.
(** Neither is the body of a response that is not the state. *)
Example fetch_error_unsanitised :
  fetchStateWithAuth (λ _, inr (404, byte 27 +:+ "[2J" +:+ byte 10)) (λ _, inl "") "" = inl ("HTTP 404: " +:+ byte 27 +:+ "[2J") ∧
  ¬ painted_line (colorize ("HTTP 404: " +:+ byte 27 +:+ "[2J") ansiRed).
Proof. by vm_compute. Qed.
End Screen.

